(* ===== verification/_CoqProject ===== *)
-Q . S2P
Prelude.v
CharacterSource.v
TextCodecUTF8.v
TextCodecUTF8Loops.v
TextCodecUTF8Safety.v
TextCodecUTF8Spec.v
UnicodeUTF8.v
UnicodeUTF8Spec.v
BitStrings.v
IntegerParsing.v
IntegerParsingSpec.v
Base64.v
Base64Spec.v
Base64Decode.v
Base64Roundtrip.v
SHA1.v
SHA1Spec.v
WebSocketFrame.v
WebSocketFrameSpec.v
WebSocketChannel.v
SocketStreamHandle.v
SocketStreamHandleSpec.v
WebSocketLifecycle.v
WebSocketSession.v
WebSocketInvariant.v
WebSocketExtensions.v
WebSocketExtensionsSpec.v
WebSocketHandshake.v
WebSocketHandshakeSpec.v
WebSocketHandshakeSafety.v
WebSocketConnection.v
WebSocketOpening.v
HTTPParsers.v
HTTPParsersSpec.v
HTTPValuesSpec.v
HashTable.v
HashTableProbing.v
HashTableSpec.v
HashFunctions.v
HashMap.v
HashMapSpec.v
StringHasher.v
StringHasherSpec.v
StringEqual.v
AtomicString.v
UTF8Text.v
AtomicStringSpec.v
AtomicStringSession.v
SegmentedString.v
InputStreamPreprocessor.v
HTMLEntitySearch.v
CharacterReference.v
CharacterReferenceSpec.v
HTMLToken.v
TokenizerStates.v
HTMLTokenizer.v
TokenizerConsumption.v
TokenizerRefinement.v
TokenizerInvariant.v
TokenizerSafety.v
TokenizerLiveness.v
HTMLInputStream.v
BackgroundHTMLInputStream.v
TokenizerSession.v
TokenizerRoundtrip.v
Region.v
RegionRows.v
RegionBounds.v
RegionAlgebra.v
Blob.v
BlobSpec.v
BlobResourceHandle.v
BlobReading.v
BlobSeek.v
BlobAsync.v
BlobErrors.v
BlobRegistrySpec.v
