(* ===== verification/Prelude.v ===== *)
(** * WebKit: from bytes to tokens, web sockets, blobs, hash tables, and regions of the plane

    This library models the text pipeline of WebCore's HTML parser, its web
    socket channel, the registry and the loading of blobs, the hash tables, atomic strings, base64 and
    SHA-1 of WTF and the [Region] class of the graphics layer, and proves them correct.

    ** The program

    The repository is a browser engine.  The part modelled here turns the
    bytes of a document into tokens.  [TextCodecUTF8] decodes the bytes; the
    text goes into a [SegmentedString] inside an [HTMLInputStream], where
    [document.write] inserts at insertion points (the background parser uses a
    [BackgroundHTMLInputStream] that can be rewound to a checkpoint); the
    [HTMLTokenizer] reads it through an [InputStreamPreprocessor] and fills an
    [HTMLToken], calling [consumeHTMLEntity] and its [HTMLEntitySearch] for
    character references; the loop of [HTMLDocumentParser] asks for one token
    after the other.  A [WebSocketChannel] opens a connection with a
    [WebSocketHandshake], which makes a key of random bytes with [base64Encode] and
    the accept value it expects with [SHA1], sends a request, reads the status line and the
    headers of the answer ([parseHTTPHeader]) and negotiates extensions
    ([WebSocketExtensionDispatcher]); then it turns the bytes of the socket
    into messages for its client with [WebSocketFrame], decodes text with
    [String::fromUTF8], answers control frames, and queues, encodes and writes
    the messages of the client.  Names of tags, attributes and headers are
    [AtomicString]s: one object for each text, found in a [HashSet] by the hash
    code of a [StringHasher].  Every [HashMap] and [HashSet] of the engine is a
    [HashTable].  A script makes blobs of data, of files and of slices of blobs; the [BlobRegistry]
    stores them as parts of data and files under a URL, and a [BlobResourceHandle] loads that URL or a
    range of it, at once or with an [AsyncFileStream] on another thread.  [Region] is independent of all this: sets of
    points kept as spans of rows, used for painting and hit testing.

    ** Files

    - [Prelude.v]: characters, 32 bit arithmetic, record update, tactics and
      shared lemmas; the ICU macros for UTF-16.
    - [CharacterSource.v]: the interface between the tokenizer and its input
      (class [CharacterSource]), its specification [ListSource] and what a
      refinement of it is ([CharacterSourceRefines]).
    - [TextCodecUTF8.v], [TextCodecUTF8Loops.v], [TextCodecUTF8Safety.v],
      [TextCodecUTF8Spec.v]: [platform/text/TextCodecUTF8.cpp] and
      [wtf/text/ASCIIFastPath.h]; the loops without their buffers; termination
      and the sizes of the buffers, whose length the code computes in 32 bits;
      the reference decoder, equivalence, chunks and round trip.
    - [UnicodeUTF8.v], [UnicodeUTF8Spec.v]: [wtf/unicode/UTF8.cpp],
      [String::fromUTF8] and [StringImpl::utf8], against the reference decoder
      of the codec.
    - [BitStrings.v]: bytes in memory, the bits of numbers, lists in chunks.
    - [Base64.v], [Base64Spec.v], [Base64Decode.v], [Base64Roundtrip.v]:
      [wtf/text/Base64.cpp] with [btoa] and [atob] of [page/DOMWindow.cpp]; the encoder against
      groups of six bits, the decoder that works in place, and both together.
    - [SHA1.v], [SHA1Spec.v]: [wtf/SHA1.cpp] against a specification on strings of bits.
    - [IntegerParsing.v], [IntegerParsingSpec.v]: reading and writing integers
      of every width: [wtf/text/WTFString.cpp],
      [wtf/text/IntegerToStringConversion.h].
    - [WebSocketFrame.v], [WebSocketFrameSpec.v]:
      [Modules/websockets/WebSocketFrame.cpp], round trip and streaming.
    - [SocketStreamHandle.v], [SocketStreamHandleSpec.v]:
      [platform/network/SocketStreamHandleBase.cpp] and its buffer
      [wtf/StreamBuffer.h] over the calls of the platform; what is accepted is
      sent, in order ([handle_sends_in_order]), and the handle as an instance of
      what the channel asks of a socket ([SocketAccepts]).
    - [WebSocketChannel.v], [WebSocketLifecycle.v], [WebSocketSession.v],
      [WebSocketInvariant.v]:
      [Modules/websockets/WebSocketChannel.cpp] and
      [WebSocketDeflateFramer.cpp] in a monad over the record of the channel,
      with classes for the handshake, the socket handle, zlib and the masking
      keys; what holds of every sequence of calls; conversations with a server
      against the specification [assembleAll] over whole frames; the invariant
      of the record and the closing of the socket.
    - [WebSocketExtensions.v], [WebSocketExtensionsSpec.v]:
      [WebSocketExtensionParser.cpp], [WebSocketExtensionDispatcher.cpp] and the
      extension processor of [WebSocketDeflateFramer.cpp]; the class
      [ExtensionProcessor] is what the dispatcher knows of an extension.
    - [WebSocketHandshake.v], [WebSocketHandshakeSpec.v],
      [WebSocketHandshakeSafety.v]: [WebSocketHandshake.cpp],
      [parseHTTPHeader] of [platform/network/HTTPParsers.cpp] and the map of
      headers; answers that are printed are read, and answers that are read
      with success are right.
    - [WebSocketConnection.v]: the channel over any handshake that reads an
      answer ([HandshakeAnswers]), the handshake above as one, and whole
      connections.
    - [WebSocketOpening.v]: the constructor of the handshake with its key and its accept value,
      the parts of the URL, [WebSocketChannel::connect], and a server that follows RFC 6455.
    - [HTTPParsers.v], [HTTPParsersSpec.v], [HTTPValuesSpec.v]: the other parsers of
      [platform/network/HTTPParsers.cpp] with the functions of [WTF::String] they call; scanning and the
      grammar of the XSS protection header; request lines, media types, frame options and ranges.
    - [Blob.v], [BlobSpec.v]: [platform/network/BlobData.{h,cpp}], [BlobRegistryImpl.cpp],
      [Blob::slice] of [fileapi/Blob.cpp] and [platform/FileStream.cpp] over the system calls
      ([FileSystem]); the bytes of items and of slices, with the contents of files as the law of the
      system ([FileContents]).
    - [BlobResourceHandle.v], [BlobReading.v], [BlobSeek.v], [BlobAsync.v], [BlobErrors.v],
      [BlobRegistrySpec.v]: [platform/network/BlobResourceHandle.cpp] and
      [fileapi/AsyncFileStream.cpp]; the position of a handle and what is ahead of it; sizes and
      ranges; the tasks of a load in the background; loads that are refused, cancelled, or not done
      as they are asked for; slices and loads by URL.
    - [HashTable.v], [HashTableProbing.v], [HashTableSpec.v]: [wtf/HashTable.h];
      the buckets a lookup visits; the invariant and the finite map of a table.
      The classes [HashFunctions], [KeyExtractor] and [HashTranslator] are the
      template parameters, [HashFunctionsOk] and [HashTranslatorOk] what they
      promise.
    - [HashFunctions.v]: [wtf/HashFunctions.h], and instances of the promise.
    - [HashMap.v], [HashMapSpec.v]: [wtf/HashMap.h] and [wtf/HashSet.h] against
      finite maps and sets.
    - [StringHasher.v], [StringHasherSpec.v]: [wtf/StringHasher.h].
    - [StringEqual.v]: the comparisons of [wtf/text/StringImpl.h], several
      characters at a time.
    - [AtomicString.v], [UTF8Text.v], [AtomicStringSpec.v],
      [AtomicStringSession.v]: [wtf/text/AtomicString.cpp] and the rest of
      [wtf/unicode/UTF8.cpp]; the readers of UTF-8; the translators as
      instances of the promise to the hash table; sessions against interning in
      a finite map.
    - [SegmentedString.v]: [platform/text/SegmentedString.{h,cpp}] with its
      representation invariant [wf]; it refines [ListSource].
    - [InputStreamPreprocessor.v]: [html/parser/InputStreamPreprocessor.h].
    - [HTMLEntitySearch.v]: [html/parser/HTMLEntitySearch.cpp] over any table
      ([HTMLEntityTable]) that is sorted as the generator sorts it
      ([HTMLEntityTableOk]).
    - [CharacterReference.v], [CharacterReferenceSpec.v]:
      [xml/parser/CharacterReferenceParserInlines.h] with
      [html/parser/HTMLEntityParser.cpp], and the specification [reference].
    - [HTMLToken.v], [TokenizerStates.v], [HTMLTokenizer.v]:
      [html/parser/HTMLToken.h], the 71 state blocks of
      [html/parser/HTMLTokenizer.cpp], one definition each with the name of the
      state, and [nextToken] with the macros of
      [xml/parser/MarkupTokenizerInlines.h] as the actions a block ends with.
    - [TokenizerConsumption.v], [TokenizerRefinement.v], [TokenizerInvariant.v],
      [TokenizerSafety.v], [TokenizerLiveness.v]: what [nextToken] consumes,
      [nextToken] over related sources, its invariant, safety and progress.
    - [HTMLInputStream.v], [BackgroundHTMLInputStream.v]: the two input
      streams, each against a specification with plain texts.
    - [TokenizerSession.v], [TokenizerRoundtrip.v]: the composition: sessions
      of input and calls of [nextToken], whole documents, printing and
      tokenizing, checkpoints.
    - [Region.v], [RegionRows.v], [RegionBounds.v], [RegionAlgebra.v]:
      [platform/graphics/Region.{h,cpp}] with the parts of [IntRect] it calls,
      the sets its vectors denote, bounds and queries, and the set algebra.

    ** How the code is modelled

    A class is a record with the names of its members, a member function is a
    definition that takes and returns it.  Code units, bytes and [int] are
    integers with their reductions ([int32], [uint32], [int64], [mod]) where the source's types
    reduce: the [length()] of a segmented string is one modulo 2^32.  Counts in
    [int] that the source only adds to and subtracts from are integers, and the theorems bound what
    they count: a text of the tokenizer is shorter than 2^31 characters ([seg_reads],
    [countable], [countableText]).  An [ASSERT] becomes a ghost flag of the record it guards
    ([m_asserts], [bs_asserts]) that the safety theorems show to stay true, or
    a precondition of the operation where the class states it as one; in the
    web socket channel a failed assertion and a null pointer end the operation
    without a result.
    Iterators and pointers into a buffer are the list of what is left.  ICU's
    [u_foldCase] is the class [CaseFolding]; the only law used of it, where it
    is used at all, is that it folds ASCII letters ([CaseFoldingASCII]).

    ** Fuel

    Loops that are not structural take fuel that bounds them: [nextToken] runs
    at most four blocks per character ahead and four more, which
    [nextToken_ok] of [TokenizerSafety.v] proves enough (the characters ahead
    are counted by [charactersAhead], which the code does not have: its 32 bit
    length wraps around); the loops of the
    entity search, the preprocessor, the codec and the regions take the length
    of what they consume, and their specifications are proved at that fuel;
    the loops of the channel take the length of the buffer and of the queue,
    and running out would be a failure, which the theorems about conversations
    exclude; the loops of the socket take the number of bytes that wait; the loops of base64 take the length of the data or of the vector they fill, and those of
    SHA-1 count to a constant; the loops over header values take a round more than there are characters.  A
    load of a blob takes a round for every item and every byte, and its tasks end after a number of
    steps that is proved to exist.  A lookup in a hash table takes one round more than there are buckets: the
    step is odd and the size a power of two, so every bucket is visited
    ([probe_onto]), and one is always empty.  Sessions with hash tables are bounded by
    [manyKeys], 2 ^ 24 operations, so that no count of a table overflows [int].

    ** What the theorems show

    - The tokenizer: safety in every session ([tokenizer_session_safe]),
      termination over a document ([document_tokenized]), independence of the
      segmentation ([tokens_independent_of_segments]), round trip with a
      printer ([tokenize_printed_document]), checkpoints
      ([checkpoint_restores_tokenizer]).  Texts are shorter than 2^31
      characters; safety and termination assume that numeric references fit a
      32 bit integer ([references_in_range]).
    - The inputs: [segmented_string_is_a_queue], line and column counting,
      [input_stream_keeps_text_in_order], [background_stream_rewinds].
    - Character references: the entity search, [consumeHTMLEntity_decodes] and
      the round trip of numeric references.
    - The codec: [decode] is a reference decoder ([decode_equals_reference]),
      does not depend on the chunks of valid text
      ([valid_text_independent_of_chunks]), gives well-formed UTF-16 whatever the bytes
      ([decoded_text_is_well_formed]), inverts [encode]
      ([encode_decode_roundtrip]), and ends within its buffers on any bytes
      ([decode_total]), as long as their number does not overflow the 32 bit
      length of the buffer ([dataFits]).
    - Strings and web sockets: [fromUTF8_agrees_with_codec],
      [utf8_fromUTF8_roundtrip], [frame_roundtrip], [parse_verdict_final]; the
      channel makes of frames in any pieces what the specification says
      ([channel_assembles_messages], [channel_fragments_transparent]), from the
      opening handshake on ([connection_from_handshake]), connects to every server that
      follows the RFC ([rfc6455_server_connects]), answers a
      close frame ([channel_answers_close]), never calls a client after it
      has told it of the end ([channel_close_is_final]), keeps its invariant
      ([channel_invariant]) and reports a socket that closes
      ([closed_socket_is_reported]).  The theorems about conversations bound
      the data by 2^31 bytes and ask of the socket that it takes the answers of
      the channel ([SocketAccepts]), which the modelled handle does while it is open and
      its buffer has room ([handle_sends_in_order]).  A server cannot fool the handshake
      ([handshake_connected_is_accepted]) or the negotiation of compression
      ([deflate_negotiation_safe]).
    - Hash tables: a [HashMap] is a finite map in every session
      ([hash_map_is_a_map]), comparing maps and sets compares what they stand for
      ([hash_maps_compare], [set_equal_spec]), and the integer hashes lose
      nothing ([intHash32_injective], [intMix64_injective]).
    - Atomic strings: they are interned ([atomic_strings_are_interned]); the hash
      code depends on the text only ([string_hash_of_pieces]), UTF-8 is read by
      three functions alike ([utf8_readers_agree]), and comparing words of memory
      compares characters ([word_comparison_compares_characters]).
    - Base64 and SHA-1: the encoder prints the bits of its data within the vector it allocates
      ([base64_encodes_bits]), the decoder accepts exactly the encodings
      ([base64_decoder_decides]) and inverts it ([base64_roundtrip], [atob_btoa]); the digest of a
      stream is the SHA-1 of its bytes ([sha1_streams]).
    - Numbers: [integer_parse_exact] and [number_roundtrip].
    - Values of HTTP headers: the XSS protection header and request lines are read exactly by their
      grammars ([xss_header_decides], [request_line_decides]), the charset of a media type is found
      within it ([media_type_charset]), frame options agree or conflict ([frame_options_agree]), and
      ranges are read ([range_read]).
    - Blobs: slices have the bytes of the File API and are loaded as these bytes
      ([blob_slice_loaded]), a load delivers the bytes of its range, at once ([blob_loaded_at_once]) and
      in the background ([blob_loaded_in_background]), or is refused with the right status
      ([blob_load_refused]), and nothing is told after it is cancelled ([cancelled_is_silent]).  The
      hypotheses on ranges are those the code needs: without them bytes are lost, as
      [BlobErrors.v] shows.
    - Regions: every operation computes the operation on sets it is named
      after, equality decides equality of sets, [rects] partitions, bounds are
      tight.
    - Where the code does not do what it means to, or what its comments say, a
      theorem shows an input: truncated markup declarations, numeric references
      that overflow, copies of strings with two pushed-back characters, pushed-back NUL characters, counts
      left by [clear], data that overflow the length of a buffer or that a socket takes in part, regions
      of empty or distant rectangles, null pointers in the channel, numbers below
      the least one, status lines without an end, the hash of pairs and of hashes, base64 of blanks that is decoded
      to the memory it finds, line counts that overflow, content dispositions with white space, ranges with signs, ranges of blobs that
      begin within an item or reach behind the end, and others
      next to the component.

    ** Not modelled

    The tree builder and the DOM, script execution, the preload scanner, the
    XSS auditor, threads and scheduling; style, layout, loading but for blobs, the
    JavaScript engine and the ports; the system calls of a socket, which are an interface of
    [SocketStreamHandle.v], and compression, which is one of the channel; the parser of URLs, of which the handshake takes the parts, cookies
    and random numbers, which are given; a client that calls the channel from
    within its callbacks; reference counts and the garbage of strings, iterators that outlive a
    change of their table, and the statistics of hash tables.  Blobs are loaded for a client that
    is there and lets the handle go on; the file thread and the main thread take turns in one order, and
    headers of the response other than its length are left out.  The table of entities is generated by the
    build and is a parameter.  Printing for debuggers and the registration of
    codecs have no definitions. *)

From Stdlib Require Export ZArith Lia.
From stdpp Require Export base list list_numbers numbers strings.
Open Scope Z_scope.

(** ** Characters

    [UChar] (16 bit) and [LChar] (8 bit) code units are kept as [Z]; the
    values a definition can produce are bounded by lemmas where the width
    matters.  A one-character string literal in [uchar_scope] denotes the
    code unit of that character, so that [cc =? "<"%uchar] reads like the
    source's [cc == '<']. *)

Abbreviation UChar := Z (only parsing).
Abbreviation LChar := Z (only parsing).
Abbreviation UChar32 := Z (only parsing).

Declare Scope uchar_scope.
Delimit Scope uchar_scope with uchar.

Definition uchar_parse (b : Byte.byte) : option Z := Some (Z.of_N (Byte.to_N b)).
Definition uchar_print (z : Z) : option Byte.byte := None.
String Notation Z uchar_parse uchar_print : uchar_scope.

(** The code units of an ASCII string literal. *)
Fixpoint str (s : string) : list UChar :=
  match s with
  | String.EmptyString => []
  | String.String a s' => Z.of_N (Ascii.N_of_ascii a) :: str s'
  end.

(** Characters that have no readable one-character literal. *)
Abbreviation cNUL := 0 (only parsing).
Abbreviation cTAB := 9 (only parsing).
Abbreviation cLF := 10 (only parsing).
Abbreviation cFF := 12 (only parsing).
Abbreviation cCR := 13 (only parsing).
Abbreviation cQUOT := 34 (only parsing).
Abbreviation replacementCharacter := 65533 (only parsing).

(** ** [wtf/ASCIICType.h] *)

Definition isASCIIUpper (c : UChar) : bool := (c >=? "A"%uchar) && (c <=? "Z"%uchar).
Definition isASCIILower (c : UChar) : bool := (c >=? "a"%uchar) && (c <=? "z"%uchar).
Definition isASCIIDigit (c : UChar) : bool := (c >=? "0"%uchar) && (c <=? "9"%uchar).
Definition isASCIIAlpha (c : UChar) : bool :=
  (Z.lor c 32 >=? "a"%uchar) && (Z.lor c 32 <=? "z"%uchar).
Definition toASCIILower (c : UChar) : UChar :=
  Z.lor c (Z.shiftl (Z.b2z ((c >=? "A"%uchar) && (c <=? "Z"%uchar))) 5).

(** ** Machine integers *)

(** Two's complement reduction to a signed 32 bit integer. *)
Definition int32 (z : Z) : Z := (z + 2 ^ 31) mod 2 ^ 32 - 2 ^ 31.
(** Reduction to an unsigned 32 bit integer. *)
Definition uint32 (z : Z) : Z := z mod 2 ^ 32.

(** ** The macros of [icu/unicode/utf.h] and [utf16.h] *)

Definition U_IS_BMP (c : UChar32) : bool := uint32 c <=? 65535.
Definition U16_LEAD (c : UChar32) : UChar := (Z.shiftr c 10 + 55232) mod 2 ^ 16.
Definition U16_TRAIL (c : UChar32) : UChar := Z.lor (Z.land c 1023) 56320.

Lemma int32_id z : - 2 ^ 31 <= z < 2 ^ 31 -> int32 z = z.
Proof. intros H. unfold int32. rewrite Z.mod_small; lia. Qed.

Lemma int32_range z : - 2 ^ 31 <= int32 z < 2 ^ 31.
Proof.
  unfold int32. pose proof (Z.mod_pos_bound (z + 2 ^ 31) (2 ^ 32) ltac:(lia)). lia.
Qed.

Lemma int32_shift z k : int32 (z + k * 2 ^ 32) = int32 z.
Proof.
  unfold int32. replace (z + k * 2 ^ 32 + 2 ^ 31) with (z + 2 ^ 31 + k * 2 ^ 32) by lia.
  by rewrite Z_mod_plus_full.
Qed.

Lemma int32_wraps z : exists k, int32 z = z + k * 2 ^ 32.
Proof.
  exists (- ((z + 2 ^ 31) / 2 ^ 32)). unfold int32.
  pose proof (Z.div_mod (z + 2 ^ 31) (2 ^ 32) ltac:(lia)). lia.
Qed.

(** Bits that do not overlap. *)
Lemma lor_disjoint a m k : 0 <= k -> 0 <= a < 2 ^ k -> Z.lor a (m * 2 ^ k) = a + m * 2 ^ k.
Proof.
  intros Hk Ha. rewrite <- Z.lxor_lor; [rewrite <- Z.add_nocarry_lxor; [done|]|];
    apply Z.bits_inj'; intros i Hi; rewrite Z.land_spec, Z.bits_0;
    (destruct (Z.lt_ge_cases i k) as [L|L];
      [rewrite Z.mul_pow2_bits_low by lia; apply andb_false_r
      |rewrite (Z.testbit_eqb a) by lia; rewrite Z.div_small; [done|split; [lia|]];
       eapply Z.lt_le_trans; [apply Ha|apply Z.pow_le_mono_r; lia]]).
Qed.

Lemma land_low a k : 0 <= k -> Z.land a (2 ^ k - 1) = a mod 2 ^ k.
Proof. intros Hk. rewrite <- Z.land_ones by lia. by rewrite Z.ones_equiv, Z.sub_1_r. Qed.

(** A boolean fact about bytes is checked on all of them. *)
Lemma byte_check (f : Z -> bool) b :
  forallb f (map Z.of_nat (seq 0 256)) = true -> 0 <= b < 256 -> f b = true.
Proof.
  intros HF Hb. rewrite forallb_forall in HF. apply HF. apply in_map_iff. exists (Z.to_nat b).
  split; [lia|]. apply in_seq. lia.
Qed.

(** ** Record update

    [r <| f := v |>] is the record [r] with its field [f] set to [v], the
    counterpart of an assignment to a member variable.  Each state record
    declares one [Setter] instance per field. *)

Class Setter {R T : Type} (proj : R -> T) := set_field : T -> R -> R.
Arguments set_field {R T} proj {_} _ _ /.
Notation "r <| proj := v |>" := (set_field proj v r)
  (at level 12, left associativity, v at level 200, format "r  <|  proj  :=  v  |>").

(** ** Automation *)

(** Turns boolean comparisons among the hypotheses into propositions [lia]
    and [congruence] understand. *)
Ltac bool_hyps :=
  repeat match goal with
  | H : (_ && _)%bool = true |- _ => apply andb_true_iff in H; destruct H
  | H : (_ || _)%bool = false |- _ => apply orb_false_iff in H; destruct H
  | H : negb _ = true |- _ => apply negb_true_iff in H
  | H : negb _ = false |- _ => apply negb_false_iff in H
  | H : (_ =? _) = true |- _ => apply Z.eqb_eq in H
  | H : (_ =? _) = false |- _ => apply Z.eqb_neq in H
  | H : (_ <? _) = true |- _ => apply Z.ltb_lt in H
  | H : (_ <? _) = false |- _ => apply Z.ltb_ge in H
  | H : (_ <=? _) = true |- _ => apply Z.leb_le in H
  | H : (_ <=? _) = false |- _ => apply Z.leb_gt in H
  | H : (_ >=? _) = true |- _ => rewrite Z.geb_leb in H; apply Z.leb_le in H
  | H : (_ >=? _) = false |- _ => rewrite Z.geb_leb in H; apply Z.leb_gt in H
  | H : (_ >? _) = true |- _ => rewrite Z.gtb_ltb in H; apply Z.ltb_lt in H
  | H : (_ >? _) = false |- _ => rewrite Z.gtb_ltb in H; apply Z.ltb_ge in H
  end.

(** Case analysis on the innermost test of the goal, keeping its outcome. *)
Ltac case_test :=
  match goal with
  | |- context [if ?b then _ else _] =>
      lazymatch b with
      | context [if _ then _ else _] => fail
      | _ => let E := fresh "E" in destruct b eqn:E; simpl in *
      end
  end.

Ltac case_tests := repeat (case_test; try discriminate).

(** Linear arithmetic with division and remainder by constants. *)
Ltac div_lia := Z.to_euclidean_division_equations; lia.

(** Evaluates the comparisons whose outcome follows from the hypotheses. *)
Ltac lia_tests :=
  repeat match goal with
  | |- context [?u <? ?v] =>
      first [rewrite (proj2 (Z.ltb_lt u v)) by lia | rewrite (proj2 (Z.ltb_ge u v)) by lia]
  | |- context [?u <=? ?v] =>
      first [rewrite (proj2 (Z.leb_le u v)) by lia | rewrite (proj2 (Z.leb_gt u v)) by lia]
  | H : context [?u <? ?v] |- _ =>
      first [rewrite (proj2 (Z.ltb_lt u v)) in H by lia | rewrite (proj2 (Z.ltb_ge u v)) in H by lia]
  end.

(** ** Lists *)

Section Lists.
Context {A : Type}.
Implicit Types l : list A.

Lemma head_drop_nth l n (d : A) :
  (n < length l)%nat -> drop n l = nth n l d :: drop (S n) l.
Proof.
  revert n. induction l as [|a l IH]; intros [|n] H; simpl in *; try lia; auto.
  apply IH. lia.
Qed.

Lemma tail_drop l n : tail (drop n l) = drop (S n) l.
Proof. revert n. induction l as [|a l IH]; intros [|n]; simpl; auto; apply IH. Qed.

Lemma hd_drop_nth l n (d : A) : List.hd d (drop n l) = nth n l d.
Proof. revert n. induction l as [|a l IH]; intros [|n]; simpl; auto. Qed.
End Lists.
