(* ===== verification/CharacterSource.v ===== *)
(** * The character source interface

    The tokenizer, the input stream preprocessor and the character reference
    parser read from a [SegmentedString] through a handful of operations.
    [CharacterSource] is that interface; [ListSource] is its specification: a
    queue of code units behind at most two pushed-back ones. [sourceLength] is
    the 32 bit [length()] of the code; [charactersAhead] has no counterpart
    there and bounds the number of steps of the loops.
    [CharacterSourceRefines] states that an implementation simulates the
    specification; [SegmentedString.v] proves it of the segmented string with
    its fast paths, and the clients are related once and for all through it. *)

From S2P Require Import Prelude.
Open Scope Z_scope.

(** [SegmentedString::LookAheadResult] *)
Inductive LookAheadResult :=
| DidNotMatch
| DidMatch
| NotEnoughCharacters.

#[global] Instance LookAheadResult_eq_dec : EqDecision LookAheadResult.
Proof. solve_decision. Defined.

(** Unicode case folding is ICU's [u_foldCase]: a parameter of the model. *)
Class CaseFolding := u_foldCase : UChar -> UChar.

(** What ICU documents for the ASCII range, and all the tokenizer needs of it:
    the letters fold to lower case and the others are fixed. *)
Class CaseFoldingASCII `{CaseFolding} :=
  u_foldCase_ascii (c : UChar) : 0 <= c < 128 -> u_foldCase c = toASCIILower c.

(** [String::startsWith(const String&, bool caseSensitive)]. *)
Fixpoint startsWith `{CaseFolding} (caseSensitive : bool) (s prefix : list UChar) : bool :=
  match prefix, s with
  | [], _ => true
  | _ :: _, [] => false
  | p :: prefix', c :: s' =>
      (if caseSensitive then c =? p else u_foldCase c =? u_foldCase p)
      && startsWith caseSensitive s' prefix'
  end.

Class CharacterSource (S : Type) := {
  isEmpty : S -> bool;
  currentChar : S -> UChar;
  advance : S -> S;
  advanceAndUpdateLineNumber : S -> S;
  advancePastNewlineAndUpdateLineNumber : S -> S;
  sourceLength : S -> Z;
  charactersAhead : S -> nat;
  isClosed : S -> bool;
  lookAheadInline : list UChar -> bool -> S -> LookAheadResult * S;
  push : UChar -> S -> S;
  prependString : list UChar -> S -> S;
  numberOfCharactersConsumed : S -> Z
}.

(** ** The specification *)

Record ListSource := mkListSource {
  ls_pushed : list UChar;
  ls_chars : list UChar;
  ls_closed : bool;
  ls_consumed : Z
}.

Definition ls_ahead (l : ListSource) : list UChar := ls_pushed l ++ ls_chars l.

Definition ls_advance (l : ListSource) : ListSource :=
  match ls_pushed l, ls_chars l with
  | _ :: p, cs => mkListSource p cs (ls_closed l) (ls_consumed l + 1)
  | [], _ :: cs => mkListSource [] cs (ls_closed l) (ls_consumed l + 1)
  | [], [] => l
  end.

Definition ls_isEmpty (l : ListSource) : bool :=
  match ls_chars l with [] => true | _ :: _ => false end.

(** [unsigned length() const] *)
Definition ls_length (l : ListSource) : Z := uint32 (Z.of_nat (length (ls_ahead l))).

(** There are two slots to push characters back to; a third character
    replaces the second one. *)
Definition ls_push (c : UChar) (l : ListSource) : ListSource :=
  match ls_pushed l with
  | [] => mkListSource [c] (ls_chars l) (ls_closed l) (ls_consumed l - 1)
  | [a] => mkListSource [a; c] (ls_chars l) (ls_closed l) (ls_consumed l - 1)
  | a :: _ :: _ => mkListSource [a; c] (ls_chars l) (ls_closed l) (ls_consumed l)
  end.

Definition ls_prepend (s : list UChar) (l : ListSource) : ListSource :=
  mkListSource (ls_pushed l) (s ++ ls_chars l) (ls_closed l)
    (ls_consumed l - Z.of_nat (length s)).

Definition ls_append (s : list UChar) (l : ListSource) : ListSource :=
  mkListSource (ls_pushed l) (ls_chars l ++ s) (ls_closed l) (ls_consumed l).

Definition ls_close (l : ListSource) : ListSource :=
  mkListSource (ls_pushed l) (ls_chars l) true (ls_consumed l).

(** Looking ahead past the pushed-back characters puts everything that was
    read back into the current string. *)
Definition ls_lookAhead `{CaseFolding} (string : list UChar) (caseSensitive : bool)
    (l : ListSource) : LookAheadResult * ListSource :=
  if Z.of_nat (length (ls_ahead l)) <? Z.of_nat (length string) then (NotEnoughCharacters, l)
  else
    (if startsWith caseSensitive (ls_ahead l) string then DidMatch else DidNotMatch,
     mkListSource [] (ls_ahead l) (ls_closed l) (ls_consumed l)).

#[global] Instance ListSource_source `{CaseFolding} : CharacterSource ListSource := {
  isEmpty := ls_isEmpty;
  currentChar l := List.hd 0 (ls_ahead l);
  advance := ls_advance;
  advanceAndUpdateLineNumber := ls_advance;
  advancePastNewlineAndUpdateLineNumber := ls_advance;
  sourceLength := ls_length;
  charactersAhead l := length (ls_ahead l);
  isClosed := ls_closed;
  lookAheadInline := ls_lookAhead;
  push := ls_push;
  prependString := ls_prepend;
  numberOfCharactersConsumed := ls_consumed
}.

(** ** Refinement *)

(** Looking ahead needs a needle longer than what can be pushed back (the
    segmented string asserts that nothing is pushed back when it prepends) and
    a source of which no more was pushed back than had been read; pushing back
    needs a character that is not [NUL]. *)
Class CharacterSourceRefines (S : Type) `{CaseFolding} `{!CharacterSource S}
    (R : S -> ListSource -> Prop) : Prop := {
  ref_isEmpty s l : R s l -> isEmpty s = isEmpty l;
  ref_currentChar s l : R s l -> currentChar s = currentChar l;
  ref_length s l : R s l -> sourceLength s = sourceLength l;
  ref_charactersAhead s l : R s l -> charactersAhead s = charactersAhead l;
  ref_isClosed s l : R s l -> isClosed s = isClosed l;
  ref_consumed s l : R s l -> numberOfCharactersConsumed s = numberOfCharactersConsumed l;
  ref_advance s l : R s l -> R (advance s) (advance l);
  ref_advanceAndUpdateLineNumber s l :
    R s l -> R (advanceAndUpdateLineNumber s) (advanceAndUpdateLineNumber l);
  ref_advancePastNewline s l :
    R s l -> R (advancePastNewlineAndUpdateLineNumber s) (advancePastNewlineAndUpdateLineNumber l);
  ref_lookAhead s l w cs : R s l -> (2 <= length w)%nat -> 0 <= ls_consumed l ->
    fst (lookAheadInline w cs s) = fst (lookAheadInline w cs l) /\
    R (snd (lookAheadInline w cs s)) (snd (lookAheadInline w cs l));
  ref_push s l c : R s l -> c <> 0 -> R (push c s) (push c l);
  ref_prepend s l w : R s l -> R (prependString w s) (prependString w l);
  ref_pushed s l : R s l -> Forall (fun c => c <> 0) (ls_pushed l)
}.

(** ** Lemmas on the specification *)

Section ListSourceLemmas.
Context `{CaseFolding}.
Implicit Types l : ListSource.

Lemma ls_ahead_advance l : ls_ahead (ls_advance l) = tail (ls_ahead l).
Proof. destruct l as [[|p ps] [|c cs] cl n]; reflexivity. Qed.

Lemma ls_closed_advance l : ls_closed (ls_advance l) = ls_closed l.
Proof. destruct l as [[|p ps] [|c cs] cl n]; reflexivity. Qed.

Lemma ls_pushed_advance l : ls_pushed (ls_advance l) = tail (ls_pushed l).
Proof. destruct l as [[|p ps] [|c cs] cl n]; reflexivity. Qed.

Lemma ls_consumed_advance l :
  ls_ahead l <> [] -> ls_consumed (ls_advance l) = ls_consumed l + 1.
Proof. destruct l as [[|p ps] [|c cs] cl n]; unfold ls_ahead; simpl; congruence. Qed.

(** The length wraps around only from 2^32 characters on, and is never more
    than their number. *)
Lemma ls_length_le l : 0 <= ls_length l <= Z.of_nat (length (ls_ahead l)).
Proof. unfold ls_length, uint32. split; [apply Z.mod_pos_bound; lia | apply Z.mod_le; lia]. Qed.

Lemma ls_length_small l :
  Z.of_nat (length (ls_ahead l)) < 2 ^ 32 -> ls_length l = Z.of_nat (length (ls_ahead l)).
Proof. intros HB. unfold ls_length, uint32. apply Z.mod_small. lia. Qed.

(** [l'] is [l] after [k] characters have been read. *)
Record advanced (k : nat) (l l' : ListSource) : Prop := {
  adv_ahead : ls_ahead l' = drop k (ls_ahead l);
  adv_bound : (k <= length (ls_ahead l))%nat;
  adv_pushed : ls_pushed l' = drop k (ls_pushed l);
  adv_closed : ls_closed l' = ls_closed l;
  adv_consumed : ls_consumed l' = ls_consumed l + Z.of_nat k
}.

Lemma advanced_refl l : advanced 0 l l.
Proof. split; simpl; try done; lia. Qed.

Lemma advanced_advance l : ls_ahead l <> [] -> advanced 1 l (ls_advance l).
Proof.
  intros HA. split.
  - rewrite ls_ahead_advance. by destruct (ls_ahead l).
  - destruct (ls_ahead l); simpl; [done|lia].
  - rewrite ls_pushed_advance. by destruct (ls_pushed l).
  - apply ls_closed_advance.
  - by rewrite ls_consumed_advance.
Qed.

Lemma advanced_trans j k l l' l'' : advanced j l l' -> advanced k l' l'' -> advanced (j + k) l l''.
Proof.
  intros [A1 B1 P1 C1 N1] [A2 B2 P2 C2 N2]. rewrite A1, length_drop in B2. split.
  - by rewrite A2, A1, drop_drop.
  - lia.
  - by rewrite P2, P1, drop_drop.
  - congruence.
  - lia.
Qed.

Lemma advanced_length k l l' :
  advanced k l l' -> length (ls_ahead l') = (length (ls_ahead l) - k)%nat.
Proof. intros HA. rewrite (adv_ahead _ _ _ HA). by rewrite length_drop. Qed.

Lemma chars_ahead l : ls_chars l <> [] -> ls_ahead l <> [].
Proof. unfold ls_ahead. destruct (ls_pushed l); [done|]. done. Qed.

(** ** The size of a source

    The characters that were read and the ones ahead: none of the operations of
    the reader changes their number. *)
Definition ls_total l : Z := ls_consumed l + Z.of_nat (length (ls_ahead l)).

Lemma ls_total_advance l : ls_total (ls_advance l) = ls_total l.
Proof. unfold ls_total, ls_ahead. destruct l as [[|p ps] [|c cs] cl n]; cbn -[Z.of_nat]; lia. Qed.

Lemma ls_total_push c l : ls_total (ls_push c l) <= ls_total l.
Proof. unfold ls_total, ls_ahead. destruct l as [[|p [|q ps]] cs cl n]; cbn -[Z.of_nat Z.add]; rewrite ?length_app; cbn -[Z.of_nat Z.add]; lia. Qed.

Lemma ls_total_prepend w l : ls_total (ls_prepend w l) = ls_total l.
Proof. unfold ls_total, ls_ahead, ls_prepend. simpl. rewrite !length_app. lia. Qed.

Lemma ls_total_lookAhead w cs l : ls_total (snd (ls_lookAhead w cs l)) = ls_total l.
Proof. unfold ls_lookAhead. by destruct (_ <? _). Qed.

Lemma ls_consumed_le_advance l : ls_consumed l <= ls_consumed (ls_advance l).
Proof. destruct l as [[|p ps] [|c cs] cl n]; simpl; lia. Qed.

(** Reading does not run out of characters behind the pushed-back ones. *)
Lemma ls_isEmpty_false l : ls_isEmpty l = false <-> ls_chars l <> [].
Proof. unfold ls_isEmpty. destruct (ls_chars l); split; congruence. Qed.
End ListSourceLemmas.
