(* ===== verification/TextCodecUTF8.v ===== *)
(** * The UTF-8 codec

    [platform/text/TextCodecUTF8.{h,cpp}]: the bytes of the network become the
    text the parser reads.  [decode] has a path for text that fits 8 bit
    characters and starts over in 16 bits at the first character that does
    not; both copy aligned machine words of ASCII at once
    ([wtf/text/ASCIIFastPath.h]), and a sequence that is cut off by the end of
    the data waits in [m_partialSequence] for the next call.

    Bytes are integers between 0 and 255.  [source] is the list of bytes
    between the pointers [source] and [end], and its address decides the
    alignment.  [None] is a write behind the four bytes of the partial
    sequence or behind a buffer of characters, or a loop that has not ended
    within its fuel. *)

From S2P Require Import Prelude.
Open Scope Z_scope.

Definition nonCharacter : Z := -1.
Definition U8_MAX_LENGTH : nat := 4.

(** ** [wtf/text/ASCIIFastPath.h], for a machine word of eight bytes *)

Definition machineWordSize : nat := 8.
Definition machineWordAlignmentMask : Z := Z.of_nat machineWordSize - 1.
Definition isAlignedToMachineWord (pointer : Z) : bool := Z.land pointer machineWordAlignmentMask =? 0.
Definition alignToMachineWord (pointer : Z) : Z := Z.land pointer (Z.lnot machineWordAlignmentMask).
Definition NonASCIIMask : Z := 0x8080808080808080.
Definition isAllASCII (word : Z) : bool := Z.land word NonASCIIMask =? 0.
Definition isASCII (c : Z) : bool := Z.land c (Z.lnot 127) =? 0.

(** The machine word at the start of [source], in little endian order. *)
Fixpoint loadWord (bytes : list Z) : Z :=
  match bytes with
  | [] => 0
  | b :: bytes => Z.lor b (Z.shiftl (loadWord bytes) 8)
  end.

(** [while (source < alignedEnd)] *)
Fixpoint copyASCIIWords (fuel : nat) (alignedEnd address : Z) (source : list Z) : list Z * Z * list Z :=
  match fuel with
  | O => ([], address, source)
  | S fuel =>
      if address <? alignedEnd then
        let chunk := take machineWordSize source in
        if negb (isAllASCII (loadWord chunk)) then ([], address, source)
        else
          let '(copied, address, source) :=
            copyASCIIWords fuel alignedEnd (address + Z.of_nat machineWordSize) (drop machineWordSize source) in
          (chunk ++ copied, address, source)
      else ([], address, source)
  end.

(** The branch of both loops for a source that starts with an ASCII byte: the
    bytes it copies and where it leaves the source. *)
Definition copyASCII (address : Z) (source : list Z) : list Z * Z * list Z :=
  let alignedEnd := alignToMachineWord (address + Z.of_nat (length source)) in
  let '(copied, address, source) :=
    if isAlignedToMachineWord address then copyASCIIWords (S (length source)) alignedEnd address source
    else ([], address, source) in
  match source with
  | b :: rest => if isASCII b then (copied ++ [b], address + 1, rest) else (copied, address, source)
  | [] => (copied, address, [])
  end.

(** ** Sequences *)

(** The table of 256 lengths. *)
Definition nonASCIISequenceLength (firstByte : Z) : nat :=
  let lengths : list nat := repeat 0%nat 128 ++ repeat 2%nat 96 ++ repeat 3%nat 16 ++ repeat 4%nat 5 ++ repeat 0%nat 11 in
  nth (Z.to_nat firstByte) lengths 0%nat.

Definition at_ (sequence : list Z) (i : nat) : Z := nth i sequence 0.

Definition outside (b low high : Z) : bool := (b <? low) || (b >? high).

Definition decodeNonASCIISequence (sequence : list Z) (length : nat) : Z :=
  if (length =? 2)%nat then
    if at_ sequence 0 <? 0xC2 then nonCharacter
    else if outside (at_ sequence 1) 0x80 0xBF then nonCharacter
    else Z.shiftl (at_ sequence 0) 6 + at_ sequence 1 - 0x00003080
  else if (length =? 3)%nat then
    if (if at_ sequence 0 =? 0xE0 then outside (at_ sequence 1) 0xA0 0xBF
        else if at_ sequence 0 =? 0xED then outside (at_ sequence 1) 0x80 0x9F
        else outside (at_ sequence 1) 0x80 0xBF)
    then nonCharacter
    else if outside (at_ sequence 2) 0x80 0xBF then nonCharacter
    else Z.shiftl (at_ sequence 0) 12 + Z.shiftl (at_ sequence 1) 6 + at_ sequence 2 - 0x000E2080
  else
    if (if at_ sequence 0 =? 0xF0 then outside (at_ sequence 1) 0x90 0xBF
        else if at_ sequence 0 =? 0xF4 then outside (at_ sequence 1) 0x80 0x8F
        else outside (at_ sequence 1) 0x80 0xBF)
    then nonCharacter
    else if outside (at_ sequence 2) 0x80 0xBF then nonCharacter
    else if outside (at_ sequence 3) 0x80 0xBF then nonCharacter
    else Z.shiftl (at_ sequence 0) 18 + Z.shiftl (at_ sequence 1) 12 + Z.shiftl (at_ sequence 2) 6
         + at_ sequence 3 - 0x03C82080.

(** The code units [appendCharacter] writes. *)
Definition appendCharacter (character : Z) : list UChar :=
  if U_IS_BMP character then [character mod 2 ^ 16] else [U16_LEAD character; U16_TRAIL character].

(** ** The partial sequence

    The first [m_partialSequenceSize] bytes of the buffer, as a list. *)

(** [memcpy(m_partialSequence + m_partialSequenceSize, bytes, ...)] *)
Definition appendPartial (partial bytes : list Z) : option (list Z) :=
  if (length partial + length bytes <=? U8_MAX_LENGTH)%nat then Some (partial ++ bytes) else None.

Definition consumePartialSequenceByte (partial : list Z) : list Z := tail partial.

(** [m_partialSequenceSize -= count], which leaves the bytes where they are. *)
Definition shrinkPartial (count : nat) (partial : list Z) : list Z := take (length partial - count) partial.

(** What the loops work on. *)
Record Decoding := mkDecoding {
  d_out : list UChar;
  d_partial : list Z;
  d_source : list Z;
  d_address : Z;
  d_sawError : bool
}.

Definition emit (units : list UChar) (partial : list Z) (d : Decoding) : Decoding :=
  mkDecoding (d_out d ++ units) partial (d_source d) (d_address d) (d_sawError d).

(** The [memcpy] that completes a sequence of [count] bytes. *)
Definition completePartial (count : nat) (d : Decoding) : option Decoding :=
  let k := (count - length (d_partial d))%nat in
  partial ← appendPartial (d_partial d) (take k (d_source d));
  Some (mkDecoding (d_out d) partial (drop k (d_source d)) (d_address d + Z.of_nat k) (d_sawError d)).

(** The one that keeps all of the data for the next call. *)
Definition keepAll (d : Decoding) : option Decoding :=
  partial ← appendPartial (d_partial d) (d_source d);
  Some (mkDecoding (d_out d) partial (d_source d) (d_address d) (d_sawError d)).

(** [handlePartialSequence<LChar>]: [true] when the text does not fit 8 bits. *)
Fixpoint handlePartialSequence8 (fuel : nat) (flush : bool) (d : Decoding) : option (bool * Decoding) :=
  match fuel with
  | O => None
  | S fuel =>
      let loop d := if (length (d_partial d) =? 0)%nat then Some (false, d) else handlePartialSequence8 fuel flush d in
      let first := at_ (d_partial d) 0 in
      if isASCII first then loop (emit [first] (consumePartialSequenceByte (d_partial d)) d)
      else
        let count := nonASCIISequenceLength first in
        if (count =? 0)%nat then Some (true, d)
        else
          let short := (length (d_partial d) <? count)%nat in
          if short && (length (d_source d) <? count - length (d_partial d))%nat then
            if negb flush then d ← keepAll d; Some (false, d) else Some (true, d)
          else
            d ← (if short then completePartial count d else Some d);
            let character := decodeNonASCIISequence (d_partial d) count in
            if (character =? nonCharacter) || (character >? 255) then Some (true, d)
            else loop (emit [character mod 2 ^ 8] (shrinkPartial count (d_partial d)) d)
  end.

Definition handleError (stopOnError : bool) (d : Decoding) : Decoding :=
  let d := mkDecoding (d_out d) (d_partial d) (d_source d) (d_address d) true in
  if stopOnError then d
  else emit [replacementCharacter] (consumePartialSequenceByte (d_partial d)) d.

(** [handlePartialSequence<UChar>], which always returns [false]. *)
Fixpoint handlePartialSequence16 (fuel : nat) (flush stopOnError : bool) (d : Decoding) : option Decoding :=
  match fuel with
  | O => None
  | S fuel =>
      let loop d :=
        if (length (d_partial d) =? 0)%nat then Some d else handlePartialSequence16 fuel flush stopOnError d in
      let error d := if stopOnError then Some (handleError stopOnError d) else loop (handleError stopOnError d) in
      let first := at_ (d_partial d) 0 in
      if isASCII first then loop (emit [first] (consumePartialSequenceByte (d_partial d)) d)
      else
        let count := nonASCIISequenceLength first in
        if (count =? 0)%nat then error d
        else
          let short := (length (d_partial d) <? count)%nat in
          if short && (length (d_source d) <? count - length (d_partial d))%nat then
            if negb flush then keepAll d else error d
          else
            d ← (if short then completePartial count d else Some d);
            let character := decodeNonASCIISequence (d_partial d) count in
            if character =? nonCharacter then error d
            else loop (emit (appendCharacter character) (shrinkPartial count (d_partial d)) d)
  end.

(** ** The loops over the source *)

Definition advanceSource (units : list UChar) (n : nat) (d : Decoding) : Decoding :=
  mkDecoding (d_out d ++ units) (d_partial d) (drop n (d_source d)) (d_address d + Z.of_nat n) (d_sawError d).

Definition copyASCIISource (d : Decoding) : Decoding :=
  let '(copied, address, source) := copyASCII (d_address d) (d_source d) in
  mkDecoding (d_out d ++ copied) (d_partial d) source address (d_sawError d).

(** The rest of the source becomes the partial sequence. *)
Definition keepPartial (d : Decoding) : option Decoding :=
  partial ← appendPartial [] (d_source d);
  Some (mkDecoding (d_out d) partial [] (d_address d + Z.of_nat (length (d_source d))) (d_sawError d)).

Definition sawErrorIn (d : Decoding) : Decoding :=
  mkDecoding (d_out d) (d_partial d) (d_source d) (d_address d) true.

(** [while (source < end)] in 8 bits: [true] for [goto upConvertTo16Bit]. *)
Fixpoint decodeSource8 (fuel : nat) (stopOnError : bool) (d : Decoding) : option (bool * Decoding) :=
  match fuel with
  | O => None
  | S fuel =>
      match d_source d with
      | [] => Some (false, d)
      | b :: _ =>
          if isASCII b then decodeSource8 fuel stopOnError (copyASCIISource d)
          else
            let count := nonASCIISequenceLength b in
            if negb (count =? 0)%nat && (length (d_source d) <? count)%nat then d ← keepPartial d; Some (false, d)
            else
              let character := if (count =? 0)%nat then nonCharacter else decodeNonASCIISequence (d_source d) count in
              if character =? nonCharacter then
                if stopOnError then Some (false, sawErrorIn d) else Some (true, sawErrorIn d)
              else if character >? 255 then Some (true, d)
              else decodeSource8 fuel stopOnError (advanceSource [character mod 2 ^ 8] count d)
      end
  end.

(** The same loop in 16 bits. *)
Fixpoint decodeSource16 (fuel : nat) (stopOnError : bool) (d : Decoding) : option Decoding :=
  match fuel with
  | O => None
  | S fuel =>
      match d_source d with
      | [] => Some d
      | b :: _ =>
          if isASCII b then decodeSource16 fuel stopOnError (copyASCIISource d)
          else
            let count := nonASCIISequenceLength b in
            if negb (count =? 0)%nat && (length (d_source d) <? count)%nat then keepPartial d
            else
              let character := if (count =? 0)%nat then nonCharacter else decodeNonASCIISequence (d_source d) count in
              if character =? nonCharacter then
                if stopOnError then Some (sawErrorIn d)
                else decodeSource16 fuel stopOnError (advanceSource [replacementCharacter] 1 (sawErrorIn d))
              else decodeSource16 fuel stopOnError (advanceSource (appendCharacter character) count d)
      end
  end.

(** The destination lies within a buffer of [capacity] characters.  A loop only
    moves its destination forwards, so it is enough to look where it leaves it:
    [None] is a write behind the buffer. *)
Definition withinBuffer (capacity : Z) (d : Decoding) : option Decoding :=
  if Z.of_nat (length (d_out d)) <=? capacity then Some d else None.

(** The first [do ... while (flush && m_partialSequenceSize)].  The jump out
    of the partial sequence keeps the old destination, but what was written
    before it was written. *)
Fixpoint decode8 (capacity : Z) (fuel : nat) (flush stopOnError : bool) (d : Decoding) : option (bool * Decoding) :=
  match fuel with
  | O => None
  | S fuel =>
      let rest d :=
        '(up, d) ← decodeSource8 (S (length (d_source d))) stopOnError d;
        d ← withinBuffer capacity d;
        if (up : bool) then Some (true, d)
        else if flush && negb (length (d_partial d) =? 0)%nat then decode8 capacity fuel flush stopOnError d
        else Some (false, d) in
      if (length (d_partial d) =? 0)%nat then rest d
      else
        '(up, d') ← handlePartialSequence8 (S (length (d_partial d) + length (d_source d))) flush d;
        d' ← withinBuffer capacity d';
        if (up : bool) then Some (true, mkDecoding (d_out d) (d_partial d') (d_source d') (d_address d') (d_sawError d'))
        else if negb (length (d_partial d') =? 0)%nat then Some (false, d')
        else rest d'
  end.

Fixpoint decode16 (capacity : Z) (fuel : nat) (flush stopOnError : bool) (d : Decoding) : option Decoding :=
  match fuel with
  | O => None
  | S fuel =>
      let rest d :=
        d ← decodeSource16 (S (length (d_source d))) stopOnError d;
        d ← withinBuffer capacity d;
        if flush && negb (length (d_partial d) =? 0)%nat then decode16 capacity fuel flush stopOnError d else Some d in
      if (length (d_partial d) =? 0)%nat then rest d
      else
        d ← handlePartialSequence16 (S (length (d_partial d) + length (d_source d))) flush stopOnError d;
        d ← withinBuffer capacity d;
        if negb (length (d_partial d) =? 0)%nat then Some d else rest d
  end.

Record TextCodecUTF8 := mkCodec { m_partialSequence : list Z }.

Definition newTextCodecUTF8 : TextCodecUTF8 := mkCodec [].

(** [StringBuffer(m_partialSequenceSize + length)]: the sum is a [size_t], the
    length of a [StringBuffer] is [unsigned]. *)
Definition bufferLength (partial : list Z) (length_ : nat) : Z := uint32 (Z.of_nat (length partial + length_)).

(** The result: the characters, whether the string is an 8 bit one, the codec
    and [sawError].  The second buffer is made with the partial sequence of the
    moment when the first loop is left, and the characters decoded so far are
    copied into it. *)
Definition decode (codec : TextCodecUTF8) (address : Z) (bytes : list Z) (flush stopOnError sawError : bool)
    : option (list UChar * bool * TextCodecUTF8 * bool) :=
  let d := mkDecoding [] (m_partialSequence codec) bytes address sawError in
  '(up, d) ← decode8 (bufferLength (m_partialSequence codec) (length bytes)) 3 flush stopOnError d;
  if (up : bool) then
    let capacity16 := bufferLength (d_partial d) (length bytes) in
    d ← withinBuffer capacity16 d;
    d ← decode16 capacity16 3 flush stopOnError d;
    Some (d_out d, false, mkCodec (d_partial d), d_sawError d)
  else Some (d_out d, true, mkCodec (d_partial d), d_sawError d).

(** ** Encoding *)

Definition U16_IS_LEAD (c : Z) : bool := Z.land c 0xfffffc00 =? 0xd800.
Definition U16_IS_TRAIL (c : Z) : bool := Z.land c 0xfffffc00 =? 0xdc00.
Definition U16_SURROGATE_OFFSET : Z := Z.shiftl 0xd800 10 + 0xdc00 - 0x10000.
Definition U16_GET_SUPPLEMENTARY (lead trail : Z) : UChar32 := Z.shiftl lead 10 + trail - U16_SURROGATE_OFFSET.

(** [U16_NEXT]: the code point at the start of the string and the rest. *)
Definition U16_NEXT (characters : list UChar) : UChar32 * list UChar :=
  match characters with
  | [] => (0, [])
  | c :: rest =>
      if U16_IS_LEAD c then
        match rest with
        | c2 :: rest' => if U16_IS_TRAIL c2 then (U16_GET_SUPPLEMENTARY c c2, rest') else (c, rest)
        | [] => (c, rest)
        end
      else (c, rest)
  end.

(** [U8_APPEND_UNSAFE]: the bytes it appends. *)
Definition U8_APPEND_UNSAFE (c : UChar32) : list Z :=
  let byte z := z mod 2 ^ 8 in
  if uint32 c <=? 0x7f then [byte c]
  else
    (if uint32 c <=? 0x7ff then [byte (Z.lor (Z.shiftr c 6) 0xc0)]
     else
       (if uint32 c <=? 0xffff then [byte (Z.lor (Z.shiftr c 12) 0xe0)]
        else [byte (Z.lor (Z.shiftr c 18) 0xf0); byte (Z.lor (Z.land (Z.shiftr c 12) 0x3f) 0x80)])
       ++ [byte (Z.lor (Z.land (Z.shiftr c 6) 0x3f) 0x80)])
    ++ [byte (Z.lor (Z.land c 0x3f) 0x80)].

Fixpoint encodeLoop (fuel : nat) (characters : list UChar) : list Z :=
  match fuel, characters with
  | S fuel, _ :: _ =>
      let '(character, rest) := U16_NEXT characters in
      U8_APPEND_UNSAFE character ++ encodeLoop fuel rest
  | _, _ => []
  end.

(** [None] is the [CRASH()] on a string of more than a third of the address
    space. *)
Definition encode (characters : list UChar) : option (list Z) :=
  if Z.of_nat (length characters) >? (2 ^ 64 - 1) / 3 then None
  else Some (encodeLoop (length characters) characters).
