(* ===== verification/TextCodecUTF8Loops.v ===== *)
(** * The loops of the UTF-8 codec

    A reference decoder that reads one sequence after the other, and what the
    loops of [TextCodecUTF8::decode] do in its terms.  The loops are looked at
    as they run with buffers that are never too small; [TextCodecUTF8Safety]
    shows when the buffers of [decode] are. *)

From S2P Require Import Prelude TextCodecUTF8.
Open Scope Z_scope.

Definition bytes (bs : list Z) : Prop := Forall (fun b => 0 <= b < 256) bs.

(** ** The reference decoder *)

(** The first sequence: its code units, its length and whether it is an error
    (which takes one byte); [None] when more bytes are needed. *)
Definition nextSequence (bs : list Z) : option (list UChar * nat * bool) :=
  match bs with
  | [] => None
  | b :: _ =>
      if isASCII b then Some ([b], 1%nat, false)
      else
        let count := nonASCIISequenceLength b in
        if (count =? 0)%nat then Some ([replacementCharacter], 1%nat, true)
        else if (length bs <? count)%nat then None
        else
          let character := decodeNonASCIISequence bs count in
          if character =? nonCharacter then Some ([replacementCharacter], 1%nat, true)
          else Some (appendCharacter character, count, false)
  end.

(** Code units, whether there was an error, and the bytes that are left. *)
Definition Scanned : Type := list UChar * bool * list Z.

Definition prepend (units : list UChar) (error : bool) (r : Scanned) : Scanned :=
  let '(o, e, l) := r in (units ++ o, error || e, l).

Fixpoint scanLoop (fuel : nat) (bs : list Z) : Scanned :=
  match fuel with
  | O => ([], false, bs)
  | S fuel =>
      match nextSequence bs with
      | Some (o, n, e) => prepend o e (scanLoop fuel (drop n bs))
      | None => ([], false, bs)
      end
  end.

Definition scan (bs : list Z) : Scanned := scanLoop (length bs) bs.

(** At the end of the text every byte of an incomplete sequence that does not
    start another one is an error. *)
Fixpoint finishLoop (fuel : nat) (bs : list Z) : list UChar * bool :=
  match fuel with
  | O => ([], false)
  | S fuel =>
      match bs with
      | [] => ([], false)
      | _ =>
          let '(o, n, e) := default ([replacementCharacter], 1%nat, true) (nextSequence bs) in
          let '(o', e') := finishLoop fuel (drop n bs) in (o ++ o', e || e')
      end
  end.

(** The text of complete data and whether there was an error. *)
Definition decodeAll (bs : list Z) : list UChar * bool := finishLoop (length bs) bs.

(** ** Bytes and sequences *)

Lemma isASCII_ltb b : 0 <= b < 256 -> isASCII b = (b <? 128).
Proof.
  intros Hb. apply eqb_prop.
  exact (byte_check (fun b => Bool.eqb (isASCII b) (b <? 128)) b ltac:(vm_compute; reflexivity) Hb).
Qed.

Lemma sequenceLength_cases b : 0 <= b < 256 ->
  (nonASCIISequenceLength b = 0%nat /\ (b < 128 \/ 245 <= b)) \/
  (nonASCIISequenceLength b = 2%nat /\ 128 <= b < 224) \/
  (nonASCIISequenceLength b = 3%nat /\ 224 <= b < 240) \/
  (nonASCIISequenceLength b = 4%nat /\ 240 <= b < 245).
Proof.
  intros Hb.
  pose proof (byte_check (fun b => Nat.eqb (nonASCIISequenceLength b) (if b <? 128 then O else if b <? 224 then 2%nat
    else if b <? 240 then 3%nat else if b <? 245 then 4%nat else O)) b ltac:(vm_compute; reflexivity) Hb) as H.
  apply Nat.eqb_eq in H. rewrite H.
  destruct (Z.ltb_spec b 128), (Z.ltb_spec b 224), (Z.ltb_spec b 240), (Z.ltb_spec b 245); lia.
Qed.

Lemma sequenceLength_le b : 0 <= b < 256 -> (nonASCIISequenceLength b <= 4)%nat.
Proof. intros Hb. destruct (sequenceLength_cases b Hb) as [[-> _]|[[-> _]|[[-> _]|[-> _]]]]; lia. Qed.

Lemma at_app bs x i : (i < length bs)%nat -> at_ (bs ++ x) i = at_ bs i.
Proof. intros Hi. unfold at_. by rewrite app_nth1. Qed.

(** A sequence is decided by its own bytes. *)
Lemma decodeNonASCIISequence_app bs x n : (n <= 4)%nat -> (n <= length bs)%nat -> (2 <= n)%nat ->
  decodeNonASCIISequence (bs ++ x) n = decodeNonASCIISequence bs n.
Proof.
  intros H4 HL H2. unfold decodeNonASCIISequence. destruct (Nat.eqb_spec n 2), (Nat.eqb_spec n 3); subst;
    rewrite ?at_app by lia; done.
Qed.

Lemma nextSequence_some bs o n e : nextSequence bs = Some (o, n, e) ->
  bytes bs -> (1 <= n <= length bs)%nat /\ (length o <= n)%nat.
Proof.
  unfold nextSequence. intros HS HB. destruct HB as [|b bs Hb HB]; [done|].
  destruct (isASCII b); [injection HS as <- <- <-; simpl; lia|].
  destruct (Nat.eqb_spec (nonASCIISequenceLength b) 0) as [|HN]; [injection HS as <- <- <-; simpl; lia|].
  destruct (Nat.ltb_spec (length (b :: bs)) (nonASCIISequenceLength b)); [done|].
  destruct (_ =? nonCharacter); injection HS as <- <- <-; [simpl; lia|].
  assert (H2 : (2 <= nonASCIISequenceLength b)%nat) by (destruct (sequenceLength_cases b Hb) as [|[|[|]]]; lia).
  split; [simpl in *; lia|]. unfold appendCharacter. case_match; simpl; lia.
Qed.

Lemma nextSequence_app bs x r : bytes bs -> nextSequence bs = Some r -> nextSequence (bs ++ x) = Some r.
Proof.
  unfold nextSequence. intros HB HS. destruct HB as [|b bs Hb HB]; [done|]. cbn [app].
  destruct (isASCII b); [done|]. destruct (Nat.eqb_spec (nonASCIISequenceLength b) 0) as [|HN]; [done|].
  destruct (Nat.ltb_spec (length (b :: bs)) (nonASCIISequenceLength b)) as [|HL]; [done|].
  rewrite (proj2 (Nat.ltb_ge _ _)) by (rewrite app_comm_cons, length_app; lia).
  rewrite app_comm_cons, decodeNonASCIISequence_app; [done|by apply sequenceLength_le|done|].
  destruct (sequenceLength_cases b Hb) as [|[|[|]]]; lia.
Qed.

Lemma nextSequence_none bs : bytes bs -> nextSequence bs = None -> (length bs <= 3)%nat.
Proof.
  unfold nextSequence. intros HB HS. destruct HB as [|b bs Hb HB]; [simpl; lia|].
  destruct (isASCII b); [done|]. destruct (_ =? 0)%nat; [done|].
  destruct (Nat.ltb_spec (length (b :: bs)) (nonASCIISequenceLength b)) as [HL|]; [|by case_match].
  pose proof (sequenceLength_le b Hb). lia.
Qed.

(** ** The reference decoder, one sequence at a time *)

Lemma scanLoop_fuel bs n m : bytes bs -> (length bs <= n)%nat -> (length bs <= m)%nat -> scanLoop n bs = scanLoop m bs.
Proof.
  revert m bs. induction n as [|n IH]; intros m bs HB Hn Hm.
  { destruct bs; [|simpl in Hn; lia]. by destruct m. }
  destruct m as [|m]; [destruct bs; [done|simpl in Hm; lia]|]. cbn [scanLoop].
  destruct (nextSequence bs) as [[[o k] e]|] eqn:E; [|done].
  destruct (nextSequence_some _ _ _ _ E HB) as [Hk _]. f_equal.
  apply IH; [by apply Forall_drop|rewrite length_drop; lia..].
Qed.

Lemma scan_equation bs : bytes bs ->
  scan bs = match nextSequence bs with
            | Some (o, n, e) => prepend o e (scan (drop n bs))
            | None => ([], false, bs)
            end.
Proof.
  intros HB. unfold scan. rewrite (scanLoop_fuel bs (length bs) (S (length bs))) by (done || lia). cbn [scanLoop].
  destruct (nextSequence bs) as [[[o n] e]|] eqn:E; [|done]. destruct (nextSequence_some _ _ _ _ E HB) as [Hk _].
  f_equal. apply scanLoop_fuel; [by apply Forall_drop|rewrite length_drop; lia..].
Qed.

Lemma prepend_prepend o e o' e' r : prepend o e (prepend o' e' r) = prepend (o ++ o') (e || e') r.
Proof. destruct r as [[o'' e''] l]. simpl. by rewrite app_assoc, orb_assoc. Qed.

Lemma prepend_nil r : prepend [] false r = r.
Proof. by destruct r as [[o e] l]. Qed.

(** ASCII text stands for itself. *)
Lemma scan_ascii o bs : bytes (o ++ bs) -> Forall (fun b => isASCII b = true) o -> scan (o ++ bs) = prepend o false (scan bs).
Proof.
  intros HB HF. induction HF as [|b o Hb HF IH]; [by rewrite prepend_nil|]. cbn [app] in *.
  rewrite scan_equation by done. unfold nextSequence. rewrite Hb. cbn [drop]. rewrite drop_0.
  rewrite IH by (by apply Forall_inv_tail in HB). by rewrite prepend_prepend.
Qed.

Lemma scan_app bs x : bytes bs -> bytes x -> let '(o, e, l) := scan bs in scan (bs ++ x) = prepend o e (scan (l ++ x)).
Proof.
  intros HB HX. remember (length bs) as n eqn:Hn. revert bs HB Hn.
  induction n as [n IH] using lt_wf_ind. intros bs HB ->. rewrite (scan_equation bs) by done.
  destruct (nextSequence bs) as [[[o k] e]|] eqn:E; [|by rewrite prepend_nil].
  destruct (nextSequence_some _ _ _ _ E HB) as [Hk _].
  specialize (IH (length (drop k bs)) ltac:(rewrite length_drop; lia) (drop k bs) (Forall_drop _ _ _ HB) eq_refl).
  rewrite (scan_equation (bs ++ x)) by (by apply Forall_app). rewrite (nextSequence_app _ _ _ HB E).
  rewrite drop_app_le by lia. destruct (scan (drop k bs)) as [[o' e'] l]. simpl in *. by rewrite IH, prepend_prepend.
Qed.

(** What is left is an incomplete sequence. *)
Lemma scan_left bs o e l : bytes bs -> scan bs = (o, e, l) ->
  nextSequence l = None /\ bytes l /\ (length o + length l <= length bs)%nat.
Proof.
  intros HB. remember (length bs) as n eqn:Hn. revert bs o e HB Hn.
  induction n as [n IH] using lt_wf_ind. intros bs o e HB ->. rewrite scan_equation by done.
  destruct (nextSequence bs) as [[[o1 k] e1]|] eqn:E; [|intros [= <- <- <-]; simpl; split_and!; done || lia].
  destruct (nextSequence_some _ _ _ _ E HB) as [Hk Ho]. destruct (scan (drop k bs)) as [[o' e'] l'] eqn:ES.
  intros [= <- <- <-]. destruct (IH (length (drop k bs)) ltac:(rewrite length_drop; lia) _ _ _ (Forall_drop _ _ _ HB) eq_refl ES)
    as (H1 & H2 & H3). rewrite length_drop in H3. rewrite length_app. split_and!; [done|done|lia].
Qed.

(** ** The fast path *)

Lemma loadWord_bit bs i b : bytes bs -> bs !! i = Some b ->
  Z.testbit (loadWord bs) (8 * Z.of_nat i + 7) = Z.testbit b 7.
Proof.
  intros HB. revert i. induction HB as [|c bs Hc HB IH]; intros i Hi; [done|]. cbn [loadWord]. rewrite Z.lor_spec.
  destruct i as [|i]; cbn in Hi.
  - injection Hi as ->. rewrite Z.shiftl_spec_low by lia. apply orb_false_r.
  - rewrite (Z.testbit_eqb c) by lia. rewrite Z.div_small; [|split; [lia|]].
    + rewrite Z.shiftl_spec by lia. rewrite <- (IH i Hi). change (0 mod 2 =? 1) with false. cbn [orb].
      f_equal. lia.
    + change 256 with (2 ^ 8) in Hc. eapply Z.lt_le_trans; [apply Hc|]. apply Z.pow_le_mono_r; lia.
Qed.

Lemma isAllASCII_ascii bs : bytes bs -> (length bs <= machineWordSize)%nat -> isAllASCII (loadWord bs) = true ->
  Forall (fun b => isASCII b = true) bs.
Proof.
  intros HB HL HA. apply Forall_lookup. intros i b Hi.
  assert (Hb : 0 <= b < 256) by (by eapply (Forall_lookup_1 _ _ _ _ HB)). apply Z.eqb_eq in HA.
  pose proof (f_equal (fun z => Z.testbit z (8 * Z.of_nat i + 7)) HA) as HT. cbn beta in HT.
  rewrite Z.land_spec, Z.bits_0, (loadWord_bit _ _ _ HB Hi) in HT. apply lookup_lt_Some in Hi.
  assert (HM : Z.testbit NonASCIIMask (8 * Z.of_nat i + 7) = true).
  { unfold machineWordSize in HL. do 8 (destruct i as [|i]; [reflexivity|]). lia. }
  rewrite HM, andb_true_r in HT. rewrite isASCII_ltb by done. apply negb_true_iff in HT.
  apply (byte_check (fun b => implb (negb (Z.testbit b 7)) (b <? 128)) b ltac:(vm_compute; reflexivity)) in Hb.
  by rewrite HT in Hb.
Qed.

Lemma copyASCIIWords_spec fuel alignedEnd address source copied address' source' :
  bytes source -> copyASCIIWords fuel alignedEnd address source = (copied, address', source') ->
  source = copied ++ source' /\ Forall (fun b => isASCII b = true) copied.
Proof.
  revert address source copied. induction fuel as [|fuel IH]; intros address source copied HB E; cbn [copyASCIIWords] in E;
    [by injection E as <- <- <-|].
  destruct (address <? alignedEnd); [|by injection E as <- <- <-].
  destruct (isAllASCII _) eqn:EA; cbn [negb] in E; [|by injection E as <- <- <-].
  destruct (copyASCIIWords fuel _ _ (drop machineWordSize source)) as [[o a] s] eqn:EW. injection E as <- <- <-.
  destruct (IH _ _ _ (Forall_drop _ _ _ HB) EW) as [E1 F1].
  split; [by rewrite <- app_assoc, <- E1, take_drop|]. apply Forall_app. split; [|done].
  apply isAllASCII_ascii; [by apply Forall_take|rewrite length_take; lia|done].
Qed.

(** The fast path copies ASCII bytes, and at least one. *)
Lemma copyASCII_spec address b source copied address' source' :
  bytes (b :: source) -> isASCII b = true -> copyASCII address (b :: source) = (copied, address', source') ->
  b :: source = copied ++ source' /\ Forall (fun b => isASCII b = true) copied /\ copied <> [].
Proof.
  intros HB Hb. unfold copyASCII.
  destruct (if isAlignedToMachineWord address then _ else _) as [[o a] s] eqn:EW.
  assert (HW : b :: source = o ++ s /\ Forall (fun b => isASCII b = true) o).
  { destruct (isAlignedToMachineWord address); [by eapply copyASCIIWords_spec|by injection EW as <- <- <-]. }
  destruct HW as [E F]. destruct s as [|c s]; intros EC.
  - injection EC as <- <- <-. split_and!; [done|done|]. intros ->. done.
  - destruct (isASCII c) eqn:Ec; injection EC as <- <- <-.
    + rewrite <- app_assoc. split_and!; [done|apply Forall_app; by split; [|constructor]|by destruct o].
    + split_and!; [done|done|]. intros ->. injection E as -> ->. congruence.
Qed.

(** ** The loops over the source *)

(** The tests of the loops and those of the reference decoder. *)
Lemma nextSequence_nonASCII b bs : isASCII b = false ->
  nextSequence (b :: bs) =
    let count := nonASCIISequenceLength b in
    if negb (count =? 0)%nat && (length (b :: bs) <? count)%nat then None
    else
      let character := if (count =? 0)%nat then nonCharacter else decodeNonASCIISequence (b :: bs) count in
      if character =? nonCharacter then Some ([replacementCharacter], 1%nat, true)
      else Some (appendCharacter character, count, false).
Proof. intros Hb. unfold nextSequence. rewrite Hb. cbv zeta. by destruct (_ =? 0)%nat. Qed.

Lemma keepPartial_spec d : bytes (d_source d) -> nextSequence (d_source d) = None ->
  keepPartial d = Some (mkDecoding (d_out d) (d_source d) [] (d_address d + Z.of_nat (length (d_source d))) (d_sawError d)).
Proof.
  intros HB HN. pose proof (nextSequence_none _ HB HN). unfold keepPartial, appendPartial, U8_MAX_LENGTH.
  by rewrite (proj2 (Nat.leb_le _ _)) by (simpl; lia).
Qed.

(** The loop in 16 bits ends with what the reference decoder says of the
    source. *)
Definition finishes16 (fuel : nat) (d : Decoding) : Prop :=
  let '(o, e, l) := scan (d_source d) in
  exists a, decodeSource16 fuel false d = Some (mkDecoding (d_out d ++ o) l [] a (d_sawError d || e)).

Lemma finishes16_step fuel d d1 o e :
  decodeSource16 (S fuel) false d = decodeSource16 fuel false d1 ->
  scan (d_source d) = prepend o e (scan (d_source d1)) -> d_out d1 = d_out d ++ o -> d_sawError d1 = d_sawError d || e ->
  finishes16 fuel d1 -> finishes16 (S fuel) d.
Proof.
  unfold finishes16. intros ED -> EO EE. destruct (scan (d_source d1)) as [[o' e'] l]. cbn [prepend].
  rewrite ED, EO, EE, app_assoc, orb_assoc. done.
Qed.

(** One copy of ASCII bytes. *)
Lemma copyASCIISource_spec b source out partial address saw :
  bytes (b :: source) -> isASCII b = true ->
  let d := mkDecoding out partial (b :: source) address saw in
  exists o a s, copyASCIISource d = mkDecoding (out ++ o) partial s a saw /\ bytes s /\
    (length s <= length source)%nat /\ scan (b :: source) = prepend o false (scan s) /\ Forall (fun b => isASCII b = true) o.
Proof.
  intros HB Eb. cbv zeta. unfold copyASCIISource. cbn [d_address d_source d_out d_partial d_sawError].
  destruct (copyASCII address (b :: source)) as [[o a] s] eqn:EC.
  destruct (copyASCII_spec _ _ _ _ _ _ HB Eb EC) as (E & F & Hne). exists o, a, s.
  pose proof (f_equal length E) as EL. rewrite length_app in EL. rewrite E in HB |- *. rewrite scan_ascii by done.
  apply Forall_app in HB as [_ HB]. split_and!; try done. destruct o; [done|]. cbn [length] in EL. lia.
Qed.

Lemma decodeSource16_spec fuel d : bytes (d_source d) -> d_partial d = [] -> (length (d_source d) < fuel)%nat -> finishes16 fuel d.
Proof.
  revert d. induction fuel as [|fuel IH]; intros [out partial source address saw] HB HP HF;
    cbn [d_source d_partial] in HB, HP, HF; [lia|]. subst partial. destruct source as [|b source].
  { exists address. cbn. by rewrite app_nil_r, orb_false_r. }
  cbn [length] in HF. destruct (isASCII b) eqn:Eb.
  { destruct (copyASCIISource_spec b source out [] address saw HB Eb) as (o & a & s & EC & HS & HL & ES & _).
    eapply (finishes16_step _ _ (mkDecoding (out ++ o) [] s a saw) o false); cbn [d_source d_out d_sawError decodeSource16];
      [by rewrite Eb, EC|done|done|by rewrite orb_false_r|]. apply IH; cbn [d_source d_partial]; [done|done|lia]. }
  pose proof (nextSequence_nonASCII b source Eb) as EN. cbv zeta in EN.
  pose proof (scan_equation (b :: source) HB) as ES. rewrite EN in ES.
  destruct (negb (nonASCIISequenceLength b =? 0)%nat && _) eqn:EI.
  { unfold finishes16. cbn [d_source d_out d_sawError decodeSource16]. rewrite Eb, EI, ES, keepPartial_spec by done.
    eexists. by rewrite app_nil_r, orb_false_r. }
  destruct (_ =? nonCharacter) eqn:EC; destruct (nextSequence_some _ _ _ _ EN HB) as [Hn _]; (eapply finishes16_step;
    [cbn [d_source decodeSource16]; rewrite Eb, EI, EC; reflexivity|exact ES|reflexivity
    |by rewrite ?orb_true_r, ?orb_false_r|]);
    apply IH; cbn [advanceSource sawErrorIn d_source d_partial]; [by apply Forall_drop|done| |by apply Forall_drop|done|];
    rewrite length_drop; cbn [length] in *; lia.
Qed.

Lemma bytes_at bs i : bytes bs -> (i < length bs)%nat -> 0 <= at_ bs i < 256.
Proof. intros HB Hi. unfold at_. by apply (proj1 (Forall_nth _ _ _) HB). Qed.

Lemma outside_false b low high : outside b low high = false -> low <= b <= high.
Proof. unfold outside. intros HO. bool_hyps. lia. Qed.

(** What a sequence decodes to is a scalar value. *)
Lemma decodeNonASCIISequence_range bs : bytes bs -> (2 <= nonASCIISequenceLength (at_ bs 0) <= length bs)%nat ->
  let c := decodeNonASCIISequence bs (nonASCIISequenceLength (at_ bs 0)) in
  c = nonCharacter \/ (128 <= c <= 1114111 /\ (c < 55296 \/ 57343 < c)).
Proof.
  intros HB HL. cbv zeta. pose proof (bytes_at bs 0 HB ltac:(lia)) as H0. pose proof (bytes_at bs 1 HB ltac:(lia)) as H1.
  unfold decodeNonASCIISequence.
  destruct (sequenceLength_cases _ H0) as [[E R]|[[E R]|[[E R]|[E R]]]]; rewrite E in *; cbn [Nat.eqb]; [lia| | |].
  - destruct (Z.ltb_spec (at_ bs 0) 194); [by left|]. destruct (outside _ _ _) eqn:O1; [by left|].
    apply outside_false in O1. rewrite Z.shiftl_mul_pow2 by lia. right. lia.
  - pose proof (bytes_at bs 2 HB ltac:(lia)) as H2.
    destruct (Z.eqb_spec (at_ bs 0) 224), (Z.eqb_spec (at_ bs 0) 237); try lia;
      (destruct (outside (at_ bs 1) _ _) eqn:O1; [by left|]); (destruct (outside (at_ bs 2) _ _) eqn:O2; [by left|]);
      apply outside_false in O1, O2; rewrite !Z.shiftl_mul_pow2 by lia; right; lia.
  - pose proof (bytes_at bs 2 HB ltac:(lia)) as H2. pose proof (bytes_at bs 3 HB ltac:(lia)) as H3.
    destruct (Z.eqb_spec (at_ bs 0) 240), (Z.eqb_spec (at_ bs 0) 244); try lia;
      (destruct (outside (at_ bs 1) _ _) eqn:O1; [by left|]); (destruct (outside (at_ bs 2) _ _) eqn:O2; [by left|]);
      (destruct (outside (at_ bs 3) _ _) eqn:O3; [by left|]);
      apply outside_false in O1, O2, O3; rewrite !Z.shiftl_mul_pow2 by lia; right; lia.
Qed.

(** A character of 8 bits is one code unit in both widths. *)
Lemma appendCharacter_8 c : 128 <= c <= 255 -> appendCharacter c = [c mod 2 ^ 8].
Proof.
  intros Hc. unfold appendCharacter, U_IS_BMP, uint32. rewrite Z.mod_small by lia. lia_tests.
  by rewrite !Z.mod_small by lia.
Qed.

Definition scanError (r : Scanned) : bool := snd (fst r).

(** The loop in 8 bits either ends like the reference decoder, without an
    error, or jumps with a part of the text decoded. *)
Definition jumps8 (d d' : Decoding) : Prop :=
  d_partial d' = [] /\ bytes (d_source d') /\ (length (d_source d') <= length (d_source d))%nat /\
  (exists o, d_out d' = d_out d ++ o /\ scan (d_source d) = prepend o false (scan (d_source d'))) /\
  d_sawError d' || scanError (scan (d_source d')) = d_sawError d || scanError (scan (d_source d')).

Definition ends8 (d d' : Decoding) : Prop :=
  let '(o, e, l) := scan (d_source d) in
  e = false /\ exists a, d' = mkDecoding (d_out d ++ o) l [] a (d_sawError d).

Definition finishes8 (fuel : nat) (d : Decoding) : Prop :=
  exists up d', decodeSource8 fuel false d = Some (up, d') /\ if up then jumps8 d d' else ends8 d d'.

Lemma finishes8_step fuel d d1 o :
  decodeSource8 (S fuel) false d = decodeSource8 fuel false d1 ->
  scan (d_source d) = prepend o false (scan (d_source d1)) -> d_out d1 = d_out d ++ o -> d_sawError d1 = d_sawError d ->
  (length (d_source d1) <= length (d_source d))%nat -> finishes8 fuel d1 -> finishes8 (S fuel) d.
Proof.
  intros ED ES EO EE HL (up & d' & E & HX). exists up, d'. split; [by rewrite ED|]. destruct up.
  - destruct HX as (H1 & H2 & H3 & (o' & H4 & H5) & H6). rewrite EE in H6. split_and!; [done|done|lia| |done].
    exists (o ++ o'). split; [by rewrite H4, EO, app_assoc|]. by rewrite ES, H5, prepend_prepend.
  - unfold ends8 in *. rewrite ES. destruct (scan (d_source d1)) as [[o' e'] l]. destruct HX as (-> & a & ->).
    split; [done|]. exists a. by rewrite EO, EE, app_assoc.
Qed.

Lemma jumps8_here d : bytes (d_source d) -> d_partial d = [] -> jumps8 d d.
Proof.
  intros HB HP. split_and!; try done. exists []. split; [by rewrite app_nil_r|by rewrite prepend_nil].
Qed.

Lemma decodeSource8_spec fuel d : bytes (d_source d) -> d_partial d = [] -> (length (d_source d) < fuel)%nat -> finishes8 fuel d.
Proof.
  revert d. induction fuel as [|fuel IH]; intros [out partial source address saw] HB HP HF;
    cbn [d_source d_partial] in HB, HP, HF; [lia|]. subst partial. destruct source as [|b source].
  { exists false. eexists. split; [reflexivity|]. split; [done|]. exists address. by rewrite app_nil_r. }
  cbn [length] in HF. destruct (isASCII b) eqn:Eb.
  { destruct (copyASCIISource_spec b source out [] address saw HB Eb) as (o & a & s & EC & HS & HL & ES & _).
    eapply (finishes8_step _ _ (mkDecoding (out ++ o) [] s a saw) o); cbn [d_source d_out d_sawError decodeSource8 length];
      [by rewrite Eb, EC|done|done|done|lia|]. apply IH; cbn [d_source d_partial]; [done|done|lia]. }
  pose proof (nextSequence_nonASCII b source Eb) as EN. cbv zeta in EN.
  pose proof (scan_equation (b :: source) HB) as ES. rewrite EN in ES.
  set (d := mkDecoding out [] (b :: source) address saw).
  destruct (negb (nonASCIISequenceLength b =? 0)%nat && _) eqn:EI.
  { exists false. eexists. cbn [d_source decodeSource8 d]. rewrite Eb, EI, keepPartial_spec by done.
    split; [reflexivity|]. unfold ends8. cbn [d_source d_out d_sawError d]. rewrite ES.
    split; [done|]. eexists. by rewrite app_nil_r. }
  destruct (_ =? nonCharacter) eqn:EC.
  { exists true, (sawErrorIn d). cbn [d_source decodeSource8 d]. rewrite Eb, EI, EC. split; [done|].
    destruct (jumps8_here d HB eq_refl) as (J1 & J2 & J3 & J4 & _). split_and!; try done.
    cbn [sawErrorIn d_source d_sawError d]. rewrite ES. destruct (scan (drop 1 _)) as [[o e] l].
    by destruct saw. }
  destruct (nextSequence_some _ _ _ _ EN HB) as [Hn _]. cbn [length] in Hn.
  assert (H0 : (nonASCIISequenceLength b =? 0)%nat = false)
    by (apply not_true_is_false; intros H0; by rewrite H0 in EC).
  rewrite H0 in EC, ES. destruct (Z.gtb_spec (decodeNonASCIISequence (b :: source) (nonASCIISequenceLength b)) 255) as [HG|HG].
  { exists true, d. cbn [d_source decodeSource8 d]. rewrite Eb, EI, H0, EC.
    rewrite Z.gtb_ltb, (proj2 (Z.ltb_lt _ _)) by lia. split; [done|]. by apply jumps8_here. }
  assert (H2 : (2 <= nonASCIISequenceLength b)%nat)
    by (apply Nat.eqb_neq in H0; destruct (sequenceLength_cases b (Forall_inv HB)) as [|[|[|]]]; lia).
  destruct (decodeNonASCIISequence_range (b :: source) HB) as [HC|[HC _]]; [change (at_ (b :: source) 0) with b; cbn [length]; lia| |];
    [apply Z.eqb_neq in EC; done|]. change (at_ (b :: source) 0) with b in HC.
  rewrite appendCharacter_8 in ES by lia.
  eapply finishes8_step.
  - cbn [d_source decodeSource8 d]. rewrite Eb, EI, H0, EC.
    rewrite Z.gtb_ltb, (proj2 (Z.ltb_ge _ _)) by lia. reflexivity.
  - exact ES.
  - reflexivity.
  - reflexivity.
  - cbn [advanceSource d_source d]. rewrite length_drop. lia.
  - apply IH; cbn [advanceSource d_source d_partial d]; [by apply Forall_drop|done|].
    rewrite length_drop. cbn [length]. lia.
Qed.

(** ** The partial sequence *)

(** A sequence that needs more bytes. *)
Lemma incomplete_inv p : bytes p -> p <> [] -> nextSequence p = None ->
  isASCII (at_ p 0) = false /\ (nonASCIISequenceLength (at_ p 0) =? 0)%nat = false /\
  (length p < nonASCIISequenceLength (at_ p 0) <= 4)%nat.
Proof.
  intros HB Hne HN. destruct p as [|b p]; [done|]. change (at_ (b :: p) 0) with b. unfold nextSequence in HN.
  destruct (isASCII b); [done|]. destruct (_ =? 0)%nat; [done|]. destruct (Nat.ltb_spec (length (b :: p)) (nonASCIISequenceLength b)).
  - split_and!; [done|done|done|]. apply sequenceLength_le. by inversion HB.
  - by destruct (_ =? nonCharacter).
Qed.

(** The first sequence of [p ++ s], for such a [p]. *)
Lemma nextSequence_completed p s : bytes (p ++ s) -> p <> [] -> nextSequence p = None ->
  let count := nonASCIISequenceLength (at_ p 0) in
  let k := (count - length p)%nat in
  nextSequence (p ++ s) =
    if (length s <? k)%nat then None
    else if decodeNonASCIISequence (p ++ take k s) count =? nonCharacter then Some ([replacementCharacter], 1%nat, true)
    else Some (appendCharacter (decodeNonASCIISequence (p ++ take k s) count), count, false).
Proof.
  intros HB Hne HN. cbv zeta. apply Forall_app in HB as HB'. destruct HB' as [HP HS].
  destruct (incomplete_inv p HP Hne HN) as (Ea & E0 & HL). destruct p as [|b p]; [done|]. change (at_ (b :: p) 0) with b in *.
  unfold nextSequence. cbn [app]. rewrite Ea, E0, app_comm_cons, length_app. set (count := nonASCIISequenceLength b) in *.
  destruct (Nat.ltb_spec (length s) (count - length (b :: p))) as [HK|HK].
  { by rewrite (proj2 (Nat.ltb_lt _ _)) by lia. }
  rewrite (proj2 (Nat.ltb_ge _ _)) by lia.
  assert (ED : decodeNonASCIISequence ((b :: p) ++ s) count = decodeNonASCIISequence ((b :: p) ++ take (count - length (b :: p)) s) count).
  { rewrite <- (take_drop (count - length (b :: p)) s) at 1. rewrite app_assoc.
    apply decodeNonASCIISequence_app; [lia|rewrite length_app, length_take; lia|cbn [length] in *; lia]. }
  by rewrite ED.
Qed.

Lemma completePartial_spec p s count out address saw :
  (length p < count <= 4)%nat -> (count - length p <= length s)%nat ->
  completePartial count (mkDecoding out p s address saw) =
  Some (mkDecoding out (p ++ take (count - length p) s) (drop (count - length p) s)
          (address + Z.of_nat (count - length p)) saw).
Proof.
  intros HC HS. unfold completePartial, appendPartial, U8_MAX_LENGTH. cbn [d_partial d_source d_out d_address d_sawError].
  by rewrite (proj2 (Nat.leb_le _ _)) by (rewrite length_take; lia).
Qed.

Lemma keepAll_spec p s out address saw : (length p + length s <= 4)%nat ->
  keepAll (mkDecoding out p s address saw) = Some (mkDecoding out (p ++ s) s address saw).
Proof. intros HL. unfold keepAll, appendPartial, U8_MAX_LENGTH. cbn [d_partial d_source]. by rewrite (proj2 (Nat.leb_le _ _)). Qed.

Lemma shrinkPartial_all p : shrinkPartial (length p) p = [].
Proof. unfold shrinkPartial. by rewrite Nat.sub_diag. Qed.

(** The data does not complete the sequence. *)
Lemma handlePartial_keep fuel p s out address saw :
  bytes (p ++ s) -> p <> [] -> nextSequence p = None -> nextSequence (p ++ s) = None ->
  handlePartialSequence8 (S fuel) false (mkDecoding out p s address saw) = Some (false, mkDecoding out (p ++ s) s address saw).
Proof.
  intros HB Hne HN HN'. apply Forall_app in HB as HB'. destruct HB' as [HP HS].
  destruct (incomplete_inv p HP Hne HN) as (Ea & E0 & HL). rewrite nextSequence_completed in HN' by done. cbv zeta in HN'.
  destruct (Nat.ltb_spec (length s) (nonASCIISequenceLength (at_ p 0) - length p)) as [HK|HK]; [|by destruct (_ =? nonCharacter)].
  cbn [handlePartialSequence8 d_partial d_source]. rewrite Ea, E0. rewrite !(proj2 (Nat.ltb_lt _ _)) by lia. cbn [andb negb].
  by rewrite keepAll_spec by lia.
Qed.

(** The data completes it, and it is a character. *)
Lemma handlePartial8_complete fuel flush p s out address saw o n :
  bytes (p ++ s) -> p <> [] -> nextSequence p = None -> nextSequence (p ++ s) = Some (o, n, false) ->
  let k := (n - length p)%nat in
  let d' := mkDecoding out (p ++ take k s) (drop k s) (address + Z.of_nat k) saw in
  handlePartialSequence8 (S fuel) flush (mkDecoding out p s address saw) = Some (true, d') \/
  handlePartialSequence8 (S fuel) flush (mkDecoding out p s address saw) =
    Some (false, mkDecoding (out ++ o) [] (drop k s) (address + Z.of_nat k) saw).
Proof.
  intros HB Hne HN HN'. cbv zeta. apply Forall_app in HB as HB'. destruct HB' as [HP HS].
  destruct (incomplete_inv p HP Hne HN) as (Ea & E0 & HL). rewrite nextSequence_completed in HN' by done. cbv zeta in HN'.
  destruct (Nat.ltb_spec (length s) (nonASCIISequenceLength (at_ p 0) - length p)) as [HK|HK]; [done|].
  destruct (_ =? nonCharacter) eqn:EC; [done|]. injection HN' as <- <-.
  cbn [handlePartialSequence8 d_partial d_source]. rewrite Ea, E0.
  rewrite (proj2 (Nat.ltb_lt (length p) _)), (proj2 (Nat.ltb_ge (length s) _)) by lia. cbn [andb].
  rewrite completePartial_spec by lia. cbn [mbind option_bind d_partial]. rewrite EC. cbn [orb].
  destruct (Z.gtb_spec (decodeNonASCIISequence (p ++ take (nonASCIISequenceLength (at_ p 0) - length p) s)
    (nonASCIISequenceLength (at_ p 0))) 255) as [HG|HG]; [by left|right].
  set (q := p ++ take _ s) in *. assert (EL : length q = nonASCIISequenceLength (at_ p 0))
    by (unfold q; rewrite length_app, length_take; lia).
  assert (EQ : at_ q 0 = at_ p 0) by (unfold q; apply at_app; destruct p; simpl; [done|lia]).
  assert (HQ : bytes q) by (by apply Forall_app; split; [|apply Forall_take]).
  assert (HR : (2 <= nonASCIISequenceLength (at_ q 0) <= length q)%nat).
  { rewrite EQ, EL. split; [|lia]. destruct p; [done|]. cbn [length] in HL. lia. }
  destruct (decodeNonASCIISequence_range q HQ HR) as [HC|[HC _]]; rewrite EQ in HC; [by apply Z.eqb_neq in EC|].
  unfold emit. cbn [d_out d_source d_address d_sawError]. 
  assert (ESh : shrinkPartial (nonASCIISequenceLength (at_ p 0)) q = []) by (rewrite <- EL; apply shrinkPartial_all).
  rewrite ESh. cbn [d_partial length Nat.eqb].
  by rewrite appendCharacter_8 by lia.
Qed.

(** The 16 bit version finishes a sequence that is complete. *)
Lemma handlePartial16_complete fuel flush q s out address saw o :
  bytes q -> nextSequence q = Some (o, length q, false) -> isASCII (at_ q 0) = false ->
  handlePartialSequence16 (S fuel) flush false (mkDecoding out q s address saw) = Some (mkDecoding (out ++ o) [] s address saw).
Proof.
  intros HB HN Ea. destruct q as [|b q]; [done|]. cbn [handlePartialSequence16 d_partial d_source].
  change (at_ (b :: q) 0) with b in *. rewrite (nextSequence_nonASCII b q Ea) in HN. cbv zeta in HN. rewrite Ea.
  destruct (nonASCIISequenceLength b =? 0)%nat eqn:E0; [done|]. cbn [negb andb] in HN.
  destruct (Nat.ltb_spec (length (b :: q)) (nonASCIISequenceLength b)); [done|]. cbn [andb].
  destruct (decodeNonASCIISequence _ _ =? nonCharacter) eqn:EC; [done|]. injection HN as <- EL.
  assert (ESh : shrinkPartial (nonASCIISequenceLength b) (b :: q) = []) by (rewrite EL; apply (shrinkPartial_all (b :: q))).
  cbn [mbind option_bind d_partial]. rewrite EC, ESh. done.
Qed.

(** ** The end of the data *)

Lemma finishLoop_fuel bs n m : bytes bs -> (length bs <= n)%nat -> (length bs <= m)%nat -> finishLoop n bs = finishLoop m bs.
Proof.
  revert m bs. induction n as [|n IH]; intros m bs HB Hn Hm.
  { destruct bs; [|simpl in Hn; lia]. by destruct m. }
  destruct m as [|m]; [destruct bs; [done|simpl in Hm; lia]|]. cbn [finishLoop]. destruct bs as [|b bs]; [done|].
  destruct (default _ (nextSequence (b :: bs))) as [[o k] e] eqn:E.
  assert (Hk : (1 <= k)%nat).
  { destruct (nextSequence (b :: bs)) as [[[o' k'] e']|] eqn:EN; cbn in E; injection E as <- <- <-; [|lia].
    by destruct (nextSequence_some _ _ _ _ EN HB) as [[? _] _]. }
  by rewrite (IH m (drop k (b :: bs))) by first [by apply Forall_drop | rewrite length_drop; cbn [length] in *; lia].
Qed.

Definition andThen (o : list UChar) (e : bool) (r : list UChar * bool) : list UChar * bool :=
  (o ++ fst r, e || snd r).

Lemma decodeAll_next bs o n e : bytes bs -> nextSequence bs = Some (o, n, e) -> decodeAll bs = andThen o e (decodeAll (drop n bs)).
Proof.
  intros HB HN. destruct (nextSequence_some _ _ _ _ HN HB) as [Hn _]. unfold decodeAll at 1.
  rewrite (finishLoop_fuel bs _ (S (length bs))) by (done || lia). cbn [finishLoop]. destruct bs as [|b bs]; [done|].
  rewrite HN. cbn [default from_option id]. unfold decodeAll.
  rewrite (finishLoop_fuel (drop n (b :: bs)) _ (length (drop n (b :: bs))))
    by first [by apply Forall_drop | rewrite ?length_drop; cbn [length] in *; lia].
  by destruct (finishLoop _ _).
Qed.

Lemma decodeAll_incomplete b bs : bytes (b :: bs) -> nextSequence (b :: bs) = None ->
  decodeAll (b :: bs) = andThen [replacementCharacter] true (decodeAll bs).
Proof.
  intros HB HN. unfold decodeAll. cbn [length finishLoop]. rewrite HN. cbn [default from_option id drop]. rewrite drop_0.
  by destruct (finishLoop _ _).
Qed.

Lemma decodeAll_scan bs : bytes bs -> let '(o, e, l) := scan bs in decodeAll bs = andThen o e (decodeAll l).
Proof.
  intros HB. remember (length bs) as n eqn:Hn. revert bs HB Hn.
  induction n as [n IH] using lt_wf_ind. intros bs HB ->. rewrite (scan_equation bs) by done.
  destruct (nextSequence bs) as [[[o k] e]|] eqn:E; [|by destruct (decodeAll bs)].
  destruct (nextSequence_some _ _ _ _ E HB) as [Hk _]. rewrite (decodeAll_next _ _ _ _ HB E).
  specialize (IH (length (drop k bs)) ltac:(rewrite length_drop; lia) (drop k bs) (Forall_drop _ _ _ HB) eq_refl).
  destruct (scan (drop k bs)) as [[o' e'] l]. cbn [prepend]. rewrite IH. unfold andThen. cbn [fst snd].
  by rewrite app_assoc, orb_assoc.
Qed.

(** [handlePartialSequence<UChar>] at the end of the data; at most two bytes
    behind an incomplete sequence, so that a character it decodes is always
    the whole partial sequence. *)
Lemma handlePartial16_flush fuel p out address saw :
  bytes p -> p <> [] -> (length p <= 2)%nat \/ nextSequence p = None -> (length p <= fuel)%nat ->
  handlePartialSequence16 fuel true false (mkDecoding out p [] address saw) =
  Some (mkDecoding (out ++ fst (decodeAll p)) [] [] address (saw || snd (decodeAll p))).
Proof.
  revert p out saw. induction fuel as [|fuel IH]; intros p out saw HB Hne HP HF; [destruct p; [done|simpl in HF; lia]|].
  destruct p as [|b p]; [done|]. cbn [length] in HF.
  assert (HL : (length p <= 2)%nat) by (destruct HP as [HP|HP]; [simpl in HP|apply nextSequence_none in HP; [simpl in HP|done]]; lia).
  assert (Htail : forall o e, decodeAll (b :: p) = andThen o e (decodeAll p) ->
    (if (length p =? 0)%nat then Some (mkDecoding (out ++ o) p [] address (saw || e))
     else handlePartialSequence16 fuel true false (mkDecoding (out ++ o) p [] address (saw || e))) =
    Some (mkDecoding (out ++ fst (decodeAll (b :: p))) [] [] address (saw || snd (decodeAll (b :: p))))).
  { intros o e ->. unfold andThen. cbn [fst snd]. rewrite app_assoc, orb_assoc. destruct p as [|b' p].
    - cbn. by rewrite app_nil_r, orb_false_r.
    - cbn [length Nat.eqb]. apply IH; [by inversion HB|done|left; simpl in *; lia|simpl in *; lia]. }
  cbn [handlePartialSequence16 d_partial d_source]. change (at_ (b :: p) 0) with b.
  unfold handleError, emit, consumePartialSequenceByte. cbn [d_out d_partial d_source d_address d_sawError tail].
  destruct (isASCII b) eqn:Ea.
  { rewrite <- (Htail [b] false), orb_false_r; [done|]. apply (decodeAll_next _ _ 1 _ HB). unfold nextSequence. by rewrite Ea. }
  pose proof (nextSequence_nonASCII b p Ea) as EN. cbv zeta in EN.
  destruct (nonASCIISequenceLength b =? 0)%nat eqn:E0; cbn [negb andb] in EN.
  { rewrite <- (Htail [replacementCharacter] true), orb_true_r; [done|]. by apply (decodeAll_next _ _ 1 _ HB). }
  destruct (Nat.ltb_spec (length (b :: p)) (nonASCIISequenceLength b)) as [HS|HS].
  { rewrite (proj2 (Nat.ltb_lt _ _)) by (simpl in *; lia). cbn [andb negb].
    rewrite <- (Htail [replacementCharacter] true), orb_true_r; [done|]. by apply decodeAll_incomplete. }
  cbn [andb mbind option_bind d_partial d_out d_source d_address d_sawError].
  destruct (_ =? nonCharacter) eqn:EC.
  { rewrite <- (Htail [replacementCharacter] true), orb_true_r; [done|]. by apply (decodeAll_next _ _ 1 _ HB). }
  assert (EL : nonASCIISequenceLength b = length (b :: p)).
  { destruct HP as [HP|HP]; [|by rewrite HP in EN]. apply Nat.eqb_neq in E0.
    destruct (sequenceLength_cases b (Forall_inv HB)) as [|[|[|]]]; simpl in *; lia. }
  assert (ESh : shrinkPartial (nonASCIISequenceLength b) (b :: p) = []) by (rewrite EL; apply (shrinkPartial_all (b :: p))).
  rewrite ESh. cbn [length Nat.eqb]. rewrite (decodeAll_next _ _ _ _ HB EN), EL, drop_all.
  cbn [andThen fst snd decodeAll length finishLoop]. by rewrite app_nil_r, orb_false_r.
Qed.

(** ** [decode] with buffers that are never too small *)

Fixpoint freeDecode8 (fuel : nat) (flush stopOnError : bool) (d : Decoding) : option (bool * Decoding) :=
  match fuel with
  | O => None
  | S fuel =>
      let rest d :=
        '(up, d) ← decodeSource8 (S (length (d_source d))) stopOnError d;
        if (up : bool) then Some (true, d)
        else if flush && negb (length (d_partial d) =? 0)%nat then freeDecode8 fuel flush stopOnError d
        else Some (false, d) in
      if (length (d_partial d) =? 0)%nat then rest d
      else
        '(up, d') ← handlePartialSequence8 (S (length (d_partial d) + length (d_source d))) flush d;
        if (up : bool) then Some (true, mkDecoding (d_out d) (d_partial d') (d_source d') (d_address d') (d_sawError d'))
        else if negb (length (d_partial d') =? 0)%nat then Some (false, d')
        else rest d'
  end.

Fixpoint freeDecode16 (fuel : nat) (flush stopOnError : bool) (d : Decoding) : option Decoding :=
  match fuel with
  | O => None
  | S fuel =>
      let rest d :=
        d ← decodeSource16 (S (length (d_source d))) stopOnError d;
        if flush && negb (length (d_partial d) =? 0)%nat then freeDecode16 fuel flush stopOnError d else Some d in
      if (length (d_partial d) =? 0)%nat then rest d
      else
        d ← handlePartialSequence16 (S (length (d_partial d) + length (d_source d))) flush stopOnError d;
        if negb (length (d_partial d) =? 0)%nat then Some d else rest d
  end.

Definition freeDecode (codec : TextCodecUTF8) (address : Z) (bytes : list Z) (flush stopOnError sawError : bool)
    : option (list UChar * bool * TextCodecUTF8 * bool) :=
  let d := mkDecoding [] (m_partialSequence codec) bytes address sawError in
  '(up, d) ← freeDecode8 3 flush stopOnError d;
  if (up : bool) then
    d ← freeDecode16 3 flush stopOnError d;
    Some (d_out d, false, mkCodec (d_partial d), d_sawError d)
  else Some (d_out d, true, mkCodec (d_partial d), d_sawError d).


(** The loop in 16 bits without a partial sequence. *)
Lemma decode16_source fuel flush d o e l :
  bytes (d_source d) -> d_partial d = [] -> scan (d_source d) = (o, e, l) -> (flush = true -> l = []) ->
  exists a, freeDecode16 (S fuel) flush false d = Some (mkDecoding (d_out d ++ o) l [] a (d_sawError d || e)).
Proof.
  intros HB HP HS HF. pose proof (decodeSource16_spec (S (length (d_source d))) d HB HP ltac:(lia)) as HX.
  unfold finishes16 in HX. rewrite HS in HX. destruct HX as (a & HX). exists a. cbn [freeDecode16]. rewrite HP. cbn [length Nat.eqb].
  rewrite HX. cbn [mbind option_bind d_partial]. destruct flush; [|done]. by rewrite HF.
Qed.

Lemma decode16_flush fuel d o e l :
  bytes (d_source d) -> d_partial d = [] -> scan (d_source d) = (o, e, l) ->
  exists a, freeDecode16 (S (S fuel)) true false d =
    Some (mkDecoding (d_out d ++ o ++ fst (decodeAll l)) [] [] a (d_sawError d || (e || snd (decodeAll l)))).
Proof.
  intros HB HP HS. pose proof (decodeSource16_spec (S (length (d_source d))) d HB HP ltac:(lia)) as HX.
  unfold finishes16 in HX. rewrite HS in HX. destruct HX as (a & HX). exists a.
  destruct (scan_left _ _ _ _ HB HS) as (HN & HL & _). cbn [freeDecode16]. rewrite HP. cbn [length Nat.eqb]. rewrite HX.
  cbn [mbind option_bind d_partial d_source]. destruct l as [|b l]; [cbn; by rewrite app_nil_r, !orb_false_r|].
  cbn [length Nat.eqb negb andb]. rewrite handlePartial16_flush; [|done|done|by right|simpl; lia].
  cbn [mbind option_bind d_partial d_source length Nat.eqb negb andb decodeSource16]. by rewrite app_assoc, orb_assoc.
Qed.

(** From [goto upConvertTo16Bit] or the end of the first loop on. *)
Definition converted (flush : bool) (r : option (bool * Decoding)) : option (list UChar * bool * TextCodecUTF8 * bool) :=
  '(up, d) ← r;
  if (up : bool) then
    d ← freeDecode16 3 flush false d;
    Some (d_out d, false, mkCodec (d_partial d), d_sawError d)
  else Some (d_out d, true, mkCodec (d_partial d), d_sawError d).

(** What [freeDecode8] does when there is no partial sequence. *)
Definition sourceLoop8 (fuel : nat) (flush : bool) (d : Decoding) : option (bool * Decoding) :=
  '(up, d) ← decodeSource8 (S (length (d_source d))) false d;
  if (up : bool) then Some (true, d)
  else if flush && negb (length (d_partial d) =? 0)%nat then freeDecode8 fuel flush false d
  else Some (false, d).

Lemma sourceLoop8_spec fuel flush d o e l :
  bytes (d_source d) -> d_partial d = [] -> scan (d_source d) = (o, e, l) -> (flush = true -> l = []) ->
  exists is8Bit, converted flush (sourceLoop8 fuel flush d) = Some (d_out d ++ o, is8Bit, mkCodec l, d_sawError d || e).
Proof.
  intros HB HP HS HF. destruct (decodeSource8_spec (S (length (d_source d))) d HB HP ltac:(lia)) as ([] & d' & E & HX);
    unfold sourceLoop8; rewrite E; cbn [mbind option_bind].
  - destruct HX as (J1 & J2 & _ & (o1 & J4 & J5) & J6). rewrite HS in J5.
    destruct (scan (d_source d')) as [[o' e'] l'] eqn:ES'. injection J5 as -> -> ->. cbn [orb scanError fst snd] in J6.
    destruct (decode16_source 2 flush d' o' e' l' J2 J1 ES' HF) as (a & E'). unfold converted. cbn [mbind option_bind].
    rewrite E'. cbn [mbind option_bind d_out d_partial d_sawError]. exists false. by rewrite J4, app_assoc, J6.
  - unfold ends8 in HX. rewrite HS in HX. destruct HX as (-> & a & ->). cbn [d_partial]. exists true.
    assert (EF : flush && negb (length l =? 0)%nat = false) by (destruct flush; [by rewrite HF|done]). rewrite EF.
    cbn. by rewrite orb_false_r.
Qed.

Lemma decode8_nonempty fuel flush p s out address saw : p <> [] ->
  let d := mkDecoding out p s address saw in
  freeDecode8 (S fuel) flush false d =
    ('(up, d') ← handlePartialSequence8 (S (length p + length s)) flush d;
     if (up : bool) then Some (true, mkDecoding out (d_partial d') (d_source d') (d_address d') (d_sawError d'))
     else if negb (length (d_partial d') =? 0)%nat then Some (false, d')
     else sourceLoop8 fuel flush d').
Proof. by destruct p. Qed.

Lemma decode16_nonempty fuel flush p s out address saw : p <> [] ->
  let d := mkDecoding out p s address saw in
  freeDecode16 (S fuel) flush false d =
    (d ← handlePartialSequence16 (S (length p + length s)) flush false d;
     if negb (length (d_partial d) =? 0)%nat then Some d else freeDecode16 (S fuel) flush false d).
Proof.
  destruct p as [|b p]; [done|]. intros _. cbv zeta. cbn [freeDecode16 d_partial d_source length Nat.eqb].
  destruct (handlePartialSequence16 _ _ _ _) as [d'|]; [|done]. cbn [mbind option_bind].
  by destruct (length (d_partial d') =? 0)%nat.
Qed.

(** The sequence that the data completes. *)
Lemma completed_sequence p s o n :
  bytes (p ++ s) -> p <> [] -> nextSequence p = None -> nextSequence (p ++ s) = Some (o, n, false) ->
  let q := p ++ take (n - length p) s in
  (length p < n)%nat /\ length q = n /\ bytes q /\ q <> [] /\ isASCII (at_ q 0) = false /\ nextSequence q = Some (o, n, false).
Proof.
  intros HB Hne HN EN. cbv zeta. apply Forall_app in HB as HB'. destruct HB' as [HP HS].
  destruct (incomplete_inv p HP Hne HN) as (Ea & _ & HL). rewrite nextSequence_completed in EN by done. cbv zeta in EN.
  destruct (Nat.ltb_spec (length s) (nonASCIISequenceLength (at_ p 0) - length p)) as [|HK]; [done|].
  destruct (_ =? nonCharacter) eqn:EC; [done|]. injection EN as <- <-.
  set (n := nonASCIISequenceLength (at_ p 0)) in *.
  assert (HQ : bytes (p ++ take (n - length p) s)) by (by apply Forall_app; split; [|apply Forall_take]).
  split_and!; [lia|rewrite length_app, length_take; lia|done|by destruct p
    |rewrite at_app by (destruct p; [done|simpl; lia]); done|].
  rewrite nextSequence_completed by done. cbv zeta. fold n. rewrite (proj2 (Nat.ltb_ge _ _)) by (rewrite length_take; lia).
  by rewrite take_take, Nat.min_id, EC.
Qed.

(** One chunk without errors, from any partial sequence. *)
Lemma decode_step codec address s flush saw o l :
  bytes (m_partialSequence codec ++ s) -> nextSequence (m_partialSequence codec) = None ->
  scan (m_partialSequence codec ++ s) = (o, false, l) -> (flush = true -> l = []) ->
  exists is8Bit, freeDecode codec address s flush false saw = Some (o, is8Bit, mkCodec l, saw).
Proof.
  destruct codec as [p]. cbn [m_partialSequence]. intros HB HN HS HF.
  change (freeDecode (mkCodec p) address s flush false saw) with (converted flush (freeDecode8 3 flush false (mkDecoding [] p s address saw))).
  destruct (decide (p = [])) as [->|Hne].
  { destruct (sourceLoop8_spec 2 flush (mkDecoding [] [] s address saw) o false l HB eq_refl HS HF) as (i & E).
    exists i. cbn [d_out d_sawError app] in E. by rewrite orb_false_r in E. }
  rewrite decode8_nonempty by done. rewrite scan_equation in HS by done.
  destruct (nextSequence (p ++ s)) as [[[o1 n] e1]|] eqn:EN.
  2: { injection HS as <- <-. assert (flush = false) as -> by (destruct flush; [by specialize (HF eq_refl); destruct p|done]).
       rewrite handlePartial_keep by done. cbn [mbind option_bind d_partial]. exists true. by destruct p. }
  destruct (scan (drop n (p ++ s))) as [[o2 e2] l2] eqn:ES. cbn [prepend] in HS. injection HS as <- HE <-.
  apply orb_false_iff in HE as [-> ->]. destruct (completed_sequence p s o1 n HB Hne HN EN) as (HL & EL & HQ & Hq & Ea & EQ).
  rewrite drop_app_ge in ES by lia. assert (HD : bytes (drop (n - length p) s)) by (apply Forall_drop; apply Forall_app in HB; apply HB).
  destruct (handlePartial8_complete (length p + length s) flush p s [] address saw o1 n HB Hne HN EN) as [E|E];
    rewrite E; cbn [mbind option_bind d_partial d_out d_source d_address d_sawError length Nat.eqb negb app].
  - unfold converted. cbn [mbind option_bind]. rewrite decode16_nonempty by done.
    rewrite (handlePartial16_complete _ flush _ (drop (n - length p) s) [] _ saw o1) by (rewrite ?EL; done).
    cbn [mbind option_bind d_partial length Nat.eqb negb app].
    destruct (decode16_source 2 flush (mkDecoding o1 [] (drop (n - length p) s) (address + Z.of_nat (n - length p)) saw) o2 false l2
      HD eq_refl ES HF) as (a & ->). cbn. exists false. by rewrite orb_false_r.
  - destruct (sourceLoop8_spec 2 flush (mkDecoding o1 [] (drop (n - length p) s) (address + Z.of_nat (n - length p)) saw) o2 false l2
      HD eq_refl ES HF) as (i & E'). exists i. cbn [d_out d_sawError] in E'. by rewrite orb_false_r in E'.
Qed.

(** An incomplete sequence at the end of the data leaves the 8 bit loop. *)
Lemma decode_leftover fuel l out address saw :
  bytes l -> nextSequence l = None ->
  exists is8Bit, converted true (if negb (length l =? 0)%nat then freeDecode8 (S fuel) true false (mkDecoding out l [] address saw)
      else Some (false, mkDecoding out l [] address saw)) =
    Some (out ++ fst (decodeAll l), is8Bit, newTextCodecUTF8, saw || snd (decodeAll l)).
Proof.
  intros HB HN. destruct (decide (l = [])) as [->|Hne].
  { exists true. cbn. by rewrite app_nil_r, orb_false_r. }
  exists false. assert (El : (length l =? 0)%nat = false) by (by destruct l). rewrite El. cbn [negb].
  rewrite decode8_nonempty by done. destruct (incomplete_inv l HB Hne HN) as (Ea & E0 & HL).
  cbn [handlePartialSequence8 d_partial d_source]. rewrite Ea, E0. rewrite !(proj2 (Nat.ltb_lt _ _)) by (simpl; lia).
  cbn [andb negb mbind option_bind converted d_partial d_source d_address d_sawError]. unfold converted. cbn [mbind option_bind].
  rewrite decode16_nonempty by done. rewrite handlePartial16_flush; [|done|done|by right|lia].
  cbn [mbind option_bind d_partial length Nat.eqb negb].
  destruct (decode16_source 2 true (mkDecoding (out ++ fst (decodeAll l)) [] [] address (saw || snd (decodeAll l))) [] false []
    (Forall_nil_2 _) eq_refl eq_refl (fun _ => eq_refl)) as (a & ->).
  cbn. by rewrite app_nil_r, orb_false_r.
Qed.

Lemma decodeAll_length bs : bytes bs -> (length (fst (decodeAll bs)) <= length bs)%nat.
Proof.
  intros HB. remember (length bs) as n eqn:Hn. revert bs HB Hn.
  induction n as [n IH] using lt_wf_ind. intros bs HB ->. destruct bs as [|b bs]; [simpl; lia|].
  destruct (nextSequence (b :: bs)) as [[[o k] e]|] eqn:E.
  - destruct (nextSequence_some _ _ _ _ E HB) as [Hk Ho]. rewrite (decodeAll_next _ _ _ _ HB E). cbn [andThen fst].
    specialize (IH (length (drop k (b :: bs))) ltac:(rewrite length_drop; lia) (drop k (b :: bs)) (Forall_drop _ _ _ HB) eq_refl).
    rewrite length_drop in IH. rewrite length_app. lia.
  - rewrite decodeAll_incomplete by done. cbn [andThen fst].
    specialize (IH (length bs) ltac:(simpl; lia) bs (Forall_inv_tail HB) eq_refl). simpl. lia.
Qed.

Lemma decodeAll_error_left bs : bytes bs -> snd (decodeAll bs) = false -> scan bs = (fst (decodeAll bs), false, []).
Proof.
  intros HB HE. pose proof (decodeAll_scan bs HB) as HX. destruct (scan bs) as [[o e] l] eqn:ES.
  destruct (scan_left _ _ _ _ HB ES) as (HN & HL & _). rewrite HX in HE |- *. cbn [andThen fst snd] in *.
  apply orb_false_iff in HE as [-> HE]. destruct l as [|b l]; [by rewrite app_nil_r|].
  by rewrite decodeAll_incomplete in HE.
Qed.

Lemma decode_whole address bs sawError : bytes bs ->
  exists is8Bit, freeDecode newTextCodecUTF8 address bs true false sawError =
    Some (fst (decodeAll bs), is8Bit, newTextCodecUTF8, sawError || snd (decodeAll bs)).
Proof.
  intros HB. set (d := mkDecoding [] [] bs address sawError).
  change (freeDecode newTextCodecUTF8 address bs true false sawError) with (converted true (sourceLoop8 2 true d)).
  pose proof (decodeAll_scan bs HB) as HA. destruct (scan bs) as [[o e] l] eqn:ES.
  destruct (scan_left _ _ _ _ HB ES) as (HN & HL & _).
  destruct (decodeSource8_spec (S (length bs)) d HB eq_refl ltac:(cbn; lia)) as ([] & d' & E & HX);
    unfold sourceLoop8; cbn [d_source d] in E |- *; rewrite E; cbn [mbind option_bind].
  - destruct HX as (J1 & J2 & _ & (o1 & J4 & J5) & J6). cbn [d_source d_out d_sawError d app] in J4, J5, J6. rewrite ES in J5.
    destruct (scan (d_source d')) as [[o' e'] l'] eqn:ES'. injection J5 as -> -> ->. cbn [orb scanError fst snd] in J6.
    destruct (decode16_flush 1 d' o' e' l' J2 J1 ES') as (a & E'). unfold converted. cbn [mbind option_bind].
    rewrite E'. exists false. cbn [mbind option_bind d_out d_partial d_sawError]. rewrite HA, J4. cbn [andThen fst snd orb].
    by rewrite app_assoc, !orb_assoc, J6.
  - unfold ends8 in HX. cbn [d_source d_out d_sawError d] in HX. rewrite ES in HX. destruct HX as (-> & a & ->).
    destruct (decode_leftover 1 l o a sawError HL HN) as (i & E'). exists i. rewrite HA. exact E'.
Qed.
