(* ===== verification/TextCodecUTF8Safety.v ===== *)
(** * Safety of the UTF-8 codec

    [TextCodecUTF8::decode] ends and stays within its buffers, for any bytes,
    any partial sequence of an earlier call and any flags. *)

From S2P Require Import Prelude TextCodecUTF8 TextCodecUTF8Loops.
Open Scope Z_scope.

(** ** The measure

    The bytes that are still to be decoded, in front of and in the source;
    every step that writes a code unit uses one up. *)

Definition room (d : Decoding) : nat := length (d_partial d) + length (d_source d).
Definition total (d : Decoding) : nat := length (d_out d) + room d.

Record good (d : Decoding) : Prop := {
  g_partial : bytes (d_partial d);
  g_source : bytes (d_source d);
  g_size : (length (d_partial d) <= U8_MAX_LENGTH)%nat
}.

(** What a call leaves in the partial sequence: never a character that could
    be read at once.  Its first byte is not ASCII, and it starts no sequence,
    a sequence that is cut off, or an invalid one. *)
Definition waits (p : list Z) : Prop :=
  p = [] \/
  (isASCII (at_ p 0) = false /\
    ((nonASCIISequenceLength (at_ p 0) =? 0)%nat = true \/ (length p < nonASCIISequenceLength (at_ p 0))%nat \/
     (decodeNonASCIISequence p (nonASCIISequenceLength (at_ p 0)) =? nonCharacter) = true)).

(** What holds between the start and the end of a loop.  The data kept for the
    next call is counted in the partial sequence and in the source, so that
    the output is bounded on its own. *)
Record within (d d' : Decoding) : Prop := {
  wi_good : good d';
  wi_out : (length (d_out d') <= total d)%nat;
  wi_source : (length (d_source d') <= length (d_source d))%nat;
  wi_total : d_partial d' = [] -> (total d' <= total d)%nat;
  wi_waits : waits (d_partial d')
}.

(** A step of a loop. *)
Record spends (d d1 : Decoding) : Prop := {
  sp_good : good d1;
  sp_room : (room d1 < room d)%nat;
  sp_total : (total d1 <= total d)%nat;
  sp_source : (length (d_source d1) <= length (d_source d))%nat
}.

(** A change that moves bytes from the source to the partial sequence. *)
Record moves (d d1 : Decoding) : Prop := {
  mv_good : good d1;
  mv_room : room d1 = room d;
  mv_out : d_out d1 = d_out d;
  mv_source : (length (d_source d1) <= length (d_source d))%nat;
  mv_size : (length (d_partial d) <= length (d_partial d1))%nat;
  mv_first : d_partial d <> [] -> at_ (d_partial d1) 0 = at_ (d_partial d) 0
}.

Ltac fields := cbn [d_out d_partial d_source d_address d_sawError emit handleError advanceSource sawErrorIn] in *.
Ltac measure := unfold total, room in *; fields; rewrite ?length_app, ?length_drop in *; cbn [length] in *; lia.

Lemma within_refl d : good d -> d_partial d = [] -> within d d.
Proof. intros HG HP. split; [done|measure|lia|lia|by left]. Qed.

Lemma spends_within d d1 d' : spends d d1 -> within d1 d' -> within d d'.
Proof. intros [S1 S2 S3 S4] [W1 W2 W3 W4 W5]. split; [done|lia|lia| |done]. intros E. specialize (W4 E). lia. Qed.

Lemma moves_spends d d1 d2 : moves d d1 -> spends d1 d2 -> spends d d2.
Proof. intros [M1 M2 M3 M4 M5 M6] [S1 S2 S3 S4]. unfold total in S3. rewrite M3, M2 in S3. split; [done|lia|unfold total; lia|lia]. Qed.

Lemma moves_refl d : good d -> moves d d.
Proof. intros HG. by split. Qed.

(** ** The steps *)

Lemma appendCharacter_length c : (length (appendCharacter c) <= 2)%nat.
Proof. unfold appendCharacter. case_match; simpl; lia. Qed.

Lemma sequenceLength_range b : 0 <= b < 256 -> (nonASCIISequenceLength b =? 0)%nat = false -> (2 <= nonASCIISequenceLength b <= 4)%nat.
Proof. intros Hb H0. apply Nat.eqb_neq in H0. destruct (sequenceLength_cases b Hb) as [|[|[|]]]; lia. Qed.

Lemma nonempty_length (p : list Z) : p <> [] -> (1 <= length p)%nat.
Proof. destruct p; [done|simpl; lia]. Qed.

(** One byte of the partial sequence for one code unit. *)
Lemma consume_spends u d : good d -> d_partial d <> [] -> spends d (emit [u] (consumePartialSequenceByte (d_partial d)) d).
Proof.
  intros [GP GS GL] Hne. destruct d as [out [|b p] s a w]; fields; [done|]. cbn [consumePartialSequenceByte tail].
  split; [|measure|measure|fields; lia]. split; fields; [by inversion GP|done|cbn [length] in *; lia].
Qed.

Lemma error_spends d : good d -> d_partial d <> [] -> spends d (handleError false d).
Proof.
  intros HG Hne. apply (moves_spends d (sawErrorIn d)); [destruct HG; by split|].
  apply (consume_spends replacementCharacter (sawErrorIn d)); [|done]. destruct HG. by split.
Qed.

(** A sequence of at least two bytes for at most two code units. *)
Lemma shrink_spends units count d :
  good d -> (length units <= 2)%nat -> (2 <= count <= length (d_partial d))%nat ->
  spends d (emit units (shrinkPartial count (d_partial d)) d).
Proof.
  intros [GP GS GL] HU HC. unfold shrinkPartial.
  assert (HL : length (take (length (d_partial d) - count) (d_partial d)) = (length (d_partial d) - count)%nat)
    by (rewrite length_take; lia).
  split; unfold total, room; fields; rewrite ?length_app, ?HL; try lia.
  split; fields; [by apply Forall_take|done|lia].
Qed.

Lemma complete_moves count d :
  good d -> (length (d_partial d) < count <= 4)%nat -> (count - length (d_partial d) <= length (d_source d))%nat ->
  exists d1, completePartial count d = Some d1 /\ moves d d1 /\ length (d_partial d1) = count.
Proof.
  destruct d as [out p s a w]. intros [GP GS GL] HC HS. fields. eexists. split; [by apply completePartial_spec|].
  assert (HT : length (take (count - length p) s) = (count - length p)%nat) by (rewrite length_take; lia).
  split; fields; [|rewrite length_app, HT; lia].
  split; unfold room; fields; rewrite ?length_app, ?length_drop, ?HT; try lia; [|done|intros Hne; by rewrite at_app by by apply nonempty_length].
  split; fields; [apply Forall_app; split; [done|by apply Forall_take]|by apply Forall_drop|].
  rewrite length_app, HT. unfold U8_MAX_LENGTH. lia.
Qed.

(** The sequence is there in full or is completed from the source. *)
Lemma fill_moves count d :
  good d -> (count <= 4)%nat ->
  (length (d_partial d) <? count)%nat && (length (d_source d) <? count - length (d_partial d))%nat = false ->
  exists d1, (if (length (d_partial d) <? count)%nat then completePartial count d else Some d) = Some d1 /\
    moves d d1 /\ (count <= length (d_partial d1))%nat.
Proof.
  intros HG HC HS. destruct (Nat.ltb_spec (length (d_partial d)) count) as [HL|HL]; cbn [andb] in HS.
  - apply Nat.ltb_ge in HS. destruct (complete_moves count d) as (d1 & E & M1 & L1); [done|lia|done|].
    exists d1. split_and!; [done|done|lia].
  - exists d. split_and!; [done|by apply moves_refl|done].
Qed.

Lemma keepAll_within d count :
  good d -> d_partial d <> [] -> count = nonASCIISequenceLength (at_ (d_partial d) 0) -> (count <= 4)%nat ->
  isASCII (at_ (d_partial d) 0) = false -> (length (d_source d) < count - length (d_partial d))%nat ->
  exists d', keepAll d = Some d' /\ within d d'.
Proof.
  destruct d as [out p s a w]. intros [GP GS GL] Hne -> HC HA HS. fields. rewrite keepAll_spec by lia.
  apply nonempty_length in Hne. eexists. split; [reflexivity|]. split; fields; [|measure|lia|intros EE; apply (f_equal length) in EE; rewrite length_app in EE; simpl in EE; lia|].
  - split; fields; [by apply Forall_app|done|rewrite length_app; unfold U8_MAX_LENGTH; lia].
  - right. rewrite at_app, length_app by lia. split; [done|]. right. left. lia.
Qed.

(** ** The partial sequence in 16 bits *)

Section HandlePartial16.
Variables flush stop : bool.
Definition loop16 (fuel : nat) (d1 : Decoding) : option Decoding :=
  if (length (d_partial d1) =? 0)%nat then Some d1 else handlePartialSequence16 fuel flush stop d1.

Definition handles16 (fuel : nat) (d : Decoding) : Prop := exists d', handlePartialSequence16 fuel flush stop d = Some d' /\ within d d'.

(** The loop goes on from a step. *)
Lemma loop16_within fuel d d1 :
  (forall d, good d -> d_partial d <> [] -> (room d < fuel)%nat -> handles16 fuel d) ->
  spends d d1 -> (room d < S fuel)%nat -> exists d', loop16 fuel d1 = Some d' /\ within d d'.
Proof.
  intros IH HS HF. unfold loop16. destruct (Nat.eqb_spec (length (d_partial d1)) 0) as [E|E].
  - exists d1. split; [done|]. eapply spends_within; [done|]. apply within_refl; [apply HS|by apply nil_length_inv].
  - destruct (IH d1) as (d' & E' & W); [apply HS|by intros EE; rewrite EE in E|destruct HS; lia|].
    exists d'. split; [done|]. by eapply spends_within.
Qed.

Lemma error16_within fuel d d1 :
  (forall d, good d -> d_partial d <> [] -> (room d < fuel)%nat -> handles16 fuel d) ->
  moves d d1 -> waits (d_partial d1) -> d_partial d <> [] -> (room d < S fuel)%nat ->
  exists d', (if stop then Some (handleError stop d1) else loop16 fuel (handleError stop d1)) = Some d' /\ within d d'.
Proof.
  intros IH HM HW Hne HF. assert (H1 : d_partial d1 <> []).
  { intros E. destruct HM as [_ _ _ _ HM _]. rewrite E in HM. apply nonempty_length in Hne. simpl in HM. lia. }
  pose proof (loop16_within fuel d (handleError false d1) IH) as HL.
  destruct stop.
  - eexists. split; [reflexivity|]. destruct HM as [[] M2 M3 M4 M5 M6].
    split; fields; [by split|unfold total; rewrite M3; lia|done|done|done].
  - apply HL; [|done]. eapply moves_spends; [done|]. by apply error_spends; [apply HM|].
Qed.

Lemma handlePartial16_total fuel d : good d -> d_partial d <> [] -> (room d < fuel)%nat -> handles16 fuel d.
Proof.
  revert d. induction fuel as [|fuel IH]; intros d HG Hne HF; [lia|].
  assert (H0 : 0 <= at_ (d_partial d) 0 < 256) by (apply bytes_at; [apply HG|apply nonempty_length in Hne; lia]).
  unfold handles16. cbn [handlePartialSequence16].
  destruct (isASCII _) eqn:EA; [by eapply loop16_within; [|apply consume_spends|]|].
  pose proof (fun d1 HM HW => error16_within fuel d d1 IH HM HW Hne HF) as HE. unfold loop16 in HE.
  destruct (nonASCIISequenceLength _ =? 0)%nat eqn:E0; [apply HE; [by apply moves_refl|]; right; by auto|].
  pose proof (sequenceLength_range _ H0 E0) as HC.
  destruct (_ && _) eqn:ES.
  - apply andb_true_iff in ES as [ES1 ES2]. apply Nat.ltb_lt in ES1, ES2.
    destruct (negb flush); [eapply keepAll_within; done || lia|]. apply HE; [by apply moves_refl|]. right. by auto.
  - destruct (fill_moves _ d HG (proj2 HC) ES) as (d1 & E1 & M1 & L1). rewrite E1. cbn [mbind option_bind].
    pose proof (mv_first _ _ M1 Hne) as HF1.
    destruct (_ =? nonCharacter) eqn:EN; [apply HE; [done|]; right; rewrite HF1; by auto|].
    eapply loop16_within; [done| |done]. eapply moves_spends; [done|].
    apply shrink_spends; [apply M1|apply appendCharacter_length|lia].
Qed.
End HandlePartial16.

(** ** The partial sequence in 8 bits

    The loop may give up and hand over to the one in 16 bits, which starts
    with the destination of before. *)
Definition within8 (d : Decoding) (r : bool * Decoding) : Prop :=
  if fst r then good (snd r) /\ (room (snd r) <= room d)%nat /\ (length (d_source (snd r)) <= length (d_source d))%nat /\ (total (snd r) <= total d)%nat
  else within d (snd r).

Lemma spends_within8 d d1 r : spends d d1 -> within8 d1 r -> within8 d r.
Proof.
  intros HS HW. destruct r as [[|] d']; unfold within8 in *; cbn [fst snd] in *; [|by eapply spends_within].
  destruct HS, HW as (? & ? & ? & ?). split_and!; [done|lia|lia|lia].
Qed.

Lemma moves_within8 d d1 : moves d d1 -> within8 d (true, d1).
Proof. intros [M1 M2 M3 M4 M5 M6]. unfold within8, total. cbn [fst snd]. rewrite M2, M3. split_and!; [done|lia|lia|lia]. Qed.

Section HandlePartial8.
Variable flush : bool.
Definition loop8 (fuel : nat) (d1 : Decoding) : option (bool * Decoding) :=
  if (length (d_partial d1) =? 0)%nat then Some (false, d1) else handlePartialSequence8 fuel flush d1.

Definition handles8 (fuel : nat) (d : Decoding) : Prop := exists r, handlePartialSequence8 fuel flush d = Some r /\ within8 d r.

Lemma loop8_within fuel d d1 :
  (forall d, good d -> d_partial d <> [] -> (room d < fuel)%nat -> handles8 fuel d) ->
  spends d d1 -> (room d < S fuel)%nat -> exists r, loop8 fuel d1 = Some r /\ within8 d r.
Proof.
  intros IH HS HF. unfold loop8. destruct (Nat.eqb_spec (length (d_partial d1)) 0) as [E|E].
  - exists (false, d1). split; [done|]. eapply spends_within8; [done|]. apply within_refl; [apply HS|by apply nil_length_inv].
  - destruct (IH d1) as (r & E' & W); [apply HS|by intros EE; rewrite EE in E|destruct HS; lia|].
    exists r. split; [done|]. by eapply spends_within8.
Qed.

Lemma handlePartial8_total fuel d : good d -> d_partial d <> [] -> (room d < fuel)%nat -> handles8 fuel d.
Proof.
  revert d. induction fuel as [|fuel IH]; intros d HG Hne HF; [lia|].
  assert (H0 : 0 <= at_ (d_partial d) 0 < 256) by (apply bytes_at; [apply HG|apply nonempty_length in Hne; lia]).
  assert (Hup : within8 d (true, d)) by by apply moves_within8, moves_refl.
  unfold handles8. cbn [handlePartialSequence8].
  destruct (isASCII _) eqn:EA; [by eapply loop8_within; [|apply consume_spends|]|].
  destruct (nonASCIISequenceLength _ =? 0)%nat eqn:E0; [by eexists|].
  pose proof (sequenceLength_range _ H0 E0) as HC.
  destruct (_ && _) eqn:ES.
  - destruct flush; cbn [negb]; [by eexists|].
    apply andb_true_iff in ES as [_ ES]. apply Nat.ltb_lt in ES.
    destruct (keepAll_within d _ HG Hne eq_refl (proj2 HC) EA ES) as (d' & E & W). rewrite E. by eexists.
  - destruct (fill_moves _ d HG (proj2 HC) ES) as (d1 & E1 & M1 & L1). rewrite E1. cbn [mbind option_bind].
    destruct (_ || _); [eexists; split; [done|by apply moves_within8]|].
    eapply loop8_within; [done| |done]. eapply moves_spends; [done|].
    apply shrink_spends; [apply M1|simpl; lia|lia].
Qed.
End HandlePartial8.

(** ** The loops over the source *)

(** They start without a partial sequence; what they leave of one is the end
    of the source. *)
Record scanned (d d' : Decoding) : Prop := {
  sc_good : good d';
  sc_total : (total d' <= total d)%nat;
  sc_rest : d_partial d' <> [] -> d_source d' = [];
  sc_waits : waits (d_partial d')
}.

Lemma scanned_step d d1 d' : (total d1 <= total d)%nat -> scanned d1 d' -> scanned d d'.
Proof. intros HT [S1 S2 S3 S4]. split; [done|lia|done|done]. Qed.

Lemma scanned_stop d d' : good d' -> d_partial d' = [] -> (total d' <= total d)%nat -> scanned d d'.
Proof. intros HG HP HT. split; [done|done|done|by left]. Qed.

(** What the loops need of a state. *)
Definition ready (d : Decoding) : Prop := bytes (d_source d) /\ d_partial d = [].

Lemma ready_good d : ready d -> good d.
Proof. intros [HB HP]. split; rewrite ?HP; [constructor|done|simpl; lia]. Qed.

Lemma copy_ready b rest d :
  ready d -> d_source d = b :: rest -> isASCII b = true ->
  ready (copyASCIISource d) /\ (total (copyASCIISource d) <= total d)%nat /\
  (length (d_source (copyASCIISource d)) < length (d_source d))%nat.
Proof.
  destruct d as [out p s a w]. intros [HB HP] ES Hb. fields. subst p s. unfold copyASCIISource. fields.
  destruct (copyASCII a (b :: rest)) as [[o a'] s'] eqn:EC.
  destruct (copyASCII_spec a b rest o a' s' HB Hb EC) as (EQ & _ & Ho). apply nonempty_length in Ho.
  assert (HL : length (b :: rest) = (length o + length s')%nat) by (rewrite EQ, length_app; lia).
  unfold ready, total, room. fields. rewrite length_app. split_and!; try lia; [|done].
  unfold bytes in HB. rewrite EQ in HB. by apply Forall_app in HB as [_ HB].
Qed.

Lemma advance_ready units n d :
  ready d -> (length units <= n)%nat -> (1 <= n <= length (d_source d))%nat ->
  ready (advanceSource units n d) /\ (total (advanceSource units n d) <= total d)%nat /\
  (length (d_source (advanceSource units n d)) < length (d_source d))%nat.
Proof.
  intros [HB HP] HU HN. unfold ready, total, room. fields. rewrite length_app, length_drop.
  split_and!; try lia; [|done]. by apply Forall_drop.
Qed.

Lemma keepPartial_scanned d :
  ready d -> isASCII (at_ (d_source d) 0) = false -> (length (d_source d) < nonASCIISequenceLength (at_ (d_source d) 0) <= 4)%nat -> exists d', keepPartial d = Some d' /\ scanned d d'.
Proof.
  intros [HB HP] HA HL. unfold keepPartial, appendPartial. cbn [length Nat.add].
  rewrite (proj2 (Nat.leb_le _ _)) by (unfold U8_MAX_LENGTH; lia). eexists. split; [reflexivity|].
  split; [split; fields; [done|constructor|simpl; unfold U8_MAX_LENGTH; lia]|unfold total, room; fields; simpl; lia|done|].
  right. split; [done|]. right. left. apply HL.
Qed.

Lemma sawError_scanned d : ready d -> scanned d (sawErrorIn d).
Proof. intros HR. pose proof (ready_good d HR) as []. apply scanned_stop; [by split|apply HR|done]. Qed.

Lemma decodeSource16_total stop fuel d : ready d -> (length (d_source d) < fuel)%nat ->
  exists d', decodeSource16 fuel stop d = Some d' /\ scanned d d'.
Proof.
  revert d. induction fuel as [|fuel IH]; intros d HR HF; [lia|].
  assert (Hgo : forall d1, ready d1 /\ (total d1 <= total d)%nat /\ (length (d_source d1) < length (d_source d))%nat ->
    exists d', decodeSource16 fuel stop d1 = Some d' /\ scanned d d').
  { intros d1 (R1 & T1 & L1). destruct (IH d1 R1) as (d' & E & S1); [lia|]. exists d'. split; [done|]. by eapply scanned_step. }
  cbn [decodeSource16]. destruct (d_source d) as [|b rest] eqn:ES.
  { exists d. split; [done|]. apply scanned_stop; [by apply ready_good|apply HR|done]. }
  destruct (isASCII b) eqn:Eb; [rewrite <- ES in Hgo; apply Hgo; by eapply copy_ready|].
  assert (Hb : 0 <= b < 256) by (destruct HR as [HB _]; rewrite ES in HB; by inversion HB).
  assert (HA : at_ (d_source d) 0 = b) by by rewrite ES.
  rewrite <- ES in *. destruct (negb _ && _) eqn:EK.
  { apply andb_true_iff in EK as [EK1 EK2]. apply negb_true_iff in EK1. apply Nat.ltb_lt in EK2.
    pose proof (sequenceLength_range b Hb EK1). apply keepPartial_scanned; [done|by rewrite HA|rewrite HA; lia]. }
  destruct (_ =? nonCharacter) eqn:EC.
  - destruct stop; [eexists; split; [done|by apply sawError_scanned]|].
    apply Hgo, (advance_ready _ 1 (sawErrorIn d)); [done|done|]. fields. rewrite ES. simpl. lia.
  - destruct (nonASCIISequenceLength b =? 0)%nat eqn:E0; [done|]. pose proof (sequenceLength_range b Hb E0).
    cbn [negb andb] in EK. apply Nat.ltb_ge in EK.
    apply Hgo, advance_ready; [done| |lia]. pose proof (appendCharacter_length (decodeNonASCIISequence (d_source d) (nonASCIISequenceLength b))). lia.
Qed.

Lemma decodeSource8_total stop fuel d : ready d -> (length (d_source d) < fuel)%nat ->
  exists up d', decodeSource8 fuel stop d = Some (up, d') /\ scanned d d'.
Proof.
  revert d. induction fuel as [|fuel IH]; intros d HR HF; [lia|].
  assert (Hgo : forall d1, ready d1 /\ (total d1 <= total d)%nat /\ (length (d_source d1) < length (d_source d))%nat ->
    exists up d', decodeSource8 fuel stop d1 = Some (up, d') /\ scanned d d').
  { intros d1 (R1 & T1 & L1). destruct (IH d1 R1) as (u & d' & E & S1); [lia|]. exists u, d'. split; [done|]. by eapply scanned_step. }
  assert (Hhere : scanned d d) by (apply scanned_stop; [by apply ready_good|apply HR|done]).
  cbn [decodeSource8]. destruct (d_source d) as [|b rest] eqn:ES; [by do 2 eexists|].
  destruct (isASCII b) eqn:Eb; [rewrite <- ES in Hgo; apply Hgo; by eapply copy_ready|].
  assert (Hb : 0 <= b < 256) by (destruct HR as [HB _]; rewrite ES in HB; by inversion HB).
  assert (HA : at_ (d_source d) 0 = b) by by rewrite ES.
  rewrite <- ES in *. destruct (negb _ && _) eqn:EK.
  { apply andb_true_iff in EK as [EK1 EK2]. apply negb_true_iff in EK1. apply Nat.ltb_lt in EK2.
    pose proof (sequenceLength_range b Hb EK1).
    destruct (keepPartial_scanned d HR) as (d' & E & S1); [by rewrite HA|rewrite HA; lia|].
    rewrite E. by do 2 eexists. }
  destruct (_ =? nonCharacter) eqn:EC; [destruct stop; do 2 eexists; (split; [done|by apply sawError_scanned])|].
  destruct (_ >? 255); [by do 2 eexists|].
  destruct (nonASCIISequenceLength b =? 0)%nat eqn:E0; [done|]. pose proof (sequenceLength_range b Hb E0).
  cbn [negb andb] in EK. apply Nat.ltb_ge in EK. apply Hgo, advance_ready; [done|simpl; lia|lia].
Qed.

(** ** The outer loops

    With [flush] a partial sequence that is left at the end of the source is
    taken up once more, and then there is no source: three rounds are more
    than enough. *)

Record ends (d d' : Decoding) : Prop := {
  en_good : good d';
  en_out : (length (d_out d') <= total d)%nat;
  en_waits : waits (d_partial d')
}.

Lemma ends_step d d1 d' : (total d1 <= total d)%nat -> ends d1 d' -> ends d d'.
Proof. intros HT [E1 E2 E3]. split; [done|lia|done]. Qed.

Lemma ends_refl d : good d -> waits (d_partial d) -> ends d d.
Proof. intros HG HW. split; [done|measure|done]. Qed.

Lemma within_ready d d' : within d d' -> d_partial d' = [] -> ready d'.
Proof. intros [[W1 W2 W3] _ _ _ _] E. by split. Qed.

Lemma good_ready d : good d -> d_partial d = [] -> ready d.
Proof. intros [] E. by split. Qed.

Section Rounds16.
Variables flush stop : bool.

Definition rest16 (fuel : nat) (d : Decoding) : option Decoding :=
  d ← decodeSource16 (S (length (d_source d))) stop d;
  if flush && negb (length (d_partial d) =? 0)%nat then freeDecode16 fuel flush stop d else Some d.

(** The first part of a round, whatever the second part does. *)
Lemma round16 fuel d :
  good d ->
  (forall d1, ready d1 -> (total d1 <= total d)%nat -> (length (d_source d1) <= length (d_source d))%nat ->
    exists d', rest16 fuel d1 = Some d' /\ ends d1 d') ->
  exists d', freeDecode16 (S fuel) flush stop d = Some d' /\ ends d d'.
Proof.
  intros HG Hrest. cbn [freeDecode16]. destruct (Nat.eqb_spec (length (d_partial d)) 0) as [E|E].
  - apply (Hrest d); [|done|done]. apply good_ready; [done|]. by apply nil_length_inv.
  - destruct (handlePartial16_total flush stop (S (room d)) d) as (d1 & E1 & W1); [done|by intros EE; rewrite EE in E|lia|].
    unfold room in E1. rewrite E1. cbn [mbind option_bind].
    destruct (Nat.eqb_spec (length (d_partial d1)) 0) as [Ep%nil_length_inv|Ep]; cbn [negb].
    + destruct (Hrest d1) as (d' & E' & N'); [by eapply within_ready|by apply W1|by apply W1|].
      exists d'. split; [done|]. eapply ends_step; [|done]. by apply W1.
    + exists d1. split; [done|]. split; apply W1.
Qed.

Lemma rest16_flat fuel d : ready d -> d_source d = [] -> exists d', rest16 fuel d = Some d' /\ ends d d'.
Proof.
  intros HR ES. pose proof (ready_good d HR) as HG. destruct HR as [_ HP]. unfold rest16. cbn [decodeSource16]. rewrite ES. cbn [mbind option_bind].
  rewrite HP. cbn [length Nat.eqb negb]. rewrite andb_false_r. exists d. split; [done|apply ends_refl; [done|by left]].
Qed.

Lemma decode16_total fuel d : good d -> exists d', freeDecode16 (S (S fuel)) flush stop d = Some d' /\ ends d d'.
Proof.
  intros HG. apply round16; [done|]. intros d1 HR _ _. unfold rest16.
  destruct (decodeSource16_total stop (S (length (d_source d1))) d1 HR) as (d2 & E2 & S2); [lia|].
  rewrite E2. cbn [mbind option_bind]. destruct (flush && _) eqn:EF.
  - assert (ES : d_source d2 = []).
    { apply S2. intros EE. rewrite EE in EF. cbn [length Nat.eqb negb] in EF. by rewrite andb_false_r in EF. }
    destruct (round16 fuel d2 (sc_good _ _ S2)) as (d' & E' & N').
    + intros d3 R3 _ L3. apply rest16_flat; [done|]. rewrite ES in L3. simpl in L3. apply nil_length_inv. lia.
    + exists d'. split; [done|]. eapply ends_step; [apply S2|done].
  - exists d2. split; [done|]. eapply ends_step; [apply S2|]. apply ends_refl; apply S2.
Qed.
End Rounds16.

(** In 8 bits the loop may also hand over to 16 bits, with no more to do than
    there was. *)
Definition ends8 (d : Decoding) (r : bool * Decoding) : Prop :=
  if fst r then good (snd r) /\ (total (snd r) <= total d)%nat else ends d (snd r).

Lemma ends8_step d d1 r : (total d1 <= total d)%nat -> ends8 d1 r -> ends8 d r.
Proof.
  intros HT HE. destruct r as [[|] d']; unfold ends8 in *; cbn [fst snd] in *; [|by eapply ends_step].
  destruct HE. split; [done|lia].
Qed.

Section Rounds8.
Variables flush stop : bool.

Definition rest8 (fuel : nat) (d : Decoding) : option (bool * Decoding) :=
  '(up, d) ← decodeSource8 (S (length (d_source d))) stop d;
  if (up : bool) then Some (true, d)
  else if flush && negb (length (d_partial d) =? 0)%nat then freeDecode8 fuel flush stop d
  else Some (false, d).

Lemma round8 fuel d :
  good d ->
  (forall d1, ready d1 -> (total d1 <= total d)%nat -> (length (d_source d1) <= length (d_source d))%nat ->
    exists r, rest8 fuel d1 = Some r /\ ends8 d1 r) ->
  exists r, freeDecode8 (S fuel) flush stop d = Some r /\ ends8 d r.
Proof.
  intros HG Hrest. cbn [freeDecode8]. destruct (Nat.eqb_spec (length (d_partial d)) 0) as [E|E].
  - apply (Hrest d); [|done|done]. apply good_ready; [done|]. by apply nil_length_inv.
  - destruct (handlePartial8_total flush (S (room d)) d) as ([up d1] & E1 & W1); [done|by intros EE; rewrite EE in E|lia|].
    unfold room in E1. rewrite E1. cbn [mbind option_bind]. destruct up; unfold within8 in W1; cbn [fst snd] in W1.
    { destruct W1 as ([] & W1 & _ & _). eexists. split; [reflexivity|]. unfold ends8. cbn [fst snd].
      split; [by split|unfold total, room in *; fields; lia]. }
    destruct (Nat.eqb_spec (length (d_partial d1)) 0) as [Ep%nil_length_inv|Ep]; cbn [negb].
    + destruct (Hrest d1) as (d' & E' & N'); [by eapply within_ready|by apply W1|by apply W1|].
      exists d'. split; [done|]. eapply ends8_step; [|done]. by apply W1.
    + exists (false, d1). split; [done|]. unfold ends8. cbn [fst snd]. split; apply W1.
Qed.

Lemma rest8_flat fuel d : ready d -> d_source d = [] -> exists r, rest8 fuel d = Some r /\ ends8 d r.
Proof.
  intros HR ES. pose proof (ready_good d HR) as HG. destruct HR as [_ HP]. unfold rest8. cbn [decodeSource8]. rewrite ES. cbn [mbind option_bind].
  rewrite HP. cbn [length Nat.eqb negb]. rewrite andb_false_r. exists (false, d). split; [done|apply ends_refl; [done|by left]].
Qed.

Lemma decode8_total fuel d : good d -> exists r, freeDecode8 (S (S fuel)) flush stop d = Some r /\ ends8 d r.
Proof.
  intros HG. apply round8; [done|]. intros d1 HR _ _. unfold rest8.
  destruct (decodeSource8_total stop (S (length (d_source d1))) d1 HR) as (up & d2 & E2 & S2); [lia|].
  rewrite E2. cbn [mbind option_bind]. destruct up; [eexists; split; [reflexivity|split; apply S2]|].
  destruct (flush && _) eqn:EF.
  - assert (ES : d_source d2 = []).
    { apply S2. intros EE. rewrite EE in EF. cbn [length Nat.eqb negb] in EF. by rewrite andb_false_r in EF. }
    destruct (round8 fuel d2 (sc_good _ _ S2)) as (d' & E' & N').
    + intros d3 R3 _ L3. apply rest8_flat; [done|]. rewrite ES in L3. simpl in L3. apply nil_length_inv. lia.
    + exists d'. split; [done|]. eapply ends8_step; [apply S2|done].
  - exists (false, d2). split; [done|]. eapply (ends_step _ d2); [apply S2|]. apply ends_refl; apply S2.
Qed.
End Rounds8.

(** ** The buffer of the 16 bit text

    [decode] makes it when it leaves the 8 bit loop, with the size of the
    partial sequence at that moment and of the data; the characters decoded so
    far are copied into it.  They must not be more than the bytes of the data
    that are used up, which a partial sequence that [waits] ensures: a
    character of it takes a byte of the data. *)
Definition fits (n : nat) (d : Decoding) : Prop := (length (d_out d) + length (d_source d) <= n)%nat.

Lemma handlePartial8_fits fuel flush n d d' :
  good d -> d_partial d <> [] -> waits (d_partial d) -> fits n d ->
  handlePartialSequence8 (S fuel) flush d = Some (false, d') -> d_partial d' = [] -> fits n d'.
Proof.
  intros HG Hne [?|[EA HW]] HN; [done|]. cbn [handlePartialSequence8]. rewrite EA.
  assert (H0 : 0 <= at_ (d_partial d) 0 < 256) by (apply bytes_at; [apply HG|apply nonempty_length in Hne; lia]).
  destruct (nonASCIISequenceLength _ =? 0)%nat eqn:E0; [by intros [=]|]. pose proof (sequenceLength_range _ H0 E0) as HC.
  destruct (_ && _) eqn:ES.
  { destruct (negb flush); [|by intros [=]]. unfold keepAll, appendPartial. case_match; [|by intros [=]]. cbn [mbind option_bind].
    intros [= <-]. fields. intros E%app_eq_nil. by destruct E. }
  destruct (length (d_partial d) <? _)%nat eqn:EL; cbn [mbind option_bind].
  - apply Nat.ltb_lt in EL. cbn [andb] in ES. apply Nat.ltb_ge in ES.
    destruct (complete_moves _ d HG (conj EL (proj2 HC)) ES) as (d1 & E1 & M1 & L1). rewrite E1. cbn [mbind option_bind].
    destruct (_ || _); [by intros [=]|]. unfold shrinkPartial. rewrite L1, Nat.sub_diag. cbn [take emit d_partial length Nat.eqb].
    intros [= <-] _. unfold fits in *. fields. destruct M1 as [_ M2 M3 _ _ _]. unfold room in M2. rewrite length_app, M3. simpl. lia.
  - apply Nat.ltb_ge in EL. destruct HW as [?|[HW|HW]]; [done|lia|]. rewrite HW. by intros [=].
Qed.

Section Fits8.
Variables flush stop : bool.

(** The round after the data has ended. *)
Lemma decode8_flat_fits fuel n d d' :
  good d -> d_source d = [] -> fits n d -> freeDecode8 (S fuel) flush stop d = Some (true, d') -> fits n d'.
Proof.
  intros HG HS HN. cbn [freeDecode8].
  assert (Hrest : forall d1, d_source d1 = [] -> d_partial d1 = [] -> rest8 flush stop fuel d1 <> Some (true, d')).
  { intros d1 S1 P1. unfold rest8. cbn [decodeSource8]. rewrite S1. cbn [mbind option_bind]. rewrite P1.
    cbn [length Nat.eqb negb]. rewrite andb_false_r. by intros [=]. }
  destruct (Nat.eqb_spec (length (d_partial d)) 0) as [E%nil_length_inv|E]; [intros EE; by destruct (Hrest d)|].
  destruct (handlePartial8_total flush (S (room d)) d) as ([up d1] & E1 & W1); [done|by intros EE; rewrite EE in E|lia|].
  unfold room in E1. rewrite E1. cbn [mbind option_bind]. destruct up; unfold within8 in W1; cbn [fst snd] in W1.
  { destruct W1 as (_ & _ & W1 & _). intros [= <-]. unfold fits in *. fields. lia. }
  destruct (Nat.eqb_spec (length (d_partial d1)) 0) as [Ep%nil_length_inv|Ep]; cbn [negb]; [|by intros [=]].
  intros EE. destruct (Hrest d1); [|done|done]. pose proof (wi_source _ _ W1) as HL. rewrite HS in HL. simpl in HL.
  apply nil_length_inv. lia.
Qed.

Lemma rest8_fits fuel n d d' : ready d -> fits n d -> rest8 flush stop (S fuel) d = Some (true, d') -> fits n d'.
Proof.
  intros HR HN. unfold rest8.
  destruct (decodeSource8_total stop (S (length (d_source d))) d HR) as (up & d2 & E2 & S2); [lia|].
  assert (H2 : fits n d2).
  { destruct S2 as [_ S2 _ _], HR as [_ HP]. unfold fits, total, room in *. rewrite HP in S2. simpl in S2. lia. }
  rewrite E2. cbn [mbind option_bind]. destruct up; [by intros [= <-]|]. destruct (flush && _) eqn:EF; [|by intros [=]].
  apply decode8_flat_fits; [apply S2| |done]. apply S2. intros EE. rewrite EE in EF. cbn [length Nat.eqb negb] in EF.
  by rewrite andb_false_r in EF.
Qed.

Lemma decode8_fits fuel n d d' :
  good d -> waits (d_partial d) -> fits n d -> freeDecode8 (S (S fuel)) flush stop d = Some (true, d') -> fits n d'.
Proof.
  intros HG HW HN.
  remember (S fuel) as fuel1 eqn:EF. cbn [freeDecode8]. destruct (Nat.eqb_spec (length (d_partial d)) 0) as [E%nil_length_inv|E].
  { subst fuel1. apply rest8_fits; [by apply good_ready|done]. }
  assert (Hne : d_partial d <> []) by (intros EE; by rewrite EE in E).
  destruct (handlePartial8_total flush (S (room d)) d) as ([up d1] & E1 & W1); [done|done|lia|].
  pose proof (fun Hup Hp => handlePartial8_fits (room d) flush n d d1 HG Hne HW HN (eq_trans E1 Hup) Hp) as HF.
  unfold room in E1. rewrite E1. cbn [mbind option_bind]. destruct up; unfold within8 in W1; cbn [fst snd] in W1.
  { destruct W1 as (_ & _ & W1 & _). intros [= <-]. unfold fits in *. fields. lia. }
  destruct (Nat.eqb_spec (length (d_partial d1)) 0) as [Ep%nil_length_inv|Ep]; cbn [negb]; [|by intros [=]].
  subst fuel1. apply rest8_fits; [by eapply within_ready|by apply HF].
Qed.
End Fits8.

(** What a call of [decode] finds and leaves. *)
Record codecOk (codec : TextCodecUTF8) : Prop := {
  co_bytes : bytes (m_partialSequence codec);
  co_size : (length (m_partialSequence codec) <= U8_MAX_LENGTH)%nat;
  co_waits : waits (m_partialSequence codec)
}.

Lemma newTextCodecUTF8_ok : codecOk newTextCodecUTF8.
Proof. split; [constructor|simpl; lia|by left]. Qed.

(** ** The buffers are large enough *)

Lemma withinBuffer_small capacity d : Z.of_nat (length (d_out d)) <= capacity -> withinBuffer capacity d = Some d.
Proof. intros HL. unfold withinBuffer. by rewrite (proj2 (Z.leb_le _ _)). Qed.

Section Buffers.
Variables (capacity : Z) (flush stop : bool).

Definition roomy (d : Decoding) : Prop := good d /\ Z.of_nat (total d) <= capacity.

Lemma roomy_ready d : roomy d -> d_partial d = [] -> ready d.
Proof. intros [HG _]. by apply good_ready. Qed.

Lemma roomy_less d d' : roomy d -> good d' -> (total d' <= total d)%nat -> roomy d'.
Proof. intros [_ HC] HG HT. split; [done|lia]. Qed.

Lemma roomy_out d d' : roomy d -> (length (d_out d') <= total d)%nat -> withinBuffer capacity d' = Some d'.
Proof. intros [_ HC] HT. apply withinBuffer_small. lia. Qed.

Lemma total_out d : (length (d_out d) <= total d)%nat.
Proof. unfold total. lia. Qed.

(** The first part of a round: with a roomy buffer nothing of the partial
    sequence is written behind it. *)
Lemma handled8 d r : roomy d -> d_partial d <> [] -> handlePartialSequence8 (S (length (d_partial d) + length (d_source d))) flush d = Some r ->
  withinBuffer capacity (snd r) = Some (snd r) /\ within8 d r.
Proof.
  intros HR Hne E. destruct (handlePartial8_total flush (S (room d)) d) as (r' & E' & W); [apply HR|done|lia|].
  unfold room in E'. rewrite E in E'. injection E' as <-. split; [|done]. apply (roomy_out d); [done|].
  destruct r as [[|] d1]; unfold within8 in W; cbn [fst snd] in *; [|by apply W]. pose proof (total_out d1). lia.
Qed.

Lemma scanned8 d r : roomy d -> d_partial d = [] -> decodeSource8 (S (length (d_source d))) stop d = Some r ->
  withinBuffer capacity (snd r) = Some (snd r) /\ roomy (snd r).
Proof.
  intros HR HP E. destruct (decodeSource8_total stop (S (length (d_source d))) d) as (up & d' & E' & W); [by apply roomy_ready|lia|].
  rewrite E in E'. injection E' as ->. cbn [snd]. assert (HR' : roomy d') by (eapply roomy_less; [done|apply W..]).
  split; [|done]. by eapply roomy_out; [|apply total_out].
Qed.

Lemma decode8_bounded fuel d r : roomy d -> freeDecode8 fuel flush stop d = Some r -> decode8 capacity fuel flush stop d = Some r.
Proof.
  revert d r. induction fuel as [|fuel IH]; intros d r HR; [done|]. cbn [freeDecode8 decode8].
  assert (Hrest : forall d1, roomy d1 -> d_partial d1 = [] -> rest8 flush stop fuel d1 = Some r ->
    ('(up, d2) ← decodeSource8 (S (length (d_source d1))) stop d1;
     d3 ← withinBuffer capacity d2;
     if (up : bool) then Some (true, d3)
     else if flush && negb (length (d_partial d3) =? 0)%nat then decode8 capacity fuel flush stop d3
     else Some (false, d3)) = Some r).
  { intros d1 R1 P1. unfold rest8. destruct (decodeSource8 _ _ d1) as [[up d2]|] eqn:E2; [|done]. cbn [mbind option_bind].
    destruct (scanned8 _ _ R1 P1 E2) as [W2 R2]. cbn [snd] in W2, R2. rewrite W2. cbn [mbind option_bind].
    destruct up; [done|]. destruct (_ && _); [by apply IH|done]. }
  destruct (Nat.eqb_spec (length (d_partial d)) 0) as [E%nil_length_inv|E]; [by apply Hrest|].
  destruct (handlePartialSequence8 _ _ d) as [[up d1]|] eqn:E1; [|done]. cbn [mbind option_bind].
  destruct (handled8 _ _ HR ltac:(intros EE; by rewrite EE in E) E1) as [W1 W2]. cbn [snd] in W1. rewrite W1. cbn [mbind option_bind].
  destruct up; [done|]. destruct (Nat.eqb_spec (length (d_partial d1)) 0) as [Ep%nil_length_inv|Ep]; [|done].
  apply Hrest; [|done]. unfold within8 in W2. cbn [fst snd] in W2. eapply roomy_less; [done|apply W2|by apply W2].
Qed.

Lemma handled16 d d' : roomy d -> d_partial d <> [] -> handlePartialSequence16 (S (length (d_partial d) + length (d_source d))) flush stop d = Some d' ->
  withinBuffer capacity d' = Some d' /\ within d d'.
Proof.
  intros HR Hne E. destruct (handlePartial16_total flush stop (S (room d)) d) as (r' & E' & W); [apply HR|done|lia|].
  unfold room in E'. rewrite E in E'. injection E' as <-. split; [|done]. eapply roomy_out; [done|apply W].
Qed.

Lemma scanned16 d d' : roomy d -> d_partial d = [] -> decodeSource16 (S (length (d_source d))) stop d = Some d' ->
  withinBuffer capacity d' = Some d' /\ roomy d'.
Proof.
  intros HR HP E. destruct (decodeSource16_total stop (S (length (d_source d))) d) as (r' & E' & W); [by apply roomy_ready|lia|].
  rewrite E in E'. injection E' as <-. assert (HR' : roomy d') by (eapply roomy_less; [done|apply W..]).
  split; [|done]. by eapply roomy_out; [|apply total_out].
Qed.

Lemma decode16_bounded fuel d d' : roomy d -> freeDecode16 fuel flush stop d = Some d' -> decode16 capacity fuel flush stop d = Some d'.
Proof.
  revert d d'. induction fuel as [|fuel IH]; intros d d' HR; [done|]. cbn [freeDecode16 decode16].
  assert (Hrest : forall d1, roomy d1 -> d_partial d1 = [] -> rest16 flush stop fuel d1 = Some d' ->
    (d2 ← decodeSource16 (S (length (d_source d1))) stop d1;
     d3 ← withinBuffer capacity d2;
     if flush && negb (length (d_partial d3) =? 0)%nat then decode16 capacity fuel flush stop d3 else Some d3) = Some d').
  { intros d1 R1 P1. unfold rest16. destruct (decodeSource16 _ _ d1) as [d2|] eqn:E2; [|done]. cbn [mbind option_bind].
    destruct (scanned16 _ _ R1 P1 E2) as [W2 R2]. rewrite W2. cbn [mbind option_bind]. destruct (_ && _); [by apply IH|done]. }
  destruct (Nat.eqb_spec (length (d_partial d)) 0) as [E%nil_length_inv|E]; [by apply Hrest|].
  destruct (handlePartialSequence16 _ _ _ d) as [d1|] eqn:E1; [|done]. cbn [mbind option_bind].
  destruct (handled16 _ _ HR ltac:(intros EE; by rewrite EE in E) E1) as [W1 W2]. rewrite W1. cbn [mbind option_bind].
  destruct (Nat.eqb_spec (length (d_partial d1)) 0) as [Ep%nil_length_inv|Ep]; [|done].
  apply Hrest; [|done]. eapply roomy_less; [done|apply W2|by apply W2].
Qed.
End Buffers.

(** Data whose length, with a partial sequence, is [unsigned]. *)
Definition dataFits (bs : list Z) : Prop := Z.of_nat (length bs) + Z.of_nat U8_MAX_LENGTH < 2 ^ 32.

Lemma bufferLength_exact p bs : (length p <= U8_MAX_LENGTH)%nat -> dataFits bs -> bufferLength p (length bs) = Z.of_nat (length p + length bs).
Proof. unfold dataFits, bufferLength, uint32. intros HP HB. apply Z.mod_small. lia. Qed.

(** [decode] does what its loops do with buffers that are never too small, and
    that is something. *)
Lemma decode_free codec address bs flush stop saw : codecOk codec -> bytes bs -> dataFits bs ->
  exists text is8Bit codec' saw', freeDecode codec address bs flush stop saw = Some (text, is8Bit, codec', saw') /\
    decode codec address bs flush stop saw = Some (text, is8Bit, codec', saw') /\ codecOk codec' /\
    (length text <= length (m_partialSequence codec) + length bs)%nat.
Proof.
  intros [HP HL HW] HB HD. unfold decode, freeDecode. set (d0 := mkDecoding _ _ _ _ _). assert (G0 : good d0) by by split.
  destruct (decode8_total flush stop 1 d0 G0) as ([up d] & E & N).
  pose proof (decode8_fits flush stop 1 (length bs) d0 d G0 HW) as HF.
  rewrite bufferLength_exact by done.
  rewrite (decode8_bounded _ flush stop 3 d0 (up, d)); [|split; [done|unfold total, room; cbn; lia]|done].
  rewrite E. cbn [mbind option_bind]. destruct up; unfold ends8 in N; cbn [fst snd] in N.
  - destruct N as [G1 T1]. destruct (decode16_total flush stop 1 d G1) as (d' & E' & [[] O' W']). rewrite E'. cbn [mbind option_bind].
    specialize (HF ltac:(unfold fits; simpl; lia) E). unfold fits in HF.
    rewrite bufferLength_exact by (done || apply G1). rewrite withinBuffer_small by lia. cbn [mbind option_bind].
    rewrite (decode16_bounded _ flush stop 3 d d'); [|split; [done|unfold total, room; lia]|done]. cbn [mbind option_bind].
    do 4 eexists. split_and!; [reflexivity|reflexivity|by split|]. unfold total, room in *. simpl in T1. lia.
  - destruct N as [[] O' W']. do 4 eexists. split_and!; [reflexivity|reflexivity|by split|].
    unfold total, room in O'. simpl in O'. lia.
Qed.

(** C18: the codec is total and stays within its buffers.  Between calls of
    [decode] the partial sequence has at most four bytes and starts with no
    character that could be read.  From there, for any bytes at any alignment
    (fewer than 2^32 - 4 of them) and any flags, both loops of [decode] end, no
    copy runs past the four bytes of the partial sequence, nothing is written
    behind the buffer of the 8 bit text or behind the one of the 16 bit text,
    which is made when the first loop is left, and the text has at most one
    character per byte of the partial sequence and the data. *)
Theorem decode_total (codec : TextCodecUTF8) (address : Z) (bs : list Z) (flush stopOnError sawError : bool) :
  codecOk codec -> bytes bs -> dataFits bs ->
  exists text is8Bit codec' sawError',
    decode codec address bs flush stopOnError sawError = Some (text, is8Bit, codec', sawError') /\ codecOk codec' /\
    (length text <= length (m_partialSequence codec) + length bs)%nat.
Proof.
  intros HC HB HD. destruct (decode_free codec address bs flush stopOnError sawError HC HB HD) as (text & i & c & s & _ & E & O & L).
  by exists text, i, c, s.
Qed.

Lemma decode_total_witness :
  exists text is8Bit codec' sawError',
    decode (mkCodec [0xF0; 0x9F]) 0 [0xC3; 0xA9; 0x41] true false false = Some (text, is8Bit, codec', sawError') /\ codecOk codec'.
Proof.
  destruct (decode_total (mkCodec [0xF0; 0x9F]) 0 [0xC3; 0xA9; 0x41] true false false) as (t & i & c & s & E & O & _).
  - split; [repeat constructor; lia|vm_compute; lia|]. right. split; [reflexivity|]. right. left. vm_compute. lia.
  - repeat constructor; lia.
  - vm_compute. reflexivity.
  - exists t, i, c, s. split; [exact E|exact O].
Defined.

(** Data of 4 gigabytes does not fit: the length of the buffer is [unsigned],
    and the buffer of 2^32 bytes of text has no characters at all. *)
Lemma decodeSource8_out fuel stop d up d' : decodeSource8 fuel stop d = Some (up, d') -> (length (d_out d) <= length (d_out d'))%nat.
Proof.
  revert d. induction fuel as [|fuel IH]; intros d; [done|]. cbn [decodeSource8]. destruct (d_source d) as [|b rest]; [by intros [= _ <-]|].
  destruct (isASCII b).
  { intros E%IH. unfold copyASCIISource in E. destruct (copyASCII _ _) as [[o a] s]. cbn [d_out] in E. rewrite length_app in E. lia. }
  destruct (_ && _).
  { unfold keepPartial. destruct (appendPartial _ _); [|done]. by intros [= _ <-]. }
  destruct (_ =? nonCharacter); [by destruct stop; intros [= _ <-]|]. destruct (_ >? 255); [by intros [= _ <-]|].
  intros E%IH. cbn [advanceSource d_out] in E. rewrite length_app in E. lia.
Qed.

Lemma decodeSource8_ASCII fuel stop out p b bs address saw up d' : bytes (b :: bs) -> isASCII b = true ->
  decodeSource8 (S fuel) stop (mkDecoding out p (b :: bs) address saw) = Some (up, d') -> (1 <= length (d_out d'))%nat.
Proof.
  intros HB HA. cbn [decodeSource8 d_source]. rewrite HA. intros E%decodeSource8_out. unfold copyASCIISource in E. cbn [d_address d_source d_out] in E.
  destruct (copyASCII address (b :: bs)) as [[o a] s] eqn:EC. cbn [d_out] in E. rewrite length_app in E.
  destruct (copyASCII_spec _ _ _ _ _ _ HB HA EC) as (_ & _ & Ho). apply nonempty_length in Ho. lia.
Qed.

Theorem long_data_behind_buffer (codec : TextCodecUTF8) (address : Z) (b : Z) (bs : list Z) (flush stopOnError sawError : bool) :
  m_partialSequence codec = [] -> bytes (b :: bs) -> isASCII b = true -> Z.of_nat (length (b :: bs)) = 2 ^ 32 ->
  decode codec address (b :: bs) flush stopOnError sawError = None.
Proof.
  intros HP HB HA HL. unfold decode, bufferLength. rewrite HP. cbn [length Nat.add] in *. rewrite HL. change (uint32 (2 ^ 32)) with 0.
  cbn [decode8 d_partial length Nat.eqb d_source].
  destruct (decodeSource8 _ _ _) as [[up d]|] eqn:E; cbn [mbind option_bind]; [|reflexivity].
  apply decodeSource8_ASCII in E; [|done|done]. unfold withinBuffer. by rewrite (proj2 (Z.leb_gt _ _)) by lia.
Qed.
