(* ===== verification/TextCodecUTF8Spec.v ===== *)
(** * Correctness of the UTF-8 codec

    The equivalence of [TextCodecUTF8::decode] with the reference decoder, the
    independence of the result of how valid text is cut into chunks, the round
    trip with [TextCodecUTF8::encode], and the form of decoded text. *)

From S2P Require Import Prelude TextCodecUTF8 TextCodecUTF8Loops TextCodecUTF8Safety.
Open Scope Z_scope.

(** ** Theorems *)

(** What is known of the loops holds of [decode] as long as the length of the
    data is [unsigned]. *)
Lemma decode_of_free codec address bs flush stop saw r : codecOk codec -> bytes bs -> dataFits bs ->
  freeDecode codec address bs flush stop saw = Some r -> decode codec address bs flush stop saw = Some r.
Proof.
  intros HC HB HD E. destruct (decode_free codec address bs flush stop saw HC HB HD) as (text & i & c & s & E' & ED & _).
  by rewrite ED, <- E', E.
Qed.

Lemma decode_codecOk codec address bs flush stop saw text is8Bit codec' saw' : codecOk codec -> bytes bs -> dataFits bs ->
  decode codec address bs flush stop saw = Some (text, is8Bit, codec', saw') -> codecOk codec'.
Proof.
  intros HC HB HD E. destruct (decode_free codec address bs flush stop saw HC HB HD) as (? & ? & c & ? & _ & ED & HO & _).
  rewrite ED in E. by injection E as _ _ -> _.
Qed.

Lemma decode_whole_bounded address bs sawError : bytes bs -> dataFits bs ->
  exists is8Bit, decode newTextCodecUTF8 address bs true false sawError =
    Some (fst (decodeAll bs), is8Bit, newTextCodecUTF8, sawError || snd (decodeAll bs)).
Proof.
  intros HB HD. destruct (decode_whole address bs sawError HB) as (i & E). exists i.
  apply decode_of_free; [apply newTextCodecUTF8_ok|done..].
Qed.

(** C17: decoding in one piece.  For any bytes, at any alignment, [decode] with
    [flush] gives the text of the reference decoder (for data of fewer than
    2^32 - 4 bytes), one replacement character
    per byte that starts no valid sequence, reports an error exactly if there
    is one, and leaves no partial sequence; the text is never longer than the
    buffer that was made for it, one character per byte. *)
Theorem decode_equals_reference (address : Z) (bs : list Z) (sawError : bool) :
  bytes bs -> dataFits bs ->
  (exists is8Bit, decode newTextCodecUTF8 address bs true false sawError =
    Some (fst (decodeAll bs), is8Bit, newTextCodecUTF8, sawError || snd (decodeAll bs))) /\
  (length (fst (decodeAll bs)) <= length bs)%nat.
Proof.
  intros HB HD. split; [by apply decode_whole_bounded|by apply decodeAll_length].
Qed.

(** The text that arrives in chunks, the last one with [flush]. *)
Fixpoint decodeChunks (codec : TextCodecUTF8) (chunks : list (Z * list Z)) (last : Z * list Z) (sawError : bool)
    : option (list UChar * TextCodecUTF8 * bool) :=
  match chunks with
  | [] =>
      '(text, _, codec, sawError) ← decode codec (fst last) (snd last) true false sawError;
      Some (text, codec, sawError)
  | (address, bs) :: chunks =>
      '(text, _, codec, sawError) ← decode codec address bs false false sawError;
      '(rest, codec, sawError) ← decodeChunks codec chunks last sawError;
      Some (text ++ rest, codec, sawError)
  end.

Lemma decodeChunks_spec chunks codec last sawError o : codecOk codec -> Forall dataFits (map snd chunks ++ [snd last]) ->
  bytes (m_partialSequence codec ++ concat (map snd chunks) ++ snd last) -> nextSequence (m_partialSequence codec) = None ->
  scan (m_partialSequence codec ++ concat (map snd chunks) ++ snd last) = (o, false, []) ->
  decodeChunks codec chunks last sawError = Some (o, newTextCodecUTF8, sawError).
Proof.
  revert codec o. induction chunks as [|[a c] chunks IH]; intros codec o HC HF HB HN HS; cbn [decodeChunks map concat snd app] in *; inversion HF as [|? ? HF1 HF2]; subst.
  - destruct (decode_step codec (fst last) (snd last) true sawError o [] HB HN HS (fun _ => eq_refl)) as (i & E).
    apply Forall_app in HB as [_ HB2]. by rewrite (decode_of_free _ _ _ _ _ _ _ HC HB2 HF1 E).
  - rewrite <- app_assoc in HB, HS. rewrite app_assoc in HB, HS. apply Forall_app in HB as [HB1 HB2].
    pose proof (scan_app _ _ HB1 HB2) as HX. destruct (scan (m_partialSequence codec ++ c)) as [[o1 e1] l1] eqn:E1.
    destruct (scan_left _ _ _ _ HB1 E1) as (HN1 & HL1 & _). rewrite HS in HX.
    destruct (scan (l1 ++ concat (map snd chunks) ++ snd last)) as [[o2 e2] l2] eqn:E2. cbn [prepend] in HX.
    injection HX as -> HE <-. symmetry in HE. apply orb_false_iff in HE as [-> ->].
    destruct (decode_step codec a c false sawError o1 l1 HB1 HN E1 ltac:(done)) as (i & E).
    apply Forall_app in HB1 as [_ HBc]. apply (decode_of_free _ _ _ _ _ _ _ HC HBc HF1) in E as E'. rewrite E'. cbn [mbind option_bind].
    rewrite (IH (mkCodec l1) o2); [done|exact (decode_codecOk _ _ _ _ _ _ _ _ _ _ HC HBc HF1 E')|done|by apply Forall_app|done|done].
Qed.

(** C19: valid text does not depend on its chunks.  If the bytes of a document
    are valid UTF-8, then however they are cut into chunks, also within a
    character, and wherever the chunks lie in memory, the concatenation of
    what [decode] returns is the text of the whole, and no error is reported
    (each chunk has fewer than 2^32 - 4 bytes). *)
Theorem valid_text_independent_of_chunks (chunks : list (Z * list Z)) (last : Z * list Z) (sawError : bool) :
  let whole := concat (map snd chunks) ++ snd last in
  bytes whole -> Forall dataFits (map snd chunks ++ [snd last]) -> snd (decodeAll whole) = false ->
  decodeChunks newTextCodecUTF8 chunks last sawError = Some (fst (decodeAll whole), newTextCodecUTF8, sawError).
Proof. cbv zeta. intros HB HD HE. apply decodeChunks_spec; [apply newTextCodecUTF8_ok|done..|]. by apply decodeAll_error_left. Qed.

(** Invalid text depends on its chunks.  [m_partialSequenceSize -= count]
    leaves the bytes of the partial sequence where they are: the bytes F0 C3
    A9 41 are U+FFFD, "é" and "A" in one piece, but when the first one arrives
    alone the "A" is lost and the lead byte C3 is left in its place. *)
Theorem invalid_text_depends_on_chunks :
  let whole := [0xF0; 0xC3; 0xA9; 0x41] in
  fst (decodeAll whole) = [0xFFFD; 0xE9; 0x41] /\
  decodeChunks newTextCodecUTF8 [] (0, whole) false = Some ([0xFFFD; 0xE9; 0x41], newTextCodecUTF8, true) /\
  decodeChunks newTextCodecUTF8 [(0, [0xF0])] (0, [0xC3; 0xA9; 0x41]) false = Some ([0xFFFD; 0xE9; 0xFFFD], newTextCodecUTF8, true).
Proof. split_and!; vm_compute; reflexivity. Qed.

Lemma decode_equals_reference_witness :
  exists is8Bit, decode newTextCodecUTF8 3 [0x61; 0xE2; 0x82; 0xAC; 0xFF; 0xC3] true false false =
    Some ([0x61; 0x20AC; 0xFFFD; 0xFFFD], is8Bit, newTextCodecUTF8, true).
Proof.
  apply (decode_equals_reference 3 [0x61; 0xE2; 0x82; 0xAC; 0xFF; 0xC3] false).
  - repeat constructor; discriminate.
  - vm_compute. reflexivity.
Defined.

Lemma valid_text_independent_of_chunks_witness :
  decodeChunks newTextCodecUTF8 [(0, [0x61; 0xF0]); (5, [0x9F; 0x98])] (8, [0x80; 0x62]) false =
    Some ([0x61; 0xD83D; 0xDE00; 0x62], newTextCodecUTF8, false).
Proof.
  apply (valid_text_independent_of_chunks [(0, [0x61; 0xF0]); (5, [0x9F; 0x98])] (8, [0x80; 0x62]) false).
  - repeat constructor; discriminate.
  - repeat apply Forall_cons_2; try apply Forall_nil_2; vm_compute; reflexivity.
  - reflexivity.
Defined.

(** ** Encoding *)

Definition scalar (c : Z) : Prop := 0 <= c < 0xD800 \/ 0xE000 <= c < 0x110000.

(** The UTF-16 text of a list of scalar values. *)
Definition utf16 (cs : list Z) : list UChar := concat (map appendCharacter cs).

Lemma lor_byte a m k : 0 <= k <= 8 -> 0 <= a < 2 ^ k -> 0 <= m -> a + m * 2 ^ k < 256 ->
  Z.lor a (m * 2 ^ k) mod 2 ^ 8 = a + m * 2 ^ k.
Proof. intros Hk Ha Hm HL. rewrite lor_disjoint by lia. apply Z.mod_small. lia. Qed.

Lemma low6 c : Z.land c 0x3f = c mod 64.
Proof. exact (land_low c 6 ltac:(lia)). Qed.

(** A code point in base 64. *)
Lemma base64_digits c : 0 <= c < 0x110000 ->
  exists x y z w, c = x * 262144 + y * 4096 + z * 64 + w /\ 0 <= y < 64 /\ 0 <= z < 64 /\ 0 <= w < 64 /\ 0 <= x <= 4.
Proof. intros Hc. exists (c / 64 / 64 / 64), (c / 64 / 64 mod 64), (c / 64 mod 64), (c mod 64). div_lia. Qed.

(** The bytes of the four lengths. *)
Lemma U8_APPEND_bytes x y z w : 0 <= y < 64 -> 0 <= z < 64 -> 0 <= w < 64 -> 0 <= x <= 4 ->
  let c := x * 262144 + y * 4096 + z * 64 + w in
  c < 0x110000 ->
  U8_APPEND_UNSAFE c =
    if c <? 0x80 then [c]
    else if c <? 0x800 then [192 + z; 128 + w]
    else if c <? 0x10000 then [224 + y; 128 + z; 128 + w]
    else [240 + x; 128 + y; 128 + z; 128 + w].
Proof.
  intros Hy Hz Hw Hx. cbv zeta. remember (x * 262144 + y * 4096 + z * 64 + w) as c eqn:Ec. intros Hc.
  assert (E18 : Z.shiftr c 18 = x) by (rewrite Z.shiftr_div_pow2 by lia; symmetry; apply (Z.div_unique _ _ _ (y * 4096 + z * 64 + w)); lia).
  assert (E12 : Z.shiftr c 12 = x * 64 + y) by (rewrite Z.shiftr_div_pow2 by lia; symmetry; apply (Z.div_unique _ _ _ (z * 64 + w)); lia).
  assert (E6 : Z.shiftr c 6 = x * 4096 + y * 64 + z) by (rewrite Z.shiftr_div_pow2 by lia; symmetry; apply (Z.div_unique _ _ _ w); lia).
  assert (M6 : c mod 64 = w) by div_lia. assert (M12 : (x * 4096 + y * 64 + z) mod 64 = z) by div_lia.
  assert (M18 : (x * 64 + y) mod 64 = y) by div_lia.
  unfold U8_APPEND_UNSAFE, uint32. rewrite !low6, E18, E12, E6, M6, M12, M18. rewrite (Z.mod_small c) by lia.
  change 0xc0 with (3 * 2 ^ 6). change 0xe0 with (7 * 2 ^ 5). change 0xf0 with (15 * 2 ^ 4). change 0x80 with (1 * 2 ^ 7) at 1 2 3.
  destruct (Z.ltb_spec c 0x80); [rewrite (proj2 (Z.leb_le c 0x7f)) by lia; by rewrite Z.mod_small by lia|].
  rewrite (proj2 (Z.leb_gt c 0x7f)) by lia.
  destruct (Z.ltb_spec c 0x800); [rewrite (proj2 (Z.leb_le c 0x7ff)) by lia|rewrite (proj2 (Z.leb_gt c 0x7ff)) by lia].
  { cbn [app]. rewrite !lor_byte by lia. f_equal; [lia|f_equal; lia]. }
  destruct (Z.ltb_spec c 0x10000); [rewrite (proj2 (Z.leb_le c 0xffff)) by lia|rewrite (proj2 (Z.leb_gt c 0xffff)) by lia];
    cbn [app]; rewrite !lor_byte by lia; repeat (f_equal; [lia|]); f_equal; lia.
Qed.

(** A scalar value that was encoded is the next sequence. *)
Lemma nextSequence_append c rest : scalar c ->
  nextSequence (U8_APPEND_UNSAFE c ++ rest) = Some (appendCharacter c, length (U8_APPEND_UNSAFE c), false) /\
  bytes (U8_APPEND_UNSAFE c).
Proof.
  intros HS. unfold scalar in HS. destruct (base64_digits c) as (x & y & z & w & Ec & Hy & Hz & Hw & Hx); [lia|].
  assert (HU := U8_APPEND_bytes x y z w Hy Hz Hw Hx). cbv zeta in HU. rewrite <- Ec in HU. rewrite HU by lia. clear HU.
  destruct (Z.ltb_spec c 0x80).
  { cbn [app nextSequence length]. rewrite isASCII_ltb, (proj2 (Z.ltb_lt _ _)) by lia.
    split; [|by repeat constructor; lia]. unfold appendCharacter, U_IS_BMP, uint32. rewrite !Z.mod_small by lia. by lia_tests. }
  destruct (Z.ltb_spec c 0x800); [|destruct (Z.ltb_spec c 0x10000)]; cbn [app nextSequence length];
    rewrite isASCII_ltb, (proj2 (Z.ltb_ge _ _)) by lia; (split; [|by repeat constructor; lia]);
    match goal with |- context [nonASCIISequenceLength ?b] =>
      destruct (sequenceLength_cases b) as [[E R]|[[E R]|[[E R]|[E R]]]]; try lia end;
    rewrite E; cbn [Nat.eqb Nat.ltb Nat.leb]; unfold decodeNonASCIISequence, at_, outside; cbn [nth Nat.eqb];
    rewrite !Z.gtb_ltb.
  - lia_tests. cbn [orb]. rewrite Z.shiftl_mul_pow2 by lia. replace (_ - _) with c by lia.
    by rewrite (proj2 (Z.eqb_neq c nonCharacter)) by (unfold nonCharacter; lia).
  - destruct (Z.eqb_spec (224 + y) 0xE0), (Z.eqb_spec (224 + y) 0xED); try lia; lia_tests; cbn [orb];
      rewrite !Z.shiftl_mul_pow2 by lia; replace (_ - _) with c by lia;
      by rewrite (proj2 (Z.eqb_neq c nonCharacter)) by (unfold nonCharacter; lia).
  - destruct (Z.eqb_spec (240 + x) 0xF0), (Z.eqb_spec (240 + x) 0xF4); try lia; lia_tests; cbn [orb];
      rewrite !Z.shiftl_mul_pow2 by lia; replace (_ - _) with c by lia;
      by rewrite (proj2 (Z.eqb_neq c nonCharacter)) by (unfold nonCharacter; lia).
Qed.

Lemma land_high c : 0 <= c < 2 ^ 32 -> Z.land c 0xfffffc00 = c / 1024 * 1024.
Proof.
  intros Hc. change 0xfffffc00 with (Z.shiftl (2 ^ 22 - 1) 10).
  assert (E : Z.land c (Z.shiftl (2 ^ 22 - 1) 10) = Z.shiftl (Z.land (Z.shiftr c 10) (2 ^ 22 - 1)) 10).
  { apply Z.bits_inj'. intros i Hi. rewrite Z.land_spec. destruct (Z.lt_ge_cases i 10) as [L|L].
    - rewrite !Z.shiftl_spec_low by lia. apply andb_false_r.
    - rewrite !Z.shiftl_spec by lia. rewrite Z.land_spec, Z.shiftr_spec by lia. by rewrite Z.sub_add. }
  rewrite E, land_low, Z.shiftl_mul_pow2, Z.shiftr_div_pow2 by lia. rewrite Z.mod_small; [done|]. div_lia.
Qed.

Lemma lead_trail_iff c k : 0 <= c < 2 ^ 16 -> (Z.land c 0xfffffc00 =? k * 1024) = (k * 1024 <=? c) && (c <? k * 1024 + 1024).
Proof.
  intros Hc. rewrite land_high by lia.
  destruct (Z.eqb_spec (c / 1024 * 1024) (k * 1024)), (Z.leb_spec (k * 1024) c), (Z.ltb_spec c (k * 1024 + 1024)); cbn [andb];
    try done; exfalso; div_lia.
Qed.

(** The code units of a scalar value are read back. *)
Lemma U16_NEXT_append c rest : scalar c -> U16_NEXT (appendCharacter c ++ rest) = (c, rest).
Proof.
  intros HS. unfold scalar in HS. unfold appendCharacter, U_IS_BMP, uint32. rewrite (Z.mod_small c (2 ^ 32)) by lia.
  destruct (Z.leb_spec c 65535).
  - cbn [app U16_NEXT]. rewrite Z.mod_small by lia. unfold U16_IS_LEAD. change 0xd800 with (54 * 1024).
    rewrite lead_trail_iff by lia. destruct (Z.leb_spec (54 * 1024) c), (Z.ltb_spec c (54 * 1024 + 1024)); cbn [andb]; try done; lia.
  - assert (EL : U16_LEAD c = c / 1024 + 0xd7c0).
    { unfold U16_LEAD. rewrite Z.shiftr_div_pow2 by lia. change (2 ^ 10) with 1024. rewrite Z.mod_small; [done|div_lia]. }
    assert (ET : U16_TRAIL c = c mod 1024 + 0xdc00).
    { unfold U16_TRAIL. change 1023 with (2 ^ 10 - 1). rewrite land_low by lia.
      apply (lor_disjoint _ 55 10); [lia|]. apply Z.mod_pos_bound. lia. }
    cbn [app U16_NEXT]. unfold U16_IS_LEAD, U16_IS_TRAIL. change 0xd800 with (54 * 1024). change 0xdc00 with (55 * 1024).
    rewrite EL, ET. rewrite !lead_trail_iff by div_lia.
    assert (HL : 54 * 1024 <= c / 1024 + 55232 < 54 * 1024 + 1024) by div_lia.
    assert (HT : 55 * 1024 <= c mod 1024 + 56320 < 55 * 1024 + 1024) by div_lia.
    rewrite !(proj2 (Z.leb_le _ _)), !(proj2 (Z.ltb_lt _ _)) by lia. cbn [andb]. f_equal.
    unfold U16_GET_SUPPLEMENTARY, U16_SURROGATE_OFFSET. rewrite !Z.shiftl_mul_pow2 by lia. div_lia.
Qed.

Lemma encodeLoop_utf16 cs fuel : Forall scalar cs -> (length (utf16 cs) <= fuel)%nat ->
  encodeLoop fuel (utf16 cs) = concat (map U8_APPEND_UNSAFE cs).
Proof.
  intros HF. revert fuel. induction HF as [|c cs Hc HF IH]; intros fuel HL; [by destruct fuel|].
  unfold utf16 in *. cbn [map concat] in *. rewrite length_app in HL.
  pose proof (U16_NEXT_append c (concat (map appendCharacter cs)) Hc) as EN.
  assert (Hn : exists u us, appendCharacter c = u :: us) by (unfold appendCharacter; destruct (U_IS_BMP c); eauto).
  destruct Hn as (u & us & Eu). rewrite Eu in HL, EN |- *. destruct fuel as [|fuel]; [simpl in HL; lia|].
  cbn [app encodeLoop] in *. rewrite EN. f_equal. apply IH. simpl in HL. lia.
Qed.

Lemma decodeAll_encoded cs : Forall scalar cs ->
  bytes (concat (map U8_APPEND_UNSAFE cs)) /\ decodeAll (concat (map U8_APPEND_UNSAFE cs)) = (utf16 cs, false).
Proof.
  intros HF. induction HF as [|c cs Hc HF [IB IE]]; [by split; [constructor|]|]. cbn [map concat].
  destruct (nextSequence_append c (concat (map U8_APPEND_UNSAFE cs)) Hc) as [EN HB].
  assert (HB' : bytes (U8_APPEND_UNSAFE c ++ concat (map U8_APPEND_UNSAFE cs))) by (by apply Forall_app).
  split; [done|]. rewrite (decodeAll_next _ _ _ _ HB' EN), drop_app_length, IE. done.
Qed.

(** C20: round trip.  The UTF-16 text of scalar values, encoded and decoded
    again at any alignment, is the same text without an error (the encoder
    only refuses a text of more than a third of the address space, and the bytes
    to decode must be fewer than 2^32 - 4). *)
Theorem encode_decode_roundtrip (cs : list Z) (address : Z) :
  Forall scalar cs -> 3 * Z.of_nat (length (utf16 cs)) < 2 ^ 64 ->
  exists bs, encode (utf16 cs) = Some bs /\
    (dataFits bs -> exists is8Bit, decode newTextCodecUTF8 address bs true false false = Some (utf16 cs, is8Bit, newTextCodecUTF8, false)).
Proof.
  intros HF HL. destruct (decodeAll_encoded cs HF) as [HB HD]. exists (concat (map U8_APPEND_UNSAFE cs)). split.
  - unfold encode. rewrite Z.gtb_ltb, (proj2 (Z.ltb_ge _ _)) by div_lia. by rewrite encodeLoop_utf16.
  - intros HS. destruct (decode_whole_bounded address _ false HB HS) as (i & E). rewrite HD in E. by exists i.
Qed.

Lemma encode_decode_roundtrip_witness :
  exists bs is8Bit, encode [0x61; 0x20AC; 0xD83D; 0xDE00] = Some bs /\
    decode newTextCodecUTF8 0 bs true false false = Some ([0x61; 0x20AC; 0xD83D; 0xDE00], is8Bit, newTextCodecUTF8, false).
Proof.
  destruct (encode_decode_roundtrip [0x61; 0x20AC; 0x1F600] 0) as (bs & E & HD).
  - unfold scalar. repeat constructor; lia.
  - vm_compute. reflexivity.
  - exists bs. assert (HS : dataFits bs) by (vm_compute in E; injection E as <-; vm_compute; reflexivity).
    destruct (HD HS) as (i & ED). exists i. split; [exact E|exact ED].
Defined.

(** A lone surrogate is encoded as three bytes that are not UTF-8: the
    encoder hands [U8_APPEND_UNSAFE] what [U16_NEXT] returns, and the decoder
    reads three errors. *)
Theorem lone_surrogate_encoded_invalid :
  encode [0xD800] = Some [0xED; 0xA0; 0x80] /\ decodeAll [0xED; 0xA0; 0x80] = ([0xFFFD; 0xFFFD; 0xFFFD], true).
Proof. split; vm_compute; reflexivity. Qed.

(** ** Well-formed text *)

Lemma nextSequence_scalar bs o n e : bytes bs -> nextSequence bs = Some (o, n, e) -> exists c, scalar c /\ o = appendCharacter c.
Proof.
  intros HB HN. destruct bs as [|b bs]; [done|]. pose proof (Forall_inv HB) as Hb. cbv beta in Hb. unfold nextSequence in HN. destruct (isASCII b) eqn:EA.
  { injection HN as <- _ _. rewrite isASCII_ltb in EA by done. apply Z.ltb_lt in EA. exists b. split; [unfold scalar; lia|].
    unfold appendCharacter, U_IS_BMP, uint32. rewrite Z.mod_small by lia. lia_tests. by rewrite Z.mod_small by lia. }
  destruct (Nat.eqb_spec (nonASCIISequenceLength b) 0) as [E0|E0]; [injection HN as <- _ _; exists replacementCharacter; split; [unfold scalar; lia|by vm_compute]|].
  destruct (Nat.ltb_spec (length (b :: bs)) (nonASCIISequenceLength b)) as [HL|HL]; [done|].
  destruct (Z.eqb_spec (decodeNonASCIISequence (b :: bs) (nonASCIISequenceLength b)) nonCharacter) as [EC|EC]; injection HN as <- _ _.
  - exists replacementCharacter. split; [unfold scalar; lia|by vm_compute].
  - eexists. split; [|done]. destruct (decodeNonASCIISequence_range (b :: bs) HB) as [HR|HR]; [|done|unfold scalar; change (at_ (b :: bs) 0) with b in HR; lia].
    change (at_ (b :: bs) 0) with b. destruct (sequenceLength_cases b Hb) as [[E R]|[[E R]|[[E R]|[E R]]]]; rewrite E in *; lia.
Qed.

(** Text of scalar values, which is what the destination of both loops holds. *)
Definition wellFormed (text : list UChar) : Prop := exists cs, Forall scalar cs /\ text = utf16 cs.

Lemma wellFormed_nil : wellFormed [].
Proof. by exists []. Qed.

Lemma wellFormed_app s t : wellFormed s -> wellFormed t -> wellFormed (s ++ t).
Proof.
  intros (cs & HC & ->) (ds & HD & ->). exists (cs ++ ds). split; [by apply Forall_app|]. unfold utf16. by rewrite map_app, concat_app.
Qed.

Lemma wellFormed_char c : scalar c -> wellFormed (appendCharacter c).
Proof. intros HC. exists [c]. split; [by apply Forall_cons_2|]. unfold utf16. cbn [map concat]. by rewrite app_nil_r. Qed.

Lemma wellFormed_replacement : wellFormed [replacementCharacter].
Proof. exact (wellFormed_char 0xFFFD ltac:(unfold scalar; lia)). Qed.

Lemma wellFormed_unit c : 0 <= c < 0xD800 -> wellFormed [c].
Proof.
  intros HC. assert (E : appendCharacter c = [c]) by (unfold appendCharacter, U_IS_BMP, uint32; rewrite Z.mod_small by lia; lia_tests; by rewrite Z.mod_small by lia).
  rewrite <- E. apply wellFormed_char. unfold scalar. lia.
Qed.

Lemma wellFormed_ASCII s : bytes s -> Forall (fun b => isASCII b = true) s -> wellFormed s.
Proof.
  intros HB HA. induction HB as [|b s Hb HB IH]; [apply wellFormed_nil|]. inversion HA as [|? ? HA1 HA2]; subst.
  apply (wellFormed_app [b]); [|by apply IH]. rewrite isASCII_ltb in HA1 by done. apply Z.ltb_lt in HA1. apply wellFormed_unit. lia.
Qed.

Definition tidy (d : Decoding) : Prop := bytes (d_partial d) /\ bytes (d_source d) /\ wellFormed (d_out d).

Lemma decoded_scalar p : bytes p -> isASCII (at_ p 0) = false -> nonASCIISequenceLength (at_ p 0) <> 0%nat ->
  (nonASCIISequenceLength (at_ p 0) <= length p)%nat -> decodeNonASCIISequence p (nonASCIISequenceLength (at_ p 0)) <> nonCharacter ->
  scalar (decodeNonASCIISequence p (nonASCIISequenceLength (at_ p 0))).
Proof.
  intros HB HA H0 HL HN. destruct p as [|b p]; [done|]. assert (Hb : 0 <= at_ (b :: p) 0 < 256) by (apply bytes_at; [done|simpl; lia]).
  pose proof (sequenceLength_range _ Hb ltac:(by apply Nat.eqb_neq)).
  destruct (decodeNonASCIISequence_range (b :: p) HB) as [HR|HR]; [lia|done|]. unfold scalar. lia.
Qed.

Lemma tidy_emit units p d : tidy d -> wellFormed units -> bytes p -> tidy (emit units p d).
Proof. intros (HP & HS & HW) HU HB. unfold tidy. fields. split_and!; [done|done|by apply wellFormed_app]. Qed.

Lemma tidy_advance units n d : tidy d -> wellFormed units -> tidy (advanceSource units n d).
Proof. intros (HP & HS & HW) HU. unfold tidy. fields. split_and!; [done|by apply Forall_drop|by apply wellFormed_app]. Qed.

Lemma tidy_error stop d : tidy d -> tidy (handleError stop d).
Proof.
  intros HT. destruct stop; [exact HT|]. unfold handleError. apply (tidy_emit _ _ (sawErrorIn d)); [exact HT|apply wellFormed_replacement|].
  cbn [d_partial]. destruct HT as [HP _]. destruct (d_partial d); [done|by inversion HP].
Qed.

Lemma tidy_consume d : tidy d -> d_partial d <> [] -> isASCII (at_ (d_partial d) 0) = true ->
  tidy (emit [at_ (d_partial d) 0] (consumePartialSequenceByte (d_partial d)) d).
Proof.
  intros HT Hne HA. pose proof HT as [HP _]. apply tidy_emit; [done| |by destruct (d_partial d); [done|inversion HP]].
  destruct (d_partial d) as [|b p]; [done|]. inversion HP. apply wellFormed_ASCII; by apply Forall_singleton.
Qed.

Lemma appendPartial_bytes p q r : appendPartial p q = Some r -> bytes p -> bytes q -> bytes r /\ r = p ++ q.
Proof. unfold appendPartial. case_match; [|done]. intros [= <-] HP HQ. split; [by apply Forall_app|done]. Qed.

Lemma tidy_keepAll d d' : keepAll d = Some d' -> tidy d -> tidy d'.
Proof.
  unfold keepAll. destruct (appendPartial _ _) as [r|] eqn:E; [|done]. intros [= <-] (HP & HS & HW).
  destruct (appendPartial_bytes _ _ _ E HP HS). unfold tidy. by fields.
Qed.

Lemma tidy_keepPartial d d' : keepPartial d = Some d' -> tidy d -> tidy d'.
Proof.
  unfold keepPartial. destruct (appendPartial _ _) as [r|] eqn:E; [|done]. intros [= <-] (HP & HS & HW).
  destruct (appendPartial_bytes _ _ _ E (Forall_nil_2 _) HS). unfold tidy. fields. split_and!; [done|constructor|done].
Qed.

(** The partial sequence with the bytes that complete it. *)
Lemma tidy_fill count d d1 : tidy d -> d_partial d <> [] ->
  (length (d_partial d) <? count)%nat && (length (d_source d) <? count - length (d_partial d))%nat = false ->
  (if (length (d_partial d) <? count)%nat then completePartial count d else Some d) = Some d1 ->
  tidy d1 /\ at_ (d_partial d1) 0 = at_ (d_partial d) 0 /\ (count <= length (d_partial d1))%nat.
Proof.
  intros HT Hne ES. pose proof HT as (HP & HS & HW). destruct (Nat.ltb_spec (length (d_partial d)) count) as [HL|HL]; [|by intros [= <-]].
  cbn [andb] in ES. apply Nat.ltb_ge in ES. unfold completePartial. destruct (appendPartial _ _) as [r|] eqn:E; [|done]. intros [= <-].
  destruct (appendPartial_bytes _ _ _ E HP) as [HR ->]; [by apply Forall_take|]. unfold tidy. fields.
  split_and!; [done|by apply Forall_drop|done|by apply at_app, nonempty_length|rewrite length_app, length_take; lia].
Qed.

Lemma ne_length (p : list Z) : (length p =? 0)%nat = false -> p <> [].
Proof. by destruct p. Qed.

Lemma tidy_handlePartial8 fuel flush d up d' : d_partial d <> [] -> tidy d -> handlePartialSequence8 fuel flush d = Some (up, d') -> tidy d'.
Proof.
  revert d. induction fuel as [|fuel IH]; intros d Hne HT; [done|]. cbn [handlePartialSequence8].
  assert (Hloop : forall d1, tidy d1 -> (if (length (d_partial d1) =? 0)%nat then Some (false, d1) else handlePartialSequence8 fuel flush d1) = Some (up, d') -> tidy d').
  { intros d1 H1. destruct (length (d_partial d1) =? 0)%nat eqn:E; [by intros [= _ <-]|]. apply IH; [by apply ne_length|done]. }
  destruct (isASCII _) eqn:EA; [by apply Hloop, tidy_consume|].
  destruct (_ =? 0)%nat eqn:E0; [by intros [= _ <-]|]. apply Nat.eqb_neq in E0. destruct (_ && _) eqn:ES.
  { destruct (negb flush); [|by intros [= _ <-]]. destruct (keepAll d) eqn:EK; [|done]. intros [= _ <-]. by eapply tidy_keepAll. }
  destruct (if (_ <? _)%nat then _ else _) as [d1|] eqn:EF; [|done]. destruct (tidy_fill _ _ _ HT Hne ES EF) as (H1 & HF & HL). cbn [mbind option_bind].
  destruct (_ || _) eqn:EC; [by intros [= _ <-]|]. apply orb_false_iff in EC as [EC1%Z.eqb_neq EC2]. rewrite Z.gtb_ltb in EC2. apply Z.ltb_ge in EC2.
  rewrite <- HF in *. pose proof (decoded_scalar (d_partial d1) (proj1 H1) EA E0 HL EC1) as HS.
  apply Hloop, tidy_emit; [done| |by apply Forall_take; apply H1]. rewrite Z.mod_small by (unfold scalar in HS; lia). apply wellFormed_unit. unfold scalar in HS. lia.
Qed.

Lemma tidy_handlePartial16 fuel flush stop d d' : d_partial d <> [] -> tidy d -> handlePartialSequence16 fuel flush stop d = Some d' -> tidy d'.
Proof.
  revert d. induction fuel as [|fuel IH]; intros d Hne HT; [done|]. cbn [handlePartialSequence16].
  assert (Hloop : forall d1, tidy d1 -> (if (length (d_partial d1) =? 0)%nat then Some d1 else handlePartialSequence16 fuel flush stop d1) = Some d' -> tidy d').
  { intros d1 H1. destruct (length (d_partial d1) =? 0)%nat eqn:E; [by intros [= <-]|]. apply IH; [by apply ne_length|done]. }
  assert (Herror : forall d1, tidy d1 -> (if stop then Some (handleError stop d1) else
      if (length (d_partial (handleError stop d1)) =? 0)%nat then Some (handleError stop d1) else handlePartialSequence16 fuel flush stop (handleError stop d1)) = Some d' -> tidy d').
  { intros d1 H1. apply (tidy_error stop) in H1. destruct stop; [by intros [= <-]|by apply Hloop]. }
  destruct (isASCII _) eqn:EA; [by apply Hloop, tidy_consume|].
  destruct (_ =? 0)%nat eqn:E0; [by apply Herror|]. apply Nat.eqb_neq in E0. destruct (_ && _) eqn:ES.
  { destruct (negb flush); [|by apply Herror]. intros EK. by eapply tidy_keepAll. }
  destruct (if (_ <? _)%nat then _ else _) as [d1|] eqn:EF; [|done]. destruct (tidy_fill _ _ _ HT Hne ES EF) as (H1 & HF & HL). cbn [mbind option_bind].
  destruct (_ =? nonCharacter) eqn:EC; [by apply Herror|]. apply Z.eqb_neq in EC. rewrite <- HF in *.
  apply Hloop, tidy_emit; [done| |by apply Forall_take; apply H1]. apply wellFormed_char. by apply decoded_scalar; [apply H1|..].
Qed.

Lemma tidy_copyASCII b rest d : tidy d -> d_source d = b :: rest -> isASCII b = true -> tidy (copyASCIISource d).
Proof.
  intros (HP & HS & HW) ES HA. unfold copyASCIISource. rewrite ES in *. destruct (copyASCII (d_address d) (b :: rest)) as [[o a] s] eqn:EC.
  destruct (copyASCII_spec _ _ _ _ _ _ HS HA EC) as (EQ & HF & _). rewrite EQ in HS. apply Forall_app in HS as [HO HS].
  unfold tidy. fields. split_and!; [done|done|]. apply wellFormed_app; [done|by apply wellFormed_ASCII].
Qed.

(** What the loops over the source read of a sequence that is all there. *)
Lemma source_scalar d b rest : tidy d -> d_source d = b :: rest -> isASCII b = false ->
  negb (nonASCIISequenceLength b =? 0)%nat && (length (d_source d) <? nonASCIISequenceLength b)%nat = false ->
  let character := if (nonASCIISequenceLength b =? 0)%nat then nonCharacter else decodeNonASCIISequence (d_source d) (nonASCIISequenceLength b) in
  (character =? nonCharacter) = false -> scalar character.
Proof.
  intros (HP & HS & HW) ES HA HK. cbv zeta. destruct (Nat.eqb_spec (nonASCIISequenceLength b) 0) as [|E0]; [done|]. intros EC%Z.eqb_neq.
  cbn [negb andb] in HK. apply Nat.ltb_ge in HK. assert (Eb : b = at_ (d_source d) 0) by by rewrite ES.
  rewrite Eb in *. by apply decoded_scalar.
Qed.

Lemma tidy_decodeSource8 fuel stop d up d' : tidy d -> decodeSource8 fuel stop d = Some (up, d') -> tidy d'.
Proof.
  revert d. induction fuel as [|fuel IH]; intros d HT; [done|]. cbn [decodeSource8]. destruct (d_source d) as [|b rest] eqn:ES; [by intros [= _ <-]|].
  destruct (isASCII b) eqn:EA; [by apply IH; eapply tidy_copyASCII|]. pose proof (source_scalar d b rest HT ES EA) as HC. rewrite <- ES in *.
  destruct (negb _ && _). { destruct (keepPartial d) eqn:EK; [|done]. intros [= _ <-]. by eapply tidy_keepPartial. }
  specialize (HC eq_refl). cbv zeta in HC. set (c := if (_ =? 0)%nat then nonCharacter else _) in *. clearbody c.
  destruct (c =? nonCharacter); [by destruct stop; intros [= _ <-]|]. specialize (HC eq_refl).
  destruct (c >? 255) eqn:EG; [by intros [= _ <-]|]. rewrite Z.gtb_ltb in EG. apply Z.ltb_ge in EG.
  apply IH, tidy_advance; [done|]. rewrite Z.mod_small by (unfold scalar in HC; lia). apply wellFormed_unit. unfold scalar in HC. lia.
Qed.

Lemma tidy_decodeSource16 fuel stop d d' : tidy d -> decodeSource16 fuel stop d = Some d' -> tidy d'.
Proof.
  revert d. induction fuel as [|fuel IH]; intros d HT; [done|]. cbn [decodeSource16]. destruct (d_source d) as [|b rest] eqn:ES; [by intros [= <-]|].
  destruct (isASCII b) eqn:EA; [by apply IH; eapply tidy_copyASCII|]. pose proof (source_scalar d b rest HT ES EA) as HC. rewrite <- ES in *.
  destruct (negb _ && _); [intros EK; by eapply tidy_keepPartial|].
  specialize (HC eq_refl). cbv zeta in HC. set (c := if (_ =? 0)%nat then nonCharacter else _) in *. clearbody c.
  destruct (c =? nonCharacter).
  - destruct stop; [by intros [= <-]|]. apply IH, tidy_advance; [done|apply wellFormed_replacement].
  - apply IH, tidy_advance; [done|]. by apply wellFormed_char, HC.
Qed.

Lemma withinBuffer_inv capacity d d' : withinBuffer capacity d = Some d' -> d' = d.
Proof. unfold withinBuffer. case_match; [by intros [= <-]|done]. Qed.

(** A round of the outer loop: with or without a partial sequence. *)
Lemma tidy_decode8 capacity fuel flush stop d up d' : tidy d -> decode8 capacity fuel flush stop d = Some (up, d') -> tidy d'.
Proof.
  revert d. induction fuel as [|fuel IH]; intros d HT; [done|]. cbn [decode8].
  assert (Hrest : forall d1, tidy d1 ->
    ('(u, d2) ← decodeSource8 (S (length (d_source d1))) stop d1;
     d3 ← withinBuffer capacity d2;
     if (u : bool) then Some (true, d3)
     else if flush && negb (length (d_partial d3) =? 0)%nat then decode8 capacity fuel flush stop d3 else Some (false, d3)) = Some (up, d') -> tidy d').
  { intros d1 H1. destruct (decodeSource8 _ _ d1) as [[u d2]|] eqn:E2; [|done]. cbn [mbind option_bind].
    apply tidy_decodeSource8 in E2; [|done]. destruct (withinBuffer _ d2) as [d3|] eqn:E3; [|done]. apply withinBuffer_inv in E3 as ->.
    cbn [mbind option_bind]. destruct u; [by intros [= _ <-]|]. destruct (_ && _); [by apply IH|by intros [= _ <-]]. }
  destruct (length (d_partial d) =? 0)%nat eqn:EP; [by apply Hrest|].
  destruct (handlePartialSequence8 _ _ d) as [[u d1]|] eqn:E1; [|done]. cbn [mbind option_bind].
  apply tidy_handlePartial8 in E1; [|by apply ne_length|done]. destruct (withinBuffer _ d1) as [d3|] eqn:E3; [|done]. apply withinBuffer_inv in E3 as ->.
  cbn [mbind option_bind]. destruct u; [intros [= _ <-]; unfold tidy; fields; split_and!; [apply E1|apply E1|apply HT]|].
  destruct (negb _); [by intros [= _ <-]|by apply Hrest].
Qed.

Lemma tidy_decode16 capacity fuel flush stop d d' : tidy d -> decode16 capacity fuel flush stop d = Some d' -> tidy d'.
Proof.
  revert d. induction fuel as [|fuel IH]; intros d HT; [done|]. cbn [decode16].
  assert (Hrest : forall d1, tidy d1 ->
    (d2 ← decodeSource16 (S (length (d_source d1))) stop d1;
     d3 ← withinBuffer capacity d2;
     if flush && negb (length (d_partial d3) =? 0)%nat then decode16 capacity fuel flush stop d3 else Some d3) = Some d' -> tidy d').
  { intros d1 H1. destruct (decodeSource16 _ _ d1) as [d2|] eqn:E2; [|done]. cbn [mbind option_bind].
    apply tidy_decodeSource16 in E2; [|done]. destruct (withinBuffer _ d2) as [d3|] eqn:E3; [|done]. apply withinBuffer_inv in E3 as ->.
    cbn [mbind option_bind]. destruct (_ && _); [by apply IH|by intros [= <-]]. }
  destruct (length (d_partial d) =? 0)%nat eqn:EP; [by apply Hrest|].
  destruct (handlePartialSequence16 _ _ _ d) as [d1|] eqn:E1; [|done]. cbn [mbind option_bind].
  apply tidy_handlePartial16 in E1; [|by apply ne_length|done]. destruct (withinBuffer _ d1) as [d3|] eqn:E3; [|done]. apply withinBuffer_inv in E3 as ->.
  cbn [mbind option_bind]. destruct (negb _); [by intros [= <-]|by apply Hrest].
Qed.

Lemma decode_wellFormed codec address bs flush stop saw text is8Bit codec' saw' : bytes (m_partialSequence codec) -> bytes bs ->
  decode codec address bs flush stop saw = Some (text, is8Bit, codec', saw') -> wellFormed text.
Proof.
  intros HP HB. unfold decode. set (d := mkDecoding _ _ _ _ _). assert (HT : tidy d) by (split_and!; [done|done|apply wellFormed_nil]).
  destruct (decode8 _ _ _ _ d) as [[[|] d1]|] eqn:E1; [|by apply tidy_decode8 in E1 as (_ & _ & ?); [intros [= <- _ _ _]|]|done].
  apply tidy_decode8 in E1; [|done]. cbn [mbind option_bind]. destruct (withinBuffer _ d1) as [d3|] eqn:E3; [|done]. apply withinBuffer_inv in E3 as ->.
  cbn [mbind option_bind]. destruct (decode16 _ _ _ _ d1) as [d2|] eqn:E2; [|done]. apply tidy_decode16 in E2 as (_ & _ & ?); [|done].
  by intros [= <- _ _ _].
Qed.

(** A call of [decode]: where the data lies, the data, [flush] and
    [stopOnError].  What the calls of one codec return. *)
Record DecodeCall := mkDecodeCall { dc_address : Z; dc_bytes : list Z; dc_flush : bool; dc_stopOnError : bool }.

Fixpoint decodeCalls (codec : TextCodecUTF8) (calls : list DecodeCall) : option (list (list UChar)) :=
  match calls with
  | [] => Some []
  | call :: calls =>
      '(text, _, codec, _) ← decode codec (dc_address call) (dc_bytes call) (dc_flush call) (dc_stopOnError call) false;
      texts ← decodeCalls codec calls;
      Some (text :: texts)
  end.

(** C32: decoded text is well-formed.  In every sequence of calls of [decode]
    on a codec, each with any bytes (fewer than 2^32 - 4) at any alignment and
    with any flags, every call returns, and the text of each is UTF-16 of scalar
    values: no unpaired surrogate, no value above U+10FFFF and nothing but code
    units of 16 bits comes from the network into the parser. *)
Theorem decoded_text_is_well_formed (calls : list DecodeCall) :
  Forall (fun call => bytes (dc_bytes call) /\ dataFits (dc_bytes call)) calls ->
  exists texts, decodeCalls newTextCodecUTF8 calls = Some texts /\ length texts = length calls /\
    Forall (fun text => exists cs, Forall scalar cs /\ text = utf16 cs) texts.
Proof.
  generalize newTextCodecUTF8_ok. generalize newTextCodecUTF8. intros codec HC HF. revert codec HC.
  induction HF as [|call calls [HB HD] HF IH]; intros codec HC; [by exists []|]. cbn [decodeCalls].
  destruct (decode_free codec (dc_address call) (dc_bytes call) (dc_flush call) (dc_stopOnError call) false HC HB HD)
    as (text & i & codec' & s & _ & E & HO & _).
  destruct (IH codec' HO) as (texts & ET & EL & HT). exists (text :: texts). rewrite E. cbn [mbind option_bind]. rewrite ET.
  split_and!; [done|simpl; by rewrite EL|]. apply Forall_cons_2; [|done]. by eapply decode_wellFormed; [apply HC|..].
Qed.

(** A sequence that breaks off and is continued, an encoded surrogate, and a
    call that stops at an error. *)
Lemma decoded_text_is_well_formed_witness :
  exists texts, decodeCalls newTextCodecUTF8 [mkDecodeCall 0 [0x61; 0xF0; 0x9F] false false; mkDecodeCall 3 [0x98; 0x80] false false; mkDecodeCall 5 [0xED; 0xA0; 0x80; 0xF0; 0x9F] true false; mkDecodeCall 1 [0xFF] false true] = Some texts /\
    length texts = 4%nat /\ Forall (fun text => exists cs, Forall scalar cs /\ text = utf16 cs) texts.
Proof.
  apply decoded_text_is_well_formed.
  repeat apply Forall_cons_2; try apply Forall_nil_2; (split; [repeat apply Forall_cons_2; try apply Forall_nil_2; lia|vm_compute; reflexivity]).
Defined.
