(* ===== verification/UnicodeUTF8.v ===== *)
(** * UTF-8 conversions of strings

    [wtf/unicode/UTF8.cpp], [String::fromUTF8] of [wtf/text/WTFString.cpp],
    [StringImpl::utf8] of [wtf/text/StringImpl.cpp] and
    [charactersAreAllASCII] of [wtf/text/ASCIIFastPath.h]: the conversions
    outside of the text codecs, which messages of web sockets go through.

    A buffer with a start and an end is the list of what has been written and
    the number of elements it has room for.  The result of a function that
    asserts is [None] when an assertion fails or when it crashes on purpose. *)

From S2P Require Import Prelude TextCodecUTF8.
Open Scope Z_scope.

(** ** [wtf/unicode/UTF8.cpp] *)

Inductive ConversionResult := conversionOK | sourceExhausted | targetExhausted | sourceIllegal.

Definition inlineUTF8SequenceLengthNonASCII (b0 : Z) : nat :=
  if negb (Z.land b0 0xC0 =? 0xC0) then 0
  else if Z.land b0 0xE0 =? 0xC0 then 2
  else if Z.land b0 0xF0 =? 0xE0 then 3
  else if Z.land b0 0xF8 =? 0xF0 then 4
  else 0.

Definition inlineUTF8SequenceLength (b0 : Z) : nat :=
  if isASCII b0 then 1 else inlineUTF8SequenceLengthNonASCII b0.

(** The inner switch on the first byte: the values of the second one it
    rejects. *)
Definition illegalSecond (b0 a : Z) : bool :=
  if b0 =? 0xE0 then a <? 0xA0
  else if b0 =? 0xED then a >? 0x9F
  else if b0 =? 0xF0 then a <? 0x90
  else if b0 =? 0xF4 then a >? 0x8F
  else a <? 0x80.

(** The cases fall through from the last byte to the first one. *)
Definition isLegalUTF8 (source : list Z) (length : nat) : bool :=
  let b0 := at_ source 0 in
  if (length =? 0)%nat || (4 <? length)%nat then false
  else if (4 <=? length)%nat && outside (at_ source 3) 0x80 0xBF then false
  else if (3 <=? length)%nat && outside (at_ source 2) 0x80 0xBF then false
  else if (2 <=? length)%nat && ((at_ source 1 >? 0xBF) || illegalSecond b0 (at_ source 1)) then false
  else if (b0 >=? 0x80) && (b0 <? 0xC2) then false
  else negb (b0 >? 0xF4).

Definition offsetsFromUTF8 : list Z :=
  [0x00000000; 0x00003080; 0x000E2080; 0x03C82080; int32 0xFA082080; int32 0x82082080].

Fixpoint readBytes (length : nat) (sequence : list Z) (character : UChar32) : UChar32 :=
  match length with
  | O => character
  | S O => int32 (character + at_ sequence 0)
  | S length => readBytes length (drop 1 sequence) (int32 (Z.shiftl (int32 (character + at_ sequence 0)) 6))
  end.

Definition readUTF8Sequence (sequence : list Z) (length : nat) : UChar32 :=
  int32 (readBytes length sequence 0 - nth (length - 1) offsetsFromUTF8 0).

Definition U_IS_SURROGATE (c : UChar32) : bool := Z.land c 0xfffff800 =? 0xd800.
Definition U_IS_SUPPLEMENTARY (c : UChar32) : bool := uint32 (c - 0x10000) <=? 0xfffff.

(** Where a conversion stops, what it has written and [orAllData]. *)
Record Conversion := mkConversion {
  cv_result : ConversionResult;
  cv_source : list Z;
  cv_target : list Z;
  cv_orAllData : Z
}.

(** [while (source < sourceEnd)]; [capacity] is [targetEnd] relative to the
    start of the target.  A round that breaks leaves [source] at the start of
    its sequence. *)
Fixpoint utf8ToUTF16Loop (fuel capacity : nat) (strict : bool) (source : list Z) (target : list UChar) (orAllData : Z) : Conversion :=
  match fuel, source with
  | S fuel, b0 :: _ =>
      let stop result := mkConversion result source target orAllData in
      let utf8SequenceLength := inlineUTF8SequenceLength b0 in
      let next := utf8ToUTF16Loop fuel capacity strict (drop utf8SequenceLength source) in
      if (length source <? utf8SequenceLength)%nat then stop sourceExhausted
      else if negb (isLegalUTF8 source utf8SequenceLength) then stop sourceIllegal
      else
        let character := readUTF8Sequence source utf8SequenceLength in
        let replace := next (target ++ [replacementCharacter]) (Z.lor orAllData replacementCharacter) in
        if (capacity <=? length target)%nat then stop targetExhausted
        else if U_IS_BMP character then
          if U_IS_SURROGATE character then if strict then stop sourceIllegal else replace
          else next (target ++ [character mod 2 ^ 16]) (Z.lor orAllData (character mod 2 ^ 16))
        else if U_IS_SUPPLEMENTARY character then
          if (capacity <=? length target + 1)%nat then stop targetExhausted
          else next (target ++ [U16_LEAD character; U16_TRAIL character]) 0xffff
        else if strict then stop sourceIllegal else replace
  | _, _ => mkConversion conversionOK source target orAllData
  end.

Definition convertUTF8ToUTF16 (source : list Z) (capacity : nat) (strict : bool) : Conversion :=
  utf8ToUTF16Loop (length source) capacity strict source [] 0.

Definition sourceAllASCII (c : Conversion) : bool := Z.land (cv_orAllData c) (Z.lnot 0x7f) =? 0.

Definition firstByteMark : list Z := [0x00; 0x00; 0xC0; 0xE0; 0xF0; 0xF8; 0xFC].

(** The switch that writes a character from its last byte to its first one. *)
Fixpoint writeBytes (bytesToWrite : nat) (mark : Z) (ch : UChar32) (written : list Z) : list Z :=
  match bytesToWrite with
  | O => written
  | S O => Z.lor ch mark mod 2 ^ 8 :: written
  | S n => writeBytes n mark (Z.shiftr ch 6) (Z.land (Z.lor ch 0x80) 0xBF :: written)
  end.

Fixpoint latin1ToUTF8Loop (capacity : nat) (source : list LChar) (target : list Z) : Conversion :=
  match source with
  | [] => mkConversion conversionOK [] target 0
  | ch :: rest =>
      let bytesToWrite : nat := if ch <? 0x80 then 1%nat else 2%nat in
      if (capacity <? length target + bytesToWrite)%nat then mkConversion targetExhausted source target 0
      else latin1ToUTF8Loop capacity rest (target ++ writeBytes bytesToWrite (nth bytesToWrite firstByteMark 0) ch [])
  end.

Definition convertLatin1ToUTF8 (source : list LChar) (capacity : nat) : Conversion := latin1ToUTF8Loop capacity source [].

Definition inRange (ch low high : Z) : bool := (ch >=? low) && (ch <=? high).

(** The character at the start of the source and what follows it, or the
    result with which the loop breaks. *)
Definition readUTF16 (strict : bool) (source : list UChar) : ConversionResult + UChar32 * list UChar :=
  match source with
  | [] => inl conversionOK
  | ch :: rest =>
      if inRange ch 0xD800 0xDBFF then
        match rest with
        | ch2 :: rest' =>
            if inRange ch2 0xDC00 0xDFFF then inr (Z.shiftl (ch - 0xD800) 10 + (ch2 - 0xDC00) + 0x0010000, rest')
            else if strict then inl sourceIllegal
            else inr (ch, rest)
        | [] => inl sourceExhausted
        end
      else if strict && inRange ch 0xDC00 0xDFFF then inl sourceIllegal
      else inr (ch, rest)
  end.

Definition bytesFor (ch : UChar32) : nat * UChar32 :=
  if ch <? 0x80 then (1%nat, ch)
  else if ch <? 0x800 then (2%nat, ch)
  else if ch <? 0x10000 then (3%nat, ch)
  else if ch <? 0x110000 then (4%nat, ch)
  else (3%nat, replacementCharacter).

Fixpoint utf16ToUTF8Loop (fuel capacity : nat) (strict : bool) (source : list UChar) (target : list Z) : Conversion :=
  match fuel, source with
  | S fuel, _ :: _ =>
      match readUTF16 strict source with
      | inl result => mkConversion result source target 0
      | inr (ch, rest) =>
          let '(bytesToWrite, ch) := bytesFor ch in
          if (capacity <? length target + bytesToWrite)%nat then mkConversion targetExhausted source target 0
          else utf16ToUTF8Loop fuel capacity strict rest (target ++ writeBytes bytesToWrite (nth bytesToWrite firstByteMark 0) ch [])
      end
  | _, _ => mkConversion conversionOK source target 0
  end.

(** [target] is what the buffer already holds. *)
Definition convertUTF16ToUTF8 (source : list UChar) (target : list Z) (capacity : nat) (strict : bool) : Conversion :=
  utf16ToUTF8Loop (length source) capacity strict source target.

(** ** [charactersAreAllASCII] *)

(** The prologue: up to the first aligned address. *)
Fixpoint orBytesUnaligned (address : Z) (characters : list Z) (allCharBits : Z) : Z * Z * list Z :=
  match characters with
  | [] => (allCharBits, address, [])
  | c :: rest =>
      if isAlignedToMachineWord address then (allCharBits, address, characters)
      else orBytesUnaligned (address + 1) rest (Z.lor allCharBits c)
  end.

Fixpoint orWords (fuel : nat) (wordEnd address : Z) (characters : list Z) (allCharBits : Z) : Z * list Z :=
  match fuel with
  | O => (allCharBits, characters)
  | S fuel =>
      if address <? wordEnd then
        orWords fuel wordEnd (address + Z.of_nat machineWordSize) (drop machineWordSize characters)
          (Z.lor allCharBits (loadWord (take machineWordSize characters)))
      else (allCharBits, characters)
  end.

Definition charactersAreAllASCII (address : Z) (characters : list Z) : bool :=
  let wordEnd := alignToMachineWord (address + Z.of_nat (length characters)) in
  let '(allCharBits, address, characters) := orBytesUnaligned address characters 0 in
  let '(allCharBits, characters) := orWords (length characters) wordEnd address characters allCharBits in
  let allCharBits := fold_left Z.lor characters allCharBits in
  Z.land allCharBits NonASCIIMask =? 0.

(** ** [String::fromUTF8] for a pointer that is not null: [Some None] is the
    null string. *)
Definition fromUTF8 (address : Z) (string : list Z) : option (option (list UChar)) :=
  if Z.of_nat (length string) >? 2 ^ 32 - 1 then None
  else if (length string =? 0)%nat then Some (Some [])
  else if charactersAreAllASCII address string then Some (Some string)
  else
    let c := convertUTF8ToUTF16 string (length string) true in
    match cv_result c with
    | conversionOK => if (length (cv_target c) <? length string)%nat then Some (Some (cv_target c)) else None
    | _ => Some None
    end.

(** ** [StringImpl::utf8] *)

Inductive ConversionMode := LenientConversion | StrictConversion | StrictConversionReplacingUnpairedSurrogatesWithFFFD.

Definition putUTF8Triple (buffer : list Z) (ch : UChar) : option (list Z) :=
  if ch >=? 0x0800 then
    Some (buffer ++ [Z.lor (Z.land (Z.shiftr ch 12) 0x0F) 0xE0; Z.lor (Z.land (Z.shiftr ch 6) 0x3F) 0x80; Z.lor (Z.land ch 0x3F) 0x80])
  else None.

(** The loop of the mode that replaces unpaired surrogates. *)
Fixpoint utf8Replacing (fuel : nat) (characters : list UChar) (buffer : list Z) (bufferSize : nat) : option (list Z) :=
  match fuel, characters with
  | S fuel, _ :: _ =>
      let c := convertUTF16ToUTF8 characters buffer bufferSize true in
      match cv_result c with
      | targetExhausted => None
      | conversionOK => utf8Replacing fuel (cv_source c) (cv_target c) bufferSize
      | _ =>
          match cv_source c with
          | ch :: rest =>
              if negb (inRange ch 0xD800 0xDFFF) then None
              else if (bufferSize <? length (cv_target c) + 3)%nat then None
              else buffer ← putUTF8Triple (cv_target c) replacementCharacter;
                   utf8Replacing fuel rest buffer bufferSize
          | [] => None
          end
      end
  | O, _ :: _ => None
  | _, [] => Some buffer
  end.

(** [Some None] is the return value [false]. *)
Definition utf8Impl (characters : list UChar) (bufferSize : nat) (mode : ConversionMode) : option (option (list Z)) :=
  match mode with
  | StrictConversionReplacingUnpairedSurrogatesWithFFFD =>
      buffer ← utf8Replacing (S (length characters)) characters [] bufferSize; Some (Some buffer)
  | _ =>
      let strict := match mode with StrictConversion => true | _ => false end in
      let c := convertUTF16ToUTF8 characters [] bufferSize strict in
      match cv_result c with
      | conversionOK => Some (Some (cv_target c))
      | targetExhausted => None
      | sourceIllegal => if strict then Some None else None
      | sourceExhausted =>
          if strict then Some None
          else
            match cv_source c with
            | [ch] =>
                if negb (inRange ch 0xD800 0xDBFF) then None
                else if (bufferSize <? 3)%nat then None
                else buffer ← putUTF8Triple (cv_target c) ch; Some (Some buffer)
            | _ => None
            end
      end
  end.

(** A string of 8 or 16 bit characters.  [Some None] is the null [CString]. *)
Definition utf8 (is8Bit : bool) (characters : list UChar) (mode : ConversionMode) : option (option (list Z)) :=
  let length := length characters in
  if (length =? 0)%nat then Some (Some [])
  else if Z.of_nat length >? (2 ^ 32 - 1) / 3 then Some None
  else if is8Bit then
    let c := convertLatin1ToUTF8 characters (length * 3) in
    match cv_result c with
    | targetExhausted => None
    | _ => Some (Some (cv_target c))
    end
  else utf8Impl characters (length * 3) mode.
