(* ===== verification/UnicodeUTF8Spec.v ===== *)
(** * The UTF-8 conversions against the reference decoder

    [String::fromUTF8] accepts exactly the valid UTF-8 and gives the text the
    text codec gives; [StringImpl::utf8] writes the UTF-8 of its characters,
    within its buffer, with unpaired surrogates replaced. *)

From S2P Require Import Prelude TextCodecUTF8 TextCodecUTF8Loops TextCodecUTF8Spec UnicodeUTF8.
Open Scope Z_scope.

(** ** One sequence *)

(** The length the first byte promises, where it is the one of the codec. *)
Lemma sequenceLength_agrees b : 0 <= b < 256 ->
  (b < 128 /\ inlineUTF8SequenceLength b = 1%nat) \/
  (128 <= b < 192 /\ inlineUTF8SequenceLength b = 0%nat) \/
  (192 <= b < 245 /\ inlineUTF8SequenceLength b = nonASCIISequenceLength b /\ (2 <= nonASCIISequenceLength b <= 4)%nat) \/
  (245 <= b /\ inlineUTF8SequenceLength b = 4%nat) \/ (248 <= b /\ inlineUTF8SequenceLength b = 0%nat).
Proof.
  intros Hb. apply (byte_check (fun b => bool_decide (
    (b < 128 /\ inlineUTF8SequenceLength b = 1%nat) \/
    (128 <= b < 192 /\ inlineUTF8SequenceLength b = 0%nat) \/
    (192 <= b < 245 /\ inlineUTF8SequenceLength b = nonASCIISequenceLength b /\ (2 <= nonASCIISequenceLength b <= 4)%nat) \/
    (245 <= b /\ inlineUTF8SequenceLength b = 4%nat) \/ (248 <= b /\ inlineUTF8SequenceLength b = 0%nat)))) in Hb;
    [by apply bool_decide_eq_true in Hb|vm_compute; reflexivity].
Qed.

(** Case analysis on the comparisons of the goal, without the impossible
    cases. *)
Ltac split_tests :=
  repeat (match goal with
          | |- context [?a <? ?b] => destruct (Z.ltb_spec a b); try (exfalso; lia)
          | |- context [?a =? ?b] =>
              lazymatch a with
              | context [if _ then _ else _] => fail
              | _ => destruct (Z.eqb_spec a b); try (exfalso; lia)
              end
          end; cbn [andb orb negb]); try done.

(** The test does not look for a second byte below 80 behind ED and F4. *)
Definition careful (b0 b1 : Z) : Prop := b0 = 0xED \/ b0 = 0xF4 -> 0x80 <= b1.

(** Apart from that both tests accept the same sequences. *)
Lemma isLegal_decode source n : bytes source -> (n <= length source)%nat ->
  n = nonASCIISequenceLength (at_ source 0) -> (2 <= n <= 4)%nat -> 192 <= at_ source 0 -> careful (at_ source 0) (at_ source 1) ->
  isLegalUTF8 source n = negb (decodeNonASCIISequence source n =? nonCharacter).
Proof.
  intros HB HL HN Hn H0 HC. unfold careful in HC. pose proof (bytes_at source 0 HB ltac:(lia)) as B0. pose proof (bytes_at source 1 HB ltac:(lia)) as B1.
  unfold isLegalUTF8, decodeNonASCIISequence, illegalSecond, outside, nonCharacter. rewrite !Z.geb_leb, !Z.gtb_ltb.
  destruct (sequenceLength_cases _ B0) as [[E R]|[[E R]|[[E R]|[E R]]]]; rewrite <- HN in E; subst n; [lia| | |]; rewrite E;
    cbn [Nat.eqb Nat.ltb Nat.leb orb andb]; rewrite !Z.leb_antisym.
  - rewrite Z.shiftl_mul_pow2 by lia. split_tests.
  - pose proof (bytes_at source 2 HB ltac:(lia)) as B2. rewrite !Z.shiftl_mul_pow2 by lia. split_tests.
  - pose proof (bytes_at source 2 HB ltac:(lia)) as B2. pose proof (bytes_at source 3 HB ltac:(lia)) as B3.
    rewrite !Z.shiftl_mul_pow2 by lia. split_tests.
Qed.

Lemma at_drop source n i : at_ (drop n source) i = at_ source (n + i).
Proof.
  unfold at_. revert source. induction n as [|n IH]; intros source; [by rewrite drop_0|].
  destruct source as [|b source]; [by destruct i|]. apply IH.
Qed.

(** Removes the reductions of values that are in range, inside out. *)
Ltac in_int32 :=
  repeat match goal with
  | |- context [int32 ?x] =>
      lazymatch x with
      | context [int32 _] => fail
      | _ => rewrite (int32_id x) by lia
      end
  end.

(** The character is read as the codec reads it; nothing overflows. *)
Lemma readUTF8_value source n : bytes source -> (n <= length source)%nat -> (2 <= n <= 4)%nat ->
  readUTF8Sequence source n =
    if (n =? 2)%nat then Z.shiftl (at_ source 0) 6 + at_ source 1 - 0x3080
    else if (n =? 3)%nat then Z.shiftl (at_ source 0) 12 + Z.shiftl (at_ source 1) 6 + at_ source 2 - 0xE2080
    else Z.shiftl (at_ source 0) 18 + Z.shiftl (at_ source 1) 12 + Z.shiftl (at_ source 2) 6 + at_ source 3 - 0x3C82080.
Proof.
  intros HB HL Hn. pose proof (bytes_at source 0 HB ltac:(lia)) as B0. pose proof (bytes_at source 1 HB ltac:(lia)) as B1.
  unfold readUTF8Sequence. assert (Hc : n = 2%nat \/ n = 3%nat \/ n = 4%nat) by lia. destruct Hc as [-> |[-> | ->]];
    cbn [readBytes Nat.eqb Nat.sub nth offsetsFromUTF8]; rewrite ?at_drop; cbn [Nat.add]; rewrite !Z.shiftl_mul_pow2 by lia.
  - in_int32. lia.
  - pose proof (bytes_at source 2 HB ltac:(lia)) as B2. in_int32. lia.
  - pose proof (bytes_at source 2 HB ltac:(lia)) as B2. pose proof (bytes_at source 3 HB ltac:(lia)) as B3. in_int32. lia.
Qed.

Lemma readUTF8_decode source n : bytes source -> (n <= length source)%nat -> (2 <= n <= 4)%nat ->
  decodeNonASCIISequence source n <> nonCharacter -> readUTF8Sequence source n = decodeNonASCIISequence source n.
Proof.
  intros HB HL Hn HD. rewrite readUTF8_value by done. revert HD. unfold decodeNonASCIISequence.
  assert (Hc : n = 2%nat \/ n = 3%nat \/ n = 4%nat) by lia. destruct Hc as [-> |[-> | ->]]; cbn [Nat.eqb]; by repeat case_match.
Qed.

(** ** Surrogates *)

Lemma surrogate_iff c : 0 <= c < 2 ^ 16 -> U_IS_SURROGATE c = (0xD800 <=? c) && (c <? 0xE000).
Proof.
  intros Hc. unfold U_IS_SURROGATE.
  assert (E : Z.land c 0xfffff800 = c / 2048 * 2048).
  { assert (EL : Z.land c 0xfffff800 = Z.ldiff c (Z.ones 11)).
    { rewrite <- (Z.mod_small c (2 ^ 32)) by lia. rewrite <- Z.land_ones by lia. apply Z.bits_inj'. intros i Hi.
      rewrite Z.ldiff_spec, !Z.land_spec, <- !andb_assoc. f_equal. change 0xfffff800 with (Z.ldiff (Z.ones 32) (Z.ones 11)).
      rewrite Z.ldiff_spec. destruct (Z.testbit (Z.ones 32) i); done. }
    rewrite EL, Z.ldiff_ones_r, Z.shiftr_div_pow2, Z.shiftl_mul_pow2 by lia. done. }
  rewrite E. destruct (Z.eqb_spec (c / 2048 * 2048) 0xd800), (Z.leb_spec 0xD800 c), (Z.ltb_spec c 0xE000); cbn [andb]; try done; exfalso; div_lia.
Qed.

Lemma bmp_iff c : 0 <= c < 2 ^ 32 -> U_IS_BMP c = (c <? 0x10000).
Proof. intros Hc. unfold U_IS_BMP, uint32. rewrite Z.mod_small by lia. destruct (Z.leb_spec c 65535), (Z.ltb_spec c 0x10000); done || lia. Qed.

Lemma supplementary_iff c : 0x10000 <= c < 0x110000 -> U_IS_SUPPLEMENTARY c = true.
Proof. intros Hc. unfold U_IS_SUPPLEMENTARY, uint32. rewrite Z.mod_small by lia. apply Z.leb_le. lia. Qed.

(** ** The loop of [convertUTF8ToUTF16] *)

Lemma isLegal_ascii b rest : 0 <= b < 128 -> isLegalUTF8 (b :: rest) 1 = true /\ readUTF8Sequence (b :: rest) 1 = b.
Proof.
  intros Hb. unfold isLegalUTF8, readUTF8Sequence, at_. cbn [nth Nat.eqb Nat.ltb Nat.leb orb andb readBytes Nat.sub offsetsFromUTF8].
  unfold at_. cbn [nth]. in_int32. rewrite Z.geb_leb, Z.gtb_ltb, (proj2 (Z.leb_gt _ _)), (proj2 (Z.ltb_ge 0xF4 b)) by lia. split; [done|lia].
Qed.

(** What the loop writes for a scalar value. *)
Lemma loop_writes fuel capacity b rest target x n c :
  inlineUTF8SequenceLength b = n -> (n <= length (b :: rest))%nat -> isLegalUTF8 (b :: rest) n = true ->
  readUTF8Sequence (b :: rest) n = c -> scalar c -> (length target + length (appendCharacter c) <= capacity)%nat ->
  exists x', utf8ToUTF16Loop (S fuel) capacity true (b :: rest) target x =
    utf8ToUTF16Loop fuel capacity true (drop n (b :: rest)) (target ++ appendCharacter c) x'.
Proof.
  intros EN HL EL ER HS HC. cbn [utf8ToUTF16Loop]. rewrite EN, EL, ER, (proj2 (Nat.ltb_ge _ _)) by done. cbn [negb].
  unfold scalar in HS. unfold appendCharacter in *. rewrite bmp_iff in * by lia.
  destruct (Z.ltb_spec c 0x10000) as [HB|HB]; cbn [length] in HC; rewrite (proj2 (Nat.leb_gt _ _)) by lia.
  - rewrite surrogate_iff by lia. destruct (Z.leb_spec 0xD800 c), (Z.ltb_spec c 0xE000); try lia; cbn [andb]; by eexists.
  - rewrite supplementary_iff by lia. rewrite (proj2 (Nat.leb_gt _ _)) by lia. by eexists.
Qed.

Lemma decode_careful source : bytes source -> let n := nonASCIISequenceLength (at_ source 0) in
  (2 <= n <= length source)%nat -> decodeNonASCIISequence source n <> nonCharacter ->
  192 <= at_ source 0 /\ careful (at_ source 0) (at_ source 1).
Proof.
  intros HB n Hn. pose proof (bytes_at source 0 HB ltac:(lia)) as B0. unfold careful, decodeNonASCIISequence, outside. subst n.
  destruct (sequenceLength_cases _ B0) as [[E R]|[[E R]|[[E R]|[E R]]]]; rewrite E; cbn [Nat.eqb]; [lia| | |].
  - destruct (Z.ltb_spec (at_ source 0) 194); [done|]. intros _. lia.
  - intros HD. split; [lia|]. intros [H|H]; [|lia]. rewrite H in HD. cbn in HD. destruct (Z.ltb_spec (at_ source 1) 128); [done|lia].
  - intros HD. split; [lia|]. intros [H|H]; [lia|]. rewrite H in HD. cbn in HD. destruct (Z.ltb_spec (at_ source 1) 128); [done|lia].
Qed.

(** A valid sequence is converted. *)
Lemma loop_valid fuel capacity source target x o k :
  bytes source -> nextSequence source = Some (o, k, false) -> (length target + length source <= capacity)%nat ->
  exists x', utf8ToUTF16Loop (S fuel) capacity true source target x =
    utf8ToUTF16Loop fuel capacity true (drop k source) (target ++ o) x'.
Proof.
  intros HB HN HC. destruct (nextSequence_some _ _ _ _ HN HB) as [Hk Ho]. destruct source as [|b rest]; [done|].
  assert (Hb : 0 <= b < 256) by by inversion HB. cbn [nextSequence] in HN. rewrite isASCII_ltb in HN by done.
  destruct (Z.ltb_spec b 128) as [Ha|Ha].
  - injection HN as <- <-. destruct (isLegal_ascii b rest ltac:(lia)) as [EL ER].
    assert (EA : appendCharacter b = [b]) by (unfold appendCharacter; rewrite bmp_iff, (proj2 (Z.ltb_lt _ _)), Z.mod_small by lia; done).
    rewrite <- EA. eapply loop_writes; [|simpl; lia|exact EL|exact ER|unfold scalar; lia|rewrite EA; cbn [length] in *; lia].
    destruct (sequenceLength_agrees b Hb) as [[_ E]|[|[|[|]]]]; done || lia.
  - set (count := nonASCIISequenceLength b) in *. destruct (Nat.eqb_spec count 0); [done|].
    destruct (Nat.ltb_spec (length (b :: rest)) count) as [|HL]; [done|].
    destruct (Z.eqb_spec (decodeNonASCIISequence (b :: rest) count) nonCharacter) as [|HD]; [done|]. injection HN as <- <-.
    assert (H2 : (2 <= count <= 4)%nat) by (destruct (sequenceLength_cases b Hb) as [[E _]|[[E _]|[[E _]|[E _]]]]; subst count; lia).
    assert (H3 : (2 <= nonASCIISequenceLength (at_ (b :: rest) 0) <= length (b :: rest))%nat)
      by (change (at_ (b :: rest) 0) with b; fold count; lia).
    destruct (decode_careful (b :: rest) HB H3 HD) as [Hc1 Hc2].
    destruct (decodeNonASCIISequence_range (b :: rest) HB H3) as [|[HR HR2]]; [done|].
    change (at_ (b :: rest) 0) with b in *. fold count in HR, HR2.
    eapply loop_writes; [|done| | |unfold scalar; lia|lia].
    + unfold count in *. destruct (sequenceLength_agrees b Hb) as [?|[?|[?|[?|?]]]];
        destruct (sequenceLength_cases b Hb) as [?|[?|[?|?]]]; lia.
    + rewrite isLegal_decode by done. by rewrite (proj2 (Z.eqb_neq _ _) HD).
    + by apply readUTF8_decode.
Qed.

(** An invalid one is not, unless it is one of those the test lets through. *)
Definition carefulText (bs : list Z) : Prop := forall i, (S i < length bs)%nat -> careful (at_ bs i) (at_ bs (S i)).

Lemma carefulText_drop bs k : carefulText bs -> carefulText (drop k bs).
Proof.
  intros HC i Hi. rewrite length_drop in Hi. rewrite !at_drop. replace (k + S i)%nat with (S (k + i)) by lia. apply HC. lia.
Qed.

Lemma isLegal_none source : isLegalUTF8 source 0 = false.
Proof. done. Qed.

Lemma isLegal_high source n : 244 < at_ source 0 -> isLegalUTF8 source n = false.
Proof. intros H. unfold isLegalUTF8. rewrite (Z.gtb_ltb (at_ source 0)), (proj2 (Z.ltb_lt 0xF4 _) H). cbn [negb]. by repeat case_match. Qed.

Lemma loop_invalid fuel capacity b rest target x :
  bytes (b :: rest) -> carefulText (b :: rest) -> (forall o k, nextSequence (b :: rest) <> Some (o, k, false)) ->
  cv_result (utf8ToUTF16Loop (S fuel) capacity true (b :: rest) target x) <> conversionOK.
Proof.
  intros HB HC HN. assert (Hb : 0 <= b < 256) by by inversion HB. cbn [utf8ToUTF16Loop].
  set (n := inlineUTF8SequenceLength b).
  destruct (Nat.ltb_spec (length (b :: rest)) n) as [|HL]; [done|].
  assert (EL : isLegalUTF8 (b :: rest) n = false).
  { unfold n in *. destruct (sequenceLength_agrees b Hb) as [[Ha _]|[[_ ->]|[(Ha & E & Hn)|[[Ha _]|[Ha _]]]]];
      [|done| |apply isLegal_high; change (at_ (b :: rest) 0) with b; lia..].
    - exfalso. apply (HN [b] 1%nat). cbn [nextSequence]. by rewrite isASCII_ltb, (proj2 (Z.ltb_lt _ _)).
    - rewrite E in *. rewrite isLegal_decode; [|done|done|done|done|apply Ha|apply HC; simpl in *; lia].
      apply negb_false_iff. destruct (_ =? nonCharacter) eqn:ED; [done|]. exfalso.
      apply (HN (appendCharacter (decodeNonASCIISequence (b :: rest) (nonASCIISequenceLength b))) (nonASCIISequenceLength b)).
      cbn [nextSequence]. rewrite isASCII_ltb, (proj2 (Z.ltb_ge _ _)), (proj2 (Nat.eqb_neq _ _)), (proj2 (Nat.ltb_ge _ _)), ED by (done || lia). done. }
  rewrite EL. done.
Qed.

(** ** [convertUTF8ToUTF16] *)

Lemma loop_decodes fuel capacity source target x :
  bytes source -> (length source <= fuel)%nat -> (length target + length source <= capacity)%nat -> snd (decodeAll source) = false ->
  exists x', utf8ToUTF16Loop fuel capacity true source target x = mkConversion conversionOK [] (target ++ fst (decodeAll source)) x'.
Proof.
  revert source target x. induction fuel as [|fuel IH]; intros source target x HB HF HC HE.
  { destruct source; [|simpl in HF; lia]. exists x. cbn. by rewrite app_nil_r. }
  destruct source as [|b rest]; [exists x; cbn; by rewrite app_nil_r|].
  destruct (nextSequence (b :: rest)) as [[[o k] e]|] eqn:EN; [|by rewrite decodeAll_incomplete in HE].
  destruct (nextSequence_some _ _ _ _ EN HB) as [Hk Ho]. rewrite (decodeAll_next _ _ _ _ HB EN) in HE |- *. cbn [andThen fst snd] in *.
  apply orb_false_iff in HE as [-> HE]. destruct (loop_valid fuel capacity _ target x _ _ HB EN HC) as (x' & ->).
  destruct (IH (drop k (b :: rest)) (target ++ o) x') as (x2 & ->); [by apply Forall_drop|rewrite length_drop; lia|rewrite length_drop, length_app; lia|done|].
  exists x2. by rewrite <- app_assoc.
Qed.

Lemma loop_rejects fuel capacity source target x :
  bytes source -> carefulText source -> (length source <= fuel)%nat -> (length target + length source <= capacity)%nat ->
  snd (decodeAll source) = true -> cv_result (utf8ToUTF16Loop fuel capacity true source target x) <> conversionOK.
Proof.
  revert source target x. induction fuel as [|fuel IH]; intros source target x HB HT HF HC HE.
  { destruct source; [done|simpl in HF; lia]. }
  destruct source as [|b rest]; [done|].
  destruct (nextSequence (b :: rest)) as [[[o k] [|]]|] eqn:EN;
    [apply loop_invalid; try done; by rewrite EN| |apply loop_invalid; try done; by rewrite EN].
  destruct (nextSequence_some _ _ _ _ EN HB) as [Hk Ho]. rewrite (decodeAll_next _ _ _ _ HB EN) in HE. cbn [andThen snd orb] in HE.
  destruct (loop_valid fuel capacity _ target x _ _ HB EN HC) as (x' & ->).
  apply IH; [by apply Forall_drop|by apply carefulText_drop|rewrite length_drop; lia|rewrite length_drop, length_app; lia|done].
Qed.

(** The text is shorter than the bytes unless these are ASCII. *)
Lemma legal2_bmp source : bytes source -> (2 <= length source)%nat -> 192 <= at_ source 0 < 224 -> isLegalUTF8 source 2 = true ->
  U_IS_BMP (readUTF8Sequence source 2) = true.
Proof.
  intros HB HL H0 HLe. pose proof (bytes_at source 1 HB ltac:(lia)) as B1. rewrite readUTF8_value by (done || lia). cbn [Nat.eqb].
  assert (H2 : 194 <= at_ source 0).
  { destruct (Z.le_gt_cases 194 (at_ source 0)) as [|Hlt]; [done|]. exfalso. revert HLe. unfold isLegalUTF8.
    cbn [Nat.eqb Nat.ltb Nat.leb orb andb]. rewrite !Z.geb_leb, (proj2 (Z.leb_le 0x80 _)), (proj2 (Z.ltb_lt _ 0xC2)) by lia.
    by destruct (_ || _). }
  rewrite Z.shiftl_mul_pow2, bmp_iff by lia. apply Z.ltb_lt. lia.
Qed.

Lemma loop_size fuel capacity source target x :
  bytes source -> (length source <= fuel)%nat ->
  let c := utf8ToUTF16Loop fuel capacity true source target x in
  cv_result c = conversionOK ->
  (length (cv_target c) <= length target + length source)%nat /\
  (length (cv_target c) = length target + length source -> Forall (fun b => isASCII b = true) source)%nat.
Proof.
  cbv zeta. revert source target x. induction fuel as [|fuel IH]; intros source target x HB HF HR.
  { destruct source; [|simpl in HF; lia]. simpl. split; [lia|constructor]. }
  destruct source as [|b rest]; [simpl; split; [lia|constructor]|].
  assert (Hb : 0 <= b < 256) by by inversion HB. revert HR. cbn [utf8ToUTF16Loop]. set (n := inlineUTF8SequenceLength b).
  destruct (Nat.ltb_spec (length (b :: rest)) n) as [|HL]; [done|]. destruct (isLegalUTF8 (b :: rest) n) eqn:EL; [|done]. cbn [negb].
  destruct (capacity <=? length target)%nat; [done|]. set (c := readUTF8Sequence (b :: rest) n).
  assert (Hgo : forall o x', (length o <= 2)%nat -> (n = 2%nat -> length o = 1%nat) -> (n = 1%nat -> length o = 1%nat) ->
    cv_result (utf8ToUTF16Loop fuel capacity true (drop n (b :: rest)) (target ++ o) x') = conversionOK ->
    let c := utf8ToUTF16Loop fuel capacity true (drop n (b :: rest)) (target ++ o) x' in
    (length (cv_target c) <= length target + length (b :: rest))%nat /\
    (length (cv_target c) = length target + length (b :: rest) -> Forall (fun b => isASCII b = true) (b :: rest))%nat).
  { intros o x' Ho H2 H1 HR. assert (Hn : (1 <= n)%nat) by (destruct n; [done|lia]).
    destruct (IH (drop n (b :: rest)) (target ++ o) x') as [L1 L2]; [by apply Forall_drop|rewrite length_drop; simpl in *; lia|done|].
    rewrite length_app, length_drop in L1, L2. cbv zeta. split; [lia|]. intros EQ.
    assert (En : n = 1%nat) by lia. rewrite En in *. cbn [drop] in *. rewrite drop_0 in *. constructor; [|apply L2; lia].
    rewrite isASCII_ltb by done. apply Z.ltb_lt. unfold n in En.
    destruct (sequenceLength_agrees b Hb) as [?|[?|[?|[?|?]]]]; lia. }
  assert (H12 : n = 2%nat \/ n = 1%nat -> U_IS_BMP c = true).
  { intros [En|En]; unfold c; rewrite En in *.
    - apply legal2_bmp; [done|done| |done]. change (at_ (b :: rest) 0) with b. unfold n in En.
      destruct (sequenceLength_agrees b Hb) as [?|[?|[?|[?|?]]]]; try lia. destruct (sequenceLength_cases b Hb) as [?|[?|[?|?]]]; lia.
    - unfold n in En. destruct (isLegal_ascii b rest) as [_ ->]; [destruct (sequenceLength_agrees b Hb) as [?|[?|[?|[?|?]]]]; lia|].
      rewrite bmp_iff by lia. apply Z.ltb_lt. lia. }
  destruct (U_IS_BMP c) eqn:EB; [destruct (U_IS_SURROGATE c); [done|apply Hgo; simpl; lia]|].
  destruct (U_IS_SUPPLEMENTARY c); [|done]. destruct (_ <=? _)%nat; [done|].
  apply Hgo; [simpl; lia| |]; intros En; exfalso; by discriminate (H12 ltac:(auto)).
Qed.

(** ** [charactersAreAllASCII] *)

Definition noHighBits (bits : Z) : Prop := Z.land bits NonASCIIMask = 0.

Lemma noHighBits_lor a b : noHighBits (Z.lor a b) <-> noHighBits a /\ noHighBits b.
Proof. unfold noHighBits. rewrite Z.land_lor_distr_l. apply Z.lor_eq_0_iff. Qed.

Lemma noHighBits_byte b : 0 <= b < 256 -> noHighBits b <-> isASCII b = true.
Proof.
  intros Hb. apply (byte_check (fun b => Bool.eqb (Z.land b NonASCIIMask =? 0) (isASCII b)) b ltac:(vm_compute; reflexivity)) in Hb.
  apply eqb_prop in Hb. unfold noHighBits. by rewrite <- Hb, Z.eqb_eq.
Qed.

Definition allASCII (bs : list Z) : Prop := Forall (fun b => isASCII b = true) bs.

Lemma noHighBits_shift w : 0 <= w -> noHighBits w -> w < 2 ^ 56 -> noHighBits (Z.shiftl w 8).
Proof.
  intros Hw HN HB. unfold noHighBits in *. apply Z.bits_inj'. intros i Hi. rewrite Z.land_spec, Z.bits_0.
  destruct (Z.lt_ge_cases i 8) as [L|L]; [by rewrite Z.shiftl_spec_low by lia|]. rewrite Z.shiftl_spec by lia.
  destruct (Z.testbit w (i - 8)) eqn:E; [|done]. cbn [andb].
  assert (Hi8 : i - 8 < 56).
  { destruct (Z.lt_ge_cases (i - 8) 56); [done|]. rewrite Z.bits_above_log2 in E; [done|done|].
    destruct (Z.eq_dec w 0) as [-> |]; [simpl; lia|]. apply Z.lt_le_trans with 56; [|done]. apply Z.log2_lt_pow2; lia. }
  pose proof (f_equal (fun z => Z.testbit z (i - 8)) HN) as HT. cbn beta in HT. rewrite Z.land_spec, Z.bits_0, E in HT. cbn [andb] in HT.
  assert (HF : forallb (fun n => implb (Z.testbit NonASCIIMask (Z.of_nat n + 8)) (Z.testbit NonASCIIMask (Z.of_nat n))) (seq 0 56) = true)
    by (vm_compute; reflexivity).
  rewrite forallb_forall in HF. specialize (HF (Z.to_nat (i - 8))). rewrite in_seq, Z2Nat.id, Z.sub_add in HF by lia.
  specialize (HF ltac:(lia)). rewrite HT in HF. by destruct (Z.testbit NonASCIIMask i).
Qed.

Lemma loadWord_range bs : bytes bs -> 0 <= loadWord bs < 2 ^ (8 * Z.of_nat (length bs)).
Proof.
  intros HB. induction HB as [|b bs Hb HB IH]; [simpl; lia|]. cbn [loadWord length].
  rewrite Nat2Z.inj_succ. replace (8 * Z.succ (Z.of_nat (length bs))) with (8 + 8 * Z.of_nat (length bs)) by lia.
  rewrite Z.pow_add_r, Z.shiftl_mul_pow2 by lia. rewrite lor_disjoint by lia. nia.
Qed.

(** A word is clear exactly if its bytes are. *)
Lemma noHighBits_word bs : bytes bs -> (length bs <= machineWordSize)%nat -> noHighBits (loadWord bs) <-> allASCII bs.
Proof.
  intros HB HL. split; [intros HN; apply isAllASCII_ascii; [done|done|]; by apply Z.eqb_eq|]. intros HA. revert HL.
  induction HB as [|b bs Hb HB IH]; intros HL; [done|]. inversion HA; subst. cbn [loadWord length] in *. apply noHighBits_lor.
  pose proof (loadWord_range bs HB) as HR. split; [by apply noHighBits_byte|]. apply noHighBits_shift; [lia|apply IH; done || lia|].
  eapply Z.lt_le_trans; [apply HR|]. apply Z.pow_le_mono_r; [lia|]. unfold machineWordSize in HL. lia.
Qed.

Lemma orBytesUnaligned_spec address cs bits bits' address' rest :
  bytes cs -> orBytesUnaligned address cs bits = (bits', address', rest) ->
  exists read, cs = read ++ rest /\ (noHighBits bits' <-> noHighBits bits /\ allASCII read).
Proof.
  intros HB. revert address bits. induction HB as [|c cs Hc HB IH]; intros address bits; cbn [orBytesUnaligned].
  { intros [= <- <- <-]. exists []. split; [done|]. split; [intros; split; [done|constructor]|by intros []]. }
  destruct (isAlignedToMachineWord address).
  { intros [= <- <- <-]. exists []. split; [done|]. split; [intros; split; [done|constructor]|by intros []]. }
  intros E. destruct (IH _ _ E) as (read & -> & HI). exists (c :: read). split; [done|]. rewrite HI, noHighBits_lor, (noHighBits_byte c) by done.
  unfold allASCII. rewrite Forall_cons. tauto.
Qed.

Lemma orWords_spec fuel wordEnd address cs bits bits' rest :
  bytes cs -> orWords fuel wordEnd address cs bits = (bits', rest) ->
  exists read, cs = read ++ rest /\ (noHighBits bits' <-> noHighBits bits /\ allASCII read).
Proof.
  revert address cs bits. induction fuel as [|fuel IH]; intros address cs bits HB; cbn [orWords].
  { intros [= <- <-]. exists []. split; [done|]. split; [intros; split; [done|constructor]|by intros []]. }
  destruct (address <? wordEnd).
  - intros E. destruct (IH _ _ _ (Forall_drop _ _ _ HB) E) as (read & ED & HI). exists (take machineWordSize cs ++ read).
    split; [by rewrite <- app_assoc, <- ED, take_drop|].
    rewrite HI, noHighBits_lor, (noHighBits_word (take _ _)); [|by apply Forall_take|rewrite length_take; lia]. unfold allASCII. rewrite Forall_app. tauto.
  - intros [= <- <-]. exists []. split; [done|]. split; [intros; split; [done|constructor]|by intros []].
Qed.

Lemma orRest_spec cs bits : bytes cs -> noHighBits (fold_left Z.lor cs bits) <-> noHighBits bits /\ allASCII cs.
Proof.
  intros HB. revert bits. induction HB as [|c cs Hc HB IH]; intros bits; cbn [fold_left].
  - split; [intros; split; [done|constructor]|by intros []].
  - rewrite IH, noHighBits_lor, (noHighBits_byte c) by done. unfold allASCII. rewrite Forall_cons. tauto.
Qed.

Lemma charactersAreAllASCII_spec address cs : bytes cs -> charactersAreAllASCII address cs = true <-> allASCII cs.
Proof.
  intros HB. unfold charactersAreAllASCII. destruct (orBytesUnaligned address cs 0) as [[b1 a1] c1] eqn:E1.
  destruct (orBytesUnaligned_spec _ _ _ _ _ _ HB E1) as (r1 & -> & H1). apply Forall_app in HB as [HB1 HB].
  destruct (orWords _ _ a1 c1 b1) as [b2 c2] eqn:E2. destruct (orWords_spec _ _ _ _ _ _ _ HB E2) as (r2 & -> & H2). apply Forall_app in HB as [HB2 HB3].
  rewrite Z.eqb_eq. fold (noHighBits (fold_left Z.lor c2 b2)). rewrite orRest_spec, H2, H1 by done. unfold allASCII.
  rewrite !Forall_app. split; [tauto|]. intros (? & ? & ?). split_and!; try done.
Qed.

Lemma decodeAll_ascii bs : bytes bs -> allASCII bs -> decodeAll bs = (bs, false).
Proof.
  intros HB HA. induction HA as [|b bs Hb HA IH]; [done|].
  rewrite (decodeAll_next (b :: bs) [b] 1 false); [|done|cbn [nextSequence]; by rewrite Hb].
  cbn [drop]. rewrite drop_0, IH by by inversion HB. done.
Qed.

(** ** [String::fromUTF8] *)

(** The length of a string is an [unsigned]. *)
Definition stringSize (bs : list Z) : Prop := Z.of_nat (length bs) < 2 ^ 32.

Lemma fromUTF8_cases address bs : bytes bs -> stringSize bs ->
  let c := convertUTF8ToUTF16 bs (length bs) true in
  fromUTF8 address bs = if bool_decide (allASCII bs) then Some (Some bs)
    else match cv_result c with conversionOK => Some (Some (cv_target c)) | _ => Some None end.
Proof.
  intros HB HS. cbv zeta. unfold stringSize in HS. unfold fromUTF8. rewrite Z.gtb_ltb, (proj2 (Z.ltb_ge _ _)) by lia.
  pose proof (charactersAreAllASCII_spec address bs HB) as HA.
  destruct (Nat.eqb_spec (length bs) 0) as [E%nil_length_inv|E].
  { subst bs. by rewrite bool_decide_true by constructor. }
  case_bool_decide as HD; [by rewrite (proj2 HA HD)|].
  destruct (charactersAreAllASCII address bs); [by destruct (HD (proj1 HA eq_refl))|].
  destruct (cv_result _) eqn:ER; try done.
  destruct (loop_size (length bs) (length bs) bs [] 0 HB (le_n _) ER) as [L1 L2]. cbn [length Nat.add] in L1, L2.
  fold (convertUTF8ToUTF16 bs (length bs) true) in L1, L2. rewrite (proj2 (Nat.ltb_lt _ _)); [done|].
  assert (length (cv_target (convertUTF8ToUTF16 bs (length bs) true)) <> length bs) by (intros EE; by apply HD, L2). lia.
Qed.

Lemma fromUTF8_valid address bs : bytes bs -> stringSize bs -> snd (decodeAll bs) = false ->
  fromUTF8 address bs = Some (Some (fst (decodeAll bs))).
Proof.
  intros HB HS HE. rewrite fromUTF8_cases by done. case_bool_decide as HD; [by rewrite decodeAll_ascii|].
  destruct (loop_decodes (length bs) (length bs) bs [] 0 HB) as (x & E); [lia|simpl; lia|done|].
  unfold convertUTF8ToUTF16. by rewrite E.
Qed.

Lemma fromUTF8_invalid address bs : bytes bs -> stringSize bs -> carefulText bs -> snd (decodeAll bs) = true ->
  fromUTF8 address bs = Some None.
Proof.
  intros HB HS HC HE. rewrite fromUTF8_cases by done. case_bool_decide as HD; [by rewrite decodeAll_ascii in HE|].
  pose proof (loop_rejects (length bs) (length bs) bs [] 0 HB HC (le_n _) ltac:(simpl; lia) HE) as HR.
  unfold convertUTF8ToUTF16. by destruct (cv_result _).
Qed.

(** [String::fromUTF8] and the text codec agree.  For any bytes at any
    alignment no assertion fails; valid UTF-8 gives the text of the reference
    decoder of [TextCodecUTF8]; and invalid UTF-8 gives the null string,
    unless it has a byte ED or F4 in front of a byte below 80. *)
Theorem fromUTF8_agrees_with_codec (address : Z) (bs : list Z) :
  bytes bs -> stringSize bs ->
  fromUTF8 address bs <> None /\
  (snd (decodeAll bs) = false -> fromUTF8 address bs = Some (Some (fst (decodeAll bs)))) /\
  (snd (decodeAll bs) = true -> carefulText bs -> fromUTF8 address bs = Some None).
Proof.
  intros HB HS. split_and!; [|by apply fromUTF8_valid|intros; by apply fromUTF8_invalid].
  rewrite fromUTF8_cases by done. by repeat case_match.
Qed.

Lemma fromUTF8_agrees_with_codec_witness : fromUTF8 5 [0x41; 0xF0; 0x9F; 0x98; 0x80] = Some (Some [0x41; 0xD83D; 0xDE00]).
Proof.
  destruct (fromUTF8_agrees_with_codec 5 [0x41; 0xF0; 0x9F; 0x98; 0x80]) as (_ & H & _);
    [repeat constructor; lia|vm_compute; reflexivity|]. apply H. vm_compute. reflexivity.
Defined.

(** [fromUTF8] accepts some invalid UTF-8.  [isLegalUTF8] does not test the
    second byte of a sequence against 80 when the first one is ED or F4: the
    bytes ED 3C 80, an error followed by "<" and another error, become the
    one character U+BF00. *)
Theorem fromUTF8_accepts_invalid :
  fromUTF8 0 [0xED; 0x3C; 0x80] = Some (Some [0xBF00]) /\ decodeAll [0xED; 0x3C; 0x80] = ([0xFFFD; 0x3C; 0xFFFD], true) /\
  fromUTF8 0 [0xF4; 0x3C; 0x80; 0x80] = Some (Some [0xDAB0; 0xDC00]).
Proof. split_and!; vm_compute; reflexivity. Qed.

(** ** Writing characters *)

Lemma trail_byte ch : Z.land (Z.lor ch 0x80) 0xBF = 128 + ch mod 64.
Proof.
  assert (E : Z.land (Z.lor ch 0x80) 0xBF = Z.lor (Z.land ch 0x3F) 0x80).
  { change 0xBF with (Z.lor 0x3F 0x80). apply Z.bits_inj'. intros i Hi. rewrite !Z.lor_spec, !Z.land_spec, !Z.lor_spec.
    assert (HD : Z.testbit 0x80 i && Z.testbit 0x3F i = false) by (rewrite <- Z.land_spec; apply Z.bits_0).
    by destruct (Z.testbit ch i), (Z.testbit 0x80 i), (Z.testbit 0x3F i). }
  rewrite E, low6. change 0x80 with (1 * 2 ^ 7). rewrite lor_disjoint; [lia|lia|]. pose proof (Z.mod_pos_bound ch 64). lia.
Qed.

Definition writeCharacter (c : UChar32) : list Z :=
  let '(n, ch) := bytesFor c in writeBytes n (nth n firstByteMark 0) ch [].

(** The bytes of a character are the ones of ICU's macro. *)
Lemma writeCharacter_spec c : 0 <= c < 0x110000 -> writeCharacter c = U8_APPEND_UNSAFE c.
Proof.
  intros Hc. destruct (base64_digits c Hc) as (x & y & z & w & Ec & Hy & Hz & Hw & Hx).
  assert (HU := U8_APPEND_bytes x y z w Hy Hz Hw Hx). cbv zeta in HU. rewrite <- Ec in HU. rewrite HU by lia. clear HU.
  assert (E6 : Z.shiftr c 6 = x * 4096 + y * 64 + z) by (rewrite Z.shiftr_div_pow2 by lia; symmetry; apply (Z.div_unique _ _ _ w); lia).
  assert (E12 : Z.shiftr (x * 4096 + y * 64 + z) 6 = x * 64 + y) by (rewrite Z.shiftr_div_pow2 by lia; symmetry; apply (Z.div_unique _ _ _ z); lia).
  assert (E18 : Z.shiftr (x * 64 + y) 6 = x) by (rewrite Z.shiftr_div_pow2 by lia; symmetry; apply (Z.div_unique _ _ _ y); lia).
  assert (M6 : c mod 64 = w) by div_lia. assert (M12 : (x * 4096 + y * 64 + z) mod 64 = z) by div_lia.
  assert (M18 : (x * 64 + y) mod 64 = y) by div_lia.
  unfold writeCharacter, bytesFor. destruct (Z.ltb_spec c 0x80); [|destruct (Z.ltb_spec c 0x800); [|destruct (Z.ltb_spec c 0x10000)]];
    [| | |rewrite (proj2 (Z.ltb_lt c 0x110000)) by lia]; cbn [writeBytes nth firstByteMark];
    rewrite ?trail_byte, ?E6, ?E12, ?E18, ?M6, ?M12, ?M18.
  - rewrite Z.lor_0_r, Z.mod_small by lia. done.
  - change 0xC0 with (3 * 2 ^ 6). rewrite lor_byte by lia. f_equal; lia.
  - change 0xE0 with (7 * 2 ^ 5). rewrite lor_byte by lia. f_equal; lia.
  - change 0xF0 with (15 * 2 ^ 4). rewrite lor_byte by lia. f_equal; lia.
Qed.

Lemma bytesFor_length c : length (writeCharacter c) = fst (bytesFor c).
Proof. unfold writeCharacter, bytesFor. by repeat (destruct (_ <? _)). Qed.

(** The scalar values of UTF-16 text, with U+FFFD for unpaired surrogates. *)
Fixpoint toScalars (u : list UChar) : list Z :=
  match u with
  | [] => []
  | a :: rest =>
      if inRange a 0xD800 0xDBFF then
        match rest with
        | b :: rest' =>
            if inRange b 0xDC00 0xDFFF then Z.shiftl (a - 0xD800) 10 + (b - 0xDC00) + 0x10000 :: toScalars rest'
            else replacementCharacter :: toScalars rest
        | [] => [replacementCharacter]
        end
      else if inRange a 0xDC00 0xDFFF then replacementCharacter :: toScalars rest
      else a :: toScalars rest
  end.

Definition units (u : list UChar) : Prop := Forall (fun c => 0 <= c < 2 ^ 16) u.

(** What [readUTF16] does at the start of a text. *)
Inductive reads (u : list UChar) : ConversionResult + UChar32 * list UChar -> Prop :=
  | Reads_character c rest :
      scalar c -> toScalars u = c :: toScalars rest -> (length rest < length u)%nat ->
      (length (writeCharacter c) + 3 * length rest <= 3 * length u)%nat -> units rest -> reads u (inr (c, rest))
  | Reads_unpaired a rest r :
      u = a :: rest -> inRange a 0xD800 0xDFFF = true -> r = sourceIllegal \/ r = sourceExhausted ->
      toScalars u = replacementCharacter :: toScalars rest -> reads u (inl r).

Lemma inRange_iff c low high : inRange c low high = true <-> low <= c <= high.
Proof. unfold inRange. rewrite andb_true_iff, Z.geb_leb, !Z.leb_le. done. Qed.

Lemma inRange_false c low high : inRange c low high = false <-> c < low \/ high < c.
Proof. unfold inRange. rewrite andb_false_iff, Z.geb_leb, !Z.leb_gt. done. Qed.

Lemma readUTF16_reads u : units u -> u <> [] -> reads u (readUTF16 true u).
Proof.
  intros HU Hne. destruct HU as [|a rest Ha HU]; [done|]. unfold readUTF16.
  destruct (inRange a 0xD800 0xDBFF) eqn:EL.
  - apply inRange_iff in EL as HL. destruct HU as [|b rest Hb HU].
    { eapply Reads_unpaired; [done|apply inRange_iff; lia|by right|]. cbn [toScalars]. by rewrite EL. }
    destruct (inRange b 0xDC00 0xDFFF) eqn:ET.
    + apply inRange_iff in ET as HT. rewrite Z.shiftl_mul_pow2 by lia. set (c := _ + 0x10000).
      constructor; [unfold scalar; lia|cbn [toScalars]; by rewrite EL, ET, Z.shiftl_mul_pow2 by lia|simpl; lia| |done].
      rewrite bytesFor_length. unfold bytesFor. repeat case_match; cbn [fst length]; lia.
    + eapply Reads_unpaired; [done|apply inRange_iff; lia|by left|]. cbn [toScalars]. by rewrite EL, ET.
  - apply inRange_false in EL as HL. cbn [andb]. destruct (inRange a 0xDC00 0xDFFF) eqn:ET.
    + apply inRange_iff in ET as HT. eapply Reads_unpaired; [done|apply inRange_iff; lia|by left|]. cbn [toScalars]. by rewrite EL, ET.
    + apply inRange_false in ET as HT. constructor; [unfold scalar; lia|cbn [toScalars]; by rewrite EL, ET|simpl; lia| |done].
      rewrite bytesFor_length. unfold bytesFor. repeat case_match; bool_hyps; cbn [fst length]; lia.
Qed.

Definition encoded (cs : list Z) : list Z := concat (map U8_APPEND_UNSAFE cs).

Lemma encoded_app cs ds : encoded (cs ++ ds) = encoded cs ++ encoded ds.
Proof. unfold encoded. by rewrite map_app, concat_app. Qed.

(** The conversion stops at the end or at an unpaired surrogate. *)
Inductive converts (u : list UChar) (target : list Z) : Conversion -> Prop :=
  | Converts_all x : converts u target (mkConversion conversionOK [] (target ++ encoded (toScalars u)) x)
  | Converts_up_to cs a rest r x :
      inRange a 0xD800 0xDFFF = true -> r = sourceIllegal \/ r = sourceExhausted -> units rest -> (length rest < length u)%nat ->
      toScalars u = cs ++ replacementCharacter :: toScalars rest ->
      (length (encoded cs) + 3 + 3 * length rest <= 3 * length u)%nat ->
      converts u target (mkConversion r (a :: rest) (target ++ encoded cs) x).

Lemma utf16Loop_converts fuel capacity u target :
  units u -> (length u <= fuel)%nat -> (length target + 3 * length u <= capacity)%nat ->
  converts u target (utf16ToUTF8Loop fuel capacity true u target).
Proof.
  revert u target. induction fuel as [|fuel IH]; intros u target HU HF HC.
  { destruct u; [|simpl in HF; lia]. rewrite <- (app_nil_r target) at 2. constructor. }
  destruct u as [|a u]; [rewrite <- (app_nil_r target) at 2; constructor|]. cbn [utf16ToUTF8Loop].
  destruct (readUTF16_reads (a :: u) HU) as [c rest HS ET HL HW HR|a' rest r EU HA Hr ET]; [done| |].
  - assert (HWc := bytesFor_length c). assert (HWs := writeCharacter_spec c ltac:(unfold scalar in HS; lia)). unfold writeCharacter in *.
    destruct (bytesFor c) as [n ch]. cbn [fst] in HWc. rewrite (proj2 (Nat.ltb_ge _ _)) by lia. rewrite HWs in *.
    destruct (IH rest (target ++ U8_APPEND_UNSAFE c)) as [x|cs b rest' r x H1 H2 H3 H4 H5 H6]; [done|lia|rewrite length_app; lia| |].
    + rewrite <- app_assoc. replace (_ ++ encoded _) with (encoded (toScalars (a :: u))); [constructor|by rewrite ET].
    + rewrite <- app_assoc. change (U8_APPEND_UNSAFE c ++ encoded cs) with (encoded (c :: cs)).
      constructor; try done; [lia|by rewrite ET, H5|]. unfold encoded in *. cbn [map concat]. rewrite length_app. lia.
  - injection EU as <- <-. rewrite <- (app_nil_r target) at 2. change [] with (encoded []). constructor; try done; [by inversion HU|simpl; lia|simpl; lia].
Qed.

Lemma utf8Replacing_spec fuel u buffer size :
  units u -> (length u < fuel)%nat -> (length buffer + 3 * length u <= size)%nat ->
  utf8Replacing fuel u buffer size = Some (buffer ++ encoded (toScalars u)).
Proof.
  revert u buffer. induction fuel as [|fuel IH]; intros u buffer HU HF HC; [lia|].
  destruct u as [|a u]; [cbn; by rewrite app_nil_r|]. cbn [utf8Replacing]. unfold convertUTF16ToUTF8.
  destruct (utf16Loop_converts (length (a :: u)) size (a :: u) buffer HU (le_n _) HC) as [x|cs b rest r x HA Hr HR HL ET HW].
  - cbn [cv_result cv_source cv_target]. destruct fuel; [simpl in HF; lia|done].
  - assert (EN : match r with conversionOK | targetExhausted => False | _ => True end) by (by destruct Hr as [-> | ->]).
    cbn [cv_result cv_source cv_target]. rewrite HA. cbn [negb]. rewrite (proj2 (Nat.ltb_ge _ _)) by (rewrite length_app; cbn [length] in *; lia).
    change (putUTF8Triple ?b replacementCharacter) with (Some (b ++ U8_APPEND_UNSAFE replacementCharacter)). cbn [mbind option_bind].
    rewrite ET, encoded_app. destruct r; try done; (rewrite IH; [unfold encoded; cbn [map concat]; by rewrite <- !app_assoc|done|simpl in *; lia|
      rewrite !length_app; cbn [length] in *; change (length (U8_APPEND_UNSAFE replacementCharacter)) with 3%nat; lia]).
Qed.

Lemma latin1Loop_spec capacity u target : bytes u -> (length target + 3 * length u <= capacity)%nat ->
  latin1ToUTF8Loop capacity u target = mkConversion conversionOK [] (target ++ encoded u) 0.
Proof.
  intros HB. revert target. induction HB as [|c u Hc HB IH]; intros target HC; cbn [latin1ToUTF8Loop].
  { unfold encoded. cbn. by rewrite app_nil_r. }
  pose proof (writeCharacter_spec c ltac:(lia)) as HW. unfold writeCharacter, bytesFor in HW.
  assert (EB : (if c <? 0x80 then (1%nat, c) else if c <? 0x800 then (2%nat, c) else if c <? 0x10000 then (3%nat, c)
    else if c <? 0x110000 then (4%nat, c) else (3%nat, replacementCharacter)) = ((if c <? 0x80 then 1%nat else 2%nat), c)).
  { rewrite (proj2 (Z.ltb_lt c 0x800)) by lia. by destruct (c <? 0x80). }
  rewrite EB in HW. assert (HL := f_equal (@length Z) HW). cbn [length] in HC.
  rewrite (proj2 (Nat.ltb_ge _ _)) by (destruct (c <? 0x80); lia). rewrite HW, IH; [|rewrite length_app, <- HL; destruct (c <? 0x80); cbn [writeBytes length]; lia].
  unfold encoded. cbn [map concat]. by rewrite <- app_assoc.
Qed.

(** ** [StringImpl::utf8] and back *)

(** The characters of a string of either width. *)
Definition stringUnits (is8Bit : bool) (u : list UChar) : Prop := if is8Bit then bytes u else units u.

Lemma toScalars_latin1 u : bytes u -> toScalars u = u.
Proof.
  intros HB. induction HB as [|c u Hc HB IH]; [done|]. cbn [toScalars].
  rewrite (proj2 (inRange_false c 0xD800 0xDBFF)), (proj2 (inRange_false c 0xDC00 0xDFFF)), IH by lia. done.
Qed.

Lemma toScalars_scalar u : units u -> Forall scalar (toScalars u).
Proof.
  intros HU. remember (length u) as n eqn:Hn. revert u HU Hn. induction n as [n IH] using lt_wf_ind. intros u HU ->.
  destruct u as [|a u]; [constructor|].
  destruct (readUTF16_reads (a :: u) HU) as [c rest HS ET HL _ HR|a' rest r EU _ _ ET]; [done| |]; rewrite ET; constructor.
  - done.
  - by apply (IH (length rest)).
  - unfold scalar. lia.
  - injection EU as <- <-. apply (IH (length u)); [simpl; lia|by inversion HU|done].
Qed.

Lemma utf8_spec is8Bit u : stringUnits is8Bit u -> 3 * Z.of_nat (length u) < 2 ^ 32 ->
  utf8 is8Bit u StrictConversionReplacingUnpairedSurrogatesWithFFFD = Some (Some (encoded (toScalars u))).
Proof.
  intros HU HL. unfold utf8. destruct (Nat.eqb_spec (length u) 0) as [E%nil_length_inv|_]; [by subst u|].
  rewrite Z.gtb_ltb, (proj2 (Z.ltb_ge _ _)) by (change ((2 ^ 32 - 1) / 3) with 1431655765; lia). destruct is8Bit; cbn [stringUnits] in HU.
  - unfold convertLatin1ToUTF8. rewrite latin1Loop_spec, toScalars_latin1 by (done || simpl; lia). done.
  - unfold utf8Impl. rewrite utf8Replacing_spec; [done|done|lia|simpl; lia].
Qed.

Lemma encoded_length u : units u -> (length (encoded (toScalars u)) <= 3 * length u)%nat.
Proof.
  intros HU. remember (length u) as n eqn:Hn. revert u HU Hn. induction n as [n IH] using lt_wf_ind. intros u HU ->.
  destruct u as [|a u]; [simpl; lia|].
  destruct (readUTF16_reads (a :: u) HU) as [c rest HS ET HL HW HR|a' rest r EU _ _ ET]; [done| |]; rewrite ET;
    unfold encoded; cbn [map concat]; rewrite length_app.
  - specialize (IH _ HL rest HR eq_refl). unfold encoded in IH. rewrite writeCharacter_spec in HW by (unfold scalar in HS; lia). lia.
  - injection EU as <- <-. assert (HU' : units u) by by inversion HU. specialize (IH (length u) ltac:(simpl; lia) u HU' eq_refl).
    unfold encoded in IH. change (length (U8_APPEND_UNSAFE replacementCharacter)) with 3%nat. simpl. lia.
Qed.

Lemma toScalars_utf16 cs : Forall scalar cs -> toScalars (utf16 cs) = cs.
Proof.
  intros HF. induction HF as [|c cs Hc HF IH]; [done|]. unfold utf16 in *. cbn [map concat]. unfold appendCharacter at 1. unfold scalar in Hc.
  rewrite bmp_iff by lia. destruct (Z.ltb_spec c 0x10000).
  - rewrite Z.mod_small by lia. cbn [app toScalars].
    rewrite (proj2 (inRange_false c 0xD800 0xDBFF)), (proj2 (inRange_false c 0xDC00 0xDFFF)), IH by lia. done.
  - assert (EL : U16_LEAD c = c / 1024 + 0xd7c0).
    { unfold U16_LEAD. rewrite Z.shiftr_div_pow2 by lia. change (2 ^ 10) with 1024. rewrite Z.mod_small; [done|div_lia]. }
    assert (ET : U16_TRAIL c = c mod 1024 + 0xdc00).
    { unfold U16_TRAIL. change 1023 with (2 ^ 10 - 1). rewrite land_low by lia.
      apply (lor_disjoint _ 55 10); [lia|]. apply Z.mod_pos_bound. lia. }
    cbn [app toScalars]. rewrite EL, ET, (proj2 (inRange_iff _ 0xD800 0xDBFF)), (proj2 (inRange_iff _ 0xDC00 0xDFFF)), IH by div_lia.
    f_equal. rewrite Z.shiftl_mul_pow2 by lia. div_lia.
Qed.

(** C36: a string survives its UTF-8.  A string of 8 or 16 bit characters,
    converted to UTF-8 in the mode that replaces unpaired surrogates and read
    back with [fromUTF8] at any alignment, is the text of its scalar values,
    with U+FFFD for unpaired surrogates: the string itself if it has none.
    No assertion fails and the buffer of three bytes per character is large
    enough. *)
Theorem utf8_fromUTF8_roundtrip (is8Bit : bool) (u : list UChar) (address : Z) :
  stringUnits is8Bit u -> 3 * Z.of_nat (length u) < 2 ^ 32 ->
  exists bs, utf8 is8Bit u StrictConversionReplacingUnpairedSurrogatesWithFFFD = Some (Some bs) /\
    (length bs <= 3 * length u)%nat /\ fromUTF8 address bs = Some (Some (utf16 (toScalars u))) /\
    (forall cs, Forall scalar cs -> u = utf16 cs -> utf16 (toScalars u) = u).
Proof.
  intros HS HL. assert (HU : units u) by (destruct is8Bit; [|done]; eapply Forall_impl; [exact HS|]; cbn beta; lia).
  pose proof (encoded_length u HU) as HE. destruct (decodeAll_encoded _ (toScalars_scalar u HU)) as [HB HD].
  fold (encoded (toScalars u)) in HB, HD.
  exists (encoded (toScalars u)). split_and!; [by apply utf8_spec|done| |intros cs HF ->; by rewrite toScalars_utf16].
  rewrite fromUTF8_valid; [by rewrite HD|done|unfold stringSize; lia|by rewrite HD].
Qed.

Lemma utf8_fromUTF8_roundtrip_witness :
  exists bs, utf8 false [0x48; 0xD83D; 0xDE00; 0xDC00] StrictConversionReplacingUnpairedSurrogatesWithFFFD = Some (Some bs) /\
    fromUTF8 3 bs = Some (Some [0x48; 0xD83D; 0xDE00; 0xFFFD]).
Proof.
  destruct (utf8_fromUTF8_roundtrip false [0x48; 0xD83D; 0xDE00; 0xDC00] 3) as (bs & E1 & _ & E2 & _);
    [repeat constructor; lia|vm_compute; reflexivity|]. exists bs. split; [exact E1|exact E2].
Defined.
