(* ===== verification/BitStrings.v ===== *)
(** * Bit strings

    Bytes in memory; the bits of bytes and words, most significant first, and lists
    cut in chunks: what the specifications of base64 and SHA-1 are written with. *)

From S2P Require Import Prelude.
Open Scope Z_scope.

(** ** Bytes in memory *)

Definition isByte (b : Z) : Prop := 0 <= b < 256.

(** [out[i] = v] in a vector or an array of bytes; [None] outside of it. *)
Definition store (i : nat) (v : Z) (out : list Z) : option (list Z) := if (i <? length out)%nat then Some (<[i := v mod 256]> out) else None.

Lemma store_app l v x r : isByte v -> store (length l) v (l ++ x :: r) = Some (l ++ v :: r).
Proof.
  unfold isByte. intros HV. unfold store. rewrite (proj2 (Nat.ltb_lt _ _)) by (rewrite length_app; cbn [length]; lia).
  rewrite insert_app_r_alt, Nat.sub_diag by lia. cbn. by rewrite Z.mod_small.
Qed.

(** ** Numbers and their bits *)

(** The [n] low bits of a number, the most significant one first. *)
Fixpoint toBits (n : nat) (z : Z) : list bool :=
  match n with
  | O => []
  | S n => Z.testbit z (Z.of_nat n) :: toBits n z
  end.

Fixpoint ofBits (l : list bool) : Z :=
  match l with
  | [] => 0
  | b :: l => Z.b2z b * 2 ^ Z.of_nat (length l) + ofBits l
  end.

(** The bits of a sequence of bytes. *)
Definition bitsOf (data : list Z) : list bool := concat (map (toBits 8) data).

Lemma length_toBits n z : length (toBits n z) = n.
Proof. induction n as [|n IH]; cbn [toBits length]; [done|by rewrite IH]. Qed.

Lemma ofBits_bounds l : 0 <= ofBits l < 2 ^ Z.of_nat (length l).
Proof.
  induction l as [|b l IH]; cbn [ofBits length]; [done|]. rewrite Nat2Z.inj_succ, Z.pow_succ_r by lia.
  destruct b; cbn [Z.b2z]; lia.
Qed.

Lemma ofBits_app l r : ofBits (l ++ r) = ofBits l * 2 ^ Z.of_nat (length r) + ofBits r.
Proof.
  induction l as [|b l IH]; cbn [ofBits app]; [lia|]. rewrite IH, length_app, Nat2Z.inj_add, Z.pow_add_r by lia. lia.
Qed.

Lemma ofBits_zeros n : ofBits (replicate n false) = 0.
Proof. induction n as [|n IH]; cbn [ofBits replicate]; [done|by rewrite IH]. Qed.

Lemma ofBits_toBits_mod n z : ofBits (toBits n z) = z mod 2 ^ Z.of_nat n.
Proof.
  induction n as [|n IH]; cbn [toBits ofBits]; [cbn; by rewrite Z.mod_1_r|]. rewrite IH, length_toBits, Nat2Z.inj_succ, Z.pow_succ_r by lia.
  rewrite Z.testbit_spec' by lia. rewrite (Z.mul_comm 2), Z.rem_mul_r by lia. lia.
Qed.

Lemma ofBits_toBits n z : 0 <= z < 2 ^ Z.of_nat n -> ofBits (toBits n z) = z.
Proof. intros HZ. by rewrite ofBits_toBits_mod, Z.mod_small. Qed.

(** Only the low bits matter. *)
Lemma toBits_shift n k z : toBits n (z + k * 2 ^ Z.of_nat n) = toBits n z.
Proof.
  revert k. induction n as [|n IH]; intros k; cbn [toBits]; [done|]. rewrite Nat2Z.inj_succ, Z.pow_succ_r by lia. f_equal.
  - apply Z.b2z_inj. rewrite !Z.testbit_spec' by lia. replace (k * (2 * 2 ^ Z.of_nat n)) with (k * 2 * 2 ^ Z.of_nat n) by lia.
    rewrite Z.div_add by lia. by rewrite Z_mod_plus_full.
  - replace (k * (2 * 2 ^ Z.of_nat n)) with (k * 2 * 2 ^ Z.of_nat n) by lia. apply IH.
Qed.

Lemma toBits_ofBits l : toBits (length l) (ofBits l) = l.
Proof.
  induction l as [|b l IH]; cbn [length toBits ofBits]; [done|]. pose proof (ofBits_bounds l) as HB. f_equal.
  - apply Z.b2z_inj. rewrite Z.testbit_spec' by lia. rewrite Z.add_comm, Z.div_add, Z.div_small, Z.add_0_l by lia. by destruct b.
  - by rewrite Z.add_comm, toBits_shift.
Qed.

Lemma toBits_mod n z : toBits n (z mod 2 ^ Z.of_nat n) = toBits n z.
Proof. rewrite (Z.div_mod z (2 ^ Z.of_nat n)) at 2 by lia. rewrite Z.add_comm, (Z.mul_comm (2 ^ _)), toBits_shift. done. Qed.

(** High bits and low bits. *)
Lemma toBits_app m n z : toBits (m + n) z = toBits m (z / 2 ^ Z.of_nat n) ++ toBits n z.
Proof.
  induction m as [|m IH]; cbn [toBits Nat.add app]; [done|]. rewrite IH. f_equal. rewrite Z.div_pow2_bits by lia. f_equal. lia.
Qed.

Lemma toBits_split m n a b : 0 <= b < 2 ^ Z.of_nat n -> toBits (m + n) (a * 2 ^ Z.of_nat n + b) = toBits m a ++ toBits n b.
Proof.
  intros HB. rewrite toBits_app, Z.add_comm, toBits_shift. rewrite Z.div_add, Z.div_small by lia. done.
Qed.

Lemma bitsOf_app l r : bitsOf (l ++ r) = bitsOf l ++ bitsOf r.
Proof. unfold bitsOf. by rewrite map_app, concat_app. Qed.

Lemma bitsOf_cons b l : bitsOf (b :: l) = toBits 8 b ++ bitsOf l.
Proof. done. Qed.

Lemma length_bitsOf data : length (bitsOf data) = (8 * length data)%nat.
Proof. induction data as [|b data IH]; [done|]. rewrite bitsOf_cons, length_app, length_toBits, IH. cbn [length]. lia. Qed.

(** ** Chunks *)

Section Chunks.
Context {A : Type}.
Implicit Types l r : list A.

Fixpoint chunksLoop (fuel n : nat) (l : list A) : list (list A) :=
  match fuel, l with
  | S fuel, _ :: _ => take n l :: chunksLoop fuel n (drop n l)
  | _, _ => []
  end.
(** The list in chunks of [n]; the last one may be shorter. *)
Definition chunksOf (n : nat) (l : list A) : list (list A) := chunksLoop (length l) n l.

Lemma chunksLoop_any n l f g : (0 < n)%nat -> (length l <= f)%nat -> (length l <= g)%nat -> chunksLoop f n l = chunksLoop g n l.
Proof.
  intros Hn. revert l g. induction f as [|f IH]; intros l g HF HG; [destruct l; [by destruct g|cbn in HF; lia]|].
  destruct l as [|a l]; [by destruct g|]. destruct g as [|g]; [cbn in HG; lia|]. cbn [chunksLoop length] in *. f_equal.
  apply IH; rewrite length_drop; cbn [length]; lia.
Qed.

Lemma chunksLoop_fuel n l fuel : (0 < n)%nat -> (length l <= fuel)%nat -> chunksLoop fuel n l = chunksOf n l.
Proof. intros Hn HL. by apply chunksLoop_any. Qed.

Lemma chunksOf_app n l r : length l = n -> (0 < n)%nat -> chunksOf n (l ++ r) = l :: chunksOf n r.
Proof.
  intros HL Hn. destruct l as [|a l]; [cbn in HL; lia|]. unfold chunksOf at 1. cbn [app length chunksLoop].
  rewrite app_comm_cons, take_app_length', drop_app_length' by done. f_equal. apply chunksLoop_fuel; [done|]. rewrite length_app. lia.
Qed.

Lemma chunksOf_short n l : (0 < length l <= n)%nat -> chunksOf n l = [l].
Proof.
  intros [H0 HL]. destruct l as [|a l]; [cbn in H0; lia|]. unfold chunksOf. cbn [length chunksLoop].
  rewrite take_ge, drop_ge by done. by destruct (length l).
Qed.

Lemma chunksOf_nil n : chunksOf n [] = [].
Proof. done. Qed.

Lemma concat_chunksOf n l : (0 < n)%nat -> concat (chunksOf n l) = l.
Proof.
  intros Hn. induction l as [l IH] using (induction_ltof1 _ (@length A)). unfold ltof in IH. destruct l as [|a l]; [done|].
  destruct (Nat.le_gt_cases (length (a :: l)) n) as [HL|HL].
  - rewrite chunksOf_short by (cbn [length] in *; lia). cbn [concat]. by rewrite app_nil_r.
  - rewrite <- (take_drop n (a :: l)) at 1. rewrite chunksOf_app by (rewrite ?length_take; lia). cbn [concat].
    rewrite IH by (rewrite length_drop; cbn [length] in *; lia). by rewrite take_drop.
Qed.

(** Chunks of whole chunks. *)
Lemma chunksOf_concat n (ls : list (list A)) r : (0 < n)%nat -> Forall (fun l => length l = n) ls -> chunksOf n (concat ls ++ r) = ls ++ chunksOf n r.
Proof.
  intros Hn HF. induction HF as [|l ls HL HF IH]; [done|]. cbn [concat app]. rewrite <- app_assoc, chunksOf_app by done. by rewrite IH.
Qed.

(** A part of whole chunks. *)
Lemma chunksOf_whole n m l r : length l = (m * n)%nat -> (0 < n)%nat -> chunksOf n (l ++ r) = chunksOf n l ++ chunksOf n r.
Proof.
  intros HL Hn. revert l HL. induction m as [|m IH]; intros l HL; [by destruct l|].
  assert (HT : length (take n l) = n) by (rewrite length_take; lia). assert (HD : length (drop n l) = (m * n)%nat) by (rewrite length_drop; lia).
  rewrite <- (take_drop n l), <- app_assoc, (chunksOf_app n (take n l) (drop n l ++ r)), (chunksOf_app n (take n l) (drop n l)), IH by done. done.
Qed.
End Chunks.
