(* ===== verification/IntegerParsing.v ===== *)
(** * Numbers in strings

    [wtf/text/WTFString.cpp]: [toIntegralType] and the functions that call it
    ([String::toInt], [toIntStrict] and the like), and
    [wtf/text/IntegerToStringConversion.h]: [String::number] of integers. *)

From S2P Require Import Prelude.
Open Scope Z_scope.

(** ** Characters *)

(** ICU: [u_charDirection(c) == U_WHITE_SPACE_NEUTRAL]. *)
Class CharDirection := isWhiteSpaceNeutral : UChar -> bool.

Definition isASCIISpace (c : UChar) : bool := (c <=? 32) && ((c =? 32) || ((c <=? 0xD) && (c >=? 0x9))).
Definition isSpaceOrNewline `{CharDirection} (c : UChar) : bool := if c <=? 0x7F then isASCIISpace c else isWhiteSpaceNeutral c.

Definition isCharacterAllowedInBase (c : UChar) (base : Z) : bool :=
  if c >? 0x7F then false
  else if isASCIIDigit c then c - "0"%uchar <? base
  else if isASCIIAlpha c then
    let base := if base >? 36 then 36 else base in
    ((c >=? "a"%uchar) && (c <? "a"%uchar + base - 10)) || ((c >=? "A"%uchar) && (c <? "A"%uchar + base - 10))
  else false.

(** ** Integral types *)

Record IntegralType := mkIntegralType { it_bits : Z; is_signed : bool }.
Definition int_type : IntegralType := mkIntegralType 32 true.
Definition unsigned_type : IntegralType := mkIntegralType 32 false.
Definition int64_type : IntegralType := mkIntegralType 64 true.
Definition uint64_type : IntegralType := mkIntegralType 64 false.

Definition integralMax (t : IntegralType) : Z := if is_signed t then 2 ^ (it_bits t - 1) - 1 else 2 ^ it_bits t - 1.
(** Two's complement; a signed overflow wraps around. *)
Definition reduce (t : IntegralType) (z : Z) : Z :=
  if is_signed t then (z + 2 ^ (it_bits t - 1)) mod 2 ^ it_bits t - 2 ^ (it_bits t - 1) else z mod 2 ^ it_bits t.

(** ** [toIntegralType] *)

Section Parse.
Context `{CharDirection}.

Definition digitValueOf (c : UChar) : Z :=
  if isASCIIDigit c then c - "0"%uchar else if c >=? "a"%uchar then c - "a"%uchar + 10 else c - "A"%uchar + 10.

Fixpoint skipWhitespace (data : list UChar) : list UChar :=
  match data with
  | c :: rest => if isSpaceOrNewline c then skipWhitespace rest else data
  | [] => []
  end.

(** The sign, and what is behind it. *)
Definition readSign (t : IntegralType) (data : list UChar) : bool * list UChar :=
  match data with
  | c :: rest =>
      if is_signed t && (c =? "-"%uchar) then (true, rest)
      else if c =? "+"%uchar then (false, rest)
      else (false, data)
  | [] => (false, [])
  end.

(** The loop over the digits; [None] is [goto bye]. *)
Fixpoint digitsLoop (t : IntegralType) (base : Z) (isNegative : bool) (value : Z) (data : list UChar) : option (Z * list UChar) :=
  match data with
  | c :: rest =>
      if isCharacterAllowedInBase c base then
        let maxMultiplier := integralMax t / base in
        let digitValue := digitValueOf c in
        if (value >? maxMultiplier) || ((value =? maxMultiplier) && (digitValue >? integralMax t mod base + Z.b2z isNegative)) then None
        else digitsLoop t base isNegative (reduce t (base * value + digitValue)) rest
      else Some (value, data)
  | [] => Some (value, [])
  end.

(** The value, and whether it is valid. *)
Definition toIntegralType (t : IntegralType) (data : list UChar) (base : Z) : Z * bool :=
  let '(isNegative, data) := readSign t (skipWhitespace data) in
  match data with
  | c :: _ =>
      if isCharacterAllowedInBase c base then
        match digitsLoop t base isNegative 0 data with
        | None => (0, false)
        | Some (value, data) =>
            let value := if isNegative then reduce t (- value) else value in
            match skipWhitespace data with
            | [] => (value, true)
            | _ => (0, false)
            end
        end
      else (0, false)
  | [] => (0, false)
  end.

(** [lengthOfCharactersAsInteger] *)
Fixpoint digitsLength (data : list UChar) : nat :=
  match data with
  | c :: rest => if isASCIIDigit c then S (digitsLength rest) else 0
  | [] => 0
  end.
Definition signLength (data : list UChar) : nat :=
  match data with
  | c :: rest => if (c =? "+"%uchar) || (c =? "-"%uchar) then S (digitsLength rest) else digitsLength data
  | [] => 0
  end.
Fixpoint lengthOfCharactersAsInteger (data : list UChar) : nat :=
  match data with
  | c :: rest => if isSpaceOrNewline c then S (lengthOfCharactersAsInteger rest) else signLength data
  | [] => 0
  end.

(** [charactersToInt], [charactersToUInt] and the 64 bit ones: what follows the
    number does not matter. *)
Definition charactersTo (t : IntegralType) (data : list UChar) : Z * bool :=
  toIntegralType t (take (lengthOfCharactersAsInteger data) data) 10.
(** [String::toInt] and the like; a null string has no number. *)
Definition stringTo (t : IntegralType) (s : option (list UChar)) : Z * bool :=
  match s with
  | None => (0, false)
  | Some data => charactersTo t data
  end.
Definition stringToStrict (t : IntegralType) (s : option (list UChar)) (base : Z) : Z * bool :=
  match s with
  | None => (0, false)
  | Some data => toIntegralType t data base
  end.
End Parse.

(** ** [numberToString] *)

(** The loop writes the buffer from its end; [room] is what is left of it. *)
Fixpoint numberLoop (room : nat) (number : Z) (p : list LChar) : option (list LChar) :=
  match room with
  | O => None
  | S room =>
      let p := (number mod 10 + "0"%uchar) mod 2 ^ 8 :: p in
      let number := number / 10 in
      if number =? 0 then Some p else numberLoop room number p
  end.

(** [None] when the characters do not fit the buffer. *)
Definition numberToStringImpl (t : IntegralType) (negative : bool) (number : Z) : option (list LChar) :=
  let room := Z.to_nat (it_bits t / 8 * 3 + 1) in
  match numberLoop room number [] with
  | None => None
  | Some p => if negative then (if (length p <? room)%nat then Some ("-"%uchar :: p) else None) else Some p
  end.

(** The sign is dropped in the signed type, and the result is unsigned. *)
Definition numberToString (t : IntegralType) (number : Z) : option (list LChar) :=
  if is_signed t && (number <? 0)
  then numberToStringImpl t true (reduce t (- number) mod 2 ^ it_bits t)
  else numberToStringImpl t false number.
