(* ===== verification/IntegerParsingSpec.v ===== *)
(** * What is read and written of numbers

    The texts [toIntegralType] accepts and the values it gives them, and the
    round trip with [numberToString]. *)

From S2P Require Import Prelude IntegerParsing.
Open Scope Z_scope.

(** ** Characters of numbers *)

Section Characters.
Context `{CharDirection}.

Lemma isASCIIDigit_iff c : isASCIIDigit c = true <-> 48 <= c <= 57.
Proof. unfold isASCIIDigit. rewrite andb_true_iff, Z.geb_le, Z.leb_le. change ("0"%uchar) with 48. change ("9"%uchar) with 57. lia. Qed.

Lemma isASCIIAlpha_letter c : 65 <= c <= 90 \/ 97 <= c <= 122 -> isASCIIAlpha c = true.
Proof.
  intros HC. assert (HF : forallb (fun n => isASCIIAlpha (Z.of_nat n)) (seq 65 26 ++ seq 97 26) = true) by (vm_compute; reflexivity).
  rewrite forallb_forall in HF. rewrite <- (Z2Nat.id c) by lia. apply HF, in_or_app. rewrite !in_seq. lia.
Qed.

(** The letters and digits of a base. *)
Lemma allowed_iff c base : 2 <= base <= 36 ->
  isCharacterAllowedInBase c base = true <-> 48 <= c < 48 + Z.min base 10 \/ 97 <= c < 87 + base \/ 65 <= c < 55 + base.
Proof.
  intros HB. unfold isCharacterAllowedInBase. change ("0"%uchar) with 48. change ("a"%uchar) with 97. change ("A"%uchar) with 65.
  rewrite Z.gtb_ltb. destruct (Z.ltb_spec 127 c); [split; [done|lia]|].
  destruct (isASCIIDigit c) eqn:ED; [apply isASCIIDigit_iff in ED; rewrite Z.ltb_lt; lia|].
  assert (ND : ~ 48 <= c <= 57) by (rewrite <- isASCIIDigit_iff; congruence).
  rewrite (Z.gtb_ltb base), (proj2 (Z.ltb_ge 36 base)) by lia.
  pose proof (isASCIIAlpha_letter c). destruct (isASCIIAlpha c).
  - rewrite orb_true_iff, !andb_true_iff, !Z.geb_le, !Z.ltb_lt. lia.
  - split; [done|]. intros [?|HL]; [lia|]. assert (false = true) by (apply H1; lia). done.
Qed.

Lemma digitValueOf_range c base : 2 <= base <= 36 -> isCharacterAllowedInBase c base = true -> 0 <= digitValueOf c < base.
Proof.
  intros HB HA%allowed_iff; [|done]. unfold digitValueOf. change ("0"%uchar) with 48. change ("a"%uchar) with 97. change ("A"%uchar) with 65.
  destruct (isASCIIDigit c) eqn:ED; [apply isASCIIDigit_iff in ED; lia|].
  assert (ND : ~ 48 <= c <= 57) by (rewrite <- isASCIIDigit_iff; congruence).
  destruct (Z.geb_spec c 97); lia.
Qed.

Lemma isSpaceOrNewline_printable c : 33 <= c <= 127 -> isSpaceOrNewline c = false.
Proof.
  intros HC. unfold isSpaceOrNewline, isASCIISpace. rewrite (proj2 (Z.leb_le c 127)), (proj2 (Z.leb_gt c 32)) by lia. done.
Qed.

Lemma allowed_not_space c base : 2 <= base <= 36 -> isCharacterAllowedInBase c base = true -> isSpaceOrNewline c = false.
Proof. intros HB HA%allowed_iff; [|done]. apply isSpaceOrNewline_printable. lia. Qed.

(** ** White space *)

Definition blank (s : list UChar) : Prop := Forall (fun c => isSpaceOrNewline c = true) s.

Lemma skipWhitespace_app ws s : blank ws -> skipWhitespace (ws ++ s) = skipWhitespace s.
Proof. induction 1 as [|c ws HC _ IH]; cbn [app skipWhitespace]; [done|]. by rewrite HC. Qed.

Lemma skipWhitespace_blank ws : blank ws -> skipWhitespace ws = [].
Proof. intros HB. rewrite <- (app_nil_r ws), skipWhitespace_app by done. done. Qed.

Lemma skipWhitespace_split s : exists ws, s = ws ++ skipWhitespace s /\ blank ws.
Proof.
  induction s as [|c s (ws & ES & HB)]; cbn [skipWhitespace]; [exists []; by repeat constructor|].
  destruct (isSpaceOrNewline c) eqn:EC; [|exists []; by repeat constructor]. exists (c :: ws). split; [cbn; by rewrite <- ES|by constructor].
Qed.
End Characters.

(** ** The digits *)

Definition numeral (base v : Z) (digits : list UChar) : Z := fold_left (fun v c => base * v + digitValueOf c) digits v.
Definition digitsOf (base : Z) (digits : list UChar) : Prop := Forall (fun c => isCharacterAllowedInBase c base = true) digits.

(** The largest magnitude: one more for negative numbers, unless it is a
    multiple of the base. *)
Definition limit (t : IntegralType) (base : Z) (negative : bool) : Z :=
  integralMax t + Z.b2z (negative && negb ((integralMax t + 1) mod base =? 0)).

(** No digits follow the magnitude of the least number. *)
Definition noneBehindMinimum (t : IntegralType) (base v : Z) (digits : list UChar) : Prop :=
  forall front back, digits = front ++ back -> back <> [] -> numeral base v front <> integralMax t + 1.

Definition wideType (t : IntegralType) : Prop := 8 <= it_bits t.

Lemma integralMax_range t : wideType t -> 127 <= integralMax t.
Proof.
  unfold wideType, integralMax. intros HW.
  assert (2 ^ 7 <= 2 ^ (it_bits t - 1)) by (apply Z.pow_le_mono_r; lia).
  assert (2 ^ 8 <= 2 ^ it_bits t) by (apply Z.pow_le_mono_r; lia). destruct (is_signed t); lia.
Qed.

Lemma reduce_small t z : wideType t -> (if is_signed t then - integralMax t - 1 else 0) <= z <= integralMax t -> reduce t z = z.
Proof.
  unfold wideType, integralMax, reduce. intros HW HZ. destruct (is_signed t); [|apply Z.mod_small; lia].
  assert (2 ^ it_bits t = 2 * 2 ^ (it_bits t - 1)) by (rewrite <- Z.pow_succ_r by lia; f_equal; lia). rewrite Z.mod_small; lia.
Qed.

(** The magnitude of the least number is the least number. *)
Lemma reduce_minimum t : wideType t -> is_signed t = true -> reduce t (integralMax t + 1) = - integralMax t - 1.
Proof.
  unfold wideType, integralMax, reduce. intros HW ->.
  assert (2 ^ it_bits t = 2 * 2 ^ (it_bits t - 1)) by (rewrite <- Z.pow_succ_r by lia; f_equal; lia).
  assert (0 < 2 ^ (it_bits t - 1)) by (apply Z.pow_pos_nonneg; lia).
  replace (_ - 1 + 1 + _) with (1 * 2 ^ it_bits t) by lia. rewrite Z.mod_mul; lia.
Qed.

Lemma numeral_ge base v digits : 2 <= base <= 36 -> 0 <= v -> digitsOf base digits -> v <= numeral base v digits.
Proof.
  intros HB. revert v. induction digits as [|c digits IH]; intros v Hv HD; [done|]. apply Forall_cons in HD as [HC HD].
  pose proof (digitValueOf_range c base HB HC). cbn [numeral fold_left]. fold (numeral base (base * v + digitValueOf c) digits).
  etransitivity; [|apply IH; [nia|done]]. nia.
Qed.

(** The test in front of a step decides whether the step stays in the limit. *)
Lemma step_test t base negative v d : 2 <= base <= 36 -> wideType t -> 0 <= v -> 0 <= d < base ->
  (v >? integralMax t / base) || ((v =? integralMax t / base) && (d >? integralMax t mod base + Z.b2z negative)) =
    negb (base * v + d <=? limit t base negative).
Proof.
  intros HB HW Hv Hd. pose proof (integralMax_range t HW) as HM. unfold limit. set (m := integralMax t) in *.
  pose proof (Z.div_mod m base ltac:(lia)) as EM. pose proof (Z.mod_pos_bound m base ltac:(lia)) as HR.
  assert (HL : (m + 1) mod base = if m mod base =? base - 1 then 0 else m mod base + 1).
  { destruct (Z.eqb_spec (m mod base) (base - 1)) as [E|E].
    - symmetry. apply (Z.mod_unique _ _ (m / base + 1)); lia.
    - symmetry. apply (Z.mod_unique _ _ (m / base)); lia. }
  rewrite HL. rewrite !Z.gtb_ltb. destruct (Z.eqb_spec (m mod base) (base - 1)) as [E|E]; destruct negative; cbn [andb negb Z.b2z];
    rewrite ?(proj2 (Z.eqb_neq (m mod base + 1) 0)) by lia; cbn [negb Z.b2z Z.eqb];
    destruct (Z.ltb_spec (m / base) v), (Z.eqb_spec v (m / base)), (Z.leb_spec (base * v + d) (m + 1)), (Z.leb_spec (base * v + d) (m + 0));
    cbn [orb andb negb]; try nia; try lia.
Qed.

Definition notDigitFirst (base : Z) (s : list UChar) : Prop := match s with c :: _ => isCharacterAllowedInBase c base = false | [] => True end.

Lemma digitsLoop_spec t base negative digits : 2 <= base <= 36 -> wideType t -> (negative = true -> is_signed t = true) -> forall v tail,
  digitsOf base digits -> notDigitFirst base tail -> 0 <= v <= integralMax t ->
  (negative = true -> noneBehindMinimum t base v digits) ->
  digitsLoop t base negative v (digits ++ tail) =
    if numeral base v digits <=? limit t base negative then Some (reduce t (numeral base v digits), tail) else None.
Proof.
  intros HB HW HS. pose proof (integralMax_range t HW) as HM. induction digits as [|c digits IH]; intros v tail HD HT Hv HN.
  { cbn [app numeral fold_left]. rewrite reduce_small by (done || destruct (is_signed t); lia). unfold limit.
    rewrite (proj2 (Z.leb_le _ _)) by (destruct (_ && _); cbn; lia). destruct tail as [|c tail]; [done|]. cbn [digitsLoop]. by rewrite HT. }
  apply Forall_cons in HD as [HC HD]. pose proof (digitValueOf_range c base HB HC) as Hd.
  cbn [app digitsLoop numeral fold_left]. rewrite HC, step_test by (done || lia). fold (numeral base (base * v + digitValueOf c) digits).
  set (v1 := base * v + digitValueOf c) in *. assert (0 <= v1) by nia.
  pose proof (numeral_ge base v1 digits HB ltac:(lia) HD) as HG. destruct (Z.leb_spec v1 (limit t base negative)) as [HL|HL]; cbn [negb].
  2: { by rewrite (proj2 (Z.leb_gt _ _)) by lia. }
  destruct (Z.le_gt_cases v1 (integralMax t)) as [H1|H1].
  - rewrite reduce_small by (done || destruct (is_signed t); lia). apply IH; try done.
    intros HNeg front back -> HBk. apply (HN HNeg (c :: front) back); done.
  - assert (HE : v1 = integralMax t + 1 /\ negative = true) by (unfold limit in HL; destruct negative, (_ =? 0) in HL; cbn in HL; lia || (split; [lia|done])).
    destruct HE as [E1 ENeg]. destruct digits as [|c' digits]; [|by destruct (HN ENeg [c] (c' :: digits))].
    cbn [app numeral fold_left]. rewrite (proj2 (Z.leb_le v1 _)) by done. destruct tail as [|c' tail]; [done|]. cbn [digitsLoop]. by rewrite HT.
Qed.

(** ** The texts that are read *)

Section Texts.
Context `{CharDirection}.

Definition signOf (t : IntegralType) (negative : bool) (sign : list UChar) : Prop :=
  if negative then is_signed t = true /\ sign = str "-" else sign = [] \/ sign = str "+".

(** White space, a sign, digits and white space. *)
Definition integerText (t : IntegralType) (base : Z) (negative : bool) (digits data : list UChar) : Prop :=
  exists before sign after, data = before ++ sign ++ digits ++ after /\ blank before /\ blank after /\
    digits <> [] /\ digitsOf base digits /\ signOf t negative sign.

Lemma readSign_text t base negative sign digits after : 2 <= base <= 36 -> digits <> [] -> digitsOf base digits -> signOf t negative sign ->
  readSign t (skipWhitespace (sign ++ digits ++ after)) = (negative, digits ++ after).
Proof.
  intros HB HN HD HS. destruct digits as [|c digits]; [done|]. apply Forall_cons in HD as [HC _].
  destruct negative; cbn [signOf] in HS; [destruct HS as [ET ->]|destruct HS as [-> | ->]]; cbn [str app];
    cbn [skipWhitespace]; rewrite ?(isSpaceOrNewline_printable (Z.of_N _)) by (cbn; lia); cbn [readSign].
  - by rewrite ET.
  - rewrite (allowed_not_space c base) by done. cbn [readSign]. apply allowed_iff in HC; [|done].
    change ("-"%uchar) with 45. change ("+"%uchar) with 43. rewrite (proj2 (Z.eqb_neq c 45)), (proj2 (Z.eqb_neq c 43)), andb_false_r by lia. done.
  - by rewrite andb_false_r.
Qed.

Lemma blank_notDigitFirst base s : 2 <= base <= 36 -> blank s -> notDigitFirst base s.
Proof.
  intros HB. destruct s as [|c s]; [done|]. intros [HC _]%Forall_cons. cbn.
  destruct (isCharacterAllowedInBase c base) eqn:EA; [|done]. by rewrite (allowed_not_space c base) in HC.
Qed.

Lemma toIntegralType_text t base negative digits data : 2 <= base <= 36 -> wideType t -> integerText t base negative digits data ->
  (negative = true -> noneBehindMinimum t base 0 digits) ->
  toIntegralType t data base =
    let v := numeral base 0 digits in
    if v <=? limit t base negative then (if negative then - v else v, true) else (0, false).
Proof.
  intros HB HW (before & sign & after & -> & HBe & HAf & HN & HD & HS) HM. unfold toIntegralType.
  rewrite skipWhitespace_app, (readSign_text t base negative) by done.
  pose proof (integralMax_range t HW) as HX. pose proof (numeral_ge base 0 digits HB ltac:(lia) HD) as HV.
  assert (HH : exists c rest, digits ++ after = c :: rest /\ isCharacterAllowedInBase c base = true).
  { destruct digits as [|c rest]; [done|]. apply Forall_cons in HD as [HC _]. by exists c, (rest ++ after). }
  destruct HH as (c & rest & EH & HC). rewrite EH, HC, <- EH.
  rewrite digitsLoop_spec; try done; [|by destruct negative; [destruct HS|]|by apply blank_notDigitFirst|lia].
  cbv zeta. destruct (Z.leb_spec (numeral base 0 digits) (limit t base negative)) as [HL|HL]; [|done].
  rewrite skipWhitespace_blank by done. f_equal. unfold limit in HL.
  destruct negative; [destruct HS as [HS _]|]; cbn [andb Z.b2z] in HL.
  - destruct (Z.eq_dec (numeral base 0 digits) (integralMax t + 1)) as [->|NE].
    + rewrite reduce_minimum by done. replace (- (- integralMax t - 1)) with (integralMax t + 1) by lia. rewrite reduce_minimum by done. lia.
    + rewrite !reduce_small; rewrite ?HS; try done; destruct (negb _); cbn in HL; rewrite ?reduce_small; rewrite ?HS; try done; lia.
  - apply reduce_small; [done|]. destruct (is_signed t); lia.
Qed.

Lemma digitsLoop_split t base negative data : forall v v' rest, digitsLoop t base negative v data = Some (v', rest) ->
  exists digits, data = digits ++ rest /\ digitsOf base digits /\ notDigitFirst base rest.
Proof.
  induction data as [|c data IH]; intros v v' rest HL; cbn [digitsLoop] in HL; [injection HL as _ <-; exists []; by repeat constructor|].
  destruct (isCharacterAllowedInBase c base) eqn:EC; [|injection HL as _ <-; exists []; by repeat constructor].
  destruct (_ || _); [done|]. destruct (IH _ _ _ HL) as (digits & -> & HD & HR). exists (c :: digits). split_and!; [done|by constructor|done].
Qed.

Lemma readSign_split t data negative rest : readSign t data = (negative, rest) -> exists sign, data = sign ++ rest /\ signOf t negative sign.
Proof.
  destruct data as [|c data]; cbn [readSign]; [intros [= <- <-]; exists []; split; [done|by left]|].
  destruct (is_signed t && (c =? "-"%uchar)) eqn:EM.
  - intros [= <- <-]. bool_hyps. subst c. by exists (str "-").
  - destruct (Z.eqb_spec c ("+"%uchar)) as [->|_]; intros [= <- <-]; [exists (str "+")|exists []]; split; try done; [by right|by left].
Qed.

Lemma toIntegralType_accepts t base data : snd (toIntegralType t data base) = true -> exists negative digits, integerText t base negative digits data.
Proof.
  unfold toIntegralType. destruct (skipWhitespace_split data) as (before & ED & HBe).
  destruct (readSign t (skipWhitespace data)) as [negative rest] eqn:ER. destruct (readSign_split _ _ _ _ ER) as (sign & ES & HS).
  destruct rest as [|c rest'] eqn:EC; [done|]. rewrite <- EC in *. destruct (isCharacterAllowedInBase c base) eqn:EA; [|done].
  destruct (digitsLoop t base negative 0 rest) as [[v after]|] eqn:EL; [|done].
  destruct (digitsLoop_split _ _ _ _ _ _ _ EL) as (digits & ER' & HD & HF).
  destruct (skipWhitespace after) eqn:EW; [|done]. intros _. exists negative, digits, before, sign, after.
  destruct (skipWhitespace_split after) as (ws & EAf & HAf). rewrite EW, app_nil_r in EAf. subst ws.
  split_and!; try done; [by rewrite ED, ES, ER'|]. intros ->. cbn [app] in ER'. subst after. rewrite EC in HF. cbn in HF. congruence.
Qed.

Lemma toIntegralType_invalid t data base : snd (toIntegralType t data base) = false -> toIntegralType t data base = (0, false).
Proof. unfold toIntegralType. repeat case_match; done. Qed.
End Texts.

(** ** Numbers in range *)

Lemma numeral_app base v xs ys : numeral base v (xs ++ ys) = numeral base (numeral base v xs) ys.
Proof. apply fold_left_app. Qed.

(** A number that is in range has no digits behind the minimum. *)
Lemma noneBehindMinimum_small t base digits : 2 <= base <= 36 -> wideType t -> digitsOf base digits ->
  numeral base 0 digits <= integralMax t + 1 -> noneBehindMinimum t base 0 digits.
Proof.
  intros HB HW HD HL front back -> HN HE. pose proof (integralMax_range t HW). destruct back as [|c back]; [done|].
  apply Forall_app in HD as [_ HD]. apply Forall_cons in HD as [HC HD]. pose proof (digitValueOf_range c base HB HC).
  rewrite numeral_app, HE in HL. change (numeral base (integralMax t + 1) (c :: back)) with
    (numeral base (base * (integralMax t + 1) + digitValueOf c) back) in HL.
  pose proof (numeral_ge base (base * (integralMax t + 1) + digitValueOf c) back HB ltac:(nia) HD). nia.
Qed.

(** ** What is written *)

Lemma decimal_digit n : (n mod 10 + "0"%uchar) mod 2 ^ 8 = n mod 10 + 48.
Proof. pose proof (Z.mod_pos_bound n 10). change ("0"%uchar) with 48. apply Z.mod_small. lia. Qed.

Lemma decimal_digit_ok n : isCharacterAllowedInBase (n mod 10 + 48) 10 = true /\ digitValueOf (n mod 10 + 48) = n mod 10.
Proof.
  pose proof (Z.mod_pos_bound n 10). split; [apply allowed_iff; lia|]. unfold digitValueOf.
  rewrite (proj2 (isASCIIDigit_iff _)) by lia. change ("0"%uchar) with 48. lia.
Qed.

Lemma numberLoop_spec room : forall k n p, (1 <= k <= room)%nat -> 0 <= n < 10 ^ Z.of_nat k ->
  exists digits, numberLoop room n p = Some (digits ++ p) /\ digitsOf 10 digits /\ digits <> [] /\
    numeral 10 0 digits = n /\ (length digits <= k)%nat.
Proof.
  induction room as [|room IH]; intros k n p Hk Hn; [lia|]. cbn [numberLoop]. rewrite decimal_digit.
  destruct (decimal_digit_ok n) as [HA HV]. pose proof (Z.div_mod n 10 ltac:(lia)). set (c := n mod 10 + 48) in *.
  destruct (Z.eqb_spec (n / 10) 0) as [E|E].
  - exists [c]. split_and!; [done|by repeat constructor|done|cbn [numeral fold_left]; lia|cbn; lia].
  - destruct k as [|[|k]]; [lia|pose proof (Z.div_small n 10); cbn in Hn; lia|].
    destruct (IH (S k) (n / 10) (c :: p)) as (digits & EL & HD & HN & HE & HL); [lia| |].
    { split; [apply Z.div_pos; lia|]. apply Z.div_lt_upper_bound; [lia|]. rewrite <- Z.pow_succ_r by lia. rewrite <- Nat2Z.inj_succ. lia. }
    exists (digits ++ [c]). rewrite EL, <- app_assoc. split_and!; [done|apply Forall_app; by repeat constructor|by destruct digits| |rewrite length_app; cbn; lia].
    rewrite numeral_app, HE. cbn [numeral fold_left]. lia.
Qed.

Definition machineType (t : IntegralType) : Prop := it_bits t = 32 \/ it_bits t = 64.
Definition integralMin (t : IntegralType) : Z := if is_signed t then - integralMax t - 1 else 0.

(** The sign and the magnitude. *)
Lemma numberToString_spec t n : machineType t -> integralMin t <= n <= integralMax t ->
  exists digits, numberToString t n = Some ((if n <? 0 then str "-" else []) ++ digits) /\ digitsOf 10 digits /\ digits <> [] /\ numeral 10 0 digits = Z.abs n.
Proof.
  intros HT HR. assert (HW : wideType t) by (unfold wideType; destruct HT; lia).
  assert (HMag : Z.abs n < 10 ^ 20 /\ (it_bits t = 32 -> Z.abs n < 10 ^ 12)).
  { unfold integralMin, integralMax in HR. destruct HT as [E|E]; rewrite E in *; destruct (is_signed t); split; intros; cbn in HR |- *; lia. }
  set (k := if Z.eqb (it_bits t) 32 then 12%nat else 20%nat).
  set (room := Z.to_nat (it_bits t / 8 * 3 + 1)).
  assert (HK : (1 <= k < room)%nat /\ Z.abs n < 10 ^ Z.of_nat k) by
    (unfold k, room; destruct HT as [E|E]; rewrite E; split; [vm_compute; lia|apply HMag, E|vm_compute; lia|apply HMag]).
  destruct (numberLoop_spec room k (Z.abs n) []) as (digits & EL & HD & HN & HE & HLen); [lia|lia|]. rewrite app_nil_r in EL.
  exists digits. split_and!; try done. unfold numberToString, numberToStringImpl. fold room. unfold integralMin in HR.
  destruct (Z.ltb_spec n 0) as [Hn|Hn]; [|rewrite andb_false_r, <- (Z.abs_eq n), EL by lia; done].
  destruct (is_signed t) eqn:ES; [|lia]. cbn [andb].
  assert (EM : reduce t (- n) mod 2 ^ it_bits t = Z.abs n).
  { assert (E2 : 2 ^ it_bits t = 2 * (integralMax t + 1)).
    { unfold integralMax. rewrite ES, Z.sub_add, <- Z.pow_succ_r by (unfold wideType in HW; lia). f_equal. lia. }
    pose proof (integralMax_range t HW). destruct (Z.eq_dec n (- integralMax t - 1)) as [->|NE].
    - replace (- (- integralMax t - 1)) with (integralMax t + 1) by lia. rewrite reduce_minimum by done. symmetry.
      apply (Z.mod_unique _ _ (-1)); lia.
    - rewrite reduce_small by (done || rewrite ES; lia). rewrite Z.mod_small; lia. }
  rewrite EM, EL, (proj2 (Nat.ltb_lt _ _)) by lia. done.
Qed.

Lemma allowed_ten c : isCharacterAllowedInBase c 10 = isASCIIDigit c.
Proof.
  apply eq_bool_prop_intro. rewrite !Is_true_true, allowed_iff, isASCIIDigit_iff by lia. lia.
Qed.

Section Theorems.
Context `{CharDirection}.

Lemma digitsLength_spec digits junk : digitsOf 10 digits -> notDigitFirst 10 junk -> digitsLength (digits ++ junk) = length digits.
Proof.
  intros HD HJ. induction HD as [|c digits HC _ IH]; cbn [app digitsLength length].
  - destruct junk as [|c junk]; [done|]. cbn in HJ |- *. by rewrite <- allowed_ten, HJ.
  - rewrite <- allowed_ten, HC. by rewrite IH.
Qed.

(** What follows the number is not looked at. *)
Lemma lengthOfCharactersAsInteger_spec (negative : bool) digits junk : digitsOf 10 digits -> digits <> [] -> notDigitFirst 10 junk ->
  let sign := if negative then str "-" else [] in lengthOfCharactersAsInteger (sign ++ digits ++ junk) = length (sign ++ digits).
Proof.
  intros HD HN HJ. pose proof (digitsLength_spec digits junk HD HJ) as HL. destruct negative; cbn [str app].
  - cbn [lengthOfCharactersAsInteger]. rewrite isSpaceOrNewline_printable by (cbn; lia). cbn [signLength length]. by rewrite HL.
  - destruct digits as [|c digits]; [done|]. apply Forall_cons in HD as [HC _]. cbn [app lengthOfCharactersAsInteger] in *.
    rewrite (allowed_not_space c 10) by (done || lia). cbn [signLength]. apply allowed_iff in HC; [|lia].
    change ("-"%uchar) with 45. change ("+"%uchar) with 43. by rewrite (proj2 (Z.eqb_neq c 45)), (proj2 (Z.eqb_neq c 43)) by lia.
Qed.

(** C30: reading an integer of any width in any base.  A text of white space, a sign
    (no minus for unsigned types), digits of the base and white space is read
    as its value if that is in the range of the type; if not, or for any other
    text, the result is 0 and not valid.  Two things differ from the range:
    the least number of a signed type is not read in a base that divides it
    ([limit]), and nothing is said of digits behind the least number. *)
Theorem integer_parse_exact (t : IntegralType) (base : Z) (data : list UChar) :
  wideType t -> 2 <= base <= 36 ->
  (forall negative digits, integerText t base negative digits data -> (negative = true -> noneBehindMinimum t base 0 digits) ->
    toIntegralType t data base =
      let v := numeral base 0 digits in if v <=? limit t base negative then (if negative then - v else v, true) else (0, false)) /\
  ((forall negative digits, ~ integerText t base negative digits data) -> toIntegralType t data base = (0, false)).
Proof.
  intros HW HB. split; [by intros; apply toIntegralType_text|]. intros HN. apply toIntegralType_invalid.
  destruct (snd (toIntegralType t data base)) eqn:ES; [|done]. destruct (toIntegralType_accepts t base data ES) as (negative & digits & HI).
  by destruct (HN negative digits).
Qed.

(** C31: [String::number] and [String::toInt].  Every value of a 32 or 64 bit
    integer, signed or not, the least one included, is written within the buffer
    and read back, by the strict functions and, whatever follows it that is not
    a digit, by the lenient ones. *)
Theorem number_roundtrip (t : IntegralType) (n : Z) (junk : list UChar) :
  machineType t -> integralMin t <= n <= integralMax t -> notDigitFirst 10 junk ->
  exists s, numberToString t n = Some s /\ stringToStrict t (Some s) 10 = (n, true) /\ stringTo t (Some (s ++ junk)) = (n, true).
Proof.
  intros HT HR HJ. assert (HW : wideType t) by (unfold wideType; destruct HT; lia).
  destruct (numberToString_spec t n HT HR) as (digits & EN & HD & HNe & HV). eexists. split; [exact EN|].
  set (sign := if n <? 0 then str "-" else []) in *.
  assert (HS : stringToStrict t (Some (sign ++ digits)) 10 = (n, true)).
  { pose proof (integralMax_range t HW) as HM. unfold integralMin in HR. cbn [stringToStrict].
    rewrite (toIntegralType_text t 10 (n <? 0) digits); [|lia|done| |].
    - cbv zeta. rewrite HV. unfold limit. replace ((integralMax t + 1) mod 10 =? 0) with false by
        (symmetry; unfold integralMax; destruct HT as [E|E]; rewrite E; destruct (is_signed t); reflexivity).
      destruct (Z.ltb_spec n 0); cbn [andb negb Z.b2z]; rewrite (proj2 (Z.leb_le _ _)) by (destruct (is_signed t); lia); f_equal; lia.
    - exists [], sign, []. rewrite app_nil_r. split_and!; try done; try apply Forall_nil_2. unfold sign, signOf.
      destruct (Z.ltb_spec n 0); [|by left]. split; [|done]. destruct (is_signed t); [done|lia].
    - intros _. apply noneBehindMinimum_small; try done. destruct (is_signed t); lia. }
  split; [exact HS|]. cbn [stringTo]. unfold charactersTo. rewrite <- app_assoc, (lengthOfCharactersAsInteger_spec (n <? 0)) by done.
  fold sign. rewrite app_assoc, take_app_length. exact HS.
Qed.

(** digits behind the least number are read.  The magnitude of the least [int]
    passes the test because of the sign and wraps around to a negative value,
    for which the test of the next digit does not apply: the text
    -21474836481 is read as -1, and it is said to be valid. *)
Theorem integer_minimum_overflow :
  stringToStrict int_type (Some (str "-21474836481")) 10 = (-1, true) /\
  stringTo int64_type (Some (str "-92233720368547758085")) = (-5, true) /\
  stringToStrict int_type (Some (str "-80000000")) 16 = (0, false).
Proof. split_and!; vm_compute; reflexivity. Qed.
End Theorems.

(** ** Examples *)

#[local] Instance asciiOnly : CharDirection := fun _ => false.

Lemma integer_parse_exact_witness :
  toIntegralType int_type (str " -7fffFFFF ") 16 = (-2147483647, true) /\ toIntegralType int_type (str "2147483648") 10 = (0, false).
Proof.
  split.
  - destruct (integer_parse_exact int_type 16 (str " -7fffFFFF ")) as [HE _]; [by vm_compute|lia|].
    rewrite (HE true (str "7fffFFFF")).
    + vm_compute. reflexivity.
    + exists (str " "), (str "-"), (str " "). split_and!; try done; by repeat constructor.
    + intros _. apply noneBehindMinimum_small; [lia|by vm_compute|by repeat constructor|by vm_compute].
  - destruct (integer_parse_exact int_type 10 (str "2147483648")) as [HE _]; [by vm_compute|lia|].
    rewrite (HE false (str "2147483648")).
    + vm_compute. reflexivity.
    + exists [], [], []. split_and!; try done; by repeat constructor.
    + done.
Defined.

Lemma number_roundtrip_witness :
  exists s, numberToString int_type (- 2 ^ 31) = Some s /\ stringToStrict int_type (Some s) 10 = (- 2 ^ 31, true) /\
    stringTo int_type (Some (s ++ str "px")) = (- 2 ^ 31, true).
Proof. apply (number_roundtrip int_type (- 2 ^ 31) (str "px")); [by left|by vm_compute|done]. Defined.
