(* ===== verification/Base64.v ===== *)
(** * Base64

    [wtf/text/Base64.{h,cpp}]: the encoder with its three policies, the decoder with
    its four, and the functions for the alphabet of URLs; [btoa] and [atob] of
    [page/DOMWindow.cpp].

    Bytes in memory are numbers from 0 to 255.  [char] is signed: reading one as a
    number gives [charValue].  An access outside of a vector ends the program, which is
    [None] here.  A vector of characters that grows has whatever was in its memory
    (no initialization of [char]), the function [memory]. *)

From S2P Require Import Prelude BitStrings IntegerParsing.
Open Scope Z_scope.

Inductive Base64EncodePolicy := Base64DoNotInsertLFs | Base64InsertLFs | Base64URLPolicy.
Inductive Base64DecodePolicy :=
  | Base64FailOnInvalidCharacterOrExcessPadding
  | Base64FailOnInvalidCharacter
  | Base64IgnoreWhitespace
  | Base64IgnoreInvalidCharacters.
#[export] Instance Base64EncodePolicy_eq_dec : EqDecision Base64EncodePolicy.
Proof. solve_decision. Defined.
#[export] Instance Base64DecodePolicy_eq_dec : EqDecision Base64DecodePolicy.
Proof. solve_decision. Defined.

Definition nonAlphabet : Z := -1.

Definition base64EncMap : list Z :=
  [
    0x41; 0x42; 0x43; 0x44; 0x45; 0x46; 0x47; 0x48;
    0x49; 0x4A; 0x4B; 0x4C; 0x4D; 0x4E; 0x4F; 0x50;
    0x51; 0x52; 0x53; 0x54; 0x55; 0x56; 0x57; 0x58;
    0x59; 0x5A; 0x61; 0x62; 0x63; 0x64; 0x65; 0x66;
    0x67; 0x68; 0x69; 0x6A; 0x6B; 0x6C; 0x6D; 0x6E;
    0x6F; 0x70; 0x71; 0x72; 0x73; 0x74; 0x75; 0x76;
    0x77; 0x78; 0x79; 0x7A; 0x30; 0x31; 0x32; 0x33;
    0x34; 0x35; 0x36; 0x37; 0x38; 0x39; 0x2B; 0x2F
  ].

Definition base64DecMap : list Z :=
  [
    nonAlphabet; nonAlphabet; nonAlphabet; nonAlphabet; nonAlphabet; nonAlphabet; nonAlphabet; nonAlphabet;
    nonAlphabet; nonAlphabet; nonAlphabet; nonAlphabet; nonAlphabet; nonAlphabet; nonAlphabet; nonAlphabet;
    nonAlphabet; nonAlphabet; nonAlphabet; nonAlphabet; nonAlphabet; nonAlphabet; nonAlphabet; nonAlphabet;
    nonAlphabet; nonAlphabet; nonAlphabet; nonAlphabet; nonAlphabet; nonAlphabet; nonAlphabet; nonAlphabet;
    nonAlphabet; nonAlphabet; nonAlphabet; nonAlphabet; nonAlphabet; nonAlphabet; nonAlphabet; nonAlphabet;
    nonAlphabet; nonAlphabet; nonAlphabet; 0x3E; nonAlphabet; nonAlphabet; nonAlphabet; 0x3F;
    0x34; 0x35; 0x36; 0x37; 0x38; 0x39; 0x3A; 0x3B;
    0x3C; 0x3D; nonAlphabet; nonAlphabet; nonAlphabet; nonAlphabet; nonAlphabet; nonAlphabet;
    nonAlphabet; 0x00; 0x01; 0x02; 0x03; 0x04; 0x05; 0x06;
    0x07; 0x08; 0x09; 0x0A; 0x0B; 0x0C; 0x0D; 0x0E;
    0x0F; 0x10; 0x11; 0x12; 0x13; 0x14; 0x15; 0x16;
    0x17; 0x18; 0x19; nonAlphabet; nonAlphabet; nonAlphabet; nonAlphabet; nonAlphabet;
    nonAlphabet; 0x1A; 0x1B; 0x1C; 0x1D; 0x1E; 0x1F; 0x20;
    0x21; 0x22; 0x23; 0x24; 0x25; 0x26; 0x27; 0x28;
    0x29; 0x2A; 0x2B; 0x2C; 0x2D; 0x2E; 0x2F; 0x30;
    0x31; 0x32; 0x33; nonAlphabet; nonAlphabet; nonAlphabet; nonAlphabet; nonAlphabet
  ].

Definition base64URLEncMap : list Z :=
  [
    0x41; 0x42; 0x43; 0x44; 0x45; 0x46; 0x47; 0x48;
    0x49; 0x4A; 0x4B; 0x4C; 0x4D; 0x4E; 0x4F; 0x50;
    0x51; 0x52; 0x53; 0x54; 0x55; 0x56; 0x57; 0x58;
    0x59; 0x5A; 0x61; 0x62; 0x63; 0x64; 0x65; 0x66;
    0x67; 0x68; 0x69; 0x6A; 0x6B; 0x6C; 0x6D; 0x6E;
    0x6F; 0x70; 0x71; 0x72; 0x73; 0x74; 0x75; 0x76;
    0x77; 0x78; 0x79; 0x7A; 0x30; 0x31; 0x32; 0x33;
    0x34; 0x35; 0x36; 0x37; 0x38; 0x39; 0x2D; 0x5F
  ].

Definition base64URLDecMap : list Z :=
  [
    nonAlphabet; nonAlphabet; nonAlphabet; nonAlphabet; nonAlphabet; nonAlphabet; nonAlphabet; nonAlphabet;
    nonAlphabet; nonAlphabet; nonAlphabet; nonAlphabet; nonAlphabet; nonAlphabet; nonAlphabet; nonAlphabet;
    nonAlphabet; nonAlphabet; nonAlphabet; nonAlphabet; nonAlphabet; nonAlphabet; nonAlphabet; nonAlphabet;
    nonAlphabet; nonAlphabet; nonAlphabet; nonAlphabet; nonAlphabet; nonAlphabet; nonAlphabet; nonAlphabet;
    nonAlphabet; nonAlphabet; nonAlphabet; nonAlphabet; nonAlphabet; nonAlphabet; nonAlphabet; nonAlphabet;
    nonAlphabet; nonAlphabet; nonAlphabet; nonAlphabet; nonAlphabet; 0x3E; nonAlphabet; nonAlphabet;
    0x34; 0x35; 0x36; 0x37; 0x38; 0x39; 0x3A; 0x3B;
    0x3C; 0x3D; nonAlphabet; nonAlphabet; nonAlphabet; nonAlphabet; nonAlphabet; nonAlphabet;
    nonAlphabet; 0x00; 0x01; 0x02; 0x03; 0x04; 0x05; 0x06;
    0x07; 0x08; 0x09; 0x0A; 0x0B; 0x0C; 0x0D; 0x0E;
    0x0F; 0x10; 0x11; 0x12; 0x13; 0x14; 0x15; 0x16;
    0x17; 0x18; 0x19; nonAlphabet; nonAlphabet; nonAlphabet; nonAlphabet; 0x3F;
    nonAlphabet; 0x1A; 0x1B; 0x1C; 0x1D; 0x1E; 0x1F; 0x20;
    0x21; 0x22; 0x23; 0x24; 0x25; 0x26; 0x27; 0x28;
    0x29; 0x2A; 0x2B; 0x2C; 0x2D; 0x2E; 0x2F; 0x30;
    0x31; 0x32; 0x33; nonAlphabet; nonAlphabet; nonAlphabet; nonAlphabet; nonAlphabet
  ].

(** ** Vectors of [char] *)

(** A [char] as an [int]. *)
Definition charValue (b : Z) : Z := if b <? 128 then b else b - 256.

(** [out.grow(n)] of an empty vector. *)
Definition growFrom (memory : nat -> Z) (n : Z) : list Z := map memory (seq 0 (Z.to_nat n)).

(** ** Encoding *)

Definition UINT_MAX : Z := 2 ^ 32 - 1.
Definition maxInputBufferSize : Z := UINT_MAX / 77 * 76 / 4 * 3 - 2.

Definition encodedLength (len : Z) : Z := uint32 (uint32 (len + 2) / 3 * 4).
Definition insertsLFs (policy : Base64EncodePolicy) (outLength : Z) : bool := bool_decide (policy = Base64InsertLFs) && (outLength >? 76).
Definition addLFs (insertLFs : bool) (outLength : Z) : Z := if insertLFs then uint32 (outLength + (outLength - 1) / 76) else outLength.

(** [out[didx++] = c]. *)
Definition put (c : Z) (w : nat * list Z) : option (nat * list Z) := out ← store (fst w) c (snd w); Some (S (fst w), out).

Section Encode.
Variable encodeMap : list Z.

(** [out[didx++] = encodeMap[i]]. *)
Definition putDigit (i : Z) (w : nat * list Z) : option (nat * list Z) := c ← encodeMap !! Z.to_nat i; put c w.

(** The digits of a group of three bytes. *)
Definition digit0 (a : Z) : Z := Z.land (Z.shiftr a 2) 63.
Definition digit1 (a b : Z) : Z := Z.lor (Z.land (Z.shiftr b 4) 15) (Z.land (Z.shiftl a 4) 63).
Definition digit2 (b c : Z) : Z := Z.lor (Z.land (Z.shiftr c 6) 3) (Z.land (Z.shiftl b 2) 63).
Definition digit3 (c : Z) : Z := Z.land c 63.

Definition charAt (data : list Z) (i : nat) : option Z := b ← data !! i; Some (charValue b).

(** Three bytes become four characters. *)
Fixpoint encodeGroups (fuel : nat) (insertLFs : bool) (data : list Z) (sidx : nat) (count : Z) (w : nat * list Z) : option (nat * Z * (nat * list Z)) :=
  match fuel with
  | O => None
  | S fuel =>
      if (sidx <? length data - 2)%nat then
        w ← (if insertLFs && negb (count =? 0) && (Z.rem count 76 =? 0) then put cLF w else Some w);
        let count := if insertLFs then int32 (count + 4) else count in
        a ← charAt data sidx; b ← charAt data (S sidx); c ← charAt data (S (S sidx));
        w ← putDigit (digit0 a) w;
        w ← putDigit (digit1 a b) w;
        w ← putDigit (digit2 b c) w;
        w ← putDigit (digit3 c) w;
        encodeGroups fuel insertLFs data (sidx + 3) count w
      else Some (sidx, count, w)
  end.

(** The one or two bytes that are left. *)
Definition encodeTail (insertLFs : bool) (data : list Z) (sidx : nat) (count : Z) (w : nat * list Z) : option (nat * list Z) :=
  if (sidx <? length data)%nat then
    w ← (if insertLFs && (count >? 0) && (Z.rem count 76 =? 0) then put cLF w else Some w);
    a ← charAt data sidx;
    w ← putDigit (digit0 a) w;
    if (sidx <? length data - 1)%nat then
      b ← charAt data (S sidx);
      w ← putDigit (digit1 a b) w;
      putDigit (Z.land (Z.shiftl b 2) 63) w
    else putDigit (Z.land (Z.shiftl a 4) 63) w
  else Some w.

Fixpoint padLoop (fuel : nat) (w : nat * list Z) : option (list Z) :=
  match fuel with
  | O => None
  | S fuel => if (fst w <? length (snd w))%nat then w ← put "="%uchar w; padLoop fuel w else Some (snd w)
  end.
Definition addPadding (policy : Base64EncodePolicy) (w : nat * list Z) : option (list Z) :=
  match policy with
  | Base64URLPolicy => Some (take (fst w) (snd w))
  | _ => padLoop (S (length (snd w))) w
  end.

Definition base64EncodeInternal (memory : nat -> Z) (data : list Z) (policy : Base64EncodePolicy) : option (list Z) :=
  let len := Z.of_nat (length data) in
  if len =? 0 then Some []
  else if len >? maxInputBufferSize then Some []
  else
    let outLength := encodedLength len in
    let insertLFs := insertsLFs policy outLength in
    let out := growFrom memory (addLFs insertLFs outLength) in
    '(sidx, count, w) ← (if len >? 1 then encodeGroups (length data) insertLFs data 0 0 (0%nat, out) else Some (0%nat, 0, (0%nat, out)));
    w ← encodeTail insertLFs data sidx count w;
    addPadding policy w.
End Encode.

Definition base64Encode : (nat -> Z) -> list Z -> Base64EncodePolicy -> option (list Z) := base64EncodeInternal base64EncMap.
Definition base64URLEncode (memory : nat -> Z) (data : list Z) : option (list Z) := base64EncodeInternal base64URLEncMap memory data Base64URLPolicy.

(** ** Decoding *)

Section Decode.
Context `{CharDirection}.
Variables (decodeMap : list Z) (policy : Base64DecodePolicy) (memory : nat -> Z).

Definition decodedCharacter (ch : Z) : Z := if ch <? 128 then nth (Z.to_nat ch) decodeMap nonAlphabet else nonAlphabet.

(** Whether a character that is no digit is an error; [isSpaceOrNewline] takes a [UChar]. *)
Definition rejects (ch : Z) : bool :=
  match policy with
  | Base64FailOnInvalidCharacterOrExcessPadding | Base64FailOnInvalidCharacter => true
  | Base64IgnoreWhitespace => negb (isSpaceOrNewline (ch mod 2 ^ 16))
  | Base64IgnoreInvalidCharacters => false
  end.
Definition rejectsPadding (length equalsSignCount : Z) : bool :=
  bool_decide (policy = Base64FailOnInvalidCharacterOrExcessPadding) && (negb (length mod 4 =? 0) || (equalsSignCount >? 2)).

(** What the first loop ends with. *)
Inductive DigitScan := ScanFails (out : list Z) | ScanDone (equalsSignCount : Z) (outLength : nat) (out : list Z).

(** The values of the digits go to the front of the vector. *)
Fixpoint scanDigits (length : Z) (chars : list Z) (equalsSignCount : Z) (outLength : nat) (out : list Z) : option DigitScan :=
  match chars with
  | [] => Some (ScanDone equalsSignCount outLength out)
  | ch :: chars =>
      if ch =? "="%uchar then
        let equalsSignCount := uint32 (equalsSignCount + 1) in
        if rejectsPadding length equalsSignCount then Some (ScanFails out)
        else scanDigits length chars equalsSignCount outLength out
      else if negb (decodedCharacter ch =? nonAlphabet) then
        if negb (equalsSignCount =? 0) then Some (ScanFails out)
        else out ← store outLength (decodedCharacter ch) out; scanDigits length chars equalsSignCount (S outLength) out
      else if rejects ch then Some (ScanFails out)
      else scanDigits length chars equalsSignCount outLength out
  end.

(** The bytes of a group of four digits. *)
Definition byte0 (o0 o1 : Z) : Z := Z.lor (Z.land (Z.shiftl o0 2) 255) (Z.land (Z.shiftr o1 4) 3).
Definition byte1 (o1 o2 : Z) : Z := Z.lor (Z.land (Z.shiftl o1 4) 255) (Z.land (Z.shiftr o2 2) 15).
Definition byte2 (o2 o3 : Z) : Z := Z.lor (Z.land (Z.shiftl o2 6) 255) (Z.land o3 63).

(** [out[didx] = f(out[i], out[i + 1])]. *)
Definition combine (f : Z -> Z -> Z) (didx i : nat) (out : list Z) : option (list Z) :=
  a ← charAt out i; b ← charAt out (S i); store didx (f a b) out.

(** Four digits become three bytes, in the same vector. *)
Fixpoint packLoop (fuel outLength sidx didx : nat) (out : list Z) : option (nat * nat * list Z) :=
  match fuel with
  | O => None
  | S fuel =>
      if (didx <? outLength - 2)%nat then
        out ← combine byte0 didx sidx out;
        out ← combine byte1 (S didx) (S sidx) out;
        out ← combine byte2 (S (S didx)) (S (S sidx)) out;
        packLoop fuel outLength (sidx + 4) (didx + 3) out
      else Some (sidx, didx, out)
  end.

Definition pack (outLength : nat) (out : list Z) : option (list Z) :=
  '(sidx, didx, out) ← (if (1 <? outLength)%nat then packLoop (S outLength) outLength 0 0 out else Some (0%nat, 0%nat, out));
  out ← (if (didx <? outLength)%nat then combine byte0 didx sidx out else Some out);
  out ← (if (S didx <? outLength)%nat then combine byte1 (S didx) (S sidx) out else Some out);
  Some (if (outLength <? length out)%nat then take outLength out else out).

Definition finishDecoding (equalsSignCount : Z) (outLength : nat) (out : list Z) : option (bool * list Z) :=
  if (outLength =? 0)%nat then Some (equalsSignCount =? 0, out)
  else if (outLength mod 4 =? 1)%nat then Some (false, out)
  else
    let outLength := (outLength - (outLength + 3) / 4)%nat in
    if (outLength =? 0)%nat then Some (false, out) else out ← pack outLength out; Some (true, out).

(** The characters are given as [unsigned] values: those of a [UChar] or of a [char]. *)
Definition base64DecodeInternal (chars : list Z) : option (bool * list Z) :=
  match chars with
  | [] => Some (true, [])
  | _ =>
      scanned ← scanDigits (Z.of_nat (length chars)) chars 0 0 (growFrom memory (Z.of_nat (length chars)));
      match scanned with
      | ScanFails out => Some (false, out)
      | ScanDone equalsSignCount outLength out => finishDecoding equalsSignCount outLength out
      end
  end.
End Decode.

(** A [char] converted to [unsigned]. *)
Definition unsignedOfChar (b : Z) : Z := uint32 (charValue b).

Section Decoders.
Context `{CharDirection}.
Definition base64DecodeString (policy : Base64DecodePolicy) (memory : nat -> Z) (text : list UChar) : option (bool * list Z) :=
  base64DecodeInternal base64DecMap policy memory text.
Definition base64DecodeChars (policy : Base64DecodePolicy) (memory : nat -> Z) (data : list Z) : option (bool * list Z) :=
  base64DecodeInternal base64DecMap policy memory (map unsignedOfChar data).
Definition base64DecodeVector (policy : Base64DecodePolicy) (memory : nat -> Z) (data : list Z) : option (bool * list Z) :=
  if Z.of_nat (length data) >? UINT_MAX then Some (false, []) else base64DecodeChars policy memory data.
Definition base64URLDecodeString (memory : nat -> Z) (text : list UChar) : option (bool * list Z) :=
  base64DecodeInternal base64URLDecMap Base64FailOnInvalidCharacter memory text.
Definition base64URLDecodeChars (memory : nat -> Z) (data : list Z) : option (bool * list Z) :=
  base64DecodeInternal base64URLDecMap Base64FailOnInvalidCharacter memory (map unsignedOfChar data).
Definition base64URLDecodeVector (memory : nat -> Z) (data : list Z) : option (bool * list Z) :=
  if Z.of_nat (length data) >? UINT_MAX then Some (false, []) else base64URLDecodeChars memory data.
End Decoders.

(** ** [btoa] and [atob]

    A [String] is [None] when it is null; one made of an empty vector is, because the
    vector has no buffer.  [inl] is an exception. *)

Inductive ExceptionCode := INVALID_CHARACTER_ERR.

(** [String(vector.data(), vector.size())]. *)
Definition stringOfVector (v : list Z) : option (list UChar) := match v with [] => None | _ => Some v end.

(** A string of 8 bit characters has no others. *)
Definition containsOnlyLatin1 (is8Bit : bool) (s : list UChar) : bool :=
  match s with
  | [] => true
  | _ => if is8Bit then true else Z.land (fold_left Z.lor s 0) 0xFF00 =? 0
  end.
Definition latin1 (is8Bit : bool) (s : list UChar) : list Z := if is8Bit then s else map (fun ch => if ch >? 0xff then "?"%uchar else ch) s.

Definition btoa (memory : nat -> Z) (is8Bit : bool) (stringToEncode : option (list UChar)) : option (ExceptionCode + option (list UChar)) :=
  match stringToEncode with
  | None => Some (inr None)
  | Some s =>
      if negb (containsOnlyLatin1 is8Bit s) then Some (inl INVALID_CHARACTER_ERR)
      else result ← base64Encode memory (latin1 is8Bit s) Base64DoNotInsertLFs; Some (inr (stringOfVector result))
  end.

Definition atob `{CharDirection} (memory : nat -> Z) (is8Bit : bool) (encodedString : option (list UChar)) : option (ExceptionCode + option (list UChar)) :=
  match encodedString with
  | None => Some (inr None)
  | Some s =>
      if negb (containsOnlyLatin1 is8Bit s) then Some (inl INVALID_CHARACTER_ERR)
      else
        '(ok, out) ← base64DecodeString Base64FailOnInvalidCharacterOrExcessPadding memory s;
        Some (if ok : bool then inr (stringOfVector out) else inl INVALID_CHARACTER_ERR)
  end.
