(* ===== verification/Base64Spec.v ===== *)
(** * Base64 against RFC 4648

    The digits of a text are its bits in groups of six; the encoder prints them, in
    lines and with padding as its policy says, and stays within the vector it
    allocates.  The decoder says exactly which texts are encodings, and reads back
    what the encoder has printed. *)

From S2P Require Import Prelude BitStrings IntegerParsing IntegerParsingSpec Base64.
Open Scope Z_scope.

(** ** The specification *)

(** A group of at most six bits, completed with zeros. *)
Definition sextet (group : list bool) : Z := ofBits (group ++ replicate (6 - length group) false).
Definition sextetsOf (data : list Z) : list Z := map sextet (chunksOf 6 (bitsOf data)).

Fixpoint joinLines (lines : list (list Z)) : list Z :=
  match lines with
  | [] => []
  | [line] => line
  | line :: lines => line ++ [cLF] ++ joinLines lines
  end.

Definition paddingFor (data : list Z) : list Z := replicate ((3 - length data mod 3) mod 3) "="%uchar.

Section Spec.
Variable encodeMap : list Z.
Definition letterOf (digit : Z) : Z := nth (Z.to_nat digit) encodeMap 0.
Definition encodeSpec (policy : Base64EncodePolicy) (data : list Z) : list Z :=
  let text := map letterOf (sextetsOf data) in
  match policy with
  | Base64DoNotInsertLFs => text ++ paddingFor data
  | Base64InsertLFs => joinLines (chunksOf 76 (text ++ paddingFor data))
  | Base64URLPolicy => text
  end.
End Spec.

(** The whole bytes among the bits of the digits. *)
Definition bytesOfDigits (digits : list Z) : list Z :=
  let bits := concat (map (toBits 6) digits) in map ofBits (chunksOf 8 (take (length bits / 8 * 8) bits)).

Definition isSextet (d : Z) : Prop := 0 <= d < 64.

(** ** Digits of three bytes *)

Lemma charValue_mod b : isByte b -> exists k, charValue b = b + k * 256.
Proof. intros HB. unfold charValue. destruct (b <? 128); [exists 0|exists (-1)]; lia. Qed.

Ltac char_value b := let k := fresh "k" in destruct (charValue_mod b) as (k & ->); [done|].

Lemma land_63 a : Z.land a 63 = a mod 64.
Proof. exact (land_low a 6 ltac:(lia)). Qed.
Lemma land_15 a : Z.land a 15 = a mod 16.
Proof. exact (land_low a 4 ltac:(lia)). Qed.
Lemma land_3 a : Z.land a 3 = a mod 4.
Proof. exact (land_low a 2 ltac:(lia)). Qed.
Lemma land_255 a : Z.land a 255 = a mod 256.
Proof. exact (land_low a 8 ltac:(lia)). Qed.
Lemma shiftr_div a n m : 0 <= n -> m = 2 ^ n -> Z.shiftr a n = a / m.
Proof. intros Hn ->. by apply Z.shiftr_div_pow2. Qed.
Lemma shiftl_mul a n m : 0 <= n -> m = 2 ^ n -> Z.shiftl a n = a * m.
Proof. intros Hn ->. by apply Z.shiftl_mul_pow2. Qed.

Lemma digit0_spec a : isByte a -> digit0 (charValue a) = a / 4.
Proof. intros HA. unfold digit0, isByte in *. char_value a. rewrite land_63, (shiftr_div _ 2 4) by done. div_lia. Qed.
Lemma digitLow_spec a : isByte a -> Z.land (Z.shiftl (charValue a) 4) 63 = (a mod 4) * 2 ^ 4.
Proof. intros HA. unfold isByte in *. char_value a. rewrite land_63, (shiftl_mul _ 4 16) by done. change (2 ^ 4) with 16. div_lia. Qed.
Lemma digitMid_spec b : isByte b -> Z.land (Z.shiftl (charValue b) 2) 63 = (b mod 16) * 2 ^ 2.
Proof. intros HB. unfold isByte in *. char_value b. rewrite land_63, (shiftl_mul _ 2 4) by done. change (2 ^ 2) with 4. div_lia. Qed.
Lemma digit1_spec a b : isByte a -> isByte b -> digit1 (charValue a) (charValue b) = (a mod 4) * 16 + b / 16.
Proof.
  intros HA HB. unfold digit1. rewrite digitLow_spec by done. unfold isByte in *. char_value b. rewrite land_15, (shiftr_div _ 4 16) by done.
  rewrite lor_disjoint by div_lia. change (2 ^ 4) with 16. div_lia.
Qed.
Lemma digit2_spec b c : isByte b -> isByte c -> digit2 (charValue b) (charValue c) = (b mod 16) * 4 + c / 64.
Proof.
  intros HB HC. unfold digit2. rewrite digitMid_spec by done. unfold isByte in *. char_value c. rewrite land_3, (shiftr_div _ 6 64) by done.
  rewrite lor_disjoint by div_lia. change (2 ^ 2) with 4. div_lia.
Qed.
Lemma digit3_spec c : isByte c -> digit3 (charValue c) = c mod 64.
Proof. intros HC. unfold digit3, isByte in *. char_value c. rewrite land_63. div_lia. Qed.

(** A byte in two parts. *)
Lemma byte_bits m n b : (m + n = 8)%nat -> toBits 8 b = toBits m (b / 2 ^ Z.of_nat n) ++ toBits n b.
Proof. intros <-. apply toBits_app. Qed.

Lemma sextet_full g : length g = 6%nat -> sextet g = ofBits g.
Proof. intros HG. unfold sextet. rewrite HG. cbn [Nat.sub replicate]. by rewrite app_nil_r. Qed.

Lemma sextet_two m n a b : (m + n = 6)%nat -> sextet (toBits m a ++ toBits n b) = (a mod 2 ^ Z.of_nat m) * 2 ^ Z.of_nat n + b mod 2 ^ Z.of_nat n.
Proof. intros HM. rewrite sextet_full by (rewrite length_app, !length_toBits; done). by rewrite ofBits_app, length_toBits, !ofBits_toBits_mod. Qed.

Lemma sextet_one a : sextet (toBits 6 a) = a mod 64.
Proof. rewrite sextet_full by apply length_toBits. apply ofBits_toBits_mod. Qed.

Lemma sextet_part m a : (m <= 6)%nat -> sextet (toBits m a) = (a mod 2 ^ Z.of_nat m) * 2 ^ Z.of_nat (6 - m).
Proof. intros HM. unfold sextet. rewrite ofBits_app, length_toBits, ofBits_toBits_mod, length_replicate, ofBits_zeros. lia. Qed.

Lemma sextetsOf_nil : sextetsOf [] = [].
Proof. done. Qed.

Lemma sextetsOf_three a b c rest : isByte a -> isByte b -> isByte c ->
  sextetsOf (a :: b :: c :: rest) = [a / 4; (a mod 4) * 16 + b / 16; (b mod 16) * 4 + c / 64; c mod 64] ++ sextetsOf rest.
Proof.
  unfold isByte. intros HA HB HC. unfold sextetsOf. rewrite !bitsOf_cons, (byte_bits 6 2 a), (byte_bits 4 4 b), (byte_bits 2 6 c) by done.
  rewrite <- !app_assoc. rewrite (chunksOf_app 6) by (rewrite ?length_toBits; lia).
  rewrite (app_assoc (toBits 2 a)), (chunksOf_app 6) by (rewrite ?length_app, ?length_toBits; lia).
  rewrite (app_assoc (toBits 4 b)), (chunksOf_app 6) by (rewrite ?length_app, ?length_toBits; lia). rewrite (chunksOf_app 6) by (rewrite ?length_toBits; lia).
  cbn [map app]. rewrite !sextet_two, !sextet_one by done. cbn [Z.of_nat Pos.of_succ_nat Pos.succ]. repeat f_equal; div_lia.
Qed.

Lemma sextetsOf_one a : isByte a -> sextetsOf [a] = [a / 4; (a mod 4) * 16].
Proof.
  unfold isByte. intros HA. unfold sextetsOf. rewrite bitsOf_cons, (byte_bits 6 2 a) by done. rewrite <- app_assoc, (chunksOf_app 6) by (rewrite ?length_toBits; lia).
  rewrite chunksOf_short by (rewrite length_app, length_toBits; cbn; lia). cbn [map bitsOf concat]. rewrite app_nil_r, sextet_one, sextet_part by lia.
  cbn [Z.of_nat Pos.of_succ_nat Pos.succ Nat.sub]. repeat f_equal; div_lia.
Qed.

Lemma sextetsOf_two a b : isByte a -> isByte b -> sextetsOf [a; b] = [a / 4; (a mod 4) * 16 + b / 16; (b mod 16) * 4].
Proof.
  unfold isByte. intros HA HB. unfold sextetsOf. rewrite !bitsOf_cons, (byte_bits 6 2 a), (byte_bits 4 4 b) by done.
  rewrite <- !app_assoc. rewrite (chunksOf_app 6) by (rewrite ?length_toBits; lia).
  rewrite (app_assoc (toBits 2 a)), (chunksOf_app 6) by (rewrite ?length_app, ?length_toBits; lia).
  rewrite chunksOf_short by (rewrite length_app, length_toBits; cbn; lia). cbn [map bitsOf concat]. rewrite app_nil_r, sextet_one, sextet_two, sextet_part by lia.
  cbn [Z.of_nat Pos.of_succ_nat Pos.succ Nat.sub]. repeat f_equal; div_lia.
Qed.

(** ** Groups of three bytes *)

Fixpoint flat3 (groups : list (Z * Z * Z)) : list Z :=
  match groups with
  | [] => []
  | (a, b, c) :: groups => a :: b :: c :: flat3 groups
  end.

Lemma groups3 (data : list Z) : exists groups rest, data = flat3 groups ++ rest /\ (length rest < 3)%nat.
Proof.
  induction data as [data IH] using (induction_ltof1 _ (@length Z)). unfold ltof in IH.
  destruct data as [|a [|b [|c data]]]; [by exists [], []; split; [|cbn; lia]|by exists [], [a]; split; [|cbn; lia]|by exists [], [a; b]; split; [|cbn; lia]|].
  destruct (IH data) as (groups & rest & -> & HR); [cbn; lia|]. by exists ((a, b, c) :: groups), rest.
Qed.

Lemma length_flat3 groups : length (flat3 groups) = (3 * length groups)%nat.
Proof. induction groups as [|[[a b] c] groups IH]; [done|]. cbn [flat3 length]. rewrite IH. lia. Qed.

Definition digits3 (g : Z * Z * Z) : list Z := let '(a, b, c) := g in [a / 4; (a mod 4) * 16 + b / 16; (b mod 16) * 4 + c / 64; c mod 64].

Lemma sextetsOf_groups groups rest : Forall isByte (flat3 groups ++ rest) -> sextetsOf (flat3 groups ++ rest) = concat (map digits3 groups) ++ sextetsOf rest.
Proof.
  induction groups as [|[[a b] c] groups IH]; [done|]. cbn [flat3 app map concat digits3]. intros HF.
  apply Forall_cons in HF as [HA HF]. apply Forall_cons in HF as [HB HF]. apply Forall_cons in HF as [HC HF].
  by rewrite sextetsOf_three, IH by done.
Qed.

(** ** Writing *)

(** What is written, and what is left of the vector. *)
Definition writer (written left : list Z) : nat * list Z := (length written, written ++ left).

Lemma put_writer c l x r : isByte c -> put c (writer l (x :: r)) = Some (writer (l ++ [c]) r).
Proof.
  intros HC. unfold put, writer. cbn [fst snd]. rewrite store_app by done. cbn [mbind option_bind].
  rewrite length_app, <- app_assoc. cbn [app length]. by rewrite Nat.add_comm.
Qed.

(** What the encoder relies on in its table. *)
Definition isAlphabet (encodeMap : list Z) : Prop := length encodeMap = 64%nat /\ Forall isByte encodeMap.

Section Encoder.
Variable encodeMap : list Z.
Hypothesis alphabet : isAlphabet encodeMap.

Abbreviation letter := (letterOf encodeMap).

Lemma putDigit_writer d l x r : isSextet d -> putDigit encodeMap d (writer l (x :: r)) = Some (writer (l ++ [letter d]) r).
Proof.
  destruct alphabet as [map_size map_bytes]. unfold isSextet. intros HD. unfold putDigit, letterOf. destruct (encodeMap !! Z.to_nat d) as [c|] eqn:E.
  - cbn [mbind option_bind]. rewrite put_writer by (eapply Forall_lookup_1; [exact map_bytes|exact E]). by rewrite (nth_lookup_Some _ _ _ _ E).
  - apply lookup_ge_None in E. lia.
Qed.

(** Letters, with a line feed before each group that begins a line. *)
Definition lineFeed (insertLFs : bool) (i : Z) : list Z := if insertLFs && negb (i =? 0) && (i mod 19 =? 0) then [cLF] else [].
Fixpoint withLFs (insertLFs : bool) (i : Z) (groups : list (list Z)) : list Z :=
  match groups with
  | [] => []
  | group :: groups => lineFeed insertLFs i ++ group ++ withLFs insertLFs (i + 1) groups
  end.

Lemma withLFs_app ins i l r : withLFs ins i (l ++ r) = withLFs ins i l ++ withLFs ins (i + Z.of_nat (length l)) r.
Proof.
  revert i. induction l as [|g l IH]; intros i; cbn [withLFs app length]; [by rewrite Z.add_0_r|]. rewrite IH, <- !app_assoc, Nat2Z.inj_succ. by replace (i + Z.succ (Z.of_nat (length l))) with (i + 1 + Z.of_nat (length l)) by lia.
Qed.

Lemma withLFs_false i l : withLFs false i l = concat l.
Proof. revert i. induction l as [|g l IH]; intros i; cbn [withLFs concat]; [done|]. by rewrite IH. Qed.

(** The line feed of the code. *)
Definition countOf (insertLFs : bool) (i : Z) : Z := if insertLFs then 4 * i else 0.

Lemma put_lineFeed ins i l left : 0 <= i -> (length (lineFeed ins i) <= length left)%nat ->
  (if ins && negb (countOf ins i =? 0) && (Z.rem (countOf ins i) 76 =? 0) then put cLF (writer l left) else Some (writer l left)) =
  Some (writer (l ++ lineFeed ins i) (drop (length (lineFeed ins i)) left)).
Proof.
  intros Hi. unfold lineFeed, countOf. destruct ins; cbn [andb]; [|by rewrite app_nil_r]. rewrite Z.rem_mod_nonneg by lia.
  replace (4 * i =? 0) with (i =? 0) by (destruct (Z.eqb_spec i 0), (Z.eqb_spec (4 * i) 0); lia || done).
  replace ((4 * i) mod 76 =? 0) with (i mod 19 =? 0) by (destruct (Z.eqb_spec (i mod 19) 0), (Z.eqb_spec ((4 * i) mod 76) 0); try done; div_lia).
  destruct (negb (i =? 0) && (i mod 19 =? 0)); [|by rewrite app_nil_r]. cbn [length]. intros HL. destruct left as [|x left]; [cbn in HL; lia|].
  by rewrite put_writer by (unfold isByte; lia).
Qed.

Lemma charAt_app l x r : charAt (l ++ x :: r) (length l) = Some (charValue x).
Proof. unfold charAt. by rewrite list_lookup_middle. Qed.
Lemma charAt_skip l n r : charAt (l ++ r) (length l + n) = charAt r n.
Proof. unfold charAt. rewrite lookup_app_r by lia. by replace (length l + n - length l)%nat with n by lia. Qed.

Lemma cut4 (l : list Z) : (4 <= length l)%nat -> exists x y z t l', l = x :: y :: z :: t :: l'.
Proof. destruct l as [|x [|y [|z [|t l]]]]; cbn [length]; try lia. by eauto 10. Qed.

Lemma sextets3 a b c : isByte a -> isByte b -> isByte c -> Forall isSextet (digits3 (a, b, c)).
Proof. unfold isByte, isSextet, digits3. intros HA HB HC. repeat apply Forall_cons_2; try apply Forall_nil_2; div_lia. Qed.

Definition letters3 (g : Z * Z * Z) : list Z := map letter (digits3 g).

Lemma count_next ins i : 0 <= i -> (ins = true -> 4 * (i + 1) < 2 ^ 31) -> (if ins then int32 (countOf ins i + 4) else countOf ins i) = countOf ins (i + 1).
Proof. intros Hi HC. destruct ins; cbn [countOf]; [|done]. rewrite int32_id; [lia|]. specialize (HC eq_refl). lia. Qed.

(** One round of the loop. *)
Lemma encode_round ins i pre a b c rest fuel written left : 0 <= i -> (ins = true -> 4 * (i + 1) < 2 ^ 31) -> isByte a -> isByte b -> isByte c ->
  (length (lineFeed ins i ++ letters3 (a, b, c)) <= length left)%nat ->
  encodeGroups encodeMap (S fuel) ins (pre ++ a :: b :: c :: rest) (length pre) (countOf ins i) (writer written left) =
  encodeGroups encodeMap fuel ins (pre ++ a :: b :: c :: rest) (length pre + 3) (countOf ins (i + 1))
    (writer (written ++ lineFeed ins i ++ letters3 (a, b, c)) (drop (length (lineFeed ins i ++ letters3 (a, b, c))) left)).
Proof.
  intros Hi HC HA HB HCc HL. cbn [encodeGroups]. rewrite (proj2 (Nat.ltb_lt _ _)) by (rewrite length_app; cbn [length]; lia).
  rewrite length_app in HL. rewrite put_lineFeed by lia. cbn [mbind option_bind]. rewrite count_next by done.
  rewrite charAt_app. replace (S (length pre)) with (length pre + 1)%nat by lia. replace (S (length pre + 1)) with (length pre + 2)%nat by lia.
  rewrite !charAt_skip. cbn [charAt lookup list_lookup mbind option_bind].
  rewrite digit0_spec, digit1_spec, digit2_spec, digit3_spec by done. pose proof (sextets3 a b c HA HB HCc) as HS. rewrite length_app, <- drop_drop.
  destruct (cut4 (drop (length (lineFeed ins i)) left)) as (x & y & z & t & left' & EL); [rewrite length_drop; cbn [letters3 digits3 map length] in HL; lia|].
  rewrite EL. unfold digits3 in HS. apply Forall_cons in HS as [H0 HS]. apply Forall_cons in HS as [H1 HS]. apply Forall_cons in HS as [H2 HS]. apply Forall_cons in HS as [H3 _].
  do 4 (rewrite putDigit_writer by done; cbn [mbind option_bind]). cbn [letters3 digits3 map length drop]. by rewrite <- !app_assoc.
Qed.

Lemma encodeGroups_spec ins groups : forall i pre rest fuel written left (text := withLFs ins i (map letters3 groups)),
  0 <= i -> Forall isByte (flat3 groups) -> (length rest < 3)%nat -> (length groups < fuel)%nat -> (ins = true -> 4 * (i + Z.of_nat (length groups)) < 2 ^ 31) ->
  (length text <= length left)%nat ->
  encodeGroups encodeMap fuel ins (pre ++ flat3 groups ++ rest) (length pre) (countOf ins i) (writer written left) =
  Some ((length pre + length (flat3 groups))%nat, countOf ins (i + Z.of_nat (length groups)), writer (written ++ text) (drop (length text) left)).
Proof.
  induction groups as [|[[a b] c] groups IH]; intros i pre rest fuel written left text Hi HF HR Hfuel HC HL; (destruct fuel as [|fuel]; [lia|]).
  - cbn [encodeGroups flat3 app length]. rewrite (proj2 (Nat.ltb_ge _ _)) by (rewrite length_app; lia). subst text. cbn [map withLFs length drop]. by rewrite app_nil_r, Nat.add_0_r, Z.add_0_r.
  - cbn [flat3 app map withLFs length] in *. apply Forall_cons in HF as [HA HF]. apply Forall_cons in HF as [HB HF]. apply Forall_cons in HF as [HCc HF].
    subst text. rewrite app_assoc in HL. rewrite length_app in HL. rewrite encode_round by (done || lia || (intros Hins; specialize (HC Hins); lia)).
    specialize (IH (i + 1) (pre ++ [a; b; c]) rest fuel (written ++ lineFeed ins i ++ letters3 (a, b, c)) (drop (length (lineFeed ins i ++ letters3 (a, b, c))) left)).
    rewrite <- (app_assoc pre), (length_app pre) in IH. cbn [app length] in IH. rewrite IH by (rewrite ?length_drop; done || lia || (intros Hins; specialize (HC Hins); lia)).
    rewrite <- !app_assoc, drop_drop, !length_app. rewrite Nat2Z.inj_succ.
    replace (i + 1 + Z.of_nat (length groups)) with (i + Z.succ (Z.of_nat (length groups))) by lia. f_equal. f_equal; [f_equal; lia|f_equal; f_equal; lia].
Qed.

(** The one or two bytes at the end, without their padding. *)
Definition tailPart (rest : list Z) : list (list Z) := match rest with [] => [] | _ => [map letter (sextetsOf rest)] end.

Lemma encodeTail_spec ins i pre rest written left (text := withLFs ins i (tailPart rest)) :
  0 <= i -> Forall isByte rest -> (length rest < 3)%nat -> (length text <= length left)%nat ->
  encodeTail encodeMap ins (pre ++ rest) (length pre) (countOf ins i) (writer written left) = Some (writer (written ++ text) (drop (length text) left)).
Proof.
  intros Hi HF HR. subst text. unfold encodeTail. destruct rest as [|a rest].
  { rewrite (proj2 (Nat.ltb_ge _ _)) by (rewrite app_nil_r; lia). cbn [tailPart withLFs length drop]. by rewrite app_nil_r. }
  rewrite (proj2 (Nat.ltb_lt _ _)) by (rewrite length_app; cbn [length]; lia). cbn [tailPart withLFs]. rewrite app_nil_r, length_app. intros HL.
  replace (countOf ins i >? 0) with (negb (countOf ins i =? 0)) by (unfold countOf; destruct ins; [|done]; destruct (Z.eqb_spec (4 * i) 0), (Z.gtb_spec (4 * i) 0); done || lia).
  rewrite put_lineFeed by lia. cbn [mbind option_bind]. rewrite charAt_app. cbn [mbind option_bind].
  apply Forall_cons in HF as [HA HF]. rewrite digit0_spec by done. destruct rest as [|b [|c rest]]; [| |cbn in HR; lia].
  - rewrite sextetsOf_one in * by done. cbn [map length] in HL. rewrite (proj2 (Nat.ltb_ge _ _)) by (rewrite length_app; cbn [length]; lia).
    destruct (drop (length (lineFeed ins i)) left) as [|x [|y left']] eqn:EL; [apply (f_equal length) in EL; rewrite length_drop in EL; cbn in EL; lia..|].
    rewrite putDigit_writer by (unfold isByte, isSextet in *; div_lia). cbn [mbind option_bind]. rewrite digitLow_spec by done. change (2 ^ 4) with 16.
    rewrite putDigit_writer by (unfold isByte, isSextet in *; div_lia). rewrite <- drop_drop, EL. cbn [map length drop]. by rewrite <- !app_assoc.
  - apply Forall_cons in HF as [HB HF]. rewrite sextetsOf_two in * by done. cbn [map length] in HL. rewrite (proj2 (Nat.ltb_lt _ _)) by (rewrite length_app; cbn [length]; lia).
    destruct (drop (length (lineFeed ins i)) left) as [|x [|y [|z left']]] eqn:EL; [apply (f_equal length) in EL; rewrite length_drop in EL; cbn in EL; lia..|].
    rewrite putDigit_writer by (unfold isByte, isSextet in *; div_lia). cbn [mbind option_bind]. replace (S (length pre)) with (length pre + 1)%nat by lia. rewrite charAt_skip.
    cbn [charAt lookup list_lookup mbind option_bind]. rewrite digit1_spec, digitMid_spec by done. change (2 ^ 2) with 4.
    do 2 (rewrite putDigit_writer by (unfold isByte, isSextet in *; div_lia); cbn [mbind option_bind]). rewrite <- drop_drop, EL. cbn [map length drop]. by rewrite <- !app_assoc.
Qed.

Lemma padLoop_spec left : forall fuel written, (length left < fuel)%nat -> padLoop fuel (writer written left) = Some (written ++ replicate (length left) "="%uchar).
Proof.
  induction left as [|x left IH]; intros [|fuel] written HF; cbn [length] in HF; try lia; cbn [padLoop].
  - unfold writer. cbn [fst snd]. rewrite (proj2 (Nat.ltb_ge _ _)) by (rewrite app_nil_r; lia). done.
  - unfold writer at 1 2. cbn [fst snd]. rewrite (proj2 (Nat.ltb_lt _ _)) by (rewrite length_app; cbn [length]; lia).
    rewrite put_writer by (unfold isByte; cbn; lia). cbn [mbind option_bind]. rewrite IH by lia. cbn [replicate length]. by rewrite <- app_assoc.
Qed.

(** ** Lines *)

Lemma length_lineFeed i : 1 <= i -> Z.of_nat (length (lineFeed true i)) = i / 19 - (i - 1) / 19.
Proof.
  intros Hi. unfold lineFeed. cbn [andb]. rewrite (proj2 (Z.eqb_neq i 0)) by lia. cbn [negb andb].
  destruct (Z.eqb_spec (i mod 19) 0); cbn [length]; div_lia.
Qed.

Lemma length_withLFs l : forall i, 1 <= i -> Z.of_nat (length (withLFs true i l)) = Z.of_nat (length (concat l)) + (i + Z.of_nat (length l) - 1) / 19 - (i - 1) / 19.
Proof.
  induction l as [|g l IH]; intros i Hi; cbn [withLFs concat length]; [rewrite Z.add_0_r; lia|]. rewrite !length_app, !Nat2Z.inj_add, IH, length_lineFeed, Nat2Z.inj_succ by lia.
  replace (i + 1 - 1) with i by lia. replace (i + 1 + Z.of_nat (length l) - 1) with (i + Z.succ (Z.of_nat (length l)) - 1) by lia. lia.
Qed.

Lemma length_withLFs_all l : l <> [] -> Z.of_nat (length (withLFs true 0 l)) = Z.of_nat (length (concat l)) + (Z.of_nat (length l) - 1) / 19.
Proof.
  destruct l as [|g l]; [done|]. intros _. cbn [withLFs concat length lineFeed andb negb Z.eqb app]. rewrite !length_app, !Nat2Z.inj_add, length_withLFs, Nat2Z.inj_succ by lia.
  change ((0 + 1 - 1) / 19) with 0. replace (0 + 1 + Z.of_nat (length l) - 1) with (Z.succ (Z.of_nat (length l)) - 1) by lia. lia.
Qed.

(** Within a line there are none. *)
Lemma withLFs_line l : forall i, 0 < i mod 19 -> i mod 19 + Z.of_nat (length l) <= 19 -> withLFs true i l = concat l.
Proof.
  induction l as [|g l IH]; intros i Hi HL; cbn [withLFs concat]; [done|]. cbn [length] in HL. unfold lineFeed. cbn [andb]. rewrite (proj2 (Z.eqb_neq (i mod 19) 0)) by lia.
  rewrite andb_false_r. destruct l as [|g' l]; [done|]. cbn [length] in *. assert (HM : (i + 1) mod 19 = i mod 19 + 1) by (clear -HL Hi; div_lia). by rewrite IH by (cbn [length]; lia).
Qed.

Lemma withLFs_first_line l j : 0 <= j -> l <> [] -> (length l <= 19)%nat -> withLFs true (19 * j) l = lineFeed true (19 * j) ++ concat l.
Proof.
  intros Hj HN HL. destruct l as [|g l]; [done|]. cbn [withLFs concat]. destruct l as [|g' l]; [done|]. cbn [length] in *.
  assert (HM : (19 * j + 1) mod 19 = 1) by div_lia. by rewrite withLFs_line by (cbn [length]; lia).
Qed.

Lemma lineFeed_line j : 0 < j -> lineFeed true (19 * j) = [cLF].
Proof. intros Hj. unfold lineFeed. cbn [andb]. rewrite (proj2 (Z.eqb_neq _ _)) by lia. by rewrite Z.mul_comm, Z_mod_mult. Qed.

Lemma length_concat_four (l : list (list Z)) : Forall (fun g => length g = 4%nat) l -> length (concat l) = (4 * length l)%nat.
Proof. induction 1 as [|g l HG HF IH]; [done|]. cbn [concat length]. rewrite length_app, HG, IH. lia. Qed.

Lemma withLFs_joinLines l : forall j, 0 <= j -> l <> [] -> Forall (fun g => length g = 4%nat) l -> withLFs true (19 * j) l = lineFeed true (19 * j) ++ joinLines (chunksOf 76 (concat l)).
Proof.
  induction l as [l IH] using (induction_ltof1 _ (@length (list Z))). unfold ltof in IH. intros j Hj HN HF.
  pose proof (length_concat_four l HF) as HC. assert (0 < length l)%nat by (destruct l; [done|cbn; lia]). destruct (Nat.le_gt_cases (length l) 19) as [HL|HL].
  { rewrite withLFs_first_line, chunksOf_short by (done || lia). done. }
  rewrite <- (take_drop 19 l) in HF |- *. apply Forall_app in HF as [HF1 HF2]. pose proof (length_concat_four _ HF1) as HC1. pose proof (length_concat_four _ HF2) as HC2.
  rewrite length_take in HC1. rewrite length_drop in HC2. replace (19 `min` length l)%nat with 19%nat in HC1 by lia.
  rewrite withLFs_app, concat_app, chunksOf_app, length_take by lia. replace (19 * j + Z.of_nat (19 `min` length l)) with (19 * (j + 1)) by lia.
  assert (HN2 : drop 19 l <> []) by (intros E; rewrite E in HC2; cbn [concat length] in HC2; lia).
  assert (HN1 : take 19 l <> []) by (intros E; rewrite E in HC1; cbn [concat length] in HC1; lia).
  rewrite withLFs_first_line, (IH (drop 19 l)), (lineFeed_line (j + 1)) by (rewrite ?length_take, ?length_drop; done || lia).
  rewrite <- app_assoc. do 2 f_equal. destruct (chunksOf 76 (concat (drop 19 l))) as [|l2 ls] eqn:EC; [|done].
  apply (f_equal (@concat Z)) in EC. rewrite concat_chunksOf in EC by lia. rewrite EC in HC2. cbn [concat length] in HC2. lia.
Qed.

(** ** The whole encoder *)

(** The groups of letters, the last one without its padding; and with it. *)
Definition parts (groups : list (Z * Z * Z)) (rest : list Z) : list (list Z) := map letters3 groups ++ tailPart rest.
Definition tailQuad (rest : list Z) : list (list Z) := match rest with [] => [] | _ => [map letter (sextetsOf rest) ++ paddingFor rest] end.

Lemma paddingFor_groups groups rest : paddingFor (flat3 groups ++ rest) = paddingFor rest.
Proof. unfold paddingFor. rewrite length_app, length_flat3, Nat.add_comm, (Nat.mul_comm 3), Nat.Div0.mod_add. done. Qed.

Lemma concat_parts groups rest : Forall isByte (flat3 groups ++ rest) -> concat (parts groups rest) = map letter (sextetsOf (flat3 groups ++ rest)).
Proof.
  intros HF. rewrite sextetsOf_groups by done. unfold parts. rewrite concat_app, map_app. f_equal.
  - clear HF. induction groups as [|g groups IH]; [done|]. cbn [map concat]. by rewrite map_app, IH.
  - destruct rest as [|a rest]; [done|]. cbn [tailPart concat]. by rewrite app_nil_r.
Qed.

Lemma tail_sizes rest : Forall isByte rest -> (length rest < 3)%nat ->
  tailPart rest = [] /\ tailQuad rest = [] /\ paddingFor rest = [] /\ rest = [] \/
  exists part, tailPart rest = [part] /\ tailQuad rest = [part ++ paddingFor rest] /\ (length part + length (paddingFor rest))%nat = 4%nat /\ (0 < length rest)%nat.
Proof.
  intros HF HR. destruct rest as [|a [|b [|c rest]]]; [by left|right|right|cbn in HR; lia]; eexists; (split_and!; [done|done| |cbn; lia]).
  - inv HF. rewrite sextetsOf_one by done. done.
  - inv HF. match goal with H : Forall isByte [b] |- _ => inv H end. rewrite sextetsOf_two by done. done.
Qed.

Lemma letters3_length groups : Forall (fun g => length g = 4%nat) (map letters3 groups).
Proof. induction groups as [|[[a b] c] groups IH]; cbn [map]; [apply Forall_nil_2|by apply Forall_cons_2]. Qed.

(** The padding follows the letters. *)
Lemma withLFs_padded ins groups rest : Forall isByte rest -> (length rest < 3)%nat ->
  withLFs ins 0 (parts groups rest) ++ paddingFor rest = withLFs ins 0 (map letters3 groups ++ tailQuad rest).
Proof.
  intros HF HR. unfold parts. rewrite !withLFs_app, <- app_assoc. f_equal.
  destruct (tail_sizes rest HF HR) as [(-> & -> & -> & _)|(part & -> & -> & _ & _)]; [done|]. cbn [withLFs]. by rewrite !app_nil_r, <- app_assoc.
Qed.

Lemma quads_length groups rest : Forall isByte rest -> (length rest < 3)%nat -> Forall (fun g => length g = 4%nat) (map letters3 groups ++ tailQuad rest).
Proof.
  intros HF HR. apply Forall_app_2; [apply letters3_length|]. destruct (tail_sizes rest HF HR) as [(_ & -> & _)|(part & _ & -> & HL & _)]; [apply Forall_nil_2|].
  apply Forall_cons_2; [by rewrite length_app|apply Forall_nil_2].
Qed.

(** How many groups there are. *)
Definition groupCount (len : Z) : Z := (len + 2) / 3.
Lemma quads_count groups rest : (length rest < 3)%nat ->
  Z.of_nat (length (map letters3 groups ++ tailQuad rest)) = groupCount (Z.of_nat (length (flat3 groups ++ rest))).
Proof.
  intros HR. unfold groupCount. rewrite !length_app, length_map, length_flat3. destruct rest as [|a [|b [|c rest]]]; cbn [tailQuad length] in *; [..|lia]; div_lia.
Qed.

(** The size the code computes does not overflow, and is the size it needs. *)
Lemma encodedLength_spec len : 0 < len <= maxInputBufferSize -> encodedLength len = 4 * groupCount len.
Proof.
  change maxInputBufferSize with 3179391370. intros HL. unfold encodedLength, groupCount, uint32.
  rewrite (Z.mod_small (len + 2)) by lia. rewrite Z.mod_small by div_lia. lia.
Qed.
Lemma addLFs_spec n : 0 < n <= groupCount maxInputBufferSize -> addLFs true (4 * n) = 4 * n + (n - 1) / 19.
Proof.
  change (groupCount maxInputBufferSize) with 1059797124. intros HN. unfold addLFs, uint32. replace ((4 * n - 1) / 76) with ((n - 1) / 19) by div_lia. rewrite Z.mod_small by div_lia. done.
Qed.

Lemma groupCount_bounds len : 0 < len <= maxInputBufferSize -> 0 < groupCount len <= groupCount maxInputBufferSize.
Proof. change maxInputBufferSize with 3179391370. unfold groupCount. intros HL. div_lia. Qed.

(** The vector is as long as the text with its line feeds and its padding. *)
Lemma out_size memory ins groups rest (len := Z.of_nat (length (flat3 groups ++ rest))) :
  Forall isByte rest -> (length rest < 3)%nat -> 0 < len <= maxInputBufferSize ->
  length (growFrom memory (addLFs ins (encodedLength len))) = (length (withLFs ins 0 (parts groups rest)) + length (paddingFor rest))%nat.
Proof.
  intros HF HR HL. rewrite <- length_app, withLFs_padded by done. unfold growFrom. rewrite length_map, length_seq. apply Nat2Z.inj.
  pose proof (length_concat_four _ (quads_length groups rest HF HR)) as HC. pose proof (quads_count groups rest HR) as HQ. fold len in HQ.
  pose proof (groupCount_bounds len HL) as HG. rewrite encodedLength_spec by done. destruct ins.
  - rewrite length_withLFs_all by (intros E; rewrite E in HQ; cbn in HQ; lia). rewrite addLFs_spec by done. rewrite HC, Z2Nat.id by (clear -HG; div_lia).
    rewrite Nat2Z.inj_mul, HQ. done.
  - rewrite withLFs_false. cbn [addLFs]. rewrite HC. lia.
Qed.

(** The text the encoder computes, before its padding. *)
Lemma encode_runs memory ins groups rest (data := flat3 groups ++ rest) (text := withLFs ins 0 (parts groups rest)) (out := growFrom memory (addLFs ins (encodedLength (Z.of_nat (length data))))) :
  Forall isByte data -> (length rest < 3)%nat -> 0 < Z.of_nat (length data) <= maxInputBufferSize -> (ins = true -> Z.of_nat (length data) < 3 * 2 ^ 29) ->
  ('(sidx, count, w) ← (if Z.of_nat (length data) >? 1 then encodeGroups encodeMap (length data) ins data 0 0 (0%nat, out) else Some (0%nat, 0, (0%nat, out)));
   encodeTail encodeMap ins data sidx count w) = Some (writer text (drop (length text) out)).
Proof.
  intros HF HR HL HI. apply Forall_app in HF as [HF1 HF2]. pose proof (out_size memory ins groups rest HF2 HR HL) as HS. fold data in HS. change (length out = (length text + length (paddingFor rest))%nat) in HS.
  set (text1 := withLFs ins 0 (map letters3 groups)). set (n := Z.of_nat (length groups)).
  assert (ET : text = text1 ++ withLFs ins n (tailPart rest)) by (unfold text, parts; rewrite withLFs_app, length_map; done).
  assert (HN : length data = (3 * length groups + length rest)%nat) by (unfold data; rewrite length_app, length_flat3; done).
  assert (HI' : ins = true -> 4 * (0 + n) < 2 ^ 31) by (intros Hins; specialize (HI Hins); lia).
  assert (EL : (if Z.of_nat (length data) >? 1 then encodeGroups encodeMap (length data) ins data 0 0 (0%nat, out) else Some (0%nat, 0, (0%nat, out))) =
    Some (length (flat3 groups), countOf ins n, writer text1 (drop (length text1) out))).
  { destruct (Z.gtb_spec (Z.of_nat (length data)) 1) as [H1|H1].
    - pose proof (encodeGroups_spec ins groups 0 [] rest (length data) [] out) as HE. cbn [app length] in HE. fold data in HE.
      replace (countOf ins 0) with 0 in HE by (by destruct ins).
      change (writer [] out) with (0%nat, out) in HE. rewrite HE; [done|lia|done|done|lia|done|]. fold text1. rewrite ET, length_app in HS. lia.
    - assert (groups = []) as -> by (destruct groups; [done|cbn [length] in HN; lia]). subst text1 n. by destruct ins. }
  rewrite EL. cbn [mbind option_bind]. unfold data. rewrite encodeTail_spec by (rewrite ?length_drop; done || lia || (rewrite ET, length_app in HS; lia)).
  by rewrite drop_drop, ET, length_app.
Qed.

Lemma finish_padding policy text left : policy <> Base64URLPolicy -> addPadding policy (writer text left) = Some (text ++ replicate (length left) "="%uchar).
Proof. intros HP. destruct policy; [| |done]; cbn [addPadding]; apply padLoop_spec; cbn [writer snd]; rewrite length_app; lia. Qed.

Theorem base64EncodeInternal_spec memory data policy : Forall isByte data -> Z.of_nat (length data) <= maxInputBufferSize ->
  (policy = Base64InsertLFs -> Z.of_nat (length data) < 3 * 2 ^ 29) -> base64EncodeInternal encodeMap memory data policy = Some (encodeSpec encodeMap policy data).
Proof.
  intros HF HM HI. destruct (Z.eqb_spec (Z.of_nat (length data)) 0) as [H0|H0]; [destruct data; [by destruct policy|done]|].
  destruct (groups3 data) as (groups & rest & ED & HR). assert (HL : 0 < Z.of_nat (length data) <= maxInputBufferSize) by lia.
  set (ins := insertsLFs policy (encodedLength (Z.of_nat (length data)))).
  assert (HI' : ins = true -> Z.of_nat (length data) < 3 * 2 ^ 29) by (unfold ins, insertsLFs; intros [HB _]%andb_prop; apply HI; by apply bool_decide_eq_true in HB).
  subst data. pose proof (encode_runs memory ins groups rest HF HR HL HI') as HE. cbv zeta in HE. unfold base64EncodeInternal. rewrite (proj2 (Z.eqb_neq _ _)) by done.
  rewrite Z.gtb_ltb, (proj2 (Z.ltb_ge _ _)) by lia. fold ins.
  destruct (if _ >? 1 then _ else _) as [[[sidx count] w]|]; [|done]. cbn [mbind option_bind] in HE |- *. rewrite HE. cbn [mbind option_bind]. clear HE.
  apply Forall_app in HF as HF2. destruct HF2 as [_ HF2]. pose proof (out_size memory ins groups rest HF2 HR HL) as HS. set (out := growFrom _ _) in *.
  set (text := withLFs ins 0 (parts groups rest)) in *.
  assert (EP : replicate (length (drop (length text) out)) "="%uchar = paddingFor rest).
  { rewrite length_drop, HS. unfold paddingFor. rewrite length_replicate. f_equal. lia. }
  destruct policy.
  - rewrite finish_padding, EP by done. unfold text. cbn [encodeSpec]. by rewrite withLFs_false, concat_parts, paddingFor_groups by done.
  - rewrite finish_padding, EP by done. unfold text. rewrite withLFs_padded by done. cbn [encodeSpec]. rewrite paddingFor_groups, <- concat_parts, <- (withLFs_false 0) by done.
    rewrite withLFs_padded, withLFs_false by done. pose proof (quads_length groups rest HF2 HR) as HQ. pose proof (quads_count groups rest HR) as HN. pose proof (length_concat_four _ HQ) as HC.
    pose proof (groupCount_bounds _ HL) as HG. assert (HNe : map letters3 groups ++ tailQuad rest <> []) by (intros E; rewrite E in HN; cbn in HN; lia).
    unfold ins, insertsLFs. rewrite bool_decide_eq_true_2 by done. cbn [andb]. rewrite encodedLength_spec by done. destruct (Z.gtb_spec (4 * groupCount (Z.of_nat (length (flat3 groups ++ rest)))) 76).
    + pose proof (withLFs_joinLines _ 0 ltac:(lia) HNe HQ) as HJ. rewrite Z.mul_0_r in HJ. by rewrite HJ.
    + rewrite withLFs_false, chunksOf_short by lia. done.
  - cbn [addPadding writer fst snd]. rewrite take_app_length. unfold text. cbn [encodeSpec]. by rewrite withLFs_false, concat_parts by done.
Qed.
End Encoder.
