(* ===== verification/Base64Decode.v ===== *)
(** * Decoding base64

    The decoder works in one vector: the values of the digits go to its front, and
    the bytes are packed over them.  It ends without leaving the vector, accepts
    exactly the encodings its policy allows, and inverts the encoder. *)

From S2P Require Import Prelude BitStrings IntegerParsing IntegerParsingSpec Base64 Base64Spec.
Open Scope Z_scope.

(** ** Bytes and their bits *)

Lemma chunksOf_bytes data : chunksOf 8 (bitsOf data) = map (toBits 8) data.
Proof.
  induction data as [|b data IH]; [done|]. cbn [map]. by rewrite bitsOf_cons, chunksOf_app, IH by (rewrite ?length_toBits; lia).
Qed.

(** Bits that begin with those of bytes, and end before the next one. *)
Lemma bytesOfDigits_unique digits data left : concat (map (toBits 6) digits) = bitsOf data ++ left -> (length left < 8)%nat -> Forall isByte data -> bytesOfDigits digits = data.
Proof.
  intros EB HL HF. unfold bytesOfDigits. rewrite EB, length_app, length_bitsOf.
  replace ((8 * length data + length left) / 8 * 8)%nat with (length (bitsOf data)).
  2: { rewrite length_bitsOf, (Nat.mul_comm 8), Nat.add_comm, Nat.div_add, (Nat.div_small (length left)) by lia. lia. }
  rewrite take_app_length, chunksOf_bytes, map_map. rewrite <- (map_id data) at 2. apply map_ext_in. intros b Hb.
  apply ofBits_toBits. change (2 ^ Z.of_nat 8) with 256. exact (proj1 (List.Forall_forall _ _) HF b Hb).
Qed.

Lemma toBits_sextet g : (length g <= 6)%nat -> toBits 6 (sextet g) = g ++ replicate (6 - length g) false.
Proof.
  intros HG. unfold sextet. replace 6%nat with (length (g ++ replicate (6 - length g) false)) at 1 by (rewrite length_app, length_replicate; lia).
  apply toBits_ofBits.
Qed.

Lemma bits_of_sextets l : exists z, concat (map (toBits 6) (map sextet (chunksOf 6 l))) = l ++ replicate z false /\ (z < 6)%nat.
Proof.
  induction l as [l IH] using (induction_ltof1 _ (@length bool)). unfold ltof in IH. destruct l as [|b l]; [exists 0%nat; split; [done|lia]|].
  destruct (Nat.le_gt_cases (length (b :: l)) 6) as [HL|HL].
  - exists (6 - length (b :: l))%nat. rewrite chunksOf_short by (cbn [length] in *; lia). cbn [map concat]. rewrite app_nil_r, toBits_sextet by done.
    split; [done|cbn [length] in *; lia].
  - destruct (IH (drop 6 (b :: l))) as (z & EZ & HZ); [rewrite length_drop; cbn [length] in *; lia|]. exists z. split; [|done].
    rewrite <- (take_drop 6 (b :: l)) at 1. rewrite chunksOf_app by (rewrite ?length_take; lia). cbn [map concat]. rewrite EZ, toBits_sextet by (rewrite length_take; lia).
    rewrite length_take, Nat.min_l by lia. cbn [Nat.sub replicate]. by rewrite app_nil_r, app_assoc, take_drop.
Qed.

(** The digits of bytes are the bytes. *)
Lemma bytesOfDigits_sextetsOf data : Forall isByte data -> bytesOfDigits (sextetsOf data) = data.
Proof.
  intros HF. destruct (bits_of_sextets (bitsOf data)) as (z & EZ & HZ). apply (bytesOfDigits_unique _ _ (replicate z false)); [exact EZ|rewrite length_replicate; lia|done].
Qed.

(** ** Bytes of four digits *)

Lemma charValue_small v : 0 <= v < 128 -> charValue v = v.
Proof. intros HV. unfold charValue. by rewrite (proj2 (Z.ltb_lt _ _)) by lia. Qed.

Lemma byte0_spec p q : isSextet p -> isSextet q -> byte0 p q = p * 4 + q / 16.
Proof.
  unfold isSextet. intros HP HQ. unfold byte0. rewrite land_255, land_3, (shiftl_mul _ 2 4), (shiftr_div _ 4 16), !Z.mod_small by (done || div_lia).
  rewrite Z.lor_comm. change 4 with (2 ^ 2) at 1. rewrite lor_disjoint by div_lia. lia.
Qed.
Lemma byte1_spec p q : isSextet p -> isSextet q -> byte1 p q = (p mod 16) * 16 + q / 4.
Proof.
  unfold isSextet. intros HP HQ. unfold byte1. rewrite land_255, land_15, (shiftl_mul _ 4 16), (shiftr_div _ 2 4), (Z.mod_small (q / 4)) by (done || div_lia).
  replace ((p * 16) mod 256) with ((p mod 16) * 2 ^ 4) by (change (2 ^ 4) with 16; div_lia). rewrite Z.lor_comm, lor_disjoint by div_lia. lia.
Qed.
Lemma byte2_spec p q : isSextet p -> isSextet q -> byte2 p q = (p mod 4) * 64 + q.
Proof.
  unfold isSextet. intros HP HQ. unfold byte2. rewrite land_255, land_63, (shiftl_mul _ 6 64), (Z.mod_small q) by (done || div_lia).
  replace ((p * 64) mod 256) with ((p mod 4) * 2 ^ 6) by (change (2 ^ 6) with 64; div_lia). rewrite Z.lor_comm, lor_disjoint by div_lia. lia.
Qed.

Definition bytes2 (p q : Z) : list Z := [p * 4 + q / 16].
Definition bytes3 (p q r : Z) : list Z := [p * 4 + q / 16; (q mod 16) * 16 + r / 4].
Definition bytes4 (g : Z * Z * Z * Z) : list Z := let '(p, q, r, s) := g in [p * 4 + q / 16; (q mod 16) * 16 + r / 4; (r mod 4) * 64 + s].

Lemma bits_byte0 p q : isSextet p -> isSextet q -> toBits 8 (p * 4 + q / 16) = toBits 6 p ++ toBits 2 (q / 16).
Proof. unfold isSextet. intros HP HQ. exact (toBits_split 6 2 p (q / 16) ltac:(cbn; div_lia)). Qed.
Lemma bits_byte1 q r : isSextet q -> isSextet r -> toBits 8 ((q mod 16) * 16 + r / 4) = toBits 4 q ++ toBits 4 (r / 4).
Proof. unfold isSextet. intros HQ HR. rewrite <- (toBits_mod 4 q). exact (toBits_split 4 4 (q mod 16) (r / 4) ltac:(cbn; div_lia)). Qed.
Lemma bits_byte2 r s : isSextet r -> isSextet s -> toBits 8 ((r mod 4) * 64 + s) = toBits 2 r ++ toBits 6 s.
Proof. unfold isSextet. intros HR HS. rewrite <- (toBits_mod 2 r). exact (toBits_split 2 6 (r mod 4) s ltac:(cbn; div_lia)). Qed.

Lemma digit_bits m n q : (m + n = 6)%nat -> toBits 6 q = toBits m (q / 2 ^ Z.of_nat n) ++ toBits n q.
Proof. intros <-. apply toBits_app. Qed.

Lemma bits_bytes4 p q r s : Forall isSextet [p; q; r; s] -> concat (map (toBits 6) [p; q; r; s]) = bitsOf (bytes4 (p, q, r, s)).
Proof.
  intros HF. repeat match goal with H : Forall isSextet (_ :: _) |- _ => apply Forall_cons in H; destruct H end.
  cbn [map concat bytes4]. rewrite !bitsOf_cons, bits_byte0, bits_byte1, bits_byte2 by done. rewrite (digit_bits 2 4 q), (digit_bits 4 2 r) by done.
  cbn [bitsOf map concat]. by rewrite <- !app_assoc.
Qed.

Fixpoint flat4 (groups : list (Z * Z * Z * Z)) : list Z :=
  match groups with
  | [] => []
  | (p, q, r, s) :: groups => p :: q :: r :: s :: flat4 groups
  end.

Lemma groups4 (digits : list Z) : exists groups rest, digits = flat4 groups ++ rest /\ (length rest < 4)%nat.
Proof.
  induction digits as [digits IH] using (induction_ltof1 _ (@length Z)). unfold ltof in IH.
  destruct digits as [|p [|q [|r [|s digits]]]]; [by exists []; eexists; split; [done|cbn; lia]..|].
  destruct (IH digits) as (groups & rest & -> & HR); [cbn; lia|]. by exists ((p, q, r, s) :: groups), rest.
Qed.

Lemma length_flat4 groups : length (flat4 groups) = (4 * length groups)%nat.
Proof. induction groups as [|[[[p q] r] s] groups IH]; [done|]. cbn [flat4 length]. rewrite IH. lia. Qed.

Definition bytesTail (rest : list Z) : list Z :=
  match rest with
  | [p; q] => bytes2 p q
  | [p; q; r] => bytes3 p q r
  | _ => []
  end.

Lemma bytes4_bytes p q r s : Forall isSextet [p; q; r; s] -> Forall isByte (bytes4 (p, q, r, s)).
Proof.
  intros HF. repeat match goal with H : Forall isSextet (_ :: _) |- _ => apply Forall_cons in H; destruct H end.
  unfold isSextet, isByte in *. repeat apply Forall_cons_2; [..|apply Forall_nil_2]; div_lia.
Qed.

Lemma bits_groups4 groups rest : Forall isSextet (flat4 groups) ->
  concat (map (toBits 6) (flat4 groups ++ rest)) = bitsOf (concat (map bytes4 groups)) ++ concat (map (toBits 6) rest) /\ Forall isByte (concat (map bytes4 groups)).
Proof.
  induction groups as [|[[[p q] r] s] groups IH]; intros HF; [split; [done|apply Forall_nil_2]|]. change (flat4 ((p, q, r, s) :: groups)) with ([p; q; r; s] ++ flat4 groups) in *.
  apply Forall_app in HF as [HF1 HF2]. destruct (IH HF2) as [EB HB]. cbn [map concat]. rewrite bitsOf_app, <- bits_bytes4, <- !app_assoc by done.
  split; [|apply Forall_app_2; [by apply bytes4_bytes|done]]. rewrite map_app, concat_app. f_equal. exact EB.
Qed.

Lemma bits_tail rest : Forall isSextet rest -> (length rest < 4)%nat -> length rest <> 1%nat ->
  exists left, concat (map (toBits 6) rest) = bitsOf (bytesTail rest) ++ left /\ (length left < 8)%nat /\ Forall isByte (bytesTail rest).
Proof.
  intros HF HR H1. destruct rest as [|p [|q [|r [|s rest]]]]; cbn [length] in *; try lia; cbn [bytesTail map concat].
  - exists []. split_and!; [done|cbn; lia|apply Forall_nil_2].
  - apply Forall_cons in HF as [HP HF]. apply Forall_cons in HF as [HQ _]. exists (toBits 4 q). unfold bytes2. rewrite bitsOf_cons, bits_byte0, (digit_bits 2 4 q) by done.
    split_and!; [cbn [bitsOf map concat]; by rewrite <- !app_assoc, !app_nil_r|rewrite length_toBits; lia|]. apply Forall_cons_2; [unfold isByte, isSextet in *; div_lia|apply Forall_nil_2].
  - apply Forall_cons in HF as [HP HF]. apply Forall_cons in HF as [HQ HF]. apply Forall_cons in HF as [Hr _]. exists (toBits 2 r). unfold bytes3.
    rewrite !bitsOf_cons, bits_byte0, bits_byte1, (digit_bits 2 4 q), (digit_bits 4 2 r) by done.
    split_and!; [cbn [bitsOf map concat]; by rewrite <- !app_assoc, !app_nil_r|rewrite length_toBits; lia|].
    repeat apply Forall_cons_2; [..|apply Forall_nil_2]; unfold isByte, isSextet in *; div_lia.
Qed.

Lemma bytesOfDigits_groups groups rest : Forall isSextet (flat4 groups ++ rest) -> (length rest < 4)%nat -> length rest <> 1%nat ->
  bytesOfDigits (flat4 groups ++ rest) = concat (map bytes4 groups) ++ bytesTail rest.
Proof.
  intros HF HR H1. apply Forall_app in HF as [HF1 HF2]. destruct (bits_groups4 groups rest HF1) as [EB HB]. destruct (bits_tail rest HF2 HR H1) as (left & EL & HL & HT).
  apply (bytesOfDigits_unique _ _ left); [by rewrite EB, EL, bitsOf_app, app_assoc|done|by apply Forall_app_2].
Qed.

(** ** Packing in place *)

Lemma combine_spec f didx i out p q : out !! i = Some p -> out !! S i = Some q -> isSextet p -> isSextet q -> isByte (f p q) -> (didx < length out)%nat ->
  combine f didx i out = Some (<[didx := f p q]> out).
Proof.
  unfold isSextet, isByte. intros HP HQ Hp Hq HF HD. unfold combine, charAt. rewrite HP, HQ. cbn [mbind option_bind]. rewrite !charValue_small by lia.
  unfold store. rewrite (proj2 (Nat.ltb_lt _ _)), Z.mod_small by lia. done.
Qed.

Lemma take_S_insert (out : list Z) n v : (n < length out)%nat -> take (S n) (<[n := v]> out) = take n out ++ [v].
Proof. intros HN. rewrite (take_S_r _ _ v) by (by apply list_lookup_insert_eq). by rewrite take_insert_ge by lia. Qed.

(** Reading what follows a position. *)
Lemma lookup_after (out : list Z) i l j v : drop i out = l -> l !! j = Some v -> out !! (i + j)%nat = Some v.
Proof. intros <- HV. by rewrite lookup_drop in HV. Qed.

Lemma drop_length_le (out : list Z) i l : drop i out = l -> l <> [] -> (length out = i + length l)%nat.
Proof. intros <- HN. rewrite length_drop. destruct (Nat.le_gt_cases (length out) i) as [HL|HL]; [|lia]. by rewrite drop_ge in HN. Qed.

(** One round: the bytes are written below the digits that are still to be read. *)
Lemma pack_round didx sidx out p q r s rest : drop sidx out = p :: q :: r :: s :: rest -> (didx <= sidx)%nat -> Forall isSextet [p; q; r; s] ->
  exists out', (out ← combine byte0 didx sidx out; out ← combine byte1 (S didx) (S sidx) out; combine byte2 (S (S didx)) (S (S sidx)) out) = Some out' /\
    length out' = length out /\ drop (sidx + 4) out' = rest /\ take (didx + 3) out' = take didx out ++ bytes4 (p, q, r, s).
Proof.
  intros HD HI HF. pose proof (bytes4_bytes p q r s HF) as HB. cbn [bytes4] in HB. repeat match goal with H : Forall _ (_ :: _) |- _ => apply Forall_cons in H; destruct H end.
  assert (HL : (length out = sidx + length (p :: q :: r :: s :: rest))%nat) by (by apply drop_length_le). cbn [length] in HL.
  assert (HP : out !! sidx = Some p) by (rewrite <- (Nat.add_0_r sidx); by eapply lookup_after).
  assert (HQ : out !! S sidx = Some q) by (rewrite <- Nat.add_1_r; by eapply lookup_after).
  assert (HR : out !! S (S sidx) = Some r) by (replace (S (S sidx)) with (sidx + 2)%nat by lia; by eapply lookup_after).
  assert (HS : out !! S (S (S sidx)) = Some s) by (replace (S (S (S sidx))) with (sidx + 3)%nat by lia; by eapply lookup_after).
  rewrite (combine_spec _ _ _ _ p q) by (rewrite ?byte0_spec; done || lia). cbn [mbind option_bind].
  rewrite (combine_spec _ _ _ _ q r) by (rewrite ?length_insert, ?list_lookup_insert_ne, ?byte1_spec; done || lia). cbn [mbind option_bind].
  rewrite (combine_spec _ _ _ _ r s) by (rewrite ?length_insert, ?list_lookup_insert_ne, ?byte2_spec; done || lia). eexists. split; [done|].
  rewrite !length_insert, !drop_insert_lt by lia. split_and!; [done|by rewrite <- drop_drop, HD|].
  replace (didx + 3)%nat with (S (S (S didx))) by lia. rewrite !take_S_insert by (rewrite ?length_insert; lia). rewrite byte0_spec, byte1_spec, byte2_spec by done. by rewrite <- !app_assoc.
Qed.

Lemma packLoop_spec groups : forall fuel outLength sidx didx out rest, (length groups < fuel)%nat -> (didx <= sidx)%nat -> Forall isSextet (flat4 groups) ->
  drop sidx out = flat4 groups ++ rest -> (didx + 3 * length groups <= outLength < didx + 3 * length groups + 3)%nat ->
  exists out', packLoop fuel outLength sidx didx out = Some (sidx + length (flat4 groups), didx + 3 * length groups, out')%nat /\
    length out' = length out /\ drop (sidx + length (flat4 groups)) out' = rest /\ take (didx + 3 * length groups) out' = take didx out ++ concat (map bytes4 groups).
Proof.
  induction groups as [|[[[p q] r] s] groups IH]; intros [|fuel] outLength sidx didx out rest Hfuel HI HF HD HO; cbn [length] in Hfuel; try lia; cbn [packLoop].
  - cbn [length] in HO. rewrite (proj2 (Nat.ltb_ge _ _)) by lia. exists out. cbn [flat4 length map concat Nat.mul]. rewrite !Nat.add_0_r, app_nil_r. by split_and!.
  - cbn [length] in HO. rewrite (proj2 (Nat.ltb_lt _ _)) by lia. change (flat4 ((p, q, r, s) :: groups)) with ([p; q; r; s] ++ flat4 groups) in *. apply Forall_app in HF as [HF1 HF2].
    destruct (pack_round didx sidx out p q r s _ HD HI HF1) as (out1 & EC & HL1 & HD1 & HT1).
    destruct (IH fuel outLength (sidx + 4)%nat (didx + 3)%nat out1 rest) as (out2 & EP & HL2 & HD2 & HT2); [lia|lia|done|done|lia|]. exists out2.
    destruct (combine byte0 didx sidx out) as [o1|]; [cbn [mbind option_bind] in *|done]. destruct (combine byte1 _ _ o1) as [o2|]; [cbn [mbind option_bind] in *|done].
    rewrite EC. cbn [mbind option_bind]. rewrite EP. cbn [length app map concat]. split_and!; [do 2 f_equal; f_equal; lia|congruence| |].
    + rewrite <- HD2. f_equal. lia.
    + replace (didx + 3 * S (length groups))%nat with (didx + 3 + 3 * length groups)%nat by lia. by rewrite HT2, HT1, <- app_assoc.
Qed.

(** How many bytes there are in so many digits. *)
Lemma packed_length n r : (r < 4)%nat -> r <> 1%nat -> (4 * n + r - (4 * n + r + 3) / 4 = 3 * n + (r - 1))%nat.
Proof.
  intros HR H1. replace ((4 * n + r + 3) / 4)%nat with (n + (r + 3) / 4)%nat by (replace (4 * n + r + 3)%nat with (r + 3 + n * 4)%nat by lia; rewrite Nat.div_add by lia; lia).
  destruct r as [|[|[|[|r]]]]; cbn; lia.
Qed.

(** The digits that do not fill a group of four. *)
Lemma pack_tail didx sidx out rest junk : drop sidx out = rest ++ junk -> Forall isSextet rest -> (length rest < 4)%nat -> length rest <> 1%nat -> (didx <= sidx)%nat ->
  (didx <= length out)%nat -> (outLength ← Some (didx + (length rest - 1))%nat;
    out ← (if (didx <? outLength)%nat then combine byte0 didx sidx out else Some out);
    out ← (if (S didx <? outLength)%nat then combine byte1 (S didx) (S sidx) out else Some out);
    Some (if (outLength <? length out)%nat then take outLength out else out)) = Some (take didx out ++ bytesTail rest).
Proof.
  intros HD HF HR H1 HI HL. cbn [mbind option_bind]. destruct rest as [|p [|q [|r [|s rest]]]]; cbn [length] in *; try lia; cbn [Nat.sub].
  - rewrite Nat.add_0_r, !(proj2 (Nat.ltb_ge _ _)) by lia. cbn [mbind option_bind bytesTail]. rewrite app_nil_r. destruct (Nat.ltb_spec didx (length out)); [done|]. by rewrite take_ge.
  - rewrite (proj2 (Nat.ltb_lt didx _)), (proj2 (Nat.ltb_ge (S didx) _)) by lia. apply Forall_cons in HF as [HP HF]. apply Forall_cons in HF as [HQ _].
    assert (HS : (length out = sidx + length ([p; q] ++ junk))%nat) by (by apply drop_length_le). rewrite length_app in HS. cbn [length] in HS.
    rewrite (combine_spec _ _ _ _ p q) by (rewrite ?byte0_spec by done; solve [rewrite <- (Nat.add_0_r sidx); by eapply lookup_after|rewrite <- Nat.add_1_r; by eapply lookup_after|done|unfold isByte, isSextet in *; div_lia|lia]).
    cbn [mbind option_bind]. rewrite length_insert, (proj2 (Nat.ltb_lt _ _)) by lia. rewrite Nat.add_1_r, take_S_insert, byte0_spec by (done || lia). done.
  - rewrite (proj2 (Nat.ltb_lt didx _)), (proj2 (Nat.ltb_lt (S didx) _)) by lia. apply Forall_cons in HF as [HP HF]. apply Forall_cons in HF as [HQ HF]. apply Forall_cons in HF as [Hr _].
    assert (HS : (length out = sidx + length ([p; q; r] ++ junk))%nat) by (by apply drop_length_le). rewrite length_app in HS. cbn [length] in HS.
    rewrite (combine_spec _ _ _ _ p q) by (rewrite ?byte0_spec by done; solve [rewrite <- (Nat.add_0_r sidx); by eapply lookup_after|rewrite <- Nat.add_1_r; by eapply lookup_after|done|unfold isByte, isSextet in *; div_lia|lia]).
    cbn [mbind option_bind].
    rewrite (combine_spec _ _ _ _ q r) by (rewrite ?length_insert, ?list_lookup_insert_ne, ?byte1_spec by (done || lia);
      solve [rewrite <- Nat.add_1_r; by eapply lookup_after|replace (S (S sidx)) with (sidx + 2)%nat by lia; by eapply lookup_after|done|unfold isByte, isSextet in *; div_lia|lia]).
    cbn [mbind option_bind]. rewrite !length_insert, (proj2 (Nat.ltb_lt _ _)) by lia. replace (didx + 2)%nat with (S (S didx)) by lia.
    rewrite !take_S_insert, byte0_spec, byte1_spec by (rewrite ?length_insert; done || lia). by rewrite <- app_assoc.
Qed.

Lemma pack_spec digits junk (n := length digits) : Forall isSextet digits -> (n mod 4 <> 1)%nat -> (0 < n)%nat -> pack (n - (n + 3) / 4) (digits ++ junk) = Some (bytesOfDigits digits).
Proof.
  intros HF HM HN. destruct (groups4 digits) as (groups & rest & ED & HR). subst n. rewrite ED, length_app, length_flat4 in *.
  assert (H1 : length rest <> 1%nat) by (intros E; apply HM; rewrite E, Nat.add_comm, (Nat.mul_comm 4), Nat.Div0.mod_add; done).
  rewrite bytesOfDigits_groups by done. rewrite packed_length by done. pose proof HF as HF'. apply Forall_app in HF' as [HF1 HF2].
  set (out := (flat4 groups ++ rest) ++ junk). assert (HD : drop 0 out = flat4 groups ++ (rest ++ junk)) by (unfold out; by rewrite drop_0, app_assoc).
  destruct (packLoop_spec groups (S (3 * length groups + (length rest - 1))) (3 * length groups + (length rest - 1)) 0 0 out (rest ++ junk)) as (out' & EP & HL & HD' & HT); [lia|lia|done|done|lia|].
  cbn [Nat.add] in EP, HD', HT. change (take 0 out) with (@nil Z) in HT. cbn [app] in HT.
  assert (EL : (if (1 <? 3 * length groups + (length rest - 1))%nat then packLoop (S (3 * length groups + (length rest - 1))) (3 * length groups + (length rest - 1)) 0 0 out
    else Some (0%nat, 0%nat, out)) = Some (length (flat4 groups), (3 * length groups)%nat, out')).
  { destruct (Nat.ltb_spec 1 (3 * length groups + (length rest - 1))); [done|]. destruct groups; [|cbn [length] in *; lia]. cbn [packLoop Nat.mul length flat4 Nat.add] in EP.
    rewrite (proj2 (Nat.ltb_ge _ _)) in EP by lia. by injection EP as <-. }
  unfold pack. rewrite EL. cbn [mbind option_bind]. rewrite <- HT. apply (pack_tail _ (length (flat4 groups)) _ rest junk); try done; [rewrite length_flat4; lia|].
  rewrite HL. unfold out. rewrite !length_app, length_flat4. lia.
Qed.

(** ** Which texts are encodings *)

Section Scan.
Context `{CharDirection}.
Variables (decodeMap : list Z) (policy : Base64DecodePolicy).
Hypothesis map_digits : Forall (fun v => v = nonAlphabet \/ isSextet v) decodeMap.

Definition digitValue (ch : Z) : option Z :=
  if (ch =? "="%uchar) || (decodedCharacter decodeMap ch =? nonAlphabet) then None else Some (decodedCharacter decodeMap ch).
Definition digitsIn (chars : list Z) : list Z := omap digitValue chars.
Definition equalsSigns (chars : list Z) : list Z := filter (fun ch => ch = "="%uchar) chars.
(** Characters the policy reads over. *)
Definition ignored (ch : Z) : Prop := ch <> "="%uchar /\ digitValue ch = None /\ rejects policy ch = false.

(** Digits, then equals signs, and among them characters that do not count; not one
    digit too many, no padding without digits, and under the strict policy padding that
    fills the last group of four. *)
Definition isEncoding (chars : list Z) : Prop :=
  (exists body padding, chars = body ++ padding /\ Forall (fun ch => is_Some (digitValue ch) \/ ignored ch) body /\ Forall (fun ch => ch = "="%uchar \/ ignored ch) padding) /\
  (policy = Base64FailOnInvalidCharacterOrExcessPadding -> equalsSigns chars <> [] -> (length chars mod 4 = 0 /\ length (equalsSigns chars) <= 2)%nat) /\
  (length (digitsIn chars) mod 4 <> 1)%nat /\ (digitsIn chars = [] -> equalsSigns chars = []).

Lemma decodedCharacter_cases ch : decodedCharacter decodeMap ch = nonAlphabet \/ isSextet (decodedCharacter decodeMap ch).
Proof.
  unfold decodedCharacter. destruct (ch <? 128); [|by left]. destruct (nth_lookup_or_length decodeMap (Z.to_nat ch) nonAlphabet) as [E|E].
  - exact (Forall_lookup_1 _ _ _ _ map_digits E).
  - left. apply nth_overflow. lia.
Qed.

Lemma digitValue_sextet ch d : digitValue ch = Some d -> isSextet d.
Proof.
  unfold digitValue. destruct (ch =? _); [done|]. cbn [orb]. destruct (Z.eqb_spec (decodedCharacter decodeMap ch) nonAlphabet); [done|]. intros [= <-].
  by destruct (decodedCharacter_cases ch).
Qed.

Lemma digitsIn_sextets chars : Forall isSextet (digitsIn chars).
Proof. apply Forall_forall. intros d (ch & _ & HD)%list_elem_of_omap. by eapply digitValue_sextet. Qed.

(** The scan as a test. *)
Fixpoint scanOk (len : Z) (count : Z) (chars : list Z) : bool :=
  match chars with
  | [] => true
  | ch :: chars =>
      if ch =? "="%uchar then negb (rejectsPadding policy len (count + 1)) && scanOk len (count + 1) chars
      else match digitValue ch with
           | Some _ => (count =? 0) && scanOk len count chars
           | None => negb (rejects policy ch) && scanOk len count chars
           end
  end.

Lemma equalsSigns_cons ch chars : equalsSigns (ch :: chars) = if ch =? "="%uchar then ch :: equalsSigns chars else equalsSigns chars.
Proof. unfold equalsSigns. rewrite filter_cons. destruct (Z.eqb_spec ch "="%uchar), (decide (ch = "="%uchar)); done. Qed.

Lemma digitsIn_cons ch chars : digitsIn (ch :: chars) = match digitValue ch with Some d => d :: digitsIn chars | None => digitsIn chars end.
Proof. done. Qed.

Lemma digitValue_equals : digitValue "="%uchar = None.
Proof. done. Qed.

Lemma scanDigits_spec len chars : forall count digits left, 0 <= count -> count + Z.of_nat (length chars) < 2 ^ 32 -> (length chars <= length left)%nat ->
  exists scanned, scanDigits decodeMap policy len chars count (length digits) (digits ++ left) = Some scanned /\
    if scanOk len count chars then
      scanned = ScanDone (count + Z.of_nat (length (equalsSigns chars))) (length (digits ++ digitsIn chars)) ((digits ++ digitsIn chars) ++ drop (length (digitsIn chars)) left)
    else exists out, scanned = ScanFails out.
Proof.
  induction chars as [|ch chars IH]; intros count digits left HC HN HL.
  { eexists. split; [done|]. cbn [scanOk equalsSigns digitsIn omap list_omap filter list_filter length drop]. by rewrite Z.add_0_r, !app_nil_r. }
  rewrite equalsSigns_cons, digitsIn_cons. cbn [scanDigits scanOk length] in *. destruct (Z.eqb_spec ch "="%uchar) as [->|HE].
  - unfold uint32. rewrite Z.mod_small by lia. rewrite digitValue_equals. destruct (rejectsPadding policy len (count + 1)); cbn [negb andb]; [eexists; split; [done|by eexists]|].
    destruct (IH (count + 1) digits left) as (scanned & ES & HS); [lia..|]. exists scanned. split; [done|]. destruct (scanOk len (count + 1) chars); [|done]. rewrite HS. cbn [length]. f_equal. lia.
  - unfold digitValue. rewrite (proj2 (Z.eqb_neq _ _) HE). cbn [orb]. destruct (Z.eqb_spec (decodedCharacter decodeMap ch) nonAlphabet) as [EA|EA]; cbn [negb].
    + destruct (rejects policy ch); cbn [negb andb]; [eexists; split; [done|by eexists]|]. apply IH; lia.
    + destruct (Z.eqb_spec count 0) as [->|H0]; cbn [negb andb]; [|eexists; split; [done|by eexists]]. destruct left as [|x left]; [cbn [length] in HL; lia|].
      destruct (decodedCharacter_cases ch) as [HV|HV]; [done|]. rewrite store_app by (unfold isByte, isSextet in *; lia). cbn [mbind option_bind length] in *.
      destruct (IH 0 (digits ++ [decodedCharacter decodeMap ch]) left) as (scanned & ES & HS); [lia..|]. rewrite length_app in ES. cbn [length] in ES. rewrite Nat.add_1_r, <- app_assoc in ES.
      exists scanned. split; [done|]. destruct (scanOk len 0 chars); [|done]. rewrite HS. cbn [drop]. by rewrite <- !app_assoc.
Qed.

(** The strict policy, with some equals signs read already. *)
Definition strict (len count : Z) (chars : list Z) : Prop :=
  policy = Base64FailOnInvalidCharacterOrExcessPadding -> equalsSigns chars <> [] -> len mod 4 = 0 /\ count + Z.of_nat (length (equalsSigns chars)) <= 2.
Definition isPadding (ch : Z) : Prop := ch = "="%uchar \/ ignored ch.
Definition isBody (ch : Z) : Prop := is_Some (digitValue ch) \/ ignored ch.

Lemma strict_equals len count chars : 0 <= count ->
  strict len count ("="%uchar :: chars) <-> rejectsPadding policy len (count + 1) = false /\ strict len (count + 1) chars.
Proof.
  intros HC. unfold strict, rejectsPadding. rewrite equalsSigns_cons, Z.eqb_refl. cbn [length]. destruct (bool_decide_reflect (policy = Base64FailOnInvalidCharacterOrExcessPadding)) as [->|HP]; cbn [andb]; [|by intuition].
  rewrite orb_false_iff, negb_false_iff, Z.eqb_eq. destruct (Z.gtb_spec (count + 1) 2) as [H2|H2].
  - split; [|by intros [[_ ?] _]]. intros HS. destruct (HS eq_refl) as [_ HS2]; [done|]. lia.
  - split.
    + intros HS. destruct (HS eq_refl) as [HM HS2]; [done|]. split_and!; [done|done|]. intros _ _. lia.
    + intros [[HM _] HS] _ _. split; [done|]. destruct (equalsSigns chars) as [|e es] eqn:EE; [cbn [length]; lia|]. specialize (HS eq_refl ltac:(done)). cbn [length] in *. lia.
Qed.

Lemma strict_other len count ch chars : ch <> "="%uchar -> strict len count (ch :: chars) <-> strict len count chars.
Proof. intros HE. unfold strict. by rewrite equalsSigns_cons, (proj2 (Z.eqb_neq _ _) HE). Qed.

Lemma not_ignored_digit ch d : digitValue ch = Some d -> ~ isPadding ch.
Proof. intros HD [->|(_ & HN & _)]; [done|congruence]. Qed.

Lemma scanOk_padding len chars : forall count, 0 < count -> scanOk len count chars = true <-> Forall isPadding chars /\ strict len count chars.
Proof.
  induction chars as [|ch chars IH]; intros count HC; cbn [scanOk].
  { split; [intros _; split; [apply Forall_nil_2|intros _ HN; by cbn in HN]|done]. }
  rewrite Forall_cons. destruct (Z.eqb_spec ch "="%uchar) as [->|HE].
  - rewrite andb_true_iff, negb_true_iff, strict_equals, IH by lia. unfold isPadding at 2. tauto.
  - rewrite strict_other by done. destruct (digitValue ch) as [d|] eqn:ED.
    + rewrite (proj2 (Z.eqb_neq _ _)) by lia. cbn [andb]. pose proof (not_ignored_digit ch d ED). intuition done.
    + rewrite andb_true_iff, negb_true_iff, IH by done. unfold isPadding at 2, ignored. tauto.
Qed.

Lemma scanOk_body len chars : scanOk len 0 chars = true <->
  (exists body padding, chars = body ++ padding /\ Forall isBody body /\ Forall isPadding padding) /\ strict len 0 chars.
Proof.
  induction chars as [|ch chars IH]; cbn [scanOk].
  { split; [intros _; split; [exists [], []; split_and!; [done|apply Forall_nil_2..]|intros _ HN; by cbn in HN]|done]. }
  destruct (Z.eqb_spec ch "="%uchar) as [->|HE].
  - rewrite andb_true_iff, negb_true_iff, strict_equals, scanOk_padding by lia. split.
    + intros (HR & HF & HS). split; [|done]. exists [], ("="%uchar :: chars). split_and!; [done|apply Forall_nil_2|apply Forall_cons_2; [by left|done]].
    + intros ((body & padding & EC & HB & HP) & HR & HS). split_and!; [done| |done]. destruct body as [|c body].
      * cbn [app] in EC. subst padding. by apply Forall_cons in HP as [_ HP].
      * injection EC as <- _. apply Forall_cons in HB as [[[d HB]|(HB & _)] _]; done.
  - rewrite strict_other by done. assert (HB : (match digitValue ch with Some _ => (0 =? 0) && scanOk len 0 chars | None => negb (rejects policy ch) && scanOk len 0 chars end) = true <->
      isBody ch /\ scanOk len 0 chars = true).
    { unfold isBody, ignored. destruct (digitValue ch) as [d|] eqn:ED; [|rewrite andb_true_iff, negb_true_iff]; [split; [by eauto|tauto]|]. split; [tauto|]. intros [[[d HD]|HD] HS]; [done|tauto]. }
    rewrite HB, IH. split.
    + intros (HC & (body & padding & -> & HF & HP) & HS). split; [|done]. exists (ch :: body), padding. split_and!; [done|by apply Forall_cons_2|done].
    + intros ((body & padding & EC & HF & HP) & HS). destruct body as [|c body].
      * cbn [app] in EC. subst padding. apply Forall_cons in HP as [[HC|HC] HP]; [done|]. split_and!; [by right| |done]. exists [], chars. split_and!; [done|apply Forall_nil_2|done].
      * injection EC as <- ->. apply Forall_cons in HF as [HC HF]. split_and!; [done| |done]. by exists body, padding.
Qed.

Lemma isEncoding_scan chars : isEncoding chars <->
  scanOk (Z.of_nat (length chars)) 0 chars = true /\ (length (digitsIn chars) mod 4 <> 1)%nat /\ (digitsIn chars = [] -> equalsSigns chars = []).
Proof.
  unfold isEncoding. rewrite scanOk_body. unfold strict. rewrite <- (Nat2Z.inj_mod _ 4 : Z.of_nat (_ mod 4) = Z.of_nat (length chars) mod 4).
  assert (HL : forall a b, (Z.of_nat a = 0 /\ 0 + Z.of_nat b <= 2) <-> (a = 0 /\ b <= 2)%nat) by lia. rewrite HL. unfold isBody, isPadding. tauto.
Qed.

(** The decoder decides what is an encoding, and gives its bytes. *)
Theorem base64DecodeInternal_spec memory chars : Z.of_nat (length chars) < 2 ^ 32 ->
  exists ok out, base64DecodeInternal decodeMap policy memory chars = Some (ok, out) /\ (ok = true <-> isEncoding chars) /\
    (ok = true -> digitsIn chars <> [] -> out = bytesOfDigits (digitsIn chars)).
Proof.
  intros HL. destruct chars as [|ch chars].
  { exists true, []. split_and!; [done| |done]. split; [intros _|done]. apply isEncoding_scan. by split_and!. }
  remember (ch :: chars) as text eqn:ET. assert (EB : base64DecodeInternal decodeMap policy memory text =
    (scanned ← scanDigits decodeMap policy (Z.of_nat (length text)) text 0 0 (growFrom memory (Z.of_nat (length text)));
     match scanned with ScanFails out => Some (false, out) | ScanDone count n out => finishDecoding count n out end)) by (by rewrite ET). rewrite EB. clear ch chars ET EB.
  destruct (scanDigits_spec (Z.of_nat (length text)) text 0 [] (growFrom memory (Z.of_nat (length text)))) as (scanned & ES & HS); [lia|lia| |].
  { unfold growFrom. rewrite length_map, length_seq. lia. }
  cbn [app length] in ES, HS. rewrite ES. cbn [mbind option_bind]. destruct (scanOk (Z.of_nat (length text)) 0 text) eqn:EO.
  2: { destruct HS as (out & ->). exists false, out. split_and!; [done| |done]. rewrite isEncoding_scan, EO. split; [done|by intros []]. }
  rewrite HS. set (left := drop _ _). clear HS ES. pose proof (isEncoding_scan text) as HI. rewrite EO in HI. unfold finishDecoding. pose proof (digitsIn_sextets text) as HF. destruct (Nat.eqb_spec (length (digitsIn text)) 0) as [H0|H0].
  { apply nil_length_inv in H0. rewrite H0 in HI |- *. exists (0 + Z.of_nat (length (equalsSigns text)) =? 0), ([] ++ left).
    split_and!; [done| |done]. cbn [length] in HI |- *. rewrite HI, Z.eqb_eq. destruct (equalsSigns text); cbn [length]; [split; [intros _; by split_and!|done]|]. split; [lia|]. intros (_ & _ & HN). by specialize (HN eq_refl). }
  assert (HN : digitsIn text <> []) by (intros E; by rewrite E in H0). destruct (Nat.eqb_spec (length (digitsIn text) mod 4) 1) as [H1|H1].
  { eexists false, _. split_and!; [done| |done]. rewrite HI. split; [done|]. tauto. }
  set (n := length (digitsIn text)) in *. destruct (Nat.eqb_spec (n - (n + 3) / 4) 0) as [H2|H2].
  { exfalso. destruct (Nat.eq_dec n 1%nat) as [E1|E1]; [by rewrite E1 in H1|]. pose proof (Nat.Div0.div_lt_upper_bound (n + 3) 4 n ltac:(lia)). lia. }
  unfold n. rewrite pack_spec by (done || fold n; lia). exists true. eexists. split_and!; [done| |done]. rewrite HI. split; [|done]. intros _. by split_and!.
Qed.
End Scan.
