(* ===== verification/Base64Roundtrip.v ===== *)
(** * Base64, there and back

    Whatever is encoded is decoded to the same bytes, under every pair of policies
    that fit; [btoa] and [atob]; and inputs that show where the code does not do what it means to. *)

From S2P Require Import Prelude BitStrings IntegerParsing IntegerParsingSpec Base64 Base64Spec Base64Decode.
Open Scope Z_scope.

(** ** The alphabets *)

Lemma alphabets : isAlphabet base64EncMap /\ isAlphabet base64URLEncMap.
Proof. split; (split; [done|]); apply (bool_decide_unpack (Forall (fun b => 0 <= b < 256) _)); by vm_compute. Qed.

Lemma alphabet_digits (decodeMap : list Z) : forallb (fun v => (v =? nonAlphabet) || ((0 <=? v) && (v <? 64))) decodeMap = true ->
  Forall (fun v => v = nonAlphabet \/ isSextet v) decodeMap.
Proof.
  intros HF. apply List.Forall_forall. intros v HV. rewrite forallb_forall in HF. specialize (HF v HV).
  apply orb_true_iff in HF as [HF|HF]; bool_hyps; [by left|right; unfold isSextet; lia].
Qed.

(** A letter is read as the digit it was written for. *)
Definition inverseMaps (encodeMap decodeMap : list Z) : Prop := forall d, isSextet d -> digitValue decodeMap (letterOf encodeMap d) = Some d.

Lemma inverse_check encodeMap decodeMap : forallb (fun d => bool_decide (digitValue decodeMap (letterOf encodeMap d) = Some d)) (map Z.of_nat (seq 0 64)) = true -> inverseMaps encodeMap decodeMap.
Proof.
  intros HF d HD. unfold isSextet in HD. rewrite forallb_forall in HF. specialize (HF d). rewrite bool_decide_eq_true in HF. apply HF. apply in_map_iff. exists (Z.to_nat d).
  split; [lia|]. apply in_seq. lia.
Qed.

Lemma base64_inverse : inverseMaps base64EncMap base64DecMap.
Proof. apply inverse_check. by vm_compute. Qed.
Lemma base64URL_inverse : inverseMaps base64URLEncMap base64URLDecMap.
Proof. apply inverse_check. by vm_compute. Qed.

Lemma sextetsOf_length data : Forall isByte data ->
  length (sextetsOf data) = (4 * (length data / 3) + match length data mod 3 with 0 => 0 | 1 => 2 | _ => 3 end)%nat /\ Forall isSextet (sextetsOf data).
Proof.
  intros HF. destruct (groups3 data) as (groups & rest & -> & HR). split.
  - rewrite sextetsOf_groups, length_app, length_concat_four by (done || (clear; induction groups as [|[[a b] c] groups IH]; cbn [map]; [apply Forall_nil_2|by apply Forall_cons_2])).
    rewrite length_map, length_app, length_flat3, Nat.add_comm, (Nat.mul_comm 3), (Nat.add_comm (_ * 3)), Nat.div_add, Nat.Div0.mod_add, (Nat.div_small (length rest)), (Nat.mod_small (length rest)) by lia.
    apply Forall_app in HF as [_ HF]. destruct rest as [|a [|b [|c rest]]]; cbn [length] in *; [..|lia].
    + rewrite sextetsOf_nil. cbn [length]. lia.
    + apply Forall_cons in HF as [HA _]. rewrite sextetsOf_one by done. cbn [length]. lia.
    + apply Forall_cons in HF as [HA HF]. apply Forall_cons in HF as [HB _]. rewrite sextetsOf_two by done. cbn [length]. lia.
  - unfold sextetsOf. apply Forall_forall. intros d HD. apply list_elem_of_fmap in HD as (g & -> & HG). unfold sextet, isSextet.
    assert (HL : (length g <= 6)%nat).
    { clear -HG. set (l := bitsOf _) in HG. clearbody l. revert HG. unfold chunksOf. generalize (length l) as n. intros n. revert l. induction n as [|n IH]; intros [|b l] HG; cbn [chunksLoop] in HG; [by apply not_elem_of_nil in HG..|].
      apply elem_of_cons in HG as [->|HG]; [rewrite length_take; lia|by eapply IH]. }
    pose proof (ofBits_bounds (g ++ replicate (6 - length g) false)) as HB. rewrite length_app, length_replicate in HB. replace (length g + (6 - length g))%nat with 6%nat in HB by lia. exact HB.
Qed.

(** ** Encodings are read *)

Section Roundtrip.
Context `{CharDirection}.
Variables (encodeMap decodeMap : list Z) (policy : Base64DecodePolicy).
Hypothesis inverse : inverseMaps encodeMap decodeMap.

Abbreviation letter := (letterOf encodeMap).

Lemma letter_not_equals d : isSextet d -> letter d <> "="%uchar.
Proof. intros HD E. specialize (inverse d HD). rewrite E in inverse. done. Qed.

Lemma digitsIn_text digits n : Forall isSextet digits -> digitsIn decodeMap (map letter digits ++ replicate n "="%uchar) = digits.
Proof.
  intros HF. induction HF as [|d digits HD HF IH]; cbn [map app].
  - induction n as [|n IH]; [done|]. cbn [replicate]. by rewrite digitsIn_cons, digitValue_equals.
  - rewrite digitsIn_cons, inverse by done. by rewrite IH.
Qed.

Lemma equalsSigns_text digits n : Forall isSextet digits -> equalsSigns (map letter digits ++ replicate n "="%uchar) = replicate n "="%uchar.
Proof.
  intros HF. induction HF as [|d digits HD HF IH]; cbn [map app].
  - induction n as [|n IH]; [done|]. cbn [replicate]. by rewrite equalsSigns_cons, Z.eqb_refl, IH.
  - by rewrite equalsSigns_cons, (proj2 (Z.eqb_neq _ _) (letter_not_equals d HD)).
Qed.

(** How long the padding is, and that it fills a group. *)
Lemma padding_length data : Forall isByte data -> ((length (sextetsOf data) + length (paddingFor data)) mod 4 = 0 /\ length (paddingFor data) <= 2 /\
  length (sextetsOf data) mod 4 <> 1 /\ (sextetsOf data = [] -> data = []))%nat.
Proof.
  intros HF. destruct (sextetsOf_length data HF) as [HL _]. unfold paddingFor. rewrite length_replicate.
  assert (HD : (sextetsOf data = [] -> data = [])%nat).
  { intros E. rewrite E in HL. cbn [length] in HL. pose proof (Nat.div_mod_eq (length data) 3). destruct data as [|b data]; [done|]. destruct (length (b :: data) mod 3)%nat as [|[|r]] eqn:EM; cbn [length] in *; lia. }
  assert (HK : forall k c, ((4 * k + c) mod 4 = c mod 4)%nat) by (intros k c; by rewrite (Nat.mul_comm 4), Nat.add_comm, Nat.Div0.mod_add).
  rewrite HL. pose proof (Nat.mod_upper_bound (length data) 3 ltac:(lia)). destruct (length data mod 3)%nat as [|[|[|r]]]; [..|lia];
    (split_and!; [rewrite <- Nat.add_assoc, HK; done|cbn; lia|rewrite HK; done|done]).
Qed.

Lemma isEncoding_text data n : Forall isByte data -> n = 0%nat \/ n = length (paddingFor data) -> isEncoding decodeMap policy (map letter (sextetsOf data) ++ replicate n "="%uchar).
Proof.
  intros HF HN. destruct (sextetsOf_length data HF) as [_ HS]. destruct (padding_length data HF) as (HP & HP2 & HM & HE). unfold isEncoding.
  rewrite digitsIn_text, equalsSigns_text, length_app, length_map, !length_replicate by done. split_and!; [| |done|].
  - exists (map letter (sextetsOf data)), (replicate n "="%uchar). split_and!; [done| |apply Forall_replicate; by left].
    apply Forall_map. eapply Forall_impl; [exact HS|]. intros d HD. left. by rewrite inverse.
  - intros _ HR. destruct HN as [-> | ->]; [done|by split].
  - intros E. destruct HN as [-> | ->]; [done|]. by rewrite (HE E).
Qed.

(** Under the policies that read over line feeds, the lines do not matter. *)
Lemma scan_skip len x b : policy <> Base64FailOnInvalidCharacterOrExcessPadding -> ignored decodeMap policy x -> forall a count, scanOk decodeMap policy len count (a ++ x :: b) = scanOk decodeMap policy len count (a ++ b).
Proof.
  intros HP (HE & HD & HR) a. induction a as [|ch a IH]; intros count; cbn [app scanOk]; [by rewrite (proj2 (Z.eqb_neq _ _) HE), HD, HR|].
  by rewrite !IH.
Qed.

Lemma scan_length len len' chars : policy <> Base64FailOnInvalidCharacterOrExcessPadding -> forall count, scanOk decodeMap policy len count chars = scanOk decodeMap policy len' count chars.
Proof.
  intros HP. induction chars as [|ch chars IH]; intros count; cbn [scanOk]; [done|]. rewrite !IH. unfold rejectsPadding. by rewrite bool_decide_eq_false_2.
Qed.

Lemma scan_lines len lines : policy <> Base64FailOnInvalidCharacterOrExcessPadding -> ignored decodeMap policy cLF -> forall a count,
  scanOk decodeMap policy len count (a ++ joinLines lines) = scanOk decodeMap policy len count (a ++ concat lines).
Proof.
  intros HP HI. induction lines as [|l lines IH]; intros a count; [done|]. destruct lines as [|l' lines]; [cbn [joinLines concat]; by rewrite app_nil_r|].
  change (joinLines (l :: l' :: lines)) with (l ++ [cLF] ++ joinLines (l' :: lines)). rewrite app_assoc. cbn [app]. rewrite scan_skip by done. rewrite IH. by rewrite <- app_assoc.
Qed.

Lemma digits_lines lines : ignored decodeMap policy cLF -> digitsIn decodeMap (joinLines lines) = digitsIn decodeMap (concat lines) /\ equalsSigns (joinLines lines) = equalsSigns (concat lines).
Proof.
  intros (HE & HD & _). induction lines as [|l lines [IH1 IH2]]; [done|]. destruct lines as [|l' lines]; [cbn [joinLines concat]; by rewrite app_nil_r|].
  change (joinLines (l :: l' :: lines)) with (l ++ [cLF] ++ joinLines (l' :: lines)). change (concat (l :: l' :: lines)) with (l ++ concat (l' :: lines)). unfold digitsIn, equalsSigns in *. rewrite !omap_app, !filter_app, IH1, IH2.
  split; [cbn [omap list_omap]; by rewrite HD|done].
Qed.

Lemma isEncoding_lines lines : policy <> Base64FailOnInvalidCharacterOrExcessPadding -> ignored decodeMap policy cLF -> isEncoding decodeMap policy (concat lines) -> isEncoding decodeMap policy (joinLines lines).
Proof.
  intros HP HI HE. rewrite isEncoding_scan in HE |- *. destruct (digits_lines lines HI) as [-> ->]. destruct HE as (HS & HM & HN). split_and!; [|done|done].
  rewrite (scan_lines _ lines HP HI []). cbn [app]. by rewrite (scan_length _ (Z.of_nat (length (concat lines)))).
Qed.
End Roundtrip.

(** ** The encoder and the decoder *)

(** Which policies fit: lines are read by the decoders that read over line feeds. *)
Definition readsBack (policy : Base64EncodePolicy) (reading : Base64DecodePolicy) : Prop :=
  policy = Base64InsertLFs -> reading = Base64IgnoreWhitespace \/ reading = Base64IgnoreInvalidCharacters.
Definition encodable (policy : Base64EncodePolicy) (data : list Z) : Prop :=
  Forall isByte data /\ Z.of_nat (length data) <= maxInputBufferSize /\ (policy = Base64InsertLFs -> Z.of_nat (length data) < 3 * 2 ^ 29).

Section Alphabet.
Context `{CharDirection}.
Variables encodeMap decodeMap : list Z.
Hypothesis inverse : inverseMaps encodeMap decodeMap.
Hypothesis alphabet : isAlphabet encodeMap.
Hypothesis map_digits : Forall (fun v => v = nonAlphabet \/ isSextet v) decodeMap.
Hypothesis no_line_feed : digitValue decodeMap cLF = None.

Lemma encodeSpec_read policy reading data : Forall isByte data -> readsBack policy reading ->
  isEncoding decodeMap reading (encodeSpec encodeMap policy data) /\ digitsIn decodeMap (encodeSpec encodeMap policy data) = sextetsOf data.
Proof.
  intros HF HR. destruct (sextetsOf_length data HF) as [_ HS].
  assert (HT : forall n, n = 0%nat \/ n = length (paddingFor data) -> isEncoding decodeMap reading (map (letterOf encodeMap) (sextetsOf data) ++ replicate n "="%uchar) /\
    digitsIn decodeMap (map (letterOf encodeMap) (sextetsOf data) ++ replicate n "="%uchar) = sextetsOf data).
  { intros n Hn. split; [by apply isEncoding_text|by apply digitsIn_text]. }
  assert (EP : paddingFor data = replicate (length (paddingFor data)) "="%uchar) by (unfold paddingFor; by rewrite length_replicate).
  destruct policy; cbn [encodeSpec].
  - rewrite EP. apply HT. by right.
  - rewrite EP. set (text := map _ _ ++ _).
    assert (HL : ignored decodeMap reading cLF) by (destruct (HR eq_refl) as [-> | ->]; split_and!; done).
    assert (HE : isEncoding decodeMap reading (concat (chunksOf 76 text)) /\ digitsIn decodeMap (concat (chunksOf 76 text)) = sextetsOf data) by (rewrite concat_chunksOf by lia; apply HT; by right).
    destruct HE as [HE1 HE2]. split; [apply isEncoding_lines; [destruct (HR eq_refl) as [-> | ->]; done|done|done]|]. by rewrite (proj1 (digits_lines decodeMap reading _ HL)).
  - destruct (HT 0%nat) as [HE HD]; [by left|]. cbn [replicate] in HE, HD. rewrite app_nil_r in HE, HD. by split.
Qed.

(** Nothing the encoder writes is too long for the decoder. *)
Lemma encoded_size memory data policy text : encodable policy data -> base64EncodeInternal encodeMap memory data policy = Some text -> Z.of_nat (length text) < 2 ^ 32.
Proof.
  intros (HF & HM & HI) HE. rewrite base64EncodeInternal_spec in HE by done. injection HE as <-. destruct (groups3 data) as (groups & rest & ED & HR). subst data.
  destruct (Nat.eq_dec (length (flat3 groups ++ rest)) 0%nat) as [H0|H0]; [apply nil_length_inv in H0; rewrite H0; destruct policy; cbn; lia|].
  assert (HL : 0 < Z.of_nat (length (flat3 groups ++ rest)) <= maxInputBufferSize) by lia. pose proof (groupCount_bounds _ HL) as HG. change (groupCount maxInputBufferSize) with 1059797124 in HG.
  apply Forall_app in HF as HF2. destruct HF2 as [_ HF2]. pose proof (length_concat_four _ (quads_length encodeMap groups rest HF2 HR)) as HC. pose proof (quads_count encodeMap groups rest HR) as HQ.
  assert (HP : forall ins, Z.of_nat (length (withLFs ins 0 (map (letters3 encodeMap) groups ++ tailQuad encodeMap rest))) < 2 ^ 32).
  { intros [|]; [rewrite length_withLFs_all by (intros E; rewrite E in HQ; cbn in HQ; lia)|rewrite withLFs_false]; rewrite HC, Nat2Z.inj_mul, HQ; clear -HG; div_lia. }
  assert (HT : Z.of_nat (length (map (letterOf encodeMap) (sextetsOf (flat3 groups ++ rest)) ++ paddingFor (flat3 groups ++ rest))) < 2 ^ 32).
  { rewrite paddingFor_groups, <- concat_parts, <- (withLFs_false 0), withLFs_padded by done. apply HP. }
  destruct policy; cbn [encodeSpec]; [exact HT| |rewrite length_app in HT; lia].
  rewrite paddingFor_groups, <- concat_parts, <- (withLFs_false 0), withLFs_padded, withLFs_false by done. specialize (HP true).
  rewrite (withLFs_joinLines _ 0 ltac:(lia)) in HP; [exact HP| |by apply quads_length]. intros E. rewrite E in HQ. cbn in HQ. lia.
Qed.

Lemma encode_decode memory memory' data policy reading : encodable policy data -> readsBack policy reading ->
  exists text, base64EncodeInternal encodeMap memory data policy = Some text /\ base64DecodeInternal decodeMap reading memory' text = Some (true, data).
Proof.
  intros HE HR. pose proof HE as (HF & HM & HI). pose proof (base64EncodeInternal_spec encodeMap alphabet memory data policy HF HM HI) as ET.
  exists (encodeSpec encodeMap policy data). split; [done|]. destruct data as [|b data]; [by destruct policy|].
  destruct (encodeSpec_read policy reading (b :: data) HF HR) as [HE1 HE2].
  destruct (base64DecodeInternal_spec decodeMap reading map_digits memory' (encodeSpec encodeMap policy (b :: data))) as (ok & out & ED & HO & HB); [by eapply encoded_size|].
  apply HO in HE1. subst ok. rewrite ED. rewrite HB by (done || (rewrite HE2; intros E; destruct (padding_length _ HF) as (_ & _ & _ & HN); by specialize (HN E))).
  by rewrite HE2, bytesOfDigits_sextetsOf.
Qed.
End Alphabet.

(** ** The functions of the header *)

Lemma base64DecMap_digits : Forall (fun v => v = nonAlphabet \/ isSextet v) base64DecMap.
Proof. apply alphabet_digits. by vm_compute. Qed.
Lemma base64URLDecMap_digits : Forall (fun v => v = nonAlphabet \/ isSextet v) base64URLDecMap.
Proof. apply alphabet_digits. by vm_compute. Qed.

(** C34: the encoder prints bits.  For data of every length it does not refuse, and every
    policy, for fewer than 3 * 2^29 bytes if line feeds are put in ([line_counter_overflows]
    shows why), the result is the one of RFC 4648: the bits of the data in groups of six, a letter for
    each, padding to a multiple of four letters and lines of 76 where the policy
    asks for them.  The vector is allocated with exactly the size that is needed, whatever its
    memory holds: no access is outside of it. *)
Theorem base64_encodes_bits (memory : nat -> Z) (data : list Z) (policy : Base64EncodePolicy) : encodable policy data ->
  base64Encode memory data policy = Some (encodeSpec base64EncMap policy data) /\
  base64URLEncode memory data = Some (encodeSpec base64URLEncMap Base64URLPolicy data).
Proof. intros (HF & HM & HI). split; by apply base64EncodeInternal_spec; [apply alphabets|..]. Qed.

(** Lines that are full, and a last group of one byte. *)
Lemma base64_encodes_bits_witness : base64Encode (fun _ => 0) (str "Man is distinguished by his reason, and by this passion..!") Base64InsertLFs =
    Some (str "TWFuIGlzIGRpc3Rpbmd1aXNoZWQgYnkgaGlzIHJlYXNvbiwgYW5kIGJ5IHRoaXMgcGFzc2lvbi4u" ++ [cLF] ++ str "IQ==") /\
  base64URLEncode (fun _ => 0) [0xFB; 0xFF] = Some (str "-_8").
Proof.
  split.
  - refine (eq_trans (proj1 (base64_encodes_bits _ _ Base64InsertLFs _)) _); [|by vm_compute].
    split_and!; [apply (bool_decide_unpack (Forall (fun b => 0 <= b < 256) _)); by vm_compute|done..].
  - refine (eq_trans (proj2 (base64_encodes_bits _ _ Base64DoNotInsertLFs _)) _); [|by vm_compute].
    split_and!; [apply (bool_decide_unpack (Forall (fun b => 0 <= b < 256) _)); by vm_compute|done..].
Defined.

(** C35: the decoder decides.  It ends on every text without leaving its vector, though it
    packs the bytes over the digits they are made of; it accepts exactly the texts that are
    encodings for its policy; and if such a text has a digit, it gives the bytes of the bits of
    its digits (a text without digits gives memory: [blank_text_decodes_to_memory]). *)
Theorem base64_decoder_decides `{CharDirection} (memory : nat -> Z) (text : list Z) (reading : Base64DecodePolicy) : Z.of_nat (length text) < 2 ^ 32 ->
  exists ok out, base64DecodeString reading memory text = Some (ok, out) /\ (ok = true <-> isEncoding base64DecMap reading text) /\
    (ok = true -> digitsIn base64DecMap text <> [] -> out = bytesOfDigits (digitsIn base64DecMap text)).
Proof. intros HL. by apply base64DecodeInternal_spec; [apply base64DecMap_digits|]. Qed.

Module Base64Sample.
#[export] Instance noWhiteSpaceNeutral : CharDirection := fun _ => false.
End Base64Sample.
Import Base64Sample.

(** Four digits and a blank; padding that does not fill a group. *)
Lemma base64_decoder_decides_witness :
  isEncoding base64DecMap Base64IgnoreWhitespace (str "TW Fu") /\ ~ isEncoding base64DecMap Base64FailOnInvalidCharacterOrExcessPadding (str "TQ=").
Proof.
  split.
  - destruct (base64_decoder_decides (fun _ => 0) (str "TW Fu") Base64IgnoreWhitespace) as (ok & out & HE & HO & _); [done|]. apply HO. vm_compute in HE. congruence.
  - destruct (base64_decoder_decides (fun _ => 0) (str "TQ=") Base64FailOnInvalidCharacterOrExcessPadding) as (ok & out & HE & HO & _); [done|]. rewrite <- HO. vm_compute in HE. congruence.
Defined.

(** A text of the encoder as [char]s and as [UChar]s. *)
Lemma encoded_ascii encodeMap policy data : Forall (fun b => 0 <= b < 128) encodeMap -> length encodeMap = 64%nat -> Forall isByte data ->
  Forall (fun ch => 0 <= ch < 128) (encodeSpec encodeMap policy data).
Proof.
  intros HE HL HF. assert (HT : Forall (fun ch => 0 <= ch < 128) (map (letterOf encodeMap) (sextetsOf data))).
  { apply Forall_map. destruct (sextetsOf_length data HF) as [_ HS]. eapply Forall_impl; [exact HS|]. unfold isSextet, letterOf. intros d HD.
    destruct (nth_lookup_or_length encodeMap (Z.to_nat d) 0) as [E|E]; [exact (Forall_lookup_1 _ _ _ _ HE E)|lia]. }
  assert (HP : Forall (fun ch => 0 <= ch < 128) (paddingFor data)) by (apply Forall_replicate; cbn; lia).
  destruct policy; cbn [encodeSpec]; [by apply Forall_app_2| |done].
  set (text := _ ++ _). assert (HA : Forall (fun ch => 0 <= ch < 128) (concat (chunksOf 76 text))) by (rewrite concat_chunksOf by lia; by apply Forall_app_2).
  revert HA. generalize (chunksOf 76 text). intros lines. induction lines as [|l lines IH]; intros HA; [apply Forall_nil_2|]. cbn [concat] in HA. apply Forall_app in HA as [HA1 HA2].
  destruct lines as [|l' lines]; [exact HA1|]. change (joinLines (l :: l' :: lines)) with (l ++ [cLF] ++ joinLines (l' :: lines)).
  apply Forall_app_2; [done|]. apply Forall_app_2; [apply Forall_cons_2; [lia|apply Forall_nil_2]|by apply IH].
Qed.

Lemma unsigned_ascii text : Forall (fun ch => 0 <= ch < 128) text -> map unsignedOfChar text = text.
Proof.
  induction 1 as [|ch text HC HF IH]; [done|]. cbn [map]. rewrite IH. unfold unsignedOfChar. rewrite charValue_small by done. unfold uint32. by rewrite Z.mod_small by lia.
Qed.

Lemma encode_decode_chars `{CharDirection} encodeMap decodeMap (inverse : inverseMaps encodeMap decodeMap) (alphabet : isAlphabet encodeMap)
  (digits : Forall (fun v => v = nonAlphabet \/ isSextet v) decodeMap) (no_line_feed : digitValue decodeMap cLF = None) memory memory' data policy reading :
  Forall (fun b => 0 <= b < 128) encodeMap -> encodable policy data -> readsBack policy reading ->
  exists text, base64EncodeInternal encodeMap memory data policy = Some text /\ base64DecodeInternal decodeMap reading memory' text = Some (true, data) /\
    base64DecodeInternal decodeMap reading memory' (map unsignedOfChar text) = Some (true, data) /\ (Z.of_nat (length text) >? UINT_MAX) = false.
Proof.
  intros HA HE HR. destruct (encode_decode encodeMap decodeMap inverse alphabet digits no_line_feed memory memory' data policy reading HE HR) as (text & ET & ED).
  pose proof (encoded_size encodeMap alphabet memory data policy text HE ET) as HS. exists text. split_and!; [done|done| |rewrite Z.gtb_ltb; apply Z.ltb_ge; unfold UINT_MAX; lia].
  rewrite unsigned_ascii; [done|]. rewrite base64EncodeInternal_spec in ET by (done || apply HE). injection ET as <-. apply encoded_ascii; [done|apply alphabet|apply HE].
Qed.

(** Base64, there and back.  What is encoded, in lines or not, padded or not, is
    decoded to the same bytes, as a string and as a vector of characters, by every policy that fits; and
    so for the alphabet of URLs. *)
Theorem base64_roundtrip `{CharDirection} (memory memory' : nat -> Z) (data : list Z) (policy : Base64EncodePolicy) (reading : Base64DecodePolicy) :
  encodable policy data -> readsBack policy reading ->
  (exists text, base64Encode memory data policy = Some text /\ base64DecodeString reading memory' text = Some (true, data) /\ base64DecodeVector reading memory' text = Some (true, data)) /\
  (exists text, base64URLEncode memory data = Some text /\ base64URLDecodeString memory' text = Some (true, data) /\ base64URLDecodeVector memory' text = Some (true, data)).
Proof.
  intros HE HR. assert (HU : encodable Base64URLPolicy data) by (destruct HE as (HF & HM & _); by split_and!).
  unfold base64DecodeVector, base64URLDecodeVector, base64DecodeChars, base64URLDecodeChars. split.
  - destruct (encode_decode_chars base64EncMap base64DecMap base64_inverse (proj1 alphabets) base64DecMap_digits eq_refl memory memory' data policy reading)
      as (text & ET & ED & EC & ES); [apply (bool_decide_unpack (Forall (fun b => 0 <= b < 128) _)); by vm_compute|done..|exists text; by rewrite ES].
  - destruct (encode_decode_chars base64URLEncMap base64URLDecMap base64URL_inverse (proj2 alphabets) base64URLDecMap_digits eq_refl memory memory' data Base64URLPolicy Base64FailOnInvalidCharacter)
      as (text & ET & ED & EC & ES); [apply (bool_decide_unpack (Forall (fun b => 0 <= b < 128) _)); by vm_compute|done..|exists text; by rewrite ES].
Qed.

Lemma base64_roundtrip_witness : exists text, base64Encode (fun _ => 0) [0; 255; 128; 7] Base64InsertLFs = Some text /\
  base64DecodeString Base64IgnoreWhitespace (fun _ => 1) text = Some (true, [0; 255; 128; 7]) /\ base64DecodeVector Base64IgnoreWhitespace (fun _ => 1) text = Some (true, [0; 255; 128; 7]).
Proof.
  refine (proj1 (base64_roundtrip (fun _ => 0) (fun _ => 1) [0; 255; 128; 7] Base64InsertLFs Base64IgnoreWhitespace _ _)); [|by left].
  split_and!; [apply (bool_decide_unpack (Forall (fun b => 0 <= b < 256) _)); by vm_compute|done..].
Defined.

(** ** [btoa] and [atob] *)

Lemma lor_high s : Forall (fun ch => 0 <= ch < 256) s -> forall a, 0 <= a < 256 -> Z.land (fold_left Z.lor s a) 0xFF00 = 0.
Proof.
  assert (HL : forall a, 0 <= a < 256 -> Z.land a 0xFF00 = 0) by (intros a HA; pose proof (byte_check (fun b => Z.land b 0xFF00 =? 0) a ltac:(by vm_compute) HA) as HB; by apply Z.eqb_eq in HB).
  induction 1 as [|ch s HC HF IH]; intros a HA; cbn [fold_left]; [by apply HL|]. apply IH. split; [apply Z.lor_nonneg; lia|].
  destruct (Z.eq_dec (Z.lor a ch) 0) as [->|HN]; [lia|]. apply (Z.log2_lt_pow2 _ 8); [pose proof (proj2 (Z.lor_nonneg a ch)); lia|]. rewrite Z.log2_lor by lia.
  assert (HB : forall z, 0 <= z < 256 -> Z.log2 z < 8) by (intros z HZ; destruct (Z.eq_dec z 0) as [->|]; [done|apply (Z.log2_lt_pow2 z 8); lia]). by apply Z.max_lub_lt; apply HB.
Qed.

Lemma latin1_string is8Bit s : Forall isByte s -> containsOnlyLatin1 is8Bit s = true /\ latin1 is8Bit s = s.
Proof.
  intros HF. split.
  - destruct s as [|ch s]; [done|]. unfold containsOnlyLatin1. destruct is8Bit; [done|]. rewrite lor_high by (done || lia). done.
  - destruct is8Bit; [done|]. cbn [latin1]. induction HF as [|ch s HC HF IH]; [done|]. cbn [map]. unfold isByte in HC. rewrite IH, Z.gtb_ltb, (proj2 (Z.ltb_ge _ _)) by lia. done.
Qed.

(** A script gets back what it has encoded; the empty string becomes a null one. *)
Theorem atob_btoa `{CharDirection} (memory memory' : nat -> Z) (is8Bit : bool) (s : list UChar) : Forall isByte s -> Z.of_nat (length s) <= maxInputBufferSize ->
  exists t, btoa memory is8Bit (Some s) = Some (inr t) /\ atob memory' true t = Some (inr (stringOfVector s)).
Proof.
  intros HF HL. destruct (latin1_string is8Bit s HF) as [HO HS]. assert (HE : encodable Base64DoNotInsertLFs s) by by split_and!.
  destruct (encode_decode base64EncMap base64DecMap base64_inverse (proj1 alphabets) base64DecMap_digits eq_refl memory memory' s Base64DoNotInsertLFs Base64FailOnInvalidCharacterOrExcessPadding HE ltac:(done))
    as (text & ET & ED).
  exists (stringOfVector text). unfold btoa, base64Encode. rewrite HO, HS, ET. split; [done|]. destruct text as [|ch text]; [by injection ED as <-|].
  cbn [stringOfVector atob containsOnlyLatin1 negb]. unfold base64DecodeString. by rewrite ED.
Qed.

(** A string with a character that is no byte is refused. *)
Example btoa_refuses : btoa (fun _ => 0) false (Some [0x41; 0x20AC]) = Some (inl INVALID_CHARACTER_ERR) /\ atob (fun _ => 0) true (Some (str "T")) = Some (inl INVALID_CHARACTER_ERR).
Proof. by vm_compute. Qed.

(** ** Where the code falls short *)

(** A text of nothing but characters the policy reads over is decoded with success, and
    the result is the memory of the vector: it is never shrunk.  In a data URL
    with blanks only, these bytes are what the page receives. *)
Theorem blank_text_decodes_to_memory `{CharDirection} memory reading text : text <> [] -> Z.of_nat (length text) < 2 ^ 32 -> Forall (ignored base64DecMap reading) text ->
  base64DecodeString reading memory text = Some (true, map memory (seq 0 (length text))).
Proof.
  intros HN HL HF. unfold base64DecodeString, base64DecodeInternal. destruct text as [|c text]; [done|]. remember (c :: text) as chars eqn:EC. clear HN EC c text.
  destruct (scanDigits_spec base64DecMap reading base64DecMap_digits (Z.of_nat (length chars)) chars 0 [] (growFrom memory (Z.of_nat (length chars)))) as (scanned & ES & HS); [lia|lia|unfold growFrom; rewrite length_map, length_seq; lia|].
  assert (HO : scanOk base64DecMap reading (Z.of_nat (length chars)) 0 chars = true /\ digitsIn base64DecMap chars = [] /\ equalsSigns chars = []).
  { generalize (Z.of_nat (length chars)). intros len. clear -HF. induction HF as [|ch chars (HE & HD & HR) HF (IH1 & IH2 & IH3)]; [done|]. rewrite equalsSigns_cons, digitsIn_cons. cbn [scanOk]. rewrite (proj2 (Z.eqb_neq _ _) HE), HD, HR. by split_and!. }
  destruct HO as (HO & HD & HE). rewrite HO, HD, HE in HS. cbn [app length drop] in ES, HS. rewrite ES, HS. cbn [mbind option_bind]. unfold finishDecoding, growFrom. by rewrite Nat2Z.id.
Qed.

Example blank_text_leaks : base64DecodeString Base64IgnoreWhitespace (fun i => 100 + Z.of_nat i) (str "  ") = Some (true, [100; 101]).
Proof. by vm_compute. Qed.

(** The counter of the line feeds is an [int] and the encoder takes more than [INT_MAX] letters: after 2 ^ 29
    groups of letters it is negative.  From then on the loop breaks lines at other places, and
    the end of the text, which asks for a positive count, at none. *)
Theorem line_counter_overflows : 3 * 2 ^ 29 <= maxInputBufferSize /\
  encodeGroups base64EncMap 2 true [0; 0; 0] 0 (4 * (2 ^ 29 - 1)) (0%nat, [0; 0; 0; 0]) = Some (3%nat, - 2 ^ 31, (4%nat, str "AAAA")) /\
  lineFeed true (2 ^ 29 + 4) = [cLF] /\ Z.rem (int32 (4 * (2 ^ 29 + 4))) 76 <> 0 /\
  lineFeed true (2 ^ 29 + 15) = [] /\ Z.rem (int32 (4 * (2 ^ 29 + 15))) 76 = 0.
Proof. split; [by vm_compute|]. split_and!; by vm_compute. Qed.

(** The bound on the input is right: a group more and the size of the output would be zero. *)
Theorem encoder_limit_is_tight : addLFs true (encodedLength maxInputBufferSize) = 2 ^ 32 - 5 /\ addLFs true (encodedLength (maxInputBufferSize + 3)) = 0.
Proof. by vm_compute. Qed.

(** The comment on padding has it the wrong way round: under the strict policy, padding is refused when the length is
    not a multiple of four. *)
Example strict_padding : isEncoding base64DecMap Base64FailOnInvalidCharacterOrExcessPadding (str "TQ==") /\ scanOk base64DecMap Base64FailOnInvalidCharacterOrExcessPadding 3 0 (str "TQ=") = false.
Proof. split; [apply isEncoding_scan; split_and!; by vm_compute|by vm_compute]. Qed.
