(* ===== verification/SHA1.v ===== *)
(** * SHA-1

    [wtf/SHA1.{h,cpp}].  The object is fed with bytes, hashes a block whenever its
    buffer is full, and gives the digest of what it was fed with.  Words are numbers
    below 2 ^ 32.  An access outside of an array and a failed assertion end
    the operation without a result. *)

From S2P Require Import Prelude BitStrings.
Open Scope Z_scope.

(** [for (t = from; t < from + n; ++t)]. *)
Fixpoint forLoop {A : Type} (n from : nat) (body : nat -> A -> option A) (s : A) : option A :=
  match n with
  | O => Some s
  | S n => s ← body from s; forLoop n (S from) body s
  end.

Definition f (t : nat) (b c d : Z) : Z :=
  if (t <? 20)%nat then Z.lor (Z.land b c) (Z.land (uint32 (Z.lnot b)) d)
  else if (t <? 40)%nat then Z.lxor (Z.lxor b c) d
  else if (t <? 60)%nat then Z.lor (Z.lor (Z.land b c) (Z.land b d)) (Z.land c d)
  else Z.lxor (Z.lxor b c) d.

Definition k (t : nat) : Z :=
  if (t <? 20)%nat then 0x5a827999
  else if (t <? 40)%nat then 0x6ed9eba1
  else if (t <? 60)%nat then 0x8f1bbcdc
  else 0xca62c1d6.

Definition rotateLeft (n x : Z) : Z := Z.lor (uint32 (Z.shiftl x n)) (Z.shiftr x (32 - n)).

Record SHA1 := mkSHA1 {
  m_buffer : list Z;
  m_cursor : nat;
  m_totalBytes : Z;
  m_hash : list Z
}.

(** ** [processBlock] *)

(** [w[t] = v]. *)
Definition setWord (t : nat) (v : Z) (w : list Z) : option (list Z) := if (t <? length w)%nat then Some (<[t := v]> w) else None.

(** A word of the buffer, big-endian; [int] arithmetic, converted to [uint32_t]. *)
Definition blockWord (buffer : list Z) (t : nat) (w : list Z) : option (list Z) :=
  b0 ← buffer !! (t * 4)%nat; b1 ← buffer !! (t * 4 + 1)%nat; b2 ← buffer !! (t * 4 + 2)%nat; b3 ← buffer !! (t * 4 + 3)%nat;
  setWord t (uint32 (Z.lor (Z.lor (Z.lor (Z.shiftl b0 24) (Z.shiftl b1 16)) (Z.shiftl b2 8)) b3)) w.

Definition expandWord (t : nat) (w : list Z) : option (list Z) :=
  w3 ← w !! (t - 3)%nat; w8 ← w !! (t - 8)%nat; w14 ← w !! (t - 14)%nat; w16 ← w !! (t - 16)%nat;
  setWord t (rotateLeft 1 (Z.lxor (Z.lxor (Z.lxor w3 w8) w14) w16)) w.

Definition Working : Type := Z * Z * Z * Z * Z.

Definition mixRound (w : list Z) (t : nat) (s : Working) : option Working :=
  let '(a, b, c, d, e) := s in
  wt ← w !! t;
  let temp := uint32 (rotateLeft 5 a + f t b c d + e + wt + k t) in
  Some (temp, a, rotateLeft 30 b, c, d).

Definition processBlock (s : SHA1) : option SHA1 :=
  if (m_cursor s =? 64)%nat then
    w ← forLoop 16 0 (blockWord (m_buffer s)) (replicate 80 0);
    w ← forLoop 64 16 expandWord w;
    match m_hash s with
    | [h0; h1; h2; h3; h4] =>
        '(a, b, c, d, e) ← forLoop 80 0 (mixRound w) (h0, h1, h2, h3, h4);
        Some (mkSHA1 (m_buffer s) 0 (m_totalBytes s) [uint32 (h0 + a); uint32 (h1 + b); uint32 (h2 + c); uint32 (h3 + d); uint32 (h4 + e)])
    | _ => None
    end
  else None.

(** ** Feeding *)

Definition SHA1_reset (s : SHA1) : SHA1 := mkSHA1 (replicate 64 0) 0 0 [0x67452301; 0xefcdab89; 0x98badcfe; 0x10325476; 0xc3d2e1f0].
(** The constructor resets an object with anything in it. *)
Definition newSHA1 : SHA1 := SHA1_reset (mkSHA1 [] 0 0 []).

Definition addByte (b : Z) (s : SHA1) : option SHA1 :=
  buffer ← store (m_cursor s) b (m_buffer s);
  let s := mkSHA1 buffer (S (m_cursor s)) ((m_totalBytes s + 1) mod 2 ^ 64) (m_hash s) in
  if (m_cursor s =? 64)%nat then processBlock s else Some s.

Fixpoint addBytes (input : list Z) (s : SHA1) : option SHA1 :=
  match input with
  | [] => Some s
  | b :: input => s ← addByte b s; addBytes input s
  end.

(** ** The digest *)

Definition bufferByte (b : Z) (s : SHA1) : option SHA1 :=
  buffer ← store (m_cursor s) b (m_buffer s); Some (mkSHA1 buffer (S (m_cursor s)) (m_totalBytes s) (m_hash s)).

(** [while (m_cursor < 64) m_buffer[m_cursor++] = 0]. *)
Fixpoint padBlock (fuel : nat) (s : SHA1) : option SHA1 :=
  match fuel with
  | O => None
  | S fuel => if (m_cursor s <? 64)%nat then s ← bufferByte 0 s; padBlock fuel s else Some s
  end.

Definition writeLength (i : nat) (p : Z * list Z) : option (Z * list Z) :=
  let '(bits, buffer) := p in buffer ← store (56 + (7 - i)) (Z.land bits 0xFF) buffer; Some (Z.shiftr bits 8, buffer).

Definition SHA1_finalize (s : SHA1) : option SHA1 :=
  s ← bufferByte 0x80 s;
  s ← (if (56 <? m_cursor s)%nat then s ← padBlock 65 s; processBlock s else Some s);
  buffer ← forLoop (56 - m_cursor s) (m_cursor s) (fun i buffer => store i 0 buffer) (m_buffer s);
  '(_, buffer) ← forLoop 8 0 writeLength ((m_totalBytes s * 8) mod 2 ^ 64, buffer);
  processBlock (mkSHA1 buffer 64 (m_totalBytes s) (m_hash s)).

Definition digestByte (i j : nat) (p : Z * list Z) : option (Z * list Z) :=
  let '(hashValue, digest) := p in digest ← store (4 * i + (3 - j)) (Z.land hashValue 0xFF) digest; Some (Z.shiftr hashValue 8, digest).
Definition digestWord (hash : list Z) (i : nat) (digest : list Z) : option (list Z) :=
  h ← hash !! i; '(_, digest) ← forLoop 4 0 (digestByte i) (h, digest); Some digest.

(** [digest] is the array of the caller. *)
Definition SHA1_computeHash (digest : list Z) (s : SHA1) : option (list Z * SHA1) :=
  s ← SHA1_finalize s;
  digest ← forLoop 5 0 (digestWord (m_hash s)) digest;
  Some (digest, SHA1_reset s).

Definition hashSize : nat := 20.

(** [%02X] *)
Definition hexCharacter (d : Z) : Z := if d <? 10 then "0"%uchar + d else "A"%uchar + (d - 10).
Definition hexDigest (digest : list Z) : list Z := concat (map (fun b => [hexCharacter (b / 16); hexCharacter (b mod 16)]) digest).
Definition computeHexDigest (digest : list Z) (s : SHA1) : option (list Z * SHA1) :=
  '(digest, s) ← SHA1_computeHash digest s; Some (hexDigest digest, s).
