(* ===== verification/SHA1Spec.v ===== *)
(** * SHA-1 against RFC 3174

    The specification is written on strings of bits: rotation moves bits, the
    functions of the rounds choose, add or vote bit by bit, a message is padded as a
    whole and cut in blocks.  The code's words, its buffer and its padding in place
    compute it, however the message is cut into pieces. *)

From S2P Require Import Prelude BitStrings SHA1.
Open Scope Z_scope.

(** ** The specification *)

Definition isWord (x : Z) : Prop := 0 <= x < 2 ^ 32.

Definition ROTL (n : nat) (x : Z) : Z := let bits := toBits 32 x in ofBits (drop n bits ++ take n bits).

(** A function of three bits, on words. *)
Definition bitwise (g : bool -> bool -> bool -> bool) (x y z : Z) : Z := ofBits (zip_with (fun p d => g (fst p) (snd p) d) (zip (toBits 32 x) (toBits 32 y)) (toBits 32 z)).
Definition choice (b c d : bool) : bool := if b then c else d.
Definition parity (b c d : bool) : bool := xorb (xorb b c) d.
Definition majority (b c d : bool) : bool := if b then c || d else c && d.

Definition F (t : nat) : Z -> Z -> Z -> Z :=
  bitwise (if (t <? 20)%nat then choice else if (t <? 40)%nat then parity else if (t <? 60)%nat then majority else parity).
(** The first bits of the square roots of 2, 3, 5 and 10. *)
Definition K (t : nat) : Z := Z.sqrt ((if (t <? 20)%nat then 2 else if (t <? 40)%nat then 3 else if (t <? 60)%nat then 5 else 10) * 2 ^ 60).

Definition wordsOf (block : list Z) : list Z := map (fun g => ofBits (bitsOf g)) (chunksOf 4 block).

(** The words of the schedule, each from earlier ones. *)
Definition nextWord (w : list Z) : Z :=
  let back i := nth (length w - i) w 0 in ROTL 1 (Z.lxor (Z.lxor (Z.lxor (back 3%nat) (back 8%nat)) (back 14%nat)) (back 16%nat)).
Fixpoint extend (n : nat) (w : list Z) : list Z :=
  match n with
  | O => w
  | S n => extend n (w ++ [nextWord w])
  end.

Definition round (s : Working) (p : nat * Z) : Working :=
  let '(a, b, c, d, e) := s in ((ROTL 5 a + F (fst p) b c d + e + snd p + K (fst p)) mod 2 ^ 32, a, ROTL 30 b, c, d).

Definition compress (H : list Z) (block : list Z) : list Z :=
  match H with
  | [h0; h1; h2; h3; h4] =>
      let '(a, b, c, d, e) := fold_left round (zip (seq 0 80) (extend 64 (wordsOf block))) (h0, h1, h2, h3, h4) in
      [(h0 + a) mod 2 ^ 32; (h1 + b) mod 2 ^ 32; (h2 + c) mod 2 ^ 32; (h3 + d) mod 2 ^ 32; (h4 + e) mod 2 ^ 32]
  | _ => H
  end.

(** A number in [n] bytes, big-endian. *)
Definition bigEndianBytes (n : nat) (z : Z) : list Z := map ofBits (chunksOf 8 (toBits (8 * n) z)).

(** A one bit, zeros up to eight bytes before the end of a block, and the number of bits. *)
Definition zerosFor (n : nat) : nat := Z.to_nat ((55 - Z.of_nat n) mod 64).
Definition padded (message : list Z) : list Z :=
  message ++ [0x80] ++ replicate (zerosFor (length message)) 0 ++ bigEndianBytes 8 (8 * Z.of_nat (length message)).

Definition initialHash : list Z := [0x67452301; 0xefcdab89; 0x98badcfe; 0x10325476; 0xc3d2e1f0].
Definition sha1 (message : list Z) : list Z := concat (map (bigEndianBytes 4) (fold_left compress (chunksOf 64 (padded message)) initialHash)).

(** ** Words and their bits *)

Lemma toBits_word x l : toBits 32 x = l -> isWord x -> x = ofBits l.
Proof. intros <- HX. by rewrite ofBits_toBits. Qed.

(** A function of bits, computed on words. *)
Lemma toBits_bitwise g n v x y z : (forall i, 0 <= i < Z.of_nat n -> Z.testbit v i = g (Z.testbit x i) (Z.testbit y i) (Z.testbit z i)) ->
  toBits n v = zip_with (fun p d => g (fst p) (snd p) d) (zip (toBits n x) (toBits n y)) (toBits n z).
Proof.
  induction n as [|n IH]; intros HV; cbn [toBits zip zip_with fst snd]; [done|]. rewrite HV by lia. f_equal. apply IH. intros i Hi. apply HV. lia.
Qed.

Lemma ofBits_word l : length l = 32%nat -> isWord (ofBits l).
Proof. intros HL. pose proof (ofBits_bounds l) as HB. by rewrite HL in HB. Qed.

Lemma ROTL_word n x : isWord (ROTL n x).
Proof. apply ofBits_word. rewrite length_app, length_drop, length_take, length_toBits. lia. Qed.

Lemma bitwise_word g x y z : isWord (bitwise g x y z).
Proof. apply ofBits_word. rewrite length_zip_with, length_zip, !length_toBits. done. Qed.

Lemma word_mod z : isWord (z mod 2 ^ 32).
Proof. apply Z.mod_pos_bound. lia. Qed.

(** Bitwise operations stay below the width. *)
Lemma lor_word x y : isWord x -> isWord y -> isWord (Z.lor x y).
Proof.
  unfold isWord. intros HX HY. assert (E : Z.lor x y = Z.lor x y mod 2 ^ 32) by (rewrite <- Z.land_ones, Z.land_lor_distr_l, !Z.land_ones, !Z.mod_small by lia; done).
  rewrite E. apply Z.mod_pos_bound. lia.
Qed.
Lemma land_word x y : isWord x -> isWord y -> isWord (Z.land x y).
Proof.
  unfold isWord. intros HX HY. assert (E : Z.land x y = Z.land x y mod 2 ^ 32) by (rewrite <- Z.land_ones, <- Z.land_assoc, (Z.land_ones y), (Z.mod_small y) by lia; done).
  rewrite E. apply Z.mod_pos_bound. lia.
Qed.
Lemma lxor_word x y : isWord x -> isWord y -> isWord (Z.lxor x y).
Proof.
  unfold isWord. intros HX HY. assert (E : Z.lxor x y = Z.lxor x y mod 2 ^ 32).
  { rewrite <- Z.land_ones by lia. apply Z.bits_inj'. intros i Hi. rewrite Z.land_spec, Z.lxor_spec, Z.testbit_ones_nonneg by lia. destruct (Z.ltb_spec i 32) as [HL|HL]; [by rewrite andb_true_r|].
    rewrite !Z.bits_above_log2; [done|..]; try lia; (eapply Z.lt_le_trans; [|exact HL]); match goal with |- Z.log2 ?v < _ => destruct (Z.eq_dec v 0) as [->|]; [done|apply Z.log2_lt_pow2; lia] end. }
  rewrite E. apply Z.mod_pos_bound. lia.
Qed.
Create HintDb sha1.
#[export] Hint Resolve ROTL_word bitwise_word word_mod lor_word land_word lxor_word : sha1.

Lemma uint32_word z : isWord (uint32 z).
Proof. apply word_mod. Qed.
#[export] Hint Resolve uint32_word : sha1.

(** ** The functions of the code *)

Lemma f_spec t b c d : isWord b -> isWord c -> isWord d -> f t b c d = F t b c d.
Proof.
  intros HB HC HD. unfold f, F, bitwise. apply toBits_word; [|destruct (t <? 20)%nat, (t <? 40)%nat, (t <? 60)%nat; auto with sha1].
  apply toBits_bitwise. intros i Hi. unfold choice, parity, majority. destruct (t <? 20)%nat; [|destruct (t <? 40)%nat; [|destruct (t <? 60)%nat]];
    rewrite ?Z.lor_spec, ?Z.land_spec, ?Z.lxor_spec; unfold uint32; rewrite ?Z.mod_pow2_bits_low, ?Z.lnot_spec by lia; by destruct (Z.testbit b i), (Z.testbit c i), (Z.testbit d i).
Qed.

Lemma k_spec t : k t = K t.
Proof. unfold k, K. destruct (t <? 20)%nat; [by vm_compute|]. destruct (t <? 40)%nat; [by vm_compute|]. destruct (t <? 60)%nat; by vm_compute. Qed.

Lemma zip_or_left l r : zip_with orb (l ++ replicate (length r) false) (replicate (length l) false ++ r) = l ++ r.
Proof.
  induction l as [|b l IH]; cbn [app length replicate zip_with]; [|by rewrite IH, orb_false_r]. induction r as [|b r IH]; [done|]. cbn [length replicate zip_with]. by rewrite IH.
Qed.

Lemma toBits_zero n : toBits n 0 = replicate n false.
Proof. induction n as [|n IH]; cbn [toBits replicate]; [done|]. by rewrite Z.testbit_0_l, IH. Qed.

Lemma toBits_lor n x y : toBits n (Z.lor x y) = zip_with orb (toBits n x) (toBits n y).
Proof. induction n as [|n IH]; cbn [toBits zip_with]; [done|]. by rewrite Z.lor_spec, IH. Qed.

Lemma rotateLeft_spec n x : isWord x -> (n <= 32)%nat -> rotateLeft (Z.of_nat n) x = ROTL n x.
Proof.
  intros HX HN. unfold rotateLeft, ROTL. set (m := (32 - n)%nat). assert (HM : (n + m = 32)%nat) by lia.
  assert (ER : Z.shiftr x (32 - Z.of_nat n) = x / 2 ^ Z.of_nat m) by (rewrite Z.shiftr_div_pow2 by lia; f_equal; f_equal; lia). rewrite ER, Z.shiftl_mul_pow2 by lia.
  assert (EX : toBits 32 x = toBits n (x / 2 ^ Z.of_nat m) ++ toBits m x) by (rewrite <- HM; apply toBits_app).
  apply toBits_word.
  - rewrite toBits_lor. unfold uint32. change (2 ^ 32) with (2 ^ Z.of_nat 32). rewrite toBits_mod. rewrite EX, drop_app_length', take_app_length' by (by rewrite length_toBits).
    rewrite <- HM at 1 2. rewrite (Nat.add_comm n m), !toBits_app, Z.div_mul by lia.
    rewrite <- (Z.add_0_l (x * 2 ^ Z.of_nat n)), toBits_shift, toBits_zero. rewrite (Z.div_small (x / 2 ^ Z.of_nat m)), toBits_zero.
    + rewrite <- (zip_or_left (toBits m x) (toBits n (x / 2 ^ Z.of_nat m))), !length_toBits. done.
    + unfold isWord in HX. split; [apply Z.div_pos; lia|]. apply Z.div_lt_upper_bound; [lia|]. rewrite <- Z.pow_add_r by lia. replace (Z.of_nat m + Z.of_nat n) with 32 by lia. lia.
  - apply lor_word; [apply uint32_word|]. unfold isWord in *. split; [apply Z.div_pos; lia|]. apply Z.div_lt_upper_bound; [lia|]. nia.
Qed.

(** ** One block *)

Lemma setWord_app l v x r : setWord (length l) v (l ++ x :: r) = Some (l ++ v :: r).
Proof. unfold setWord. rewrite (proj2 (Nat.ltb_lt _ _)) by (rewrite length_app; cbn [length]; lia). by rewrite insert_app_r_alt, Nat.sub_diag by lia. Qed.

(** Four bytes are a word. *)
Lemma word_value a b c d : Forall isByte [a; b; c; d] ->
  uint32 (Z.lor (Z.lor (Z.lor (Z.shiftl a 24) (Z.shiftl b 16)) (Z.shiftl c 8)) d) = ofBits (bitsOf [a; b; c; d]).
Proof.
  intros HF. repeat match goal with H : Forall isByte (_ :: _) |- _ => apply Forall_cons in H; destruct H end. unfold isByte in *.
  rewrite !bitsOf_cons, !ofBits_app, !length_app, !length_toBits, !ofBits_toBits by (cbn; lia). cbn [bitsOf map concat length ofBits Nat.add].
  rewrite !Z.shiftl_mul_pow2 by lia. rewrite (Z.lor_comm (a * 2 ^ 24)), (lor_disjoint (b * 2 ^ 16) a 24) by lia. rewrite (Z.lor_comm _ (c * 2 ^ 8)).
  replace (b * 2 ^ 16 + a * 2 ^ 24) with ((b + a * 2 ^ 8) * 2 ^ 16) by lia. rewrite (lor_disjoint (c * 2 ^ 8) _ 16) by lia.
  replace (c * 2 ^ 8 + (b + a * 2 ^ 8) * 2 ^ 16) with ((c + (b + a * 2 ^ 8) * 2 ^ 8) * 2 ^ 8) by lia. rewrite Z.lor_comm, lor_disjoint by lia.
  unfold uint32. rewrite Z.mod_small by lia. cbn. lia.
Qed.

Lemma word_of_bytes g : (length g <= 4)%nat -> isWord (ofBits (bitsOf g)).
Proof.
  intros HL. pose proof (ofBits_bounds (bitsOf g)) as HB. rewrite length_bitsOf in HB. unfold isWord. split; [lia|]. eapply Z.lt_le_trans; [apply HB|]. apply Z.pow_le_mono_r; lia.
Qed.

Lemma cut_four (l : list Z) n : length l = (4 * S n)%nat -> exists a b c d r, l = [a; b; c; d] ++ r /\ length r = (4 * n)%nat.
Proof. intros HL. destruct l as [|a [|b [|c [|d r]]]]; cbn [length] in HL; try lia. exists a, b, c, d, r. split; [done|lia]. Qed.

Lemma load_words n : forall pre rest done junk, length pre = (4 * length done)%nat -> length rest = (4 * n)%nat -> Forall isByte rest -> (n <= length junk)%nat ->
  forLoop n (length done) (blockWord (pre ++ rest)) (done ++ junk) = Some (done ++ wordsOf rest ++ drop n junk).
Proof.
  induction n as [|n IH]; intros pre rest done junk HP HR HF HJ; cbn [forLoop].
  - destruct rest; [|done]. by rewrite drop_0.
  - destruct (cut_four rest n HR) as (a & b & c & d & r & -> & Hr). apply Forall_app in HF as [HF1 HF2]. destruct junk as [|x junk]; [cbn in HJ; lia|].
    assert (EL : blockWord (pre ++ [a; b; c; d] ++ r) (length done) (done ++ x :: junk) = Some (done ++ ofBits (bitsOf [a; b; c; d]) :: junk)).
    { unfold blockWord. assert (HI : forall j, (pre ++ [a; b; c; d] ++ r) !! (length done * 4 + j)%nat = ([a; b; c; d] ++ r) !! j) by (intros j; rewrite lookup_app_r by lia; f_equal; lia).
      replace (length done * 4)%nat with (length done * 4 + 0)%nat at 1 by lia. rewrite !HI. cbn [app lookup list_lookup mbind option_bind]. by rewrite setWord_app, word_value. }
    rewrite EL. cbn [mbind option_bind]. specialize (IH (pre ++ [a; b; c; d]) r (done ++ [ofBits (bitsOf [a; b; c; d])]) junk).
    rewrite <- !app_assoc, !length_app in IH. cbn [length] in IH. rewrite Nat.add_1_r in IH. cbn [app] in IH |- *. rewrite IH; [|lia|done|done|cbn [length] in HJ; lia].
    cbn [drop]. change (a :: b :: c :: d :: r) with ([a; b; c; d] ++ r). unfold wordsOf at 2. rewrite chunksOf_app by (done || lia). done.
Qed.

Lemma nth_word w i : Forall isWord w -> isWord (nth i w 0).
Proof. intros HF. destruct (nth_lookup_or_length w i 0) as [E|E]; [exact (Forall_lookup_1 _ _ _ _ HF E)|]. rewrite nth_overflow by lia. unfold isWord. lia. Qed.

Lemma extend_words n : forall w, Forall isWord w -> Forall isWord (extend n w) /\ length (extend n w) = (length w + n)%nat.
Proof.
  induction n as [|n IH]; intros w HF; cbn [extend]; [split; [done|lia]|]. destruct (IH (w ++ [nextWord w])) as [IH1 IH2].
  - apply Forall_app_2; [done|]. apply Forall_cons_2; [apply ROTL_word|apply Forall_nil_2].
  - split; [done|]. rewrite IH2, length_app. cbn [length]. lia.
Qed.

Lemma lookup_back (w r : list Z) i : (0 < i <= length w)%nat -> (w ++ r) !! (length w - i)%nat = Some (nth (length w - i) w 0).
Proof. intros Hi. rewrite lookup_app_l by lia. destruct (nth_lookup_or_length w (length w - i) 0) as [E|E]; [done|lia]. Qed.

Lemma expand_words n : forall w junk, Forall isWord w -> (16 <= length w)%nat -> (n <= length junk)%nat ->
  forLoop n (length w) expandWord (w ++ junk) = Some (extend n w ++ drop n junk).
Proof.
  induction n as [|n IH]; intros w junk HF HW HJ; cbn [forLoop extend]; [by rewrite drop_0|]. destruct junk as [|x junk]; [cbn in HJ; lia|].
  assert (EE : expandWord (length w) (w ++ x :: junk) = Some (w ++ nextWord w :: junk)).
  { unfold expandWord. rewrite !lookup_back by lia. cbn [mbind option_bind]. rewrite setWord_app. unfold nextWord. do 3 f_equal.
    apply (rotateLeft_spec 1); [|lia]. repeat apply lxor_word; by apply nth_word. }
  rewrite EE. cbn [mbind option_bind].
  specialize (IH (w ++ [nextWord w]) junk). rewrite <- app_assoc, length_app in IH. cbn [length app] in IH. rewrite Nat.add_1_r in IH. rewrite IH; [done| |lia|cbn [length] in HJ; lia].
  apply Forall_app_2; [done|]. apply Forall_cons_2; [apply ROTL_word|apply Forall_nil_2].
Qed.

Definition wordsIn (s : Working) : Prop := let '(a, b, c, d, e) := s in isWord a /\ isWord b /\ isWord c /\ isWord d /\ isWord e.

Lemma mix_rounds n : forall t w s, Forall isWord w -> (t + n <= length w)%nat -> wordsIn s ->
  forLoop n t (mixRound w) s = Some (fold_left round (zip (seq t n) (take n (drop t w))) s).
Proof.
  induction n as [|n IH]; intros t w s HF HL HS; cbn [forLoop seq]; [by rewrite take_0|]. destruct s as [[[[a b] c] d] e]. destruct HS as (HA & HB & HC & HD & HE).
  destruct (w !! t) as [wt|] eqn:EW; [|apply lookup_ge_None in EW; lia]. 
  assert (EM : mixRound w t (a, b, c, d, e) = Some (round (a, b, c, d, e) (t, wt))).
  { unfold mixRound, round. rewrite EW. cbn [mbind option_bind fst snd].
    rewrite (rotateLeft_spec 5 a HA ltac:(lia) : rotateLeft 5 a = _), (rotateLeft_spec 30 b HB ltac:(lia) : rotateLeft 30 b = _), f_spec, k_spec by done. done. }
  rewrite EM. cbn [mbind option_bind]. rewrite IH by (done || lia || (split_and!; auto with sha1)). by rewrite (drop_S _ _ _ EW).
Qed.

(** What is in the hash. *)
Definition isHash (H : list Z) : Prop := exists a b c d e, H = [a; b; c; d; e] /\ wordsIn (a, b, c, d, e).

Lemma compress_hash H block : isHash H -> isHash (compress H block).
Proof.
  intros (a & b & c & d & e & -> & _). cbn [compress]. destruct (fold_left round _ _) as [[[[a' b'] c'] d'] e']. do 5 eexists. split; [done|]. split_and!; apply word_mod.
Qed.

Lemma bind_of_Some {A B : Type} (g : A -> option B) (a : A) : mbind g (Some a) = g a.
Proof. done. Qed.

(** The words of a block of [n] groups of four bytes. *)
Lemma wordsOf_words n : forall block, length block = (4 * n)%nat -> length (wordsOf block) = n /\ Forall isWord (wordsOf block).
Proof.
  induction n as [|n IH]; intros block HL; [destruct block; [split; [done|apply Forall_nil_2]|done]|]. destruct (cut_four block n HL) as (p & q & r & s & rest & -> & HR). destruct (IH rest HR) as [IH1 IH2].
  unfold wordsOf in *. rewrite chunksOf_app by (done || lia). cbn [length map]. split; [by rewrite IH1|]. apply Forall_cons_2; [by apply word_of_bytes|done].
Qed.

Lemma schedule_spec buffer : length buffer = 64%nat -> Forall isByte buffer ->
  (w ← forLoop 16 0 (blockWord buffer) (replicate 80 0); forLoop 64 16 expandWord w) = Some (extend 64 (wordsOf buffer)) /\
  Forall isWord (extend 64 (wordsOf buffer)) /\ length (extend 64 (wordsOf buffer)) = 80%nat.
Proof.
  intros HL HF. destruct (wordsOf_words 16 buffer HL) as [HN HW]. destruct (extend_words 64 (wordsOf buffer) HW) as [HX HXL]. rewrite HN in HXL. split_and!; [|done|exact HXL].
  pose proof (load_words 16 [] buffer [] (replicate 80 0) eq_refl HL HF) as EL. cbn [app length] in EL. rewrite EL by (rewrite length_replicate; lia). rewrite bind_of_Some.
  pose proof (expand_words 64 (wordsOf buffer) (drop 16 (replicate 80 0)) HW) as EE. rewrite HN in EE. rewrite EE; [|lia|rewrite length_drop, length_replicate; lia].
  rewrite drop_drop, drop_ge, app_nil_r by (rewrite length_replicate; lia). done.
Qed.

Lemma processBlock_spec buffer total H : length buffer = 64%nat -> Forall isByte buffer -> isHash H ->
  processBlock (mkSHA1 buffer 64 total H) = Some (mkSHA1 buffer 0 total (compress H buffer)).
Proof.
  intros HL HF (a & b & c & d & e & -> & HW). destruct (schedule_spec buffer HL HF) as (ES & HX & HXL). unfold processBlock, compress.
  remember (extend 64 (wordsOf buffer)) as w eqn:Ew. clear Ew. cbn [m_cursor Nat.eqb m_buffer m_hash m_totalBytes].
  apply bind_Some in ES as (w0 & E0 & E1). rewrite E0, bind_of_Some, E1, bind_of_Some.
  rewrite (mix_rounds 80 0 w (a, b, c, d, e) HX) by (exact HW || lia). rewrite bind_of_Some, drop_0, take_ge by lia. by destruct (fold_left round _ _) as [[[[a' b'] c'] d'] e'].
Qed.

(** ** Feeding *)

(** The object after a message: whole blocks are in the hash, the rest in the buffer. *)
Definition absorbed (message : list Z) (s : SHA1) : Prop := exists blocks rest junk,
  message = concat blocks ++ rest /\ Forall (fun block => length block = 64%nat) blocks /\ Forall isByte message /\
  (length rest + length junk = 64)%nat /\ (0 < length junk)%nat /\ Forall isByte junk /\
  s = mkSHA1 (rest ++ junk) (length rest) (Z.of_nat (length message) mod 2 ^ 64) (fold_left compress blocks initialHash).

Lemma initial_hash : isHash initialHash.
Proof. do 5 eexists. split; [done|]. unfold wordsIn, isWord. lia. Qed.

Lemma fold_hash blocks H : isHash H -> isHash (fold_left compress blocks H).
Proof. revert H. induction blocks as [|block blocks IH]; intros H HH; cbn [fold_left]; [done|]. by apply IH, compress_hash. Qed.

Lemma blocks_hash blocks : isHash (fold_left compress blocks initialHash).
Proof. apply fold_hash, initial_hash. Qed.

Lemma fold_block blocks block : fold_left compress (blocks ++ [block]) initialHash = compress (fold_left compress blocks initialHash) block.
Proof. by rewrite fold_left_app. Qed.

Lemma absorbed_new s : absorbed [] (SHA1_reset s).
Proof. exists [], [], (replicate 64 0). split_and!; [done|apply Forall_nil_2|apply Forall_nil_2|rewrite length_replicate; cbn; lia|cbn; lia|apply Forall_replicate; unfold isByte; lia|done]. Qed.

Lemma addByte_absorbed message s b : isByte b -> absorbed message s -> exists s', addByte b s = Some s' /\ absorbed (message ++ [b]) s'.
Proof.
  intros HB (blocks & rest & junk & -> & HW & HF & HS & HR & HJ & ->). destruct junk as [|x junk]; [cbn in HR; lia|]. apply Forall_cons in HJ as [_ HJ]. cbn [length] in HS.
  assert (HF' : Forall isByte ((concat blocks ++ rest) ++ [b])) by (apply Forall_app_2; [done|apply Forall_cons_2; [done|apply Forall_nil_2]]).
  assert (ET : (Z.of_nat (length (concat blocks ++ rest)) mod 2 ^ 64 + 1) mod 2 ^ 64 = Z.of_nat (length ((concat blocks ++ rest) ++ [b])) mod 2 ^ 64).
  { rewrite (length_app (concat blocks ++ rest)). cbn [length]. rewrite Nat2Z.inj_add, Z.add_mod_idemp_l by lia. done. }
  unfold addByte. cbn [m_cursor m_buffer m_totalBytes m_hash]. rewrite store_app, bind_of_Some, ET by done. destruct (Nat.eqb_spec (S (length rest)) 64) as [E|E].
  - destruct junk; [|cbn [length] in HS; lia]. rewrite E. apply Forall_app in HF as [_ HF]. rewrite processBlock_spec; [|rewrite length_app; cbn [length]; lia|by apply Forall_app in HF' as [? _]; apply Forall_app_2; [done|apply Forall_cons_2; [done|apply Forall_nil_2]]|apply blocks_hash].
    eexists. split; [done|]. exists (blocks ++ [rest ++ [b]]), [], (rest ++ [b]). rewrite concat_app, fold_block. cbn [concat app]. rewrite !app_nil_r, <- app_assoc.
    split_and!; [done|apply Forall_app_2; [done|apply Forall_cons_2; [rewrite length_app; cbn [length]; lia|apply Forall_nil_2]]|by rewrite app_assoc|rewrite length_app; cbn [length]; lia|rewrite length_app; cbn [length]; lia| |by rewrite app_assoc].
    apply Forall_app_2; [done|apply Forall_cons_2; [done|apply Forall_nil_2]].
  - eexists. split; [done|]. exists blocks, (rest ++ [b]), junk. rewrite <- !app_assoc in *.
    split_and!; [done|done|done|rewrite length_app; cbn [length]; lia|lia|done|]. rewrite (length_app rest). cbn [length app]. by rewrite Nat.add_1_r.
Qed.

Lemma addBytes_absorbed input : forall message s, Forall isByte input -> absorbed message s -> exists s', addBytes input s = Some s' /\ absorbed (message ++ input) s'.
Proof.
  induction input as [|b input IH]; intros message s HF HA; cbn [addBytes]; [exists s; by rewrite app_nil_r|]. apply Forall_cons in HF as [HB HF].
  destruct (addByte_absorbed message s b HB HA) as (s1 & E1 & HA1). rewrite E1, bind_of_Some. destruct (IH _ s1 HF HA1) as (s2 & E2 & HA2). exists s2. by rewrite <- app_assoc in HA2.
Qed.

(** ** Padding and writing numbers *)

Lemma bigEndianBytes_next n z : bigEndianBytes (S n) z = bigEndianBytes n (z / 256) ++ [z mod 256].
Proof.
  unfold bigEndianBytes. replace (8 * S n)%nat with (8 * n + 8)%nat by lia. rewrite toBits_app, (chunksOf_whole 8 n) by (rewrite ?length_toBits; lia).
  rewrite map_app, (chunksOf_short 8 (toBits 8 z)) by (rewrite length_toBits; lia). cbn [map]. by rewrite (ofBits_toBits_mod 8).
Qed.

Lemma length_bigEndian n z : length (bigEndianBytes n z) = n.
Proof. revert z. induction n as [|n IH]; intros z; [done|]. rewrite bigEndianBytes_next, length_app, IH. cbn [length]. lia. Qed.

Lemma bigEndianBytes_range n z : Forall isByte (bigEndianBytes n z).
Proof.
  revert z. induction n as [|n IH]; intros z; [apply Forall_nil_2|]. rewrite bigEndianBytes_next. apply Forall_app_2; [apply IH|].
  apply Forall_cons_2; [apply Z.mod_pos_bound; lia|apply Forall_nil_2].
Qed.

Lemma bigEndianBytes_mod n z : bigEndianBytes n (z mod 2 ^ Z.of_nat (8 * n)) = bigEndianBytes n z.
Proof. unfold bigEndianBytes. by rewrite toBits_mod. Qed.

(** Bytes written from the last to the first. *)
Lemma write_backwards (body : nat -> Z * list Z -> option (Z * list Z)) base m :
  (forall j v out, body j (v, out) = (out ← store (base + (m - 1 - j)) (Z.land v 0xFF) out; Some (Z.shiftr v 8, out))) ->
  forall n j pre room written v, (j + n = m)%nat -> length pre = base -> length room = n ->
  exists v', forLoop n j body (v, pre ++ room ++ written) = Some (v', pre ++ bigEndianBytes n v ++ written).
Proof.
  intros HB n. induction n as [|n IH]; intros j pre room written v HJ HP HR; cbn [forLoop]; [destruct room; [by exists v|done]|].
  destruct (exists_last (l := room)) as (room' & x & ->); [by destruct room|]. rewrite length_app in HR. cbn [length] in HR. rewrite HB.
  replace (base + (m - 1 - j))%nat with (length (pre ++ room')) by (rewrite length_app; lia). rewrite <- app_assoc, app_assoc. cbn [app].
  rewrite (land_low v 8 ltac:(lia) : Z.land v 0xFF = v mod 2 ^ 8). rewrite store_app by (apply Z.mod_pos_bound; lia). rewrite !bind_of_Some, Z.shiftr_div_pow2 by lia. rewrite <- app_assoc.
  destruct (IH (S j) pre room' (v mod 2 ^ 8 :: written) (v / 2 ^ 8)) as (v' & EV); [lia|done|lia|]. exists v'. by rewrite EV, bigEndianBytes_next, <- app_assoc.
Qed.

Lemma write_zeros n : forall l junk, (n <= length junk)%nat -> forLoop n (length l) (fun i buffer => store i 0 buffer) (l ++ junk) = Some (l ++ replicate n 0 ++ drop n junk).
Proof.
  induction n as [|n IH]; intros l junk HJ; cbn [forLoop replicate]; [by rewrite drop_0|]. destruct junk as [|x junk]; [cbn in HJ; lia|].
  rewrite store_app by (unfold isByte; lia). rewrite bind_of_Some. specialize (IH (l ++ [0]) junk). rewrite length_app, <- !app_assoc in IH. cbn [length app] in *. rewrite Nat.add_1_r in IH. apply IH. lia.
Qed.

Lemma padBlock_spec junk : forall fuel l total H, (length l + length junk = 64)%nat -> (length junk < fuel)%nat ->
  padBlock fuel (mkSHA1 (l ++ junk) (length l) total H) = Some (mkSHA1 (l ++ replicate (length junk) 0) 64 total H).
Proof.
  induction junk as [|x junk IH]; intros [|fuel] l total H HL HF; cbn [length] in *; try lia; cbn [padBlock m_cursor].
  - rewrite (proj2 (Nat.ltb_ge _ _)) by lia. cbn [replicate]. by replace (length l) with 64%nat by lia.
  - rewrite (proj2 (Nat.ltb_lt _ _)) by lia. unfold bufferByte. cbn [m_cursor m_buffer m_totalBytes m_hash]. rewrite store_app by (unfold isByte; lia). rewrite !bind_of_Some.
    specialize (IH fuel (l ++ [0]) total H). rewrite length_app, <- !app_assoc in IH. cbn [length app] in IH. rewrite Nat.add_1_r in IH. rewrite IH by lia. done.
Qed.

Lemma length_blocks (blocks : list (list Z)) : Forall (fun block => length block = 64%nat) blocks -> length (concat blocks) = (64 * length blocks)%nat.
Proof. induction 1 as [|block blocks HB HF IH]; [done|]. cbn [concat length]. rewrite length_app, HB, IH. lia. Qed.

Lemma zerosFor_rest n r : (r < 64)%nat -> zerosFor (64 * n + r) = if (r <? 56)%nat then (55 - r)%nat else (119 - r)%nat.
Proof.
  intros HR. unfold zerosFor. replace (55 - Z.of_nat (64 * n + r)) with (55 - Z.of_nat r + (- Z.of_nat n) * 64) by lia. rewrite Z_mod_plus_full.
  destruct (Nat.ltb_spec r 56); [rewrite Z.mod_small by lia; lia|]. rewrite <- (Z_mod_plus_full _ 1), Z.mod_small by lia. lia.
Qed.

(** The last blocks of a message: one, or two when the length does not fit behind the rest. *)
Definition lastBlocks (rest : list Z) (total : Z) : list (list Z) :=
  if (length rest <? 56)%nat then [rest ++ [0x80] ++ replicate (55 - length rest) 0 ++ bigEndianBytes 8 (8 * total)]
  else [rest ++ [0x80] ++ replicate (63 - length rest) 0; replicate 56 0 ++ bigEndianBytes 8 (8 * total)].

Lemma chunks_padded blocks rest (message := concat blocks ++ rest) : Forall (fun block => length block = 64%nat) blocks -> (length rest < 64)%nat ->
  chunksOf 64 (padded message) = blocks ++ lastBlocks rest (Z.of_nat (length message)).
Proof.
  intros HW HR. unfold padded, lastBlocks. assert (HL : length message = (64 * length blocks + length rest)%nat) by (unfold message; by rewrite length_app, length_blocks).
  rewrite HL, zerosFor_rest by done. unfold message. rewrite <- app_assoc, chunksOf_concat by (done || lia). f_equal. destruct (Nat.ltb_spec (length rest) 56) as [H56|H56].
  - rewrite chunksOf_short; [done|]. rewrite !length_app, length_replicate, length_bigEndian. cbn [length]. lia.
  - replace (119 - length rest)%nat with (63 - length rest + 56)%nat by lia. rewrite replicate_add, <- (app_assoc (replicate _ _)), !(app_assoc rest), app_assoc, <- (app_assoc rest).
    rewrite chunksOf_app, chunksOf_short; [done|rewrite length_app, length_replicate, length_bigEndian; lia| |lia]. rewrite !length_app, length_replicate. cbn [length]. lia.
Qed.

(** ** The digest *)

(** The block with the length. *)
Lemma final_block l junk total H (block := l ++ replicate (56 - length l) 0 ++ bigEndianBytes 8 (8 * total)) :
  (length l <= 56)%nat -> (length l + length junk = 64)%nat -> Forall isByte l -> isHash H ->
  (buffer ← forLoop (56 - length l) (length l) (fun i buffer => store i 0 buffer) (l ++ junk);
   '(_, buffer) ← forLoop 8 0 writeLength ((total * 8) mod 2 ^ 64, buffer);
   processBlock (mkSHA1 buffer 64 total H)) = Some (mkSHA1 block 0 total (compress H block)).
Proof.
  intros HL HS HF HH. rewrite write_zeros by lia. rewrite bind_of_Some.
  destruct (write_backwards writeLength 56 8 (fun j v out => eq_refl) 8 0 (l ++ replicate (56 - length l) 0) (drop (56 - length l) junk) [] ((total * 8) mod 2 ^ 64)) as (v' & EW).
  { done. } { rewrite length_app, length_replicate. lia. } { rewrite length_drop. lia. }
  rewrite app_nil_r, <- app_assoc in EW. rewrite EW, bind_of_Some, app_nil_r, (bigEndianBytes_mod 8), (Z.mul_comm total), <- app_assoc. apply processBlock_spec; unfold block; [| |done].
  - rewrite !length_app, length_replicate, length_bigEndian. lia.
  - apply Forall_app_2; [done|]. apply Forall_app_2; [apply Forall_replicate; unfold isByte; lia|apply bigEndianBytes_range].
Qed.

Lemma bigEndianBytes_total n m : bigEndianBytes 8 (8 * (n mod 2 ^ 64)) ++ m = bigEndianBytes 8 (8 * n) ++ m.
Proof. f_equal. rewrite <- (bigEndianBytes_mod 8 (8 * n)), <- (bigEndianBytes_mod 8). f_equal. change (Z.of_nat (8 * 8)) with 64. by rewrite Z.mul_mod_idemp_r by lia. Qed.

Lemma finalize_spec message s : absorbed message s -> exists s', SHA1_finalize s = Some s' /\ m_hash s' = fold_left compress (chunksOf 64 (padded message)) initialHash.
Proof.
  intros (blocks & rest & junk & -> & HW & HF & HS & HR & HJ & ->). rewrite chunks_padded, fold_left_app by (done || lia). set (total := Z.of_nat _). set (H := fold_left compress blocks initialHash).
  assert (HH : isHash H) by apply blocks_hash. apply Forall_app in HF as [_ HF]. destruct junk as [|x junk]; [cbn in HR; lia|]. cbn [length] in HS. apply Forall_cons in HJ as [_ HJ].
  assert (HF' : Forall isByte (rest ++ [0x80])) by (apply Forall_app_2; [done|apply Forall_cons_2; [unfold isByte; lia|apply Forall_nil_2]]).
  assert (HL : length (rest ++ [0x80]) = S (length rest)) by (rewrite length_app; cbn [length]; lia). pose proof (bigEndianBytes_total total []) as ET. rewrite !app_nil_r in ET.
  unfold SHA1_finalize, bufferByte. cbn [m_cursor m_buffer m_totalBytes m_hash]. rewrite store_app by (unfold isByte; lia). rewrite !bind_of_Some. cbn [m_cursor].
  replace (rest ++ 0x80 :: junk) with ((rest ++ [0x80]) ++ junk) by (by rewrite <- app_assoc). rewrite <- HL. unfold lastBlocks. destruct (Nat.ltb_spec (length rest) 56) as [H56|H56].
  - rewrite (proj2 (Nat.ltb_ge 56 _)) by lia. rewrite bind_of_Some. cbn [m_cursor m_buffer m_totalBytes m_hash]. rewrite final_block by (done || lia). eexists. split; [done|]. cbn [m_hash fold_left].
    rewrite HL, ET, <- app_assoc. by replace (56 - S (length rest))%nat with (55 - length rest)%nat by lia.
  - rewrite (proj2 (Nat.ltb_lt 56 _)) by lia. rewrite padBlock_spec by lia. rewrite bind_of_Some, processBlock_spec; [|rewrite length_app, length_replicate; lia|apply Forall_app_2; [done|apply Forall_replicate; unfold isByte; lia]|done].
    rewrite bind_of_Some. cbn [m_cursor m_buffer m_totalBytes m_hash]. set (block := (rest ++ _) ++ _). pose proof (final_block [] block (total mod 2 ^ 64) (compress H block)) as EF. cbn [length app Nat.sub] in EF. change (56 - 0)%nat with 56%nat.
    rewrite EF; [|lia|unfold block; rewrite length_app, length_replicate; lia|apply Forall_nil_2|by apply compress_hash]. eexists. split; [done|]. cbn [m_hash fold_left]. rewrite ET. unfold block. rewrite <- app_assoc.
    by replace (length junk) with (63 - length rest)%nat by lia.
Qed.

Lemma write_digest hs : forall pre done junk, length done = (4 * length pre)%nat -> length junk = (4 * length hs)%nat ->
  forLoop (length hs) (length pre) (digestWord (pre ++ hs)) (done ++ junk) = Some (done ++ concat (map (bigEndianBytes 4) hs)).
Proof.
  induction hs as [|h hs IH]; intros pre done junk HD HJ; cbn [length forLoop]; [by destruct junk|]. cbn [length] in HJ.
  assert (EW : digestWord (pre ++ h :: hs) (length pre) (done ++ junk) = Some (done ++ bigEndianBytes 4 h ++ drop 4 junk)).
  { unfold digestWord. rewrite list_lookup_middle, bind_of_Some by done.
    destruct (write_backwards (digestByte (length pre)) (length done) 4) with (n := 4%nat) (j := 0%nat) (pre := done) (room := take 4 junk) (written := drop 4 junk) (v := h) as (v' & EV).
    - intros j v out. unfold digestByte. by rewrite HD.
    - done.
    - done.
    - rewrite length_take. lia.
    - rewrite take_drop in EV. by rewrite EV, bind_of_Some. }
  rewrite EW, bind_of_Some. specialize (IH (pre ++ [h]) (done ++ bigEndianBytes 4 h) (drop 4 junk)). rewrite !length_app, length_bigEndian, length_drop, <- !app_assoc in IH. cbn [length app] in IH. rewrite Nat.add_1_r in IH.
  rewrite IH by lia. done.
Qed.

Lemma computeHash_spec message s digest : absorbed message s -> length digest = hashSize -> SHA1_computeHash digest s = Some (sha1 message, newSHA1).
Proof.
  intros HA HD. destruct (finalize_spec message s HA) as (s' & EF & EH). unfold SHA1_computeHash. rewrite EF, bind_of_Some, EH. unfold sha1. set (H := fold_left _ _ _).
  assert (HH : isHash H) by apply blocks_hash. destruct HH as (a & b & c & d & e & -> & _). pose proof (write_digest [a; b; c; d; e] [] [] digest eq_refl HD) as EW. cbn [length app] in EW. by rewrite EW, bind_of_Some.
Qed.

(** ** Sessions *)

(** A call; [ComputeHash] gets an array with anything in it. *)
Inductive SHA1Call := AddBytes (input : list Z) | ComputeHash (digest : list Z).
Definition validCall (call : SHA1Call) : Prop :=
  match call with
  | AddBytes input => Forall isByte input
  | ComputeHash digest => length digest = hashSize
  end.

(** The digests a session of calls gives. *)
Fixpoint runSHA1 (calls : list SHA1Call) (s : SHA1) : option (list (list Z)) :=
  match calls with
  | [] => Some []
  | AddBytes input :: calls => s ← addBytes input s; runSHA1 calls s
  | ComputeHash digest :: calls => '(digest, s) ← SHA1_computeHash digest s; digests ← runSHA1 calls s; Some (digest :: digests)
  end.
(** The same, of the message that is collected. *)
Fixpoint digestsOf (calls : list SHA1Call) (message : list Z) : list (list Z) :=
  match calls with
  | [] => []
  | AddBytes input :: calls => digestsOf calls (message ++ input)
  | ComputeHash _ :: calls => sha1 message :: digestsOf calls []
  end.

Lemma runSHA1_absorbed calls : forall message s, Forall validCall calls -> absorbed message s -> runSHA1 calls s = Some (digestsOf calls message).
Proof.
  induction calls as [|[input|digest] calls IH]; intros message s HF HA; [done|..]; apply Forall_cons in HF as [HV HF]; cbn [runSHA1 digestsOf].
  - destruct (addBytes_absorbed input message s HV HA) as (s' & ES & HA'). rewrite ES, bind_of_Some. by apply IH.
  - rewrite (computeHash_spec message s digest HA HV), bind_of_Some, (IH [] newSHA1 HF (absorbed_new _)), bind_of_Some. done.
Qed.

(** C33: SHA-1 of a stream.  An object that is fed with bytes in pieces of any sizes and asked for
    digests again and again gives each time the SHA-1 of all the bytes since the last digest: what RFC
    3174 says on strings of bits, with the message padded as a whole.  No array is accessed out of
    bounds, and an object can be used again after a digest. *)
Theorem sha1_streams (calls : list SHA1Call) : Forall validCall calls -> runSHA1 calls newSHA1 = Some (digestsOf calls []).
Proof. intros HF. apply runSHA1_absorbed; [done|apply absorbed_new]. Qed.

(** Two messages, the first in two pieces: the digests of the RFC. *)
Lemma sha1_streams_witness :
  option_map (map hexDigest) (runSHA1 [AddBytes (str "a"); AddBytes (str "bc"); ComputeHash (replicate 20 7);
    AddBytes (str "abcdbcdecdefdefgefghfghighijhijkijkljklmklmnlmnomnopnopq"); ComputeHash (replicate 20 0)] newSHA1) =
  Some [str "A9993E364706816ABA3E25717850C26C9CD0D89D"; str "84983E441C3BD26EBAAE4AA1F95129E5E54670F1"].
Proof.
  rewrite sha1_streams; [by vm_compute|]. repeat apply Forall_cons_2; try apply Forall_nil_2; cbn [validCall];
    try (apply (bool_decide_unpack (Forall (fun b => 0 <= b < 256) _)); by vm_compute); done.
Defined.
