(* ===== verification/WebSocketFrame.v ===== *)
(** * WebSocket frames

    [Modules/websockets/WebSocketFrame.{h,cpp}]: how a frame is read from the
    receive buffer, which [parseFrame] unmasks in place, and how one is
    written.

    A [char] is kept as the integer of its bits, 0 to 255.  A pointer into a
    buffer is the list of the bytes from there on; the end of a frame is an
    offset into the buffer.  [size_t] has 64 bits. *)

From S2P Require Import Prelude.
From stdpp Require Import pretty.
Open Scope Z_scope.

(** ** Data *)

Definition OpCodeContinuation : Z := 0x0.
Definition OpCodeText : Z := 0x1.
Definition OpCodeBinary : Z := 0x2.
Definition OpCodeClose : Z := 0x8.
Definition OpCodePing : Z := 0x9.
Definition OpCodePong : Z := 0xA.
Definition OpCodeInvalid : Z := 0x10.

Record WebSocketFrame := mkFrame {
  opCode : Z;
  final : bool;
  compress : bool;
  reserved2 : bool;
  reserved3 : bool;
  masked : bool;
  payload : list Z;
  payloadLength : Z
}.

(** The constructor clears the reserved bits. *)
Definition newFrame (opCode : Z) (final compress masked : bool) (payload : list Z) (payloadLength : Z) : WebSocketFrame :=
  mkFrame opCode final compress false false masked payload payloadLength.

(** The bytes a frame carries. *)
Definition frame_bytes (frame : WebSocketFrame) : list Z := take (Z.to_nat (payloadLength frame)) (payload frame).

(** [parseFrame] writes its results only when it returns [FrameOK]: the frame,
    the offset behind it and the buffer, in which the payload is unmasked. *)
Inductive ParseFrameResult :=
  | FrameOK (frame : WebSocketFrame) (frameEnd : nat) (data : list Z)
  | FrameIncomplete
  | FrameError (errorString : string).

Definition isNonControlOpCode (opCode : Z) : bool :=
  (opCode =? OpCodeContinuation) || (opCode =? OpCodeText) || (opCode =? OpCodeBinary).
Definition isControlOpCode (opCode : Z) : bool :=
  (opCode =? OpCodeClose) || (opCode =? OpCodePing) || (opCode =? OpCodePong).
Definition isReservedOpCode (opCode : Z) : bool := negb (isNonControlOpCode opCode) && negb (isControlOpCode opCode).

(** ** Constants of the frame format *)

Definition finalBit : Z := 0x80.
Definition compressBit : Z := 0x40.
Definition reserved2Bit : Z := 0x20.
Definition reserved3Bit : Z := 0x10.
Definition opCodeMask : Z := 0xF.
Definition maskBit : Z := 0x80.
Definition payloadLengthMask : Z := 0x7F.
Definition maxPayloadLengthWithoutExtendedLengthField : Z := 125.
Definition payloadLengthWithTwoByteExtendedLengthField : Z := 126.
Definition payloadLengthWithEightByteExtendedLengthField : Z := 127.
Definition maskingKeyWidthInBytes : nat := 4.
Definition maxPayloadLength : Z := 0x7FFFFFFFFFFFFFFF.

Definition needsExtendedLengthField (payloadLength : Z) : bool :=
  payloadLength >? maxPayloadLengthWithoutExtendedLengthField.

Definition bit (b mask : Z) : bool := negb (Z.land b mask =? 0).
Definition byteAt (data : list Z) (i : nat) : Z := nth i data 0.

(** ** Reading *)

(** [payloadLength64 <<= 8; payloadLength64 |= *p++] for every byte. *)
Definition readExtendedLength (bytes : list Z) : Z :=
  fold_left (fun n b => Z.lor (Z.shiftl n 8 mod 2 ^ 64) b) bytes 0.

(** [payload[i] ^= maskingKey[i % maskingKeyWidthInBytes]] for [n] values of
    [i], with both pointers as offsets into the same buffer. *)
Fixpoint maskLoop (n i maskingKey payload : nat) (data : list Z) : list Z :=
  match n with
  | O => data
  | S n =>
      maskLoop n (S i) maskingKey payload
        (<[(payload + i)%nat :=
             Z.lxor (byteAt data (payload + i)) (byteAt data (maskingKey + i mod maskingKeyWidthInBytes))]> data)
  end.

Definition minimalLengthError : string := "The minimal number of bytes MUST be used to encode the length".

(** The length of the payload and the offset behind the length field, unless
    the function returns. *)
Definition parseLength (data : list Z) : ParseFrameResult + Z * nat :=
  let payloadLength64 := Z.land (byteAt data 1) payloadLengthMask in
  if payloadLength64 >? maxPayloadLengthWithoutExtendedLengthField then
    let extendedPayloadLengthSize : nat :=
      if payloadLength64 =? payloadLengthWithTwoByteExtendedLengthField then 2%nat else 8%nat in
    if (length data - 2 <? extendedPayloadLengthSize)%nat then inl FrameIncomplete
    else
      let payloadLength64 := readExtendedLength (take extendedPayloadLengthSize (drop 2 data)) in
      if (extendedPayloadLengthSize =? 2)%nat && (payloadLength64 <=? maxPayloadLengthWithoutExtendedLengthField)
      then inl (FrameError minimalLengthError)
      else if (extendedPayloadLengthSize =? 8)%nat && (payloadLength64 <=? 0xFFFF)
      then inl (FrameError minimalLengthError)
      else inr (payloadLength64, (2 + extendedPayloadLengthSize)%nat)
  else inr (payloadLength64, 2%nat).

Definition parseFrame (data : list Z) : ParseFrameResult :=
  if (length data <? 2)%nat then FrameIncomplete
  else
    let firstByte := byteAt data 0 in
    let secondByte := byteAt data 1 in
    let masked := bit secondByte maskBit in
    match parseLength data with
    | inl result => result
    | inr (payloadLength64, p) =>
        let maskingKeyLength : nat := if masked then maskingKeyWidthInBytes else 0%nat in
        if (payloadLength64 >? maxPayloadLength) || ((payloadLength64 + Z.of_nat maskingKeyLength) mod 2 ^ 64 >? 2 ^ 64 - 1)
        then FrameError ("WebSocket frame length too large: " +:+ pretty (Z.to_N payloadLength64) +:+ " bytes")
        else if Z.of_nat (length data - p) <? (Z.of_nat maskingKeyLength + payloadLength64) mod 2 ^ 64 then FrameIncomplete
        else
          let n := Z.to_nat payloadLength64 in
          let data := if masked then maskLoop n 0 p (p + maskingKeyWidthInBytes) data else data in
          FrameOK
            (mkFrame (Z.land firstByte opCodeMask) (bit firstByte finalBit) (bit firstByte compressBit)
              (bit firstByte reserved2Bit) (bit firstByte reserved3Bit) masked
              (drop (p + maskingKeyLength) data) payloadLength64)
            (p + maskingKeyLength + n) data
    end.

(** ** Writing *)

(** [maskingKey] is what [cryptographicallyRandomValues] writes over the
    placeholder. *)
Definition appendFramePayload (frame : WebSocketFrame) (maskingKey frameData : list Z) : list Z :=
  let maskingKeyStart := length frameData in
  let frameData := if masked frame then frameData ++ repeat 0 maskingKeyWidthInBytes else frameData in
  let payloadStart := length frameData in
  let frameData := frameData ++ frame_bytes frame in
  if masked frame then
    let frameData := take maskingKeyStart frameData ++ maskingKey ++ drop (maskingKeyStart + maskingKeyWidthInBytes) frameData in
    maskLoop (Z.to_nat (payloadLength frame)) 0 maskingKeyStart payloadStart frameData
  else frameData.

(** The loop over [extendedPayloadLength], last byte first, and what remains. *)
Fixpoint fillExtendedLength (n : nat) (remaining : Z) (filled : list Z) : list Z * Z :=
  match n with
  | O => (filled, remaining)
  | S n => fillExtendedLength n (Z.shiftr remaining 8) (Z.land remaining 0xFF :: filled)
  end.

(** [None] is a failed assertion. *)
Definition makeFrameData (frame : WebSocketFrame) (maskingKey : list Z) : option (list Z) :=
  if negb (Z.land (opCode frame) (Z.lnot opCodeMask) =? 0) then None
  else
    let first := Z.lor (Z.lor (if final frame then finalBit else 0) (if compress frame then compressBit else 0)) (opCode frame) mod 2 ^ 8 in
    let second := if masked frame then maskBit else 0 in
    let n := payloadLength frame in
    if n <=? maxPayloadLengthWithoutExtendedLengthField then
      Some (appendFramePayload frame maskingKey [first; Z.lor second n mod 2 ^ 8])
    else if n <=? 0xFFFF then
      Some (appendFramePayload frame maskingKey
        [first; Z.lor second payloadLengthWithTwoByteExtendedLengthField; Z.shiftr (Z.land n 0xFF00) 8; Z.land n 0xFF])
    else
      let '(extendedPayloadLength, remaining) := fillExtendedLength 8 n [] in
      if negb (remaining =? 0) then None
      else Some (appendFramePayload frame maskingKey
        ([first; Z.lor second payloadLengthWithEightByteExtendedLengthField] ++ extendedPayloadLength)).

Example parse_masked_text :
  match makeFrameData (newFrame OpCodeText true false true [0x48; 0x69; 0x21; 0x3F; 0x2E] 5) [1; 2; 3; 4] with
  | Some data => parseFrame (data ++ [7; 8])
  | None => FrameIncomplete
  end = FrameOK (newFrame OpCodeText true false true [0x48; 0x69; 0x21; 0x3F; 0x2E; 7; 8] 5) 11
          [0x81; 0x85; 1; 2; 3; 4; 0x48; 0x69; 0x21; 0x3F; 0x2E; 7; 8].
Proof. vm_compute. reflexivity. Qed.
