(* ===== verification/WebSocketFrameSpec.v ===== *)
(** * WebSocket frames: round trip and streaming

    What [makeFrameData] writes is read back by [parseFrame], whatever follows
    in the buffer; a cut-off frame is waited for; and a verdict of [parseFrame]
    does not change when more data arrives. *)

From S2P Require Import Prelude TextCodecUTF8Loops TextCodecUTF8Spec WebSocketFrame.
Open Scope Z_scope.

(** ** Masking *)

Fixpoint maskFrom (key : list Z) (i : nat) (bs : list Z) : list Z :=
  match bs with
  | [] => []
  | b :: bs => Z.lxor b (byteAt key (i mod maskingKeyWidthInBytes)) :: maskFrom key (S i) bs
  end.

Lemma maskFrom_length key i bs : length (maskFrom key i bs) = length bs.
Proof. revert i. induction bs as [|b bs IH]; intros i; cbn [maskFrom length]; [done|by rewrite IH]. Qed.

Lemma maskFrom_twice key i bs : maskFrom key i (maskFrom key i bs) = bs.
Proof.
  revert i. induction bs as [|b bs IH]; intros i; cbn [maskFrom]; [done|].
  by rewrite IH, Z.lxor_assoc, Z.lxor_nilpotent, Z.lxor_0_r.
Qed.

Lemma byteAt_app_l a b i : (i < length a)%nat -> byteAt (a ++ b) i = byteAt a i.
Proof. intros H. unfold byteAt. by rewrite app_nth1. Qed.

Lemma byteAt_app_r a b i : byteAt (a ++ b) (length a + i) = byteAt b i.
Proof. unfold byteAt. rewrite app_nth2 by lia. f_equal. lia. Qed.

Lemma mod_width i : (i mod maskingKeyWidthInBytes < maskingKeyWidthInBytes)%nat.
Proof. apply Nat.mod_upper_bound. done. Qed.

(** The loop masks the payload and nothing else; the key lies in front of it. *)
Lemma maskLoop_spec pre key mid done_ post n :
  length key = maskingKeyWidthInBytes -> length mid = n ->
  maskLoop n (length done_) (length pre) (length pre + maskingKeyWidthInBytes) (pre ++ key ++ done_ ++ mid ++ post) =
  pre ++ key ++ done_ ++ maskFrom key (length done_) mid ++ post.
Proof.
  intros HK. revert done_ mid. induction n as [|n IH]; intros done_ [|b mid] HL; cbn [length] in HL; try lia; [done|].
  cbn [maskLoop maskFrom].
  assert (E1 : byteAt (pre ++ key ++ done_ ++ b :: mid ++ post) (length pre + maskingKeyWidthInBytes + length done_) = b).
  { rewrite <- HK, <- Nat.add_assoc, byteAt_app_r, byteAt_app_r. replace (length done_) with (length done_ + 0)%nat by lia. by rewrite byteAt_app_r. }
  rewrite <- app_comm_cons, E1, byteAt_app_r, byteAt_app_l by (rewrite HK; apply mod_width).
  set (x := Z.lxor _ _).
  assert (E2 : <[(length pre + maskingKeyWidthInBytes + length done_)%nat := x]> (pre ++ key ++ done_ ++ b :: mid ++ post) =
    pre ++ key ++ (done_ ++ [x]) ++ mid ++ post).
  { rewrite <- HK, <- Nat.add_assoc, insert_app_r, insert_app_r. replace (length done_) with (length done_ + 0)%nat by lia.
    rewrite insert_app_r. cbn [insert list_insert]. by rewrite <- app_assoc. }
  rewrite E2. replace (S (length done_)) with (length (done_ ++ [x])) by (rewrite length_app; simpl; lia).
  rewrite IH by lia. rewrite <- app_assoc. done.
Qed.

Lemma mask_spec pre key mid post :
  length key = maskingKeyWidthInBytes ->
  maskLoop (length mid) 0 (length pre) (length pre + maskingKeyWidthInBytes) (pre ++ key ++ mid ++ post) =
  pre ++ key ++ maskFrom key 0 mid ++ post.
Proof. intros HK. exact (maskLoop_spec pre key mid [] post (length mid) HK eq_refl). Qed.

(** ** The length field *)

(** Big endian bytes. *)
Fixpoint bigEndian (k : nat) (n : Z) (rest : list Z) : list Z :=
  match k with
  | O => rest
  | S k => bigEndian k (n / 256) (n mod 256 :: rest)
  end.

Lemma bigEndian_app k n rest : bigEndian k n rest = bigEndian k n [] ++ rest.
Proof.
  revert n rest. induction k as [|k IH]; intros n rest; cbn [bigEndian]; [done|].
  rewrite IH, (IH _ [_]), <- app_assoc. done.
Qed.

Lemma bigEndian_length k n : length (bigEndian k n []) = k.
Proof. revert n. induction k as [|k IH]; intros n; cbn [bigEndian]; [done|]. rewrite bigEndian_app, length_app, IH. simpl. lia. Qed.

Definition readStep (n b : Z) : Z := Z.lor (Z.shiftl n 8 mod 2 ^ 64) b.

Lemma readStep_spec n b : 0 <= n < 2 ^ 56 -> 0 <= b < 256 -> readStep n b = n * 256 + b.
Proof.
  intros Hn Hb. unfold readStep. rewrite Z.shiftl_mul_pow2, Z.mod_small by lia. rewrite Z.lor_comm, lor_disjoint by lia. lia.
Qed.

Lemma read_bigEndian k n : (k <= 8)%nat -> 0 <= n < 256 ^ Z.of_nat k -> readExtendedLength (bigEndian k n []) = n.
Proof.
  unfold readExtendedLength. change (fun n b => Z.lor (Z.shiftl n 8 mod 2 ^ 64) b) with readStep.
  revert n. induction k as [|k IH]; intros n Hk Hn; [cbn in *; lia|].
  cbn [bigEndian]. rewrite bigEndian_app, fold_left_app. cbn [fold_left].
  assert (HP : 256 ^ Z.of_nat (S k) = 256 * 256 ^ Z.of_nat k) by (rewrite Nat2Z.inj_succ, Z.pow_succ_r; lia).
  assert (H7 : 256 ^ Z.of_nat k <= 2 ^ 56).
  { change (2 ^ 56) with (256 ^ 7). apply Z.pow_le_mono_r; lia. }
  assert (HD : 0 <= n / 256 < 256 ^ Z.of_nat k) by (split; [apply Z.div_pos; lia|apply Z.div_lt_upper_bound; lia]).
  rewrite IH by lia. rewrite readStep_spec; [|lia|apply Z.mod_pos_bound; lia]. pose proof (Z.div_mod n 256). lia.
Qed.

Lemma fill_spec k n rest : 0 <= n -> fillExtendedLength k n rest = (bigEndian k n rest, n / 256 ^ Z.of_nat k).
Proof.
  revert n rest. induction k as [|k IH]; intros n rest Hn; cbn [fillExtendedLength bigEndian]; [by rewrite Z.div_1_r|].
  rewrite Z.shiftr_div_pow2 by lia. rewrite IH by (apply Z.div_pos; lia).
  change 255 with (2 ^ 8 - 1). rewrite land_low by lia. change (2 ^ 8) with 256. f_equal.
  rewrite Z.div_div by lia. f_equal. rewrite Nat2Z.inj_succ, Z.pow_succ_r; lia.
Qed.

(** The seven bits of the second byte and the extended field. *)
Definition lengthField (n : Z) : Z * list Z :=
  if n <=? 125 then (n, []) else if n <=? 0xFFFF then (126, bigEndian 2 n []) else (127, bigEndian 8 n []).

Lemma lengthField_range n v ext : 0 <= n -> lengthField n = (v, ext) -> 0 <= v < 128.
Proof. unfold lengthField. intros Hn. case_match; [|case_match]; intros [= <- <-]; bool_hyps; lia. Qed.

(** The second byte: the mask bit and the seven bits of the length. *)
Definition secondByte (m : bool) (v : Z) : Z := (if m then 128 else 0) + v.

Lemma secondByte_lor (m : bool) v : 0 <= v < 128 -> Z.lor (if m then maskBit else 0) v = secondByte m v.
Proof.
  intros Hv. unfold secondByte, maskBit. destruct m; [|apply Z.lor_0_l].
  rewrite Z.lor_comm. change 128 with (1 * 2 ^ 7). rewrite lor_disjoint by lia. lia.
Qed.

Lemma secondByte_mask (m : bool) v : 0 <= v < 128 -> bit (secondByte m v) maskBit = m.
Proof.
  intros Hv. assert (HF : forallb (fun v => (Z.of_nat v <? 128) && negb (bit (Z.of_nat v) maskBit)
    && bit (128 + Z.of_nat v) maskBit) (seq 0 128) = true) by (vm_compute; reflexivity).
  rewrite forallb_forall in HF. specialize (HF (Z.to_nat v)). rewrite in_seq, Z2Nat.id in HF by lia. specialize (HF ltac:(lia)).
  unfold secondByte. destruct m; bool_hyps; [done|]. by rewrite Z.add_0_l.
Qed.

Lemma secondByte_length (m : bool) v : 0 <= v < 128 -> Z.land (secondByte m v) payloadLengthMask = v.
Proof.
  intros Hv. unfold payloadLengthMask, secondByte. change 127 with (2 ^ 7 - 1). rewrite land_low by lia. destruct m; div_lia.
Qed.

Lemma parseLength_extended b0 b1 ext rest (v : Z) :
  Z.land b1 payloadLengthMask = v -> v = 126 \/ v = 127 -> length ext = (if v =? 126 then 2%nat else 8%nat) ->
  (if v =? 126 then 125 else 0xFFFF) < readExtendedLength ext ->
  parseLength (b0 :: b1 :: ext ++ rest) = inr (readExtendedLength ext, (2 + length ext)%nat).
Proof.
  intros EB Hv HL HR. unfold parseLength, byteAt. cbn [nth drop length]. rewrite EB.
  unfold maxPayloadLengthWithoutExtendedLengthField, payloadLengthWithTwoByteExtendedLengthField.
  rewrite <- HL, length_app, (proj2 (Nat.ltb_ge _ _)), drop_0, take_app_length by lia.
  destruct Hv as [-> | ->]; cbn [Z.gtb Z.compare Z.eqb Pos.eqb Pos.compare Pos.compare_cont] in *; rewrite HL;
    cbn [Nat.eqb andb]; by rewrite (proj2 (Z.leb_gt _ _)).
Qed.

Lemma parseLength_spec b0 (m : bool) n v ext rest :
  0 <= n < 2 ^ 63 -> lengthField n = (v, ext) ->
  parseLength (b0 :: secondByte m v :: ext ++ rest) = inr (n, (2 + length ext)%nat).
Proof.
  intros Hn HF. pose proof (lengthField_range n v ext ltac:(lia) HF) as Hv. pose proof (secondByte_length m v Hv) as HS.
  unfold lengthField in HF. destruct (n <=? 125) eqn:E1; bool_hyps.
  { injection HF as <- <-. unfold parseLength, byteAt. cbn [nth]. rewrite HS, Z.gtb_ltb, (proj2 (Z.ltb_ge _ _)); done. }
  assert (HE : length ext = (if v =? 126 then 2%nat else 8%nat) /\ readExtendedLength ext = n /\ (v = 126 \/ v = 127) /\
    (if v =? 126 then 125 else 0xFFFF) < n).
  { destruct (n <=? 0xFFFF) eqn:E2; bool_hyps; apply pair_eq in HF as [<- <-]; rewrite bigEndian_length, read_bigEndian by lia;
      split_and!; auto; lia. }
  destruct HE as (HL & HR & HV & HB). rewrite (parseLength_extended _ _ _ _ v); try done; [by rewrite HR|by rewrite HR].
Qed.

(** ** What is written *)

Definition firstByte (f : WebSocketFrame) : Z :=
  (if final f then 128 else 0) + (if compress f then 64 else 0) + opCode f.

Definition wireMask (f : WebSocketFrame) (key : list Z) : list Z := if masked f then key else [].
Definition wirePayload (f : WebSocketFrame) (key : list Z) : list Z :=
  if masked f then maskFrom key 0 (frame_bytes f) else frame_bytes f.

(** The frame on the wire. *)
Definition wire (f : WebSocketFrame) (key : list Z) : list Z :=
  let '(v, ext) := lengthField (payloadLength f) in
  firstByte f :: secondByte (masked f) v :: ext ++ wireMask f key ++ wirePayload f key.

(** What a sender may ask for. *)
Record sendable (f : WebSocketFrame) (key : list Z) : Prop := {
  se_opCode : 0 <= opCode f < 16;
  se_length : 0 <= payloadLength f < 2 ^ 63;
  se_payload : (Z.to_nat (payloadLength f) <= length (payload f))%nat;
  se_key : length key = maskingKeyWidthInBytes
}.

Lemma frame_bytes_length f : (Z.to_nat (payloadLength f) <= length (payload f))%nat -> length (frame_bytes f) = Z.to_nat (payloadLength f).
Proof. intros H. unfold frame_bytes. rewrite length_take. lia. Qed.

Lemma appendFramePayload_spec f key header :
  sendable f key -> appendFramePayload f key header = header ++ wireMask f key ++ wirePayload f key.
Proof.
  intros [_ HN HP HK]. pose proof (frame_bytes_length f HP) as HL. unfold appendFramePayload, wireMask, wirePayload.
  destruct (masked f); [|done].
  rewrite <- app_assoc, take_app_length, drop_app_add. cbn [repeat drop maskingKeyWidthInBytes app].
  rewrite length_app. cbn [length]. rewrite <- HL.
  pose proof (mask_spec header key (frame_bytes f) [] HK) as HM. by rewrite !app_nil_r in HM.
Qed.

Lemma firstByte_lor f : 0 <= opCode f < 16 ->
  Z.lor (Z.lor (if final f then finalBit else 0) (if compress f then compressBit else 0)) (opCode f) mod 2 ^ 8 = firstByte f.
Proof.
  intros Ho. unfold firstByte.
  assert (E : forall h k, h = k * 2 ^ 4 -> Z.lor h (opCode f) = opCode f + h) by (intros h k ->; rewrite Z.lor_comm, lor_disjoint; lia).
  unfold finalBit, compressBit. destruct (final f), (compress f);
    [change (Z.lor 128 64) with 192|change (Z.lor 128 0) with 128|change (Z.lor 0 64) with 64|change (Z.lor 0 0) with 0];
    [rewrite (E 192 12)|rewrite (E 128 8)|rewrite (E 64 4)|rewrite (E 0 0)]; try done; rewrite Z.mod_small; lia.
Qed.

Lemma makeFrameData_spec f key : sendable f key -> makeFrameData f key = Some (wire f key).
Proof.
  intros HS. destruct (HS) as [Ho HN HP HK]. unfold makeFrameData, wire.
  assert (EO : Z.land (opCode f) (Z.lnot opCodeMask) = 0).
  { rewrite <- Z.ldiff_land. change opCodeMask with (Z.ones 4). rewrite Z.ldiff_ones_r, Z.shiftr_div_pow2, Z.div_small by lia. apply Z.shiftl_0_l. }
  rewrite EO. cbn [Z.eqb negb]. rewrite firstByte_lor by done. unfold lengthField, maxPayloadLengthWithoutExtendedLengthField.
  destruct (payloadLength f <=? 125) eqn:E1.
  { bool_hyps. rewrite secondByte_lor, Z.mod_small by (unfold secondByte; destruct (masked f); lia).
    by rewrite appendFramePayload_spec. }
  destruct (payloadLength f <=? 0xFFFF) eqn:E2.
  - unfold payloadLengthWithTwoByteExtendedLengthField. rewrite secondByte_lor by lia. rewrite appendFramePayload_spec by done.
    assert (E8 : Z.shiftr (Z.land (payloadLength f) 0xFF00) 8 = payloadLength f / 256 mod 256).
    { rewrite Z.shiftr_land. change (Z.shiftr 0xFF00 8) with (2 ^ 8 - 1). by rewrite land_low, Z.shiftr_div_pow2 by lia. }
    rewrite E8. change 0xFF with (2 ^ 8 - 1). by rewrite land_low by lia.
  - rewrite fill_spec by lia. bool_hyps. rewrite Z.div_small by lia. cbn [Z.eqb negb].
    unfold payloadLengthWithEightByteExtendedLengthField. rewrite secondByte_lor by lia. by rewrite appendFramePayload_spec.
Qed.

(** ** What is read *)

Lemma firstByte_bits (fi co : bool) (o : Z) : 0 <= o < 16 ->
  let b := (if fi then 128 else 0) + (if co then 64 else 0) + o in
  Z.land b opCodeMask = o /\ bit b finalBit = fi /\ bit b compressBit = co /\
  bit b reserved2Bit = false /\ bit b reserved3Bit = false.
Proof.
  intros Ho b.
  assert (HF : forallb (fun n => let o := Z.of_nat n in forallb (fun fi => forallb (fun co : bool =>
      let b := (if fi : bool then 128 else 0) + (if co then 64 else 0) + o in
      bool_decide (Z.land b opCodeMask = o /\ bit b finalBit = fi /\ bit b compressBit = co /\
        bit b reserved2Bit = false /\ bit b reserved3Bit = false)) [true; false]) [true; false]) (seq 0 16) = true)
    by (vm_compute; reflexivity).
  rewrite forallb_forall in HF. specialize (HF (Z.to_nat o)). rewrite in_seq, Z2Nat.id in HF by lia. specialize (HF ltac:(lia)).
  rewrite forallb_forall in HF. specialize (HF fi ltac:(destruct fi; simpl; auto)).
  rewrite forallb_forall in HF. specialize (HF co ltac:(destruct co; simpl; auto)). by apply bool_decide_eq_true in HF.
Qed.

(** The frame [parseFrame] gives to its caller, whose payload points into the
    buffer. *)
Definition received (f : WebSocketFrame) (rest : list Z) : WebSocketFrame :=
  mkFrame (opCode f) (final f) (compress f) false false (masked f) (frame_bytes f ++ rest) (payloadLength f).

(** The frame in the buffer after it has been unmasked. *)
Definition plain (f : WebSocketFrame) (key : list Z) : list Z :=
  let '(v, ext) := lengthField (payloadLength f) in
  firstByte f :: secondByte (masked f) v :: ext ++ wireMask f key ++ frame_bytes f.

Lemma wirePayload_length f key : sendable f key -> length (wirePayload f key) = Z.to_nat (payloadLength f).
Proof.
  intros [_ _ HP _]. pose proof (frame_bytes_length f HP). unfold wirePayload. destruct (masked f); [rewrite maskFrom_length|]; done.
Qed.

Lemma wireMask_length f key : sendable f key -> length (wireMask f key) = if masked f then maskingKeyWidthInBytes else 0%nat.
Proof. intros [_ _ _ HK]. unfold wireMask. by destruct (masked f). Qed.

(** The buffer of a frame that is there in full. *)
Lemma unmask_wire f key (header rest : list Z) :
  sendable f key ->
  (if masked f then maskLoop (Z.to_nat (payloadLength f)) 0 (length header) (length header + maskingKeyWidthInBytes)
      (header ++ wireMask f key ++ wirePayload f key ++ rest)
   else header ++ wireMask f key ++ wirePayload f key ++ rest) = header ++ wireMask f key ++ frame_bytes f ++ rest.
Proof.
  intros HS. rewrite <- (wirePayload_length f key HS). unfold wireMask, wirePayload.
  destruct (masked f); [|done]. rewrite mask_spec by apply HS. by rewrite maskFrom_twice.
Qed.

Lemma parse_wire f key rest :
  sendable f key -> parseFrame (wire f key ++ rest) = FrameOK (received f rest) (length (wire f key)) (plain f key ++ rest).
Proof.
  intros HS. destruct (HS) as [Ho HN HP HK]. unfold parseFrame, wire, plain.
  destruct (lengthField (payloadLength f)) as [v ext] eqn:EF. pose proof (lengthField_range _ _ _ (proj1 HN) EF) as Hv.
  cbn [app length Nat.ltb Nat.leb]. rewrite <- !app_assoc, (parseLength_spec _ _ (payloadLength f)) by done.
  unfold byteAt. cbn [nth]. rewrite secondByte_mask by done.
  set (header := firstByte f :: secondByte (masked f) v :: ext).
  pose proof (unmask_wire f key header rest HS) as HU. cbn [length header app Nat.add] in HU |- *.
  pose proof (wireMask_length f key HS) as HM. pose proof (wirePayload_length f key HS) as HW.
  unfold maxPayloadLength. rewrite !Z.gtb_ltb, (proj2 (Z.ltb_ge _ (payloadLength f))) by lia.
  rewrite (proj2 (Z.ltb_ge _ ((payloadLength f + _) mod _))) by (pose proof (Z.mod_pos_bound (payloadLength f + Z.of_nat (if masked f then maskingKeyWidthInBytes else 0)) (2 ^ 64)); lia).
  rewrite Z.mod_small by (unfold maskingKeyWidthInBytes; destruct (masked f); lia). cbn [orb].
  rewrite (proj2 (Z.ltb_ge _ _)) by (rewrite !length_app, HM, HW; lia).
  rewrite HU. unfold received. destruct (firstByte_bits (final f) (compress f) (opCode f) Ho) as (B1 & B2 & B3 & B4 & B5).
  fold (firstByte f) in B1, B2, B3, B4, B5. rewrite B1, B2, B3, B4, B5. f_equal.
  - f_equal. cbn [drop]. by rewrite <- HM, drop_app_add, drop_app_length.
  - rewrite !length_app, HM, HW. lia.
Qed.

Lemma plain_length f key : sendable f key -> length (plain f key) = length (wire f key).
Proof.
  intros HS. unfold plain, wire. destruct (lengthField _) as [v ext]. cbn [length].
  rewrite !length_app, (wirePayload_length f key HS), frame_bytes_length by apply HS. done.
Qed.

(** ** Data that arrives in pieces *)

Lemma maskLoop_app n i k p data more :
  (p + i + n <= length data)%nat -> (k + maskingKeyWidthInBytes <= length data)%nat ->
  maskLoop n i k p (data ++ more) = maskLoop n i k p data ++ more.
Proof.
  revert i data. induction n as [|n IH]; intros i data HP HK; cbn [maskLoop]; [done|].
  pose proof (mod_width i). rewrite !byteAt_app_l by lia. rewrite insert_app_l by lia.
  apply IH; rewrite length_insert; lia.
Qed.

Lemma maskLoop_length n i k p data : length (maskLoop n i k p data) = length data.
Proof. revert i data. induction n as [|n IH]; intros i data; cbn [maskLoop]; [done|]. by rewrite IH, length_insert. Qed.

Lemma maskLoop_drop n i k p data e : (p + i + n <= e)%nat -> drop e (maskLoop n i k p data) = drop e data.
Proof.
  revert i data. induction n as [|n IH]; intros i data HE; cbn [maskLoop]; [done|].
  rewrite IH, drop_insert_lt by lia. done.
Qed.

Lemma parseLength_bounds data n p : (2 <= length data)%nat -> parseLength data = inr (n, p) -> (2 <= p <= length data)%nat.
Proof.
  intros HL. unfold parseLength. set (size := if (_ =? _) then 2%nat else 8%nat). clearbody size.
  destruct (_ >? _); [|by intros [= <- <-]].
  destruct (Nat.ltb_spec (length data - 2) size); [done|]. case_match; [done|]. case_match; [done|].
  intros [= <- <-]. lia.
Qed.

Lemma readStep_nonneg bs n : 0 <= n -> bytes bs -> 0 <= fold_left readStep bs n.
Proof.
  intros Hn HB. revert n Hn. induction HB as [|b bs Hb HB IH]; intros n Hn; cbn [fold_left]; [done|].
  apply IH. unfold readStep. apply Z.lor_nonneg. pose proof (Z.mod_pos_bound (Z.shiftl n 8) (2 ^ 64)). lia.
Qed.

Lemma parseLength_nonneg data n p : bytes data -> parseLength data = inr (n, p) -> 0 <= n.
Proof.
  intros HB. unfold parseLength. set (size := if (_ =? _) then 2%nat else 8%nat). clearbody size.
  destruct (_ >? _); [|intros [= <- <-]; apply Z.land_nonneg; right; unfold payloadLengthMask; lia].
  destruct (_ <? _)%nat; [done|]. case_match; [done|]. case_match; [done|].
  intros [= <- <-]. apply (readStep_nonneg _ 0); [done|]. by apply Forall_take, Forall_drop.
Qed.

(** The length field does not change. *)
Lemma parseLength_app data more :
  (2 <= length data)%nat -> parseLength data <> inl FrameIncomplete -> parseLength (data ++ more) = parseLength data.
Proof.
  intros HL. unfold parseLength. rewrite byteAt_app_l by lia. set (size := if (_ =? _) then 2%nat else 8%nat).
  destruct (_ >? _); [|done].
  destruct (Nat.ltb_spec (length data - 2) size) as [HS|HS]; [done|]. intros _.
  rewrite (proj2 (Nat.ltb_ge _ _)) by (rewrite length_app; lia).
  rewrite drop_app_le, take_app_le by (rewrite ?length_drop; lia). done.
Qed.

(** The verdict with more data behind. *)
Definition extendResult (r : ParseFrameResult) (more : list Z) : ParseFrameResult :=
  match r with
  | FrameOK f e data =>
      FrameOK (mkFrame (opCode f) (final f) (compress f) (reserved2 f) (reserved3 f) (masked f) (payload f ++ more) (payloadLength f))
        e (data ++ more)
  | r => r
  end.

(** A frame that is there in full: its header, and that it lies in the buffer. *)
Record parsed (data : list Z) (n : Z) (p k : nat) (m : bool) : Prop := {
  pa_masked : m = bit (byteAt data 1) maskBit;
  pa_key : k = if m then maskingKeyWidthInBytes else 0%nat;
  pa_header : parseLength data = inr (n, p);
  pa_offset : (2 <= p)%nat;
  pa_length : 0 <= n;
  pa_room : (p + k + Z.to_nat n <= length data)%nat
}.

Definition parsedFrame (data : list Z) (n : Z) (p k : nat) (m : bool) : ParseFrameResult :=
  let data' := if m then maskLoop (Z.to_nat n) 0 p (p + maskingKeyWidthInBytes) data else data in
  let b := byteAt data 0 in
  FrameOK (mkFrame (Z.land b opCodeMask) (bit b finalBit) (bit b compressBit) (bit b reserved2Bit) (bit b reserved3Bit) m
    (drop (p + k) data') n) (p + k + Z.to_nat n) data'.

(** The three outcomes. *)
Inductive parses (data : list Z) : ParseFrameResult -> Prop :=
  | Parses_incomplete : parses data FrameIncomplete
  | Parses_error e : (forall more, parseFrame (data ++ more) = FrameError e) -> parses data (FrameError e)
  | Parses_ok n p k m :
      parsed data n p k m -> (forall more, parseFrame (data ++ more) = parsedFrame (data ++ more) n p k m) ->
      parses data (parsedFrame data n p k m).

Lemma parseFrame_cases data : bytes data -> parses data (parseFrame data).
Proof.
  intros HB. unfold parseFrame. destruct (Nat.ltb_spec (length data) 2) as [HL|HL]; [constructor|].
  assert (Hshort : forall more, (length (data ++ more) <? 2)%nat = false) by (intros; apply Nat.ltb_ge; rewrite length_app; lia).
  assert (H0 : forall more, byteAt (data ++ more) 0 = byteAt data 0) by (intros; apply byteAt_app_l; lia).
  assert (H1 : forall more, byteAt (data ++ more) 1 = byteAt data 1) by (intros; apply byteAt_app_l; lia).
  destruct (parseLength data) as [r|[n p]] eqn:EP.
  { destruct r as [f e d| |e]; [by unfold parseLength in EP; repeat case_match; simplify_eq|constructor|].
    constructor. intros more. unfold parseFrame. by rewrite Hshort, parseLength_app, EP by (rewrite ?EP; done). }
  pose proof (parseLength_bounds data n p HL EP) as Hp. pose proof (parseLength_nonneg data n p HB EP) as Hn.
  set (m := bit (byteAt data 1) maskBit). set (k := if m then maskingKeyWidthInBytes else 0%nat).
  assert (EQ : forall more, parseLength (data ++ more) = inr (n, p)) by (intros more; by rewrite parseLength_app by (rewrite ?EP; done)).
  destruct (_ || _) eqn:EB.
  { constructor. intros more. unfold parseFrame. rewrite Hshort, H1, EQ. fold m. fold k. by rewrite EB. }
  destruct (Z.ltb_spec (Z.of_nat (length data - p)) ((Z.of_nat k + n) mod 2 ^ 64)) as [|HN]; [constructor|].
  rewrite Z.mod_small in HN by (bool_hyps; unfold maxPayloadLength, k, maskingKeyWidthInBytes in *; destruct m; lia).
  apply (Parses_ok data n p k m); [by split; try done; lia|].
  intros more. unfold parseFrame, parsedFrame. rewrite Hshort, H0, H1, EQ. fold m. fold k. rewrite EB.
  rewrite (proj2 (Z.ltb_ge _ _)); [done|]. rewrite Z.mod_small by (bool_hyps; unfold maxPayloadLength, k, maskingKeyWidthInBytes in *; destruct m; lia).
  rewrite length_app. lia.
Qed.

Lemma parsedFrame_app data more n p k m :
  parsed data n p k m -> parsedFrame (data ++ more) n p k m = extendResult (parsedFrame data n p k m) more.
Proof.
  intros [PM PK PH PO PL PR]. unfold parsedFrame. cbn [extendResult opCode final compress reserved2 reserved3 masked payload payloadLength].
  rewrite byteAt_app_l by lia.
  assert (E : (if m then maskLoop (Z.to_nat n) 0 p (p + maskingKeyWidthInBytes) (data ++ more) else data ++ more) =
    (if m then maskLoop (Z.to_nat n) 0 p (p + maskingKeyWidthInBytes) data else data) ++ more).
  { destruct m; [|done]. rewrite PK in PR. apply maskLoop_app; unfold maskingKeyWidthInBytes in *; lia. }
  rewrite E, drop_app_le; [done|]. destruct m; rewrite ?maskLoop_length; lia.
Qed.

(** A verdict is final. *)
Lemma parseFrame_app data more :
  bytes data -> parseFrame data <> FrameIncomplete -> parseFrame (data ++ more) = extendResult (parseFrame data) more.
Proof.
  intros HB HI. destruct (parseFrame_cases data HB) as [|e HE|n p k m HP HE]; [done|by rewrite HE|].
  rewrite HE. by apply parsedFrame_app.
Qed.

(** A frame lies in the buffer. *)
Lemma parseFrame_bounds data f e data' :
  bytes data -> parseFrame data = FrameOK f e data' ->
  (2 <= e <= length data)%nat /\ length data' = length data /\ 0 <= payloadLength f /\ length (frame_bytes f) = Z.to_nat (payloadLength f) /\
  drop e data' = drop e data.
Proof.
  intros HB HF. destruct (parseFrame_cases data HB) as [| |n p k m [PM PK PH PO PL PR] _]; try done.
  unfold parsedFrame in HF. injection HF as <- <- <-. cbn [payloadLength].
  assert (HL : length (if m then maskLoop (Z.to_nat n) 0 p (p + maskingKeyWidthInBytes) data else data) = length data)
    by (destruct m; [apply maskLoop_length|done]).
  split_and!; [lia|lia|done|done| |].
  - rewrite frame_bytes_length; cbn [payloadLength payload]; [done|]. rewrite length_drop, HL. lia.
  - destruct m; [|done]. apply maskLoop_drop. subst k. unfold maskingKeyWidthInBytes. lia.
Qed.

(** A frame that is cut off is waited for. *)
Lemma parse_prefix f key k :
  sendable f key -> bytes (wire f key) -> (k < length (wire f key))%nat -> parseFrame (take k (wire f key)) = FrameIncomplete.
Proof.
  intros HS HB Hk. pose proof (parse_wire f key [] HS) as HW. rewrite app_nil_r, <- (take_drop k (wire f key)) in HW.
  assert (HT : bytes (take k (wire f key))) by by apply Forall_take.
  destruct (parseFrame (take k (wire f key))) as [f' e d| |e] eqn:EP; [|done|];
    rewrite parseFrame_app, EP in HW by (rewrite ?EP; done); [|done].
  destruct (parseFrame_bounds _ _ _ _ HT EP) as (HE & _). cbn [extendResult] in HW.
  assert (EE : e = length (take k (wire f key) ++ drop k (wire f key))) by congruence.
  rewrite take_drop in EE. rewrite length_take in HE. lia.
Qed.

(** C22: parsing data that arrives in pieces.  When [parseFrame] gives a verdict
    on the data that is there, more data does not change it: an error stays
    the same error, and a frame the same frame at the same place, with the
    new data behind it.  A frame lies within the data, and what is behind it
    is left as it was. *)
Theorem parse_verdict_final (data : list Z) :
  bytes data ->
  match parseFrame data with
  | FrameIncomplete => True
  | FrameError e => forall more, parseFrame (data ++ more) = FrameError e
  | FrameOK f e data' =>
      (2 <= e <= length data)%nat /\ length (frame_bytes f) = Z.to_nat (payloadLength f) /\ drop e data' = drop e data /\
      forall more, exists f', parseFrame (data ++ more) = FrameOK f' e (data' ++ more) /\ frame_bytes f' = frame_bytes f /\
        f' = mkFrame (opCode f) (final f) (compress f) (reserved2 f) (reserved3 f) (masked f) (payload f') (payloadLength f)
  end.
Proof.
  intros HB. pose proof (fun more => parseFrame_app data more HB) as HA.
  destruct (parseFrame data) as [f e data'| |e] eqn:EP; [|done|intros more; by apply HA].
  destruct (parseFrame_bounds data f e data' HB EP) as (H1 & H2 & H3 & H4 & H5). split_and!; try done; try lia.
  intros more. rewrite HA by done. cbn [extendResult]. eexists. split; [reflexivity|]. split; [|done].
  unfold frame_bytes in *. cbn [payload payloadLength]. rewrite length_take in H4. apply take_app_le. lia.
Qed.

Lemma parse_verdict_final_witness :
  exists f', parseFrame [0x81; 0x02; 0x48; 0x69; 0x7F] = FrameOK f' 4 [0x81; 0x02; 0x48; 0x69; 0x7F] /\ frame_bytes f' = [0x48; 0x69].
Proof.
  pose proof (parse_verdict_final [0x81; 0x02; 0x48; 0x69] ltac:(repeat constructor; lia)) as T.
  change (parseFrame [0x81; 0x02; 0x48; 0x69]) with
    (FrameOK (newFrame OpCodeText true false false [0x48; 0x69] 2) 4 [0x81; 0x02; 0x48; 0x69]) in T.
  destruct T as (_ & _ & _ & T). destruct (T [0x7F]) as (f' & E1 & E2 & _). exists f'. split; [exact E1|exact E2].
Defined.

(** C21: round trip of frames.  A frame with an opcode of four bits and any
    payload of less than 2^63 bytes, masked with any key or not, is written
    without a failed assertion and read back with the same opcode, flags and
    payload, whatever follows it in the buffer; the end of the frame is found
    and the data behind it is not touched. *)
Theorem frame_roundtrip (f : WebSocketFrame) (key rest : list Z) :
  sendable f key ->
  exists data data' f', makeFrameData f key = Some data /\ parseFrame (data ++ rest) = FrameOK f' (length data) data' /\
    f' = mkFrame (opCode f) (final f) (compress f) false false (masked f) (payload f') (payloadLength f) /\
    frame_bytes f' = frame_bytes f /\ drop (length data) data' = rest.
Proof.
  intros HS. exists (wire f key), (plain f key ++ rest), (received f rest).
  rewrite makeFrameData_spec, parse_wire by done. split_and!; try done.
  - unfold frame_bytes at 1. cbn [received payload payloadLength]. rewrite take_app_length'; [done|]. symmetry. apply frame_bytes_length, HS.
  - apply drop_app_length'. by rewrite plain_length.
Qed.

Lemma frame_roundtrip_witness :
  exists data data' f', makeFrameData (newFrame OpCodeText true false true [0x48; 0x69; 0x21] 3) [1; 2; 3; 4] = Some data /\
    parseFrame (data ++ [9]) = FrameOK f' (length data) data' /\ frame_bytes f' = [0x48; 0x69; 0x21] /\ drop (length data) data' = [9].
Proof.
  destruct (frame_roundtrip (newFrame OpCodeText true false true [0x48; 0x69; 0x21] 3) [1; 2; 3; 4] [9])
    as (d & d' & f' & E1 & E2 & _ & E3 & E4); [split; vm_compute; (split; congruence) || lia || reflexivity|].
  exists d, d', f'. split; [exact E1|]. split; [exact E2|]. split; [exact E3|exact E4].
Defined.
