(* ===== verification/WebSocketChannel.v ===== *)
(** * The web socket channel

    [Modules/websockets/WebSocketChannel.{h,cpp}] with
    [WebSocketDeflateFramer.cpp]: the bytes of a socket become messages for
    the client, control frames are answered, messages are queued and written,
    and either side can close the connection.

    The channel is a record with the names of its members ([ch_closed] is
    [m_closed]).  Pointers to the document and to the client are flags, the
    handshake and the socket handle are optional values; using a null pointer
    and a failed assertion are both [None] in the monad [M] of the
    operations.  The calls of the client are logged in [ch_events], what is
    handed to the socket in [ch_wire].  The client is assumed to return from
    a call without calling the channel in turn.  Console messages, the
    inspector and cookies are left out, and so is the reference count of the
    channel. *)

From S2P Require Import Prelude TextCodecUTF8 UnicodeUTF8 WebSocketFrame.
From stdpp Require Import pretty.
Open Scope Z_scope.

(** ** Collaborators *)

(** [WebSocketHandshake]: the negotiation of the connection.  Reading the answer
    of the server returns the length of the header, and the call of
    [enableDeflate] if the extension is negotiated; [None] is a crash. *)
Inductive HandshakeMode := Incomplete | Normal | Failed | Connected.
Inductive ContextTakeOverMode := DoNotTakeOverContext | TakeOverContext.

Class WebSocketHandshakeOps (H : Type) := {
  hs_mode : H -> HandshakeMode;
  readServerHandshake : list Z -> H -> option (Z * H * option (Z * ContextTakeOverMode));
  failureReason : H -> list UChar;
  clientHandshakeMessage : H -> list Z
}.

(** [SocketStreamHandle]: [handle_send] returns whether the data was taken, and
    the amount it reports to [didUpdateBufferedAmount] if it does, [None] being a
    crash; [handle_close] whether it disconnects at once, which calls the channel
    back.  [SocketStreamHandle.v] has the handle of the source. *)
Class SocketStreamHandleOps (K : Type) := {
  handle_send : list Z -> K -> option (bool * option Z * K);
  handle_close : K -> bool * K;
  handle_disconnected : K -> K;
  handle_bufferedAmount : K -> Z
}.

(** A handle that takes [n] more bytes, written at once or kept for later. *)
Class SocketAccepts (K : Type) `{SocketStreamHandleOps K} := {
  accepts : Z -> K -> Prop;
  accepts_less m n k : accepts n k -> m <= n -> accepts m k;
  accepts_send n data k : accepts n k -> Z.of_nat (length data) <= n ->
    exists amount k', handle_send data k = Some (true, amount, k') /\ accepts (n - Z.of_nat (length data)) k'
}.

(** [WebSocketDeflater] and [WebSocketInflater], which wrap zlib: adding bytes
    and finishing gives the converted data or fails.  [createStreams] creates and
    initializes both. *)
Class ZlibOps (D : Type) := {
  createStreams : Z -> ContextTakeOverMode -> option D;
  deflateBytes : list Z -> D -> option (list Z) * D;
  inflateBytes : list Z -> D -> option (list Z) * D;
  resetDeflate : D -> D;
  resetInflate : D -> D
}.

(** The random number generator: the masking key of the n-th frame sent. *)
Class MaskingKeys := maskingKeyOf : nat -> list Z.

(** ** [WebSocketDeflateFramer] *)

(** [m_deflater] and [m_inflater] are created together, and [m_enabled] is set
    when they are there. *)
Record DeflateFramer (D : Type) := mkDeflateFramer { m_streams : option D }.
Arguments mkDeflateFramer {D}.
Arguments m_streams {D}.

Section Framer.
Context {D : Type} `{ZlibOps D}.

Definition enableDeflate (windowBits : Z) (mode : ContextTakeOverMode) (_ : DeflateFramer D) : DeflateFramer D :=
  mkDeflateFramer (createStreams windowBits mode).
Definition resetDeflateContext (d : DeflateFramer D) : DeflateFramer D := mkDeflateFramer (resetDeflate <$> m_streams d).
Definition resetInflateContext (d : DeflateFramer D) : DeflateFramer D := mkDeflateFramer (resetInflate <$> m_streams d).
Definition framer_didFail (d : DeflateFramer D) : DeflateFramer D := resetInflateContext (resetDeflateContext d).

Definition withPayload (compress : bool) (bytes : list Z) (f : WebSocketFrame) : WebSocketFrame :=
  mkFrame (opCode f) (final f) compress (reserved2 f) (reserved3 f) (masked f) bytes (Z.of_nat (length bytes)).

(** The frame, or the reason of the failure.  The context is reset when the
    result is destroyed, which the caller does when it is done with the frame. *)
Definition framer_deflate (f : WebSocketFrame) (d : DeflateFramer D) : (string + WebSocketFrame) * DeflateFramer D :=
  match m_streams d with
  | None => (inr f, d)
  | Some streams =>
      if negb (isNonControlOpCode (opCode f)) || (payloadLength f =? 0) then (inr f, d)
      else
        let '(result, streams) := deflateBytes (frame_bytes f) streams in
        let d := mkDeflateFramer (Some streams) in
        match result with
        | None => (inl "Failed to compress frame"%string, d)
        | Some bytes => (inr (withPayload true bytes f), d)
        end
  end.

Definition framer_inflate (f : WebSocketFrame) (d : DeflateFramer D) : (string + WebSocketFrame) * DeflateFramer D :=
  if negb (compress f) then (inr f, d)
  else
    match m_streams d with
    | None => (inl "Compressed bit must be 0 if no negotiated deflate-frame extension"%string, d)
    | Some streams =>
        if negb (isNonControlOpCode (opCode f)) then (inl "Received unexpected compressed frame"%string, d)
        else
          let '(result, streams) := inflateBytes (frame_bytes f) streams in
          let d := mkDeflateFramer (Some streams) in
          match result with
          | None => (inl "Failed to decompress frame"%string, d)
          | Some bytes => (inr (withPayload false bytes f), d)
          end
    end.
End Framer.

(** ** The channel *)

(** A reason as a literal; reasons are only shown in the console. *)
Definition messageString (s : list UChar) : string :=
  foldr (fun c r => String.String (Ascii.ascii_of_N (Z.to_N c)) r) String.EmptyString s.

Inductive QueuedFrame :=
  | QueuedFrameTypeString (opCode : Z) (stringData : list Z)
  | QueuedFrameTypeVector (opCode : Z) (vectorData : list Z)
  | QueuedFrameTypeBlob (opCode : Z).

Inductive OutgoingFrameQueueStatus := OutgoingFrameQueueOpen | OutgoingFrameQueueClosing | OutgoingFrameQueueClosed.
Inductive BlobLoaderStatus := BlobLoaderNotStarted | BlobLoaderStarted | BlobLoaderFinished | BlobLoaderFailed.

Definition OutgoingFrameQueueStatus_eqb (a b : OutgoingFrameQueueStatus) : bool :=
  match a, b with
  | OutgoingFrameQueueOpen, OutgoingFrameQueueOpen
  | OutgoingFrameQueueClosing, OutgoingFrameQueueClosing
  | OutgoingFrameQueueClosed, OutgoingFrameQueueClosed => true
  | _, _ => false
  end.
Definition BlobLoaderStatus_eqb (a b : BlobLoaderStatus) : bool :=
  match a, b with
  | BlobLoaderNotStarted, BlobLoaderNotStarted
  | BlobLoaderStarted, BlobLoaderStarted
  | BlobLoaderFinished, BlobLoaderFinished
  | BlobLoaderFailed, BlobLoaderFailed => true
  | _, _ => false
  end.

(** The virtual functions of [WebSocketChannelClient]. *)
Inductive ClientEvent :=
  | didConnect
  | didReceiveMessage (message : list UChar)
  | didReceiveBinaryData (binaryData : list Z)
  | didReceiveMessageError
  | client_didUpdateBufferedAmount (bufferedAmount : Z)
  | didStartClosingHandshake
  | didClose (unhandledBufferedAmount : Z) (closingHandshakeComplete : bool) (code : Z) (reason : option (list UChar)).

Definition CloseEventCodeNotSpecified : Z := -1.
Definition CloseEventCodeNoStatusRcvd : Z := 1005.
Definition CloseEventCodeAbnormalClosure : Z := 1006.
Definition CloseEventCodeTLSHandshake : Z := 1015.

(** [m_blobLoader] holds the bytes the loader has read. *)
Record Channel {H K D : Type} := mkChannel {
  m_document : bool;
  m_client : bool;
  m_handshake : option H;
  m_handle : option K;
  m_buffer : list Z;
  m_resumeTimer : bool;
  m_suspended : bool;
  m_closing : bool;
  m_receivedClosingHandshake : bool;
  m_closingTimer : bool;
  ch_closed : bool;
  m_shouldDiscardReceivedData : bool;
  m_unhandledBufferedAmount : Z;
  m_hasContinuousFrame : bool;
  m_continuousFrameOpCode : Z;
  m_continuousFrameData : list Z;
  m_closeEventCode : Z;
  m_closeEventReason : option (list UChar);
  m_outgoingFrameQueue : list QueuedFrame;
  m_outgoingFrameQueueStatus : OutgoingFrameQueueStatus;
  m_blobLoader : option (list Z);
  m_blobLoaderStatus : BlobLoaderStatus;
  m_deflateFramer : DeflateFramer D;
  ch_events : list ClientEvent;
  ch_wire : list Z;
  ch_frames : nat
}.
Arguments Channel : clear implicits.
Arguments mkChannel {H K D}.

#[global] Instance set_m_document {H K D} : Setter (@m_document H K D) := fun v r =>
  mkChannel v (m_client r) (m_handshake r) (m_handle r) (m_buffer r) (m_resumeTimer r) (m_suspended r) (m_closing r)
    (m_receivedClosingHandshake r) (m_closingTimer r) (ch_closed r) (m_shouldDiscardReceivedData r)
    (m_unhandledBufferedAmount r) (m_hasContinuousFrame r) (m_continuousFrameOpCode r) (m_continuousFrameData r)
    (m_closeEventCode r) (m_closeEventReason r) (m_outgoingFrameQueue r) (m_outgoingFrameQueueStatus r)
    (m_blobLoader r) (m_blobLoaderStatus r) (m_deflateFramer r) (ch_events r) (ch_wire r) (ch_frames r).
#[global] Instance set_m_client {H K D} : Setter (@m_client H K D) := fun v r =>
  mkChannel (m_document r) v (m_handshake r) (m_handle r) (m_buffer r) (m_resumeTimer r) (m_suspended r) (m_closing
    r) (m_receivedClosingHandshake r) (m_closingTimer r) (ch_closed r) (m_shouldDiscardReceivedData r)
    (m_unhandledBufferedAmount r) (m_hasContinuousFrame r) (m_continuousFrameOpCode r) (m_continuousFrameData r)
    (m_closeEventCode r) (m_closeEventReason r) (m_outgoingFrameQueue r) (m_outgoingFrameQueueStatus r)
    (m_blobLoader r) (m_blobLoaderStatus r) (m_deflateFramer r) (ch_events r) (ch_wire r) (ch_frames r).
#[global] Instance set_m_handshake {H K D} : Setter (@m_handshake H K D) := fun v r =>
  mkChannel (m_document r) (m_client r) v (m_handle r) (m_buffer r) (m_resumeTimer r) (m_suspended r) (m_closing r)
    (m_receivedClosingHandshake r) (m_closingTimer r) (ch_closed r) (m_shouldDiscardReceivedData r)
    (m_unhandledBufferedAmount r) (m_hasContinuousFrame r) (m_continuousFrameOpCode r) (m_continuousFrameData r)
    (m_closeEventCode r) (m_closeEventReason r) (m_outgoingFrameQueue r) (m_outgoingFrameQueueStatus r)
    (m_blobLoader r) (m_blobLoaderStatus r) (m_deflateFramer r) (ch_events r) (ch_wire r) (ch_frames r).
#[global] Instance set_m_handle {H K D} : Setter (@m_handle H K D) := fun v r =>
  mkChannel (m_document r) (m_client r) (m_handshake r) v (m_buffer r) (m_resumeTimer r) (m_suspended r) (m_closing
    r) (m_receivedClosingHandshake r) (m_closingTimer r) (ch_closed r) (m_shouldDiscardReceivedData r)
    (m_unhandledBufferedAmount r) (m_hasContinuousFrame r) (m_continuousFrameOpCode r) (m_continuousFrameData r)
    (m_closeEventCode r) (m_closeEventReason r) (m_outgoingFrameQueue r) (m_outgoingFrameQueueStatus r)
    (m_blobLoader r) (m_blobLoaderStatus r) (m_deflateFramer r) (ch_events r) (ch_wire r) (ch_frames r).
#[global] Instance set_m_buffer {H K D} : Setter (@m_buffer H K D) := fun v r =>
  mkChannel (m_document r) (m_client r) (m_handshake r) (m_handle r) v (m_resumeTimer r) (m_suspended r) (m_closing
    r) (m_receivedClosingHandshake r) (m_closingTimer r) (ch_closed r) (m_shouldDiscardReceivedData r)
    (m_unhandledBufferedAmount r) (m_hasContinuousFrame r) (m_continuousFrameOpCode r) (m_continuousFrameData r)
    (m_closeEventCode r) (m_closeEventReason r) (m_outgoingFrameQueue r) (m_outgoingFrameQueueStatus r)
    (m_blobLoader r) (m_blobLoaderStatus r) (m_deflateFramer r) (ch_events r) (ch_wire r) (ch_frames r).
#[global] Instance set_m_resumeTimer {H K D} : Setter (@m_resumeTimer H K D) := fun v r =>
  mkChannel (m_document r) (m_client r) (m_handshake r) (m_handle r) (m_buffer r) v (m_suspended r) (m_closing r)
    (m_receivedClosingHandshake r) (m_closingTimer r) (ch_closed r) (m_shouldDiscardReceivedData r)
    (m_unhandledBufferedAmount r) (m_hasContinuousFrame r) (m_continuousFrameOpCode r) (m_continuousFrameData r)
    (m_closeEventCode r) (m_closeEventReason r) (m_outgoingFrameQueue r) (m_outgoingFrameQueueStatus r)
    (m_blobLoader r) (m_blobLoaderStatus r) (m_deflateFramer r) (ch_events r) (ch_wire r) (ch_frames r).
#[global] Instance set_m_suspended {H K D} : Setter (@m_suspended H K D) := fun v r =>
  mkChannel (m_document r) (m_client r) (m_handshake r) (m_handle r) (m_buffer r) (m_resumeTimer r) v (m_closing r)
    (m_receivedClosingHandshake r) (m_closingTimer r) (ch_closed r) (m_shouldDiscardReceivedData r)
    (m_unhandledBufferedAmount r) (m_hasContinuousFrame r) (m_continuousFrameOpCode r) (m_continuousFrameData r)
    (m_closeEventCode r) (m_closeEventReason r) (m_outgoingFrameQueue r) (m_outgoingFrameQueueStatus r)
    (m_blobLoader r) (m_blobLoaderStatus r) (m_deflateFramer r) (ch_events r) (ch_wire r) (ch_frames r).
#[global] Instance set_m_closing {H K D} : Setter (@m_closing H K D) := fun v r =>
  mkChannel (m_document r) (m_client r) (m_handshake r) (m_handle r) (m_buffer r) (m_resumeTimer r) (m_suspended r)
    v (m_receivedClosingHandshake r) (m_closingTimer r) (ch_closed r) (m_shouldDiscardReceivedData r)
    (m_unhandledBufferedAmount r) (m_hasContinuousFrame r) (m_continuousFrameOpCode r) (m_continuousFrameData r)
    (m_closeEventCode r) (m_closeEventReason r) (m_outgoingFrameQueue r) (m_outgoingFrameQueueStatus r)
    (m_blobLoader r) (m_blobLoaderStatus r) (m_deflateFramer r) (ch_events r) (ch_wire r) (ch_frames r).
#[global] Instance set_m_receivedClosingHandshake {H K D} : Setter (@m_receivedClosingHandshake H K D) := fun v r =>
  mkChannel (m_document r) (m_client r) (m_handshake r) (m_handle r) (m_buffer r) (m_resumeTimer r) (m_suspended r)
    (m_closing r) v (m_closingTimer r) (ch_closed r) (m_shouldDiscardReceivedData r) (m_unhandledBufferedAmount r)
    (m_hasContinuousFrame r) (m_continuousFrameOpCode r) (m_continuousFrameData r) (m_closeEventCode r)
    (m_closeEventReason r) (m_outgoingFrameQueue r) (m_outgoingFrameQueueStatus r) (m_blobLoader r)
    (m_blobLoaderStatus r) (m_deflateFramer r) (ch_events r) (ch_wire r) (ch_frames r).
#[global] Instance set_m_closingTimer {H K D} : Setter (@m_closingTimer H K D) := fun v r =>
  mkChannel (m_document r) (m_client r) (m_handshake r) (m_handle r) (m_buffer r) (m_resumeTimer r) (m_suspended r)
    (m_closing r) (m_receivedClosingHandshake r) v (ch_closed r) (m_shouldDiscardReceivedData r)
    (m_unhandledBufferedAmount r) (m_hasContinuousFrame r) (m_continuousFrameOpCode r) (m_continuousFrameData r)
    (m_closeEventCode r) (m_closeEventReason r) (m_outgoingFrameQueue r) (m_outgoingFrameQueueStatus r)
    (m_blobLoader r) (m_blobLoaderStatus r) (m_deflateFramer r) (ch_events r) (ch_wire r) (ch_frames r).
#[global] Instance set_ch_closed {H K D} : Setter (@ch_closed H K D) := fun v r =>
  mkChannel (m_document r) (m_client r) (m_handshake r) (m_handle r) (m_buffer r) (m_resumeTimer r) (m_suspended r)
    (m_closing r) (m_receivedClosingHandshake r) (m_closingTimer r) v (m_shouldDiscardReceivedData r)
    (m_unhandledBufferedAmount r) (m_hasContinuousFrame r) (m_continuousFrameOpCode r) (m_continuousFrameData r)
    (m_closeEventCode r) (m_closeEventReason r) (m_outgoingFrameQueue r) (m_outgoingFrameQueueStatus r)
    (m_blobLoader r) (m_blobLoaderStatus r) (m_deflateFramer r) (ch_events r) (ch_wire r) (ch_frames r).
#[global] Instance set_m_shouldDiscardReceivedData {H K D} : Setter (@m_shouldDiscardReceivedData H K D) := fun v r =>
  mkChannel (m_document r) (m_client r) (m_handshake r) (m_handle r) (m_buffer r) (m_resumeTimer r) (m_suspended r)
    (m_closing r) (m_receivedClosingHandshake r) (m_closingTimer r) (ch_closed r) v (m_unhandledBufferedAmount r)
    (m_hasContinuousFrame r) (m_continuousFrameOpCode r) (m_continuousFrameData r) (m_closeEventCode r)
    (m_closeEventReason r) (m_outgoingFrameQueue r) (m_outgoingFrameQueueStatus r) (m_blobLoader r)
    (m_blobLoaderStatus r) (m_deflateFramer r) (ch_events r) (ch_wire r) (ch_frames r).
#[global] Instance set_m_unhandledBufferedAmount {H K D} : Setter (@m_unhandledBufferedAmount H K D) := fun v r =>
  mkChannel (m_document r) (m_client r) (m_handshake r) (m_handle r) (m_buffer r) (m_resumeTimer r) (m_suspended r)
    (m_closing r) (m_receivedClosingHandshake r) (m_closingTimer r) (ch_closed r) (m_shouldDiscardReceivedData r) v
    (m_hasContinuousFrame r) (m_continuousFrameOpCode r) (m_continuousFrameData r) (m_closeEventCode r)
    (m_closeEventReason r) (m_outgoingFrameQueue r) (m_outgoingFrameQueueStatus r) (m_blobLoader r)
    (m_blobLoaderStatus r) (m_deflateFramer r) (ch_events r) (ch_wire r) (ch_frames r).
#[global] Instance set_m_hasContinuousFrame {H K D} : Setter (@m_hasContinuousFrame H K D) := fun v r =>
  mkChannel (m_document r) (m_client r) (m_handshake r) (m_handle r) (m_buffer r) (m_resumeTimer r) (m_suspended r)
    (m_closing r) (m_receivedClosingHandshake r) (m_closingTimer r) (ch_closed r) (m_shouldDiscardReceivedData r)
    (m_unhandledBufferedAmount r) v (m_continuousFrameOpCode r) (m_continuousFrameData r) (m_closeEventCode r)
    (m_closeEventReason r) (m_outgoingFrameQueue r) (m_outgoingFrameQueueStatus r) (m_blobLoader r)
    (m_blobLoaderStatus r) (m_deflateFramer r) (ch_events r) (ch_wire r) (ch_frames r).
#[global] Instance set_m_continuousFrameOpCode {H K D} : Setter (@m_continuousFrameOpCode H K D) := fun v r =>
  mkChannel (m_document r) (m_client r) (m_handshake r) (m_handle r) (m_buffer r) (m_resumeTimer r) (m_suspended r)
    (m_closing r) (m_receivedClosingHandshake r) (m_closingTimer r) (ch_closed r) (m_shouldDiscardReceivedData r)
    (m_unhandledBufferedAmount r) (m_hasContinuousFrame r) v (m_continuousFrameData r) (m_closeEventCode r)
    (m_closeEventReason r) (m_outgoingFrameQueue r) (m_outgoingFrameQueueStatus r) (m_blobLoader r)
    (m_blobLoaderStatus r) (m_deflateFramer r) (ch_events r) (ch_wire r) (ch_frames r).
#[global] Instance set_m_continuousFrameData {H K D} : Setter (@m_continuousFrameData H K D) := fun v r =>
  mkChannel (m_document r) (m_client r) (m_handshake r) (m_handle r) (m_buffer r) (m_resumeTimer r) (m_suspended r)
    (m_closing r) (m_receivedClosingHandshake r) (m_closingTimer r) (ch_closed r) (m_shouldDiscardReceivedData r)
    (m_unhandledBufferedAmount r) (m_hasContinuousFrame r) (m_continuousFrameOpCode r) v (m_closeEventCode r)
    (m_closeEventReason r) (m_outgoingFrameQueue r) (m_outgoingFrameQueueStatus r) (m_blobLoader r)
    (m_blobLoaderStatus r) (m_deflateFramer r) (ch_events r) (ch_wire r) (ch_frames r).
#[global] Instance set_m_closeEventCode {H K D} : Setter (@m_closeEventCode H K D) := fun v r =>
  mkChannel (m_document r) (m_client r) (m_handshake r) (m_handle r) (m_buffer r) (m_resumeTimer r) (m_suspended r)
    (m_closing r) (m_receivedClosingHandshake r) (m_closingTimer r) (ch_closed r) (m_shouldDiscardReceivedData r)
    (m_unhandledBufferedAmount r) (m_hasContinuousFrame r) (m_continuousFrameOpCode r) (m_continuousFrameData r) v
    (m_closeEventReason r) (m_outgoingFrameQueue r) (m_outgoingFrameQueueStatus r) (m_blobLoader r)
    (m_blobLoaderStatus r) (m_deflateFramer r) (ch_events r) (ch_wire r) (ch_frames r).
#[global] Instance set_m_closeEventReason {H K D} : Setter (@m_closeEventReason H K D) := fun v r =>
  mkChannel (m_document r) (m_client r) (m_handshake r) (m_handle r) (m_buffer r) (m_resumeTimer r) (m_suspended r)
    (m_closing r) (m_receivedClosingHandshake r) (m_closingTimer r) (ch_closed r) (m_shouldDiscardReceivedData r)
    (m_unhandledBufferedAmount r) (m_hasContinuousFrame r) (m_continuousFrameOpCode r) (m_continuousFrameData r)
    (m_closeEventCode r) v (m_outgoingFrameQueue r) (m_outgoingFrameQueueStatus r) (m_blobLoader r)
    (m_blobLoaderStatus r) (m_deflateFramer r) (ch_events r) (ch_wire r) (ch_frames r).
#[global] Instance set_m_outgoingFrameQueue {H K D} : Setter (@m_outgoingFrameQueue H K D) := fun v r =>
  mkChannel (m_document r) (m_client r) (m_handshake r) (m_handle r) (m_buffer r) (m_resumeTimer r) (m_suspended r)
    (m_closing r) (m_receivedClosingHandshake r) (m_closingTimer r) (ch_closed r) (m_shouldDiscardReceivedData r)
    (m_unhandledBufferedAmount r) (m_hasContinuousFrame r) (m_continuousFrameOpCode r) (m_continuousFrameData r)
    (m_closeEventCode r) (m_closeEventReason r) v (m_outgoingFrameQueueStatus r) (m_blobLoader r)
    (m_blobLoaderStatus r) (m_deflateFramer r) (ch_events r) (ch_wire r) (ch_frames r).
#[global] Instance set_m_outgoingFrameQueueStatus {H K D} : Setter (@m_outgoingFrameQueueStatus H K D) := fun v r =>
  mkChannel (m_document r) (m_client r) (m_handshake r) (m_handle r) (m_buffer r) (m_resumeTimer r) (m_suspended r)
    (m_closing r) (m_receivedClosingHandshake r) (m_closingTimer r) (ch_closed r) (m_shouldDiscardReceivedData r)
    (m_unhandledBufferedAmount r) (m_hasContinuousFrame r) (m_continuousFrameOpCode r) (m_continuousFrameData r)
    (m_closeEventCode r) (m_closeEventReason r) (m_outgoingFrameQueue r) v (m_blobLoader r) (m_blobLoaderStatus r)
    (m_deflateFramer r) (ch_events r) (ch_wire r) (ch_frames r).
#[global] Instance set_m_blobLoader {H K D} : Setter (@m_blobLoader H K D) := fun v r =>
  mkChannel (m_document r) (m_client r) (m_handshake r) (m_handle r) (m_buffer r) (m_resumeTimer r) (m_suspended r)
    (m_closing r) (m_receivedClosingHandshake r) (m_closingTimer r) (ch_closed r) (m_shouldDiscardReceivedData r)
    (m_unhandledBufferedAmount r) (m_hasContinuousFrame r) (m_continuousFrameOpCode r) (m_continuousFrameData r)
    (m_closeEventCode r) (m_closeEventReason r) (m_outgoingFrameQueue r) (m_outgoingFrameQueueStatus r) v
    (m_blobLoaderStatus r) (m_deflateFramer r) (ch_events r) (ch_wire r) (ch_frames r).
#[global] Instance set_m_blobLoaderStatus {H K D} : Setter (@m_blobLoaderStatus H K D) := fun v r =>
  mkChannel (m_document r) (m_client r) (m_handshake r) (m_handle r) (m_buffer r) (m_resumeTimer r) (m_suspended r)
    (m_closing r) (m_receivedClosingHandshake r) (m_closingTimer r) (ch_closed r) (m_shouldDiscardReceivedData r)
    (m_unhandledBufferedAmount r) (m_hasContinuousFrame r) (m_continuousFrameOpCode r) (m_continuousFrameData r)
    (m_closeEventCode r) (m_closeEventReason r) (m_outgoingFrameQueue r) (m_outgoingFrameQueueStatus r)
    (m_blobLoader r) v (m_deflateFramer r) (ch_events r) (ch_wire r) (ch_frames r).
#[global] Instance set_m_deflateFramer {H K D} : Setter (@m_deflateFramer H K D) := fun v r =>
  mkChannel (m_document r) (m_client r) (m_handshake r) (m_handle r) (m_buffer r) (m_resumeTimer r) (m_suspended r)
    (m_closing r) (m_receivedClosingHandshake r) (m_closingTimer r) (ch_closed r) (m_shouldDiscardReceivedData r)
    (m_unhandledBufferedAmount r) (m_hasContinuousFrame r) (m_continuousFrameOpCode r) (m_continuousFrameData r)
    (m_closeEventCode r) (m_closeEventReason r) (m_outgoingFrameQueue r) (m_outgoingFrameQueueStatus r)
    (m_blobLoader r) (m_blobLoaderStatus r) v (ch_events r) (ch_wire r) (ch_frames r).
#[global] Instance set_ch_events {H K D} : Setter (@ch_events H K D) := fun v r =>
  mkChannel (m_document r) (m_client r) (m_handshake r) (m_handle r) (m_buffer r) (m_resumeTimer r) (m_suspended r)
    (m_closing r) (m_receivedClosingHandshake r) (m_closingTimer r) (ch_closed r) (m_shouldDiscardReceivedData r)
    (m_unhandledBufferedAmount r) (m_hasContinuousFrame r) (m_continuousFrameOpCode r) (m_continuousFrameData r)
    (m_closeEventCode r) (m_closeEventReason r) (m_outgoingFrameQueue r) (m_outgoingFrameQueueStatus r)
    (m_blobLoader r) (m_blobLoaderStatus r) (m_deflateFramer r) v (ch_wire r) (ch_frames r).
#[global] Instance set_ch_wire {H K D} : Setter (@ch_wire H K D) := fun v r =>
  mkChannel (m_document r) (m_client r) (m_handshake r) (m_handle r) (m_buffer r) (m_resumeTimer r) (m_suspended r)
    (m_closing r) (m_receivedClosingHandshake r) (m_closingTimer r) (ch_closed r) (m_shouldDiscardReceivedData r)
    (m_unhandledBufferedAmount r) (m_hasContinuousFrame r) (m_continuousFrameOpCode r) (m_continuousFrameData r)
    (m_closeEventCode r) (m_closeEventReason r) (m_outgoingFrameQueue r) (m_outgoingFrameQueueStatus r)
    (m_blobLoader r) (m_blobLoaderStatus r) (m_deflateFramer r) (ch_events r) v (ch_frames r).
#[global] Instance set_ch_frames {H K D} : Setter (@ch_frames H K D) := fun v r =>
  mkChannel (m_document r) (m_client r) (m_handshake r) (m_handle r) (m_buffer r) (m_resumeTimer r) (m_suspended r)
    (m_closing r) (m_receivedClosingHandshake r) (m_closingTimer r) (ch_closed r) (m_shouldDiscardReceivedData r)
    (m_unhandledBufferedAmount r) (m_hasContinuousFrame r) (m_continuousFrameOpCode r) (m_continuousFrameData r)
    (m_closeEventCode r) (m_closeEventReason r) (m_outgoingFrameQueue r) (m_outgoingFrameQueueStatus r)
    (m_blobLoader r) (m_blobLoaderStatus r) (m_deflateFramer r) (ch_events r) (ch_wire r) v.

(** ** The monad of the operations *)

Section Monad.
Context {H K D : Type}.

Definition M (A : Type) : Type := Channel H K D -> option (A * Channel H K D).

#[global] Instance M_ret : MRet M := fun A a c => Some (a, c).
#[global] Instance M_bind : MBind M := fun A B f m c =>
  match m c with
  | Some (a, c) => f a c
  | None => None
  end.

Definition get {A : Type} (f : Channel H K D -> A) : M A := fun c => Some (f c, c).
Definition modify (f : Channel H K D -> Channel H K D) : M unit := fun c => Some (tt, f c).
(** A failed assertion or the use of a null pointer. *)
Definition crash {A : Type} : M A := fun _ => None.
Definition ASSERT (b : Channel H K D -> bool) : M unit := fun c => if b c then Some (tt, c) else None.
Definition when (b : bool) (m : M unit) : M unit := if b then m else mret tt.
End Monad.

Definition statusIs (s : OutgoingFrameQueueStatus) {H K D} (c : Channel H K D) : bool :=
  OutgoingFrameQueueStatus_eqb (m_outgoingFrameQueueStatus c) s.
Definition loaderIs (s : BlobLoaderStatus) {H K D} (c : Channel H K D) : bool := 
  BlobLoaderStatus_eqb (m_blobLoaderStatus c) s.
Definition isSome {A : Type} (o : option A) : bool := match o with Some _ => true | None => false end.
Definition isEmptyBuffer {A : Type} (l : list A) : bool := match l with [] => true | _ => false end.

Section Operations.
Context {H K D : Type} `{WebSocketHandshakeOps H} `{SocketStreamHandleOps K} `{ZlibOps D} `{MaskingKeys}.
(** Where a payload lies in memory. *)
Variable payloadAddress : Z.

Abbreviation Chan := (Channel H K D).
Abbreviation Op := (@M H K D).

(** [m_client->...] *)
Definition notify (e : ClientEvent) : Op unit := fun c =>
  if m_client c then Some (tt, c <| ch_events := ch_events c ++ [e] |>) else None.

Definition skipBuffer (len : nat) : Op unit :=
  ASSERT (fun c => len <=? length (m_buffer c))%nat;;
  modify (fun c => c <| m_buffer := drop len (m_buffer c) |>).

(** [Vector<char>::append]: the capacity of a vector is [unsigned], and growing
    beyond it is a [CRASH()].  (The capacity grows by a quarter at a time and is
    rounded up by the allocator, so the crash can come a little earlier; the
    theorems about sessions are about fewer than 2^31 bytes, where it cannot.) *)
Definition vectorAppend (data more : list Z) : option (list Z) :=
  if Z.of_nat (length data + length more) >? 2 ^ 32 - 1 then None else Some (data ++ more).

Definition appendToBuffer (data : list Z) : Op bool :=
  size ← get (fun c => Z.of_nat (length (m_buffer c)));
  if (size + Z.of_nat (length data)) mod 2 ^ 64 <? size then mret false
  else
    buffer ← get m_buffer;
    match vectorAppend buffer data with
    | None => crash
    | Some buffer => modify (fun c => c <| m_buffer := buffer |>);; mret true
    end.

(** ** Failing and closing

    [fail] disconnects the handle, which calls [didCloseSocketStream], which
    aborts the queue, which may fail again because of a blob that is being
    loaded.  The functions take the ones they call as arguments; [fail] ties
    the knot, and the second round finds the channel closed. *)

Definition failWith (disconnect : Op unit) (reason : string) : Op unit :=
  ASSERT (fun c => negb (m_suspended c));;
  document ← get m_document;
  handshake ← get m_handshake;
  when document (ASSERT (fun _ => isSome handshake));;
  modify (fun c => c <| m_shouldDiscardReceivedData := true |>);;
  size ← get (fun c => length (m_buffer c));
  when (negb (size =? 0)%nat) (skipBuffer size);;
  modify (fun c => c <| m_deflateFramer := framer_didFail (m_deflateFramer c) |>);;
  modify (fun c => c <| m_hasContinuousFrame := false |>);;
  modify (fun c => c <| m_continuousFrameData := [] |>);;
  notify didReceiveMessageError;;
  open ← get (fun c => isSome (m_handle c) && negb (ch_closed c));
  when open disconnect.

Definition didFailWith (fail : string -> Op unit) (errorCode : Z) : Op unit :=
  ASSERT (fun c => isSome (m_blobLoader c));;
  ASSERT (loaderIs BlobLoaderStarted);;
  modify (fun c => c <| m_blobLoader := None |>);;
  modify (fun c => c <| m_blobLoaderStatus := BlobLoaderFailed |>);;
  fail ("Failed to load Blob: error code = " +:+ pretty (Z.to_N errorCode))%string.

Definition ABORT_ERR : Z := 3.

Definition abortOutgoingFrameQueueWith (fail : string -> Op unit) : Op unit :=
  modify (fun c => c <| m_outgoingFrameQueue := [] |>);;
  modify (fun c => c <| m_outgoingFrameQueueStatus := OutgoingFrameQueueClosed |>);;
  started ← get (loaderIs BlobLoaderStarted);
  when started (didFailWith fail ABORT_ERR).

Definition didCloseSocketStreamWith (fail : string -> Op unit) : Op unit :=
  modify (fun c => c <| ch_closed := true |>);;
  modify (fun c => c <| m_closingTimer := false |>);;
  closed ← get (statusIs OutgoingFrameQueueClosed);
  when (negb closed) (abortOutgoingFrameQueueWith fail);;
  handle ← get m_handle;
  match handle with
  | None => mret tt
  | Some k =>
      modify (fun c => c <| m_unhandledBufferedAmount := handle_bufferedAmount k |>);;
      suspended ← get m_suspended;
      if (suspended : bool) then mret tt
      else
        client ← get m_client;
        event ← get (fun c => didClose (m_unhandledBufferedAmount c) (m_receivedClosingHandshake c) (m_closeEventCode c) (m_closeEventReason c));
        modify (fun c => c <| m_client := false |> <| m_document := false |> <| m_handle := None |>);;
        when client (modify (fun c => c <| ch_events := ch_events c ++ [event] |>))
  end.

(** [m_handle->disconnect()] *)
Definition handle_disconnectWith (fail : string -> Op unit) : Op unit :=
  handle ← get m_handle;
  match handle with
  | None => crash
  | Some _ =>
      didCloseSocketStreamWith fail;;
      modify (fun c => c <| m_handle := handle_disconnected <$> m_handle c |>)
  end.

Fixpoint failRounds (rounds : nat) (reason : string) : Op unit :=
  match rounds with
  | O => crash
  | S rounds => failWith (handle_disconnectWith (failRounds rounds)) reason
  end.

Definition fail (reason : string) : Op unit := failRounds 2 reason.
Definition didFail (errorCode : Z) : Op unit := didFailWith fail errorCode.
Definition abortOutgoingFrameQueue : Op unit := abortOutgoingFrameQueueWith fail.
Definition didCloseSocketStream : Op unit := didCloseSocketStreamWith fail.
Definition handle_disconnect : Op unit := handle_disconnectWith fail.

(** [m_handle->close()] *)
Definition handleClose : Op unit :=
  handle ← get m_handle;
  match handle with
  | None => crash
  | Some k =>
      let '(disconnects, k) := handle_close k in
      modify (fun c => c <| m_handle := Some k |>);;
      when disconnects handle_disconnect
  end.

(** ** Sending *)

Definition didUpdateBufferedAmount (bufferedAmount : Z) : Op unit :=
  client ← get m_client;
  when client (notify (client_didUpdateBufferedAmount bufferedAmount)).

(** [m_handle->send(...)] *)
Definition handleSend (data : list Z) : Op bool :=
  handle ← get m_handle;
  match handle with
  | None => crash
  | Some k =>
      match handle_send data k with
      | None => crash
      | Some (sent, amount, k) =>
          modify (fun c => c <| m_handle := Some k |>);;
          modify (fun c => c <| ch_wire := if (sent : bool) then ch_wire c ++ data else ch_wire c |>);;
          match amount with
          | Some amount => didUpdateBufferedAmount amount
          | None => mret tt
          end;;
          mret sent
      end
  end.

Definition sendFrame (opCode : Z) (data : list Z) : Op bool :=
  ASSERT (fun c => isSome (m_handle c));;
  ASSERT (fun c => negb (m_suspended c));;
  framer ← get m_deflateFramer;
  let '(deflateResult, framer) := framer_deflate (newFrame opCode true false true data (Z.of_nat (length data))) framer in
  modify (fun c => c <| m_deflateFramer := framer |>);;
  sent ← match deflateResult with
         | inl reason => fail reason;; mret false
         | inr frame =>
             n ← get ch_frames;
             modify (fun c => c <| ch_frames := S (ch_frames c) |>);;
             match makeFrameData frame (maskingKeyOf n) with
             | None => crash
             | Some frameData => handleSend frameData
             end
         end;
  modify (fun c => c <| m_deflateFramer := resetDeflateContext (m_deflateFramer c) |>);;
  mret sent.

Definition sendOrFail (opCode : Z) (data : list Z) : Op unit :=
  sent ← sendFrame opCode data;
  when (negb sent) (fail "Failed to send WebSocket frame.").

(** What follows the loop of [processOutgoingFrameQueue]. *)
Definition finishOutgoingFrameQueue : Op unit :=
  ASSERT (fun c => isEmptyBuffer (m_outgoingFrameQueue c));;
  closing ← get (statusIs OutgoingFrameQueueClosing);
  when closing
    (modify (fun c => c <| m_outgoingFrameQueueStatus := OutgoingFrameQueueClosed |>);; handleClose).

(** The loop of [processOutgoingFrameQueue]: a round takes the first frame; one
    that waits for a blob puts it back and returns. *)
Fixpoint outgoingLoop (fuel : nat) : Op unit :=
  match fuel with
  | O => crash
  | S fuel =>
      queue ← get m_outgoingFrameQueue;
      match queue with
      | [] => finishOutgoingFrameQueue
      | frame :: rest =>
          modify (fun c => c <| m_outgoingFrameQueue := rest |>);;
          match frame with
          | QueuedFrameTypeString opCode data | QueuedFrameTypeVector opCode data => sendOrFail opCode data;; outgoingLoop fuel
          | QueuedFrameTypeBlob opCode =>
              let putBack := modify (fun c => c <| m_outgoingFrameQueue := frame :: m_outgoingFrameQueue c |>) in
              status ← get m_blobLoaderStatus;
              match status with
              | BlobLoaderNotStarted =>
                  ASSERT (fun c => negb (isSome (m_blobLoader c)));;
                  modify (fun c => c <| m_blobLoader := Some [] |>);;
                  modify (fun c => c <| m_blobLoaderStatus := BlobLoaderStarted |>);;
                  putBack
              | BlobLoaderStarted | BlobLoaderFailed => putBack
              | BlobLoaderFinished =>
                  loader ← get m_blobLoader;
                  match loader with
                  | None => crash
                  | Some result =>
                      modify (fun c => c <| m_blobLoader := None |>);;
                      modify (fun c => c <| m_blobLoaderStatus := BlobLoaderNotStarted |>);;
                      sendOrFail opCode result;; outgoingLoop fuel
                  end
              end
          end
      end
  end.

Definition processOutgoingFrameQueue : Op unit :=
  closed ← get (statusIs OutgoingFrameQueueClosed);
  if (closed : bool) then mret tt
  else n ← get (fun c => length (m_outgoingFrameQueue c)); outgoingLoop (S n).

Definition enqueue (frame : QueuedFrame) : Op unit :=
  ASSERT (statusIs OutgoingFrameQueueOpen);;
  modify (fun c => c <| m_outgoingFrameQueue := m_outgoingFrameQueue c ++ [frame] |>).
Definition enqueueTextFrame (string : list Z) : Op unit := enqueue (QueuedFrameTypeString OpCodeText string).
Definition enqueueRawFrame (opCode : Z) (data : list Z) : Op unit := enqueue (QueuedFrameTypeVector opCode data).
Definition enqueueBlobFrame (opCode : Z) : Op unit := enqueue (QueuedFrameTypeBlob opCode).

(** [String::utf8] of a string that may be null; a null [CString] is empty. *)
Definition stringUTF8 (string : option (bool * list UChar)) (mode : ConversionMode) : Op (list Z) :=
  match string with
  | None => mret []
  | Some (is8Bit, characters) =>
      match utf8 is8Bit characters mode with
      | None => crash
      | Some result => mret (default [] result)
      end
  end.

(** [send] for strings, array buffers and blobs *)
Definition sendString (message : option (bool * list UChar)) : Op unit :=
  utf8 ← stringUTF8 message StrictConversionReplacingUnpairedSurrogatesWithFFFD;
  enqueueTextFrame utf8;; processOutgoingFrameQueue.
Definition sendArrayBuffer (binaryData : list Z) (byteOffset byteLength : nat) : Op unit :=
  enqueueRawFrame OpCodeBinary (take byteLength (drop byteOffset binaryData));; processOutgoingFrameQueue.
Definition sendBlob : Op unit := enqueueBlobFrame OpCodeBinary;; processOutgoingFrameQueue.
Definition sendBytes (data : list Z) : Op bool := enqueueRawFrame OpCodeBinary data;; processOutgoingFrameQueue;; mret true.

Definition bufferedAmount : Op Z :=
  handle ← get m_handle;
  match handle with
  | None => crash
  | Some k => ASSERT (fun c => negb (m_suspended c));; mret (handle_bufferedAmount k)
  end.

(** The callback of the loader with the bytes it has read. *)
Definition didFinishLoading (result : list Z) : Op unit :=
  ASSERT (fun c => isSome (m_blobLoader c));;
  ASSERT (loaderIs BlobLoaderStarted);;
  modify (fun c => c <| m_blobLoader := Some result |>);;
  modify (fun c => c <| m_blobLoaderStatus := BlobLoaderFinished |>);;
  processOutgoingFrameQueue.

(** ** The closing handshake *)

Definition startClosingHandshake (code : Z) (reason : option (bool * list UChar)) : Op unit :=
  closing ← get m_closing;
  if (closing : bool) then mret tt
  else
    ASSERT (fun c => isSome (m_handle c));;
    received ← get m_receivedClosingHandshake;
    buf ← (if negb received && negb (code =? CloseEventCodeNotSpecified)
           then bytes ← stringUTF8 reason LenientConversion; mret (Z.shiftr code 8 mod 2 ^ 8 :: code mod 2 ^ 8 :: bytes)
           else mret []);
    enqueueRawFrame OpCodeClose buf;;
    processOutgoingFrameQueue;;
    modify (fun c => c <| m_closing := true |>);;
    client ← get m_client;
    when client (notify didStartClosingHandshake).

Definition close (code : Z) (reason : option (bool * list UChar)) : Op unit :=
  ASSERT (fun c => negb (m_suspended c));;
  handle ← get m_handle;
  match handle with
  | None => mret tt
  | Some _ =>
      startClosingHandshake code reason;;
      start ← get (fun c => m_closing c && negb (m_closingTimer c));
      when start (modify (fun c => c <| m_closingTimer := true |>))
  end.

Definition closingTimerFired : Op unit :=
  modify (fun c => c <| m_closingTimer := false |>);;
  handle ← get m_handle;
  when (isSome handle) handle_disconnect.

Definition disconnect : Op unit :=
  modify (fun c => c <| m_client := false |> <| m_document := false |>);;
  handle ← get m_handle;
  when (isSome handle) handle_disconnect.

(** ** Receiving *)

(** [String::fromUTF8]; the empty message does not go through it. *)
Definition decodeMessage (data : list Z) : Op (option (list UChar)) :=
  if isEmptyBuffer data then mret (Some [])
  else
    match fromUTF8 payloadAddress data with
    | None => crash
    | Some message => mret message
    end.

Definition deliverText (message : option (list UChar)) : Op unit :=
  match message with
  | None => fail "Could not decode a text frame as UTF-8."
  | Some message => notify (didReceiveMessage message)
  end.

(** [m_continuousFrameData.append(frame.payload, frame.payloadLength)] *)
Definition appendToContinuousFrame (data : list Z) : Op unit :=
  sofar ← get m_continuousFrameData;
  match vectorAppend sofar data with
  | None => crash
  | Some sofar => modify (fun c => c <| m_continuousFrameData := sofar |>)
  end.

(** The first frame of a message in several frames. *)
Definition startContinuousFrame (opCode : Z) (data : list Z) (frameEnd : nat) : Op unit :=
  modify (fun c => c <| m_hasContinuousFrame := true |>);;
  modify (fun c => c <| m_continuousFrameOpCode := opCode |>);;
  ASSERT (fun c => isEmptyBuffer (m_continuousFrameData c));;
  appendToContinuousFrame data;;
  skipBuffer frameEnd.

(** The cases of the switch return whether the function goes on behind it. *)
Definition handleContinuation (frame : WebSocketFrame) (frameEnd : nat) : Op bool :=
  continuous ← get m_hasContinuousFrame;
  if negb continuous then fail "Received unexpected continuation frame.";; mret false
  else
    appendToContinuousFrame (frame_bytes frame);;
    skipBuffer frameEnd;;
    when (final frame)
      (data ← get m_continuousFrameData;
       modify (fun c => c <| m_continuousFrameData := [] |>);;
       modify (fun c => c <| m_hasContinuousFrame := false |>);;
       opCode ← get m_continuousFrameOpCode;
       if opCode =? OpCodeText then message ← decodeMessage data; deliverText message
       else when (opCode =? OpCodeBinary) (notify (didReceiveBinaryData data)));;
    mret true.

Definition handleText (frame : WebSocketFrame) (frameEnd : nat) : Op bool :=
  (if final frame then
     message ← decodeMessage (frame_bytes frame);
     skipBuffer frameEnd;;
     deliverText message
   else startContinuousFrame OpCodeText (frame_bytes frame) frameEnd);;
  mret true.

Definition handleBinary (frame : WebSocketFrame) (frameEnd : nat) : Op bool :=
  (if final frame then
     skipBuffer frameEnd;;
     notify (didReceiveBinaryData (frame_bytes frame))
   else startContinuousFrame OpCodeBinary (frame_bytes frame) frameEnd);;
  mret true.

(** The close code, or whether the frame is broken and why. *)
Definition handleCloseCode (data : list Z) : Op bool :=
  let setCode code := modify (fun c => c <| m_closeEventCode := code |>) in
  match data with
  | [] => setCode CloseEventCodeNoStatusRcvd;; mret true
  | [_] =>
      setCode CloseEventCodeAbnormalClosure;;
      fail "Received a broken close frame containing an invalid size body.";; mret false
  | highByte :: lowByte :: _ =>
      let code := Z.lor (Z.shiftl highByte 8) lowByte in
      setCode code;;
      if (code =? CloseEventCodeNoStatusRcvd) || (code =? CloseEventCodeAbnormalClosure) || (code =? CloseEventCodeTLSHandshake) then
        setCode CloseEventCodeAbnormalClosure;;
        fail "Received a broken close frame containing a reserved status code.";; mret false
      else mret true
  end.

Definition handleCloseFrame (frame : WebSocketFrame) (frameEnd : nat) : Op bool :=
  let data := frame_bytes frame in
  proceed ← handleCloseCode data;
  if negb proceed then mret false
  else
    reason ← (if payloadLength frame >=? 3
              then match fromUTF8 payloadAddress (drop 2 data) with None => crash | Some reason => mret reason end
              else mret (Some []));
    modify (fun c => c <| m_closeEventReason := reason |>);;
    skipBuffer frameEnd;;
    modify (fun c => c <| m_receivedClosingHandshake := true |>);;
    code ← get m_closeEventCode;
    startClosingHandshake code (pair false <$> reason);;
    closing ← get m_closing;
    when closing
      (modify (fun c => c <| m_outgoingFrameQueueStatus := OutgoingFrameQueueClosing |>);; processOutgoingFrameQueue);;
    mret true.

Definition handlePing (frame : WebSocketFrame) (frameEnd : nat) : Op bool :=
  enqueueRawFrame OpCodePong (frame_bytes frame);;
  skipBuffer frameEnd;;
  processOutgoingFrameQueue;;
  mret true.

Definition handlePong (frameEnd : nat) : Op bool := skipBuffer frameEnd;; mret true.

(** The reason to reject a frame. *)
Definition frameProblem (continuous : bool) (frame : WebSocketFrame) : option string :=
  let number z := pretty (Z.to_N z) in
  let flag (b : bool) : string := if b then "1" else "0" in
  let control := isControlOpCode (opCode frame) in
  if isReservedOpCode (opCode frame) then Some ("Unrecognized frame opcode: " +:+ number (opCode frame))%string
  else if reserved2 frame || reserved3 frame then
    Some ("One or more reserved bits are on: reserved2 = " +:+ flag (reserved2 frame) +:+ ", reserved3 = " +:+ flag (reserved3 frame))%string
  else if masked frame then Some "A server must not mask any frames that it sends to the client."%string
  else if control && negb (final frame) then Some ("Received fragmented control frame: opcode = " +:+ number (opCode frame))%string
  else if control && needsExtendedLengthField (payloadLength frame) then
    Some ("Received control frame having too long payload: " +:+ number (payloadLength frame) +:+ " bytes")%string
  else if continuous && negb (opCode frame =? OpCodeContinuation) && negb control then
    Some "Received new data frame but previous continuous frame is unfinished."%string
  else None.

Definition handleFrame (frame : WebSocketFrame) (frameEnd : nat) : Op bool :=
  let o := opCode frame in
  if o =? OpCodeContinuation then handleContinuation frame frameEnd
  else if o =? OpCodeText then handleText frame frameEnd
  else if o =? OpCodeBinary then handleBinary frame frameEnd
  else if o =? OpCodeClose then handleCloseFrame frame frameEnd
  else if o =? OpCodePing then handlePing frame frameEnd
  else if o =? OpCodePong then handlePong frameEnd
  else crash.

(** The part of [processFrame] in which the result of [inflate] lives. *)
Definition processParsedFrame (frame : WebSocketFrame) (frameEnd : nat) : Op bool :=
  framer ← get m_deflateFramer;
  let '(inflateResult, framer) := framer_inflate frame framer in
  modify (fun c => c <| m_deflateFramer := framer |>);;
  match inflateResult with
  | inl reason => fail reason;; mret false
  | inr frame =>
      continuous ← get m_hasContinuousFrame;
      match frameProblem continuous frame with
      | Some reason => fail reason;; mret false
      | None =>
          proceed ← handleFrame frame frameEnd;
          if (proceed : bool) then get (fun c => negb (isEmptyBuffer (m_buffer c))) else mret false
      end
  end.

Definition processFrame : Op bool :=
  ASSERT (fun c => negb (isEmptyBuffer (m_buffer c)));;
  buffer ← get m_buffer;
  match parseFrame buffer with
  | FrameIncomplete => mret false
  | FrameError errorString => fail errorString;; mret false
  | FrameOK frame frameEnd buffer =>
      modify (fun c => c <| m_buffer := buffer |>);;
      ASSERT (fun c => (0 <? frameEnd)%nat && (frameEnd <=? length (m_buffer c))%nat);;
      result ← processParsedFrame frame frameEnd;
      modify (fun c => c <| m_deflateFramer := resetInflateContext (m_deflateFramer c) |>);;
      mret result
  end.

(** What follows the call of [readServerHandshake]. *)
Definition processHandshake (headerLength : Z) (h : H) (deflate : option (Z * ContextTakeOverMode)) : Op bool :=
  modify (fun c => c <| m_handshake := Some h |>);;
  match deflate with
  | Some (windowBits, mode) => modify (fun c => c <| m_deflateFramer := enableDeflate windowBits mode (m_deflateFramer c) |>)
  | None => mret tt
  end;;
  if headerLength <=? 0 then mret false
  else
    match hs_mode h with
    | Connected =>
        skipBuffer (Z.to_nat headerLength);;
        notify didConnect;;
        get (fun c => negb (isEmptyBuffer (m_buffer c)))
    | Failed =>
        skipBuffer (Z.to_nat headerLength);;
        modify (fun c => c <| m_shouldDiscardReceivedData := true |>);;
        fail (messageString (failureReason h));;
        mret false
    | _ => crash
    end.

Definition processBuffer : Op bool :=
  ASSERT (fun c => negb (m_suspended c));;
  ASSERT m_client;;
  ASSERT (fun c => negb (isEmptyBuffer (m_buffer c)));;
  discard ← get m_shouldDiscardReceivedData;
  if (discard : bool) then mret false
  else
    received ← get m_receivedClosingHandshake;
    if (received : bool) then n ← get (fun c => length (m_buffer c)); skipBuffer n;; mret false
    else
      handshake ← get m_handshake;
      match handshake with
      | None => crash
      | Some h =>
          match hs_mode h with
          | Incomplete =>
              buffer ← get m_buffer;
              match readServerHandshake buffer h with
              | None => crash
              | Some (headerLength, h, deflate) => processHandshake headerLength h deflate
              end
          | Connected => processFrame
          | _ => mret false
          end
      end.

(** [while (!m_suspended && m_client && !m_buffer.isEmpty())]; a round that
    goes on has taken bytes from the buffer. *)
Fixpoint processLoop (fuel : nat) : Op unit :=
  match fuel with
  | O => crash
  | S fuel =>
      more ← get (fun c => negb (m_suspended c) && m_client c && negb (isEmptyBuffer (m_buffer c)));
      if (more : bool) then proceed ← processBuffer; if (proceed : bool) then processLoop fuel else mret tt
      else mret tt
  end.

Definition processAll : Op unit := n ← get (fun c => length (m_buffer c)); processLoop (S n).

(** The handle that calls is [m_handle]. *)
Definition didReceiveSocketStreamData (data : list Z) : Op unit :=
  ASSERT (fun c => isSome (m_handle c));;
  document ← get m_document;
  if negb document then mret tt
  else if isEmptyBuffer data then handle_disconnect
  else
    client ← get m_client;
    if negb client then modify (fun c => c <| m_shouldDiscardReceivedData := true |>);; handle_disconnect
    else
      discard ← get m_shouldDiscardReceivedData;
      if (discard : bool) then mret tt
      else
        appended ← appendToBuffer data;
        if negb appended then
          modify (fun c => c <| m_shouldDiscardReceivedData := true |>);;
          fail "Ran out of memory while receiving WebSocket data."
        else processAll.

Definition suspend : Op unit := modify (fun c => c <| m_suspended := true |>).

Definition resume : Op unit :=
  modify (fun c => c <| m_suspended := false |>);;
  start ← get (fun c => (negb (isEmptyBuffer (m_buffer c)) || ch_closed c) && m_client c && negb (m_resumeTimer c));
  when start (modify (fun c => c <| m_resumeTimer := true |>)).

Definition resumeTimerFired : Op unit :=
  modify (fun c => c <| m_resumeTimer := false |>);;
  processAll;;
  closed ← get (fun c => negb (m_suspended c) && m_client c && ch_closed c && isSome (m_handle c));
  when closed didCloseSocketStream.

(** The handle that calls disconnects, whether or not the channel still has it. *)
Definition didFailSocketStream : Op unit :=
  modify (fun c => c <| m_shouldDiscardReceivedData := true |>);;
  didCloseSocketStream;;
  modify (fun c => c <| m_handle := handle_disconnected <$> m_handle c |>).

Definition didOpenSocketStream : Op unit :=
  ASSERT (fun c => isSome (m_handle c));;
  document ← get m_document;
  if negb document then mret tt
  else
    handshake ← get m_handshake;
    match handshake with
    | None => crash
    | Some h =>
        sent ← handleSend (clientHandshakeMessage h);
        when (negb sent) (fail "Failed to send WebSocket handshake.")
    end.
End Operations.

(** The channel after [connect]. *)
Definition newChannel {H K D : Type} (h : H) (k : K) : Channel H K D :=
  mkChannel true true (Some h) (Some k) [] false false false false false false false 0 false OpCodeInvalid [] CloseEventCodeAbnormalClosure None
    [] OutgoingFrameQueueOpen None BlobLoaderNotStarted (mkDeflateFramer None) [] [] 0.
