(* ===== verification/SocketStreamHandle.v ===== *)
(** * The socket stream handle

    [platform/network/SocketStreamHandleBase.{h,cpp}] with the
    [StreamBuffer] of [wtf/StreamBuffer.h]: the bytes that a channel sends go to
    the socket of the system, and what the socket does not take waits in a
    queue of blocks.  The socket itself is the class [PlatformSocket]; a handle
    over it is an instance of the interface the channel uses
    ([SocketStreamHandleOps]), and keeps what the channel relies on
    ([SocketAccepts]).  [None] is an assertion that fails or a read behind the
    data. *)

From S2P Require Import Prelude WebSocketFrame WebSocketChannel.
Open Scope Z_scope.

Definition sizeOfData {A : Type} (l : list A) : Z := Z.of_nat (length l).

(** The conversion of an [int] to [size_t]. *)
Definition size_t (z : Z) : Z := z mod 2 ^ 64.

(** ** [StreamBuffer] *)

Definition BlockSize : Z := 1024 * 1024.

Record StreamBuffer := mkStreamBuffer {
  sb_size : Z;
  sb_readOffset : Z;
  sb_buffer : list (list Z)
}.

Definition newStreamBuffer : StreamBuffer := mkStreamBuffer 0 0 [].
Definition sb_isEmpty (b : StreamBuffer) : bool := sb_size b =? 0.

(** [m_buffer.last()] *)
Definition lastBlock (blocks : list (list Z)) : list Z := default [] (last blocks).

(** The loop of [append]; a round takes at least one byte. *)
Fixpoint appendBlocks (fuel : nat) (data : list Z) (blocks : list (list Z)) : option (list (list Z)) :=
  match data, fuel with
  | [], _ => Some blocks
  | _, O => None
  | _, S fuel =>
      let blocks := if (length blocks =? 0)%nat || (sizeOfData (lastBlock blocks) =? BlockSize) then blocks ++ [[]] else blocks in
      let appendSize := Z.to_nat (Z.min (BlockSize - sizeOfData (lastBlock blocks)) (sizeOfData data)) in
      appendBlocks fuel (drop appendSize data) (alter (fun block => block ++ take appendSize data) (pred (length blocks)) blocks)
  end.

Definition sb_append (data : list Z) (size : Z) (b : StreamBuffer) : option StreamBuffer :=
  if size =? 0 then Some b
  else if sizeOfData data <? size then None
  else
    let data := take (Z.to_nat size) data in
    blocks ← appendBlocks (length data) data (sb_buffer b);
    Some (mkStreamBuffer (sb_size b + size) (sb_readOffset b) blocks).

Definition sb_consume (size : Z) (b : StreamBuffer) : option StreamBuffer :=
  if negb (size <=? sb_size b) then None
  else if sb_size b =? 0 then Some b
  else
    match sb_buffer b with
    | [] => None
    | first :: rest =>
        if negb (sb_readOffset b + size <=? sizeOfData first) then None
        else if sb_readOffset b + size >=? sizeOfData first then Some (mkStreamBuffer (sb_size b - size) 0 rest)
        else Some (mkStreamBuffer (sb_size b - size) (sb_readOffset b + size) (first :: rest))
    end.

(** The first block from [m_readOffset] on, the null pointer of an empty
    buffer being no data. *)
Definition sb_firstBlockData (b : StreamBuffer) : option (list Z) :=
  if sb_size b =? 0 then Some []
  else match sb_buffer b with [] => None | first :: _ => Some (drop (Z.to_nat (sb_readOffset b)) first) end.
Definition sb_firstBlockSize (b : StreamBuffer) : option Z :=
  if sb_size b =? 0 then Some 0
  else match sb_buffer b with [] => None | first :: _ => Some (sizeOfData first - sb_readOffset b) end.

(** ** [SocketStreamHandleBase] *)

Definition sk_bufferSize : Z := 100 * 1024 * 1024.

Inductive SocketStreamState := Connecting | Open | Closing | Closed.

Definition SocketStreamState_eqb (s t : SocketStreamState) : bool :=
  match s, t with Connecting, Connecting | Open, Open | Closing, Closing | Closed, Closed => true | _, _ => false end.

(** [platformSend] and [platformClose] of a port: the number of bytes the
    system has taken, negative for an error. *)
Class PlatformSocket (P : Type) := {
  platformSend : list Z -> Z -> P -> Z * P;
  platformClose : P -> P
}.

Record SocketStreamHandle (P : Type) := mkHandle {
  sk_platform : P;
  sk_hasClient : bool;
  sk_buffer : StreamBuffer;
  sk_state : SocketStreamState
}.
Arguments mkHandle {P}.
Arguments sk_platform {P}.
Arguments sk_hasClient {P}.
Arguments sk_buffer {P}.
Arguments sk_state {P}.

Section Handle.
Context {P : Type} `{PlatformSocket P}.
Abbreviation Handle := (SocketStreamHandle P).

Definition newHandle (p : P) (client : bool) : Handle := mkHandle p client newStreamBuffer Connecting.
Definition inState (s : SocketStreamState) (h : Handle) : bool := SocketStreamState_eqb (sk_state h) s.
Definition sk_bufferedAmount (h : Handle) : Z := sb_size (sk_buffer h).
Definition withBuffer (b : StreamBuffer) (h : Handle) : Handle := mkHandle (sk_platform h) (sk_hasClient h) b (sk_state h).
Definition withPlatform (p : P) (h : Handle) : Handle := mkHandle p (sk_hasClient h) (sk_buffer h) (sk_state h).
Definition withState (s : SocketStreamState) (h : Handle) : Handle := mkHandle (sk_platform h) (sk_hasClient h) (sk_buffer h) s.

(** What [didUpdateBufferedAmount] is called with, if there is a client. *)
Definition reportedAmount (h : Handle) : option Z := if sk_hasClient h then Some (sk_bufferedAmount h) else None.

(** [send(data, length)], [length] being the [int] of the caller's size: whether
    it returns [true], and the call of the client. *)
Definition sk_send (data : list Z) (length : Z) (h : Handle) : option (bool * option Z * Handle) :=
  if inState Connecting h || inState Closing h then Some (false, None, h)
  else if negb (sb_isEmpty (sk_buffer h)) then
    if size_t (sb_size (sk_buffer h) + length) >? sk_bufferSize then Some (false, None, h)
    else
      b ← sb_append data (size_t length) (sk_buffer h);
      let h := withBuffer b h in
      Some (true, reportedAmount h, h)
  else
    let '(bytesWritten, p) := if inState Open h then platformSend data length (sk_platform h) else (0, sk_platform h) in
    let h := withPlatform p h in
    if bytesWritten <? 0 then Some (false, None, h)
    else if size_t (sb_size (sk_buffer h) + length - bytesWritten) >? sk_bufferSize then Some (false, None, h)
    else if bytesWritten <? length then
      b ← sb_append (drop (Z.to_nat bytesWritten) data) (size_t (length - bytesWritten)) (sk_buffer h);
      let h := withBuffer b h in
      Some (true, reportedAmount h, h)
    else Some (true, None, h).

(** [close]: whether it goes on to [disconnect]. *)
Definition sk_close (h : Handle) : bool * Handle :=
  if inState Closed h then (false, h)
  else
    let h := withState Closing h in
    if negb (sb_isEmpty (sk_buffer h)) then (false, h) else (true, h).

(** [disconnect]; [platformClose] tells the client. *)
Definition sk_disconnect (h : Handle) : Handle := withState Closed (withPlatform (platformClose (sk_platform h)) h).

Definition setClient (client : bool) (h : Handle) : option Handle :=
  if negb client || (negb (sk_hasClient h) && inState Connecting h) then Some (mkHandle (sk_platform h) client (sk_buffer h) (sk_state h)) else None.

(** The loop of [sendPendingData]: [false] when the function returns it. *)
Fixpoint pendingLoop (fuel : nat) (h : Handle) : option (bool * Handle) :=
  match fuel with
  | O => None
  | S fuel =>
      data ← sb_firstBlockData (sk_buffer h);
      size ← sb_firstBlockSize (sk_buffer h);
      let '(bytesWritten, p) := platformSend data (int32 size) (sk_platform h) in
      let h := withPlatform p h in
      let pending := negb (bytesWritten =? int32 size) in
      if bytesWritten <=? 0 then Some (false, h)
      else if negb (size_t (sb_size (sk_buffer h) - bytesWritten) <=? sk_bufferSize) then None
      else
        b ← sb_consume bytesWritten (sk_buffer h);
        let h := withBuffer b h in
        if negb pending && negb (sb_isEmpty b) then pendingLoop fuel h else Some (true, h)
  end.

(** What [sendPendingData] returns, whether it goes on to [disconnect], and the
    call of the client. *)
Definition sendPendingData (h : Handle) : option (bool * bool * option Z * Handle) :=
  if negb (inState Open h) && negb (inState Closing h) then Some (false, false, None, h)
  else if sb_isEmpty (sk_buffer h) then Some (false, inState Closing h, None, h)
  else
    '(sent, h) ← pendingLoop (S (length (sb_buffer (sk_buffer h)))) h;
    if (sent : bool) then Some (true, false, reportedAmount h, h) else Some (false, false, None, h).

(** What the channel does with a handle: the size of its data becomes an [int]. *)
#[export] Instance handleOps : SocketStreamHandleOps Handle := {|
  handle_send := fun data h => sk_send data (int32 (sizeOfData data)) h;
  handle_close := sk_close;
  handle_disconnected := sk_disconnect;
  handle_bufferedAmount := sk_bufferedAmount
|}.
End Handle.
