(* ===== verification/SocketStreamHandleSpec.v ===== *)
(** * The socket stream handle keeps the order of its bytes

    A [StreamBuffer] is a queue of bytes; a handle hands to the system, in order,
    the bytes of the calls of [send] that it took; and a handle that is open
    over a system without errors takes what its buffer has room for, which is
    the promise [SocketAccepts] the channel relies on. *)

From S2P Require Import Prelude WebSocketFrame WebSocketChannel SocketStreamHandle.
Open Scope Z_scope.

(** ** [StreamBuffer] is a queue *)

(** The bytes that wait. *)
Definition sb_contents (b : StreamBuffer) : list Z := drop (Z.to_nat (sb_readOffset b)) (concat (sb_buffer b)).

Record sb_ok (b : StreamBuffer) : Prop := {
  ok_size : sb_size b = sizeOfData (sb_contents b);
  ok_blocks : Forall (fun block => 0 < sizeOfData block <= BlockSize) (sb_buffer b);
  ok_offset : match sb_buffer b with [] => sb_readOffset b = 0 | first :: _ => 0 <= sb_readOffset b < sizeOfData first end
}.

Lemma newStreamBuffer_ok : sb_ok newStreamBuffer.
Proof. split; [done|constructor|done]. Qed.

Lemma sizeOfData_app {A : Type} (xs ys : list A) : sizeOfData (xs ++ ys) = sizeOfData xs + sizeOfData ys.
Proof. unfold sizeOfData. rewrite length_app. lia. Qed.

Lemma sizeOfData_pos {A : Type} (xs : list A) : 0 <= sizeOfData xs.
Proof. unfold sizeOfData. lia. Qed.

(** A buffer has blocks exactly if it has bytes. *)
Lemma empty_no_blocks b : sb_ok b -> sb_size b = 0 -> sb_buffer b = [].
Proof.
  intros [HS HB HO] HE. destruct (sb_buffer b) as [|first rest] eqn:EB; [done|]. exfalso. unfold sb_contents in HS. rewrite EB in HS. cbn [concat] in HS.
  unfold sizeOfData in *. rewrite length_drop, length_app in HS. lia.
Qed.

Lemma concat_alter_last (blocks : list (list Z)) (last chunk : list Z) :
  concat (alter (fun block => block ++ chunk) (pred (length (blocks ++ [last]))) (blocks ++ [last])) = concat (blocks ++ [last]) ++ chunk.
Proof.
  rewrite length_app. cbn [length]. replace (pred (length blocks + 1)) with (length blocks + 0)%nat by lia.
  rewrite alter_app_r. cbn [alter list_alter]. by rewrite !concat_app, <- app_assoc; cbn [concat]; rewrite !app_nil_r.
Qed.

Lemma lastBlock_snoc blocks b : lastBlock (blocks ++ [b]) = b.
Proof. unfold lastBlock. by rewrite last_snoc. Qed.

(** The loop of [append] makes room in the last block, or a new one, and fills it. *)
Lemma appendBlocks_spec fuel : forall data blocks, (length data <= fuel)%nat -> Forall (fun block => 0 < sizeOfData block <= BlockSize) blocks ->
  exists blocks', appendBlocks fuel data blocks = Some blocks' /\ concat blocks' = concat blocks ++ data /\
    Forall (fun block => 0 < sizeOfData block <= BlockSize) blocks' /\
    (forall first rest, blocks = first :: rest -> exists first' rest', blocks' = first' :: rest' /\ sizeOfData first <= sizeOfData first').
Proof.
  induction fuel as [|fuel IH]; intros data blocks HL HB; (destruct data as [|d data]; [exists blocks; cbn [appendBlocks]; rewrite app_nil_r; split_and!; try done; intros; by do 2 eexists|]).
  { cbn in HL. lia. }
  cbn [appendBlocks]. set (blocks1 := if _ || _ then _ else _).
  assert (H1 : exists init last, blocks1 = init ++ [last] /\ concat blocks1 = concat blocks /\ sizeOfData last < BlockSize /\
    Forall (fun block => 0 < sizeOfData block <= BlockSize) init /\ (forall first rest, blocks = first :: rest -> exists rest', blocks1 = first :: rest')).
  { unfold blocks1. destruct (decide (blocks = [])) as [->|Hne].
    { exists [], []. split_and!; try done. }
    destruct (exists_last Hne) as (init & last & ->). rewrite lastBlock_snoc, length_app. cbn [length]. rewrite Nat.add_1_r. cbn [Nat.eqb orb].
    apply Forall_app in HB as [HB1 HB2%Forall_inv]. destruct (Z.eqb_spec (sizeOfData last) BlockSize) as [E|E].
    - exists (init ++ [last]), []. split_and!; [done|by rewrite concat_app; cbn [concat]; rewrite !app_nil_r|done|apply Forall_app; split; [done|by apply Forall_singleton]|].
      intros first rest ->. by eexists.
    - exists init, last. split_and!; [done|done|lia|done|]. intros first rest ->. by eexists. }
  clearbody blocks1. destruct H1 as (init & last & -> & EC & HLt & HI & HF). rewrite lastBlock_snoc.
  set (n := Z.to_nat (Z.min (BlockSize - sizeOfData last) (sizeOfData (d :: data)))).
  assert (Hn : (1 <= n <= length (d :: data))%nat /\ Z.of_nat n <= BlockSize - sizeOfData last) by (unfold n, sizeOfData in *; cbn [length]; lia).
  set (blocks2 := alter _ _ _).
  assert (E2 : blocks2 = init ++ [last ++ take n (d :: data)]).
  { unfold blocks2. rewrite length_app. cbn [length]. replace (pred (length init + 1)) with (length init + 0)%nat by lia. by rewrite alter_app_r. }
  assert (H2 : Forall (fun block => 0 < sizeOfData block <= BlockSize) blocks2).
  { rewrite E2. apply Forall_app. split; [done|]. apply Forall_singleton. rewrite sizeOfData_app. unfold sizeOfData in *. rewrite length_take. lia. }
  destruct (IH (drop n (d :: data)) blocks2) as (blocks' & EB & EC' & HB' & HF'); [rewrite length_drop; cbn [length] in *; lia|done|].
  exists blocks'. split_and!; [exact EB| |done|].
  - rewrite EC', E2, concat_app. cbn [concat]. rewrite app_nil_r, <- EC, concat_app. cbn [concat]. rewrite app_nil_r, <- !app_assoc. by rewrite take_drop.
  - intros first rest E. destruct (HF first rest E) as (rest' & EI). destruct init as [|i init].
    + cbn [app] in EI. injection EI as <- _. destruct (HF' _ _ E2) as (first' & rest'' & -> & HLe). exists first', rest''. split; [done|]. rewrite sizeOfData_app in HLe. pose proof (sizeOfData_pos (take n (d :: data))). lia.
    + cbn [app] in EI. injection EI as <- _. destruct (HF' _ _ E2) as (first' & rest'' & -> & HLe). by exists first', rest''.
Qed.

(** Appending. *)
Lemma sb_append_spec data b : sb_ok b -> exists b', sb_append data (sizeOfData data) b = Some b' /\ sb_ok b' /\ sb_contents b' = sb_contents b ++ data.
Proof.
  intros HB. unfold sb_append. destruct (Z.eqb_spec (sizeOfData data) 0) as [E|E].
  { exists b. destruct data; [|unfold sizeOfData in E; cbn in E; lia]. by rewrite app_nil_r. }
  rewrite (proj2 (Z.ltb_ge _ _)) by lia. rewrite take_ge by (unfold sizeOfData; lia).
  pose proof HB as [HS HF HO]. destruct (appendBlocks_spec (length data) data (sb_buffer b) ltac:(lia) HF) as (blocks & -> & EC & HF' & HFirst).
  cbn [mbind option_bind]. eexists. split; [reflexivity|].
  assert (HCt : drop (Z.to_nat (sb_readOffset b)) (concat blocks) = sb_contents b ++ data).
  { unfold sb_contents. rewrite EC, drop_app_le; [done|]. destruct (sb_buffer b) as [|first rest]; [rewrite HO; cbn; lia|].
    cbn [concat]. rewrite length_app. unfold sizeOfData in HO. lia. }
  split; [|exact HCt]. split; unfold sb_contents in *; cbn [sb_size sb_readOffset sb_buffer].
  - rewrite HCt, sizeOfData_app. by rewrite HS.
  - done.
  - destruct (sb_buffer b) as [|first rest].
    + rewrite HO. destruct blocks as [|block blocks]; [done|]. apply Forall_cons in HF' as [HF' _]. lia.
    + destruct (HFirst first rest eq_refl) as (first' & rest' & -> & HLe). lia.
Qed.

(** The first block. *)
Lemma sb_first b : sb_ok b -> sb_size b <> 0 -> exists data rest, sb_firstBlockData b = Some data /\ sb_firstBlockSize b = Some (sizeOfData data) /\
  sb_contents b = data ++ rest /\ 0 < sizeOfData data <= BlockSize.
Proof.
  intros [HS HB HO] HE. unfold sb_firstBlockData, sb_firstBlockSize, sb_contents in *. rewrite (proj2 (Z.eqb_neq _ _)) by done.
  destruct (sb_buffer b) as [|first rest]; [by rewrite HS in HE; cbn in HE; rewrite drop_nil in HE|]. apply Forall_cons in HB as [HB _].
  exists (drop (Z.to_nat (sb_readOffset b)) first), (concat rest). assert (HL : (Z.to_nat (sb_readOffset b) <= length first)%nat) by (unfold sizeOfData in HO; lia).
  assert (EL : sizeOfData (drop (Z.to_nat (sb_readOffset b)) first) = sizeOfData first - sb_readOffset b) by (unfold sizeOfData in *; rewrite length_drop; lia).
  split_and!; [done|by rewrite EL|cbn [concat]; by apply drop_app_le|lia|lia].
Qed.

(** Taking bytes off it. *)
Lemma sb_consume_spec n b : sb_ok b -> 0 < n -> (exists data, sb_firstBlockData b = Some data /\ n <= sizeOfData data) ->
  exists b', sb_consume n b = Some b' /\ sb_ok b' /\ sb_contents b' = drop (Z.to_nat n) (sb_contents b).
Proof.
  intros [HS HB HO] Hn (data & ED & HL). unfold sb_firstBlockData in ED. destruct (Z.eqb_spec (sb_size b) 0) as [E0|E0]; [injection ED as <-; change (n <= 0) in HL; lia|].
  unfold sb_consume, sb_contents in *. rewrite (proj2 (Z.eqb_neq _ _)) by done. destruct (sb_buffer b) as [|first rest]; [done|]. injection ED as <-.
  apply Forall_cons in HB as [HB1 HB2]. cbn [concat] in *.
  assert (HL' : sb_readOffset b + n <= sizeOfData first) by (unfold sizeOfData in *; rewrite length_drop in HL; lia).
  assert (HSz : n <= sb_size b) by (rewrite HS; unfold sizeOfData in *; rewrite length_drop, length_app; lia).
  rewrite (proj2 (Z.leb_le n _)) by done. rewrite (proj2 (Z.leb_le _ _)) by done. cbn [negb].
  assert (EL : sizeOfData (drop (Z.to_nat n) (drop (Z.to_nat (sb_readOffset b)) (first ++ concat rest))) = sb_size b - n) by (rewrite HS in HSz |- *; clear -Hn HSz; unfold sizeOfData in *; rewrite !length_drop in *; lia).
  rewrite drop_drop, <- Z2Nat.inj_add in EL |- * by lia. destruct (Z.geb_spec (sb_readOffset b + n) (sizeOfData first)) as [HG|HG].
  - eexists. split; [reflexivity|]. cbn [sb_readOffset sb_buffer]. assert (EN : Z.to_nat (sb_readOffset b + n) = length first) by (unfold sizeOfData in *; lia).
    rewrite EN, drop_app_length in *. split; [|done]. split; cbn [sb_size sb_readOffset sb_buffer]; [unfold sb_contents; cbn [sb_readOffset sb_buffer]; change (Z.to_nat 0) with 0%nat; by rewrite drop_0, EL|done|].
    destruct rest as [|block rest]; [done|]. apply Forall_cons in HB2 as [HB2 _]. lia.
  - eexists. split; [reflexivity|]. cbn [sb_readOffset sb_buffer concat]. split; [|done].
    split; cbn [sb_size sb_readOffset sb_buffer]; [unfold sb_contents; cbn [sb_readOffset sb_buffer concat]; by rewrite EL|by apply Forall_cons|lia].
Qed.

(** ** The system *)

(** What [platformSend] promises: it takes a part of the data from its start,
    or none and reports an error; [written] are the bytes it has taken. *)
Class PlatformWrites (P : Type) `{PlatformSocket P} := {
  written : P -> list Z;
  platformSend_written data p : let '(n, p') := platformSend data (sizeOfData data) p in
    n <= sizeOfData data /\ written p' = written p ++ take (Z.to_nat n) data;
  platformClose_written p : written (platformClose p) = written p
}.

(** A system that reports no error once it is [up]. *)
Class PlatformUp (P : Type) `{PlatformSocket P} := {
  up : P -> Prop;
  platformSend_up data p : up p -> let '(n, p') := platformSend data (sizeOfData data) p in 0 <= n /\ up p'
}.

Lemma sk_int32_small z : 0 <= z < 2 ^ 31 -> int32 z = z.
Proof. intros HZ. unfold int32. rewrite Z.mod_small by lia. lia. Qed.

Lemma size_t_small z : 0 <= z < 2 ^ 64 -> size_t z = z.
Proof. intros HZ. unfold size_t. by rewrite Z.mod_small. Qed.

Lemma sb_isEmpty_iff b : sb_ok b -> (if sb_isEmpty b then sb_contents b = [] else sb_size b <> 0).
Proof.
  intros HB. unfold sb_isEmpty. destruct (Z.eqb_spec (sb_size b) 0) as [E|E]; [|done]. unfold sb_contents. rewrite (empty_no_blocks b HB E). apply drop_nil.
Qed.

(** ** What a call of [send] does *)

Section Sending.
Context {P : Type} `{PlatformSocket P} `{!PlatformWrites P}.
Implicit Types h : SocketStreamHandle P.

(** Between calls: the buffer is a queue and within its limit. *)
Record sk_ok h : Prop := {
  ok_buffer : sb_ok (sk_buffer h);
  ok_limit : sb_size (sk_buffer h) <= sk_bufferSize
}.

Lemma sk_size h : sk_ok h -> sb_size (sk_buffer h) = sizeOfData (sb_contents (sk_buffer h)) /\ 0 <= sb_size (sk_buffer h) <= sk_bufferSize.
Proof. intros [HB HL]. pose proof (ok_size _ HB) as HS. rewrite HS in HL |- *. pose proof (sizeOfData_pos (sb_contents (sk_buffer h))). lia. Qed.

(** Bytes are kept behind those that wait. *)
Lemma keeps_behind data h : sk_ok h -> sb_size (sk_buffer h) + sizeOfData data <= sk_bufferSize ->
  exists b, sb_append data (size_t (sizeOfData data)) (sk_buffer h) = Some b /\ sk_ok (withBuffer b h) /\
    sb_contents b = sb_contents (sk_buffer h) ++ data.
Proof.
  intros HK HL. pose proof (sizeOfData_pos data). pose proof (sk_size h HK) as [_ HS].
  rewrite size_t_small by (unfold sk_bufferSize in *; lia). destruct (sb_append_spec data (sk_buffer h) (ok_buffer h HK)) as (b & E & HB & EC).
  exists b. split_and!; [done| |done]. split; [done|]. cbn [withBuffer sk_buffer]. rewrite (ok_size b HB), EC, sizeOfData_app.
  by rewrite <- (proj1 (sk_size h HK)).
Qed.

(** What becomes of data that is not larger than the buffer.  It is refused
    because of the state, of the room or of an error, and then nothing has
    happened to the bytes; or it is taken, a part by the system and the rest
    behind what waits. *)
Definition sendResult (data : list Z) (h : SocketStreamHandle P) (r : bool * option Z * SocketStreamHandle P) : Prop :=
  let '(sent, amount, h') := r in
  sk_ok h' /\ sk_state h' = sk_state h /\ sk_hasClient h' = sk_hasClient h /\
  if sent : bool then
    (sk_platform h' = sk_platform h /\ sb_contents (sk_buffer h') = sb_contents (sk_buffer h) ++ data) \/
    (sk_state h = Open /\ sb_contents (sk_buffer h) = [] /\ exists n, platformSend data (sizeOfData data) (sk_platform h) = (n, sk_platform h') /\
      0 <= n /\ sb_contents (sk_buffer h') = drop (Z.to_nat n) data)
  else sk_buffer h' = sk_buffer h /\
    ((sk_platform h' = sk_platform h /\ (sk_state h = Connecting \/ sk_state h = Closing \/ sk_bufferSize < sb_size (sk_buffer h) + sizeOfData data)) \/ exists n, platformSend data (sizeOfData data) (sk_platform h) = (n, sk_platform h') /\ n < 0).

Lemma send_spec data h : sk_ok h -> sizeOfData data <= sk_bufferSize -> exists r, handle_send data h = Some r /\ sendResult data h r.
Proof.
  intros HK HL. pose proof (sizeOfData_pos data) as HP. pose proof (sk_size h HK) as [HS1 HS2]. cbn [handle_send handleOps].
  rewrite sk_int32_small by (unfold sk_bufferSize in *; lia). unfold sk_send.
  destruct (inState Connecting h || inState Closing h) eqn:ESt.
  { eexists. split; [reflexivity|]. split_and!; try done. left. split; [done|]. unfold inState in ESt. destruct (sk_state h); auto; done. }
  clear ESt.
  pose proof (sb_isEmpty_iff _ (ok_buffer h HK)) as HE. destruct (sb_isEmpty (sk_buffer h)) eqn:EE; cbn [negb].
  2: { rewrite size_t_small by (unfold sk_bufferSize in *; lia). destruct (Z.gtb_spec (sb_size (sk_buffer h) + sizeOfData data) sk_bufferSize) as [HG|HG].
    - eexists. split; [reflexivity|]. split_and!; try done. left. split; [done|]. right. right. lia.
    - destruct (keeps_behind data h HK HG) as (b & -> & HK' & EC). eexists. split; [reflexivity|]. split_and!; try done. by left. }
  assert (E0 : sb_size (sk_buffer h) = 0) by by rewrite HS1, HE.
  assert (Hrest : forall n p, n <= sizeOfData data -> sk_state h = Open \/ n = 0 -> 
    (sk_state h = Open -> platformSend data (sizeOfData data) (sk_platform h) = (n, p)) -> (sk_state h <> Open -> p = sk_platform h) ->
    exists r, (if n <? 0 then Some (false, None, withPlatform p h)
     else if size_t (sb_size (sk_buffer (withPlatform p h)) + sizeOfData data - n) >? sk_bufferSize then Some (false, None, withPlatform p h)
     else if n <? sizeOfData data then
       b ← sb_append (drop (Z.to_nat n) data) (size_t (sizeOfData data - n)) (sk_buffer (withPlatform p h));
       Some (true, reportedAmount (withBuffer b (withPlatform p h)), withBuffer b (withPlatform p h))
     else Some (true, None, withPlatform p h)) = Some r /\ sendResult data h r).
  { intros n p Hn HSt HO HNO. assert (HK1 : sk_ok (withPlatform p h)) by (destruct HK; by split).
    destruct (Z.ltb_spec n 0) as [Hneg|Hneg].
    { eexists. split; [reflexivity|]. split_and!; try done. right. exists n. split; [|done]. apply HO. destruct HSt; [done|lia]. }
    cbn [withPlatform sk_buffer]. rewrite E0, size_t_small by (unfold sk_bufferSize in *; lia). rewrite Z.gtb_ltb, (proj2 (Z.ltb_ge _ _)) by lia.
    assert (HRes : forall h', sk_ok h' -> sk_state h' = sk_state h -> sk_hasClient h' = sk_hasClient h -> sk_platform h' = p ->
      sb_contents (sk_buffer h') = drop (Z.to_nat n) data -> forall amount, sendResult data h (true, amount, h')).
    { intros h' K1 K2 K3 K4 K5 amount. split_and!; try done. destruct (sk_state h) eqn:EState; try (left; rewrite K4, HNO, HE by done; split; [done|];
        destruct HSt as [|HSt]; [done|]; by rewrite K5, HSt). right. split_and!; try done. exists n. rewrite K4, HO by done. by split_and!. }
    destruct (Z.ltb_spec n (sizeOfData data)) as [HLt|HLt].
    - assert (ES : sizeOfData data - n = sizeOfData (drop (Z.to_nat n) data)) by (unfold sizeOfData in *; rewrite length_drop; lia). rewrite ES.
      destruct (keeps_behind (drop (Z.to_nat n) data) (withPlatform p h) HK1) as (b & EB & HK' & EC); [cbn [withPlatform sk_buffer]; lia|].
      cbn [withPlatform sk_buffer] in EB. rewrite EB. eexists. split; [reflexivity|]. apply HRes; try done.
      cbn [withBuffer withPlatform sk_buffer] in EC |- *. by rewrite EC, HE.
    - eexists. split; [reflexivity|]. apply HRes; try done. cbn [withPlatform sk_buffer]. rewrite HE. symmetry. apply nil_length_inv.
      rewrite length_drop. unfold sizeOfData in *. lia. }
  destruct (inState Open h) eqn:EO.
  - assert (ESt : sk_state h = Open) by (unfold inState in EO; by destruct (sk_state h)).
    destruct (platformSend data (sizeOfData data) (sk_platform h)) as [n p] eqn:EP. pose proof (platformSend_written data (sk_platform h)) as HW. rewrite EP in HW.
    apply Hrest; [apply HW|by left|done|by rewrite ESt].
  - apply Hrest; [lia|by right|intros ESt; unfold inState in EO; by rewrite ESt in EO|done].
Qed.

(** ** The rest of the handle *)

(** All bytes that were taken: those the system has, and those that wait. *)
Definition trail h : list Z := written (sk_platform h) ++ sb_contents (sk_buffer h).

Lemma send_trail data h r : sendResult data h r -> trail (snd r) = trail h ++ (if fst (fst r) then data else []).
Proof.
  destruct r as [[[|] amount] h']; cbn [fst snd]; intros (_ & _ & _ & HR); unfold trail.
  - destruct HR as [[-> ->]|(_ & HE & n & EP & Hn & ->)]; [by rewrite app_assoc|].
    pose proof (platformSend_written data (sk_platform h)) as HW. rewrite EP in HW. destruct HW as [_ ->]. by rewrite HE, app_nil_r, <- app_assoc, take_drop.
  - rewrite app_nil_r. destruct HR as [-> [[-> _]|(n & EP & Hn)]]; [done|].
    pose proof (platformSend_written data (sk_platform h)) as HW. rewrite EP in HW. destruct HW as [_ ->]. by rewrite (Z2Nat.nonpos n), app_nil_r by lia.
Qed.

Lemma consume_block data b b' : sb_ok b -> sb_firstBlockData b = Some data -> sb_size b <> 0 -> sb_consume (sizeOfData data) b = Some b' ->
  sb_buffer b' = tail (sb_buffer b).
Proof.
  intros [_ HB HO] ED HE. unfold sb_firstBlockData in ED. rewrite (proj2 (Z.eqb_neq _ _)) in ED by done.
  unfold sb_consume. rewrite (proj2 (Z.eqb_neq _ _)) by done. destruct (negb _); [done|]. destruct (sb_buffer b) as [|first rest]; [done|]. injection ED as <-.
  destruct (negb _); [done|]. rewrite (proj2 (Z.geb_le _ _)); [by intros [= <-]|]. unfold sizeOfData in *. rewrite length_drop. lia.
Qed.

(** The pending data goes out in order, and the loop ends. *)
Lemma pendingLoop_spec fuel : forall h, sk_ok h -> sb_size (sk_buffer h) <> 0 -> (length (sb_buffer (sk_buffer h)) < fuel)%nat ->
  exists sent h', pendingLoop fuel h = Some (sent, h') /\ sk_ok h' /\ trail h' = trail h.
Proof.
  induction fuel as [|fuel IH]; intros h HK HE HF; [lia|]. pose proof HK as [HB HL]. destruct (sb_first _ HB HE) as (data & rest & ED & ESz & EC & HData).
  cbn [pendingLoop]. rewrite ED, ESz. cbn [mbind option_bind]. rewrite sk_int32_small by (unfold BlockSize in *; lia).
  destruct (platformSend data (sizeOfData data) (sk_platform h)) as [n p] eqn:EP.
  pose proof (platformSend_written data (sk_platform h)) as HW. rewrite EP in HW. destruct HW as [Hn HW].
  destruct (Z.leb_spec n 0) as [H0|H0].
  { exists false, (withPlatform p h). split_and!; [done|by destruct HK; split|]. unfold trail. cbn [withPlatform sk_platform sk_buffer]. rewrite HW.
    rewrite (Z2Nat.nonpos n) by lia. cbn [take]. by rewrite app_nil_r. }
  pose proof (sk_size h HK) as [HS1 HS2]. assert (HSize : n <= sb_size (sk_buffer h)) by (rewrite HS1, EC, sizeOfData_app; pose proof (sizeOfData_pos rest); lia).
  cbn [withPlatform sk_buffer]. rewrite size_t_small, (proj2 (Z.leb_le _ _)) by (unfold sk_bufferSize in *; lia). cbn [negb].
  destruct (sb_consume_spec n (sk_buffer h) HB H0) as (b & EB & HB' & EC'); [exists data; by split|]. rewrite EB. cbn [mbind option_bind].
  set (h1 := withBuffer b (withPlatform p h)).
  assert (HT : trail h1 = trail h).
  { unfold trail, h1. cbn [withBuffer withPlatform sk_platform sk_buffer]. rewrite HW, EC', <- app_assoc. f_equal.
    rewrite EC. rewrite drop_app_le by (unfold sizeOfData in *; lia). rewrite app_assoc. by rewrite take_drop. }
  assert (HK1 : sk_ok h1).
  { split; [done|]. unfold h1. cbn [withBuffer withPlatform sk_buffer]. rewrite (ok_size b HB'), EC'. unfold sizeOfData in *. rewrite length_drop. lia. }
  destruct (negb (negb (n =? sizeOfData data)) && negb (sb_isEmpty b)) eqn:EGo; [|by exists true, h1].
  apply andb_true_iff in EGo as [EG1%negb_true_iff%negb_false_iff%Z.eqb_eq EG2]. subst n.
  pose proof (consume_block data (sk_buffer h) b HB ED HE EB) as ETl.
  destruct (IH h1 HK1) as (sent & h' & EL & HK' & HT').
  - pose proof (sb_isEmpty_iff b HB') as HX. destruct (sb_isEmpty b); [done|exact HX].
  - unfold h1. cbn [withBuffer sk_buffer]. rewrite ETl. destruct (sb_buffer (sk_buffer h)) as [|block blocks] eqn:EBl; [|cbn [tail length] in *; lia].
    unfold sb_firstBlockData in ED. rewrite (proj2 (Z.eqb_neq _ _)), EBl in ED by done. done.
  - exists sent, h'. split_and!; [done|done|by rewrite HT'].
Qed.

Lemma disconnect_ok h : sk_ok h -> sk_ok (sk_disconnect h) /\ trail (sk_disconnect h) = trail h.
Proof. intros []. split; [by split|]. unfold trail, sk_disconnect. cbn [withState withPlatform sk_platform sk_buffer]. by rewrite platformClose_written. Qed.

Lemma sendPendingData_spec h : sk_ok h -> exists result disconnects amount h', sendPendingData h = Some (result, disconnects, amount, h') /\ sk_ok h' /\ trail h' = trail h.
Proof.
  intros HK. unfold sendPendingData. destruct (_ && _); [by exists false, false, None, h|].
  destruct (sb_isEmpty (sk_buffer h)) eqn:EE; [by eexists _, _, _, h|]. pose proof (sb_isEmpty_iff _ (ok_buffer h HK)) as HE. rewrite EE in HE.
  destruct (pendingLoop_spec (S (length (sb_buffer (sk_buffer h)))) h HK HE ltac:(lia)) as (sent & h' & -> & HK' & HT). cbn [mbind option_bind].
  destruct sent; by eexists _, _, _, h'.
Qed.

(** ** Sessions *)

(** The calls of a handle: by its client, and by the port when the socket is
    connected and when it takes more data. *)
Inductive HandleCall :=
| CallOpened
| CallSend (data : list Z)
| CallSendPendingData
| CallClose
| CallDisconnect.

(** A call on a handle; the second component are the bytes that [send] took. *)
Definition handleCall (call : HandleCall) (s : SocketStreamHandle P * list Z) : option (SocketStreamHandle P * list Z) :=
  let '(h, taken) := s in
  match call with
  | CallOpened => Some (if inState Connecting h then withState Open h else h, taken)
  | CallSend data => '(sent, _, h) ← handle_send data h; Some (h, if (sent : bool) then taken ++ data else taken)
  | CallSendPendingData => '(_, disconnects, _, h) ← sendPendingData h; Some (if (disconnects : bool) then sk_disconnect h else h, taken)
  | CallClose => let '(disconnects, h) := sk_close h in Some (if disconnects then sk_disconnect h else h, taken)
  | CallDisconnect => Some (sk_disconnect h, taken)
  end.

Fixpoint handleCalls (calls : list HandleCall) (s : SocketStreamHandle P * list Z) : option (SocketStreamHandle P * list Z) :=
  match calls with
  | [] => Some s
  | call :: calls => s ← handleCall call s; handleCalls calls s
  end.

(** No call sends more than the buffer holds. *)
Definition callFits (call : HandleCall) : Prop := match call with CallSend data => sizeOfData data <= sk_bufferSize | _ => True end.

Lemma handleCall_spec call h taken : callFits call -> sk_ok h ->
  exists h' more, handleCall call (h, taken) = Some (h', taken ++ more) /\ sk_ok h' /\ trail h' = trail h ++ more.
Proof.
  intros HF HK. assert (Hsame : forall h', sk_ok h' -> trail h' = trail h -> exists h1 more, Some (h', taken) = Some (h1, taken ++ more) /\ sk_ok h1 /\ trail h1 = trail h ++ more).
  { intros h' HK' HT. exists h', []. by rewrite !app_nil_r. }
  destruct call as [|data| | |]; cbn [handleCall].
  - apply Hsame; [|by destruct (inState Connecting h)]. destruct HK. by destruct (inState Connecting h).
  - destruct (send_spec data h HK HF) as (r & -> & HR). pose proof (send_trail data h r HR) as HT. destruct r as [[sent amount] h']. cbn [mbind option_bind fst snd] in *.
    exists h', (if sent then data else []). split_and!; [by destruct sent; [|rewrite app_nil_r]|apply HR|exact HT].
  - destruct (sendPendingData_spec h HK) as (result & disconnects & amount & h' & -> & HK' & HT). cbn [mbind option_bind].
    destruct (disconnect_ok h' HK') as [HK2 HT2]. destruct disconnects; apply Hsame; try done. by rewrite HT2.
  - unfold sk_close. assert (HKC : sk_ok (withState Closing h)) by (destruct HK; by split). destruct (disconnect_ok _ HKC) as [HK2 HT2].
    destruct (inState Closed h); [by apply Hsame|]. destruct (negb _); by apply Hsame.
  - destruct (disconnect_ok h HK). by apply Hsame.
Qed.

Lemma handleCalls_spec calls : forall h taken, Forall callFits calls -> sk_ok h ->
  exists h' more, handleCalls calls (h, taken) = Some (h', taken ++ more) /\ sk_ok h' /\ trail h' = trail h ++ more.
Proof.
  induction calls as [|call calls IH]; intros h taken HF HK; cbn [handleCalls]; [exists h, []; by rewrite !app_nil_r|].
  apply Forall_cons in HF as [HF1 HF2]. destruct (handleCall_spec call h taken HF1 HK) as (h1 & m1 & -> & HK1 & HT1). cbn [mbind option_bind].
  destruct (IH h1 (taken ++ m1) HF2 HK1) as (h' & m2 & -> & HK' & HT'). exists h', (m1 ++ m2). by rewrite HT', HT1, <- !app_assoc.
Qed.

(** C37: the bytes of a socket keep their order.  Whatever calls a client and the
    port make on a handle, in any order, as long as no call of [send] has more
    data than the buffer of 100 megabytes holds, and whatever part of its data
    the system takes each time or refuses with an error: no assertion of the
    handle and of its buffer fails and nothing is read behind the data; the bytes the system
    has and those that wait are, one after the other, exactly the data of the
    calls that returned [true]; and the amount reported is the number of bytes
    that wait, at most the size of the buffer. *)
Theorem handle_sends_in_order (p : P) (client : bool) (calls : list HandleCall) :
  Forall callFits calls ->
  exists h taken, handleCalls calls (newHandle p client, []) = Some (h, taken) /\
    written (sk_platform h) ++ sb_contents (sk_buffer h) = written p ++ taken /\
    sk_bufferedAmount h = sizeOfData (sb_contents (sk_buffer h)) /\ sk_bufferedAmount h <= sk_bufferSize.
Proof.
  intros HF. assert (HK : sk_ok (newHandle p client)) by (split; [apply newStreamBuffer_ok|done]).
  destruct (handleCalls_spec calls (newHandle p client) [] HF HK) as (h & taken & E & HK' & HT). exists h, taken. pose proof (sk_size h HK') as [HS1 HS2].
  split_and!; [exact E| |exact HS1|apply HS2]. unfold trail in HT. cbn [newHandle sk_platform sk_buffer] in HT. by rewrite HT, app_nil_r.
Qed.
End Sending.

(** ** What the channel relies on *)

Section Accepting.
Context {P : Type} `{PlatformSocket P} `{!PlatformWrites P} `{!PlatformUp P}.

(** An open handle over a system that is up, with room for [n] bytes. *)
Definition handleAccepts (n : Z) (h : SocketStreamHandle P) : Prop :=
  sk_state h = Open /\ sk_ok h /\ up (sk_platform h) /\ sb_size (sk_buffer h) + n <= sk_bufferSize.

Lemma handleAccepts_send n data h : handleAccepts n h -> sizeOfData data <= n ->
  exists amount h', handle_send data h = Some (true, amount, h') /\ handleAccepts (n - sizeOfData data) h'.
Proof.
  intros (HO & HK & HU & HR) HL. pose proof (sk_size h HK) as [HS1 HS2]. destruct (send_spec data h HK ltac:(lia)) as (r & E & HRes).
  pose proof (platformSend_up data (sk_platform h) HU) as HUp.
  destruct r as [[[|] amount] h']; destruct HRes as (HK' & HSt & HCl & HRes).
  - exists amount, h'. split; [done|]. pose proof (sk_size h' HK') as [HS1' HS2']. split_and!; [by rewrite HSt|done| |]; destruct HRes as [[EP EC]|(_ & HE & n' & EP & Hn & EC)].
    + by rewrite EP.
    + rewrite EP in HUp. apply HUp.
    + rewrite HS1', EC, sizeOfData_app, <- HS1. lia.
    + rewrite HS1', EC. unfold sizeOfData in *. rewrite length_drop. lia.
  - exfalso. destruct HRes as [_ [[_ [HX|[HX|HX]]]|(n' & EP & Hn)]]; [by rewrite HO in HX|by rewrite HO in HX|lia|]. rewrite EP in HUp. lia.
Qed.

#[export] Instance handleSocketAccepts : SocketAccepts (SocketStreamHandle P).
Proof.
  refine {| accepts := handleAccepts |}.
  - intros m n h (HO & HK & HU & HR) HL. split_and!; try done. lia.
  - exact handleAccepts_send.
Defined.
End Accepting.

(** ** A system for examples: it takes at most three bytes at a time *)

Module SampleSocket.
#[export] Instance slowSocket : PlatformSocket (list Z) := {|
  platformSend := fun data length sent => (Z.min 3 length, sent ++ take (Z.to_nat (Z.min 3 length)) data);
  platformClose := fun sent => sent
|}.
#[export] Instance slowSocket_writes : PlatformWrites (list Z).
Proof.
  refine {| written := fun sent => sent |}; [|done]. intros data p. cbn [platformSend slowSocket]. split; [lia|done].
Defined.
#[export] Instance slowSocket_up : PlatformUp (list Z).
Proof. refine {| up := fun _ => True |}. intros data p _. cbn [platformSend slowSocket]. pose proof (sizeOfData_pos data). split; [lia|done]. Defined.

(** A handle that is connected. *)
Definition openHandle : SocketStreamHandle (list Z) := withState Open (newHandle [] true).

Lemma openHandle_accepts n : n <= sk_bufferSize -> accepts n openHandle.
Proof. intros HN. split_and!; [done|split; [apply newStreamBuffer_ok|done]|done|exact HN]. Qed.
End SampleSocket.
Import SampleSocket.

(** Two messages, of which five bytes wait until the socket takes more. *)
Lemma handle_sends_in_order_witness :
  exists h taken, handleCalls [CallSend [9]; CallOpened; CallSend [1; 2; 3; 4]; CallSend [5; 6; 7; 8]; CallSendPendingData; CallClose] (newHandle [] true, []) = Some (h, taken) /\
    (written (sk_platform h) ++ sb_contents (sk_buffer h) = taken /\ sk_bufferedAmount h <= sk_bufferSize) /\ sk_platform h = [1; 2; 3; 4; 5; 6] /\ taken = [1; 2; 3; 4; 5; 6; 7; 8].
Proof.
  destruct (handle_sends_in_order (P := list Z) [] true [CallSend [9]; CallOpened; CallSend [1; 2; 3; 4]; CallSend [5; 6; 7; 8]; CallSendPendingData; CallClose])
    as (h & taken & E & HT & HA & HL).
  - repeat apply Forall_cons_2; try apply Forall_nil_2; vm_compute; done.
  - exists h, taken. split; [exact E|]. split; [split; [exact HT|exact HL]|]. vm_compute in E. injection E as <- <-. by split.
Defined.

(** ** What it does not do *)

(** A handle that is closed keeps data that is never sent, and says that it was
    taken. *)
Theorem closed_handle_takes_data :
  exists h, handleCalls [CallOpened; CallClose; CallSend [1]] (newHandle [] true, []) = Some (h, [1]) /\ sk_state h = Closed /\
    sk_platform h = [] /\ sk_bufferedAmount h = 1.
Proof. eexists. split; [by vm_compute|]. by vm_compute. Qed.

(** Data larger than the buffer is refused after a part of it was sent. *)
Theorem large_data_partly_sent (data : list Z) : sk_bufferSize + 3 < sizeOfData data < 2 ^ 31 ->
  exists h, handle_send data openHandle = Some (false, None, h) /\ sk_platform h = take 3 data.
Proof.
  intros HL. cbn [handle_send handleOps]. rewrite sk_int32_small by (unfold sk_bufferSize in *; lia). unfold sk_send. cbn [openHandle withState newHandle inState SocketStreamState_eqb sk_state orb
    sk_buffer sb_isEmpty newStreamBuffer sb_size Z.eqb negb platformSend slowSocket sk_platform]. rewrite Z.min_l by (unfold sk_bufferSize in *; lia).
  cbn [Z.ltb Z.compare Pos.compare Pos.compare_cont withPlatform sk_buffer sb_size]. change (3 <? 0) with false. cbv iota. change (sb_size _) with 0. rewrite size_t_small by (unfold sk_bufferSize in *; lia).
  rewrite Z.gtb_ltb, (proj2 (Z.ltb_lt _ _)) by lia. eexists. by split.
Qed.
