(* ===== verification/WebSocketLifecycle.v ===== *)
(** * The life of a web socket channel

    What its client can rely on, whatever is called in whatever order. *)

From S2P Require Import Prelude TextCodecUTF8 UnicodeUTF8 WebSocketFrame WebSocketChannel.
Open Scope Z_scope.

(** Everything that calls the channel: the client, the socket handle, the timers
    and the loader of blobs. *)
Inductive Call :=
  | callSendString (message : option (bool * list UChar))
  | callSendArrayBuffer (binaryData : list Z) (byteOffset byteLength : nat)
  | callSendBlob
  | callSendBytes (data : list Z)
  | callClose (code : Z) (reason : option (bool * list UChar))
  | callFail (reason : string)
  | callDisconnect
  | callSuspend
  | callResume
  | callDidOpenSocketStream
  | callDidReceiveSocketStreamData (data : list Z)
  | callDidUpdateBufferedAmount (bufferedAmount : Z)
  | callDidCloseSocketStream
  | callDidFailSocketStream
  | callResumeTimerFired
  | callClosingTimerFired
  | callDidFinishLoading (result : list Z)
  | callDidFail (errorCode : Z).

Section Lifecycle.
Context {H K D : Type} `{WebSocketHandshakeOps H} `{SocketStreamHandleOps K} `{ZlibOps D} `{MaskingKeys}.
Variable address : Z.

Abbreviation Chan := (Channel H K D).
Abbreviation Op := (@M H K D).

Definition performCall (call : Call) : Op unit :=
  match call with
  | callSendString message => sendString message
  | callSendArrayBuffer data offset len => sendArrayBuffer data offset len
  | callSendBlob => sendBlob
  | callSendBytes data => sendBytes data;; mret tt
  | callClose code reason => close code reason
  | callFail reason => fail reason
  | callDisconnect => disconnect
  | callSuspend => suspend
  | callResume => resume
  | callDidOpenSocketStream => didOpenSocketStream
  | callDidReceiveSocketStreamData data => didReceiveSocketStreamData address data
  | callDidUpdateBufferedAmount amount => didUpdateBufferedAmount amount
  | callDidCloseSocketStream => didCloseSocketStream
  | callDidFailSocketStream => didFailSocketStream
  | callResumeTimerFired => resumeTimerFired address
  | callClosingTimerFired => closingTimerFired
  | callDidFinishLoading result => didFinishLoading result
  | callDidFail errorCode => didFail errorCode
  end.

Fixpoint performCalls (calls : list Call) : Op unit :=
  match calls with
  | [] => mret tt
  | call :: calls => performCall call;; performCalls calls
  end.

(** ** The calls of the client one operation adds *)

Definition isClose (e : ClientEvent) : bool := match e with didClose _ _ _ _ => true | _ => false end.
Definition noClose (events : list ClientEvent) : Prop := Forall (fun e => isClose e = false) events.

(** [didClose] is at most the last event, and then there is no client. *)
Definition closedLast (events : list ClientEvent) (client : bool) : Prop :=
  noClose events \/ exists before e, events = before ++ [e] /\ noClose before /\ isClose e = true /\ client = false.

Definition extends (c c' : Chan) : Prop :=
  exists events, ch_events c' = ch_events c ++ events /\ (m_client c = false -> events = [] /\ m_client c' = false) /\
    closedLast events (m_client c').

Lemma closedLast_nil b : closedLast [] b.
Proof. left. constructor. Qed.

Lemma closedLast_app xs ys b b' : closedLast xs b -> (b = false -> ys = [] /\ b' = false) -> closedLast ys b' -> closedLast (xs ++ ys) b'.
Proof.
  intros [HX|(before & e & -> & HB & HE & ->)] HC HY.
  - destruct HY as [HY|(before & e & -> & HB & HE & ->)]; [left; by apply Forall_app|].
    right. exists (xs ++ before), e. rewrite app_assoc. split_and!; try done. by apply Forall_app.
  - destruct HC as [-> ->]; [done|]. right. exists before, e. by rewrite app_nil_r.
Qed.

Lemma extends_refl c : extends c c.
Proof. exists []. split_and!; [by rewrite app_nil_r|done|apply closedLast_nil]. Qed.

Lemma extends_trans c1 c2 c3 : extends c1 c2 -> extends c2 c3 -> extends c1 c3.
Proof.
  intros (e1 & E1 & F1 & C1) (e2 & E2 & F2 & C2). exists (e1 ++ e2). split_and!.
  - by rewrite E2, E1, app_assoc.
  - intros HC. destruct (F1 HC) as [-> HC2]. by apply F2.
  - by eapply closedLast_app.
Qed.

(** An operation that keeps to it. *)
Definition orderly {A : Type} (m : Op A) : Prop := forall c r c', m c = Some (r, c') -> extends c c'.

Lemma orderly_ret {A} (a : A) : orderly (mret a).
Proof. intros c r c' [= _ <-]. apply extends_refl. Qed.
Lemma orderly_get {A} (f : Chan -> A) : orderly (get f).
Proof. intros c r c' [= _ <-]. apply extends_refl. Qed.
Lemma orderly_crash {A} : orderly (crash (A := A)).
Proof. by intros c r c'. Qed.
Lemma orderly_ASSERT b : orderly (ASSERT b).
Proof. intros c r c' HE. unfold ASSERT in HE. destruct (b c); [|done]. injection HE as _ <-. apply extends_refl. Qed.
Lemma orderly_bind {A B} (m : Op A) (f : A -> Op B) : orderly m -> (forall a, orderly (f a)) -> orderly (a ← m; f a).
Proof.
  intros HM HF c r c' HE. unfold mbind, M_bind in HE. destruct (m c) as [[a c1]|] eqn:E1; [|done].
  eapply extends_trans; [by eapply HM|by eapply HF].
Qed.
Lemma orderly_when b m : orderly m -> orderly (when b m).
Proof. intros HM. destruct b; [done|apply orderly_ret]. Qed.
Lemma orderly_modify f : (forall c, ch_events (f c) = ch_events c) -> (forall c, m_client c = false -> m_client (f c) = false) -> orderly (modify f).
Proof.
  intros HE HC c r c' [= _ <-]. exists []. split_and!; [by rewrite HE, app_nil_r|by split; [|apply HC]|apply closedLast_nil].
Qed.
Lemma orderly_notify e : isClose e = false -> orderly (notify e).
Proof.
  intros HE c r c' HN. unfold notify in HN. destruct (m_client c) eqn:EC; [|done]. injection HN as _ <-.
  exists [e]. split_and!; [done|by rewrite EC|]. left. by repeat constructor.
Qed.

(** The client is told that the channel is closed when it is forgotten. *)
Lemma orderly_didClose (event : Chan -> ClientEvent) (f : Chan -> Chan) :
  (forall c, isClose (event c) = true) -> (forall c, ch_events (f c) = ch_events c) -> (forall c, m_client (f c) = false) ->
  orderly (client ← get m_client; event ← get event; modify f;; when client (modify (fun c => c <| ch_events := ch_events c ++ [event] |>))).
Proof.
  intros HE HF HC c r c' HN. unfold mbind, M_bind, get, modify, when in HN. destruct (m_client c) eqn:EC; injection HN as _ <-.
  - exists [event c]. split_and!; [cbn; by rewrite HF|by rewrite EC|]. right. exists [], (event c). split_and!; [done|constructor|done|apply HC].
  - exists []. split_and!; [by rewrite HF, app_nil_r|by rewrite HC|apply closedLast_nil].
Qed.

(** ** Every operation keeps to it *)

Create HintDb orderly.
#[local] Hint Resolve orderly_ret orderly_get orderly_crash orderly_ASSERT : orderly.

(** Goes through the statements of an operation. *)
Ltac orderly :=
  intros;
  repeat first
    [ progress auto with orderly
    | apply orderly_bind; [|intros]
    | apply orderly_when
    | apply orderly_notify; done
    | apply orderly_modify; done
    | match goal with |- orderly (match ?x with _ => _ end) => destruct x end ].

Lemma orderly_skipBuffer len : orderly (skipBuffer len).
Proof. unfold skipBuffer. orderly. Qed.
Lemma orderly_appendToBuffer data : orderly (appendToBuffer data).
Proof. unfold appendToBuffer. orderly. Qed.
#[local] Hint Resolve orderly_skipBuffer orderly_appendToBuffer : orderly.

Section Failing.
Variable failOp : string -> Op unit.
Hypothesis failOp_orderly : forall reason, orderly (failOp reason).
#[local] Hint Resolve failOp_orderly : orderly.

Lemma orderly_didFailWith errorCode : orderly (didFailWith failOp errorCode).
Proof. unfold didFailWith. orderly. Qed.
#[local] Hint Resolve orderly_didFailWith : orderly.
Lemma orderly_abortWith : orderly (abortOutgoingFrameQueueWith failOp).
Proof. unfold abortOutgoingFrameQueueWith. orderly. Qed.
#[local] Hint Resolve orderly_abortWith : orderly.
Lemma orderly_didCloseSocketStreamWith : orderly (didCloseSocketStreamWith failOp).
Proof.
  unfold didCloseSocketStreamWith. do 3 (apply orderly_bind; [orderly|intros]). apply orderly_bind; [orderly|intros].
  apply orderly_bind; [orderly|]. intros [k|]; [|orderly]. do 2 (apply orderly_bind; [orderly|intros]).
  match goal with |- orderly (if ?b then _ else _) => destruct b end; [orderly|]. by apply orderly_didClose.
Qed.
#[local] Hint Resolve orderly_didCloseSocketStreamWith : orderly.
Lemma orderly_handle_disconnectWith : orderly (handle_disconnectWith failOp).
Proof. unfold handle_disconnectWith. orderly. Qed.
End Failing.

Lemma orderly_failRounds n : forall reason, orderly (failRounds n reason).
Proof.
  induction n as [|n IH]; intros reason; cbn [failRounds]; [apply orderly_crash|].
  pose proof (orderly_handle_disconnectWith _ IH). unfold failWith. orderly.
Qed.

Lemma orderly_fail reason : orderly (fail reason).
Proof. apply orderly_failRounds. Qed.
Lemma orderly_didFail errorCode : orderly (didFail errorCode).
Proof. apply orderly_didFailWith, orderly_fail. Qed.
Lemma orderly_didCloseSocketStream : orderly didCloseSocketStream.
Proof. apply orderly_didCloseSocketStreamWith, orderly_fail. Qed.
Lemma orderly_handle_disconnect : orderly handle_disconnect.
Proof. apply orderly_handle_disconnectWith, orderly_fail. Qed.
#[local] Hint Resolve orderly_fail orderly_didFail orderly_didCloseSocketStream orderly_handle_disconnect : orderly.

Lemma orderly_handleSend data : orderly (handleSend data).
Proof. unfold handleSend, didUpdateBufferedAmount. orderly. Qed.
#[local] Hint Resolve orderly_handleSend : orderly.
Lemma orderly_sendOrFail opCode data : orderly (sendOrFail opCode data).
Proof. unfold sendOrFail, sendFrame. orderly. Qed.
#[local] Hint Resolve orderly_sendOrFail : orderly.
Lemma orderly_outgoingLoop fuel : orderly (outgoingLoop fuel).
Proof. induction fuel as [|fuel IH]; cbn [outgoingLoop]; [orderly|]. unfold finishOutgoingFrameQueue, handleClose. orderly. Qed.
#[local] Hint Resolve orderly_outgoingLoop : orderly.
Lemma orderly_processOutgoingFrameQueue : orderly processOutgoingFrameQueue.
Proof. unfold processOutgoingFrameQueue. orderly. Qed.
#[local] Hint Resolve orderly_processOutgoingFrameQueue : orderly.
Lemma orderly_enqueue frame : orderly (enqueue frame).
Proof. unfold enqueue. orderly. Qed.
Lemma orderly_stringUTF8 string mode : orderly (stringUTF8 string mode).
Proof. unfold stringUTF8. orderly. Qed.
#[local] Hint Resolve orderly_enqueue orderly_stringUTF8 : orderly.
Lemma orderly_startClosingHandshake code reason : orderly (startClosingHandshake code reason).
Proof. unfold startClosingHandshake, enqueueRawFrame. orderly. Qed.
#[local] Hint Resolve orderly_startClosingHandshake : orderly.

Lemma orderly_decodeMessage data : orderly (decodeMessage address data).
Proof. unfold decodeMessage. orderly. Qed.
Lemma orderly_deliverText message : orderly (deliverText message).
Proof. unfold deliverText. orderly. Qed.
Lemma orderly_startContinuousFrame opCode data frameEnd : orderly (startContinuousFrame opCode data frameEnd).
Proof. unfold startContinuousFrame. orderly. Qed.
Lemma orderly_handleCloseCode data : orderly (handleCloseCode data).
Proof. unfold handleCloseCode. orderly. Qed.
#[local] Hint Resolve orderly_decodeMessage orderly_deliverText orderly_startContinuousFrame orderly_handleCloseCode : orderly.

Lemma orderly_handleFrame frame frameEnd : orderly (handleFrame address frame frameEnd).
Proof.
  unfold handleFrame, handleContinuation, handleText, handleBinary, handleCloseFrame, handlePing, handlePong, enqueueRawFrame. orderly.
Qed.
#[local] Hint Resolve orderly_handleFrame : orderly.
Lemma orderly_processFrame : orderly (processFrame address).
Proof. unfold processFrame, processParsedFrame. orderly. Qed.
#[local] Hint Resolve orderly_processFrame : orderly.
Lemma orderly_processBuffer : orderly (processBuffer address).
Proof. unfold processBuffer, processHandshake. orderly. Qed.
#[local] Hint Resolve orderly_processBuffer : orderly.
Lemma orderly_processLoop fuel : orderly (processLoop address fuel).
Proof. induction fuel as [|fuel IH]; cbn [processLoop]; orderly. Qed.
#[local] Hint Resolve orderly_processLoop : orderly.

Lemma orderly_performCall call : orderly (performCall call).
Proof.
  destruct call; cbn [performCall];
    unfold sendString, sendArrayBuffer, sendBlob, sendBytes, close, disconnect, suspend, resume, didOpenSocketStream, didReceiveSocketStreamData,
      didUpdateBufferedAmount, didFailSocketStream, resumeTimerFired, processAll, closingTimerFired, didFinishLoading,
      enqueueTextFrame, enqueueRawFrame, enqueueBlobFrame; orderly.
Qed.

Lemma orderly_performCalls calls : orderly (performCalls calls).
Proof.
  induction calls as [|call calls IH]; cbn [performCalls]; [apply orderly_ret|]. apply orderly_bind; [apply orderly_performCall|done].
Qed.

End Lifecycle.
