(* ===== verification/WebSocketSession.v ===== *)
(** * Sessions of a web socket

    What the channel makes of the frames of a server, however they arrive, and
    where it uses a pointer it has cleared. *)

From S2P Require Import Prelude TextCodecUTF8 TextCodecUTF8Loops TextCodecUTF8Spec UnicodeUTF8 UnicodeUTF8Spec WebSocketFrame WebSocketFrameSpec WebSocketChannel SocketStreamHandle SocketStreamHandleSpec WebSocketLifecycle.
Open Scope Z_scope.

(** ** Collaborators for examples *)

Module Sample.

(** A handshake that is done, a socket that takes everything or nothing (the other
    examples have the handle of the source over a system that takes three bytes at
    a time), and a compression that fails. *)
#[export] Instance connectedHandshake : WebSocketHandshakeOps unit := {|
  hs_mode := fun _ => Connected;
  readServerHandshake := fun data h => Some (Z.of_nat (length data), h, None);
  failureReason := fun _ => [];
  clientHandshakeMessage := fun _ => []
|}.
#[export] Instance simpleSocket : SocketStreamHandleOps bool := {|
  handle_send := fun _ k => Some (k, None, k);
  handle_close := fun k => (true, k);
  handle_disconnected := fun k => k;
  handle_bufferedAmount := fun _ => 0
|}.
#[export] Instance failingZlib : ZlibOps unit := {|
  createStreams := fun _ _ => Some tt;
  deflateBytes := fun _ d => (None, d);
  inflateBytes := fun _ d => (None, d);
  resetDeflate := fun d => d;
  resetInflate := fun d => d
|}.
#[export] Instance fixedKeys : MaskingKeys := fun _ => [1; 2; 3; 4].

Definition channel (sends : bool) : Channel unit bool unit := newChannel tt sends.
Definition deflating (c : Channel unit bool unit) : Channel unit bool unit := c <| m_deflateFramer := mkDeflateFramer (Some tt) |>.
End Sample.
Import Sample SampleSocket.

Example text_message :
  option_map (fun r => ch_events (snd r)) (didReceiveSocketStreamData 0 [0x81; 0x02; 0x48; 0x69] (channel true)) =
    Some [didReceiveMessage [0x48; 0x69]].
Proof. vm_compute. reflexivity. Qed.

(** Three ways to use a null pointer.  When a frame cannot be compressed,
    [sendFrame] fails and its caller fails again, through [m_client], which is
    null by then.  When the answer to a close frame cannot be sent, the handle
    is gone when [processOutgoingFrameQueue] closes it.  When the client
    disconnects while a blob is loading, aborting the queue reports an error
    to the client that was just cleared. *)
Theorem channel_uses_null_pointers :
  sendString (Some (true, [0x48; 0x69])) (deflating (channel true)) = None /\
  didReceiveSocketStreamData 0 [0x88; 0x00] (channel false) = None /\
  (sendBlob;; disconnect) (channel true) = None.
Proof. split_and!; vm_compute; reflexivity. Qed.

(** ** A connection that is open *)

(** Runs the operations of the monad on a channel that is a constructor. *)
Ltac run :=
  unfold mbind, M_bind, mret, M_ret, get, modify, crash, ASSERT, when, statusIs, loaderIs, set_field, set_m_document, set_m_client,
      set_m_handshake, set_m_handle, set_m_buffer, set_m_resumeTimer, set_m_suspended, set_m_closing,
      set_m_receivedClosingHandshake, set_m_closingTimer, set_ch_closed, set_m_shouldDiscardReceivedData,
      set_m_unhandledBufferedAmount, set_m_hasContinuousFrame, set_m_continuousFrameOpCode,
      set_m_continuousFrameData, set_m_closeEventCode, set_m_closeEventReason, set_m_outgoingFrameQueue,
      set_m_outgoingFrameQueueStatus, set_m_blobLoader, set_m_blobLoaderStatus, set_m_deflateFramer,
      set_ch_events, set_ch_wire, set_ch_frames;
  cbn [isSome isEmptyBuffer OutgoingFrameQueueStatus_eqb BlobLoaderStatus_eqb negb andb orb m_document m_client m_handshake m_handle m_buffer m_resumeTimer
      m_suspended m_closing m_receivedClosingHandshake m_closingTimer ch_closed m_shouldDiscardReceivedData
      m_unhandledBufferedAmount m_hasContinuousFrame m_continuousFrameOpCode m_continuousFrameData
      m_closeEventCode m_closeEventReason m_outgoingFrameQueue m_outgoingFrameQueueStatus m_blobLoader
      m_blobLoaderStatus m_deflateFramer ch_events ch_wire ch_frames].

(** The same for updates that are nested. *)
Ltac run_nested :=
  unfold mbind, M_bind, mret, M_ret, get, modify, crash, ASSERT, when, statusIs, loaderIs;
  cbn [set_field set_m_document set_m_client set_m_handle set_m_closingTimer set_ch_closed set_m_unhandledBufferedAmount set_ch_events
      isSome isEmptyBuffer OutgoingFrameQueueStatus_eqb BlobLoaderStatus_eqb negb andb orb m_document m_client m_handshake m_handle m_buffer m_resumeTimer
      m_suspended m_closing m_receivedClosingHandshake m_closingTimer ch_closed m_shouldDiscardReceivedData
      m_unhandledBufferedAmount m_hasContinuousFrame m_continuousFrameOpCode m_continuousFrameData
      m_closeEventCode m_closeEventReason m_outgoingFrameQueue m_outgoingFrameQueueStatus m_blobLoader
      m_blobLoaderStatus m_deflateFramer ch_events ch_wire ch_frames].

(** The members that no frame of data changes. *)
Record Surroundings {H : Type} := mkSurroundings {
  su_handshake : H;
  su_resumeTimer : bool;
  su_closingTimer : bool;
  su_unhandled : Z;
  su_closeCode : Z;
  su_closeReason : option (list UChar)
}.
Arguments Surroundings : clear implicits.

(** What a receiver has made of the frames so far: the message that is not
    complete, the calls of the client and the bytes sent in answer. *)
Record Assembly := mkAssembly {
  a_partial : option (bool * list Z);
  a_events : list ClientEvent;
  a_wire : list Z;
  a_frames : nat
}.

(** The opcode and the data kept for a partial message; [op] is left over from
    an earlier one. *)
Definition partialOpCode (op : Z) (a : Assembly) : Z :=
  match a_partial a with
  | Some (text, _) => if text : bool then OpCodeText else OpCodeBinary
  | None => op
  end.
Definition partialData (a : Assembly) : list Z := match a_partial a with Some (_, data) => data | None => [] end.

(** The open channel in this state. *)
Definition liveChannel {H K D : Type} (su : Surroundings H) (k : K) (op : Z) (buffer : list Z) (a : Assembly) : Channel H K D :=
  mkChannel true true (Some (su_handshake su)) (Some k) buffer (su_resumeTimer su) false false false (su_closingTimer su) false false
    (su_unhandled su) (isSome (a_partial a)) (partialOpCode op a) (partialData a) (su_closeCode su) (su_closeReason su) []
    OutgoingFrameQueueOpen None BlobLoaderNotStarted (mkDeflateFramer None) (a_events a) (a_wire a) (a_frames a).

(** ** What the frames of a server mean *)

Inductive ServerFrame :=
  | DataFrame (text fin : bool) (bytes : list Z)
  | ContinuationFrame (fin : bool) (bytes : list Z)
  | PingFrame (bytes : list Z)
  | PongFrame (bytes : list Z).

Definition sf_bytes (s : ServerFrame) : list Z :=
  match s with DataFrame _ _ b | ContinuationFrame _ b | PingFrame b | PongFrame b => b end.

(** The frame of the protocol, unmasked as a server sends it. *)
Definition toFrame (s : ServerFrame) : WebSocketFrame :=
  let frame opCode fin := newFrame opCode fin false false (sf_bytes s) (Z.of_nat (length (sf_bytes s))) in
  match s with
  | DataFrame text fin _ => frame (if text then OpCodeText else OpCodeBinary) fin
  | ContinuationFrame fin _ => frame OpCodeContinuation fin
  | PingFrame _ => frame OpCodePing true
  | PongFrame _ => frame OpCodePong true
  end.

(** A complete message: text has to be UTF-8 and to fit a string. *)
Definition deliver (text : bool) (data : list Z) (a : Assembly) : option Assembly :=
  let done event := Some (mkAssembly None (a_events a ++ [event]) (a_wire a) (a_frames a)) in
  if text then
    if snd (decodeAll data) || (2 ^ 32 <=? Z.of_nat (length data)) then None else done (didReceiveMessage (fst (decodeAll data)))
  else done (didReceiveBinaryData data).

Section Meaning.
Context `{MaskingKeys}.

(** The answer to a ping. *)
Definition pong (n : nat) (data : list Z) : list Z :=
  wire (newFrame OpCodePong true false true data (Z.of_nat (length data))) (maskingKeyOf n).

(** One frame; [None] when the protocol does not allow it here. *)
Definition assemble (a : Assembly) (s : ServerFrame) : option Assembly :=
  match s, a_partial a with
  | DataFrame text true data, None => deliver text data a
  | DataFrame text false data, None => Some (mkAssembly (Some (text, data)) (a_events a) (a_wire a) (a_frames a))
  | ContinuationFrame true data, Some (text, sofar) => deliver text (sofar ++ data) a
  | ContinuationFrame false data, Some (text, sofar) =>
      Some (mkAssembly (Some (text, sofar ++ data)) (a_events a) (a_wire a) (a_frames a))
  | PingFrame data, partial =>
      if (length data <=? 125)%nat
      then Some (mkAssembly partial (a_events a) (a_wire a ++ pong (a_frames a) data) (S (a_frames a))) else None
  | PongFrame data, partial => if (length data <=? 125)%nat then Some a else None
  | _, _ => None
  end.

Fixpoint assembleAll (a : Assembly) (frames : list ServerFrame) : option Assembly :=
  match frames with
  | [] => Some a
  | s :: frames => a ← assemble a s; assembleAll a frames
  end.
End Meaning.

(** ** Reports of the buffered amount

    A handle that does not write at once what it takes tells the client, through
    the channel, how much it keeps.  Assemblies are the same when they differ in
    such calls only. *)

Definition isReport (e : ClientEvent) : bool := match e with client_didUpdateBufferedAmount _ => true | _ => false end.

(** The other calls of the client. *)
Definition quiet (events : list ClientEvent) : list ClientEvent := filter (fun e => isReport e = false) events.

Lemma quiet_app xs ys : quiet (xs ++ ys) = quiet xs ++ quiet ys.
Proof. apply filter_app. Qed.

Record same (a b : Assembly) : Prop := {
  same_partial : a_partial a = a_partial b;
  same_events : quiet (a_events a) = quiet (a_events b);
  same_wire : a_wire a = a_wire b;
  same_frames : a_frames a = a_frames b
}.

#[export] Instance same_equivalence : Equivalence same.
Proof.
  split; [by intros a; split|by intros a b []; split|]. intros a b c [E1 E2 E3 E4] [F1 F2 F3 F4].
  split; [by rewrite E1|by rewrite E2|by rewrite E3|by rewrite E4].
Qed.

(** The bytes that are sent between two assemblies. *)
Definition spent (a a' : Assembly) : Z := Z.of_nat (length (a_wire a')) - Z.of_nat (length (a_wire a)).

Lemma spent_same a a' b b' : same a b -> same a' b' -> spent a a' = spent b b'.
Proof. intros [_ _ E _] [_ _ E' _]. unfold spent. by rewrite E, E'. Qed.

Section Sameness.
Context `{MaskingKeys}.

Lemma deliver_same text data a b a' : same a b -> deliver text data a = Some a' -> exists b', deliver text data b = Some b' /\ same a' b'.
Proof.
  intros [E1 E2 E3 E4]. unfold deliver. destruct text; [destruct (_ || _); [done|]|]; intros [= <-]; (eexists; split; [reflexivity|]);
    (split; cbn [a_partial a_events a_wire a_frames]; [done|rewrite !quiet_app; by rewrite E2|done|done]).
Qed.

Lemma assemble_same s a b a' : same a b -> assemble a s = Some a' -> exists b', assemble b s = Some b' /\ same a' b'.
Proof.
  intros HS. pose proof HS as [E1 E2 E3 E4]. unfold assemble. rewrite <- E1.
  destruct s as [text [|] data|[|] data|data|data], (a_partial a) as [[t sofar]|]; try done; try (by apply deliver_same);
    try (destruct (length data <=? 125)%nat; [|done]); intros [= <-]; (eexists; split; [reflexivity|]);
    split; cbn [a_partial a_events a_wire a_frames]; first [done|apply HS|by rewrite E3, E4|by rewrite E4].
Qed.

Lemma assembleAll_same frames : forall a b a', same a b -> assembleAll a frames = Some a' -> exists b', assembleAll b frames = Some b' /\ same a' b'.
Proof.
  induction frames as [|s frames IH]; intros a b a' HS; cbn [assembleAll]; [intros [= <-]; by exists b|].
  destruct (assemble a s) as [a1|] eqn:E1; [|done]. destruct (assemble_same s a b a1 HS E1) as (b1 & -> & HS1). by apply IH.
Qed.

Lemma assemble_wire s a a' : assemble a s = Some a' -> 0 <= spent a a'.
Proof.
  unfold assemble, deliver, spent. destruct s as [text [|] data|[|] data|data|data], (a_partial a) as [[t sofar]|]; repeat case_match;
    intros; simplify_eq; cbn [a_wire]; rewrite ?length_app; lia.
Qed.

Lemma assembleAll_wire frames : forall a a', assembleAll a frames = Some a' -> 0 <= spent a a'.
Proof.
  induction frames as [|s frames IH]; intros a a'; cbn [assembleAll]; [intros [= <-]; unfold spent; lia|].
  destruct (assemble a s) as [a1|] eqn:E1; [|done]. intros E%IH. apply assemble_wire in E1. unfold spent in *. lia.
Qed.

(** The specification reports nothing itself. *)
Lemma assembleAll_quiet frames : forall a a', quiet (a_events a) = a_events a -> assembleAll a frames = Some a' -> quiet (a_events a') = a_events a'.
Proof.
  induction frames as [|s frames IH]; intros a a' HQ; cbn [assembleAll]; [by intros [= <-]|].
  destruct (assemble a s) as [a1|] eqn:E1; [|done]. apply IH. revert E1.
  unfold assemble, deliver. destruct s as [text [|] data|[|] data|data|data], (a_partial a) as [[t sofar]|]; repeat case_match;
    intros; simplify_eq; cbn [a_events]; rewrite ?quiet_app, ?HQ; done.
Qed.
End Sameness.

(** ** One frame *)

Section Receiving.
Context {H K D : Type} `{WebSocketHandshakeOps H} `{SocketStreamHandleOps K} `{!SocketAccepts K} `{ZlibOps D} `{MaskingKeys}.
Variable address : Z.
Hypothesis keys_four : forall n, length (maskingKeyOf n) = maskingKeyWidthInBytes.

Abbreviation live := (@liveChannel H K D).
Implicit Types su : Surroundings H.
Implicit Types k : K.

Definition anyKey : list Z := [0; 0; 0; 0].
Definition onWire (s : ServerFrame) : list Z := wire (toFrame s) anyKey.

(** A frame whose bytes are bytes and whose length fits 63 bits. *)
Definition framed (s : ServerFrame) : Prop := bytes (sf_bytes s) /\ Z.of_nat (length (sf_bytes s)) < 2 ^ 63.

Lemma toFrame_sendable s : framed s -> sendable (toFrame s) anyKey.
Proof.
  intros [_ HL]. split; [| | |done]; destruct s as [[|] ? ?| | |]; cbn [toFrame newFrame opCode payloadLength payload sf_bytes] in *;
    unfold OpCodeText, OpCodeBinary, OpCodeContinuation, OpCodePing, OpCodePong; lia.
Qed.

Lemma toFrame_bytes s : frame_bytes (toFrame s) = sf_bytes s.
Proof. destruct s; unfold frame_bytes; cbn [toFrame newFrame payload payloadLength sf_bytes]; rewrite Nat2Z.id; apply firstn_all. Qed.

Lemma toFrame_unmasked s : masked (toFrame s) = false.
Proof. by destruct s. Qed.

(** What [parseFrame] gives for it, and that the buffer stays. *)
Definition inBuffer (s : ServerFrame) (rest : list Z) : WebSocketFrame := received (toFrame s) rest.

Lemma parse_onWire s rest : framed s ->
  parseFrame (onWire s ++ rest) = FrameOK (inBuffer s rest) (length (onWire s)) (onWire s ++ rest).
Proof.
  intros HF. unfold onWire. rewrite parse_wire by by apply toFrame_sendable. do 2 f_equal.
  unfold plain, wire, wirePayload. destruct (lengthField _). by rewrite toFrame_unmasked.
Qed.

Lemma inBuffer_bytes s rest : framed s -> frame_bytes (inBuffer s rest) = sf_bytes s.
Proof.
  intros HF. unfold frame_bytes at 1. cbn [inBuffer received payload payloadLength]. rewrite toFrame_bytes.
  apply take_app_length'. destruct s; cbn [toFrame newFrame payloadLength]; by rewrite Nat2Z.id.
Qed.

Lemma onWire_nonempty s : onWire s <> [].
Proof. unfold onWire, wire. by destruct (lengthField _). Qed.

(** Messages. *)
Lemma decodeMessage_valid data (c : Channel H K D) :
  bytes data -> snd (decodeAll data) || (2 ^ 32 <=? Z.of_nat (length data)) = false ->
  decodeMessage address data c = Some (Some (fst (decodeAll data)), c).
Proof.
  intros HB [HE HL]%orb_false_iff. apply Z.leb_gt in HL. destruct data as [|b data]; [done|].
  unfold decodeMessage. cbn [isEmptyBuffer]. by rewrite fromUTF8_valid.
Qed.

Lemma skipBuffer_wire s rest su k op a :
  skipBuffer (length (onWire s)) (live su k op (onWire s ++ rest) a) = Some (tt, live su k op rest a).
Proof.
  unfold skipBuffer, liveChannel. run. rewrite (proj2 (Nat.leb_le _ _)) by (rewrite length_app; lia). run. by rewrite drop_app_length.
Qed.

(** The handle takes what it is given; the client may hear of it. *)
Definition withReport (amount : option Z) (a : Assembly) : Assembly :=
  match amount with
  | Some amount => mkAssembly (a_partial a) (a_events a ++ [client_didUpdateBufferedAmount amount]) (a_wire a) (a_frames a)
  | None => a
  end.

Lemma withReport_same amount a : same (withReport amount a) a.
Proof. destruct amount; [|done]. split; cbn [withReport a_partial a_events a_wire a_frames]; try done. by rewrite quiet_app, app_nil_r. Qed.

(** The answer to a ping goes through the queue to the socket. *)
Lemma handlePing_spec su k op rest a s n : framed s -> (length (sf_bytes s) <= 125)%nat ->
  accepts n k -> Z.of_nat (length (pong (a_frames a) (sf_bytes s))) <= n ->
  exists k' amount, handlePing (inBuffer s rest) (length (onWire s)) (live su k op (onWire s ++ rest) a) =
    Some (true, live su k' op rest
      (withReport amount (mkAssembly (a_partial a) (a_events a) (a_wire a ++ pong (a_frames a) (sf_bytes s)) (S (a_frames a))))) /\
    accepts (n - Z.of_nat (length (pong (a_frames a) (sf_bytes s)))) k'.
Proof.
  intros HF HL HA HN. unfold handlePing. rewrite inBuffer_bytes by done. set (data := sf_bytes s) in *.
  set (f := newFrame OpCodePong true false true data (Z.of_nat (length data))).
  assert (HS : sendable f (maskingKeyOf (a_frames a))).
  { split; cbn [f newFrame opCode payloadLength payload]; [unfold OpCodePong; lia|lia|lia|apply keys_four]. }
  destruct (accepts_send n (wire f (maskingKeyOf (a_frames a))) k HA HN) as (amount & k' & EK & HA'). exists k', amount. split; [|done].
  unfold enqueueRawFrame, enqueue, skipBuffer, processOutgoingFrameQueue, liveChannel. run.
  rewrite (proj2 (Nat.leb_le _ _)) by (rewrite length_app; lia). run. cbn [app length outgoingLoop]. run. rewrite drop_app_length.
  unfold sendOrFail, sendFrame, framer_deflate. run. cbn [m_streams orb negb]. run. fold f.
  rewrite makeFrameData_spec by done. unfold handleSend. run. rewrite EK. destruct amount; unfold didUpdateBufferedAmount, notify; run;
  cbn [outgoingLoop]; unfold finishOutgoingFrameQueue; run; done.
Qed.

Lemma handleText_final su k op rest a s : framed s -> a_partial a = None -> final (toFrame s) = true ->
  snd (decodeAll (sf_bytes s)) || (2 ^ 32 <=? Z.of_nat (length (sf_bytes s))) = false ->
  handleText address (inBuffer s rest) (length (onWire s)) (live su k op (onWire s ++ rest) a) =
    Some (true, live su k op rest (mkAssembly None (a_events a ++ [didReceiveMessage (fst (decodeAll (sf_bytes s)))]) (a_wire a) (a_frames a))).
Proof.
  intros HF HP HE HD. unfold handleText. cbn [inBuffer received final]. rewrite HE. fold (inBuffer s rest). rewrite inBuffer_bytes by done. run.
  rewrite decodeMessage_valid by (done || apply HF). rewrite skipBuffer_wire. unfold deliverText, notify, liveChannel, partialOpCode, partialData. run.
  rewrite HP. done.
Qed.

Lemma handleBinary_final su k op rest a s : framed s -> a_partial a = None -> final (toFrame s) = true ->
  handleBinary (inBuffer s rest) (length (onWire s)) (live su k op (onWire s ++ rest) a) =
    Some (true, live su k op rest (mkAssembly None (a_events a ++ [didReceiveBinaryData (sf_bytes s)]) (a_wire a) (a_frames a))).
Proof.
  intros HF HP HE. unfold handleBinary. cbn [inBuffer received final]. rewrite HE. fold (inBuffer s rest). rewrite inBuffer_bytes by done. run.
  rewrite skipBuffer_wire. unfold notify, liveChannel, partialOpCode, partialData. run. rewrite HP. done.
Qed.

(** A vector that is large enough. *)
Definition fitsVector (n : nat) : Prop := Z.of_nat n < 2 ^ 31.

Lemma vectorAppend_fits data more : fitsVector (length data + length more) -> vectorAppend data more = Some (data ++ more).
Proof. unfold fitsVector, vectorAppend. intros HF. rewrite Z.gtb_ltb. by rewrite (proj2 (Z.ltb_ge _ _)) by lia. Qed.

Lemma startContinuous_spec su k op rest a s (text : bool) : a_partial a = None -> fitsVector (length (sf_bytes s)) ->
  startContinuousFrame (if text then OpCodeText else OpCodeBinary) (sf_bytes s) (length (onWire s)) (live su k op (onWire s ++ rest) a) =
    Some (tt, live su k op rest (mkAssembly (Some (text, sf_bytes s)) (a_events a) (a_wire a) (a_frames a))).
Proof.
  intros HP HV. unfold startContinuousFrame, appendToContinuousFrame, skipBuffer, liveChannel, partialOpCode, partialData. run. rewrite HP. run.
  rewrite (vectorAppend_fits []) by done. run. cbn [a_partial app].
  rewrite (proj2 (Nat.leb_le _ _)) by (rewrite length_app; lia). run. by rewrite drop_app_length.
Qed.

Lemma handleContinuation_more su k op rest a s text sofar : framed s -> a_partial a = Some (text, sofar) -> final (toFrame s) = false ->
  fitsVector (length sofar + length (sf_bytes s)) ->
  handleContinuation address (inBuffer s rest) (length (onWire s)) (live su k op (onWire s ++ rest) a) =
    Some (true, live su k op rest (mkAssembly (Some (text, sofar ++ sf_bytes s)) (a_events a) (a_wire a) (a_frames a))).
Proof.
  intros HF HP HE HV. unfold handleContinuation. cbn [inBuffer received final]. rewrite HE. fold (inBuffer s rest). rewrite inBuffer_bytes by done.
  unfold appendToContinuousFrame, skipBuffer, liveChannel, partialOpCode, partialData. run. rewrite HP. run. rewrite vectorAppend_fits by done. run. cbn [a_partial].
  rewrite (proj2 (Nat.leb_le _ _)) by (rewrite length_app; lia). run. by rewrite drop_app_length.
Qed.

(** The last frame of a message delivers it. *)
Lemma handleContinuation_final su k op rest a s text sofar a' :
  framed s -> bytes sofar -> fitsVector (length sofar + length (sf_bytes s)) ->
  a_partial a = Some (text, sofar) -> final (toFrame s) = true -> deliver text (sofar ++ sf_bytes s) a = Some a' ->
  exists op', handleContinuation address (inBuffer s rest) (length (onWire s)) (live su k op (onWire s ++ rest) a) =
    Some (true, live su k op' rest a').
Proof.
  intros HF HB HV HP HE HD. exists (if text then OpCodeText else OpCodeBinary).
  assert (HB' : bytes (sofar ++ sf_bytes s)) by (apply Forall_app; split; [done|apply HF]).
  unfold handleContinuation. cbn [inBuffer received final]. rewrite HE. fold (inBuffer s rest). rewrite inBuffer_bytes by done.
  unfold appendToContinuousFrame, skipBuffer, liveChannel, partialOpCode, partialData. run. rewrite HP. run. rewrite vectorAppend_fits by done. run. cbn [a_partial].
  rewrite (proj2 (Nat.leb_le _ _)) by (rewrite length_app; lia). run. rewrite drop_app_length. revert HD. unfold deliver.
  destruct text.
  - destruct (_ || _) eqn:EV; [done|]. intros [= <-]. cbn [Z.eqb Pos.eqb OpCodeText]. rewrite decodeMessage_valid by done.
    unfold deliverText, notify. run. done.
  - intros [= <-]. cbn [Z.eqb Pos.eqb OpCodeText OpCodeBinary]. unfold notify. run. done.
Qed.
(** ** What each frame does, by its meaning *)

Lemma frameProblem_None s rest a a' : assemble a s = Some a' -> frameProblem (isSome (a_partial a)) (inBuffer s rest) = None.
Proof.
  destruct s as [text fin data|fin data|data|data]; cbn [assemble]; destruct (a_partial a) as [[text' sofar]|]; try (by destruct fin);
    intros HA; unfold frameProblem; cbn [inBuffer received toFrame newFrame opCode final masked payloadLength reserved2 reserved3 sf_bytes];
    try (destruct (length data <=? 125)%nat eqn:HL; [|done]); unfold isReservedOpCode, isNonControlOpCode, isControlOpCode, needsExtendedLengthField; try destruct text; try done;
    by rewrite Z.gtb_ltb, (proj2 (Z.ltb_ge maxPayloadLengthWithoutExtendedLengthField (Z.of_nat (length data)))) by
      (apply Nat.leb_le in HL; unfold maxPayloadLengthWithoutExtendedLengthField; lia).
Qed.

Lemma handleData_step su k op rest a a' text fin data : framed (DataFrame text fin data) -> fitsVector (length data) -> assemble a (DataFrame text fin data) = Some a' ->
  let s := DataFrame text fin data in
  (if text then handleText address (inBuffer s rest) (length (onWire s)) else handleBinary (inBuffer s rest) (length (onWire s)))
    (live su k op (onWire s ++ rest) a) = Some (true, live su k op rest a').
Proof.
  intros HF HV HA s. cbn [assemble] in HA. destruct (a_partial a) as [[t sofar]|] eqn:EP; [by destruct fin|].
  destruct fin.
  - unfold deliver in HA. destruct text.
    + destruct (_ || _) eqn:EV; [done|]. injection HA as <-. by apply handleText_final.
    + injection HA as <-. by apply handleBinary_final.
  - injection HA as <-. pose proof (startContinuous_spec su k op rest a s text EP HV) as HS.
    unfold handleText, handleBinary. destruct text; cbn [inBuffer received final toFrame newFrame s]; fold (inBuffer s rest);
      rewrite inBuffer_bytes by done; run; by rewrite HS.
Qed.

(** The result of a step: the same as the specification but for reports, with
    the bytes it sends taken off what the handle accepts. *)
Definition steps (n : Z) (a a' : Assembly) (su : Surroundings H) (rest : list Z) (c : Channel H K D) : Prop :=
  exists k' op' a1, c = live su k' op' rest a1 /\ same a1 a' /\ accepts (n - spent a a') k'.

Lemma steps_exactly n a a' su rest k op : accepts n k -> 0 <= spent a a' -> steps n a a' su rest (live su k op rest a').
Proof. intros HA HS. exists k, op, a'. split_and!; [done|done|]. eapply accepts_less; [done|lia]. Qed.

Lemma handleFrame_step su k op rest a s a' n : framed s -> bytes (partialData a) -> fitsVector (length (partialData a) + length (sf_bytes s)) ->
  assemble a s = Some a' -> accepts n k -> spent a a' <= n ->
  exists c, handleFrame address (inBuffer s rest) (length (onWire s)) (live su k op (onWire s ++ rest) a) = Some (true, c) /\ steps n a a' su rest c.
Proof.
  intros HF HB HV HA HK HN. pose proof (assemble_wire s a a' HA) as HW. destruct s as [text fin data|fin data|data|data].
  - eexists. split; [|by apply (steps_exactly n a a' su rest k op)].
    pose proof (handleData_step su k op rest a a' text fin data HF ltac:(unfold fitsVector in *; cbn [sf_bytes] in HV; lia) HA) as HS. cbv zeta in HS. by destruct text.
  - cbn [assemble] in HA. unfold partialData in HB, HV. destruct (a_partial a) as [[text sofar]|] eqn:EP; [|by destruct fin].
    destruct fin.
    + destruct (handleContinuation_final su k op rest a (ContinuationFrame true data) text sofar a') as (op' & HS); try done.
      eexists. split; [exact HS|by apply steps_exactly].
    + injection HA as <-. eexists. split; [by apply (handleContinuation_more su k op rest a (ContinuationFrame false data) text sofar)|by apply steps_exactly].
  - cbn [assemble] in HA. destruct (length data <=? 125)%nat eqn:HL; [apply Nat.leb_le in HL|by destruct (a_partial a)].
    assert (EA : a' = mkAssembly (a_partial a) (a_events a) (a_wire a ++ pong (a_frames a) data) (S (a_frames a))) by (by destruct (a_partial a); injection HA as <-).
    assert (ES : spent a a' = Z.of_nat (length (pong (a_frames a) data))) by (subst a'; unfold spent; cbn [a_wire]; rewrite length_app; lia).
    destruct (handlePing_spec su k op rest a (PingFrame data) n HF) as (k' & amount & HS & HA'); [done|done|cbn [sf_bytes]; lia|].
    eexists. split; [exact HS|]. cbn [sf_bytes] in HA' |- *. rewrite <- EA. do 3 eexists. split; [reflexivity|]. split; [apply withReport_same|by rewrite ES].
  - cbn [assemble] in HA. assert (a' = a) as -> by (by destruct (a_partial a), (length data <=? 125)%nat; simplify_eq).
    eexists. split; [|by apply (steps_exactly n a a su rest k op)]. change (handlePong (length (onWire (PongFrame data)))
      (live su k op (onWire (PongFrame data) ++ rest) a) = Some (true, live su k op rest a)).
    unfold handlePong. run. by rewrite skipBuffer_wire.
Qed.

Lemma inBuffer_compress s rest : compress (inBuffer s rest) = false.
Proof. by destruct s. Qed.

(** A frame that is complete is taken from the buffer. *)
Lemma processFrame_step su k op rest a s a' n : framed s -> bytes (partialData a) -> fitsVector (length (partialData a) + length (sf_bytes s)) ->
  assemble a s = Some a' -> accepts n k -> spent a a' <= n ->
  exists c, processFrame address (live su k op (onWire s ++ rest) a) = Some (negb (isEmptyBuffer rest), c) /\ steps n a a' su rest c.
Proof.
  intros HF HB HV HA HK HSp. destruct (handleFrame_step su k op rest a s a' n HF HB HV HA HK HSp) as (c & HS & HC).
  exists c. split; [|done]. destruct HC as (k' & op' & a1 & -> & _). pose proof (onWire_nonempty s) as HN.
  assert (HE : isEmptyBuffer (onWire s ++ rest) = false) by by destruct (onWire s).
  assert (HL : (0 <? length (onWire s))%nat = true) by by destruct (onWire s).
  assert (HL' : (length (onWire s) <=? length (onWire s ++ rest))%nat = true) by (apply Nat.leb_le; rewrite length_app; lia).
  unfold processFrame, processParsedFrame, framer_inflate. run. unfold liveChannel at 1 2. run. rewrite HE. run.
  rewrite parse_onWire by done. run. unfold liveChannel at 1. run. rewrite HL, HL'. run. rewrite inBuffer_compress. cbn [m_streams negb andb]. run.
  rewrite (frameProblem_None s rest a a' HA). fold (live su k op (onWire s ++ rest) a). rewrite HS. done.
Qed.

(** Nothing happens while the frame is not complete. *)
Lemma processFrame_wait su k op a buffer : buffer <> [] -> parseFrame buffer = FrameIncomplete ->
  processFrame address (live su k op buffer a) = Some (false, live su k op buffer a).
Proof.
  intros HN HP. unfold processFrame. run. unfold liveChannel at 1 2. run. destruct buffer; [done|]. run. by rewrite HP.
Qed.

(** ** The loop over the buffer *)

(** Bytes that begin a frame and do not end it. *)
Definition waiting (t : list Z) : Prop := t = [] \/ parseFrame t = FrameIncomplete.

Lemma assemble_bytes a s a' : bytes (sf_bytes s) -> bytes (partialData a) -> assemble a s = Some a' -> bytes (partialData a').
Proof.
  unfold partialData, assemble, deliver. intros HS HB HA.
  destruct s as [text [|] data|[|] data|data|data], (a_partial a) as [[t sofar]|] eqn:EP; repeat case_match; simplify_eq/=; try done;
    try (rewrite EP in *); simplify_eq/=; try done; constructor || by apply Forall_app.
Qed.

Section Connected.
Variable su : Surroundings H.
Hypothesis connected : hs_mode (su_handshake su) = Connected.

Lemma processBuffer_connected k op buffer a : buffer <> [] ->
  processBuffer address (live su k op buffer a) = processFrame address (live su k op buffer a).
Proof.
  intros HN. unfold processBuffer. destruct buffer; [done|]. unfold liveChannel. run. by rewrite connected.
Qed.

Lemma processLoop_wait fuel k op t a : waiting t ->
  processLoop address (S fuel) (live su k op t a) = Some (tt, live su k op t a).
Proof.
  intros [->|HW]; [done|]. destruct t as [|b t]; [done|]. cbn [processLoop]. run. unfold liveChannel at 1 2 3. run.
  rewrite processBuffer_connected, processFrame_wait by done. done.
Qed.

Lemma onWire_length s : framed s -> (length (sf_bytes s) <= length (onWire s))%nat.
Proof.
  intros HF. unfold onWire, wire, wirePayload. rewrite toFrame_unmasked, toFrame_bytes. destruct (lengthField _) as [v ext]. cbn [length].
  rewrite !length_app. lia.
Qed.

Lemma assemble_partial a s a' : assemble a s = Some a' -> (length (partialData a') <= length (partialData a) + length (sf_bytes s))%nat.
Proof.
  unfold partialData, assemble, deliver. intros HA.
  destruct s as [text [|] data|[|] data|data|data], (a_partial a) as [[t sofar]|] eqn:EP; repeat case_match; simplify_eq/=;
    try (rewrite EP in *); simplify_eq/=; rewrite ?length_app; lia.
Qed.

(** What arrives, with what is kept of a message, fits a vector. *)
Definition roomFor (a : Assembly) (frames : list ServerFrame) : Prop := fitsVector (length (partialData a) + length (concat (map onWire frames))).

Lemma roomFor_step a s frames a1 : framed s -> assemble a s = Some a1 -> roomFor a (s :: frames) ->
  fitsVector (length (partialData a) + length (sf_bytes s)) /\ roomFor a1 frames.
Proof.
  unfold roomFor, fitsVector. cbn [map concat]. rewrite length_app. intros HF HA HR. pose proof (onWire_length s HF). apply assemble_partial in HA. lia.
Qed.

Lemma same_partialData a b : same a b -> partialData a = partialData b.
Proof. intros [E _ _ _]. unfold partialData. by rewrite E. Qed.

Lemma roomFor_same a b frames : same a b -> roomFor a frames -> roomFor b frames.
Proof. intros HS. unfold roomFor. by rewrite (same_partialData a b HS). Qed.

Lemma processLoop_frames frames : forall fuel k op t a a' n,
  (length frames < fuel)%nat -> waiting t -> Forall framed frames -> bytes (partialData a) -> roomFor a frames -> assembleAll a frames = Some a' ->
  accepts n k -> spent a a' <= n ->
  exists c, processLoop address fuel (live su k op (concat (map onWire frames) ++ t) a) = Some (tt, c) /\ steps n a a' su t c.
Proof.
  induction frames as [|s frames IH]; intros fuel k op t a a' n Hfuel HW HF HB HV HA HK HN; (destruct fuel as [|fuel]; [cbn in Hfuel; lia|]).
  { injection HA as <-. eexists. split; [by apply processLoop_wait|]. apply steps_exactly; [done|unfold spent; lia]. }
  apply Forall_cons in HF as [Hs HF]. cbn [assembleAll] in HA. destruct (assemble a s) as [a1|] eqn:E1; [|done]. cbn [mbind option_bind] in HA.
  destruct (roomFor_step a s frames a1 Hs E1 HV) as [HV1 HV2]. pose proof (assembleAll_wire frames a1 a' HA) as HW1. pose proof (assemble_wire s a a1 E1) as HW0.
  cbn [map concat length] in *. rewrite <- app_assoc. set (rest := concat (map onWire frames) ++ t).
  destruct (processFrame_step su k op rest a s a1 n Hs HB HV1 E1 HK) as (c1 & HP & k1 & op1 & a2 & -> & HS2 & HK2); [unfold spent in *; lia|].
  pose proof (onWire_nonempty s) as HNe. assert (HN' : onWire s ++ rest <> []) by by destruct (onWire s).
  cbn [processLoop]. run. unfold liveChannel at 1 2 3. run. assert (HE : isEmptyBuffer (onWire s ++ rest) = false) by by destruct (onWire s).
  rewrite HE. run. rewrite processBuffer_connected, HP by done. symmetry in HS2. destruct (assembleAll_same frames a1 a2 a' HS2 HA) as (b' & HA2 & HS').
  destruct rest as [|b rest'] eqn:ER; cbn [isEmptyBuffer negb].
  - apply app_eq_nil in ER as [EC ->]. assert (frames = []) as -> by (destruct frames as [|s' frames]; [done|]; by apply app_eq_nil in EC as [?%onWire_nonempty _]).
    injection HA as <-. eexists. split; [reflexivity|]. exists k1, op1, a2. by split_and!.
  - rewrite <- ER. destruct (IH fuel k1 op1 t a2 b' (n - spent a a1)) as (c & HL & k3 & op3 & a3 & -> & HS3 & HK3); try done; [lia| | | |].
    + rewrite <- (same_partialData a1 a2 HS2). eapply assemble_bytes; [apply Hs|done|done].
    + by apply (roomFor_same a1).
    + rewrite <- (spent_same a1 a' a2 b' HS2 HS'). unfold spent in *. lia.
    + eexists. split; [exact HL|]. exists k3, op3, a3. split_and!; [done|by rewrite HS3|]. eapply accepts_less; [exact HK3|].
      rewrite <- (spent_same a1 a' a2 b' HS2 HS'). unfold spent. lia.
Qed.

(** ** Data that arrives in pieces *)

Lemma bytes_bigEndian n z : bytes (bigEndian n z []).
Proof.
  revert z. induction n as [|n IH]; intros z; cbn [bigEndian]; [constructor|]. rewrite bigEndian_app. apply Forall_app. split; [apply IH|].
  apply Forall_singleton, Z.mod_pos_bound. lia.
Qed.

Lemma bytes_onWire s : framed s -> bytes (onWire s).
Proof.
  intros HF. destruct (toFrame_sendable s HF) as [Ho HL _ _]. unfold onWire, wire, wireMask, wirePayload.
  rewrite toFrame_unmasked, toFrame_bytes. destruct (lengthField (payloadLength (toFrame s))) as [v ext] eqn:EL.
  pose proof (lengthField_range _ _ _ (proj1 HL) EL). repeat constructor.
  1-4: unfold firstByte, secondByte; destruct s as [[|] [|] ?|[|] ?| |]; cbn [toFrame newFrame final compress opCode];
    unfold OpCodeText, OpCodeBinary, OpCodeContinuation, OpCodePing, OpCodePong; lia.
  apply Forall_app. split; [|apply HF]. unfold lengthField in EL.
  destruct (_ <=? 125); [|destruct (_ <=? 0xFFFF)]; apply pair_eq in EL as [<- <-]; first [apply bytes_bigEndian|constructor].
Qed.

(** A prefix of the frames is some of them and the beginning of another. *)
Lemma frames_prefix frames : forall p q, Forall framed frames -> p ++ q = concat (map onWire frames) ->
  exists got todo t, frames = got ++ todo /\ p = concat (map onWire got) ++ t /\ waiting t /\ t ++ q = concat (map onWire todo).
Proof.
  induction frames as [|s frames IH]; intros p q HF HP.
  { apply app_eq_nil in HP as [-> ->]. exists [], [], []. split_and!; try done. by left. }
  apply Forall_cons in HF as [Hs HF]. cbn [map concat] in HP.
  destruct (le_lt_dec (length (onWire s)) (length p)) as [HL|HL].
  - assert (EP : p = onWire s ++ drop (length (onWire s)) p).
    { rewrite <- (take_drop (length (onWire s)) p) at 1. f_equal.
      rewrite <- (take_app_le p q), HP by done. apply take_app_length. }
    rewrite EP, <- app_assoc in HP. apply app_inv_head in HP. destruct (IH _ _ HF HP) as (got & todo & t & -> & ED & HW & HT).
    exists (s :: got), todo, t. split_and!; try done. cbn [map concat]. rewrite <- app_assoc, <- ED. done.
  - exists [], (s :: frames), p. split_and!; try done. right.
    replace p with (take (length p) (onWire s)); [apply parse_prefix; [by apply toFrame_sendable|by apply bytes_onWire|done]|].
    rewrite <- (take_app_le (onWire s) (concat (map onWire frames))), <- HP by lia. apply take_app_length.
Qed.

Lemma waiting_frames frames : Forall framed frames -> waiting (concat (map onWire frames)) -> frames = [].
Proof.
  intros HF HW. destruct frames as [|s frames]; [done|]. apply Forall_cons in HF as [Hs HF]. cbn [map concat] in HW.
  destruct HW as [[?%onWire_nonempty _]%app_eq_nil|HW]; [done|]. by rewrite parse_onWire in HW.
Qed.

(** One call of the socket. *)
Lemma receive_step frames k op t t' data a a' n :
  data <> [] -> t ++ data = concat (map onWire frames) ++ t' -> fitsVector (length (t ++ data)) ->
  waiting t' -> Forall framed frames -> bytes (partialData a) -> roomFor a frames -> assembleAll a frames = Some a' ->
  accepts n k -> spent a a' <= n ->
  exists c, didReceiveSocketStreamData address data (live su k op t a) = Some (tt, c) /\ steps n a a' su t' c.
Proof.
  intros HN ED HL HW HF HB HV HA HK HSp. rewrite length_app in HL. pose proof HL as HL'. unfold fitsVector in HL'.
  assert (HFU : (length frames < S (length (concat (map onWire frames) ++ t')))%nat).
  { rewrite length_app. enough (length frames <= length (concat (map onWire frames)))%nat by lia. clear. induction frames as [|s frames IH]; [done|].
    cbn [map concat length]. rewrite length_app. pose proof (onWire_nonempty s). destruct (onWire s); [done|]. cbn [length]. lia. }
  destruct (processLoop_frames frames _ k op t' a a' n HFU HW HF HB HV HA HK HSp) as (c & HP & HC). exists c. split; [|done].
  rewrite <- HP, <- ED. unfold didReceiveSocketStreamData, appendToBuffer, processAll. destruct data as [|b data]; [done|].
  unfold liveChannel at 1. run. rewrite Z.mod_small, (proj2 (Z.ltb_ge _ _)) by lia. run. rewrite vectorAppend_fits by done. run. done.
Qed.

(** The pieces one after another. *)
Fixpoint feed (pieces : list (list Z)) : M unit :=
  match pieces with
  | [] => mret tt
  | data :: pieces => didReceiveSocketStreamData address data;; feed pieces
  end.

Lemma assembleAll_app a xs ys : assembleAll a (xs ++ ys) = a ← assembleAll a xs; assembleAll a ys.
Proof. revert a. induction xs as [|x xs IH]; intros a; [done|]. cbn [app assembleAll]. destruct (assemble a x); [apply IH|done]. Qed.

Lemma assembleAll_bytes frames : forall a a', Forall framed frames -> bytes (partialData a) -> assembleAll a frames = Some a' -> bytes (partialData a').
Proof.
  induction frames as [|s frames IH]; intros a a' HF HB HA; [by injection HA as <-|].
  apply Forall_cons in HF as [Hs HF]. cbn [assembleAll] in HA. destruct (assemble a s) as [a1|] eqn:E1; [|done].
  apply (IH a1); try done. eapply assemble_bytes; [apply Hs|done|done].
Qed.

Lemma roomFor_app xs : forall ys a a1, Forall framed xs -> assembleAll a xs = Some a1 -> roomFor a (xs ++ ys) -> roomFor a xs /\ roomFor a1 ys.
Proof.
  induction xs as [|s xs IH]; intros ys a a1 HF HA HR.
  { injection HA as <-. split; [|done]. unfold roomFor, fitsVector in *. cbn [map concat length]. lia. }
  split; [unfold roomFor, fitsVector in *; cbn [app map concat] in *; rewrite map_app, concat_app in HR; rewrite !length_app in *; lia|].
  apply Forall_cons in HF as [Hs HF]. cbn [assembleAll] in HA. destruct (assemble a s) as [a2|] eqn:E2; [|done].
  apply (IH ys a2 a1 HF HA). by apply (roomFor_step a s (xs ++ ys) a2 Hs E2).
Qed.

Lemma feed_frames pieces : forall frames k op t a a' n,
  Forall (fun data => data <> []) pieces -> t ++ concat pieces = concat (map onWire frames) ->
  waiting t -> Forall framed frames -> bytes (partialData a) -> roomFor a frames -> assembleAll a frames = Some a' ->
  accepts n k -> spent a a' <= n ->
  exists c, feed pieces (live su k op t a) = Some (tt, c) /\ steps n a a' su [] c.
Proof.
  induction pieces as [|data pieces IH]; intros frames k op t a a' n HN EP HW HF HB HV HA HK HSp; cbn [concat feed] in *.
  { rewrite app_nil_r in EP. subst t. pose proof (waiting_frames frames HF HW) as ->. injection HA as <-.
    eexists. split; [reflexivity|]. apply steps_exactly; [done|unfold spent; lia]. }
  apply Forall_cons in HN as [Hd HN]. rewrite app_assoc in EP.
  destruct (frames_prefix frames _ _ HF EP) as (got & todo & t' & -> & EG & HW' & ET). apply Forall_app in HF as [HG HT].
  rewrite assembleAll_app in HA. destruct (assembleAll a got) as [a1|] eqn:E1; [|done]. cbn [mbind option_bind] in HA.
  destruct (roomFor_app got todo a a1 HG E1 HV) as [HV1 HV2]. pose proof (assembleAll_wire got a a1 E1) as HW0. pose proof (assembleAll_wire todo a1 a' HA) as HW1.
  destruct (receive_step got k op t t' data a a1 n) as (c1 & HR & k1 & op1 & a2 & -> & HS2 & HK2); try done.
  { unfold roomFor, fitsVector in *. apply (f_equal length) in EP. rewrite !length_app in *. lia. }
  { unfold spent in *. lia. }
  symmetry in HS2. destruct (assembleAll_same todo a1 a2 a' HS2 HA) as (b' & HA2 & HS').
  destruct (IH todo k1 op1 t' a2 b' (n - spent a a1)) as (c & HL & k3 & op3 & a3 & -> & HS3 & HK3); try done.
  { rewrite <- (same_partialData a1 a2 HS2). by apply (assembleAll_bytes got a). }
  { by apply (roomFor_same a1). }
  { rewrite <- (spent_same a1 a' a2 b' HS2 HS'). unfold spent in *. lia. }
  eexists. run. rewrite HR. split; [exact HL|]. exists k3, op3, a3. split_and!; [done|by rewrite HS3|]. eapply accepts_less; [exact HK3|].
  rewrite <- (spent_same a1 a' a2 b' HS2 HS'). unfold spent. lia.
Qed.
End Connected.
End Receiving.

(** ** Conversations with a server *)

Section Conversation.
Context {H K D : Type} `{WebSocketHandshakeOps H} `{SocketStreamHandleOps K} `{!SocketAccepts K} `{ZlibOps D} `{MaskingKeys}.
Abbreviation live := (@liveChannel H K D).
Variable address : Z.
Hypothesis keys_four : forall n, length (maskingKeyOf n) = maskingKeyWidthInBytes.

Definition nothingYet : Assembly := mkAssembly None [] [] 0.

(** What can be seen of a channel that is still open. *)
Definition shows (c : Channel H K D) (a : Assembly) : Prop :=
  quiet (ch_events c) = a_events a /\ ch_wire c = a_wire a /\ m_hasContinuousFrame c = isSome (a_partial a) /\
  m_buffer c = [] /\ m_client c = true /\ isSome (m_handle c) = true /\ ch_closed c = false.

Definition surroundingsOf (h : H) : Surroundings H := mkSurroundings _ h false false 0 CloseEventCodeAbnormalClosure None.

(** The handle takes all that is sent in answer. *)
Definition takesAnswers (k : K) (a : Assembly) : Prop := accepts (Z.of_nat (length (a_wire a))) k.

Lemma steps_shows n a a' su c : quiet (a_events a') = a_events a' -> steps n a a' su [] c -> shows c a'.
Proof.
  intros HQ (k & op & a1 & -> & [E1 E2 E3 E4] & _). unfold shows, liveChannel. cbn [ch_events ch_wire m_hasContinuousFrame m_buffer m_client m_handle ch_closed].
  rewrite E2, E3, E1. by split_and!.
Qed.

Lemma feed_live h (k : K) pieces frames a' n :
  hs_mode h = Connected -> Forall framed frames -> Forall (fun data => data <> []) pieces ->
  concat pieces = concat (map onWire frames) -> fitsVector (length (concat pieces)) ->
  assembleAll nothingYet frames = Some a' -> accepts n k -> Z.of_nat (length (a_wire a')) <= n ->
  exists c, feed address pieces (newChannel h k) = Some (tt, c) /\ steps n nothingYet a' (surroundingsOf h) [] c.
Proof.
  intros HC HF HN EP HL HA HK HSp.
  apply (feed_frames address keys_four (surroundingsOf h) HC pieces frames k OpCodeInvalid [] nothingYet a'); try done.
  - by left.
  - constructor.
  - unfold roomFor. by rewrite <- EP.
  - unfold spent. cbn [nothingYet a_wire length]. lia.
Qed.

Lemma feed_new h (k : K) pieces frames a' :
  hs_mode h = Connected -> Forall framed frames -> Forall (fun data => data <> []) pieces ->
  concat pieces = concat (map onWire frames) -> fitsVector (length (concat pieces)) ->
  assembleAll nothingYet frames = Some a' -> takesAnswers k a' ->
  exists c, feed address pieces (newChannel h k) = Some (tt, c) /\ shows c a'.
Proof.
  intros HC HF HN EP HL HA HK. destruct (feed_live h k pieces frames a' _ HC HF HN EP HL HA HK) as (c & HR & HS); [lia|].
  exists c. split; [exact HR|]. eapply steps_shows; [|exact HS]. by eapply assembleAll_quiet; [|exact HA].
Qed.

(** C6: the channel as a receiver.  The frames of a server (messages in one frame or
    in several, pings and pongs between them), encoded and cut into pieces
    anywhere, fewer than 2^31 bytes in all, reach the channel piece by piece over
    a handle that takes the answers, written at once or kept for later.  The channel calls its client
    once per complete message with what the message says, answers each ping,
    in order, keeps what is incomplete and stays open: the pieces do not
    matter, only the frames.  Apart from that the client is only told of the
    amount the handle keeps. *)
Theorem channel_assembles_messages h (k : K) (pieces : list (list Z)) (frames : list ServerFrame) (a : Assembly) :
  hs_mode h = Connected -> Forall framed frames -> Forall (fun data => data <> []) pieces ->
  concat pieces = concat (map onWire frames) -> fitsVector (length (concat pieces)) ->
  assembleAll nothingYet frames = Some a -> takesAnswers k a ->
  exists c, feed address pieces (newChannel h k) = Some (tt, c) /\ shows c a.
Proof. intros. by apply (feed_new h k pieces frames). Qed.

(** ** A message in several frames *)

(** The frames after the first, each with the pings that come before it. *)
Fixpoint continuations (more : list (list (list Z) * list Z)) : list ServerFrame :=
  match more with
  | [] => []
  | (pings, data) :: more => map PingFrame pings ++ ContinuationFrame (isEmptyBuffer more) data :: continuations more
  end.
Definition messageFrames (text : bool) (first : list Z) (more : list (list (list Z) * list Z)) : list ServerFrame :=
  DataFrame text (isEmptyBuffer more) first :: continuations more.

(** The answers to pings, from the n-th frame sent. *)
Fixpoint pongs (n : nat) (pings : list (list Z)) : list Z :=
  match pings with
  | [] => []
  | data :: pings => pong n data ++ pongs (S n) pings
  end.

Definition small (pings : list (list Z)) : Prop := Forall (fun data => (length data <= 125)%nat) pings.

Lemma pongs_app n xs ys : pongs n (xs ++ ys) = pongs n xs ++ pongs (n + length xs) ys.
Proof.
  revert n. induction xs as [|x xs IH]; intros n; cbn [app pongs length]; [by rewrite Nat.add_0_r|].
  rewrite IH, app_assoc. do 2 f_equal. lia.
Qed.

Lemma assembleAll_pings pings : forall a, small pings ->
  assembleAll a (map PingFrame pings) =
    Some (mkAssembly (a_partial a) (a_events a) (a_wire a ++ pongs (a_frames a) pings) (a_frames a + length pings)).
Proof.
  induction pings as [|data pings IH]; intros a HS; cbn [map assembleAll pongs length].
  { rewrite app_nil_r, Nat.add_0_r. by destruct a. }
  apply Forall_cons in HS as [Hd HS]. cbn [assemble]. rewrite (proj2 (Nat.leb_le _ _)) by done.
  destruct (a_partial a) eqn:EP; cbn [mbind option_bind]; rewrite IH by done; cbn [a_partial a_events a_wire a_frames];
    by rewrite <- app_assoc, Nat.add_succ_comm.
Qed.

Lemma assembleAll_continuations more : forall text sofar a, Forall (fun p => small (fst p)) more -> more <> [] -> a_partial a = Some (text, sofar) ->
  assembleAll a (continuations more) =
    let pings := concat (map fst more) in
    deliver text (sofar ++ concat (map snd more))
      (mkAssembly None (a_events a) (a_wire a ++ pongs (a_frames a) pings) (a_frames a + length pings)).
Proof.
  induction more as [|[pings data] more IH]; intros text sofar a HS HN HP; [done|]. apply Forall_cons in HS as [Hs HS].
  cbn [continuations map concat fst snd] in *. rewrite assembleAll_app, assembleAll_pings by done.
  cbn [mbind option_bind assembleAll assemble a_partial a_events a_wire a_frames]. rewrite HP. destruct more as [|m more].
  - cbn [isEmptyBuffer continuations map concat assembleAll]. rewrite !app_nil_r. unfold deliver. cbn [a_events a_wire a_frames].
    by destruct text; [destruct (_ || _)|].
  - cbn [isEmptyBuffer mbind option_bind]. rewrite (IH text (sofar ++ data)) by done. cbv zeta. cbn [a_events a_wire a_frames].
    by rewrite pongs_app, !length_app, <- !app_assoc, Nat.add_assoc.
Qed.

(** What the client sees of a message. *)
Definition messageEvent (text : bool) (data : list Z) : ClientEvent :=
  if text then didReceiveMessage (fst (decodeAll data)) else didReceiveBinaryData data.

(** Fragmentation cannot be seen.  A message that is cut into any number of
    frames, with pings between them, and whose bytes arrive in any pieces, is
    one call of the client with the whole message: its bytes, or what the
    UTF-8 codec makes of them, which may cut characters between frames and
    between pieces; and each ping has its pong. *)
Theorem channel_fragments_transparent h (k : K) (pieces : list (list Z)) (text : bool) (first : list Z)
    (more : list (list (list Z) * list Z)) :
  let message := first ++ concat (map snd more) in
  let pings := concat (map fst more) in
  hs_mode h = Connected -> Forall framed (messageFrames text first more) -> small pings ->
  snd (decodeAll message) = false -> Z.of_nat (length message) < 2 ^ 32 ->
  Forall (fun data => data <> []) pieces -> concat pieces = concat (map onWire (messageFrames text first more)) ->
  fitsVector (length (concat pieces)) -> accepts (Z.of_nat (length (pongs 0 pings))) k ->
  exists c, feed address pieces (newChannel h k) = Some (tt, c) /\
    shows c (mkAssembly None [messageEvent text message] (pongs 0 pings) (length pings)).
Proof.
  intros message pings HC HF HS HV HL HN EP HZ HK. apply (feed_new h k pieces (messageFrames text first more)); try done.
  assert (HD : forall wire n, deliver text message (mkAssembly None [] wire n) = Some (mkAssembly None [messageEvent text message] wire n)).
  { intros wire n. unfold deliver. rewrite HV, (proj2 (Z.leb_gt _ _)) by done. by destruct text. }
  unfold messageFrames. cbn [assembleAll assemble nothingYet a_partial]. destruct more as [|m more].
  - unfold message in *. cbn [isEmptyBuffer map concat continuations] in *. rewrite app_nil_r in HD. fold nothingYet in HD.
    unfold nothingYet. by rewrite HD, app_nil_r.
  - cbn [isEmptyBuffer mbind option_bind]. rewrite (assembleAll_continuations _ text first); try done.
    apply Forall_forall. intros p Hp. apply Forall_forall. intros data Hd. unfold small in HS. rewrite Forall_forall in HS. apply HS.
    apply list_elem_of_In, in_concat. exists (fst p). split; [apply in_map|]; by apply list_elem_of_In.
Qed.

(** ** The server closes *)

(** The body of a close frame: nothing, or a code and a reason. *)
Definition closeBody (status : option (Z * list Z)) : list Z :=
  match status with
  | None => []
  | Some (code, reason) => code / 256 :: code mod 256 :: reason
  end.
Definition closeFrame (status : option (Z * list Z)) : WebSocketFrame :=
  newFrame OpCodeClose true false false (closeBody status) (Z.of_nat (length (closeBody status))).
Definition closeBytes (status : option (Z * list Z)) : list Z := wire (closeFrame status) anyKey.

(** What the client is told of it. *)
Definition closeCode (status : option (Z * list Z)) : Z :=
  match status with Some (code, _) => code | None => CloseEventCodeNoStatusRcvd end.
Definition closeReason (status : option (Z * list Z)) : list UChar :=
  match status with Some (_, reason) => fst (decodeAll reason) | None => [] end.

(** A code of 16 bits that is not one of those no frame may carry, and a reason
    in UTF-8. *)
Definition validStatus (status : option (Z * list Z)) : Prop :=
  match status with
  | None => True
  | Some (code, reason) =>
      0 <= code < 2 ^ 16 /\ code <> CloseEventCodeNoStatusRcvd /\ code <> CloseEventCodeAbnormalClosure /\ code <> CloseEventCodeTLSHandshake /\
      bytes reason /\ (length reason <= 123)%nat /\ snd (decodeAll reason) = false
  end.

Lemma closeBody_short status : validStatus status -> (length (closeBody status) <= 125)%nat.
Proof. destruct status as [[code reason]|]; cbn; [intros (_ & _ & _ & _ & _ & HL & _)|]; lia. Qed.

Lemma handleCloseCode_spec status (c : Channel H K D) : validStatus status ->
  handleCloseCode (closeBody status) c = Some (true, c <| m_closeEventCode := closeCode status |>).
Proof.
  destruct status as [[code reason]|]; [|done]. intros (HC & H1' & H2' & H3' & _). cbn [closeBody handleCloseCode].
  assert (EC : Z.lor (Z.shiftl (code / 256) 8) (code mod 256) = code).
  { rewrite Z.shiftl_mul_pow2, Z.lor_comm by lia. change (2 ^ 8) with 256. rewrite (lor_disjoint _ _ 8) by (try (apply Z.mod_pos_bound); lia).
    pose proof (Z.div_mod code 256). lia. }
  rewrite EC. rewrite !(proj2 (Z.eqb_neq _ _)) by done. done.
Qed.

(** The reply has no body. *)
Definition closeReply (n : nat) : list Z := wire (newFrame OpCodeClose true false true [] 0) (maskingKeyOf n).

Lemma closeReason_read status : validStatus status ->
  (if Z.of_nat (length (closeBody status)) >=? 3 then fromUTF8 address (drop 2 (closeBody status)) else Some (Some [])) = Some (Some (closeReason status)).
Proof.
  destruct status as [[code reason]|]; [|done]. intros (_ & _ & _ & _ & HB & HL & HV). destruct reason as [|b reason]; [done|].
  cbn [closeBody closeReason drop]. rewrite (proj2 (Z.geb_le _ _)) by (cbn [length]; lia).
  apply fromUTF8_valid; [done|unfold stringSize; lia|done].
Qed.

(** The channel after the reply, with the code and the reason of the server. *)
Definition replied (su : Surroundings H) (k : K) (op : Z) (a : Assembly) (closing : bool) (code : Z) (reason : option (list UChar)) : Channel H K D :=
  mkChannel true true (Some (su_handshake su)) (Some k) [] (su_resumeTimer su) false closing true (su_closingTimer su) false false
    (su_unhandled su) (isSome (a_partial a)) (partialOpCode op a) (partialData a) code reason []
    OutgoingFrameQueueOpen None BlobLoaderNotStarted (mkDeflateFramer None) (a_events a) (a_wire a) (a_frames a).

Lemma closeReply_sendable n : sendable (newFrame OpCodeClose true false true [] 0) (maskingKeyOf n).
Proof. split; cbn [newFrame opCode payloadLength payload length]; [unfold OpCodeClose; lia|lia|lia|apply keys_four]. Qed.

Lemma startClosing_reply su k op a code reason string n : accepts n k -> Z.of_nat (length (closeReply (a_frames a))) <= n ->
  exists k' amount, startClosingHandshake code string (replied su k op a false code reason) =
    Some (tt, replied su k' op
      (mkAssembly (a_partial a) (a_events (withReport amount a) ++ [didStartClosingHandshake]) (a_wire a ++ closeReply (a_frames a)) (S (a_frames a))) true code reason).
Proof.
  intros HK HL. destruct (accepts_send n (closeReply (a_frames a)) k HK HL) as (amount & k' & EK & _). exists k', amount.
  pose proof (closeReply_sendable (a_frames a)) as HS. set (f := newFrame OpCodeClose true false true [] 0) in *.
  unfold startClosingHandshake, enqueueRawFrame, enqueue, processOutgoingFrameQueue, replied. run. cbn [app length outgoingLoop]. run.
  unfold sendOrFail, sendFrame, framer_deflate. run. cbn [m_streams orb negb length]. run. change (Z.of_nat 0) with 0. fold f.
  rewrite makeFrameData_spec by done. unfold handleSend. run. unfold closeReply in EK. fold f in EK. rewrite EK.
  destruct amount; unfold didUpdateBufferedAmount, notify; run; cbn [outgoingLoop]; unfold finishOutgoingFrameQueue, notify; run; done.
Qed.

(** The queue is empty and the handle is closed: at once if it keeps nothing,
    or else when the socket has closed. *)
Lemma closingQueue_closes su k op a code reason : exists c,
  (modify (fun c => c <| m_outgoingFrameQueueStatus := OutgoingFrameQueueClosing |>);; processOutgoingFrameQueue)
    (replied su k op a true code reason) = Some (tt, c) /\ ch_wire c = a_wire a /\ m_buffer c = [] /\
  let closed c := (exists k' : K, ch_events c = a_events a ++ [didClose (handle_bufferedAmount k') true code reason]) /\ ch_wire c = a_wire a /\
    m_buffer c = [] /\ m_client c = false /\ m_handle c = None /\ ch_closed c = true in
  closed c \/ (ch_events c = a_events a /\ m_client c = true /\ isSome (m_handle c) = true /\ ch_closed c = false /\
    forall framer, exists c', didCloseSocketStream (c <| m_deflateFramer := framer |>) = Some (tt, c') /\ closed c').
Proof.
  destruct (handle_close k) as [disconnects k'] eqn:EC. cbv zeta. destruct disconnects.
  - eexists. split.
    + unfold processOutgoingFrameQueue, replied. run. cbn [length outgoingLoop]. unfold finishOutgoingFrameQueue, handleClose. run. rewrite EC. run.
      unfold handle_disconnect, handle_disconnectWith, didCloseSocketStreamWith. run_nested. reflexivity.
    + run_nested. split_and!; [done|done|]. left. split_and!; try done. by exists k'.
  - eexists. split.
    + unfold processOutgoingFrameQueue, replied. run. cbn [length outgoingLoop]. unfold finishOutgoingFrameQueue, handleClose. run. rewrite EC. run. reflexivity.
    + cbn [ch_wire m_buffer ch_events m_client m_handle ch_closed isSome]. split_and!; [done|done|]. right. split_and!; try done. intros framer. eexists. split.
      * unfold didCloseSocketStream, didCloseSocketStreamWith, set_field, set_m_deflateFramer. run. run_nested. reflexivity.
      * run_nested. split_and!; try done. by exists k'.
Qed.

(** The channel answered the close frame, told the client and let go of the socket. *)
Definition closedBy (status : option (Z * list Z)) (a : Assembly) (c : Channel H K D) : Prop :=
  (exists k : K, quiet (ch_events c) = a_events a ++
    [didStartClosingHandshake; didClose (handle_bufferedAmount k) true (closeCode status) (Some (closeReason status))]) /\
  ch_wire c = a_wire a ++ closeReply (a_frames a) /\ m_buffer c = [] /\ m_client c = false /\ m_handle c = None /\ ch_closed c = true.

(** It answered, and waits for the handle to write what it keeps and to close. *)
Definition closingBy (status : option (Z * list Z)) (a : Assembly) (c : Channel H K D) : Prop :=
  quiet (ch_events c) = a_events a ++ [didStartClosingHandshake] /\
  ch_wire c = a_wire a ++ closeReply (a_frames a) /\ m_buffer c = [] /\ m_client c = true /\ isSome (m_handle c) = true /\ ch_closed c = false.

Definition closes (status : option (Z * list Z)) (a : Assembly) (c : Channel H K D) : Prop :=
  closedBy status a c \/ (closingBy status a c /\ exists c', didCloseSocketStream c = Some (tt, c') /\ closedBy status a c').

Lemma handleClose_spec su k op a a' status n : validStatus status -> same a a' -> quiet (a_events a') = a_events a' ->
  accepts n k -> Z.of_nat (length (closeReply (a_frames a))) <= n ->
  exists c, handleCloseFrame address (received (closeFrame status) []) (length (closeBytes status)) (live su k op (closeBytes status) a) = Some (true, c) /\
  m_buffer c = [] /\ forall framer, closes status a' (c <| m_deflateFramer := framer |>).
Proof.
  intros HV HSame HQuiet HK HN. set (code := closeCode status). set (reason := Some (closeReason status)).
  destruct (startClosing_reply su k op a code reason (pair false <$> reason) n HK HN) as (k1 & amount & HS).
  destruct (closingQueue_closes su k1 op
    (mkAssembly (a_partial a) (a_events (withReport amount a) ++ [didStartClosingHandshake]) (a_wire a ++ closeReply (a_frames a)) (S (a_frames a))) code reason)
    as (c & HQ & HW & HB & HC). cbn [a_events a_wire] in HW, HC. exists c. split; [|split; [done|intros framer]].
  2: { assert (HSR : same (withReport amount a) a') by (etransitivity; [apply withReport_same|exact HSame]). destruct HSR as [_ ER _ _]. rewrite HQuiet in ER. destruct HSame as [_ _ EW EF]. rewrite EW, EF in *.
    assert (HClosed : forall c : Channel H K D, ((exists k' : K, ch_events c = (a_events (withReport amount a) ++ [didStartClosingHandshake]) ++ [didClose (handle_bufferedAmount k') true code reason]) /\
      ch_wire c = a_wire a' ++ closeReply (a_frames a') /\ m_buffer c = [] /\ m_client c = false /\ m_handle c = None /\ ch_closed c = true) -> closedBy status a' c).
    { intros c0 ((k' & EE) & HC0). split; [exists k'; by rewrite EE, !quiet_app, ER, <- app_assoc|done]. }
    destruct HC as [HC|(HE & HC1 & HC2 & HC3 & HC4)]; [left; by apply HClosed|]. right. split.
    - split; [cbn; by rewrite HE, quiet_app, ER|done].
    - destruct (HC4 framer) as (c' & ED & HC'). exists c'. split; [exact ED|by apply HClosed]. }
  assert (EB : frame_bytes (received (closeFrame status) []) = closeBody status).
  { unfold frame_bytes, received. cbn [payload payloadLength closeFrame newFrame]. rewrite app_nil_r. unfold frame_bytes, closeFrame, newFrame. cbn [payload payloadLength].
    by rewrite !Nat2Z.id, !firstn_all. }
  unfold handleCloseFrame. rewrite EB. run. rewrite handleCloseCode_spec by done. cbn [negb payloadLength received closeFrame newFrame].
  assert (ER : forall c : Channel H K D, (if Z.of_nat (length (closeBody status)) >=? 3
    then match fromUTF8 address (drop 2 (closeBody status)) with Some reason0 => fun c0 => Some (reason0, c0) | None => fun _ => None end
    else fun c0 => Some (Some [], c0)) c = Some (reason, c)).
  { intros c0. pose proof (closeReason_read status HV) as HR. destruct (_ >=? 3); [by rewrite HR|]. unfold reason. by injection HR as <-. }
  rewrite ER. unfold skipBuffer, liveChannel. run. rewrite Nat.leb_refl, drop_all. run. fold code. unfold replied in HS. rewrite HS. revert HQ. unfold replied. run.
  intros HQ. by rewrite HQ.
Qed.

Lemma parse_closeBytes status : validStatus status ->
  parseFrame (closeBytes status) = FrameOK (received (closeFrame status) []) (length (closeBytes status)) (closeBytes status).
Proof.
  intros HV. pose proof (closeBody_short status HV). pose proof (parse_wire (closeFrame status) anyKey []) as HP. rewrite !app_nil_r in HP.
  apply HP. split; cbn [closeFrame newFrame opCode payloadLength payload anyKey]; [unfold OpCodeClose; lia|lia|lia|done].
Qed.

Lemma closeFrame_accepted status b : validStatus status -> frameProblem b (received (closeFrame status) []) = None.
Proof.
  intros HV. pose proof (closeBody_short status HV). unfold frameProblem, needsExtendedLengthField.
  cbn [received closeFrame newFrame opCode final masked payloadLength reserved2 reserved3]. rewrite Z.gtb_ltb.
  rewrite (proj2 (Z.ltb_ge maxPayloadLengthWithoutExtendedLengthField (Z.of_nat (length (closeBody status)))))
    by (unfold maxPayloadLengthWithoutExtendedLengthField; lia). by destruct b.
Qed.

Lemma processFrame_close su k op a a' status n : validStatus status -> same a a' -> quiet (a_events a') = a_events a' ->
  accepts n k -> Z.of_nat (length (closeReply (a_frames a))) <= n ->
  exists c, processFrame address (live su k op (closeBytes status) a) = Some (false, c) /\ closes status a' c.
Proof.
  intros HV HSame HQuiet HK HLen. destruct (handleClose_spec su k op a a' status n HV HSame HQuiet HK HLen) as (c & HH & HB & HC).
  exists (c <| m_deflateFramer := resetInflateContext (m_deflateFramer c) |>). split; [|apply HC].
  assert (HN : isEmptyBuffer (closeBytes status) = false) by (unfold closeBytes, wire; by destruct (lengthField _)).
  assert (HL : (0 <? length (closeBytes status))%nat = true) by (destruct (closeBytes status); done).
  unfold processFrame, processParsedFrame, framer_inflate. run. unfold liveChannel at 1 2. run. rewrite HN. run. rewrite parse_closeBytes by done. run.
  rewrite HL, Nat.leb_refl. run. cbn [compress received closeFrame newFrame m_streams negb andb]. run.
  fold (closeFrame status). fold (received (closeFrame status) []). rewrite closeFrame_accepted by done.
  fold (live su k op (closeBytes status) a).
  change (handleFrame address _ _ _) with
    (handleCloseFrame address (received (closeFrame status) []) (length (closeBytes status)) (live su k op (closeBytes status) a)).
  rewrite HH. by rewrite HB.
Qed.

Lemma closeBytes_length status : validStatus status -> (2 <= length (closeBytes status) <= 127)%nat.
Proof.
  intros HV. pose proof (closeBody_short status HV). unfold closeBytes, wire, wireMask, wirePayload, lengthField.
  cbn [closeFrame newFrame payloadLength masked]. rewrite (proj2 (Z.leb_le _ _)) by lia. cbn [app length].
  unfold frame_bytes. cbn [closeFrame newFrame payload payloadLength]. rewrite length_take. lia.
Qed.

Lemma receive_close su k op a a' status n : hs_mode (su_handshake su) = Connected -> validStatus status -> same a a' -> quiet (a_events a') = a_events a' ->
  accepts n k -> Z.of_nat (length (closeReply (a_frames a))) <= n ->
  exists c, didReceiveSocketStreamData address (closeBytes status) (live su k op [] a) = Some (tt, c) /\ closes status a' c.
Proof.
  intros HC HV HSame HQuiet HK HLen. destruct (processFrame_close su k op a a' status n HV HSame HQuiet HK HLen) as (c & HP & HB). exists c. split; [|done].
  pose proof (closeBytes_length status HV) as HL. assert (HN : closeBytes status <> []) by by destruct (closeBytes status); cbn in HL; [lia|].
  assert (HE : isEmptyBuffer (closeBytes status) = false) by by destruct (closeBytes status).
  unfold didReceiveSocketStreamData, appendToBuffer, processAll. rewrite HE. unfold liveChannel at 1. run. cbn [length Z.of_nat Z.add app].
  rewrite Z.mod_small, (proj2 (Z.ltb_ge _ _)) by lia. run. rewrite (vectorAppend_fits []) by (unfold fitsVector; cbn [length]; lia). run. cbn [processLoop app]. run. rewrite HE. run.
  pose proof (processBuffer_connected address su HC k op (closeBytes status) a HN) as HPB. rewrite HP in HPB. unfold liveChannel in HPB at 1.
  by rewrite HPB.
Qed.

Lemma feed_app xs ys (c : Channel H K D) : feed address (xs ++ ys) c = (feed address xs;; feed address ys) c.
Proof.
  revert c. induction xs as [|x xs IH]; intros c; [done|]. cbn [app feed]. unfold mbind, M_bind in IH |- *.
  destruct (didReceiveSocketStreamData address x c) as [[[] c1]|]; [apply IH|done].
Qed.

End Conversation.

(** ** Conversations that happen *)

Lemma sample_keys n : length (maskingKeyOf n) = maskingKeyWidthInBytes.
Proof. done. Qed.

Ltac solve_bytes := repeat (apply Forall_cons_2; [lia|]); apply Forall_nil_2.
Ltac solve_framed := repeat apply Forall_cons_2; try apply Forall_nil_2; (split; cbn [sf_bytes length]; [solve_bytes|lia]).

(** A ping between two binary frames of a message, then a text; the pieces cut
    through headers. *)
Lemma channel_assembles_messages_witness :
  let frames := [DataFrame false false [7]; PingFrame [9]; ContinuationFrame true [8]; DataFrame true true [0x48; 0x69]] in
  exists c : Channel unit (SocketStreamHandle (list Z)) unit, feed 0 [[0x02]; [0x01; 0x07; 0x89; 0x01]; [0x09; 0x80; 0x01; 0x08; 0x81]; [0x02; 0x48; 0x69]] (newChannel tt openHandle) = Some (tt, c) /\
    shows c (mkAssembly None [didReceiveBinaryData [7; 8]; didReceiveMessage [0x48; 0x69]] [0x8A; 0x81; 1; 2; 3; 4; 8] 1).
Proof.
  intros frames. apply (channel_assembles_messages 0 sample_keys tt openHandle _ frames).
  - reflexivity.
  - solve_framed.
  - by repeat constructor.
  - vm_compute. reflexivity.
  - vm_compute. reflexivity.
  - vm_compute. reflexivity.
  - apply openHandle_accepts. vm_compute. discriminate.
Defined.

(** The letter e with an acute accent, cut between two frames. *)
Lemma channel_fragments_transparent_witness :
  exists c : Channel unit (SocketStreamHandle (list Z)) unit, feed 0 [[0x01; 0x01; 0xC3; 0x89]; [0x00; 0x80]; [0x02; 0xA9; 0x21]] (newChannel tt openHandle) = Some (tt, c) /\
    shows c (mkAssembly None [messageEvent true [0xC3; 0xA9; 0x21]] (pongs 0 [[]]) 1).
Proof.
  apply (channel_fragments_transparent 0 sample_keys tt openHandle _ true [0xC3] [([[]], [0xA9; 0x21])]).
  - reflexivity.
  - solve_framed.
  - by repeat constructor.
  - vm_compute. reflexivity.
  - vm_compute. reflexivity.
  - by repeat constructor.
  - vm_compute. reflexivity.
  - vm_compute. reflexivity.
  - apply openHandle_accepts. vm_compute. discriminate.
Defined.


(** A message, the closing handshake of the server, and what comes too late. *)
Definition closedChannel : Channel unit bool unit :=
  mkChannel false false (Some tt) None [] false false true true false true false 0 false OpCodeInvalid [] 1000 (Some [])
    [] OutgoingFrameQueueClosed None BlobLoaderNotStarted (mkDeflateFramer None)
    [didReceiveMessage [0x48]; didStartClosingHandshake; didClose 0 true 1000 (Some [])] [0x88; 0x80; 1; 2; 3; 4] 1.

