(* ===== verification/WebSocketInvariant.v ===== *)
(** * The invariant of a web socket channel

    What holds of the members of a channel between any two calls, and what
    follows from it: a socket that closes is reported to the client. *)

From S2P Require Import Prelude TextCodecUTF8 UnicodeUTF8 WebSocketFrame WebSocketChannel WebSocketLifecycle WebSocketSession.
Open Scope Z_scope.

Section Invariant.
Context {H K D : Type} `{WebSocketHandshakeOps H} `{SocketStreamHandleOps K} `{ZlibOps D} `{MaskingKeys}.
Variable address : Z.

Abbreviation Chan := (Channel H K D).
Abbreviation Op := (@M H K D).

(** Data is kept only for a message in several frames, whose kind is known; a
    queue that is closed is empty; there is a loader exactly while a blob is loading or
    loaded; the client and the document are forgotten together; a client has
    a socket; the handshake stays. *)
Record channel_ok (c : Chan) : Prop := {
  ok_data : m_hasContinuousFrame c = false -> m_continuousFrameData c = [];
  ok_opcode : m_hasContinuousFrame c = true -> m_continuousFrameOpCode c = OpCodeText \/ m_continuousFrameOpCode c = OpCodeBinary;
  ok_queue : m_outgoingFrameQueueStatus c = OutgoingFrameQueueClosed -> m_outgoingFrameQueue c = [];
  ok_loader : isSome (m_blobLoader c) = loaderIs BlobLoaderStarted c || loaderIs BlobLoaderFinished c;
  ok_client : m_client c = m_document c;
  ok_handle : m_client c = true -> isSome (m_handle c) = true;
  ok_handshake : isSome (m_handshake c) = true
}.

(** An operation that keeps it. *)
Definition keeps {A : Type} (m : Op A) : Prop := forall c r c', channel_ok c -> m c = Some (r, c') -> channel_ok c'.

Lemma keeps_ret {A} (a : A) : keeps (mret a).
Proof. by intros c r c' HC [= _ <-]. Qed.
Lemma keeps_get {A} (f : Chan -> A) : keeps (get f).
Proof. by intros c r c' HC [= _ <-]. Qed.
Lemma keeps_crash {A} : keeps (crash (A := A)).
Proof. by intros c r c'. Qed.
Lemma keeps_ASSERT b : keeps (ASSERT b).
Proof. intros c r c' HC HE. unfold ASSERT in HE. destruct (b c); [|done]. by injection HE as _ <-. Qed.
Lemma keeps_bind {A B} (m : Op A) (f : A -> Op B) : keeps m -> (forall a, keeps (f a)) -> keeps (a ← m; f a).
Proof.
  intros HM HF c r c' HC HE. unfold mbind, M_bind in HE. destruct (m c) as [[a c1]|] eqn:E1; [|done].
  eapply HF; [|exact HE]. by eapply HM.
Qed.
Lemma keeps_when b m : keeps m -> keeps (when b m).
Proof. intros HM. destruct b; [done|apply keeps_ret]. Qed.
Lemma keeps_modify f : (forall c, channel_ok c -> channel_ok (f c)) -> keeps (modify f).
Proof. intros HF c r c' HC [= _ <-]. by apply HF. Qed.
Lemma keeps_notify e : keeps (notify e).
Proof. intros c r c' HC HN. unfold notify in HN. destruct (m_client c); [|done]. injection HN as _ <-. by destruct HC. Qed.

(** Two updates, and a test in front of an operation. *)
Lemma keeps_modify2 {A} f g (m : Op A) : keeps (modify (fun c => g (f c));; m) -> keeps (modify f;; modify g;; m).
Proof. done. Qed.
Lemma keeps_modify_ASSERT {A} f b g (m : Op A) : keeps (modify (fun c => g (f c));; m) -> keeps (modify f;; ASSERT b;; modify g;; m).
Proof. intros HM c r c' HC HE. unfold mbind, M_bind, modify, ASSERT in HE. destruct (b (f c)); [|done]. by apply (HM c r c' HC). Qed.
Lemma keeps_test {A B} (f : Chan -> A) (m : A -> Op B) : (forall c r c', channel_ok c -> m (f c) c = Some (r, c') -> channel_ok c') -> keeps (a ← get f; m a).
Proof. intros HF c r c' HC HE. by eapply HF. Qed.

(** ** Every operation keeps it *)

Create HintDb keeps.
#[local] Hint Resolve keeps_ret keeps_get keeps_crash keeps_ASSERT keeps_notify : keeps.

Ltac ok_step := let HC := fresh in intros ? HC; destruct HC; split; try done; try (by intros; simplify_eq/=).

(** Goes through the statements of an operation. *)
Ltac keeps :=
  intros;
  repeat first
    [ progress auto with keeps
    | apply keeps_modify; ok_step; fail
    | apply keeps_bind; [|intros]
    | apply keeps_when
    | match goal with |- keeps (match ?x with _ => _ end) => destruct x end ].

Lemma keeps_skipBuffer len : keeps (skipBuffer len).
Proof. unfold skipBuffer. keeps. Qed.
Lemma keeps_appendToBuffer data : keeps (appendToBuffer data).
Proof. unfold appendToBuffer. keeps. Qed.
#[local] Hint Resolve keeps_skipBuffer keeps_appendToBuffer : keeps.

(** The handle that is disconnected is still there. *)
Lemma keeps_disconnected : keeps (modify (fun c : Chan => c <| m_handle := handle_disconnected <$> m_handle c |>)).
Proof. apply keeps_modify. intros c []. split; try done. cbn. intros HC. by destruct (m_handle c); [|apply ok_handle0]. Qed.
#[local] Hint Resolve keeps_disconnected : keeps.

Section Failing.
Variable failOp : string -> Op unit.
Hypothesis failOp_keeps : forall reason, keeps (failOp reason).
#[local] Hint Resolve failOp_keeps : keeps.

Lemma keeps_didFailWith errorCode : keeps (didFailWith failOp errorCode).
Proof. unfold didFailWith. do 2 (apply keeps_bind; [keeps|intros _]). apply keeps_modify2. keeps. Qed.
#[local] Hint Resolve keeps_didFailWith : keeps.
Lemma keeps_abortWith : keeps (abortOutgoingFrameQueueWith failOp).
Proof. unfold abortOutgoingFrameQueueWith. apply keeps_modify2. keeps. Qed.
#[local] Hint Resolve keeps_abortWith : keeps.
Lemma keeps_didCloseSocketStreamWith : keeps (didCloseSocketStreamWith failOp).
Proof. unfold didCloseSocketStreamWith. keeps. Qed.
#[local] Hint Resolve keeps_didCloseSocketStreamWith : keeps.
Lemma keeps_handle_disconnectWith : keeps (handle_disconnectWith failOp).
Proof. unfold handle_disconnectWith. keeps. Qed.
End Failing.

Lemma keeps_failRounds n : forall reason, keeps (failRounds n reason).
Proof.
  induction n as [|n IH]; intros reason; cbn [failRounds]; [apply keeps_crash|]. pose proof (keeps_handle_disconnectWith _ IH). unfold failWith.
  do 8 (apply keeps_bind; [keeps|intros]). apply keeps_modify2. keeps.
Qed.

Lemma keeps_fail reason : keeps (fail reason).
Proof. apply keeps_failRounds. Qed.
Lemma keeps_didFail errorCode : keeps (didFail errorCode).
Proof. apply keeps_didFailWith, keeps_fail. Qed.
Lemma keeps_didCloseSocketStream : keeps didCloseSocketStream.
Proof. apply keeps_didCloseSocketStreamWith, keeps_fail. Qed.
Lemma keeps_handle_disconnect : keeps handle_disconnect.
Proof. apply keeps_handle_disconnectWith, keeps_fail. Qed.
#[local] Hint Resolve keeps_fail keeps_didFail keeps_didCloseSocketStream keeps_handle_disconnect : keeps.

Lemma keeps_handleSend data : keeps (handleSend data).
Proof. unfold handleSend, didUpdateBufferedAmount. keeps. Qed.
#[local] Hint Resolve keeps_handleSend : keeps.
Lemma keeps_sendOrFail opCode data : keeps (sendOrFail opCode data).
Proof. unfold sendOrFail, sendFrame. keeps. Qed.
#[local] Hint Resolve keeps_sendOrFail : keeps.

(** The queue is closed when it is empty. *)
Lemma keeps_finishOutgoingFrameQueue : keeps finishOutgoingFrameQueue.
Proof.
  unfold finishOutgoingFrameQueue, handleClose. intros c r c' HC HE. unfold mbind at 1, M_bind at 1, ASSERT in HE.
  destruct (isEmptyBuffer (m_outgoingFrameQueue c)) eqn:EQ; [|done]. revert HE. revert r c'. destruct (m_outgoingFrameQueue c) eqn:EC; [|done].
  intros r c'. unfold mbind at 1, M_bind at 1, get at 1. destruct (statusIs OutgoingFrameQueueClosing c); cbn [when]; [|by intros [= _ <-]].
  unfold mbind at 1, M_bind at 1, modify at 1. match goal with |- ?m ?c1 = _ -> _ => assert (HM : keeps m) by keeps; assert (HC1 : channel_ok c1) end.
  - destruct HC. by split.
  - by apply HM.
Qed.
#[local] Hint Resolve keeps_finishOutgoingFrameQueue : keeps.

(** A round that finds a frame has a queue that is not closed. *)
Lemma keeps_outgoingLoop fuel : keeps (outgoingLoop fuel).
Proof.
  induction fuel as [|fuel IH]; cbn [outgoingLoop]; [keeps|]. apply keeps_test. intros c r c' HC.
  destruct (m_outgoingFrameQueue c) as [|frame rest] eqn:EQ; [by apply keeps_finishOutgoingFrameQueue|].
  assert (HS : m_outgoingFrameQueueStatus c <> OutgoingFrameQueueClosed) by (intros HS; by rewrite (ok_queue c HC HS) in EQ).
  unfold mbind at 1, M_bind at 1, modify at 1. set (c1 := c <| m_outgoingFrameQueue := rest |>).
  assert (HC1 : channel_ok c1) by (destruct HC; by split). destruct frame as [o d|o d|o].
  1-2: apply (keeps_bind (sendOrFail o d) (fun _ => outgoingLoop fuel)); [keeps|done|done].
  unfold mbind at 1, M_bind at 1, get at 1. change (m_blobLoaderStatus c1) with (m_blobLoaderStatus c).
  assert (HP : forall l s, isSome l = loaderIs BlobLoaderStarted (c1 <| m_blobLoaderStatus := s |>) || loaderIs BlobLoaderFinished (c1 <| m_blobLoaderStatus := s |>) ->
    channel_ok (c1 <| m_blobLoader := l |> <| m_blobLoaderStatus := s |> <| m_outgoingFrameQueue := QueuedFrameTypeBlob o :: rest |>)).
  { intros l s HL. destruct HC1. by split. }
  destruct (m_blobLoaderStatus c) eqn:EL.
  - unfold mbind, M_bind, ASSERT. destruct (negb _); [|done]. intros [= _ <-]. by apply HP.
  - intros [= _ <-]. destruct HC. by split.
  - match goal with |- ?m c1 = _ -> _ => assert (HM : keeps m) end; [|by apply HM].
    apply keeps_bind; [keeps|]. intros [result|]; [|keeps]. apply keeps_modify2. keeps.
  - intros [= _ <-]. destruct HC. by split.
Qed.
#[local] Hint Resolve keeps_outgoingLoop : keeps.
Lemma keeps_processOutgoingFrameQueue : keeps processOutgoingFrameQueue.
Proof. unfold processOutgoingFrameQueue. keeps. Qed.
#[local] Hint Resolve keeps_processOutgoingFrameQueue : keeps.

Lemma keeps_enqueue frame : keeps (enqueue frame).
Proof.
  intros c r c' HC. unfold enqueue, mbind, M_bind, ASSERT, statusIs, modify. destruct (m_outgoingFrameQueueStatus c) eqn:ES; [|done..].
  intros [= _ <-]. destruct HC. split; try done. cbn. by rewrite ES.
Qed.
Lemma keeps_stringUTF8 string mode : keeps (stringUTF8 string mode).
Proof. unfold stringUTF8. keeps. Qed.
#[local] Hint Resolve keeps_enqueue keeps_stringUTF8 : keeps.
Lemma keeps_startClosingHandshake code reason : keeps (startClosingHandshake code reason).
Proof. unfold startClosingHandshake, enqueueRawFrame. keeps. Qed.
Lemma keeps_decodeMessage data : keeps (decodeMessage address data).
Proof. unfold decodeMessage. keeps. Qed.
Lemma keeps_deliverText message : keeps (deliverText message).
Proof. unfold deliverText. keeps. Qed.
Lemma keeps_handleCloseCode data : keeps (handleCloseCode data).
Proof. unfold handleCloseCode. keeps. Qed.
#[local] Hint Resolve keeps_startClosingHandshake keeps_decodeMessage keeps_deliverText keeps_handleCloseCode : keeps.

(** It changes the data kept for the message, or is a crash. *)
Lemma appendToContinuousFrame_run data (c : Chan) : appendToContinuousFrame data c = None \/
  exists sofar, appendToContinuousFrame data c = Some (tt, c <| m_continuousFrameData := sofar |>).
Proof.
  unfold appendToContinuousFrame, mbind, M_bind, get, modify, crash. destruct (vectorAppend _ data) as [sofar|]; [right; by exists sofar|by left].
Qed.

Lemma keeps_startContinuousFrame (text : bool) data frameEnd : keeps (startContinuousFrame (if text then OpCodeText else OpCodeBinary) data frameEnd).
Proof.
  intros c r c' HC. unfold startContinuousFrame, mbind, M_bind, modify, ASSERT. destruct (isEmptyBuffer _); [|done].
  match goal with |- context [appendToContinuousFrame data ?c2] => destruct (appendToContinuousFrame_run data c2) as [->|(sofar & ->)]; [done|] end.
  apply keeps_skipBuffer. destruct HC. split; try done. intros _. cbn. destruct text; auto.
Qed.

Lemma keeps_handleContinuation frame frameEnd : keeps (handleContinuation address frame frameEnd).
Proof.
  apply keeps_test. intros c r c' HC. destruct (m_hasContinuousFrame c) eqn:EC; cbn [negb].
  - unfold mbind at 1, M_bind at 1. destruct (appendToContinuousFrame_run (frame_bytes frame) c) as [->|(sofar & ->)]; [done|].
    match goal with |- ?m ?c1 = _ -> _ => assert (HM : keeps m); [|assert (HC1 : channel_ok c1)] end.
    + apply keeps_bind; [keeps|intros _]. apply keeps_bind; [|keeps]. apply keeps_when, keeps_bind; [keeps|intros]. apply keeps_modify2. keeps.
    + destruct HC. split; try done. cbn. by rewrite EC.
    + by apply HM.
  - apply (keeps_bind (fail _) (fun _ => mret false)); [keeps|keeps|done].
Qed.

Lemma keeps_handleFrame frame frameEnd : keeps (handleFrame address frame frameEnd).
Proof.
  pose proof (keeps_startContinuousFrame true). pose proof (keeps_startContinuousFrame false). pose proof keeps_handleContinuation.
  unfold handleFrame, handleText, handleBinary, handleCloseFrame, handlePing, handlePong, enqueueRawFrame. keeps.
Qed.
#[local] Hint Resolve keeps_handleFrame : keeps.
Lemma keeps_processFrame : keeps (processFrame address).
Proof. unfold processFrame, processParsedFrame. keeps. Qed.
#[local] Hint Resolve keeps_processFrame : keeps.
Lemma keeps_processBuffer : keeps (processBuffer address).
Proof. unfold processBuffer, processHandshake. keeps. Qed.
#[local] Hint Resolve keeps_processBuffer : keeps.
Lemma keeps_processLoop fuel : keeps (processLoop address fuel).
Proof. induction fuel as [|fuel IH]; cbn [processLoop]; keeps. Qed.
#[local] Hint Resolve keeps_processLoop : keeps.

Lemma keeps_didFinishLoading result : keeps (didFinishLoading result).
Proof. unfold didFinishLoading. do 2 (apply keeps_bind; [keeps|intros _]). apply keeps_modify2. keeps. Qed.
#[local] Hint Resolve keeps_didFinishLoading : keeps.

Lemma keeps_performCall call : keeps (performCall address call).
Proof.
  destruct call; cbn [performCall];
    unfold sendString, sendArrayBuffer, sendBlob, sendBytes, close, disconnect, suspend, resume, didOpenSocketStream, didReceiveSocketStreamData,
      didUpdateBufferedAmount, didFailSocketStream, resumeTimerFired, processAll, closingTimerFired,
      enqueueTextFrame, enqueueRawFrame, enqueueBlobFrame; keeps.
Qed.

Lemma keeps_performCalls calls : keeps (performCalls address calls).
Proof. induction calls as [|call calls IH]; cbn [performCalls]; [apply keeps_ret|]. apply keeps_bind; [apply keeps_performCall|done]. Qed.

Lemma newChannel_ok h k : channel_ok (newChannel h k).
Proof. by split. Qed.

(** C25: the invariant of the channel.  After any sequence of calls, data is kept only
    for a message in several frames whose opcode is text or binary, a closed
    queue is empty, there is a loader exactly while a blob is loading or loaded, the client
    and the document are forgotten together, a channel with a client has a
    socket handle, and the handshake is there. *)
Theorem channel_invariant (h : H) (k : K) (calls : list Call) (c : Chan) :
  performCalls address calls (newChannel h k) = Some (tt, c) -> channel_ok c.
Proof. apply keeps_performCalls, newChannel_ok. Qed.

(** ** A socket that closes *)

(** The client was told, with the code and the reason of the channel, as the last
    thing; it and the handle are gone. *)
Definition reported (c c' : Chan) : Prop :=
  exists errors amount, ch_events c' = ch_events c ++ errors ++ [didClose amount (m_receivedClosingHandshake c) (m_closeEventCode c) (m_closeEventReason c)] /\
    errors ∈ [[]; [didReceiveMessageError]] /\ m_client c' = false /\ m_handle c' = None /\ ch_closed c' = true.

(** A blob that is loading fails first, which the client is told. *)
Lemma close_reported c : channel_ok c -> m_client c = true -> m_suspended c = false ->
  exists c', didCloseSocketStream c = Some (tt, c') /\ reported c c'.
Proof.
  intros [] HC HS. rewrite HC in *. specialize (ok_handle0 eq_refl). destruct c as [document client handshake handle buffer ? suspended ? ? ? ? ? ? ? ? ? ? ? ? status loader loaderStatus ? ? ? ?].
  cbn [m_client m_suspended m_handle m_handshake m_document m_blobLoader] in *. subst.
  destruct handle as [k|]; [|done]. destruct handshake as [h|]; [|done].
  unfold didCloseSocketStream, didCloseSocketStreamWith. run. destruct (OutgoingFrameQueueStatus_eqb status OutgoingFrameQueueClosed).
  - run. eexists. split; [reflexivity|]. exists [], (handle_bufferedAmount k). split_and!; try done. apply list_elem_of_here.
  - run. unfold abortOutgoingFrameQueueWith. run. destruct loaderStatus; run.
    2: { cbn in ok_loader0. destruct loader; [|done]. unfold didFailWith, fail. cbn [failRounds]. unfold failWith. run.
      destruct (length buffer =? 0)%nat; unfold notify, skipBuffer; run; [|rewrite Nat.leb_refl; run]; (eexists; split; [reflexivity|]);
        exists [didReceiveMessageError], (handle_bufferedAmount k); split_and!; try done; try apply list_elem_of_further, list_elem_of_here; cbn; by rewrite <- app_assoc. }
    all: eexists; (split; [reflexivity|]); exists [], (handle_bufferedAmount k); split_and!; try done; apply list_elem_of_here.
Qed.

(** While it is suspended the channel only remembers that the socket is closed. *)
Lemma close_suspended c : channel_ok c -> m_client c = true -> m_suspended c = true -> loaderIs BlobLoaderStarted c = false ->
  exists c1, didCloseSocketStream c = Some (tt, c1) /\ ch_closed c1 = true /\ m_client c1 = true /\ m_buffer c1 = m_buffer c /\
    ch_events c1 = ch_events c /\ m_receivedClosingHandshake c1 = m_receivedClosingHandshake c /\ m_closeEventCode c1 = m_closeEventCode c /\ m_closeEventReason c1 = m_closeEventReason c.
Proof.
  intros HOK HC HS HL. pose proof (ok_handle c HOK HC) as HH.
  destruct c as [document client handshake handle buffer ? suspended ? ? ? ? ? ? ? ? ? ? ? ? status loader loaderStatus ? ? ? ?].
  cbn [m_client m_suspended m_handle] in *. subst. destruct handle as [k|]; [|done]. unfold loaderIs in HL. cbn [m_blobLoaderStatus] in HL.
  unfold didCloseSocketStream, didCloseSocketStreamWith. run.
  destruct (OutgoingFrameQueueStatus_eqb status OutgoingFrameQueueClosed); [|unfold abortOutgoingFrameQueueWith; run; rewrite HL]; run; eexists; (split; [reflexivity|]); by split_and!.
Qed.

(** The timer started by [resume] reports it. *)
Lemma resume_reports c : channel_ok c -> m_client c = true -> ch_closed c = true -> m_buffer c = [] ->
  exists c1 c', resume c = Some (tt, c1) /\ m_resumeTimer c1 = true /\ resumeTimerFired address c1 = Some (tt, c') /\ reported c c'.
Proof.
  intros HOK HC HD HB. set (c1 := c <| m_suspended := false |> <| m_resumeTimer := true |>). set (c2 := c1 <| m_resumeTimer := false |>).
  assert (HOK2 : channel_ok c2) by (destruct HOK; by split). destruct (close_reported c2 HOK2 HC eq_refl) as (c' & EC & HR). exists c1, c'.
  pose proof (ok_handle c HOK HC) as HH. revert EC HR. unfold resume, resumeTimerFired, processAll, c2, c1.
  destruct c as [document client handshake handle buffer timer suspended ? ? ? closed ? ? ? ? ? ? ? ? status loader loaderStatus ? ? ? ?].
  cbn [m_client ch_closed m_buffer m_handle] in *. subst. run. intros EC HR. split_and!; [by destruct timer|done| |exact HR].
  cbn [length processLoop]. run. rewrite HH. run. exact EC.
Qed.

(** C26: a socket that closes is reported.  Whatever was called before, as long as the
    client has not disconnected or been told already: when the socket closes and the channel is not suspended, no assertion fails and
    the client is told at once that the connection is closed, with the code and
    the reason of the close frame if there was one.  If the channel is suspended,
    no blob is being loaded and nothing is left to read, then closing the socket
    and resuming the channel starts the timer, which reports it.  Nothing is said
    of a channel that is suspended while a blob is loading: there an assertion
    fails ([closing_while_suspended_asserts]). *)
Theorem closed_socket_is_reported (h : H) (k : K) (calls : list Call) (c : Chan) :
  performCalls address calls (newChannel h k) = Some (tt, c) -> m_client c = true ->
  (m_suspended c = false -> exists c', performCalls address [callDidCloseSocketStream] c = Some (tt, c') /\ reported c c') /\
  (m_suspended c = true -> m_buffer c = [] -> loaderIs BlobLoaderStarted c = false ->
    exists c1 c', performCalls address [callDidCloseSocketStream; callResume] c = Some (tt, c1) /\ m_resumeTimer c1 = true /\
      performCall address callResumeTimerFired c1 = Some (tt, c') /\ reported c c').
Proof.
  intros HP HC. assert (HOK : channel_ok c) by (eapply keeps_performCalls; [apply newChannel_ok|exact HP]). split.
  - intros HS. destruct (close_reported c HOK HC HS) as (c' & EC & HR). exists c'. split; [|done]. cbn [performCalls performCall]. run. by rewrite EC.
  - intros HS HB HL. destruct (close_suspended c HOK HC HS HL) as (c1 & E1 & HD & HC1 & HB1 & HE & HX1 & HX2 & HX3).
    assert (HOK1 : channel_ok c1) by (eapply keeps_didCloseSocketStream; [exact HOK|exact E1]). rewrite HB in HB1.
    destruct (resume_reports c1 HOK1 HC1 HD HB1) as (c2 & c' & E2 & HT & E3 & HR). exists c2, c'. unfold reported in *. rewrite HE, HX1, HX2, HX3 in HR.
    split_and!; try done. cbn [performCalls performCall]. run. by rewrite E1, E2.
Qed.
End Invariant.

(** ** Examples *)
Import Sample.

(** A binary message of which a part has arrived. *)
Lemma channel_invariant_witness :
  exists c, performCalls 0 [callDidReceiveSocketStreamData [0x02; 0x01; 0x07]; callSendBlob] (channel true) = Some (tt, c) /\ channel_ok c.
Proof. eexists. split; [vm_compute; reflexivity|]. eapply (channel_invariant 0 tt true [callDidReceiveSocketStreamData [0x02; 0x01; 0x07]; callSendBlob]). vm_compute. reflexivity. Defined.

Lemma closed_socket_is_reported_witness :
  exists c c', performCalls 0 [callDidReceiveSocketStreamData [0x81; 0x00]; callSuspend] (channel true) = Some (tt, c) /\
    exists c1, performCalls 0 [callDidCloseSocketStream; callResume] c = Some (tt, c1) /\ m_resumeTimer c1 = true /\
      performCall 0 callResumeTimerFired c1 = Some (tt, c') /\ reported c c'.
Proof.
  destruct (performCalls 0 [callDidReceiveSocketStreamData [0x81; 0x00]; callSuspend] (channel true)) as [[[] c]|] eqn:E; [|by vm_compute in E].
  destruct (closed_socket_is_reported 0 tt true [callDidReceiveSocketStreamData [0x81; 0x00]; callSuspend] c E) as [_ HS].
  - vm_compute in E. by injection E as <-.
  - exists c. destruct HS as (c1 & c' & E1 & HR); [vm_compute in E; by injection E as <-..|]. exists c'. split; [done|]. by exists c1.
Defined.

(** A blob is being loaded when the channel is suspended: closing the socket aborts it,
    and the failure this reports asserts that the channel is not suspended. *)
Theorem closing_while_suspended_asserts : performCalls 0 [callSendBlob; callSuspend; callDidCloseSocketStream] (channel true) = None.
Proof. vm_compute. reflexivity. Qed.
