(* ===== verification/WebSocketExtensions.v ===== *)
(** * The extensions of a web socket

    [Modules/websockets/WebSocketExtensionParser.cpp],
    [WebSocketExtensionDispatcher.cpp] and the extension of
    [WebSocketDeflateFramer.cpp]: reading the Sec-WebSocket-Extensions header of
    the server and negotiating compression. *)

From S2P Require Import Prelude TextCodecUTF8 UnicodeUTF8 IntegerParsing WebSocketFrame WebSocketChannel.
From stdpp Require Import gmap.
Open Scope Z_scope.

(** ** [WebSocketExtensionParser]

    [m_current] is the list of the bytes up to [m_end].  The functions return
    [m_currentToken] if they set it. *)

Definition isASCIIPrintable (c : Z) : bool := (c >=? 32) && (c <=? 126).

(** The characters of ()<>@,;:\QUOTE/[]?={} with space and tab. *)
Definition separatorCharacters : list Z := [40; 41; 60; 62; 64; 44; 59; 58; 92; 34; 47; 91; 93; 63; 61; 123; 125; 32; 9].
Definition isSeparator (character : Z) : bool := existsb (Z.eqb character) separatorCharacters.
Definition isTokenCharacter (c : Z) : bool := isASCIIPrintable c && negb (isSeparator c).

Fixpoint skipSpaces (data : list Z) : list Z :=
  match data with
  | c :: rest => if (c =? 32) || (c =? cTAB) then skipSpaces rest else data
  | [] => []
  end.

Fixpoint spanToken (data : list Z) : list Z * list Z :=
  match data with
  | c :: rest => if isTokenCharacter c then let '(token, rest) := spanToken rest in (c :: token, rest) else ([], data)
  | [] => ([], [])
  end.

Definition consumeToken (data : list Z) : option (list UChar) * list Z :=
  match spanToken (skipSpaces data) with
  | ([], rest) => (None, rest)
  | (token, rest) => (Some token, rest)
  end.

(** The loop of [consumeQuotedString]: the buffer and what begins with the quote,
    or [None] if the data ends first. *)
Fixpoint quotedLoop (data buffer : list Z) : option (list Z * list Z) :=
  match data with
  | [] => None
  | c :: rest =>
      if c =? cQUOT then Some (buffer, data)
      else if c =? 92 then
        match rest with
        | [] => None
        | c :: rest => quotedLoop rest (buffer ++ [c])
        end
      else quotedLoop rest (buffer ++ [c])
  end.

(** [String::fromUTF8(buffer.data(), buffer.size())]: the pointer of a vector
    nothing was appended to is null. *)
Definition fromBuffer (address : Z) (buffer : list Z) : option (option (list UChar)) :=
  match buffer with
  | [] => Some None
  | _ => fromUTF8 address buffer
  end.

Section Parser.
(** Where the buffer of a quoted string lies. *)
Variable address : Z.

Definition consumeQuotedString (data : list Z) : option (option (list UChar) * list Z) :=
  let data := skipSpaces data in
  match data with
  | c :: rest =>
      if c =? cQUOT then
        match quotedLoop rest [] with
        | None => Some (None, [])
        | Some (buffer, atQuote) =>
            match fromBuffer address buffer with
            | None => None
            | Some None => Some (None, atQuote)
            | Some (Some token) => Some (Some token, tail atQuote)
            end
        end
      else Some (None, data)
  | [] => Some (None, [])
  end.

Definition consumeQuotedStringOrToken (data : list Z) : option (option (list UChar) * list Z) :=
  match consumeQuotedString data with
  | None => None
  | Some (Some token, rest) => Some (Some token, rest)
  | Some (None, rest) => Some (consumeToken rest)
  end.

Definition consumeCharacter (character : Z) (data : list Z) : bool * list Z :=
  let data := skipSpaces data in
  match data with
  | c :: rest => if c =? character then (true, rest) else (false, data)
  | [] => (false, [])
  end.

(** [HashMap<String, String>]; the value [None] is the null string.  [add] keeps
    an entry that is there. *)
Definition Parameters : Type := gmap (list UChar) (option (list UChar)).
Definition addParameter (name : list UChar) (value : option (list UChar)) (m : Parameters) : Parameters :=
  match m !! name with
  | Some _ => m
  | None => <[name := value]> m
  end.

(** The loop over the parameters: a round consumes a semicolon. *)
Fixpoint parametersLoop (fuel : nat) (data : list Z) (m : Parameters) : option (option Parameters * list Z) :=
  match fuel with
  | O => None
  | S fuel =>
      let '(semicolon, data) := consumeCharacter 59 data in
      if negb semicolon then Some (Some m, data)
      else
        match consumeToken data with
        | (None, data) => Some (None, data)
        | (Some name, data) =>
            let '(equals, data) := consumeCharacter 61 data in
            if equals then
              match consumeQuotedStringOrToken data with
              | None => None
              | Some (None, data) => Some (None, data)
              | Some (Some value, data) => parametersLoop fuel data (addParameter name (Some value) m)
              end
            else parametersLoop fuel data (addParameter name None m)
        end
  end.

Definition parseExtension (data : list Z) : option (option (list UChar * Parameters) * list Z) :=
  match consumeToken data with
  | (None, data) => Some (None, data)
  | (Some extensionToken, data) =>
      match parametersLoop (S (length data)) data ∅ with
      | None => None
      | Some (None, data) => Some (None, data)
      | Some (Some extensionParameters, data) =>
          match data with
          | [] => Some (Some (extensionToken, extensionParameters), [])
          | _ =>
              let '(comma, data) := consumeCharacter 44 data in
              if comma then Some (Some (extensionToken, extensionParameters), data) else Some (None, data)
          end
      end
  end.
End Parser.

(** ** [WebSocketExtensionDispatcher] *)

(** [WebSocketExtensionProcessor] *)
Class ExtensionProcessor (P : Type) := {
  extensionToken : P -> list UChar;
  handshakeString : P -> list UChar;
  processResponse : Parameters -> P -> bool * P;
  processorFailureReason : P -> list UChar
}.

(** The order in which a hash table is iterated. *)
Class HashOrder := hashOrder : Parameters -> list (list UChar * option (list UChar)).

Record Dispatcher (P : Type) := mkDispatcher {
  m_processors : list P;
  m_acceptedExtensions : list UChar;
  m_failureReason : option (list UChar)
}.
Arguments mkDispatcher {P}.
Arguments m_processors {P}.
Arguments m_acceptedExtensions {P}.
Arguments m_failureReason {P}.

Section Dispatch.
Context {P : Type} `{ExtensionProcessor P} `{HashOrder}.
Variable address : Z.

Definition newDispatcher : Dispatcher P := mkDispatcher [] [] None.

Definition dispatcher_reset (d : Dispatcher P) : Dispatcher P := mkDispatcher [] (m_acceptedExtensions d) (m_failureReason d).

(** [None] when an assertion about the header of the processor fails. *)
Definition addProcessor (processor : P) (d : Dispatcher P) : option (Dispatcher P) :=
  if existsb (fun p => bool_decide (extensionToken p = extensionToken processor)) (m_processors d) then Some d
  else if (length (handshakeString processor) =? 0)%nat || existsb (Z.eqb cLF) (handshakeString processor) || existsb (Z.eqb cNUL) (handshakeString processor)
  then None
  else Some (mkDispatcher (m_processors d ++ [processor]) (m_acceptedExtensions d) (m_failureReason d)).

Definition createHeaderValue (d : Dispatcher P) : option (list UChar) :=
  match m_processors d with
  | [] => None
  | processor :: processors => Some (handshakeString processor ++ concat (map (fun p => str ", " ++ handshakeString p) processors))
  end.

Definition acceptedParameter (p : list UChar * option (list UChar)) : list UChar :=
  str "; " ++ fst p ++ match snd p with Some value => str "=" ++ value | None => [] end.

Definition appendAcceptedExtension (token : list UChar) (parameters : Parameters) (d : Dispatcher P) : Dispatcher P :=
  mkDispatcher (m_processors d)
    (m_acceptedExtensions d ++ (if (length (m_acceptedExtensions d) =? 0)%nat then [] else str ", ") ++ token ++
      concat (map acceptedParameter (hashOrder parameters)))
    (m_failureReason d).

Definition dispatcher_fail (reason : list UChar) (d : Dispatcher P) : Dispatcher P := mkDispatcher (m_processors d) [] (Some reason).

(** The loop over the processors: the answer of the one with this token, and
    the processors after it. *)
Fixpoint dispatchLoop (token : list UChar) (parameters : Parameters) (processors : list P) : option (bool * P) * list P :=
  match processors with
  | [] => (None, [])
  | processor :: rest =>
      if bool_decide (token = extensionToken processor) then
        let '(accepted, processor) := processResponse parameters processor in (Some (accepted, processor), processor :: rest)
      else let '(result, rest) := dispatchLoop token parameters rest in (result, processor :: rest)
  end.

(** One extension of the header. *)
Definition dispatch (token : list UChar) (parameters : Parameters) (d : Dispatcher P) : bool * Dispatcher P :=
  let '(result, processors) := dispatchLoop token parameters (m_processors d) in
  let d := mkDispatcher processors (m_acceptedExtensions d) (m_failureReason d) in
  match result with
  | None => (false, dispatcher_fail (str "Received unexpected extension: " ++ token) d)
  | Some (true, _) => (true, appendAcceptedExtension token parameters d)
  | Some (false, processor) => (false, dispatcher_fail (processorFailureReason processor) d)
  end.

(** The loop of [processHeaderValue]: a round consumes a token. *)
Fixpoint headerLoop (fuel : nat) (data : list Z) (d : Dispatcher P) : option (bool * Dispatcher P) :=
  match fuel with
  | O => None
  | S fuel =>
      match data with
      | [] => Some (true, d)
      | _ =>
          match parseExtension address data with
          | None => None
          | Some (None, _) => Some (false, dispatcher_fail (str "Sec-WebSocket-Extensions header is invalid") d)
          | Some (Some (token, parameters), data) =>
              let '(accepted, d) := dispatch token parameters d in
              if accepted then headerLoop fuel data d else Some (false, d)
          end
      end
  end.

Definition processHeaderValue (is8Bit : bool) (headerValue : list UChar) (d : Dispatcher P) : option (bool * Dispatcher P) :=
  match headerValue with
  | [] => Some (true, d)
  | _ =>
      match m_processors d with
      | [] => Some (false, dispatcher_fail (str "Received unexpected Sec-WebSocket-Extensions header") d)
      | _ =>
          match utf8 is8Bit headerValue LenientConversion with
          | None => None
          | Some headerValueData => let data := default [] headerValueData in headerLoop (S (length data)) data d
          end
      end
  end.
End Dispatch.

(** ** [WebSocketExtensionDeflateFrame]

    [df_calls] are the calls of [enableDeflate] of the framer. *)

Record DeflateFrame := mkDeflateFrame {
  m_responseProcessed : bool;
  df_failureReason : list UChar;
  df_calls : list (Z * ContextTakeOverMode)
}.
Definition newDeflateFrame : DeflateFrame := mkDeflateFrame false [] [].

Section Deflate.
Context `{CharDirection}.

Definition deflateFrame_processResponse (serverParameters : Parameters) (p : DeflateFrame) : bool * DeflateFrame :=
  let failed reason := (false, mkDeflateFrame true reason (df_calls p)) in
  if m_responseProcessed p then failed (str "Received duplicate deflate-frame response")
  else
    let '(windowBits, valid, bitsGiven) :=
      match serverParameters !! str "max_window_bits" with
      | Some value => let windowBits := fst (stringTo int_type value) in (windowBits, negb ((windowBits <? 8) || (windowBits >? 15)), 1%nat)
      | None => (15, true, 0%nat)
      end in
    if negb valid then failed (str "Received invalid max_window_bits parameter")
    else
      match serverParameters !! str "no_context_takeover" with
      | Some (Some _) => failed (str "Received invalid no_context_takeover parameter")
      | takeover =>
          let '(mode, takeoverGiven) := match takeover with Some _ => (DoNotTakeOverContext, 1%nat) | None => (TakeOverContext, 0%nat) end in
          if negb (bitsGiven + takeoverGiven =? size serverParameters)%nat then failed (str "Received unexpected deflate-frame parameter")
          else (true, mkDeflateFrame true (df_failureReason p) (df_calls p ++ [(windowBits, mode)]))
      end.

#[global] Instance deflateFrameProcessor : ExtensionProcessor DeflateFrame := {|
  extensionToken := fun _ => str "x-webkit-deflate-frame";
  handshakeString := fun _ => str "x-webkit-deflate-frame";
  processResponse := deflateFrame_processResponse;
  processorFailureReason := df_failureReason
|}.
End Deflate.
