(* ===== verification/WebSocketExtensionsSpec.v ===== *)
(** * Reading and negotiating extensions

    The parser inverts a printer of headers, ends on any header, and compression
    is only ever enabled with a window that zlib has. *)

From S2P Require Import Prelude TextCodecUTF8 TextCodecUTF8Loops TextCodecUTF8Spec UnicodeUTF8 UnicodeUTF8Spec IntegerParsing WebSocketFrame WebSocketChannel WebSocketExtensions.
From stdpp Require Import gmap.
Open Scope Z_scope.

(** ** Tokens and separators *)

Definition isToken (s : list Z) : Prop := s <> [] /\ Forall (fun c => isTokenCharacter c = true) s.
Definition endsToken (rest : list Z) : Prop := match rest with c :: _ => isTokenCharacter c = false | [] => True end.

Lemma token_not_space c : isTokenCharacter c = true -> (c =? 32) || (c =? cTAB) = false.
Proof.
  intros HT. destruct (Z.eqb_spec c 32) as [->|_]; [done|]. destruct (Z.eqb_spec c 9) as [->|_]; done.
Qed.

Lemma spanToken_spec token rest : Forall (fun c => isTokenCharacter c = true) token -> endsToken rest -> spanToken (token ++ rest) = (token, rest).
Proof.
  intros HT HR. induction HT as [|c token HC _ IH]; cbn [app spanToken].
  - destruct rest as [|c rest]; [done|]. cbn [spanToken]. by rewrite HR.
  - by rewrite HC, IH.
Qed.

(** A space may come first. *)
Definition gap (s : list Z) : Prop := Forall (fun c => (c =? 32) || (c =? cTAB) = true) s.

Lemma skipSpaces_gap sp rest : gap sp -> skipSpaces (sp ++ rest) = skipSpaces rest.
Proof. induction 1 as [|c sp HC _ IH]; cbn [app skipSpaces]; [done|]. by rewrite HC. Qed.

Lemma consumeToken_spec sp token rest : gap sp -> isToken token -> endsToken rest -> consumeToken (sp ++ token ++ rest) = (Some token, rest).
Proof.
  intros HS [HN HT] HR. unfold consumeToken. rewrite skipSpaces_gap by done. destruct token as [|c token]; [done|].
  pose proof HT as HT'. apply Forall_cons in HT' as [HC _]. cbn [app skipSpaces]. rewrite token_not_space by done.
  by rewrite app_comm_cons, spanToken_spec.
Qed.

Lemma consumeToken_here token rest : isToken token -> endsToken rest -> consumeToken (token ++ rest) = (Some token, rest).
Proof. intros HT HR. by apply (consumeToken_spec [] token rest); [constructor| |]. Qed.

Lemma consumeCharacter_yes c rest : (c =? 32) || (c =? cTAB) = false -> consumeCharacter c (c :: rest) = (true, rest).
Proof. intros HC. unfold consumeCharacter. cbn [skipSpaces]. by rewrite HC, Z.eqb_refl. Qed.

Lemma consumeCharacter_no c c' rest : (c' =? 32) || (c' =? cTAB) = false -> c' <> c -> consumeCharacter c (c' :: rest) = (false, c' :: rest).
Proof. intros HC HN. unfold consumeCharacter. cbn [skipSpaces]. by rewrite HC, (proj2 (Z.eqb_neq _ _)). Qed.

(** ** A printer *)

Definition escape (c : Z) : list Z := if (c =? cQUOT) || (c =? 92) then [92; c] else [c].
Definition quote (value : list Z) : list Z := cQUOT :: concat (map escape value) ++ [cQUOT].

(** Names with values, the bytes of which are quoted. *)
Definition NamedValue : Type := list Z * option (list Z).
Definition Extension : Type := list Z * list NamedValue.

Definition printParameter (p : NamedValue) : list Z :=
  59 :: fst p ++ match snd p with Some value => 61 :: quote value | None => [] end.
Definition printExtension (e : Extension) : list Z := fst e ++ concat (map printParameter (snd e)).
Fixpoint printHeader (es : list Extension) : list Z :=
  match es with
  | [] => []
  | [e] => printExtension e
  | e :: es => printExtension e ++ [44; 32] ++ printHeader es
  end.

(** A value is UTF-8, and not empty. *)
Definition isValue (value : list Z) : Prop := value <> [] /\ bytes value /\ stringSize value /\ snd (decodeAll value) = false.
Definition isParameter (p : NamedValue) : Prop := isToken (fst p) /\ match snd p with Some value => isValue value | None => True end.
Definition isExtension (e : Extension) : Prop := isToken (fst e) /\ Forall isParameter (snd e).

(** What the parser makes of the parameters: the first of a name counts. *)
Definition parameterMap (ps : list NamedValue) (m : Parameters) : Parameters :=
  fold_left (fun m p => addParameter (fst p) ((fun value => fst (decodeAll value)) <$> snd p) m) ps m.

(** ** Reading what is printed *)

Section Reading.
Variable address : Z.

Lemma quotedLoop_spec value rest : forall buffer, quotedLoop (concat (map escape value) ++ cQUOT :: rest) buffer = Some (buffer ++ value, cQUOT :: rest).
Proof.
  induction value as [|c value IH]; intros buffer; cbn [map concat app].
  { cbn [quotedLoop Z.eqb Pos.eqb]. by rewrite app_nil_r. }
  unfold escape at 1. destruct (Z.eqb_spec c cQUOT) as [->|HQ]; cbn [orb app].
  { cbn [quotedLoop Z.eqb Pos.eqb]. by rewrite IH, <- app_assoc. }
  destruct (Z.eqb_spec c 92) as [->|HB]; cbn [app quotedLoop Z.eqb Pos.eqb].
  - by rewrite IH, <- app_assoc.
  - by rewrite (proj2 (Z.eqb_neq c cQUOT)), (proj2 (Z.eqb_neq c 92)), IH, <- app_assoc by done.
Qed.

Lemma consumeQuoted_spec value rest : isValue value ->
  consumeQuotedStringOrToken address (quote value ++ rest) = Some (Some (fst (decodeAll value)), rest).
Proof.
  intros (HN & HB & HS & HV). unfold consumeQuotedStringOrToken, consumeQuotedString, quote. cbn [app skipSpaces Z.eqb Pos.eqb orb].
  rewrite <- app_assoc. cbn [app]. rewrite quotedLoop_spec. cbn [app]. unfold fromBuffer. destruct value; [done|].
  by rewrite fromUTF8_valid.
Qed.

Definition afterExtension (rest : list Z) : Prop := rest = [] \/ exists more, rest = 44 :: more.

Lemma parameters_end ps rest : afterExtension rest -> endsToken (concat (map printParameter ps) ++ rest).
Proof. intros [->|[more ->]]; by destruct ps. Qed.

Lemma parametersLoop_spec ps : forall fuel rest m, (length ps < fuel)%nat -> Forall isParameter ps -> afterExtension rest ->
  parametersLoop address fuel (concat (map printParameter ps) ++ rest) m = Some (Some (parameterMap ps m), rest).
Proof.
  induction ps as [|[name value] ps IH]; intros fuel rest m HL HP HR; (destruct fuel as [|fuel]; [cbn in HL; lia|]); cbn [parametersLoop map concat app].
  { destruct HR as [->|[more ->]]; [done|]. by rewrite consumeCharacter_no. }
  apply Forall_cons in HP as [[HT HV] HP]. cbn [fst snd length] in *. unfold printParameter at 1. cbn [fst snd app].
  rewrite <- !app_assoc, consumeCharacter_yes by done. cbn [negb].
  set (rest' := concat (map printParameter ps) ++ rest). assert (HE : endsToken rest') by by apply parameters_end.
  destruct value as [value|]; cbn [app].
  - rewrite consumeToken_here by done. rewrite consumeCharacter_yes by done.
    rewrite consumeQuoted_spec by done. apply IH; [lia|done|done].
  - rewrite consumeToken_here by done.
    assert (HN : consumeCharacter 61 rest' = (false, rest')).
    { unfold rest'. destruct ps as [|p ps]; [destruct HR as [->|[more ->]]; [done|]|]; cbn [map concat app printParameter]; by rewrite ?consumeCharacter_no. }
    rewrite HN. apply IH; [lia|done|done].
Qed.

Lemma parseExtension_spec sp e rest : gap sp -> isExtension e -> afterExtension rest ->
  parseExtension address (sp ++ printExtension e ++ rest) = Some (Some (fst e, parameterMap (snd e) ∅), tail rest).
Proof.
  intros HS [HT HP] HR. unfold parseExtension, printExtension. rewrite <- app_assoc, consumeToken_spec by (done || by apply parameters_end).
  rewrite parametersLoop_spec; [|rewrite length_app; enough (length (snd e) <= length (concat (map printParameter (snd e))))%nat by lia|done|done].
  - destruct HR as [->|[more ->]]; [done|]. by rewrite consumeCharacter_yes.
  - clear. induction (snd e) as [|p ps IH]; [done|]. cbn [map concat length app]. rewrite length_app. unfold printParameter at 1. cbn [length]. lia.
Qed.
End Reading.

(** ** The header *)

Section Header.
Context {P : Type} `{ExtensionProcessor P} `{HashOrder}.
Variable address : Z.

(** The extensions one after another, up to the first that is refused. *)
Fixpoint dispatchAll (es : list Extension) (d : Dispatcher P) : bool * Dispatcher P :=
  match es with
  | [] => (true, d)
  | e :: es => let '(accepted, d) := dispatch (fst e) (parameterMap (snd e) ∅) d in if accepted then dispatchAll es d else (false, d)
  end.

Lemma printExtension_nonempty sp e rest : isExtension e -> exists c more, sp ++ printExtension e ++ rest = c :: more.
Proof.
  intros [[HN _] _]. destruct (sp ++ printExtension e ++ rest) as [|c more] eqn:E; [|by eauto].
  apply app_eq_nil in E as [_ E]. apply app_eq_nil in E as [E _]. by apply app_eq_nil in E as [E _].
Qed.

Lemma headerLoop_spec es : forall fuel sp (d : Dispatcher P), (length es < fuel)%nat -> gap sp -> Forall isExtension es -> (es = [] -> sp = []) ->
  headerLoop address fuel (sp ++ printHeader es) d = Some (dispatchAll es d).
Proof.
  induction es as [|e es IH]; intros fuel sp d HL HS HE HN; (destruct fuel as [|fuel]; [cbn in HL; lia|]).
  { by rewrite HN. }
  apply Forall_cons in HE as [He HE]. cbn [length] in HL.
  assert (HP : exists rest, printHeader (e :: es) = printExtension e ++ rest /\ afterExtension rest /\
    forall d, headerLoop address fuel (tail rest) d = Some (dispatchAll es d)).
  { destruct es as [|e' es].
    - exists []. split; [by rewrite app_nil_r|]. split; [by left|]. destruct fuel; [lia|done].
    - exists ([44; 32] ++ printHeader (e' :: es)). split; [done|]. split; [right; by eexists|]. intros d'.
      apply (IH fuel [32] d'); [lia|by repeat constructor|done|done]. }
  destruct HP as (rest & -> & HR & HH). destruct (printExtension_nonempty sp e rest He) as (c & more & EC).
  cbn [headerLoop]. rewrite EC, <- EC, parseExtension_spec by done. cbn [dispatchAll].
  destruct (dispatch _ _ _) as [[|] d']; [apply HH|done].
Qed.

Lemma printHeader_length es : Forall isExtension es -> (length es <= length (printHeader es))%nat.
Proof.
  induction 1 as [|e es He HE IH]; [done|].
  destruct (printExtension_nonempty [] e [] He) as (c & more & EC). cbn [app] in EC. rewrite app_nil_r in EC.
  destruct es as [|e' es]; [cbn [printHeader]; rewrite EC; cbn; lia|].
  change (printHeader (e :: e' :: es)) with (printExtension e ++ [44; 32] ++ printHeader (e' :: es)). rewrite EC, !length_app. cbn [length] in *. lia.
Qed.

(** What a server sends is what is negotiated.  A header printed from a list of
    extensions, with names that are tokens and values in UTF-8, which are quoted
    and escaped, is read back as these extensions: each is given, in order,
    with its parameters to the processor of its name, until one is refused. *)
Theorem extension_header_roundtrip (is8Bit : bool) (headerValue : list UChar) (es : list Extension) (d : Dispatcher P) :
  m_processors d <> [] -> Forall isExtension es -> es <> [] ->
  utf8 is8Bit headerValue LenientConversion = Some (Some (printHeader es)) ->
  processHeaderValue address is8Bit headerValue d = Some (dispatchAll es d).
Proof.
  intros HP HE HN HU. pose proof (printHeader_length es HE) as HL. unfold processHeaderValue.
  destruct headerValue as [|c headerValue]; [exfalso|].
  { injection HU as HU. rewrite <- HU in HL. destruct es; [done|]. cbn in HL. lia. }
  destruct (m_processors d); [done|]. rewrite HU. change (default [] (Some (printHeader es))) with (printHeader es). cbv zeta. by apply (headerLoop_spec es _ []); [lia|constructor| |].
Qed.
End Header.

(** ** Any header *)

(** What is left of the data is a part of it. *)
Definition shorter (rest data : list Z) : Prop := rest `suffix_of` data /\ (length rest < length data)%nat.

Lemma suffix_bytes rest data : rest `suffix_of` data -> bytes data -> bytes rest.
Proof. intros [k ->] HB. by apply Forall_app in HB as [_ HB]. Qed.

Lemma shorter_trans a b c : a `suffix_of` b -> shorter b c -> shorter a c.
Proof. intros HA [HB HL]. split; [by etransitivity|]. apply suffix_length in HA. lia. Qed.
Lemma trans_shorter a b c : shorter a b -> b `suffix_of` c -> shorter a c.
Proof. intros [HA HL] HB. split; [by etransitivity|]. apply suffix_length in HB. lia. Qed.

Lemma skipSpaces_suffix data : skipSpaces data `suffix_of` data.
Proof. induction data as [|c data IH]; cbn [skipSpaces]; [done|]. destruct (_ || _); [by apply suffix_cons_r|done]. Qed.

Lemma spanToken_suffix data : fst (spanToken data) ++ snd (spanToken data) = data.
Proof.
  induction data as [|c data IH]; [done|]. cbn [spanToken]. destruct (isTokenCharacter c); [|done].
  destruct (spanToken data) as [token rest]. cbn [fst snd app] in *. by rewrite IH.
Qed.

Lemma consumeToken_suffix data token rest : consumeToken data = (token, rest) ->
  rest `suffix_of` data /\ (token <> None -> shorter rest data).
Proof.
  unfold consumeToken. pose proof (skipSpaces_suffix data) as HS. pose proof (spanToken_suffix (skipSpaces data)) as HT.
  destruct (spanToken (skipSpaces data)) as [t r]. cbn [fst snd] in HT.
  assert (HR : r `suffix_of` skipSpaces data) by by exists t.
  destruct t as [|c t]; intros [= <- <-]; (split; [by etransitivity|]); [done|]. intros _. eapply trans_shorter; [|exact HS].
  split; [done|]. rewrite <- HT. cbn [app length]. rewrite length_app. lia.
Qed.

Lemma consumeCharacter_suffix c data b rest : consumeCharacter c data = (b, rest) -> rest `suffix_of` data /\ (b = true -> shorter rest data).
Proof.
  unfold consumeCharacter. pose proof (skipSpaces_suffix data) as HS. destruct (skipSpaces data) as [|c' r]; [by intros [= <- <-]|].
  destruct (c' =? c); intros [= <- <-]; [|done]. assert (HR : shorter r (c' :: r)) by (split; [by apply suffix_cons_r|cbn; lia]).
  split; [|intros _]; [etransitivity; [apply HR|done]|by eapply trans_shorter].
Qed.

Lemma quotedLoop_suffix n : forall data buffer buffer' rest, (length data <= n)%nat -> quotedLoop data buffer = Some (buffer', rest) ->
  rest `suffix_of` data /\ rest <> [] /\ (length buffer' <= length buffer + length data)%nat /\ (bytes data -> bytes buffer -> bytes buffer').
Proof.
  induction n as [|n IH]; intros data buffer buffer' rest HL HQ; (destruct data as [|c data]; [done|]); cbn [length] in HL; [lia|].
  assert (Happ : forall a b, bytes b -> 0 <= a < 256 -> bytes (b ++ [a])) by (intros; apply Forall_app; split; [done|by apply Forall_singleton]).
  cbn [quotedLoop] in HQ. destruct (c =? cQUOT); [injection HQ as <- <-; split_and!; [done|done|lia|done]|].
  destruct (c =? 92).
  - destruct data as [|c' data]; [done|]. cbn [length] in HL. apply IH in HQ as (HS & HN & HLen & HB); [|lia]. rewrite length_app in HLen. cbn [length] in *.
    split_and!; [by do 2 apply suffix_cons_r|done|lia|]. intros HD HBu. apply Forall_cons in HD as [_ HD]. apply Forall_cons in HD as [Hc HD]. auto.
  - apply IH in HQ as (HS & HN & HLen & HB); [|lia]. rewrite length_app in HLen. cbn [length] in *.
    split_and!; [by apply suffix_cons_r|done|lia|]. intros HD HBu. apply Forall_cons in HD as [Hc HD]. auto.
Qed.

Section Total.
Variable address : Z.

Lemma fromBuffer_total buffer : bytes buffer -> stringSize buffer -> fromBuffer address buffer <> None.
Proof.
  intros HB HS. destruct buffer; [done|]. unfold fromBuffer. rewrite fromUTF8_cases by done. by repeat case_match.
Qed.

Lemma consumeQuoted_total data : bytes data -> stringSize data ->
  exists token rest, consumeQuotedStringOrToken address data = Some (token, rest) /\ rest `suffix_of` data.
Proof.
  intros HB HZ. unfold consumeQuotedStringOrToken.
  assert (HQ : exists token rest, consumeQuotedString address data = Some (token, rest) /\ rest `suffix_of` data).
  { unfold consumeQuotedString. pose proof (skipSpaces_suffix data) as HS. destruct (skipSpaces data) as [|c r] eqn:ES; [by eauto|].
    destruct (c =? cQUOT); [|by eauto]. destruct (quotedLoop r []) as [[buffer q]|] eqn:EQ; [|eexists _, _; split; [done|apply suffix_nil]].
    assert (Hr : r `suffix_of` data) by (etransitivity; [apply suffix_cons_r; reflexivity|exact HS]).
    destruct (quotedLoop_suffix (length r) _ _ _ _ (le_n _) EQ) as (HSq & HNq & HLq & HBq). pose proof (suffix_length _ _ Hr).
    pose proof (fromBuffer_total buffer (HBq (suffix_bytes _ _ Hr HB) (Forall_nil_2 _))) as HF. cbn [length] in HLq.
    destruct (fromBuffer address buffer) as [[token|]|]; [..|destruct HF; [unfold stringSize in *; lia|done]].
    - eexists _, _. split; [done|]. etransitivity; [|exact Hr]. etransitivity; [|exact HSq]. destruct q; [done|]. by apply suffix_cons_r.
    - eexists _, _. split; [done|]. by etransitivity. }
  destruct HQ as (token & rest & -> & HS). destruct token as [token|]; [by eauto|].
  destruct (consumeToken rest) as [token rest'] eqn:ET. apply consumeToken_suffix in ET as [ET _]. eexists _, _. split; [done|]. by etransitivity.
Qed.

Lemma stringSize_suffix rest data : rest `suffix_of` data -> stringSize data -> stringSize rest.
Proof. intros HS%suffix_length HZ. unfold stringSize in *. lia. Qed.

Lemma parametersLoop_total fuel : forall data m, (length data < fuel)%nat -> bytes data -> stringSize data ->
  exists result rest, parametersLoop address fuel data m = Some (result, rest) /\ rest `suffix_of` data.
Proof.
  induction fuel as [|fuel IH]; intros data m HL HB HZ; [lia|]. cbn [parametersLoop].
  destruct (consumeCharacter 59 data) as [semicolon d1] eqn:E1. apply consumeCharacter_suffix in E1 as [S1 L1].
  destruct semicolon; cbn [negb]; [|by eauto]. specialize (L1 eq_refl) as [_ L1].
  destruct (consumeToken d1) as [name d2] eqn:E2. apply consumeToken_suffix in E2 as [S2 _]. assert (S2' : d2 `suffix_of` data) by by etransitivity.
  destruct name as [name|]; [|by eauto].
  destruct (consumeCharacter 61 d2) as [equals d3] eqn:E3. apply consumeCharacter_suffix in E3 as [S3 _]. assert (S3' : d3 `suffix_of` data) by by etransitivity.
  assert (HN : forall d4 m', d4 `suffix_of` d3 -> exists result rest, parametersLoop address fuel d4 m' = Some (result, rest) /\ rest `suffix_of` data).
  { intros d4 m' S4. assert (S4' : d4 `suffix_of` data) by by etransitivity.
    destruct (IH d4 m') as (result & rest & ER & HR); [|by eapply suffix_bytes|by eapply stringSize_suffix|].
    - apply suffix_length in S2, S3, S4. lia.
    - eexists _, _. split; [exact ER|]. by etransitivity. }
  destruct equals; [|by apply HN].
  destruct (consumeQuoted_total d3) as (value & d4 & E4 & S4); [by eapply suffix_bytes|by eapply stringSize_suffix|]. rewrite E4.
  destruct value as [value|]; [by apply HN|]. eexists _, _. split; [done|]. by etransitivity.
Qed.

Lemma parseExtension_total data : bytes data -> stringSize data ->
  exists result rest, parseExtension address data = Some (result, rest) /\ rest `suffix_of` data /\ (result <> None -> shorter rest data).
Proof.
  intros HB HZ. unfold parseExtension. destruct (consumeToken data) as [token d1] eqn:E1. apply consumeToken_suffix in E1 as [S1 L1].
  destruct token as [token|]; [|eexists _, _; by split_and!]. specialize (L1 ltac:(done)).
  destruct (parametersLoop_total (S (length d1)) d1 ∅) as (ps & d2 & E2 & S2); [lia|by eapply suffix_bytes|by eapply stringSize_suffix|]. rewrite E2.
  assert (L2 : shorter d2 data) by by eapply shorter_trans. destruct ps as [ps|]; [|eexists _, _; split_and!; [done|apply L2|done]].
  destruct d2 as [|c d2]; [eexists _, _; by split_and!; [|apply L2|]|].
  destruct (consumeCharacter 44 (c :: d2)) as [comma d3] eqn:E3. apply consumeCharacter_suffix in E3 as [S3 _].
  assert (L3 : shorter d3 data) by by eapply shorter_trans. destruct comma; eexists _, _; (split_and!; [done|apply L3|done]).
Qed.
End Total.

(** ** Compression *)

Section Negotiation.
Context `{CharDirection} `{HashOrder}.
Variable address : Z.

(** One call of [enableDeflate] with a window of zlib. *)
Definition enabledOnce (p : DeflateFrame) : Prop := exists windowBits mode, df_calls p = [(windowBits, mode)] /\ 8 <= windowBits <= 15.
Definition notYet (p : DeflateFrame) : Prop := df_calls p = [].
Definition negotiated (p : DeflateFrame) : Prop := if m_responseProcessed p then notYet p \/ enabledOnce p else notYet p.

Lemma processResponse_spec params p accepted p' : negotiated p -> deflateFrame_processResponse params p = (accepted, p') ->
  negotiated p' /\ (accepted = true -> enabledOnce p') /\ m_responseProcessed p' = true.
Proof.
  unfold deflateFrame_processResponse, negotiated, notYet. destruct (m_responseProcessed p) eqn:EP; intros HN.
  { intros [= <- <-]. by cbn. }
  assert (HB : forall bits (v : bool) (g : nat), match params !! str "max_window_bits" with
      | Some value => let windowBits := fst (stringTo int_type value) in (windowBits, negb ((windowBits <? 8) || (windowBits >? 15)), 1%nat)
      | None => (15, true, 0%nat) end = (bits, v, g) -> v = true -> 8 <= bits <= 15).
  { intros bits v g. destruct (params !! _) as [value|]; cbv zeta; intros [= <- <- <-] HV; [|lia].
    rewrite Z.gtb_ltb in HV. bool_hyps. lia. }
  destruct (match params !! str "max_window_bits" with Some _ => _ | None => _ end) as [[bits v] g]. specialize (HB _ _ _ eq_refl).
  destruct v; cbn [negb]; [specialize (HB eq_refl)|intros [= <- <-]; cbn; rewrite HN; by split_and!; [left| |]].
  destruct (params !! str "no_context_takeover") as [[value|]|].
  - intros [= <- <-]. cbn. rewrite HN. by split_and!; [left| |].
  - destruct (_ =? _)%nat; cbn [negb]; intros [= <- <-]; cbn; rewrite HN; [|by split_and!; [left| |]]. unfold enabledOnce. cbn. split_and!; eauto 10.
  - destruct (_ =? _)%nat; cbn [negb]; intros [= <- <-]; cbn; rewrite HN; [|by split_and!; [left| |]]. unfold enabledOnce. cbn. split_and!; eauto 10.
Qed.

(** The dispatcher of a channel: the extension is its only processor. *)
Definition holds (Q : DeflateFrame -> Prop) (d : Dispatcher DeflateFrame) : Prop := exists p, m_processors d = [p] /\ Q p.

Lemma dispatch_spec token params d accepted d' : holds negotiated d -> dispatch token params d = (accepted, d') ->
  holds negotiated d' /\ (accepted = true -> holds (fun p => negotiated p /\ enabledOnce p) d').
Proof.
  intros (p & EP & HP). unfold dispatch. rewrite EP. cbn [dispatchLoop]. case_bool_decide as ET.
  - destruct (processResponse params p) as [a p'] eqn:ER. destruct (processResponse_spec params p a p' HP ER) as (HN & HE & _).
    destruct a; intros [= <- <-]; unfold holds; cbn; split; eauto 10.
  - intros [= <- <-]. unfold holds. cbn. split; [eauto|done].
Qed.

Lemma headerLoop_deflate fuel : forall data d, (length data < fuel)%nat -> bytes data -> stringSize data -> holds negotiated d ->
  exists accepted d', headerLoop address fuel data d = Some (accepted, d') /\ holds negotiated d' /\
    (accepted = true -> data <> [] \/ holds enabledOnce d -> holds enabledOnce d').
Proof.
  induction fuel as [|fuel IH]; intros data d HL HB HZ HD; [lia|]. cbn [headerLoop].
  destruct data as [|c data']; [exists true, d; split_and!; [done|done|]; intros _ [?|?]; done|]. set (data := c :: data') in *.
  destruct (parseExtension_total address data HB HZ) as (result & rest & -> & HS & HR).
  destruct result as [[token params]|]; [|eexists false, _; split_and!; [done|exact HD|done]].
  destruct (dispatch token params d) as [a d1] eqn:ED. destruct (dispatch_spec _ _ _ _ _ HD ED) as [HN HE].
  destruct a; [|exists false, d1; by split_and!]. specialize (HR ltac:(done)) as [_ HR].
  destruct (IH rest d1) as (accepted & d' & EH & HN' & HE'); [lia|by eapply suffix_bytes|by eapply stringSize_suffix|done|].
  exists accepted, d'. split_and!; [done|done|]. intros HA _. apply HE'; [done|]. right. destruct (HE eq_refl) as (p & EP & _ & HP). by exists p.
Qed.

(** C29: the negotiation of compression.  Whatever the server sends in its header, the
    parser ends, and the framer is told to compress at most once and only with a
    window of 8 to 15 bits; if the header is accepted, it has been told so
    exactly once. *)
Theorem deflate_negotiation_safe (is8Bit : bool) (headerValue : list UChar) (data : list Z) :
  utf8 is8Bit headerValue LenientConversion = Some (Some data) -> bytes data -> stringSize data ->
  exists accepted d p, processHeaderValue address is8Bit headerValue (mkDispatcher [newDeflateFrame] [] None) = Some (accepted, d) /\
    m_processors d = [p] /\ (df_calls p = [] \/ enabledOnce p) /\ (accepted = true -> data <> [] -> enabledOnce p).
Proof.
  intros HU HB HZ. unfold processHeaderValue. destruct headerValue as [|c headerValue].
  { injection HU as <-. eexists _, _, _. split_and!; [done|done|by left|done]. }
  rewrite HU. cbn [m_processors]. change (default [] (Some data)) with data. cbv zeta.
  destruct (headerLoop_deflate (S (length data)) data (mkDispatcher [newDeflateFrame] [] None)) as (accepted & d & EH & (p & EP & HP) & HE);
    [lia|done|done|by exists newDeflateFrame|].
  exists accepted, d, p. split_and!; [done|done| |].
  - unfold negotiated, notYet in HP. destruct (m_responseProcessed p); [done|by left].
  - intros HA HN. destruct (HE HA (or_introl HN)) as (p' & EP' & HE'). rewrite EP in EP'. by injection EP' as <-.
Qed.
End Negotiation.

(** ** Examples *)

Module ExtensionSample.
#[export] Instance asciiOnly : CharDirection := fun _ => false.
#[export] Instance mapOrder : HashOrder := fun m => map_to_list m.
End ExtensionSample.
Import ExtensionSample.

(** The header as a string of 8 bit characters. *)
Definition sampleHeader : list UChar := str "x-webkit-deflate-frame;max_window_bits=" ++ [34] ++ str "10" ++ [34].
Definition sampleExtensions : list Extension := [(str "x-webkit-deflate-frame", [(str "max_window_bits", Some (str "10"))])].

Lemma extension_header_roundtrip_witness :
  processHeaderValue 0 true sampleHeader (mkDispatcher [newDeflateFrame] [] None) =
    Some (dispatchAll sampleExtensions (mkDispatcher [newDeflateFrame] [] None)).
Proof.
  apply (extension_header_roundtrip 0 true sampleHeader sampleExtensions (mkDispatcher [newDeflateFrame] [] None)).
  - done.
  - apply Forall_singleton. split; [split; [done|by repeat constructor]|]. apply Forall_singleton. split; [split; [done|by repeat constructor]|].
    split; [done|]. split; [repeat (apply Forall_cons_2; [cbn; lia|]); apply Forall_nil_2|]. split; [by vm_compute|vm_compute; reflexivity].
  - done.
  - vm_compute. reflexivity.
Defined.

Lemma deflate_negotiation_safe_witness :
  exists accepted d p, processHeaderValue 0 true sampleHeader (mkDispatcher [newDeflateFrame] [] None) = Some (accepted, d) /\
    m_processors d = [p] /\ (df_calls p = [] \/ enabledOnce p) /\ (accepted = true -> sampleHeader <> [] -> enabledOnce p).
Proof.
  apply (deflate_negotiation_safe 0 true sampleHeader sampleHeader).
  - vm_compute. reflexivity.
  - unfold sampleHeader. cbn [str app]. repeat (apply Forall_cons_2; [cbn; lia|]). apply Forall_nil_2.
  - by vm_compute.
Defined.

(** An empty value in quotes is refused, although the grammar the parser follows
    has it: the buffer of nothing has a null pointer, and a null string is a
    failure.  The failure leaves [m_current] in front of the closing quote. *)
Theorem empty_quoted_value_refused :
  processHeaderValue 0 true (str "x-webkit-deflate-frame;a=" ++ [34; 34]) (mkDispatcher [newDeflateFrame] [] None) =
    Some (false, mkDispatcher [newDeflateFrame] [] (Some (str "Sec-WebSocket-Extensions header is invalid"))) /\
  consumeQuotedString 0 [34; 34] = Some (None, [34]).
Proof. split; vm_compute; reflexivity. Qed.
