(* ===== verification/WebSocketHandshake.v ===== *)
(** * The opening handshake of a web socket

    [Modules/websockets/WebSocketHandshake.cpp] with [parseHTTPHeader] of
    [platform/network/HTTPParsers.cpp] and the header map of
    [platform/network/HTTPHeaderMap.h]: what the client asks, and reading the
    answer of the server, which is read from its start whenever more of it has
    arrived. *)

From S2P Require Import Prelude CharacterSource TextCodecUTF8 UnicodeUTF8 IntegerParsing WebSocketFrame WebSocketChannel WebSocketExtensions.
From stdpp Require Import gmap.
Open Scope Z_scope.

(** ** Samples of input in messages *)

Definition maxInputSampleSize : nat := 128.
Definition horizontalEllipsis : UChar := 0x2026.
Definition trimInputSample (data : list Z) : list UChar :=
  take maxInputSampleSize data ++ if (maxInputSampleSize <? length data)%nat then [horizontalEllipsis] else [].

(** ** [parseHTTPHeader] *)

Inductive NameResult :=
  | EmptyLine (rest : list Z)
  | NameFailed (reason : list UChar)
  | NameRead (name rest : list Z).

(** The first loop: the name up to the colon or the end. *)
Fixpoint nameLoop (data name : list Z) : NameResult :=
  match data with
  | [] => NameRead name []
  | c :: rest =>
      if c =? cCR then
        match name with
        | [] =>
            match rest with
            | c' :: rest' => if c' =? cLF then EmptyLine rest' else NameFailed (str "CR doesn't follow LF at " ++ trimInputSample data)
            | [] => NameFailed (str "CR doesn't follow LF at " ++ trimInputSample data)
            end
        | _ => NameFailed (str "Unexpected CR in name at " ++ trimInputSample name)
        end
      else if c =? cLF then NameFailed (str "Unexpected LF in name at " ++ trimInputSample name)
      else if c =? ":"%uchar then NameRead name rest
      else nameLoop rest (name ++ [c])
  end.

Fixpoint skipBlanks (data : list Z) : list Z :=
  match data with
  | c :: rest => if c =? 0x20 then skipBlanks rest else data
  | [] => []
  end.

(** The loop over the value: the value and what follows its CR (or LF). *)
Fixpoint valueLoop (strict : bool) (data value : list Z) : list UChar + list Z * list Z :=
  match data with
  | [] => inr (value, [])
  | c :: rest =>
      if c =? cCR then inr (value, rest)
      else if c =? cLF then
        if strict then inl (str "Unexpected LF in value at " ++ trimInputSample value) else inr (value, rest)
      else valueLoop strict rest (value ++ [c])
  end.

(** A header: the reason of a failure, the end of the headers with what follows
    it, or a name and a value with what follows the CR. *)
Inductive HeaderResult :=
  | HeaderFailed (reason : list UChar)
  | HeadersEnd (rest : list Z)
  | Header (name value : list UChar) (rest : list Z).

Section Headers.
(** Where the buffers of names and values lie. *)
Variable address : Z.

Definition parseHTTPHeader (strict : bool) (start : list Z) : option HeaderResult :=
  match nameLoop start [] with
  | EmptyLine rest => Some (HeadersEnd rest)
  | NameFailed reason => Some (HeaderFailed reason)
  | NameRead name p =>
      match valueLoop strict (skipBlanks p) [] with
      | inl reason => Some (HeaderFailed reason)
      | inr (value, p) =>
          let missing := match p with [] => true | c :: _ => strict && negb (c =? cLF) end in
          if missing then Some (HeaderFailed (str "CR doesn't follow LF after value at " ++ trimInputSample p))
          else
            match fromBuffer address name, fromBuffer address value with
            | Some nameStr, Some valueStr =>
                match nameStr, valueStr with
                | None, _ => Some (HeaderFailed (str "Invalid UTF-8 sequence in header name"))
                | _, None => Some (HeaderFailed (str "Invalid UTF-8 sequence in header value"))
                | Some nameStr, Some valueStr => Some (Header nameStr valueStr p)
                end
            | _, _ => None
            end
      end
  end.
End Headers.

(** ** [HTTPHeaderMap] and comparing without case *)

Section Folding.
Context `{CaseFolding}.

(** [HashMap] with [CaseFoldingHash]: names that fold to the same text are the
    same. *)
Definition HTTPHeaderMap : Type := gmap (list UChar) (list UChar).
Definition foldName (name : list UChar) : list UChar := map u_foldCase name.

(** [ResourceResponseBase::addHTTPHeaderField] *)
Definition addHTTPHeaderField (name value : list UChar) (m : HTTPHeaderMap) : HTTPHeaderMap :=
  match m !! foldName name with
  | None => <[foldName name := value]> m
  | Some old => <[foldName name := old ++ str ", " ++ value]> m
  end.
Definition getHTTPHeaderField (name : list UChar) (m : HTTPHeaderMap) : option (list UChar) := m !! foldName name.

(** [equalIgnoringCase] of a string and a literal: ASCII first, and Unicode
    if the string has other characters. *)
Fixpoint equalBy (f : UChar -> UChar) (a b : list UChar) : bool :=
  match a, b with
  | [], [] => true
  | x :: a, y :: b => (f x =? f y) && equalBy f a b
  | _, _ => false
  end.
Definition equalIgnoringCase (a b : list UChar) : bool :=
  if forallb (fun c => c <=? 0x7F) a then equalBy toASCIILower a b else equalBy u_foldCase a b.
End Folding.

(** ** [String::split] *)

Fixpoint startsWithText (s prefix : list UChar) : bool :=
  match prefix, s with
  | [], _ => true
  | p :: prefix, c :: s => (c =? p) && startsWithText s prefix
  | _, [] => false
  end.

(** The text up to the separator and behind it; a separator that is not found. *)
Fixpoint findSeparator (separator s : list UChar) : option (list UChar * list UChar) :=
  if startsWithText s separator then Some ([], drop (length separator) s)
  else
    match s with
    | [] => None
    | c :: s => match findSeparator separator s with Some (before, after) => Some (c :: before, after) | None => None end
    end.

Fixpoint splitLoop (fuel : nat) (separator s : list UChar) : list (list UChar) :=
  match fuel with
  | O => []
  | S fuel =>
      match findSeparator separator s with
      | Some ([], after) => splitLoop fuel separator after
      | Some (before, after) => before :: splitLoop fuel separator after
      | None => match s with [] => [] | _ => [s] end
      end
  end.
(** Without empty entries. *)
Definition split (separator s : list UChar) : list (list UChar) := splitLoop (S (length s)) separator s.

(** ** [WebSocketHandshake]

    The parts of the URL and of the context that a request is made of are given:
    [resourceName], [hostName], the origin, the cookies and the user agent. *)

Record Handshake {P : Type} := mkHandshake {
  hs_resourceName : list UChar;
  hs_hostName : list UChar;
  hs_origin : list UChar;
  hs_cookie : list UChar;
  hs_userAgent : list UChar;
  m_secWebSocketKey : list UChar;
  m_clientProtocol : list UChar;
  m_expectedAccept : list UChar;
  m_mode : HandshakeMode;
  m_response : Z * list UChar * HTTPHeaderMap;
  hs_failureReason : option (list UChar);
  m_extensionDispatcher : Dispatcher P
}.
Arguments Handshake : clear implicits.

Section Handshakes.
Context {P : Type} `{ExtensionProcessor P} `{HashOrder} `{CaseFolding} `{CharDirection}.
Variable address : Z.

Abbreviation Handshake := (Handshake P).

Definition withMode (m : HandshakeMode) (h : Handshake) : Handshake :=
  mkHandshake _ (hs_resourceName h) (hs_hostName h) (hs_origin h) (hs_cookie h) (hs_userAgent h) (m_secWebSocketKey h) (m_clientProtocol h)
    (m_expectedAccept h) m (m_response h) (hs_failureReason h) (m_extensionDispatcher h).
Definition withReason (reason : option (list UChar)) (h : Handshake) : Handshake :=
  mkHandshake _ (hs_resourceName h) (hs_hostName h) (hs_origin h) (hs_cookie h) (hs_userAgent h) (m_secWebSocketKey h) (m_clientProtocol h)
    (m_expectedAccept h) (m_mode h) (m_response h) reason (m_extensionDispatcher h).
Definition withResponse (r : Z * list UChar * HTTPHeaderMap) (h : Handshake) : Handshake :=
  mkHandshake _ (hs_resourceName h) (hs_hostName h) (hs_origin h) (hs_cookie h) (hs_userAgent h) (m_secWebSocketKey h) (m_clientProtocol h)
    (m_expectedAccept h) (m_mode h) r (hs_failureReason h) (m_extensionDispatcher h).
Definition withDispatcher (d : Dispatcher P) (h : Handshake) : Handshake :=
  mkHandshake _ (hs_resourceName h) (hs_hostName h) (hs_origin h) (hs_cookie h) (hs_userAgent h) (m_secWebSocketKey h) (m_clientProtocol h)
    (m_expectedAccept h) (m_mode h) (m_response h) (hs_failureReason h) d.

Definition reset (h : Handshake) : Handshake := withDispatcher (dispatcher_reset (m_extensionDispatcher h)) (withMode Incomplete h).

Definition responseFields (h : Handshake) : HTTPHeaderMap := snd (m_response h).
Definition addField (name value : list UChar) (h : Handshake) : Handshake :=
  withResponse (fst (m_response h), addHTTPHeaderField name value (responseFields h)) h.

(** The lines of the request. *)
Definition requestFields (h : Handshake) : list (list UChar) :=
  [str "Upgrade: websocket"; str "Connection: Upgrade"; str "Host: " ++ hs_hostName h; str "Origin: " ++ hs_origin h] ++
  match m_clientProtocol h with [] => [] | protocol => [str "Sec-WebSocket-Protocol: " ++ protocol] end ++
  match hs_cookie h with [] => [] | cookie => [str "Cookie: " ++ cookie] end ++
  [str "Pragma: no-cache"; str "Cache-Control: no-cache"; str "Sec-WebSocket-Key: " ++ m_secWebSocketKey h; str "Sec-WebSocket-Version: 13"] ++
  match createHeaderValue (m_extensionDispatcher h) with None | Some [] => [] | Some value => [str "Sec-WebSocket-Extensions: " ++ value] end ++
  [str "User-Agent: " ++ hs_userAgent h].
Definition handshakeMessage (h : Handshake) : list UChar :=
  str "GET " ++ hs_resourceName h ++ str " HTTP/1.1" ++ [cCR; cLF] ++ concat (map (fun field => field ++ [cCR; cLF]) (requestFields h)) ++ [cCR; cLF].

(** ** The status line *)

Inductive StatusScan :=
  | NoLine
  | EmbeddedNull (consumedLength : nat)
  | StatusLine (p : nat) (space1 space2 : option nat).

(** The loop of [readStatusLine]: the first two spaces and the line feed. *)
Fixpoint scanStatus (data : list Z) (p : nat) (space1 space2 : option nat) : StatusScan :=
  match data with
  | [] => NoLine
  | c :: rest =>
      if c =? 32 then
        match space1, space2 with
        | None, _ => scanStatus rest (S p) (Some p) space2
        | Some _, None => scanStatus rest (S p) space1 (Some p)
        | Some _, Some _ => scanStatus rest (S p) space1 space2
        end
      else if c =? cNUL then EmbeddedNull (S p)
      else if c =? cLF then StatusLine p space1 space2
      else scanStatus rest (S p) space1 space2
  end.

Definition maximumLength : Z := 1024.

Definition substring (from len : nat) (data : list Z) : list Z := take len (drop from data).

(** The length of the line, or -1 when there is none; the status code, or -1; its
    text; the reason of a failure if one is set. *)
Definition readStatusLine (header : list Z) : Z * Z * list UChar * option (list UChar) :=
  match scanStatus header 0 None None with
  | NoLine => (-1, -1, [], None)
  | EmbeddedNull consumed => (int32 (Z.of_nat consumed), -1, [], Some (str "Status line contains embedded null"))
  | StatusLine p space1 space2 =>
      let lineLength := int32 (Z.of_nat (S p)) in
      if lineLength >? maximumLength then (maximumLength, -1, [], Some (str "Status line is too long"))
      else if (lineLength <? 2) || negb (nth (p - 1) header 0 =? cCR) then
        (lineLength, -1, [], Some (str "Status line does not end with CRLF"))
      else
        match space1, space2 with
        | Some space1, Some space2 =>
            let statusCodeString := substring (S space1) (space2 - space1 - 1) header in
            if negb (length statusCodeString =? 3)%nat then (lineLength, -1, [], None)
            else if negb (forallb isASCIIDigit statusCodeString) then
              (lineLength, -1, [], Some (str "Invalid status code: " ++ statusCodeString))
            else
              (lineLength, fst (stringTo int_type (Some statusCodeString)), substring (S space2) (S p - space2 - 3) header, None)
        | _, _ => (lineLength, -1, [], Some (str "No response code found: " ++ trimInputSample (take (S p - 2) header)))
        end
  end.

(** ** The headers *)

(** Which of the headers that must not be repeated were there. *)
Record Seen := mkSeen { sawExtensions : bool; sawAccept : bool; sawProtocol : bool }.

Definition onlyASCII (s : list UChar) : bool := forallb (fun c => c <=? 0x7F) s.

(** One header; [inl] is a failure. *)
Definition readHeader (name value : list UChar) (seen : Seen) (h : Handshake) : option (Handshake + Seen * Handshake) :=
  if equalIgnoringCase name (str "sec-websocket-extensions") then
    if sawExtensions seen then
      Some (inl (withReason (Some (str "The Sec-WebSocket-Extensions header MUST NOT appear more than once in an HTTP response")) h))
    else
      match processHeaderValue address (onlyASCII value) value (m_extensionDispatcher h) with
      | None => None
      | Some (accepted, d) =>
          let h := withDispatcher d h in
          Some (if accepted then inr (mkSeen true (sawAccept seen) (sawProtocol seen), h) else inl (withReason (m_failureReason d) h))
      end
  else if equalIgnoringCase name (str "Sec-WebSocket-Accept") then
    Some
      (if sawAccept seen then
        inl (withReason (Some (str "The Sec-WebSocket-Accept header MUST NOT appear more than once in an HTTP response")) h)
       else inr (mkSeen (sawExtensions seen) true (sawProtocol seen), addField name value h))
  else if equalIgnoringCase name (str "Sec-WebSocket-Protocol") then
    Some
      (if sawProtocol seen then
        inl (withReason (Some (str "The Sec-WebSocket-Protocol header MUST NOT appear more than once in an HTTP response")) h)
       else inr (mkSeen (sawExtensions seen) (sawAccept seen) true, addField name value h))
  else Some (inr (seen, addField name value h)).

(** The loop of [readHTTPHeaders]: a round takes a header and its line feed.
    [inl] is a failure, [inr] has what follows the headers. *)
Fixpoint headersLoop (fuel : nat) (p : list Z) (seen : Seen) (h : Handshake) : option (Handshake + list Z * Handshake) :=
  match fuel with
  | O => None
  | S fuel =>
      match p with
      | [] => Some (inr ([], h))
      | _ =>
          match parseHTTPHeader address true p with
          | None => None
          | Some (HeaderFailed reason) => Some (inl (withReason (Some reason) h))
          | Some (HeadersEnd rest) => Some (inr (rest, h))
          | Some (Header name value rest) =>
              match readHeader name value seen h with
              | None => None
              | Some (inl h) => Some (inl h)
              | Some (inr (seen, h)) => headersLoop fuel (tail rest) seen h
              end
          end
      end
  end.
Definition readHTTPHeaders (start : list Z) (h : Handshake) : option (Handshake + list Z * Handshake) :=
  headersLoop (S (length start)) start (mkSeen false false false) h.

Definition subProtocolSeparator : list UChar := str ", ".

(** What is wrong with the headers. *)
Definition checkResponseHeaders (h : Handshake) : option (list UChar) :=
  let get name := getHTTPHeaderField (str name) (responseFields h) in
  let problem reason := Some (str "Error during WebSocket handshake: " ++ str reason) in
  match get "upgrade"%string, get "connection"%string, get "sec-websocket-accept"%string with
  | None, _, _ => problem "'Upgrade' header is missing"%string
  | _, None, _ => problem "'Connection' header is missing"%string
  | _, _, None => problem "'Sec-WebSocket-Accept' header is missing"%string
  | Some serverUpgrade, Some serverConnection, Some serverWebSocketAccept =>
      if negb (equalIgnoringCase serverUpgrade (str "websocket")) then problem "'Upgrade' header value is not 'WebSocket'"%string
      else if negb (equalIgnoringCase serverConnection (str "upgrade")) then problem "'Connection' header value is not 'Upgrade'"%string
      else if negb (bool_decide (serverWebSocketAccept = m_expectedAccept h)) then problem "Sec-WebSocket-Accept mismatch"%string
      else
        match get "sec-websocket-protocol"%string with
        | None => None
        | Some serverWebSocketProtocol =>
            match m_clientProtocol h with
            | [] => problem "Sec-WebSocket-Protocol mismatch"%string
            | clientProtocol =>
                if existsb (fun p => bool_decide (p = serverWebSocketProtocol)) (split subProtocolSeparator clientProtocol) then None
                else problem "Sec-WebSocket-Protocol mismatch"%string
            end
        end
  end.

(** [strnstr(header, "\r\n\r\n", len)] stops at a null character. *)
Fixpoint containsBlankLine (header : list Z) : bool :=
  match header with
  | [] => false
  | c :: rest =>
      if c =? cNUL then false
      else startsWithText header [cCR; cLF; cCR; cLF] || containsBlankLine rest
  end.

Definition handshake_read (header : list Z) (h : Handshake) : option (Z * Handshake) :=
  let len := int32 (Z.of_nat (length header)) in
  let h := withMode Incomplete h in
  let '(lineLength, statusCode, statusText, reason) := readStatusLine header in
  let h := match reason with Some _ => withReason reason h | None => h end in
  if lineLength =? -1 then Some (-1, h)
  else if statusCode =? -1 then Some (len, withMode Failed h)
  else
    let h := withResponse (statusCode, statusText, ∅) h in
    if negb (statusCode =? 101) then
      Some (len, withReason (Some (str "Unexpected response code: " ++ default [] (numberToString int_type statusCode))) (withMode Failed h))
    else if negb (containsBlankLine header) then Some (-1, withMode Incomplete h)
    else
      match readHTTPHeaders (drop (Z.to_nat lineLength) header) (withMode Normal h) with
      | None => None
      | Some (inl h) => Some (len, withMode Failed h)
      | Some (inr (rest, h)) =>
          let consumed := int32 (Z.of_nat (length header - length rest)) in
          match checkResponseHeaders h with
          | Some reason => Some (consumed, withReason (Some reason) (withMode Failed h))
          | None => Some (consumed, withMode Connected h)
          end
      end.
End Handshakes.

(** ** The handshake of a channel *)

Section Ops.
Context `{HashOrder} `{CaseFolding} `{CharDirection}.
Variable address : Z.

Definition deflateCalls (h : Handshake DeflateFrame) : list (Z * ContextTakeOverMode) :=
  concat (map df_calls (m_processors (m_extensionDispatcher h))).

(** The framer learns of a call that was made while the answer was read. *)
Definition read (data : list Z) (h : Handshake DeflateFrame) : option (Z * Handshake DeflateFrame * option (Z * ContextTakeOverMode)) :=
  match handshake_read address data h with
  | None => None
  | Some (headerLength, h') => Some (headerLength, h', head (drop (length (deflateCalls h)) (deflateCalls h')))
  end.

Definition message (h : Handshake DeflateFrame) : list Z :=
  let text := handshakeMessage h in
  default [] (default None (utf8 (forallb (fun c => c <=? 0xFF) text) text LenientConversion)).

#[global] Instance handshakeOps : WebSocketHandshakeOps (Handshake DeflateFrame) := {|
  hs_mode := m_mode;
  readServerHandshake := read;
  failureReason := fun h => default [] (hs_failureReason h);
  clientHandshakeMessage := message
|}.
End Ops.
