(* ===== verification/WebSocketHandshakeSpec.v ===== *)
(** * Answers of a server

    An answer that is printed is read, however it arrives, and a channel that
    has read it goes on with the frames that follow. *)

From S2P Require Import Prelude CharacterSource TextCodecUTF8 TextCodecUTF8Loops TextCodecUTF8Spec UnicodeUTF8 UnicodeUTF8Spec IntegerParsing WebSocketFrame WebSocketFrameSpec WebSocketChannel WebSocketSession WebSocketExtensions WebSocketHandshake.
From stdpp Require Import gmap.
Open Scope Z_scope.

(** ** Lines *)

Definition crlf : list Z := [cCR; cLF].
Definition endLine (line : list Z) : list Z := line ++ crlf.

(** Characters of a line, and lines that are not empty. *)
Definition lineText (s : list Z) : Prop := Forall (fun c => 32 <= c < 127) s.
Definition isLine (line : list Z) : Prop := line <> [] /\ lineText line.

(** The beginning of a line: no line feed. *)
Definition lineStart (t : list Z) : Prop := Forall (fun c => c <> cLF /\ c <> cNUL) t /\ (t = [cCR] \/ head t <> Some cCR).

Lemma lineText_chars s : lineText s -> Forall (fun c => c <> cLF /\ c <> cNUL /\ c <> cCR) s.
Proof. intros HL. eapply Forall_impl; [exact HL|]. intros c HC. cbn beta in HC |- *. lia. Qed.

Lemma lineStart_line line t : isLine line -> t `prefix_of` endLine line -> t <> endLine line -> lineStart t.
Proof.
  intros [HN HL] [k HK] HT. unfold endLine, crlf in *.
  assert (HP : exists j, t = take j (line ++ [cCR])).
  { exists (length t). destruct (decide (length t <= length (line ++ [cCR]))%nat) as [HLen|HLen].
    - rewrite <- (take_app_le (line ++ [cCR]) [cLF]), <- app_assoc by done. cbn [app]. rewrite HK. by rewrite take_app_length.
    - destruct HT. assert (k = []) as ->; [|by rewrite app_nil_r in HK].
      apply (f_equal length) in HK. rewrite !length_app in HK. rewrite length_app in HLen. cbn in HK, HLen. destruct k; [done|cbn in HK; lia]. }
  destruct HP as [j ->]. split.
  - apply Forall_take, Forall_app. split; [|by repeat constructor]. eapply Forall_impl; [by apply lineText_chars|]. cbn beta. tauto.
  - right. destruct line as [|c line]; [done|]. apply Forall_cons in HL as [HC _]. destruct j; [done|]. cbn. intros [= ->]. lia.
Qed.

(** A text that is not all of the answer is some of its lines and the beginning
    of another. *)
Lemma lines_prefix lines : forall p q, Forall isLine lines -> q <> [] -> p ++ q = concat (map endLine lines) ++ crlf ->
  exists got t, p = concat (map endLine got) ++ t /\ got `prefix_of` lines /\ lineStart t.
Proof.
  induction lines as [|line lines IH]; intros p q HF HQ HP.
  - exists [], p. split_and!; [done|done|]. destruct p as [|c [|c' p]]; cbn in HP.
    + split; [constructor|by right].
    + injection HP as -> HP. split; [by repeat constructor|by left].
    + injection HP as -> -> HP. by apply app_eq_nil in HP as [_ ->].
  - apply Forall_cons in HF as [HL HF]. cbn [map concat] in HP. rewrite <- app_assoc in HP.
    destruct (decide (length (endLine line) <= length p)%nat) as [HLen|HLen].
    + assert (EP : p = endLine line ++ drop (length (endLine line)) p).
      { rewrite <- (take_drop (length (endLine line)) p) at 1. f_equal. rewrite <- (take_app_le p q), HP by done. apply take_app_length. }
      rewrite EP, <- app_assoc in HP. apply app_inv_head in HP. destruct (IH _ _ HF HQ HP) as (got & t & ED & [k ->] & HT).
      exists (line :: got), t. split_and!; [|by exists k|done]. cbn [map concat]. by rewrite <- app_assoc, <- ED.
    + exists [], p. split_and!; [done|apply prefix_nil|]. apply (lineStart_line line); [done| |].
      * exists (drop (length p) (endLine line)). rewrite <- (take_drop (length p) (endLine line)) at 1. f_equal.
        rewrite <- (take_app_le (endLine line) (concat (map endLine lines) ++ crlf)), <- HP by lia. apply take_app_length.
      * intros ->. lia.
Qed.

(** ** The blank line *)

Lemma blankLine_text s rest : Forall (fun c => c <> cLF /\ c <> cNUL /\ c <> cCR) s -> containsBlankLine (s ++ rest) = containsBlankLine rest.
Proof.
  induction 1 as [|c s (HL & HN & HC) _ IH]; [done|]. cbn [app containsBlankLine startsWithText].
  by rewrite (proj2 (Z.eqb_neq c cNUL)), (proj2 (Z.eqb_neq c cCR)), IH by done.
Qed.

Lemma blankLine_line line rest : lineText line -> containsBlankLine (endLine line ++ rest) = startsWithText rest crlf || containsBlankLine rest.
Proof.
  intros HL. unfold endLine. rewrite <- app_assoc, blankLine_text by by apply lineText_chars. unfold crlf. cbn [app containsBlankLine Z.eqb Pos.eqb startsWithText].
  by destruct rest as [|c1 [|c2 rest]].
Qed.

Lemma blankLine_start t : lineStart t -> containsBlankLine t = false /\ startsWithText t crlf = false.
Proof.
  intros [HT HS]. split.
  - clear HS. induction HT as [|c t [HL HN] HT IH]; [done|]. cbn [containsBlankLine]. rewrite (proj2 (Z.eqb_neq c cNUL)), IH by done.
    rewrite orb_false_r. cbn [startsWithText]. destruct HT as [|c' t [HL' _] _]; [by destruct (c =? cCR)|].
    cbn [startsWithText]. rewrite (proj2 (Z.eqb_neq c' cLF)) by done. by destruct (c =? cCR).
  - destruct HS as [->|HS]; [done|]. destruct t as [|c t]; [done|]. cbn. destruct (Z.eqb_spec c cCR) as [->|]; [done|done].
Qed.

Lemma blankLine_none got t : Forall isLine got -> lineStart t -> containsBlankLine (concat (map endLine got) ++ t) = false.
Proof.
  intros HG HT. destruct (blankLine_start t HT) as [HT1 HT2]. induction HG as [|line got [HN HL] HG IH]; cbn [map concat]; [done|].
  rewrite <- app_assoc, blankLine_line, IH, orb_false_r by done. destruct HG as [|line' got [HN' HL'] _]; [done|].
  destruct line' as [|c line']; [done|]. cbn. apply Forall_cons in HL' as [HC _]. by rewrite (proj2 (Z.eqb_neq c cCR)) by lia.
Qed.

Lemma blankLine_end lines rest : Forall isLine lines -> lines <> [] -> containsBlankLine (concat (map endLine lines) ++ crlf ++ rest) = true.
Proof.
  intros HG HN. induction HG as [|line got [_ HL] HG IH]; [done|]. cbn [map concat].
  rewrite <- app_assoc, blankLine_line by done. destruct got as [|line' got]; [by destruct rest|]. by rewrite IH, orb_true_r.
Qed.

(** ** The status line *)

Definition statusPrefix : list Z := str "HTTP/1.1 101 ".
Definition statusLine (text : list Z) : list Z := statusPrefix ++ text.
Definition isStatusText (text : list Z) : Prop := lineText text /\ (length text <= 1000)%nat.

Lemma scanStatus_text s : forall rest p space1 space2, Forall (fun c => c <> cLF /\ c <> cNUL) s ->
  scanStatus (s ++ rest) p (Some space1) (Some space2) = scanStatus rest (p + length s) (Some space1) (Some space2).
Proof.
  induction s as [|c s IH]; intros rest p space1 space2 HS; cbn [app length]; [by rewrite Nat.add_0_r|].
  apply Forall_cons in HS as [[HL HN] HS]. cbn [scanStatus]. rewrite (proj2 (Z.eqb_neq c cNUL)), (proj2 (Z.eqb_neq c cLF)) by done.
  destruct (c =? 32); rewrite IH by done; f_equal; lia.
Qed.

Lemma scanStatus_none s : Forall (fun c => c <> cLF /\ c <> cNUL) s -> forall p space1 space2, scanStatus s p space1 space2 = NoLine.
Proof.
  induction 1 as [|c s [HL HN] _ IH]; intros p space1 space2; [done|]. cbn [scanStatus].
  rewrite (proj2 (Z.eqb_neq c cNUL)), (proj2 (Z.eqb_neq c cLF)) by done. by destruct (c =? 32), space1, space2.
Qed.

Section Answers.
Context `{HashOrder} `{CaseFolding} `{CharDirection}.
Variable address : Z.
Abbreviation Handshake := (Handshake DeflateFrame).

Lemma scanStatus_prefix rest : scanStatus (statusPrefix ++ rest) 0 None None = scanStatus rest 13 (Some 8%nat) (Some 12%nat).
Proof. reflexivity. Qed.

Lemma scanStatus_line text rest : lineText text ->
  scanStatus (endLine (statusLine text) ++ rest) 0 None None = StatusLine (length (statusLine text) + 1) (Some 8%nat) (Some 12%nat).
Proof.
  intros HT. unfold endLine, statusLine, crlf. rewrite <- !app_assoc, scanStatus_prefix, scanStatus_text.
  - cbn [app scanStatus Z.eqb Pos.eqb]. f_equal. rewrite length_app. cbn. lia.
  - eapply Forall_impl; [by apply lineText_chars|]. cbn beta. tauto.
Qed.

(** The code is 101. *)
Lemma readStatusLine_spec text rest : isStatusText text ->
  readStatusLine (endLine (statusLine text) ++ rest) = (Z.of_nat (length (endLine (statusLine text))), 101, text, None).
Proof.
  intros [HT HL]. unfold readStatusLine. rewrite scanStatus_line by done.
  assert (EL : length (statusLine text) = (13 + length text)%nat) by (unfold statusLine; by rewrite length_app).
  assert (EI : int32 (Z.of_nat (S (length (statusLine text) + 1))) = Z.of_nat (length (endLine (statusLine text)))).
  { unfold endLine. rewrite length_app. cbn [crlf length]. unfold int32. rewrite Z.mod_small; lia. }
  assert (EE : Z.of_nat (length (endLine (statusLine text))) = 15 + Z.of_nat (length text)) by (unfold endLine; rewrite length_app, EL; cbn; lia).
  rewrite EI, EE. unfold maximumLength. rewrite Z.gtb_ltb, (proj2 (Z.ltb_ge 1024 _)), (proj2 (Z.ltb_ge _ 2)) by lia.
  assert (EC : nth (length (statusLine text) + 1 - 1) (endLine (statusLine text) ++ rest) 0 = cCR).
  { rewrite Nat.add_sub. unfold endLine. rewrite <- app_assoc, app_nth2 by lia. by rewrite Nat.sub_diag. }
  rewrite EC. cbn [Z.eqb Pos.eqb negb orb].
  assert (ES : substring 9 (12 - 8 - 1) (endLine (statusLine text) ++ rest) = str "101").
  { unfold endLine, statusLine. rewrite <- !app_assoc. reflexivity. }
  rewrite ES. change (length (str "101") =? 3)%nat with true. change (forallb isASCIIDigit (str "101")) with true. cbn [negb].
  change (fst (stringTo int_type (Some (str "101")))) with 101. do 2 f_equal. rewrite EL.
  unfold endLine, statusLine, substring. rewrite <- !app_assoc.
  change (drop 13 (statusPrefix ++ text ++ crlf ++ rest)) with (text ++ crlf ++ rest).
  replace (S (13 + length text + 1) - 12 - 3)%nat with (length text) by lia. apply take_app_length.
Qed.

(** ** Headers *)

(** A name is visible characters without a colon; a value begins with one. *)
Definition HeaderLine : Type := list Z * list Z.
Definition isHeader (f : HeaderLine) : Prop :=
  fst f <> [] /\ Forall (fun c => 33 <= c < 127 /\ c <> ":"%uchar) (fst f) /\ lineText (snd f) /\ exists c rest, snd f = c :: rest /\ c <> 32.
Definition headerText (f : HeaderLine) : list Z := fst f ++ str ": " ++ snd f.

Lemma isHeader_line f : isHeader f -> isLine (headerText f).
Proof.
  intros (HN & HF & HV & _). unfold headerText. split; [by destruct (fst f)|]. apply Forall_app. split; [eapply Forall_impl; [exact HF|cbn beta; lia]|].
  apply Forall_app. split; [|done]. repeat (apply Forall_cons_2; [cbn; lia|]). apply Forall_nil_2.
Qed.

Lemma nameLoop_spec name rest : forall before, Forall (fun c => 33 <= c < 127 /\ c <> ":"%uchar) name ->
  nameLoop (name ++ ":"%uchar :: rest) before = NameRead (before ++ name) rest.
Proof.
  induction name as [|c name IH]; intros before HN; cbn [app nameLoop]; [by rewrite app_nil_r|].
  apply Forall_cons in HN as [[HC HN'] HN]. change ("058"%uchar) with 58 in *. change (":"%uchar) with 58 in *.
  by rewrite (proj2 (Z.eqb_neq c cCR)), (proj2 (Z.eqb_neq c cLF)), (proj2 (Z.eqb_neq c 58)), IH, <- app_assoc by (done || lia).
Qed.

Lemma valueLoop_spec value rest : forall before, lineText value -> valueLoop true (value ++ cCR :: rest) before = inr (before ++ value, rest).
Proof.
  induction value as [|c value IH]; intros before HV; cbn [app valueLoop Z.eqb Pos.eqb]; [by rewrite app_nil_r|].
  apply Forall_cons in HV as [HC HV]. by rewrite (proj2 (Z.eqb_neq c cCR)), (proj2 (Z.eqb_neq c cLF)), IH, <- app_assoc by (done || lia).
Qed.

Lemma fromBuffer_ascii s : s <> [] -> Forall (fun c => 32 <= c < 127) s -> stringSize s -> fromBuffer address s = Some (Some s).
Proof.
  intros HN HS HZ. destruct s as [|c s]; [done|]. unfold fromBuffer. rewrite fromUTF8_cases; [|eapply Forall_impl; [exact HS|cbn beta; lia]|done].
  rewrite bool_decide_true; [done|]. eapply Forall_impl; [exact HS|]. intros b HB. cbn beta in HB. rewrite isASCII_ltb by lia. apply Z.ltb_lt. lia.
Qed.

Lemma parseHTTPHeader_spec f rest : isHeader f -> stringSize (headerText f) ->
  parseHTTPHeader address true (endLine (headerText f) ++ rest) = Some (Header (fst f) (snd f) (cLF :: rest)).
Proof.
  intros (HN & HF & HV & c & v & EV & HC) HZ. unfold endLine, headerText, crlf in *. rewrite <- !app_assoc. unfold parseHTTPHeader.
  change (str ": ") with (58 :: [32]). cbn [app]. rewrite nameLoop_spec by done. cbn [app].
  assert (EB : skipBlanks (32 :: snd f ++ cCR :: cLF :: rest) = snd f ++ cCR :: cLF :: rest).
  { rewrite EV. cbn [app skipBlanks Z.eqb Pos.eqb]. by rewrite (proj2 (Z.eqb_neq c 32)). }
  rewrite EB, valueLoop_spec by done. cbn [app andb Z.eqb Pos.eqb negb].
  unfold stringSize in HZ. rewrite !length_app in HZ.
  rewrite !fromBuffer_ascii; [done|by rewrite EV|done|unfold stringSize; lia|done|eapply Forall_impl; [exact HF|cbn beta; lia]|unfold stringSize; lia].
Qed.

(** ** The answer *)

Definition answerLines (text : list Z) (fields : list HeaderLine) : list (list Z) := statusLine text :: map headerText fields.
Definition answer (text : list Z) (fields : list HeaderLine) : list Z := concat (map endLine (answerLines text fields)) ++ crlf.

Fixpoint readAll (fields : list HeaderLine) (seen : Seen) (h : Handshake) : option (Handshake + Seen * Handshake) :=
  match fields with
  | [] => Some (inr (seen, h))
  | f :: fields =>
      match readHeader address (fst f) (snd f) seen h with
      | Some (inr (seen, h)) => readAll fields seen h
      | result => result
      end
  end.

Lemma headersLoop_spec fields rest : forall fuel seen h, (length fields < fuel)%nat -> Forall isHeader fields ->
  Forall (fun f => stringSize (headerText f)) fields ->
  headersLoop address fuel (concat (map endLine (map headerText fields)) ++ crlf ++ rest) seen h =
    match readAll fields seen h with
    | None => None
    | Some (inl h) => Some (inl h)
    | Some (inr (_, h)) => Some (inr (rest, h))
    end.
Proof.
  induction fields as [|f fields IH]; intros fuel seen h HL HF HZ; (destruct fuel as [|fuel]; [cbn in HL; lia|]); [done|].
  apply Forall_cons in HF as [Hf HF]. apply Forall_cons in HZ as [Hz HZ]. cbn [length] in HL.
  cbn [map concat]. rewrite <- app_assoc. cbn [headersLoop].
  destruct (endLine (headerText f) ++ _) as [|c p] eqn:EP; [destruct (isHeader_line f Hf) as [HN _]; by destruct (headerText f)|].
  rewrite <- EP, parseHTTPHeader_spec by done. cbn [readAll tail].
  destruct (readHeader address (fst f) (snd f) seen h) as [[h'|[seen' h']]|]; [done| |done]. apply IH; [lia|done|done].
Qed.

Definition startReading (text : list Z) (h : Handshake) : Handshake := withMode Normal (withResponse (101, text, ∅) (withMode Incomplete h)).

Lemma answerLines_ok text fields : isStatusText text -> Forall isHeader fields -> Forall isLine (answerLines text fields).
Proof.
  intros [HT _] HF. apply Forall_cons_2; [split; [done|]|].
  - apply Forall_app. split; [|done]. unfold statusPrefix. cbn [str]. repeat (apply Forall_cons_2; [cbn; lia|]). apply Forall_nil_2.
  - apply Forall_fmap. eapply Forall_impl; [exact HF|]. apply isHeader_line.
Qed.

Lemma concat_lines_length lines : (length lines <= length (concat (map endLine lines)))%nat /\
  Forall (fun line => (length line <= length (concat (map endLine lines)))%nat) lines.
Proof.
  induction lines as [|line lines [IH1 IH2]]; [done|]. assert (EL : length (endLine line) = (length line + 2)%nat) by (unfold endLine; by rewrite length_app).
  cbn [map concat length]. rewrite length_app, EL. split; [lia|]. constructor; [lia|].
  eapply Forall_impl; [exact IH2|]. cbn beta. intros. lia.
Qed.

(** An answer that is complete. *)
Lemma read_answer text fields rest h : isStatusText text -> Forall isHeader fields -> Z.of_nat (length (answer text fields ++ rest)) < 2 ^ 31 ->
  handshake_read address (answer text fields ++ rest) h =
    match readAll fields (mkSeen false false false) (startReading text h) with
    | None => None
    | Some (inl h) => Some (Z.of_nat (length (answer text fields ++ rest)), withMode Failed h)
    | Some (inr (_, h)) =>
        Some (Z.of_nat (length (answer text fields)),
          match checkResponseHeaders h with Some reason => withReason (Some reason) (withMode Failed h) | None => withMode Connected h end)
    end.
Proof.
  intros HT HF HL. pose proof (answerLines_ok text fields HT HF) as HLines.
  assert (EA : answer text fields ++ rest = endLine (statusLine text) ++ concat (map endLine (map headerText fields)) ++ crlf ++ rest)
    by (unfold answer, answerLines; cbn [map concat]; by rewrite <- !app_assoc).
  assert (EI : forall n, (n <= length (answer text fields ++ rest))%nat -> int32 (Z.of_nat n) = Z.of_nat n)
    by (intros n Hn; unfold int32; rewrite Z.mod_small; lia).
  unfold handshake_read. rewrite EI by done. rewrite EA at 1. rewrite readStatusLine_spec by done. cbv beta iota zeta.
  rewrite (proj2 (Z.eqb_neq _ (-1))) by lia. cbn [Z.eqb Pos.eqb negb].
  assert (EB : containsBlankLine (answer text fields ++ rest) = true) by (unfold answer; rewrite <- app_assoc; by apply blankLine_end).
  rewrite EB. cbn [negb]. unfold readHTTPHeaders. rewrite Nat2Z.id.
  assert (ED : drop (length (endLine (statusLine text))) (answer text fields ++ rest) = concat (map endLine (map headerText fields)) ++ crlf ++ rest)
    by (rewrite EA; apply drop_app_length).
  rewrite ED. destruct (concat_lines_length (map headerText fields)) as [HLen HSmall]. rewrite length_map in HLen.
  rewrite EA, !length_app in HL. rewrite headersLoop_spec; [|rewrite length_app; lia|done|].
  2: { apply (proj1 (Forall_fmap headerText (fun line => stringSize line) fields)). eapply Forall_impl; [exact HSmall|]. cbn beta. unfold stringSize. intros. lia. }
  fold (startReading text h). destruct (readAll _ _ _) as [[h'|[seen' h']]|]; try done.
  rewrite length_app, Nat.add_sub, EI by (rewrite length_app; lia). by destruct (checkResponseHeaders h').
Qed.

(** An answer that is not. *)
Lemma read_part text fields p q h : isStatusText text -> Forall isHeader fields -> p ++ q = answer text fields -> q <> [] ->
  handshake_read address p h = Some (-1, withMode Incomplete h) \/
  handshake_read address p h = Some (-1, withMode Incomplete (withResponse (101, text, ∅) h)).
Proof.
  intros HT HF HP HQ. pose proof (answerLines_ok text fields HT HF) as HLines.
  destruct (lines_prefix _ _ _ HLines HQ HP) as (got & t & -> & [k EK] & HS). unfold handshake_read.
  destruct got as [|line got].
  - left. cbn [map concat app]. unfold readStatusLine. rewrite scanStatus_none by apply HS. done.
  - right. injection EK as <- EK. unfold answerLines in HLines. rewrite EK in HLines.
    assert (HG : Forall isLine (statusLine text :: got)) by (rewrite app_comm_cons in HLines; by apply Forall_app in HLines as [HG _]).
    rewrite (blankLine_none _ _ HG HS). cbn [map concat]. rewrite <- app_assoc, readStatusLine_spec by done. cbv beta iota zeta.
    rewrite (proj2 (Z.eqb_neq _ (-1))) by lia. done.
Qed.

(** ** An answer that is accepted *)

Definition lowerName (name : list UChar) : list UChar := map toASCIILower name.
Definition visible (s : list Z) : Prop := Forall (fun c => 32 <= c < 127) s.

Lemma equalBy_spec f a : forall b, equalBy f a b = bool_decide (map f a = map f b).
Proof.
  induction a as [|x a IH]; intros [|y b]; cbn [equalBy map]; [by rewrite bool_decide_true|by rewrite bool_decide_false..|].
  rewrite IH. destruct (Z.eqb_spec (f x) (f y)) as [E|E]; cbn [andb].
  - apply bool_decide_ext. rewrite E. split; [by intros ->|by intros [=]].
  - symmetry. apply bool_decide_false. by intros [=].
Qed.

Lemma equalIgnoringCase_visible a b : visible a -> equalIgnoringCase a b = bool_decide (lowerName a = lowerName b).
Proof.
  intros HA. unfold equalIgnoringCase. replace (forallb (fun c => c <=? 0x7F) a) with true; [apply equalBy_spec|].
  symmetry. apply forallb_forall. intros c HC%list_elem_of_In. unfold visible in HA. rewrite Forall_forall in HA. specialize (HA c HC). cbn beta in HA.
  apply Z.leb_le. lia.
Qed.

Context `{!CaseFoldingASCII}.

Lemma foldName_visible name : visible name -> foldName name = lowerName name.
Proof. intros HN. apply map_ext_Forall. eapply Forall_impl; [exact HN|]. cbn beta. intros. apply u_foldCase_ascii. lia. Qed.

(** The values of the headers of a name, which is in lower case. *)
Definition values (name : list UChar) (fields : list HeaderLine) : list (list Z) :=
  map snd (filter (fun f => lowerName (fst f) = name) fields).

Definition addAll (fields : list HeaderLine) (m : HTTPHeaderMap) : HTTPHeaderMap :=
  fold_left (fun m f => addHTTPHeaderField (fst f) (snd f) m) fields m.

Lemma isHeader_visible f : isHeader f -> visible (fst f).
Proof. intros (_ & HF & _). eapply Forall_impl; [exact HF|]. cbn beta. lia. Qed.

Lemma addField_lookup f m k : isHeader f -> (lowerName (fst f) <> k -> addHTTPHeaderField (fst f) (snd f) m !! k = m !! k) /\
  (lowerName (fst f) = k -> m !! k = None -> addHTTPHeaderField (fst f) (snd f) m !! k = Some (snd f)).
Proof.
  intros HF%isHeader_visible. unfold addHTTPHeaderField, HTTPHeaderMap in *. rewrite foldName_visible by done. split.
  - intros HN. destruct (m !! _); by rewrite lookup_insert_ne.
  - intros <- ->. by rewrite lookup_insert_eq.
Qed.

Lemma addAll_lookup k fields : forall m, Forall isHeader fields ->
  (values k fields = [] -> addAll fields m !! k = m !! k) /\ (forall v, values k fields = [v] -> m !! k = None -> addAll fields m !! k = Some v).
Proof.
  induction fields as [|f fields IH]; intros m HF; [done|]. apply Forall_cons in HF as [Hf HF].
  destruct (addField_lookup f m k Hf) as [HN HE]. destruct (IH (addHTTPHeaderField (fst f) (snd f) m) HF) as [IH1 IH2].
  change (addAll (f :: fields) m) with (addAll fields (addHTTPHeaderField (fst f) (snd f) m)).
  unfold values in *. rewrite filter_cons. case_decide as HK.
  - split; [done|]. cbn [map]. intros v [= <- HV] HM. rewrite IH1 by done. by apply HE.
  - split; [intros HV; by rewrite IH1, HN|]. intros v HV HM. apply IH2; [done|]. by rewrite HN.
Qed.

Lemma values_cons k f fields : values k (f :: fields) = (if decide (lowerName (fst f) = k) then [snd f] else []) ++ values k fields.
Proof. unfold values. rewrite filter_cons. by case_decide. Qed.

(** Without a repeated accept, extensions or a protocol every header is stored. *)
Lemma readAll_stores fields : forall seen h, Forall isHeader fields ->
  values (str "sec-websocket-extensions") fields = [] -> values (str "sec-websocket-protocol") fields = [] ->
  (length (values (str "sec-websocket-accept") fields) + Nat.b2n (sawAccept seen) <= 1)%nat ->
  exists seen', readAll fields seen h = Some (inr (seen', withResponse (fst (m_response h), addAll fields (responseFields h)) h)).
Proof.
  induction fields as [|f fields IH]; intros seen h HF HX HP HA.
  { exists seen. cbn [readAll addAll fold_left]. unfold responseFields. rewrite <- surjective_pairing. by destruct h. }
  apply Forall_cons in HF as [Hf HF]. rewrite !values_cons in *. apply app_eq_nil in HX as [HX1 HX], HP as [HP1 HP].
  assert (HE : forall seen', (length (values (str "sec-websocket-accept") fields) + Nat.b2n (sawAccept seen') <= 1)%nat ->
    readHeader address (fst f) (snd f) seen h = Some (inr (seen', addField (fst f) (snd f) h)) ->
    exists seen'', readAll (f :: fields) seen h = Some (inr (seen'', withResponse (fst (m_response h), addAll (f :: fields) (responseFields h)) h))).
  { intros seen' HA' HR. cbn [readAll]. rewrite HR. destruct (IH seen' (addField (fst f) (snd f) h) HF HX HP HA') as (seen'' & ->). by exists seen''. }
  pose proof (isHeader_visible f Hf) as HV. unfold readHeader in HE. rewrite !equalIgnoringCase_visible in HE by done.
  change (lowerName (str "sec-websocket-extensions")) with (str "sec-websocket-extensions") in HE.
  change (lowerName (str "Sec-WebSocket-Accept")) with (str "sec-websocket-accept") in HE.
  change (lowerName (str "Sec-WebSocket-Protocol")) with (str "sec-websocket-protocol") in HE.
  destruct (decide (lowerName (fst f) = str "sec-websocket-extensions")) as [D1|D1]; [done|].
  destruct (decide (lowerName (fst f) = str "sec-websocket-protocol")) as [D2|D2]; [done|]. rewrite (bool_decide_false _ D1), (bool_decide_false _ D2) in HE.
  destruct (decide (lowerName (fst f) = str "sec-websocket-accept")) as [D3|D3]; cbn [app length] in HA.
  - rewrite (bool_decide_true _ D3) in HE. destruct (sawAccept seen); [cbn in HA; lia|]. eapply HE; [|done]. cbn [sawAccept Nat.b2n] in *. lia.
  - rewrite (bool_decide_false _ D3) in HE. by eapply HE.
Qed.

(** What a server must answer to a client that asked for no protocol. *)
Definition accepting (accept : list UChar) (fields : list HeaderLine) : Prop :=
  (exists v, values (str "upgrade") fields = [v] /\ lowerName v = str "websocket") /\
  (exists v, values (str "connection") fields = [v] /\ lowerName v = str "upgrade") /\
  values (str "sec-websocket-accept") fields = [accept] /\
  values (str "sec-websocket-extensions") fields = [] /\ values (str "sec-websocket-protocol") fields = [].

Lemma values_visible k fields v : Forall isHeader fields -> values k fields = [v] -> visible v.
Proof.
  intros HF HV. assert (HI : v ∈ values k fields) by (rewrite HV; apply list_elem_of_singleton; done).
  unfold values in HI. apply list_elem_of_fmap in HI as (f & -> & HI). apply list_elem_of_filter in HI as [_ HI].
  rewrite Forall_forall in HF. destruct (HF f HI) as (_ & _ & HL & _). done.
Qed.

Lemma accepted text fields h : Forall isHeader fields -> accepting (m_expectedAccept h) fields ->
  exists seen h', readAll fields (mkSeen false false false) (startReading text h) = Some (inr (seen, h')) /\
    checkResponseHeaders h' = None /\ h' = withResponse (101, text, addAll fields ∅) (startReading text h).
Proof.
  intros HF ((v1 & HU & LU) & (v2 & HC & LC) & HA & HX & HP).
  destruct (readAll_stores fields (mkSeen false false false) (startReading text h) HF HX HP) as (seen & HR); [rewrite HA; cbn; lia|].
  exists seen. eexists. split; [exact HR|]. split; [|done]. unfold checkResponseHeaders, getHTTPHeaderField.
  cbn [withResponse m_response snd fst startReading withMode responseFields m_expectedAccept].
  assert (HG : forall s : string, visible (str s) -> foldName (str s) = lowerName (str s)) by (intros; by apply foldName_visible).
  assert (HL : forall k v, values k fields = [v] -> addAll fields ∅ !! k = Some v) by (intros k v HV; by apply addAll_lookup).
  rewrite !HG by (cbn [str]; repeat (apply Forall_cons_2; [cbn; lia|]); apply Forall_nil_2).
  change (lowerName (str "upgrade")) with (str "upgrade"). change (lowerName (str "connection")) with (str "connection").
  change (lowerName (str "sec-websocket-accept")) with (str "sec-websocket-accept").
  change (lowerName (str "sec-websocket-protocol")) with (str "sec-websocket-protocol").
  rewrite (HL _ _ HU), (HL _ _ HC), (HL _ _ HA).
  rewrite !equalIgnoringCase_visible by (by eapply values_visible).
  rewrite LU, LC. change (lowerName (str "websocket")) with (str "websocket"). rewrite !bool_decide_true by done. cbn [negb].
  by rewrite (proj1 (addAll_lookup (str "sec-websocket-protocol") fields ∅ HF) HP).
Qed.
End Answers.
