(* ===== verification/WebSocketHandshakeSafety.v ===== *)
(** * Answers that are not trusted

    Whatever bytes a server sends, the handshake is connected only when the status
    line and the headers say what the protocol asks for, and the accept value
    comes from one line of the answer. *)

From S2P Require Import Prelude CharacterSource TextCodecUTF8 TextCodecUTF8Loops TextCodecUTF8Spec UnicodeUTF8 UnicodeUTF8Spec IntegerParsing WebSocketFrame WebSocketChannel WebSocketExtensions WebSocketExtensionsSpec WebSocketHandshake WebSocketHandshakeSpec.
From stdpp Require Import gmap.
Open Scope Z_scope.

(** ** Lines of the input *)

Definition blanks (s : list Z) : Prop := Forall (fun c => c = 32) s.

Lemma nameLoop_read data : forall before name rest, nameLoop data before = NameRead name rest ->
  exists n, name = before ++ n /\ (data = n ++ ":"%uchar :: rest \/ rest = []).
Proof.
  induction data as [|c data IH]; intros before name rest; cbn [nameLoop]; [intros [= <- <-]; exists []; rewrite app_nil_r; by auto|].
  destruct (c =? cCR); [destruct before, data as [|c' data]; try done; by destruct (c' =? cLF)|].
  destruct (c =? cLF); [done|]. destruct (Z.eqb_spec c ":"%uchar) as [->|_].
  - intros [= <- <-]. exists []. rewrite app_nil_r. by auto.
  - intros (n & -> & HD)%IH. exists (c :: n). rewrite <- app_assoc. split; [done|]. destruct HD as [-> | ->]; auto.
Qed.

Lemma nameLoop_end data : forall before rest, nameLoop data before = EmptyLine rest -> exists n, data = n ++ [cCR; cLF] ++ rest.
Proof.
  induction data as [|c data IH]; intros before rest; cbn [nameLoop]; [done|]. destruct (Z.eqb_spec c cCR) as [->|_].
  - destruct before, data as [|c' data]; try done. destruct (Z.eqb_spec c' cLF) as [->|_]; [|done]. intros [= ->]. by exists [].
  - destruct (c =? cLF), (c =? ":"%uchar); try done. intros (n & ->)%IH. by exists (c :: n).
Qed.

Lemma skipBlanks_split data : exists b, blanks b /\ data = b ++ skipBlanks data.
Proof.
  induction data as [|c data (b & HB & ED)]; [exists []; split; [apply Forall_nil_2|done]|]. cbn [skipBlanks].
  destruct (Z.eqb_spec c 32) as [->|_]; [|exists []; split; [apply Forall_nil_2|done]].
  exists (32 :: b). split; [by apply Forall_cons_2|]. by rewrite ED at 1.
Qed.

Lemma valueLoop_read data : forall before value rest, valueLoop true data before = inr (value, rest) ->
  exists v, value = before ++ v /\ (data = v ++ cCR :: rest \/ rest = []).
Proof.
  induction data as [|c data IH]; intros before value rest; cbn [valueLoop]; [intros [= <- <-]; exists []; rewrite app_nil_r; by auto|].
  destruct (Z.eqb_spec c cCR) as [->|_]; [intros [= <- <-]; exists []; rewrite app_nil_r; by auto|].
  destruct (c =? cLF); [done|]. intros (v & -> & HD)%IH. exists (c :: v). rewrite <- app_assoc. split; [done|]. destruct HD as [-> | ->]; auto.
Qed.

Section Untrusted.
Context `{HashOrder} `{CaseFolding} `{CharDirection} `{!CaseFoldingASCII}.
Variable address : Z.

(** A header line of the input, as bytes and as strings. *)
Definition isHeaderLine (line : list Z) (name value : list UChar) : Prop :=
  exists n b v, line = n ++ [":"%uchar] ++ b ++ v ++ [cCR; cLF] /\ blanks b /\ fromBuffer address n = Some (Some name) /\ fromBuffer address v = Some (Some value).

Lemma parseHTTPHeader_line p name value rest : parseHTTPHeader address true p = Some (Header name value rest) ->
  exists line, isHeaderLine line name value /\ p = line ++ tail rest.
Proof.
  unfold parseHTTPHeader. destruct (nameLoop p []) as [r|r|n p1] eqn:EN; [done..|].
  destruct (valueLoop true (skipBlanks p1) []) as [r|[v p2]] eqn:EV; [done|]. destruct p2 as [|c p2]; [done|]. cbn [andb].
  destruct (Z.eqb_spec c cLF) as [->|_]; [cbn [negb]|done].
  destruct (fromBuffer address n) as [[n'|]|] eqn:En, (fromBuffer address v) as [[v'|]|] eqn:Ev; try done. intros [= <- <- <-].
  destruct (valueLoop_read _ _ _ _ EV) as (v1 & -> & [HV|?]); [|done]. destruct (skipBlanks_split p1) as (b & HB & EB).
  destruct (nameLoop_read _ _ _ _ EN) as (n1 & -> & HN). cbn [app] in *.
  assert (HP : p = n1 ++ ":"%uchar :: p1) by (destruct HN as [?| ->]; [done|by destruct v1]).
  exists (n1 ++ [":"%uchar] ++ b ++ v1 ++ [cCR; cLF]). split; [by exists n1, b, v1|].
  rewrite HP, EB, HV. cbn [tail]. by rewrite <- !app_assoc.
Qed.

Lemma parseHTTPHeader_end p rest : parseHTTPHeader address true p = Some (HeadersEnd rest) -> exists n, p = n ++ [cCR; cLF] ++ rest.
Proof.
  unfold parseHTTPHeader. destruct (nameLoop p []) as [r|r|n p1] eqn:EN; [|done|].
  - intros [= ->]. by apply nameLoop_end in EN.
  - destruct (valueLoop true _ _) as [r|[v p2]]; [done|]. destruct p2 as [|c p2]; [done|]. cbn [andb]. destruct (negb _); [done|].
    by destruct (fromBuffer address n) as [[n'|]|], (fromBuffer address v) as [[v'|]|].
Qed.

(** ** Names *)

Lemma forallb_ascii s : forallb (fun c => c <=? 0x7F) s = true -> Forall (fun c => 0 <= c) s -> Forall (fun c => 0 <= c < 128) s.
Proof.
  intros HS HP. apply Forall_forall. intros c HC. rewrite forallb_forall in HS. rewrite Forall_forall in HP. specialize (HP c HC).
  apply list_elem_of_In in HC. specialize (HS c HC). apply Z.leb_le in HS. cbn beta in HP. lia.
Qed.

(** The test of a name and the key of the map agree. *)
Lemma equalIgnoringCase_fold name lit : Forall (fun c => 0 <= c) name -> visible lit ->
  equalIgnoringCase name lit = bool_decide (foldName name = lowerName lit).
Proof.
  intros HP HL. unfold equalIgnoringCase. destruct (forallb _ name) eqn:EA; rewrite equalBy_spec.
  - apply (forallb_ascii _ EA) in HP. apply bool_decide_ext. unfold foldName, lowerName.
    assert (EM : map u_foldCase name = map toASCIILower name) by (apply map_ext_Forall; eapply Forall_impl; [exact HP|apply u_foldCase_ascii]).
    by rewrite EM.
  - by rewrite (foldName_visible lit HL).
Qed.

Definition acceptKey : list UChar := str "sec-websocket-accept".

Lemma addHTTPHeaderField_other name value (m : HTTPHeaderMap) k : foldName name <> k -> addHTTPHeaderField name value m !! k = m !! k.
Proof. intros HN. unfold addHTTPHeaderField, HTTPHeaderMap in *. destruct (m !! _); by rewrite lookup_insert_ne. Qed.

Lemma addHTTPHeaderField_new name value (m : HTTPHeaderMap) : m !! foldName name = None -> addHTTPHeaderField name value m !! foldName name = Some value.
Proof. intros HN. unfold addHTTPHeaderField, HTTPHeaderMap in *. rewrite HN. apply lookup_insert_eq. Qed.

Lemma addField_fields name value (h : Handshake DeflateFrame) : responseFields (addField name value h) = addHTTPHeaderField name value (responseFields h).
Proof. done. Qed.

(** ** What the headers leave behind *)

(** Members the headers do not touch. *)
Definition sameRequest (h h' : Handshake DeflateFrame) : Prop :=
  m_expectedAccept h' = m_expectedAccept h /\ m_clientProtocol h' = m_clientProtocol h /\ fst (m_response h') = fst (m_response h).

(** The accept value is not there, or is that of one line of [data]. *)
Definition acceptFrom (data : list Z) (seen : Seen) (h : Handshake DeflateFrame) : Prop :=
  if sawAccept seen then
    exists before line after name value, data = before ++ line ++ after /\ isHeaderLine line name value /\ foldName name = acceptKey /\
      responseFields h !! acceptKey = Some value
  else responseFields h !! acceptKey = None.

Lemma utf8ToUTF16_nonneg fuel : forall capacity strict source target d, Forall (fun c => 0 <= c) target ->
  Forall (fun c => 0 <= c) (cv_target (utf8ToUTF16Loop fuel capacity strict source target d)).
Proof.
  induction fuel as [|fuel IH]; intros capacity strict source target d HT; [done|]. destruct source as [|b rest]; [done|].
  assert (HR : forall c, 0 <= c mod 2 ^ 16) by (intros; apply Z.mod_pos_bound; lia).
  cbn [utf8ToUTF16Loop]. repeat (case_match; try done); apply IH, Forall_app; (split; [done|]); repeat (apply Forall_cons_2 || apply Forall_nil_2); apply HR || done || (apply Z.lor_nonneg; split; [apply Z.land_nonneg; by right|done]).
Qed.

Lemma fromBuffer_nonneg buffer s : bytes buffer -> stringSize buffer -> fromBuffer address buffer = Some (Some s) -> Forall (fun c => 0 <= c) s.
Proof.
  intros HB HZ. destruct buffer as [|b buffer]; [done|]. unfold fromBuffer. rewrite fromUTF8_cases by done. case_bool_decide.
  - intros [= <-]. eapply Forall_impl; [exact HB|]. cbn beta. lia.
  - destruct (cv_result _); try done. intros [= <-]. apply utf8ToUTF16_nonneg, Forall_nil_2.
Qed.

(** One header. *)
Lemma readHeader_accept data before line after name value seen h seen' h' :
  data = before ++ line ++ after -> isHeaderLine line name value -> Forall (fun c => 0 <= c) name ->
  readHeader address name value seen h = Some (inr (seen', h')) -> acceptFrom data seen h -> acceptFrom data seen' h' /\ sameRequest h h'.
Proof.
  intros ED HL HN. unfold readHeader, acceptFrom. rewrite !equalIgnoringCase_fold by (done || (cbn [str]; repeat (apply Forall_cons_2; [cbn; lia|]); apply Forall_nil_2)).
  change (lowerName (str "Sec-WebSocket-Accept")) with acceptKey.
  assert (HO : forall s, foldName name = lowerName (str s) -> lowerName (str s) <> acceptKey -> foldName name <> acceptKey) by (by intros s ->).
  case_bool_decide as E1; [|case_bool_decide as E2; [|case_bool_decide as E3]].
  - destruct (sawExtensions seen); [done|]. destruct (processHeaderValue _ _ _ _) as [[accepted d]|]; [|done]. destruct accepted; [|done].
    intros [= <- <-]. done.
  - destruct (sawAccept seen) eqn:ES; [done|]. intros [= <- <-] HA. cbn [sawAccept]. split; [|done].
    exists before, line, after, name, value. split_and!; try done. rewrite <- E2 in *. rewrite addField_fields. by apply addHTTPHeaderField_new.
  - destruct (sawProtocol seen); [done|]. intros [= <- <-]. cbn [sawAccept]. rewrite addField_fields, addHTTPHeaderField_other by (by eapply HO). done.
  - intros [= <- <-]. rewrite addField_fields, addHTTPHeaderField_other by done. done.
Qed.

Lemma sameRequest_trans h1 h2 h3 : sameRequest h1 h2 -> sameRequest h2 h3 -> sameRequest h1 h3.
Proof. intros (E1 & E2 & E3) (F1 & F2 & F3). split_and!; congruence. Qed.

Lemma isHeaderLine_name line name value : bytes line -> stringSize line -> isHeaderLine line name value -> Forall (fun c => 0 <= c) name.
Proof.
  intros HB HZ (n & b & v & -> & _ & HN & _). unfold stringSize in HZ. rewrite length_app in HZ. apply Forall_app in HB as [HB _].
  apply (fromBuffer_nonneg n); [done|unfold stringSize; lia|done].
Qed.

Lemma headersLoop_accept data (HB : bytes data) (HZ : stringSize data) fuel : forall before p seen h rest h',
  data = before ++ p -> acceptFrom data seen h -> headersLoop address fuel p seen h = Some (inr (rest, h')) ->
  (exists seen', acceptFrom data seen' h') /\ sameRequest h h' /\ exists pre, data = pre ++ rest.
Proof.
  induction fuel as [|fuel IH]; intros before p seen h rest h' ED HA; cbn [headersLoop]; [done|]. destruct p as [|c p'].
  { intros [= <- <-]. split_and!; [by eauto|done|by exists before]. }
  set (p := c :: p') in *. destruct (parseHTTPHeader address true p) as [[reason|r|name value r]|] eqn:EP; [done| |destruct (readHeader _ _ _ _ _) as [[h1|[seen1 h1]]|] eqn:ER; [done| |done]|done].
  - intros [= <- <-]. destruct (parseHTTPHeader_end _ _ EP) as (n & EN). split_and!; [by eauto|done|]. exists (before ++ n ++ [cCR; cLF]).
    by rewrite ED, EN, <- !app_assoc.
  - destruct (parseHTTPHeader_line _ _ _ _ EP) as (line & HL & EL). rewrite EL in ED. intros HR.
    assert (HN : Forall (fun c => 0 <= c) name).
    { apply (isHeaderLine_name line name value); [|unfold stringSize in *|done].
      - rewrite ED in HB. apply Forall_app in HB as [_ HB]. by apply Forall_app in HB as [HB _].
      - rewrite ED, !length_app in HZ. lia. }
    destruct (readHeader_accept data before line (tail r) name value seen h seen1 h1 ED HL HN ER HA) as [HA1 HS1].
    rewrite app_assoc in ED. destruct (IH _ _ _ _ _ _ ED HA1 HR) as (? & HS2 & ?). split_and!; [done|by eapply sameRequest_trans|done].
Qed.

Lemma checkResponseHeaders_None (h : Handshake DeflateFrame) : checkResponseHeaders h = None ->
  let get name := getHTTPHeaderField (str name) (responseFields h) in
  (exists v, get "upgrade"%string = Some v /\ equalIgnoringCase v (str "websocket") = true) /\
  (exists v, get "connection"%string = Some v /\ equalIgnoringCase v (str "upgrade") = true) /\
  get "sec-websocket-accept"%string = Some (m_expectedAccept h) /\
  (forall protocol, get "sec-websocket-protocol"%string = Some protocol -> protocol ∈ WebSocketHandshake.split subProtocolSeparator (m_clientProtocol h)).
Proof.
  unfold checkResponseHeaders. cbv zeta. destruct (getHTTPHeaderField (str "upgrade") _) as [v1|]; [|done].
  destruct (getHTTPHeaderField (str "connection") _) as [v2|]; [|done]. destruct (getHTTPHeaderField (str "sec-websocket-accept") _) as [v3|]; [|done].
  destruct (equalIgnoringCase v1 _) eqn:E1; [|done]. destruct (equalIgnoringCase v2 _) eqn:E2; [|done]. cbn [negb].
  case_bool_decide as E3; [cbn [negb]|done]. subst v3. intros HP. split_and!; [by eauto..|done|]. intros protocol EQ. rewrite EQ in HP.
  destruct (m_clientProtocol h) as [|c cs] eqn:EC; [done|]. destruct (existsb _ _) eqn:EX; [|done].
  apply existsb_exists in EX as (x & HX & HE). apply bool_decide_eq_true in HE as ->. by apply list_elem_of_In.
Qed.
End Untrusted.

(** C24: a handshake that cannot be fooled.  Whatever bytes a server sends, the client
    takes the connection as open only when the status is 101, one line of the answer is
    an accept header with the value the client expects, Upgrade and Connection have
    the values of the protocol, and a subprotocol that is named is one the client
    offered; and it has consumed no more than has arrived. *)
Theorem handshake_connected_is_accepted `{HashOrder} `{CaseFolding} `{CharDirection} `{!CaseFoldingASCII}
  (address : Z) (data : list Z) (h h' : Handshake DeflateFrame) (n : Z)
  (get := fun name => getHTTPHeaderField (str name) (responseFields h')) :
  bytes data -> Z.of_nat (length data) < 2 ^ 31 -> handshake_read address data h = Some (n, h') -> m_mode h' = Connected ->
  (exists before line after name, data = before ++ line ++ after /\ isHeaderLine address line name (m_expectedAccept h) /\ foldName name = acceptKey) /\
  fst (fst (m_response h')) = 101 /\ 0 <= n <= Z.of_nat (length data) /\
  (exists v, get "upgrade"%string = Some v /\ equalIgnoringCase v (str "websocket") = true) /\
  (exists v, get "connection"%string = Some v /\ equalIgnoringCase v (str "upgrade") = true) /\
  (forall protocol, get "sec-websocket-protocol"%string = Some protocol -> protocol ∈ WebSocketHandshake.split subProtocolSeparator (m_clientProtocol h)).
Proof.
  intros HB HL. unfold handshake_read. destruct (readStatusLine data) as [[[lineLength code] text] reason].
  set (h0 := match reason with Some _ => _ | None => _ end).
  assert (HM : m_mode h0 = Incomplete) by by destruct reason. assert (HS : m_expectedAccept h0 = m_expectedAccept h /\ m_clientProtocol h0 = m_clientProtocol h) by by destruct reason.
  destruct (lineLength =? -1); [intros [= <- <-]; by rewrite HM|]. destruct (code =? -1); [by intros [= <- <-]|].
  destruct (Z.eqb_spec code 101) as [->|_]; cbn [negb]; [|by intros [= <- <-]]. destruct (containsBlankLine data); cbn [negb]; [|by intros [= <- <-]].
  unfold readHTTPHeaders. set (p := drop (Z.to_nat lineLength) data).
  destruct (headersLoop address _ p _ _) as [[h1|[rest h1]]|] eqn:EL; [by intros [= <- <-]| |done].
  destruct (headersLoop_accept address data HB) with (4 := EL) (before := take (Z.to_nat lineLength) data) as ((seen & HA) & (S1 & S2 & S3) & (pre & EP)).
  { unfold stringSize. lia. }
  { unfold p. by rewrite take_drop. }
  { apply lookup_empty. }
  destruct (checkResponseHeaders h1) eqn:EC; [by intros [= <- <-]|]. intros [= <- <-] _. destruct (checkResponseHeaders_None h1 EC) as (HU & HC & HX & HP).
  rewrite S1, (proj1 HS : m_expectedAccept (withMode Normal (withResponse _ h0)) = _) in HX. rewrite S2, (proj2 HS : m_clientProtocol (withMode Normal (withResponse _ h0)) = _) in HP.
  unfold getHTTPHeaderField in HX. rewrite foldName_visible in HX by (cbn [str]; repeat (apply Forall_cons_2; [cbn; lia|]); apply Forall_nil_2).
  change (lowerName (str "sec-websocket-accept")) with acceptKey in HX. unfold acceptFrom in HA.
  split_and!; [| |rewrite int32_id; apply (f_equal length) in EP; rewrite length_app in EP; lia|rewrite int32_id; apply (f_equal length) in EP; rewrite length_app in EP; lia|done|done|done].
  - destruct (sawAccept seen); [|by rewrite HX in HA]. destruct HA as (before & line & after & name & value & ED & HLine & HN & HV).
    rewrite HX in HV. injection HV as <-. by exists before, line, after, name.
  - cbn [withMode m_response]. by rewrite S3.
Qed.

(** ** Examples *)

Module HandshakeSample.
#[export] Instance lowerCase : CaseFolding := toASCIILower.
#[export] Instance lowerCaseASCII : CaseFoldingASCII := fun c _ => eq_refl.

(** The key and the accept value of the example in the RFC. *)
Definition client : Handshake DeflateFrame :=
  mkHandshake _ (str "/chat") (str "server.example.com") (str "http://example.com") [] (str "agent") (str "dGhlIHNhbXBsZSBub25jZQ==") (str "chat")
    (str "s3pPLMBiTxaQ9kYGzzhZRbK+xOo=") Incomplete (0, [], ∅) None newDispatcher.
Definition headers : list HeaderLine :=
  [(str "Server", str "example"); (str "UPGRADE", str "websocket"); (str "Connection", str "Upgrade"); (str "Sec-WebSocket-Accept", str "s3pPLMBiTxaQ9kYGzzhZRbK+xOo=")].
Definition reply : list Z := answer (str "Switching Protocols") headers.
End HandshakeSample.
Import ExtensionSample HandshakeSample.

Ltac solve_text := cbn [str app]; repeat (apply Forall_cons_2; [cbn; lia|]); apply Forall_nil_2.

Lemma handshake_connected_is_accepted_witness :
  exists n h', handshake_read 0 reply client = Some (n, h') /\
    exists before line after name, reply = before ++ line ++ after /\ isHeaderLine 0 line name (m_expectedAccept client) /\ foldName name = acceptKey.
Proof.
  assert (HM : option_map (fun r => m_mode (snd r)) (handshake_read 0 reply client) = Some Connected) by (vm_compute; reflexivity).
  destruct (handshake_read 0 reply client) as [[n h']|] eqn:E; [|done]. injection HM as HM. exists n, h'. split; [done|].
  refine (proj1 (handshake_connected_is_accepted 0 reply client h' n _ _ E HM)).
  - apply (proj1 (bool_decide_eq_true (bytes reply))). vm_compute. reflexivity.
  - vm_compute. reflexivity.
Defined.

(** ** Where the code falls short *)

(** The limit of the status line does not limit.  It is there to prevent a
    server from sending an unbounded amount of data without a line feed that the
    client has to buffer, but it is tested only once a line feed has
    arrived: until then the handshake asks for more, however much there is. *)
Theorem status_line_never_too_long `{HashOrder} `{CaseFolding} `{CharDirection} (address : Z) (data : list Z) (h : Handshake DeflateFrame) :
  Forall (fun c => c <> cLF /\ c <> cNUL) data -> handshake_read address data h = Some (-1, withMode Incomplete h).
Proof. intros HD. unfold handshake_read, readStatusLine. by rewrite scanStatus_none. Qed.

Lemma status_line_never_too_long_witness : handshake_read 0 (repeat 65 5000) client = Some (-1, withMode Incomplete client).
Proof. apply (status_line_never_too_long 0 (repeat 65 5000) client). apply Forall_forall. intros c HC%list_elem_of_In%repeat_spec. by subst c. Defined.

(** A status code that has not three characters fails without a reason, although the caller relies on one. *)
Theorem failure_without_reason :
  handshake_read 0 (str "HTTP/1.1 1010 Switching" ++ crlf) client = Some (25, withMode Failed client) /\ hs_failureReason (withMode Failed client) = None.
Proof. split; vm_compute; reflexivity. Qed.

(** A header without a value is taken for one that is not UTF-8. *)
Theorem empty_header_value_refused : parseHTTPHeader 0 true (str "Server:" ++ crlf) = Some (HeaderFailed (str "Invalid UTF-8 sequence in header value")).
Proof. vm_compute. reflexivity. Qed.
