(* ===== verification/WebSocketConnection.v ===== *)
(** * A connection from its handshake on

    The channel over any handshake that reads an answer ([HandshakeAnswers]), and
    the handshake of the source as one. *)

From S2P Require Import Prelude CharacterSource TextCodecUTF8 UnicodeUTF8 IntegerParsing WebSocketFrame WebSocketFrameSpec WebSocketChannel SocketStreamHandle SocketStreamHandleSpec WebSocketSession WebSocketExtensions WebSocketExtensionsSpec WebSocketHandshake WebSocketHandshakeSpec WebSocketHandshakeSafety.
From stdpp Require Import gmap.
Open Scope Z_scope.

Lemma app_eq_split {A : Type} (a b c d : list A) : a ++ b = c ++ d -> (length c <= length a)%nat -> exists p, a = c ++ p /\ d = p ++ b.
Proof.
  intros HE HL. exists (drop (length c) a). assert (EA : take (length c) a = c) by (rewrite <- (take_app_le a b), HE by done; apply take_app_length).
  rewrite <- (take_drop (length c) a), EA in HE at 1. rewrite <- app_assoc in HE. apply app_inv_head in HE.
  split; [|done]. rewrite <- EA at 1. symmetry. apply take_drop.
Qed.

(** ** What the channel needs of a handshake *)

(** While a part of the answer has arrived the handshake waits; with all of it, and
    whatever follows, it is connected and has consumed the answer. *)
Class HandshakeAnswers {H : Type} `{WebSocketHandshakeOps H} (ready : H -> Prop) (text : list Z) : Prop := {
  answers_incomplete h : ready h -> hs_mode h = Incomplete;
  answers_part h p q : ready h -> p ++ q = text -> q <> [] -> exists n h', readServerHandshake p h = Some (n, h', None) /\ n <= 0 /\ ready h';
  answers_all h rest : ready h -> Z.of_nat (length (text ++ rest)) < 2 ^ 31 ->
    exists h', readServerHandshake (text ++ rest) h = Some (Z.of_nat (length text), h', None) /\ hs_mode h' = Connected;
  answers_nonempty : text <> []
}.

Section Connection.
Context {H K D : Type} `{WebSocketHandshakeOps H} `{SocketStreamHandleOps K} `{!SocketAccepts K} `{ZlibOps D} `{MaskingKeys}.
Context (ready : H -> Prop) (text : list Z) `{!HandshakeAnswers ready text}.
Variable address : Z.
Hypothesis keys_four : forall n, length (maskingKeyOf n) = maskingKeyWidthInBytes.
Abbreviation live := (@liveChannel H K D).

(** The channel that waits for the answer, after these calls and bytes. *)
Definition connecting (h : H) (k : K) (buffer : list Z) (w : Assembly) : Channel H K D :=
  mkChannel true true (Some h) (Some k) buffer false false false false false false false 0 false OpCodeInvalid [] CloseEventCodeAbnormalClosure None
    [] OutgoingFrameQueueOpen None BlobLoaderNotStarted (mkDeflateFramer None) (a_events w) (a_wire w) 0.
Definition connectedOnly (w : Assembly) : Assembly := mkAssembly None (a_events w ++ [didConnect]) (a_wire w) 0.

Lemma processBuffer_part h k p q w : ready h -> p <> [] -> p ++ q = text -> q <> [] ->
  exists h', processBuffer address (connecting h k p w) = Some (false, connecting h' k p w) /\ ready h'.
Proof.
  intros HR HN HP HQ. destruct (answers_part h p q HR HP HQ) as (n & h' & ER & HL & HR'). exists h'. split; [|done].
  destruct p as [|b p]; [done|]. unfold processBuffer, connecting. run. rewrite (answers_incomplete h HR). run. rewrite ER. unfold processHandshake. run.
  by rewrite (proj2 (Z.leb_le n 0)).
Qed.

Lemma processBuffer_all h k rest w : ready h -> Z.of_nat (length (text ++ rest)) < 2 ^ 31 ->
  exists h', processBuffer address (connecting h k (text ++ rest) w) =
    Some (negb (isEmptyBuffer rest), live (surroundingsOf h') k OpCodeInvalid rest (connectedOnly w)) /\ hs_mode h' = Connected.
Proof.
  intros HR HL. destruct (answers_all h rest HR HL) as (h' & ER & HM). exists h'. split; [|done].
  pose proof answers_nonempty as HN. assert (HE : isEmptyBuffer (text ++ rest) = false) by by destruct text.
  assert (HP : (Z.of_nat (length text) <=? 0) = false) by (apply Z.leb_gt; destruct text; [done|cbn [length]; lia]).
  unfold processBuffer, connecting. run. rewrite HE. run. rewrite (answers_incomplete h HR). run. rewrite ER. unfold processHandshake. run. rewrite HP, HM. run.
  rewrite Nat2Z.id. unfold skipBuffer, notify. run. rewrite (proj2 (Nat.leb_le _ _)) by (rewrite length_app; lia). run. by rewrite drop_app_length.
Qed.

(** More data, and still a part of the answer. *)
Lemma receive_part h k t data q w : ready h -> data <> [] -> (t ++ data) ++ q = text -> q <> [] -> Z.of_nat (length (t ++ data)) < 2 ^ 31 ->
  exists h', didReceiveSocketStreamData address data (connecting h k t w) = Some (tt, connecting h' k (t ++ data) w) /\ ready h'.
Proof.
  intros HR HD HP HQ HL. assert (HN : t ++ data <> []) by (destruct t, data; done).
  destruct (processBuffer_part h k (t ++ data) q w HR HN HP HQ) as (h' & EB & HR'). exists h'. split; [|done].
  rewrite length_app in HL. unfold didReceiveSocketStreamData, appendToBuffer, processAll. destruct data as [|b data]; [done|].
  unfold connecting at 1. run. rewrite Z.mod_small, (proj2 (Z.ltb_ge _ _)) by lia. run. rewrite vectorAppend_fits by (unfold fitsVector; lia). run. cbn [processLoop]. run.
  replace (isEmptyBuffer (t ++ b :: data)) with false by by destruct t. run. unfold connecting in EB. by rewrite EB.
Qed.

(** The rest of the answer, with frames behind it. *)
Lemma receive_all h k t data rest frames t' a w n : ready h -> data <> [] -> t ++ data = text ++ rest -> Z.of_nat (length (t ++ data)) < 2 ^ 31 ->
  rest = concat (map onWire frames) ++ t' -> waiting t' -> Forall framed frames -> assembleAll (connectedOnly w) frames = Some a ->
  accepts n k -> spent w a <= n ->
  exists h' c, didReceiveSocketStreamData address data (connecting h k t w) = Some (tt, c) /\ hs_mode h' = Connected /\
    steps n (connectedOnly w) a (surroundingsOf h') t' c.
Proof.
  intros HR HD HP HL EF HW HF HA HK HSp. rewrite HP in HL.
  destruct (processBuffer_all h k rest w HR HL) as (h' & EB & HM). rewrite <- HP in HL, EB. rewrite length_app in HL.
  assert (HLE : (length rest <= length t + length data)%nat) by (apply (f_equal length) in HP; rewrite !length_app in HP; lia).
  assert (EL : exists c, (if negb (isEmptyBuffer rest) then processLoop address (length (t ++ data)) else mret tt)
    (live (surroundingsOf h') k OpCodeInvalid rest (connectedOnly w)) = Some (tt, c) /\ steps n (connectedOnly w) a (surroundingsOf h') t' c).
  { destruct rest as [|b rest']; cbn [isEmptyBuffer negb].
    - symmetry in EF. apply app_eq_nil in EF as [EF ->].
      assert (frames = []) as -> by (destruct frames as [|s frames]; [done|]; by apply app_eq_nil in EF as [?%onWire_nonempty _]).
      injection HA as <-. eexists. split; [reflexivity|]. apply steps_exactly; [done|unfold spent; lia].
    - rewrite EF in HLE |- *. rewrite length_app in HLE.
      apply (processLoop_frames address keys_four (surroundingsOf h') HM frames); try done; [|constructor|unfold roomFor, fitsVector; cbn [partialData connectedOnly a_partial length]; lia].
      rewrite HP, EF, !length_app. pose proof answers_nonempty. destruct text; [done|]. cbn [length].
      enough (length frames <= length (concat (map onWire frames)))%nat by lia. clear. induction frames as [|s frames IH]; [done|].
      cbn [map concat length]. rewrite length_app. pose proof (onWire_nonempty s). destruct (onWire s); [done|]. cbn [length]. lia. }
  destruct EL as (c & EL & HC). exists h', c. split; [|done].
  unfold didReceiveSocketStreamData, appendToBuffer, processAll. destruct data as [|b data]; [done|].
  unfold connecting at 1. run. rewrite Z.mod_small, (proj2 (Z.ltb_ge _ _)) by lia. run. rewrite vectorAppend_fits by (unfold fitsVector; lia). run. cbn [processLoop]. run.
  replace (isEmptyBuffer (t ++ b :: data)) with false by by destruct t. run. unfold connecting in EB. rewrite EB. by destruct (isEmptyBuffer rest).
Qed.

(** The pieces of the answer and of the frames, one after another. *)
Lemma feed_connecting w frames a n (HF : Forall framed frames) (HA : assembleAll (connectedOnly w) frames = Some a)
  (HL : Z.of_nat (length (text ++ concat (map onWire frames))) < 2 ^ 31) (HSp : spent w a <= n) pieces : forall h k t,
  ready h -> accepts n k -> Forall (fun data => data <> []) pieces -> (length t < length text)%nat -> t ++ concat pieces = text ++ concat (map onWire frames) ->
  exists h' c, feed address pieces (connecting h k t w) = Some (tt, c) /\ steps n (connectedOnly w) a (surroundingsOf h') [] c.
Proof.
  induction pieces as [|data pieces IH]; intros h k t HR HK HN HT EP; cbn [concat] in EP.
  { apply (f_equal length) in EP. rewrite app_nil_r, length_app in EP. lia. }
  apply Forall_cons in HN as [Hd HN]. rewrite app_assoc in EP. cbn [feed]. run.
  assert (HS : Z.of_nat (length (t ++ data)) < 2 ^ 31) by (rewrite <- EP, length_app in HL; lia).
  destruct (le_lt_dec (length text) (length (t ++ data))) as [HC|HC].
  - destruct (app_eq_split _ _ _ _ EP HC) as (p & EP1 & EP2). symmetry in EP2.
    destruct (frames_prefix frames p (concat pieces) HF EP2) as (got & todo & t' & -> & EG & HW & ET). apply Forall_app in HF as [HG HTodo].
    rewrite assembleAll_app in HA. destruct (assembleAll _ got) as [a1|] eqn:E1; [|done]. cbn [mbind option_bind] in HA.
    pose proof (assembleAll_wire got _ a1 E1) as HW0. pose proof (assembleAll_wire todo a1 a HA) as HW1. unfold spent in HW0. cbn [connectedOnly a_wire] in HW0.
    assert (HV : roomFor (connectedOnly w) (got ++ todo)) by (unfold roomFor, fitsVector; cbn [partialData connectedOnly a_partial length]; rewrite length_app in HL; lia).
    destruct (roomFor_app got todo _ a1 HG E1 HV) as [_ HV2].
    destruct (receive_all h k t data p got t' a1 w n HR Hd EP1 HS EG HW HG E1 HK ltac:(unfold spent in *; lia)) as (h' & c1 & -> & HM & k1 & op1 & a2 & -> & HS2 & HK2).
    symmetry in HS2. destruct (assembleAll_same todo a1 a2 a HS2 HA) as (b' & HA2 & HS').
    destruct (feed_frames address keys_four (surroundingsOf h') HM pieces todo k1 op1 t' a2 b' (n - spent (connectedOnly w) a1)) as (c & HF2 & k3 & op3 & a3 & -> & HS3 & HK3); try done.
    { rewrite <- (same_partialData a1 a2 HS2). apply (assembleAll_bytes got (connectedOnly w)); [done|constructor|done]. }
    { by apply (roomFor_same a1). }
    { rewrite <- (spent_same a1 a a2 b' HS2 HS'). unfold spent in *. cbn [connectedOnly a_wire]. lia. }
    exists h'. eexists. split; [exact HF2|]. exists k3, op3, a3. split_and!; [done|by rewrite HS3|]. eapply accepts_less; [exact HK3|].
    rewrite <- (spent_same a1 a a2 b' HS2 HS'). unfold spent. lia.
  - destruct (app_eq_split text _ (t ++ data) (concat pieces) (eq_sym EP)) as (q & EQ & _); [lia|].
    destruct (receive_part h k t data q w HR Hd) as (h' & -> & HR'); [done| |done|].
    { intros ->. rewrite app_nil_r in EQ. rewrite <- EQ in HC. lia. }
    by apply IH.
Qed.

(** From the open socket on: the request goes out, the answer comes in. *)
Lemma open_connecting h k n : accepts n k -> Z.of_nat (length (clientHandshakeMessage h)) <= n ->
  exists k' amount, didOpenSocketStream (newChannel h k) = Some (tt, connecting h k' [] (withReport amount (mkAssembly None [] (clientHandshakeMessage h) 0))) /\
    accepts (n - Z.of_nat (length (clientHandshakeMessage h))) k'.
Proof.
  intros HK HL. destruct (accepts_send n (clientHandshakeMessage h) k HK HL) as (amount & k' & EK & HK'). exists k', amount. split; [|done].
  unfold didOpenSocketStream, handleSend, newChannel. run. rewrite EK. destruct amount; unfold didUpdateBufferedAmount, notify; by run.
Qed.
End Connection.

(** ** The handshake of the source *)

Section Answered.
Context `{HashOrder} `{CaseFolding} `{CharDirection} `{!CaseFoldingASCII}.
Variables (address : Z) (accept : list UChar) (text : list Z) (fields : list HeaderLine).

(** A client that waits for this accept value. *)
Definition awaiting (h : Handshake DeflateFrame) : Prop := m_mode h = Incomplete /\ m_expectedAccept h = accept.

Lemma read_without_calls p n (h h' : Handshake DeflateFrame) : handshake_read address p h = Some (n, h') -> m_extensionDispatcher h' = m_extensionDispatcher h ->
  read address p h = Some (n, h', None).
Proof. intros ER ED. unfold read, deflateCalls. by rewrite ER, ED, drop_all. Qed.

Lemma handshakeAnswers : isStatusText text -> Forall isHeader fields -> accepting accept fields ->
  @HandshakeAnswers _ (handshakeOps address) awaiting (answer text fields).
Proof.
  intros HT HF HA. split.
  - by intros h [HM _].
  - intros h p q [HM HE] HP HQ.
    destruct (read_part address text fields p q h HT HF HP HQ) as [ER|ER]; exists (-1); eexists; (split; [by apply read_without_calls; [exact ER|]|]); by split.
  - intros h rest [HM HE] HL. subst accept. destruct (accepted address text fields h HF HA) as (seen & h' & HR & HC & ->).
    pose proof (read_answer address text fields rest h HT HF HL) as ER. rewrite HR, HC in ER. eexists. split; [by apply read_without_calls; [exact ER|]|done].
  - done.
Qed.
End Answered.

(** A connection from the open socket on, over a handle that takes the request
    and the answers to pings.  The channel sends the request of its
    handshake.  A server answers with status 101, the headers of the protocol in
    any order and any case among others, and frames behind them; the bytes, fewer
    than 2^31, arrive in pieces cut anywhere, in the answer, between the answer and the frames, or in a frame.
    The channel reports the connection once, before any message, and makes of the
    frames what a receiver must: no byte of the answer is taken for a frame
    and none of the frames is lost. *)
Theorem connection_from_handshake {K D : Type} `{SocketStreamHandleOps K} `{!SocketAccepts K} `{ZlibOps D} `{MaskingKeys} `{HashOrder} `{CaseFolding} `{CharDirection} `{!CaseFoldingASCII}
  (address : Z) (h : Handshake DeflateFrame) (k : K) (text : list Z) (fields : list HeaderLine) (pieces : list (list Z)) (frames : list ServerFrame) (a : Assembly)
  (ops := handshakeOps address) :
  (forall n, length (maskingKeyOf n) = maskingKeyWidthInBytes) ->
  m_mode h = Incomplete -> isStatusText text -> Forall isHeader fields -> accepting (m_expectedAccept h) fields ->
  Forall framed frames -> Forall (fun data => data <> []) pieces -> concat pieces = answer text fields ++ concat (map onWire frames) ->
  Z.of_nat (length (concat pieces)) < 2 ^ 31 -> assembleAll (mkAssembly None [didConnect] (message h) 0) frames = Some a ->
  takesAnswers k a ->
  exists c : Channel (Handshake DeflateFrame) K D, (didOpenSocketStream;; feed address pieces) (newChannel h k) = Some (tt, c) /\ shows c a.
Proof.
  intros HM HI HT HH HAcc HF HN EP HL HA HK. unfold takesAnswers in HK. pose proof (assembleAll_wire frames _ a HA) as HW. unfold spent in HW. cbn [a_wire] in HW.
  destruct (open_connecting (D := D) h k _ HK) as (k1 & amount & EO & HK1); [change (clientHandshakeMessage h) with (message h); lia|].
  pose proof (handshakeAnswers address (m_expectedAccept h) text fields HT HH HAcc) as HAns. rewrite EP in HL.
  set (w := withReport amount _) in EO. assert (EW : a_wire w = message h) by (unfold w; by destruct amount).
  assert (HSame : same (mkAssembly None [didConnect] (message h) 0) (connectedOnly w)).
  { unfold w, connectedOnly. destruct amount; by split; cbn [withReport a_events a_wire a_partial a_frames]. }
  destruct (assembleAll_same frames _ _ a HSame HA) as (a' & HA' & HS').
  destruct (feed_connecting (awaiting (m_expectedAccept h)) (answer text fields) address HM w frames a' _ HF HA' HL
    ltac:(rewrite <- (spent_same w a w a' ltac:(reflexivity) HS'); reflexivity) pieces h k1 [])
    as (h' & c & EF & HC); [done| |done| |done|].
  { eapply accepts_less; [exact HK1|]. unfold spent. rewrite EW. change (clientHandshakeMessage h) with (message h). lia. }
  { unfold answer. rewrite length_app. cbn. lia. }
  exists c. split; [unfold mbind, M_bind; rewrite EO; exact EF|]. eapply (steps_shows _ (connectedOnly w) a (surroundingsOf h')).
  - by eapply assembleAll_quiet; [|exact HA].
  - destruct HC as (k3 & op3 & a3 & -> & HS3 & HK3). exists k3, op3, a3. split_and!; [done|by rewrite HS3|].
    rewrite (spent_same _ a _ a' ltac:(reflexivity) HS'). exact HK3.
Qed.

Import Sample SampleSocket ExtensionSample HandshakeSample.
#[local] Instance sampleHandshakeOps : WebSocketHandshakeOps (Handshake DeflateFrame) := handshakeOps 0.

(** The answer cut in its middle, a piece with its end, a message and the beginning of a ping. *)
Lemma connection_from_handshake_witness :
  exists c : Channel (Handshake DeflateFrame) (SocketStreamHandle (list Z)) unit,
    (didOpenSocketStream;; feed 0 [take 40 reply; drop 40 reply ++ [0x81; 0x02; 0x48; 0x69; 0x89]; [0x01; 0x09]]) (newChannel client openHandle) = Some (tt, c) /\
    shows c (mkAssembly None [didConnect; didReceiveMessage [0x48; 0x69]] (message client ++ [0x8A; 0x81; 1; 2; 3; 4; 8]) 1).
Proof.
  apply (connection_from_handshake 0 client openHandle (str "Switching Protocols") headers _ [DataFrame true true [0x48; 0x69]; PingFrame [9]]).
  - exact sample_keys.
  - reflexivity.
  - split; [solve_text|cbn; lia].
  - unfold headers. repeat (apply Forall_cons_2; [split_and!; [done|solve_text|solve_text|by do 2 eexists]|]). apply Forall_nil_2.
  - split_and!; [by eexists|by eexists|reflexivity..].
  - solve_framed.
  - by repeat constructor.
  - vm_compute. reflexivity.
  - vm_compute. reflexivity.
  - vm_compute. reflexivity.
  - apply openHandle_accepts. vm_compute. discriminate.
Defined.
