(* ===== verification/WebSocketOpening.v ===== *)
(** * Opening a web socket

    The constructor of [Modules/websockets/WebSocketHandshake.cpp] with the key of the
    client and the accept value it expects, the parts of the request that come from the
    URL, and [WebSocketChannel::connect]: the client against a server that follows RFC 6455.

    The random bytes of the key, [lower] of the host and the memory of vectors are given. *)

From S2P Require Import Prelude CharacterSource TextCodecUTF8 UnicodeUTF8 BitStrings IntegerParsing IntegerParsingSpec Base64 Base64Spec Base64Decode Base64Roundtrip SHA1 SHA1Spec.
From S2P Require Import WebSocketFrame WebSocketFrameSpec WebSocketChannel SocketStreamHandle SocketStreamHandleSpec WebSocketSession WebSocketExtensions WebSocketExtensionsSpec WebSocketHandshake WebSocketHandshakeSpec WebSocketHandshakeSafety WebSocketConnection.
From stdpp Require Import gmap.
Open Scope Z_scope.

(** ** The parts of the URL *)

(** What the accessors of [URL] give; the query is [None] when it is null, the host in
    lower case, and the port 0 when there is none. *)
Record URL := mkURL {
  url_protocolIsWSS : bool;
  url_lowerHost : list UChar;
  url_port : Z;
  url_path : list UChar;
  url_query : option (list UChar)
}.

(** [None] when an assertion fails. *)
Definition resourceName (url : URL) : option (list UChar) :=
  let name := match url_path url with [] => ["/"%uchar] | path => path end in
  let name := name ++ match url_query url with Some query => "?"%uchar :: query | None => [] end in
  if existsb (Z.eqb 32) name then None else Some name.

Definition hostName (url : URL) (secure : bool) : option (list UChar) :=
  if negb (eqb (url_protocolIsWSS url) secure) then None
  else if negb (url_port url =? 0) && ((negb secure && negb (url_port url =? 80)) || (secure && negb (url_port url =? 443))) then
    port ← numberToString int_type (url_port url); Some (url_lowerHost url ++ [":"%uchar] ++ port)
  else Some (url_lowerHost url).

Definition clientLocation (url : URL) (secure : bool) : option (list UChar) :=
  host ← hostName url secure; name ← resourceName url;
  Some ((if secure then str "wss" else str "ws") ++ str "://" ++ host ++ name).

(** ** The key and the accept value *)

Definition nonceSize : nat := 16.
Definition generateSecWebSocketKey (memory : nat -> Z) (nonce : list Z) : option (list UChar) := base64Encode memory nonce Base64DoNotInsertLFs.

(** [String::ascii]. *)
Definition ascii (s : list UChar) : list Z :=
  map (fun ch => if negb (ch =? 0) && ((ch <? 0x20) || (ch >? 0x7f)) then "?"%uchar else ch) s.

Definition webSocketKeyGUID : list Z := str "258EAFA5-E914-47DA-95CA-C5AB0DC85B11".

Definition getExpectedWebSocketAccept (memory : nat -> Z) (secWebSocketKey : list UChar) : option (list UChar) :=
  sha1 ← addBytes (ascii secWebSocketKey) newSHA1;
  sha1 ← addBytes webSocketKeyGUID sha1;
  '(hash, _) ← SHA1_computeHash (map memory (seq 0 hashSize)) sha1;
  base64Encode memory hash Base64DoNotInsertLFs.

(** ** The constructor, and [connect] *)

(** What the handshake asks of its context.  The record of the handshake has the parts of the
    request, which the source computes when the request is sent. *)
Record ScriptExecutionContext := mkContext { cx_origin : list UChar; cx_cookie : list UChar; cx_userAgent : list UChar }.

Definition newWebSocketHandshake (memory : nat -> Z) (url : URL) (protocol : list UChar) (context : ScriptExecutionContext) (nonce : list Z) : option (Handshake DeflateFrame) :=
  let secure := url_protocolIsWSS url in
  name ← resourceName url; host ← hostName url secure;
  key ← generateSecWebSocketKey memory nonce;
  accept ← getExpectedWebSocketAccept memory key;
  Some (mkHandshake _ name host (cx_origin context) (cx_cookie context) (cx_userAgent context) key protocol accept Incomplete (0, [], ∅) None newDispatcher).

Definition addExtensionProcessor `{CharDirection} (processor : DeflateFrame) (h : Handshake DeflateFrame) : option (Handshake DeflateFrame) :=
  d ← addProcessor processor (m_extensionDispatcher h); Some (withDispatcher d h).

(** The handshake [connect] starts with; [canDeflate] is whether there is zlib. *)
Definition connectHandshake `{CharDirection} (memory : nat -> Z) (canDeflate : bool) (url : URL) (protocol : list UChar) (context : ScriptExecutionContext) (nonce : list Z) : option (Handshake DeflateFrame) :=
  h ← newWebSocketHandshake memory url protocol context nonce;
  let h := WebSocketHandshake.reset h in
  if canDeflate then addExtensionProcessor newDeflateFrame h else Some h.

(** ** The server of the RFC *)

(** The accept value for a key. *)
Definition acceptFor (key : list UChar) : list UChar := encodeSpec base64EncMap Base64DoNotInsertLFs (sha1 (key ++ webSocketKeyGUID)).
Definition secKeyOf (nonce : list Z) : list UChar := encodeSpec base64EncMap Base64DoNotInsertLFs nonce.

Lemma letters_visible data : Forall isByte data -> Forall (fun ch => 33 <= ch <= 126) (secKeyOf data).
Proof.
  intros HF. apply Forall_app_2; [|apply Forall_replicate; cbn; lia]. apply Forall_map. eapply Forall_impl; [exact (proj2 (sextetsOf_length data HF))|].
  unfold isSextet. intros d HD. assert (HA : Forall (fun ch => 33 <= ch <= 126) base64EncMap) by (apply (bool_decide_unpack (Forall (fun ch => 33 <= ch <= 126) _)); by vm_compute).
  unfold letterOf. destruct (nth_lookup_or_length base64EncMap (Z.to_nat d) 0) as [E|E]; [exact (Forall_lookup_1 _ _ _ _ HA E)|]. change (length base64EncMap) with 64%nat in E. lia.
Qed.

Lemma ascii_visible s : Forall (fun ch => 33 <= ch <= 126) s -> ascii s = s.
Proof. induction 1 as [|ch s HC HF IH]; [done|]. cbn [ascii map]. fold (ascii s). rewrite IH, Z.gtb_ltb, (proj2 (Z.ltb_ge ch 0x20)), (proj2 (Z.ltb_ge 0x7f ch)) by lia. by rewrite andb_false_r. Qed.

Lemma sha1_bytes message : Forall isByte (sha1 message) /\ length (sha1 message) = hashSize.
Proof.
  unfold sha1. destruct (blocks_hash (chunksOf 64 (padded message))) as (a & b & c & d & e & -> & _). cbn [map concat]. split.
  - repeat apply Forall_app_2; try apply bigEndianBytes_range. apply Forall_nil_2.
  - by rewrite !length_app, !length_bigEndian.
Qed.

Lemma encode_short memory data : Forall isByte data -> (length data <= 64)%nat -> base64Encode memory data Base64DoNotInsertLFs = Some (secKeyOf data).
Proof. intros HF HL. apply base64EncodeInternal_spec; [apply alphabets|done| |done]. change maxInputBufferSize with 3179391370. lia. Qed.

Lemma expected_accept memory nonce : Forall isByte nonce -> (length nonce <= 64)%nat -> getExpectedWebSocketAccept memory (secKeyOf nonce) = Some (acceptFor (secKeyOf nonce)).
Proof.
  intros HF HL. pose proof (letters_visible nonce HF) as HV. unfold getExpectedWebSocketAccept. rewrite ascii_visible by done.
  assert (HB : Forall isByte (secKeyOf nonce)) by (eapply Forall_impl; [exact HV|]; unfold isByte; cbn; lia).
  assert (HG : Forall isByte webSocketKeyGUID) by (apply (bool_decide_unpack (Forall (fun b => 0 <= b < 256) _)); by vm_compute).
  destruct (addBytes_absorbed (secKeyOf nonce) [] newSHA1 HB (absorbed_new _)) as (s1 & E1 & A1). rewrite E1, bind_of_Some.
  destruct (addBytes_absorbed webSocketKeyGUID _ s1 HG A1) as (s2 & E2 & A2). rewrite E2, bind_of_Some. cbn [app] in A2.
  rewrite (computeHash_spec _ s2 _ A2), bind_of_Some by (rewrite length_map, length_seq; done). destruct (sha1_bytes (secKeyOf nonce ++ webSocketKeyGUID)) as [HS HN].
  rewrite encode_short; [done|done|]. rewrite HN. unfold hashSize. lia.
Qed.

(** The client of a URL: its key is the nonce, its accept value the one of the RFC. *)
Lemma connectHandshake_spec `{CharDirection} memory canDeflate url protocol context nonce name host : Forall isByte nonce -> length nonce = nonceSize ->
  resourceName url = Some name -> hostName url (url_protocolIsWSS url) = Some host ->
  exists h, connectHandshake memory canDeflate url protocol context nonce = Some h /\ m_mode h = Incomplete /\ m_clientProtocol h = protocol /\
    m_secWebSocketKey h = secKeyOf nonce /\ m_expectedAccept h = acceptFor (secKeyOf nonce) /\ hs_resourceName h = name /\ hs_hostName h = host.
Proof.
  intros HF HN EN EH. unfold connectHandshake, newWebSocketHandshake, generateSecWebSocketKey. rewrite EN, EH, !bind_of_Some, encode_short by (done || (rewrite HN; unfold nonceSize; lia)).
  rewrite bind_of_Some, expected_accept, bind_of_Some by (done || (rewrite HN; unfold nonceSize; lia)). rewrite bind_of_Some. destruct canDeflate; eexists; (split; [reflexivity|done]).
Qed.

Lemma key_in_request (h : Handshake DeflateFrame) `{CharDirection} : str "Sec-WebSocket-Key: " ++ m_secWebSocketKey h ∈ requestFields h.
Proof.
  unfold requestFields. rewrite !elem_of_app. do 3 right. left. apply elem_of_cons. right. apply elem_of_cons. right. apply elem_of_cons. by left.
Qed.

(** C23: a server that follows the RFC is connected.  A channel that connects to a URL sends a request
    with a key of 24 letters, from which a base64 decoder gets its 16 random bytes.  A server
    that answers with the base64 of the SHA-1 of this key and the constant of RFC 6455, among
    other headers but without extensions and subprotocols ([accepting]), and sends frames, in pieces cut
    anywhere, fewer than 2^31 bytes in all, has its messages delivered, over a handle that takes the
    request and the answers to pings ([takesAnswers]): the channel reports the
    connection once, before any message, and makes of the frames what a receiver must. *)
Theorem rfc6455_server_connects {K D : Type} `{SocketStreamHandleOps K} `{!SocketAccepts K} `{ZlibOps D} `{MaskingKeys} `{HashOrder} `{CaseFolding} `{CharDirection} `{!CaseFoldingASCII}
  (address : Z) (memory memory' : nat -> Z) (canDeflate : bool) (url : URL) (protocol name host : list UChar) (context : ScriptExecutionContext) (nonce : list Z) (ops := handshakeOps address) :
  (forall n, length (maskingKeyOf n) = maskingKeyWidthInBytes) ->
  Forall isByte nonce -> length nonce = nonceSize -> resourceName url = Some name -> hostName url (url_protocolIsWSS url) = Some host ->
  exists h, connectHandshake memory canDeflate url protocol context nonce = Some h /\ str "Sec-WebSocket-Key: " ++ m_secWebSocketKey h ∈ requestFields h /\
    length (m_secWebSocketKey h) = 24%nat /\ base64DecodeString Base64FailOnInvalidCharacterOrExcessPadding memory' (m_secWebSocketKey h) = Some (true, nonce) /\
    forall (k : K) (text : list Z) (fields : list HeaderLine) (pieces : list (list Z)) (frames : list ServerFrame) (a : Assembly),
      isStatusText text -> Forall isHeader fields -> accepting (acceptFor (m_secWebSocketKey h)) fields -> Forall framed frames -> Forall (fun data => data <> []) pieces ->
      concat pieces = answer text fields ++ concat (map onWire frames) -> Z.of_nat (length (concat pieces)) < 2 ^ 31 ->
      assembleAll (mkAssembly None [didConnect] (message h) 0) frames = Some a -> takesAnswers k a ->
      exists c : Channel (Handshake DeflateFrame) K D, (didOpenSocketStream;; feed address pieces) (newChannel h k) = Some (tt, c) /\ shows c a.
Proof.
  intros HM HF HN EN EH. destruct (connectHandshake_spec memory canDeflate url protocol context nonce name host HF HN EN EH) as (h & ECn & HI & _ & HKey & HAcc & _).
  exists h. split_and!; [done|apply key_in_request|rewrite HKey|rewrite HKey|rewrite HKey].
  - unfold secKeyOf. cbn [encodeSpec]. rewrite length_app, length_map. unfold paddingFor. rewrite length_replicate, (proj1 (sextetsOf_length nonce HF)), HN. done.
  - destruct (encode_decode base64EncMap base64DecMap base64_inverse (proj1 alphabets) base64DecMap_digits eq_refl memory memory' nonce Base64DoNotInsertLFs Base64FailOnInvalidCharacterOrExcessPadding)
      as (key & EK & ED); [split_and!; [done| |done]; change maxInputBufferSize with 3179391370; rewrite HN; unfold nonceSize; lia|done|].
    pose proof (encode_short memory nonce HF ltac:(rewrite HN; unfold nonceSize; lia)) as ES. unfold base64Encode in ES. rewrite ES in EK. injection EK as <-. exact ED.
  - intros k text fields pieces frames a HT HH HA. rewrite <- HAcc in HA. by apply connection_from_handshake.
Qed.

Import Sample SampleSocket ExtensionSample HandshakeSample.
#[local] Instance openingHandshakeOps : WebSocketHandshakeOps (Handshake DeflateFrame) := handshakeOps 0.

(** The example of the RFC: the client of this URL and this nonce. *)
Definition sampleURL : URL := mkURL false (str "server.example.com") 80 (str "/chat") None.
Definition sampleContext : ScriptExecutionContext := mkContext (str "http://example.com") [] (str "agent").
Definition sampleNonce : list Z := str "the sample nonce".

Example sample_client : connectHandshake (fun _ => 0) false sampleURL (str "chat") sampleContext sampleNonce = Some client.
Proof. by vm_compute. Qed.

Lemma rfc6455_server_connects_witness : exists h, connectHandshake (fun _ => 0) false sampleURL (str "chat") sampleContext sampleNonce = Some h /\
  exists c : Channel (Handshake DeflateFrame) (SocketStreamHandle (list Z)) unit,
    (didOpenSocketStream;; feed 0 [take 40 reply; drop 40 reply ++ [0x81; 0x02; 0x48; 0x69]]) (newChannel h openHandle) = Some (tt, c) /\
    shows c (mkAssembly None [didConnect; didReceiveMessage [0x48; 0x69]] (message client) 0).
Proof.
  destruct (rfc6455_server_connects (K := SocketStreamHandle (list Z)) (D := unit) 0 (fun _ => 0) (fun _ => 0) false sampleURL (str "chat") (str "/chat") (str "server.example.com") sampleContext sampleNonce)
    as (h & EH & _ & _ & _ & HC).
  - exact sample_keys.
  - apply (bool_decide_unpack (Forall (fun b => 0 <= b < 256) _)). by vm_compute.
  - reflexivity.
  - by vm_compute.
  - by vm_compute.
  - exists h. split; [exact EH|]. rewrite sample_client in EH. injection EH as <-.
    apply (HC openHandle (str "Switching Protocols") headers _ [DataFrame true true [0x48; 0x69]]).
    + split; [solve_text|cbn; lia].
    + unfold headers. repeat (apply Forall_cons_2; [split_and!; [done|solve_text|solve_text|by do 2 eexists]|]). apply Forall_nil_2.
    + split_and!; [by eexists|by eexists|by vm_compute|reflexivity..].
    + solve_framed.
    + by repeat constructor.
    + by vm_compute.
    + by vm_compute.
    + by vm_compute.
    + apply openHandle_accepts. by vm_compute.
Defined.

(** ** The parts of the request *)

(** Default ports are left out. *)
Example sample_locations : clientLocation (mkURL true (str "h") 8443 [] (Some (str "q"))) true = Some (str "wss://h:8443/?q") /\
  clientLocation (mkURL true (str "h") 443 (str "/a") None) true = Some (str "wss://h/a") /\ clientLocation (mkURL false (str "h") 443 (str "/a") None) false = Some (str "ws://h:443/a").
Proof. by vm_compute. Qed.
