(* ===== verification/HTTPParsers.v ===== *)
(** * Values of HTTP headers

    [platform/network/HTTPParsers.cpp] without [parseHTTPHeader], which is in
    [WebSocketHandshake.v]: tokens, content dispositions, media types, refresh,
    XSS protection, frame options, byte ranges and request lines.

    A string is the list of its code units; a null string behaves as the empty
    one, and where the code returns [String()] the result is [None].  Positions
    are natural numbers: no string is as long as [unsigned] counts.  Arguments
    that the code assigns through references are passed and returned. *)

From S2P Require Import Prelude CharacterSource IntegerParsing WebSocketExtensions WebSocketHandshake.
Open Scope Z_scope.

(** ** [WTF::String] *)

(** [String::at]: 0 behind the end. *)
Definition charAtIndex (s : list UChar) (index : nat) : UChar := nth index s 0.

(** The length of the longest prefix of characters that pass a test. *)
Fixpoint spanLength (p : UChar -> bool) (s : list UChar) : nat :=
  match s with
  | c :: s => if p c then S (spanLength p s) else 0%nat
  | [] => 0%nat
  end.
(** [while (pos < len && p(str[pos])) ++pos;] *)
Definition skipWhile (p : UChar -> bool) (s : list UChar) (pos : nat) : nat := (pos + spanLength p (drop pos s))%nat.

(** [WTF::find] of a character. *)
Definition findCharacter (matchCharacter : UChar) (s : list UChar) (index : nat) : option nat :=
  let index := skipWhile (fun c => negb (c =? matchCharacter)) s index in
  if (index <? length s)%nat then Some index else None.
Definition containsCharacter (c : UChar) (s : list UChar) : bool := bool_decide (is_Some (findCharacter c s 0)).

Section CaseInsensitive.
Context `{CaseFolding}.

Fixpoint findIgnoringCaseInner (matchCharacters searchCharacters : list UChar) : option nat :=
  if startsWith false searchCharacters matchCharacters then Some 0%nat
  else
    match searchCharacters with
    | [] => None
    | _ :: searchCharacters => S <$> findIgnoringCaseInner matchCharacters searchCharacters
    end.

Definition findIgnoringCase (matchString s : list UChar) (index : nat) : option nat :=
  match matchString with
  | [] => Some (Nat.min index (length s))
  | _ =>
      if (length s <? index)%nat then None
      else Nat.add index <$> findIgnoringCaseInner matchString (drop index s)
  end.
End CaseInsensitive.

(** [String::split(UChar, Vector<String>&)]: without empty entries. *)
Fixpoint splitCharacterLoop (fuel : nat) (separator : UChar) (s : list UChar) (startPos : nat) : list (list UChar) :=
  match fuel with
  | O => []
  | S fuel =>
      match findCharacter separator s startPos with
      | Some endPos =>
          (if (startPos =? endPos)%nat then [] else [substring startPos (endPos - startPos) s]) ++
          splitCharacterLoop fuel separator s (S endPos)
      | None => if (startPos =? length s)%nat then [] else [drop startPos s]
      end
  end.
Definition splitCharacter (separator : UChar) (s : list UChar) : list (list UChar) := splitCharacterLoop (S (length s)) separator s 0.

Section Parsers.
Context `{CaseFolding} `{CharDirection}.

(** [StringImpl::stripMatchedCharacters] with [isSpaceOrNewline]: from the
    start, and if something is left from the end. *)
Definition stripWhiteSpace (s : list UChar) : list UChar := reverse (skipWhitespace (reverse (skipWhitespace s))).

(** ** Scanning *)

(** The functions that advance a position return whether they did what they are
    for, and the position. *)
Definition isHeaderSpace (fromHttpEquivMeta : bool) (c : UChar) : bool :=
  if fromHttpEquivMeta then c <=? 32 else (c =? cTAB) || (c =? 32).
Definition skipWhiteSpace (fromHttpEquivMeta : bool) (s : list UChar) (pos : nat) : bool * nat :=
  let pos := skipWhile (isHeaderSpace fromHttpEquivMeta) s pos in ((pos <? length s)%nat, pos).

Fixpoint matchesToken (s token : list UChar) {struct token} : bool :=
  match token, s with
  | [], _ => true
  | _, [] => false
  | t :: token, c :: s => (toASCIILower c =? t) && matchesToken s token
  end.
Definition skipToken (s : list UChar) (pos : nat) (token : list UChar) : bool * nat :=
  if matchesToken (drop pos s) token then (true, (pos + length token)%nat) else (false, pos).

Definition skipEquals (s : list UChar) (pos : nat) : bool * nat :=
  let '(more, pos) := skipWhiteSpace false s pos in
  if negb more then (false, pos)
  else if negb (charAtIndex s pos =? "="%uchar) then (false, S pos)
  else skipWhiteSpace false s (S pos).

Definition endsValue (c : UChar) : bool := (c =? 32) || (c =? cTAB) || (c =? ";"%uchar).
Definition skipValue (s : list UChar) (pos : nat) : bool * nat :=
  let start := pos in
  let pos := skipWhile (fun c => negb (endsValue c)) s pos in (negb (pos =? start)%nat, pos).

(** ** Tokens and dispositions *)

Definition isValidHTTPHeaderValue (name : list UChar) : bool := negb (containsCharacter cCR name) && negb (containsCharacter cLF name).

Definition httpSeparators : list UChar := str "()<>@,;:\" ++ [cQUOT] ++ str "/[]?={}".
Definition isValidHTTPToken (characters : list UChar) : bool :=
  match characters with
  | [] => false
  | _ => forallb (fun c => negb ((c <=? 0x20) || (c >=? 0x7F) || existsb (Z.eqb c) httpSeparators)) characters
  end.

Inductive ContentDispositionType :=
  | ContentDispositionNone
  | ContentDispositionInline
  | ContentDispositionAttachment
  | ContentDispositionOther.

(** [None]: the program stops, there is no first parameter.  The text without
    white space is dropped. *)
Definition contentDispositionType (contentDisposition : list UChar) : option ContentDispositionType :=
  match contentDisposition with
  | [] => Some ContentDispositionNone
  | _ =>
      match splitCharacter ";"%uchar contentDisposition with
      | [] => None
      | dispositionType :: _ =>
          if equalIgnoringCase dispositionType (str "inline") then Some ContentDispositionInline
          else if negb (isValidHTTPToken dispositionType) then Some ContentDispositionNone
          else Some ContentDispositionAttachment
      end
  end.

(** The loop over the parameters. *)
Fixpoint filenameLoop (keyValuePairs : list (list UChar)) : option (list UChar) :=
  match keyValuePairs with
  | [] => None
  | keyValue :: keyValuePairs =>
      match findCharacter "="%uchar keyValue 0 with
      | None => filenameLoop keyValuePairs
      | Some valueStartPos =>
          let key := stripWhiteSpace (take valueStartPos keyValue) in
          if negb (bool_decide (key = str "filename")) then filenameLoop keyValuePairs
          else
            let value := stripWhiteSpace (drop (S valueStartPos) keyValue) in
            Some (if charAtIndex value 0 =? cQUOT then substring 1 (length value - 2) value else value)
      end
  end.
Definition filenameFromHTTPContentDisposition (value : list UChar) : option (list UChar) := filenameLoop (splitCharacter ";"%uchar value).

(** ** Media types *)

Fixpoint mimeTypeLoop (mediaType : list UChar) : list UChar :=
  match mediaType with
  | [] => []
  | c :: rest =>
      if c =? ";"%uchar then []
      else if c =? ","%uchar then []
      else if isSpaceOrNewline c then mimeTypeLoop rest
      else c :: mimeTypeLoop rest
  end.
Definition extractMIMETypeFromMediaType (mediaType : list UChar) : list UChar :=
  let mimeType := mimeTypeLoop mediaType in
  if (length mimeType =? length mediaType)%nat then mediaType else mimeType.

Definition isQuote (c : UChar) : bool := (c =? cQUOT) || (c =? "'"%uchar).
Definition inCharsetName (c : UChar) : bool := (c >? 32) && negb (isQuote c) && negb (c =? ";"%uchar).

(** The position and the length of the name.  [None]: out of fuel. *)
Fixpoint findCharsetLoop (fuel : nat) (mediaType : list UChar) (start pos : nat) : option (nat * nat) :=
  match fuel with
  | O => None
  | S fuel =>
      if (pos <? length mediaType)%nat then
        match findIgnoringCase (str "charset") mediaType pos with
        | None | Some O => Some (start, 0%nat)
        | Some pos =>
            let before := charAtIndex mediaType (pos - 1) in
            if (before >? 32) && negb (before =? ";"%uchar) then findCharsetLoop fuel mediaType start (pos + 7)
            else
              let pos := skipWhile (fun c => c <=? 32) mediaType (pos + 7) in
              if negb (charAtIndex mediaType pos =? "="%uchar) then findCharsetLoop fuel mediaType start (S pos)
              else
                let pos := skipWhile (fun c => (c <=? 32) || isQuote c) mediaType (S pos) in
                let endpos := if (pos =? length mediaType)%nat then pos else skipWhile inCharsetName mediaType pos in
                Some (pos, (endpos - pos)%nat)
        end
      else Some (start, 0%nat)
  end.
Definition findCharsetInMediaType (mediaType : list UChar) (start : nat) : option (nat * nat) :=
  findCharsetLoop (S (length mediaType)) mediaType start start.
Definition extractCharsetFromMediaType (mediaType : list UChar) : option (list UChar) :=
  '(pos, len) ← findCharsetInMediaType mediaType 0; Some (substring pos len mediaType).

(** ** [parseHTTPRefresh] *)

(** Reading floating point numbers, [String::toDouble], is a parameter: the
    number and whether the text was one. *)
Section Refresh.
Context {Double : Type}.
Variable toDouble : list UChar -> Double * bool.

(** Back from the end to the quotation mark, [n] characters behind the start. *)
Fixpoint closingQuote (quotationMark : UChar) (s : list UChar) (urlStartPos n : nat) : nat :=
  match n with
  | O => urlStartPos
  | S n => if charAtIndex s (urlStartPos + n) =? quotationMark then (urlStartPos + n)%nat else closingQuote quotationMark s urlStartPos n
  end.

(** Where the URL starts behind the separator: behind [url =] if that is there. *)
Definition urlStart (fromHttpEquivMeta : bool) (refresh : list UChar) (pos : nat) : nat :=
  let urlStartPos := pos in
  if bool_decide (findIgnoringCase (str "url") refresh urlStartPos = Some urlStartPos) then
    let '(_, urlStartPos) := skipWhiteSpace fromHttpEquivMeta refresh (urlStartPos + 3) in
    if charAtIndex refresh urlStartPos =? "="%uchar then snd (skipWhiteSpace fromHttpEquivMeta refresh (S urlStartPos)) else pos
  else urlStartPos.

(** Where the URL starts and ends, without quotation marks. *)
Definition urlBounds (refresh : list UChar) (urlStartPos : nat) : nat * nat :=
  let len := length refresh in
  let quotationMark := charAtIndex refresh urlStartPos in
  if isQuote quotationMark then
    let urlStartPos := S urlStartPos in
    let urlEndPos := closingQuote quotationMark refresh urlStartPos (len - urlStartPos) in
    (urlStartPos, if (urlEndPos =? urlStartPos)%nat then len else urlEndPos)
  else (urlStartPos, len).

Definition parseHTTPRefresh (refresh : list UChar) (fromHttpEquivMeta : bool) (delay : Double) (url : option (list UChar)) :
  bool * Double * option (list UChar) :=
  let len := length refresh in
  let '(more, pos) := skipWhiteSpace fromHttpEquivMeta refresh 0 in
  if negb more then (false, delay, url)
  else
    let pos := skipWhile (fun c => negb (c =? ","%uchar) && negb (c =? ";"%uchar)) refresh pos in
    if (pos =? len)%nat then
      let '(delay, ok) := toDouble (stripWhiteSpace refresh) in (ok, delay, None)
    else
      let '(delay, ok) := toDouble (stripWhiteSpace (take pos refresh)) in
      if negb ok then (false, delay, url)
      else
        let '(_, pos) := skipWhiteSpace fromHttpEquivMeta refresh (S pos) in
        let '(urlStartPos, urlEndPos) := urlBounds refresh (urlStart fromHttpEquivMeta refresh pos) in
        (true, delay, Some (stripWhiteSpace (substring urlStartPos (urlEndPos - urlStartPos) refresh))).
End Refresh.

(** ** [parseXSSProtectionHeader] *)

(** [ContentSecurityPolicy::ReflectedXSSDisposition] *)
Inductive ReflectedXSSDisposition :=
  | ReflectedXSSUnset
  | AllowReflectedXSS
  | ReflectedXSSInvalid
  | FilterReflectedXSS
  | BlockReflectedXSS.

(** What the caller passes by reference. *)
Record XSSReport := mkXSSReport { failureReason : option (list UChar); failurePosition : nat; reportURL : option (list UChar) }.
Definition failAt (reason : string) (pos : nat) (r : XSSReport) : XSSReport := mkXSSReport (Some (str reason)) pos (reportURL r).

(** The loop over the directives.  [None]: out of fuel. *)
Fixpoint directivesLoop (fuel : nat) (header : list UChar) (pos : nat) (result : ReflectedXSSDisposition)
  (modeDirectiveSeen reportDirectiveSeen : bool) (r : XSSReport) : option (ReflectedXSSDisposition * XSSReport) :=
  match fuel with
  | O => None
  | S fuel =>
      let fail reason pos := Some (ReflectedXSSInvalid, failAt reason pos r) in
      let '(more, pos) := skipWhiteSpace false header pos in
      if negb more then Some (result, r)
      else if negb (charAtIndex header pos =? ";"%uchar) then fail "expected semicolon" (S pos)
      else
        let '(more, pos) := skipWhiteSpace false header (S pos) in
        if negb more then Some (result, r)
        else
          let '(isMode, pos) := skipToken header pos (str "mode") in
          if isMode then
            if modeDirectiveSeen then fail "duplicate mode directive" pos
            else
              let '(equals, pos) := skipEquals header pos in
              if negb equals then fail "expected equals sign" pos
              else
                let '(block, pos) := skipToken header pos (str "block") in
                if negb block then fail "invalid mode directive" pos
                else directivesLoop fuel header pos BlockReflectedXSS true reportDirectiveSeen r
          else
            let '(isReport, pos) := skipToken header pos (str "report") in
            if isReport then
              if reportDirectiveSeen then fail "duplicate report directive" pos
              else
                let '(equals, pos) := skipEquals header pos in
                if negb equals then fail "expected equals sign" pos
                else
                  let startPos := pos in
                  let '(value, pos) := skipValue header pos in
                  if negb value then fail "invalid report directive" pos
                  else
                    directivesLoop fuel header pos result modeDirectiveSeen true
                      (mkXSSReport (failureReason r) startPos (Some (substring startPos (pos - startPos) header)))
            else fail "unrecognized directive" pos
  end.

Definition parseXSSProtectionHeader (header : list UChar) (r : XSSReport) : option (ReflectedXSSDisposition * XSSReport) :=
  let '(more, pos) := skipWhiteSpace false header 0 in
  if negb more then Some (ReflectedXSSUnset, r)
  else if charAtIndex header pos =? "0"%uchar then Some (AllowReflectedXSS, r)
  else if negb (charAtIndex header pos =? "1"%uchar) then
    Some (ReflectedXSSInvalid, mkXSSReport (Some (str "expected 0 or 1")) (failurePosition r) (reportURL r))
  else directivesLoop (S (length header)) header (S pos) FilterReflectedXSS false false r.

(** ** Reason phrases and frame options *)

(** [notFound + 1] is 0. *)
Definition behindPosition (pos : option nat) : nat := match pos with Some pos => S pos | None => 0%nat end.
Definition extractReasonPhraseFromHTTPStatusLine (statusLine : list UChar) : list UChar :=
  let spacePos := findCharacter 32 statusLine 0 in
  let spacePos := findCharacter 32 statusLine (behindPosition spacePos) in
  drop (behindPosition spacePos) statusLine.

Inductive XFrameOptionsDisposition :=
  | XFrameOptionsNone
  | XFrameOptionsDeny
  | XFrameOptionsSameOrigin
  | XFrameOptionsAllowAll
  | XFrameOptionsInvalid
  | XFrameOptionsConflict.
#[global] Instance XFrameOptionsDisposition_eq_dec : EqDecision XFrameOptionsDisposition.
Proof. solve_decision. Defined.

Definition frameOption (currentHeader : list UChar) : XFrameOptionsDisposition :=
  let currentHeader := stripWhiteSpace currentHeader in
  if equalIgnoringCase currentHeader (str "deny") then XFrameOptionsDeny
  else if equalIgnoringCase currentHeader (str "sameorigin") then XFrameOptionsSameOrigin
  else if equalIgnoringCase currentHeader (str "allowall") then XFrameOptionsAllowAll
  else XFrameOptionsInvalid.
Fixpoint frameOptionsLoop (headers : list (list UChar)) (result : XFrameOptionsDisposition) : XFrameOptionsDisposition :=
  match headers with
  | [] => result
  | currentHeader :: headers =>
      let currentValue := frameOption currentHeader in
      if bool_decide (result = XFrameOptionsNone) then frameOptionsLoop headers currentValue
      else if bool_decide (result <> currentValue) then XFrameOptionsConflict
      else frameOptionsLoop headers result
  end.
Definition parseXFrameOptionsHeader (header : list UChar) : XFrameOptionsDisposition :=
  match header with
  | [] => XFrameOptionsNone
  | _ => frameOptionsLoop (splitCharacter ","%uchar header) XFrameOptionsNone
  end.

(** ** [parseRange] *)

(** Whether there is a range, and its offset, its end and the length of a
    suffix: -1 for what is not given. *)
Record ByteRange := mkByteRange { rangeOffset : Z; rangeEnd : Z; rangeSuffixLength : Z }.
Definition noRange : ByteRange := mkByteRange (-1) (-1) (-1).
Definition toInt64Strict (s : list UChar) : Z * bool := stringToStrict int64_type (Some s) 10.

Definition parseRange (range : list UChar) : bool * ByteRange :=
  if negb (startsWith false range (str "bytes=")) then (false, noRange)
  else
    let byteRange := drop 6 range in
    match findCharacter "-"%uchar byteRange 0 with
    | None => (false, noRange)
    | Some O =>
        let '(value, ok) := toInt64Strict (stripWhiteSpace (drop 1 byteRange)) in
        (true, if ok then mkByteRange (-1) (-1) value else noRange)
    | Some index =>
        let '(firstBytePos, ok) := toInt64Strict (stripWhiteSpace (take index byteRange)) in
        if negb ok then (false, noRange)
        else
          let lastBytePosStr := stripWhiteSpace (drop (S index) byteRange) in
          let '(lastBytePos, ok) := match lastBytePosStr with [] => (-1, true) | _ => toInt64Strict lastBytePosStr end in
          if negb ok then (false, noRange)
          else if (firstBytePos <? 0) || negb ((lastBytePos =? -1) || (lastBytePos >=? firstBytePos)) then (false, noRange)
          else (true, mkByteRange firstBytePos lastBytePos (-1))
    end.
End Parsers.

(** ** Requests *)

Inductive HTTPVersion := UnknownVersion | HTTP_1_0 | HTTP_1_1.

(** The first two spaces of the line and the position of its LF. *)
Fixpoint scanRequestLine (data : list Z) (p : nat) (space1 space2 : option nat) : option (nat * option nat * option nat) :=
  match data with
  | [] => None
  | c :: data =>
      if c =? 32 then
        match space1, space2 with
        | None, _ => scanRequestLine data (S p) (Some p) space2
        | _, None => scanRequestLine data (S p) space1 (Some p)
        | _, _ => scanRequestLine data (S p) space1 space2
        end
      else if c =? cLF then Some (p, space1, space2)
      else scanRequestLine data (S p) space1 space2
  end.

Definition versionOf (httpVersionString : list UChar) : HTTPVersion :=
  if negb (length httpVersionString =? 8)%nat || negb (startsWithText httpVersionString (str "HTTP/1.")) then UnknownVersion
  else if charAtIndex httpVersionString 7 =? "0"%uchar then HTTP_1_0
  else if charAtIndex httpVersionString 7 =? "1"%uchar then HTTP_1_1
  else UnknownVersion.

(** The reason of a failure, or the length of the line with its method, URL and
    version. *)
Inductive RequestLine :=
  | RequestFailed (reason : list UChar)
  | Request (consumedLength : nat) (method url : list UChar) (httpVersion : HTTPVersion).

Definition parseHTTPRequestLine (data : list Z) : RequestLine :=
  match scanRequestLine data 0 None None with
  | None => RequestFailed (str "Incomplete Request Line")
  | Some (p, Some space1, Some space2) =>
      let fin := S p in
      if negb (nth (fin - 2) data 0 =? cCR) then RequestFailed (str "Request line does not end with CRLF")
      else
        Request fin (substring 0 space1 data) (substring (S space1) (space2 - space1 - 1) data)
          (versionOf (substring (S space2) (fin - space2 - 3) data))
  | Some _ => RequestFailed (str "Request Line does not appear to contain: <Method> <Url> <HTTPVersion>.")
  end.

(** The whole of the data. *)
Definition parseHTTPRequestBody (data : list Z) (body : list Z) : nat * list Z := (length data, data).
