(* ===== verification/HTTPParsersSpec.v ===== *)
(** * What the parsers of header values accept

    Scanning is described on the text that is left behind a position.  On top of
    that: the XSS protection header is read exactly by its grammar, request
    lines by theirs, the charset of a media type lies within it, frame options
    agree or conflict, and byte ranges that are written are read. *)

From S2P Require Import Prelude CharacterSource IntegerParsing IntegerParsingSpec WebSocketExtensions WebSocketExtensionsSpec WebSocketHandshake HTTPParsers.
Open Scope Z_scope.

(** ** Scanning *)

(** The text that is left at a position of a string. *)
Definition leaves (s : list UChar) (pos : nat) (rest : list UChar) : Prop := (pos <= length s)%nat /\ drop pos s = rest.
Definition stopsAt (p : UChar -> bool) (rest : list UChar) : Prop := match rest with c :: _ => p c = false | [] => True end.

Lemma leaves_app s pos x rest : leaves s pos (x ++ rest) -> leaves s (pos + length x) rest.
Proof.
  intros [HP HD]. pose proof (f_equal length HD) as HL. rewrite length_drop, length_app in HL.
  split; [lia|]. by rewrite <- drop_drop, HD, drop_app_length.
Qed.
Lemma leaves_cons s pos c rest : leaves s pos (c :: rest) -> leaves s (S pos) rest /\ charAtIndex s pos = c /\ (pos < length s)%nat.
Proof.
  intros HL. pose proof (leaves_app s pos [c] rest HL) as HA. rewrite Nat.add_1_r in HA. destruct HL as [HP HD].
  split_and!; [done| |destruct HA; lia]. unfold charAtIndex. by rewrite <- hd_drop_nth, HD.
Qed.
Lemma leaves_nil s pos : leaves s pos [] <-> pos = length s.
Proof.
  split; [intros [HP HD]|intros ->; split; [lia|apply drop_all]].
  pose proof (f_equal length HD) as HL. rewrite length_drop in HL. cbn in HL. lia.
Qed.
Lemma leaves_length s pos rest : leaves s pos rest -> (length s = pos + length rest)%nat.
Proof. intros [HP <-]. rewrite length_drop. lia. Qed.

Lemma spanLength_app p x rest : Forall (fun c => p c = true) x -> stopsAt p rest -> spanLength p (x ++ rest) = length x.
Proof.
  intros HX HR. induction HX as [|c x HC _ IH]; cbn [app spanLength length].
  - destruct rest as [|c rest]; [done|]. cbn in HR |- *. by rewrite HR.
  - by rewrite HC, IH.
Qed.
Lemma spanLength_split p s : exists x rest, s = x ++ rest /\ Forall (fun c => p c = true) x /\ stopsAt p rest.
Proof.
  induction s as [|c s (x & rest & -> & HX & HR)]; [by exists [], []|].
  destruct (p c) eqn:EC; [exists (c :: x), rest|exists [], (c :: x ++ rest)]; by repeat constructor.
Qed.

Lemma skipWhile_spec p s pos x rest : leaves s pos (x ++ rest) -> Forall (fun c => p c = true) x -> stopsAt p rest ->
  skipWhile p s pos = (pos + length x)%nat.
Proof. intros [_ HD] HX HR. unfold skipWhile. by rewrite HD, spanLength_app. Qed.
Lemma skipWhile_leaves p s pos rest : leaves s pos rest -> exists x rest', rest = x ++ rest' /\ Forall (fun c => p c = true) x /\ stopsAt p rest' /\
  leaves s (skipWhile p s pos) rest' /\ skipWhile p s pos = (pos + length x)%nat.
Proof.
  intros HL. destruct (spanLength_split p rest) as (x & rest' & -> & HX & HR). exists x, rest'.
  rewrite (skipWhile_spec p s pos x rest') by done. split_and!; try done. by apply leaves_app.
Qed.

(** ** Tokens *)

(** Tokens are those of the extension headers. *)
Lemma valid_token_is_token s : isValidHTTPToken s = true <-> isToken s.
Proof.
  assert (HC : forall c, negb ((c <=? 0x20) || (c >=? 0x7F) || existsb (Z.eqb c) httpSeparators) = isTokenCharacter c).
  { intros c. destruct (decide (0 <= c < 256)) as [HR|HR].
    - apply eqb_prop. revert HR. apply (byte_check (fun c => Bool.eqb (negb ((c <=? 0x20) || (c >=? 0x7F) || existsb (Z.eqb c) httpSeparators)) (isTokenCharacter c))).
      by vm_compute.
    - unfold isTokenCharacter, isASCIIPrintable. rewrite Z.geb_leb. destruct (Z.leb_spec c 32), (Z.leb_spec 127 c); try lia; cbn; case_tests; bool_hyps; lia || done. }
  unfold isToken. destruct s as [|c s]; [by split; [|intros []]|]. cbn [isValidHTTPToken]. rewrite forallb_forall, List.Forall_forall.
  setoid_rewrite HC. by split; [intros HF; split|intros [_ HF]].
Qed.

(** ** The grammar of the XSS protection header *)

Definition spaces (w : list UChar) : Prop := Forall (fun c => isHeaderSpace false c = true) w.
(** A text is a spelling of a token in letters of any case. *)
Definition spells (token text : list UChar) : Prop := map toASCIILower text = token.

Inductive Directive := ModeBlock | ReportTo (url : list UChar).

Inductive directiveText : Directive -> list UChar -> Prop :=
  | ModeText name w1 w2 value : spells (str "mode") name -> spaces w1 -> spaces w2 -> spells (str "block") value ->
      directiveText ModeBlock (name ++ w1 ++ "="%uchar :: w2 ++ value)
  | ReportText name w1 w2 url : spells (str "report") name -> spaces w1 -> spaces w2 -> url <> [] -> Forall (fun c => negb (endsValue c) = true) url ->
      directiveText (ReportTo url) (name ++ w1 ++ "="%uchar :: w2 ++ url).

(** Directives behind semicolons; one more semicolon may end them. *)
Inductive directivesText : list Directive -> list UChar -> Prop :=
  | NoDirective w : spaces w -> directivesText [] w
  | LastSemicolon w1 w2 : spaces w1 -> spaces w2 -> directivesText [] (w1 ++ ";"%uchar :: w2)
  | OneDirective d ds w1 w2 text rest : spaces w1 -> spaces w2 -> directiveText d text -> directivesText ds rest ->
      directivesText (d :: ds) (w1 ++ ";"%uchar :: w2 ++ text ++ rest).

Inductive protectionText (ds : list Directive) : list UChar -> Prop :=
  | ProtectionText w rest : spaces w -> directivesText ds rest -> protectionText ds (w ++ "1"%uchar :: rest).

Definition isModeBlock (d : Directive) : bool := match d with ModeBlock => true | ReportTo _ => false end.
Definition reportOf (d : Directive) : option (list UChar) := match d with ModeBlock => None | ReportTo url => Some url end.
(** Each kind of directive at most once, and what they ask for. *)
Definition atMostOnce (ds : list Directive) : Prop := NoDup (map isModeBlock ds).
Definition dispositionOf (ds : list Directive) : ReflectedXSSDisposition := if existsb isModeBlock ds then BlockReflectedXSS else FilterReflectedXSS.
Definition urlOf (ds : list Directive) : option (list UChar) := head (omap reportOf ds).

Section Protection.

Lemma matchesToken_spec token : forall s, matchesToken s token = true <-> exists text rest, s = text ++ rest /\ spells token text.
Proof.
  unfold spells. induction token as [|t token IH]; intros s; cbn [matchesToken].
  - split; [intros _; by exists [], s|done].
  - destruct s as [|c s].
    + split; [done|]. intros (text & rest & E & ET). by destruct text.
    + rewrite andb_true_iff, Z.eqb_eq, IH. split.
      * intros [<- (text & rest & -> & <-)]. by exists (c :: text), rest.
      * intros ([|c' text] & rest & E & ET); [done|]. injection E as <- ->. injection ET as <- <-. split; [done|]. by exists text, rest.
Qed.
Lemma spells_length token text : spells token text -> length text = length token.
Proof. intros <-. symmetry. apply length_map. Qed.

Lemma skipToken_yes s pos token text rest : leaves s pos (text ++ rest) -> spells token text -> skipToken s pos token = (true, pos + length text)%nat.
Proof.
  intros [_ HD] HS. unfold skipToken. rewrite HD, (proj2 (matchesToken_spec token _)) by by exists text, rest. by rewrite (spells_length _ _ HS).
Qed.
Lemma skipToken_cases s pos token rest : leaves s pos rest ->
  (exists text rest', rest = text ++ rest' /\ spells token text /\ skipToken s pos token = (true, pos + length text)%nat /\ leaves s (pos + length text) rest') \/
  (skipToken s pos token = (false, pos) /\ forall text rest', rest = text ++ rest' -> ~ spells token text).
Proof.
  intros HL. destruct (matchesToken rest token) eqn:EM.
  - left. apply matchesToken_spec in EM as (text & rest' & -> & HS). exists text, rest'. split_and!; try done; [by eapply skipToken_yes|by apply leaves_app].
  - right. split; [unfold skipToken; destruct HL as [_ ->]; by rewrite EM|]. intros text rest' -> HS.
    by rewrite (proj2 (matchesToken_spec token _)) in EM by by exists text, rest'.
Qed.

Definition notSpaceFirst (rest : list UChar) : Prop := stopsAt (isHeaderSpace false) rest.

Lemma skipWhiteSpace_spec s pos w rest : leaves s pos (w ++ rest) -> spaces w -> notSpaceFirst rest ->
  skipWhiteSpace false s pos = (negb (bool_decide (rest = [])), pos + length w)%nat.
Proof.
  intros HL HW HR. unfold skipWhiteSpace. rewrite (skipWhile_spec _ s pos w rest) by done. f_equal.
  pose proof (leaves_length _ _ _ HL) as HE. rewrite length_app in HE. destruct rest as [|c rest]; cbn in HE.
  - apply Nat.ltb_ge. lia.
  - apply Nat.ltb_lt. lia.
Qed.
Lemma skipWhiteSpace_leaves s pos rest : leaves s pos rest -> exists w rest', rest = w ++ rest' /\ spaces w /\ notSpaceFirst rest' /\
  leaves s (pos + length w) rest' /\ skipWhiteSpace false s pos = (negb (bool_decide (rest' = [])), pos + length w)%nat.
Proof.
  intros HL. destruct (skipWhile_leaves (isHeaderSpace false) s pos rest HL) as (w & rest' & -> & HW & HR & HL' & HP).
  rewrite HP in HL'. exists w, rest'. split_and!; try done. by apply skipWhiteSpace_spec.
Qed.

Lemma skipEquals_yes s pos w1 w2 rest : leaves s pos (w1 ++ "="%uchar :: w2 ++ rest) -> spaces w1 -> spaces w2 -> notSpaceFirst rest -> rest <> [] ->
  skipEquals s pos = (true, (pos + length w1 + 1 + length w2)%nat) /\ leaves s (pos + length w1 + 1 + length w2) rest.
Proof.
  intros HL H1 H2 HR HN. unfold skipEquals. rewrite (skipWhiteSpace_spec s pos w1 ("="%uchar :: w2 ++ rest)) by done.
  apply leaves_app in HL. destruct (leaves_cons _ _ _ _ HL) as (HL' & HC & _). cbn [negb bool_decide]. rewrite bool_decide_false by done. cbn [negb].
  rewrite HC. cbn [negb]. rewrite Z.eqb_refl. cbn [negb]. rewrite (skipWhiteSpace_spec s _ w2 rest), bool_decide_false by done. apply leaves_app in HL'.
  rewrite Nat.add_1_r. split; [f_equal|done].
Qed.
Lemma skipEquals_true s pos rest pos' : leaves s pos rest -> skipEquals s pos = (true, pos') ->
  exists w1 w2 rest', rest = w1 ++ "="%uchar :: w2 ++ rest' /\ spaces w1 /\ spaces w2 /\ notSpaceFirst rest' /\ rest' <> [] /\ leaves s pos' rest'.
Proof.
  intros HL. unfold skipEquals. destruct (skipWhiteSpace_leaves s pos rest HL) as (w1 & rest1 & -> & H1 & _ & HL1 & ->).
  case_bool_decide as EB; [done|]. destruct rest1 as [|c rest1]; [done|]. destruct (leaves_cons _ _ _ _ HL1) as (HL2 & -> & _). cbn [negb].
  destruct (Z.eqb_spec c ("="%uchar)) as [->|_]; [|done]. cbn [negb].
  destruct (skipWhiteSpace_leaves s _ rest1 HL2) as (w2 & rest2 & -> & H2 & HN & HL3 & ->).
  case_bool_decide as EB'; [done|]. intros [= <-]. by exists w1, w2, rest2.
Qed.

Lemma spells_first t token text : spells (t :: token) text -> exists c text', text = c :: text' /\ toASCIILower c = t.
Proof. destruct text as [|c text']; [done|]. intros [= E _]. by exists c, text'. Qed.
Lemma spells_notSpace t token text rest : spells (t :: token) text -> 97 <= t -> notSpaceFirst (text ++ rest) /\ text ++ rest <> [].
Proof.
  intros (c & text' & -> & <-)%spells_first HT. split; [|done]. cbn. destruct (isHeaderSpace false c) eqn:ES; [|done].
  unfold isHeaderSpace in ES. apply orb_prop in ES as [->%Z.eqb_eq | ->%Z.eqb_eq]; by cbn in HT.
Qed.
Lemma skipToken_no s pos token token' text rest : leaves s pos (text ++ rest) -> spells token' text ->
  token <> [] -> token' <> [] -> head token <> head token' -> skipToken s pos token = (false, pos).
Proof.
  intros [_ HD] HS. destruct token as [|t token], token' as [|t' token']; try done. intros _ _ HN.
  apply spells_first in HS as (c & text' & -> & <-). unfold skipToken. rewrite HD. cbn [app matchesToken].
  rewrite (proj2 (Z.eqb_neq _ _)); [done|]. intros E. apply HN. cbn. by rewrite E.
Qed.
Lemma url_notSpace url rest : url <> [] -> Forall (fun c => negb (endsValue c) = true) url -> notSpaceFirst (url ++ rest) /\ url ++ rest <> [].
Proof.
  destruct url as [|c url]; [done|]. intros _ [HC _]%Forall_cons. split; [|done]. cbn. unfold isHeaderSpace, endsValue in *. case_tests; bool_hyps; lia.
Qed.

(** What follows a directive ends a value. *)
Lemma directivesText_ends ds text : directivesText ds text -> stopsAt (fun c => negb (endsValue c)) text.
Proof.
  assert (HS : forall w rest, spaces w -> stopsAt (fun c => negb (endsValue c)) (w ++ ";"%uchar :: rest)).
  { intros w rest HW. destruct HW as [|c w HC _]; [done|]. cbn. unfold endsValue. unfold isHeaderSpace in HC. by rewrite (orb_comm (c =? 32)), HC. }
  intros [w HW|w1 w2 H1 _|d ds' w1 w2 t rest H1 _ _ _]; [|by apply HS..].
  specialize (HS w [] HW). destruct w; [done|exact HS].
Qed.

(** ** One directive is read *)

(** What directives may follow those that were seen. *)
Definition unseen (modeSeen reportSeen : bool) (ds : list Directive) : Prop :=
  atMostOnce ds /\ (modeSeen = true -> true ∉ map isModeBlock ds) /\ (reportSeen = true -> false ∉ map isModeBlock ds).

Lemma loop_mode fuel s pos result rp r w1 w2 text rest : leaves s pos (w1 ++ ";"%uchar :: w2 ++ text ++ rest) ->
  spaces w1 -> spaces w2 -> directiveText ModeBlock text ->
  exists pos', leaves s pos' rest /\ directivesLoop (S fuel) s pos result false rp r = directivesLoop fuel s pos' BlockReflectedXSS true rp r.
Proof.
  intros HL H1 H2 HT. inversion HT as [name v1 v2 value HN HV1 HV2 HB|]; subst. rewrite <- !app_assoc in HL. cbn [app] in HL. rewrite <- !app_assoc in HL.
  destruct (spells_notSpace _ _ name (v1 ++ "="%uchar :: v2 ++ value ++ rest) HN) as [HF HE]; [by cbn|].
  destruct (spells_notSpace _ _ value rest HB) as [HF' HE']; [by cbn|].
  cbn [directivesLoop]. rewrite (skipWhiteSpace_spec s pos w1 (";"%uchar :: w2 ++ name ++ v1 ++ "="%uchar :: v2 ++ value ++ rest)) by done.
  apply leaves_app in HL. destruct (leaves_cons _ _ _ _ HL) as (HL1 & -> & _). rewrite bool_decide_false by done. cbn [negb]. rewrite Z.eqb_refl. cbn [negb].
  rewrite (skipWhiteSpace_spec s _ w2 _ HL1), bool_decide_false by done. cbn [negb]. apply leaves_app in HL1.
  rewrite (skipToken_yes s _ (str "mode") name _ HL1) by done. apply leaves_app in HL1.
  destruct (skipEquals_yes _ _ v1 v2 _ HL1 HV1 HV2 HF' HE') as [-> HL2]. cbn [negb].
  rewrite (skipToken_yes s _ (str "block") value rest HL2) by done. cbn [negb]. apply leaves_app in HL2. eauto.
Qed.

Lemma loop_report fuel s pos result m r w1 w2 url text rest : leaves s pos (w1 ++ ";"%uchar :: w2 ++ text ++ rest) ->
  spaces w1 -> spaces w2 -> directiveText (ReportTo url) text -> stopsAt (fun c => negb (endsValue c)) rest ->
  exists pos' startPos, leaves s pos' rest /\
    directivesLoop (S fuel) s pos result m false r = directivesLoop fuel s pos' result m true (mkXSSReport (failureReason r) startPos (Some url)).
Proof.
  intros HL H1 H2 HT HR. inversion HT as [|name v1 v2 url' HN HV1 HV2 HU HV]; subst. rewrite <- !app_assoc in HL. cbn [app] in HL. rewrite <- !app_assoc in HL.
  destruct (spells_notSpace _ _ name (v1 ++ "="%uchar :: v2 ++ url ++ rest) HN) as [HF HE]; [by cbn|].
  destruct (url_notSpace url rest HU HV) as [HF' HE'].
  cbn [directivesLoop]. rewrite (skipWhiteSpace_spec s pos w1 (";"%uchar :: w2 ++ name ++ v1 ++ "="%uchar :: v2 ++ url ++ rest)) by done.
  apply leaves_app in HL. destruct (leaves_cons _ _ _ _ HL) as (HL1 & -> & _). rewrite bool_decide_false by done. cbn [negb]. rewrite Z.eqb_refl. cbn [negb].
  rewrite (skipWhiteSpace_spec s _ w2 _ HL1), bool_decide_false by done. cbn [negb]. apply leaves_app in HL1.
  rewrite (skipToken_no s _ (str "mode") _ name _ HL1 HN), (skipToken_yes s _ _ name _ HL1 HN) by done. apply leaves_app in HL1.
  destruct (skipEquals_yes _ _ v1 v2 _ HL1 HV1 HV2 HF' HE') as [-> HL2]. cbn [negb]. unfold skipValue.
  rewrite (skipWhile_spec _ s _ url rest HL2 HV HR), (proj2 (Nat.eqb_neq _ _)) by (destruct url; [done|cbn; lia]). cbn [negb].
  rewrite Nat.add_comm, Nat.add_sub. unfold substring. destruct HL2 as [HP HD]. rewrite HD, take_app_length.
  eexists _, _. split; [|reflexivity]. rewrite Nat.add_comm. apply leaves_app. by split.
Qed.

Lemma skipEquals_bound s pos rest : leaves s pos rest -> (snd (skipEquals s pos) <= length s)%nat.
Proof.
  intros HL. unfold skipEquals. destruct (skipWhiteSpace_leaves s pos rest HL) as (w1 & rest1 & -> & _ & _ & HL1 & ->).
  case_bool_decide as EB; [cbn; by destruct HL1|]. destruct rest1 as [|c rest1]; [done|]. destruct (leaves_cons _ _ _ _ HL1) as (HL2 & -> & HB). cbn [negb].
  destruct (negb _); [cbn; lia|]. destruct (skipWhiteSpace_leaves s _ rest1 HL2) as (w2 & rest2 & -> & _ & _ & HL3 & ->). by destruct HL3.
Qed.
Lemma leaves_le s pos rest : leaves s pos rest -> (pos <= length s)%nat.
Proof. by intros []. Qed.

(** What a turn of the loop does: it returns, it fails, or it reads a directive. *)
Definition turn (fuel : nat) (s : list UChar) (result : ReflectedXSSDisposition) (m rp : bool) (r : XSSReport) (text : list UChar)
  (out : option (ReflectedXSSDisposition * XSSReport)) : Prop :=
  (directivesText [] text /\ out = Some (result, r)) \/
  (exists reason pos, out = Some (ReflectedXSSInvalid, failAt reason pos r) /\ (pos <= length s)%nat) \/
  (exists w1 w2 d dtext rest pos, text = w1 ++ ";"%uchar :: w2 ++ dtext ++ rest /\ spaces w1 /\ spaces w2 /\ directiveText d dtext /\ leaves s pos rest /\
    match d with
    | ModeBlock => m = false /\ out = directivesLoop fuel s pos BlockReflectedXSS true rp r
    | ReportTo url => rp = false /\ exists startPos, (startPos <= length s)%nat /\
        out = directivesLoop fuel s pos result m true (mkXSSReport (failureReason r) startPos (Some url))
    end).

(** The rest of the turn behind the name of a directive. *)
Lemma turn_mode fuel s pos result m rp r w1 w2 name rest : spaces w1 -> spaces w2 -> spells (str "mode") name -> leaves s pos rest ->
  turn fuel s result m rp r (w1 ++ ";"%uchar :: w2 ++ name ++ rest)
    (let fail reason pos := Some (ReflectedXSSInvalid, failAt reason pos r) in
     if m then fail "duplicate mode directive" pos
     else
       let '(equals, pos) := skipEquals s pos in
       if negb equals then fail "expected equals sign" pos
       else
         let '(block, pos) := skipToken s pos (str "block") in
         if negb block then fail "invalid mode directive" pos else directivesLoop fuel s pos BlockReflectedXSS true rp r)%string.
Proof.
  intros H1 H2 HN HL. cbv zeta. destruct m; [right; left; eexists _, _; split; [done|by apply leaves_le in HL]|].
  pose proof (skipEquals_bound s pos rest HL) as HB. destruct (skipEquals s pos) as [[] pos1] eqn:EE; cbn [negb]; [|right; left; by eexists _, _].
  destruct (skipEquals_true s pos rest pos1 HL EE) as (v1 & v2 & rest1 & -> & HV1 & HV2 & _ & _ & HL1).
  destruct (skipToken_cases s pos1 (str "block") rest1 HL1) as [(value & rest2 & -> & HV & -> & HL2)|[-> _]]; cbn [negb]; [|right; left; by eexists _, _].
  right; right. exists w1, w2, ModeBlock, (name ++ v1 ++ "="%uchar :: v2 ++ value), rest2, (pos1 + length value)%nat.
  split_and!; try done; [|by constructor]. rewrite <- !app_assoc. cbn [app]. by rewrite <- !app_assoc.
Qed.

Lemma turn_report fuel s pos result m rp r w1 w2 name rest : spaces w1 -> spaces w2 -> spells (str "report") name -> leaves s pos rest ->
  turn fuel s result m rp r (w1 ++ ";"%uchar :: w2 ++ name ++ rest)
    (let fail reason pos := Some (ReflectedXSSInvalid, failAt reason pos r) in
     if rp then fail "duplicate report directive" pos
     else
       let '(equals, pos) := skipEquals s pos in
       if negb equals then fail "expected equals sign" pos
       else
         let startPos := pos in
         let '(value, pos) := skipValue s pos in
         if negb value then fail "invalid report directive" pos
         else
           directivesLoop fuel s pos result m true
             (mkXSSReport (failureReason r) startPos (Some (substring startPos (pos - startPos) s))))%string.
Proof.
  intros H1 H2 HN HL. cbv zeta. destruct rp; [right; left; eexists _, _; split; [done|by apply leaves_le in HL]|].
  pose proof (skipEquals_bound s pos rest HL) as HB. destruct (skipEquals s pos) as [[] pos1] eqn:EE; cbn [negb]; [|right; left; by eexists _, _].
  destruct (skipEquals_true s pos rest pos1 HL EE) as (v1 & v2 & rest1 & -> & HV1 & HV2 & _ & _ & HL1). unfold skipValue.
  destruct (skipWhile_leaves (fun c => negb (endsValue c)) s pos1 rest1 HL1) as (url & rest2 & -> & HU & _ & HL2 & EP). rewrite EP in HL2 |- *.
  destruct url as [|c url]; [cbn [length]; rewrite Nat.add_0_r, Nat.eqb_refl; right; left; by eexists _, _|].
  rewrite (proj2 (Nat.eqb_neq _ _)) by (cbn; lia). cbn [negb]. right; right. set (u := c :: url) in *.
  exists w1, w2, (ReportTo u), (name ++ v1 ++ "="%uchar :: v2 ++ u), rest2, (pos1 + length u)%nat.
  split_and!; try done; [rewrite <- !app_assoc; cbn [app]; by rewrite <- !app_assoc|by constructor|].
  exists pos1. split; [done|]. rewrite Nat.add_comm, Nat.add_sub. unfold substring. destruct HL1 as [_ ->]. by rewrite take_app_length.
Qed.

Lemma loop_turn fuel s pos result m rp r text : leaves s pos text -> turn fuel s result m rp r text (directivesLoop (S fuel) s pos result m rp r).
Proof.
  intros HL. cbn [directivesLoop]. destruct (skipWhiteSpace_leaves s pos text HL) as (w1 & rest1 & -> & H1 & _ & HL1 & ->).
  case_bool_decide as EB; cbn [negb]; [subst rest1; rewrite app_nil_r; left; split; [by constructor|done]|].
  destruct rest1 as [|c rest1]; [done|]. destruct (leaves_cons _ _ _ _ HL1) as (HL2 & -> & HB).
  destruct (Z.eqb_spec c (";"%uchar)) as [->|_]; cbn [negb]; [|right; left; eexists _, _; split; [done|lia]].
  destruct (skipWhiteSpace_leaves s _ rest1 HL2) as (w2 & rest2 & -> & H2 & _ & HL3 & ->).
  case_bool_decide as EB'; cbn [negb]; [subst rest2; rewrite app_nil_r; left; split; [by constructor|done]|].
  destruct (skipToken_cases s _ (str "mode") rest2 HL3) as [(name & rest3 & -> & HN & -> & HL4)|[-> _]]; [by apply turn_mode|].
  destruct (skipToken_cases s _ (str "report") rest2 HL3) as [(name & rest3 & -> & HN & -> & HL4)|[-> _]]; [by apply turn_report|].
  right; left. eexists _, _. split; [done|by apply leaves_le in HL3].
Qed.

Lemma turn_length {A} (w1 w2 dtext rest : list A) c n : (length (w1 ++ c :: w2 ++ dtext ++ rest) < S n)%nat -> (length rest < n)%nat.
Proof. rewrite length_app. cbn [length]. rewrite !length_app. lia. Qed.

(** With a turn per character the loop returns; a position it reports is one of the header. *)
Lemma loop_total fuel : forall s pos result m rp r text, leaves s pos text -> (length text < fuel)%nat ->
  exists d r', directivesLoop fuel s pos result m rp r = Some (d, r') /\ ((failurePosition r <= length s)%nat -> (failurePosition r' <= length s)%nat).
Proof.
  induction fuel as [|fuel IH]; intros s pos result m rp r text HL HF; [lia|].
  destruct (loop_turn fuel s pos result m rp r text HL) as
    [[_ ->]|[(reason & pos' & -> & HP)|(w1 & w2 & d & dtext & rest & pos' & -> & _ & _ & _ & HL' & HO)]]; [by eexists _, _|by eexists _, _|].
  apply turn_length in HF. destruct d as [|url]; [destruct HO as [_ ->]; by eapply IH|]. destruct HO as (_ & startPos & HP & ->).
  destruct (IH s pos' result m true (mkXSSReport (failureReason r) startPos (Some url)) rest HL' HF) as (d & r' & -> & HP'). eexists _, _. split; [done|]. intros _. by apply HP'.
Qed.

Lemma unseen_mode rp ds : unseen true rp ds -> unseen false rp (ModeBlock :: ds).
Proof.
  intros (HD & HM & HR). split_and!; [|done|]; unfold atMostOnce in *; cbn [map isModeBlock].
  - apply NoDup_cons. auto.
  - intros ->. rewrite elem_of_cons. intros [?|?]; [done|]. by apply HR.
Qed.
Lemma unseen_report m url ds : unseen m true ds -> unseen m false (ReportTo url :: ds).
Proof.
  intros (HD & HM & HR). split_and!; [| |done]; unfold atMostOnce in *; cbn [map isModeBlock].
  - apply NoDup_cons. auto.
  - intros ->. rewrite elem_of_cons. intros [?|?]; [done|]. by apply HM.
Qed.
Lemma unseen_tail d m rp ds : unseen m rp (d :: ds) -> if isModeBlock d then m = false /\ unseen true rp ds else rp = false /\ unseen m true ds.
Proof.
  intros (HD & HM & HR). unfold atMostOnce in HD. cbn [map] in *. apply NoDup_cons in HD as [HN HD].
  rewrite !not_elem_of_cons in HM, HR. destruct d as [|url]; cbn [isModeBlock] in *.
  - split; [destruct m; [by destruct HM|done]|]. split_and!; try done. intros H. by apply HR.
  - split; [destruct rp; [by destruct HR|done]|]. split_and!; try done. intros H. by apply HM.
Qed.

Lemma unseen_no_report m ds : unseen m true ds -> urlOf ds = None.
Proof.
  intros (_ & _ & HU). specialize (HU eq_refl). unfold urlOf. induction ds as [|[|u] ds IH]; [done| |]; cbn in *.
  - apply IH. intros HI. apply HU. by right.
  - exfalso. apply HU. by left.
Qed.

Lemma loop_sound fuel : forall s pos result m rp r text d r', leaves s pos text -> directivesLoop fuel s pos result m rp r = Some (d, r') ->
  d <> ReflectedXSSInvalid -> exists ds, directivesText ds text /\ unseen m rp ds.
Proof.
  induction fuel as [|fuel IH]; intros s pos result m rp r text d r' HL HO HD; [done|].
  destruct (loop_turn fuel s pos result m rp r text HL) as
    [[HT _]|[(reason & pos' & EO & HP)|(w1 & w2 & d' & dtext & rest & pos' & -> & H1 & H2 & HT & HL' & HO')]].
  - exists []. split; [done|]. split_and!; [constructor|intros _; apply not_elem_of_nil..].
  - rewrite EO in HO. congruence.
  - destruct d' as [|url].
    + destruct HO' as [-> EO]. rewrite EO in HO. destruct (IH _ _ _ _ _ _ _ _ _ HL' HO HD) as (ds & HT' & HU).
      exists (ModeBlock :: ds). split; [by constructor|by apply unseen_mode].
    + destruct HO' as (-> & startPos & _ & EO). rewrite EO in HO. destruct (IH _ _ _ _ _ _ _ _ _ HL' HO HD) as (ds & HT' & HU).
      exists (ReportTo url :: ds). split; [by constructor|by apply unseen_report].
Qed.

Lemma loop_end fuel s pos result m rp r text : leaves s pos text -> directivesText [] text -> directivesLoop (S fuel) s pos result m rp r = Some (result, r).
Proof.
  intros HL HT. cbn [directivesLoop]. inversion HT as [w HW|w1 w2 H1 H2|]; subst.
  - rewrite <- (app_nil_r text) in HL. by rewrite (skipWhiteSpace_spec s pos text [] HL HW).
  - rewrite (skipWhiteSpace_spec s pos w1 _ HL) by done. apply leaves_app in HL. destruct (leaves_cons _ _ _ _ HL) as (HL1 & -> & _).
    rewrite bool_decide_false by done. cbn [negb]. rewrite Z.eqb_refl. cbn [negb]. rewrite <- (app_nil_r w2) in HL1. by rewrite (skipWhiteSpace_spec s _ w2 [] HL1 H2).
Qed.

Lemma loop_complete ds text : directivesText ds text -> forall fuel s pos result m rp r, leaves s pos text -> (length text < fuel)%nat -> unseen m rp ds ->
  exists r', directivesLoop fuel s pos result m rp r = Some (if existsb isModeBlock ds then BlockReflectedXSS else result, r') /\
    reportURL r' = (if urlOf ds is Some url then Some url else reportURL r) /\ failureReason r' = failureReason r.
Proof.
  assert (HEnd : forall text, directivesText [] text -> forall fuel s pos result m rp r, leaves s pos text -> (length text < fuel)%nat ->
    exists r', directivesLoop fuel s pos result m rp r = Some (result, r') /\ reportURL r' = reportURL r /\ failureReason r' = failureReason r).
  { intros t HT fuel s pos result m rp r HL HF. destruct fuel as [|fuel]; [lia|]. exists r. split_and!; try done. by eapply loop_end. }
  induction 1 as [w HW|w1 w2 H1 H2|d ds w1 w2 text rest H1 H2 HT HTs IH]; intros fuel s pos result m rp r HL HF HU.
  - eapply HEnd; eauto. by constructor.
  - eapply HEnd; eauto. by constructor.
  - destruct fuel as [|fuel]; [lia|]. apply turn_length in HF. apply unseen_tail in HU. destruct d as [|url]; cbn [isModeBlock] in HU.
    + destruct HU as [-> HU]. destruct (loop_mode fuel s pos result rp r w1 w2 text rest HL H1 H2 HT) as (pos' & HL' & ->).
      destruct (IH fuel s pos' BlockReflectedXSS true rp r HL' HF HU) as (r' & -> & HR). exists r'. split; [by destruct (existsb isModeBlock ds)|exact HR].
    + destruct HU as [-> HU]. destruct (loop_report fuel s pos result m r w1 w2 url text rest HL H1 H2 HT) as (pos' & startPos & HL' & ->); [by eapply directivesText_ends|].
      destruct (IH fuel s pos' result m true (mkXSSReport (failureReason r) startPos (Some url)) HL' HF HU) as (r' & -> & HR & HRe). exists r'. split_and!; try done.
      by rewrite HR, (unseen_no_report m ds).
Qed.

Lemma leaves_start s : leaves s 0 s.
Proof. split; [lia|done]. Qed.

Lemma parse_protection_total header r : exists d r', parseXSSProtectionHeader header r = Some (d, r') /\
  ((failurePosition r <= length header)%nat -> (failurePosition r' <= length header)%nat).
Proof.
  unfold parseXSSProtectionHeader. destruct (skipWhiteSpace_leaves header 0 header (leaves_start header)) as (w & rest & E & _ & _ & HL & ->).
  case_bool_decide as EB; cbn [negb]; [by eexists _, _|]. destruct rest as [|c rest]; [done|]. destruct (leaves_cons _ _ _ _ HL) as (HL' & -> & _).
  destruct (c =? _); [by eexists _, _|]. destruct (negb _); [by eexists _, _|]. eapply loop_total; [exact HL'|].
  apply leaves_length in HL'. lia.
Qed.

Lemma parse_protected header r ds : protectionText ds header -> atMostOnce ds ->
  exists r', parseXSSProtectionHeader header r = Some (dispositionOf ds, r') /\
    reportURL r' = (if urlOf ds is Some url then Some url else reportURL r) /\ failureReason r' = failureReason r.
Proof.
  intros HT HO. destruct HT as [w rest HW HT]. pose proof (leaves_start (w ++ "1"%uchar :: rest)) as HL. unfold parseXSSProtectionHeader.
  rewrite (skipWhiteSpace_spec _ 0 w ("1"%uchar :: rest)) by done. apply leaves_app in HL. destruct (leaves_cons _ _ _ _ HL) as (HL' & EC & _).
  rewrite bool_decide_false, EC by done. cbn [negb]. change ("1"%uchar =? "0"%uchar) with false. rewrite Z.eqb_refl. cbn [negb].
  eapply loop_complete; [exact HT|exact HL'| |].
  - apply leaves_length in HL'. lia.
  - by split_and!.
Qed.

Lemma parse_protection_text header r d r' : parseXSSProtectionHeader header r = Some (d, r') -> d = FilterReflectedXSS \/ d = BlockReflectedXSS ->
  exists ds, protectionText ds header /\ atMostOnce ds.
Proof.
  intros HP HD. unfold parseXSSProtectionHeader in HP.
  destruct (skipWhiteSpace_leaves header 0 header (leaves_start header)) as (w & rest & E & HW & _ & HL & EW). rewrite EW in HP.
  case_bool_decide as EB; cbn [negb] in HP; [injection HP as <- _; by destruct HD|]. destruct rest as [|c rest]; [done|].
  destruct (leaves_cons _ _ _ _ HL) as (HL' & EC & _). rewrite EC in HP. destruct (c =? "0"%uchar); [injection HP as <- _; by destruct HD|].
  destruct (Z.eqb_spec c ("1"%uchar)) as [->|_]; cbn [negb] in HP; [|injection HP as <- _; by destruct HD].
  destruct (loop_sound _ _ _ _ _ _ _ _ _ _ HL' HP) as (ds & HT & HU & _); [by destruct HD as [-> | ->]|].
  exists ds. split; [|done]. rewrite E. by constructor.
Qed.

(** C38: the XSS protection header is read exactly by its grammar.  Reading always
    comes to an end, and a position it reports lies within the header.  A header
    that is a 1 with directives behind semicolons, each kind at most once, in
    letters of any case and with any white space, is accepted: reflected scripts
    block the page if there is a mode directive and are filtered if not, and the
    URL to report to is that of the report directive.  Nothing else is accepted
    with either outcome. *)
Theorem xss_header_decides (header : list UChar) (r : XSSReport) :
  (exists d r', parseXSSProtectionHeader header r = Some (d, r') /\ ((failurePosition r <= length header)%nat -> (failurePosition r' <= length header)%nat)) /\
  (forall ds, protectionText ds header -> atMostOnce ds ->
    exists r', parseXSSProtectionHeader header r = Some (dispositionOf ds, r') /\
      reportURL r' = (if urlOf ds is Some url then Some url else reportURL r) /\ failureReason r' = failureReason r) /\
  (forall d r', parseXSSProtectionHeader header r = Some (d, r') -> d = FilterReflectedXSS \/ d = BlockReflectedXSS ->
    exists ds, protectionText ds header /\ atMostOnce ds /\ d = dispositionOf ds).
Proof.
  pose proof (parse_protected header r) as HC. pose proof (parse_protection_text header r) as HS. split; [by apply parse_protection_total|]. split; [exact HC|].
  intros d r' HP HD. destruct (HS d r' HP HD) as (ds & HT & HO). exists ds. split_and!; try done.
  destruct (HC ds HT HO) as (r'' & E & _). rewrite E in HP. by injection HP as <- _.
Qed.
End Protection.
