(* ===== verification/HTTPValuesSpec.v ===== *)
(** * Request lines, media types, frame options and byte ranges

    The other parsers of [HTTPParsers.v]: which request lines are read and as
    what, that the charset of a media type is found within it, what a list of
    frame options amounts to, and that ranges that are written are read; and
    where the code does not do what it is meant to. *)

From S2P Require Import Prelude CharacterSource IntegerParsing IntegerParsingSpec WebSocketExtensions WebSocketHandshake HTTPParsers HTTPParsersSpec.
From stdpp Require Import sets.
Open Scope Z_scope.

(** ** Request lines *)

(** A part of the line between spaces, and what no line contains. *)
Definition inPart (c : Z) : bool := negb (c =? 32) && negb (c =? cLF).
Definition linePart (x : list Z) : Prop := Forall (fun c => inPart c = true) x.
Definition withoutLF (x : list Z) : Prop := Forall (fun c => negb (c =? cLF) = true) x.

Lemma scan_part x rest p space1 space2 : linePart x -> scanRequestLine (x ++ rest) p space1 space2 = scanRequestLine rest (p + length x) space1 space2.
Proof.
  intros HX. revert p. induction HX as [|c x HC _ IH]; intros p; cbn [app scanRequestLine length]; [by rewrite Nat.add_0_r|].
  unfold inPart in HC. bool_hyps. rewrite (proj2 (Z.eqb_neq c 32)), (proj2 (Z.eqb_neq c cLF)), IH by done. f_equal. lia.
Qed.
Lemma scan_rest x rest p a b : withoutLF x -> scanRequestLine (x ++ cLF :: rest) p (Some a) (Some b) = Some ((p + length x)%nat, Some a, Some b).
Proof.
  intros HX. revert p. induction HX as [|c x HC _ IH]; intros p; cbn [app scanRequestLine length]; [by rewrite Nat.add_0_r|].
  bool_hyps. rewrite (proj2 (Z.eqb_neq c cLF)), IH, <- Nat.add_succ_comm by done. by destruct (c =? 32).
Qed.
Lemma scan_none x p space1 space2 : withoutLF x -> scanRequestLine x p space1 space2 = None.
Proof.
  intros HX. revert p space1 space2. induction HX as [|c x HC _ IH]; intros p space1 space2; cbn [scanRequestLine]; [done|].
  bool_hyps. rewrite (proj2 (Z.eqb_neq c cLF)) by done. by destruct (c =? 32), space1, space2; rewrite IH.
Qed.
Lemma linePart_withoutLF x : linePart x -> withoutLF x.
Proof. intros HX. eapply Forall_impl; [exact HX|]. cbn beta. intros c HC. unfold inPart in HC. by apply andb_true_iff in HC as [_ HC]. Qed.

(** The three shapes of data: without a line, a line without two spaces, and
    a line with its first two spaces. *)
Inductive lineShape (data : list Z) : Prop :=
  | NoLineYet : withoutLF data -> lineShape data
  | FewParts : parseHTTPRequestLine data = RequestFailed (str "Request Line does not appear to contain: <Method> <Url> <HTTPVersion>.") -> cLF ∈ data -> lineShape data
  | ThreeParts m u line rest : data = m ++ 32 :: u ++ 32 :: line ++ cLF :: rest -> linePart m -> linePart u -> withoutLF line -> lineShape data.

Lemma stops_part rest : stopsAt inPart rest -> rest = [] \/ (exists rest', rest = cLF :: rest') \/ exists rest', rest = 32 :: rest'.
Proof.
  destruct rest as [|c rest]; [by left|]. cbn. unfold inPart. intros HC. right.
  destruct (Z.eqb_spec c 32) as [->|_]; [right; eauto|]. destruct (Z.eqb_spec c cLF) as [->|_]; [left; eauto|done].
Qed.

Lemma line_shape data : lineShape data.
Proof.
  assert (HF : forall x rest, linePart x -> parseHTTPRequestLine (x ++ cLF :: rest) =
    RequestFailed (str "Request Line does not appear to contain: <Method> <Url> <HTTPVersion>.")) by (intros x rest HX; unfold parseHTTPRequestLine; by rewrite scan_part).
  destruct (spanLength_split inPart data) as (m & r1 & -> & HM & [-> | [[rest ->]|[r2 ->]]]%stops_part).
  - rewrite app_nil_r. by apply NoLineYet, linePart_withoutLF.
  - apply FewParts; [by apply HF|set_solver].
  - destruct (spanLength_split inPart r2) as (u & r3 & -> & HU & [-> | [[rest ->]|[r4 ->]]]%stops_part).
    + apply NoLineYet. rewrite app_nil_r. apply Forall_app_2; [by apply linePart_withoutLF|constructor; [done|by apply linePart_withoutLF]].
    + apply FewParts; [|set_solver]. unfold parseHTTPRequestLine. rewrite scan_part by done. cbn [scanRequestLine]. rewrite Z.eqb_refl. by rewrite scan_part.
    + destruct (spanLength_split (fun c => negb (c =? cLF)) r4) as (line & r5 & -> & HL & HS). destruct r5 as [|c rest].
      * apply NoLineYet. rewrite app_nil_r. repeat (apply Forall_app_2 || constructor); try done; by apply linePart_withoutLF.
      * cbn in HS. bool_hyps. subst c. by eapply ThreeParts.
Qed.

Lemma nth_middle_Z (l l' : list Z) (n : nat) x d : n = length l -> nth n (l ++ x :: l') d = x.
Proof. intros ->. apply nth_middle. Qed.

Lemma drop_middle (l l' : list Z) x : drop (S (length l)) (l ++ x :: l') = l'.
Proof. by induction l. Qed.

Lemma three_parts m u line rest : linePart m -> linePart u -> withoutLF line ->
  parseHTTPRequestLine (m ++ 32 :: u ++ 32 :: line ++ cLF :: rest) =
    match last line with
    | Some c =>
        if c =? cCR then Request (length m + length u + length line + 3) m u (versionOf (take (length line - 1) line))
        else RequestFailed (str "Request line does not end with CRLF")
    | None => RequestFailed (str "Request line does not end with CRLF")
    end.
Proof.
  intros HM HU HL. set (data := m ++ _). unfold parseHTTPRequestLine.
  assert (HS : scanRequestLine data 0 None None = Some ((length m + length u + length line + 2)%nat, Some (length m), Some (length m + length u + 1)%nat)).
  { unfold data. rewrite scan_part by done. cbn [scanRequestLine]. rewrite Z.eqb_refl, scan_part by done. cbn [scanRequestLine]. rewrite Z.eqb_refl, scan_rest by done.
    rewrite !Nat.add_0_l. f_equal. f_equal; [f_equal; lia|f_equal; lia]. }
  rewrite HS. cbv zeta. assert (HD : drop (length m + length u + 2) data = line ++ cLF :: rest).
  { unfold data. replace (length m + length u + 2)%nat with (length (m ++ 32 :: u ++ [32])) by (rewrite length_app; cbn [length]; rewrite length_app; cbn; lia).
    replace (m ++ 32 :: u ++ 32 :: line ++ cLF :: rest) with ((m ++ 32 :: u ++ [32]) ++ line ++ cLF :: rest) by (by rewrite <- app_assoc; cbn; rewrite <- app_assoc).
    apply drop_app_length. }
  destruct line as [|c v _] using rev_ind.
  - cbn [last length]. replace data with ((m ++ 32 :: u) ++ 32 :: cLF :: rest) by (unfold data; by rewrite <- app_assoc).
    rewrite (nth_middle_Z (m ++ 32 :: u) (cLF :: rest)); [done|]. rewrite length_app. cbn [length]. lia.
  - rewrite last_snoc, length_app. cbn [length].
    replace (nth _ data 0) with c.
    2:{ rewrite <- (Nat.add_0_r (_ - 2)). replace (S (length m + length u + (length v + 1) + 2) - 2 + 0)%nat with ((length m + length u + 2) + length v)%nat by lia.
        rewrite <- hd_drop_nth, <- drop_drop, HD, <- app_assoc, drop_app_length. done. }
    destruct (c =? cCR); cbn [negb]; [|done]. unfold substring.
    f_equal; [lia|by unfold data; rewrite drop_0, take_app_length| |].
    + unfold data. rewrite drop_middle. replace (_ - _ - 1)%nat with (length u) by lia. apply take_app_length.
    + replace (S (length m + length u + 1)) with (length m + length u + 2)%nat by lia. rewrite HD. f_equal. rewrite Nat.add_sub, take_app_length, <- app_assoc.
      replace (_ - _ - 3)%nat with (length v) by lia. apply take_app_length.
Qed.

Lemma no_line data : withoutLF data -> parseHTTPRequestLine data = RequestFailed (str "Incomplete Request Line").
Proof. intros HD. unfold parseHTTPRequestLine. by rewrite scan_none. Qed.
Lemma withoutLF_elem data : withoutLF data <-> cLF ∉ data.
Proof.
  unfold withoutLF. rewrite Forall_forall. split; [intros HF HI; by specialize (HF _ HI)|].
  intros HN c HC. destruct (Z.eqb_spec c cLF) as [->|]; done.
Qed.

Lemma request_text m u version rest : linePart m -> linePart u -> withoutLF version ->
  parseHTTPRequestLine (m ++ 32 :: u ++ 32 :: version ++ cCR :: cLF :: rest) = Request (length m + length u + length version + 4) m u (versionOf version).
Proof.
  intros HM HU HV. replace (version ++ cCR :: cLF :: rest) with ((version ++ [cCR]) ++ cLF :: rest) by by rewrite <- app_assoc.
  rewrite three_parts, last_snoc, length_app by (done || (apply Forall_app_2; by repeat constructor)). cbn [length].
  rewrite Z.eqb_refl, Nat.add_sub, take_app_length. f_equal. lia.
Qed.

Lemma startsWithText_true s prefix : startsWithText s prefix = true -> exists rest, s = prefix ++ rest.
Proof.
  revert s. induction prefix as [|p prefix IH]; intros [|c s]; cbn [startsWithText]; [by exists []|by eexists|done|].
  rewrite andb_true_iff, Z.eqb_eq. intros [-> (rest & ->)%IH]. by exists rest.
Qed.
(** The versions that are known are spelled in one way. *)
Lemma versionOf_spec version : (versionOf version = HTTP_1_0 <-> version = str "HTTP/1.0") /\ (versionOf version = HTTP_1_1 <-> version = str "HTTP/1.1").
Proof.
  assert (HV : versionOf version <> UnknownVersion -> exists c, version = str "HTTP/1." ++ [c] /\
    versionOf version = if c =? "0"%uchar then HTTP_1_0 else if c =? "1"%uchar then HTTP_1_1 else UnknownVersion).
  { unfold versionOf. destruct (Nat.eqb_spec (length version) 8) as [HL|]; [|done]. destruct (startsWithText version _) eqn:ES; [|done]. intros _.
    apply startsWithText_true in ES as (rest & ->). rewrite length_app in HL. destruct rest as [|c [|]]; try (cbn in HL; lia). by exists c. }
  split; (split; [|by intros ->]); intros E; destruct HV as (c & -> & EV); rewrite E in *; try done;
    destruct (Z.eqb_spec c ("0"%uchar)) as [->|]; try done; destruct (Z.eqb_spec c ("1"%uchar)) as [->|]; done.
Qed.

(** C39: request lines are read exactly by the grammar of the code, which is laxer
    than the one of RFC 2616: a line is a method, a space, a URL, a space, a
    version and CR LF, the parts without LF and the first two without spaces, and
    each of them may be empty; then the result is the method, the URL, the
    version and the length of the line, which is all that is consumed of the
    data.  Nothing else is a request line, the data is said to be incomplete
    exactly if it has no LF, and only HTTP/1.0 and HTTP/1.1 are versions that are
    known. *)
Theorem request_line_decides (data : list Z) :
  (forall n m u v, parseHTTPRequestLine data = Request n m u v <->
    exists version rest, data = m ++ 32 :: u ++ 32 :: version ++ cCR :: cLF :: rest /\ linePart m /\ linePart u /\ withoutLF version /\
      v = versionOf version /\ n = (length m + length u + length version + 4)%nat) /\
  (parseHTTPRequestLine data = RequestFailed (str "Incomplete Request Line") <-> cLF ∉ data) /\
  (forall version, (versionOf version = HTTP_1_0 <-> version = str "HTTP/1.0") /\ (versionOf version = HTTP_1_1 <-> version = str "HTTP/1.1")).
Proof.
  split; [intros n m u v; split|split; [|exact versionOf_spec]].
  - intros HP. destruct (line_shape data) as [HN|HF _|m' u' line rest -> HM HU HL]; [by rewrite no_line in HP|by rewrite HF in HP|].
    rewrite three_parts in HP by done. destruct line as [|c version _] using rev_ind; [done|]. rewrite last_snoc in HP.
    destruct (Z.eqb_spec c cCR) as [->|]; [|done]. rewrite length_app in HP. cbn [length] in HP. rewrite Nat.add_sub, take_app_length in HP.
    injection HP as <- <- <- <-. exists version, rest. apply Forall_app in HL as [HL _]. split_and!; try done; [by rewrite <- app_assoc|lia].
  - intros (version & rest & -> & HM & HU & HV & -> & ->). by apply request_text.
  - rewrite <- withoutLF_elem. split; [|by apply no_line]. intros HP.
    destruct (line_shape data) as [HN|HF _|m' u' line rest -> HM HU HL]; [done|by rewrite HF in HP|]. rewrite three_parts in HP by done.
    by destruct (last line) as [c|]; [destruct (c =? cCR)|].
Qed.

(** ** Media types *)

Section MediaTypes.
Context `{CaseFolding} `{CharDirection}.

Lemma startsWith_length caseSensitive s prefix : startsWith caseSensitive s prefix = true -> (length prefix <= length s)%nat.
Proof.
  revert s. induction prefix as [|p prefix IH]; intros [|c s]; cbn [startsWith length]; try (done || lia).
  intros [_ HS]%andb_true_iff. apply IH in HS. lia.
Qed.

Lemma findIgnoringCaseInner_bound m s i : findIgnoringCaseInner m s = Some i -> (i + length m <= length s)%nat.
Proof.
  revert i. induction s as [|c s IH]; intros i; cbn [findIgnoringCaseInner].
  - destruct (startsWith false [] m) eqn:ES; [|done]. intros [= <-]. by apply startsWith_length in ES.
  - destruct (startsWith false (c :: s) m) eqn:ES; [intros [= <-]; by apply startsWith_length in ES|].
    intros (j & HJ%IH & ->)%fmap_Some. cbn [length]. lia.
Qed.
Lemma findIgnoringCase_bound m s index i : m <> [] -> findIgnoringCase m s index = Some i -> (index <= i /\ i + length m <= length s)%nat.
Proof.
  intros HM. unfold findIgnoringCase. destruct m as [|c m]; [done|]. destruct (Nat.ltb_spec (length s) index); [done|].
  intros (j & HJ%findIgnoringCaseInner_bound & ->)%fmap_Some. rewrite length_drop in HJ. lia.
Qed.

(** What is found lies within the media type and looks like a name. *)
Definition charsetWithin (s : list UChar) (found : nat * nat) : Prop :=
  (fst found + snd found <= length s)%nat /\ Forall (fun c => inCharsetName c = true) (substring (fst found) (snd found) s).

Lemma charsetWithin_none s start : (start <= length s)%nat -> charsetWithin s (start, 0%nat).
Proof. intros HS. split; cbn; [lia|]. unfold substring. by rewrite take_0. Qed.

(** The name from a position on. *)
Lemma charset_name s pos : (pos <= length s)%nat ->
  charsetWithin s (pos, ((if (pos =? length s)%nat then pos else skipWhile inCharsetName s pos) - pos)%nat).
Proof.
  intros HP. destruct (Nat.eqb_spec pos (length s)) as [_|_]; [rewrite Nat.sub_diag; by apply charsetWithin_none|].
  destruct (skipWhile_leaves inCharsetName s pos (drop pos s)) as (x & rest & ED & HX & _ & HL & EP); [by split|]. rewrite EP in *.
  replace (pos + length x - pos)%nat with (length x) by lia. split; cbn [fst snd].
  - by destruct HL.
  - unfold substring. by rewrite ED, take_app_length.
Qed.
Lemma skipWhile_bound p s pos : (pos <= length s)%nat -> (pos <= skipWhile p s pos <= length s)%nat.
Proof.
  intros HP. destruct (skipWhile_leaves p s pos (drop pos s)) as (x & rest & _ & _ & _ & [HL _] & E); [by split|]. rewrite E in *. lia.
Qed.

Lemma findCharsetLoop_within fuel : forall s start pos, (start <= length s)%nat -> (length s < pos + fuel /\ 0 < fuel)%nat ->
  exists found, findCharsetLoop fuel s start pos = Some found /\ charsetWithin s found.
Proof.
  assert (HNone : forall s start, (start <= length s)%nat -> exists found, Some (start, 0%nat) = Some found /\ charsetWithin s found)
    by (intros s start HS; eexists; split; [done|by apply charsetWithin_none]).
  induction fuel as [|fuel IH]; intros s start pos HS HF.
  - lia.
  - cbn [findCharsetLoop]. destruct (Nat.ltb_spec pos (length s)) as [HP|_]; [|by apply HNone].
    destruct (findIgnoringCase (str "charset") s pos) as [i|] eqn:EF; [|by apply HNone].
    apply findIgnoringCase_bound in EF as [HI HB]; [|done]. change (length (str "charset")) with 7%nat in HB. destruct i as [|i]; [by apply HNone|].
    cbv zeta. destruct (_ && _); [apply IH; lia|]. pose proof (skipWhile_bound (fun c => c <=? 32) s (S i + 7) HB) as HW.
    set (pos1 := skipWhile _ s (S i + 7)) in *. destruct (Z.eqb_spec (charAtIndex s pos1) ("="%uchar)) as [EC|_]; cbn [negb]; [|apply IH; lia].
    eexists. split; [done|]. apply charset_name, skipWhile_bound. destruct (decide (pos1 < length s)%nat); [lia|].
    unfold charAtIndex in EC. rewrite nth_overflow in EC by lia. done.
Qed.

(** The parameter of a media type: the keyword behind white space or a
    semicolon, the equals sign and the name, perhaps in quotation marks. *)
Definition behindSeparator (before : list UChar) : Prop := exists c, last before = Some c /\ (c <= 32 \/ c = ";"%uchar).
Definition charsetText (before name s : list UChar) : Prop :=
  exists keyword w1 w2 rest, s = before ++ keyword ++ w1 ++ "="%uchar :: w2 ++ name ++ rest /\ length keyword = 7%nat /\
    Forall (fun c => (c <=? 32) = true) w1 /\ Forall (fun c => (c <=? 32) || isQuote c = true) w2 /\
    name <> [] /\ Forall (fun c => inCharsetName c = true) name /\ stopsAt inCharsetName rest.

Lemma name_stops name rest : name <> [] -> Forall (fun c => inCharsetName c = true) name -> stopsAt (fun c => (c <=? 32) || isQuote c) (name ++ rest).
Proof.
  destruct name as [|c name]; [done|]. intros _ [HC _]%Forall_cons. cbn. unfold inCharsetName in HC. bool_hyps. rewrite (proj2 (Z.leb_gt _ _)) by lia. done.
Qed.

Lemma extractCharset_text before name s : charsetText before name s -> behindSeparator before ->
  findIgnoringCase (str "charset") s 0 = Some (length before) -> extractCharsetFromMediaType s = Some name.
Proof.
  intros (keyword & w1 & w2 & rest & ES & HK & H1 & H2 & HN & HA & HR) (c & HC & HS) HF. unfold extractCharsetFromMediaType, findCharsetInMediaType.
  assert (HL : leaves s 0 (before ++ keyword ++ w1 ++ "="%uchar :: w2 ++ name ++ rest)) by (rewrite <- ES; apply leaves_start).
  pose proof (leaves_length _ _ _ HL) as HLen. rewrite !length_app in HLen. cbn [length] in HLen. rewrite !length_app in HLen.
  cbn [findCharsetLoop]. rewrite (proj2 (Nat.ltb_lt _ _)), HF by lia.
  destruct before as [|b before _] using rev_ind; [done|]. rewrite last_snoc in HC. injection HC as ->.
  rewrite length_app in *. cbn [length] in *. rewrite Nat.add_1_r. cbv zeta. rewrite <- app_assoc in HL. apply leaves_app in HL.
  destruct (leaves_cons _ _ _ _ HL) as (HL1 & EC & _). rewrite Nat.add_0_l in *. cbn [app] in *. rewrite Nat.sub_succ, Nat.sub_0_r, EC.
  replace ((c >? 32) && negb (c =? ";"%uchar)) with false by (symmetry; rewrite Z.gtb_ltb; destruct HS as [HS| ->]; [by rewrite (proj2 (Z.ltb_ge _ _))|done]).
  apply leaves_app in HL1. rewrite HK in HL1. rewrite (skipWhile_spec _ s _ w1 _ HL1 H1) by done. apply leaves_app in HL1.
  destruct (leaves_cons _ _ _ _ HL1) as (HL2 & -> & _). cbn [negb]. rewrite Z.eqb_refl. cbn [negb].
  rewrite (skipWhile_spec _ s _ w2 _ HL2 H2) by by apply name_stops. apply leaves_app in HL2.
  rewrite (skipWhile_spec _ s _ name rest HL2 HA HR). destruct HL2 as [HP HD].
  assert (HNL : (0 < length name)%nat) by (destruct name; [done|cbn; lia]). rewrite (proj2 (Nat.eqb_neq _ _)) by (cbn [length]; lia).
  cbn [mbind option_bind]. unfold substring. rewrite Nat.add_comm, Nat.add_sub, HD. by rewrite take_app_length.
Qed.

(** C40: the charset of a media type.  Whatever the media type and wherever in
    it the search starts, the search comes to an end and what it finds lies within the
    text and has no white space, quotation mark or semicolon.  If the first
    place where the keyword stands, in any case, is behind white space or a
    semicolon, so not at the start of the text, and an equals sign and a name
    follow it, the name is found. *)
Theorem media_type_charset (mediaType : list UChar) (start : nat) :
  (start <= length mediaType)%nat ->
  (exists found, findCharsetInMediaType mediaType start = Some found /\ charsetWithin mediaType found) /\
  (forall before name, charsetText before name mediaType -> behindSeparator before ->
    findIgnoringCase (str "charset") mediaType 0 = Some (length before) -> extractCharsetFromMediaType mediaType = Some name).
Proof.
  intros HS. split; [apply findCharsetLoop_within; lia|]. intros before name. apply extractCharset_text.
Qed.

(** The type without its parameters. *)
Lemma extractMIMEType_loop mediaType : extractMIMETypeFromMediaType mediaType = mimeTypeLoop mediaType.
Proof.
  unfold extractMIMETypeFromMediaType. destruct (Nat.eqb_spec (length (mimeTypeLoop mediaType)) (length mediaType)) as [HL|]; [|done].
  assert (HLe : forall s, (length (mimeTypeLoop s) <= length s)%nat) by (induction s; cbn [mimeTypeLoop length]; repeat case_match; cbn [length]; lia).
  induction mediaType as [|c s IH]; [done|]. cbn [mimeTypeLoop length] in *. repeat case_match; cbn [length] in HL; try done; [specialize (HLe s); lia|].
  f_equal. apply IH. lia.
Qed.
Lemma extractMIMEType_idempotent mediaType :
  extractMIMETypeFromMediaType (extractMIMETypeFromMediaType mediaType) = extractMIMETypeFromMediaType mediaType.
Proof.
  rewrite !extractMIMEType_loop. induction mediaType as [|c s IH]; [done|]. cbn [mimeTypeLoop].
  destruct (c =? ";"%uchar) eqn:E1; [done|]. destruct (c =? ","%uchar) eqn:E2; [done|]. destruct (isSpaceOrNewline c) eqn:E3; [done|].
  cbn [mimeTypeLoop]. by rewrite E1, E2, E3, IH.
Qed.
End MediaTypes.

(** ** Fields between separators *)

Fixpoint joinFields (separator : UChar) (fields : list (list UChar)) : list UChar :=
  match fields with
  | [] => []
  | [field] => field
  | field :: fields => field ++ separator :: joinFields separator fields
  end.
Definition isField (separator : UChar) (field : list UChar) : Prop := Forall (fun c => negb (c =? separator) = true) field.

Lemma findCharacter_spec c s pos x rest : leaves s pos (x ++ rest) -> isField c x -> stopsAt (fun x => negb (x =? c)) rest ->
  findCharacter c s pos = if bool_decide (rest = []) then None else Some (pos + length x)%nat.
Proof.
  intros HL HX HR. unfold findCharacter. rewrite (skipWhile_spec _ s pos x rest HL HX HR). pose proof (leaves_length _ _ _ HL) as HE. rewrite length_app in HE.
  destruct rest as [|r rest]; cbn in HE; [rewrite (proj2 (Nat.ltb_ge _ _)) by lia|rewrite (proj2 (Nat.ltb_lt _ _)) by lia]; done.
Qed.

Lemma splitCharacterLoop_fields separator fields : forall fuel s pos, Forall (isField separator) fields -> fields <> [] ->
  leaves s pos (joinFields separator fields) -> (length fields <= fuel)%nat -> splitCharacterLoop fuel separator s pos = filter (.≠ []) fields.
Proof.
  induction fields as [|field fields IH]; intros fuel s pos HF HN HL HFu; [done|]. apply Forall_cons in HF as [HX HF].
  destruct fuel as [|fuel]; [cbn in HFu; lia|]. cbn [splitCharacterLoop]. destruct fields as [|field' fields].
  - cbn [joinFields] in HL. pose proof (leaves_length _ _ _ HL) as HLen. rewrite (findCharacter_spec separator s pos field []) by (rewrite ?app_nil_r; done).
    rewrite bool_decide_true by done. destruct HL as [_ ->]. rewrite filter_cons, filter_nil.
    destruct field; cbn in HLen; [by rewrite (proj2 (Nat.eqb_eq _ _)) by lia|by rewrite (proj2 (Nat.eqb_neq _ _)) by lia].
  - set (fs := field' :: fields) in *. change (joinFields separator (field :: fs)) with (field ++ separator :: joinFields separator fs) in HL.
    rewrite (findCharacter_spec separator s pos field _ HL HX) by (cbn; by rewrite Z.eqb_refl). rewrite bool_decide_false by done.
    rewrite filter_cons, (IH fuel) by (done || (apply leaves_app, leaves_cons in HL; tauto) || (cbn in HFu |- *; lia)). destruct HL as [_ HD].
    destruct field as [|c field]; [by rewrite Nat.add_0_r, Nat.eqb_refl|]. rewrite (proj2 (Nat.eqb_neq _ _)) by (cbn [length]; lia). cbn [app].
    unfold substring. rewrite Nat.add_comm, Nat.add_sub, HD, take_app_length. done.
Qed.
Lemma joinFields_length separator fields : (length fields <= S (length (joinFields separator fields)))%nat.
Proof.
  induction fields as [|x fields IH]; [cbn; lia|]. destruct fields as [|y fields]; [cbn; lia|].
  change (joinFields separator (x :: y :: fields)) with (x ++ separator :: joinFields separator (y :: fields)).
  rewrite length_app. cbn [length] in *. lia.
Qed.
(** Splitting gives the fields that are not empty. *)
Lemma splitCharacter_fields separator fields : Forall (isField separator) fields -> fields <> [] ->
  splitCharacter separator (joinFields separator fields) = filter (.≠ []) fields.
Proof.
  intros HF HN. apply splitCharacterLoop_fields; try done; [apply leaves_start|]. apply joinFields_length.
Qed.

Section Values.
Context `{CaseFolding} `{CharDirection}.

(** ** Frame options *)

Lemma frameOption_value x : frameOption x <> XFrameOptionsNone /\ frameOption x <> XFrameOptionsConflict.
Proof. unfold frameOption. by repeat case_match. Qed.

Lemma frameOptionsLoop_spec headers v : v <> XFrameOptionsNone ->
  frameOptionsLoop headers v = if forallb (fun x => bool_decide (frameOption x = v)) headers then v else XFrameOptionsConflict.
Proof.
  intros HV. induction headers as [|x headers IH]; [done|]. cbn [frameOptionsLoop forallb]. rewrite bool_decide_false by done.
  destruct (decide (frameOption x = v)) as [->|NE].
  - rewrite bool_decide_false, bool_decide_true by (done || tauto). exact IH.
  - rewrite bool_decide_true, bool_decide_false by congruence. done.
Qed.

(** Options between commas: those that are not empty agree, and that is the
    result, or they are in conflict. *)
Theorem frame_options_agree (fields : list (list UChar)) : Forall (isField ","%uchar) fields -> fields <> [] ->
  parseXFrameOptionsHeader (joinFields ","%uchar fields) =
    match filter (.≠ []) fields with
    | [] => XFrameOptionsNone
    | x :: others => if forallb (fun y => bool_decide (frameOption y = frameOption x)) others then frameOption x else XFrameOptionsConflict
    end.
Proof.
  intros HF HN. pose proof (splitCharacter_fields ","%uchar fields HF HN) as HS. unfold parseXFrameOptionsHeader.
  destruct (joinFields ","%uchar fields) as [|c s]; [by rewrite <- HS|]. rewrite HS.
  destruct (filter (.≠ []) fields) as [|x others]; [done|]. cbn [frameOptionsLoop]. rewrite bool_decide_true by done.
  apply frameOptionsLoop_spec, frameOption_value.
Qed.

(** ** Byte ranges *)

Lemma skipWhitespace_text x rest : x <> [] -> Forall (fun c => isSpaceOrNewline c = false) x -> skipWhitespace (x ++ rest) = x ++ rest.
Proof. destruct x as [|c x]; [done|]. intros _ [HC _]%Forall_cons. cbn [app skipWhitespace]. by rewrite HC. Qed.
Lemma stripWhiteSpace_text w1 x w2 : blank w1 -> blank w2 -> Forall (fun c => isSpaceOrNewline c = false) x -> stripWhiteSpace (w1 ++ x ++ w2) = x.
Proof.
  intros H1 H2 HX. unfold stripWhiteSpace. rewrite skipWhitespace_app by done. destruct (decide (x = [])) as [->|HN].
  - by rewrite app_nil_l, (skipWhitespace_blank w2).
  - rewrite (skipWhitespace_text x w2), reverse_app, skipWhitespace_app by (done || by apply Forall_reverse).
    rewrite <- (app_nil_r (reverse x)), skipWhitespace_text, app_nil_r, reverse_involutive; [done| |by apply Forall_reverse].
    intros E. apply HN. by rewrite <- (reverse_involutive x), E.
Qed.
Lemma stripWhiteSpace_blank w : blank w -> stripWhiteSpace w = [].
Proof. intros HW. unfold stripWhiteSpace. by rewrite (skipWhitespace_blank w). Qed.

Definition int64Max : Z := integralMax int64_type.
Definition decimal (digits : list UChar) : Prop := digitsOf 10 digits /\ digits <> [].
Definition valueOf (digits : list UChar) : Z := numeral 10 0 digits.
(** The unit in any case, as the code compares it. *)
Definition bytesUnit (keyword : list UChar) : Prop := length keyword = 6%nat /\ startsWith false keyword (str "bytes=") = true.

Lemma toInt64Strict_decimal digits : decimal digits -> toInt64Strict digits = if valueOf digits <=? int64Max then (valueOf digits, true) else (0, false).
Proof.
  intros [HD HN]. unfold toInt64Strict. cbn [stringToStrict]. rewrite (toIntegralType_text int64_type 10 false digits); [|lia|by vm_compute| |done].
  - cbv zeta. unfold limit. cbn [andb Z.b2z]. by rewrite Z.add_0_r.
  - exists [], [], []. rewrite app_nil_r. split_and!; try done; try apply Forall_nil_2. by left.
Qed.
Lemma decimal_visible digits : decimal digits -> Forall (fun c => isSpaceOrNewline c = false) digits.
Proof. intros [HD _]. eapply Forall_impl; [exact HD|]. cbn beta. intros c HC. apply (allowed_not_space c 10); [lia|done]. Qed.
Lemma decimal_range digits : decimal digits -> 0 <= valueOf digits.
Proof. intros [HD _]. by apply numeral_ge. Qed.

Lemma startsWith_app caseSensitive s prefix rest : startsWith caseSensitive s prefix = true -> startsWith caseSensitive (s ++ rest) prefix = true.
Proof.
  revert s. induction prefix as [|p prefix IH]; intros [|c s]; cbn [startsWith app]; try done; [by destruct rest|].
  rewrite !andb_true_iff. intros [HC HS]. split; [done|by apply IH].
Qed.

(** No white space and no digit is a hyphen. *)
Lemma blank_field w : blank w -> isField "-"%uchar w.
Proof.
  intros HW. eapply Forall_impl; [exact HW|]. cbn beta. intros c HC. destruct (Z.eqb_spec c ("-"%uchar)) as [->|]; [|done].
  by rewrite isSpaceOrNewline_printable in HC by (cbn; lia).
Qed.
Lemma decimal_field digits : decimal digits -> isField "-"%uchar digits.
Proof.
  intros [HD _]. eapply Forall_impl; [exact HD|]. cbn beta. intros c HC. apply allowed_iff in HC; [|lia].
  apply negb_true_iff, Z.eqb_neq. change ("-"%uchar) with 45. lia.
Qed.

(** What is done with the texts on both sides of the hyphen. *)
Definition rangeOfParts (first last : list UChar) : bool * ByteRange :=
  let '(firstBytePos, ok) := toInt64Strict (stripWhiteSpace first) in
  if negb ok then (false, noRange)
  else
    let '(lastBytePos, ok) := match stripWhiteSpace last with [] => (-1, true) | _ => toInt64Strict (stripWhiteSpace last) end in
    if negb ok then (false, noRange)
    else if (firstBytePos <? 0) || negb ((lastBytePos =? -1) || (lastBytePos >=? firstBytePos)) then (false, noRange)
    else (true, mkByteRange firstBytePos lastBytePos (-1)).

Lemma parseRange_parts keyword first last : bytesUnit keyword -> isField "-"%uchar first -> first <> [] ->
  parseRange (keyword ++ first ++ "-"%uchar :: last) = rangeOfParts first last.
Proof.
  intros [HL HK] HF HN. unfold parseRange. rewrite startsWith_app by done. cbn [negb]. rewrite <- HL, drop_app_length.
  rewrite (findCharacter_spec "-"%uchar _ 0 first ("-"%uchar :: last)); [|apply leaves_start|done|done]. rewrite bool_decide_false, Nat.add_0_l by done.
  destruct (length first) as [|n] eqn:EL; [by destruct first|]. rewrite <- EL, take_app_length, drop_middle. done.
Qed.
Lemma parseRange_suffix keyword last : bytesUnit keyword -> parseRange (keyword ++ "-"%uchar :: last) =
  let '(value, ok) := toInt64Strict (stripWhiteSpace last) in (true, if ok then mkByteRange (-1) (-1) value else noRange).
Proof.
  intros [HL HK]. unfold parseRange. rewrite startsWith_app by done. cbn [negb]. rewrite <- HL, drop_app_length.
  rewrite (findCharacter_spec "-"%uchar _ 0 [] ("-"%uchar :: last)); [|apply leaves_start|constructor|done]. done.
Qed.

(** Ranges of the three forms are read: from a byte to a byte, from a byte on,
    and so many bytes at the end; not if a number is too large, or if the last
    byte is before the first. *)
Theorem range_read (keyword A B w1 w2 w3 w4 : list UChar) : bytesUnit keyword -> decimal A -> decimal B -> blank w1 -> blank w2 -> blank w3 -> blank w4 ->
  parseRange (keyword ++ (w1 ++ A ++ w2) ++ "-"%uchar :: w3 ++ B ++ w4) =
    (if (valueOf A <=? int64Max) && (valueOf B <=? int64Max) && (valueOf A <=? valueOf B) then (true, mkByteRange (valueOf A) (valueOf B) (-1)) else (false, noRange)) /\
  parseRange (keyword ++ (w1 ++ A ++ w2) ++ "-"%uchar :: w3) =
    (if valueOf A <=? int64Max then (true, mkByteRange (valueOf A) (-1) (-1)) else (false, noRange)) /\
  parseRange (keyword ++ "-"%uchar :: w3 ++ B ++ w4) = (true, if valueOf B <=? int64Max then mkByteRange (-1) (-1) (valueOf B) else noRange).
Proof.
  intros HK HA HB H1 H2 H3 H4. pose proof (decimal_visible A HA) as VA. pose proof (decimal_visible B HB) as VB.
  pose proof (decimal_range A HA) as RA. pose proof (decimal_range B HB) as RB.
  assert (HF : isField "-"%uchar (w1 ++ A ++ w2)) by (repeat apply Forall_app_2; first [by apply blank_field|by apply decimal_field]).
  assert (HN : w1 ++ A ++ w2 <> []) by (destruct HA as [_ HN]; by destruct w1, A).
  rewrite !parseRange_parts, parseRange_suffix by done. unfold rangeOfParts. rewrite !stripWhiteSpace_text, !toInt64Strict_decimal by done.
  rewrite (stripWhiteSpace_blank w3) by done.
  assert (HBN : exists c B', B = c :: B') by (destruct HB as [_ HBN]; destruct B; [done|eauto]). destruct HBN as (c & B' & ->). set (B := c :: B') in *.
  split_and!; destruct (Z.leb_spec (valueOf A) int64Max); destruct (Z.leb_spec (valueOf B) int64Max); cbn [negb andb]; try done;
    rewrite (proj2 (Z.ltb_ge (valueOf A) 0)) by lia; cbn [orb negb]; try done.
  rewrite (proj2 (Z.eqb_neq (valueOf B) (-1))), Z.geb_leb by lia. cbn [orb]. by destruct (valueOf A <=? valueOf B).
Qed.

(** A range that is found is one of the three forms; no value is left behind if
    none is found. *)
Lemma range_well_formed range : let '(found, r) := parseRange range in
  if found then
    (rangeOffset r = -1 /\ rangeEnd r = -1) \/
    (0 <= rangeOffset r /\ rangeSuffixLength r = -1 /\ (rangeEnd r = -1 \/ rangeOffset r <= rangeEnd r))
  else r = noRange.
Proof.
  unfold parseRange. destruct (negb _); [done|]. destruct (findCharacter _ _ _) as [[|index]|]; [| |done].
  - destruct (toInt64Strict _) as [value []]; by left.
  - destruct (toInt64Strict _) as [firstBytePos []]; [|done]. cbn [negb].
    destruct (match stripWhiteSpace _ with [] => _ | _ => _ end) as [lastBytePos []]; [|done]. cbn [negb].
    destruct (Z.ltb_spec firstBytePos 0); [done|]. cbn [orb]. rewrite Z.geb_leb.
    destruct (Z.eqb_spec lastBytePos (-1)), (Z.leb_spec firstBytePos lastBytePos); cbn [orb negb]; try done; right; cbn; lia.
Qed.
End Values.

(** ** Examples *)

#[local] Instance foldASCII : CaseFolding := toASCIILower.
#[local] Instance directionASCII : CharDirection := fun _ => false.

Lemma media_type_charset_witness :
  extractCharsetFromMediaType (str "text/html; Charset = 'utf-8'; q=1") = Some (str "utf-8").
Proof.
  destruct (media_type_charset (str "text/html; Charset = 'utf-8'; q=1") 0) as [_ HC]; [cbn; lia|].
  apply (HC (str "text/html; ")); [|exists 32; split; [done|by left]|by vm_compute].
  exists (str "Charset"), (str " "), (str " '"), (str "'; q=1"). split_and!; try done; by repeat constructor.
Defined.

Lemma range_read_example : parseRange (str "Bytes= 5 -17") = (true, mkByteRange 5 17 (-1)) /\ parseRange (str "bytes=17-5") = (false, noRange).
Proof. split; vm_compute; reflexivity. Qed.
Lemma frame_options_example : parseXFrameOptionsHeader (str "deny, DENY,,Deny") = XFrameOptionsDeny /\
  parseXFrameOptionsHeader (str "deny,deny,sameorigin") = XFrameOptionsConflict.
Proof. split; vm_compute; reflexivity. Qed.
Lemma refresh_example (D : Type) (toDouble : list UChar -> D * bool) (delay zero : D) : toDouble (str "0") = (zero, true) ->
  parseHTTPRefresh toDouble (str "0 ; URL = 'a b' ") false delay None = (true, zero, Some (str "a b")).
Proof. intros E. vm_compute in E |- *. by rewrite E. Qed.

(** ** What is not as it is meant to be *)

(** White space around the type of a disposition is removed from a copy that
    nobody looks at: with a space before the semicolon an attachment, or
    content to show inline, has no disposition.  A text of semicolons only has no
    first parameter, and the program stops. *)
Lemma disposition_keeps_white_space :
  contentDispositionType (str "attachment; filename=a") = Some ContentDispositionAttachment /\
  contentDispositionType (str "attachment ; filename=a") = Some ContentDispositionNone /\
  contentDispositionType (str "inline ; filename=a") = Some ContentDispositionNone /\
  contentDispositionType (str ";") = None.
Proof. split_and!; vm_compute; reflexivity. Qed.

(** A second hyphen is a sign: the length of a suffix can be negative, and -1
    as the last byte is the same as none.  A hyphen alone is a range without
    any value. *)
Lemma range_with_sign :
  parseRange (str "bytes=--5") = (true, mkByteRange (-1) (-1) (-5)) /\ parseRange (str "bytes=5--1") = (true, mkByteRange 5 (-1) (-1)) /\
  parseRange (str "bytes=-") = (true, noRange).
Proof. split_and!; vm_compute; reflexivity. Qed.

(** A status line without a reason phrase is its own reason phrase. *)
Lemma status_line_without_reason : extractReasonPhraseFromHTTPStatusLine (str "HTTP/1.1 200") = str "HTTP/1.1 200".
Proof. vm_compute. reflexivity. Qed.

(** The empty URL in quotation marks is a quotation mark. *)
Lemma refresh_empty_url (D : Type) (toDouble : list UChar -> D * bool) (delay zero : D) : toDouble (str "0") = (zero, true) ->
  parseHTTPRefresh toDouble (str "0; url=''") false delay None = (true, zero, Some (str "'")).
Proof. intros E. vm_compute in E |- *. by rewrite E. Qed.
