(* ===== verification/HashTable.v ===== *)
(** * Hash tables

    [wtf/HashTable.h]: open addressing with double hashing, the table behind
    every [HashSet] and [HashMap].

    A bucket holds the empty value, the deleted value or a value; the source
    asserts ([checkKey]) that keys differ from the two special values, so a
    comparison with such a bucket is false whichever test comes first.  A
    pointer to an entry is its index.  The result of an operation is [None] when a
    loop does not end within as many rounds as there are buckets and one more, when an
    index is out of range and when an assertion fails. *)

From S2P Require Import Prelude.
Open Scope Z_scope.

Inductive Bucket (V : Type) :=
  | EmptyBucket
  | DeletedBucket
  | ValueBucket (v : V).
Arguments EmptyBucket {V}.
Arguments DeletedBucket {V}.
Arguments ValueBucket {V}.

(** [m_table] is null in a table without buckets. *)
Record HashTable (V : Type) := mkHashTable {
  m_table : option (list (Bucket V));
  m_tableSize : Z;
  m_tableSizeMask : Z;
  m_keyCount : Z;
  m_deletedCount : Z
}.
Arguments mkHashTable {V}.
Arguments m_table {V}.
Arguments m_tableSize {V}.
Arguments m_tableSizeMask {V}.
Arguments m_keyCount {V}.
Arguments m_deletedCount {V}.

(** The template parameters: [HashFunctions], [Extractor], the smallest table
    of [KeyTraits], and a [HashTranslator] that looks for keys given as a [T]. *)
Class HashFunctions (K : Type) := {
  hf_hash : K -> Z;
  hf_equal : K -> K -> bool
}.
Class KeyExtractor (V K : Type) := extract : V -> K.
Class HashTraits := minimumTableSize : Z.
Class HashTranslator (K T : Type) := {
  tr_hash : T -> Z;
  tr_equal : K -> T -> bool
}.
#[global] Instance IdentityHashTranslator {K : Type} `{HashFunctions K} : HashTranslator K K := {| tr_hash := hf_hash; tr_equal := hf_equal |}.

Definition doubleHash (key : Z) : Z :=
  let key := uint32 (uint32 (Z.lnot key) + Z.shiftr key 23) in
  let key := Z.lxor key (uint32 (Z.shiftl key 12)) in
  let key := Z.lxor key (Z.shiftr key 7) in
  let key := Z.lxor key (uint32 (Z.shiftl key 2)) in
  Z.lxor key (Z.shiftr key 20).

Definition m_maxLoad : Z := 2.
Definition m_minLoad : Z := 6.

Section Table.
Context {V K : Type} `{HashFunctions K} `{KeyExtractor V K} `{HashTraits}.
Abbreviation Table := (HashTable V).

Definition newHashTable : Table := mkHashTable None 0 0 0 0.

Definition isEmptyBucket (b : Bucket V) : bool := match b with EmptyBucket => true | _ => false end.
Definition isDeletedBucket (b : Bucket V) : bool := match b with DeletedBucket => true | _ => false end.
Definition isEmptyOrDeletedBucket (b : Bucket V) : bool := isEmptyBucket b || isDeletedBucket b.

Definition shouldExpand (t : Table) : bool := int32 (int32 (m_keyCount t + m_deletedCount t) * m_maxLoad) >=? m_tableSize t.
Definition mustRehashInPlace (t : Table) : bool := int32 (m_keyCount t * m_minLoad) <? int32 (m_tableSize t * 2).
Definition shouldShrink (t : Table) : bool := (int32 (m_keyCount t * m_minLoad) <? m_tableSize t) && (m_tableSize t >? minimumTableSize).

Definition allocateTable (size : Z) : list (Bucket V) := repeat EmptyBucket (Z.to_nat size).

(** ** Looking up *)

(** The end of a round: [k] is computed once, [i] moves on. *)
Definition nextK (h k : Z) : Z := if k =? 0 then int32 (Z.lor 1 (doubleHash h)) else k.
Definition nextIndex (sizeMask i k : Z) : Z := Z.land (int32 (i + k)) sizeMask.
Definition firstIndex (sizeMask h : Z) : Z := Z.land h sizeMask.

Section Translated.
Context {T : Type} `{HashTranslator K T}.

(** Whether the bucket has the key. *)
Definition bucketEqual (b : Bucket V) (key : T) : bool := match b with ValueBucket v => tr_equal (extract v) key | _ => false end.

Fixpoint lookupLoop (fuel : nat) (table : list (Bucket V)) (sizeMask h : Z) (key : T) (k i : Z) : option (option nat) :=
  match fuel, table !! Z.to_nat i with
  | S fuel, Some entry =>
      if isEmptyBucket entry then Some None
      else if negb (isDeletedBucket entry) && bucketEqual entry key then Some (Some (Z.to_nat i))
      else let k := nextK h k in lookupLoop fuel table sizeMask h key k (nextIndex sizeMask i k)
  | _, _ => None
  end.

Definition ht_lookup (key : T) (t : Table) : option (option nat) :=
  let h := tr_hash key in
  match m_table t with
  | None => Some None
  | Some table => lookupLoop (S (length table)) table (m_tableSizeMask t) h key 0 (firstIndex (m_tableSizeMask t) h)
  end.

(** The loop of the functions that write: the entry that was found, or the empty
    bucket and the last deleted one before it. *)
Fixpoint writingLoop (fuel : nat) (table : list (Bucket V)) (sizeMask h : Z) (key : T) (deletedEntry : option nat) (k i : Z) : option (nat + nat * option nat) :=
  match fuel, table !! Z.to_nat i with
  | S fuel, Some entry =>
      if isEmptyBucket entry then Some (inr (Z.to_nat i, deletedEntry))
      else if negb (isDeletedBucket entry) && bucketEqual entry key then Some (inl (Z.to_nat i))
      else
        let deletedEntry := if isDeletedBucket entry then Some (Z.to_nat i) else deletedEntry in
        let k := nextK h k in writingLoop fuel table sizeMask h key deletedEntry k (nextIndex sizeMask i k)
  | _, _ => None
  end.

Definition probeForWriting (key : T) (t : Table) : option (nat + nat * option nat) :=
  match m_table t with
  | None => None
  | Some table => writingLoop (S (length table)) table (m_tableSizeMask t) (tr_hash key) key None 0 (firstIndex (m_tableSizeMask t) (tr_hash key))
  end.

Definition lookupForWriting (key : T) (t : Table) : option (nat * bool) :=
  match probeForWriting key t with
  | None => None
  | Some (inl i) => Some (i, true)
  | Some (inr (i, deletedEntry)) => Some (default i deletedEntry, false)
  end.

Definition fullLookupForWriting (key : T) (t : Table) : option (nat * bool * Z) :=
  match lookupForWriting key t with
  | None => None
  | Some result => Some (result, tr_hash key)
  end.

Definition ht_find (key : T) (t : Table) : option (option nat) := match m_table t with None => Some None | Some _ => ht_lookup key t end.
Definition ht_contains (key : T) (t : Table) : option bool :=
  match m_table t with
  | None => Some false
  | Some _ => match ht_lookup key t with None => None | Some entry => Some (match entry with Some _ => true | None => false end) end
  end.
End Translated.

(** ** Rehashing *)

Definition setBucket (i : nat) (b : Bucket V) (t : Table) : option Table :=
  match m_table t with
  | Some table =>
      if (i <? length table)%nat
      then Some (mkHashTable (Some (<[i := b]> table)) (m_tableSize t) (m_tableSizeMask t) (m_keyCount t) (m_deletedCount t)) else None
  | None => None
  end.

Definition bucketAt (i : nat) (t : Table) : option (Bucket V) := match m_table t with Some table => table !! i | None => None end.

Definition reinsert (v : V) (t : Table) : option (nat * Table) :=
  match lookupForWriting (extract v) t with
  | Some (newEntry, false) =>
      match bucketAt newEntry t with
      | None | Some DeletedBucket => None
      | Some _ => match setBucket newEntry (ValueBucket v) t with Some t => Some (newEntry, t) | None => None end
      end
  | _ => None
  end.

(** The loop over the old table from index [i] on; [entry] is the one to follow. *)
Fixpoint rehashLoop (oldTable : list (Bucket V)) (i : nat) (entry newEntry : option nat) (t : Table) : option (option nat * Table) :=
  match oldTable with
  | [] => Some (newEntry, t)
  | b :: oldTable =>
      match b with
      | ValueBucket v =>
          match reinsert v t with
          | None => None
          | Some (reinsertedEntry, t) =>
              if bool_decide (entry = Some i)
              then match newEntry with Some _ => None | None => rehashLoop oldTable (S i) entry (Some reinsertedEntry) t end
              else rehashLoop oldTable (S i) entry newEntry t
          end
      | _ => if bool_decide (entry = Some i) then None else rehashLoop oldTable (S i) entry newEntry t
      end
  end.

Definition rehash (newTableSize : Z) (entry : option nat) (t : Table) : option (option nat * Table) :=
  let oldTable := default [] (m_table t) in
  match rehashLoop oldTable 0 entry None (mkHashTable (Some (allocateTable newTableSize)) newTableSize (newTableSize - 1) (m_keyCount t) (m_deletedCount t)) with
  | None => None
  | Some (newEntry, t) => Some (newEntry, mkHashTable (m_table t) (m_tableSize t) (m_tableSizeMask t) (m_keyCount t) 0)
  end.

Definition expand (entry : option nat) (t : Table) : option (option nat * Table) :=
  let newSize :=
    if m_tableSize t =? 0 then minimumTableSize
    else if mustRehashInPlace t then m_tableSize t
    else int32 (m_tableSize t * 2) in
  rehash newSize entry t.

Definition shrink (t : Table) : option Table :=
  match rehash (m_tableSize t / 2) None t with Some (_, t) => Some t | None => None end.

(** ** Adding and removing *)

Section Adding.
Context {T E : Type} `{HashTranslator K T}.

(** What [add] and [addPassingHashCode] do once the bucket is known: the entry
    and the table. *)
Definition finishAdd (i : nat) (reused : bool) (v : V) (t : Table) : option (option nat * bool * Table) :=
  match setBucket i (ValueBucket v) t with
  | None => None
  | Some t =>
      let deletedCount := if reused then int32 (m_deletedCount t - 1) else m_deletedCount t in
      let t := mkHashTable (m_table t) (m_tableSize t) (m_tableSizeMask t) (int32 (m_keyCount t + 1)) deletedCount in
      if shouldExpand t
      then match expand (Some i) t with None => None | Some (entry, t) => Some (entry, true, t) end
      else Some (Some i, true, t)
  end.

Definition ensureTable (t : Table) : option Table :=
  match m_table t with
  | Some _ => Some t
  | None => match expand None t with Some (_, t) => Some t | None => None end
  end.

(** [translate] gives the value for a key that is new. *)
Definition ht_add (translate : T -> E -> V) (key : T) (extra : E) (t : Table) : option (option nat * bool * Table) :=
  match ensureTable t with
  | None => None
  | Some t =>
      match probeForWriting key t with
      | None => None
      | Some (inl i) => Some (Some i, false, t)
      | Some (inr (i, deletedEntry)) =>
          finishAdd (default i deletedEntry) (match deletedEntry with Some _ => true | None => false end) (translate key extra) t
      end
  end.

Definition addPassingHashCode (translate : T -> E -> Z -> V) (key : T) (extra : E) (t : Table) : option (option nat * bool * Table) :=
  match ensureTable t with
  | None => None
  | Some t =>
      match fullLookupForWriting key t with
      | None => None
      | Some (i, true, _) => Some (Some i, false, t)
      | Some (i, false, h) =>
          match bucketAt i t with
          | None => None
          | Some b => finishAdd i (isDeletedBucket b) (translate key extra h) t
          end
      end
  end.
End Adding.

(** [add(const ValueType&)] *)
Definition addValue (v : V) (t : Table) : option (option nat * bool * Table) := ht_add (fun _ v => v) (extract v) v t.

(** [remove] of an entry. *)
Definition removeEntry (pos : nat) (t : Table) : option Table :=
  match setBucket pos DeletedBucket t with
  | None => None
  | Some t =>
      let t := mkHashTable (m_table t) (m_tableSize t) (m_tableSizeMask t) (int32 (m_keyCount t - 1)) (int32 (m_deletedCount t + 1)) in
      if shouldShrink t then shrink t else Some t
  end.

(** [remove(iterator)]; the end is [None]. *)
Definition removeIterator (it : option nat) (t : Table) : option Table := match it with None => Some t | Some pos => removeEntry pos t end.
Definition removeKey (key : K) (t : Table) : option Table := match ht_find key t with None => None | Some it => removeIterator it t end.

(** The number of deleted buckets is not reset; the next table does that. *)
Definition ht_clear (t : Table) : Table :=
  match m_table t with
  | None => t
  | Some _ => mkHashTable None 0 0 0 (m_deletedCount t)
  end.

(** From [begin] to [end], without the empty and the deleted buckets.  [begin] of a
    table without values is its [end], where this finds no value either. *)
Definition bucketValues (b : Bucket V) : list V := match b with ValueBucket v => [v] | _ => [] end.
Definition contents (table : list (Bucket V)) : list V := concat (map bucketValues table).
Definition ht_elements (t : Table) : list V := contents (default [] (m_table t)).

Fixpoint addAllValues (vs : list V) (t : Table) : option Table :=
  match vs with
  | [] => Some t
  | v :: vs => match addValue v t with None => None | Some (_, _, t) => addAllValues vs t end
  end.
(** The copy constructor. *)
Definition copyTable (other : Table) : option Table := addAllValues (ht_elements other) newHashTable.

(** ** [checkTableConsistency] *)

Definition countBuckets (p : Bucket V -> bool) (table : list (Bucket V)) : Z := Z.of_nat (length (filter (fun b => p b = true) table)).

Definition entryConsistent (t : Table) (j : nat) (b : Bucket V) : bool :=
  match b with
  | ValueBucket v => bool_decide (ht_find (extract v) t = Some (Some j))
  | _ => true
  end.

Definition checkTableConsistencyExceptSize (t : Table) : bool :=
  match m_table t with
  | None => true
  | Some table =>
      forallb (fun p => entryConsistent t (fst p) (snd p)) (imap pair table) &&
      (countBuckets (fun b => negb (isEmptyOrDeletedBucket b)) table =? m_keyCount t) &&
      (countBuckets isDeletedBucket table =? m_deletedCount t) &&
      (m_tableSize t >=? minimumTableSize) && negb (m_tableSizeMask t =? 0) && (m_tableSize t =? m_tableSizeMask t + 1)
  end.

Definition checkTableConsistency (t : Table) : bool :=
  checkTableConsistencyExceptSize t && (match m_table t with None => true | Some _ => negb (shouldExpand t) end) && negb (shouldShrink t).
End Table.
