(* ===== verification/HashTableProbing.v ===== *)
(** * Probing a hash table

    The buckets a lookup visits, that it visits all of them because its step is
    odd and the size of the table a power of two, and what it finds. *)

From S2P Require Import Prelude HashTable.
From Stdlib Require Import Znumtheory.
Open Scope Z_scope.

(** ** The sequence of buckets *)

(** The step of double hashing and the bucket of a round in a table of size [2 ^ n]. *)
Definition step (h : Z) : Z := Z.lor 1 (doubleHash h).
Definition probe (n h : Z) (j : nat) : nat := Z.to_nat ((h + Z.of_nat j * step h) mod 2 ^ n).

Lemma step_odd h : Z.odd (step h) = true.
Proof. unfold step. by rewrite <- Z.bit0_odd, Z.lor_spec. Qed.

Lemma odd_inverse a n : Z.odd a = true -> 0 <= n -> exists u v, u * a + v * 2 ^ n = 1.
Proof.
  intros HO HN. apply Z.Bezout_coprime, Z.coprime_pow_r, Z.coprime_Bezout; [done|]. exists 1, (- (a / 2)).
  pose proof (Zmod_odd a) as HM. rewrite HO in HM. pose proof (Z.div_mod a 2 ltac:(lia)). lia.
Qed.

Lemma probe_bound n h j : 0 <= n -> (probe n h j < Z.to_nat (2 ^ n))%nat.
Proof. intros HN. unfold probe. pose proof (Z.mod_pos_bound (h + Z.of_nat j * step h) (2 ^ n) ltac:(lia)). lia. Qed.

(** Every bucket is visited in the first [2 ^ n] rounds. *)
Lemma probe_onto n h t : 0 <= n -> (t < Z.to_nat (2 ^ n))%nat -> exists j, (j < Z.to_nat (2 ^ n))%nat /\ probe n h j = t.
Proof.
  intros HN HT. assert (HP : 0 < 2 ^ n) by lia.
  destruct (odd_inverse (step h) n (step_odd h) HN) as (u & v & HB).
  set (j := ((Z.of_nat t - h) * u) mod 2 ^ n). pose proof (Z.mod_pos_bound ((Z.of_nat t - h) * u) (2 ^ n) HP) as HJ. fold j in HJ.
  exists (Z.to_nat j). split; [lia|]. unfold probe. rewrite Z2Nat.id by lia.
  assert (E : (h + j * step h) mod 2 ^ n = Z.of_nat t); [|by rewrite E, Nat2Z.id].
  unfold j. rewrite Z.add_mod, Z.mul_mod, Z.mod_mod, <- Z.mul_mod, <- Z.add_mod by lia.
  replace (h + (Z.of_nat t - h) * u * step h) with (Z.of_nat t + - ((Z.of_nat t - h) * v) * 2 ^ n).
  - rewrite Z.mod_add by lia. apply Z.mod_small. lia.
  - replace ((Z.of_nat t - h) * u * step h) with ((Z.of_nat t - h) * (u * step h)) by lia. replace (u * step h) with (1 - v * 2 ^ n) by lia. lia.
Qed.

(** ** The indices of the loops *)

Lemma int32_mod z n : 0 <= n <= 32 -> int32 z mod 2 ^ n = z mod 2 ^ n.
Proof.
  intros HN. unfold int32. assert (E : 2 ^ 32 = 2 ^ (32 - n) * 2 ^ n) by (rewrite <- Z.pow_add_r by lia; f_equal; lia).
  assert (HP : 0 < 2 ^ n) by lia. rewrite (Z.mod_eq _ (2 ^ 32)), E by lia.
  match goal with |- (?a - ?b * ?m * ?q - ?c) mod _ = _ => replace (a - b * m * q - c) with (z + - (b * q) * m) by lia end.
  apply Z.mod_add. lia.
Qed.

Lemma firstIndex_probe n h : 0 <= n -> firstIndex (2 ^ n - 1) h = Z.of_nat (probe n h 0).
Proof.
  intros HN. unfold firstIndex, probe. rewrite Z.sub_1_r, <- Z.ones_equiv, Z.land_ones by done. cbn [Z.of_nat]. rewrite Z.mul_0_l, Z.add_0_r.
  pose proof (Z.mod_pos_bound h (2 ^ n) ltac:(lia)). rewrite Z2Nat.id; [done|lia].
Qed.

(** [k] is the step from the second round on. *)
Definition stepFrom (h k : Z) : Prop := nextK h k = int32 (step h).

Lemma stepFrom_first h : stepFrom h 0.
Proof. reflexivity. Qed.

Lemma stepFrom_next h : stepFrom h (int32 (step h)).
Proof.
  unfold stepFrom, nextK. destruct (Z.eqb_spec (int32 (step h)) 0) as [E|]; [|reflexivity]. exfalso.
  pose proof (int32_mod (step h) 1 ltac:(lia)) as HM. rewrite E in HM. pose proof (step_odd h) as HO.
  change (2 ^ 1) with 2 in HM. rewrite (Zmod_odd (step h)), HO in HM. discriminate.
Qed.

Lemma nextIndex_probe n h j : 0 <= n <= 32 -> nextIndex (2 ^ n - 1) (Z.of_nat (probe n h j)) (int32 (step h)) = Z.of_nat (probe n h (S j)).
Proof.
  intros HN. assert (HP : 0 < 2 ^ n) by lia. unfold nextIndex. rewrite Z.sub_1_r, <- Z.ones_equiv, Z.land_ones, int32_mod by lia.
  unfold probe. rewrite !Z2Nat.id by (apply Z.mod_pos_bound; lia). rewrite Z.add_mod, int32_mod, Z.mod_mod, <- Z.add_mod by lia. f_equal. lia.
Qed.

(** ** What the template parameters promise *)

(** Keys stand for abstract keys; equality and hashing of valid keys see only these. *)
Class HashFunctionsOk {K : Type} `{HashFunctions K} {A : Type} `{EqDecision A} (abs : K -> A) (code : A -> Z) (valid : K -> Prop) : Prop := {
  ok_hash k : valid k -> hf_hash k = code (abs k);
  ok_equal a b : valid a -> valid b -> hf_equal a b = bool_decide (abs a = abs b)
}.
(** A translator promises it for a key of its own. *)
Class HashTranslatorOk {K T : Type} `{HashTranslator K T} {A : Type} `{EqDecision A} (abs : K -> A) (tabs : T -> A) (code : A -> Z) (valid : K -> Prop) (key : T) : Prop := {
  ok_tr_hash : tr_hash key = code (tabs key);
  ok_tr_equal k : valid k -> tr_equal k key = bool_decide (abs k = tabs key)
}.
Lemma identityOk {K A : Type} `{HashFunctions K} `{EqDecision A} (abs : K -> A) (code : A -> Z) (valid : K -> Prop) `{!HashFunctionsOk abs code valid} (key : K) :
  valid key -> HashTranslatorOk abs abs code valid key.
Proof. intros HV. split; [by apply ok_hash|intros k HK; by apply ok_equal]. Qed.

Section Loops.
Context {V K : Type} `{HashFunctions K} `{KeyExtractor V K} {A : Type} `{EqDecision A} (abs : K -> A) (code : A -> Z) (valid : K -> Prop).
Implicit Types (table : list (Bucket V)) (v : V).

Definition keyOf v : A := abs (extract v).
Definition hashOf v : Z := code (keyOf v).

(** Buckets a lookup for a key passes. *)
Definition passes (key : A) (b : Bucket V) : Prop :=
  match b with
  | EmptyBucket => False
  | DeletedBucket => True
  | ValueBucket v => keyOf v <> key
  end.

(** The first round that does not pass, from round [j] on. *)
Definition stopsAt table n h (key : A) (j j1 : nat) (b : Bucket V) : Prop :=
  (j <= j1)%nat /\ table !! probe n h j1 = Some b /\ ~ passes key b /\
  forall j2, (j <= j2 < j1)%nat -> exists b2, table !! probe n h j2 = Some b2 /\ passes key b2.

Lemma stopsAt_here table n h key j b : table !! probe n h j = Some b -> ~ passes key b -> stopsAt table n h key j j b.
Proof. intros HB HP. split_and!; try done. intros j2 ?. lia. Qed.
Lemma stopsAt_later table n h key j j1 b b0 : table !! probe n h j = Some b0 -> passes key b0 -> stopsAt table n h key (S j) j1 b -> stopsAt table n h key j j1 b.
Proof.
  intros HB HP (HJ & HB1 & HP1 & HA). split_and!; try done; [lia|]. intros j2 HJ2. destruct (decide (j2 = j)) as [->|]; [by exists b0|]. apply HA. lia.
Qed.

Section Translated.
Context {T : Type} `{HashTranslator K T} (tabs : T -> A).
Variables (n h : Z).
Hypothesis n_range : 0 <= n <= 32.
Variables (table : list (Bucket V)) (key : T).
Context `{!HashTranslatorOk abs tabs code valid key}.
Hypothesis table_valid : forall i v, table !! i = Some (ValueBucket v) -> valid (extract v).
Hypothesis table_length : length table = Z.to_nat (2 ^ n).

Lemma bucketEqual_spec i b : table !! i = Some b -> bucketEqual b key = match b with ValueBucket v => bool_decide (keyOf v = tabs key) | _ => false end.
Proof. intros HB. destruct b as [| |v]; [done..|]. unfold keyOf. apply (ok_tr_equal (abs := abs) (code := code)). by apply (table_valid i). Qed.

Lemma probed j : exists b, table !! probe n h j = Some b.
Proof. apply lookup_lt_is_Some. rewrite table_length. apply probe_bound. lia. Qed.

(** An empty bucket within the fuel. *)
Definition emptyWithin (fuel j : nat) : Prop := exists j', (j <= j' < j + fuel)%nat /\ table !! probe n h j' = Some EmptyBucket.

Lemma emptyWithin_next fuel j b : emptyWithin (S fuel) j -> table !! probe n h j = Some b -> b <> EmptyBucket -> emptyWithin fuel (S j).
Proof.
  intros (j' & HJ & HE) HB HN. exists j'. split; [|done]. destruct (decide (j' = j)) as [->|]; [|lia]. rewrite HE in HB. by injection HB as <-.
Qed.

Lemma lookupLoop_spec fuel : forall j k, stepFrom h k -> emptyWithin fuel j ->
  exists j1 b, stopsAt table n h (tabs key) j j1 b /\
    lookupLoop fuel table (2 ^ n - 1) h key k (Z.of_nat (probe n h j)) = Some (if isEmptyBucket b then None else Some (probe n h j1)).
Proof.
  induction fuel as [|fuel IH]; intros j k HK0 HE; [destruct HE as (j' & HJ & _); lia|]. cbn [lookupLoop]. rewrite Nat2Z.id.
  destruct (probed j) as (b & HB). rewrite HB, (bucketEqual_spec _ b HB), HK0, nextIndex_probe by lia.
  assert (HL : passes (tabs key) b -> b <> EmptyBucket -> exists j1 b1, stopsAt table n h (tabs key) j j1 b1 /\
    lookupLoop fuel table (2 ^ n - 1) h key (int32 (step h)) (Z.of_nat (probe n h (S j))) = Some (if isEmptyBucket b1 then None else Some (probe n h j1))).
  { intros HP HN. destruct (IH (S j) _ (stepFrom_next h) (emptyWithin_next fuel j b HE HB HN)) as (j1 & b1 & HS & HR).  exists j1, b1. split; [by eapply stopsAt_later|exact HR]. }
  destruct b as [| |v]; cbn [isEmptyBucket isDeletedBucket negb andb].
  - exists j, EmptyBucket. split; [by apply stopsAt_here; [|intros []]|done].
  - by apply HL.
  - case_bool_decide as HK; [|by apply HL]. exists j, (ValueBucket v). split; [by apply stopsAt_here; [|intros []]|done].
Qed.

(** The deleted bucket that is remembered. *)
Definition remembered (j j1 : nat) (d d' : option nat) : Prop :=
  d' = d \/ exists j2, (j <= j2 < j1)%nat /\ d' = Some (probe n h j2) /\ table !! probe n h j2 = Some DeletedBucket.

Lemma writingLoop_spec fuel : forall j k d, stepFrom h k -> emptyWithin fuel j ->
  exists j1 b d', stopsAt table n h (tabs key) j j1 b /\ remembered j j1 d d' /\
    writingLoop fuel table (2 ^ n - 1) h key d k (Z.of_nat (probe n h j)) = Some (if isEmptyBucket b then inr (probe n h j1, d') else inl (probe n h j1)).
Proof.
  induction fuel as [|fuel IH]; intros j k d HK0 HE; [destruct HE as (j' & HJ & _); lia|]. cbn [writingLoop]. rewrite Nat2Z.id.
  destruct (probed j) as (b & HB). rewrite HB, (bucketEqual_spec _ b HB), HK0, nextIndex_probe by lia.
  assert (HL : forall d1, passes (tabs key) b -> b <> EmptyBucket -> remembered j (S j) d d1 -> exists j1 b1 d', stopsAt table n h (tabs key) j j1 b1 /\ remembered j j1 d d' /\
    writingLoop fuel table (2 ^ n - 1) h key d1 (int32 (step h)) (Z.of_nat (probe n h (S j))) = Some (if isEmptyBucket b1 then inr (probe n h j1, d') else inl (probe n h j1))).
  { intros d1 HP HN HD. destruct (IH (S j) _ d1 (stepFrom_next h) (emptyWithin_next fuel j b HE HB HN)) as (j1 & b1 & d' & HS & HD' & HR).  exists j1, b1, d'.
    split; [by eapply stopsAt_later|]. split; [|exact HR]. destruct HS as (HJ & _). destruct HD' as [->|(j2 & ? & ?)]; [|right; exists j2; split; [lia|done]].
    destruct HD as [->|(j2 & ? & ?)]; [by left|right; exists j2; split; [lia|done]]. }
  destruct b as [| |v]; cbn [isEmptyBucket isDeletedBucket negb andb].
  - exists j, EmptyBucket, d. split_and!; [by apply stopsAt_here; [|intros []]|by left|done].
  - apply HL; [done..|]. right. exists j. split; [lia|done].
  - case_bool_decide as HK; [|apply HL; [done..|by left]]. exists j, (ValueBucket v), d. split_and!; [by apply stopsAt_here; [|intros []]|by left|done].
Qed.
End Translated.
End Loops.
