(* ===== verification/HashTableSpec.v ===== *)
(** * Hash tables are maps

    The invariant of a hash table, what each operation does to the finite map of
    its values by their keys, and that every sequence of operations is one on
    that map. *)

From S2P Require Import Prelude HashTable HashTableProbing.
From stdpp Require Import gmap.
Open Scope Z_scope.

(** ** Counting buckets *)

Section Counting.
Context {V : Type}.
Implicit Types (table : list (Bucket V)) (b : Bucket V).

Definition deleted table : nat := length (filter (fun b => isDeletedBucket b = true) table).

Lemma countBuckets_deleted table : countBuckets isDeletedBucket table = Z.of_nat (deleted table).
Proof. done. Qed.

Lemma contents_app (t1 t2 : list (Bucket V)) : contents (t1 ++ t2) = contents t1 ++ contents t2.
Proof. unfold contents. by rewrite map_app, concat_app. Qed.
Lemma contents_cons b table : contents (b :: table) = bucketValues b ++ contents table.
Proof. done. Qed.
Lemma deleted_app (t1 t2 : list (Bucket V)) : deleted (t1 ++ t2) = (deleted t1 + deleted t2)%nat.
Proof. unfold deleted. by rewrite filter_app, length_app. Qed.
Lemma deleted_cons b table : deleted (b :: table) = (Nat.b2n (isDeletedBucket b) + deleted table)%nat.
Proof. unfold deleted. rewrite filter_cons. by destruct b. Qed.

Lemma elem_contents table v : v ∈ contents table <-> exists i, table !! i = Some (ValueBucket v).
Proof.
  induction table as [|b table IH]; [split; [by intros ?%not_elem_of_nil|by intros [i ?]]|]. rewrite contents_cons, elem_of_app, IH. split.
  - intros [HV|[i HI]]; [|by exists (S i)]. exists 0%nat. destruct b; cbn in HV; [by apply not_elem_of_nil in HV..|]. by apply list_elem_of_singleton in HV as ->.
  - intros [[|i] HI]; [left|right; by exists i]. injection HI as ->. by apply list_elem_of_singleton.
Qed.

Lemma bucket_split table i b : table !! i = Some b -> table = take i table ++ b :: drop (S i) table.
Proof. intros HB. symmetry. by apply take_drop_middle. Qed.

(** A bucket that is replaced. *)
Lemma replace_contents table i b b' : table !! i = Some b -> bucketValues b' ++ contents table ≡ₚ bucketValues b ++ contents (<[i := b']> table).
Proof.
  intros HB. pose proof (lookup_lt_Some _ _ _ HB) as HL. rewrite (insert_take_drop table i b' HL). rewrite (bucket_split table i b HB) at 1.
  rewrite !contents_app, !contents_cons, !(Permutation_app_swap_app (contents (take i table))). apply Permutation_app_swap_app.
Qed.
Lemma replace_deleted table i b b' : table !! i = Some b ->
  (Nat.b2n (isDeletedBucket b') + deleted table = Nat.b2n (isDeletedBucket b) + deleted (<[i := b']> table))%nat.
Proof.
  intros HB. pose proof (lookup_lt_Some _ _ _ HB) as HL. rewrite (insert_take_drop table i b' HL). rewrite (bucket_split table i b HB) at 1.
  rewrite !deleted_app, !deleted_cons. lia.
Qed.

(** A table that is not full has an empty bucket. *)
Lemma empty_exists table : (length (contents table) + deleted table < length table)%nat -> exists i, table !! i = Some EmptyBucket.
Proof.
  induction table as [|b table IH]; [cbn; lia|]. rewrite contents_cons, deleted_cons, length_app. cbn [length]. intros HL.
  destruct b; [by exists 0%nat| |]; cbn in HL; (destruct IH as [i HI]; [lia|by exists (S i)]).
Qed.

Lemma contents_allocate size : contents (V := V) (allocateTable size) = [] /\ deleted (allocateTable size) = 0%nat.
Proof. unfold allocateTable. induction (Z.to_nat size) as [|n [IH1 IH2]]; [done|]. cbn [repeat]. by rewrite contents_cons, deleted_cons, IH1, IH2. Qed.
Lemma allocate_lookup size i b : allocateTable (V := V) size !! i = Some b -> b = EmptyBucket.
Proof. intros HB%list_elem_of_lookup_2%list_elem_of_In. by apply repeat_spec in HB. Qed.
End Counting.

Class HashTraitsOk `{HashTraits} : Prop := minimum_ok : exists m, minimumTableSize = 2 ^ m /\ 3 <= m <= 20.

Section Spec.
Context {V K : Type} `{HashFunctions K} `{KeyExtractor V K} `{!HashTraits} `{!HashTraitsOk}.
Context {A : Type} `{Countable A} (abs : K -> A) (code : A -> Z) (valid : K -> Prop) `{!HashFunctionsOk abs code valid}.
Implicit Types (table : list (Bucket V)) (v : V) (t : HashTable V) (κ : A).
Abbreviation keyOf := (keyOf abs).
Abbreviation hashOf := (hashOf abs code).
Abbreviation stopsAt := (stopsAt abs).

(** ** The buckets *)

(** The way to a bucket from the hash code has no empty bucket. *)
Definition reachable (n : Z) table (h : Z) (i : nat) : Prop :=
  exists j, probe n h j = i /\ forall j', (j' < j)%nat -> table !! probe n h j' <> Some EmptyBucket.

Record buckets_ok (n : Z) table : Prop := {
  bk_range : 0 <= n <= 30;
  bk_length : length table = Z.to_nat (2 ^ n);
  bk_reach i v : table !! i = Some (ValueBucket v) -> reachable n table (hashOf v) i;
  bk_keys : NoDup (keyOf <$> contents table);
  bk_valid i v : table !! i = Some (ValueBucket v) -> valid (extract v)
}.

(** Values that may be in one table. *)
Definition goodValues (vs : list V) : Prop := NoDup (keyOf <$> vs) /\ Forall (fun v => valid (extract v)) vs.
Lemma buckets_good n table : buckets_ok n table -> goodValues (contents table).
Proof. intros [_ _ _ HK HV]. split; [done|]. apply Forall_forall. intros v [i HI]%elem_contents. by eapply HV. Qed.

Definition absent κ table : Prop := forall v, v ∈ contents table -> keyOf v <> κ.

(** Where the loops stop. *)
Lemma stops_verdict n table κ j1 b : buckets_ok n table -> stopsAt table n (code κ) κ 0 j1 b ->
  match b with EmptyBucket => absent κ table | DeletedBucket => False | ValueBucket v => keyOf v = κ end.
Proof.
  intros HO (_ & HB & HP & HA). destruct b as [| |v]; cbn in HP; [|tauto|by destruct (decide (keyOf v = κ))].
  intros v HV HK. apply elem_contents in HV as [i HI]. destruct (bk_reach n table HO i v HI) as (j & HJ & HE).
  unfold HashTableProbing.hashOf in HJ, HE. rewrite HK in HJ, HE. destruct (lt_eq_lt_dec j j1) as [[HL|HL]|HL].
  - destruct (HA j) as (b2 & HB2 & HP2); [lia|]. rewrite HJ, HI in HB2. injection HB2 as <-. by apply HP2.
  - subst j. rewrite HJ in HB. by rewrite HI in HB.
  - by destruct (HE j1 HL).
Qed.

Lemma stops_path n table κ j1 b : stopsAt table n (code κ) κ 0 j1 b -> forall j, (j < j1)%nat -> table !! probe n (code κ) j <> Some EmptyBucket.
Proof. intros (_ & _ & _ & HA) j HJ. destruct (HA j) as (b2 & -> & HP); [lia|]. intros [= ->]. done. Qed.

Lemma empty_within n table h : buckets_ok n table -> (length (contents table) + deleted table < length table)%nat -> emptyWithin n h table (S (length table)) 0.
Proof.
  intros HO HL. destruct (empty_exists table HL) as [i HI]. pose proof (lookup_lt_Some _ _ _ HI) as HB. pose proof (bk_range n table HO). rewrite (bk_length n table HO) in HB.
  destruct (probe_onto n h i ltac:(lia) HB) as (j & HJ & HP). exists j. rewrite HP. split; [|done]. rewrite (bk_length n table HO). lia.
Qed.

(** A bucket that can take a value of the key. *)
Record insertable (n : Z) table κ (i : nat) (reused : bool) : Prop := {
  ins_bucket : table !! i = Some (if reused then DeletedBucket else EmptyBucket);
  ins_reach : reachable n table (code κ) i;
  ins_absent : absent κ table
}.

(** A value is added. *)
Lemma insert_ok n table i reused v : valid (extract v) -> buckets_ok n table -> insertable n table (keyOf v) i reused -> buckets_ok n (<[i := ValueBucket v]> table).
Proof.
  intros HVa [HR HL HE HK HVs] [HB HI HA]. pose proof (lookup_lt_Some _ _ _ HB) as HLt.
  assert (HStay : forall h i', reachable n table h i' -> reachable n (<[i := ValueBucket v]> table) h i').
  { intros h i' (j & HJ & HN). exists j. split; [done|]. intros j' HJ'. destruct (decide (probe n h j' = i)) as [->|]; [by rewrite list_lookup_insert_eq|].
    rewrite list_lookup_insert_ne by done. by apply HN. }
  split; [done|by rewrite length_insert| | |].
  - intros i' v' HV. apply HStay. destruct (decide (i' = i)) as [->|]; [|apply HE; by rewrite list_lookup_insert_ne in HV].
    rewrite list_lookup_insert_eq in HV by done. by injection HV as <-.
  - pose proof (replace_contents table i _ (ValueBucket v) HB) as HP. replace (bucketValues _ ++ contents (<[i:=_]> table)) with (contents (<[i:=ValueBucket v]> table)) in HP by by destruct reused.
    rewrite <- HP. cbn. constructor; [|done]. rewrite list_elem_of_fmap. intros (v' & HV & HC). by apply (HA v' HC).
  - intros i' v' HV. destruct (decide (i' = i)) as [->|]; [|rewrite list_lookup_insert_ne in HV by done; by eapply HVs].
    rewrite list_lookup_insert_eq in HV by done. by injection HV as <-.
Qed.

(** A value is removed. *)
Lemma delete_ok n table i v : buckets_ok n table -> table !! i = Some (ValueBucket v) -> buckets_ok n (<[i := DeletedBucket]> table).
Proof.
  intros [HR HL HE HK HVs] HB. pose proof (lookup_lt_Some _ _ _ HB) as HLt. split; [done|by rewrite length_insert| | |].
  - intros i' v' HV. destruct (decide (i' = i)) as [->|HN]; [by rewrite list_lookup_insert_eq in HV|]. rewrite list_lookup_insert_ne in HV by done.
    destruct (HE i' v' HV) as (j & HJ & HP). exists j. split; [done|]. intros j' HJ'. destruct (decide (probe n (hashOf v') j' = i)) as [->|]; [by rewrite list_lookup_insert_eq|].
    rewrite list_lookup_insert_ne by done. by apply HP.
  - pose proof (replace_contents table i _ DeletedBucket HB) as HP. cbn in HP. rewrite HP in HK. by apply NoDup_cons in HK as [_ HK].
  - intros i' v' HV. destruct (decide (i' = i)) as [->|]; [by rewrite list_lookup_insert_eq in HV|]. rewrite list_lookup_insert_ne in HV by done. by eapply HVs.
Qed.

(** A value is replaced by another of the same key. *)
Lemma replace_ok n table i v v' : valid (extract v') -> buckets_ok n table -> table !! i = Some (ValueBucket v) -> keyOf v' = keyOf v -> buckets_ok n (<[i := ValueBucket v']> table).
Proof.
  intros HVa [HR HL HE HN HVs] HB HK. pose proof (lookup_lt_Some _ _ _ HB) as HLt. split; [done|by rewrite length_insert| | |].
  - intros i' w HV. assert (HW : reachable n table (hashOf w) i').
    { destruct (decide (i' = i)) as [->|]; [|apply HE; by rewrite list_lookup_insert_ne in HV]. rewrite list_lookup_insert_eq in HV by done. injection HV as <-.
      unfold HashTableProbing.hashOf. rewrite HK. by apply HE. }
    destruct HW as (j & HJ & HP). exists j. split; [done|]. intros j' HJ'. destruct (decide (probe n (hashOf w) j' = i)) as [->|]; [by rewrite list_lookup_insert_eq|].
    rewrite list_lookup_insert_ne by done. by apply HP.
  - pose proof (fmap_Permutation keyOf _ _ (replace_contents table i _ (ValueBucket v') HB)) as HP. cbn in HP. rewrite HK in HP. apply Permutation_cons_inv in HP. by rewrite <- HP.
  - intros i' w HV. destruct (decide (i' = i)) as [->|]; [|rewrite list_lookup_insert_ne in HV by done; by eapply HVs].
    rewrite list_lookup_insert_eq in HV by done. by injection HV as <-.
Qed.

(** ** The loops over a table *)

Definition roomy table : Prop := (length (contents table) + deleted table < length table)%nat.
Definition hasTable (n : Z) table t : Prop := m_table t = Some table /\ m_tableSize t = 2 ^ n /\ m_tableSizeMask t = 2 ^ n - 1.
Definition isPresent {B : Type} (o : option B) : bool := match o with Some _ => true | None => false end.

Section Translated.
Context {T : Type} `{HashTranslator K T} (tabs : T -> A).

Definition foundIn table (key : T) (i : nat) : Prop := exists v, table !! i = Some (ValueBucket v) /\ keyOf v = tabs key.

Lemma lookup_spec n table t key `{!HashTranslatorOk abs tabs code valid key} : hasTable n table t -> buckets_ok n table -> roomy table ->
  exists r, ht_lookup key t = Some r /\ match r with Some i => foundIn table key i | None => absent (tabs key) table end.
Proof.
  intros (HT & _ & HM) HO HR. unfold ht_lookup. pose proof (bk_range n table HO). rewrite HT, HM, (ok_tr_hash (tabs := tabs)), firstIndex_probe by lia.
  destruct (lookupLoop_spec abs code valid tabs n (code (tabs key)) ltac:(lia) table key (bk_valid n table HO) (bk_length n table HO) (S (length table)) 0 0 (stepFrom_first _) (empty_within n table _ HO HR))
    as (j1 & b & HS & ->). eexists. split; [done|]. pose proof (stops_verdict n table (tabs key) j1 b HO HS) as HV. destruct b as [| |v]; [done..|].
  exists v. split; [|done]. apply HS.
Qed.

Lemma probeForWriting_spec n table t key `{!HashTranslatorOk abs tabs code valid key} : hasTable n table t -> buckets_ok n table -> roomy table ->
  exists r, probeForWriting key t = Some r /\
    match r with inl i => foundIn table key i | inr (i, d) => insertable n table (tabs key) (default i d) (isPresent d) end.
Proof.
  intros (HT & _ & HM) HO HR. unfold probeForWriting. pose proof (bk_range n table HO). rewrite HT, HM, (ok_tr_hash (tabs := tabs)), firstIndex_probe by lia.
  destruct (writingLoop_spec abs code valid tabs n (code (tabs key)) ltac:(lia) table key (bk_valid n table HO) (bk_length n table HO) (S (length table)) 0 0 None (stepFrom_first _) (empty_within n table _ HO HR))
    as (j1 & b & d & HS & HD & ->). eexists. split; [done|]. pose proof (stops_verdict n table (tabs key) j1 b HO HS) as HV.
  pose proof (stops_path n table (tabs key) j1 b HS) as HP. destruct b as [| |v]; cbn [isEmptyBucket]; [|done|exists v; split; [apply HS|done]].
  destruct HD as [->|(j2 & HJ2 & -> & HB2)]; split; try done; [apply HS|by exists j1|]. exists j2. split; [done|]. intros j' HJ'. apply HP. lia.
Qed.
End Translated.

(** ** Rehashing *)

(** A value that is put into a table without deleted buckets. *)
Lemma reinsert_spec n table t v : hasTable n table t -> buckets_ok n table -> roomy table -> deleted table = 0%nat -> absent (keyOf v) table -> valid (extract v) ->
  exists i, insertable n table (keyOf v) i false /\
    reinsert v t = Some (i, mkHashTable (Some (<[i := ValueBucket v]> table)) (m_tableSize t) (m_tableSizeMask t) (m_keyCount t) (m_deletedCount t)).
Proof.
  intros HT HO HR HD HA HV. pose proof (identityOk abs code valid (extract v) HV). destruct (probeForWriting_spec abs n table t (extract v) HT HO HR) as (r & HP & HS).
  unfold reinsert, lookupForWriting, bucketAt, setBucket. rewrite HP. destruct HT as (HT & _). destruct r as [i|[i d]].
  { destruct HS as (v' & HI & HK). destruct (HA v'); [apply elem_contents; by exists i|done]. }
  assert (HN : isPresent d = false).
  { destruct d as [d|]; [|done]. destruct HS as [HB _ _]. cbn in HB. pose proof (replace_deleted table d _ EmptyBucket HB) as HX. cbn in HX. lia. }
  rewrite HN in HS. pose proof (ins_bucket _ _ _ _ _ HS) as HB. exists (default i d). split; [done|]. rewrite HT, HB. cbn [m_table].
  by rewrite (proj2 (Nat.ltb_lt _ _) (lookup_lt_Some _ _ _ HB)).
Qed.

(** The entry that is followed is still ahead, or has been put into the table. *)
Definition follows (entry : option nat) (i : nat) (newEntry : option nat) (old table : list (Bucket V)) (w : option V) : Prop :=
  match entry, w with
  | None, _ => newEntry = None
  | Some e, Some v0 =>
      ((i <= e)%nat /\ newEntry = None /\ old !! (e - i)%nat = Some (ValueBucket v0)) \/
      ((e < i)%nat /\ exists i', newEntry = Some i' /\ table !! i' = Some (ValueBucket v0))
  | Some _, None => False
  end.

Lemma follows_skip entry i newEntry b old table w : follows entry i newEntry (b :: old) table w -> (forall v, b <> ValueBucket v) ->
  entry <> Some i /\ follows entry (S i) newEntry old table w.
Proof.
  destruct entry as [e|]; [|done]. destruct w as [v0|]; [|done]. intros [(HI & HN & HB)|(HI & HN)] HV.
  - destruct (decide (e = i)) as [->|HE]; [rewrite Nat.sub_diag in HB; injection HB as ->; by destruct (HV v0)|]. split; [congruence|]. left.
    replace (e - i)%nat with (S (e - S i)) in HB by lia. split_and!; [lia|done|done].
  - split; [intros [= ->]; lia|]. right. split; [lia|done].
Qed.

Lemma follows_put entry i newEntry v old table i1 w : follows entry i newEntry (ValueBucket v :: old) table w -> table !! i1 = Some EmptyBucket ->
  (entry = Some i -> newEntry = None) /\
  follows entry (S i) (if bool_decide (entry = Some i) then Some i1 else newEntry) old (<[i1 := ValueBucket v]> table) w.
Proof.
  destruct entry as [e|]; [|done]. destruct w as [v0|]; [|done]. intros HF HI1. pose proof (lookup_lt_Some _ _ _ HI1) as HL. split.
  { intros [= ->]. destruct HF as [(_ & -> & _)|(? & _)]; [done|lia]. }
  destruct HF as [(HI & -> & HB)|(HI & i' & -> & HT)]; case_bool_decide as HE.
  - injection HE as ->. rewrite Nat.sub_diag in HB. injection HB as ->. right. split; [lia|]. exists i1. by rewrite list_lookup_insert_eq.
  - assert (e <> i) by congruence. left. replace (e - i)%nat with (S (e - S i)) in HB by lia. split_and!; [lia|done|done].
  - injection HE as ->. lia.
  - right. split; [lia|]. exists i'. split; [done|]. rewrite list_lookup_insert_ne; [done|]. intros ->. by rewrite HT in HI1.
Qed.

Lemma rehashLoop_spec n entry w old : forall i newEntry table t,
  hasTable n table t -> buckets_ok n table -> deleted table = 0%nat -> goodValues (contents table ++ contents old) ->
  (length (contents table) + length (contents old) < length table)%nat -> follows entry i newEntry old table w ->
  exists newEntry' table', rehashLoop old i entry newEntry t = Some (newEntry', mkHashTable (Some table') (m_tableSize t) (m_tableSizeMask t) (m_keyCount t) (m_deletedCount t)) /\
    buckets_ok n table' /\ deleted table' = 0%nat /\ contents table' ≡ₚ contents table ++ contents old /\ follows entry (i + length old) newEntry' [] table' w.
Proof.
  induction old as [|b old IH]; intros i newEntry table t HT HO HD HK HL HF.
  { exists newEntry, table. cbn [rehashLoop length]. rewrite Nat.add_0_r, app_nil_r. split_and!; try done. destruct t, HT as (HT & _). cbn in *. by subst. }
  rewrite contents_cons in *. cbn [rehashLoop length]. rewrite <- Nat.add_succ_comm. destruct b as [| |v].
  1-2: destruct (follows_skip _ _ _ _ _ _ _ HF) as [HE HF']; [done|]; rewrite (bool_decide_false _ HE); by apply IH.
  cbn [bucketValues app length] in *. destruct HK as [HK HV]. pose proof (proj1 (Forall_app _ _ _) HV) as [_ [HVv _]%Forall_cons].
  destruct (reinsert_spec n table t v HT HO) as (i1 & HI & ER); [unfold roomy; lia|done| |done|].
  { intros v' HV' HK'. rewrite fmap_app, fmap_cons in HK. apply NoDup_app in HK as (_ & HK & _). apply (HK (keyOf v')); [by apply list_elem_of_fmap_2|]. rewrite HK'. left. }
  rewrite ER. pose proof (ins_bucket _ _ _ _ _ HI) as HB. cbn in HB. destruct (follows_put _ _ _ _ _ _ i1 _ HF HB) as [HE HF'].
  pose proof (replace_contents table i1 _ (ValueBucket v) HB) as HC. cbn in HC. pose proof (replace_deleted table i1 _ (ValueBucket v) HB) as HX. cbn in HX.
  set (t1 := mkHashTable _ _ _ _ _). set (table1 := <[i1 := ValueBucket v]> table) in *.
  destruct (IH (S i) (if bool_decide (entry = Some i) then Some i1 else newEntry) table1 t1) as (ne & table' & EL & HO' & HD' & HC' & HF2); try done.
  - destruct HT as (_ & ? & ?). done.
  - by eapply insert_ok.
  - lia.
  - rewrite <- Permutation_middle in HK, HV. unfold goodValues. by rewrite <- HC.
  - rewrite <- HC. cbn [length]. unfold table1. rewrite length_insert. lia.
  - exists ne, table'. split_and!; try done.
    + destruct (bool_decide (entry = Some i)) eqn:EB; [|done]. apply bool_decide_eq_true in EB. rewrite (HE EB). done.
    + rewrite HC', <- HC. cbn [app]. by rewrite Permutation_middle.
Qed.

Lemma allocate_ok n : 0 <= n <= 30 -> buckets_ok n (allocateTable (2 ^ n)).
Proof.
  intros HN. split; [done|by unfold allocateTable; rewrite repeat_length| |rewrite (proj1 (contents_allocate _)); constructor|]; intros i v HV%allocate_lookup; done.
Qed.

Lemma rehash_spec n entry w t : 0 <= n <= 30 -> let old := default [] (m_table t) in
  goodValues (contents old) -> Z.of_nat (length (contents old)) < 2 ^ n -> follows entry 0 None old [] w ->
  exists newEntry table', rehash (2 ^ n) entry t = Some (newEntry, mkHashTable (Some table') (2 ^ n) (2 ^ n - 1) (m_keyCount t) 0) /\
    buckets_ok n table' /\ deleted table' = 0%nat /\ contents table' ≡ₚ contents old /\ follows entry (length old) newEntry [] table' w.
Proof.
  intros HN old HK HL HF. unfold rehash. fold old. set (t0 := mkHashTable _ _ _ _ _). destruct (contents_allocate (V := V) (2 ^ n)) as [EC ED].
  destruct (rehashLoop_spec n entry w old 0 None (allocateTable (2 ^ n)) t0) as (ne & table' & EL & HO & HD & HC & HF'); try done.
  - by apply allocate_ok.
  - by rewrite EC.
  - rewrite EC. unfold allocateTable. rewrite repeat_length. cbn [length]. lia.
  - destruct entry as [e|]; [|done]. destruct w as [v0|]; [|done]. destruct HF as [HF|(? & _)]; [by left|lia].
  - rewrite EC in HC. exists ne, table'. rewrite EL. by split_and!.
Qed.

(** ** The invariant *)

Record table_wf (n : Z) table t : Prop := {
  wf_has : hasTable n table t;
  wf_buckets : buckets_ok n table;
  wf_keys : m_keyCount t = Z.of_nat (length (contents table));
  wf_deleted : m_deletedCount t = Z.of_nat (deleted table);
  wf_load : (m_keyCount t + m_deletedCount t) * 2 < 2 ^ n;
  wf_minimum : minimumTableSize <= 2 ^ n;
  wf_small : 2 ^ n = minimumTableSize \/ 2 ^ n <= 6 * m_keyCount t
}.

(** Without buckets the number of deleted ones is left from earlier. *)
Definition ht_wf t : Prop :=
  match m_table t with
  | None => m_tableSize t = 0 /\ m_tableSizeMask t = 0 /\ m_keyCount t = 0
  | Some table => exists n, table_wf n table t
  end.

(** Tables far from the limits of [int]. *)
Definition manyKeys : Z := 2 ^ 24.

Lemma table_roomy n table t : table_wf n table t -> roomy table.
Proof. intros []. unfold roomy. rewrite (bk_length n table) by done. lia. Qed.

Lemma minimum_range : 8 <= minimumTableSize < 2 ^ 27.
Proof.
  destruct minimum_ok as (m & -> & HM). split; [apply (Z.pow_le_mono_r 2 3 m); lia|]. apply Z.pow_lt_mono_r; lia.
Qed.

Lemma table_size n table t : table_wf n table t -> m_keyCount t <= manyKeys -> 8 <= 2 ^ n < 2 ^ 27 /\ n < 27.
Proof.
  intros [] HK. pose proof minimum_range. unfold manyKeys in HK. assert (HS : 2 ^ n < 2 ^ 27) by lia. split; [lia|]. apply (Z.pow_lt_mono_r_iff 2); [lia|lia|done].
Qed.

(** The new table of [rehash] is one. *)
Lemma rehashed_wf n table' t kc : buckets_ok n table' -> deleted table' = 0%nat -> kc = Z.of_nat (length (contents table')) -> kc * 2 < 2 ^ n ->
  minimumTableSize <= 2 ^ n -> 2 ^ n = minimumTableSize \/ 2 ^ n <= 6 * kc -> t = mkHashTable (Some table') (2 ^ n) (2 ^ n - 1) kc 0 -> table_wf n table' t.
Proof. intros HO HD HK HL HM HS ->. split; cbn; try done; lia. Qed.

(** ** Adding *)

Lemma ensureTable_spec t : ht_wf t -> exists n table t', ensureTable t = Some t' /\ table_wf n table t' /\ m_table t' = Some table /\
  m_keyCount t' = m_keyCount t /\ contents table = contents (default [] (m_table t)).
Proof.
  intros HW. unfold ht_wf in HW. unfold ensureTable. destruct (m_table t) as [table|] eqn:ET.
  { destruct HW as [n HW]. by exists n, table, t. }
  destruct HW as (HS & HM & HC). unfold expand. rewrite HS. cbn [Z.eqb]. destruct minimum_ok as (m & HE & HR). pose proof minimum_range as HMR. rewrite HE in *.
  destruct (rehash_spec m None None t) as (ne & table' & -> & HO & HD & HP & HF); [lia|rewrite ET; by split; constructor|rewrite ET; cbn; lia|done|]. rewrite ET in HP. cbn in HP.
  apply Permutation_nil_r in HP. exists m, table'. eexists. split; [done|]. split; [|by rewrite HP].
  apply (rehashed_wf m table' _ (m_keyCount t) HO HD); [rewrite HP, HC; done|rewrite HC; lia|rewrite HE; lia|by left|done].
Qed.

(** After a value was put into a bucket: the counts before the table may grow. *)
Definition inserted (i : nat) (reused : bool) v table t : HashTable V :=
  mkHashTable (Some (<[i := ValueBucket v]> table)) (m_tableSize t) (m_tableSizeMask t) (m_keyCount t + 1) (m_deletedCount t - Z.b2z reused).

Lemma inserted_counts n table t i reused v : table_wf n table t -> insertable n table (keyOf v) i reused ->
  let table1 := <[i := ValueBucket v]> table in
  contents table1 ≡ₚ v :: contents table /\ m_keyCount t + 1 = Z.of_nat (length (contents table1)) /\ m_deletedCount t - Z.b2z reused = Z.of_nat (deleted table1).
Proof.
  intros HW HI table1. pose proof (ins_bucket _ _ _ _ _ HI) as HB. pose proof (replace_contents table i _ (ValueBucket v) HB) as HC.
  pose proof (replace_deleted table i _ (ValueBucket v) HB) as HD. fold table1 in HC, HD. rewrite (wf_keys _ _ _ HW), (wf_deleted _ _ _ HW).
  destruct reused; cbn in HC, HD |- *; rewrite <- HC; cbn [length]; split_and!; (done || lia).
Qed.

(** [expand] with the new entry. *)
Lemma expand_spec n table t i v : valid (extract v) -> table_wf n table t -> m_keyCount t < manyKeys -> forall reused, insertable n table (keyOf v) i reused ->
  let t1 := inserted i reused v table t in
  exists i' n' table' t', expand (Some i) t1 = Some (Some i', t') /\ table_wf n' table' t' /\ m_table t' = Some table' /\
    table' !! i' = Some (ValueBucket v) /\ contents table' ≡ₚ v :: contents table.
Proof.
  intros HV HW HM reused HI t1. destruct (inserted_counts n table t i reused v HW HI) as (HP & HC & HD). pose proof (insert_ok n table i reused v HV (wf_buckets _ _ _ HW) HI) as HO.
  destruct (table_size n table t HW ltac:(lia)) as [HS HN]. destruct HW as [(HT & HTS & HTM) HB HK HDe HLo HMin HSm]. unfold manyKeys in HM. pose proof (bk_range n table HB).
  set (table1 := <[i := ValueBucket v]> table) in *. set (kc := m_keyCount t + 1) in *.
  assert (HR : forall n', 0 <= n' <= 30 -> kc * 2 < 2 ^ n' -> minimumTableSize <= 2 ^ n' -> 2 ^ n' = minimumTableSize \/ 2 ^ n' <= 6 * kc ->
    exists i' n'' table' t', rehash (2 ^ n') (Some i) t1 = Some (Some i', t') /\ table_wf n'' table' t' /\ m_table t' = Some table' /\
      table' !! i' = Some (ValueBucket v) /\ contents table' ≡ₚ v :: contents table).
  { intros n' Hn Hl Hm Hs. destruct (rehash_spec n' (Some i) (Some v) t1) as (ne & table' & ER & HO' & HD' & HP' & HF); [done|by eapply buckets_good|change (default [] (m_table t1)) with table1; lia| |].
    { left. split_and!; [lia|done|]. rewrite Nat.sub_0_r. cbn. apply list_lookup_insert_eq. by eapply lookup_lt_Some, ins_bucket. }
    destruct HF as [(? & _ & [=])|(_ & i' & -> & HI')]. exists i', n', table'. eexists. split; [exact ER|]. change (default [] (m_table t1)) with table1 in HP'.
    split; [|split_and!; [done|done|by rewrite HP']]. apply (rehashed_wf n' table' _ kc HO' HD'); [rewrite HP'; lia|done..]. }
  unfold expand, mustRehashInPlace. cbn [t1 inserted m_tableSize m_keyCount]. fold kc. rewrite HTS, (proj2 (Z.eqb_neq _ 0)) by lia. unfold m_minLoad. rewrite !int32_id by lia.
  destruct (Z.ltb_spec (kc * 6) (2 ^ n * 2)).
  - apply HR; [lia|lia|done|]. destruct HSm; [by left|right; lia].
  - replace (2 ^ n * 2) with (2 ^ (n + 1)) by (rewrite Z.pow_add_r; lia). apply HR; rewrite ?Z.pow_add_r by lia; lia.
Qed.

Lemma finishAdd_spec n table t i reused v : valid (extract v) -> table_wf n table t -> m_keyCount t < manyKeys -> insertable n table (keyOf v) i reused ->
  exists i' n' table' t', finishAdd i reused v t = Some (Some i', true, t') /\ table_wf n' table' t' /\ m_table t' = Some table' /\
    table' !! i' = Some (ValueBucket v) /\ contents table' ≡ₚ v :: contents table.
Proof.
  intros HV HW HM HI. destruct (inserted_counts n table t i reused v HW HI) as (HP & HC & HD). pose proof (insert_ok n table i reused v HV (wf_buckets _ _ _ HW) HI) as HO.
  destruct (expand_spec n table t i v HV HW HM reused HI) as (i2 & n2 & table2 & t2 & EX & HX).
  destruct (table_size n table t HW ltac:(lia)) as [HS HN]. pose proof HW as [(HT & HTS & HTM) HB HK HDe HLo HMin HSm]. unfold manyKeys in HM.
  pose proof (lookup_lt_Some _ _ _ (ins_bucket _ _ _ _ _ HI)) as HLt.
  unfold finishAdd, setBucket. rewrite HT, (proj2 (Nat.ltb_lt _ _) HLt). cbn [m_table m_tableSize m_tableSizeMask m_keyCount m_deletedCount].
  assert (ED : (if reused then int32 (m_deletedCount t - 1) else m_deletedCount t) = m_deletedCount t - Z.b2z reused) by (destruct reused; cbn in *; [rewrite int32_id|]; lia).
  rewrite ED, (int32_id (m_keyCount t + 1)) by lia. fold (inserted i reused v table t).
  destruct (shouldExpand (inserted i reused v table t)) eqn:ES; [rewrite EX; by exists i2, n2, table2, t2|].
  unfold shouldExpand, m_maxLoad in ES. cbn [inserted m_keyCount m_deletedCount m_tableSize] in ES. assert (HRB : 0 <= Z.b2z reused <= 1) by (destruct reused; cbn; lia).
  rewrite Z.geb_leb, (int32_id (_ + _)), int32_id, Z.leb_gt in ES by lia.
  exists i, n, (<[i := ValueBucket v]> table). eexists. split; [done|]. split; [|split_and!; [done|by apply list_lookup_insert_eq|done]].
  split; cbn [inserted m_table m_tableSize m_tableSizeMask m_keyCount m_deletedCount]; try done; [lia|destruct HSm; [by left|right; lia]].
Qed.

(** ** The map of a table *)

Definition pairOf v : A * V := (keyOf v, v).
Definition asMap t : gmap A V := list_to_map (pairOf <$> ht_elements t).

Lemma pairs_keys vs : (pairOf <$> vs).*1 = keyOf <$> vs.
Proof. by rewrite <- list_fmap_compose. Qed.

Lemma elements_keys t : ht_wf t -> NoDup (keyOf <$> ht_elements t).
Proof. unfold ht_wf, ht_elements. destruct (m_table t); [intros [n []]; by apply (bk_keys n)|constructor]. Qed.

Lemma elements_valid t : ht_wf t -> Forall (fun v => valid (extract v)) (ht_elements t).
Proof. unfold ht_wf, ht_elements. destruct (m_table t); [intros [n []]; by apply (buckets_good n)|constructor]. Qed.

Lemma asMap_lookup t κ v : ht_wf t -> asMap t !! κ = Some v <-> v ∈ ht_elements t /\ keyOf v = κ.
Proof.
  intros HW. unfold asMap. rewrite <- elem_of_list_to_map by (rewrite pairs_keys; by apply elements_keys). rewrite list_elem_of_fmap. split.
  - intros (v' & [= -> ->] & HV). done.
  - intros [HV <-]. by exists v.
Qed.

Lemma asMap_absent t κ : ht_wf t -> asMap t !! κ = None <-> forall v, v ∈ ht_elements t -> keyOf v <> κ.
Proof.
  intros HW. rewrite eq_None_not_Some. split.
  - intros HN v HV HK. apply HN. exists v. by apply asMap_lookup.
  - intros HA [v [HV HK]%asMap_lookup]; [|done]. by apply (HA v).
Qed.

Lemma asMap_size t : ht_wf t -> m_keyCount t = Z.of_nat (size (asMap t)).
Proof.
  intros HW. unfold asMap. rewrite map_size_list_to_map by (rewrite pairs_keys; by apply elements_keys). rewrite length_fmap.
  unfold ht_wf, ht_elements in *. destruct (m_table t); [destruct HW as [n []]|destruct HW as (_ & _ & ->)]; done.
Qed.

Lemma asMap_split t v rest : ht_wf t -> ht_elements t ≡ₚ v :: rest -> asMap t = <[keyOf v := v]> (list_to_map (pairOf <$> rest)).
Proof. intros HW HP. unfold asMap. rewrite <- list_to_map_cons. apply list_to_map_proper; [rewrite pairs_keys; by apply elements_keys|]. by rewrite HP. Qed.

Lemma asMap_insert t t' v : ht_wf t -> ht_wf t' -> ht_elements t' ≡ₚ v :: ht_elements t -> asMap t' = <[keyOf v := v]> (asMap t).
Proof. intros _ HW' HP. by apply asMap_split. Qed.

Lemma asMap_same t t' : ht_wf t' -> ht_elements t' ≡ₚ ht_elements t -> asMap t' = asMap t.
Proof. intros HW' HP. unfold asMap. apply list_to_map_proper; [rewrite pairs_keys; by apply elements_keys|]. by rewrite HP. Qed.

(** ** The operations on the map *)

Section Operations.
Context {T : Type} `{HashTranslator K T} (tabs : T -> A).

(** An entry that holds the value of the map. *)
Definition entryOf t (i : nat) v : Prop := bucketAt i t = Some (ValueBucket v) /\ v ∈ ht_elements t.

Lemma entry_elem t i v : bucketAt i t = Some (ValueBucket v) -> entryOf t i v.
Proof. intros HB. split; [done|]. unfold bucketAt in HB. unfold ht_elements. destruct (m_table t); [|done]. apply elem_contents. by exists i. Qed.

Lemma find_spec key t `{!HashTranslatorOk abs tabs code valid key} : ht_wf t ->
  exists r, ht_find key t = Some r /\
    match r with Some i => exists v, bucketAt i t = Some (ValueBucket v) /\ asMap t !! tabs key = Some v | None => asMap t !! tabs key = None end.
Proof.
  intros HW. pose proof HW as HW0. unfold ht_wf in HW. unfold ht_find. destruct (m_table t) as [table|] eqn:ET.
  - destruct HW as [n HW]. destruct (lookup_spec tabs n table t key (wf_has _ _ _ HW) (wf_buckets _ _ _ HW) (table_roomy _ _ _ HW)) as (r & -> & HR).
    exists r. split; [done|]. destruct r as [i|].
    + destruct HR as (v & HI & HK). assert (HB : bucketAt i t = Some (ValueBucket v)) by (unfold bucketAt; by rewrite ET). exists v. split; [done|].
      apply asMap_lookup; [done|]. by destruct (entry_elem t i v HB).
    + apply asMap_absent; [done|]. unfold ht_elements. by rewrite ET.
  - exists None. split; [done|]. apply asMap_absent; [done|]. unfold ht_elements. rewrite ET. by intros v ?%not_elem_of_nil.
Qed.

(** What [add] and [addPassingHashCode] answer. *)
Definition added t (i : option nat) (isNew : bool) t' (κ : A) v : Prop :=
  ht_wf t' /\ exists i' w, i = Some i' /\ bucketAt i' t' = Some (ValueBucket w) /\
    match asMap t !! κ with
    | Some v0 => isNew = false /\ w = v0 /\ asMap t' = asMap t
    | None => isNew = true /\ w = v /\ asMap t' = <[κ := v]> (asMap t)
    end.

(** The common part, from the bucket that was found. *)
Lemma added_found n table t t1 key i v : ht_wf t -> table_wf n table t1 -> m_table t1 = Some table -> contents table = ht_elements t ->
  foundIn tabs table key i -> added t (Some i) false t1 (tabs key) v.
Proof.
  intros HW HW1 ET HC (w & HI & HK). assert (HWF : ht_wf t1) by (unfold ht_wf; rewrite ET; by exists n). split; [done|]. exists i, w.
  assert (HS : asMap t1 = asMap t) by (apply asMap_same; [done|unfold ht_elements at 1; by rewrite ET, <- HC]).
  split; [done|]. split; [unfold bucketAt; by rewrite ET|].
  assert (HL : asMap t !! tabs key = Some w). { apply asMap_lookup; [done|]. rewrite <- HC. split; [apply elem_contents; by exists i|done]. }
  by rewrite HL.
Qed.

Lemma added_new n table t t1 i reused key v : ht_wf t -> m_keyCount t1 < manyKeys -> table_wf n table t1 -> contents table = ht_elements t ->
  insertable n table (tabs key) i reused -> valid (extract v) -> keyOf v = tabs key -> exists i' t', finishAdd i reused v t1 = Some (i', true, t') /\ added t i' true t' (tabs key) v.
Proof.
  intros HW HM HW1 HC HI HV HK. pose proof (ins_absent _ _ _ _ _ HI) as HA. rewrite <- HK in HI.
  destruct (finishAdd_spec n table t1 i reused v HV HW1 HM HI) as (i' & n' & table' & t' & EF & HW' & ET' & HB & HP). exists (Some i'), t'. split; [done|].
  assert (HWF : ht_wf t') by (unfold ht_wf; rewrite ET'; by exists n'). split; [done|]. exists i', v. split; [done|]. split; [unfold bucketAt; by rewrite ET'|].
  assert (HL : asMap t !! tabs key = None) by (apply asMap_absent; [done|by rewrite <- HC]). rewrite HL. split_and!; try done.
  rewrite <- HK. apply asMap_insert; try done. unfold ht_elements at 1. by rewrite ET', <- HC.
Qed.

Lemma add_spec {E : Type} (translate : T -> E -> V) key extra t `{!HashTranslatorOk abs tabs code valid key} : ht_wf t -> m_keyCount t < manyKeys -> valid (extract (translate key extra)) -> keyOf (translate key extra) = tabs key ->
  exists i isNew t', ht_add translate key extra t = Some (i, isNew, t') /\ added t i isNew t' (tabs key) (translate key extra).
Proof.
  intros HW HM HV HK. destruct (ensureTable_spec t HW) as (n & table & t1 & EE & HW1 & ET & HC1 & HC). fold (ht_elements t) in HC. unfold ht_add. rewrite EE.
  destruct (probeForWriting_spec tabs n table t1 key (wf_has _ _ _ HW1) (wf_buckets _ _ _ HW1) (table_roomy _ _ _ HW1)) as (r & -> & HR).
  destruct r as [i|[i d]]; [exists (Some i), false, t1; split; [done|by eapply added_found]|].
  destruct (added_new n table t t1 (default i d) (isPresent d) key (translate key extra)) as (i' & t' & EF & HA); try done; [by rewrite HC1|].
  exists i', true, t'. split; [|done]. by destruct d.
Qed.

Lemma addPassingHashCode_spec {E : Type} (translate : T -> E -> Z -> V) key extra t `{!HashTranslatorOk abs tabs code valid key} : ht_wf t -> m_keyCount t < manyKeys ->
  let v := translate key extra (tr_hash key) in valid (extract v) -> keyOf v = tabs key ->
  exists i isNew t', addPassingHashCode translate key extra t = Some (i, isNew, t') /\ added t i isNew t' (tabs key) v.
Proof.
  intros HW HM v HV HK. destruct (ensureTable_spec t HW) as (n & table & t1 & EE & HW1 & ET & HC1 & HC). fold (ht_elements t) in HC.
  unfold addPassingHashCode, fullLookupForWriting, lookupForWriting. rewrite EE.
  destruct (probeForWriting_spec tabs n table t1 key (wf_has _ _ _ HW1) (wf_buckets _ _ _ HW1) (table_roomy _ _ _ HW1)) as (r & -> & HR).
  destruct r as [i|[i d]]; [exists (Some i), false, t1; split; [done|by eapply added_found]|].
  destruct (added_new n table t t1 (default i d) (isPresent d) key v) as (i' & t' & EF & HA); try done; [by rewrite HC1|].
  exists i', true, t'. split; [|done]. unfold bucketAt. rewrite ET, (ins_bucket _ _ _ _ _ HR). by destruct d.
Qed.
End Operations.

(** ** Removing *)

Definition removed (i : nat) table t : HashTable V :=
  mkHashTable (Some (<[i := DeletedBucket]> table)) (m_tableSize t) (m_tableSizeMask t) (m_keyCount t - 1) (m_deletedCount t + 1).

(** Half of a table that is not the smallest. *)
Lemma halved n : minimumTableSize < 2 ^ n -> 2 ^ n / 2 = 2 ^ (n - 1) /\ 2 ^ n = 2 * 2 ^ (n - 1) /\ minimumTableSize <= 2 ^ (n - 1) /\ 3 <= n - 1.
Proof.
  destruct minimum_ok as (m & -> & HM). intros HL. apply Z.pow_lt_mono_r_iff in HL; [|lia|destruct (Z.le_gt_cases 0 n); [done|]; rewrite (Z.pow_neg_r 2 n) in HL by done; lia].
  assert (E : 2 ^ n = 2 * 2 ^ (n - 1)) by (rewrite <- Z.pow_succ_r by lia; f_equal; lia).
  split_and!; [rewrite E, Z.mul_comm; apply Z.div_mul; lia|done|apply Z.pow_le_mono_r; lia|lia].
Qed.

Lemma removeEntry_table n table t i v : table_wf n table t -> m_keyCount t <= manyKeys -> table !! i = Some (ValueBucket v) ->
  exists n' table' t', removeEntry i t = Some t' /\ table_wf n' table' t' /\ m_table t' = Some table' /\ v :: contents table' ≡ₚ contents table.
Proof.
  intros HW HM HB. pose proof (replace_contents table i _ DeletedBucket HB) as HC. pose proof (replace_deleted table i _ DeletedBucket HB) as HD. cbn in HC, HD.
  pose proof (delete_ok n table i v (wf_buckets _ _ _ HW) HB) as HO. destruct (table_size n table t HW HM) as [HS HN].
  pose proof HW as [(HT & HTS & HTM) HBu HK HDe HLo HMin HSm]. unfold manyKeys in HM. pose proof (bk_range n table HBu). pose proof minimum_range.
  pose proof (Permutation_length HC) as HLen. cbn [length] in HLen. set (table1 := <[i := DeletedBucket]> table) in *.
  unfold removeEntry, setBucket. rewrite HT, (proj2 (Nat.ltb_lt _ _) (lookup_lt_Some _ _ _ HB)). cbn [m_table m_tableSize m_tableSizeMask m_keyCount m_deletedCount].
  rewrite !int32_id by lia. fold (removed i table t). unfold shouldShrink, m_minLoad. change (m_keyCount (removed i table t)) with (m_keyCount t - 1). change (m_tableSize (removed i table t)) with (m_tableSize t).
  rewrite int32_id, Z.gtb_ltb by lia.
  destruct (Z.ltb_spec ((m_keyCount t - 1) * 6) (m_tableSize t)) as [HA|HA]; [destruct (Z.ltb_spec minimumTableSize (m_tableSize t)) as [HE|HE]|]; cbn [andb].
  2-3: exists n, table1, (removed i table t); split; [done|]; split; [|split; [done|by rewrite HC]];
    split; cbn [removed m_table m_tableSize m_tableSizeMask m_keyCount m_deletedCount]; [done|done|lia|lia|lia|lia|rewrite HTS in *; first [left; lia|right; lia]].
  unfold shrink. change (m_tableSize (removed i table t)) with (m_tableSize t). rewrite HTS in *. destruct (halved n HE) as (EH & E2 & HM2 & HN2). rewrite EH.
  destruct (rehash_spec (n - 1) None None (removed i table t)) as (ne & table' & ER & HO' & HD' & HP' & HF); [lia|by eapply buckets_good|change (default [] _) with table1; lia|done|].
  change (default [] _) with table1 in HP'. rewrite ER. pose proof (Permutation_length HP') as HL'. exists (n - 1), table'. eexists. split; [done|]. split; [|split; [done|by rewrite HP', HC]].
  apply (rehashed_wf (n - 1) table' _ (m_keyCount t - 1) HO' HD'); [lia|lia|done|right; lia|done].
Qed.

Lemma removeEntry_spec t i v : ht_wf t -> m_keyCount t <= manyKeys -> bucketAt i t = Some (ValueBucket v) ->
  exists t', removeEntry i t = Some t' /\ ht_wf t' /\ asMap t' = delete (keyOf v) (asMap t).
Proof.
  intros HW HM HB. pose proof HW as HW0. unfold ht_wf in HW. unfold bucketAt in HB. destruct (m_table t) as [table|] eqn:ET; [|done]. destruct HW as [n HW].
  destruct (removeEntry_table n table t i v HW HM HB) as (n' & table' & t' & ER & HW' & ET' & HP). exists t'. split; [done|].
  assert (HWF : ht_wf t') by (unfold ht_wf; rewrite ET'; by exists n'). split; [done|].
  assert (HE : ht_elements t ≡ₚ v :: ht_elements t') by (unfold ht_elements; rewrite ET, ET'; by symmetry).
  rewrite (asMap_insert t' t v HWF HW0 HE), delete_insert_id; [done|]. apply asMap_absent; [done|]. intros v' HV HK.
  pose proof (elements_keys t HW0) as HN. rewrite HE, fmap_cons in HN. apply NoDup_cons in HN as [HN _]. apply HN. rewrite <- HK. by apply list_elem_of_fmap_2.
Qed.

Lemma removeKey_spec k t : valid k -> ht_wf t -> m_keyCount t <= manyKeys ->
  exists t', removeKey k t = Some t' /\ ht_wf t' /\ asMap t' = delete (abs k) (asMap t).
Proof.
  intros HV HW HM. pose proof (identityOk abs code valid k HV). unfold removeKey. destruct (find_spec abs k t HW) as (r & -> & HR). destruct r as [i|]; cbn [removeIterator].
  - destruct HR as (v & HB & HL). destruct (removeEntry_spec t i v HW HM HB) as (t' & ER & HW' & EM). exists t'. split_and!; try done.
    apply asMap_lookup in HL as [_ <-]; done.
  - exists t. split_and!; try done. by rewrite delete_id.
Qed.

Lemma clear_spec t : ht_wf t -> ht_wf (ht_clear t) /\ asMap (ht_clear t) = ∅.
Proof. unfold ht_wf, ht_clear, asMap, ht_elements. destruct t as [[table|] ? ? ? ?]; cbn; done. Qed.

(** ** Copying *)

Lemma addValue_spec v t : valid (extract v) -> ht_wf t -> m_keyCount t < manyKeys ->
  exists i isNew t', addValue v t = Some (i, isNew, t') /\ added t i isNew t' (keyOf v) v.
Proof. intros HV HW HM. pose proof (identityOk abs code valid (extract v) HV). by apply (add_spec abs (fun (_ : K) v => v) (extract v) v t). Qed.

Lemma added_size t i isNew t' κ v : ht_wf t -> added t i isNew t' κ v -> m_keyCount t' <= m_keyCount t + 1.
Proof.
  intros HW (HW' & i' & w & _ & _ & HA). rewrite (asMap_size t HW), (asMap_size t' HW'). destruct (asMap t !! κ) eqn:EL.
  - destruct HA as (_ & _ & ->). lia.
  - destruct HA as (_ & _ & ->). rewrite map_size_insert_None by done. lia.
Qed.

Lemma addAllValues_spec vs : Forall (fun v => valid (extract v)) vs -> forall t, ht_wf t -> m_keyCount t + Z.of_nat (length vs) <= manyKeys ->
  exists t', addAllValues vs t = Some t' /\ ht_wf t' /\ asMap t' = asMap t ∪ list_to_map (pairOf <$> vs).
Proof.
  induction 1 as [|v vs HV _ IH]; intros t HW HM; cbn [addAllValues fmap list_fmap].
  { exists t. split_and!; try done. cbn. by rewrite (right_id_L ∅ (∪)). }
  cbn [length] in HM. destruct (addValue_spec v t HV HW ltac:(lia)) as (i & isNew & t1 & -> & HA). pose proof (added_size _ _ _ _ _ _ HW HA) as HS.
  destruct HA as (HW1 & i' & w & _ & _ & HA). destruct (IH t1 HW1 ltac:(lia)) as (t' & -> & HW' & EM). exists t'. split_and!; try done. rewrite EM.
  cbn [pairOf list_to_map foldr fst snd]. change (list_to_map (pairOf v :: (pairOf <$> vs))) with (<[keyOf v := v]> (list_to_map (pairOf <$> vs) : gmap A V)).
  destruct (asMap t !! keyOf v) eqn:EL; destruct HA as (_ & _ & ->).
  - apply map_eq. intros κ. rewrite !lookup_union. destruct (decide (κ = keyOf v)) as [->|HN]; [by rewrite EL, !union_Some_l|by rewrite lookup_insert_ne].
  - by rewrite <- insert_union_l, insert_union_r.
Qed.

Lemma copyTable_spec t : ht_wf t -> m_keyCount t <= manyKeys -> exists t', copyTable t = Some t' /\ ht_wf t' /\ asMap t' = asMap t.
Proof.
  intros HW HM. assert (HW0 : ht_wf newHashTable) by done. unfold copyTable. destruct (addAllValues_spec (ht_elements t) (elements_valid t HW) newHashTable HW0) as (t' & ER & HW' & EM).
  - cbn [newHashTable m_keyCount]. rewrite (asMap_size t HW) in HM. unfold asMap in HM. rewrite map_size_list_to_map in HM by (rewrite pairs_keys; by apply elements_keys).
    rewrite length_fmap in HM. lia.
  - exists t'. split_and!; try done. rewrite EM. unfold asMap at 1. cbn. by rewrite (left_id_L ∅ (∪)).
Qed.

(** ** The checks of the table *)

(** Keys are in one bucket only. *)
Lemma same_bucket n table i j v w : buckets_ok n table -> table !! i = Some (ValueBucket v) -> table !! j = Some (ValueBucket w) -> keyOf v = keyOf w -> i = j.
Proof.
  intros HO HI HJ HK. destruct (decide (i = j)) as [|HN]; [done|exfalso]. pose proof (replace_contents table i _ EmptyBucket HI) as HP. cbn [bucketValues app] in HP.
  pose proof (bk_keys n table HO) as HD. rewrite HP, fmap_cons in HD. apply NoDup_cons in HD as [HD _]. apply HD. rewrite HK. apply list_elem_of_fmap_2, elem_contents.
  exists j. by rewrite list_lookup_insert_ne.
Qed.

Lemma find_stored n table t i v : table_wf n table t -> m_table t = Some table -> table !! i = Some (ValueBucket v) -> ht_find (extract v) t = Some (Some i).
Proof.
  intros HW HT HI. pose proof (identityOk abs code valid (extract v) (bk_valid _ _ (wf_buckets _ _ _ HW) i v HI)). unfold ht_find. rewrite HT.
  destruct (lookup_spec abs n table t (extract v) (wf_has _ _ _ HW) (wf_buckets _ _ _ HW) (table_roomy _ _ _ HW)) as (r & -> & HR). destruct r as [j|].
  - destruct HR as (w & HJ & HK). by rewrite (same_bucket n table i j v w (wf_buckets _ _ _ HW) HI HJ).
  - destruct (HR v); [|done]. apply elem_contents. by exists i.
Qed.

Lemma count_values table : countBuckets (fun b => negb (isEmptyOrDeletedBucket b)) table = Z.of_nat (length (contents table)).
Proof.
  unfold countBuckets. f_equal. induction table as [|b table IH]; [done|]. rewrite filter_cons, contents_cons, length_app. destruct b; case_decide; cbn in *; by rewrite ?IH.
Qed.

(** [checkTableConsistency] never fails. *)
Lemma consistency_spec t : ht_wf t -> m_keyCount t <= manyKeys -> checkTableConsistency t = true.
Proof.
  intros HW HM. unfold ht_wf in HW. unfold checkTableConsistency, checkTableConsistencyExceptSize, shouldExpand, shouldShrink, m_maxLoad, m_minLoad. pose proof minimum_range as HMR.
  destruct (m_table t) as [table|] eqn:ET; [destruct HW as [n HW]|].
  - destruct (table_size n table t HW HM) as [HS _]. pose proof HW as [(HT & HTS & HTM) HB HK HD HL HMin HSm]. unfold manyKeys in HM.
    rewrite count_values, countBuckets_deleted, <- HK, <- HD, !Z.eqb_refl, HTS, HTM. rewrite (int32_id (m_keyCount t + m_deletedCount t)), !int32_id by lia.
    assert (HE : forallb (fun p => entryConsistent t (fst p) (snd p)) (imap pair table) = true); [|rewrite HE; lia]. apply forallb_forall. intros [i b] HIn%list_elem_of_In%elem_of_lookup_imap. destruct HIn as (j & b' & [= -> ->] & HI). cbn [fst snd]. unfold entryConsistent.
    destruct b' as [| |v]; [done..|]. by apply bool_decide_eq_true, (find_stored n table).
  - destruct HW as (HTS & _ & HK). rewrite HTS, HK. cbn. lia.
Qed.

(** The value of an entry is replaced by another of the same key. *)
Lemma replaceValue_spec t i v v' : valid (extract v') -> ht_wf t -> bucketAt i t = Some (ValueBucket v) -> keyOf v' = keyOf v ->
  exists t', setBucket i (ValueBucket v') t = Some t' /\ ht_wf t' /\ bucketAt i t' = Some (ValueBucket v') /\ asMap t' = <[keyOf v := v']> (asMap t).
Proof.
  intros HV HW HB HK. pose proof HW as HW0. unfold ht_wf in HW. unfold bucketAt, setBucket in *. destruct (m_table t) as [table|] eqn:ET; [|done]. destruct HW as [n [HT HO HKc HD HL HM HS]].
  pose proof (lookup_lt_Some _ _ _ HB) as HLt. rewrite (proj2 (Nat.ltb_lt _ _) HLt). eexists. split; [done|]. cbn [m_table]. set (t' := mkHashTable _ _ _ _ _).
  pose proof (replace_contents table i _ (ValueBucket v') HB) as HC. pose proof (replace_deleted table i _ (ValueBucket v') HB) as HDe. cbn in HC, HDe.
  pose proof (Permutation_length HC) as HLen. cbn [length] in HLen. pose proof (list_lookup_insert_eq table i (ValueBucket v') HLt) as HI.
  assert (HWF : ht_wf t').
  { exists n. destruct HT as (_ & HTS & HTM). split; cbn [t' m_table m_tableSize m_tableSizeMask m_keyCount m_deletedCount]; try done; [by eapply replace_ok|lia|lia]. }
  split_and!; [done|done|]. pose proof (replace_contents table i _ EmptyBucket HB) as HP. pose proof (replace_contents _ i _ EmptyBucket HI) as HP'. cbn [bucketValues app] in HP, HP'.
  rewrite list_insert_insert_eq in HP'. set (rest := contents (<[i:=EmptyBucket]> table)) in *.
  rewrite (asMap_split t' v' rest), (asMap_split t v rest); [by rewrite HK, insert_insert_eq|done|unfold ht_elements; by rewrite ET|done|done].
Qed.
End Spec.

(** Which other keys are valid does not matter. *)
Lemma ht_wf_elements {V K : Type} `{KeyExtractor V K} `{!HashTraits} {A : Type} (abs : K -> A) (code : A -> Z) (valid valid' : K -> Prop) (t : HashTable V) :
  (forall v, v ∈ ht_elements t -> valid' (extract v)) -> ht_wf abs code valid t -> ht_wf abs code valid' t.
Proof.
  intros HV. unfold ht_wf. unfold ht_elements in HV. destruct (m_table t); [|done]. intros [n [HH [? ? ? ? HW] ? ? ? ? ?]]. exists n. split; try done. split; try done.
  intros i v HI. apply HV, elem_contents. by exists i.
Qed.
