(* ===== verification/HashFunctions.v ===== *)
(** * Hash functions of integers, pointers and pairs

    [wtf/HashFunctions.h]: the mix functions, that those of 8, 16 and 32 bits never give two
    keys one hash code, and the promise of [IntHash] and [PairHash] to the hash table. *)

From S2P Require Import Prelude HashTable HashTableProbing HashTableSpec.
Open Scope Z_scope.

(** ** The mix functions *)

(** [key += ~(key << s)], [key += (key << s)] and [key ^= (key >> s)] on [w] bits. *)
Definition addNotShift (w s key : Z) : Z := (key + Z.lnot (Z.shiftl key s mod 2 ^ w) mod 2 ^ w) mod 2 ^ w.
Definition addShift (w s key : Z) : Z := (key + Z.shiftl key s mod 2 ^ w) mod 2 ^ w.
Definition xorShift (s key : Z) : Z := Z.lxor key (Z.shiftr key s).

Definition intHash32 (key : Z) : Z :=
  let key := addNotShift 32 15 key in
  let key := xorShift 10 key in
  let key := addShift 32 3 key in
  let key := xorShift 6 key in
  let key := addNotShift 32 11 key in
  xorShift 16 key.
(** The overloads for 8 and 16 bits widen the key first. *)
Definition intHash8 (key8 : Z) : Z := intHash32 key8.
Definition intHash16 (key16 : Z) : Z := intHash32 key16.

(** The mix of 64 bits and the cast to [unsigned]. *)
Definition intMix64 (key : Z) : Z :=
  let key := addNotShift 64 32 key in
  let key := xorShift 22 key in
  let key := addNotShift 64 13 key in
  let key := xorShift 8 key in
  let key := addShift 64 3 key in
  let key := xorShift 15 key in
  let key := addNotShift 64 27 key in
  xorShift 31 key.
Definition intHash64 (key : Z) : Z := uint32 (intMix64 key).

(** The sizes in the shift count are bytes. *)
Definition pairProduct (key1 key2 : Z) : Z := (19248658165952622 * uint32 (uint32 (277951225 * key1) + uint32 (95187966 * key2))) mod 2 ^ 64.
Definition pairIntHash (key1 key2 : Z) : Z := uint32 (Z.shiftr (pairProduct key1 key2) (8 - 4)).

(** ** The mixes are one to one *)

Create HintDb words.

Definition word (w x : Z) : Prop := 0 <= x < 2 ^ w.

Lemma addNotShift_word w s x : 0 <= w -> word w (addNotShift w s x).
Proof. intros HW. apply Z.mod_pos_bound. lia. Qed.
Lemma addShift_word w s x : 0 <= w -> word w (addShift w s x).
Proof. intros HW. apply Z.mod_pos_bound. lia. Qed.
Lemma xorShift_word w s x : 0 <= w -> 0 <= s -> word w x -> word w (xorShift s x).
Proof.
  intros HW HS [H0 H1]. assert (HN : 0 <= Z.shiftr x s <= x).
  { rewrite Z.shiftr_nonneg, Z.shiftr_div_pow2 by done. split; [done|]. apply Z.div_le_upper_bound; [lia|]. assert (0 < 2 ^ s) by lia. nia. }
  unfold word, xorShift. assert (HX : 0 <= Z.lxor x (Z.shiftr x s)) by (apply Z.lxor_nonneg; tauto). split; [done|].
  destruct (Z.eq_dec (Z.lxor x (Z.shiftr x s)) 0) as [->|HD]; [lia|]. apply Z.log2_lt_pow2; [lia|]. pose proof (Z.log2_lxor x (Z.shiftr x s) H0 (proj1 HN)) as HL.
  pose proof (Z.log2_le_mono _ _ (proj2 HN)). assert (x <> 0) by (intros ->; by rewrite Z.shiftr_0_l in HD). apply Z.log2_lt_pow2 in H1; lia.
Qed.

(** A product with an odd number determines the other factor. *)
Lemma odd_cancel w a x y : 0 <= w -> Z.odd a = true -> word w x -> word w y -> (a * x) mod 2 ^ w = (a * y) mod 2 ^ w -> x = y.
Proof.
  intros HW HO HX HY HE. destruct (odd_inverse a w HO HW) as (u & v & HB). assert (HP : 0 < 2 ^ w) by lia.
  assert (HI : forall z, word w z -> z = (u * ((a * z) mod 2 ^ w)) mod 2 ^ w).
  { intros z HZ. rewrite Z.mul_mod_idemp_r by lia. replace (u * (a * z)) with (z + - (v * z) * 2 ^ w) by (replace (u * (a * z)) with ((u * a) * z) by lia; replace (u * a) with (1 - v * 2 ^ w) by lia; lia).
    rewrite Z.mod_add by lia. symmetry. by apply Z.mod_small. }
  by rewrite (HI x HX), (HI y HY), HE.
Qed.

Lemma addNotShift_linear w s x : 0 <= w -> 0 <= s -> addNotShift w s x = ((1 - 2 ^ s) * x - 1) mod 2 ^ w.
Proof.
  intros HW HS. assert (HP : 2 ^ w <> 0) by lia. unfold addNotShift, Z.lnot. rewrite Z.shiftl_mul_pow2, Z.add_mod_idemp_r, <- Z.sub_1_r by lia.
  replace (x + (- ((x * 2 ^ s) mod 2 ^ w) - 1)) with (x - 1 - (x * 2 ^ s) mod 2 ^ w) by lia. rewrite Zminus_mod_idemp_r. f_equal. lia.
Qed.
Lemma addShift_linear w s x : 0 <= w -> 0 <= s -> addShift w s x = ((1 + 2 ^ s) * x) mod 2 ^ w.
Proof. intros HW HS. unfold addShift. rewrite Z.shiftl_mul_pow2, Z.add_mod_idemp_r by lia. f_equal. lia. Qed.

Lemma power_even s : 0 < s -> Z.odd (2 ^ s) = false.
Proof. intros HS. by rewrite Z.odd_pow. Qed.

Lemma addNotShift_inj w s x y : 0 <= w -> 0 < s -> word w x -> word w y -> addNotShift w s x = addNotShift w s y -> x = y.
Proof.
  intros HW HS HX HY. rewrite !addNotShift_linear by lia. intros HE. apply (odd_cancel w (1 - 2 ^ s)); try done; [by rewrite Z.odd_sub, power_even|].
  apply (f_equal (fun z => (z + 1) mod 2 ^ w)) in HE. rewrite !Z.add_mod_idemp_l in HE by lia. by rewrite !Z.sub_add in HE.
Qed.
Lemma addShift_inj w s x y : 0 <= w -> 0 < s -> word w x -> word w y -> addShift w s x = addShift w s y -> x = y.
Proof. intros HW HS HX HY. rewrite !addShift_linear by lia. apply odd_cancel; try done. by rewrite Z.odd_add, power_even. Qed.

(** The bits from the highest down. *)
Lemma word_high w x i : word w x -> w <= i -> Z.testbit x i = false.
Proof.
  intros [H0 H1] HI. destruct (Z.eq_dec x 0) as [->|]; [apply Z.testbit_0_l|]. apply Z.bits_above_log2; [done|]. apply Z.log2_lt_pow2; [lia|].
  apply (Z.lt_le_trans _ _ _ H1), Z.pow_le_mono_r; lia.
Qed.
Lemma xorShift_inj w s x y : 0 < s -> word w x -> word w y -> xorShift s x = xorShift s y -> x = y.
Proof.
  intros HS HX HY HE. apply Z.bits_inj'. intros i HI. remember (Z.to_nat (w - i)) as d eqn:ED. revert i HI ED.
  induction d as [d IH] using lt_wf_ind. intros i HI ->. destruct (Z.le_gt_cases w i) as [HH|HH]; [by rewrite !(word_high w)|].
  pose proof (f_equal (fun z => Z.testbit z i) HE) as HB. cbn beta in HB. unfold xorShift in HB. rewrite !Z.lxor_spec, !Z.shiftr_spec in HB by lia.
  rewrite (IH (Z.to_nat (w - (i + s))) ltac:(lia) (i + s) ltac:(lia) eq_refl) in HB. by destruct (Z.testbit x i), (Z.testbit y i), (Z.testbit y (i + s)).
Qed.

#[export] Hint Resolve addNotShift_word addShift_word xorShift_word : words.

(** Peels the outermost step of a mix. *)
Ltac peel_mix w :=
  match goal with
  | |- xorShift ?s _ = xorShift ?s _ -> _ => let HE := fresh in intros HE; apply (xorShift_inj w s) in HE; [revert HE|lia|auto 20 with words zarith..]
  | |- addShift _ ?s _ = addShift _ ?s _ -> _ => let HE := fresh in intros HE; apply (addShift_inj w s) in HE; [revert HE|lia|lia|auto 20 with words zarith..]
  | |- addNotShift _ ?s _ = addNotShift _ ?s _ -> _ => let HE := fresh in intros HE; apply (addNotShift_inj w s) in HE; [revert HE|lia|lia|auto 20 with words zarith..]
  end.

(** Two keys of 32 bits have two hash codes. *)
Theorem intHash32_injective x y : word 32 x -> word 32 y -> intHash32 x = intHash32 y -> x = y.
Proof. intros HX HY. unfold intHash32. cbv zeta. repeat peel_mix 32. done. Qed.

(** The mix of 64 bits loses nothing; only the cast to 32 bits does. *)
Theorem intMix64_injective x y : word 64 x -> word 64 y -> intMix64 x = intMix64 y -> x = y.
Proof. intros HX HY. unfold intMix64. cbv zeta. repeat peel_mix 64. done. Qed.

(** The hash of a pair is bits 4 to 35 of the product: the shift count is the
    difference of two sizes in bytes, so these are not the high bits. *)
Theorem pairIntHash_bits key1 key2 : pairIntHash key1 key2 = (pairProduct key1 key2 / 2 ^ 4) mod 2 ^ 32.
Proof. unfold pairIntHash, uint32. by rewrite Z.shiftr_div_pow2. Qed.
Example pairIntHash_not_high : pairIntHash 1 2 <> pairProduct 1 2 / 2 ^ 32.
Proof. vm_compute. discriminate. Qed.

(** ** What they promise to the hash table *)

(** [IntHash<unsigned>], the default for [int] and [unsigned]. *)
Definition IntHash : HashFunctions Z := {| hf_hash key := intHash32 (uint32 key); hf_equal := Z.eqb |}.

Lemma IntHash_ok : HashFunctionsOk (H := IntHash) id (fun key => intHash32 (uint32 key)) (fun _ => True).
Proof. split; [done|]. intros a b _ _. cbn. by destruct (Z.eqb_spec a b), (bool_decide_reflect (a = b)). Qed.

(** [PtrHash] on a machine of 64 bits; a pointer is its address. *)
Definition PtrHash : HashFunctions Z := {| hf_hash key := intHash64 key; hf_equal := Z.eqb |}.

Lemma PtrHash_ok : HashFunctionsOk (H := PtrHash) id intHash64 (fun _ => True).
Proof. split; [done|]. intros a b _ _. cbn. by destruct (Z.eqb_spec a b), (bool_decide_reflect (a = b)). Qed.

Section Pairs.
Context {T U : Type} `{HashFunctions T} `{HashFunctions U}.

Definition PairHash : HashFunctions (T * U) := {|
  hf_hash p := pairIntHash (hf_hash (fst p)) (hf_hash (snd p));
  hf_equal a b := hf_equal (fst a) (fst b) && hf_equal (snd a) (snd b)
|}.

(** Pairs of keys are keys. *)
Lemma PairHash_ok {A B : Type} `{EqDecision A} `{EqDecision B} (abs1 : T -> A) (abs2 : U -> B) (code1 : A -> Z) (code2 : B -> Z) (valid1 : T -> Prop) (valid2 : U -> Prop)
    `{!HashFunctionsOk abs1 code1 valid1} `{!HashFunctionsOk abs2 code2 valid2} :
  HashFunctionsOk (H := PairHash) (fun p => (abs1 (fst p), abs2 (snd p))) (fun p => pairIntHash (code1 (fst p)) (code2 (snd p))) (fun p => valid1 (fst p) /\ valid2 (snd p)).
Proof.
  split.
  - intros [x y] [HX HY]. cbn in *. by rewrite (ok_hash (abs := abs1) x HX), (ok_hash (abs := abs2) y HY).
  - intros [x y] [x' y'] [HX HY] [HX' HY']. cbn in *. rewrite (ok_equal (abs := abs1) x x' HX HX'), (ok_equal (abs := abs2) y y' HY HY'), <- bool_decide_and.
    apply bool_decide_ext. split; [by intros [-> ->]|by intros [= -> ->]].
Qed.
End Pairs.

(** [GenericHashTraits] *)
Definition GenericHashTraits : HashTraits := 8.

Lemma GenericHashTraits_ok : @HashTraitsOk GenericHashTraits.
Proof. exists 3. split; [done|lia]. Qed.
