(* ===== verification/HashMap.v ===== *)
(** * Hash maps and hash sets

    [wtf/HashMap.h] and [wtf/HashSet.h] over the hash table.  An iterator is the
    index of an entry and [None] for the end; an [AddResult] is the iterator
    and [isNewEntry]. *)

From S2P Require Import Prelude HashTable.
Open Scope Z_scope.

(** ** HashMap *)

Section HashMap.
Context {K M : Type} `{HashFunctions K} `{HashTraits}.

(** [KeyValuePair] is a pair, and this is [KeyValuePairKeyExtractor]. *)
#[local] Instance KeyValuePairKeyExtractor : KeyExtractor (K * M) K := fst.
Abbreviation Map := (HashTable (K * M)).

(** [HashMapTranslator::translate] *)
Definition HashMapTranslator_translate (key : K) (mapped : M) : K * M := (key, mapped).

Definition hm_size (m : Map) : Z := m_keyCount m.
Definition hm_isEmpty (m : Map) : bool := m_keyCount m =? 0.
Definition hm_find (key : K) (m : Map) : option (option nat) := ht_find key m.
Definition hm_contains (key : K) (m : Map) : option bool := ht_contains key m.

Definition inlineAdd (key : K) (value : M) (m : Map) : option (option nat * bool * Map) := ht_add HashMapTranslator_translate key value m.

(** Assigning to [iterator->value]. *)
Definition assignValue (it : option nat) (value : M) (m : Map) : option Map :=
  match it with
  | None => None
  | Some i => match bucketAt i m with Some (ValueBucket kv) => setBucket i (ValueBucket (fst kv, value)) m | _ => None end
  end.

Definition inlineSet (key : K) (value : M) (m : Map) : option (option nat * bool * Map) :=
  match inlineAdd key value m with
  | None => None
  | Some (it, isNewEntry, m) =>
      if negb isNewEntry
      then match assignValue it value m with None => None | Some m => Some (it, isNewEntry, m) end
      else Some (it, isNewEntry, m)
  end.

Definition hm_add (key : K) (mapped : M) (m : Map) : option (option nat * bool * Map) := inlineAdd key mapped m.
Definition hm_set (key : K) (mapped : M) (m : Map) : option (option nat * bool * Map) := inlineSet key mapped m.

(** The value of an entry. *)
Definition hm_valueAt (i : nat) (m : Map) : option M := match bucketAt i m with Some (ValueBucket kv) => Some (snd kv) | _ => None end.

(** [emptyValue] is that of [MappedTraits]. *)
Definition hm_get (emptyValue : M) (key : K) (m : Map) : option M :=
  match ht_lookup key m with
  | None => None
  | Some None => Some emptyValue
  | Some (Some i) => hm_valueAt i m
  end.

Definition hm_removeIterator (it : option nat) (m : Map) : option (bool * Map) :=
  match it with
  | None => Some (false, m)
  | Some _ => match removeIterator it m with None => None | Some m => Some (true, m) end
  end.

Definition hm_remove (key : K) (m : Map) : option (bool * Map) := match hm_find key m with None => None | Some it => hm_removeIterator it m end.
Definition hm_clear (m : Map) : Map := ht_clear m.

Definition hm_take (emptyValue : M) (key : K) (m : Map) : option (M * Map) :=
  match hm_find key m with
  | None => None
  | Some None => Some (emptyValue, m)
  | Some (Some i) =>
      match hm_valueAt i m with
      | None => None
      | Some value => match hm_removeIterator (Some i) m with None => None | Some (_, m) => Some (value, m) end
      end
  end.

(** The constructor from a list. *)
Fixpoint hm_addAll (pairs : list (K * M)) (m : Map) : option Map :=
  match pairs with
  | [] => Some m
  | (key, value) :: pairs => match hm_add key value m with None => None | Some (_, _, m) => hm_addAll pairs m end
  end.
Definition hm_fromList (initializerList : list (K * M)) : option Map := hm_addAll initializerList newHashTable.

(** The loop of [operator==] over the entries of the first map; [valuesEqual] is
    the equality of mapped values. *)
Fixpoint hm_equalLoop (valuesEqual : M -> M -> bool) (entries : list (K * M)) (b : Map) : option bool :=
  match entries with
  | [] => Some true
  | (key, value) :: entries =>
      match hm_find key b with
      | None => None
      | Some None => Some false
      | Some (Some bPos) =>
          match hm_valueAt bPos b with
          | None => None
          | Some bValue => if negb (valuesEqual value bValue) then Some false else hm_equalLoop valuesEqual entries b
          end
      end
  end.
Definition hm_equal (valuesEqual : M -> M -> bool) (a b : Map) : option bool :=
  if negb (hm_size a =? hm_size b) then Some false else hm_equalLoop valuesEqual (ht_elements a) b.
End HashMap.

(** A vector is resized to the size of the collection and written from the
    first element on; writing past the end stops the program. *)
Definition fillVector {B : Type} (size : Z) (blank : B) (xs : list B) : option (list B) :=
  if Z.of_nat (length xs) <=? size then Some (xs ++ repeat blank (Z.to_nat size - length xs)) else None.
Definition copyKeysToVector {K M : Type} (blank : K) (m : HashTable (K * M)) : option (list K) := fillVector (hm_size m) blank (map fst (ht_elements m)).
Definition copyValuesToVector {K M : Type} (blank : M) (m : HashTable (K * M)) : option (list M) := fillVector (hm_size m) blank (map snd (ht_elements m)).

(** ** HashSet *)

Section HashSet.
Context {V : Type} `{HashFunctions V} `{HashTraits}.

#[local] Instance IdentityExtractor : KeyExtractor V V := fun v => v.
Abbreviation Set_ := (HashTable V).

Definition hs_size (s : Set_) : Z := m_keyCount s.
Definition hs_contains (value : V) (s : Set_) : option bool := ht_contains value s.
Definition hs_find (value : V) (s : Set_) : option (option nat) := ht_find value s.
Definition hs_add (value : V) (s : Set_) : option (option nat * bool * Set_) := addValue value s.

(** [add] with a [HashTranslator], whose [translate] makes the value. *)
Definition hs_addTranslated {T : Type} `{HashTranslator V T} (translate : T -> Z -> V) (value : T) (s : Set_) : option (option nat * bool * Set_) :=
  addPassingHashCode (fun key (_ : T) hashCode => translate key hashCode) value value s.

(** [add(begin, end)] *)
Fixpoint hs_addRange (changed : bool) (values : list V) (s : Set_) : option (bool * Set_) :=
  match values with
  | [] => Some (changed, s)
  | value :: values =>
      match hs_add value s with None => None | Some (_, isNewEntry, s) => hs_addRange (changed || isNewEntry) values s end
  end.

Definition hs_removeIterator (it : option nat) (s : Set_) : option (bool * Set_) :=
  match it with
  | None => Some (false, s)
  | Some _ => match removeIterator it s with None => None | Some s => Some (true, s) end
  end.
Definition hs_remove (value : V) (s : Set_) : option (bool * Set_) := match hs_find value s with None => None | Some it => hs_removeIterator it s end.
Definition hs_clear (s : Set_) : Set_ := ht_clear s.

Definition hs_take (emptyValue : V) (value : V) (s : Set_) : option (V * Set_) :=
  match hs_find value s with
  | None => None
  | Some None => Some (emptyValue, s)
  | Some (Some i) =>
      match bucketAt i s with
      | Some (ValueBucket result) => match hs_removeIterator (Some i) s with None => None | Some (_, s) => Some (result, s) end
      | _ => None
      end
  end.

Fixpoint hs_containsAll (values : list V) (other : Set_) : option bool :=
  match values with
  | [] => Some true
  | value :: values =>
      match hs_contains value other with
      | None => None
      | Some false => Some false
      | Some true => hs_containsAll values other
      end
  end.
Definition hs_equal (s other : Set_) : option bool :=
  if negb (hs_size s =? hs_size other) then Some false else hs_containsAll (ht_elements s) other.

Definition copyToVector (blank : V) (s : Set_) : option (list V) := fillVector (hs_size s) blank (ht_elements s).
End HashSet.
