(* ===== verification/HashMapSpec.v ===== *)
(** * Hash maps and hash sets are finite maps and sets

    Every sequence of operations on a [HashMap] ends and answers as the same
    sequence on a finite map; the comparison of maps and of sets, and the copies
    to vectors. *)

From S2P Require Import Prelude HashTable HashTableProbing HashTableSpec HashFunctions HashMap.
From stdpp Require Import gmap.
Open Scope Z_scope.

#[local] Existing Instance KeyValuePairKeyExtractor.
#[local] Existing Instance IdentityExtractor.

(** ** The operations of a session and their answers *)

Inductive mapOp (K M : Type) :=
  | OpAdd (key : K) (mapped : M)
  | OpSet (key : K) (mapped : M)
  | OpGet (key : K)
  | OpContains (key : K)
  | OpRemove (key : K)
  | OpTake (key : K)
  | OpClear
  | OpSize
  | OpCopy.
Arguments OpAdd {K M}.
Arguments OpSet {K M}.
Arguments OpGet {K M}.
Arguments OpContains {K M}.
Arguments OpRemove {K M}.
Arguments OpTake {K M}.
Arguments OpClear {K M}.
Arguments OpSize {K M}.
Arguments OpCopy {K M}.

Inductive mapAnswer (K M : Type) :=
  | AnsAdded (isNewEntry : bool) (entry : K * M)
  | AnsValue (mapped : M)
  | AnsBool (b : bool)
  | AnsSize (size : Z)
  | AnsDone.
Arguments AnsAdded {K M}.
Arguments AnsValue {K M}.
Arguments AnsBool {K M}.
Arguments AnsSize {K M}.
Arguments AnsDone {K M}.

(** The key of an operation. *)
Definition opKey {K M : Type} (op : mapOp K M) : option K :=
  match op with
  | OpAdd key _ | OpSet key _ | OpGet key | OpContains key | OpRemove key | OpTake key => Some key
  | _ => None
  end.
Definition validOp {K M : Type} (valid : K -> Prop) (op : mapOp K M) : Prop := match opKey op with Some key => valid key | None => True end.

Section Sessions.
Context {K M : Type} `{HashFunctions K} `{!HashTraits} (emptyValue : M).
Implicit Types (m : HashTable (K * M)).

(** An [AddResult] with the pair its iterator points to. *)
Definition addAnswer (r : option (option nat * bool * HashTable (K * M))) : option (mapAnswer K M * HashTable (K * M)) :=
  match r with
  | Some (Some i, isNewEntry, m) => match bucketAt i m with Some (ValueBucket kv) => Some (AnsAdded isNewEntry kv, m) | _ => None end
  | _ => None
  end.

Definition mapStep (op : mapOp K M) m : option (mapAnswer K M * HashTable (K * M)) :=
  match op with
  | OpAdd key mapped => addAnswer (hm_add key mapped m)
  | OpSet key mapped => addAnswer (hm_set key mapped m)
  | OpGet key => match hm_get emptyValue key m with Some v => Some (AnsValue v, m) | None => None end
  | OpContains key => match hm_contains key m with Some b => Some (AnsBool b, m) | None => None end
  | OpRemove key => match hm_remove key m with Some (b, m) => Some (AnsBool b, m) | None => None end
  | OpTake key => match hm_take emptyValue key m with Some (v, m) => Some (AnsValue v, m) | None => None end
  | OpClear => Some (AnsDone, hm_clear m)
  | OpSize => Some (AnsSize (hm_size m), m)
  | OpCopy => match copyTable m with Some m => Some (AnsDone, m) | None => None end
  end.

Fixpoint mapRun (ops : list (mapOp K M)) m : option (list (mapAnswer K M) * HashTable (K * M)) :=
  match ops with
  | [] => Some ([], m)
  | op :: ops =>
      match mapStep op m with
      | None => None
      | Some (a, m) => match mapRun ops m with None => None | Some (answers, m) => Some (a :: answers, m) end
      end
  end.

(** The finite map a [HashMap] stands for: the pair of each abstract key. *)
Context {A : Type} `{Countable A} (abs : K -> A).
Implicit Types (s : gmap A (K * M)).

Definition valueIn (key : K) s : M := from_option snd emptyValue (s !! abs key).

Definition specStep (op : mapOp K M) s : mapAnswer K M * gmap A (K * M) :=
  match op with
  | OpAdd key mapped =>
      match s !! abs key with
      | Some kv => (AnsAdded false kv, s)
      | None => (AnsAdded true (key, mapped), <[abs key := (key, mapped)]> s)
      end
  | OpSet key mapped =>
      match s !! abs key with
      | Some kv => (AnsAdded false (fst kv, mapped), <[abs key := (fst kv, mapped)]> s)
      | None => (AnsAdded true (key, mapped), <[abs key := (key, mapped)]> s)
      end
  | OpGet key => (AnsValue (valueIn key s), s)
  | OpContains key => (AnsBool (isPresent (s !! abs key)), s)
  | OpRemove key => (AnsBool (isPresent (s !! abs key)), delete (abs key) s)
  | OpTake key => (AnsValue (valueIn key s), delete (abs key) s)
  | OpClear => (AnsDone, ∅)
  | OpSize => (AnsSize (Z.of_nat (size s)), s)
  | OpCopy => (AnsDone, s)
  end.

Fixpoint specRun (ops : list (mapOp K M)) s : list (mapAnswer K M) * gmap A (K * M) :=
  match ops with
  | [] => ([], s)
  | op :: ops => let '(a, s) := specStep op s in let '(answers, s) := specRun ops s in (a :: answers, s)
  end.
End Sessions.

(** ** The operations of a map *)

Section MapSpec.
Context {K M : Type} `{HashFunctions K} `{!HashTraits} `{!HashTraitsOk} (emptyValue : M).
Context {A : Type} `{Countable A} (abs : K -> A) (code : A -> Z) (valid : K -> Prop) `{!HashFunctionsOk abs code valid}.
Implicit Types (m : HashTable (K * M)).
Abbreviation wf := (ht_wf (V := K * M) abs code valid).
Abbreviation asMap := (asMap (V := K * M) abs).

Definition stepOk (r : option (mapAnswer K M * HashTable (K * M))) m (spec : mapAnswer K M * gmap A (K * M)) : Prop :=
  exists a m', r = Some (a, m') /\ wf m' /\ m_keyCount m' <= m_keyCount m + 1 /\ spec = (a, asMap m').

Lemma stepOk_same a m : wf m -> stepOk (Some (a, m)) m (a, asMap m).
Proof. intros HW. exists a, m. split_and!; [done|done|lia|done]. Qed.

Lemma add_stepOk key mapped m : valid key -> wf m -> m_keyCount m < manyKeys -> stepOk (addAnswer (hm_add key mapped m)) m (specStep emptyValue abs (OpAdd key mapped) (asMap m)).
Proof.
  intros HV HW HM. pose proof (identityOk abs code valid key HV). destruct (add_spec abs code valid abs HashMapTranslator_translate key mapped m HW HM HV eq_refl) as (i & isNew & m' & EA & HA).
  pose proof (added_size abs code valid _ _ _ _ _ _ HW HA) as HS. destruct HA as (HW' & i' & w & -> & HB & HA).
  unfold hm_add, inlineAdd. rewrite EA. cbn [addAnswer specStep]. rewrite HB. exists (AnsAdded isNew w), m'. split_and!; try done.
  destruct (asMap m !! abs key); destruct HA as (-> & -> & ->); done.
Qed.

(** The entry of a new or an old key, and then the assignment to an old one. *)
Lemma set_stepOk key mapped m : valid key -> wf m -> m_keyCount m < manyKeys -> stepOk (addAnswer (hm_set key mapped m)) m (specStep emptyValue abs (OpSet key mapped) (asMap m)).
Proof.
  intros HV HW HM. pose proof (identityOk abs code valid key HV). destruct (add_spec abs code valid abs HashMapTranslator_translate key mapped m HW HM HV eq_refl) as (i & isNew & m' & EA & HA).
  pose proof (added_size abs code valid _ _ _ _ _ _ HW HA) as HS. destruct HA as (HW' & i' & w & -> & HB & HA).
  unfold hm_set, inlineSet, inlineAdd. rewrite EA. cbn [specStep]. destruct (asMap m !! abs key) as [kv|] eqn:EL; destruct HA as (-> & -> & EM); cbn [negb assignValue].
  - apply (asMap_lookup abs code valid) in EL as [HE EK]; [|done]. pose proof (proj1 (Forall_forall _ _) (elements_valid abs code valid m HW) kv HE) as HKV.
    destruct (replaceValue_spec abs code valid m' i' kv (fst kv, mapped) HKV HW' HB eq_refl) as (m2 & ER & HW2 & HB2 & EM2). rewrite HB, ER. cbn [addAnswer]. rewrite HB2.
    exists (AnsAdded false (fst kv, mapped)), m2. split_and!; try done; [|by rewrite EM2, EK, EM].
    unfold setBucket in ER. repeat case_match; simplify_eq. done.
  - cbn [addAnswer]. rewrite HB. exists (AnsAdded true (key, mapped)), m'. split_and!; [done..|by rewrite EM].
Qed.

(** What [find] gives. *)
Lemma find_cases key m : valid key -> wf m ->
  (hm_find key m = Some None /\ asMap m !! abs key = None) \/
  (exists i kv, hm_find key m = Some (Some i) /\ bucketAt i m = Some (ValueBucket kv) /\ asMap m !! abs key = Some kv).
Proof.
  intros HV HW. pose proof (identityOk abs code valid key HV). destruct (find_spec abs code valid abs key m HW) as ([i|] & EF & HR); [right|by left]. destruct HR as (kv & HB & HL). by exists i, kv.
Qed.
Lemma lookup_find key m : ht_lookup key m = hm_find key m.
Proof. unfold hm_find, ht_find, ht_lookup. by destruct (m_table m). Qed.
Lemma contains_find key m : hm_contains key m = match hm_find key m with Some it => Some (isPresent it) | None => None end.
Proof. unfold hm_contains, ht_contains, hm_find, ht_find. destruct (m_table m); [|done]. by destruct (ht_lookup key m). Qed.

(** [remove] and [take] of an entry. *)
Lemma remove_entry i key kv m : wf m -> m_keyCount m < manyKeys -> bucketAt i m = Some (ValueBucket kv) -> asMap m !! abs key = Some kv ->
  exists m', hm_removeIterator (Some i) m = Some (true, m') /\ wf m' /\ m_keyCount m' <= m_keyCount m + 1 /\ asMap m' = delete (abs key) (asMap m).
Proof.
  intros HW HM HB HL. destruct (removeEntry_spec abs code valid m i kv HW ltac:(lia) HB) as (m' & ER & HW' & EM).
  apply (asMap_lookup abs code valid) in HL as HK; [|done]. destruct HK as [_ HK]. rewrite HK in EM.
  exists m'. unfold hm_removeIterator. cbn [removeIterator]. rewrite ER. split_and!; try done.
  rewrite (asMap_size abs code valid m HW), (asMap_size abs code valid m' HW'), EM, map_size_delete_Some by done. lia.
Qed.

Lemma mapStep_ok op m : validOp valid op -> wf m -> m_keyCount m < manyKeys -> stepOk (mapStep emptyValue op m) m (specStep emptyValue abs op (asMap m)).
Proof.
  intros HV HW HM. destruct op as [key mapped|key mapped|key|key|key|key| | |]; [by apply add_stepOk|by apply set_stepOk|..]; cbn [mapStep specStep]; unfold valueIn.
  1-4: destruct (find_cases key m HV HW) as [[EF HL]|(i & kv & EF & HB & HL)]; rewrite HL.
  - unfold hm_get. rewrite lookup_find, EF. by apply stepOk_same.
  - unfold hm_get, hm_valueAt. rewrite lookup_find, EF, HB. by apply stepOk_same.
  - rewrite contains_find, EF. by apply stepOk_same.
  - rewrite contains_find, EF. by apply stepOk_same.
  - unfold hm_remove. rewrite EF, delete_id by done. by apply stepOk_same.
  - unfold hm_remove. rewrite EF. destruct (remove_entry i key kv m HW HM HB HL) as (m' & -> & HW' & HS & <-). by exists (AnsBool true), m'.
  - unfold hm_take. rewrite EF, delete_id by done. by apply stepOk_same.
  - unfold hm_take, hm_valueAt. rewrite EF, HB. destruct (remove_entry i key kv m HW HM HB HL) as (m' & -> & HW' & HS & <-). by exists (AnsValue kv.2), m'.
  - destruct (clear_spec abs code valid m HW) as [HW' EM]. exists AnsDone, (hm_clear m). unfold hm_clear. split_and!; [done|done| |by rewrite EM].
    rewrite (asMap_size abs code valid m HW), (asMap_size abs code valid _ HW'), EM, map_size_empty. lia.
  - unfold hm_size. rewrite (asMap_size abs code valid m HW). by apply stepOk_same.
  - destruct (copyTable_spec abs code valid m HW ltac:(lia)) as (m' & -> & HW' & EM). exists AnsDone, m'. split_and!; [done|done| |by rewrite EM].
    rewrite (asMap_size abs code valid m HW), (asMap_size abs code valid m' HW'), EM. lia.
Qed.

Lemma mapRun_ok ops : Forall (validOp valid) ops -> forall m, wf m -> m_keyCount m + Z.of_nat (length ops) <= manyKeys ->
  exists answers m', mapRun emptyValue ops m = Some (answers, m') /\ wf m' /\ m_keyCount m' <= manyKeys /\ specRun emptyValue abs ops (asMap m) = (answers, asMap m').
Proof.
  induction 1 as [|op ops HV _ IH]; intros m HW HM; cbn [mapRun specRun length] in *; [exists [], m; split_and!; [done|done|lia|done]|].
  destruct (mapStep_ok op m HV HW ltac:(lia)) as (a & m1 & -> & HW1 & HS & ->). destruct (IH m1 HW1 ltac:(lia)) as (answers & m' & -> & HW' & HK & ->).
  by exists (a :: answers), m'.
Qed.

(** ** Comparing and listing *)

Lemma equalLoop_spec `{EqDecision M} entries b : Forall (fun kv => valid (fst kv)) entries -> wf b ->
  hm_equalLoop (fun x y => bool_decide (x = y)) entries b = Some (bool_decide (Forall (fun kv => snd <$> asMap b !! abs (fst kv) = Some (snd kv)) entries)).
Proof.
  intros HVs HW. induction HVs as [|[key value] entries HV _ IH]; cbn [hm_equalLoop]; [by rewrite bool_decide_true by apply Forall_nil_2|].
  rewrite (bool_decide_ext _ _ (Forall_cons _ _ _)). cbn [fst snd]. destruct (find_cases key b HV HW) as [[-> HL]|(i & kv & -> & HB & HL)]; rewrite HL; cbn [fmap option_fmap option_map].
  - rewrite bool_decide_false; [done|by intros [? _]].
  - unfold hm_valueAt. rewrite HB. destruct (bool_decide_reflect (value = snd kv)) as [HE|HE]; cbn [negb].
    + rewrite IH. f_equal. apply bool_decide_ext. rewrite HE. tauto.
    + rewrite bool_decide_false; [done|]. intros [[= HX] _]. by destruct HE.
Qed.

(** A map whose values are all in a map of the same size is that map. *)
Lemma included_equal (s1 s2 : gmap A M) : size s1 = size s2 -> (forall κ x, s1 !! κ = Some x -> s2 !! κ = Some x) <-> s1 = s2.
Proof.
  intros HS. split; [|by intros ->]. intros HI. apply map_subseteq_size_eq; [|lia]. by apply map_subseteq_spec.
Qed.

Lemma equal_spec `{EqDecision M} a b : wf a -> wf b ->
  hm_equal (fun x y => bool_decide (x = y)) a b = Some (bool_decide (snd <$> asMap a = snd <$> asMap b)).
Proof.
  intros HA HB. unfold hm_equal, hm_size. rewrite (asMap_size abs code valid a HA), (asMap_size abs code valid b HB). destruct (Z.eqb_spec (Z.of_nat (size (asMap a))) (Z.of_nat (size (asMap b)))) as [HS|HS]; cbn [negb].
  - rewrite equalLoop_spec by (done || by apply (elements_valid abs code valid)). f_equal. apply bool_decide_ext. rewrite <- included_equal by (rewrite !map_size_fmap; lia). rewrite Forall_forall. split.
    + intros HF κ x. rewrite !lookup_fmap. intros (kv & HL & ->)%fmap_Some. apply (asMap_lookup abs code valid) in HL as [HE <-]; [|done]. exact (HF kv HE).
    + intros HF kv HE. specialize (HF (abs (fst kv)) (snd kv)). rewrite !lookup_fmap in HF. apply HF. apply fmap_Some. exists kv. split; [|done]. by apply (asMap_lookup abs code valid).
  - rewrite bool_decide_false; [done|]. intros HE. apply HS. rewrite <- !(map_size_fmap snd), HE. done.
Qed.

Lemma elements_size m : wf m -> m_keyCount m = Z.of_nat (length (ht_elements m)).
Proof. unfold ht_wf, ht_elements. destruct (m_table m); [intros [n []]; done|by intros (_ & _ & ->)]. Qed.
Lemma fillVector_all {B : Type} (blank : B) xs : fillVector (Z.of_nat (length xs)) blank xs = Some xs.
Proof. unfold fillVector. by rewrite Z.leb_refl, Nat2Z.id, Nat.sub_diag, app_nil_r. Qed.
Lemma copyVectors_spec (blankKey : K) (blankValue : M) m : wf m ->
  copyKeysToVector blankKey m = Some (map fst (ht_elements m)) /\ copyValuesToVector blankValue m = Some (map snd (ht_elements m)).
Proof.
  intros HW. unfold copyKeysToVector, copyValuesToVector, hm_size. rewrite (elements_size m HW). split; [rewrite <- (length_map fst) at 1|rewrite <- (length_map snd) at 1]; apply fillVector_all.
Qed.
End MapSpec.

(** C7: A [HashMap] is a finite map.  Every sequence of [add], [set], [get],
    [contains], [remove], [take], [clear], [size] and copying, of at most
    [manyKeys] operations on an empty [HashMap], runs to its end: no probing
    loop runs on, no assertion fails, no index is out of range.  Its answers
    are those of the same operations on a finite map from abstract keys to
    pairs, the table at the end holds that map, and [checkTableConsistency]
    holds of it.  The key type only has to hash and compare by its
    abstract key, for the keys that are valid ones. *)
Theorem hash_map_is_a_map {K M : Type} `{HashFunctions K} `{!HashTraits} `{!HashTraitsOk} (emptyValue : M)
    {A : Type} `{Countable A} (abs : K -> A) (code : A -> Z) (valid : K -> Prop) `{!HashFunctionsOk abs code valid} (ops : list (mapOp K M)) :
  Forall (validOp valid) ops -> Z.of_nat (length ops) <= manyKeys ->
  exists answers (m : HashTable (K * M)), mapRun emptyValue ops newHashTable = Some (answers, m) /\
    specRun emptyValue abs ops ∅ = (answers, asMap abs m) /\ checkTableConsistency m = true.
Proof.
  intros HV HL. assert (HW : ht_wf (V := K * M) abs code valid newHashTable) by done.
  destruct (mapRun_ok emptyValue abs code valid ops HV newHashTable HW) as (answers & m & ER & HW' & HK & ES); [cbn [newHashTable m_keyCount]; lia|].
  exists answers, m. split_and!; [done|done|by apply (consistency_spec abs code valid)].
Qed.

(** [operator==] of two [HashMap]s sees only the finite maps they stand for:
    after any two sequences of operations it ends, and is true when and only when
    the two maps have the same abstract keys with equal mapped values, however
    large the two tables are and whatever was added and removed on the way. *)
Theorem hash_maps_compare {K M : Type} `{HashFunctions K} `{!HashTraits} `{!HashTraitsOk} `{EqDecision M} (emptyValue : M)
    {A : Type} `{Countable A} (abs : K -> A) (code : A -> Z) (valid : K -> Prop) `{!HashFunctionsOk abs code valid} (ops1 ops2 : list (mapOp K M)) :
  Forall (validOp valid) ops1 -> Forall (validOp valid) ops2 -> Z.of_nat (length ops1) <= manyKeys -> Z.of_nat (length ops2) <= manyKeys ->
  exists answers1 m1 answers2 m2, mapRun emptyValue ops1 newHashTable = Some (answers1, m1) /\ mapRun emptyValue ops2 newHashTable = Some (answers2, m2) /\
    hm_equal (fun x y => bool_decide (x = y)) m1 m2 =
      Some (bool_decide (snd <$> snd (specRun emptyValue abs ops1 ∅) = snd <$> snd (specRun emptyValue abs ops2 ∅))).
Proof.
  intros HV1 HV2 HL1 HL2. assert (HW : ht_wf (V := K * M) abs code valid newHashTable) by done.
  destruct (mapRun_ok emptyValue abs code valid ops1 HV1 newHashTable HW) as (a1 & m1 & E1 & HW1 & _ & S1); [cbn [newHashTable m_keyCount]; lia|].
  destruct (mapRun_ok emptyValue abs code valid ops2 HV2 newHashTable HW) as (a2 & m2 & E2 & HW2 & _ & S2); [cbn [newHashTable m_keyCount]; lia|].
  exists a1, m1, a2, m2. split_and!; [done|done|]. unfold asMap in S1, S2 at 1. cbn in S1, S2. rewrite S1, S2. by apply (equal_spec abs code valid).
Qed.

(** ** The operations of a set *)

Lemma grow_set `{Countable A} (x : A) (S L : gset A) : x ∈ S /\ L ⊆ {[x]} ∪ S <-> {[x]} ∪ L ⊆ S.
Proof.
  rewrite union_subseteq, singleton_subseteq_l. split; intros [HX HL]; split; try done.
  - intros y HY. apply HL in HY as [->%elem_of_singleton|HY]%elem_of_union; done.
  - by etrans; [|apply union_subseteq_r].
Qed.

Section SetSpec.
Context {V : Type} `{HashFunctions V} `{!HashTraits} `{!HashTraitsOk}.
Context {A : Type} `{Countable A} (abs : V -> A) (code : A -> Z) (valid : V -> Prop) `{!HashFunctionsOk abs code valid}.
Implicit Types (s : HashTable V).
Abbreviation wf := (ht_wf (V := V) abs code valid).
Definition asSet s : gset A := dom (asMap (V := V) abs s).

(** Adding a range: whether any value was new, and the union. *)
Lemma addRange_spec values : Forall valid values -> forall changed s, wf s -> m_keyCount s + Z.of_nat (length values) <= manyKeys ->
  exists s', hs_addRange changed values s = Some (changed || negb (bool_decide (list_to_set (abs <$> values) ⊆ asSet s)), s') /\ wf s' /\
    asSet s' = asSet s ∪ list_to_set (abs <$> values).
Proof.
  induction 1 as [|v values HV _ IH]; intros changed s HW HM; cbn [hs_addRange fmap list_fmap list_to_set].
  { exists s. rewrite bool_decide_true, orb_false_r by apply empty_subseteq. split_and!; [done|done|by rewrite (right_id_L ∅ (∪))]. }
  cbn [length] in HM. destruct (addValue_spec (H0 := IdentityExtractor) abs code valid v s HV HW ltac:(lia)) as (i & isNew & s1 & EA & HA). unfold hs_add. rewrite EA.
  pose proof (added_size abs code valid _ _ _ _ _ _ HW HA) as HS. destruct HA as (HW1 & i' & w & _ & _ & HA). destruct (IH (changed || isNew) s1 HW1 ltac:(lia)) as (s' & -> & HW' & ES).
  change (keyOf abs v) with (abs v) in HA. assert (HD : asSet s1 = {[abs v]} ∪ asSet s /\ isNew = negb (bool_decide (abs v ∈ asSet s))).
  { unfold asSet. destruct (asMap abs s !! abs v) eqn:EL; destruct HA as (-> & _ & ->).
    - assert (HVd : abs v ∈ dom (asMap abs s)) by by apply elem_of_dom. rewrite bool_decide_true by done. split; [|done].
      symmetry. apply subseteq_union_1_L, singleton_subseteq_l, HVd.
    - rewrite bool_decide_false by by apply not_elem_of_dom. by rewrite dom_insert_L. }
  destruct HD as [ED ->]. exists s'. rewrite ES, ED. split_and!; [|done|by rewrite (comm_L (∪) {[abs v]}), (assoc_L (∪))]. do 2 f_equal. rewrite <- orb_assoc. f_equal. rewrite <- negb_andb, <- bool_decide_and. f_equal.
  apply bool_decide_ext, grow_set.
Qed.

Lemma set_find value s : valid value -> wf s ->
  (hs_find value s = Some None /\ abs value ∉ asSet s) \/
  (exists i v, hs_find value s = Some (Some i) /\ bucketAt i s = Some (ValueBucket v) /\ abs v = abs value /\ abs value ∈ asSet s).
Proof.
  intros HV HW. pose proof (identityOk abs code valid value HV). unfold asSet. destruct (find_spec abs code valid abs value s HW) as ([i|] & EF & HR).
  - right. destruct HR as (v & HB & HL). exists i, v. split_and!; try done; [by apply (asMap_lookup abs code valid) in HL as [_ ?]|]. apply elem_of_dom. by exists v.
  - left. split; [done|]. by apply not_elem_of_dom.
Qed.

Lemma set_contains value s : valid value -> wf s -> hs_contains value s = Some (bool_decide (abs value ∈ asSet s)).
Proof.
  intros HV HW. assert (E : hs_contains value s = match hs_find value s with Some it => Some (isPresent it) | None => None end).
  { unfold hs_contains, ht_contains, hs_find, ht_find. destruct (m_table s); [|done]. by destruct (ht_lookup value s). }
  rewrite E. destruct (set_find value s HV HW) as [[-> HN]|(i & v & -> & _ & _ & HI)]; [by rewrite bool_decide_false|by rewrite bool_decide_true].
Qed.

(** [remove] and [take]: whether the value was there, which object it was, and the rest. *)
Lemma set_take emptyValue value s : valid value -> wf s -> m_keyCount s <= manyKeys ->
  exists s' v, hs_remove value s = Some (bool_decide (abs value ∈ asSet s), s') /\ hs_take emptyValue value s = Some (v, s') /\ wf s' /\
    asSet s' = asSet s ∖ {[abs value]} /\ (if bool_decide (abs value ∈ asSet s) then v ∈ ht_elements s /\ abs v = abs value else v = emptyValue).
Proof.
  intros HV HW HM. unfold hs_remove, hs_take. destruct (set_find value s HV HW) as [[-> HN]|(i & v & -> & HB & HK & HI)].
  - exists s, emptyValue. rewrite bool_decide_false by done. cbn [hs_removeIterator]. split_and!; try done. symmetry. apply difference_disjoint_L. set_solver.
  - destruct (removeEntry_spec abs code valid s i v HW HM HB) as (s' & ER & HW' & EM). exists s', v. rewrite HB, bool_decide_true by done. unfold hs_removeIterator. cbn [removeIterator]. rewrite ER.
    split_and!; try done; [|by apply (entry_elem s i)]. unfold asSet. rewrite EM, dom_delete_L. change (keyOf abs v) with (abs v). by rewrite HK.
Qed.

Lemma containsAll_spec values s : Forall valid values -> wf s -> hs_containsAll values s = Some (bool_decide (Forall (fun v => abs v ∈ asSet s) values)).
Proof.
  intros HVs HW. induction HVs as [|v values HV _ IH]; cbn [hs_containsAll]; [by rewrite bool_decide_true by apply Forall_nil_2|].
  rewrite (bool_decide_ext _ _ (Forall_cons _ _ _)), set_contains, bool_decide_and, IH by done. by destruct (bool_decide (abs v ∈ asSet s)).
Qed.

(** Sets are equal when they have the same abstract values. *)
Theorem set_equal_spec a b : wf a -> wf b -> hs_equal a b = Some (bool_decide (asSet a = asSet b)).
Proof.
  intros HA HB. unfold hs_equal, hs_size. rewrite (asMap_size abs code valid a HA), (asMap_size abs code valid b HB). unfold asSet. rewrite <- !size_dom.
  destruct (Z.eqb_spec (Z.of_nat (size (dom (asMap abs a)))) (Z.of_nat (size (dom (asMap abs b))))) as [HS|HS]; cbn [negb].
  - rewrite containsAll_spec by (done || by apply (elements_valid abs code valid)). f_equal. apply bool_decide_ext. rewrite Forall_forall. unfold asSet. split.
    + intros HF. apply set_subseteq_size_eq; [|lia]. intros κ [v HL]%elem_of_dom. apply (asMap_lookup abs code valid) in HL as [HE <-]; [|done]. by apply HF.
    + intros <- v HE. apply elem_of_dom. exists v. by apply (asMap_lookup abs code valid).
  - rewrite bool_decide_false; [done|]. intros HE. apply HS. by rewrite HE.
Qed.
End SetSpec.


(** Keys that share buckets, growth, reuse of a deleted bucket, a copy and a
    table that shrinks. *)
Definition sampleOps : list (mapOp Z string) :=
  [OpAdd 1 "a"; OpAdd 2 "b"; OpAdd 3 "c"; OpAdd 4 "d"; OpAdd 5 "e"; OpSet 2 "B"; OpAdd 2 "x"; OpGet 2; OpRemove 3; OpContains 3; OpTake 4; OpAdd 3 "C"; OpCopy; OpSize;
   OpRemove 1; OpRemove 2; OpRemove 3; OpGet 5; OpClear; OpGet 5; OpAdd 9 "z"].

#[local] Existing Instances IntHash IntHash_ok GenericHashTraits GenericHashTraits_ok.

Lemma hash_map_is_a_map_witness :
  exists answers (m : HashTable (Z * string)), mapRun EmptyString sampleOps newHashTable = Some (answers, m) /\
    specRun EmptyString id sampleOps ∅ = (answers, asMap id m) /\ checkTableConsistency m = true.
Proof. apply (hash_map_is_a_map EmptyString id (fun key => intHash32 (uint32 key)) (fun _ => True) sampleOps); [repeat constructor|vm_compute; discriminate]. Defined.

Lemma hash_maps_compare_witness :
  exists answers1 m1 answers2 m2, mapRun EmptyString sampleOps newHashTable = Some (answers1, m1) /\ mapRun EmptyString [OpSet 9 "y"; OpSet 9 "z"] newHashTable = Some (answers2, m2) /\
    hm_equal (fun x y => bool_decide (x = y)) m1 m2 =
      Some (bool_decide (snd <$> snd (specRun EmptyString id sampleOps ∅) = snd <$> snd (specRun EmptyString id [OpSet 9 "y"; OpSet 9 "z"] ∅))).
Proof. apply (hash_maps_compare EmptyString id (fun key => intHash32 (uint32 key)) (fun _ => True) sampleOps [OpSet 9 "y"; OpSet 9 "z"]);
    [repeat constructor|repeat constructor|vm_compute; discriminate..].
Defined.
