(* ===== verification/StringHasher.v ===== *)
(** * The hash code of a string

    [wtf/StringHasher.h] (Paul Hsieh's hash, two characters at a time) and
    [AlreadyHashed] of [wtf/text/StringHash.h].  Characters of 8 bits are
    widened to 16 ([defaultConverter]), so a text is a list of numbers.  A
    function that asserts gives [None] when the assertion fails. *)

From S2P Require Import Prelude.
Open Scope Z_scope.

Definition stringHashingStartValue : Z := 0x9E3779B9.
Definition flagCount : Z := 8.

Record StringHasher := mkStringHasher {
  m_hash : Z;
  m_hasPendingCharacter : bool;
  m_pendingCharacter : UChar
}.

Definition newStringHasher : StringHasher := mkStringHasher stringHashingStartValue false 0.

(** The step for a pair of characters. *)
Definition mixPair (hash : Z) (a b : UChar) : Z :=
  let hash := uint32 (hash + a) in
  let hash := Z.lxor (uint32 (Z.shiftl hash 16)) (Z.lxor (Z.shiftl b 11) hash) in
  uint32 (hash + Z.shiftr hash 11).

Definition addPairAssumingAligned (a b : UChar) (s : StringHasher) : option StringHasher :=
  if m_hasPendingCharacter s then None else Some (mkStringHasher (mixPair (m_hash s) a b) (m_hasPendingCharacter s) (m_pendingCharacter s)).

Definition addCharacter (character : UChar) (s : StringHasher) : option StringHasher :=
  if m_hasPendingCharacter s
  then addPairAssumingAligned (m_pendingCharacter s) character (mkStringHasher (m_hash s) false (m_pendingCharacter s))
  else Some (mkStringHasher (m_hash s) true character).

(** [addCharacters(a, b)] *)
Definition addPair (a b : UChar) (s : StringHasher) : option StringHasher :=
  if m_hasPendingCharacter s
  then s ← addPairAssumingAligned (m_pendingCharacter s) a (mkStringHasher (m_hash s) false (m_pendingCharacter s));
       Some (mkStringHasher (m_hash s) true b)
  else addPairAssumingAligned a b s.

Section Converted.
Context {T : Type} (Converter : T -> UChar).

(** [while (length--)] and the remainder. *)
Fixpoint alignedLoop (data : list T) (s : StringHasher) : option StringHasher :=
  match data with
  | a :: b :: data => s ← addPairAssumingAligned (Converter a) (Converter b) s; alignedLoop data s
  | [a] => addCharacter (Converter a) s
  | [] => Some s
  end.
Definition addCharactersAssumingAligned (data : list T) (s : StringHasher) : option StringHasher :=
  if m_hasPendingCharacter s then None else alignedLoop data s.

Definition addCharacters (data : list T) (s : StringHasher) : option StringHasher :=
  match data with
  | a :: rest =>
      if m_hasPendingCharacter s
      then s ← addPairAssumingAligned (m_pendingCharacter s) (Converter a) (mkStringHasher (m_hash s) false (m_pendingCharacter s));
           addCharactersAssumingAligned rest s
      else addCharactersAssumingAligned data s
  | [] => addCharactersAssumingAligned data s
  end.

(** Without a length the data ends with a zero, which a list may also leave out. *)
Variable isZero : T -> bool.

Fixpoint terminatedLoop (data : list T) (s : StringHasher) : option StringHasher :=
  match data with
  | [] => Some s
  | a :: data =>
      if isZero a then Some s
      else
        match data with
        | [] => addCharacter (Converter a) s
        | b :: data =>
            if isZero b then addCharacter (Converter a) s
            else s ← addPairAssumingAligned (Converter a) (Converter b) s; terminatedLoop data s
        end
  end.
Definition addTerminatedAssumingAligned (data : list T) (s : StringHasher) : option StringHasher :=
  if m_hasPendingCharacter s then None else terminatedLoop data s.

Definition addTerminated (data : list T) (s : StringHasher) : option StringHasher :=
  match data with
  | a :: rest =>
      if m_hasPendingCharacter s && negb (isZero a)
      then s ← addPairAssumingAligned (m_pendingCharacter s) (Converter a) (mkStringHasher (m_hash s) false (m_pendingCharacter s));
           addTerminatedAssumingAligned rest s
      else addTerminatedAssumingAligned data s
  | [] => addTerminatedAssumingAligned data s
  end.
End Converted.

(** ** The code *)

Definition avalancheBits (s : StringHasher) : Z :=
  let result := m_hash s in
  let result :=
    if m_hasPendingCharacter s then
      let result := uint32 (result + m_pendingCharacter s) in
      let result := Z.lxor result (uint32 (Z.shiftl result 11)) in
      uint32 (result + Z.shiftr result 17)
    else result in
  let result := Z.lxor result (uint32 (Z.shiftl result 3)) in
  let result := uint32 (result + Z.shiftr result 5) in
  let result := Z.lxor result (uint32 (Z.shiftl result 2)) in
  let result := uint32 (result + Z.shiftr result 15) in
  Z.lxor result (uint32 (Z.shiftl result 10)).

Definition hashWithTop8BitsMasked (s : StringHasher) : Z :=
  let result := Z.land (avalancheBits s) (2 ^ (32 - flagCount) - 1) in
  if result =? 0 then Z.shiftr 0x80000000 flagCount else result.

Definition hasher_hash (s : StringHasher) : Z :=
  let result := avalancheBits s in if result =? 0 then 0x80000000 else result.

Section Codes.
Context {T : Type} (Converter : T -> UChar) (isZero : T -> bool).

Definition computeHashAndMaskTop8Bits (data : list T) : option Z :=
  hasher ← addCharactersAssumingAligned Converter data newStringHasher; Some (hashWithTop8BitsMasked hasher).
Definition computeTerminatedHashAndMaskTop8Bits (data : list T) : option Z :=
  hasher ← addTerminatedAssumingAligned Converter isZero data newStringHasher; Some (hashWithTop8BitsMasked hasher).
Definition computeHash (data : list T) : option Z :=
  hasher ← addCharactersAssumingAligned Converter data newStringHasher; Some (hasher_hash hasher).
Definition computeTerminatedHash (data : list T) : option Z :=
  hasher ← addTerminatedAssumingAligned Converter isZero data newStringHasher; Some (hasher_hash hasher).
End Codes.

(** A [UChar] in memory, low byte first. *)
Fixpoint memoryUnits (data : list Z) : list UChar :=
  match data with
  | low :: high :: data => low + high * 2 ^ 8 :: memoryUnits data
  | _ => []
  end.
Definition hashMemory (data : list Z) : option Z :=
  if (length data mod 2 =? 0)%nat then computeHashAndMaskTop8Bits id (memoryUnits data) else None.

(** ** [AlreadyHashed] *)

Definition avoidDeletedValue (hash : Z) : option Z :=
  if hash =? 0 then None
  else
    let newHash := Z.lor hash (Z.shiftl (if uint32 (hash + 1) =? 0 then 1 else 0) 31) in
    if newHash =? 0 then None else if newHash =? 0xFFFFFFFF then None else Some newHash.
