(* ===== verification/StringHasherSpec.v ===== *)
(** * The hash code depends on the text only

    However a text is cut into pieces, and with whichever functions the pieces
    are added, the code is that of the text; it is never zero. *)

From S2P Require Import Prelude StringHasher.
Open Scope Z_scope.

(** ** What a hasher has seen *)

(** The hash of the pairs and the character that waits for another one; a
    character that no longer waits is not looked at. *)
Definition view (s : StringHasher) : Z * option UChar := (m_hash s, if m_hasPendingCharacter s then Some (m_pendingCharacter s) else None).

Definition absorb (v : Z * option UChar) (c : UChar) : Z * option UChar :=
  match v with
  | (hash, Some p) => (mixPair hash p c, None)
  | (hash, None) => (hash, Some c)
  end.
Definition absorbAll (v : Z * option UChar) (text : list UChar) : Z * option UChar := fold_left absorb text v.

Lemma absorbAll_app v t1 t2 : absorbAll v (t1 ++ t2) = absorbAll (absorbAll v t1) t2.
Proof. apply fold_left_app. Qed.

(** A function that adds a text. *)
Definition adds (f : StringHasher -> option StringHasher) (s : StringHasher) (text : list UChar) : Prop :=
  exists s', f s = Some s' /\ view s' = absorbAll (view s) text.

Lemma view_aligned s : m_hasPendingCharacter s = false -> view s = (m_hash s, None).
Proof. unfold view. by intros ->. Qed.

Lemma addCharacter_adds c s : adds (addCharacter c) s [c].
Proof. destruct s as [h [] p]; eexists; split; reflexivity. Qed.
Lemma addPairAligned_adds a b s : m_hasPendingCharacter s = false -> adds (addPairAssumingAligned a b) s [a; b].
Proof. destruct s as [h [] p]; [done|]. intros _. eexists; split; reflexivity. Qed.
Lemma addPair_adds a b s : adds (addPair a b) s [a; b].
Proof. destruct s as [h [] p]; eexists; split; reflexivity. Qed.

Section Converted.
Context {T : Type} (Converter : T -> UChar) (isZero : T -> bool).

Lemma pairAligned_still a b s s' : addPairAssumingAligned a b s = Some s' -> m_hasPendingCharacter s' = false.
Proof. unfold addPairAssumingAligned. destruct (m_hasPendingCharacter s) eqn:E; [done|]. by intros [= <-]. Qed.

Lemma alignedLoop_adds data : forall s, m_hasPendingCharacter s = false -> adds (alignedLoop Converter data) s (map Converter data).
Proof.
  induction data as [data IH] using (induction_ltof1 _ (@length T)). intros s HP. destruct data as [|a [|b data]]; cbn [alignedLoop map].
  - by exists s.
  - apply addCharacter_adds.
  - destruct (addPairAligned_adds (Converter a) (Converter b) s HP) as (s1 & E1 & V1). unfold adds. rewrite E1. cbn [mbind option_bind].
    destruct (IH data ltac:(unfold ltof; cbn; lia) s1 (pairAligned_still _ _ _ _ E1)) as (s2 & E2 & V2).
    exists s2. split; [exact E2|]. by rewrite V2, V1.
Qed.

Lemma addCharactersAligned_adds data s : m_hasPendingCharacter s = false -> adds (addCharactersAssumingAligned Converter data) s (map Converter data).
Proof. intros HP. unfold adds, addCharactersAssumingAligned. rewrite HP. by apply alignedLoop_adds. Qed.

(** The pending character is completed first. *)
Lemma complete_adds a s : m_hasPendingCharacter s = true ->
  exists s', addPairAssumingAligned (m_pendingCharacter s) a (mkStringHasher (m_hash s) false (m_pendingCharacter s)) = Some s' /\
    m_hasPendingCharacter s' = false /\ view s' = absorb (view s) a.
Proof. destruct s as [h [] p]; [|done]. intros _. eexists. split; [reflexivity|]. done. Qed.

(** An empty piece needs a hasher without a pending character. *)
Lemma addCharacters_adds data s : data <> [] \/ m_hasPendingCharacter s = false -> adds (addCharacters Converter data) s (map Converter data).
Proof.
  intros HE. unfold adds, addCharacters. destruct (m_hasPendingCharacter s) eqn:HP.
  - destruct data as [|a data]; [by destruct HE|]. destruct (complete_adds (Converter a) s HP) as (s1 & -> & HP1 & V1). cbn [mbind option_bind].
    destruct (addCharactersAligned_adds data s1 HP1) as (s2 & E2 & V2). exists s2. split; [exact E2|]. by rewrite V2, V1.
  - destruct data; by apply addCharactersAligned_adds.
Qed.

(** The text before the zero. *)
Fixpoint beforeZero (data : list T) : list T := match data with [] => [] | a :: data => if isZero a then [] else a :: beforeZero data end.

Lemma terminatedLoop_adds data : forall s, m_hasPendingCharacter s = false -> adds (terminatedLoop Converter isZero data) s (map Converter (beforeZero data)).
Proof.
  induction data as [data IH] using (induction_ltof1 _ (@length T)). intros s HP. destruct data as [|a data]; cbn [terminatedLoop beforeZero map]; [by exists s|].
  destruct (isZero a); [by exists s|]. destruct data as [|b data]; cbn [beforeZero map]; [apply addCharacter_adds|]. destruct (isZero b); [apply addCharacter_adds|].
  destruct (addPairAligned_adds (Converter a) (Converter b) s HP) as (s1 & E1 & V1). unfold adds. rewrite E1. cbn [mbind option_bind map].
  destruct (IH data ltac:(unfold ltof; cbn; lia) s1 (pairAligned_still _ _ _ _ E1)) as (s2 & E2 & V2). exists s2. split; [exact E2|]. by rewrite V2, V1.
Qed.
Lemma addTerminatedAligned_adds data s : m_hasPendingCharacter s = false -> adds (addTerminatedAssumingAligned Converter isZero data) s (map Converter (beforeZero data)).
Proof. intros HP. unfold adds, addTerminatedAssumingAligned. rewrite HP. by apply terminatedLoop_adds. Qed.

Lemma addTerminated_adds data s : beforeZero data <> [] \/ m_hasPendingCharacter s = false -> adds (addTerminated Converter isZero data) s (map Converter (beforeZero data)).
Proof.
  intros HE. unfold adds, addTerminated. destruct (m_hasPendingCharacter s) eqn:HP; cbn [andb].
  - destruct data as [|a data]; [by destruct HE|]. cbn [beforeZero] in *. destruct (isZero a); [by destruct HE|]. cbn [negb map].
    destruct (complete_adds (Converter a) s HP) as (s1 & -> & HP1 & V1). cbn [mbind option_bind].
    destruct (addTerminatedAligned_adds data s1 HP1) as (s2 & E2 & V2). exists s2. split; [exact E2|]. by rewrite V2, V1.
  - destruct data; by apply addTerminatedAligned_adds.
Qed.
End Converted.

(** ** The code of a text *)

Definition hasherOf (v : Z * option UChar) : StringHasher := mkStringHasher (fst v) (match snd v with Some _ => true | None => false end) (default 0 (snd v)).
Definition textHasher (text : list UChar) : StringHasher := hasherOf (absorbAll (stringHashingStartValue, None) text).
(** The canonical hash code, of 24 bits. *)
Definition textHash (text : list UChar) : Z := hashWithTop8BitsMasked (textHasher text).

Lemma avalanche_view s s' : view s = view s' -> avalancheBits s = avalancheBits s'.
Proof. destruct s as [h [] p], s' as [h' [] p']; cbn; intros [=]; by subst. Qed.
Lemma code_view s text : view s = absorbAll (view newStringHasher) text ->
  hashWithTop8BitsMasked s = textHash text /\ hasher_hash s = hasher_hash (textHasher text).
Proof.
  intros HV. assert (HA : avalancheBits s = avalancheBits (textHasher text)).
  { apply avalanche_view. rewrite HV. change (view newStringHasher) with (stringHashingStartValue, @None UChar). unfold textHasher, view, hasherOf. by destruct (absorbAll _ text) as [h [c|]]. }
  unfold textHash, hashWithTop8BitsMasked, hasher_hash. by rewrite HA.
Qed.

Lemma textHash_range text : 0 < textHash text < 2 ^ 24.
Proof.
  unfold textHash, hashWithTop8BitsMasked. generalize (avalancheBits (textHasher text)). intros z. change (2 ^ (32 - flagCount) - 1) with (Z.ones 24). rewrite Z.land_ones by lia.
  pose proof (Z.mod_pos_bound z (2 ^ 24) ltac:(lia)). destruct (Z.eqb_spec (z mod 2 ^ 24) 0); [change (Z.shiftr 0x80000000 flagCount) with 8388608; lia|lia].
Qed.

Section Computed.
Context {T : Type} (Converter : T -> UChar) (isZero : T -> bool).

Lemma computeHash_text data : computeHashAndMaskTop8Bits Converter data = Some (textHash (map Converter data)).
Proof.
  unfold computeHashAndMaskTop8Bits. destruct (addCharactersAligned_adds Converter data newStringHasher eq_refl) as (s & -> & HV). cbn. f_equal. by apply code_view.
Qed.
Lemma computeTerminatedHash_text data : computeTerminatedHashAndMaskTop8Bits Converter isZero data = Some (textHash (map Converter (beforeZero isZero data))).
Proof.
  unfold computeTerminatedHashAndMaskTop8Bits. destruct (addTerminatedAligned_adds Converter isZero data newStringHasher eq_refl) as (s & -> & HV). cbn. f_equal. by apply code_view.
Qed.
End Computed.

(** ** Pieces *)

Inductive piece :=
  | PieceCharacter (character : UChar)
  | PiecePair (a b : UChar)
  | PieceCharacters (data : list UChar)
  | PieceTerminated (data : list UChar).

Definition isNul (c : UChar) : bool := c =? 0.
Definition addPiece (p : piece) : StringHasher -> option StringHasher :=
  match p with
  | PieceCharacter c => addCharacter c
  | PiecePair a b => addPair a b
  | PieceCharacters data => addCharacters id data
  | PieceTerminated data => addTerminated id isNul data
  end.
Fixpoint addPieces (ps : list piece) (s : StringHasher) : option StringHasher :=
  match ps with
  | [] => Some s
  | p :: ps => s ← addPiece p s; addPieces ps s
  end.

Definition pieceText (p : piece) : list UChar :=
  match p with
  | PieceCharacter c => [c]
  | PiecePair a b => [a; b]
  | PieceCharacters data => data
  | PieceTerminated data => beforeZero isNul data
  end.

Lemma addPiece_adds p s : pieceText p <> [] -> adds (addPiece p) s (pieceText p).
Proof.
  destruct p as [c|a b|data|data]; cbn [pieceText]; intros HE.
  - apply addCharacter_adds.
  - apply addPair_adds.
  - rewrite <- (map_id data) at 2. apply addCharacters_adds. by left.
  - rewrite <- (map_id (beforeZero isNul data)). apply addTerminated_adds. by left.
Qed.
Lemma addPieces_adds ps : forall s, Forall (fun p => pieceText p <> []) ps -> adds (addPieces ps) s (concat (map pieceText ps)).
Proof.
  induction ps as [|p ps IH]; intros s HF; [by exists s|]. apply Forall_cons in HF as [HP HF]. unfold adds. cbn [addPieces map concat].
  destruct (addPiece_adds p s HP) as (s1 & -> & V1). cbn [mbind option_bind]. destruct (IH s1 HF) as (s2 & E2 & V2). exists s2. split; [exact E2|]. by rewrite absorbAll_app, V2, V1.
Qed.

(** The hash code of a string depends on its text only.  A text may be added
    character by character, in pairs, in runs with a length or in runs that end with a
    zero, in any order and at odd and even positions: the hasher ends in a state with the
    code that [computeHashAndMaskTop8Bits] and [computeHash] give for the whole text at once.
    The masked code fits in 24 bits, which leaves room for the flags of [StringImpl], and is never zero. *)
Theorem string_hash_of_pieces (ps : list piece) :
  Forall (fun p => pieceText p <> []) ps ->
  let text := concat (map pieceText ps) in
  exists s, addPieces ps newStringHasher = Some s /\
    computeHashAndMaskTop8Bits id text = Some (hashWithTop8BitsMasked s) /\ computeHash id text = Some (hasher_hash s) /\
    0 < hashWithTop8BitsMasked s < 2 ^ 24 /\ hasher_hash s <> 0.
Proof.
  intros HF text. destruct (addPieces_adds ps newStringHasher HF) as (s & E & HV). fold text in HV. destruct (code_view s text HV) as [EM EH]. exists s. split; [done|].
  destruct (addCharactersAligned_adds id text newStringHasher eq_refl) as (s1 & E1 & V1). rewrite map_id in V1. destruct (code_view s1 text V1) as [EM1 EH1].
  unfold computeHashAndMaskTop8Bits, computeHash. rewrite E1. cbn [mbind option_bind]. rewrite EM, EH, EM1, EH1. split_and!; [done|done|apply textHash_range|apply textHash_range|].
  unfold hasher_hash. generalize (avalancheBits (textHasher text)). intros z. by destruct (Z.eqb_spec z 0).
Qed.

Lemma string_hash_of_pieces_witness :
  let ps := [PieceCharacter 0x41; PieceCharacters [0x95; 0xFF]; PiecePair 0x50 0x01; PieceTerminated [0x42; 0]] in
  exists s, addPieces ps newStringHasher = Some s /\
    computeHashAndMaskTop8Bits id (concat (map pieceText ps)) = Some (hashWithTop8BitsMasked s) /\ computeHash id (concat (map pieceText ps)) = Some (hasher_hash s) /\
    0 < hashWithTop8BitsMasked s < 2 ^ 24 /\ hasher_hash s <> 0.
Proof.
  intros ps. apply (string_hash_of_pieces ps). repeat (apply Forall_cons_2; [vm_compute; discriminate|]). apply Forall_nil_2.
Defined.

(** The codes of [Tests/WTF/StringHasher.cpp]. *)
Example computeHash_tests :
  map (fun text => computeHash id text) [[]; [0]; [0x41]; [0x41; 0x95]; [0x41; 0x95; 0xFF]; [0x41; 0x95; 0xFF; 0x50]; [0x41; 0x95; 0xFF; 0x50; 0x01]; [0x41; 0x95; 0xFFFF; 0x1080; 0x01]] =
  map Some [0x4EC889E; 0x3D3ABF44; 0xEA32B004; 0x93F0F71E; 0xCB609EB1; 0x7984A706; 0x0427561F; 0x79201649].
Proof. vm_compute. reflexivity. Qed.

(** ** Two assertions that fail *)

(** An empty piece after an odd number of characters. *)
Theorem empty_piece_asserts s : m_hasPendingCharacter s = true -> addCharacters id [] s = None /\ addTerminated id isNul [0] s = None.
Proof. intros HP. unfold addCharacters, addTerminated, addCharactersAssumingAligned, addTerminatedAssumingAligned. by rewrite HP. Qed.

(** [avoidDeletedValue] sets a bit that is already set: the deleted value stays
    what it is, and the assertion on the result fails. *)
Theorem avoidDeletedValue_changes_nothing hash : 0 < hash < 2 ^ 32 -> avoidDeletedValue hash = if hash =? 0xFFFFFFFF then None else Some hash.
Proof.
  intros HR. unfold avoidDeletedValue. rewrite (proj2 (Z.eqb_neq hash 0)) by lia. destruct (Z.eqb_spec hash 0xFFFFFFFF) as [->|HN]; [reflexivity|].
  unfold uint32. rewrite Z.mod_small by lia. rewrite (proj2 (Z.eqb_neq (hash + 1) 0)) by lia. cbn [Z.shiftl Z.iter]. rewrite Z.lor_0_r.
  rewrite (proj2 (Z.eqb_neq hash 0)) by lia. by rewrite (proj2 (Z.eqb_neq hash _)).
Qed.
