(* ===== verification/StringEqual.v ===== *)
(** * Comparing strings

    The [equal] functions of [wtf/text/StringImpl.h] and
    [wtf/text/StringImpl.cpp]: several characters at a time on the machines
    that allow it, for strings of 8 and 16 bit characters.  Characters are read
    from a list, and a read past its end has no result ([None]). *)

From S2P Require Import Prelude.
Open Scope Z_scope.

(** ** Comparing memory *)

(** [count] characters of [bits] bits as one number, the first one in the low
    bits. *)
Definition loadChars (bits : Z) (count : nat) (p : list Z) : option Z :=
  if (count <=? length p)%nat then Some (fold_right (fun c rest => c + rest * 2 ^ bits) 0 (take count p)) else None.

(** The comparison of one chunk: [Some None] when it differs, otherwise the two
    advanced pointers. *)
Definition chunk (bits : Z) (count : nat) (ab : list Z * list Z) : option (option (list Z * list Z)) :=
  x ← loadChars bits count (fst ab);
  y ← loadChars bits count (snd ab);
  Some (if negb (x =? y) then None else Some (drop count (fst ab), drop count (snd ab))).

Fixpoint chunks (bits : Z) (count n : nat) (ab : list Z * list Z) : option (option (list Z * list Z)) :=
  match n with
  | O => Some (Some ab)
  | S n => r ← chunk bits count ab; match r with None => Some None | Some ab => chunks bits count n ab end
  end.

Definition chunkIf (condition : bool) (bits : Z) (count : nat) (r : option (option (list Z * list Z))) : option (option (list Z * list Z)) :=
  ab ← r; match ab with None => Some None | Some ab => if condition then chunk bits count ab else Some (Some ab) end.

Definition verdict (r : option (option (list Z * list Z))) : option bool :=
  ab ← r; Some (match ab with None => false | Some _ => true end).

(** [CPU(X86_64) || CPU(ARM64)] *)
Definition equalLChars64 (a b : list LChar) (length : nat) : option bool :=
  let r := chunks 8 8 (Nat.shiftr length 3) (a, b) in
  let r := chunkIf (Nat.testbit length 2) 8 4 r in
  let r := chunkIf (Nat.testbit length 1) 8 2 r in
  verdict (chunkIf (Nat.testbit length 0) 8 1 r).

Definition equalUChars64 (a b : list UChar) (length : nat) : option bool :=
  let r := chunks 16 4 (Nat.shiftr length 2) (a, b) in
  let r := chunkIf (Nat.testbit length 1) 16 2 r in
  verdict (chunkIf (Nat.testbit length 0) 16 1 r).

(** [a[i] != b[i]] for all [i]; a character of 8 bits is widened. *)
Definition equalLoop (a b : list Z) (length : nat) : option bool := verdict (chunks 16 1 length (a, b)).

(** [CPU(X86)] *)
Definition equalLChars32 (a b : list LChar) (length : nat) : option bool :=
  ab ← chunks 8 4 (Nat.shiftr length 2) (a, b);
  match ab with None => Some false | Some ab => verdict (chunks 8 1 (Nat.land length 3) ab) end.

Definition equalUChars32 (a b : list UChar) (length : nat) : option bool :=
  verdict (chunkIf (Nat.testbit length 0) 16 1 (chunks 16 2 (Nat.shiftr length 1) (a, b))).

(** ** They compare the characters *)

Definition charsOf (bits : Z) (p : list Z) : Prop := Forall (fun c => 0 <= c < 2 ^ bits) p.

Lemma load_nonneg bits p : 0 <= bits -> charsOf bits p -> 0 <= fold_right (fun c rest => c + rest * 2 ^ bits) 0 p.
Proof. intros HB HC. induction HC as [|c p [? ?] HC IH]; cbn; [lia|]. assert (0 < 2 ^ bits) by lia. nia. Qed.

Lemma load_inj bits p : 0 <= bits -> charsOf bits p -> forall q, charsOf bits q -> length p = length q ->
  fold_right (fun c rest => c + rest * 2 ^ bits) 0 p = fold_right (fun c rest => c + rest * 2 ^ bits) 0 q -> p = q.
Proof.
  intros HB HP. induction HP as [|c p HC HP IH]; intros q HQ HL HE; [by destruct q|]. destruct HQ as [|d q HD HQ]; [done|]. cbn in HE, HL.
  set (x := fold_right _ 0 p) in *. set (y := fold_right _ 0 q) in *. assert (HM : c = d /\ x = y).
  { apply (f_equal (fun z => (z mod 2 ^ bits, z / 2 ^ bits))) in HE. rewrite !Z.mod_add, !Z.div_add, !(Z.mod_small _ (2 ^ bits)), !(Z.div_small _ (2 ^ bits)) in HE by lia.
    injection HE as -> HE. split; [done|lia]. }
  destruct HM as [-> HM]. f_equal. apply IH; [done|lia|done].
Qed.

(** The state after the first [n] of the characters have been compared. *)
Definition compared (a b : list Z) (n : nat) : option (option (list Z * list Z)) :=
  Some (if decide (take n a = take n b) then Some (drop n a, drop n b) else None).

Lemma chunk_spec bits count a b : 0 <= bits -> charsOf bits a -> charsOf bits b -> (count <= length a)%nat -> (count <= length b)%nat -> chunk bits count (a, b) = compared a b count.
Proof.
  intros HB HA HC LA LB. unfold chunk, loadChars, compared. cbn [fst snd]. rewrite !(proj2 (Nat.leb_le _ _)) by done. cbn [mbind option_bind]. f_equal.
  destruct (Z.eqb_spec (fold_right (fun c rest => c + rest * 2 ^ bits) 0 (take count a)) (fold_right (fun c rest => c + rest * 2 ^ bits) 0 (take count b))) as [HE|HE];
    destruct (decide (take count a = take count b)) as [HD|HD]; try done.
  - destruct HD. apply (load_inj bits); [done|by apply Forall_take|by apply Forall_take|rewrite !length_take; lia|done].
  - by rewrite HD in HE.
Qed.

Lemma take_add_eq (n m : nat) (a b : list Z) : take (n + m) a = take (n + m) b <-> take n a = take n b /\ take m (drop n a) = take m (drop n b).
Proof.
  rewrite <- !take_take_drop. split; [|by intros [-> ->]]. intros HE. assert (HL : length (take n a) = length (take n b)).
  { apply (f_equal length) in HE as HL. rewrite !length_app, !length_take, !length_drop in HL. rewrite !length_take. lia. }
  by apply app_inj_1 in HE.
Qed.

Lemma compared_next bits count n a b : 0 <= bits -> charsOf bits a -> charsOf bits b -> (n + count <= length a)%nat -> (n + count <= length b)%nat ->
  (r ← compared a b n; match r with None => Some None | Some ab => chunk bits count ab end) = compared a b (n + count).
Proof.
  intros HB HA HC LA LB. unfold compared at 1. cbn [mbind option_bind]. unfold compared.
  destruct (decide (take n a = take n b)) as [HE|HE].
  - rewrite chunk_spec by (try done; try (by apply Forall_drop); rewrite length_drop; lia). unfold compared. f_equal. rewrite !drop_drop.
    destruct (decide (take count (drop n a) = take count (drop n b))) as [HD|HD], (decide (take (n + count) a = take (n + count) b)) as [HX|HX]; rewrite ?(Nat.add_comm count); try done.
    + destruct HX. by apply take_add_eq.
    + apply take_add_eq in HX as [_ HX]. done.
  - destruct (decide (take (n + count) a = take (n + count) b)) as [HX|HX]; [|done]. apply take_add_eq in HX as [HX _]. done.
Qed.

Lemma compared_chunks bits count k : forall n a b, 0 <= bits -> charsOf bits a -> charsOf bits b -> (n + k * count <= length a)%nat -> (n + k * count <= length b)%nat ->
  (r ← compared a b n; match r with None => Some None | Some ab => chunks bits count k ab end) = compared a b (n + k * count).
Proof.
  induction k as [|k IH]; intros n a b HB HA HC LA LB.
  - cbn [chunks Nat.mul]. rewrite Nat.add_0_r. unfold compared. cbn [mbind option_bind]. by destruct (decide (take _ a = take _ b)).
  - replace (n + S k * count)%nat with (n + count + k * count)%nat by lia. rewrite <- IH by (done || lia).
    rewrite <- (compared_next bits count n a b) by (done || lia). unfold compared. cbn [mbind option_bind]. destruct (decide (take n a = take n b)); [|done]. cbn [chunks].
    by destruct (chunk bits count _) as [[ab|]|].
Qed.

Lemma compared_if (condition : bool) bits count n a b : 0 <= bits -> charsOf bits a -> charsOf bits b ->
  (n + Nat.b2n condition * count <= length a)%nat -> (n + Nat.b2n condition * count <= length b)%nat ->
  chunkIf condition bits count (compared a b n) = compared a b (n + Nat.b2n condition * count).
Proof.
  intros HB HA HC LA LB. unfold chunkIf. destruct condition; cbn [Nat.b2n] in *.
  - rewrite Nat.mul_1_l in *. by apply compared_next.
  - cbn [Nat.mul]. rewrite Nat.add_0_r. unfold compared. cbn [mbind option_bind]. by destruct (decide (take _ a = take _ b)).
Qed.
Lemma chunks_compared bits count k a b : 0 <= bits -> charsOf bits a -> charsOf bits b -> (k * count <= length a)%nat -> (k * count <= length b)%nat ->
  chunks bits count k (a, b) = compared a b (k * count).
Proof. intros HB HA HC LA LB. change (k * count)%nat with (0 + k * count)%nat in *. rewrite <- (compared_chunks bits count k 0 a b) by done. unfold compared. cbn. by rewrite !take_0, !drop_0. Qed.
Lemma verdict_compared n m a b : n = m -> verdict (compared a b n) = Some (bool_decide (take m a = take m b)).
Proof.
  intros <-. unfold verdict, compared. cbn [mbind option_bind]. destruct (decide (take n a = take n b)) as [HE|HE]; [by rewrite bool_decide_true|by rewrite bool_decide_false].
Qed.

(** The length from its bits. *)
Lemma length_bits n :
  n = (Nat.shiftr n 3 * 8 + Nat.b2n (Nat.testbit n 2) * 4 + Nat.b2n (Nat.testbit n 1) * 2 + Nat.b2n (Nat.testbit n 0))%nat /\
  n = (Nat.shiftr n 2 * 4 + Nat.b2n (Nat.testbit n 1) * 2 + Nat.b2n (Nat.testbit n 0))%nat /\
  n = (Nat.shiftr n 1 * 2 + Nat.b2n (Nat.testbit n 0))%nat /\ n = (Nat.shiftr n 2 * 4 + Nat.land n 3)%nat.
Proof.
  assert (HT : forall k, Nat.b2n (Nat.testbit n k) = ((n / 2 ^ k) mod 2)%nat) by (intros k; apply Nat.testbit_spec').
  assert (HA : Nat.land n 3 = (n mod 2 ^ 2)%nat) by apply (Nat.land_ones n 2). rewrite HA, !HT, !Nat.shiftr_div_pow2. clear HA HT.
  change (2 ^ 3)%nat with (2 * 2 * 2)%nat. change (2 ^ 2)%nat with (2 * 2)%nat. change (2 ^ 1)%nat with 2%nat. change (2 ^ 0)%nat with 1%nat.
  rewrite Nat.Div0.mod_mul_r, <- !Nat.Div0.div_div, Nat.div_1_r.
  pose proof (Nat.div_mod_eq n 2). pose proof (Nat.div_mod_eq (n / 2) 2). pose proof (Nat.div_mod_eq (n / 2 / 2) 2). lia.
Qed.

Lemma comparisons_agree (length : nat) (a b : list Z) :
  (length <= List.length a)%nat -> (length <= List.length b)%nat ->
  let same := Some (bool_decide (take length a = take length b)) in
  (charsOf 8 a -> charsOf 8 b -> equalLChars64 a b length = same /\ equalLChars32 a b length = same) /\
  (charsOf 16 a -> charsOf 16 b -> equalUChars64 a b length = same /\ equalUChars32 a b length = same /\ equalLoop a b length = same).
Proof.
  intros LA LB same. pose proof (length_bits length) as (E1 & E2 & E3 & E4). split; intros HA HB; split_and?.
  - unfold equalLChars64. rewrite chunks_compared, !compared_if by (done || lia). apply verdict_compared. lia.
  - unfold equalLChars32. rewrite chunks_compared by (done || lia). unfold same.
    rewrite <- (verdict_compared (Nat.shiftr length 2 * 4 + Nat.land length 3 * 1)) by lia. rewrite <- (compared_chunks 8) by (done || lia).
    unfold compared. cbn [mbind option_bind]. by destruct (decide _).
  - unfold equalUChars64. rewrite chunks_compared, !compared_if by (done || lia). apply verdict_compared. lia.
  - unfold equalUChars32. rewrite chunks_compared, !compared_if by (done || lia). apply verdict_compared. lia.
  - unfold equalLoop. rewrite chunks_compared by (done || lia). apply verdict_compared. lia.
Qed.

(** Comparing eight, four or two characters at a time gives what comparing the characters gives.
    For two runs of characters that have at least [length] characters, every [equal] function of [StringImpl.h] for these two
    character types, on the machines of 64 and of 32 bits and in the plain loop, reads only the first
    [length] characters and is true when and only when they are the same. *)
Theorem word_comparison_compares_characters (length : nat) (a b : list Z) :
  (length <= List.length a)%nat -> (length <= List.length b)%nat ->
  let same := Some (bool_decide (take length a = take length b)) in
  (charsOf 8 a -> charsOf 8 b -> equalLChars64 a b length = same /\ equalLChars32 a b length = same) /\
  (charsOf 16 a -> charsOf 16 b -> equalUChars64 a b length = same /\ equalUChars32 a b length = same /\ equalLoop a b length = same).
Proof. apply comparisons_agree. Qed.

Lemma word_comparison_compares_characters_witness :
  equalLChars64 [1; 2; 3; 4; 5; 6; 7; 8; 9; 10; 11; 12; 13; 14; 15; 16] [1; 2; 3; 4; 5; 6; 7; 8; 9; 10; 11; 12; 13; 14; 15; 17] 15 = Some true /\
  equalUChars64 [0xFF01; 2; 3; 4; 5; 6; 7] [0xFF01; 2; 3; 4; 5; 6; 8] 7 = Some false.
Proof.
  split.
  - apply (word_comparison_compares_characters 15 [1; 2; 3; 4; 5; 6; 7; 8; 9; 10; 11; 12; 13; 14; 15; 16] [1; 2; 3; 4; 5; 6; 7; 8; 9; 10; 11; 12; 13; 14; 15; 17]);
      [cbn; lia|cbn; lia|repeat (apply Forall_cons_2; [lia|]); apply Forall_nil_2..].
  - apply (word_comparison_compares_characters 7 [0xFF01; 2; 3; 4; 5; 6; 7] [0xFF01; 2; 3; 4; 5; 6; 8]);
      [cbn; lia|cbn; lia|repeat (apply Forall_cons_2; [lia|]); apply Forall_nil_2..].
Defined.
