(* ===== verification/AtomicString.v ===== *)
(** * Atomic strings

    [wtf/text/AtomicString.cpp] with the parts of [wtf/text/StringImpl.h],
    [wtf/text/StringImpl.cpp], [wtf/text/StringHash.h] and
    [wtf/unicode/UTF8.cpp] it is built from: the table that holds one string object for
    each text.

    A [StringImpl*] is the address of the object with the parts of it that never
    change.  The hash code an object caches is left out: [setHash] asserts that it is the
    canonical code of the text.  Whether the object is in the table ([isAtomic]) is a
    set of addresses.  A null result is [None] inside of [Some]; the outer [None] is a failed assertion, a
    read out of range or a loop that does not end. *)

From S2P Require Import Prelude TextCodecUTF8 UnicodeUTF8 HashTable HashMap HashFunctions StringHasher StringEqual.
From stdpp Require Import gmap.
Open Scope Z_scope.

Record StringImpl := mkStringImpl {
  si_address : Z;
  si_is8Bit : bool;
  si_characters : list UChar
}.

(** The static empty string. *)
Definition StringImpl_empty : StringImpl := mkStringImpl 0 true [].

(** ** Comparing and hashing *)

(** [equal] of runs of characters, by the widths of the two sides. *)
Definition equalRuns (a8 b8 : bool) (a b : list UChar) (length : nat) : option bool :=
  if a8 then (if b8 then equalLChars64 a b length else equalLoop a b length)
  else (if b8 then equalLoop b a length else equalUChars64 a b length).

Definition stringImplContentEqual (a b : StringImpl) : option bool :=
  if negb (length (si_characters a) =? length (si_characters b))%nat then Some false
  else equalRuns (si_is8Bit a) (si_is8Bit b) (si_characters a) (si_characters b) (length (si_characters a)).

Definition equalNonNull (a b : StringImpl) : option bool := if si_address a =? si_address b then Some true else stringImplContentEqual a b.

Definition equalInternal (a : StringImpl) (b8 : bool) (b : list UChar) : option bool :=
  if negb (length (si_characters a) =? length b)%nat then Some false
  else equalRuns (si_is8Bit a) b8 (si_characters a) b (length b).

(** [equal] with a string that ends with a zero. *)
Fixpoint equalTerminated (a : list UChar) (b : list LChar) : bool :=
  match a, b with
  | _ :: _, [] => false
  | ac :: a, bc :: b => if bc =? 0 then false else if negb (ac =? bc) then false else equalTerminated a b
  | [], [] => true
  | [], bc :: _ => bc =? 0
  end.

(** [hashSlowCase] *)
Definition si_hash (s : StringImpl) : option Z := computeHashAndMaskTop8Bits id (si_characters s).

(** [StringHash].  A comparison without a result counts as false here; there is none. *)
Definition isTrue (r : option bool) : bool := default false r.
Definition codeOr0 (r : option Z) : Z := default 0 r.
Definition StringHash : HashFunctions StringImpl := {|
  hf_hash key := codeOr0 (si_hash key);
  hf_equal a b := isTrue (equalNonNull a b)
|}.
#[export] Existing Instance StringHash.
#[export] Existing Instance GenericHashTraits.

(** ** UTF-8 *)

(** [calculateStringHashAndLengthFromUTF8MaskingTop8Bits]: the code, zero for a
    text that is not valid, with [dataLength] and [utf16Length].  Without an end the
    data stops at a zero byte, and a list stands for its bytes before that. *)
Fixpoint utf8HashLoop (fuel : nat) (hasEnd : bool) (data : list Z) (stringHasher : StringHasher) (dataLength utf16Length : nat) : option (Z * nat * nat) :=
  match data with
  | [] => Some (hashWithTop8BitsMasked stringHasher, dataLength, utf16Length)
  | b0 :: rest =>
      match fuel with
      | O => None
      | S fuel =>
          if negb hasEnd && (b0 =? 0) then Some (hashWithTop8BitsMasked stringHasher, dataLength, utf16Length)
          else if isASCII b0 then
            stringHasher ← addCharacter b0 stringHasher;
            utf8HashLoop fuel hasEnd rest stringHasher (dataLength + 1) (utf16Length + 1)
          else
            let utf8SequenceLength := inlineUTF8SequenceLengthNonASCII b0 in
            let dataLength := (dataLength + utf8SequenceLength)%nat in
            let invalid := Some (0, dataLength, utf16Length) in
            let next := utf8HashLoop fuel hasEnd (drop utf8SequenceLength data) in
            if (if hasEnd then (length data <? utf8SequenceLength)%nat else existsb (fun i => at_ data i =? 0) (seq 1 (utf8SequenceLength - 1))) then invalid
            else if negb (isLegalUTF8 data utf8SequenceLength) then invalid
            else
              let character := readUTF8Sequence data utf8SequenceLength in
              if isASCII character then None
              else if U_IS_BMP character then
                if U_IS_SURROGATE character then invalid
                else stringHasher ← addCharacter (character mod 2 ^ 16) stringHasher;
                     next stringHasher dataLength (utf16Length + 1)%nat
              else if U_IS_SUPPLEMENTARY character then
                stringHasher ← addPair (U16_LEAD character) (U16_TRAIL character) stringHasher;
                next stringHasher dataLength (utf16Length + 2)%nat
              else invalid
      end
  end.
Definition calculateStringHashAndLengthFromUTF8MaskingTop8Bits (hasEnd : bool) (data : list Z) : option (Z * nat * nat) :=
  utf8HashLoop (length data) hasEnd data newStringHasher 0 0.

(** [*a++ != c]: [Some None] when it is. *)
Definition expect (c : Z) (a : list UChar) : option (option (list UChar)) :=
  match a with [] => None | x :: a => Some (if negb (x =? c) then None else Some a) end.

Fixpoint equalUTF16WithUTF8Loop (fuel : nat) (a : list UChar) (b : list Z) : option bool :=
  match b with
  | [] => Some (match a with [] => true | _ => false end)
  | b0 :: rest =>
      match fuel with
      | O => None
      | S fuel =>
          if isASCII b0 then r ← expect b0 a; match r with None => Some false | Some a => equalUTF16WithUTF8Loop fuel a rest end
          else
            let utf8SequenceLength := inlineUTF8SequenceLengthNonASCII b0 in
            let next a := equalUTF16WithUTF8Loop fuel a (drop utf8SequenceLength b) in
            if (length b <? utf8SequenceLength)%nat then Some false
            else if negb (isLegalUTF8 b utf8SequenceLength) then Some false
            else
              let character := readUTF8Sequence b utf8SequenceLength in
              if isASCII character then None
              else if U_IS_BMP character then
                if U_IS_SURROGATE character then Some false
                else r ← expect character a; match r with None => Some false | Some a => next a end
              else if U_IS_SUPPLEMENTARY character then
                r ← expect (U16_LEAD character) a;
                match r with
                | None => Some false
                | Some a => r ← expect (U16_TRAIL character) a; match r with None => Some false | Some a => next a end
                end
              else Some false
      end
  end.
Definition equalUTF16WithUTF8 (a : list UChar) (b : list Z) : option bool := equalUTF16WithUTF8Loop (length b) a b.

(** ** The translators *)

(** A C string, a buffer of 8 bit characters, one of literal data and one of 16
    bit characters. *)
Record CString := mkCString { cs_characters : list LChar }.
Record LCharBuffer := mkLCharBuffer { lb_characters : list LChar }.
Record CharBuffer := mkCharBuffer { lit_characters : list LChar }.
Record UCharBuffer := mkUCharBuffer { ub_characters : list UChar }.

Definition CStringTranslator : HashTranslator StringImpl CString := {|
  tr_hash c := codeOr0 (computeTerminatedHashAndMaskTop8Bits id (fun c => c =? 0) (cs_characters c));
  tr_equal r s := equalTerminated (si_characters r) (cs_characters s)
|}.
#[export] Existing Instance CStringTranslator.
Definition LCharBufferTranslator : HashTranslator StringImpl LCharBuffer := {|
  tr_hash buf := codeOr0 (computeHashAndMaskTop8Bits id (lb_characters buf));
  tr_equal str buf := isTrue (equalInternal str true (lb_characters buf))
|}.
#[export] Existing Instance LCharBufferTranslator.
Definition CharBufferFromLiteralDataTranslator : HashTranslator StringImpl CharBuffer := {|
  tr_hash buf := codeOr0 (computeHashAndMaskTop8Bits id (lit_characters buf));
  tr_equal str buf := isTrue (equalInternal str true (lit_characters buf))
|}.
#[export] Existing Instance CharBufferFromLiteralDataTranslator.
Definition UCharBufferTranslator : HashTranslator StringImpl UCharBuffer := {|
  tr_hash buf := codeOr0 (computeHashAndMaskTop8Bits id (ub_characters buf));
  tr_equal str buf := isTrue (equalInternal str false (ub_characters buf))
|}.
#[export] Existing Instance UCharBufferTranslator.

(** [is8Bit] is the width of [CharacterType]. *)
Record HashAndCharacters := mkHashAndCharacters { hc_hash : Z; hc_is8Bit : bool; hc_characters : list UChar }.
Definition HashAndCharactersTranslator : HashTranslator StringImpl HashAndCharacters := {|
  tr_hash buffer := hc_hash buffer;
  tr_equal string buffer := isTrue (equalInternal string (hc_is8Bit buffer) (hc_characters buffer))
|}.
#[export] Existing Instance HashAndCharactersTranslator.

Record HashAndUTF8Characters := mkHashAndUTF8Characters { hu_hash : Z; hu_characters : list Z; hu_length : nat; hu_utf16Length : nat }.

(** The loop over the characters of a buffer that is all ASCII, with its assertion. *)
Fixpoint equalASCIILoop (n : nat) (string : list UChar) (characters : list Z) : option bool :=
  match n, string, characters with
  | O, _, _ => Some true
  | S n, s :: string, c :: characters => if negb (isASCII c) then None else if negb (s =? c) then Some false else equalASCIILoop n string characters
  | _, _, _ => None
  end.
Definition equalHashAndUTF8 (string : StringImpl) (buffer : HashAndUTF8Characters) : option bool :=
  if negb (hu_utf16Length buffer =? length (si_characters string))%nat then Some false
  else if negb (hu_utf16Length buffer =? hu_length buffer)%nat then equalUTF16WithUTF8 (si_characters string) (take (hu_length buffer) (hu_characters buffer))
  else equalASCIILoop (hu_length buffer) (si_characters string) (hu_characters buffer).
Definition HashAndUTF8CharactersTranslator : HashTranslator StringImpl HashAndUTF8Characters := {|
  tr_hash buffer := hu_hash buffer;
  tr_equal string buffer := isTrue (equalHashAndUTF8 string buffer)
|}.
#[export] Existing Instance HashAndUTF8CharactersTranslator.

Record SubstringLocation := mkSubstringLocation { sl_baseString : StringImpl; sl_start : nat; sl_length : nat }.
Definition sl_characters (buffer : SubstringLocation) : list UChar := take (sl_length buffer) (drop (sl_start buffer) (si_characters (sl_baseString buffer))).
(** [deprecatedCharacters] are of 16 bits. *)
Definition SubstringTranslator : HashTranslator StringImpl SubstringLocation := {|
  tr_hash buffer := codeOr0 (computeHashAndMaskTop8Bits id (sl_characters buffer));
  tr_equal string buffer := isTrue (equalInternal string false (sl_characters buffer))
|}.
#[export] Existing Instance SubstringTranslator.

(** ** Making strings *)

Definition create8BitIfPossible (address : Z) (characters : list UChar) : StringImpl :=
  mkStringImpl address (forallb (fun c => Z.land c 0xff00 =? 0) characters) characters.

(** The string [HashAndUTF8CharactersTranslator::translate] makes; a conversion that is not [conversionOK] is not reached. *)
Definition translateUTF8 (address : Z) (buffer : HashAndUTF8Characters) : StringImpl :=
  let characters := take (hu_length buffer) (hu_characters buffer) in
  let c := convertUTF8ToUTF16 characters (hu_utf16Length buffer) true in
  if sourceAllASCII c then mkStringImpl address true characters else mkStringImpl address false (cv_target c).

(** ** The table *)

(** [nextAddress] is the address of the next object that is made. *)
Record AtomicStringTable := mkAtomicStringTable {
  stringTable : HashTable StringImpl;
  atomicAddresses : gset Z;
  nextAddress : Z
}.
Definition newAtomicStringTable : AtomicStringTable := mkAtomicStringTable newHashTable ∅ 1.
Definition isAtomic (string : StringImpl) (st : AtomicStringTable) : bool := bool_decide (si_address string ∈ atomicAddresses st).

#[export] Existing Instance IdentityExtractor.

(** [translate] makes a string at an address; the new string gets its hash and is atomic. *)
Definition addToStringTable {T : Type} `{HashTranslator StringImpl T} (translate : Z -> T -> StringImpl) (value : T) (st : AtomicStringTable) : option (StringImpl * AtomicStringTable) :=
  match hs_addTranslated (fun value _ => translate (nextAddress st) value) value (stringTable st) with
  | Some (Some i, isNewEntry, table) =>
      match bucketAt i table with
      | Some (ValueBucket string) =>
          Some (string, if isNewEntry then mkAtomicStringTable table ({[si_address string]} ∪ atomicAddresses st) (nextAddress st + 1)
                        else mkAtomicStringTable table (atomicAddresses st) (nextAddress st))
      | _ => None
      end
  | _ => None
  end.

Definition nonNull (r : option (StringImpl * AtomicStringTable)) : option (option StringImpl * AtomicStringTable) := '(s, st) ← r; Some (Some s, st).

(** The characters before the zero: [strlen] and [while (s[length] != UChar(0))]. *)
Fixpoint nullTerminated (s : list UChar) : list UChar := match s with [] => [] | c :: s => if c =? 0 then [] else c :: nullTerminated s end.

(** The pointers of the next functions may be null. *)
Definition addCString (c : option (list LChar)) (st : AtomicStringTable) : option (option StringImpl * AtomicStringTable) :=
  match c with
  | None => Some (None, st)
  | Some c =>
      if (match c with [] => true | c0 :: _ => c0 =? 0 end) then Some (Some StringImpl_empty, st)
      else nonNull (addToStringTable (fun address c => mkStringImpl address true (nullTerminated (cs_characters c))) (mkCString c) st)
  end.

Definition addUChars (s : option (list UChar)) (st : AtomicStringTable) : option (option StringImpl * AtomicStringTable) :=
  match s with
  | None => Some (None, st)
  | Some s =>
      if (length s =? 0)%nat then Some (Some StringImpl_empty, st)
      else nonNull (addToStringTable (fun address buf => create8BitIfPossible address (ub_characters buf)) (mkUCharBuffer s) st)
  end.

(** With a hash that is known; [HashAndCharactersTranslator] asserts that it is the right one. *)
Definition addUCharsWithHash (s : list UChar) (existingHash : Z) (st : AtomicStringTable) : option (option StringImpl * AtomicStringTable) :=
  if existingHash =? 0 then None
  else if (length s =? 0)%nat then Some (Some StringImpl_empty, st)
  else if negb (bool_decide (computeHashAndMaskTop8Bits id s = Some existingHash)) then None
  else nonNull (addToStringTable (fun address buf => mkStringImpl address (hc_is8Bit buf) (hc_characters buf)) (mkHashAndCharacters existingHash false s) st).

Definition addTerminatedUChars (s : option (list UChar)) (st : AtomicStringTable) : option (option StringImpl * AtomicStringTable) :=
  match s with
  | None => Some (None, st)
  | Some s => addUChars (Some (nullTerminated s)) st
  end.

Definition addLChars (s : option (list LChar)) (st : AtomicStringTable) : option (option StringImpl * AtomicStringTable) :=
  match s with
  | None => Some (None, st)
  | Some s =>
      if (length s =? 0)%nat then Some (Some StringImpl_empty, st)
      else nonNull (addToStringTable (fun address buf => mkStringImpl address true (lb_characters buf)) (mkLCharBuffer s) st)
  end.

(** [createFromLiteral] asserts that all characters are ASCII. *)
Definition addFromLiteralData (characters : list LChar) (st : AtomicStringTable) : option (option StringImpl * AtomicStringTable) :=
  if (length characters =? 0)%nat then None
  else if negb (forallb isASCII characters) then None
  else nonNull (addToStringTable (fun address buf => mkStringImpl address true (lit_characters buf)) (mkCharBuffer characters) st).

Definition addSlowCase (string : StringImpl) (st : AtomicStringTable) : option (StringImpl * AtomicStringTable) :=
  if (length (si_characters string) =? 0)%nat then Some (StringImpl_empty, st)
  else if isAtomic string st then None
  else
    match hs_add string (stringTable st) with
    | Some (Some i, isNewEntry, table) =>
        match bucketAt i table with
        | Some (ValueBucket entry) =>
            if isNewEntry then
              if si_address entry =? si_address string then Some (entry, mkAtomicStringTable table ({[si_address string]} ∪ atomicAddresses st) (nextAddress st)) else None
            else Some (entry, mkAtomicStringTable table (atomicAddresses st) (nextAddress st))
        | _ => None
        end
    | _ => None
    end.

Definition isInAtomicStringTable (string : StringImpl) (st : AtomicStringTable) : option bool := hs_contains string (stringTable st).

(** [add(StringImpl ptr)] *)
Definition addString (string : option StringImpl) (st : AtomicStringTable) : option (option StringImpl * AtomicStringTable) :=
  match string with
  | None => Some (None, st)
  | Some string =>
      if isAtomic string st then b ← isInAtomicStringTable string st; if negb b then None else Some (Some string, st)
      else nonNull (addSlowCase string st)
  end.

Definition addSubstring (baseString : option StringImpl) (start length_ : nat) (st : AtomicStringTable) : option (option StringImpl * AtomicStringTable) :=
  match baseString with
  | None => Some (None, st)
  | Some baseString =>
      let baseLength := length (si_characters baseString) in
      if (length_ =? 0)%nat || (baseLength <=? start)%nat then Some (Some StringImpl_empty, st)
      else
        let maxLength := (baseLength - start)%nat in
        let make n := nonNull (addToStringTable (fun address buf => mkStringImpl address (si_is8Bit (sl_baseString buf)) (sl_characters buf)) (mkSubstringLocation baseString start n) st) in
        if (maxLength <=? length_)%nat then if (start =? 0)%nat then addString (Some baseString) st else make maxLength
        else make length_
  end.

(** [find]: [findString] with the width of the string. *)
Definition findAtomicString (stringImpl : StringImpl) (st : AtomicStringTable) : option (option StringImpl) :=
  existingHash ← si_hash stringImpl;
  if existingHash =? 0 then None
  else if (length (si_characters stringImpl) =? 0)%nat then Some (Some StringImpl_empty)
  else
    match ht_find (mkHashAndCharacters existingHash (si_is8Bit stringImpl) (si_characters stringImpl)) (stringTable st) with
    | None => None
    | Some None => Some None
    | Some (Some i) => match bucketAt i (stringTable st) with Some (ValueBucket s) => Some (Some s) | _ => None end
    end.

(** [remove], from the destructor of a string. *)
Definition removeAtomicString (string : StringImpl) (st : AtomicStringTable) : option AtomicStringTable :=
  if negb (isAtomic string st) then None
  else
    match hs_find string (stringTable st) with
    | Some (Some i) =>
        '(_, table) ← hs_removeIterator (Some i) (stringTable st);
        Some (mkAtomicStringTable table (atomicAddresses st ∖ {[si_address string]}) (nextAddress st))
    | _ => None
    end.

(** [fromUTF8Internal]; the null string is [nullAtom]. *)
Definition fromUTF8Internal (hasEnd : bool) (characters : list Z) (st : AtomicStringTable) : option (option StringImpl * AtomicStringTable) :=
  '(hash, dataLength, utf16Length) ← calculateStringHashAndLengthFromUTF8MaskingTop8Bits hasEnd characters;
  if hash =? 0 then Some (None, st)
  else nonNull (addToStringTable translateUTF8 (mkHashAndUTF8Characters hash characters dataLength utf16Length) st).

(** [fromUTF8] with and without a length. *)
Definition atomicFromUTF8 (hasLength : bool) (characters : option (list Z)) (st : AtomicStringTable) : option (option StringImpl * AtomicStringTable) :=
  match characters with
  | None => Some (None, st)
  | Some characters =>
      if (match characters with [] => true | c0 :: _ => negb hasLength && (c0 =? 0) end) then Some (Some StringImpl_empty, st)
      else fromUTF8Internal hasLength characters st
  end.
