(* ===== verification/UTF8Text.v ===== *)
(** * Three readers of UTF-8

    [convertUTF8ToUTF16], the function that computes a hash code from UTF-8 and
    the one that compares UTF-8 with UTF-16 read the same text.  So
    [AtomicString::fromUTF8], which the parser of HTTP headers calls, accepts the bytes that
    [String::fromUTF8] accepts and gives the same text. *)

From S2P Require Import Prelude TextCodecUTF8 TextCodecUTF8Loops TextCodecUTF8Spec UnicodeUTF8 UnicodeUTF8Spec StringHasher StringHasherSpec AtomicString.
Open Scope Z_scope.

(** ** The value of a legal sequence *)

Lemma isASCII_range c : 0 <= c -> isASCII c = (c <? 128).
Proof.
  intros HC. unfold isASCII. change (Z.lnot 127) with (Z.lnot (Z.ones 7)). rewrite <- Z.ldiff_land, Z.ldiff_ones_r, Z.shiftr_div_pow2, Z.shiftl_mul_pow2 by lia.
  destruct (Z.eqb_spec (c / 2 ^ 7 * 2 ^ 7) 0), (Z.ltb_spec c 128); try done; exfalso; div_lia.
Qed.

Lemma nonASCIILength_cases b : 0 <= b < 256 -> isASCII b = false ->
  (inlineUTF8SequenceLengthNonASCII b = 0%nat) \/ (192 <= b < 224 /\ inlineUTF8SequenceLengthNonASCII b = 2%nat) \/
  (224 <= b < 240 /\ inlineUTF8SequenceLengthNonASCII b = 3%nat) \/ (240 <= b < 248 /\ inlineUTF8SequenceLengthNonASCII b = 4%nat).
Proof.
  intros Hb HA. rewrite isASCII_ltb in HA by done. apply (byte_check (fun b => (b <? 128) || bool_decide (
    (inlineUTF8SequenceLengthNonASCII b = 0%nat) \/ (192 <= b < 224 /\ inlineUTF8SequenceLengthNonASCII b = 2%nat) \/
    (224 <= b < 240 /\ inlineUTF8SequenceLengthNonASCII b = 3%nat) \/ (240 <= b < 248 /\ inlineUTF8SequenceLengthNonASCII b = 4%nat)))) in Hb;
    [rewrite HA in Hb; by apply bool_decide_eq_true in Hb|vm_compute; reflexivity].
Qed.

(** Two and three bytes are characters of 16 bits, four bytes the others. *)
Lemma legal_value source : bytes source -> isASCII (at_ source 0) = false -> let n := inlineUTF8SequenceLengthNonASCII (at_ source 0) in
  (n <= length source)%nat -> isLegalUTF8 source n = true -> let c := readUTF8Sequence source n in
  ((n = 2 \/ n = 3)%nat /\ 0x80 <= c < 0x10000) \/ (n = 4%nat /\ 0x10000 <= c < 0x110000).
Proof.
  intros HB HA n HL HG. assert (H0 : 0 <= at_ source 0 < 256) by (unfold at_; destruct HB; [cbn; lia|done]).
  destruct (nonASCIILength_cases _ H0 HA) as [E|[[HR E]|[[HR E]|[HR E]]]]; unfold n in *; rewrite E in *; [done| | |];
    pose proof (bytes_at source 1 HB ltac:(lia)) as B1; cbv zeta; rewrite readUTF8_value by (done || lia); cbn [Nat.eqb]; rewrite !Z.shiftl_mul_pow2 by lia; revert HG;
    unfold isLegalUTF8, illegalSecond, outside; cbn [Nat.eqb Nat.ltb Nat.leb orb andb]; rewrite !Z.geb_leb, !Z.gtb_ltb, !Z.leb_antisym.
  - split_tests; intros _; left; (split; [by left|lia]).
  - pose proof (bytes_at source 2 HB ltac:(lia)) as B2. split_tests; intros _; left; (split; [by right|lia]).
  - pose proof (bytes_at source 2 HB ltac:(lia)) as B2. pose proof (bytes_at source 3 HB ltac:(lia)) as B3. split_tests; intros _; right; (split; [done|lia]).
Qed.

(** ** The text *)

(** The units of the first character and the number of its bytes. *)
Definition firstUnits (source : list Z) : option (list UChar * nat) :=
  let n := inlineUTF8SequenceLengthNonASCII (at_ source 0) in
  if isASCII (at_ source 0) then Some ([at_ source 0], 1%nat)
  else if (length source <? n)%nat || negb (isLegalUTF8 source n) then None
  else
    let c := readUTF8Sequence source n in
    if (n =? 4)%nat then Some ([U16_LEAD c; U16_TRAIL c], n) else if U_IS_SURROGATE c then None else Some ([c], n).

Fixpoint utf8Units (fuel : nat) (source : list Z) : option (list UChar) :=
  match source with
  | [] => Some []
  | _ :: _ => match fuel with O => None | S fuel => '(units, n) ← firstUnits source; rest ← utf8Units fuel (drop n source); Some (units ++ rest) end
  end.
(** The text of bytes, if they are valid. *)
Definition utf8Text (source : list Z) : option (list UChar) := utf8Units (length source) source.

(** What the tests of the three loops say about the first character. *)
Inductive firstCase (source : list Z) (n : nat) (c : UChar32) : option (list UChar * nat) -> Prop :=
  | FirstASCII : isASCII (at_ source 0) = true -> 0 <= at_ source 0 < 128 -> firstCase source n c (Some ([at_ source 0], 1%nat))
  | FirstShort : isASCII (at_ source 0) = false -> (length source <? n)%nat = true -> firstCase source n c None
  | FirstIllegal : isASCII (at_ source 0) = false -> (length source <? n)%nat = false -> isLegalUTF8 source n = false -> firstCase source n c None
  | FirstSurrogate : isASCII (at_ source 0) = false -> (length source <? n)%nat = false -> isLegalUTF8 source n = true ->
      isASCII c = false -> U_IS_BMP c = true -> U_IS_SURROGATE c = true -> firstCase source n c None
  | FirstBMP : isASCII (at_ source 0) = false -> (length source <? n)%nat = false -> isLegalUTF8 source n = true ->
      isASCII c = false -> U_IS_BMP c = true -> U_IS_SURROGATE c = false -> c mod 2 ^ 16 = c -> (2 <= n)%nat -> 0x80 <= c < 2 ^ 16 -> firstCase source n c (Some ([c], n))
  | FirstSupplementary : isASCII (at_ source 0) = false -> (length source <? n)%nat = false -> isLegalUTF8 source n = true ->
      isASCII c = false -> U_IS_BMP c = false -> U_IS_SUPPLEMENTARY c = true -> n = 4%nat -> 0x10000 <= c < 0x110000 -> firstCase source n c (Some ([U16_LEAD c; U16_TRAIL c], n)).

Lemma firstUnits_case source : bytes source -> source <> [] ->
  let n := inlineUTF8SequenceLengthNonASCII (at_ source 0) in firstCase source n (readUTF8Sequence source n) (firstUnits source).
Proof.
  intros HB HE n. assert (H0 : 0 <= at_ source 0 < 256) by by destruct HB. unfold firstUnits. fold n.
  destruct (isASCII (at_ source 0)) eqn:EA; [rewrite isASCII_ltb in EA by done; apply FirstASCII; [by rewrite isASCII_ltb|lia]|].
  destruct (length source <? n)%nat eqn:EL; cbn [orb]; [by apply FirstShort|]. destruct (isLegalUTF8 source n) eqn:EG; cbn [negb]; [|by apply FirstIllegal].
  apply Nat.ltb_ge in EL as HL. destruct (legal_value source HB EA HL EG) as [[HN HC]|[HN HC]]; fold n in HN, HC; set (c := readUTF8Sequence source n) in *.
  - assert (isASCII c = false) by (rewrite isASCII_range by lia; apply Z.ltb_ge; lia). assert (U_IS_BMP c = true) by (rewrite bmp_iff by lia; apply Z.ltb_lt; lia).
    rewrite (proj2 (Nat.eqb_neq n 4)) by lia. destruct (U_IS_SURROGATE c) eqn:ES; [by apply FirstSurrogate|apply FirstBMP; try done; [apply Z.mod_small; lia|lia]].
  - assert (isASCII c = false) by (rewrite isASCII_range by lia; apply Z.ltb_ge; lia). assert (U_IS_BMP c = false) by (rewrite bmp_iff by lia; apply Z.ltb_ge; lia).
    rewrite (proj2 (Nat.eqb_eq n 4)) by done. apply FirstSupplementary; try done. by apply supplementary_iff.
Qed.

Lemma firstUnits_size source units n : bytes source -> source <> [] -> firstUnits source = Some (units, n) ->
  (1 <= n <= length source)%nat /\ (1 <= length units <= n)%nat /\ (length units = n -> n = 1%nat /\ isASCII (at_ source 0) = true)%nat /\ (n = 1%nat -> units = take 1 source).
Proof.
  intros HB HE. destruct (firstUnits_case source HB HE) as [HA H0| | | |HA HL HG _ _ _ _ HN _|HA HL HG _ _ _ HN _]; intros [= <- <-]; try apply Nat.ltb_ge in HL.
  - destruct source; [done|]. cbn [length] in *. split_and!; try done; lia.
  - cbn [length]. split_and!; lia.
  - rewrite HN. cbn [length]. split_and!; lia.
Qed.

(** Induction over the characters of a text. *)
Lemma utf8Units_ind (P : list Z -> option (list UChar) -> Prop) :
  P [] (Some []) ->
  (forall source, bytes source -> source <> [] -> firstUnits source = None -> P source None) ->
  (forall source units n r, bytes source -> source <> [] -> firstUnits source = Some (units, n) -> (1 <= n <= length source)%nat -> P (drop n source) r ->
     P source (rest ← r; Some (units ++ rest))) ->
  forall fuel source, bytes source -> (length source <= fuel)%nat -> P source (utf8Units fuel source).
Proof.
  intros H0 HN HS. induction fuel as [|fuel IH]; intros source HB HL; destruct source as [|b source]; cbn [utf8Units]; [done|cbn in HL; lia|done|].
  destruct (firstUnits (b :: source)) as [[units n]|] eqn:EF; [|by apply HN].
  destruct (firstUnits_size _ _ _ HB ltac:(done) EF) as (H1 & _). change (P (b :: source) (rest ← utf8Units fuel (drop n (b :: source)); Some (units ++ rest))).
  apply (HS _ _ n); try done. apply IH; [by apply Forall_drop|]. rewrite length_drop. cbn in *. lia.
Qed.

(** ** [convertUTF8ToUTF16] *)

Definition low7 (bits : Z) : Prop := Z.land bits (Z.lnot 0x7f) = 0.
Lemma low7_lor a b : low7 (Z.lor a b) <-> low7 a /\ low7 b.
Proof. unfold low7. rewrite Z.land_lor_distr_l. apply Z.lor_eq_0_iff. Qed.
Lemma low7_ascii c : low7 c <-> isASCII c = true.
Proof. unfold low7, isASCII. by rewrite Z.eqb_eq. Qed.

Definition asciiBytes (source : list Z) : Prop := Forall (fun b => isASCII b = true) source.

Lemma asciiBytes_head source n : source <> [] -> (1 <= n)%nat -> isASCII (at_ source 0) = false -> ~ asciiBytes (take n source).
Proof. intros HE HN HA HF. destruct source as [|b source]; [done|]. destruct n; [lia|]. apply Forall_cons in HF as [HF _]. cbn in HA. by rewrite HF in HA. Qed.

Lemma convert_step source units n fuel capacity target x : bytes source -> source <> [] -> firstUnits source = Some (units, n) -> (length target + length units <= capacity)%nat ->
  exists x', utf8ToUTF16Loop (S fuel) capacity true source target x = utf8ToUTF16Loop fuel capacity true (drop n source) (target ++ units) x' /\
    (low7 x' <-> low7 x /\ asciiBytes (take n source)).
Proof.
  intros HB HE. pose proof (asciiBytes_head source) as HH. destruct source as [|b source]; [done|]. cbn [utf8ToUTF16Loop]. unfold inlineUTF8SequenceLength.
  destruct (firstUnits_case (b :: source) HB HE) as [HA H0| | | |HA HL HG HI HBm HS HM HN HC|HA HL HG HI HBm HS HN HC]; intros [= <- <-] HCap; change (at_ (b :: source) 0) with b in *; rewrite HA; cbn [length] in HCap.
  - destruct (isLegal_ascii b source H0) as [-> ->]. cbn [length Nat.ltb Nat.leb negb]. rewrite (proj2 (Nat.leb_gt _ _)), bmp_iff, (proj2 (Z.ltb_lt b 0x10000)), surrogate_iff by lia.
    rewrite (proj2 (Z.leb_gt 0xD800 b)) by lia. cbn [andb]. rewrite Z.mod_small by lia. eexists. split; [reflexivity|]. rewrite low7_lor, (low7_ascii b). cbn [take]. unfold asciiBytes. rewrite Forall_cons, Forall_nil. tauto.
  - rewrite HL, HG. cbn [negb]. rewrite (proj2 (Nat.leb_gt _ _)), HBm, HS, HM by lia. eexists. split; [reflexivity|]. rewrite <- not_true_iff_false, <- low7_ascii in HI. rewrite low7_lor. split; [tauto|].
    intros [_ HF]. exfalso. revert HF. apply HH; [done|lia|done].
  - rewrite HL, HG. cbn [negb]. rewrite (proj2 (Nat.leb_gt capacity (length target))), HBm, HS by lia. rewrite (proj2 (Nat.leb_gt _ _)) by lia. eexists. split; [reflexivity|].
    split; [by intros ?|]. intros [_ HF]. exfalso. revert HF. apply HH; [done|lia|done].
Qed.

Lemma convert_stops source fuel capacity target x : bytes source -> source <> [] -> firstUnits source = None ->
  cv_result (utf8ToUTF16Loop (S fuel) capacity true source target x) <> conversionOK.
Proof.
  intros HB HE. destruct source as [|b source]; [done|]. cbn [utf8ToUTF16Loop]. unfold inlineUTF8SequenceLength.
  destruct (firstUnits_case (b :: source) HB HE) as [|HA HL|HA HL HG|HA HL HG HI HBm HS| |]; intros [=]; change (at_ (b :: source) 0) with b in *; rewrite HA, HL; [done| |]; rewrite HG; cbn [negb]; [done|].
  rewrite HBm, HS. by destruct (capacity <=? length target)%nat.
Qed.

Lemma convert_full source units n fuel capacity target x : bytes source -> source <> [] -> firstUnits source = Some (units, n) -> (capacity < length target + length units)%nat ->
  cv_result (utf8ToUTF16Loop (S fuel) capacity true source target x) <> conversionOK.
Proof.
  intros HB HE. destruct source as [|b source]; [done|]. cbn [utf8ToUTF16Loop]. unfold inlineUTF8SequenceLength.
  destruct (firstUnits_case (b :: source) HB HE) as [HA H0| | | |HA HL HG HI HBm HS HM HN HC|HA HL HG HI HBm HS HN HC]; intros [= <- <-] HCap; change (at_ (b :: source) 0) with b in *; rewrite HA; cbn [length] in HCap.
  - destruct (isLegal_ascii b source H0) as [-> ->]. cbn [length Nat.ltb Nat.leb negb]. by rewrite (proj2 (Nat.leb_le _ _)) by lia.
  - rewrite HL, HG. cbn [negb]. by rewrite (proj2 (Nat.leb_le _ _)) by lia.
  - rewrite HL, HG. cbn [negb]. rewrite HBm, HS. destruct (Nat.leb_spec capacity (length target)); [done|]. by rewrite (proj2 (Nat.leb_le _ _)) by lia.
Qed.

(** The result of the loop for a text. *)
Definition converted (source : list Z) (r : option (list UChar)) : Prop := forall fuel capacity target x, (length source <= fuel)%nat ->
  let c := utf8ToUTF16Loop fuel capacity true source target x in
  match r with
  | Some text => (length target + length text <= capacity)%nat -> cv_result c = conversionOK /\ cv_target c = target ++ text /\ (low7 (cv_orAllData c) <-> low7 x /\ asciiBytes source)
  | None => cv_result c <> conversionOK
  end.

Lemma convert_text fuel source : bytes source -> (length source <= fuel)%nat -> converted source (utf8Units fuel source).
Proof.
  revert fuel source. apply (utf8Units_ind converted).
  - intros fuel capacity target x _ c _. subst c. unfold asciiBytes. rewrite (Forall_nil (fun b => isASCII b = true)), app_nil_r. destruct fuel; cbn; tauto.
  - intros source HB HE HF fuel capacity target x HL. destruct fuel; [destruct source; [done|cbn in HL; lia]|]. by apply convert_stops.
  - intros source units n r HB HE HF HN IH fuel capacity target x HL. destruct fuel as [|fuel]; [lia|]. destruct r as [rest|]; cbn [mbind option_bind].
    + rewrite length_app. intros HC. destruct (convert_step source units n fuel capacity target x HB HE HF ltac:(lia)) as (x' & -> & HX).
      destruct (IH fuel capacity (target ++ units) x') as (ER & ET & EA); [rewrite length_drop; lia|rewrite length_app; lia|]. split; [done|]. split; [by rewrite ET, app_assoc|].
      rewrite EA, HX. rewrite <- (take_drop n source) at 3. unfold asciiBytes. rewrite Forall_app. tauto.
    + destruct (Nat.le_gt_cases (length target + length units) capacity) as [HC|HC].
      * destruct (convert_step source units n fuel capacity target x HB HE HF HC) as (x' & -> & HX). apply IH. rewrite length_drop. lia.
      * by apply (convert_full source units n).
Qed.

(** ** The hash code *)

(** Bytes that are given with an end, or that have no zero. *)
Definition ended (hasEnd : bool) (source : list Z) : Prop := hasEnd = true \/ Forall (fun b => b <> 0) source.
Lemma ended_drop hasEnd source n : ended hasEnd source -> ended hasEnd (drop n source).
Proof. intros [?|?]; [by left|right; by apply Forall_drop]. Qed.

(** Both tests for a sequence that is cut off. *)
Definition cutOff (hasEnd : bool) (data : list Z) (n : nat) : bool :=
  if hasEnd then (length data <? n)%nat else existsb (fun i => at_ data i =? 0) (seq 1 (n - 1)).
Lemma cutOff_length hasEnd data n : ended hasEnd data -> data <> [] -> cutOff hasEnd data n = (length data <? n)%nat.
Proof.
  intros HE HN. unfold cutOff. destruct HE as [->|HF]; [done|]. destruct hasEnd; [done|]. destruct (Nat.ltb_spec (length data) n) as [HL|HL].
  - apply existsb_exists. exists (length data). split; [apply in_seq; destruct data; [done|cbn in *; lia]|]. unfold at_. by rewrite nth_overflow.
  - apply not_true_iff_false. intros (i & HI%in_seq & HZ%Z.eqb_eq)%existsb_exists. rewrite Forall_forall in HF. apply (HF (at_ data i)); [|done].
    apply list_elem_of_In. unfold at_. apply nth_In. lia.
Qed.

Definition hashed (source : list Z) (r : option (list UChar)) : Prop := forall fuel hasEnd s dataLength utf16Length, (length source <= fuel)%nat -> ended hasEnd source ->
  match r with
  | Some text => exists s', utf8HashLoop fuel hasEnd source s dataLength utf16Length = Some (hashWithTop8BitsMasked s', dataLength + length source, utf16Length + length text)%nat /\
      view s' = absorbAll (view s) text
  | None => exists dl ul, utf8HashLoop fuel hasEnd source s dataLength utf16Length = Some (0, dl, ul)
  end.

Lemma hash_step source units n fuel hasEnd s dl ul : bytes source -> source <> [] -> ended hasEnd source -> firstUnits source = Some (units, n) ->
  exists s', utf8HashLoop (S fuel) hasEnd source s dl ul = utf8HashLoop fuel hasEnd (drop n source) s' (dl + n) (ul + length units) /\ view s' = absorbAll (view s) units.
Proof.
  intros HB HE HEn. pose proof (cutOff_length hasEnd source (inlineUTF8SequenceLengthNonASCII (at_ source 0)) HEn HE) as HCut. destruct source as [|b source]; [done|]. cbn [utf8HashLoop].
  assert (HZ : negb hasEnd && (b =? 0) = false). { destruct HEn as [->|HF]; [done|]. apply Forall_cons in HF as [HF _]. rewrite (proj2 (Z.eqb_neq b 0)) by done. apply andb_false_r. }
  rewrite HZ. change (at_ (b :: source) 0) with b in *. fold (cutOff hasEnd (b :: source) (inlineUTF8SequenceLengthNonASCII b)). rewrite HCut.
  destruct (firstUnits_case (b :: source) HB HE) as [HA H0| | | |HA HL HG HI HBm HS HM HN HC|HA HL HG HI HBm HS HN HC]; intros [= <- <-]; change (at_ (b :: source) 0) with b in *; rewrite HA.
  - destruct (addCharacter_adds b s) as (s' & -> & HV). exists s'. split; [done|done].
  - rewrite HL, HG, HI, HBm, HS, HM. cbn [negb]. destruct (addCharacter_adds (readUTF8Sequence (b :: source) (inlineUTF8SequenceLengthNonASCII b)) s) as (s' & -> & HV). exists s'. split; [done|done].
  - rewrite HL, HG, HI, HBm, HS. cbn [negb]. set (c := readUTF8Sequence _ _). destruct (addPair_adds (U16_LEAD c) (U16_TRAIL c) s) as (s' & -> & HV). exists s'. split; [done|done].
Qed.

Lemma hash_stops source fuel hasEnd s dl ul : bytes source -> source <> [] -> ended hasEnd source -> firstUnits source = None ->
  exists dl' ul', utf8HashLoop (S fuel) hasEnd source s dl ul = Some (0, dl', ul').
Proof.
  intros HB HE HEn. pose proof (cutOff_length hasEnd source (inlineUTF8SequenceLengthNonASCII (at_ source 0)) HEn HE) as HCut. destruct source as [|b source]; [done|]. cbn [utf8HashLoop].
  assert (HZ : negb hasEnd && (b =? 0) = false). { destruct HEn as [->|HF]; [done|]. apply Forall_cons in HF as [HF _]. rewrite (proj2 (Z.eqb_neq b 0)) by done. apply andb_false_r. }
  rewrite HZ. change (at_ (b :: source) 0) with b in *. fold (cutOff hasEnd (b :: source) (inlineUTF8SequenceLengthNonASCII b)). rewrite HCut.
  destruct (firstUnits_case (b :: source) HB HE) as [|HA HL|HA HL HG|HA HL HG HI HBm HS| |]; intros [=]; change (at_ (b :: source) 0) with b in *; rewrite HA, HL; [by eexists _, _| |]; rewrite HG; cbn [negb]; [by eexists _, _|].
  rewrite HI, HBm, HS. by eexists _, _.
Qed.

Lemma hash_text fuel source : bytes source -> (length source <= fuel)%nat -> hashed source (utf8Units fuel source).
Proof.
  revert fuel source. apply (utf8Units_ind hashed).
  - intros fuel hasEnd s dl ul _ _. exists s. destruct fuel; cbn [utf8HashLoop length]; by rewrite !Nat.add_0_r.
  - intros source HB HE HF fuel hasEnd s dl ul HL HEn. destruct fuel; [destruct source; [done|cbn in HL; lia]|]. by apply hash_stops.
  - intros source units n r HB HE HF HN IH fuel hasEnd s dl ul HL HEn. destruct fuel as [|fuel]; [lia|].
    destruct (hash_step source units n fuel hasEnd s dl ul HB HE HEn HF) as (s1 & -> & V1). specialize (IH fuel hasEnd s1 (dl + n)%nat (ul + length units)%nat).
    destruct r as [rest|]; cbn [mbind option_bind]; (destruct IH as (x & IH); [rewrite length_drop; lia|by apply ended_drop|]); [|by exists x].
    destruct IH as [-> V2]. exists x. rewrite length_app, length_drop, absorbAll_app, V2, V1. split; [do 2 f_equal; [f_equal|]; lia|done].
Qed.

(** ** The comparison *)

Definition comparedWith (source : list Z) (r : option (list UChar)) : Prop := forall fuel a, (length source <= fuel)%nat ->
  match r with
  | Some text => (length text <= length a)%nat -> equalUTF16WithUTF8Loop fuel a source = Some (bool_decide (a = text))
  | None => True
  end.

(** One unit. *)
Lemma expect_spec c x a (k : list UChar -> option bool) rest : k a = Some (bool_decide (a = rest)) ->
  (r ← expect c (x :: a); match r with None => Some false | Some a => k a end) = Some (bool_decide (x :: a = c :: rest)).
Proof.
  intros HK. cbn. destruct (Z.eqb_spec x c) as [->|HN]; cbn [negb].
  - rewrite HK. f_equal. apply bool_decide_ext. split; [by intros ->|by intros [= ->]].
  - rewrite bool_decide_false; [done|]. by intros [= ?].
Qed.

Lemma compare_text fuel source : bytes source -> (length source <= fuel)%nat -> comparedWith source (utf8Units fuel source).
Proof.
  revert fuel source. apply (utf8Units_ind comparedWith).
  - intros fuel a _ _. destruct fuel; cbn; by destruct a.
  - done.
  - intros source units n r HB HE HF HN IH fuel a HL. destruct r as [rest|]; cbn [mbind option_bind]; [|done]. rewrite length_app. intros HA. destruct fuel as [|fuel]; [lia|].
    specialize (fun a => IH fuel a ltac:(rewrite length_drop; lia)). cbn in IH. destruct source as [|b source]; [done|]. cbn [equalUTF16WithUTF8Loop].
    revert HF. destruct (firstUnits_case (b :: source) HB HE) as [HX H0| | | |HX HLt HG HI HBm HS HM HNn HC|HX HLt HG HI HBm HS HNn HC]; intros [= <- <-]; change (at_ (b :: source) 0) with b in *; rewrite HX; cbn [length app] in *.
    + destruct a as [|x a]; [cbn in HA; lia|]. apply expect_spec. apply IH. cbn in HA. lia.
    + rewrite HLt, HG, HI, HBm, HS. cbn [negb]. destruct a as [|x a]; [cbn in HA; lia|]. apply (expect_spec _ x a (fun a => equalUTF16WithUTF8Loop fuel a _)). apply IH. cbn in HA. lia.
    + rewrite HLt, HG, HI, HBm, HS. cbn [negb]. set (c := readUTF8Sequence _ _) in *. destruct a as [|x [|y a]]; [cbn in HA; lia|cbn in HA; lia|].
      apply (expect_spec (U16_LEAD c) x (y :: a) (fun a => r ← expect (U16_TRAIL c) a; match r with None => Some false | Some a => equalUTF16WithUTF8Loop fuel a _ end)).
      apply (expect_spec _ y a (fun a => equalUTF16WithUTF8Loop fuel a _)). apply IH. cbn in HA. lia.
Qed.

(** ** The size of the text *)

Definition sized (source : list Z) (r : option (list UChar)) : Prop :=
  match r with
  | Some text => (length text <= length source)%nat /\ (length text = length source <-> asciiBytes source) /\ (asciiBytes source -> text = source) /\ Forall (fun c => 0 <= c < 2 ^ 16) text /\ (source <> [] -> text <> [])
  | None => True
  end.

Lemma trail_range c : 0 <= U16_TRAIL c < 2 ^ 16.
Proof.
  unfold U16_TRAIL. change 1023 with (Z.ones 10). rewrite Z.land_ones by lia. pose proof (Z.mod_pos_bound c (2 ^ 10) ltac:(lia)) as HM. set (d := c mod 2 ^ 10) in *.
  assert (HN : 0 <= Z.lor d 56320) by (apply Z.lor_nonneg; lia). split; [done|]. apply Z.log2_lt_pow2; [|rewrite Z.log2_lor by lia; apply Z.max_lub_lt; [|done]].
  - destruct (Z.eq_dec (Z.lor d 56320) 0) as [[_ E]%Z.lor_eq_0_iff|]; [done|lia].
  - destruct (Z.eq_dec d 0) as [->|]; [done|]. apply Z.log2_lt_pow2; lia.
Qed.

Lemma firstUnits_range source units n : bytes source -> source <> [] -> firstUnits source = Some (units, n) -> Forall (fun c => 0 <= c < 2 ^ 16) units.
Proof.
  intros HB HE. destruct (firstUnits_case source HB HE) as [HA H0| | | |HA HL HG _ _ _ _ HN HC|HA HL HG _ _ _ HN HC]; intros [= <- <-].
  - apply Forall_cons_2; [lia|apply Forall_nil_2].
  - apply Forall_cons_2; [lia|apply Forall_nil_2].
  - apply Forall_cons_2; [apply Z.mod_pos_bound; lia|]. apply Forall_cons_2; [apply trail_range|apply Forall_nil_2].
Qed.

Lemma size_text fuel source : bytes source -> (length source <= fuel)%nat -> sized source (utf8Units fuel source).
Proof.
  revert fuel source. apply (utf8Units_ind sized); [|done|].
  - cbn. split_and!; try done. split; [intros; constructor|done].
  - intros source units n r HB HE HF HN IH. destruct r as [rest|]; cbn [mbind option_bind sized] in *; [|done]. destruct IH as (HL & HEq & HT & HR & _). rewrite length_app, length_drop in *.
    pose proof (firstUnits_range _ _ _ HB HE HF) as HU. destruct (firstUnits_size source units n HB HE HF) as (_ & HS & HS1 & HS2).
    assert (HA : asciiBytes source <-> (length units = n /\ asciiBytes (drop n source))%nat).
    { rewrite <- (take_drop n source) at 1. unfold asciiBytes. rewrite Forall_app. split; intros [H1 H2]; (split; [|done]).
      - destruct source as [|b source]; [done|]. destruct n as [|n]; [lia|]. apply Forall_cons in H1 as [H1 _]. revert HF. unfold firstUnits. change (at_ (b :: source) 0) with b. rewrite H1. by intros [= <- <-].
      - destruct (HS1 H1) as [-> HA]. destruct source as [|b source]; [done|]. apply Forall_cons_2; [done|apply Forall_nil_2]. }
    split_and!; [lia| | |by apply Forall_app_2|intros _; destruct units; [cbn in HS; lia|done]].
    + rewrite HA. rewrite <- HEq. lia.
    + intros [H1 H2]%HA. rewrite (HT H2). destruct (HS1 H1) as [-> _]. rewrite HS2 by done. apply take_drop.
Qed.

(** ** Together *)

Lemma utf8Text_hash hasEnd source : bytes source -> ended hasEnd source ->
  match utf8Text source with
  | Some text => calculateStringHashAndLengthFromUTF8MaskingTop8Bits hasEnd source = Some (textHash text, length source, length text)
  | None => exists dl ul, calculateStringHashAndLengthFromUTF8MaskingTop8Bits hasEnd source = Some (0, dl, ul)
  end.
Proof.
  intros HB HE. pose proof (hash_text (length source) source HB (le_n _) (length source) hasEnd newStringHasher 0%nat 0%nat (le_n _) HE) as HH. unfold utf8Text, calculateStringHashAndLengthFromUTF8MaskingTop8Bits.
  destruct (utf8Units (length source) source) as [text|]; [|done]. destruct HH as (s & -> & HV). cbn [Nat.add]. by rewrite (proj1 (code_view s text HV)).
Qed.

Lemma utf8Text_convert source capacity : bytes source ->
  match utf8Text source with
  | Some text => (length text <= capacity)%nat ->
      let c := convertUTF8ToUTF16 source capacity true in cv_result c = conversionOK /\ cv_target c = text /\ (sourceAllASCII c = true <-> asciiBytes source)
  | None => cv_result (convertUTF8ToUTF16 source capacity true) <> conversionOK
  end.
Proof.
  intros HB. pose proof (convert_text (length source) source HB (le_n _) (length source) capacity [] 0 (le_n _)) as HC. unfold utf8Text, convertUTF8ToUTF16, sourceAllASCII.
  destruct (utf8Units (length source) source) as [text|]; [|done]. intros HL. destruct (HC HL) as (HR & HT & HA). cbv zeta. rewrite Z.eqb_eq. split_and!; [done|done|].
  fold (low7 (cv_orAllData (utf8ToUTF16Loop (length source) capacity true source [] 0))). rewrite HA. split; [by intros [_ ?]|done].
Qed.

Lemma utf8Text_compare source text a : bytes source -> utf8Text source = Some text -> (length text <= length a)%nat -> equalUTF16WithUTF8 a source = Some (bool_decide (a = text)).
Proof.
  intros HB HT HL. pose proof (compare_text (length source) source HB (le_n _) (length source) a (le_n _)) as HC. unfold utf8Text in HT. rewrite HT in HC. by apply HC.
Qed.

(** The three readers of UTF-8 agree.  For every run of bytes, given with an end or ended by a
    zero, the hash function ends without a failed assertion, and exactly one of two things holds: [convertUTF8ToUTF16]
    rejects the bytes and the hash function returns zero; or it converts them, and the hash function returns the canonical
    hash code of the converted text, which is not zero, with the number of bytes and of UTF-16 units.  In that case
    comparing any string of at least that many units with the bytes reads no unit past its end and is the comparison
    with the converted text. *)
Theorem utf8_readers_agree (hasEnd : bool) (source : list Z) :
  bytes source -> ended hasEnd source ->
  let c := convertUTF8ToUTF16 source (length source) true in
  (cv_result c <> conversionOK /\ exists dl ul, calculateStringHashAndLengthFromUTF8MaskingTop8Bits hasEnd source = Some (0, dl, ul)) \/
  (cv_result c = conversionOK /\ exists hash, computeHashAndMaskTop8Bits id (cv_target c) = Some hash /\ hash <> 0 /\
     calculateStringHashAndLengthFromUTF8MaskingTop8Bits hasEnd source = Some (hash, length source, length (cv_target c)) /\
     forall a, (length (cv_target c) <= length a)%nat -> equalUTF16WithUTF8 a source = Some (bool_decide (a = cv_target c))).
Proof.
  intros HB HE. pose proof (utf8Text_hash hasEnd source HB HE) as HH. pose proof (utf8Text_convert source (length source) HB) as HC. pose proof (size_text (length source) source HB (le_n _)) as HS.
  fold (utf8Text source) in HS. pose proof (utf8Text_compare source) as HQ. destruct (utf8Text source) as [text|]; [right|by left]. destruct HS as (HS & _). destruct (HC HS) as (HR & HT & _). cbv zeta in *.
  rewrite HT in *. split; [done|]. exists (textHash text). rewrite computeHash_text, map_id. pose proof (textHash_range text). split_and!; [done|lia|done|]. intros a HL. by apply HQ.
Qed.

Lemma utf8_readers_agree_witness :
  let source := [0x41; 0xC3; 0xA9; 0xF0; 0x9F; 0x98; 0x80] in
  let c := convertUTF8ToUTF16 source (length source) true in
  (cv_result c <> conversionOK /\ exists dl ul, calculateStringHashAndLengthFromUTF8MaskingTop8Bits false source = Some (0, dl, ul)) \/
  (cv_result c = conversionOK /\ exists hash, computeHashAndMaskTop8Bits id (cv_target c) = Some hash /\ hash <> 0 /\
     calculateStringHashAndLengthFromUTF8MaskingTop8Bits false source = Some (hash, length source, length (cv_target c)) /\
     forall a, (length (cv_target c) <= length a)%nat -> equalUTF16WithUTF8 a source = Some (bool_decide (a = cv_target c))).
Proof.
  intros source. apply (utf8_readers_agree false source); [|right]; repeat (apply Forall_cons_2; [lia|]); apply Forall_nil_2.
Defined.
