(* ===== verification/AtomicStringSpec.v ===== *)
(** * Atomic strings are interned

    Every way to make an atomic string looks for its text: there is one object for
    each text, so that two atomic strings are equal when their
    pointers are.  The table is used through the promises of the hash table
    only. *)

From S2P Require Import Prelude TextCodecUTF8 TextCodecUTF8Loops TextCodecUTF8Spec UnicodeUTF8 HashTable HashTableProbing HashTableSpec HashFunctions HashMap StringHasher StringHasherSpec StringEqual AtomicString UTF8Text.
From stdpp Require Import gmap.
Open Scope Z_scope.

(** ** Objects *)

Definition width (is8Bit : bool) : Z := if is8Bit then 8 else 16.
Definition wellTyped (s : StringImpl) : Prop := charsOf (width (si_is8Bit s)) (si_characters s).

(** The strings that were made, by their addresses. *)
Abbreviation Heap := (gmap Z StringImpl).
Definition validString (heap : Heap) (s : StringImpl) : Prop := heap !! si_address s = Some s /\ wellTyped s.

Lemma charsOf_16 b p : charsOf (width b) p -> charsOf 16 p.
Proof. destruct b; [|done]. intros HP. apply (Forall_impl _ _ _ HP). cbn. intros c ?. lia. Qed.

Lemma equalRuns_spec a8 b8 a b : charsOf (width a8) a -> charsOf (width b8) b -> length a = length b -> equalRuns a8 b8 a b (length b) = Some (bool_decide (a = b)).
Proof.
  intros HA HB HL. pose proof (charsOf_16 _ _ HA) as HA'. pose proof (charsOf_16 _ _ HB) as HB'.
  assert (HT : bool_decide (take (length b) a = take (length b) b) = bool_decide (a = b)) by (apply bool_decide_ext; by rewrite (firstn_all b), <- HL, (firstn_all a)).
  assert (HT' : bool_decide (take (length b) b = take (length b) a) = bool_decide (a = b)) by (rewrite <- HT; apply bool_decide_ext; split; by intros ->).
  destruct (comparisons_agree (length b) a b ltac:(lia) (le_n _)) as [H8 H16]. destruct (comparisons_agree (length b) b a (le_n _) ltac:(lia)) as [_ H16'].
  unfold equalRuns. rewrite HT in *. rewrite HT' in *. destruct a8, b8; cbn [width] in *; [by apply H8|by apply H16|by apply H16'|by apply H16].
Qed.

Lemma equalInternal_spec s b8 b : wellTyped s -> charsOf (width b8) b -> equalInternal s b8 b = Some (bool_decide (si_characters s = b)).
Proof.
  intros HS HB. unfold equalInternal. destruct (Nat.eqb_spec (length (si_characters s)) (length b)) as [HL|HL]; cbn [negb]; [by apply equalRuns_spec|].
  rewrite bool_decide_false; [done|]. by intros <-.
Qed.

(** Unfolds the functions of the table and nothing else. *)
Ltac show_functions :=
  cbn [tr_hash tr_equal hf_hash hf_equal StringHash CStringTranslator LCharBufferTranslator CharBufferFromLiteralDataTranslator UCharBufferTranslator SubstringTranslator
       HashAndCharactersTranslator HashAndUTF8CharactersTranslator hc_hash hu_hash].

(** The hash functions of the table see the text only. *)
Lemma StringHash_ok heap : HashFunctionsOk (H := StringHash) si_characters textHash (validString heap).
Proof.
  split.
  - intros s _. show_functions. unfold si_hash. by rewrite computeHash_text, map_id.
  - intros a b [HA TA] [HB TB]. show_functions. unfold equalNonNull. destruct (Z.eqb_spec (si_address a) (si_address b)) as [E|_].
    + rewrite E, HB in HA. injection HA as ->. by rewrite bool_decide_true.
    + unfold stringImplContentEqual. destruct (Nat.eqb_spec (length (si_characters a)) (length (si_characters b))) as [HL|HL]; cbn [negb].
      * rewrite HL, equalRuns_spec by done. done.
      * cbn [isTrue default]. rewrite bool_decide_false; [done|]. intros HX. by rewrite HX in HL.
Qed.
#[local] Existing Instance StringHash_ok.

(** ** The translators *)

Section Translators.
Context (heap : Heap).
Abbreviation ok tabs := (HashTranslatorOk si_characters tabs textHash (validString heap)).

Lemma nullTerminated_before s : nullTerminated s = beforeZero (fun c => c =? 0) s.
Proof. induction s as [|c s IH]; [done|]. cbn. by rewrite IH. Qed.
Lemma equalTerminated_spec a b : equalTerminated a b = bool_decide (a = nullTerminated b).
Proof.
  revert b. induction a as [|x a IH]; intros [|y b]; cbn; try done; destruct (Z.eqb_spec y 0) as [->|]; try done.
  destruct (Z.eqb_spec x y) as [->|HN]; cbn [negb].
  - rewrite IH. apply bool_decide_ext. split; [by intros ->|by intros [= ->]].
  - rewrite bool_decide_false; [done|]. by intros [= ?].
Qed.

Lemma CStringTranslator_ok c : ok (fun c => nullTerminated (cs_characters c)) c.
Proof.
  split; show_functions.
  - rewrite nullTerminated_before, computeTerminatedHash_text. cbn [codeOr0 default]. by rewrite map_id.
  - intros s _. apply equalTerminated_spec.
Qed.
Lemma LCharBufferTranslator_ok c : charsOf 8 (lb_characters c) -> ok lb_characters c.
Proof. intros HC. split; show_functions; [by rewrite computeHash_text, map_id|]. intros s [_ HS]. by rewrite equalInternal_spec. Qed.
Lemma CharBufferTranslator_ok c : charsOf 8 (lit_characters c) -> ok lit_characters c.
Proof. intros HC. split; show_functions; [by rewrite computeHash_text, map_id|]. intros s [_ HS]. by rewrite equalInternal_spec. Qed.
Lemma UCharBufferTranslator_ok c : charsOf 16 (ub_characters c) -> ok ub_characters c.
Proof. intros HC. split; show_functions; [by rewrite computeHash_text, map_id|]. intros s [_ HS]. by rewrite equalInternal_spec. Qed.
Lemma SubstringTranslator_ok c : wellTyped (sl_baseString c) -> ok sl_characters c.
Proof.
  intros HC. split; show_functions; [by rewrite computeHash_text, map_id|]. intros s [_ HS]. rewrite equalInternal_spec; [done|done|]. by apply Forall_take, Forall_drop, (charsOf_16 (si_is8Bit (sl_baseString c))).
Qed.
Lemma HashAndCharactersTranslator_ok is8Bit text : charsOf (width is8Bit) text -> ok hc_characters (mkHashAndCharacters (textHash text) is8Bit text).
Proof. intros HC. split; show_functions; [done|]. intros s [_ HS]. by rewrite equalInternal_spec. Qed.

(** UTF-8 with the hash and the lengths of its text. *)
Lemma equalASCIILoop_spec n : forall s c, length s = n -> length c = n -> asciiBytes c -> equalASCIILoop n s c = Some (bool_decide (s = c)).
Proof.
  induction n as [|n IH]; intros [|x s] [|y c]; cbn; try done. intros [= HS] [= HC] [HA HF]%Forall_cons. rewrite HA. cbn [negb]. destruct (Z.eqb_spec x y) as [->|HN]; cbn [negb].
  - rewrite IH by done. f_equal. apply bool_decide_ext. split; [by intros ->|by intros [= ->]].
  - rewrite bool_decide_false; [done|]. by intros [= ?].
Qed.
Lemma UTF8Translator_ok source text : bytes source -> utf8Text source = Some text ->
  ok (fun _ => text) (mkHashAndUTF8Characters (textHash text) source (length source) (length text)).
Proof.
  intros HB HT. split; show_functions; [done|]. intros s _. unfold equalHashAndUTF8. cbn [hu_utf16Length hu_length hu_characters]. rewrite firstn_all.
  pose proof (size_text (length source) source HB (le_n _)) as HS. fold (utf8Text source) in HS. rewrite HT in HS. destruct HS as (_ & HEq & HAs & _).
  destruct (Nat.eqb_spec (length text) (length (si_characters s))) as [HL|HL]; cbn [negb]; [|rewrite bool_decide_false; [done|by intros <-]].
  destruct (Nat.eqb_spec (length text) (length source)) as [HE|HE]; cbn [negb].
  - pose proof (proj1 HEq HE) as HA. rewrite (HAs HA) in *. rewrite equalASCIILoop_spec by done. done.
  - rewrite (utf8Text_compare source text) by (done || lia). done.
Qed.
End Translators.

(** The string that is made for the bytes. *)
Lemma translateUTF8_spec source text address : bytes source -> utf8Text source = Some text -> let is8Bit := sourceAllASCII (convertUTF8ToUTF16 source (length source) true) in
  translateUTF8 address (mkHashAndUTF8Characters (textHash text) source (length source) (length text)) = mkStringImpl address is8Bit text /\ charsOf (width is8Bit) text.
Proof.
  intros HB HT is8Bit. pose proof (size_text (length source) source HB (le_n _)) as HS. fold (utf8Text source) in HS. rewrite HT in HS. destruct HS as (HL & _ & HAs & HR & _).
  pose proof (utf8Text_convert source (length source) HB) as HC. pose proof (utf8Text_convert source (length text) HB) as HC2. rewrite HT in HC, HC2.
  destruct (HC HL) as (_ & _ & HA). destruct (HC2 (le_n _)) as (_ & HT2 & HA2). unfold translateUTF8. cbn [hu_characters hu_length hu_utf16Length]. rewrite firstn_all.
  assert (E : sourceAllASCII (convertUTF8ToUTF16 source (length text) true) = is8Bit) by (apply Bool.eq_iff_eq_true; unfold is8Bit; by rewrite HA, HA2). rewrite E.
  destruct is8Bit eqn:E8; [|by rewrite HT2]. rewrite (HAs (proj1 HA E8)). done.
Qed.

(** ** The table *)

Definition atoms (st : AtomicStringTable) : gmap (list UChar) StringImpl := asMap si_characters (stringTable st).

Record tableOk (heap : Heap) (st : AtomicStringTable) : Prop := {
  to_wf : ht_wf si_characters textHash (validString heap) (stringTable st);
  to_heap a s : heap !! a = Some s -> 0 < a < nextAddress st /\ si_address s = a;
  to_atomic a : a ∈ atomicAddresses st <-> exists text s, atoms st !! text = Some s /\ si_address s = a
}.

#[local] Existing Instance GenericHashTraits_ok.

Lemma atoms_valid heap st text s : tableOk heap st -> atoms st !! text = Some s -> validString heap s /\ si_characters s = text.
Proof.
  intros HO HL. apply (asMap_lookup si_characters textHash (validString heap)) in HL as [HE HK]; [|apply HO]. split; [|done].
  apply (proj1 (Forall_forall _ _) (elements_valid si_characters textHash (validString heap) _ (to_wf _ _ HO)) s HE).
Qed.

(** An address says which atom it is. *)
Lemma atoms_address heap st t1 s1 t2 s2 : tableOk heap st -> atoms st !! t1 = Some s1 -> atoms st !! t2 = Some s2 -> si_address s1 = si_address s2 <-> t1 = t2.
Proof.
  intros HO H1 H2. destruct (atoms_valid _ _ _ _ HO H1) as [[V1 _] <-]. destruct (atoms_valid _ _ _ _ HO H2) as [[V2 _] <-]. split.
  - intros E. rewrite E, V2 in V1. by injection V1 as ->.
  - intros E. rewrite E, H2 in H1. by injection H1 as ->.
Qed.

Lemma heap_grows heap s s' : heap !! si_address s = None -> validString heap s' -> validString (<[si_address s := s]> heap) s'.
Proof. intros HN [HV HT]. split; [|done]. rewrite lookup_insert_ne; [done|]. intros E. by rewrite E, HV in HN. Qed.

Lemma next_unused heap st : tableOk heap st -> heap !! nextAddress st = None.
Proof. intros HO. destruct (heap !! nextAddress st) as [s|] eqn:E; [|done]. destruct (to_heap _ _ HO _ _ E). lia. Qed.

Lemma elements_atoms heap table s : ht_wf si_characters textHash (validString heap) table -> s ∈ ht_elements table -> asMap si_characters table !! si_characters s = Some s.
Proof. intros HW HE. by apply (asMap_lookup si_characters textHash (validString heap)). Qed.

Lemma fresh_not_atomic heap st s : tableOk heap st -> heap !! si_address s = None -> isAtomic s st = false.
Proof.
  intros HO HU. apply bool_decide_eq_false. rewrite (to_atomic _ _ HO). intros (text & s' & HL & HX). destruct (atoms_valid _ _ _ _ HO HL) as [[HV' _] _]. by rewrite HX, HU in HV'.
Qed.

(** What interning a text gives. *)
Definition interned (st : AtomicStringTable) (text : list UChar) (fresh : StringImpl) (r : StringImpl) (st' : AtomicStringTable) (made : Z) : Prop :=
  match atoms st !! text with
  | Some s => r = s /\ atoms st' = atoms st /\ nextAddress st' = nextAddress st
  | None => r = fresh /\ atoms st' = <[text := fresh]> (atoms st) /\ nextAddress st' = nextAddress st + made
  end.

Definition keys (st : AtomicStringTable) : Z := m_keyCount (stringTable st).

(** The table with a string that was looked for: it was there, or it is added. *)
Lemma tableOk_wf heap st s : tableOk heap st -> heap !! si_address s = None -> ht_wf si_characters textHash (validString (<[si_address s := s]> heap)) (stringTable st).
Proof.
  intros HO HN. apply (ht_wf_elements _ _ (validString heap)); [|apply HO]. intros v HE. apply heap_grows; [done|].
  apply (proj1 (Forall_forall _ _) (elements_valid _ _ _ _ (to_wf _ _ HO)) v HE).
Qed.
Lemma tableOk_same heap heap1 st table next : tableOk heap st -> ht_wf si_characters textHash (validString heap1) table -> asMap si_characters table = atoms st -> nextAddress st <= next ->
  tableOk heap (mkAtomicStringTable table (atomicAddresses st) next).
Proof.
  intros HO HW EM HN. split; cbn [stringTable nextAddress atomicAddresses].
  - apply (ht_wf_elements _ _ (validString heap1)); [|done]. intros v HE%(elements_atoms heap1); [|done]. rewrite EM in HE. by destruct (atoms_valid heap st _ _ HO HE).
  - intros a s HL. destruct (to_heap _ _ HO _ _ HL). split; [lia|done].
  - unfold atoms. cbn [stringTable]. rewrite EM. apply HO.
Qed.
Lemma tableOk_insert heap st s table next : tableOk heap st -> heap !! si_address s = None -> ht_wf si_characters textHash (validString (<[si_address s := s]> heap)) table ->
  atoms st !! si_characters s = None -> asMap si_characters table = <[si_characters s := s]> (atoms st) -> 0 < si_address s < next -> nextAddress st <= next ->
  tableOk (<[si_address s := s]> heap) (mkAtomicStringTable table ({[si_address s]} ∪ atomicAddresses st) next).
Proof.
  intros HO HF HW EL EM HA HN. split; cbn [stringTable nextAddress atomicAddresses]; [done| |].
  - intros a s' [[<- <-]|[HX HL]]%lookup_insert_Some; [done|]. destruct (to_heap _ _ HO _ _ HL). split; [lia|done].
  - intros a. unfold atoms. cbn [stringTable]. rewrite EM, elem_of_union, elem_of_singleton, (to_atomic _ _ HO). split.
    + intros [->|(text & s' & HL & HX)]; [by exists (si_characters s), s; rewrite lookup_insert_eq|]. exists text, s'. rewrite lookup_insert_ne; [done|]. intros <-. by rewrite EL in HL.
    + intros (text & s' & HL & HX). apply lookup_insert_Some in HL as [[<- <-]|[_ HL]]; [by left|right; by exists text, s'].
Qed.

Lemma addToStringTable_spec {T : Type} `{HashTranslator StringImpl T} (tabs : T -> list UChar) (translate : Z -> T -> StringImpl) (value : T) heap st :
  (forall heap, HashTranslatorOk si_characters tabs textHash (validString heap) value) -> tableOk heap st -> keys st < manyKeys ->
  let s := translate (nextAddress st) value in si_address s = nextAddress st -> si_characters s = tabs value -> wellTyped s -> 0 < nextAddress st ->
  exists r st' heap', addToStringTable translate value st = Some (r, st') /\ tableOk heap' st' /\ keys st' <= keys st + 1 /\ interned st (tabs value) s r st' 1.
Proof.
  intros HTr HO HK s HA HC HT HN. set (heap1 := <[si_address s := s]> heap). pose proof (HTr heap1) as HTr1. pose proof (next_unused heap st HO) as HU. rewrite <- HA in HU.
  assert (HV : validString heap1 s) by (split; [apply lookup_insert_eq|done]). pose proof (tableOk_wf heap st s HO HU) as HW1. fold heap1 in HW1.
  destruct (addPassingHashCode_spec si_characters textHash (validString heap1) tabs (fun v (_ : T) _ => translate (nextAddress st) v) value value (stringTable st) HW1 HK HV HC) as (i & isNew & table & EA & HAd).
  pose proof (added_size _ _ _ _ _ _ _ _ _ HW1 HAd) as HS. destruct HAd as (HW' & i' & w & -> & HB & HAd). fold s in HAd. unfold addToStringTable, hs_addTranslated. rewrite EA, HB. unfold interned.
  fold (atoms st) in HAd. destruct (atoms st !! tabs value) as [s0|] eqn:EL; destruct HAd as (-> & -> & EM).
  - exists s0. eexists. exists heap. split; [reflexivity|]. split; [by apply (tableOk_same heap heap1)|done].
  - exists s. eexists. exists heap1. split; [reflexivity|]. split; [|done]. rewrite <- HC in EL, EM. apply tableOk_insert; try done; lia.
Qed.

Lemma addSlowCase_spec heap st s : tableOk heap st -> keys st < manyKeys -> heap !! si_address s = None -> 0 < si_address s < nextAddress st -> wellTyped s -> si_characters s <> [] ->
  exists r st' heap', addSlowCase s st = Some (r, st') /\ tableOk heap' st' /\ keys st' <= keys st + 1 /\ interned st (si_characters s) s r st' 0.
Proof.
  intros HO HK HU HA HT HE. set (heap1 := <[si_address s := s]> heap). assert (HV : validString heap1 s) by (split; [apply lookup_insert_eq|done]).
  pose proof (tableOk_wf heap st s HO HU) as HW1. fold heap1 in HW1. destruct (addValue_spec (H0 := IdentityExtractor) si_characters textHash (validString heap1) s (stringTable st) HV HW1 HK) as (i & isNew & table & EA & HAd).
  pose proof (added_size _ _ _ _ _ _ _ _ _ HW1 HAd) as HS. destruct HAd as (HW' & i' & w & -> & HB & HAd). change (keyOf si_characters s) with (si_characters s) in HAd.
  unfold addSlowCase. rewrite (fresh_not_atomic heap) by done. rewrite (proj2 (Nat.eqb_neq _ 0)) by (by destruct (si_characters s)). unfold hs_add. rewrite EA, HB. unfold interned.
  fold (atoms st) in HAd. destruct (atoms st !! si_characters s) as [s0|] eqn:EL; destruct HAd as (-> & -> & EM).
  - exists s0. eexists. exists heap. split; [reflexivity|]. split; [by apply (tableOk_same heap heap1)|done].
  - rewrite Z.eqb_refl. exists s. eexists. exists heap1. split; [reflexivity|]. split; [apply tableOk_insert; try done; lia|]. cbn [nextAddress]. split_and!; try done. lia.
Qed.
