(* ===== verification/AtomicStringSession.v ===== *)
(** * Sessions with atomic strings

    Every sequence of the ways to make, find and release atomic strings does what
    interning texts in a finite map does. *)

From S2P Require Import Prelude TextCodecUTF8 TextCodecUTF8Loops TextCodecUTF8Spec UnicodeUTF8 UnicodeUTF8Spec HashTable HashTableProbing HashTableSpec HashFunctions HashMap StringHasher StringHasherSpec StringEqual AtomicString UTF8Text AtomicStringSpec.
From stdpp Require Import gmap.
Open Scope Z_scope.

#[local] Existing Instance GenericHashTraits_ok.
#[local] Existing Instance StringHash_ok.

(** ** The operations *)

(** Pointers may be null.  [AtomString], [AtomSubstring] and [AtomFind] take a string that was
    made for the purpose, [AtomUCharsWithHash] a text with its hash code; [AtomRelease] destroys the atom of a text if there is
    one. *)
Inductive atomOp :=
  | AtomCString (c : option (list LChar))
  | AtomUChars (s : option (list UChar))
  | AtomUCharsWithHash (s : list UChar)
  | AtomTerminatedUChars (s : option (list UChar))
  | AtomLChars (s : option (list LChar))
  | AtomLiteral (s : list LChar)
  | AtomUTF8 (hasLength : bool) (s : option (list Z))
  | AtomString (is8Bit : bool) (s : list UChar)
  | AtomSubstring (is8Bit : bool) (s : list UChar) (start length : nat)
  | AtomFind (is8Bit : bool) (s : list UChar)
  | AtomRelease (text : list UChar).

(** A new string that is not atomic. *)
Definition allocate (is8Bit : bool) (s : list UChar) (st : AtomicStringTable) : StringImpl * AtomicStringTable :=
  (mkStringImpl (nextAddress st) is8Bit s, mkAtomicStringTable (stringTable st) (atomicAddresses st) (nextAddress st + 1)).

Definition atomStep (op : atomOp) (st : AtomicStringTable) : option (option StringImpl * AtomicStringTable) :=
  match op with
  | AtomCString c => addCString c st
  | AtomUChars s => addUChars s st
  | AtomUCharsWithHash s => hash ← computeHashAndMaskTop8Bits id s; addUCharsWithHash s hash st
  | AtomTerminatedUChars s => addTerminatedUChars s st
  | AtomLChars s => addLChars s st
  | AtomLiteral s => addFromLiteralData s st
  | AtomUTF8 hasLength s => atomicFromUTF8 hasLength s st
  | AtomString is8Bit s => let '(string, st) := allocate is8Bit s st in addString (Some string) st
  | AtomSubstring is8Bit s start length => let '(string, st) := allocate is8Bit s st in addSubstring (Some string) start length st
  | AtomFind is8Bit s => let '(string, st) := allocate is8Bit s st in r ← findAtomicString string st; Some (r, st)
  | AtomRelease text =>
      let '(string, st) := allocate false text st in
      r ← findAtomicString string st;
      match r with
      | Some atom => st ← removeAtomicString atom st; Some (None, st)
      | None => Some (None, st)
      end
  end.

Fixpoint atomRun (ops : list atomOp) (st : AtomicStringTable) : option (list (option StringImpl) * AtomicStringTable) :=
  match ops with
  | [] => Some ([], st)
  | op :: ops => '(a, st) ← atomStep op st; '(answers, st) ← atomRun ops st; Some (a :: answers, st)
  end.

(** ** Interning in a finite map *)

Record internSpec := mkInternSpec {
  spec_atoms : gmap (list UChar) StringImpl;
  spec_next : Z
}.

(** The object of a text: the one that is there, or the given one. *)
Definition specIntern (s : StringImpl) (made : Z) (sp : internSpec) : option StringImpl * internSpec :=
  if (length (si_characters s) =? 0)%nat then (Some StringImpl_empty, sp)
  else
    match spec_atoms sp !! si_characters s with
    | Some s => (Some s, sp)
    | None => (Some s, mkInternSpec (<[si_characters s := s]> (spec_atoms sp)) (spec_next sp + made))
    end.
(** A new object for the text. *)
Definition specNew (is8Bit : bool) (text : list UChar) (sp : internSpec) : option StringImpl * internSpec := specIntern (mkStringImpl (spec_next sp) is8Bit text) 1 sp.
(** A string that was made before. *)
Definition specAllocated (sp : internSpec) : internSpec := mkInternSpec (spec_atoms sp) (spec_next sp + 1).
Definition specString (is8Bit : bool) (s : list UChar) (sp : internSpec) : option StringImpl * internSpec :=
  specIntern (mkStringImpl (spec_next sp) is8Bit s) 0 (specAllocated sp).

Definition narrow (s : list UChar) : bool := forallb (fun c => Z.land c 0xff00 =? 0) s.
Definition orNull {B : Type} (s : option B) (f : B -> internSpec -> option StringImpl * internSpec) (sp : internSpec) : option StringImpl * internSpec :=
  match s with None => (None, sp) | Some s => f s sp end.

Definition atomSpecStep (op : atomOp) (sp : internSpec) : option StringImpl * internSpec :=
  match op with
  | AtomCString c => orNull c (fun c => specNew true (nullTerminated c)) sp
  | AtomUChars s => orNull s (fun s => specNew (narrow s) s) sp
  | AtomUCharsWithHash s => specNew false s sp
  | AtomTerminatedUChars s => orNull s (fun s => specNew (narrow (nullTerminated s)) (nullTerminated s)) sp
  | AtomLChars s => orNull s (specNew true) sp
  | AtomLiteral s => specNew true s sp
  | AtomUTF8 _ s =>
      orNull s (fun s sp => let c := convertUTF8ToUTF16 s (length s) true in
                  match cv_result c with conversionOK => specNew (sourceAllASCII c) (cv_target c) sp | _ => (None, sp) end) sp
  | AtomString is8Bit s => specString is8Bit s sp
  | AtomSubstring is8Bit s start n =>
      if (start =? 0)%nat && (length s <=? n)%nat then specString is8Bit s sp else specNew is8Bit (take n (drop start s)) (specAllocated sp)
  | AtomFind is8Bit s => (if (length s =? 0)%nat then Some StringImpl_empty else spec_atoms sp !! s, specAllocated sp)
  | AtomRelease text => (None, mkInternSpec (delete text (spec_atoms sp)) (spec_next sp + 1))
  end.

Fixpoint atomSpecRun (ops : list atomOp) (sp : internSpec) : list (option StringImpl) * internSpec :=
  match ops with
  | [] => ([], sp)
  | op :: ops => let '(a, sp) := atomSpecStep op sp in let '(answers, sp) := atomSpecRun ops sp in (a :: answers, sp)
  end.

(** Characters in the range of their type; literals are ASCII and not empty; UTF-8 without a length has no zero; the
    empty string is static and is not destroyed. *)
Definition validAtomOp (op : atomOp) : Prop :=
  match op with
  | AtomCString s | AtomLChars s => charsOf 8 (default [] s)
  | AtomUChars s | AtomTerminatedUChars s => charsOf 16 (default [] s)
  | AtomUCharsWithHash s => charsOf 16 s
  | AtomRelease s => s <> [] /\ charsOf 16 s
  | AtomLiteral s => s <> [] /\ charsOf 8 s /\ asciiBytes s
  | AtomUTF8 hasLength s => bytes (default [] s) /\ ended hasLength (default [] s)
  | AtomString is8Bit s | AtomSubstring is8Bit s _ _ | AtomFind is8Bit s => charsOf (width is8Bit) s
  end.

(** ** The refinement *)

Record matches (heap : Heap) (st : AtomicStringTable) (sp : internSpec) : Prop := {
  mt_ok : tableOk heap st;
  mt_atoms : atoms st = spec_atoms sp;
  mt_next : nextAddress st = spec_next sp;
  mt_positive : 0 < nextAddress st
}.

Definition atomStepOk (r : option (option StringImpl * AtomicStringTable)) (before : Z) (spec : option StringImpl * internSpec) : Prop :=
  exists st' heap', r = Some (fst spec, st') /\ matches heap' st' (snd spec) /\ keys st' <= before + 1.

Lemma atomStepOk_same heap st sp a : matches heap st sp -> atomStepOk (Some (a, st)) (keys st) (a, sp).
Proof. intros HM. exists st, heap. split_and!; [done|done|lia]. Qed.

Lemma specIntern_interned heap heap' st sp s r st' made : matches heap st sp -> si_characters s <> [] -> 0 <= made -> interned st (si_characters s) s r st' made -> tableOk heap' st' ->
  fst (specIntern s made sp) = Some r /\ matches heap' st' (snd (specIntern s made sp)).
Proof.
  intros [HO HA HN HP] HE HMd HI HO'. unfold specIntern, interned in *. rewrite (proj2 (Nat.eqb_neq _ 0)) by (by destruct (si_characters s)). rewrite HA in HI.
  destruct (spec_atoms sp !! si_characters s); destruct HI as (-> & EA & EN); cbn [fst snd]; (split; [done|]); split; cbn [spec_atoms spec_next]; try done; congruence || lia.
Qed.

(** One of the functions that look for a text and make the string only if it is new. *)
Lemma intern_ok {T : Type} `{HashTranslator StringImpl T} (tabs : T -> list UChar) (translate : Z -> T -> StringImpl) (value : T) heap st sp is8Bit :
  (forall heap, HashTranslatorOk si_characters tabs textHash (validString heap) value) -> matches heap st sp -> keys st < manyKeys -> tabs value <> [] ->
  translate (nextAddress st) value = mkStringImpl (nextAddress st) is8Bit (tabs value) -> charsOf (width is8Bit) (tabs value) ->
  atomStepOk (nonNull (addToStringTable translate value st)) (keys st) (specNew is8Bit (tabs value) sp).
Proof.
  intros HTr HM HK HE HT HC. destruct (addToStringTable_spec tabs translate value heap st HTr (mt_ok _ _ _ HM) HK) as (r & st' & heap' & EA & HO' & HS & HI); [by rewrite HT..|apply HM|].
  rewrite HT in HI. unfold specNew. rewrite <- (mt_next _ _ _ HM).
  destruct (specIntern_interned heap heap' st sp (mkStringImpl (nextAddress st) is8Bit (tabs value)) r st' 1 HM) as [EF HM']; try done.
  exists st', heap'. rewrite EA, EF. by split_and!.
Qed.

Lemma intern_empty heap st sp is8Bit : matches heap st sp -> atomStepOk (Some (Some StringImpl_empty, st)) (keys st) (specNew is8Bit [] sp).
Proof. intros HM. by apply (atomStepOk_same heap). Qed.

Lemma nonEmpty_test (s : list UChar) : s <> [] -> (length s =? 0)%nat = false.
Proof. by destruct s. Qed.
Lemma charsOf_terminated bits s : charsOf bits s -> charsOf bits (nullTerminated s).
Proof. induction 1 as [|c s HC HF IH]; cbn; [constructor|]. destruct (c =? 0); [constructor|by constructor]. Qed.

(** A character of 16 bits without high bits has 8 bits. *)
Lemma narrow_spec s : charsOf 16 s -> charsOf (width (narrow s)) s.
Proof.
  intros HC. destruct (narrow s) eqn:E; [|done]. unfold narrow in E. rewrite forallb_forall in E. apply Forall_forall. intros c HI. cbn [width].
  pose proof (proj1 (Forall_forall _ _) HC c HI) as HR. cbn beta in HR. apply list_elem_of_In, E, Z.eqb_eq in HI. assert (HH : 0 <= c / 2 ^ 8 < 2 ^ 8) by div_lia.
  assert (HZ : Z.shiftr (Z.land c 0xff00) 8 = c / 2 ^ 8).
  { rewrite Z.shiftr_land, Z.shiftr_div_pow2 by lia. change (Z.shiftr 0xff00 8) with (Z.ones 8). rewrite Z.land_ones by lia. by apply Z.mod_small. }
  rewrite HI, Z.shiftr_0_l in HZ. div_lia.
Qed.

Section Steps.
Context (heap : Heap) (st : AtomicStringTable) (sp : internSpec).
Hypothesis HM : matches heap st sp.
Hypothesis HK : keys st < manyKeys.

Lemma cstring_ok c : charsOf 8 (default [] c) -> atomStepOk (addCString c st) (keys st) (atomSpecStep (AtomCString c) sp).
Proof.
  intros HC. destruct c as [c|]; [|by apply (atomStepOk_same heap)]. cbn [addCString atomSpecStep orNull]. destruct c as [|c0 c]; [by apply (intern_empty heap)|].
  destruct (Z.eqb_spec c0 0) as [->|HN]; [by apply (intern_empty heap)|].
  apply (intern_ok (fun c => nullTerminated (cs_characters c)) _ (mkCString (c0 :: c)) heap st sp true); try done.
  - intros heap'. apply CStringTranslator_ok.
  - cbn. by rewrite (proj2 (Z.eqb_neq c0 0)).
  - by apply charsOf_terminated.
Qed.

Lemma uchars_ok s : charsOf 16 (default [] s) -> atomStepOk (addUChars s st) (keys st) (atomSpecStep (AtomUChars s) sp).
Proof.
  intros HC. destruct s as [s|]; [|by apply (atomStepOk_same heap)]. cbn [addUChars atomSpecStep orNull]. destruct (decide (s = [])) as [->|HE]; [by apply (intern_empty heap)|].
  rewrite nonEmpty_test by done. apply (intern_ok ub_characters _ (mkUCharBuffer s) heap st sp (narrow s)); try done.
  - intros heap'. by apply UCharBufferTranslator_ok.
  - by apply narrow_spec.
Qed.

Lemma ucharsWithHash_ok s : charsOf 16 s -> atomStepOk (atomStep (AtomUCharsWithHash s) st) (keys st) (atomSpecStep (AtomUCharsWithHash s) sp).
Proof.
  intros HC. cbn [atomStep atomSpecStep]. rewrite computeHash_text, map_id. cbn [mbind option_bind]. unfold addUCharsWithHash. pose proof (textHash_range s) as HR. rewrite (proj2 (Z.eqb_neq (textHash s) 0)) by lia.
  destruct (decide (s = [])) as [->|HE]; [by apply (intern_empty heap)|]. rewrite nonEmpty_test by done. rewrite bool_decide_true by (by rewrite computeHash_text, map_id). cbn [negb].
  apply (intern_ok hc_characters _ (mkHashAndCharacters (textHash s) false s) heap st sp false); try done. intros heap'. by apply HashAndCharactersTranslator_ok.
Qed.

Lemma lchars_ok s : charsOf 8 (default [] s) -> atomStepOk (addLChars s st) (keys st) (atomSpecStep (AtomLChars s) sp).
Proof.
  intros HC. destruct s as [s|]; [|by apply (atomStepOk_same heap)]. cbn [addLChars atomSpecStep orNull]. destruct (decide (s = [])) as [->|HE]; [by apply (intern_empty heap)|].
  rewrite nonEmpty_test by done. apply (intern_ok lb_characters _ (mkLCharBuffer s) heap st sp true); try done. intros heap'. by apply LCharBufferTranslator_ok.
Qed.

Lemma literal_ok s : s <> [] -> charsOf 8 s -> asciiBytes s -> atomStepOk (addFromLiteralData s st) (keys st) (atomSpecStep (AtomLiteral s) sp).
Proof.
  intros HE HC HA. unfold addFromLiteralData. rewrite nonEmpty_test by done. assert (HF : forallb isASCII s = true) by (apply forallb_forall; intros c HI%list_elem_of_In; by apply (proj1 (Forall_forall _ _) HA)).
  rewrite HF. cbn [negb atomSpecStep]. apply (intern_ok lit_characters _ (mkCharBuffer s) heap st sp true); try done. intros heap'. by apply CharBufferTranslator_ok.
Qed.

Lemma utf8_ok hasLength s : bytes (default [] s) -> ended hasLength (default [] s) -> atomStepOk (atomicFromUTF8 hasLength s st) (keys st) (atomSpecStep (AtomUTF8 hasLength s) sp).
Proof.
  intros HB HE. destruct s as [s|]; [|by apply (atomStepOk_same heap)]. cbn [default] in *. cbn [atomicFromUTF8 atomSpecStep orNull].
  destruct s as [|b s]; [by apply (intern_empty heap)|]. assert (HZ : negb hasLength && (b =? 0) = false).
  { destruct HE as [->|HF]; [done|]. apply Forall_cons in HF as [HF _]. rewrite (proj2 (Z.eqb_neq b 0)) by done. apply andb_false_r. }
  rewrite HZ. assert (HNE : b :: s <> []) by done. revert HB HE HNE. generalize (b :: s). intros source HB HE HNE.
  unfold fromUTF8Internal. pose proof (utf8Text_hash hasLength source HB HE) as HH. pose proof (utf8Text_convert source (length source) HB) as HC.
  pose proof (size_text (length source) source HB (le_n _)) as HS. fold (utf8Text source) in HS. pose proof (fun text address => translateUTF8_spec source text address HB) as HTr.
  pose proof (fun heap text => UTF8Translator_ok heap source text HB) as HOk. destruct (utf8Text source) as [text|].
  - destruct HS as (HS & _ & _ & _ & HTE). destruct (HC HS) as (-> & -> & _). rewrite HH. cbn [mbind option_bind]. pose proof (textHash_range text). rewrite (proj2 (Z.eqb_neq (textHash text) 0)) by lia.
    destruct (HTr text (nextAddress st) eq_refl) as [HT HW]. apply (intern_ok (fun _ => text) _ _ heap st sp); try done; [intros heap'; by apply HOk|by apply HTE].
  - destruct HH as (dl & ul & ->). cbn [mbind option_bind]. rewrite Z.eqb_refl. destruct (cv_result (convertUTF8ToUTF16 source (length source) true)); try done; by apply (atomStepOk_same heap).
Qed.
End Steps.

(** ** Strings that are made first *)

Lemma allocated_matches heap st sp is8Bit s : matches heap st sp -> let st1 := snd (allocate is8Bit s st) in
  matches heap st1 (specAllocated sp) /\ keys st1 = keys st /\ heap !! nextAddress st = None /\ 0 < nextAddress st < nextAddress st1.
Proof.
  intros [HO HA HN HP]. cbn [allocate snd]. split_and!; try done; [|by apply next_unused|cbn; lia].
  split; cbn [nextAddress specAllocated spec_atoms spec_next]; [|done|lia|lia]. apply (tableOk_same heap heap); [done|apply HO|done|lia].
Qed.

Section Allocated.
Context (heap : Heap) (st : AtomicStringTable) (sp : internSpec) (is8Bit : bool) (s : list UChar).
Hypothesis HM : matches heap st sp.
Hypothesis HK : keys st < manyKeys.
Hypothesis HC : charsOf (width is8Bit) s.
Let string := mkStringImpl (nextAddress st) is8Bit s.
Let st1 := snd (allocate is8Bit s st).

Lemma string_ok : atomStepOk (addString (Some string) st1) (keys st) (specString is8Bit s sp).
Proof.
  destruct (allocated_matches heap st sp is8Bit s HM) as (HM1 & HK1 & HU & HA). fold st1 in HM1, HK1, HA. unfold addString.
  rewrite (fresh_not_atomic heap st1 string (mt_ok _ _ _ HM1) HU). unfold specString. rewrite <- (mt_next _ _ _ HM). fold string. rewrite <- HK1. destruct (decide (s = [])) as [E|HE].
  - unfold addSlowCase, specIntern. subst string. rewrite E. by apply (atomStepOk_same heap).
  - destruct (addSlowCase_spec heap st1 string (mt_ok _ _ _ HM1) ltac:(lia) HU HA HC HE) as (r & st' & heap' & EA & HO' & HS & HI).
    destruct (specIntern_interned heap heap' st1 (specAllocated sp) string r st' 0 HM1 HE ltac:(lia) HI HO') as [EF HM']. exists st', heap'. rewrite EA, EF. by split_and!.
Qed.

Lemma part_ok start m : take m (drop start s) <> [] ->
  atomStepOk (nonNull (addToStringTable (fun address buf => mkStringImpl address (si_is8Bit (sl_baseString buf)) (sl_characters buf)) (mkSubstringLocation string start m) st1)) (keys st)
    (specNew is8Bit (take m (drop start s)) (specAllocated sp)).
Proof.
  intros HE. destruct (allocated_matches heap st sp is8Bit s HM) as (HM1 & HK1 & _). fold st1 in HM1, HK1. rewrite <- HK1.
  apply (intern_ok sl_characters _ (mkSubstringLocation string start m) heap st1 (specAllocated sp) is8Bit); try done; [|by apply Forall_take, Forall_drop].
  intros heap'. by apply SubstringTranslator_ok.
Qed.

Lemma substring_ok start n : atomStepOk (addSubstring (Some string) start n st1) (keys st) (atomSpecStep (AtomSubstring is8Bit s start n) sp).
Proof.
  destruct (allocated_matches heap st sp is8Bit s HM) as (HM1 & HK1 & _). fold st1 in HM1, HK1. unfold addSubstring. change (si_characters string) with s. cbn [atomSpecStep].
  assert (HL : forall m, length (take m (drop start s)) = (m `min` (length s - start))%nat) by (intros m; by rewrite length_take, length_drop).
  assert (HNE : forall m, (1 <= m)%nat -> (start < length s)%nat -> take m (drop start s) <> []) by (intros m ? ? E; specialize (HL m); rewrite E in HL; cbn in HL; lia).
  destruct (Nat.eqb_spec n 0) as [En|En], (Nat.leb_spec (length s) start) as [Es|Es]; cbn [orb].
  1-3: assert (ET : take n (drop start s) = []) by (apply length_zero_iff_nil; rewrite HL; lia); rewrite <- HK1, ET;
    destruct (Nat.eqb_spec start 0) as [E1|E1], (Nat.leb_spec (length s) n) as [E2|E2]; cbn [andb]; try by apply (intern_empty heap).
  1-3: assert (Hs : s = []) by (apply length_zero_iff_nil; lia); rewrite Hs; by apply (intern_empty heap st1 (specAllocated sp) is8Bit).
  destruct (Nat.leb_spec (length s - start) n) as [HX|HX]; [destruct (Nat.eqb_spec start 0) as [->|HS]|].
  - rewrite (proj2 (Nat.leb_le (length s) n)) by lia. apply string_ok.
  - assert (ET : take (length s - start) (drop start s) = take n (drop start s)) by (rewrite !take_ge by (rewrite length_drop; lia); done). cbn [andb].
    rewrite <- ET. apply part_ok, HNE; lia.
  - destruct (Nat.eqb_spec start 0) as [E1|E1], (Nat.leb_spec (length s) n) as [E2|E2]; try lia; cbn [andb]; apply part_ok, HNE; lia.
Qed.

(** The atom of a text. *)
Lemma find_ok : exists r, findAtomicString string st1 = Some (if (length s =? 0)%nat then Some StringImpl_empty else r) /\ r = spec_atoms sp !! s.
Proof.
  destruct (allocated_matches heap st sp is8Bit s HM) as (HM1 & HK1 & _). fold st1 in HM1, HK1. exists (spec_atoms sp !! s). split; [|done]. unfold findAtomicString, si_hash.
  rewrite computeHash_text, map_id. change (si_characters string) with s. change (si_is8Bit string) with is8Bit. cbn [mbind option_bind]. pose proof (textHash_range s). rewrite (proj2 (Z.eqb_neq (textHash s) 0)) by lia.
  destruct (length s =? 0)%nat; [done|]. pose proof (HashAndCharactersTranslator_ok heap is8Bit s HC).
  destruct (find_spec si_characters textHash (validString heap) hc_characters (mkHashAndCharacters (textHash s) is8Bit s) (stringTable st1) (to_wf _ _ (mt_ok _ _ _ HM1))) as (r & -> & HR).
  fold (atoms st1) in HR. rewrite (mt_atoms _ _ _ HM1) in HR. cbn [specAllocated spec_atoms hc_characters] in HR. destruct r as [i|]; [|by rewrite HR]. destruct HR as (v & -> & ->). done.
Qed.
End Allocated.

(** ** Releasing an atom *)

Lemma remove_ok heap st sp s : matches heap st sp -> keys st <= manyKeys -> spec_atoms sp !! si_characters s = Some s ->
  exists st', removeAtomicString s st = Some st' /\ matches heap st' (mkInternSpec (delete (si_characters s) (spec_atoms sp)) (spec_next sp)) /\ keys st' <= keys st.
Proof.
  intros [HO HA HN HP] HK HL. rewrite <- HA in HL. destruct (atoms_valid heap st _ _ HO HL) as [HV _]. unfold removeAtomicString.
  assert (HAt : isAtomic s st = true) by (apply bool_decide_eq_true, (to_atomic _ _ HO); by exists (si_characters s), s). rewrite HAt. cbn [negb].
  pose proof (identityOk si_characters textHash (validString heap) s HV). destruct (find_spec si_characters textHash (validString heap) si_characters s (stringTable st) (to_wf _ _ HO)) as (r & EF & HR).
  unfold hs_find. rewrite EF. fold (atoms st) in HR. rewrite HL in HR. destruct r as [i|]; [|done]. destruct HR as (v & HB & [= <-]).
  destruct (removeEntry_spec si_characters textHash (validString heap) (stringTable st) i s (to_wf _ _ HO) HK HB) as (table & ER & HW & EM). change (keyOf si_characters s) with (si_characters s) in EM. fold (atoms st) in EM.
  unfold hs_removeIterator. cbn [removeIterator]. rewrite ER. cbn [mbind option_bind]. eexists. split; [reflexivity|]. split.
  - split; cbn [spec_atoms spec_next nextAddress]; [|by rewrite <- HA|done|done]. split; cbn [stringTable nextAddress atomicAddresses]; [done|apply HO|].
    intros a. unfold atoms at 1. cbn [stringTable]. rewrite EM, elem_of_difference, elem_of_singleton, (to_atomic _ _ HO). split.
    + intros [(text & s' & HL' & HX) HNe]. exists text, s'. rewrite lookup_delete_ne; [done|]. intros <-. rewrite HL in HL'. by injection HL' as ->.
    + intros (text & s' & [HNe HL']%lookup_delete_Some & HX). split; [by exists text, s'|]. intros E. apply HNe. rewrite <- HX in E. by apply (atoms_address heap st _ s _ s').
  - unfold keys. cbn [stringTable]. rewrite (asMap_size _ _ _ _ HW), (asMap_size _ _ _ _ (to_wf _ _ HO)), EM. fold (atoms st). rewrite map_size_delete_Some by done. lia.
Qed.

Lemma atomStep_ok heap st sp op : validAtomOp op -> matches heap st sp -> keys st < manyKeys -> atomStepOk (atomStep op st) (keys st) (atomSpecStep op sp).
Proof.
  intros HV HM HK. destruct op as [c|s|s|s|s|s|hasLength s|is8Bit s|is8Bit s start n|is8Bit s|text]; cbn [validAtomOp] in HV.
  - by apply (cstring_ok heap).
  - by apply (uchars_ok heap).
  - by apply (ucharsWithHash_ok heap).
  - destruct s as [s|]; [|by apply (atomStepOk_same heap)]. apply (uchars_ok heap st sp HM HK (Some (nullTerminated s))). by apply charsOf_terminated.
  - by apply (lchars_ok heap).
  - destruct HV as (HE & HC & HA). by apply (literal_ok heap).
  - destruct HV as [HB HE]. by apply (utf8_ok heap).
  - by apply (string_ok heap).
  - by apply (substring_ok heap).
  - cbn [atomStep allocate]. destruct (find_ok heap st sp is8Bit s HM HV) as (r & EF & ->). cbn [allocate snd] in EF. rewrite EF. destruct (allocated_matches heap st sp is8Bit s HM) as (HM1 & <- & _).
    by apply (atomStepOk_same heap).
  - destruct HV as [HE HC]. cbn [atomStep allocate atomSpecStep]. destruct (find_ok heap st sp false text HM HC) as (r & EF & ER). rewrite nonEmpty_test in EF by done. cbn [allocate snd] in EF. rewrite EF.
    destruct (allocated_matches heap st sp false text HM) as (HM1 & HK1 & _). cbn [allocate snd] in HM1, HK1. cbn [mbind option_bind]. destruct r as [atom|].
    + pose proof (eq_sym ER) as HL. rewrite <- (mt_atoms _ _ _ HM) in HL. destruct (atoms_valid heap st _ _ (mt_ok _ _ _ HM) HL) as [_ <-].
      destruct (remove_ok heap _ _ atom HM1) as (st' & -> & HM' & HK'); [lia|done|]. cbn [mbind option_bind]. exists st', heap. split_and!; [done|done|]. lia.
    + rewrite delete_id by done. rewrite <- HK1. by apply (atomStepOk_same heap).
Qed.

Lemma atomRun_ok ops : Forall validAtomOp ops -> forall heap st sp, matches heap st sp -> keys st + Z.of_nat (length ops) <= manyKeys ->
  exists answers st' heap', atomRun ops st = Some (answers, st') /\ fst (atomSpecRun ops sp) = answers /\ matches heap' st' (snd (atomSpecRun ops sp)).
Proof.
  induction 1 as [|op ops HV _ IH]; intros heap st sp HM HK; cbn [atomRun atomSpecRun length] in *; [by exists [], st, heap|].
  destruct (atomStep_ok heap st sp op HV HM ltac:(lia)) as (st1 & heap1 & -> & HM1 & HK1). destruct (atomSpecStep op sp) as [a sp1]. cbn [fst snd] in *.
  destruct (IH heap1 st1 sp1 HM1 ltac:(lia)) as (answers & st' & heap' & ER & EF & HM'). cbn [mbind option_bind]. rewrite ER. destruct (atomSpecRun ops sp1) as [answers' sp']. cbn [fst snd] in *. subst answers'.
  by exists (a :: answers), st', heap'.
Qed.

(** C8: Atomic strings are interned.  From the empty table, every sequence of the functions that make an atomic string (from a C string,
    from runs of 8 and of 16 bit characters with and without a length, with a known hash, from literal data, from UTF-8,
    from a string and from a part of a string), look one up and destroy one, of at most [manyKeys] operations, runs to its end without a
    failed assertion or a read out of range.  Each answers as interning its text in a finite map does: with the
    object that stands for the text if there is one, whichever function made it, and otherwise with a new one that has this text; the null string for
    null pointers and bytes that are not valid.  At the end the table holds that map, and two of its strings have one
    address when and only when they have one text, so that comparing pointers compares texts. *)
Theorem atomic_strings_are_interned (ops : list atomOp) :
  Forall validAtomOp ops -> Z.of_nat (length ops) <= manyKeys ->
  exists answers st sp, atomRun ops newAtomicStringTable = Some (answers, st) /\ atomSpecRun ops (mkInternSpec ∅ 1) = (answers, sp) /\ atoms st = spec_atoms sp /\
    forall t1 s1 t2 s2, spec_atoms sp !! t1 = Some s1 -> spec_atoms sp !! t2 = Some s2 -> si_characters s1 = t1 /\ (si_address s1 = si_address s2 <-> t1 = t2).
Proof.
  intros HV HL. assert (HM : matches ∅ newAtomicStringTable (mkInternSpec ∅ 1)).
  { split; [split|..]; try done; cbn; intros a; try done. split; [by intros ?%elem_of_empty|by intros (text & s & ? & _)]. }
  destruct (atomRun_ok ops HV ∅ newAtomicStringTable (mkInternSpec ∅ 1) HM) as (answers & st & heap & ER & EF & HM'); [cbn; lia|]. destruct (atomSpecRun ops (mkInternSpec ∅ 1)) as [answers' sp]. cbn [fst snd] in *.
  subst answers'. exists answers, st, sp. split_and!; [done|done|apply HM'|]. intros t1 s1 t2 s2 H1 H2. rewrite <- (mt_atoms _ _ _ HM') in H1, H2.
  split; [by destruct (atoms_valid _ _ _ _ (mt_ok _ _ _ HM') H1)|by apply (atoms_address heap st t1 s1 t2 s2 (mt_ok _ _ _ HM'))].
Qed.

Definition sampleAtoms : list atomOp :=
  [AtomCString (Some [0x64; 0x69; 0x76; 0]); AtomUChars (Some [0x64; 0x69; 0x76]); AtomUTF8 true (Some [0x64; 0x69; 0x76]); AtomSubstring true [0x61; 0x64; 0x69; 0x76] 1 9; AtomUTF8 false (Some [0xC3; 0xA9]);
   AtomString false [0xE9]; AtomLiteral [0x70]; AtomFind true [0x70]; AtomRelease [0x64; 0x69; 0x76]; AtomLChars (Some [0x64; 0x69; 0x76]); AtomUTF8 true (Some [0xFF]); AtomTerminatedUChars None; AtomUCharsWithHash [0x2014]].

(** Concrete characters. *)
Ltac valid_characters :=
  first [ done
        | match goal with
          | |- _ /\ _ => split; valid_characters
          | |- ended true _ => by left
          | |- ended false _ => right; valid_characters
          | |- Forall _ (_ :: _) => apply Forall_cons_2; [first [lia|done]|valid_characters]
          | |- Forall _ [] => apply Forall_nil_2
          end ].

Lemma atomic_strings_are_interned_witness :
  exists answers st sp, atomRun sampleAtoms newAtomicStringTable = Some (answers, st) /\ atomSpecRun sampleAtoms (mkInternSpec ∅ 1) = (answers, sp) /\ atoms st = spec_atoms sp /\
    forall t1 s1 t2 s2, spec_atoms sp !! t1 = Some s1 -> spec_atoms sp !! t2 = Some s2 -> si_characters s1 = t1 /\ (si_address s1 = si_address s2 <-> t1 = t2).
Proof.
  apply (atomic_strings_are_interned sampleAtoms); [|vm_compute; discriminate]. unfold sampleAtoms.
  repeat (apply Forall_cons_2; [cbn; unfold charsOf, bytes, asciiBytes; valid_characters|]). apply Forall_nil_2.
Defined.
