(* ===== verification/SegmentedString.v ===== *)
(** * [SegmentedString]

    [platform/text/SegmentedString.h] and [SegmentedString.cpp]: the input
    buffer of the HTML parser.  A segmented string is a current substring, a
    deque of further substrings and up to two pushed-back characters; reading
    goes through a pair of member function pointers and a flags word that
    select a fast path.  The file translates the class, states the
    representation invariant [wf] that ties the pointers to the contents, and
    proves that the class refines [ListSource]. *)

From S2P Require Import Prelude CharacterSource.
Open Scope Z_scope.

(** ** Data *)

(** A [WTF::String]: its code units and whether they are stored as [LChar]. *)
Record WTFString := mkString { string_is8Bit : bool; string_characters : list UChar }.

(** [m_data] is the position of [string8Ptr]/[string16Ptr] in the characters of
    [m_string]; [None] is the null pointer. *)
Record SegmentedSubstring := mkSubstring {
  m_data : option Z;
  m_length : Z;
  m_doNotExcludeLineNumbers : bool;
  m_is8Bit : bool;
  m_string : list UChar
}.

#[global] Instance set_m_data : Setter m_data := fun v r =>
  mkSubstring v (m_length r) (m_doNotExcludeLineNumbers r) (m_is8Bit r) (m_string r).
#[global] Instance set_m_length : Setter m_length := fun v r =>
  mkSubstring (m_data r) v (m_doNotExcludeLineNumbers r) (m_is8Bit r) (m_string r).
#[global] Instance set_m_doNotExcludeLineNumbers : Setter m_doNotExcludeLineNumbers := fun v r =>
  mkSubstring (m_data r) (m_length r) v (m_is8Bit r) (m_string r).
#[global] Instance set_m_is8Bit : Setter m_is8Bit := fun v r =>
  mkSubstring (m_data r) (m_length r) (m_doNotExcludeLineNumbers r) v (m_string r).
#[global] Instance set_m_string : Setter m_string := fun v r =>
  mkSubstring (m_data r) (m_length r) (m_doNotExcludeLineNumbers r) (m_is8Bit r) v.

(** The member functions [m_advanceFunc] and [m_advanceAndUpdateLineNumberFunc]
    can point to. *)
Inductive AdvanceFunction :=
| AdvanceEmpty
| Advance8
| Advance16
| AdvanceAndUpdateLineNumber8
| AdvanceAndUpdateLineNumber16
| AdvanceSlowCase
| AdvanceAndUpdateLineNumberSlowCase.

Record SegmentedString := mkSegmentedString {
  m_pushedChar1 : UChar;
  m_pushedChar2 : UChar;
  m_currentString : SegmentedSubstring;
  m_currentChar : UChar;
  m_numberOfCharactersConsumedPriorToCurrentString : Z;
  m_numberOfCharactersConsumedPriorToCurrentLine : Z;
  m_currentLine : Z;
  m_substrings : list SegmentedSubstring;
  m_closed : bool;
  m_empty : bool;
  m_fastPathFlags : Z;
  m_advanceFunc : AdvanceFunction;
  m_advanceAndUpdateLineNumberFunc : AdvanceFunction
}.

#[global] Instance set_m_pushedChar1 : Setter m_pushedChar1 := fun v r =>
  mkSegmentedString v (m_pushedChar2 r) (m_currentString r) (m_currentChar r) (m_numberOfCharactersConsumedPriorToCurrentString r) (m_numberOfCharactersConsumedPriorToCurrentLine r) (m_currentLine r) (m_substrings r) (m_closed r) (m_empty r) (m_fastPathFlags r) (m_advanceFunc r) (m_advanceAndUpdateLineNumberFunc r).
#[global] Instance set_m_pushedChar2 : Setter m_pushedChar2 := fun v r =>
  mkSegmentedString (m_pushedChar1 r) v (m_currentString r) (m_currentChar r) (m_numberOfCharactersConsumedPriorToCurrentString r) (m_numberOfCharactersConsumedPriorToCurrentLine r) (m_currentLine r) (m_substrings r) (m_closed r) (m_empty r) (m_fastPathFlags r) (m_advanceFunc r) (m_advanceAndUpdateLineNumberFunc r).
#[global] Instance set_m_currentString : Setter m_currentString := fun v r =>
  mkSegmentedString (m_pushedChar1 r) (m_pushedChar2 r) v (m_currentChar r) (m_numberOfCharactersConsumedPriorToCurrentString r) (m_numberOfCharactersConsumedPriorToCurrentLine r) (m_currentLine r) (m_substrings r) (m_closed r) (m_empty r) (m_fastPathFlags r) (m_advanceFunc r) (m_advanceAndUpdateLineNumberFunc r).
#[global] Instance set_m_currentChar : Setter m_currentChar := fun v r =>
  mkSegmentedString (m_pushedChar1 r) (m_pushedChar2 r) (m_currentString r) v (m_numberOfCharactersConsumedPriorToCurrentString r) (m_numberOfCharactersConsumedPriorToCurrentLine r) (m_currentLine r) (m_substrings r) (m_closed r) (m_empty r) (m_fastPathFlags r) (m_advanceFunc r) (m_advanceAndUpdateLineNumberFunc r).
#[global] Instance set_m_numberOfCharactersConsumedPriorToCurrentString : Setter m_numberOfCharactersConsumedPriorToCurrentString := fun v r =>
  mkSegmentedString (m_pushedChar1 r) (m_pushedChar2 r) (m_currentString r) (m_currentChar r) v (m_numberOfCharactersConsumedPriorToCurrentLine r) (m_currentLine r) (m_substrings r) (m_closed r) (m_empty r) (m_fastPathFlags r) (m_advanceFunc r) (m_advanceAndUpdateLineNumberFunc r).
#[global] Instance set_m_numberOfCharactersConsumedPriorToCurrentLine : Setter m_numberOfCharactersConsumedPriorToCurrentLine := fun v r =>
  mkSegmentedString (m_pushedChar1 r) (m_pushedChar2 r) (m_currentString r) (m_currentChar r) (m_numberOfCharactersConsumedPriorToCurrentString r) v (m_currentLine r) (m_substrings r) (m_closed r) (m_empty r) (m_fastPathFlags r) (m_advanceFunc r) (m_advanceAndUpdateLineNumberFunc r).
#[global] Instance set_m_currentLine : Setter m_currentLine := fun v r =>
  mkSegmentedString (m_pushedChar1 r) (m_pushedChar2 r) (m_currentString r) (m_currentChar r) (m_numberOfCharactersConsumedPriorToCurrentString r) (m_numberOfCharactersConsumedPriorToCurrentLine r) v (m_substrings r) (m_closed r) (m_empty r) (m_fastPathFlags r) (m_advanceFunc r) (m_advanceAndUpdateLineNumberFunc r).
#[global] Instance set_m_substrings : Setter m_substrings := fun v r =>
  mkSegmentedString (m_pushedChar1 r) (m_pushedChar2 r) (m_currentString r) (m_currentChar r) (m_numberOfCharactersConsumedPriorToCurrentString r) (m_numberOfCharactersConsumedPriorToCurrentLine r) (m_currentLine r) v (m_closed r) (m_empty r) (m_fastPathFlags r) (m_advanceFunc r) (m_advanceAndUpdateLineNumberFunc r).
#[global] Instance set_m_closed : Setter m_closed := fun v r =>
  mkSegmentedString (m_pushedChar1 r) (m_pushedChar2 r) (m_currentString r) (m_currentChar r) (m_numberOfCharactersConsumedPriorToCurrentString r) (m_numberOfCharactersConsumedPriorToCurrentLine r) (m_currentLine r) (m_substrings r) v (m_empty r) (m_fastPathFlags r) (m_advanceFunc r) (m_advanceAndUpdateLineNumberFunc r).
#[global] Instance set_m_empty : Setter m_empty := fun v r =>
  mkSegmentedString (m_pushedChar1 r) (m_pushedChar2 r) (m_currentString r) (m_currentChar r) (m_numberOfCharactersConsumedPriorToCurrentString r) (m_numberOfCharactersConsumedPriorToCurrentLine r) (m_currentLine r) (m_substrings r) (m_closed r) v (m_fastPathFlags r) (m_advanceFunc r) (m_advanceAndUpdateLineNumberFunc r).
#[global] Instance set_m_fastPathFlags : Setter m_fastPathFlags := fun v r =>
  mkSegmentedString (m_pushedChar1 r) (m_pushedChar2 r) (m_currentString r) (m_currentChar r) (m_numberOfCharactersConsumedPriorToCurrentString r) (m_numberOfCharactersConsumedPriorToCurrentLine r) (m_currentLine r) (m_substrings r) (m_closed r) (m_empty r) v (m_advanceFunc r) (m_advanceAndUpdateLineNumberFunc r).
#[global] Instance set_m_advanceFunc : Setter m_advanceFunc := fun v r =>
  mkSegmentedString (m_pushedChar1 r) (m_pushedChar2 r) (m_currentString r) (m_currentChar r) (m_numberOfCharactersConsumedPriorToCurrentString r) (m_numberOfCharactersConsumedPriorToCurrentLine r) (m_currentLine r) (m_substrings r) (m_closed r) (m_empty r) (m_fastPathFlags r) v (m_advanceAndUpdateLineNumberFunc r).
#[global] Instance set_m_advanceAndUpdateLineNumberFunc : Setter m_advanceAndUpdateLineNumberFunc := fun v r =>
  mkSegmentedString (m_pushedChar1 r) (m_pushedChar2 r) (m_currentString r) (m_currentChar r) (m_numberOfCharactersConsumedPriorToCurrentString r) (m_numberOfCharactersConsumedPriorToCurrentLine r) (m_currentLine r) (m_substrings r) (m_closed r) (m_empty r) (m_fastPathFlags r) (m_advanceFunc r) v.

(** [SegmentedString::FastPathFlags] *)
Definition NoFastPath : Z := 0.
Definition Use8BitAdvanceAndUpdateLineNumbers : Z := Z.shiftl 1 0.
Definition Use8BitAdvance : Z := Z.shiftl 1 1.

(** ** [SegmentedSubstring] *)

Definition SegmentedSubstring_default : SegmentedSubstring :=
  mkSubstring None 0 true false [].

Definition SegmentedSubstring_fromString (s : WTFString) : SegmentedSubstring :=
  let len := Z.of_nat (length (string_characters s)) in
  if negb (len =? 0)
  then mkSubstring (Some 0) len true (string_is8Bit s) (string_characters s)
  else mkSubstring None len true false (string_characters s).

Definition sub_clear (b : SegmentedSubstring) : SegmentedSubstring :=
  b <| m_length := 0 |> <| m_data := None |> <| m_is8Bit := false |>.

Definition sub_excludeLineNumbers (b : SegmentedSubstring) : bool :=
  negb (m_doNotExcludeLineNumbers b).

Definition sub_setExcludeLineNumbers (b : SegmentedSubstring) : SegmentedSubstring :=
  b <| m_doNotExcludeLineNumbers := false |>.

Definition sub_numberOfCharactersConsumed (b : SegmentedSubstring) : Z :=
  Z.of_nat (length (m_string b)) - m_length b.

(** [String::substring(offset, length)]. *)
Definition substring (s : list UChar) (offset len : Z) : list UChar :=
  take (Z.to_nat len) (drop (Z.to_nat offset) s).

(** The characters [appendTo] adds to the builder. *)
Definition sub_appendTo (b : SegmentedSubstring) : list UChar :=
  let offset := Z.of_nat (length (m_string b)) - m_length b in
  if offset =? 0 then (if negb (m_length b =? 0) then m_string b else [])
  else substring (m_string b) offset (m_length b).

(** Reading the character a data pointer designates. *)
Definition deref (b : SegmentedSubstring) : UChar :=
  match m_data b with
  | Some i => nth (Z.to_nat i) (m_string b) 0
  | None => 0
  end.

Definition getCurrentChar8 (b : SegmentedSubstring) : UChar := deref b.

Definition getCurrentChar16 (b : SegmentedSubstring) : UChar :=
  match m_data b with Some _ => deref b | None => 0 end.

(** [++m_data.string8Ptr] or [++m_data.string16Ptr]. *)
Definition incrementData (b : SegmentedSubstring) : SegmentedSubstring :=
  b <| m_data := Z.succ <$> m_data b |>.

Definition incrementAndGetCurrentChar8 (b : SegmentedSubstring) : UChar * SegmentedSubstring :=
  let b := incrementData b in (deref b, b).

Definition incrementAndGetCurrentChar16 (b : SegmentedSubstring) : UChar * SegmentedSubstring :=
  let b := incrementData b in (deref b, b).

Definition currentSubString (b : SegmentedSubstring) (len : Z) : list UChar :=
  substring (m_string b) (Z.of_nat (length (m_string b)) - m_length b) len.

Definition getCurrentChar (b : SegmentedSubstring) : UChar :=
  if m_is8Bit b then getCurrentChar8 b else getCurrentChar16 b.

Definition incrementAndGetCurrentChar (b : SegmentedSubstring) : UChar * SegmentedSubstring :=
  if m_is8Bit b then incrementAndGetCurrentChar8 b else incrementAndGetCurrentChar16 b.

(** ** [SegmentedString] *)

Definition isComposite (s : SegmentedString) : bool :=
  match m_substrings s with [] => false | _ :: _ => true end.

Definition updateSlowCaseFunctionPointers (s : SegmentedString) : SegmentedString :=
  s <| m_fastPathFlags := NoFastPath |>
    <| m_advanceFunc := AdvanceSlowCase |>
    <| m_advanceAndUpdateLineNumberFunc := AdvanceAndUpdateLineNumberSlowCase |>.

Definition updateAdvanceFunctionPointers (s : SegmentedString) : SegmentedString :=
  let b := m_currentString s in
  if (m_length b >? 1) && (m_pushedChar1 s =? 0) then
    if m_is8Bit b then
      let s := s <| m_advanceFunc := Advance8 |> <| m_fastPathFlags := Use8BitAdvance |> in
      if m_doNotExcludeLineNumbers b then
        s <| m_advanceAndUpdateLineNumberFunc := AdvanceAndUpdateLineNumber8 |>
          <| m_fastPathFlags := Z.lor Use8BitAdvance Use8BitAdvanceAndUpdateLineNumbers |>
      else s <| m_advanceAndUpdateLineNumberFunc := Advance8 |>
    else
      let s := s <| m_advanceFunc := Advance16 |> <| m_fastPathFlags := NoFastPath |> in
      if m_doNotExcludeLineNumbers b
      then s <| m_advanceAndUpdateLineNumberFunc := AdvanceAndUpdateLineNumber16 |>
      else s <| m_advanceAndUpdateLineNumberFunc := Advance16 |>
  else
    let s :=
      if (m_length b =? 0) && negb (isComposite s) then
        s <| m_advanceFunc := AdvanceEmpty |> <| m_fastPathFlags := NoFastPath |>
          <| m_advanceAndUpdateLineNumberFunc := AdvanceEmpty |>
      else s in
    updateSlowCaseFunctionPointers s.

Definition SegmentedString_default : SegmentedString :=
  mkSegmentedString 0 0 SegmentedSubstring_default 0 0 0 0 [] false true
    NoFastPath AdvanceEmpty AdvanceEmpty.

(** The constructor from a [String]; the function pointers are set by the call
    to [updateAdvanceFunctionPointers] that ends it. *)
Definition SegmentedString_fromString (str : WTFString) : SegmentedString :=
  let b := SegmentedSubstring_fromString str in
  let s := mkSegmentedString 0 0 b 0 0 0 0 [] false (bool_decide (string_characters str = []))
             NoFastPath AdvanceEmpty AdvanceEmpty in
  let s := if negb (m_length b =? 0) then s <| m_currentChar := getCurrentChar b |> else s in
  updateAdvanceFunctionPointers s.

Definition currentStringChar (s : SegmentedString) : UChar :=
  if negb (m_length (m_currentString s) =? 0) then getCurrentChar (m_currentString s) else 0.

(** The copy constructor, which recomputes [m_currentChar]. *)
Definition SegmentedString_copy (other : SegmentedString) : SegmentedString :=
  other <| m_currentChar :=
    if negb (m_pushedChar2 other =? 0) then m_pushedChar2 other
    else if negb (m_pushedChar1 other =? 0) then m_pushedChar1 other
    else currentStringChar other |>.

(** The assignment operator; nothing of the string that is assigned to is
    kept. *)
Definition seg_assign (other s : SegmentedString) : SegmentedString :=
  mkSegmentedString (m_pushedChar1 other) (m_pushedChar2 other) (m_currentString other)
    (if negb (m_pushedChar2 other =? 0) then m_pushedChar2 other
     else if negb (m_pushedChar1 other =? 0) then m_pushedChar1 other
     else currentStringChar other)
    (m_numberOfCharactersConsumedPriorToCurrentString other)
    (m_numberOfCharactersConsumedPriorToCurrentLine other) (m_currentLine other)
    (m_substrings other) (m_closed other) (m_empty other) (m_fastPathFlags other)
    (m_advanceFunc other) (m_advanceAndUpdateLineNumberFunc other).

Definition seg_length (s : SegmentedString) : Z :=
  let len := uint32 (m_length (m_currentString s)) in
  let len :=
    if negb (m_pushedChar1 s =? 0) then
      let len := uint32 (len + 1) in
      if negb (m_pushedChar2 s =? 0) then uint32 (len + 1) else len
    else len in
  if isComposite s
  then fold_left (fun n b => uint32 (n + m_length b)) (m_substrings s) len else len.

Definition seg_setExcludeLineNumbers (s : SegmentedString) : SegmentedString :=
  let s := s <| m_currentString := sub_setExcludeLineNumbers (m_currentString s) |> in
  if isComposite s
  then s <| m_substrings := map sub_setExcludeLineNumbers (m_substrings s) |> else s.

Definition seg_clear (s : SegmentedString) : SegmentedString :=
  mkSegmentedString 0 0 (sub_clear (m_currentString s)) 0 0 0 0 [] false true
    NoFastPath AdvanceEmpty AdvanceEmpty.

Definition seg_close (s : SegmentedString) : SegmentedString := s <| m_closed := true |>.

Definition escaped (s : SegmentedString) : bool := negb (m_pushedChar1 s =? 0).

Definition seg_push (c : UChar) (s : SegmentedString) : SegmentedString :=
  if m_pushedChar1 s =? 0 then
    let s := s <| m_pushedChar1 := c |> in
    let s := s <| m_currentChar :=
      if negb (m_pushedChar1 s =? 0) then m_pushedChar1 s
      else getCurrentChar (m_currentString s) |> in
    updateSlowCaseFunctionPointers s
  else s <| m_pushedChar2 := c |>.

Definition seg_numberOfCharactersConsumed (s : SegmentedString) : Z :=
  let numberOfPushedCharacters :=
    if negb (m_pushedChar1 s =? 0)
    then (if negb (m_pushedChar2 s =? 0) then 2 else 1) else 0 in
  m_numberOfCharactersConsumedPriorToCurrentString s
  + sub_numberOfCharactersConsumed (m_currentString s) - numberOfPushedCharacters.

(** [append(const SegmentedSubstring&)] and [append(const SegmentedString&)]. *)
Definition seg_appendSubstring (b : SegmentedSubstring) (s : SegmentedString) : SegmentedString :=
  if m_length b =? 0 then s else
  let s :=
    if m_length (m_currentString s) =? 0 then
      updateAdvanceFunctionPointers
        (s <| m_numberOfCharactersConsumedPriorToCurrentString :=
                m_numberOfCharactersConsumedPriorToCurrentString s
                + sub_numberOfCharactersConsumed (m_currentString s) |>
           <| m_currentString := b |>)
    else s <| m_substrings := m_substrings s ++ [b] |> in
  s <| m_empty := false |>.

Definition refreshCurrentChar (s : SegmentedString) : SegmentedString :=
  s <| m_currentChar :=
    if negb (m_pushedChar1 s =? 0) then m_pushedChar1 s else currentStringChar s |>.

Definition seg_append (t s : SegmentedString) : SegmentedString :=
  let s := seg_appendSubstring (m_currentString t) s in
  let s := if isComposite t
           then fold_left (fun s b => seg_appendSubstring b s) (m_substrings t) s else s in
  refreshCurrentChar s.

(** [prepend(const SegmentedSubstring&)] and [prepend(const SegmentedString&)]. *)
Definition seg_prependSubstring (b : SegmentedSubstring) (s : SegmentedString) : SegmentedString :=
  if m_length b =? 0 then s else
  let s := s <| m_numberOfCharactersConsumedPriorToCurrentString :=
                  m_numberOfCharactersConsumedPriorToCurrentString s
                  + sub_numberOfCharactersConsumed (m_currentString s) - m_length b |> in
  let s :=
    if m_length (m_currentString s) =? 0 then
      updateAdvanceFunctionPointers (s <| m_currentString := b |>)
    else
      updateAdvanceFunctionPointers
        (s <| m_substrings := m_currentString s :: m_substrings s |>
           <| m_currentString := b |>) in
  s <| m_empty := false |>.

Definition seg_prepend (t s : SegmentedString) : SegmentedString :=
  let s := if isComposite t
           then fold_left (fun s b => seg_prependSubstring b s) (rev (m_substrings t)) s else s in
  refreshCurrentChar (seg_prependSubstring (m_currentString t) s).

Definition clearAndInstallEmpty (s : SegmentedString) : SegmentedString :=
  s <| m_currentString := sub_clear (m_currentString s) |>
    <| m_empty := true |>
    <| m_fastPathFlags := NoFastPath |>
    <| m_advanceFunc := AdvanceEmpty |>
    <| m_advanceAndUpdateLineNumberFunc := AdvanceEmpty |>.

Definition advanceSubstring (s : SegmentedString) : SegmentedString :=
  match m_substrings s with
  | b :: rest =>
      let s := s <| m_numberOfCharactersConsumedPriorToCurrentString :=
                      m_numberOfCharactersConsumedPriorToCurrentString s
                      + sub_numberOfCharactersConsumed (m_currentString s) |>
                 <| m_currentString := b |> <| m_substrings := rest |> in
      updateAdvanceFunctionPointers
        (s <| m_numberOfCharactersConsumedPriorToCurrentString :=
                m_numberOfCharactersConsumedPriorToCurrentString s
                - sub_numberOfCharactersConsumed (m_currentString s) |>)
  | [] => clearAndInstallEmpty s
  end.

Definition seg_toString (s : SegmentedString) : list UChar :=
  (if negb (m_pushedChar1 s =? 0)
   then m_pushedChar1 s :: (if negb (m_pushedChar2 s =? 0) then [m_pushedChar2 s] else [])
   else [])
  ++ sub_appendTo (m_currentString s)
  ++ (if isComposite s then concat (map sub_appendTo (m_substrings s)) else []).

(** [--m_currentString.m_length] *)
Definition decrementLength (s : SegmentedString) : SegmentedString :=
  s <| m_currentString :=
    m_currentString s <| m_length := m_length (m_currentString s) - 1 |> |>.

Definition decrementAndCheckLength (s : SegmentedString) : SegmentedString :=
  let s := decrementLength s in
  if m_length (m_currentString s) =? 1 then updateSlowCaseFunctionPointers s else s.

(** [m_currentChar = m_currentString.incrementAndGetCurrentChar()] and its
    8 and 16 bit variants. *)
Definition incrementCurrentChar
    (f : SegmentedSubstring -> UChar * SegmentedSubstring) (s : SegmentedString) : SegmentedString :=
  let '(c, b) := f (m_currentString s) in
  s <| m_currentString := b |> <| m_currentChar := c |>.

(** [++m_currentLine] and the line start that goes with it. *)
Definition startNewLine (consumed : Z) (s : SegmentedString) : SegmentedString :=
  s <| m_currentLine := m_currentLine s + 1 |>
    <| m_numberOfCharactersConsumedPriorToCurrentLine := consumed |>.

Definition seg_advance8 (s : SegmentedString) : SegmentedString :=
  incrementCurrentChar incrementAndGetCurrentChar8 (decrementAndCheckLength s).

Definition seg_advance16 (s : SegmentedString) : SegmentedString :=
  incrementCurrentChar incrementAndGetCurrentChar16 (decrementAndCheckLength s).

Definition seg_advanceAndUpdateLineNumber8 (s : SegmentedString) : SegmentedString :=
  let s := if m_currentChar s =? cLF
           then startNewLine (seg_numberOfCharactersConsumed s + 1) s else s in
  incrementCurrentChar incrementAndGetCurrentChar8 (decrementAndCheckLength s).

Definition seg_advanceAndUpdateLineNumber16 (s : SegmentedString) : SegmentedString :=
  let s := if m_currentChar s =? cLF
           then startNewLine (seg_numberOfCharactersConsumed s + 1) s else s in
  incrementCurrentChar incrementAndGetCurrentChar16 (decrementAndCheckLength s).

Definition seg_advanceSlowCase (s : SegmentedString) : SegmentedString :=
  let fin s := s <| m_currentChar := currentStringChar s |> in
  if negb (m_pushedChar1 s =? 0) then
    let s := s <| m_pushedChar1 := m_pushedChar2 s |> <| m_pushedChar2 := 0 |> in
    if negb (m_pushedChar1 s =? 0) then s <| m_currentChar := m_pushedChar1 s |>
    else fin (updateAdvanceFunctionPointers s)
  else if negb (m_length (m_currentString s) =? 0) then
    let s := decrementLength s in
    fin (if m_length (m_currentString s) =? 0 then advanceSubstring s else s)
  else if negb (isComposite s) then fin (clearAndInstallEmpty s)
  else fin s.

Definition seg_advanceAndUpdateLineNumberSlowCase (s : SegmentedString) : SegmentedString :=
  let fin s := s <| m_currentChar := currentStringChar s |> in
  if negb (m_pushedChar1 s =? 0) then
    let s := s <| m_pushedChar1 := m_pushedChar2 s |> <| m_pushedChar2 := 0 |> in
    if negb (m_pushedChar1 s =? 0) then s <| m_currentChar := m_pushedChar1 s |>
    else fin (updateAdvanceFunctionPointers s)
  else if negb (m_length (m_currentString s) =? 0) then
    let s :=
      if (getCurrentChar (m_currentString s) =? cLF) && m_doNotExcludeLineNumbers (m_currentString s)
      then startNewLine (seg_numberOfCharactersConsumed s + 1) s else s in
    let s := decrementLength s in
    fin (if m_length (m_currentString s) =? 0 then advanceSubstring s
         else s <| m_currentString := snd (incrementAndGetCurrentChar (m_currentString s)) |>)
  else if negb (isComposite s) then fin (clearAndInstallEmpty s)
  else fin s.

Definition advanceEmpty (s : SegmentedString) : SegmentedString := s <| m_currentChar := 0 |>.

(** The call through a member function pointer. *)
Definition callAdvanceFunction (f : AdvanceFunction) (s : SegmentedString) : SegmentedString :=
  match f with
  | AdvanceEmpty => advanceEmpty s
  | Advance8 => seg_advance8 s
  | Advance16 => seg_advance16 s
  | AdvanceAndUpdateLineNumber8 => seg_advanceAndUpdateLineNumber8 s
  | AdvanceAndUpdateLineNumber16 => seg_advanceAndUpdateLineNumber16 s
  | AdvanceSlowCase => seg_advanceSlowCase s
  | AdvanceAndUpdateLineNumberSlowCase => seg_advanceAndUpdateLineNumberSlowCase s
  end.

Definition seg_advance (s : SegmentedString) : SegmentedString :=
  if negb (Z.land (m_fastPathFlags s) Use8BitAdvance =? 0) then
    let s := decrementLength s in
    let haveOneCharacterLeft := m_length (m_currentString s) =? 1 in
    let s := incrementCurrentChar incrementAndGetCurrentChar8 s in
    if negb haveOneCharacterLeft then s else updateSlowCaseFunctionPointers s
  else callAdvanceFunction (m_advanceFunc s) s.

Definition seg_advanceAndUpdateLineNumber (s : SegmentedString) : SegmentedString :=
  if negb (Z.land (m_fastPathFlags s) Use8BitAdvance =? 0) then
    let haveNewLine :=
      (m_currentChar s =? cLF)
      && negb (Z.land (m_fastPathFlags s) Use8BitAdvanceAndUpdateLineNumbers =? 0) in
    let s := decrementLength s in
    let haveOneCharacterLeft := m_length (m_currentString s) =? 1 in
    let s := incrementCurrentChar incrementAndGetCurrentChar8 s in
    if negb (haveNewLine || haveOneCharacterLeft) then s else
    let s :=
      if haveNewLine then
        startNewLine (m_numberOfCharactersConsumedPriorToCurrentString s
                      + sub_numberOfCharactersConsumed (m_currentString s)) s
      else s in
    if haveOneCharacterLeft then updateSlowCaseFunctionPointers s else s
  else callAdvanceFunction (m_advanceAndUpdateLineNumberFunc s) s.

Definition seg_advancePastNewlineAndUpdateLineNumber (s : SegmentedString) : SegmentedString :=
  if (m_pushedChar1 s =? 0) && (m_length (m_currentString s) >? 1) then
    let newLineFlag := m_doNotExcludeLineNumbers (m_currentString s) in
    let s := s <| m_currentLine := m_currentLine s + Z.b2z newLineFlag |> in
    let s := if newLineFlag
             then s <| m_numberOfCharactersConsumedPriorToCurrentLine :=
                         seg_numberOfCharactersConsumed s + 1 |>
             else s in
    incrementCurrentChar incrementAndGetCurrentChar (decrementAndCheckLength s)
  else seg_advanceAndUpdateLineNumberSlowCase s.

(** [advance(unsigned count, UChar* consumedCharacters)]: the characters it
    writes and the string after it. *)
Fixpoint seg_advanceCount (count : nat) (s : SegmentedString) : list UChar * SegmentedString :=
  match count with
  | O => ([], s)
  | S count' =>
      let '(cs, s') := seg_advanceCount count' (seg_advance s) in
      (m_currentChar s :: cs, s')
  end.

Definition lookAheadSlowCase `{CaseFolding} (string : list UChar) (caseSensitive : bool)
    (s : SegmentedString) : LookAheadResult * SegmentedString :=
  let count := Z.of_nat (length string) in
  if count >? seg_length s then (NotEnoughCharacters, s)
  else
    let '(consumedString, s) := seg_advanceCount (length string) s in
    let result := if startsWith caseSensitive consumedString string then DidMatch else DidNotMatch in
    (result, seg_prepend (SegmentedString_fromString (mkString false consumedString)) s).

Definition seg_lookAheadInline `{CaseFolding} (string : list UChar) (caseSensitive : bool)
    (s : SegmentedString) : LookAheadResult * SegmentedString :=
  if (m_pushedChar1 s =? 0) && (Z.of_nat (length string) <=? m_length (m_currentString s)) then
    let currentSubstring :=
      currentSubString (m_currentString s) (Z.of_nat (length string)) in
    if startsWith caseSensitive currentSubstring string then (DidMatch, s) else (DidNotMatch, s)
  else lookAheadSlowCase string caseSensitive s.

Definition seg_currentColumn (s : SegmentedString) : Z :=
  seg_numberOfCharactersConsumed s - m_numberOfCharactersConsumedPriorToCurrentLine s.

Definition seg_setCurrentPosition (line columnAfterProlog prologLength : Z)
    (s : SegmentedString) : SegmentedString :=
  s <| m_currentLine := line |>
    <| m_numberOfCharactersConsumedPriorToCurrentLine :=
         seg_numberOfCharactersConsumed s + prologLength - columnAfterProlog |>.

(** A string the parser builds from characters it has read: a [StringBuilder]
    keeps 8 bit storage as long as every character fits. *)
Definition builtString (cs : list UChar) : WTFString :=
  mkString (forallb (fun c => c <=? 255) cs) cs.

#[global] Instance SegmentedString_source `{CaseFolding} : CharacterSource SegmentedString := {
  isEmpty := m_empty;
  currentChar := m_currentChar;
  advance := seg_advance;
  advanceAndUpdateLineNumber := seg_advanceAndUpdateLineNumber;
  advancePastNewlineAndUpdateLineNumber := seg_advancePastNewlineAndUpdateLineNumber;
  sourceLength := seg_length;
  charactersAhead s := length (seg_toString s);
  isClosed := m_closed;
  lookAheadInline := seg_lookAheadInline;
  push := seg_push;
  prependString w s := seg_prepend (SegmentedString_fromString (builtString w)) s;
  numberOfCharactersConsumed := seg_numberOfCharactersConsumed
}.

(** ** Representation invariant and abstraction *)

Definition sub_rest (b : SegmentedSubstring) : list UChar :=
  drop (Z.to_nat (sub_numberOfCharactersConsumed b)) (m_string b).

(** The data pointer designates the first unread character. *)
Definition sub_wf (b : SegmentedSubstring) : Prop :=
  0 <= m_length b <= Z.of_nat (length (m_string b)) /\
  (0 < m_length b -> m_data b = Some (sub_numberOfCharactersConsumed b)).

Definition seg_pushed (s : SegmentedString) : list UChar :=
  if m_pushedChar1 s =? 0 then []
  else m_pushedChar1 s :: (if m_pushedChar2 s =? 0 then [] else [m_pushedChar2 s]).

Definition seg_chars (s : SegmentedString) : list UChar :=
  sub_rest (m_currentString s) ++ concat (map sub_rest (m_substrings s)).

Definition seg_view (s : SegmentedString) : ListSource :=
  mkListSource (seg_pushed s) (seg_chars s) (m_closed s) (seg_numberOfCharactersConsumed s).

(** The installed function pointers suit the contents: a fast path only with
    no pushed-back character and more than one character left in the current
    substring, and the slow path only otherwise. *)
Definition funcs_ok (s : SegmentedString) : Prop :=
  let b := m_currentString s in
  match m_advanceFunc s with
  | Advance8 =>
      m_pushedChar1 s = 0 /\ 1 < m_length b /\ m_is8Bit b = true /\
      (m_advanceAndUpdateLineNumberFunc s = Advance8 \/
       m_advanceAndUpdateLineNumberFunc s = AdvanceAndUpdateLineNumber8) /\
      (m_fastPathFlags s = 2 \/ m_fastPathFlags s = 3)
  | Advance16 =>
      m_pushedChar1 s = 0 /\ 1 < m_length b /\ m_is8Bit b = false /\
      (m_advanceAndUpdateLineNumberFunc s = Advance16 \/
       m_advanceAndUpdateLineNumberFunc s = AdvanceAndUpdateLineNumber16) /\
      m_fastPathFlags s = 0
  | AdvanceSlowCase =>
      (m_pushedChar1 s <> 0 \/ m_length b <= 1) /\
      m_advanceAndUpdateLineNumberFunc s = AdvanceAndUpdateLineNumberSlowCase /\
      m_fastPathFlags s = 0
  | AdvanceEmpty =>
      m_pushedChar1 s = 0 /\ m_length b = 0 /\
      m_advanceAndUpdateLineNumberFunc s = AdvanceEmpty /\ m_fastPathFlags s = 0
  | _ => False
  end.

(** What does not depend on the cached current character and pointers. *)
Record wf_contents (s : SegmentedString) : Prop := {
  wf_current : sub_wf (m_currentString s);
  wf_substrings : Forall (fun b => sub_wf b /\ 0 < m_length b) (m_substrings s);
  wf_last : m_length (m_currentString s) = 0 -> m_substrings s = [];
  wf_pushed : m_pushedChar1 s = 0 -> m_pushedChar2 s = 0;
  wf_emptyFlag : m_empty s = (m_length (m_currentString s) =? 0)
}.

Record wf (s : SegmentedString) : Prop := {
  wf_cont :> wf_contents s;
  wf_currentChar : m_currentChar s = List.hd 0 (seg_pushed s ++ seg_chars s);
  wf_funcs : funcs_ok s
}.

Definition seg_refines (s : SegmentedString) (l : ListSource) : Prop := wf s /\ seg_view s = l.


Section Substrings.
Implicit Types b : SegmentedSubstring.

Lemma length_sub_rest b : sub_wf b -> Z.of_nat (length (sub_rest b)) = m_length b.
Proof.
  intros [H _]. unfold sub_rest, sub_numberOfCharactersConsumed.
  rewrite length_drop. lia.
Qed.

Lemma sub_rest_nil b : sub_wf b -> m_length b = 0 -> sub_rest b = [].
Proof.
  intros H E. apply length_sub_rest in H. destruct (sub_rest b); simpl in *; [done | lia].
Qed.

Lemma deref_rest b : sub_wf b -> 0 < m_length b -> deref b = List.hd 0 (sub_rest b).
Proof.
  intros [H HD] Hl. unfold deref, sub_rest. rewrite (HD Hl). by rewrite hd_drop_nth.
Qed.

Lemma getCurrentChar_rest b :
  sub_wf b -> 0 < m_length b -> getCurrentChar b = List.hd 0 (sub_rest b).
Proof.
  intros H Hl. rewrite <- deref_rest by done.
  unfold getCurrentChar, getCurrentChar8, getCurrentChar16, deref.
  destruct (m_is8Bit b), (m_data b); done.
Qed.

(** Reading one character of a substring that is not its last one. *)
Lemma sub_step b b' :
  sub_wf b -> 1 < m_length b ->
  b' = incrementData (b <| m_length := m_length b - 1 |>) ->
  sub_wf b' /\ m_length b' = m_length b - 1 /\ m_is8Bit b' = m_is8Bit b /\
  m_doNotExcludeLineNumbers b' = m_doNotExcludeLineNumbers b /\
  sub_numberOfCharactersConsumed b' = sub_numberOfCharactersConsumed b + 1 /\
  sub_rest b = List.hd 0 (sub_rest b) :: sub_rest b'.
Proof.
  intros [[H0 H1] HD] Hl ->. destruct b as [d n ex i8 st]; simpl in *.
  rewrite HD by lia. unfold sub_wf, sub_rest, sub_numberOfCharactersConsumed in *; simpl.
  repeat split; try lia; simpl.
  - intros _. f_equal. lia.
  - rewrite hd_drop_nth, (head_drop_nth st _ 0) by lia. do 2 f_equal. lia.
Qed.
End Substrings.

Lemma seg_pushed_nil s : m_pushedChar1 s = 0 -> seg_pushed s = [].
Proof. unfold seg_pushed. by intros ->. Qed.

Lemma seg_chars_nil s :
  wf_contents s -> (m_length (m_currentString s) =? 0) = true -> seg_chars s = [].
Proof.
  intros W E%Z.eqb_eq. unfold seg_chars.
  rewrite (sub_rest_nil _ (wf_current _ W) E), (wf_last _ W E). done.
Qed.

Lemma seg_chars_cons s :
  wf_contents s -> (m_length (m_currentString s) =? 0) = false ->
  seg_chars s = currentStringChar s :: tail (seg_chars s).
Proof.
  intros W E. unfold currentStringChar, seg_chars. rewrite E. simpl.
  apply Z.eqb_neq in E. destruct (wf_current _ W) as [HB _].
  rewrite getCurrentChar_rest by (try apply W; lia).
  pose proof (length_sub_rest _ (wf_current _ W)).
  destruct (sub_rest (m_currentString s)); simpl in *; [lia | done].
Qed.

Lemma hd_seg_chars s : wf_contents s -> List.hd 0 (seg_chars s) = currentStringChar s.
Proof.
  intros W. destruct (m_length (m_currentString s) =? 0) eqn:E.
  - rewrite seg_chars_nil by done. unfold currentStringChar. by rewrite E.
  - by rewrite seg_chars_cons.
Qed.

(** ** Installing function pointers *)

Definition set_funcs (fl : Z) (f g : AdvanceFunction) (s : SegmentedString) : SegmentedString :=
  s <| m_fastPathFlags := fl |> <| m_advanceFunc := f |>
    <| m_advanceAndUpdateLineNumberFunc := g |>.

Lemma update_is_set_funcs s :
  exists fl f g, updateAdvanceFunctionPointers s = set_funcs fl f g s.
Proof.
  set (u := updateAdvanceFunctionPointers s).
  exists (m_fastPathFlags u), (m_advanceFunc u), (m_advanceAndUpdateLineNumberFunc u).
  subst u. unfold updateAdvanceFunctionPointers, updateSlowCaseFunctionPointers, set_funcs.
  destruct s as [p1 p2 [d n ex i8 st] c np nl ln subs cl em fl f g]; simpl.
  case_tests; reflexivity.
Qed.

Lemma update_funcs_ok s :
  0 <= m_length (m_currentString s) -> funcs_ok (updateAdvanceFunctionPointers s).
Proof.
  intros H. unfold updateAdvanceFunctionPointers, updateSlowCaseFunctionPointers, funcs_ok.
  destruct s as [p1 p2 [d n ex i8 st] c np nl ln subs cl em fl f g]; simpl in *.
  destruct ((n >? 1) && (p1 =? 0)) eqn:E; simpl.
  - bool_hyps. destruct i8, ex; simpl; auto 10.
  - assert (p1 <> 0 \/ n <= 1) by (apply andb_false_iff in E as [E|E]; bool_hyps; lia).
    destruct ((n =? 0) && _); simpl; auto.
Qed.

Lemma set_funcs_contents fl f g s : wf_contents s -> wf_contents (set_funcs fl f g s).
Proof. intros [W1 W2 W3 W4 W5]. destruct s; by constructor. Qed.

Lemma set_funcs_view fl f g s : seg_view (set_funcs fl f g s) = seg_view s.
Proof. by destruct s. Qed.

(** A string whose contents are well formed becomes well formed once the
    pointers and the current character are refreshed. *)
Lemma wf_install s :
  wf_contents s ->
  m_currentChar s = List.hd 0 (seg_pushed s ++ seg_chars s) ->
  wf (updateAdvanceFunctionPointers s) /\
  seg_view (updateAdvanceFunctionPointers s) = seg_view s.
Proof.
  intros W E. pose proof (update_funcs_ok s (proj1 (proj1 (wf_current _ W)))) as F.
  destruct (update_is_set_funcs s) as (fl & f & g & U).
  rewrite U in *. split; [|apply set_funcs_view].
  constructor; [by apply set_funcs_contents | by destruct s | done].
Qed.

Lemma slow_is_set_funcs s :
  updateSlowCaseFunctionPointers s =
  set_funcs 0 AdvanceSlowCase AdvanceAndUpdateLineNumberSlowCase s.
Proof. reflexivity. Qed.

(** [m_currentChar] is not read by what follows it in a call. *)
Lemma set_currentChar_contents c s : wf_contents s -> wf_contents (s <| m_currentChar := c |>).
Proof. intros [W1 W2 W3 W4 W5]. destruct s; by constructor. Qed.

Lemma set_currentChar_view c s : seg_view (s <| m_currentChar := c |>) = seg_view s.
Proof. by destruct s. Qed.

Lemma update_currentChar c s :
  updateAdvanceFunctionPointers (s <| m_currentChar := c |>) =
  updateAdvanceFunctionPointers s <| m_currentChar := c |>.
Proof.
  unfold updateAdvanceFunctionPointers, updateSlowCaseFunctionPointers, isComposite.
  destruct s as [p1 p2 [d n ex i8 st] c0 np nl ln subs cl em fl f g]; simpl. case_tests; done.
Qed.

Lemma update_currentStringChar s :
  currentStringChar (updateAdvanceFunctionPointers s) = currentStringChar s.
Proof. destruct (update_is_set_funcs s) as (fl & f & g & ->). by destruct s. Qed.

(** ** Advancing inside the current substring *)

(** Every fast path ends in a string of this shape. *)
Definition stepped (s s' : SegmentedString) : Prop :=
  m_pushedChar1 s' = m_pushedChar1 s /\ m_pushedChar2 s' = m_pushedChar2 s /\
  m_currentString s' =
    incrementData (m_currentString s <| m_length := m_length (m_currentString s) - 1 |>) /\
  m_currentChar s' = deref (m_currentString s') /\
  m_numberOfCharactersConsumedPriorToCurrentString s' =
    m_numberOfCharactersConsumedPriorToCurrentString s /\
  m_substrings s' = m_substrings s /\ m_closed s' = m_closed s /\ m_empty s' = m_empty s /\
  if m_length (m_currentString s) =? 2
  then m_fastPathFlags s' = 0 /\ m_advanceFunc s' = AdvanceSlowCase /\
       m_advanceAndUpdateLineNumberFunc s' = AdvanceAndUpdateLineNumberSlowCase
  else m_fastPathFlags s' = m_fastPathFlags s /\ m_advanceFunc s' = m_advanceFunc s /\
       m_advanceAndUpdateLineNumberFunc s' = m_advanceAndUpdateLineNumberFunc s.

Lemma stepped_refines s s' :
  wf s -> m_pushedChar1 s = 0 -> 1 < m_length (m_currentString s) -> stepped s s' ->
  wf s' /\ seg_view s' = ls_advance (seg_view s).
Proof.
  intros W HP HL (P1 & P2 & B & C & N & SS & CL & EM & F).
  destruct (sub_step _ _ (wf_current _ W) HL B) as (WB & LB & I8 & EX & NB & RB).
  assert (seg_pushed s' = [] /\ seg_pushed s = []) as [PU PU'].
  { unfold seg_pushed. by rewrite P1, HP. }
  assert (CH : seg_chars s = List.hd 0 (seg_chars s) :: seg_chars s').
  { unfold seg_chars. rewrite SS, RB. done. }
  split.
  - split; [split| |].
    + done.
    + rewrite SS. apply W.
    + intros E. lia.
    + rewrite P1, P2. apply W.
    + rewrite EM, (wf_emptyFlag _ W). lia.
    + rewrite C, PU, deref_rest by (done || lia). unfold seg_chars. simpl.
      pose proof (length_sub_rest _ WB). destruct (sub_rest (m_currentString s')); simpl in *; [lia|done].
    + unfold funcs_ok. destruct (m_length (m_currentString s) =? 2) eqn:E2; bool_hyps;
        destruct F as (F1 & F2 & F3); rewrite F1, F2, F3.
      * repeat split; auto. lia.
      * pose proof (wf_funcs _ W) as FO. unfold funcs_ok in FO.
        rewrite P1, LB, I8. destruct (m_advanceFunc s); intuition (try lia; try done).
  - unfold seg_view, ls_advance. simpl. rewrite PU, PU', CL, CH. f_equal.
    unfold seg_numberOfCharactersConsumed. rewrite N, P1, P2, HP. simpl. lia.
Qed.

Ltac stepped_tac :=
  unfold stepped, seg_advance8, seg_advance16, seg_advanceAndUpdateLineNumber8,
    seg_advanceAndUpdateLineNumber16, incrementCurrentChar, incrementAndGetCurrentChar,
    incrementAndGetCurrentChar8, incrementAndGetCurrentChar16, decrementAndCheckLength,
    decrementLength, updateSlowCaseFunctionPointers, startNewLine;
  simpl;
  repeat match goal with
  | |- context [(?c =? 10) && ?d] => destruct ((c =? 10) && d); simpl
  | |- context [if ?c =? 10 then _ else _] => destruct (c =? 10); simpl
  | |- context [if ?b then _ <| m_numberOfCharactersConsumedPriorToCurrentLine := _ |> else _] =>
      destruct b; simpl
  end;
  match goal with |- context [?n - 1 =? 1] =>
    replace (n - 1 =? 1) with (n =? 2) by (destruct (Z.eqb_spec n 2), (Z.eqb_spec (n - 1) 1); lia);
    destruct (n =? 2); simpl
  end;
  repeat match goal with
  | |- context [if ?b then _ else _] => destruct b; simpl
  end; auto 20.

Section FastPaths.
Variable s : SegmentedString.

Lemma advance8_stepped : stepped s (seg_advance8 s).
Proof. destruct s as [p1 p2 [d n ex i8 st] c np nl ln subs cl em fl f g]. stepped_tac. Qed.

Lemma advance16_stepped : stepped s (seg_advance16 s).
Proof. destruct s as [p1 p2 [d n ex i8 st] c np nl ln subs cl em fl f g]. stepped_tac. Qed.

Lemma advanceAndUpdateLineNumber8_stepped : stepped s (seg_advanceAndUpdateLineNumber8 s).
Proof. destruct s as [p1 p2 [d n ex i8 st] c np nl ln subs cl em fl f g]. stepped_tac. Qed.

Lemma advanceAndUpdateLineNumber16_stepped : stepped s (seg_advanceAndUpdateLineNumber16 s).
Proof. destruct s as [p1 p2 [d n ex i8 st] c np nl ln subs cl em fl f g]. stepped_tac. Qed.

Lemma advance_fast_stepped :
  (Z.land (m_fastPathFlags s) Use8BitAdvance =? 0) = false -> stepped s (seg_advance s).
Proof.
  intros E. unfold seg_advance. rewrite E.
  destruct s as [p1 p2 [d n ex i8 st] c np nl ln subs cl em fl f g]. stepped_tac.
Qed.

Lemma advanceAndUpdateLineNumber_fast_stepped :
  (Z.land (m_fastPathFlags s) Use8BitAdvance =? 0) = false ->
  stepped s (seg_advanceAndUpdateLineNumber s).
Proof.
  intros E. unfold seg_advanceAndUpdateLineNumber. rewrite E.
  destruct s as [p1 p2 [d n ex i8 st] c np nl ln subs cl em fl f g]. stepped_tac.
Qed.

Lemma advancePastNewline_fast_stepped :
  m_pushedChar1 s = 0 -> 1 < m_length (m_currentString s) ->
  stepped s (seg_advancePastNewlineAndUpdateLineNumber s).
Proof.
  intros E1 E2. unfold seg_advancePastNewlineAndUpdateLineNumber.
  rewrite (proj2 (Z.eqb_eq _ _) E1), Z.gtb_ltb, (proj2 (Z.ltb_lt _ _) E2). simpl andb. cbv iota.
  destruct s as [p1 p2 [d n [|] [|] st] c np nl ln subs cl em fl f g]; stepped_tac.
Qed.
End FastPaths.

(** ** The slow paths *)

(** Both slow paths end by caching the current character of strings that only
    differ in line accounting; [lines] forgets it. *)
Definition set_lines (n k : Z) (s : SegmentedString) : SegmentedString :=
  s <| m_currentLine := n |> <| m_numberOfCharactersConsumedPriorToCurrentLine := k |>.

Lemma pop_pushed_refines s :
  wf s -> m_pushedChar1 s <> 0 ->
  wf (seg_advanceSlowCase s) /\ seg_view (seg_advanceSlowCase s) = ls_advance (seg_view s).
Proof.
  intros W HP. pose proof (wf_cont _ W) as WC. pose proof (wf_funcs _ W) as F.
  unfold seg_advanceSlowCase. rewrite (proj2 (Z.eqb_neq _ _) HP). simpl negb. cbv iota.
  set (s1 := s <| m_pushedChar1 := m_pushedChar2 s |> <| m_pushedChar2 := 0 |>).
  assert (W1 : wf_contents s1).
  { destruct WC; destruct s; by constructor. }
  assert (V1 : seg_view s1 = ls_advance (seg_view s)).
  { unfold seg_view, seg_pushed, seg_numberOfCharactersConsumed, ls_advance.
    rewrite (proj2 (Z.eqb_neq _ _) HP). subst s1.
    destruct s as [p1 p2 b c np nl ln subs cl em fl f g]; simpl.
    destruct (p2 =? 0); simpl; f_equal; lia. }
  change (m_pushedChar1 s1) with (m_pushedChar2 s) in *.
  destruct (m_pushedChar2 s =? 0) eqn:E; simpl negb; cbv iota.
  - rewrite <- update_currentChar.
    rewrite update_currentStringChar, <- V1, <- (set_currentChar_view (currentStringChar s1) s1).
    apply wf_install; [by apply set_currentChar_contents|].
    transitivity (currentStringChar s1); [done|].
    rewrite <- hd_seg_chars by done. unfold seg_pushed. subst s1. destruct s; simpl in *. by rewrite E.
  - split; [|by rewrite set_currentChar_view].
    split; [by apply set_currentChar_contents | |].
    + unfold seg_pushed. subst s1. destruct s; simpl in *. by rewrite E.
    + unfold funcs_ok in *. subst s1. destruct s as [p1 p2 b c np nl ln subs cl em fl f g]; simpl in *.
      bool_hyps. destruct f; intuition.
Qed.

(** Taking the last character of the current substring. *)
Lemma last_char_refines s :
  wf s -> m_pushedChar1 s = 0 -> m_length (m_currentString s) = 1 ->
  wf (seg_advanceSlowCase s) /\ seg_view (seg_advanceSlowCase s) = ls_advance (seg_view s).
Proof.
  intros W HP HL. pose proof (wf_cont _ W) as WC.
  assert (P0 : seg_pushed s = []) by (unfold seg_pushed; by rewrite HP).
  assert (CH : seg_chars s = currentStringChar s :: concat (map sub_rest (m_substrings s))).
  { rewrite seg_chars_cons by (done || by rewrite HL). f_equal. unfold seg_chars.
    pose proof (length_sub_rest _ (wf_current _ WC)).
    destruct (sub_rest (m_currentString s)) as [|a [|? ?]]; simpl in *; [lia | done | lia]. }
  assert (ls_advance (seg_view s) =
          mkListSource [] (concat (map sub_rest (m_substrings s))) (m_closed s)
            (seg_numberOfCharactersConsumed s + 1)) as ->.
  { unfold seg_view, ls_advance. simpl. by rewrite P0, CH. }
  clear P0 CH. unfold seg_advanceSlowCase. rewrite HP. simpl negb. cbv iota.
  rewrite HL. change (negb (1 =? 0)) with true. cbv iota zeta.
  unfold decrementLength. cbn [m_currentString set_field set_m_currentString m_length set_m_length].
  rewrite HL. change (1 - 1 =? 0) with true. cbv iota.
  pose proof (wf_pushed _ WC HP) as HP2. pose proof (wf_substrings _ WC) as WS.
  destruct WC as [[WB1 WB2] _ _ _ WE]. clear W.
  destruct s as [p1 p2 [d n ex i8 st] c np nl ln subs cl em fl f g]; simpl in *. subst p1 p2 n.
  destruct subs as [|b subs]; unfold advanceSubstring; cbn [m_substrings set_field].
  - simpl. unfold clearAndInstallEmpty, sub_clear. simpl.
    repeat split; simpl; try done; try lia.
    + unfold seg_chars, sub_rest, sub_numberOfCharactersConsumed; simpl.
      rewrite drop_ge by lia. done.
    + unfold seg_view, seg_chars, sub_rest, sub_numberOfCharactersConsumed; simpl.
      rewrite drop_ge by lia. unfold seg_numberOfCharactersConsumed, sub_numberOfCharactersConsumed; simpl.
      f_equal. lia.
  - cbn. inversion WS as [|? ? [WBb Lb] WS']; subst.
    rewrite update_currentStringChar, <- update_currentChar. simpl.
    match goal with |- wf (updateAdvanceFunctionPointers ?s0) /\ _ =>
      set (s1 := s0); assert (WC1 : wf_contents s1) end.
    { subst s1; constructor; simpl; done || (intros; lia). }
    assert (C1 : m_currentChar s1 = List.hd 0 (seg_pushed s1 ++ seg_chars s1)).
    { change (seg_pushed s1 ++ seg_chars s1) with (seg_chars s1). by rewrite hd_seg_chars. }
    destruct (wf_install _ WC1 C1) as [W1 V1]. split; [done|].
    rewrite V1.
    subst s1. unfold seg_view, seg_numberOfCharactersConsumed, seg_chars. simpl.
    unfold sub_numberOfCharactersConsumed. simpl. f_equal. lia.
Qed.

Lemma ls_advance_nil l : ls_pushed l = [] -> ls_chars l = [] -> ls_advance l = l.
Proof. destruct l as [p c cl n]; simpl; by intros -> ->. Qed.

Section NothingLeft.
Variable s : SegmentedString.
Hypothesis W : wf s.
Hypothesis HP : m_pushedChar1 s = 0.
Hypothesis HL : m_length (m_currentString s) = 0.

Lemma nothing_left_view : ls_advance (seg_view s) = seg_view s.
Proof.
  apply ls_advance_nil; simpl.
  - unfold seg_pushed. by rewrite HP.
  - apply seg_chars_nil; [apply W | by rewrite HL].
Qed.

Lemma advanceEmpty_refines :
  wf (advanceEmpty s) /\ seg_view (advanceEmpty s) = ls_advance (seg_view s).
Proof.
  rewrite nothing_left_view. unfold advanceEmpty. rewrite set_currentChar_view. split; [|done].
  split; [apply set_currentChar_contents, W | |].
  - change (seg_chars (s <| m_currentChar := 0 |>)) with (seg_chars s).
    rewrite seg_chars_nil by (apply W || by rewrite HL). unfold seg_pushed. simpl. by rewrite HP.
  - destruct s; apply W.
Qed.

Lemma slow_empty_refines :
  wf (seg_advanceSlowCase s) /\ seg_view (seg_advanceSlowCase s) = ls_advance (seg_view s).
Proof.
  rewrite nothing_left_view. unfold seg_advanceSlowCase, isComposite. rewrite HP, HL. simpl.
  rewrite (wf_last _ W HL). simpl. destruct W as [[[WB _] WS WL WP WE] _ _].
  destruct s as [p1 p2 [d n ex i8 st] c np nl ln subs cl em fl f g]; simpl in *. subst.
  rewrite (WL eq_refl) in *. rewrite (WP eq_refl) in *.
  unfold clearAndInstallEmpty, sub_clear; simpl.
  assert (D : drop (Z.to_nat (Z.of_nat (length st) - 0)) st = []) by (apply drop_ge; lia).
  repeat split; simpl; try done; try lia;
    unfold seg_chars, sub_rest, sub_numberOfCharactersConsumed; simpl; by rewrite D.
Qed.
End NothingLeft.

Lemma update_set_lines n k s :
  updateAdvanceFunctionPointers (set_lines n k s) = set_lines n k (updateAdvanceFunctionPointers s).
Proof.
  unfold updateAdvanceFunctionPointers, updateSlowCaseFunctionPointers, isComposite, set_lines.
  destruct s as [p1 p2 [d m ex i8 st] c0 np nl ln subs cl em fl f g]; simpl. case_tests; done.
Qed.

Lemma advanceSubstring_set_lines n k s :
  advanceSubstring (set_lines n k s) = set_lines n k (advanceSubstring s).
Proof.
  unfold advanceSubstring. change (m_substrings (set_lines n k s)) with (m_substrings s).
  destruct (m_substrings s); [done|]. by rewrite <- update_set_lines.
Qed.

Lemma slow_lines s :
  m_pushedChar1 s <> 0 \/ m_length (m_currentString s) <= 1 ->
  0 <= m_length (m_currentString s) ->
  exists n k, seg_advanceAndUpdateLineNumberSlowCase s = set_lines n k (seg_advanceSlowCase s).
Proof.
  intros H H0. unfold seg_advanceAndUpdateLineNumberSlowCase, seg_advanceSlowCase.
  destruct (m_pushedChar1 s =? 0) eqn:E1; simpl negb; cbv iota.
  2:{ match goal with |- exists n k, ?u = _ =>
        exists (m_currentLine u), (m_numberOfCharactersConsumedPriorToCurrentLine u) end.
      by destruct (if negb _ then _ else _). }
  destruct (m_length (m_currentString s) =? 0) eqn:E2; simpl negb; cbv iota.
  - exists (m_currentLine s), (m_numberOfCharactersConsumedPriorToCurrentLine s).
    destruct s; simpl. by case_match.
  - bool_hyps. assert (HL : m_length (m_currentString s) = 1) by lia.
    match goal with |- context [decrementLength (if ?b then ?x else s)] =>
      assert (exists n k, decrementLength (if b then x else s) = set_lines n k (decrementLength s))
        as (n & k & ->) end.
    { destruct (_ && _); [by eexists _, _|].
      exists (m_currentLine s), (m_numberOfCharactersConsumedPriorToCurrentLine s). by destruct s. }
    exists n, k. simpl. rewrite HL. simpl. by rewrite advanceSubstring_set_lines.
Qed.

Lemma set_lines_refines n k s l : seg_refines s l -> seg_refines (set_lines n k s) l.
Proof.
  intros [[[W1 W2 W3 W4 W5] WCh WF] V]. unfold set_lines, seg_refines.
  destruct s as [p1 p2 b c np nl ln subs cl em fl f g]; simpl in *. repeat split; done || apply W1.
Qed.

Lemma slow_refines s :
  wf s -> m_pushedChar1 s <> 0 \/ m_length (m_currentString s) <= 1 ->
  seg_refines (seg_advanceSlowCase s) (ls_advance (seg_view s)).
Proof.
  intros W H. pose proof (proj1 (proj1 (wf_current _ W))).
  destruct (Z.eq_dec (m_pushedChar1 s) 0); [|by apply pop_pushed_refines].
  destruct (Z.eq_dec (m_length (m_currentString s)) 0);
    [by apply slow_empty_refines | apply last_char_refines; done || lia].
Qed.

Lemma slow_lines_refines s :
  wf s -> m_pushedChar1 s <> 0 \/ m_length (m_currentString s) <= 1 ->
  seg_refines (seg_advanceAndUpdateLineNumberSlowCase s) (ls_advance (seg_view s)).
Proof.
  intros W H. destruct (slow_lines s H (proj1 (proj1 (wf_current _ W)))) as (n & k & ->).
  by apply set_lines_refines, slow_refines.
Qed.

(** ** Refinement of [advance] and its variants *)

Lemma seg_advance_refines s l : seg_refines s l -> seg_refines (seg_advance s) (ls_advance l).
Proof.
  intros [W <-]. pose proof (wf_funcs _ W) as F. unfold funcs_ok in F.
  destruct (Z.land (m_fastPathFlags s) Use8BitAdvance =? 0) eqn:EF.
  - unfold seg_advance. rewrite EF. simpl negb. cbv iota.
    destruct (m_advanceFunc s) eqn:EA; simpl; try done; destruct_and?.
    + by apply advanceEmpty_refines.
    + by apply stepped_refines; [..|apply advance8_stepped].
    + by apply stepped_refines; [..|apply advance16_stepped].
    + by apply slow_refines.
  - assert (m_pushedChar1 s = 0 /\ 1 < m_length (m_currentString s)) as [? ?].
    { destruct (m_advanceFunc s); destruct_and?; try done;
        match goal with H : m_fastPathFlags s = 0 |- _ => rewrite H in EF end; done. }
    apply stepped_refines; try done. by apply advance_fast_stepped.
Qed.

Lemma seg_advanceAndUpdateLineNumber_refines s l :
  seg_refines s l -> seg_refines (seg_advanceAndUpdateLineNumber s) (ls_advance l).
Proof.
  intros [W <-]. pose proof (wf_funcs _ W) as F. unfold funcs_ok in F.
  destruct (Z.land (m_fastPathFlags s) Use8BitAdvance =? 0) eqn:EF.
  - unfold seg_advanceAndUpdateLineNumber. rewrite EF. simpl negb. cbv iota.
    destruct (m_advanceFunc s) eqn:EA; simpl; try done; destruct_and?; destruct_or?;
      repeat match goal with H : m_advanceAndUpdateLineNumberFunc s = _ |- _ => rewrite H end;
      simpl callAdvanceFunction;
      try (by apply advanceEmpty_refines); try (by apply slow_lines_refines; auto);
      (apply stepped_refines; [done..|]);
      auto using advance8_stepped, advance16_stepped, advanceAndUpdateLineNumber8_stepped,
        advanceAndUpdateLineNumber16_stepped.
  - assert (m_pushedChar1 s = 0 /\ 1 < m_length (m_currentString s)) as [? ?].
    { destruct (m_advanceFunc s); destruct_and?; try done;
        match goal with H : m_fastPathFlags s = 0 |- _ => rewrite H in EF end; done. }
    apply stepped_refines; try done. by apply advanceAndUpdateLineNumber_fast_stepped.
Qed.

Lemma seg_advancePastNewline_refines s l :
  seg_refines s l -> seg_refines (seg_advancePastNewlineAndUpdateLineNumber s) (ls_advance l).
Proof.
  intros [W <-].
  destruct ((m_pushedChar1 s =? 0) && (m_length (m_currentString s) >? 1)) eqn:E.
  - bool_hyps. apply stepped_refines; try done. by apply advancePastNewline_fast_stepped.
  - unfold seg_advancePastNewlineAndUpdateLineNumber. rewrite E.
    apply slow_lines_refines; [done|]. apply andb_false_iff in E as [E|E]; bool_hyps; lia.
Qed.

(** ** Refinement of the other operations *)

Lemma seg_isEmpty_refines s l : seg_refines s l -> m_empty s = ls_isEmpty l.
Proof.
  intros [W <-]. rewrite (wf_emptyFlag _ W). unfold ls_isEmpty, seg_view. simpl.
  destruct (m_length (m_currentString s) =? 0) eqn:E.
  - by rewrite seg_chars_nil by (apply W || done).
  - by rewrite seg_chars_cons by (apply W || done).
Qed.

Lemma fold_lengths (bs : list SegmentedSubstring) n :
  Forall (fun b => sub_wf b /\ 0 < m_length b) bs ->
  fold_left (fun n b => uint32 (n + m_length b)) bs (uint32 n) =
  uint32 (n + Z.of_nat (length (concat (map sub_rest bs)))).
Proof.
  intros F. revert n. induction F as [|b bs [Wb _] F IH]; intros n; cbn [fold_left map concat];
    [by rewrite Z.add_0_r|].
  unfold uint32 at 2 3. rewrite Zplus_mod_idemp_l. fold (uint32 (n + m_length b)).
  rewrite IH, length_app. pose proof (length_sub_rest b Wb). f_equal. lia.
Qed.

Lemma uint32_add n k : uint32 (uint32 n + k) = uint32 (n + k).
Proof. apply Zplus_mod_idemp_l. Qed.

Lemma seg_length_refines s l : seg_refines s l -> seg_length s = ls_length l.
Proof.
  intros [W <-]. unfold seg_length, ls_length, ls_ahead, seg_view, seg_chars, seg_pushed. simpl.
  pose proof (length_sub_rest _ (wf_current _ W)) as HL. pose proof (wf_substrings _ W) as WS.
  rewrite !length_app. cbv zeta.
  set (k := if m_pushedChar1 s =? 0 then 0 else if m_pushedChar2 s =? 0 then 1 else 2).
  match goal with |- (if _ then fold_left _ _ ?n else _) = _ =>
    replace n with (uint32 (m_length (m_currentString s) + k))
  end.
  2: { unfold k. destruct (m_pushedChar1 s =? 0); cbn [negb]; [by rewrite Z.add_0_r|].
       destruct (m_pushedChar2 s =? 0); cbn [negb]; rewrite ?uint32_add; [done|].
       by rewrite <- (Z.add_assoc (uint32 _)), uint32_add. }
  transitivity (uint32 (m_length (m_currentString s) + k + Z.of_nat (length (concat (map sub_rest (m_substrings s)))))).
  - unfold isComposite. destruct (m_substrings s); [by rewrite Z.add_0_r | by apply fold_lengths].
  - f_equal. unfold k. destruct (m_pushedChar1 s =? 0); simpl; [lia|]. destruct (m_pushedChar2 s =? 0); simpl; lia.
Qed.

Lemma seg_push_refines s l c :
  seg_refines s l -> c <> 0 -> seg_refines (seg_push c s) (ls_push c l).
Proof.
  intros [W <-] Hc. destruct W as [[W1 W2 W3 W4 W5] WCh WF].
  assert (Ec : (c =? 0) = false) by (apply Z.eqb_neq; lia).
  unfold seg_push, seg_refines, ls_push, seg_view, seg_pushed, seg_numberOfCharactersConsumed in *.
  destruct s as [p1 p2 b ch np nl ln subs cl em fl f g]; simpl in *.
  destruct (p1 =? 0) eqn:E1; simpl in *.
  - apply Z.eqb_eq in E1. subst p1. rewrite W4 in * by done. rewrite Ec. simpl.
    split; [|f_equal; lia]. repeat split; simpl; try done; try apply W1; auto.
    unfold seg_pushed; simpl. by rewrite Ec.
  - rewrite E1, Ec. simpl.
    split; [|destruct (p2 =? 0); simpl; f_equal; lia].
    repeat split; simpl; try done; try apply W1; auto.
    all: unfold seg_pushed; simpl; rewrite ?E1; try done. by intros ->.
Qed.

Lemma fromString_refines str :
  seg_refines (SegmentedString_fromString str)
    (mkListSource [] (string_characters str) false 0).
Proof.
  destruct str as [i8 cs]. unfold SegmentedString_fromString, SegmentedSubstring_fromString. simpl.
  destruct cs as [|c cs]; simpl.
  - repeat split; simpl; done || lia || auto.
  - match goal with |- seg_refines (updateAdvanceFunctionPointers ?s0) _ =>
      set (s1 := s0); assert (WC1 : wf_contents s1) end.
    { subst s1. constructor; simpl; try done.
      split; simpl; [lia|]. intros _. unfold sub_numberOfCharactersConsumed. simpl. f_equal. lia. }
    assert (CH : seg_chars s1 = c :: cs).
    { unfold seg_chars, sub_rest, sub_numberOfCharactersConsumed, s1. cbn [m_currentString m_string m_length set_field set_m_currentChar].
      rewrite Z.sub_diag. cbn. by rewrite app_nil_r. }
    assert (C1 : m_currentChar s1 = List.hd 0 (seg_pushed s1 ++ seg_chars s1)).
    { rewrite CH. subst s1. simpl. unfold getCurrentChar, getCurrentChar8, getCurrentChar16, deref.
      simpl. by destruct i8. }
    destruct (wf_install _ WC1 C1) as [W1 V1]. split; [done|]. rewrite V1.
    unfold seg_view. rewrite CH. subst s1.
    unfold seg_numberOfCharactersConsumed, sub_numberOfCharactersConsumed. simpl. f_equal. lia.
Qed.

(** Everything but the cached current character: what holds between the
    steps of [append] and [prepend], which refresh the cache last. *)
Definition wfx (s : SegmentedString) : Prop := wf_contents s /\ funcs_ok s.

(** A substring nothing has been read from. *)
Definition fresh (b : SegmentedSubstring) : Prop :=
  sub_wf b /\ sub_numberOfCharactersConsumed b = 0.

Lemma refresh_refines s : wfx s -> seg_refines (refreshCurrentChar s) (seg_view s).
Proof.
  intros [W F]. unfold refreshCurrentChar. split; [|apply set_currentChar_view].
  split; [by apply set_currentChar_contents | |by destruct s].
  transitivity (List.hd 0 (seg_pushed s ++ seg_chars s)); [|by destruct s].
  unfold seg_pushed. simpl. destruct (m_pushedChar1 s =? 0); simpl; [|done].
  by rewrite hd_seg_chars.
Qed.

Lemma install_wfx s :
  wf_contents s ->
  wfx (updateAdvanceFunctionPointers s) /\ seg_view (updateAdvanceFunctionPointers s) = seg_view s.
Proof.
  intros W. pose proof (update_funcs_ok s (proj1 (proj1 (wf_current _ W)))) as F.
  destruct (update_is_set_funcs s) as (fl & f & g & U).
  rewrite U in *. split; [|apply set_funcs_view].
  split; [by apply set_funcs_contents | done].
Qed.

Lemma set_empty_update v s :
  updateAdvanceFunctionPointers s <| m_empty := v |> =
  updateAdvanceFunctionPointers (s <| m_empty := v |>).
Proof.
  unfold updateAdvanceFunctionPointers, updateSlowCaseFunctionPointers, isComposite.
  destruct s as [p1 p2 [d n ex i8 st] c0 np nl ln subs cl em fl f g]; simpl. case_tests; done.
Qed.

Lemma fresh_rest b : fresh b -> sub_rest b = m_string b.
Proof. intros [_ E]. unfold sub_rest. rewrite E. done. Qed.

Lemma prependSubstring_wfx b s :
  wfx s -> fresh b ->
  wfx (seg_prependSubstring b s) /\
  seg_view (seg_prependSubstring b s) = ls_prepend (sub_rest b) (seg_view s).
Proof.
  intros [[W1 W2 W3 W4 W5] F] [WB FB]. pose proof (length_sub_rest b WB) as LB.
  unfold seg_prependSubstring. destruct (m_length b =? 0) eqn:E.
  { bool_hyps. rewrite sub_rest_nil by done. split; [by split; [constructor|]|].
    unfold ls_prepend. simpl. unfold seg_view. simpl. f_equal. lia. }
  apply Z.eqb_neq in E. pose proof (proj1 WB).
  destruct (m_length (m_currentString _) =? 0) eqn:E2; cbv zeta; rewrite set_empty_update;
    (match goal with |- wfx (updateAdvanceFunctionPointers ?s0) /\ _ =>
       destruct (install_wfx s0) as [WI ->] end; [|split; [exact WI|]]);
    clear F; unfold ls_prepend, seg_view, seg_chars, seg_pushed, seg_numberOfCharactersConsumed in *;
    destruct s as [p1 p2 b0 ch np nl ln subs cl em fl f g]; simpl in *.
  - apply Z.eqb_eq in E2. constructor; simpl; try done; try lia; by rewrite W3.
  - apply Z.eqb_eq in E2. rewrite (sub_rest_nil _ W1 E2). simpl. f_equal. lia.
  - apply Z.eqb_neq in E2. destruct W1 as [W1 W1']. constructor; simpl; try done; try lia.
    constructor; [|done]. repeat split; done || lia.
  - f_equal. lia.
Qed.

Lemma appendSubstring_wfx b s :
  wfx s -> fresh b ->
  wfx (seg_appendSubstring b s) /\
  seg_view (seg_appendSubstring b s) = ls_append (sub_rest b) (seg_view s).
Proof.
  intros [[W1 W2 W3 W4 W5] F] [WB FB]. pose proof (length_sub_rest b WB) as LB.
  unfold seg_appendSubstring. destruct (m_length b =? 0) eqn:E.
  { bool_hyps. rewrite sub_rest_nil by done. split; [by split; [constructor|]|].
    unfold ls_append. simpl. rewrite app_nil_r. done. }
  apply Z.eqb_neq in E. pose proof (proj1 WB).
  destruct (m_length (m_currentString _) =? 0) eqn:E2; cbv zeta.
  - rewrite set_empty_update.
    match goal with |- wfx (updateAdvanceFunctionPointers ?s0) /\ _ =>
       destruct (install_wfx s0) as [WI ->] end; [|split; [exact WI|]];
    clear F; unfold ls_append, seg_view, seg_chars, seg_pushed, seg_numberOfCharactersConsumed in *;
    destruct s as [p1 p2 b0 ch np nl ln subs cl em fl f g]; simpl in *; apply Z.eqb_eq in E2.
    + constructor; simpl; try done; try lia; by rewrite W3.
    + rewrite (sub_rest_nil _ W1 E2), (W3 E2). simpl. rewrite app_nil_r. f_equal. lia.
  - unfold ls_append, seg_view, seg_chars, seg_pushed, seg_numberOfCharactersConsumed in *.
    destruct s as [p1 p2 b0 ch np nl ln subs cl em fl f g]; simpl in *. apply Z.eqb_neq in E2.
    destruct W1 as [W1 W1']. split; [split; [constructor; simpl|]|]; try done; try lia.
    + apply Forall_app. split; [done|]. constructor; [|done]. split; done || lia.
    + rewrite map_app, concat_app. simpl. by rewrite app_nil_r, <- app_assoc.
Qed.

(** ** Appending and prepending whole segmented strings *)

Definition seg_fresh (t : SegmentedString) : Prop :=
  fresh (m_currentString t) /\ Forall fresh (m_substrings t) /\ m_pushedChar1 t = 0.

Lemma append_fold bs s :
  wfx s -> Forall fresh bs ->
  wfx (fold_left (fun s b => seg_appendSubstring b s) bs s) /\
  seg_view (fold_left (fun s b => seg_appendSubstring b s) bs s) =
    ls_append (concat (map sub_rest bs)) (seg_view s).
Proof.
  intros W F. revert s W. induction F as [|b bs Fb F IH]; intros s W; simpl.
  - split; [done|]. unfold ls_append. simpl. by rewrite app_nil_r.
  - destruct (appendSubstring_wfx b s W Fb) as [W' V]. destruct (IH _ W') as [W'' V''].
    split; [done|]. rewrite V'', V. unfold ls_append. simpl. by rewrite <- app_assoc.
Qed.

Lemma seg_append_refines t s l :
  seg_refines s l -> seg_fresh t -> seg_refines (seg_append t s) (ls_append (seg_chars t) l).
Proof.
  intros [W <-] (Fb & Fs & _). unfold seg_append.
  destruct (appendSubstring_wfx _ s (conj (wf_cont _ W) (wf_funcs _ W)) Fb) as [W' V'].
  destruct (append_fold _ _ W' Fs) as [W'' V''].
  assert (forall u, (if isComposite t then fold_left (fun s b => seg_appendSubstring b s)
            (m_substrings t) u else u)
          = fold_left (fun s b => seg_appendSubstring b s) (m_substrings t) u) as ->.
  { intros u. unfold isComposite. by destruct (m_substrings t). }
  destruct (refresh_refines _ W'') as [WR VR]. split; [done|].
  rewrite VR, V'', V'. unfold ls_append, seg_chars. simpl. by rewrite <- app_assoc.
Qed.

Lemma prepend_fold bs s :
  wfx s -> Forall fresh bs ->
  wfx (fold_left (fun s b => seg_prependSubstring b s) (rev bs) s) /\
  seg_view (fold_left (fun s b => seg_prependSubstring b s) (rev bs) s) =
    ls_prepend (concat (map sub_rest bs)) (seg_view s).
Proof.
  intros W F. rewrite <- fold_left_rev_right, rev_involutive. induction F as [|b bs Fb F IH]; simpl.
  - split; [done|]. unfold ls_prepend, seg_view. simpl. f_equal. lia.
  - destruct IH as [W' V']. destruct (prependSubstring_wfx b _ W' Fb) as [W'' V''].
    split; [done|]. rewrite V'', V'. unfold ls_prepend. simpl. rewrite length_app, <- app_assoc.
    f_equal. lia.
Qed.

Lemma seg_prepend_refines t s l :
  seg_refines s l -> seg_fresh t -> seg_refines (seg_prepend t s) (ls_prepend (seg_chars t) l).
Proof.
  intros [W <-] (Fb & Fs & _). unfold seg_prepend.
  destruct (prepend_fold _ s (conj (wf_cont _ W) (wf_funcs _ W)) Fs) as [W' V'].
  assert (forall u, (if isComposite t then fold_left (fun s b => seg_prependSubstring b s)
            (rev (m_substrings t)) u else u)
          = fold_left (fun s b => seg_prependSubstring b s) (rev (m_substrings t)) u) as ->.
  { intros u. unfold isComposite. by destruct (m_substrings t). }
  destruct (prependSubstring_wfx _ _ W' Fb) as [W'' V''].
  destruct (refresh_refines _ W'') as [WR VR]. split; [done|].
  rewrite VR, V'', V'. unfold ls_prepend, seg_chars. simpl. rewrite length_app, <- app_assoc.
  f_equal. lia.
Qed.

(** ** Looking ahead *)

Fixpoint ls_advanceCount (n : nat) (l : ListSource) : ListSource :=
  match n with O => l | S n => ls_advanceCount n (ls_advance l) end.

Lemma seg_advanceCount_refines n s l :
  seg_refines s l -> (n <= length (ls_ahead l))%nat ->
  fst (seg_advanceCount n s) = take n (ls_ahead l) /\
  seg_refines (snd (seg_advanceCount n s)) (ls_advanceCount n l).
Proof.
  revert s l. induction n as [|n IH]; intros s l R Hn; simpl; [done|].
  pose proof (seg_advance_refines _ _ R) as R'.
  destruct (ls_ahead l) as [|c cs] eqn:E; simpl in Hn; [lia|].
  pose proof (ls_ahead_advance l) as EA. rewrite E in EA. simpl in EA.
  destruct (IH _ _ R') as [I1 I2]; [rewrite EA; lia|].
  destruct (seg_advanceCount n (seg_advance s)) as [cs' s'] eqn:ES. simpl in *.
  split; [|done]. rewrite I1, EA. f_equal.
  destruct R as [W <-]. rewrite (wf_currentChar _ W).
  change (seg_pushed s ++ seg_chars s) with (ls_ahead (seg_view s)). by rewrite E.
Qed.

Lemma drop_tail_comm {A} n (l : list A) : drop n (tail l) = tail (drop n l).
Proof. rewrite tail_drop. destruct l; [by destruct n | done]. Qed.

Lemma ls_advanceCount_ahead n l :
  (n <= length (ls_ahead l))%nat ->
  ls_ahead (ls_advanceCount n l) = drop n (ls_ahead l) /\
  ls_pushed (ls_advanceCount n l) = drop n (ls_pushed l) /\
  ls_closed (ls_advanceCount n l) = ls_closed l /\
  ls_consumed (ls_advanceCount n l) = ls_consumed l + Z.of_nat n.
Proof.
  revert l. induction n as [|n IH]; intros l Hn; simpl.
  - repeat split; lia || done.
  - pose proof (ls_ahead_advance l) as EA. destruct (IH (ls_advance l)) as (I1 & I2 & I3 & I4).
    { rewrite EA. destruct (ls_ahead l); simpl in *; lia. }
    rewrite I1, I2, I3, I4, EA, ls_pushed_advance, ls_closed_advance.
    rewrite ls_consumed_advance by (destruct (ls_ahead l); simpl in *; [lia|done]).
    rewrite <- !tail_drop.
    repeat split; try lia; apply drop_tail_comm.
Qed.

Lemma fromString_fresh str : seg_fresh (SegmentedString_fromString str).
Proof.
  unfold SegmentedString_fromString. set (b := SegmentedSubstring_fromString str).
  assert (Fb : fresh b).
  { subst b. unfold SegmentedSubstring_fromString, fresh, sub_wf, sub_numberOfCharactersConsumed.
    case_tests; bool_hyps; repeat split; simpl; try lia; intros _; f_equal; lia. }
  match goal with |- seg_fresh (updateAdvanceFunctionPointers ?s0) =>
    destruct (update_is_set_funcs s0) as (fl & f & g & ->) end.
  destruct (negb _); (split; [exact Fb | split; [constructor | done]]).
Qed.

Lemma seg_chars_fromString str :
  seg_chars (SegmentedString_fromString str) = string_characters str.
Proof. destruct (fromString_refines str) as [_ V]. by injection V. Qed.

Section LookAhead.
Context `{CaseFolding}.

Lemma startsWith_take cs w (l : list UChar) : startsWith cs (take (length w) l) w = startsWith cs l w.
Proof.
  revert l. induction w as [|p w IH]; intros [|c l]; simpl; try done. by rewrite IH.
Qed.

Lemma seg_lookAhead_refines s l w cs :
  seg_refines s l -> (length (ls_pushed l) <= length w)%nat -> Z.of_nat (length (ls_ahead l)) < 2 ^ 32 ->
  fst (seg_lookAheadInline w cs s) = fst (ls_lookAhead w cs l) /\
  seg_refines (snd (seg_lookAheadInline w cs s)) (snd (ls_lookAhead w cs l)).
Proof.
  intros R Hw HB. pose proof (seg_length_refines _ _ R) as HL. pose proof R as [W V].
  rewrite (ls_length_small _ HB) in HL.
  unfold seg_lookAheadInline, ls_lookAhead.
  destruct ((m_pushedChar1 s =? 0) && (Z.of_nat (length w) <=? m_length (m_currentString s))) eqn:E.
  - bool_hyps. assert (P : ls_pushed l = []) by (subst l; by apply seg_pushed_nil).
    assert (A : ls_ahead l = seg_chars s) by (unfold ls_ahead; rewrite P; by subst l).
    pose proof (length_sub_rest _ (wf_current _ W)).
    replace (Z.of_nat (length (ls_ahead l)) <? Z.of_nat (length w)) with false.
    2:{ symmetry. apply Z.ltb_ge. rewrite A. unfold seg_chars.
        rewrite length_app. lia. }
    assert (startsWith cs (currentSubString (m_currentString s) (Z.of_nat (length w))) w
            = startsWith cs (ls_ahead l) w) as ->.
    { unfold currentSubString, substring. rewrite Nat2Z.id, <- (startsWith_take _ _ (ls_ahead l)), A.
      unfold seg_chars. rewrite take_app_le by lia. done. }
    assert (L : mkListSource [] (ls_ahead l) (ls_closed l) (ls_consumed l) = l).
    { rewrite A, <- P. by subst l. }
    rewrite L. by destruct (startsWith _ _ _).
  - unfold lookAheadSlowCase. rewrite HL, Z.gtb_ltb.
    destruct (Z.of_nat (length (ls_ahead l)) <? Z.of_nat (length w)) eqn:E2; [done|]. apply Z.ltb_ge in E2.
    assert (Hn : (length w <= length (ls_ahead l))%nat) by lia.
    destruct (seg_advanceCount_refines _ _ _ R Hn) as [A1 A2].
    destruct (ls_advanceCount_ahead _ _ Hn) as (B1 & B2 & B3 & B4).
    destruct (seg_advanceCount (length w) s) as [cs' s'] eqn:ES. simpl in *. subst cs'.
    rewrite startsWith_take. split; [done|].
    pose proof (seg_prepend_refines _ _ _ A2 (fromString_fresh (mkString false (take (length w) (ls_ahead l))))) as R2.
    assert (PD : drop (length w) (ls_pushed l) = []) by (apply drop_ge; lia).
    rewrite PD in B2. unfold ls_ahead in B1 at 1. rewrite B2 in B1. simpl in B1.
    rewrite seg_chars_fromString in R2. simpl in R2. unfold ls_prepend in R2.
    rewrite B1, B2, B3, B4, take_drop, length_take in R2.
    replace (ls_consumed l + Z.of_nat (length w) - _) with (ls_consumed l) in R2 by lia. exact R2.
Qed.
End LookAhead.

Lemma sub_appendTo_rest b : sub_wf b -> sub_appendTo b = sub_rest b.
Proof.
  intros [W _]. unfold sub_appendTo, sub_rest, sub_numberOfCharactersConsumed, substring.
  destruct (_ - _ =? 0) eqn:E; bool_hyps.
  - rewrite E. destruct (m_length b =? 0) eqn:E2; simpl; bool_hyps; [|done].
    destruct (m_string b); simpl in *; [done|lia].
  - apply take_ge. rewrite length_drop. lia.
Qed.

Lemma seg_toString_refines s l : seg_refines s l -> seg_toString s = ls_ahead l.
Proof.
  intros [W <-]. unfold seg_toString, ls_ahead, seg_view, seg_pushed, seg_chars. simpl.
  rewrite sub_appendTo_rest by apply W. f_equal; [by case_tests|]. f_equal.
  transitivity (concat (map sub_appendTo (m_substrings s))).
  { unfold isComposite. by destruct (m_substrings s). }
  induction (wf_substrings _ W) as [|b bs [Wb _] F IH]; simpl; [done|].
  by rewrite IH, sub_appendTo_rest.
Qed.

(** The segmented string refines a source of fewer than 2^31 characters, read
    or ahead, which is what its [int] counters can count. *)
Definition seg_reads (s : SegmentedString) (l : ListSource) : Prop :=
  seg_refines s l /\ ls_total l < 2 ^ 31.

(** [SegmentedString] implements the character source interface. *)
#[global] Instance SegmentedString_refines `{CaseFolding} :
  CharacterSourceRefines SegmentedString seg_reads.
Proof.
  split; simpl.
  - intros s l [R _]. by apply seg_isEmpty_refines.
  - intros s l [[W <-] _]. apply (wf_currentChar _ W).
  - intros s l [R _]. by apply seg_length_refines.
  - intros s l [R _]. by rewrite (seg_toString_refines _ _ R).
  - by intros s l [[W <-] _].
  - by intros s l [[W <-] _].
  - intros s l [R HT]. split; [by apply seg_advance_refines|by rewrite ls_total_advance].
  - intros s l [R HT]. split; [by apply seg_advanceAndUpdateLineNumber_refines|by rewrite ls_total_advance].
  - intros s l [R HT]. split; [by apply seg_advancePastNewline_refines|by rewrite ls_total_advance].
  - intros s l w cs [R HT] Hw HC.
    assert (P2 : (length (ls_pushed l) <= 2)%nat)
      by (destruct R as [_ <-]; simpl; unfold seg_pushed; case_tests; simpl; lia).
    destruct (seg_lookAhead_refines s l w cs R) as [E R']; [lia|unfold ls_total in HT; lia|].
    split; [done|]. split; [done|]. by rewrite ls_total_lookAhead.
  - intros s l c [R HT] Hc. split; [by apply seg_push_refines|]. pose proof (ls_total_push c l). lia.
  - intros s l w [R HT]. split; [|by rewrite ls_total_prepend].
    pose proof (seg_prepend_refines _ _ _ R (fromString_fresh (builtString w))) as R2.
    by rewrite seg_chars_fromString in R2.
  - intros s l [[W <-] _]. simpl. unfold seg_pushed. case_tests; bool_hyps; auto.
Qed.

(** ** The contract: observational equivalence with a queue *)

(** The public mutators of the class, with the copy constructor and the
    assignment of another string. *)
Inductive SourceOp :=
| OpAdvance
| OpAdvanceAndUpdateLineNumber
| OpAdvancePastNewlineAndUpdateLineNumber
| OpPush (c : UChar)
| OpAppend (str : WTFString)
| OpPrepend (str : WTFString)
| OpLookAhead (string : list UChar) (caseSensitive : bool)
| OpClose
| OpSetExcludeLineNumbers
| OpClear
| OpCopy
| OpAssign (str : WTFString).

(** What the observers return after an operation, and the result of a
    look-ahead. *)
Record Observation := mkObservation {
  obs_isEmpty : bool;
  obs_currentChar : UChar;
  obs_length : Z;
  obs_isClosed : bool;
  obs_numberOfCharactersConsumed : Z;
  obs_toString : list UChar;
  obs_lookAhead : option LookAheadResult
}.

(** [clear] resets the counts but not the current string, whose length is
    counted as consumed afterwards. *)
Definition countLeftByClear (s : SegmentedString) : Z :=
  Z.of_nat (length (m_string (m_currentString s))).

Lemma seg_clear_refines s l :
  seg_refines s l -> seg_refines (seg_clear s) (mkListSource [] [] false (countLeftByClear s)).
Proof.
  intros _. unfold countLeftByClear. destruct s as [p1 p2 [d n ex i8 st] c np nl ln subs cl em fl f g].
  unfold seg_clear, sub_clear. cbn. unfold seg_refines, seg_view, seg_chars, sub_rest, seg_numberOfCharactersConsumed,
    sub_numberOfCharactersConsumed. cbn -[Z.of_nat]. rewrite Z.sub_0_r, Nat2Z.id, drop_all. split; [|f_equal; lia].
  split; [split|..]; cbn -[Z.of_nat]; try done.
  - split; cbn -[Z.of_nat]; lia.
  - unfold seg_chars, sub_rest, sub_numberOfCharactersConsumed. cbn -[Z.of_nat]. by rewrite Z.sub_0_r, Nat2Z.id, drop_all.
Qed.

(** What is counted does not depend on the flag that is set. *)
Lemma sub_rest_exclude b : sub_rest (sub_setExcludeLineNumbers b) = sub_rest b.
Proof. done. Qed.

Lemma seg_setExcludeLineNumbers_refines s l :
  seg_refines s l -> seg_refines (seg_setExcludeLineNumbers s) l.
Proof.
  intros [W V].
  assert (E : seg_chars (seg_setExcludeLineNumbers s) = seg_chars s).
  { unfold seg_setExcludeLineNumbers, seg_chars, isComposite.
    destruct s as [p1 p2 b c np nl ln subs cl em fl f g]. cbn.
    destruct subs as [|b0 subs]; [done|]. cbn. by rewrite map_map. }
  assert (EM : seg_setExcludeLineNumbers s =
    s <| m_currentString := sub_setExcludeLineNumbers (m_currentString s) |>
      <| m_substrings := map sub_setExcludeLineNumbers (m_substrings s) |>).
  { unfold seg_setExcludeLineNumbers, isComposite. by destruct s as [p1 p2 b c np nl ln [|b0 subs] cl em fl f g]. }
  destruct W as [[W1 W2 W3 W4 W5] WCh WF]. rewrite EM in *. split.
  - split; [split|..].
    + done.
    + cbn. apply Forall_map. exact W2.
    + cbn. intros HZ. by rewrite (W3 HZ).
    + done.
    + done.
    + rewrite E. done.
    + done.
  - rewrite <- V. unfold seg_view. by rewrite E.
Qed.

(** The current character is recomputed from the pushed-back one that is read
    first, as long as it is the only one. *)
Lemma recomputed_currentChar s l :
  seg_refines s l -> (length (ls_pushed l) < 2)%nat ->
  (if negb (m_pushedChar2 s =? 0) then m_pushedChar2 s
   else if negb (m_pushedChar1 s =? 0) then m_pushedChar1 s else currentStringChar s) = m_currentChar s.
Proof.
  intros [W <-] HP. rewrite (wf_currentChar _ W). cbn in HP. unfold seg_pushed in *.
  destruct (m_pushedChar1 s =? 0) eqn:E1.
  - apply Z.eqb_eq in E1. rewrite (wf_pushed _ W E1), E1. cbn. symmetry. apply hd_seg_chars, W.
  - destruct (m_pushedChar2 s =? 0) eqn:E2; cbn in *; [done|lia].
Qed.

Lemma seg_copy_id s l :
  seg_refines s l -> (length (ls_pushed l) < 2)%nat -> SegmentedString_copy s = s.
Proof.
  intros R HP. unfold SegmentedString_copy. rewrite (recomputed_currentChar s l R HP). by destruct s.
Qed.

Lemma seg_assign_id s l s' :
  seg_refines s l -> (length (ls_pushed l) < 2)%nat -> seg_assign s s' = s.
Proof.
  intros R HP. unfold seg_assign. rewrite (recomputed_currentChar s l R HP). by destruct s.
Qed.

Section Contract.
Context `{CaseFolding}.

Definition seg_op (op : SourceOp) (s : SegmentedString) : option LookAheadResult * SegmentedString :=
  match op with
  | OpAdvance => (None, seg_advance s)
  | OpAdvanceAndUpdateLineNumber => (None, seg_advanceAndUpdateLineNumber s)
  | OpAdvancePastNewlineAndUpdateLineNumber => (None, seg_advancePastNewlineAndUpdateLineNumber s)
  | OpPush c => (None, seg_push c s)
  | OpAppend str => (None, seg_append (SegmentedString_fromString str) s)
  | OpPrepend str => (None, seg_prepend (SegmentedString_fromString str) s)
  | OpLookAhead w cs => let '(r, s) := seg_lookAheadInline w cs s in (Some r, s)
  | OpClose => (None, seg_close s)
  | OpSetExcludeLineNumbers => (None, seg_setExcludeLineNumbers s)
  | OpClear => (None, seg_clear s)
  | OpCopy => (None, SegmentedString_copy s)
  | OpAssign str => (None, seg_assign (SegmentedString_fromString str) s)
  end.

(** [k] is the count [clear] leaves behind. *)
Definition ls_op (k : Z) (op : SourceOp) (l : ListSource) : option LookAheadResult * ListSource :=
  match op with
  | OpAdvance | OpAdvanceAndUpdateLineNumber | OpAdvancePastNewlineAndUpdateLineNumber =>
      (None, ls_advance l)
  | OpPush c => (None, ls_push c l)
  | OpAppend str => (None, ls_append (string_characters str) l)
  | OpPrepend str => (None, ls_prepend (string_characters str) l)
  | OpLookAhead w cs => let '(r, l) := ls_lookAhead w cs l in (Some r, l)
  | OpClose => (None, ls_close l)
  | OpSetExcludeLineNumbers | OpCopy => (None, l)
  | OpClear => (None, mkListSource [] [] false k)
  | OpAssign str => (None, mkListSource [] (string_characters str) false 0)
  end.

(** The preconditions the class asserts of its callers: at most two characters
    are pushed back, nothing is pushed back in front of what is prepended (a
    look-ahead prepends what it has read), and a closed string is not appended
    to or closed again.  Two more are not asserted, see
    [pushed_nul_breaks_reading] and [copy_of_doubly_escaped_differs]: no NUL is
    pushed back, and a string with two characters pushed back is not copied. *)
Definition op_allowed (op : SourceOp) (l : ListSource) : Prop :=
  match op with
  | OpPush c => c <> 0 /\ (length (ls_pushed l) < 2)%nat
  | OpPrepend _ => ls_pushed l = []
  | OpLookAhead w _ => (length (ls_pushed l) <= length w)%nat
  | OpAppend _ | OpClose => ls_closed l = false
  | OpCopy => (length (ls_pushed l) < 2)%nat
  | _ => True
  end.

(** What the [unsigned] length and the [int] counts can hold. *)
Definition countable (l : ListSource) : Prop :=
  Z.of_nat (length (ls_ahead l)) < 2 ^ 31 /\ - 2 ^ 31 <= ls_consumed l < 2 ^ 31.

(** The operations are allowed one after the other; [ks] are the counts that
    the calls of [clear] leave. *)
Fixpoint ops_allowed (ks : list Z) (ops : list SourceOp) (l : ListSource) : Prop :=
  match ops, ks with
  | op :: ops, k :: ks =>
      op_allowed op l /\ countable (snd (ls_op k op l)) /\ ops_allowed ks ops (snd (ls_op k op l))
  | _, _ => True
  end.

Fixpoint seg_run (ops : list SourceOp) (s : SegmentedString) : list Observation :=
  match ops with
  | [] => []
  | op :: ops =>
      let '(r, s) := seg_op op s in
      mkObservation (m_empty s) (m_currentChar s) (seg_length s) (m_closed s)
        (seg_numberOfCharactersConsumed s) (seg_toString s) r :: seg_run ops s
  end.

Fixpoint countsLeft (ops : list SourceOp) (s : SegmentedString) : list Z :=
  match ops with
  | [] => []
  | op :: ops => countLeftByClear s :: countsLeft ops (snd (seg_op op s))
  end.

(** The length that is observed of the queue is the number of its characters. *)
Fixpoint ls_run (ks : list Z) (ops : list SourceOp) (l : ListSource) : list Observation :=
  match ops, ks with
  | op :: ops, k :: ks =>
      let '(r, l) := ls_op k op l in
      mkObservation (ls_isEmpty l) (List.hd 0 (ls_ahead l)) (Z.of_nat (length (ls_ahead l))) (ls_closed l)
        (ls_consumed l) (ls_ahead l) r :: ls_run ks ops l
  | _, _ => []
  end.

Lemma seg_op_refines op s l :
  seg_refines s l -> countable l -> op_allowed op l ->
  fst (seg_op op s) = fst (ls_op (countLeftByClear s) op l) /\
  seg_refines (snd (seg_op op s)) (snd (ls_op (countLeftByClear s) op l)).
Proof.
  intros R HB A. destruct op as [| | |c|str|str|w cs| | | | |str]; cbn [seg_op ls_op op_allowed fst snd] in *.
  - split; [done|]. by apply seg_advance_refines.
  - split; [done|]. by apply seg_advanceAndUpdateLineNumber_refines.
  - split; [done|]. by apply seg_advancePastNewline_refines.
  - split; [done|]. by apply seg_push_refines; destruct A.
  - split; [done|]. rewrite <- seg_chars_fromString.
    apply seg_append_refines; [done | apply fromString_fresh].
  - split; [done|]. rewrite <- seg_chars_fromString.
    apply seg_prepend_refines; [done | apply fromString_fresh].
  - destruct (seg_lookAhead_refines s l w cs R A) as [E1 E2]; [destruct HB; lia|].
    destruct (seg_lookAheadInline _ _ _), (ls_lookAhead _ _ _); simpl in *. by subst.
  - split; [done|]. destruct R as [[[W1 W2 W3 W4 W5] WCh WF] <-].
    destruct s; split; [split; [by constructor|done|done]|done].
  - split; [done|]. by apply seg_setExcludeLineNumbers_refines.
  - split; [done|]. by eapply seg_clear_refines.
  - split; [done|]. by rewrite (seg_copy_id s l R A).
  - split; [done|]. rewrite (seg_assign_id _ _ s (fromString_refines str)); [apply fromString_refines|simpl; lia].
Qed.

Lemma seg_run_refines ops s l :
  seg_refines s l -> countable l -> ops_allowed (countsLeft ops s) ops l ->
  seg_run ops s = ls_run (countsLeft ops s) ops l.
Proof.
  revert s l. induction ops as [|op ops IH]; intros s l R HB A; cbn [seg_run ls_run countsLeft ops_allowed] in *; [done|].
  destruct A as (A1 & HB' & A2). destruct (seg_op_refines _ _ _ R HB A1) as [E R'].
  destruct (seg_op op s) as [r s'], (ls_op (countLeftByClear s) op l) as [r' l']; simpl in *. subst r'.
  rewrite (IH _ _ R' HB' A2), (seg_isEmpty_refines _ _ R'), (seg_length_refines _ _ R'),
    (seg_toString_refines _ _ R'), ls_length_small by (destruct HB'; lia).
  destruct R' as [W' <-]. by rewrite (wf_currentChar _ W').
Qed.
End Contract.

(** ** Line and column accounting *)

(** Line numbers are counted when no substring excludes them, nothing is
    pushed back and the installed fast path is a counting one. *)
Definition counting (s : SegmentedString) : Prop :=
  m_pushedChar1 s = 0 /\
  Forall (fun b => m_doNotExcludeLineNumbers b = true) (m_currentString s :: m_substrings s) /\
  match m_advanceFunc s with
  | Advance8 => m_fastPathFlags s = 3 /\ m_advanceAndUpdateLineNumberFunc s = AdvanceAndUpdateLineNumber8
  | Advance16 => m_advanceAndUpdateLineNumberFunc s = AdvanceAndUpdateLineNumber16
  | _ => True
  end.

Definition position (s : SegmentedString) : Z * Z :=
  (m_currentLine s, m_numberOfCharactersConsumedPriorToCurrentLine s).

(** What one character does to the position. *)
Definition next_position (c : UChar) (consumed : Z) (p : Z * Z) : Z * Z :=
  if c =? cLF then (fst p + 1, consumed + 1) else p.

Lemma update_counting s :
  m_pushedChar1 s = 0 ->
  Forall (fun b => m_doNotExcludeLineNumbers b = true) (m_currentString s :: m_substrings s) ->
  counting (updateAdvanceFunctionPointers s) /\
  position (updateAdvanceFunctionPointers s) = position s.
Proof.
  intros HP HF. unfold counting, position, updateAdvanceFunctionPointers, updateSlowCaseFunctionPointers, isComposite.
  destruct s as [p1 p2 [d n ex i8 st] c np nl ln subs cl em fl f g]; simpl in *.
  inversion HF; simpl in *; subst. case_tests; simpl; auto 10.
Qed.

Lemma counting_slow s :
  counting s -> 0 < m_length (m_currentString s) <= 1 -> wf s ->
  counting (seg_advanceAndUpdateLineNumberSlowCase s) /\
  position (seg_advanceAndUpdateLineNumberSlowCase s) =
    next_position (m_currentChar s) (seg_numberOfCharactersConsumed s) (position s).
Proof.
  intros (HP & HF & _) HL W. unfold seg_advanceAndUpdateLineNumberSlowCase.
  rewrite (proj2 (Z.eqb_eq _ _) HP). simpl negb. cbv iota.
  assert (HL1 : m_length (m_currentString s) = 1) by lia.
  rewrite HL1. change (negb (1 =? 0)) with true. cbv iota zeta.
  assert (HC : getCurrentChar (m_currentString s) = m_currentChar s).
  { rewrite (wf_currentChar _ W), seg_pushed_nil by done. simpl.
    rewrite hd_seg_chars by apply W. unfold currentStringChar. by rewrite HL1. }
  rewrite HC. replace (m_doNotExcludeLineNumbers (m_currentString s)) with true
    by (inversion HF; congruence). rewrite andb_true_r.
  unfold next_position. set (k := seg_numberOfCharactersConsumed s + 1).
  set (b := m_currentChar s =? 10). clear W HC.
  destruct s as [p1 p2 [d n ex i8 st] c np nl ln subs cl em fl f g]; simpl in *. subst p1 n.
  inversion HF as [|? ? EX HS]; subst. simpl in EX. subst ex. clear HF.
  destruct b; simpl; (destruct subs as [|b0 subs];
    [unfold advanceSubstring, counting, clearAndInstallEmpty, sub_clear; simpl; auto
    |unfold advanceSubstring; simpl;
     match goal with |- context [updateAdvanceFunctionPointers ?s0] =>
       destruct (update_counting s0 eq_refl HS) as [[C1 [C2 C3]] C4] end;
     unfold counting, position in *; simpl; split; done]).
Qed.

Lemma counting_step s :
  wf s -> counting s -> m_empty s = false ->
  counting (seg_advanceAndUpdateLineNumber s) /\
  position (seg_advanceAndUpdateLineNumber s) =
    next_position (m_currentChar s) (seg_numberOfCharactersConsumed s) (position s).
Proof.
  intros W C HE. pose proof C as (HP & HF & HC). pose proof (wf_funcs _ W) as F.
  pose proof (proj1 (proj1 (wf_current _ W))) as HL0.
  rewrite (wf_emptyFlag _ W) in HE. apply Z.eqb_neq in HE.
  unfold funcs_ok in F. unfold seg_advanceAndUpdateLineNumber.
  destruct (m_advanceFunc s) eqn:EA; try done; destruct_and?; try lia.
  - match goal with H : m_fastPathFlags s = 3 |- _ => rewrite H end.
    change (Z.land 3 Use8BitAdvance) with 2. simpl negb. cbv iota zeta.
    change (Z.land 3 Use8BitAdvanceAndUpdateLineNumbers) with 1. simpl negb. rewrite andb_true_r.
    unfold counting, position, next_position, seg_numberOfCharactersConsumed, sub_numberOfCharactersConsumed.
    destruct s as [p1 p2 [d n ex i8 st] c np nl ln subs cl em fl f g]; simpl in *. subst.
    inversion HF; subst. simpl in *.
    destruct (c =? 10), (n - 1 =? 1); simpl; unfold sub_numberOfCharactersConsumed; simpl;
      (split; [by repeat split; auto|]); f_equal; lia.
  - match goal with H : m_fastPathFlags s = 0 |- _ => rewrite H end.
    match goal with H : m_advanceAndUpdateLineNumberFunc s = _ |- _ => rewrite H end.
    simpl. unfold seg_advanceAndUpdateLineNumber16, incrementCurrentChar, decrementAndCheckLength,
      decrementLength, counting, position, next_position, seg_numberOfCharactersConsumed, sub_numberOfCharactersConsumed.
    destruct s as [p1 p2 [d n ex i8 st] c np nl ln subs cl em fl f g]; simpl in *. subst.
    inversion HF; subst. simpl in *.
    destruct (c =? 10); simpl; destruct (n - 1 =? 1); simpl; by repeat split; auto.
  - match goal with H : m_fastPathFlags s = 0 |- _ => rewrite H end.
    match goal with H : m_advanceAndUpdateLineNumberFunc s = _ |- _ => rewrite H end.
    simpl. apply counting_slow; [done | lia | done].
Qed.

Lemma counting_append str s :
  wfx s -> counting s ->
  counting (seg_append (SegmentedString_fromString str) s) /\
  position (seg_append (SegmentedString_fromString str) s) = position s.
Proof.
  intros [W F] (HP & HF & HC). unfold seg_append.
  assert (m_doNotExcludeLineNumbers (m_currentString (SegmentedString_fromString str)) = true /\
               isComposite (SegmentedString_fromString str) = false) as [EB EC].
  { unfold SegmentedString_fromString.
    match goal with |- context [updateAdvanceFunctionPointers ?s0] =>
      destruct (update_is_set_funcs s0) as (fl & f & g & ->) end.
    unfold SegmentedSubstring_fromString, isComposite. case_tests; done. }
  rewrite EC. set (b := m_currentString (SegmentedString_fromString str)) in *.
  unfold seg_appendSubstring, refreshCurrentChar. case_test.
  { by destruct s. }
  destruct (m_length (m_currentString s) =? 0) eqn:E2; cbv zeta.
  - match goal with |- context [updateAdvanceFunctionPointers ?s0] =>
      destruct (update_counting s0) as [[C1 [C2 C3]] C4]; [done | |] end.
    { simpl. inversion HF. by constructor. }
    exact (conj (conj C1 (conj C2 C3)) C4).
  - unfold counting, position. simpl. split; [|done]. split; [done|]. split; [|done].
    inversion HF. constructor; [done|]. apply Forall_app. split; [done|]. by constructor.
Qed.

(** ** Theorems *)



(** The characters since the last line feed. *)
Definition column_of (cs : list UChar) : Z :=
  fold_left (fun n c => if c =? cLF then 0 else n + 1) cs 0.

Definition line_feeds (cs : list UChar) : Z := Z.of_nat (count_occ Z.eq_dec cs cLF).

Definition input_of (strs : list WTFString) : SegmentedString :=
  fold_left (fun s str => seg_append (SegmentedString_fromString str) s) strs SegmentedString_default.

Lemma default_refines : seg_refines SegmentedString_default (mkListSource [] [] false 0).
Proof. repeat split; simpl; done || lia || auto. Qed.

Lemma input_of_spec strs :
  seg_refines (input_of strs) (mkListSource [] (concat (map string_characters strs)) false 0) /\
  counting (input_of strs) /\ position (input_of strs) = (0, 0).
Proof.
  unfold input_of. induction strs as [|str' strs' IH] using rev_ind; [|rewrite fold_left_app]; simpl.
  - split; [exact default_refines|]. repeat split; simpl; auto.
  - destruct IH as (R & C & P). destruct (counting_append str' _ (conj (wf_cont _ (proj1 R)) (wf_funcs _ (proj1 R))) C) as [C' P'].
    split; [|split; [done | by rewrite P']].
    pose proof (seg_append_refines _ _ _ R (fromString_fresh str')) as R'.
    rewrite seg_chars_fromString in R'. unfold ls_append in R'. simpl in R'.
    rewrite map_app, concat_app. simpl. by rewrite app_nil_r.
Qed.

Lemma read_lines k s l n :
  seg_refines s l -> counting s -> ls_pushed l = [] ->
  (k <= length (ls_chars l))%nat ->
  n = snd (position s) ->
  let s' := Nat.iter k seg_advanceAndUpdateLineNumber s in
  m_currentLine s' = m_currentLine s + line_feeds (take k (ls_chars l)) /\
  seg_currentColumn s' =
    fold_left (fun n c => if c =? cLF then 0 else n + 1) (take k (ls_chars l)) (ls_consumed l - n).
Proof.
  revert s l n. induction k as [|k IH]; intros s l n R C HP Hk ->; cbv zeta in *.
  - simpl. split; [unfold line_feeds; simpl; lia|].
    destruct R as [W <-]. done.
  - destruct (ls_chars l) as [|c cs] eqn:EC; simpl in Hk; [lia|].
    assert (HE : m_empty s = false).
    { rewrite (seg_isEmpty_refines _ _ R). unfold ls_isEmpty. by rewrite EC. }
    assert (HC : m_currentChar s = c).
    { destruct R as [W <-]. rewrite (wf_currentChar _ W). simpl in *. by rewrite HP, EC. }
    destruct (counting_step s (proj1 R) C HE) as [C' P'].
    pose proof (seg_advanceAndUpdateLineNumber_refines _ _ R) as R'.
    assert (HA : ls_advance l = mkListSource [] cs (ls_closed l) (ls_consumed l + 1)).
    { unfold ls_advance. by rewrite HP, EC. }
    rewrite Nat.iter_succ_r.
    destruct (IH _ _ _ R' C' ltac:(by rewrite HA) ltac:(rewrite HA; simpl; lia) eq_refl) as [I1 I2].
    rewrite HA in I1, I2. simpl in I1, I2. rewrite I1, I2. clear I1 I2.
    unfold next_position, position in P'. rewrite HC in P'.
    replace (seg_numberOfCharactersConsumed s) with (ls_consumed l) in P' by (by destruct R as [_ <-]).
    unfold line_feeds. simpl take. simpl fold_left. simpl count_occ.
    destruct (Z.eqb_spec c 10) as [->|NE]; injection P' as -> ->.
    + split; [destruct (Z.eq_dec 10 10); [simpl; lia|done] | f_equal; lia].
    + split; [destruct (Z.eq_dec c 10); [done|lia] | f_equal; simpl; lia].
Qed.

(** Line and column of a document that arrived in any number of 8 or 16 bit
    segments: after reading [k] characters through
    [advanceAndUpdateLineNumber], [currentLine] is the number of line feeds
    read and [currentColumn] the number of characters read since the last. *)
Theorem line_and_column_after_reading (strs : list WTFString) (k : nat) :
  (k <= length (concat (map string_characters strs)))%nat ->
  let s := Nat.iter k seg_advanceAndUpdateLineNumber (input_of strs) in
  let read := take k (concat (map string_characters strs)) in
  m_currentLine s = line_feeds read /\ seg_currentColumn s = column_of read.
Proof.
  intros Hk. destruct (input_of_spec strs) as (R & C & P).
  destruct (read_lines k _ _ 0 R C eq_refl Hk ltac:(by rewrite P)) as [L K].
  simpl in L, K |- *. rewrite L, K. injection P as -> _. split; [lia | done].
Qed.

Lemma line_and_column_after_reading_witness :
  let strs := [mkString true [97; 10]; mkString false [98; 10; 99; 100]; mkString true [101]] in
  let s := Nat.iter 6 seg_advanceAndUpdateLineNumber (input_of strs) in
  m_currentLine s = 2 /\ seg_currentColumn s = 2.
Proof.
  pose proof (line_and_column_after_reading
    [mkString true [97; 10]; mkString false [98; 10; 99; 100]; mkString true [101]] 6
    ltac:(simpl; lia)) as T.
  exact T.
Defined.

(** With two pushed-back characters the copy reads the second one first: the
    copy constructor and the assignment prefer [m_pushedChar2] over
    [m_pushedChar1] when they recompute [m_currentChar]. *)
Theorem copy_of_doubly_escaped_differs :
  let s := seg_push 120 (seg_push 35 (SegmentedString_fromString (mkString true (str ";")))) in
  m_currentChar s = 35 /\ m_currentChar (SegmentedString_copy s) = 120 /\
  seg_toString (SegmentedString_copy s) = seg_toString s.
Proof. vm_compute. auto. Qed.

(** [setExcludeLineNumbers] leaves the counting fast path installed: a line
    feed read right after it is still counted. *)
Theorem excluded_line_feed_still_counted :
  let s := seg_setExcludeLineNumbers (SegmentedString_fromString (mkString true [cLF; 97; 98])) in
  sub_excludeLineNumbers (m_currentString s) = true /\
  m_currentLine (seg_advanceAndUpdateLineNumber s) = 1.
Proof. vm_compute. auto. Qed.

(** [push] takes a NUL, which it cannot tell from no character, and installs
    the slow paths; [advanceSlowCase] then shortens the current substring
    without moving on: the first character is read again. *)
Theorem pushed_nul_breaks_reading :
  let s := seg_push 0 (SegmentedString_fromString (mkString true (str "abc"))) in
  m_currentChar (seg_advance s) = "a"%uchar /\ seg_length (seg_advance s) = 2 /\
  m_currentChar (seg_advance (seg_advance s)) = "a"%uchar.
Proof. vm_compute. auto. Qed.

(** [clear] leaves the current string in place: its characters are counted as
    consumed by a string that is empty and from which nothing was read. *)
Theorem clear_keeps_a_count :
  let s := seg_clear (SegmentedString_fromString (mkString true (str "abc"))) in
  m_empty s = true /\ m_numberOfCharactersConsumedPriorToCurrentString s = 0 /\
  seg_numberOfCharactersConsumed s = 3.
Proof. vm_compute. auto. Qed.
