(* ===== verification/InputStreamPreprocessor.v ===== *)
(** * [InputStreamPreprocessor]

    [html/parser/InputStreamPreprocessor.h]: newline normalization and NUL
    handling between the character source and the tokenizer.  The definitions
    are generic in the source; the lemmas give the loop equation of
    [processNextInputCharacter], its behaviour on [ListSource] and its
    transport along a refinement of sources. *)

From S2P Require Import Prelude CharacterSource.
Open Scope Z_scope.

Definition kEndOfFileMarker : LChar := 0.

Record Preprocessor := mkPreprocessor {
  m_nextInputCharacter : UChar;
  m_skipNextNewLine : bool
}.

#[global] Instance set_m_nextInputCharacter : Setter m_nextInputCharacter := fun v r =>
  mkPreprocessor v (m_skipNextNewLine r).
#[global] Instance set_m_skipNextNewLine : Setter m_skipNextNewLine := fun v r =>
  mkPreprocessor (m_nextInputCharacter r) v.

Definition pp_reset (skipNextNewLine : bool) : Preprocessor := mkPreprocessor 0 skipNextNewLine.

Section Preprocessor.
Context {S : Type} `{CharacterSource S}.

(** [m_tokenizer->shouldSkipNullCharacters()]; the tokenizer does not change
    while a character is peeked at. *)
Variable shouldSkipNullCharacters : bool.

Definition shouldTreatNullAsEndOfFileMarker (source : S) : bool :=
  isClosed source && (sourceLength source =? 1).

(** The loop behind the label [ProcessAgain]: every iteration but the last one
    skips a NUL, so the number of characters ahead bounds it (see
    [processAgain_fuel]). *)
Fixpoint processAgain (fuel : nat) (pp : Preprocessor) (source : S) : bool * Preprocessor * S :=
  match fuel with
  | O => (false, pp, source)
  | Datatypes.S fuel =>
      let '(exhausted, pp, source) :=
        if (m_nextInputCharacter pp =? cLF) && m_skipNextNewLine pp then
          let pp := pp <| m_skipNextNewLine := false |> in
          let source := advancePastNewlineAndUpdateLineNumber source in
          if isEmpty source then (true, pp, source)
          else (false, pp <| m_nextInputCharacter := currentChar source |>, source)
        else (false, pp, source) in
      if (exhausted : bool) then (false, pp, source)
      else if m_nextInputCharacter pp =? cCR then
        (true, pp <| m_nextInputCharacter := cLF |> <| m_skipNextNewLine := true |>, source)
      else
        let pp := pp <| m_skipNextNewLine := false |> in
        if (m_nextInputCharacter pp =? cNUL) && negb (shouldTreatNullAsEndOfFileMarker source) then
          if shouldSkipNullCharacters then
            let source := advance source in
            if isEmpty source then (false, pp, source)
            else processAgain fuel (pp <| m_nextInputCharacter := currentChar source |>) source
          else (true, pp <| m_nextInputCharacter := replacementCharacter |>, source)
        else (true, pp, source)
  end.

Definition processNextInputCharacter (pp : Preprocessor) (source : S) : bool * Preprocessor * S :=
  processAgain (Datatypes.S (charactersAhead source)) pp source.

(** ['\n' | '\r' | '\0'] *)
Definition specialCharacterMask : UChar := Z.lor (Z.lor cLF cCR) cNUL.

Definition pp_peek (pp : Preprocessor) (source : S) : bool * Preprocessor * S :=
  let pp := pp <| m_nextInputCharacter := currentChar source |> in
  if negb (Z.land (m_nextInputCharacter pp) (Z.lnot specialCharacterMask) =? 0)
  then (true, pp <| m_skipNextNewLine := false |>, source)
  else processNextInputCharacter pp source.

Definition pp_advance (pp : Preprocessor) (source : S) : bool * Preprocessor * S :=
  let source := advanceAndUpdateLineNumber source in
  if isEmpty source then (false, pp, source) else pp_peek pp source.
End Preprocessor.

(** ** Transport along a refinement of sources *)

(** Results over related sources: the same flag and preprocessor state, and
    sources that are still related. *)
Definition pp_related {S : Type} (R : S -> ListSource -> Prop)
    (x : bool * Preprocessor * S) (y : bool * Preprocessor * ListSource) : Prop :=
  fst x = fst y /\ R (snd x) (snd y).

Section Transport.
Context {S : Type} `{CaseFolding} `{!CharacterSource S} (R : S -> ListSource -> Prop)
  `{!CharacterSourceRefines S R}.

Lemma shouldTreatNull_refines s l :
  R s l -> shouldTreatNullAsEndOfFileMarker s = shouldTreatNullAsEndOfFileMarker l.
Proof.
  intros HR. unfold shouldTreatNullAsEndOfFileMarker.
  by rewrite (ref_isClosed _ _ HR), (ref_length _ _ HR).
Qed.

Lemma processAgain_refines skip fuel pp s l :
  R s l -> pp_related R (processAgain skip fuel pp s) (processAgain skip fuel pp l).
Proof.
  revert pp s l. induction fuel as [|fuel IH]; intros pp s l HR; cbn [processAgain]; [done|].
  assert (HN := ref_advancePastNewline _ _ HR).
  rewrite (ref_isEmpty _ _ HN), (ref_currentChar _ _ HN).
  destruct (_ && m_skipNextNewLine pp); [destruct (isEmpty (advancePastNewlineAndUpdateLineNumber l))|];
    try done;
    match goal with HR : R ?s0 ?l0 |- context [shouldTreatNullAsEndOfFileMarker ?s0] =>
      rewrite (shouldTreatNull_refines _ _ HR); assert (HA := ref_advance _ _ HR);
      rewrite (ref_isEmpty _ _ HA), (ref_currentChar _ _ HA) end;
    (destruct (_ =? cCR); [done|]); (destruct (_ && negb _); [|done]);
    (destruct skip; [|done]); (destruct (isEmpty (advance _)); [done|]); by apply IH.
Qed.

Lemma pp_peek_refines skip pp s l :
  R s l -> pp_related R (pp_peek skip pp s) (pp_peek skip pp l).
Proof.
  intros HR. unfold pp_peek, processNextInputCharacter.
  rewrite (ref_currentChar _ _ HR), (ref_charactersAhead _ _ HR).
  destruct (negb _); [done|]. by apply processAgain_refines.
Qed.

Lemma pp_advance_refines skip pp s l :
  R s l -> pp_related R (pp_advance skip pp s) (pp_advance skip pp l).
Proof.
  intros HR. unfold pp_advance. pose proof (ref_advanceAndUpdateLineNumber _ _ HR) as HA.
  rewrite (ref_isEmpty _ _ HA). destruct (isEmpty _); [done|]. by apply pp_peek_refines.
Qed.
End Transport.

(** ** The preprocessor over the specification of sources *)

Section Behaviour.
Context `{CaseFolding}.
Implicit Types (l : ListSource) (pp : Preprocessor).

(** The only character ahead is the NUL that marks the end of a closed source. *)
Definition at_end_of_file l : bool := shouldTreatNullAsEndOfFileMarker l && (currentChar l =? cNUL).

(** The tokenizer sees the current character with newlines normalized and
    NULs replaced. *)
Definition normalized l : UChar :=
  if currentChar l =? cCR then cLF
  else if (currentChar l =? cNUL) && negb (shouldTreatNullAsEndOfFileMarker l) then replacementCharacter
  else currentChar l.

(** What a [peek] from [l] may do: skip some characters, and stop at one or at
    the end of the input. *)
Definition peeked l (r : bool * Preprocessor * ListSource) : Prop :=
  let '(ok, pp, l') := r in
  exists k, advanced k l l' /\
    if (ok : bool)
    then ls_chars l' <> [] /\ m_nextInputCharacter pp = normalized l' /\
         m_skipNextNewLine pp = (currentChar l' =? cCR)
    else ls_chars l' = [] /\ m_skipNextNewLine pp = false.

Lemma peeked_advance k l l' r : advanced k l l' -> peeked l' r -> peeked l r.
Proof.
  destruct r as [[ok pp] l'']. intros HA (j & HJ & HR). exists (k + j)%nat.
  split; [by eapply advanced_trans|done].
Qed.

(** The part of the loop body behind the newline test. *)
Definition processRest (skip : bool) (fuel : nat) pp l : bool * Preprocessor * ListSource :=
  if m_nextInputCharacter pp =? cCR then
    (true, pp <| m_nextInputCharacter := cLF |> <| m_skipNextNewLine := true |>, l)
  else
    let pp := pp <| m_skipNextNewLine := false |> in
    if (m_nextInputCharacter pp =? cNUL) && negb (shouldTreatNullAsEndOfFileMarker l) then
      if skip then
        let l := ls_advance l in
        if ls_isEmpty l then (false, pp, l)
        else processAgain skip fuel (pp <| m_nextInputCharacter := currentChar l |>) l
      else (true, pp <| m_nextInputCharacter := replacementCharacter |>, l)
    else (true, pp, l).

(** The loop equation. *)
Lemma processAgain_unfold skip fuel pp l :
  processAgain skip (Datatypes.S fuel) pp l =
  if (m_nextInputCharacter pp =? cLF) && m_skipNextNewLine pp then
    let pp := pp <| m_skipNextNewLine := false |> in
    if ls_isEmpty (ls_advance l) then (false, pp, ls_advance l)
    else processRest skip fuel (pp <| m_nextInputCharacter := currentChar (ls_advance l) |>) (ls_advance l)
  else processRest skip fuel pp l.
Proof.
  unfold processRest. cbn [processAgain advancePastNewlineAndUpdateLineNumber isEmpty advance ListSource_source].
  destruct (_ && m_skipNextNewLine pp); [|done]. cbv zeta. by destruct (ls_isEmpty (ls_advance l)).
Qed.

Lemma processRest_peeked skip fuel pp l :
  (forall pp' l', (length (ls_ahead l') < length (ls_ahead l))%nat -> ls_chars l' <> [] ->
     m_nextInputCharacter pp' = currentChar l' -> peeked l' (processAgain skip fuel pp' l')) ->
  ls_chars l <> [] -> m_nextInputCharacter pp = currentChar l -> peeked l (processRest skip fuel pp l).
Proof.
  intros IH HC HN. unfold processRest. rewrite HN.
  destruct (Z.eqb_spec (currentChar l) cCR) as [E|E].
  { exists 0%nat. split; [apply advanced_refl|]. unfold normalized. by rewrite E. }
  simpl m_nextInputCharacter. rewrite HN.
  destruct ((currentChar l =? cNUL) && _) eqn:EN.
  2: { exists 0%nat. split; [apply advanced_refl|]. unfold normalized. apply Z.eqb_neq in E. simpl in *. by rewrite E, EN, HN. }
  destruct skip.
  - pose proof (advanced_advance l (chars_ahead l HC)) as HA. simpl.
    destruct (ls_isEmpty (ls_advance l)) eqn:EE.
    + exists 1%nat. split; [done|]. unfold ls_isEmpty in EE. by destruct (ls_chars (ls_advance l)).
    + apply (peeked_advance 1 l (ls_advance l)); [done|]. apply IH; [|by apply ls_isEmpty_false|done].
      rewrite (advanced_length _ _ _ HA). pose proof (adv_bound _ _ _ HA). lia.
  - exists 0%nat. split; [apply advanced_refl|]. unfold normalized. apply Z.eqb_neq in E. simpl in *. by rewrite E, EN.
Qed.

Lemma processAgain_peeked skip fuel pp l :
  (length (ls_ahead l) < fuel)%nat -> ls_chars l <> [] -> m_nextInputCharacter pp = currentChar l ->
  peeked l (processAgain skip fuel pp l).
Proof.
  revert pp l. induction fuel as [|fuel IH]; intros pp l HF HC HN; [lia|].
  rewrite processAgain_unfold. destruct (_ && m_skipNextNewLine pp).
  - pose proof (advanced_advance l (chars_ahead l HC)) as HA. cbv zeta.
    pose proof (advanced_length _ _ _ HA) as HL. pose proof (adv_bound _ _ _ HA) as HB.
    destruct (ls_isEmpty (ls_advance l)) eqn:EE.
    + exists 1%nat. split; [done|]. unfold ls_isEmpty in EE. by destruct (ls_chars (ls_advance l)).
    + apply (peeked_advance 1 l (ls_advance l)); [done|].
      apply processRest_peeked; [|by apply ls_isEmpty_false|done].
      intros pp' l' HL' HC' HN'. apply IH; [lia|done|done].
  - apply processRest_peeked; [|done|done]. intros pp' l' HL' HC' HN'. apply IH; [lia|done|done].
Qed.

(** Fuel beyond the number of characters ahead changes nothing. *)
Lemma processAgain_fuel skip n m pp l :
  (length (ls_ahead l) < n)%nat -> (length (ls_ahead l) < m)%nat -> ls_chars l <> [] ->
  processAgain skip n pp l = processAgain skip m pp l.
Proof.
  revert m pp l. induction n as [|n IH]; intros m pp l Hn Hm HC; [lia|].
  destruct m as [|m]; [lia|]. rewrite !processAgain_unfold.
  assert (HR : forall pp l, (length (ls_ahead l) < Datatypes.S n)%nat ->
    (length (ls_ahead l) < Datatypes.S m)%nat -> ls_chars l <> [] ->
    processRest skip n pp l = processRest skip m pp l).
  { clear pp l Hn Hm HC. intros pp l Hn Hm HC. unfold processRest.
    destruct (_ =? cCR); [done|]. cbv zeta. destruct (_ && negb _); [|done]. destruct skip; [|done].
    pose proof (advanced_advance l (chars_ahead l HC)) as HA.
    pose proof (advanced_length _ _ _ HA) as HL. pose proof (adv_bound _ _ _ HA) as HB.
    destruct (ls_isEmpty (ls_advance l)) eqn:EE; [done|]. apply ls_isEmpty_false in EE.
    apply IH; [lia|lia|done]. }
  destruct (_ && m_skipNextNewLine pp); [|by apply HR]. cbv zeta.
  pose proof (advanced_advance l (chars_ahead l HC)) as HA.
  pose proof (advanced_length _ _ _ HA) as HL.
  destruct (ls_isEmpty (ls_advance l)) eqn:EE; [done|]. apply ls_isEmpty_false in EE.
  apply HR; [lia|lia|done].
Qed.

(** A character with a bit outside of the mask needs no processing. *)
Lemma mask_special c :
  (Z.land c (Z.lnot specialCharacterMask) =? 0) = false -> c <> cCR /\ c <> cNUL /\ c <> cLF.
Proof. intros HM. split_and!; intros ->; done. Qed.

Lemma pp_peek_peeked skip pp l : ls_chars l <> [] -> peeked l (pp_peek skip pp l).
Proof.
  intros HC. unfold pp_peek. cbn [m_nextInputCharacter set_field set_m_nextInputCharacter].
  destruct (_ =? 0) eqn:EM; simpl negb; cbv iota.
  - apply processAgain_peeked; [|done|done]. simpl. lia.
  - destruct (mask_special _ EM) as (N1 & N2 & _). exists 0%nat. split; [apply advanced_refl|].
    unfold normalized. apply Z.eqb_neq in N1, N2. simpl in *. by rewrite N1, N2.
Qed.

(** Advancing past the last character keeps the preprocessor as it is; the
    newline that starts the next chunk may have to be skipped. *)
Lemma pp_advance_peeked skip pp l :
  ls_ahead l <> [] ->
  if ls_isEmpty (ls_advance l)
  then pp_advance skip pp l = (false, pp, ls_advance l)
  else pp_advance skip pp l = pp_peek skip pp (ls_advance l) /\
       peeked (ls_advance l) (pp_advance skip pp l).
Proof.
  intros HA. unfold pp_advance. cbn [isEmpty advanceAndUpdateLineNumber ListSource_source].
  destruct (ls_isEmpty (ls_advance l)) eqn:EE; [done|].
  split; [done|]. by apply pp_peek_peeked, ls_isEmpty_false.
Qed.
End Behaviour.
