(* ===== verification/HTMLEntitySearch.v ===== *)
(** * [HTMLEntitySearch]

    [html/parser/HTMLEntitySearch.cpp]: incremental binary search of the
    sorted table of named character references.  The table itself,
    [HTMLEntityTable.cpp], is generated by the build and is a parameter; what
    the generator guarantees of it is [HTMLEntityTableOk].  The theorems say
    that after any number of [advance] calls the range [m_first .. m_last] is
    exactly the set of entries with the characters read as a prefix, and that
    [m_mostRecentMatch] is the longest entry among the prefixes read. *)

From S2P Require Import Prelude.
Open Scope Z_scope.

(** [struct HTMLEntityTableEntry]; the field [length] is the length of
    [entity]. *)
Record HTMLEntityTableEntry := mkEntry {
  entity : list LChar;
  firstValue : UChar32;
  secondValue : UChar32
}.

Definition entry_length (e : HTMLEntityTableEntry) : nat := length (entity e).

Definition lastCharacter (e : HTMLEntityTableEntry) : LChar :=
  nth (entry_length e - 1) (entity e) 0.

(** [class HTMLEntityTable]; an entry pointer is an index into the table. *)
Class HTMLEntityTable := {
  entityTable : list HTMLEntityTableEntry;
  firstEntryStartingWith : UChar -> option nat;
  lastEntryStartingWith : UChar -> option nat
}.

Definition noEntry : HTMLEntityTableEntry := mkEntry [] 0 0.

Definition entryAt `{HTMLEntityTable} (i : nat) : HTMLEntityTableEntry := nth i entityTable noEntry.

Record HTMLEntitySearch := mkEntitySearch {
  m_currentLength : nat;
  m_mostRecentMatch : option nat;
  m_first : option nat;
  m_last : option nat
}.

(** [HTMLEntitySearch::CompareResult] *)
Inductive CompareResult := Before | Prefix | After.

#[global] Instance CompareResult_eq_dec : EqDecision CompareResult.
Proof. solve_decision. Defined.

Section Search.
Context `{HTMLEntityTable}.

Definition firstEntry : nat := 0.
Definition lastEntry : nat := length entityTable - 1.

Definition newEntitySearch : HTMLEntitySearch :=
  mkEntitySearch 0 None (Some firstEntry) (Some lastEntry).

Definition isEntityPrefix (s : HTMLEntitySearch) : bool :=
  match m_first s with Some _ => true | None => false end.

Definition halfway (left right : nat) : nat := (left + (right - left) / 2)%nat.

Definition compareEntry (currentLength : nat) (i : nat) (nextCharacter : UChar) : CompareResult :=
  if (entry_length (entryAt i) <? currentLength + 1)%nat then Before
  else
    let entryNextCharacter := nth currentLength (entity (entryAt i)) 0 in
    if entryNextCharacter =? nextCharacter then Prefix
    else if entryNextCharacter <? nextCharacter then Before else After.

(** The loop of [findFirst]; [right - left] bounds its iterations. *)
Fixpoint findFirstLoop (fuel : nat) (n : nat) (c : UChar) (left right : nat) : nat :=
  match fuel with
  | O => right
  | S fuel =>
      if (left + 1 <? right)%nat then
        let probe := halfway left right in
        if decide (compareEntry n probe c = Before)
        then findFirstLoop fuel n c probe right
        else findFirstLoop fuel n c left probe
      else right
  end.

Definition findFirst (n : nat) (left right : nat) (c : UChar) : nat :=
  if (left =? right)%nat then left
  else match compareEntry n left c with
       | Prefix => left
       | After => right
       | Before => findFirstLoop (right - left) n c left right
       end.

Fixpoint findLastLoop (fuel : nat) (n : nat) (c : UChar) (left right : nat) : nat :=
  match fuel with
  | O => left
  | S fuel =>
      if (left + 1 <? right)%nat then
        let probe := halfway left right in
        if decide (compareEntry n probe c = After)
        then findLastLoop fuel n c left probe
        else findLastLoop fuel n c probe right
      else left
  end.

Definition findLast (n : nat) (left right : nat) (c : UChar) : nat :=
  if (left =? right)%nat then right
  else match compareEntry n right c with
       | Prefix => right
       | Before => left
       | After => findLastLoop (right - left) n c left right
       end.

Definition es_fail (s : HTMLEntitySearch) : HTMLEntitySearch :=
  mkEntitySearch (m_currentLength s) (m_mostRecentMatch s) None None.

(** [findLast] reads the member [m_first] that [findFirst] has just set. *)
Definition es_advance (nextCharacter : UChar) (s : HTMLEntitySearch) : HTMLEntitySearch :=
  let range :=
    if (m_currentLength s =? 0)%nat then
      match firstEntryStartingWith nextCharacter, lastEntryStartingWith nextCharacter with
      | Some f, Some l => Some (f, l)
      | _, _ => None
      end
    else
      match m_first s, m_last s with
      | Some first, Some last =>
          let f := findFirst (m_currentLength s) first last nextCharacter in
          let l := findLast (m_currentLength s) f last nextCharacter in
          if (f =? l)%nat && bool_decide (compareEntry (m_currentLength s) f nextCharacter <> Prefix)
          then None else Some (f, l)
      | _, _ => None
      end in
  match range with
  | None => es_fail s
  | Some (f, l) =>
      let n := Datatypes.S (m_currentLength s) in
      if (entry_length (entryAt f) =? n)%nat
      then mkEntitySearch n (Some f) (Some f) (Some l)
      else mkEntitySearch n (m_mostRecentMatch s) (Some f) (Some l)
  end.
End Search.

(** ** What the generator guarantees *)

(** Lexicographic order of code units, a proper prefix first: the order in
    which [create-html-entity-table] sorts the names. *)
Fixpoint lex_lt (a b : list LChar) : Prop :=
  match a, b with
  | [], [] => False
  | [], _ :: _ => True
  | _ :: _, [] => False
  | x :: a', y :: b' => x < y \/ (x = y /\ lex_lt a' b')
  end.

Class HTMLEntityTableOk `{HTMLEntityTable} : Prop := {
  table_sorted i j : (i < j < length entityTable)%nat ->
    lex_lt (entity (entryAt i)) (entity (entryAt j));
  table_index c :
    match firstEntryStartingWith c, lastEntryStartingWith c with
    | Some f, Some l =>
        (f <= l < length entityTable)%nat /\
        forall i, (i < length entityTable)%nat ->
          ((f <= i <= l)%nat <-> head (entity (entryAt i)) = Some c)
    | None, None => forall i, (i < length entityTable)%nat -> head (entity (entryAt i)) <> Some c
    | _, _ => False
    end;
  table_length i : (i < length entityTable)%nat -> (2 <= entry_length (entryAt i))%nat;
  table_no_nul i : (i < length entityTable)%nat -> Forall (fun c => c <> 0) (entity (entryAt i));
  table_values i : (i < length entityTable)%nat ->
    1 <= firstValue (entryAt i) <= 1114111 /\ 0 <= secondValue (entryAt i) <= 1114111
}.

(** ** Correctness of the binary searches *)

Section LexOrder.
Lemma lex_lt_app w a b : lex_lt (w ++ a) (w ++ b) <-> lex_lt a b.
Proof.
  induction w as [|x w IH]; simpl; [done|]. rewrite IH. split; [|auto].
  intros [?|[_ ?]]; [lia|done].
Qed.

Lemma lex_lt_irrefl a : ~ lex_lt a a.
Proof. induction a as [|x a IH]; simpl; [auto|]. intros [?|[_ ?]]; [lia|auto]. Qed.
End LexOrder.

Section BinarySearch.
Context `{HTMLEntityTable}.
Variables (n : nat) (c : UChar) (lo hi : nat).

(** The comparison results of the current range are sorted. *)
Hypothesis monotone_after : forall i j, (lo <= i <= j)%nat -> (j <= hi)%nat ->
  compareEntry n i c = After -> compareEntry n j c = After.
Hypothesis monotone_before : forall i j, (lo <= i <= j)%nat -> (j <= hi)%nat ->
  compareEntry n j c = Before -> compareEntry n i c = Before.

Lemma halfway_between left right : (left + 1 < right)%nat -> (left < halfway left right < right)%nat.
Proof.
  intros Hlr. unfold halfway.
  pose proof (Nat.div_mod_eq (right - left) 2).
  pose proof (Nat.mod_upper_bound (right - left) 2). lia.
Qed.

Lemma findFirstLoop_spec fuel left right :
  (right - left <= fuel)%nat -> (lo <= left < right)%nat -> (right <= hi)%nat ->
  compareEntry n left c = Before ->
  (right = hi \/ compareEntry n right c <> Before) ->
  let r := findFirstLoop fuel n c left right in
  (left < r <= right)%nat /\ (r = hi \/ compareEntry n r c <> Before) /\
  forall i, (lo <= i < r)%nat -> compareEntry n i c = Before.
Proof.
  revert left right. induction fuel as [|fuel IH]; intros left right Hf Hl Hr Cl Cr; [lia|].
  cbn [findFirstLoop]. destruct (left + 1 <? right)%nat eqn:E.
  - apply Nat.ltb_lt in E. pose proof (halfway_between _ _ E). cbv zeta.
    case_decide as D.
    + destruct (IH (halfway left right) right) as (I1 & I2 & I3); try lia; try done.
      repeat split; done || lia.
    + destruct (IH left (halfway left right)) as (I1 & I2 & I3); try lia; try done; [by right|].
      repeat split; done || lia.
  - apply Nat.ltb_ge in E. repeat split; try lia; try done.
    intros i Hi. apply (monotone_before i left); done || lia.
Qed.

Lemma findLastLoop_spec fuel left right :
  (right - left <= fuel)%nat -> (lo <= left < right)%nat -> (right <= hi)%nat ->
  compareEntry n right c = After ->
  let r := findLastLoop fuel n c left right in
  (left <= r < right)%nat /\ (r = left \/ compareEntry n r c <> After) /\
  forall i, (r < i <= hi)%nat -> compareEntry n i c = After.
Proof.
  revert left right. induction fuel as [|fuel IH]; intros left right Hf Hl Hr Cr; [lia|].
  cbn [findLastLoop]. destruct (left + 1 <? right)%nat eqn:E.
  - apply Nat.ltb_lt in E. pose proof (halfway_between _ _ E). cbv zeta.
    case_decide as D.
    + destruct (IH left (halfway left right)) as (I1 & I2 & I3); try lia; try done.
      repeat split; done || lia.
    + destruct (IH (halfway left right) right) as (I1 & I2 & I3); try lia; try done.
      repeat split; try done; try lia. right. destruct I2 as [->|]; done.
  - apply Nat.ltb_ge in E. repeat split; try lia; auto.
    intros i Hi. apply (monotone_after right i); done || lia.
Qed.

(** Together, [findFirst] and [findLast] delimit the entries that continue
    with [c], or meet at one that does not. *)
Lemma find_range :
  (lo <= hi)%nat ->
  let f := findFirst n lo hi c in
  let l := findLast n f hi c in
  if (f =? l)%nat && bool_decide (compareEntry n f c <> Prefix)
  then forall i, (lo <= i <= hi)%nat -> compareEntry n i c <> Prefix
  else (lo <= f)%nat /\ (f <= l)%nat /\ (l <= hi)%nat /\
       forall i, (lo <= i <= hi)%nat -> ((f <= i <= l)%nat <-> compareEntry n i c = Prefix).
Proof.
  intros Hlh f l.
  (* everything below [f] is not a match, and [f] is the last one or not [Before] *)
  assert (HF : (lo <= f <= hi)%nat /\ (f = hi \/ compareEntry n f c <> Before) /\
               forall i, (lo <= i < f)%nat -> compareEntry n i c <> Prefix).
  { unfold f, findFirst. destruct (lo =? hi)%nat eqn:E; [apply Nat.eqb_eq in E|apply Nat.eqb_neq in E].
    - repeat split; lia || auto.
    - destruct (compareEntry n lo c) eqn:C.
      + destruct (findFirstLoop_spec (hi - lo) lo hi) as (I1 & I2 & I3); auto; try lia.
        repeat split; try lia; auto. intros i Hi. by rewrite I3.
      + rewrite C. repeat split; lia || (by right) || auto.
      + repeat split; try lia; auto. intros i Hi.
        rewrite (monotone_after lo i) by (done || lia). done. }
  destruct HF as (Hf & Cf & Bf).
  assert (HL : (f <= l <= hi)%nat /\ (l = f \/ compareEntry n l c <> After) /\
               (compareEntry n hi c = Before -> l = f) /\
               (compareEntry n hi c <> Before ->
                forall i, (l < i <= hi)%nat -> compareEntry n i c = After)).
  { unfold l, findLast. destruct (f =? hi)%nat eqn:E; [apply Nat.eqb_eq in E|apply Nat.eqb_neq in E].
    - repeat split; lia || auto; intros; lia.
    - destruct (compareEntry n hi c) eqn:C.
      + repeat split; lia || auto; done.
      + rewrite C. repeat split; lia || (right; done) || done || (intros; lia).
      + destruct (findLastLoop_spec (hi - f) f hi) as (I1 & I2 & I3); auto; try lia.
        repeat split; try lia; auto; done. }
  destruct HL as (Hl & Cl & LB & LA).
  destruct ((f =? l)%nat && bool_decide (compareEntry n f c <> Prefix)) eqn:D.
  - apply andb_true_iff in D as [D1 D2]. apply Nat.eqb_eq in D1. apply bool_decide_eq_true in D2.
    intros i Hi CP. destruct (decide (i < f)%nat); [apply (Bf i); done || lia|].
    destruct (decide (i = f)) as [->|]; [done|].
    destruct (decide (compareEntry n hi c = Before)) as [CB|CB].
    + rewrite (monotone_before i hi) in CP by (done || lia). done.
    + rewrite (LA CB i) in CP by lia. done.
  - assert (Pf : compareEntry n f c = Prefix).
    { apply andb_false_iff in D as [D|D]; [|by apply bool_decide_eq_false, dec_stable in D].
      apply Nat.eqb_neq in D. destruct Cf as [Cf|Cf]; [lia|].
      destruct (compareEntry n f c) eqn:C; [done|done|].
      destruct Cl as [Cl|Cl]; [lia|]. by rewrite (monotone_after f l) in Cl by (done || lia). }
    assert (CB : compareEntry n hi c <> Before).
    { intros CB. rewrite (monotone_before f hi) in Pf by (done || lia). done. }
    repeat split; try lia.
    + intros Hi. destruct (compareEntry n i c) eqn:C; [|done|].
      * rewrite (monotone_before f i) in Pf by (done || lia). done.
      * destruct Cl as [Cl|Cl].
        -- assert (i = f) as -> by lia. congruence.
        -- by rewrite (monotone_after i l) in Cl by (done || lia).
    + destruct (decide (i < f)%nat); [exfalso; apply (Bf i); done || lia|lia].
    + destruct (decide (l < i)%nat) as [D'|D']; [|lia]. rewrite (LA CB i) in H1 by lia. done.
Qed.
End BinarySearch.

(** ** Correctness of the search *)

Section Correctness.
Context `{HTMLEntityTableOk}.

Definition inTable (i : nat) : Prop := (i < length entityTable)%nat.

(** Entry [i] has the characters [w] as a prefix. *)
Definition hasPrefix (w : list UChar) (i : nat) : Prop := w `prefix_of` entity (entryAt i).

(** The comparison of an entry with prefix [w] looks at what follows [w]. *)
Definition compareRest (k : list LChar) (c : UChar) : CompareResult :=
  match k with
  | [] => Before
  | x :: _ => if x =? c then Prefix else if x <? c then Before else After
  end.

Lemma compare_rest w k i c :
  entity (entryAt i) = w ++ k -> compareEntry (length w) i c = compareRest k c.
Proof.
  intros Hk. unfold compareEntry, entry_length. rewrite Hk, length_app.
  rewrite app_nth2, Nat.sub_diag by lia. destruct k as [|x k]; simpl.
  - replace (length w + 0 <? length w + 1)%nat with true by (symmetry; apply Nat.ltb_lt; lia). done.
  - replace (length w + S (length k) <? length w + 1)%nat with false
      by (symmetry; apply Nat.ltb_ge; lia). done.
Qed.

Lemma compareRest_mono a b c :
  lex_lt a b ->
  (compareRest a c = After -> compareRest b c = After) /\
  (compareRest b c = Before -> compareRest a c = Before).
Proof.
  destruct a as [|x a], b as [|y b]; simpl; try done.
  intros [L|[-> L]]; [|done]. case_tests; bool_hyps; try done; try lia.
Qed.

Lemma compare_prefix w i c :
  hasPrefix w i -> (compareEntry (length w) i c = Prefix <-> hasPrefix (w ++ [c]) i).
Proof.
  intros [k Hk]. rewrite (compare_rest _ _ _ _ Hk). unfold hasPrefix. rewrite Hk. split.
  - intros HC. apply prefix_app. destruct k as [|x k]; simpl in HC; [done|].
    destruct (Z.eqb_spec x c) as [->|]; [by exists k | destruct (x <? c); done].
  - intros [k' Hk']. rewrite <- app_assoc in Hk'. apply app_inv_head in Hk'. subst k. simpl.
    by rewrite Z.eqb_refl.
Qed.

(** The state after reading [w]: the range is the set of entries with prefix
    [w]; the most recent match is the longest entry that [w] starts with. *)
Definition range_ok (w : list UChar) (s : HTMLEntitySearch) : Prop :=
  match m_first s, m_last s with
  | Some f, Some l =>
      w <> [] -> (f <= l)%nat /\ inTable l /\ forall i, inTable i -> ((f <= i <= l)%nat <-> hasPrefix w i)
  | None, None => forall i, inTable i -> ~ hasPrefix w i
  | _, _ => False
  end.

Definition match_ok (w : list UChar) (m : option nat) : Prop :=
  match m with
  | Some i => inTable i /\ entity (entryAt i) `prefix_of` w /\
      forall j, inTable j -> entity (entryAt j) `prefix_of` w ->
        (length (entity (entryAt j)) <= length (entity (entryAt i)))%nat
  | None => forall j, inTable j -> ~ entity (entryAt j) `prefix_of` w
  end.

Record search_ok (w : list UChar) (s : HTMLEntitySearch) : Prop := {
  search_range : range_ok w s;
  search_match : match_ok w (m_mostRecentMatch s);
  search_length : isEntityPrefix s = true -> m_currentLength s = length w
}.

Lemma range_mono w f l c :
  (forall i, inTable i -> ((f <= i <= l)%nat <-> hasPrefix w i)) -> inTable l ->
  (forall i j, (f <= i <= j)%nat -> (j <= l)%nat ->
    compareEntry (length w) i c = After -> compareEntry (length w) j c = After) /\
  (forall i j, (f <= i <= j)%nat -> (j <= l)%nat ->
    compareEntry (length w) j c = Before -> compareEntry (length w) i c = Before).
Proof.
  unfold inTable. intros HR Hl.
  assert (M : forall i j, (f <= i <= j)%nat -> (j <= l)%nat ->
    (compareEntry (length w) i c = After -> compareEntry (length w) j c = After) /\
    (compareEntry (length w) j c = Before -> compareEntry (length w) i c = Before)).
  { intros i j Hi Hj. destruct (decide (i = j)) as [->|NE]; [done|].
    destruct (proj1 (HR i ltac:(lia)) ltac:(lia)) as [a Ha].
    destruct (proj1 (HR j ltac:(lia)) ltac:(lia)) as [b Hb].
    rewrite (compare_rest _ _ _ _ Ha), (compare_rest _ _ _ _ Hb).
    apply compareRest_mono. apply (lex_lt_app w). rewrite <- Ha, <- Hb. apply table_sorted. lia. }
  split; intros i j Hi Hj; by apply M.
Qed.

Lemma prefix_snoc_iff (a w : list Z) c : a `prefix_of` w ++ [c] <-> a `prefix_of` w \/ a = w ++ [c].
Proof.
  split.
  - intros [k Hk]. destruct k as [|x k _] using rev_ind.
    + right. by rewrite app_nil_r in Hk.
    + left. rewrite app_assoc in Hk. apply app_inj_tail in Hk as [-> _]. by exists k.
  - intros [[k ->]| ->]; [|done]. exists (k ++ [c]). by rewrite app_assoc.
Qed.

Lemma hasPrefix_init w c i : hasPrefix (w ++ [c]) i -> hasPrefix w i.
Proof. intros HP. unfold hasPrefix. transitivity (w ++ [c]); [by apply prefix_app_r|done]. Qed.

Lemma match_kept w c m :
  match_ok w m -> (forall j, inTable j -> entity (entryAt j) <> w ++ [c]) -> match_ok (w ++ [c]) m.
Proof.
  intros HM NE. destruct m as [i|]; simpl in *.
  - destruct HM as (M1 & M2 & M3). repeat split; [done|by apply prefix_app_r|].
    intros j Hj Pj. apply prefix_snoc_iff in Pj as [Pj|Pj]; [by apply M3|by apply NE in Pj].
  - intros j Hj Pj. apply prefix_snoc_iff in Pj as [Pj|Pj]; [by apply (HM j)|by apply NE in Pj].
Qed.

(** The entries with prefix [w] as a range of indices. *)
Definition is_range (w : list UChar) (r : option (nat * nat)) : Prop :=
  match r with
  | None => forall i, inTable i -> ~ hasPrefix w i
  | Some (f, l) => (f <= l)%nat /\ inTable l /\
      forall i, inTable i -> ((f <= i <= l)%nat <-> hasPrefix w i)
  end.

Lemma first_range c :
  is_range [c] (match firstEntryStartingWith c, lastEntryStartingWith c with
                | Some f, Some l => Some (f, l) | _, _ => None end).
Proof.
  pose proof (table_index c) as TI.
  assert (HP : forall i, hasPrefix [c] i <-> head (entity (entryAt i)) = Some c).
  { intros i. unfold hasPrefix. split.
    - intros [k ->]. done.
    - destruct (entity (entryAt i)); simpl; intros; simplify_eq. by eexists. }
  destruct (firstEntryStartingWith c), (lastEntryStartingWith c); simpl; try done.
  - destruct TI as [TI1 TI2]. split; [lia|]. split; [unfold inTable; lia|].
    intros i Hi. rewrite HP. by apply TI2.
  - intros i Hi. rewrite HP. by apply TI.
Qed.

Lemma next_range w f l c :
  is_range w (Some (f, l)) ->
  is_range (w ++ [c])
    (let f' := findFirst (length w) f l c in
     let l' := findLast (length w) f' l c in
     if (f' =? l')%nat && bool_decide (compareEntry (length w) f' c <> Prefix)
     then None else Some (f', l')).
Proof.
  intros (Hfl & Hl & HI). destruct (range_mono w f l c HI Hl) as [MA MB].
  pose proof (find_range (length w) c f l MA MB Hfl) as FR. cbv zeta in *.
  destruct ((_ =? _)%nat && _); simpl.
  - intros i Hi HPi. pose proof (hasPrefix_init _ _ _ HPi) as HPw.
    apply (FR i); [by apply HI|]. by apply compare_prefix.
  - destruct FR as (F1 & F2 & F3 & F4). unfold inTable in *. split; [done|]. split; [lia|].
    intros i Hi. split.
    + intros HIr. apply compare_prefix; [apply HI; [done|lia] | apply F4; [lia|done]].
    + intros HPi. pose proof (hasPrefix_init _ _ _ HPi) as HPw.
      apply F4; [by apply HI | by apply compare_prefix].
Qed.

(** The first entry of the range is the only one that can be [w] itself. *)
Lemma range_first_match w f l m :
  is_range w (Some (f, l)) ->
  (forall v c, w = v ++ [c] -> match_ok v m) -> w <> [] ->
  match_ok w (if (entry_length (entryAt f) =? length w)%nat then Some f else m).
Proof.
  intros (R1 & R2 & R3) HM Hw. unfold inTable in *.
  destruct (proj1 (R3 f ltac:(lia)) ltac:(lia)) as [k Hk].
  destruct (_ =? _)%nat eqn:EQ; unfold entry_length in EQ; rewrite Hk, length_app in EQ.
  - apply Nat.eqb_eq in EQ. assert (k = []) as -> by (destruct k; simpl in *; [done|lia]).
    rewrite app_nil_r in Hk. simpl. rewrite Hk. split; [unfold inTable; lia|]. split; [done|].
    intros j Hj Pj. by apply prefix_length.
  - apply Nat.eqb_neq in EQ. destruct w as [|c v _] using rev_ind; [done|].
    apply match_kept; [by eapply HM|]. intros j Hj Ej. unfold inTable in Hj.
    assert (Pj : hasPrefix (v ++ [c]) j) by (unfold hasPrefix; by rewrite Ej).
    apply R3 in Pj; [|done]. destruct (decide (j = f)) as [->|].
    + rewrite Ej, <- (app_nil_r (v ++ [c])) in Hk at 1. apply app_inv_head in Hk. subst k.
      simpl in EQ. lia.
    + pose proof (table_sorted f j ltac:(lia)) as LT. rewrite Hk, Ej in LT.
      rewrite <- (app_nil_r (v ++ [c])) in LT at 2. apply lex_lt_app in LT. by destruct k.
Qed.

(** One [advance] on a state that has not failed. *)
Lemma es_advance_ok w s c :
  search_ok w s -> isEntityPrefix s = true -> search_ok (w ++ [c]) (es_advance c s).
Proof.
  intros [HR HM HL] HP. specialize (HL HP). unfold range_ok in HR.
  destruct (m_first s) as [f|] eqn:EF; [|unfold isEntityPrefix in HP; by rewrite EF in HP].
  destruct (m_last s) as [l|] eqn:EL; [|done].
  unfold es_advance. rewrite EF, EL, HL.
  match goal with |- search_ok _ (match ?r with _ => _ end) =>
    assert (HRange : is_range (w ++ [c]) r) end.
  { destruct w as [|x w]; [apply first_range|]. apply next_range. by apply HR. }
  destruct (if (length w =? 0)%nat then _ else _) as [[f' l']|].
  - pose proof (range_first_match _ _ _ (m_mostRecentMatch s) HRange) as HF.
    rewrite length_app, Nat.add_1_r in HF.
    assert (HM' : match_ok (w ++ [c]) (if (entry_length (entryAt f') =? S (length w))%nat
                                       then Some f' else m_mostRecentMatch s)).
    { apply HF; [|by destruct w]. intros v d [-> _]%app_inj_tail. done. }
    assert (HL' : S (length w) = length (w ++ [c])) by (rewrite length_app; simpl; lia).
    destruct (_ =? _)%nat; (split; [intros _; exact HRange | exact HM' | intros _; exact HL']).
  - split; [done| |done]. simpl. apply match_kept; [done|].
    intros j Hj Ej. apply (HRange j Hj). unfold hasPrefix. by rewrite Ej.
Qed.

Lemma new_search_ok : search_ok [] newEntitySearch.
Proof.
  split; [done| |done]. simpl. intros j Hj [k Hk].
  pose proof (table_length j Hj) as HL. unfold entry_length in HL.
  destruct (entity (entryAt j)) eqn:E; [simpl in HL; lia|done].
Qed.

(** Reading a word: the caller stops at the first failure. *)
Definition es_read (w : list UChar) : HTMLEntitySearch :=
  fold_left (fun s c => if isEntityPrefix s then es_advance c s else s) w newEntitySearch.

Lemma es_read_snoc w c :
  es_read (w ++ [c]) = if isEntityPrefix (es_read w) then es_advance c (es_read w) else es_read w.
Proof. unfold es_read. by rewrite fold_left_app. Qed.

Lemma es_read_ok w :
  (isEntityPrefix (es_read w) = true -> search_ok w (es_read w)) /\
  (isEntityPrefix (es_read w) = false -> w <> [] /\ forall i, inTable i -> ~ hasPrefix w i).
Proof.
  induction w as [|c w IH] using rev_ind; [split; [intros; apply new_search_ok|done]|].
  rewrite es_read_snoc. destruct (isEntityPrefix (es_read w)) eqn:E.
  - destruct IH as [IH _]. pose proof (es_advance_ok _ _ c (IH eq_refl) E) as HA.
    split; [done|]. intros HF. split; [by destruct w|]. pose proof (search_range _ _ HA) as HR.
    unfold range_ok, isEntityPrefix in *.
    by destruct (m_first (es_advance c (es_read w))), (m_last (es_advance c (es_read w))).
  - rewrite E. split; [done|]. intros _. split; [by destruct w|].
    intros i Hi HP. by apply (proj2 (proj2 IH eq_refl) i Hi), (hasPrefix_init _ c).
Qed.

(** The incremental binary search decides the prefix relation with the
    entity table: reading a non-empty word keeps the search alive exactly when
    some entity starts with that word, and the range it then holds is exactly
    the entries that do. *)
Theorem entity_search_range (w : list UChar) :
  w <> [] ->
  match m_first (es_read w), m_last (es_read w) with
  | Some f, Some l => (f <= l)%nat /\ inTable l /\
      forall i, inTable i -> ((f <= i <= l)%nat <-> hasPrefix w i)
  | None, _ | _, None => forall i, inTable i -> ~ hasPrefix w i
  end.
Proof.
  intros Hw. destruct (es_read_ok w) as [H1 H2].
  unfold isEntityPrefix in *. destruct (m_first (es_read w)) as [f|] eqn:E.
  - pose proof (search_range _ _ (H1 eq_refl)) as HR. unfold range_ok in HR. rewrite E in HR.
    destruct (m_last (es_read w)); [by apply HR|done].
  - by apply H2.
Qed.

(** While the search is alive, [mostRecentMatch] is the longest entity the
    characters read start with (none if there is none), and [currentLength]
    is the number of characters read. *)
Theorem entity_search_longest_match (w : list UChar) :
  isEntityPrefix (es_read w) = true ->
  m_currentLength (es_read w) = length w /\
  match m_mostRecentMatch (es_read w) with
  | Some i => inTable i /\ entity (entryAt i) `prefix_of` w /\
      forall j, inTable j -> entity (entryAt j) `prefix_of` w ->
        (length (entity (entryAt j)) <= length (entity (entryAt i)))%nat
  | None => forall j, inTable j -> ~ entity (entryAt j) `prefix_of` w
  end.
Proof.
  intros E. destruct (es_read_ok w) as [H1 _]. destruct (H1 E) as [_ HM HL]. auto.
Qed.
End Correctness.

(** ** A sample table

    Five lines of [HTMLEntityNames.in]; it shows that the guarantees of the
    generator can be met and lets the definitions be evaluated. *)

Module SampleTable.
Definition sampleEntries : list HTMLEntityTableEntry :=
  [mkEntry (str "amp") 38 0; mkEntry (str "amp;") 38 0; mkEntry (str "lt;") 60 0;
   mkEntry (str "not") 172 0; mkEntry (str "notin;") 8713 0].

Definition sampleFirst (c : UChar) : option nat :=
  if c =? 97 then Some 0%nat else if c =? 108 then Some 2%nat
  else if c =? 110 then Some 3%nat else None.
Definition sampleLast (c : UChar) : option nat :=
  if c =? 97 then Some 1%nat else if c =? 108 then Some 2%nat
  else if c =? 110 then Some 4%nat else None.

#[global] Instance sampleTable : HTMLEntityTable := {
  entityTable := sampleEntries;
  firstEntryStartingWith := sampleFirst;
  lastEntryStartingWith := sampleLast
}.

Lemma sample_index i :
  (i < 5)%nat -> i = 0%nat \/ i = 1%nat \/ i = 2%nat \/ i = 3%nat \/ i = 4%nat.
Proof. lia. Qed.

#[global] Instance sampleTable_ok : HTMLEntityTableOk.
Proof.
  split.
  - intros i j [Hij Hj]. change (length entityTable) with 5%nat in Hj.
    destruct (sample_index i ltac:(lia)) as [->|[->|[->|[->| ->]]]];
      destruct (sample_index j Hj) as [->|[->|[->|[->| ->]]]]; try lia; vm_compute; tauto.
  - intros c. simpl. unfold sampleFirst, sampleLast.
    destruct (Z.eqb_spec c 97); [|destruct (Z.eqb_spec c 108); [|destruct (Z.eqb_spec c 110)]];
      subst; try (split; [vm_compute; lia|]);
      intros i Hi; destruct (sample_index i Hi) as [->|[->|[->|[->| ->]]]];
      vm_compute; try (split; congruence || lia); congruence.
  - intros i Hi. destruct (sample_index i Hi) as [->|[->|[->|[->| ->]]]]; vm_compute; lia.
  - intros i Hi. destruct (sample_index i Hi) as [->|[->|[->|[->| ->]]]];
      vm_compute; repeat constructor; lia.
  - intros i Hi. destruct (sample_index i Hi) as [->|[->|[->|[->| ->]]]]; simpl; lia.
Qed.
End SampleTable.

Lemma entity_search_range_witness :
  m_first (@es_read SampleTable.sampleTable (str "no")) = Some 3%nat /\
  m_last (@es_read SampleTable.sampleTable (str "no")) = Some 4%nat /\
  (forall i, (i < 5)%nat ->
     ((3 <= i <= 4)%nat <-> @hasPrefix SampleTable.sampleTable (str "no") i)).
Proof.
  split; [reflexivity|]. split; [reflexivity|].
  exact (proj2 (proj2 (@entity_search_range SampleTable.sampleTable SampleTable.sampleTable_ok
    (str "no") ltac:(discriminate)))).
Defined.

Lemma entity_search_longest_match_witness :
  m_mostRecentMatch (@es_read SampleTable.sampleTable (str "noti")) = Some 3%nat /\
  m_currentLength (@es_read SampleTable.sampleTable (str "noti")) = 4%nat.
Proof.
  split; [reflexivity|].
  exact (proj1 (@entity_search_longest_match SampleTable.sampleTable SampleTable.sampleTable_ok
    (str "noti") eq_refl)).
Defined.
