(* ===== verification/CharacterReference.v ===== *)
(** * Character references

    [xml/parser/CharacterReferenceParserInlines.h] instantiated with the
    [HTMLEntityParser] of [html/parser/HTMLEntityParser.cpp]: what the
    tokenizer does after an ampersand.  The definitions are generic in the
    character source and in the entity table. *)

From S2P Require Import Prelude CharacterSource HTMLEntitySearch.
Open Scope Z_scope.

(** ** UTF-16 *)

(** [StringBuilder::append(UChar32)]: the code units it appends. *)
Definition appendUChar32 (c : UChar32) : list UChar :=
  if U_IS_BMP c then [c mod 2 ^ 16] else [U16_LEAD c; U16_TRAIL c].

(** ** [HTMLEntityParser] *)

Definition windowsLatin1ExtensionArray : list UChar :=
  [8364; 129; 8218; 402; 8222; 8230; 8224; 8225;
   710; 8240; 352; 8249; 338; 141; 381; 143;
   144; 8216; 8217; 8220; 8221; 8226; 8211; 8212;
   732; 8482; 353; 8250; 339; 157; 382; 376].

Definition isAlphaNumeric (cc : UChar) : bool :=
  ((cc >=? "0"%uchar) && (cc <=? "9"%uchar)) || ((cc >=? "a"%uchar) && (cc <=? "z"%uchar))
  || ((cc >=? "A"%uchar) && (cc <=? "Z"%uchar)).

(** The result is a [UChar]. *)
Definition adjustEntity (value : UChar32) : UChar :=
  if negb (Z.land value (Z.lnot 31) =? 128) then value mod 2 ^ 16
  else nth (Z.to_nat (value - 128)) windowsLatin1ExtensionArray 0.

Definition legalEntityFor (value : UChar32) : UChar32 :=
  if (value =? 0) || (value >? 1114111) || ((value >=? 55296) && (value <=? 57343))
  then replacementCharacter
  else if U_IS_BMP value then adjustEntity value
  else value.

Definition acceptMalformed : bool := true.

Definition isHexDigit (cc : UChar) : bool :=
  ((cc >=? "0"%uchar) && (cc <=? "9"%uchar)) || ((cc >=? "a"%uchar) && (cc <=? "f"%uchar))
  || ((cc >=? "A"%uchar) && (cc <=? "F"%uchar)).

(** What [consumeCharacterReference] reports through its return value and its
    reference parameters, and the source it leaves. *)
Record EntityResult (S : Type) := mkEntityResult {
  er_success : bool;
  er_decoded : list UChar;
  er_notEnoughCharacters : bool;
  er_source : S
}.
Arguments mkEntityResult {S} _ _ _ _.
Arguments er_success {S} _.
Arguments er_decoded {S} _.
Arguments er_notEnoughCharacters {S} _.
Arguments er_source {S} _.

(** [EntityState] of [consumeCharacterReference]. *)
Inductive EntityState :=
| ESInitial | ESNumber | ESMaybeHexLowerCaseX | ESMaybeHexUpperCaseX | ESHex | ESDecimal | ESNamed.

Section CharacterReference.
Context {S : Type} `{CharacterSource S} `{HTMLEntityTable}.

Definition unconsumeCharacters (source : S) (consumedCharacters : list UChar) : S :=
  match consumedCharacters with
  | [c] => push c source
  | [c1; c2] => push c2 (push c1 source)
  | _ => prependString consumedCharacters source
  end.

(** The reading loop of [consumeNamedEntity]: the last character looked at,
    the search, the consumed characters and the source.  Every iteration
    consumes a character, so the characters ahead bound it. *)
Fixpoint namedEntityLoop (fuel : nat) (cc : UChar) (search : HTMLEntitySearch)
    (consumed : list UChar) (source : S) : UChar * HTMLEntitySearch * list UChar * S :=
  match fuel with
  | O => (cc, search, consumed, source)
  | Datatypes.S fuel =>
      if isEmpty source then (cc, search, consumed, source)
      else
        let cc := currentChar source in
        let search := es_advance cc search in
        if negb (isEntityPrefix search) then (cc, search, consumed, source)
        else namedEntityLoop fuel cc search (consumed ++ [cc]) (advance source)
  end.

(** Re-reading the characters of the match. *)
Fixpoint consumeCount (count : nat) (source : S) : list UChar * S :=
  match count with
  | O => ([], source)
  | Datatypes.S count =>
      let cc := currentChar source in
      let '(cs, source) := consumeCount count (advance source) in (cc :: cs, source)
  end.

Definition consumeNamedEntity (source : S) (additionalAllowedCharacter : UChar) (cc : UChar)
    : EntityResult S :=
  let '(cc, search, consumed, source) :=
    namedEntityLoop (charactersAhead source) cc newEntitySearch [] source in
  if isEmpty source
  then mkEntityResult false [] true (unconsumeCharacters source consumed)
  else
    match m_mostRecentMatch search with
    | None => mkEntityResult false [] false (unconsumeCharacters source consumed)
    | Some i =>
        let e := entryAt i in
        let '(cc, consumed, source) :=
          if negb (entry_length e =? m_currentLength search)%nat then
            let '(consumed, source) :=
              consumeCount (entry_length e) (unconsumeCharacters source consumed) in
            (currentChar source, consumed, source)
          else (cc, consumed, source) in
        if (lastCharacter e =? ";"%uchar) || (additionalAllowedCharacter =? 0)
           || negb (isAlphaNumeric cc || (cc =? "="%uchar))
        then mkEntityResult true
               (appendUChar32 (firstValue e)
                ++ (if negb (secondValue e =? 0) then appendUChar32 (secondValue e) else []))
               false source
        else mkEntityResult false [] false (unconsumeCharacters source consumed)
    end.

Variable additionalAllowedCharacter : UChar.

(** [consumeCharacterReference].  A [continue] that only changes the state is
    followed by an iteration that consumes a character or returns, at most two
    of them in a row, which bounds the loop by the characters ahead plus
    three. *)
Fixpoint consumeLoop (fuel : nat) (entityState : EntityState) (result : UChar32)
    (consumed : list UChar) (source : S) : EntityResult S :=
  match fuel with
  | O => mkEntityResult false [] true (unconsumeCharacters source consumed)
  | Datatypes.S fuel =>
      if isEmpty source
      then mkEntityResult false [] true (unconsumeCharacters source consumed)
      else
        let cc := currentChar source in
        let next entityState result :=
          consumeLoop fuel entityState result (consumed ++ [cc]) (advance source) in
        let continue entityState := consumeLoop fuel entityState result consumed source in
        let fail source := mkEntityResult false [] false source in
        let finish source := mkEntityResult true (appendUChar32 (legalEntityFor result)) false source in
        match entityState with
        | ESInitial =>
            if (cc =? cTAB) || (cc =? cLF) || (cc =? cFF) || (cc =? " "%uchar)
               || (cc =? "<"%uchar) || (cc =? "&"%uchar) then fail source
            else if negb (additionalAllowedCharacter =? 0) && (cc =? additionalAllowedCharacter)
            then fail source
            else if cc =? "#"%uchar then next ESNumber result
            else if ((cc >=? "a"%uchar) && (cc <=? "z"%uchar))
                    || ((cc >=? "A"%uchar) && (cc <=? "Z"%uchar)) then continue ESNamed
            else fail source
        | ESNumber =>
            if cc =? "x"%uchar then next ESMaybeHexLowerCaseX result
            else if cc =? "X"%uchar then next ESMaybeHexUpperCaseX result
            else if (cc >=? "0"%uchar) && (cc <=? "9"%uchar) then continue ESDecimal
            else fail (push "#"%uchar source)
        | ESMaybeHexLowerCaseX =>
            if isHexDigit cc then continue ESHex
            else fail (push "x"%uchar (push "#"%uchar source))
        | ESMaybeHexUpperCaseX =>
            if isHexDigit cc then continue ESHex
            else fail (push "X"%uchar (push "#"%uchar source))
        | ESHex =>
            if (cc >=? "0"%uchar) && (cc <=? "9"%uchar)
            then next ESHex (int32 (result * 16 + cc - "0"%uchar))
            else if (cc >=? "a"%uchar) && (cc <=? "f"%uchar)
            then next ESHex (int32 (result * 16 + 10 + cc - "a"%uchar))
            else if (cc >=? "A"%uchar) && (cc <=? "F"%uchar)
            then next ESHex (int32 (result * 16 + 10 + cc - "A"%uchar))
            else if cc =? ";"%uchar then finish (advance source)
            else if acceptMalformed then finish source
            else fail (unconsumeCharacters source consumed)
        | ESDecimal =>
            if (cc >=? "0"%uchar) && (cc <=? "9"%uchar)
            then next ESDecimal (int32 (result * 10 + cc - "0"%uchar))
            else if cc =? ";"%uchar then finish (advance source)
            else if acceptMalformed then finish source
            else fail (unconsumeCharacters source consumed)
        | ESNamed => consumeNamedEntity source additionalAllowedCharacter cc
        end
  end.

Definition consumeHTMLEntity (source : S) : EntityResult S :=
  consumeLoop (charactersAhead source + 3) ESInitial 0 [] source.
End CharacterReference.

(** ** Transport along a refinement of sources *)

Definition er_related {S : Type} (R : S -> ListSource -> Prop)
    (x : EntityResult S) (y : EntityResult ListSource) : Prop :=
  er_success x = er_success y /\ er_decoded x = er_decoded y /\
  er_notEnoughCharacters x = er_notEnoughCharacters y /\ R (er_source x) (er_source y).

Lemma er_related_intro {S} (R : S -> ListSource -> Prop) b d n s l :
  R s l -> er_related R (mkEntityResult b d n s) (mkEntityResult b d n l).
Proof. done. Qed.

(** A live search has only read characters of entities, none of which is NUL. *)
Lemma live_search_no_nul `{HTMLEntityTableOk} w s :
  search_ok w s -> isEntityPrefix s = true -> w <> [] -> Forall (fun c => c <> 0) w.
Proof.
  intros [HR _ _] HP Hw. unfold range_ok, isEntityPrefix in *.
  destruct (m_first s) as [f|], (m_last s) as [l|]; try done.
  destruct (HR Hw) as (H1 & H2 & H3). unfold inTable in *.
  destruct (proj1 (H3 f ltac:(lia)) ltac:(lia)) as [k Hk].
  pose proof (table_no_nul f ltac:(lia)) as HN. rewrite Hk in HN. by apply Forall_app in HN as [? _].
Qed.

Lemma es_advance_failed `{HTMLEntityTable} c s :
  isEntityPrefix (es_advance c s) = false ->
  m_mostRecentMatch (es_advance c s) = m_mostRecentMatch s.
Proof.
  unfold es_advance. destruct (if (_ =? 0)%nat then _ else _) as [[f l]|]; [|done].
  by destruct (_ =? _)%nat.
Qed.

(** On exit of the reading loop the most recent match is the longest entity
    the consumed characters start with. *)
Lemma namedEntityLoop_search {S} `{CharacterSource S} `{HTMLEntityTableOk} fuel cc search consumed (s : S) :
  search_ok consumed search -> isEntityPrefix search = true ->
  let '(_, search1, consumed1, _) := namedEntityLoop fuel cc search consumed s in
  match_ok consumed1 (m_mostRecentMatch search1).
Proof.
  revert cc search consumed s. induction fuel as [|fuel IH]; intros cc search consumed s HS HP; simpl.
  - apply HS.
  - destruct (isEmpty s); [apply HS|].
    destruct (isEntityPrefix (es_advance (currentChar s) search)) eqn:EP; simpl.
    + apply IH; [by apply es_advance_ok|done].
    + rewrite es_advance_failed by done. apply HS.
Qed.

Section ReRead.
Context `{CaseFolding}.

Lemma consumeCount_take n (l : ListSource) :
  (n <= length (ls_ahead l))%nat -> fst (consumeCount n l) = take n (ls_ahead l).
Proof.
  revert l. induction n as [|n IH]; intros l Hn; simpl; [done|].
  pose proof (ls_ahead_advance l) as EA. specialize (IH (ls_advance l)). rewrite EA in IH.
  change (advance l) with (ls_advance l).
  destruct (consumeCount n (ls_advance l)) as [cs l']. simpl in *.
  destruct (ls_ahead l) as [|a cs']; simpl in *; [lia|]. rewrite IH by lia. done.
Qed.

Lemma consumeCount_no_nul n (l : ListSource) w :
  Forall (fun c => c <> 0) (ls_pushed l) -> Forall (fun c => c <> 0) w -> (n <= length w)%nat ->
  Forall (fun c => c <> 0) (fst (consumeCount n (unconsumeCharacters l w))).
Proof.
  intros HP HW Hn.
  assert (exists v rest, ls_ahead (unconsumeCharacters l w) = v ++ rest /\
            Forall (fun c => c <> 0) v /\ (length w <= length v)%nat) as (v & rest & HA & HV & HL).
  { unfold unconsumeCharacters, ls_ahead.
    destruct w as [|c1 [|c2 [|c3 w]]]; simpl.
    - exists (ls_pushed l), (ls_chars l). repeat split; simpl; done || lia.
    - inversion HW; subst. unfold ls_push. destruct (ls_pushed l) as [|a [|b p]]; simpl;
        [exists [c1], (ls_chars l)|exists [a; c1], (ls_chars l)|exists [a; c1], (ls_chars l)];
        (split; [done|]); inversion HP; split; [auto|simpl; lia|auto|simpl; lia|auto|simpl; lia].
    - inversion HW as [|? ? ? HW']; inversion HW'; subst.
      unfold ls_push. destruct (ls_pushed l) as [|a [|b p]]; simpl;
        [exists [c1; c2], (ls_chars l)|exists [a; c2], (ls_chars l)|exists [a; c2], (ls_chars l)];
        (split; [done|]); inversion HP; split; [auto|simpl; lia|auto|simpl; lia|auto|simpl; lia].
    - exists (ls_pushed l ++ c1 :: c2 :: c3 :: w), (ls_chars l). rewrite <- app_assoc. split; [done|].
      split; [by apply Forall_app|]. rewrite length_app. simpl. lia. }
  rewrite consumeCount_take by (rewrite HA, length_app; lia).
  rewrite HA, take_app_le by lia. by apply Forall_take.
Qed.
End ReRead.

Section Transport.
Context {S : Type} `{CaseFolding} `{!CharacterSource S} (R : S -> ListSource -> Prop)
  `{!CharacterSourceRefines S R} `{HTMLEntityTableOk}.

Lemma unconsume_refines s l w :
  R s l -> Forall (fun c => c <> 0) w -> R (unconsumeCharacters s w) (unconsumeCharacters l w).
Proof.
  intros HR HW. unfold unconsumeCharacters.
  destruct w as [|c1 [|c2 [|c3 w]]]; [by apply ref_prepend| | |by apply ref_prepend].
  - inversion HW. by apply ref_push.
  - inversion HW as [|? ? ? HW']. inversion HW'. subst. apply ref_push; [by apply ref_push|done].
Qed.

Lemma namedEntityLoop_refines fuel cc search consumed s l :
  R s l -> search_ok consumed search -> isEntityPrefix search = true ->
  let '(cc1, search1, consumed1, s1) := namedEntityLoop fuel cc search consumed s in
  let '(cc2, search2, consumed2, l1) := namedEntityLoop fuel cc search consumed l in
  cc1 = cc2 /\ search1 = search2 /\ consumed1 = consumed2 /\ R s1 l1 /\
  (consumed1 = [] \/ Forall (fun c => c <> 0) consumed1).
Proof.
  revert cc search consumed s l. induction fuel as [|fuel IH]; intros cc search consumed s l HR HS HP.
  - simpl. repeat split; try done. destruct consumed; [by left|right].
    by eapply live_search_no_nul.
  - cbn [namedEntityLoop]. rewrite (ref_isEmpty _ _ HR), (ref_currentChar _ _ HR).
    assert (HN : consumed = [] \/ Forall (fun c => c <> 0) consumed).
    { destruct consumed; [by left|right]. by eapply live_search_no_nul. }
    destruct (isEmpty l); [by repeat split|]. cbv zeta.
    destruct (isEntityPrefix (es_advance (currentChar l) search)) eqn:EP; simpl negb; cbv iota;
      [|by repeat split].
    apply IH; [by apply ref_advance | by apply es_advance_ok | done].
Qed.

Lemma consumeCount_refines n s l :
  R s l -> fst (consumeCount n s) = fst (consumeCount n l) /\
           R (snd (consumeCount n s)) (snd (consumeCount n l)).
Proof.
  revert s l. induction n as [|n IH]; intros s l HR; cbn [consumeCount]; [done|].
  destruct (IH _ _ (ref_advance _ _ HR)) as [I1 I2].
  destruct (consumeCount n (advance s)), (consumeCount n (advance l)); cbn [fst snd] in *.
  rewrite (ref_currentChar _ _ HR), I1. by split.
Qed.

Lemma consumeNamedEntity_refines s l a cc :
  R s l -> er_related R (consumeNamedEntity s a cc) (consumeNamedEntity l a cc).
Proof.
  intros HR. unfold consumeNamedEntity. rewrite (ref_charactersAhead _ _ HR).
  pose proof (namedEntityLoop_refines (charactersAhead l) cc newEntitySearch [] s l HR
    new_search_ok eq_refl) as HL.
  destruct (namedEntityLoop _ cc newEntitySearch [] s) as [[[cc1 search1] consumed1] s1].
  pose proof (namedEntityLoop_search (charactersAhead l) cc newEntitySearch [] l
    new_search_ok eq_refl) as HLS.
  destruct (namedEntityLoop _ cc newEntitySearch [] l) as [[[cc2 search2] consumed2] l1].
  destruct HL as (-> & -> & -> & HR1 & HN).
  rewrite (ref_isEmpty _ _ HR1).
  assert (HN' : Forall (fun c => c <> 0) consumed2) by (by destruct HN as [->|]).
  pose proof (unconsume_refines _ _ _ HR1 HN') as HRU.
  destruct (isEmpty l1) eqn:EE; [by apply er_related_intro|].
  destruct (m_mostRecentMatch search2) as [i|]; [|by apply er_related_intro].
  destruct HLS as (_ & HLS%prefix_length & _).
  destruct (entry_length (entryAt i) =? m_currentLength search2)%nat; simpl negb; cbv iota.
  - destruct (_ || _); by apply er_related_intro.
  - destruct (consumeCount_refines (entry_length (entryAt i)) _ _ HRU) as [C1 C2].
    pose proof (consumeCount_no_nul (entry_length (entryAt i)) l1 consumed2 (ref_pushed _ _ HR1) HN') as C3.
    destruct (consumeCount _ (unconsumeCharacters s1 _)) as [cs1 s2].
    destruct (consumeCount _ (unconsumeCharacters l1 _)) as [cs2 l2]. simpl in *. subst cs1. specialize (C3 HLS).
    rewrite (ref_currentChar _ _ C2). destruct (_ || _); [by apply er_related_intro|].
    apply er_related_intro. by apply unconsume_refines.
Qed.
Lemma Forall_snoc_no_nul w (c : UChar) :
  Forall (fun c => c <> 0) w -> c <> 0 -> Forall (fun c => c <> 0) (w ++ [c]).
Proof. intros HW HC. apply Forall_app. auto. Qed.

Lemma isHexDigit_no_nul c : isHexDigit c = true -> c <> 0.
Proof. intros HC ->. done. Qed.

Lemma consumeLoop_refines a fuel st result consumed s l :
  R s l -> Forall (fun c => c <> 0) consumed ->
  er_related R (consumeLoop a fuel st result consumed s) (consumeLoop a fuel st result consumed l).
Proof.
  revert st result consumed s l.
  induction fuel as [|fuel IH]; intros st result consumed s l HR HC; cbn [consumeLoop].
  - apply er_related_intro. by apply unconsume_refines.
  - rewrite (ref_isEmpty _ _ HR), (ref_currentChar _ _ HR).
    destruct (isEmpty l); [apply er_related_intro; by apply unconsume_refines|].
    set (cc := currentChar l). clearbody cc. pose proof (ref_advance _ _ HR) as HA.
    assert (HX : forall c, c <> 0 -> R (push c (push "#"%uchar s)) (push c (push "#"%uchar l))).
    { intros c Hc. apply ref_push; [apply ref_push; [done|lia]|done]. }
    destruct st; cbv zeta;
      repeat match goal with
      | |- context [if ?b then _ else _] =>
          lazymatch b with
          | acceptMalformed => change acceptMalformed with true; cbv iota
          | _ => let E := fresh "E" in destruct b eqn:E; cbv iota
          end
      end;
      try (by apply er_related_intro);
      try (apply er_related_intro; first [apply HX; lia | apply ref_push; [done|lia]]);
      try (by apply consumeNamedEntity_refines);
      (apply IH; [done|]); try done; apply Forall_snoc_no_nul; try done; intros ->; done.
Qed.

Lemma consumeHTMLEntity_refines a s l :
  R s l -> er_related R (consumeHTMLEntity a s) (consumeHTMLEntity a l).
Proof.
  intros HR. unfold consumeHTMLEntity. rewrite (ref_charactersAhead _ _ HR). by apply consumeLoop_refines.
Qed.
End Transport.
