(* ===== verification/CharacterReferenceSpec.v ===== *)
(** * What a character reference means

    A specification of character references on plain lists of characters
    ([reference]), and the theorem that [consumeHTMLEntity] with its entity
    search, its backtracking through the source and its two push-back slots
    computes it. *)

From stdpp Require Import sets.
From S2P Require Import Prelude CharacterSource HTMLEntitySearch CharacterReference.
Open Scope Z_scope.

(** ** The specification *)

(** The longest prefix that satisfies [p], and the rest. *)
Fixpoint span {A} (p : A -> bool) (l : list A) : list A * list A :=
  match l with
  | [] => ([], [])
  | x :: l' => if p x then let '(a, b) := span p l' in (x :: a, b) else ([], l)
  end.

Lemma span_app {A} (p : A -> bool) l : fst (span p l) ++ snd (span p l) = l.
Proof.
  induction l as [|x l IH]; simpl; [done|].
  destruct (p x); [|done]. destruct (span p l). simpl in *. by rewrite IH.
Qed.

(** The text after an ampersand may start a reference that more input can
    complete, is no reference, or starts with one of [n] characters that
    stands for [decoded]. *)
Inductive Reference :=
| NeedMore
| NoReference
| Decoded (n : nat) (decoded : list UChar).

Definition decDigit (c : UChar) : Z := c - "0"%uchar.

Definition hexDigit (c : UChar) : Z :=
  if isASCIIDigit c then c - "0"%uchar
  else if isASCIILower c then 10 + c - "a"%uchar
  else 10 + c - "A"%uchar.

(** Digits accumulate in a signed 32 bit integer. *)
Definition digitsValue (base : Z) (digit : UChar -> Z) (r : UChar32) (ds : list UChar) : UChar32 :=
  fold_left (fun r c => int32 (r * base + digit c)) ds r.

(** A number after [skipped] characters ("#", "#x"). *)
Definition numericReference (isDigit : UChar -> bool) (base : Z) (digit : UChar -> Z)
    (skipped : nat) (cs : list UChar) : Reference :=
  let '(ds, rest) := span isDigit cs in
  match rest, ds with
  | [], _ => NeedMore
  | _ :: _, [] => NoReference
  | c :: _, _ :: _ =>
      Decoded (skipped + length ds + (if c =? ";"%uchar then 1 else 0))
        (appendUChar32 (legalEntityFor (digitsValue base digit 0 ds)))
  end.

Section Spec.
Context `{HTMLEntityTable}.

Definition isPrefixOfEntity (w : list UChar) : bool :=
  existsb (fun e => bool_decide (w `prefix_of` entity e)) entityTable.

(** The entry with the longest name that [cs] starts with. *)
Definition longestMatch (cs : list UChar) : option HTMLEntityTableEntry :=
  fold_left (fun best e =>
    if bool_decide (entity e `prefix_of` cs) then
      match best with
      | Some b => if (entry_length b <? entry_length e)%nat then Some e else best
      | None => Some e
      end
    else best) entityTable None.

Definition entityValue (e : HTMLEntityTableEntry) : list UChar :=
  appendUChar32 (firstValue e)
  ++ (if negb (secondValue e =? 0) then appendUChar32 (secondValue e) else []).

(** In an attribute ([a] is not NUL) a name without semicolon must not be
    followed by a letter, a digit or an equals sign. *)
Definition namedReference (a : UChar) (cs : list UChar) : Reference :=
  if isPrefixOfEntity cs then NeedMore
  else match longestMatch cs with
       | None => NoReference
       | Some e =>
           let next := nth (entry_length e) cs 0 in
           if (lastCharacter e =? ";"%uchar) || (a =? 0)
              || negb (isAlphaNumeric next || (next =? "="%uchar))
           then Decoded (entry_length e) (entityValue e)
           else NoReference
       end.

Definition isReferenceLetter (c : UChar) : bool :=
  ((c >=? "a"%uchar) && (c <=? "z"%uchar)) || ((c >=? "A"%uchar) && (c <=? "Z"%uchar)).

Definition reference (a : UChar) (cs : list UChar) : Reference :=
  match cs with
  | [] => NeedMore
  | c :: cs' =>
      if c =? "#"%uchar then
        match cs' with
        | [] => NeedMore
        | x :: cs'' =>
            if (x =? "x"%uchar) || (x =? "X"%uchar)
            then numericReference isHexDigit 16 hexDigit 2 cs''
            else numericReference isASCIIDigit 10 decDigit 1 cs'
        end
      else if isReferenceLetter c then namedReference a cs
      else NoReference
  end.
End Spec.

(** ** The numeric loops *)

Section Loops.
Context `{CaseFolding} `{HTMLEntityTableOk}.

(** Characters that were read are ahead again. *)
Lemma unconsume_ahead cs cl n w :
  let l := unconsumeCharacters (mkListSource [] cs cl n) w in
  ls_ahead l = w ++ cs /\ ls_closed l = cl /\ ls_consumed l = n - Z.of_nat (length w) /\
  ls_pushed l = (if (length w <=? 2)%nat then w else []).
Proof. destruct w as [|c1 [|c2 [|c3 w]]]; simpl; repeat split; simpl; lia. Qed.

Definition finished (result : UChar32) (cs : list UChar) (cl : bool) (n : Z) : EntityResult ListSource :=
  mkEntityResult true (appendUChar32 (legalEntityFor result)) false
    (match cs with
     | c :: cs' => if c =? ";"%uchar then mkListSource [] cs' cl (n + 1) else mkListSource [] cs cl n
     | [] => mkListSource [] [] cl n
     end).

Definition starved (w : list UChar) (cl : bool) (n : Z) : EntityResult ListSource :=
  mkEntityResult false [] true (unconsumeCharacters (mkListSource [] [] cl n) w).

(** What [consumeLoop] does from the [Hex] or [Decimal] state on. *)
Definition numericResult (isDigit : UChar -> bool) (base : Z) (digit : UChar -> Z)
    (r : UChar32) (w cs : list UChar) (cl : bool) (n : Z) : EntityResult ListSource :=
  let '(ds, rest) := span isDigit cs in
  let n' := n + Z.of_nat (length ds) in
  match rest with
  | [] => starved (w ++ ds) cl n'
  | _ :: _ => finished (digitsValue base digit r ds) rest cl n'
  end.

Lemma isHexDigit_cases c : isHexDigit c = true ->
  hexDigit c = (if (c >=? "0"%uchar) && (c <=? "9"%uchar) then c - "0"%uchar
                else if (c >=? "a"%uchar) && (c <=? "f"%uchar) then 10 + c - "a"%uchar
                else 10 + c - "A"%uchar) /\
  ((c >=? "0"%uchar) && (c <=? "9"%uchar) = true \/ (c >=? "a"%uchar) && (c <=? "f"%uchar) = true \/
   (c >=? "A"%uchar) && (c <=? "F"%uchar) = true).
Proof.
  unfold isHexDigit, hexDigit, isASCIIDigit, isASCIILower. intros HD.
  apply orb_true_iff in HD as [HD%orb_true_iff|HD]; [destruct HD as [HD|HD]|]; rewrite HD;
    (split; [|auto]); case_tests; bool_hyps; lia || done.
Qed.

Lemma numericResult_cons isDigit base digit r w c cs cl n :
  isDigit c = true ->
  numericResult isDigit base digit r w (c :: cs) cl n =
  numericResult isDigit base digit (int32 (r * base + digit c)) (w ++ [c]) cs cl (n + 1).
Proof.
  intros HD. unfold numericResult. simpl. rewrite HD.
  destruct (span isDigit cs) as [ds rest]. simpl.
  replace (n + Z.of_nat (Datatypes.S (length ds))) with (n + 1 + Z.of_nat (length ds)) by lia.
  by rewrite <- app_assoc.
Qed.

Lemma numericResult_stop isDigit base digit r w c cs cl n :
  isDigit c = false ->
  numericResult isDigit base digit r w (c :: cs) cl n = finished r (c :: cs) cl n.
Proof. intros HD. unfold numericResult. simpl. rewrite HD. simpl. by rewrite Z.add_0_r. Qed.

Lemma numericResult_nil isDigit base digit r w cl n :
  numericResult isDigit base digit r w [] cl n = starved w cl n.
Proof. unfold numericResult. simpl. by rewrite app_nil_r, Z.add_0_r. Qed.

Lemma hex_loop a fuel r w cs cl n :
  (length cs < fuel)%nat ->
  consumeLoop a fuel ESHex r w (mkListSource [] cs cl n) = numericResult isHexDigit 16 hexDigit r w cs cl n.
Proof.
  revert fuel r w n. induction cs as [|c cs IH]; intros [|fuel] r w n Hf; simpl in Hf; try lia.
  - by rewrite numericResult_nil.
  - cbn -[isHexDigit Z.geb Z.leb Z.mul int32]. change (ls_advance _) with (mkListSource [] cs cl (n + 1)).
    destruct (isHexDigit c) eqn:HD.
    + rewrite numericResult_cons by done. destruct (isHexDigit_cases c HD) as [-> HC].
      destruct ((c >=? "0"%uchar) && (c <=? "9"%uchar)); [rewrite IH by lia; do 2 f_equal; lia|].
      destruct ((c >=? "a"%uchar) && (c <=? "f"%uchar)); [rewrite IH by lia; do 2 f_equal; lia|].
      destruct HC as [HC|[HC|HC]]; try done. rewrite HC, IH by lia. do 2 f_equal; lia.
    + rewrite numericResult_stop by done. unfold isHexDigit in HD. bool_hyps.
      rewrite H2, H3, H4. unfold finished. destruct (c =? _); done.
Qed.

Lemma dec_loop a fuel r w cs cl n :
  (length cs < fuel)%nat ->
  consumeLoop a fuel ESDecimal r w (mkListSource [] cs cl n) =
  numericResult isASCIIDigit 10 decDigit r w cs cl n.
Proof.
  revert fuel r w n. induction cs as [|c cs IH]; intros [|fuel] r w n Hf; simpl in Hf; try lia.
  - by rewrite numericResult_nil.
  - cbn -[Z.geb Z.leb Z.mul int32]. change (ls_advance _) with (mkListSource [] cs cl (n + 1)).
    destruct (isASCIIDigit c) eqn:HD; unfold isASCIIDigit in HD; rewrite HD.
    + rewrite numericResult_cons by done. rewrite IH by lia. unfold decDigit. do 2 f_equal; lia.
    + rewrite numericResult_stop by done. unfold finished. destruct (c =? _); done.
Qed.
End Loops.

(** ** The named loop *)

Section Named.
Context `{CaseFolding} `{HTMLEntityTableOk}.

Lemma isPrefixOfEntity_spec w : isPrefixOfEntity w = true <-> exists i, inTable i /\ hasPrefix w i.
Proof.
  unfold isPrefixOfEntity, hasPrefix, inTable, entryAt. rewrite existsb_exists. split.
  - intros (e & HI & HP). apply bool_decide_eq_true in HP.
    apply (In_nth _ _ noEntry) in HI as (i & Hi & <-). eauto.
  - intros (i & Hi & HP). eexists. split; [by apply nth_In|]. by apply bool_decide_eq_true.
Qed.

Lemma live_isPrefixOfEntity w s :
  search_ok w s -> isEntityPrefix s = true -> w <> [] -> isPrefixOfEntity w = true.
Proof.
  intros [HR _ _] HP Hw. apply isPrefixOfEntity_spec. unfold range_ok, isEntityPrefix in *.
  destruct (m_first s) as [f|], (m_last s) as [l|]; try done.
  destruct (HR Hw) as (L1 & L2 & L3). unfold inTable in *. exists f.
  split; [lia|]. apply L3; lia.
Qed.

Lemma dead_isPrefixOfEntity w s :
  search_ok w s -> isEntityPrefix s = false -> isPrefixOfEntity w = false.
Proof.
  intros [HR _ _] HP. apply not_true_is_false. rewrite isPrefixOfEntity_spec. intros (i & Hi & Hp).
  unfold range_ok, isEntityPrefix in *. destruct (m_first s) as [f|], (m_last s) as [l|]; try done.
  by apply (HR i).
Qed.

Lemma isPrefixOfEntity_app w v : isPrefixOfEntity (w ++ v) = true -> isPrefixOfEntity w = true.
Proof.
  rewrite !isPrefixOfEntity_spec. intros (i & Hi & HP). exists i. split; [done|].
  unfold hasPrefix in *. transitivity (w ++ v); [by apply prefix_app_r|done].
Qed.

Lemma es_advance_failed_length c s :
  isEntityPrefix (es_advance c s) = false -> m_currentLength (es_advance c s) = m_currentLength s.
Proof.
  unfold es_advance. destruct (if (_ =? 0)%nat then _ else _) as [[f l]|]; [|done].
  by destruct (_ =? _)%nat.
Qed.

Lemma last_cons_default {A} (c d : A) v : List.last v c = List.last (c :: v) d.
Proof.
  revert c. induction v as [|x v IH]; intros c; [done|].
  simpl. destruct v; [done|]. apply IH.
Qed.

(** Where the reading loop stops: at the end of the source, or in front of
    the first character that leads to no entity. *)
Lemma namedEntityLoop_flat fuel cc search w cs cl n :
  (length cs <= fuel)%nat -> search_ok w search -> isEntityPrefix search = true ->
  exists v rest search', cs = v ++ rest /\
    namedEntityLoop fuel cc search w (mkListSource [] cs cl n) =
      (match rest with c :: _ => c | [] => List.last v cc end, search', w ++ v,
       mkListSource [] rest cl (n + Z.of_nat (length v))) /\
    match_ok (w ++ v) (m_mostRecentMatch search') /\ m_currentLength search' = length (w ++ v) /\
    match rest with
    | [] => search_ok (w ++ v) search' /\ isEntityPrefix search' = true
    | c :: _ => isPrefixOfEntity (w ++ v ++ [c]) = false
    end.
Proof.
  revert fuel cc search w n. induction cs as [|c cs IH]; intros fuel cc search w n Hf HS HP.
  - exists [], [], search. rewrite !app_nil_r. simpl.
    split_and!; try done; [|apply HS|by apply HS]. destruct fuel; simpl; by rewrite Z.add_0_r.
  - destruct fuel as [|fuel]; simpl in Hf; [lia|].
    cbn -[es_advance]. destruct (isEntityPrefix (es_advance c search)) eqn:EP.
    + destruct (IH fuel c (es_advance c search) (w ++ [c]) (n + 1)) as
        (v & rest & search' & -> & EQ & HM & HL & HX); [lia|by apply es_advance_ok|done|].
      exists (c :: v), rest, search'. rewrite <- app_assoc in EQ, HM, HL, HX. simpl in *.
      split_and!; try done; [|destruct rest; [done|by rewrite <- app_assoc in HX]].
      unfold ls_advance. simpl. rewrite EQ.
      replace (n + 1 + Z.of_nat (length v)) with (n + Z.of_nat (Datatypes.S (length v))) by lia.
      destruct rest; [|done]. by rewrite (last_cons_default c cc).
    + exists [], (c :: cs), (es_advance c search). rewrite !app_nil_r. simpl.
      split_and!; try done; [by rewrite Z.add_0_r| | |].
      * rewrite es_advance_failed by done. apply HS.
      * rewrite es_advance_failed_length by done. by apply HS.
      * by eapply dead_isPrefixOfEntity, EP; apply es_advance_ok.
Qed.

(** [longestMatch] over the first entries of the table. *)
Definition longest_in (es : list HTMLEntityTableEntry) (cs : list UChar)
    (m : option HTMLEntityTableEntry) : Prop :=
  match m with
  | Some e => e ∈ es /\ entity e `prefix_of` cs /\
      forall e', e' ∈ es -> entity e' `prefix_of` cs -> (entry_length e' <= entry_length e)%nat
  | None => forall e', e' ∈ es -> ~ entity e' `prefix_of` cs
  end.

Lemma longest_in_skip es e cs m :
  longest_in es cs m -> ~ entity e `prefix_of` cs -> longest_in (es ++ [e]) cs m.
Proof.
  intros HL HN. destruct m as [b|]; simpl in *; set_unfold.
  - destruct HL as (L1 & L2 & L3). split_and!; auto. by intros e' [?|[->|[]]] ?; auto.
  - by intros e' [?|[->|[]]]; auto.
Qed.

Lemma longest_in_better es e cs m :
  longest_in es cs m -> entity e `prefix_of` cs ->
  (forall b, m = Some b -> (entry_length b < entry_length e)%nat) -> longest_in (es ++ [e]) cs (Some e).
Proof.
  intros HL HP HB. simpl. set_unfold. split_and!; auto. intros e' [HI|[->|[]]] HP'; [|done].
  destruct m as [b|]; simpl in HL; [|by apply HL in HP'].
  destruct HL as (_ & _ & L3). specialize (L3 _ HI HP'). specialize (HB b eq_refl). lia.
Qed.

Lemma longest_in_keep es e cs b :
  longest_in es cs (Some b) -> (entry_length e <= entry_length b)%nat ->
  longest_in (es ++ [e]) cs (Some b).
Proof.
  simpl. set_unfold. intros (L1 & L2 & L3) HB. split_and!; auto. by intros e' [?|[->|[]]] ?; auto.
Qed.

Lemma longestMatch_longest cs : longest_in entityTable cs (longestMatch cs).
Proof.
  unfold longestMatch. induction entityTable as [|e es IH] using rev_ind; [simpl; set_solver|].
  rewrite fold_left_app. cbn [fold_left].
  case_bool_decide as EP; [|by apply longest_in_skip].
  destruct (fold_left _ es None) as [b|]; [destruct (_ <? _)%nat eqn:EL|].
  - apply Nat.ltb_lt in EL. eapply longest_in_better; [done..|]. by intros ? [= <-].
  - apply Nat.ltb_ge in EL. by apply longest_in_keep.
  - by eapply longest_in_better.
Qed.

Lemma entry_unique i j :
  inTable i -> inTable j -> entity (entryAt i) = entity (entryAt j) -> i = j.
Proof.
  unfold inTable. intros Hi Hj HE. destruct (Nat.lt_total i j) as [L|[L|L]]; [|done|].
  - pose proof (table_sorted i j ltac:(lia)) as HL. rewrite HE in HL. by apply lex_lt_irrefl in HL.
  - pose proof (table_sorted j i ltac:(lia)) as HL. rewrite HE in HL. by apply lex_lt_irrefl in HL.
Qed.

Lemma prefix_same_length {A} (a b cs : list A) :
  a `prefix_of` cs -> b `prefix_of` cs -> length a = length b -> a = b.
Proof.
  intros [x Hx] [y Hy] HL. rewrite Hx in Hy. by apply app_inj_1 in Hy as [-> _].
Qed.

(** The most recent match of the loop is the longest match of the text: no
    entity the text starts with reaches past the point where the loop stops. *)
Lemma match_ok_longest cs v rest m :
  cs = v ++ rest -> match_ok v m ->
  match rest with [] => True | c :: _ => isPrefixOfEntity (v ++ [c]) = false end ->
  longestMatch cs = entryAt <$> m.
Proof.
  intros -> HM HR.
  assert (HV : forall e, e ∈ entityTable -> entity e `prefix_of` v ++ rest -> entity e `prefix_of` v).
  { intros e He HP. destruct rest as [|c rest]; [by rewrite app_nil_r in HP|].
    assert (HN : ~ (v ++ [c]) `prefix_of` entity e).
    { intros HN. apply not_true_iff_false in HR. apply HR, isPrefixOfEntity_spec.
      apply list_elem_of_In, (In_nth _ _ noEntry) in He as (i & Hi & <-). by exists i. }
    destruct (prefix_weak_total (entity e) (v ++ [c]) (v ++ c :: rest)) as [L|L]; [done| |
      |by apply HN in L]; [exists rest; by rewrite <- app_assoc|].
    apply prefix_snoc_iff in L as [L|L]; [done|]. by rewrite L in HN. }
  pose proof (longestMatch_longest (v ++ rest)) as HL.
  assert (HE : forall j, inTable j -> entryAt j ∈ entityTable).
  { intros j Hj. unfold entryAt. by apply list_elem_of_In, nth_In. }
  destruct (longestMatch (v ++ rest)) as [e|], m as [i|]; simpl in *; try done.
  - destruct HL as (L1 & L2 & L3), HM as (M1 & M2 & M3).
    pose proof L1 as HI. apply list_elem_of_In, (In_nth _ _ noEntry) in HI as (j & Hj & Ej).
    fold (entryAt j) in Ej. subst e.
    pose proof (M3 j Hj (HV _ L1 L2)). pose proof (L3 _ (HE _ M1) (prefix_app_r _ _ rest M2)).
    f_equal. f_equal. apply entry_unique; [done|done|].
    apply (prefix_same_length _ _ v); [by apply HV|done|unfold entry_length in *; lia].
  - destruct HL as (L1 & L2 & L3). exfalso.
    pose proof L1 as HI. apply list_elem_of_In, (In_nth _ _ noEntry) in HI as (j & Hj & Ej).
    fold (entryAt j) in Ej. subst e. by apply (HM j Hj), HV.
  - destruct HM as (M1 & M2 & M3). exfalso. by apply (HL _ (HE _ M1)), prefix_app_r.
Qed.
End Named.

(** ** [consumeHTMLEntity] computes [reference] *)

Section Correct.
Context `{CaseFolding} `{HTMLEntityTableOk}.

(** The source [l'] has the characters of [l] ahead again; the ones in the
    push-back slots follow the ampersand of a possible reference. *)
Definition put_back (l l' : ListSource) : Prop :=
  ls_ahead l' = ls_ahead l /\ ls_closed l' = ls_closed l /\ ls_consumed l' = ls_consumed l /\
  (length (ls_pushed l') <= 2)%nat /\
  (ls_pushed l' = [] \/ exists c, head (ls_ahead l) = Some c /\ isReferenceLetter c || (c =? "#"%uchar) = true).

Lemma put_back_refl l : ls_pushed l = [] -> put_back l l.
Proof. intros HP. unfold put_back. rewrite HP. split_and!; simpl; auto; lia. Qed.

Definition reference_result (l : ListSource) (x : Reference) (r : EntityResult ListSource) : Prop :=
  match x with
  | NeedMore => exists l', r = mkEntityResult false [] true l' /\ put_back l l' /\
      (ls_pushed l' = [] \/ ls_chars l' = [])
  | NoReference => exists l', r = mkEntityResult false [] false l' /\ put_back l l' /\ ls_chars l' <> []
  | Decoded n d => (1 <= n <= length (ls_ahead l))%nat /\
      r = mkEntityResult true d false
            (mkListSource [] (drop n (ls_ahead l)) (ls_closed l) (ls_consumed l + Z.of_nat n))
  end.

Lemma unconsume_put_back w cs cl n :
  (w = [] \/ exists c, head (w ++ cs) = Some c /\ isReferenceLetter c || (c =? "#"%uchar) = true) ->
  let l' := unconsumeCharacters (mkListSource [] cs cl (n + Z.of_nat (length w))) w in
  put_back (mkListSource [] (w ++ cs) cl n) l' /\
  (cs = [] -> ls_pushed l' = [] \/ ls_chars l' = []) /\ (cs <> [] -> ls_chars l' <> []).
Proof.
  intros HW. destruct (unconsume_ahead cs cl (n + Z.of_nat (length w)) w) as (E1 & E2 & E3 & E4).
  cbv zeta. split.
  - unfold put_back. rewrite E1, E2, E3, E4. split_and!; simpl; try done; [lia| |].
    + destruct (length w <=? 2)%nat eqn:EW; simpl; [by apply Nat.leb_le in EW|lia].
    + destruct HW as [-> |HW]; [by left|]. destruct (_ <=? 2)%nat; auto.
  - destruct w as [|c1 [|c2 [|c3 w]]]; simpl in *; split; auto; intros HC; by destruct cs.
Qed.

Lemma consumeCount_drop k (l : ListSource) :
  (k <= length (ls_ahead l))%nat ->
  let l' := snd (consumeCount k l) in
  ls_ahead l' = drop k (ls_ahead l) /\ ls_closed l' = ls_closed l /\
  ls_consumed l' = ls_consumed l + Z.of_nat k /\ ls_pushed l' = drop k (ls_pushed l).
Proof.
  revert l. induction k as [|k IH]; intros l Hk; cbn [consumeCount].
  - simpl. rewrite Z.add_0_r. by destruct l.
  - change (advance l) with (ls_advance l). specialize (IH (ls_advance l)).
    destruct (consumeCount k (ls_advance l)) as [cs l']. cbn [snd] in *. cbv zeta in IH.
    rewrite ls_ahead_advance, ls_closed_advance, ls_pushed_advance in IH.
    destruct (ls_ahead l) as [|c a] eqn:EA; simpl in Hk; [lia|].
    rewrite ls_consumed_advance in IH by (by rewrite EA).
    destruct IH as (-> & -> & -> & ->); [simpl; lia|]. split_and!; try done; [lia|].
    destruct (ls_pushed l); [by destruct k|done].
Qed.

(** Where the source is once the characters of the match have been read again. *)
Lemma reread_match k v rest cl n :
  (2 <= k <= length v)%nat ->
  consumeCount k (unconsumeCharacters (mkListSource [] rest cl (n + Z.of_nat (length v))) v) =
  (take k v, mkListSource [] (drop k (v ++ rest)) cl (n + Z.of_nat k)).
Proof.
  intros Hk. destruct (unconsume_ahead rest cl (n + Z.of_nat (length v)) v) as (E1 & E2 & E3 & E4).
  set (l := unconsumeCharacters _ v) in *. clearbody l.
  assert (HL : (k <= length (ls_ahead l))%nat) by (rewrite E1, length_app; lia).
  pose proof (consumeCount_take k l HL) as HT. destruct (consumeCount_drop k l HL) as (D1 & D2 & D3 & D4).
  destruct (consumeCount k l) as [w [p ch cl' n']]. cbn in *. subst w.
  rewrite E1 in *. rewrite take_app_le by lia. f_equal.
  replace p with (@nil Z) in *.
  2: { subst p. rewrite E4. destruct (length v <=? 2)%nat eqn:EV; [|by rewrite drop_nil].
       apply Nat.leb_le in EV. by rewrite drop_ge by lia. }
  unfold ls_ahead in D1. simpl in D1. f_equal; congruence || lia.
Qed.

Lemma consumeNamedEntity_spec a cc c cs cl n :
  isReferenceLetter c = true ->
  reference_result (mkListSource [] (c :: cs) cl n) (namedReference a (c :: cs))
    (consumeNamedEntity (mkListSource [] (c :: cs) cl n) a cc).
Proof.
  intros HC. unfold consumeNamedEntity.
  destruct (namedEntityLoop_flat (charactersAhead (mkListSource [] (c :: cs) cl n)) cc newEntitySearch []
    (c :: cs) cl n) as (v & rest & search & EQ & -> & HM & HL & HX);
    [done | apply new_search_ok | done |].
  simpl app in *. unfold namedReference.
  destruct (unconsume_put_back v rest cl n) as (P1 & P2 & P3).
  { destruct v; [by left|right]. injection EQ as -> _. exists z. by rewrite HC. }
  rewrite <- EQ in P1. destruct rest as [|d rest].
  - destruct HX as [X1 X2]. rewrite app_nil_r in EQ. subst v.
    rewrite (live_isPrefixOfEntity _ _ X1 X2) by done. simpl. eexists. split; [done|]. auto.
  - replace (isPrefixOfEntity (c :: cs)) with false.
    2: { symmetry. apply not_true_is_false. rewrite EQ. intros HP. apply not_true_iff_false in HX.
         apply HX, (isPrefixOfEntity_app _ rest). by rewrite <- app_assoc. }
    rewrite (match_ok_longest _ _ _ _ EQ HM HX). cbn [isEmpty ListSource_source ls_isEmpty ls_chars].
    destruct (m_mostRecentMatch search) as [i|]; cbn [fmap option_fmap option_map].
    2: { eexists. split; [done|]. split; [done|]. by apply P3. }
    destruct HM as (M1 & M2 & _). pose proof (table_length i M1) as HK.
    pose proof (prefix_length _ _ M2) as HV. fold (entry_length (entryAt i)) in HV.
    set (e := entryAt i) in *. set (k := entry_length e) in *.
    assert (HT : (if negb (k =? m_currentLength search)%nat
       then let '(consumed, source) := consumeCount k (unconsumeCharacters
              (mkListSource [] (d :: rest) cl (n + Z.of_nat (length v))) v) in
            (currentChar source, consumed, source)
       else (d, v, mkListSource [] (d :: rest) cl (n + Z.of_nat (length v)))) =
      (nth k (c :: cs) 0, take k v, mkListSource [] (drop k (c :: cs)) cl (n + Z.of_nat k))).
    { rewrite HL, EQ. destruct (k =? length v)%nat eqn:EK; simpl negb; cbv iota.
      - apply Nat.eqb_eq in EK. rewrite EK, drop_app_length, app_nth2, Nat.sub_diag by lia.
        by rewrite take_ge by lia.
      - rewrite reread_match by lia. f_equal. f_equal. simpl. by rewrite <- hd_drop_nth. }
    rewrite HT. clear HT. cbv zeta. destruct (_ || _ || _) eqn:EA.
    + split; [|done]. unfold ls_ahead. cbn [ls_pushed ls_chars app]. rewrite EQ, length_app. lia.
    + destruct (unconsume_put_back (take k v) (drop k v ++ d :: rest) cl n) as (Q1 & Q2 & Q3).
      { right. exists c. rewrite app_assoc, take_drop, <- EQ. by rewrite HC. }
      rewrite app_assoc, take_drop, <- EQ in Q1. rewrite length_take_le in * by lia.
      eexists. split; [rewrite EQ, drop_app_le by lia; done|]. split; [done|]. apply Q3.
      by destruct (drop k v).
Qed.

(** The assertion on [additionalAllowedCharacter]. *)
Definition allowedCharacter (a : UChar) : Prop :=
  a = 0 \/ a = cQUOT \/ a = "'"%uchar \/ a = ">"%uchar.

(** The result of the numeric loops after the characters [w]. *)
Lemma numericResult_spec isDigit base digit w x cs cl n :
  head w = Some "#"%uchar -> isDigit x = true ->
  reference_result (mkListSource [] (w ++ x :: cs) cl n)
    (numericReference isDigit base digit (length w) (x :: cs))
    (numericResult isDigit base digit 0 w (x :: cs) cl (n + Z.of_nat (length w))).
Proof.
  intros HW HX. unfold numericReference, numericResult.
  pose proof (span_app isDigit (x :: cs)) as ES. simpl in *. rewrite HX in *.
  destruct (span isDigit cs) as [ds rest]. cbn [fst snd app] in *. rewrite <- ES.
  rewrite app_comm_cons, app_assoc. rewrite <- Z.add_assoc, <- Nat2Z.inj_add, <- length_app.
  destruct rest as [|d rest].
  - destruct (unconsume_put_back (w ++ x :: ds) [] cl n) as (P1 & P2 & _).
    { right. exists "#"%uchar. destruct w; simpl in *; [done|]. injection HW as ->. done. }
    eexists. split; [done|]. auto.
  - set (v := w ++ x :: ds) in *. unfold ls_ahead. cbn [ls_pushed ls_chars app].
    assert (HV : (1 <= length v)%nat) by (unfold v; rewrite length_app; simpl; lia).
    unfold reference_result, finished, ls_ahead. cbn [ls_pushed ls_chars app ls_closed ls_consumed].
    rewrite length_app. simpl length. destruct (d =? _); (split; [lia|]); f_equal.
    + rewrite drop_app_ge by lia. replace (length v + 1 - length v)%nat with 1%nat by lia.
      simpl. f_equal. lia.
    + by rewrite Nat.add_0_r, drop_app_length.
Qed.

(** One iteration in each of the states before the digits. *)
Lemma loop_initial a fuel r c p cs cl n :
  allowedCharacter a -> hd 0 (p ++ c :: cs) = hd 0 (p ++ [c]) ->
  let l := mkListSource p (c :: cs) cl n in
  let d := hd 0 (p ++ [c]) in
  consumeLoop a (Datatypes.S fuel) ESInitial r [] l =
  if d =? "#"%uchar then consumeLoop a fuel ESNumber r [d] (ls_advance l)
  else if isReferenceLetter d then consumeLoop a fuel ESNamed r [] l
  else mkEntityResult false [] false l.
Proof.
  intros HA HD. cbv zeta. cbn [consumeLoop isEmpty ListSource_source ls_isEmpty ls_chars currentChar app].
  unfold ls_ahead. cbn [ls_pushed ls_chars]. rewrite HD. set (d := hd 0 (p ++ [c])). clearbody d.
  unfold isReferenceLetter. destruct (Z.eqb_spec d "#"%uchar) as [->|HS].
  - destruct HA as [->|[->|[->| ->]]]; done.
  - destruct ((d =? cTAB) || _ || _ || _ || _ || _) eqn:EW.
    + rewrite !orb_true_iff, !Z.eqb_eq in EW.
      assert (HF : isReferenceLetter d = false)
        by (destruct EW as [[[[[->| ->]| ->]| ->]| ->]| ->]; done).
      unfold isReferenceLetter in HF. by rewrite HF.
    + destruct (negb (a =? 0) && (d =? a)) eqn:EA; [|done].
      bool_hyps. subst d. destruct HA as [->|[->|[->| ->]]]; done.
Qed.

Lemma loop_number a fuel r w x cs cl n :
  let l := mkListSource [] (x :: cs) cl n in
  consumeLoop a (Datatypes.S fuel) ESNumber r w l =
  if x =? "x"%uchar then consumeLoop a fuel ESMaybeHexLowerCaseX r (w ++ [x]) (ls_advance l)
  else if x =? "X"%uchar then consumeLoop a fuel ESMaybeHexUpperCaseX r (w ++ [x]) (ls_advance l)
  else if isASCIIDigit x then consumeLoop a fuel ESDecimal r w l
  else mkEntityResult false [] false (ls_push "#"%uchar l).
Proof. done. Qed.

Lemma loop_hex a fuel r w st y x cs cl n :
  (st = ESMaybeHexLowerCaseX /\ y = "x"%uchar) \/ (st = ESMaybeHexUpperCaseX /\ y = "X"%uchar) ->
  let l := mkListSource [] (x :: cs) cl n in
  consumeLoop a (Datatypes.S fuel) st r w l =
  if isHexDigit x then consumeLoop a fuel ESHex r w l
  else mkEntityResult false [] false (ls_push y (ls_push "#"%uchar l)).
Proof. by intros [[-> ->]|[-> ->]]. Qed.

(** The text after "#x". *)
Lemma hex_spec a fuel st y cs cl n :
  (st = ESMaybeHexLowerCaseX /\ y = "x"%uchar) \/ (st = ESMaybeHexUpperCaseX /\ y = "X"%uchar) ->
  (length cs + 1 < fuel)%nat ->
  reference_result (mkListSource [] ("#"%uchar :: y :: cs) cl n)
    (numericReference isHexDigit 16 hexDigit 2 cs)
    (consumeLoop a fuel st 0 ["#"%uchar; y] (mkListSource [] cs cl (n + 2))).
Proof.
  intros HS HF. destruct fuel as [|fuel]; [lia|]. destruct cs as [|x cs].
  - eexists. split; [by destruct HS as [[-> ->]|[-> ->]]|].
    destruct (unconsume_put_back ["#"%uchar; y] [] cl n) as (P1 & P2 & _); [right; by eexists|]. auto.
  - rewrite (loop_hex _ _ _ _ _ _ _ _ _ _ HS). destruct (isHexDigit x) eqn:HX.
    + simpl in HF. rewrite hex_loop by (simpl; lia).
      by apply (numericResult_spec isHexDigit 16 hexDigit ["#"%uchar; y] x cs cl n).
    + unfold numericReference. simpl span. rewrite HX.
      eexists. split; [done|].
      destruct (unconsume_put_back ["#"%uchar; y] (x :: cs) cl n) as (P1 & _ & P3); [right; by eexists|].
      auto.
Qed.

(** The text after "#". *)
Lemma number_spec a fuel cs cl n :
  (length cs + 2 < fuel)%nat ->
  reference_result (mkListSource [] ("#"%uchar :: cs) cl n) (reference a ("#"%uchar :: cs))
    (consumeLoop a fuel ESNumber 0 ["#"%uchar] (mkListSource [] cs cl (n + 1))).
Proof.
  intros HF. destruct fuel as [|fuel]; [lia|]. unfold reference. rewrite Z.eqb_refl.
  destruct cs as [|x cs]; simpl in HF.
  - eexists. split; [done|].
    destruct (unconsume_put_back ["#"%uchar] [] cl n) as (P1 & P2 & _); [right; by eexists|]. auto.
  - rewrite loop_number. unfold ls_advance. cbn [ls_pushed ls_chars ls_closed ls_consumed].
    replace (n + 1 + 1) with (n + 2) by lia.
    destruct (Z.eqb_spec x "x"%uchar) as [->|]; [apply hex_spec; [auto|lia]|].
    destruct (Z.eqb_spec x "X"%uchar) as [->|]; [apply hex_spec; [auto|lia]|]. cbn [orb].
    destruct (isASCIIDigit x) eqn:HX.
    + rewrite dec_loop by (simpl; lia).
      by apply (numericResult_spec isASCIIDigit 10 decDigit ["#"%uchar] x cs cl n).
    + unfold numericReference. simpl span. rewrite HX. eexists. split; [done|].
      destruct (unconsume_put_back ["#"%uchar] (x :: cs) cl n) as (P1 & _ & P3); [right; by eexists|].
      auto.
Qed.

Lemma consumeHTMLEntity_flat a cs cl n :
  allowedCharacter a ->
  reference_result (mkListSource [] cs cl n) (reference a cs) (consumeHTMLEntity a (mkListSource [] cs cl n)).
Proof.
  intros HA. unfold consumeHTMLEntity.
  change (charactersAhead _) with (length cs).
  destruct cs as [|c cs].
  { eexists. split; [done|]. destruct (unconsume_put_back [] [] cl n) as (P1 & P2 & _); [by left|].
    simpl length in *. rewrite Z.add_0_r in *. auto. }
  rewrite Nat.add_comm. cbn [Nat.add]. rewrite loop_initial by done. simpl hd.
  destruct (Z.eqb_spec c "#"%uchar) as [->|HC]; [apply number_spec; simpl; lia|].
  unfold reference. apply Z.eqb_neq in HC as ->. destruct (isReferenceLetter c) eqn:HL.
  - cbn [consumeLoop isEmpty ListSource_source ls_isEmpty ls_chars]. by apply consumeNamedEntity_spec.
  - eexists. split; [done|]. split; [by apply put_back_refl|done].
Qed.

(** *** Pushed-back characters

    A reference that ran out of input is read again from the push-back slots. *)

Lemma prefix_search_live w c s :
  search_ok w s -> isEntityPrefix s = true -> isPrefixOfEntity (w ++ [c]) = true ->
  isEntityPrefix (es_advance c s) = true.
Proof.
  intros HS HL HP. destruct (isEntityPrefix (es_advance c s)) eqn:E; [done|].
  rewrite (dead_isPrefixOfEntity (w ++ [c]) (es_advance c s)) in HP; [done| |done].
  by apply es_advance_ok.
Qed.

Lemma namedEntityLoop_pushed fuel cc search v d p c cs cl n :
  search_ok v search -> isEntityPrefix search = true -> isPrefixOfEntity (v ++ [d]) = true ->
  namedEntityLoop (Datatypes.S fuel) cc search v (mkListSource (d :: p) (c :: cs) cl n) =
  namedEntityLoop fuel d (es_advance d search) (v ++ [d]) (mkListSource p (c :: cs) cl (n + 1)) /\
  namedEntityLoop (Datatypes.S fuel) cc search v (mkListSource [] (d :: p ++ c :: cs) cl n) =
  namedEntityLoop fuel d (es_advance d search) (v ++ [d]) (mkListSource [] (p ++ c :: cs) cl (n + 1)).
Proof.
  intros HS HL HP. pose proof (prefix_search_live _ _ _ HS HL HP) as HE.
  split; cbn -[es_advance isEntityPrefix]; by rewrite HE.
Qed.

Lemma consumeNamedEntity_pushed w c cs cl n a cc :
  (length w <= 2)%nat -> isPrefixOfEntity w = true ->
  consumeNamedEntity (mkListSource w (c :: cs) cl n) a cc =
  consumeNamedEntity (mkListSource [] (w ++ c :: cs) cl n) a cc.
Proof.
  intros HW HP. unfold consumeNamedEntity.
  replace (charactersAhead (mkListSource w (c :: cs) cl n))
    with (charactersAhead (mkListSource [] (w ++ c :: cs) cl n)) by done.
  assert (HF : exists f, charactersAhead (mkListSource [] (w ++ c :: cs) cl n) =
    (length w + f)%nat).
  { exists (Datatypes.S (length cs)). simpl. unfold ls_ahead. simpl.
    rewrite length_app. simpl. lia. }
  destruct HF as [f ->]. pose proof new_search_ok as HN.
  destruct w as [|d [|e [|? ?]]]; simpl in HW; [done| | |lia].
  - cbn [length Nat.add app].
    destruct (namedEntityLoop_pushed f cc _ [] d [] c cs cl n HN eq_refl HP) as [E1 E2].
    cbn [app] in E1, E2. by rewrite E1, E2.
  - cbn [length Nat.add app]. pose proof (isPrefixOfEntity_app [d] [e] HP) as HP'.
    destruct (namedEntityLoop_pushed (Datatypes.S f) cc _ [] d [e] c cs cl n HN eq_refl HP') as [E1 E2].
    destruct (namedEntityLoop_pushed f d (es_advance d newEntitySearch) [d] e [] c cs cl (n + 1)
      ltac:(by apply (es_advance_ok [])) ltac:(by apply (prefix_search_live [])) HP) as [E3 E4].
    cbn [app] in *. by rewrite E1, E2, E3, E4.
Qed.

Lemma number_pushed a fuel e c cs cl n :
  reference a ["#"%uchar; e] = NeedMore ->
  consumeLoop a (Datatypes.S (Datatypes.S fuel)) ESNumber 0 ["#"%uchar] (mkListSource [e] (c :: cs) cl n) =
  consumeLoop a (Datatypes.S (Datatypes.S fuel)) ESNumber 0 ["#"%uchar] (mkListSource [] (e :: c :: cs) cl n).
Proof.
  intros HR. unfold reference in HR. rewrite Z.eqb_refl in HR.
  cbn -[Z.geb Z.leb Z.mul int32]. destruct (Z.eqb_spec e "x"%uchar); [done|].
  destruct (Z.eqb_spec e "X"%uchar); [done|].
  cbn [orb] in HR. unfold numericReference in HR. simpl span in HR.
  destruct (isASCIIDigit e) eqn:HE; [|done]. unfold isASCIIDigit in HE. rewrite HE. done.
Qed.

Lemma consumeHTMLEntity_pushed a w c cs cl n :
  allowedCharacter a -> (length w <= 2)%nat -> reference a w = NeedMore ->
  consumeHTMLEntity a (mkListSource w (c :: cs) cl n) =
  consumeHTMLEntity a (mkListSource [] (w ++ c :: cs) cl n).
Proof.
  intros HA HW HR. destruct w as [|d w]; [done|]. unfold consumeHTMLEntity.
  replace (charactersAhead (mkListSource (d :: w) (c :: cs) cl n))
    with (charactersAhead (mkListSource [] ((d :: w) ++ c :: cs) cl n)) by done.
  set (f := charactersAhead _). clearbody f. rewrite Nat.add_comm. cbn [Nat.add].
  cbn [app]. rewrite (loop_initial a _ _ c (d :: w)), (loop_initial a _ _ d []) by done. simpl hd.
  destruct (Z.eqb_spec d "#"%uchar) as [->|HD].
  - destruct w as [|e [|? ?]]; simpl in HW; [done| |lia]. by apply number_pushed.
  - destruct (isReferenceLetter d) eqn:HL.
    + cbn [consumeLoop isEmpty ListSource_source ls_isEmpty ls_chars currentChar].
      apply consumeNamedEntity_pushed; [done|].
      unfold reference in HR. apply Z.eqb_neq in HD. rewrite HD, HL in HR. unfold namedReference in HR.
      destruct (isPrefixOfEntity _); [done|]. by repeat case_match.
    + unfold reference in HR. apply Z.eqb_neq in HD. by rewrite HD, HL in HR.
Qed.

(** C14: after an ampersand, [consumeHTMLEntity] decodes exactly what the
    specification [reference] says of the text ahead, whether the text is in
    the source or starts in the push-back slots after an earlier attempt that
    ran out of input: it reports too few characters exactly when more input
    could complete a reference, it takes the longest name of the table and
    the value of the digits otherwise, it consumes exactly the reference, and
    when there is none it leaves every character ahead. *)
Theorem consumeHTMLEntity_decodes (a : UChar) (l : ListSource) :
  allowedCharacter a -> (length (ls_pushed l) <= 2)%nat ->
  reference a (ls_pushed l) = NeedMore -> ls_chars l <> [] ->
  reference_result l (reference a (ls_ahead l)) (consumeHTMLEntity a l).
Proof.
  destruct l as [w [|c cs] cl n]; simpl; intros HA HW HR HC; [done|].
  rewrite consumeHTMLEntity_pushed by done. exact (consumeHTMLEntity_flat a (w ++ c :: cs) cl n HA).
Qed.
End Correct.

(** ** Numeric references, printed and read back *)

(** The mathematical value of a numeral. *)
Definition numeral (base : Z) (digit : UChar -> Z) (ds : list UChar) : Z :=
  fold_left (fun r c => r * base + digit c) ds 0.

Lemma int32_mul_add x base d : int32 (int32 x * base + d) = int32 (x * base + d).
Proof.
  destruct (int32_wraps x) as [k ->].
  replace ((x + k * 2 ^ 32) * base + d) with (x * base + d + k * base * 2 ^ 32) by lia.
  apply int32_shift.
Qed.

Lemma digitsValue_wraps base digit x ds :
  digitsValue base digit (int32 x) ds = int32 (fold_left (fun r c => r * base + digit c) ds x).
Proof.
  unfold digitsValue. revert x. induction ds as [|d ds IH]; intros x; simpl; [done|].
  by rewrite int32_mul_add, IH.
Qed.

(** [v] printed with at most [fuel] digits. *)
Fixpoint printDigits (base : Z) (chr : Z -> UChar) (fuel : nat) (v : Z) : list UChar :=
  match fuel with
  | O => []
  | S fuel => (if v <? base then [] else printDigits base chr fuel (v / base)) ++ [chr (v mod base)]
  end.

Definition decChar (d : Z) : UChar := d + "0"%uchar.
Definition hexChar (d : Z) : UChar := if d <? 10 then d + "0"%uchar else d - 10 + "a"%uchar.

Section Print.
Variables (base : Z) (digit chr : Z -> Z) (isDigit : UChar -> bool).
Hypothesis base_pos : 1 < base.
Hypothesis digit_chr : forall d, 0 <= d < base -> digit (chr d) = d /\ isDigit (chr d) = true.

Lemma printDigits_value fuel v :
  0 <= v < base ^ Z.of_nat fuel -> numeral base digit (printDigits base chr fuel v) = v.
Proof.
  unfold numeral. revert v. induction fuel as [|fuel IH]; intros v Hv; [simpl in *; lia|].
  cbn [printDigits]. rewrite fold_left_app. simpl.
  destruct (digit_chr (v mod base)) as [-> _]; [apply Z.mod_pos_bound; lia|].
  pose proof (Z.div_mod v base ltac:(lia)) as DM.
  destruct (Z.ltb_spec v base); simpl.
  - rewrite Z.mod_small by lia. lia.
  - rewrite IH; [lia|]. split; [apply Z.div_pos; lia|].
    apply Z.div_lt_upper_bound; [lia|]. rewrite Nat2Z.inj_succ, Z.pow_succ_r in Hv by lia. lia.
Qed.

Lemma printDigits_digits fuel v : Forall (fun c => isDigit c = true) (printDigits base chr fuel v).
Proof.
  revert v. induction fuel as [|fuel IH]; intros v; simpl; [done|]. apply Forall_app. split.
  - by destruct (v <? base).
  - constructor; [|done]. apply digit_chr, Z.mod_pos_bound. lia.
Qed.

Lemma span_digits ds c rest :
  Forall (fun c => isDigit c = true) ds -> isDigit c = false ->
  span isDigit (ds ++ c :: rest) = (ds, c :: rest).
Proof.
  intros HD HC. induction HD as [|d ds Hd _ IH]; simpl; [by rewrite HC|]. by rewrite Hd, IH.
Qed.

(** A printed number in front of a semicolon. *)
Lemma printed_reference fuel v skipped rest :
  isDigit ";"%uchar = false -> 0 <= v < base ^ Z.of_nat (S fuel) -> v < 2 ^ 31 ->
  numericReference isDigit base digit skipped (printDigits base chr (S fuel) v ++ ";"%uchar :: rest) =
  Decoded (skipped + length (printDigits base chr (S fuel) v) + 1) (appendUChar32 (legalEntityFor v)).
Proof.
  intros HS Hv HM. unfold numericReference. rewrite span_digits by (done || apply printDigits_digits).
  pose proof (digitsValue_wraps base digit 0 (printDigits base chr (S fuel) v)) as HW.
  change (int32 0) with 0 in HW. fold (numeral base digit (printDigits base chr (S fuel) v)) in HW.
  rewrite printDigits_value, int32_id in HW by lia. rewrite HW.
  destruct (printDigits base chr (S fuel) v) eqn:EP; [|done].
  by apply app_eq_nil in EP as [_ ?].
Qed.
End Print.

Definition printDecimal (v : Z) : list UChar := printDigits 10 decChar 7 v.
Definition printHex (v : Z) : list UChar := printDigits 16 hexChar 6 v.

Lemma decChar_ok d : 0 <= d < 10 -> decDigit (decChar d) = d /\ isASCIIDigit (decChar d) = true.
Proof. unfold decDigit, decChar, isASCIIDigit. split; lia. Qed.

Lemma hexChar_ok d : 0 <= d < 16 -> hexDigit (hexChar d) = d /\ isHexDigit (hexChar d) = true.
Proof.
  intros Hd. unfold hexChar, hexDigit, isHexDigit, isASCIIDigit, isASCIILower.
  destruct (Z.ltb_spec d 10); split; try lia; case_tests; bool_hyps; lia.
Qed.

(** The code point of one or two UTF-16 code units. *)
Definition decodeUTF16 (us : list UChar) : option UChar32 :=
  match us with
  | [u] => Some u
  | [u; v] => Some ((u - 55296) * 1024 + (v - 56320) + 65536)
  | _ => None
  end.

Lemma decode_append v : 0 <= v <= 1114111 -> decodeUTF16 (appendUChar32 v) = Some v.
Proof.
  intros Hv. unfold appendUChar32, U_IS_BMP, uint32. rewrite Z.mod_small by lia.
  destruct (Z.leb_spec v 65535); simpl; f_equal; [by rewrite Z.mod_small by lia|].
  unfold U16_LEAD, U16_TRAIL. rewrite Z.shiftr_div_pow2 by lia.
  change 1023 with (Z.ones 10). rewrite Z.land_ones by lia.
  assert (HO : Z.lor (v mod 2 ^ 10) 56320 = v mod 2 ^ 10 + 56320).
  { rewrite <- Z.lxor_lor; [rewrite <- Z.add_nocarry_lxor; [done|]|];
      apply Z.bits_inj'; intros i Hi; rewrite Z.land_spec, Z.bits_0;
      destruct (Z.lt_ge_cases i 10) as [L|L];
      try (rewrite Z.mod_pow2_bits_high by lia; done);
      replace (Z.testbit 56320 i) with false; try apply andb_false_r;
      assert (HI : i = 0 \/ i = 1 \/ i = 2 \/ i = 3 \/ i = 4 \/ i = 5 \/ i = 6 \/ i = 7 \/ i = 8 \/ i = 9)
        by lia; decompose [or] HI; subst i; reflexivity. }
  rewrite HO. assert (1024 <> 0) as HN by lia. pose proof (Z.div_mod v 1024 HN). change (2 ^ 10) with 1024 in *.
  assert (64 <= v / 1024 < 1088) by (split; [apply Z.div_le_lower_bound; lia|apply Z.div_lt_upper_bound; lia]).
  rewrite (Z.mod_small (v / 1024 + 55232)) by lia. lia.
Qed.

(** A scalar value that a numeric reference stands for itself: not NUL, not a
    surrogate and not one of the C1 controls that are read as windows-1252. *)
Definition plainScalar (v : UChar32) : Prop :=
  (0 < v <= 1114111) /\ ~ (55296 <= v <= 57343) /\ ~ (128 <= v <= 159).

Lemma legalEntityFor_plain v : plainScalar v -> legalEntityFor v = v.
Proof.
  intros (H1 & H2 & H3). unfold legalEntityFor.
  replace ((v =? 0) || (v >? 1114111) || ((v >=? 55296) && (v <=? 57343))) with false by lia.
  unfold U_IS_BMP, uint32. rewrite Z.mod_small by lia.
  destruct (Z.leb_spec v 65535) as [L|L]; [|done].
  unfold adjustEntity. destruct (Z.eqb_spec (Z.land v (Z.lnot 31)) 128) as [E|E]; simpl.
  - exfalso. change (Z.lnot 31) with (Z.lnot (Z.ones 5)) in E.
    rewrite <- Z.ldiff_land, Z.ldiff_ones_r in E by lia.
    rewrite Z.shiftl_mul_pow2, Z.shiftr_div_pow2 in E by lia.
    pose proof (Z.div_mod v (2 ^ 5) ltac:(lia)). pose proof (Z.mod_pos_bound v (2 ^ 5) ltac:(lia)). lia.
  - apply Z.mod_small. lia.
Qed.

Section Numeric.
Context `{CaseFolding} `{HTMLEntityTableOk}.

(** Round trip of numeric references.  A scalar value printed in decimal
    or in hexadecimal behind "&#" or "&#x" and followed by a semicolon decodes
    to the UTF-16 code units of that value and to nothing else, and the source
    is left right behind the semicolon. *)
Theorem numeric_reference_roundtrip (v : UChar32) (rest : list UChar) (closed : bool) (n : Z) :
  plainScalar v ->
  let dec := "#"%uchar :: printDecimal v ++ ";"%uchar :: rest in
  let hex := "#"%uchar :: "x"%uchar :: printHex v ++ ";"%uchar :: rest in
  exists us, decodeUTF16 us = Some v /\
    (exists k, consumeHTMLEntity 0 (mkListSource [] dec closed n) =
       mkEntityResult true us false (mkListSource [] rest closed k)) /\
    (exists k, consumeHTMLEntity 0 (mkListSource [] hex closed n) =
       mkEntityResult true us false (mkListSource [] rest closed k)).
Proof.
  intros HP. pose proof HP as (HV & _ & _). cbv zeta.
  exists (appendUChar32 v). split; [apply decode_append; lia|].
  assert (HD : forall w, drop (length w + 1) (w ++ ";"%uchar :: rest) = rest).
  { intros w. rewrite drop_app_ge by lia. by replace (length w + 1 - length w)%nat with 1%nat by lia. }
  split.
  - pose proof (consumeHTMLEntity_flat 0 ("#"%uchar :: printDecimal v ++ ";"%uchar :: rest) closed n
      ltac:(by left)) as HR. revert HR. unfold reference. rewrite Z.eqb_refl.
    destruct (printDecimal v) as [|x ds] eqn:ED; [by apply app_eq_nil in ED as [_ ?]|].
    pose proof (printDigits_digits 10 decDigit decChar isASCIIDigit ltac:(lia) decChar_ok 7 v) as HF.
    fold (printDecimal v) in HF. rewrite ED in HF. inversion HF as [|? ? HX _]; subst.
    cbn [app]. replace ((x =? "x"%uchar) || (x =? "X"%uchar)) with false
      by (unfold isASCIIDigit in HX; lia).
    rewrite app_comm_cons, <- ED. unfold printDecimal.
    rewrite (printed_reference 10 decDigit decChar isASCIIDigit ltac:(lia) decChar_ok) by (done || lia).
    rewrite legalEntityFor_plain by done. intros [_ ->]. eexists. f_equal. unfold ls_ahead.
    cbn [ls_pushed ls_chars app]. f_equal. apply HD.
  - pose proof (consumeHTMLEntity_flat 0
      ("#"%uchar :: "x"%uchar :: printHex v ++ ";"%uchar :: rest) closed n ltac:(by left)) as HR.
    revert HR. unfold reference. rewrite !Z.eqb_refl. cbn [orb]. unfold printHex.
    rewrite (printed_reference 16 hexDigit hexChar isHexDigit ltac:(lia) hexChar_ok) by (done || lia).
    rewrite legalEntityFor_plain by done. intros [_ ->]. eexists. f_equal. unfold ls_ahead.
    cbn [ls_pushed ls_chars app]. f_equal. apply HD.
Qed.

(** The value of a decimal reference is accumulated in a signed 32 bit
    integer without a check: a numeral of any length is read modulo 2^32, so
    that "&#4294967361;" is an "A" instead of U+FFFD, and the limit of
    [legalEntityFor] does not catch it. *)
Theorem numeric_reference_wraps (ds rest : list UChar) (closed : bool) (n : Z) :
  Forall (fun c => isASCIIDigit c = true) ds -> ds <> [] ->
  er_decoded (consumeHTMLEntity 0
    (mkListSource [] ("#"%uchar :: ds ++ ";"%uchar :: rest) closed n)) =
  appendUChar32 (legalEntityFor (int32 (numeral 10 decDigit ds))).
Proof.
  intros HF HN.
  pose proof (consumeHTMLEntity_flat 0 ("#"%uchar :: ds ++ ";"%uchar :: rest) closed n
    ltac:(by left)) as HR. revert HR. unfold reference. rewrite Z.eqb_refl.
  pose proof (span_digits isASCIIDigit ds ";"%uchar rest HF eq_refl) as HS.
  pose proof (digitsValue_wraps 10 decDigit 0 ds) as HW. change (int32 0) with 0 in HW.
  destruct ds as [|x ds]; [done|]. inversion HF as [|? ? HX _]; subst. cbn [app] in *.
  replace ((x =? "x"%uchar) || (x =? "X"%uchar)) with false by (unfold isASCIIDigit in HX; lia).
  unfold numericReference. rewrite HS, HW. by intros [_ ->].
Qed.
End Numeric.

(** ** Witnesses, on the sample table *)

#[local] Instance sampleFolding : CaseFolding := toASCIILower.

Lemma consumeHTMLEntity_decodes_witness :
  let l := mkListSource (str "no") (str "ti=1") false 3 in
  reference 0 (ls_ahead l) = Decoded 3 [172] /\
  consumeHTMLEntity 0 l = mkEntityResult true [172] false (mkListSource [] (str "i=1") false 6).
Proof.
  split; [reflexivity|].
  destruct (consumeHTMLEntity_decodes 0 (mkListSource (str "no") (str "ti=1") false 3)
    ltac:(by left) ltac:(simpl; lia) eq_refl ltac:(done)) as [_ E].
  exact E.
Defined.

Lemma numeric_reference_roundtrip_witness :
  exists k, consumeHTMLEntity 0 (mkListSource [] (str "#128512; ok") true 0) =
    mkEntityResult true [55357; 56832] false (mkListSource [] (str " ok") true k).
Proof.
  destruct (numeric_reference_roundtrip 128512 (str " ok") true 0 ltac:(unfold plainScalar; lia))
    as (us & HU & [k HK] & _).
  exists k. change (str "#128512; ok")
    with ("#"%uchar :: printDecimal 128512 ++ ";"%uchar :: str " ok").
  pose proof (f_equal er_decoded HK) as HD. vm_compute in HD. rewrite <- HD in HK. exact HK.
Defined.

Lemma numeric_reference_wraps_witness :
  er_decoded (consumeHTMLEntity 0 (mkListSource [] (str "#4294967361;") true 0)) = [65].
Proof.
  exact (numeric_reference_wraps (str "4294967361") [] true 0
    ltac:(repeat constructor) ltac:(done)).
Defined.
