(* ===== verification/HTMLToken.v ===== *)
(** * [HTMLToken]

    [html/parser/HTMLToken.h]: the token the tokenizer fills in.  Every member
    function is one definition.  [m_asserts] is a ghost member: it becomes
    [false] when an [ASSERT] of a member function fails or a null pointer is
    followed, which is what the safety theorems exclude. *)

From S2P Require Import Prelude.
Open Scope Z_scope.

Record DoctypeData := mkDoctypeData {
  m_hasPublicIdentifier : bool;
  m_hasSystemIdentifier : bool;
  m_publicIdentifier : list UChar;
  m_systemIdentifier : list UChar;
  m_forceQuirks : bool
}.

#[global] Instance set_m_hasPublicIdentifier : Setter m_hasPublicIdentifier := fun v r =>
  mkDoctypeData v (m_hasSystemIdentifier r) (m_publicIdentifier r) (m_systemIdentifier r) (m_forceQuirks r).
#[global] Instance set_m_hasSystemIdentifier : Setter m_hasSystemIdentifier := fun v r =>
  mkDoctypeData (m_hasPublicIdentifier r) v (m_publicIdentifier r) (m_systemIdentifier r) (m_forceQuirks r).
#[global] Instance set_m_publicIdentifier : Setter m_publicIdentifier := fun v r =>
  mkDoctypeData (m_hasPublicIdentifier r) (m_hasSystemIdentifier r) v (m_systemIdentifier r) (m_forceQuirks r).
#[global] Instance set_m_systemIdentifier : Setter m_systemIdentifier := fun v r =>
  mkDoctypeData (m_hasPublicIdentifier r) (m_hasSystemIdentifier r) (m_publicIdentifier r) v (m_forceQuirks r).
#[global] Instance set_m_forceQuirks : Setter m_forceQuirks := fun v r =>
  mkDoctypeData (m_hasPublicIdentifier r) (m_hasSystemIdentifier r) (m_publicIdentifier r) (m_systemIdentifier r) v.

Definition newDoctypeData : DoctypeData := mkDoctypeData false false [] [] false.

(** [HTMLToken::Type] *)
Inductive TokenType :=
| Uninitialized
| DOCTYPE
| StartTag
| EndTag
| Comment
| Character
| EndOfFile.

#[global] Instance TokenType_eq_dec : EqDecision TokenType.
Proof. solve_decision. Defined.

(** [HTMLToken::Attribute] with its two ranges. *)
Record Attribute := mkAttribute {
  nameRange_start : Z;
  nameRange_end : Z;
  valueRange_start : Z;
  valueRange_end : Z;
  attr_name : list UChar;
  attr_value : list UChar
}.

#[global] Instance set_nameRange_start : Setter nameRange_start := fun v r =>
  mkAttribute v (nameRange_end r) (valueRange_start r) (valueRange_end r) (attr_name r) (attr_value r).
#[global] Instance set_nameRange_end : Setter nameRange_end := fun v r =>
  mkAttribute (nameRange_start r) v (valueRange_start r) (valueRange_end r) (attr_name r) (attr_value r).
#[global] Instance set_valueRange_start : Setter valueRange_start := fun v r =>
  mkAttribute (nameRange_start r) (nameRange_end r) v (valueRange_end r) (attr_name r) (attr_value r).
#[global] Instance set_valueRange_end : Setter valueRange_end := fun v r =>
  mkAttribute (nameRange_start r) (nameRange_end r) (valueRange_start r) v (attr_name r) (attr_value r).
#[global] Instance set_attr_name : Setter attr_name := fun v r =>
  mkAttribute (nameRange_start r) (nameRange_end r) (valueRange_start r) (valueRange_end r) v (attr_value r).
#[global] Instance set_attr_value : Setter attr_value := fun v r =>
  mkAttribute (nameRange_start r) (nameRange_end r) (valueRange_start r) (valueRange_end r) (attr_name r) v.

Definition newAttribute : Attribute := mkAttribute 0 0 0 0 [] [].

(** [m_currentAttribute], a pointer into [m_attributes], is an index. *)
Record HTMLToken := mkHTMLToken {
  m_type : TokenType;
  m_range_start : Z;
  m_range_end : Z;
  m_baseOffset : Z;
  m_tokenData : list UChar;
  m_orAllData : UChar;
  m_selfClosing : bool;
  m_attributes : list Attribute;
  m_currentAttribute : option nat;
  m_doctypeData : option DoctypeData;
  m_asserts : bool
}.

#[global] Instance set_m_type : Setter m_type := fun v r =>
  mkHTMLToken v (m_range_start r) (m_range_end r) (m_baseOffset r) (m_tokenData r) (m_orAllData r) (m_selfClosing r) (m_attributes r) (m_currentAttribute r) (m_doctypeData r) (m_asserts r).
#[global] Instance set_m_range_start : Setter m_range_start := fun v r =>
  mkHTMLToken (m_type r) v (m_range_end r) (m_baseOffset r) (m_tokenData r) (m_orAllData r) (m_selfClosing r) (m_attributes r) (m_currentAttribute r) (m_doctypeData r) (m_asserts r).
#[global] Instance set_m_range_end : Setter m_range_end := fun v r =>
  mkHTMLToken (m_type r) (m_range_start r) v (m_baseOffset r) (m_tokenData r) (m_orAllData r) (m_selfClosing r) (m_attributes r) (m_currentAttribute r) (m_doctypeData r) (m_asserts r).
#[global] Instance set_m_baseOffset : Setter m_baseOffset := fun v r =>
  mkHTMLToken (m_type r) (m_range_start r) (m_range_end r) v (m_tokenData r) (m_orAllData r) (m_selfClosing r) (m_attributes r) (m_currentAttribute r) (m_doctypeData r) (m_asserts r).
#[global] Instance set_m_tokenData : Setter m_tokenData := fun v r =>
  mkHTMLToken (m_type r) (m_range_start r) (m_range_end r) (m_baseOffset r) v (m_orAllData r) (m_selfClosing r) (m_attributes r) (m_currentAttribute r) (m_doctypeData r) (m_asserts r).
#[global] Instance set_m_orAllData : Setter m_orAllData := fun v r =>
  mkHTMLToken (m_type r) (m_range_start r) (m_range_end r) (m_baseOffset r) (m_tokenData r) v (m_selfClosing r) (m_attributes r) (m_currentAttribute r) (m_doctypeData r) (m_asserts r).
#[global] Instance set_m_selfClosing : Setter m_selfClosing := fun v r =>
  mkHTMLToken (m_type r) (m_range_start r) (m_range_end r) (m_baseOffset r) (m_tokenData r) (m_orAllData r) v (m_attributes r) (m_currentAttribute r) (m_doctypeData r) (m_asserts r).
#[global] Instance set_m_attributes : Setter m_attributes := fun v r =>
  mkHTMLToken (m_type r) (m_range_start r) (m_range_end r) (m_baseOffset r) (m_tokenData r) (m_orAllData r) (m_selfClosing r) v (m_currentAttribute r) (m_doctypeData r) (m_asserts r).
#[global] Instance set_m_currentAttribute : Setter m_currentAttribute := fun v r =>
  mkHTMLToken (m_type r) (m_range_start r) (m_range_end r) (m_baseOffset r) (m_tokenData r) (m_orAllData r) (m_selfClosing r) (m_attributes r) v (m_doctypeData r) (m_asserts r).
#[global] Instance set_m_doctypeData : Setter m_doctypeData := fun v r =>
  mkHTMLToken (m_type r) (m_range_start r) (m_range_end r) (m_baseOffset r) (m_tokenData r) (m_orAllData r) (m_selfClosing r) (m_attributes r) (m_currentAttribute r) v (m_asserts r).
#[global] Instance set_m_asserts : Setter m_asserts := fun v r =>
  mkHTMLToken (m_type r) (m_range_start r) (m_range_end r) (m_baseOffset r) (m_tokenData r) (m_orAllData r) (m_selfClosing r) (m_attributes r) (m_currentAttribute r) (m_doctypeData r) v.

Definition newHTMLToken : HTMLToken :=
  mkHTMLToken Uninitialized 0 0 0 [] 0 false [] None None true.

Definition ASSERT (b : bool) (t : HTMLToken) : HTMLToken := t <| m_asserts := m_asserts t && b |>.

Definition typeIs (ty : TokenType) (t : HTMLToken) : bool := bool_decide (m_type t = ty).

Definition isTag (t : HTMLToken) : bool := typeIs StartTag t || typeIs EndTag t.

Definition token_clear (t : HTMLToken) : HTMLToken :=
  t <| m_type := Uninitialized |> <| m_range_start := 0 |> <| m_range_end := 0 |>
    <| m_baseOffset := 0 |> <| m_tokenData := [] |> <| m_orAllData := 0 |>.

Definition isUninitialized (t : HTMLToken) : bool := typeIs Uninitialized t.

Definition makeEndOfFile (t : HTMLToken) : HTMLToken :=
  ASSERT (typeIs Uninitialized t) t <| m_type := EndOfFile |>.

Definition setBaseOffset (offset : Z) (t : HTMLToken) : HTMLToken := t <| m_baseOffset := offset |>.

Definition token_end (endOffset : Z) (t : HTMLToken) : HTMLToken :=
  t <| m_range_end := endOffset - m_baseOffset t |>.

Definition isAll8BitData (t : HTMLToken) : bool := m_orAllData t <=? 255.

(** [m_data.append(character)] and [m_orAllData |= character] *)
Definition appendData (c : UChar) (t : HTMLToken) : HTMLToken :=
  t <| m_tokenData := m_tokenData t ++ [c] |> <| m_orAllData := Z.lor (m_orAllData t) c |>.

Definition appendToName (c : UChar) (t : HTMLToken) : HTMLToken :=
  appendData c (ASSERT (negb (c =? 0)) (ASSERT (isTag t || typeIs DOCTYPE t) t)).

(** *** DOCTYPE tokens *)

(** An access through [m_doctypeData]. *)
Definition onDoctype (f : DoctypeData -> DoctypeData) (t : HTMLToken) : HTMLToken :=
  match m_doctypeData t with
  | Some d => t <| m_doctypeData := Some (f d) |>
  | None => ASSERT false t
  end.

Definition setForceQuirks (t : HTMLToken) : HTMLToken :=
  onDoctype (fun d => d <| m_forceQuirks := true |>) (ASSERT (typeIs DOCTYPE t) t).

Definition beginDOCTYPE (t : HTMLToken) : HTMLToken :=
  ASSERT (typeIs Uninitialized t) t <| m_type := DOCTYPE |>
    <| m_doctypeData := Some newDoctypeData |>.

Definition beginDOCTYPEWith (c : UChar) (t : HTMLToken) : HTMLToken :=
  appendData c (beginDOCTYPE (ASSERT (negb (c =? 0)) t)).

Definition setPublicIdentifierToEmptyString (t : HTMLToken) : HTMLToken :=
  onDoctype (fun d => d <| m_hasPublicIdentifier := true |> <| m_publicIdentifier := [] |>)
    (ASSERT (typeIs DOCTYPE t) t).

Definition setSystemIdentifierToEmptyString (t : HTMLToken) : HTMLToken :=
  onDoctype (fun d => d <| m_hasSystemIdentifier := true |> <| m_systemIdentifier := [] |>)
    (ASSERT (typeIs DOCTYPE t) t).

(** A boolean read through [m_doctypeData]. *)
Definition doctypeFlag (f : DoctypeData -> bool) (t : HTMLToken) : bool :=
  match m_doctypeData t with Some d => f d | None => false end.

Definition appendToPublicIdentifier (c : UChar) (t : HTMLToken) : HTMLToken :=
  onDoctype (fun d => d <| m_publicIdentifier := m_publicIdentifier d ++ [c] |>)
    (ASSERT (doctypeFlag m_hasPublicIdentifier t)
       (ASSERT (typeIs DOCTYPE t) (ASSERT (negb (c =? 0)) t))).

Definition appendToSystemIdentifier (c : UChar) (t : HTMLToken) : HTMLToken :=
  onDoctype (fun d => d <| m_systemIdentifier := m_systemIdentifier d ++ [c] |>)
    (ASSERT (doctypeFlag m_hasSystemIdentifier t)
       (ASSERT (typeIs DOCTYPE t) (ASSERT (negb (c =? 0)) t))).

(** *** Start and end tag tokens *)

Definition setSelfClosing (t : HTMLToken) : HTMLToken :=
  ASSERT (isTag t) t <| m_selfClosing := true |>.

Definition beginStartTag (c : UChar) (t : HTMLToken) : HTMLToken :=
  appendData c
    (ASSERT (typeIs Uninitialized t) (ASSERT (negb (c =? 0)) t)
       <| m_type := StartTag |> <| m_selfClosing := false |>
       <| m_currentAttribute := None |> <| m_attributes := [] |>).

(** Both overloads of [beginEndTag]: for an [LChar] and for a vector of them. *)
Definition beginEndTag (cs : list LChar) (t : HTMLToken) : HTMLToken :=
  let t := ASSERT (typeIs Uninitialized t) t
       <| m_type := EndTag |> <| m_selfClosing := false |>
       <| m_currentAttribute := None |> <| m_attributes := [] |> in
  t <| m_tokenData := m_tokenData t ++ cs |>.

Definition addNewAttribute (t : HTMLToken) : HTMLToken :=
  let t := ASSERT (isTag t) t <| m_attributes := m_attributes t ++ [newAttribute] |> in
  t <| m_currentAttribute := Some (length (m_attributes t) - 1)%nat |>.

(** An access through [m_currentAttribute]. *)
Definition onAttribute (f : Attribute -> Attribute) (t : HTMLToken) : HTMLToken :=
  match m_currentAttribute t with
  | Some i => t <| m_attributes := alter f i (m_attributes t) |>
  | None => ASSERT false t
  end.

Definition beginAttributeName (offset : Z) (t : HTMLToken) : HTMLToken :=
  onAttribute (fun a => a <| nameRange_start := offset - m_baseOffset t |>) t.

Definition endAttributeName (offset : Z) (t : HTMLToken) : HTMLToken :=
  let index := offset - m_baseOffset t in
  onAttribute (fun a => a <| nameRange_end := index |> <| valueRange_start := index |>
                          <| valueRange_end := index |>) t.

(** [valueRange.end] is only reset in debug builds, which are the ones that
    check the assertions. *)
Definition beginAttributeValue (offset : Z) (t : HTMLToken) : HTMLToken :=
  onAttribute (fun a => a <| valueRange_start := offset - m_baseOffset t |>
                          <| valueRange_end := 0 |>) t.

Definition endAttributeValue (offset : Z) (t : HTMLToken) : HTMLToken :=
  onAttribute (fun a => a <| valueRange_end := offset - m_baseOffset t |>) t.

Definition appendToAttributeName (c : UChar) (t : HTMLToken) : HTMLToken :=
  onAttribute (fun a => a <| attr_name := attr_name a ++ [c] |>)
    (ASSERT (isTag t) (ASSERT (negb (c =? 0)) t)).

(** A read of [m_currentAttribute->valueRange.start]. *)
Definition currentValueStart (t : HTMLToken) : Z :=
  match m_currentAttribute t with
  | Some i => match m_attributes t !! i with Some a => valueRange_start a | None => 0 end
  | None => 0
  end.

Definition appendToAttributeValue (c : UChar) (t : HTMLToken) : HTMLToken :=
  onAttribute (fun a => a <| attr_value := attr_value a ++ [c] |>)
    (ASSERT (negb (currentValueStart t =? 0))
       (ASSERT (isTag t) (ASSERT (negb (c =? 0)) t))).

(** *** Character tokens *)

Definition ensureIsCharacterToken (t : HTMLToken) : HTMLToken :=
  ASSERT (typeIs Uninitialized t || typeIs Character t) t <| m_type := Character |>.

Definition appendToCharacter (c : UChar) (t : HTMLToken) : HTMLToken :=
  appendData c (ASSERT (typeIs Character t) t).

(** The overload for a vector of [LChar] leaves [m_orAllData] alone. *)
Definition appendVectorToCharacter (cs : list LChar) (t : HTMLToken) : HTMLToken :=
  let t := ASSERT (typeIs Character t) t in t <| m_tokenData := m_tokenData t ++ cs |>.

(** *** Comment tokens *)

Definition beginComment (t : HTMLToken) : HTMLToken :=
  ASSERT (typeIs Uninitialized t) t <| m_type := Comment |>.

Definition appendToComment (c : UChar) (t : HTMLToken) : HTMLToken :=
  appendData c (ASSERT (typeIs Comment t) (ASSERT (negb (c =? 0)) t)).

Definition eraseCharacters (t : HTMLToken) : HTMLToken :=
  ASSERT (typeIs Character t) t <| m_tokenData := [] |> <| m_orAllData := 0 |>.

Definition eraseValueOfAttribute (i : nat) (t : HTMLToken) : HTMLToken :=
  let t := ASSERT (isTag t) t in
  t <| m_attributes := alter (fun a => a <| attr_value := [] |>) i (m_attributes t) |>.
