(* ===== verification/TokenizerStates.v ===== *)
(** * Data and states of [HTMLTokenizer]

    [html/parser/HTMLTokenizer.h] and the state blocks of
    [HTMLTokenizer::nextToken] in [HTMLTokenizer.cpp].  A state block is a
    definition that takes the current character and the tokenizer with its
    token, and answers with the macro the block ends in ([Action]).  Blocks
    that never touch the source only receive the number of characters it has
    consumed; the five blocks that look ahead or consume a character reference
    receive the source itself. *)

From S2P Require Import Prelude CharacterSource InputStreamPreprocessor HTMLEntitySearch.
From S2P Require Import CharacterReference HTMLToken.
Open Scope Z_scope.

(** ** Data *)

(** [HTMLTokenizer::State] *)
Inductive State :=
| DataState
| CharacterReferenceInDataState
| RCDATAState
| CharacterReferenceInRCDATAState
| RAWTEXTState
| ScriptDataState
| PLAINTEXTState
| TagOpenState
| EndTagOpenState
| TagNameState
| RCDATALessThanSignState
| RCDATAEndTagOpenState
| RCDATAEndTagNameState
| RAWTEXTLessThanSignState
| RAWTEXTEndTagOpenState
| RAWTEXTEndTagNameState
| ScriptDataLessThanSignState
| ScriptDataEndTagOpenState
| ScriptDataEndTagNameState
| ScriptDataEscapeStartState
| ScriptDataEscapeStartDashState
| ScriptDataEscapedState
| ScriptDataEscapedDashState
| ScriptDataEscapedDashDashState
| ScriptDataEscapedLessThanSignState
| ScriptDataEscapedEndTagOpenState
| ScriptDataEscapedEndTagNameState
| ScriptDataDoubleEscapeStartState
| ScriptDataDoubleEscapedState
| ScriptDataDoubleEscapedDashState
| ScriptDataDoubleEscapedDashDashState
| ScriptDataDoubleEscapedLessThanSignState
| ScriptDataDoubleEscapeEndState
| BeforeAttributeNameState
| AttributeNameState
| AfterAttributeNameState
| BeforeAttributeValueState
| AttributeValueDoubleQuotedState
| AttributeValueSingleQuotedState
| AttributeValueUnquotedState
| CharacterReferenceInAttributeValueState
| AfterAttributeValueQuotedState
| SelfClosingStartTagState
| BogusCommentState
| ContinueBogusCommentState
| MarkupDeclarationOpenState
| CommentStartState
| CommentStartDashState
| CommentState
| CommentEndDashState
| CommentEndState
| CommentEndBangState
| DOCTYPEState
| BeforeDOCTYPENameState
| DOCTYPENameState
| AfterDOCTYPENameState
| AfterDOCTYPEPublicKeywordState
| BeforeDOCTYPEPublicIdentifierState
| DOCTYPEPublicIdentifierDoubleQuotedState
| DOCTYPEPublicIdentifierSingleQuotedState
| AfterDOCTYPEPublicIdentifierState
| BetweenDOCTYPEPublicAndSystemIdentifiersState
| AfterDOCTYPESystemKeywordState
| BeforeDOCTYPESystemIdentifierState
| DOCTYPESystemIdentifierDoubleQuotedState
| DOCTYPESystemIdentifierSingleQuotedState
| AfterDOCTYPESystemIdentifierState
| BogusDOCTYPEState
| CDATASectionState
| CDATASectionRightSquareBracketState
| CDATASectionDoubleRightSquareBracketState.

#[global] Instance State_eq_dec : EqDecision State.
Proof. solve_decision. Defined.

Record HTMLParserOptions := mkOptions {
  scriptEnabled : bool;
  pluginsEnabled : bool;
  usePreHTML5ParserQuirks : bool;
  useThreading : bool;
  maximumDOMTreeDepth : Z
}.

#[global] Instance set_scriptEnabled : Setter scriptEnabled := fun v r =>
  mkOptions v (pluginsEnabled r) (usePreHTML5ParserQuirks r) (useThreading r) (maximumDOMTreeDepth r).
#[global] Instance set_pluginsEnabled : Setter pluginsEnabled := fun v r =>
  mkOptions (scriptEnabled r) v (usePreHTML5ParserQuirks r) (useThreading r) (maximumDOMTreeDepth r).
#[global] Instance set_usePreHTML5ParserQuirks : Setter usePreHTML5ParserQuirks := fun v r =>
  mkOptions (scriptEnabled r) (pluginsEnabled r) v (useThreading r) (maximumDOMTreeDepth r).
#[global] Instance set_useThreading : Setter useThreading := fun v r =>
  mkOptions (scriptEnabled r) (pluginsEnabled r) (usePreHTML5ParserQuirks r) v (maximumDOMTreeDepth r).
#[global] Instance set_maximumDOMTreeDepth : Setter maximumDOMTreeDepth := fun v r =>
  mkOptions (scriptEnabled r) (pluginsEnabled r) (usePreHTML5ParserQuirks r) (useThreading r) v.

Record HTMLTokenizer := mkTokenizer {
  m_state : State;
  m_forceNullCharacterReplacement : bool;
  m_shouldAllowCDATA : bool;
  m_additionalAllowedCharacter : UChar;
  m_inputStreamPreprocessor : Preprocessor;
  m_appropriateEndTagName : list UChar;
  m_temporaryBuffer : list LChar;
  m_bufferedEndTagName : list LChar;
  m_options : HTMLParserOptions
}.

#[global] Instance set_m_state : Setter m_state := fun v r =>
  mkTokenizer v (m_forceNullCharacterReplacement r) (m_shouldAllowCDATA r) (m_additionalAllowedCharacter r) (m_inputStreamPreprocessor r) (m_appropriateEndTagName r) (m_temporaryBuffer r) (m_bufferedEndTagName r) (m_options r).
#[global] Instance set_m_forceNullCharacterReplacement : Setter m_forceNullCharacterReplacement := fun v r =>
  mkTokenizer (m_state r) v (m_shouldAllowCDATA r) (m_additionalAllowedCharacter r) (m_inputStreamPreprocessor r) (m_appropriateEndTagName r) (m_temporaryBuffer r) (m_bufferedEndTagName r) (m_options r).
#[global] Instance set_m_shouldAllowCDATA : Setter m_shouldAllowCDATA := fun v r =>
  mkTokenizer (m_state r) (m_forceNullCharacterReplacement r) v (m_additionalAllowedCharacter r) (m_inputStreamPreprocessor r) (m_appropriateEndTagName r) (m_temporaryBuffer r) (m_bufferedEndTagName r) (m_options r).
#[global] Instance set_m_additionalAllowedCharacter : Setter m_additionalAllowedCharacter := fun v r =>
  mkTokenizer (m_state r) (m_forceNullCharacterReplacement r) (m_shouldAllowCDATA r) v (m_inputStreamPreprocessor r) (m_appropriateEndTagName r) (m_temporaryBuffer r) (m_bufferedEndTagName r) (m_options r).
#[global] Instance set_m_inputStreamPreprocessor : Setter m_inputStreamPreprocessor := fun v r =>
  mkTokenizer (m_state r) (m_forceNullCharacterReplacement r) (m_shouldAllowCDATA r) (m_additionalAllowedCharacter r) v (m_appropriateEndTagName r) (m_temporaryBuffer r) (m_bufferedEndTagName r) (m_options r).
#[global] Instance set_m_appropriateEndTagName : Setter m_appropriateEndTagName := fun v r =>
  mkTokenizer (m_state r) (m_forceNullCharacterReplacement r) (m_shouldAllowCDATA r) (m_additionalAllowedCharacter r) (m_inputStreamPreprocessor r) v (m_temporaryBuffer r) (m_bufferedEndTagName r) (m_options r).
#[global] Instance set_m_temporaryBuffer : Setter m_temporaryBuffer := fun v r =>
  mkTokenizer (m_state r) (m_forceNullCharacterReplacement r) (m_shouldAllowCDATA r) (m_additionalAllowedCharacter r) (m_inputStreamPreprocessor r) (m_appropriateEndTagName r) v (m_bufferedEndTagName r) (m_options r).
#[global] Instance set_m_bufferedEndTagName : Setter m_bufferedEndTagName := fun v r =>
  mkTokenizer (m_state r) (m_forceNullCharacterReplacement r) (m_shouldAllowCDATA r) (m_additionalAllowedCharacter r) (m_inputStreamPreprocessor r) (m_appropriateEndTagName r) (m_temporaryBuffer r) v (m_options r).
#[global] Instance set_m_options : Setter m_options := fun v r =>
  mkTokenizer (m_state r) (m_forceNullCharacterReplacement r) (m_shouldAllowCDATA r) (m_additionalAllowedCharacter r) (m_inputStreamPreprocessor r) (m_appropriateEndTagName r) (m_temporaryBuffer r) (m_bufferedEndTagName r) v.

(** The tokenizer together with the token [m_token] points to. *)
Record TState := mkTState {
  tk : HTMLTokenizer;
  token : HTMLToken
}.

#[global] Instance set_tk : Setter tk := fun v r =>
  mkTState v (token r).
#[global] Instance set_token : Setter token := fun v r =>
  mkTState (tk r) v.

(** ** Helpers of the state blocks *)

Definition toLChar (c : UChar) : LChar := c mod 256.

Definition toLowerCase (cc : UChar) : UChar := cc + 32.

Definition isTokenizerWhitespace (cc : UChar) : bool :=
  (cc =? " "%uchar) || (cc =? cLF) || (cc =? cTAB) || (cc =? cFF).

(** [scriptTag.localName()] *)
Definition scriptTag : list UChar := Eval cbv in str "script".

Definition onToken (f : HTMLToken -> HTMLToken) (t : TState) : TState := t <| token := f (token t) |>.

(** An [ASSERT] of the tokenizer is recorded in its token. *)
Definition assertT (b : bool) (t : TState) : TState := onToken (ASSERT b) t.

Definition onTokenizer (f : HTMLTokenizer -> HTMLTokenizer) (t : TState) : TState :=
  t <| tk := f (tk t) |>.

Definition setState (st : State) (t : TState) : TState := onTokenizer (fun k => k <| m_state := st |>) t.

Definition isEndTagBufferingState (state : State) : bool :=
  match state with
  | RCDATAEndTagOpenState
  | RCDATAEndTagNameState
  | RAWTEXTEndTagOpenState
  | RAWTEXTEndTagNameState
  | ScriptDataEndTagOpenState
  | ScriptDataEndTagNameState
  | ScriptDataEscapedEndTagOpenState
  | ScriptDataEscapedEndTagNameState => true
  | _ => false
  end.

Definition bufferCharacter (c : UChar) (t : TState) : TState :=
  onToken (appendToCharacter c)
    (onToken ensureIsCharacterToken (assertT (negb (c =? kEndOfFileMarker)) t)).

Definition clearTemporaryBuffer (t : TState) : TState :=
  onTokenizer (fun k => k <| m_temporaryBuffer := [] |>) t.
Definition clearBufferedEndTagName (t : TState) : TState :=
  onTokenizer (fun k => k <| m_bufferedEndTagName := [] |>) t.
Definition clearAppropriateEndTagName (t : TState) : TState :=
  onTokenizer (fun k => k <| m_appropriateEndTagName := [] |>) t.
Definition appendToTemporaryBuffer (c : LChar) (t : TState) : TState :=
  onTokenizer (fun k => k <| m_temporaryBuffer := m_temporaryBuffer k ++ [c] |>) t.
Definition setAdditionalAllowedCharacter (c : UChar) (t : TState) : TState :=
  onTokenizer (fun k => k <| m_additionalAllowedCharacter := c |>) t.

Definition addToPossibleEndTag (c : LChar) (t : TState) : TState :=
  onTokenizer (fun k => k <| m_bufferedEndTagName := m_bufferedEndTagName k ++ [c] |>)
    (assertT (isEndTagBufferingState (m_state (tk t))) t).

(** [ASSERT(m_bufferedEndTagName.isEmpty())] *)
Definition assertNoBufferedEndTagName (t : TState) : TState :=
  assertT (bool_decide (m_bufferedEndTagName (tk t) = [])) t.

(** The element-wise loop compares what equal lengths and equal elements do. *)
Definition isAppropriateEndTag (t : TState) : bool :=
  let b := m_bufferedEndTagName (tk t) in
  let a := m_appropriateEndTagName (tk t) in
  if negb (length b =? length a)%nat then false
  else forallb (fun '(x, y) => x =? y) (combine b a).

Definition vectorEqualsString (vector : list LChar) (string : list UChar) : bool :=
  if negb (length vector =? length string)%nat then false
  else if (length string =? 0)%nat then true
  else forallb (fun '(x, y) => x =? y) (combine string vector).

Definition temporaryBufferIs (expectedString : list UChar) (t : TState) : bool :=
  vectorEqualsString (m_temporaryBuffer (tk t)) expectedString.

Definition haveBufferedCharacterToken (t : TState) : bool := typeIs Character (token t).

(** What a state block ends in: one of the macros of [MarkupTokenizerInlines.h]
    and [HTMLTokenizer.cpp], or a [return]. *)
Inductive Action :=
| HTML_ADVANCE_TO (st : State)
| HTML_RECONSUME_IN (st : State)
| HTML_SWITCH_TO (st : State)
| FLUSH_AND_ADVANCE_TO (st : State)
| EMIT_AND_RESUME_IN (st : State)
| EMIT_AND_RECONSUME_IN (st : State)
| FLUSH_EMIT_AND_RESUME_IN (st : State)
| EMIT_END_OF_FILE
| RETURN_TRUE
| RETURN_FALSE
| RETURN_HAVE_BUFFERED_CHARACTER_TOKEN.

(** ** The state blocks

    [parseError] is [notImplemented] and leaves no trace. *)

Definition DataState_block (consumed : Z) (cc : UChar) (t : TState) : Action * TState :=
  if (cc =? "&"%uchar) then
    (HTML_ADVANCE_TO CharacterReferenceInDataState, t)
  else if (cc =? "<"%uchar) then
    if typeIs Character (token t) then
      (RETURN_TRUE, t)
    else
      (HTML_ADVANCE_TO TagOpenState, t)
  else if (cc =? kEndOfFileMarker) then
    (EMIT_END_OF_FILE, t)
  else
    let t := bufferCharacter cc t in
    (HTML_ADVANCE_TO DataState, t).

Definition RCDATAState_block (consumed : Z) (cc : UChar) (t : TState) : Action * TState :=
  if (cc =? "&"%uchar) then
    (HTML_ADVANCE_TO CharacterReferenceInRCDATAState, t)
  else if (cc =? "<"%uchar) then
    (HTML_ADVANCE_TO RCDATALessThanSignState, t)
  else if (cc =? kEndOfFileMarker) then
    (EMIT_END_OF_FILE, t)
  else
    let t := bufferCharacter cc t in
    (HTML_ADVANCE_TO RCDATAState, t).

Definition RAWTEXTState_block (consumed : Z) (cc : UChar) (t : TState) : Action * TState :=
  if (cc =? "<"%uchar) then
    (HTML_ADVANCE_TO RAWTEXTLessThanSignState, t)
  else if (cc =? kEndOfFileMarker) then
    (EMIT_END_OF_FILE, t)
  else
    let t := bufferCharacter cc t in
    (HTML_ADVANCE_TO RAWTEXTState, t).

Definition ScriptDataState_block (consumed : Z) (cc : UChar) (t : TState) : Action * TState :=
  if (cc =? "<"%uchar) then
    (HTML_ADVANCE_TO ScriptDataLessThanSignState, t)
  else if (cc =? kEndOfFileMarker) then
    (EMIT_END_OF_FILE, t)
  else
    let t := bufferCharacter cc t in
    (HTML_ADVANCE_TO ScriptDataState, t).

Definition PLAINTEXTState_block (consumed : Z) (cc : UChar) (t : TState) : Action * TState :=
  if (cc =? kEndOfFileMarker) then
    (EMIT_END_OF_FILE, t)
  else
    let t := bufferCharacter cc t in
    (HTML_ADVANCE_TO PLAINTEXTState, t).

Definition TagOpenState_block (consumed : Z) (cc : UChar) (t : TState) : Action * TState :=
  if (cc =? "!"%uchar) then
    (HTML_ADVANCE_TO MarkupDeclarationOpenState, t)
  else if (cc =? "/"%uchar) then
    (HTML_ADVANCE_TO EndTagOpenState, t)
  else if isASCIIUpper cc then
    let t := onToken (beginStartTag (toLowerCase cc)) t in
    (HTML_ADVANCE_TO TagNameState, t)
  else if isASCIILower cc then
    let t := onToken (beginStartTag cc) t in
    (HTML_ADVANCE_TO TagNameState, t)
  else if (cc =? "?"%uchar) then
    (HTML_RECONSUME_IN BogusCommentState, t)
  else
    let t := bufferCharacter "<"%uchar t in
    (HTML_RECONSUME_IN DataState, t).

Definition EndTagOpenState_block (consumed : Z) (cc : UChar) (t : TState) : Action * TState :=
  if isASCIIUpper cc then
    let t := onToken (beginEndTag [(toLChar (toLowerCase cc))]) t in
    let t := clearAppropriateEndTagName t in
    (HTML_ADVANCE_TO TagNameState, t)
  else if isASCIILower cc then
    let t := onToken (beginEndTag [(toLChar cc)]) t in
    let t := clearAppropriateEndTagName t in
    (HTML_ADVANCE_TO TagNameState, t)
  else if (cc =? ">"%uchar) then
    (HTML_ADVANCE_TO DataState, t)
  else if (cc =? kEndOfFileMarker) then
    let t := bufferCharacter "<"%uchar t in
    let t := bufferCharacter "/"%uchar t in
    (HTML_RECONSUME_IN DataState, t)
  else
    (HTML_RECONSUME_IN BogusCommentState, t).

Definition TagNameState_block (consumed : Z) (cc : UChar) (t : TState) : Action * TState :=
  if isTokenizerWhitespace cc then
    (HTML_ADVANCE_TO BeforeAttributeNameState, t)
  else if (cc =? "/"%uchar) then
    (HTML_ADVANCE_TO SelfClosingStartTagState, t)
  else if (cc =? ">"%uchar) then
    (EMIT_AND_RESUME_IN DataState, t)
  else if usePreHTML5ParserQuirks (m_options (tk t)) && (cc =? "<"%uchar) then
    (EMIT_AND_RECONSUME_IN DataState, t)
  else if isASCIIUpper cc then
    let t := onToken (appendToName (toLowerCase cc)) t in
    (HTML_ADVANCE_TO TagNameState, t)
  else if (cc =? kEndOfFileMarker) then
    (HTML_RECONSUME_IN DataState, t)
  else
    let t := onToken (appendToName cc) t in
    (HTML_ADVANCE_TO TagNameState, t).

Definition RCDATALessThanSignState_block (consumed : Z) (cc : UChar) (t : TState) : Action * TState :=
  if (cc =? "/"%uchar) then
    let t := clearTemporaryBuffer t in
    let t := assertNoBufferedEndTagName t in
    (HTML_ADVANCE_TO RCDATAEndTagOpenState, t)
  else
    let t := bufferCharacter "<"%uchar t in
    (HTML_RECONSUME_IN RCDATAState, t).

Definition RCDATAEndTagOpenState_block (consumed : Z) (cc : UChar) (t : TState) : Action * TState :=
  if isASCIIUpper cc then
    let t := appendToTemporaryBuffer (toLChar cc) t in
    let t := addToPossibleEndTag (toLChar (toLowerCase cc)) t in
    (HTML_ADVANCE_TO RCDATAEndTagNameState, t)
  else if isASCIILower cc then
    let t := appendToTemporaryBuffer (toLChar cc) t in
    let t := addToPossibleEndTag (toLChar cc) t in
    (HTML_ADVANCE_TO RCDATAEndTagNameState, t)
  else
    let t := bufferCharacter "<"%uchar t in
    let t := bufferCharacter "/"%uchar t in
    (HTML_RECONSUME_IN RCDATAState, t).

Definition RCDATAEndTagNameState_block (consumed : Z) (cc : UChar) (t : TState) : Action * TState :=
  if isASCIIUpper cc then
    let t := appendToTemporaryBuffer (toLChar cc) t in
    let t := addToPossibleEndTag (toLChar (toLowerCase cc)) t in
    (HTML_ADVANCE_TO RCDATAEndTagNameState, t)
  else if isASCIILower cc then
    let t := appendToTemporaryBuffer (toLChar cc) t in
    let t := addToPossibleEndTag (toLChar cc) t in
    (HTML_ADVANCE_TO RCDATAEndTagNameState, t)
  else
    let fallThrough t :=
      let t := bufferCharacter "<"%uchar t in
      let t := bufferCharacter "/"%uchar t in
      let t := onToken (appendVectorToCharacter (m_temporaryBuffer (tk t))) t in
      let t := clearBufferedEndTagName t in
      let t := clearTemporaryBuffer t in
      (HTML_RECONSUME_IN RCDATAState, t) in
    if isTokenizerWhitespace cc then
      if isAppropriateEndTag t then
        let t := appendToTemporaryBuffer (toLChar cc) t in
        (FLUSH_AND_ADVANCE_TO BeforeAttributeNameState, t)
      else
        fallThrough t
    else if (cc =? "/"%uchar) then
      if isAppropriateEndTag t then
        let t := appendToTemporaryBuffer (toLChar cc) t in
        (FLUSH_AND_ADVANCE_TO SelfClosingStartTagState, t)
      else
        fallThrough t
    else if (cc =? ">"%uchar) then
      if isAppropriateEndTag t then
        let t := appendToTemporaryBuffer (toLChar cc) t in
        (FLUSH_EMIT_AND_RESUME_IN DataState, t)
      else
        fallThrough t
    else
      fallThrough t.

Definition RAWTEXTLessThanSignState_block (consumed : Z) (cc : UChar) (t : TState) : Action * TState :=
  if (cc =? "/"%uchar) then
    let t := clearTemporaryBuffer t in
    let t := assertNoBufferedEndTagName t in
    (HTML_ADVANCE_TO RAWTEXTEndTagOpenState, t)
  else
    let t := bufferCharacter "<"%uchar t in
    (HTML_RECONSUME_IN RAWTEXTState, t).

Definition RAWTEXTEndTagOpenState_block (consumed : Z) (cc : UChar) (t : TState) : Action * TState :=
  if isASCIIUpper cc then
    let t := appendToTemporaryBuffer (toLChar cc) t in
    let t := addToPossibleEndTag (toLChar (toLowerCase cc)) t in
    (HTML_ADVANCE_TO RAWTEXTEndTagNameState, t)
  else if isASCIILower cc then
    let t := appendToTemporaryBuffer (toLChar cc) t in
    let t := addToPossibleEndTag (toLChar cc) t in
    (HTML_ADVANCE_TO RAWTEXTEndTagNameState, t)
  else
    let t := bufferCharacter "<"%uchar t in
    let t := bufferCharacter "/"%uchar t in
    (HTML_RECONSUME_IN RAWTEXTState, t).

Definition RAWTEXTEndTagNameState_block (consumed : Z) (cc : UChar) (t : TState) : Action * TState :=
  if isASCIIUpper cc then
    let t := appendToTemporaryBuffer (toLChar cc) t in
    let t := addToPossibleEndTag (toLChar (toLowerCase cc)) t in
    (HTML_ADVANCE_TO RAWTEXTEndTagNameState, t)
  else if isASCIILower cc then
    let t := appendToTemporaryBuffer (toLChar cc) t in
    let t := addToPossibleEndTag (toLChar cc) t in
    (HTML_ADVANCE_TO RAWTEXTEndTagNameState, t)
  else
    let fallThrough t :=
      let t := bufferCharacter "<"%uchar t in
      let t := bufferCharacter "/"%uchar t in
      let t := onToken (appendVectorToCharacter (m_temporaryBuffer (tk t))) t in
      let t := clearBufferedEndTagName t in
      let t := clearTemporaryBuffer t in
      (HTML_RECONSUME_IN RAWTEXTState, t) in
    if isTokenizerWhitespace cc then
      if isAppropriateEndTag t then
        let t := appendToTemporaryBuffer (toLChar cc) t in
        (FLUSH_AND_ADVANCE_TO BeforeAttributeNameState, t)
      else
        fallThrough t
    else if (cc =? "/"%uchar) then
      if isAppropriateEndTag t then
        let t := appendToTemporaryBuffer (toLChar cc) t in
        (FLUSH_AND_ADVANCE_TO SelfClosingStartTagState, t)
      else
        fallThrough t
    else if (cc =? ">"%uchar) then
      if isAppropriateEndTag t then
        let t := appendToTemporaryBuffer (toLChar cc) t in
        (FLUSH_EMIT_AND_RESUME_IN DataState, t)
      else
        fallThrough t
    else
      fallThrough t.

Definition ScriptDataLessThanSignState_block (consumed : Z) (cc : UChar) (t : TState) : Action * TState :=
  if (cc =? "/"%uchar) then
    let t := clearTemporaryBuffer t in
    let t := assertNoBufferedEndTagName t in
    (HTML_ADVANCE_TO ScriptDataEndTagOpenState, t)
  else if (cc =? "!"%uchar) then
    let t := bufferCharacter "<"%uchar t in
    let t := bufferCharacter "!"%uchar t in
    (HTML_ADVANCE_TO ScriptDataEscapeStartState, t)
  else
    let t := bufferCharacter "<"%uchar t in
    (HTML_RECONSUME_IN ScriptDataState, t).

Definition ScriptDataEndTagOpenState_block (consumed : Z) (cc : UChar) (t : TState) : Action * TState :=
  if isASCIIUpper cc then
    let t := appendToTemporaryBuffer (toLChar cc) t in
    let t := addToPossibleEndTag (toLChar (toLowerCase cc)) t in
    (HTML_ADVANCE_TO ScriptDataEndTagNameState, t)
  else if isASCIILower cc then
    let t := appendToTemporaryBuffer (toLChar cc) t in
    let t := addToPossibleEndTag (toLChar cc) t in
    (HTML_ADVANCE_TO ScriptDataEndTagNameState, t)
  else
    let t := bufferCharacter "<"%uchar t in
    let t := bufferCharacter "/"%uchar t in
    (HTML_RECONSUME_IN ScriptDataState, t).

Definition ScriptDataEndTagNameState_block (consumed : Z) (cc : UChar) (t : TState) : Action * TState :=
  if isASCIIUpper cc then
    let t := appendToTemporaryBuffer (toLChar cc) t in
    let t := addToPossibleEndTag (toLChar (toLowerCase cc)) t in
    (HTML_ADVANCE_TO ScriptDataEndTagNameState, t)
  else if isASCIILower cc then
    let t := appendToTemporaryBuffer (toLChar cc) t in
    let t := addToPossibleEndTag (toLChar cc) t in
    (HTML_ADVANCE_TO ScriptDataEndTagNameState, t)
  else
    let fallThrough t :=
      let t := bufferCharacter "<"%uchar t in
      let t := bufferCharacter "/"%uchar t in
      let t := onToken (appendVectorToCharacter (m_temporaryBuffer (tk t))) t in
      let t := clearBufferedEndTagName t in
      let t := clearTemporaryBuffer t in
      (HTML_RECONSUME_IN ScriptDataState, t) in
    if isTokenizerWhitespace cc then
      if isAppropriateEndTag t then
        let t := appendToTemporaryBuffer (toLChar cc) t in
        (FLUSH_AND_ADVANCE_TO BeforeAttributeNameState, t)
      else
        fallThrough t
    else if (cc =? "/"%uchar) then
      if isAppropriateEndTag t then
        let t := appendToTemporaryBuffer (toLChar cc) t in
        (FLUSH_AND_ADVANCE_TO SelfClosingStartTagState, t)
      else
        fallThrough t
    else if (cc =? ">"%uchar) then
      if isAppropriateEndTag t then
        let t := appendToTemporaryBuffer (toLChar cc) t in
        (FLUSH_EMIT_AND_RESUME_IN DataState, t)
      else
        fallThrough t
    else
      fallThrough t.

Definition ScriptDataEscapeStartState_block (consumed : Z) (cc : UChar) (t : TState) : Action * TState :=
  if (cc =? "-"%uchar) then
    let t := bufferCharacter cc t in
    (HTML_ADVANCE_TO ScriptDataEscapeStartDashState, t)
  else
    (HTML_RECONSUME_IN ScriptDataState, t).

Definition ScriptDataEscapeStartDashState_block (consumed : Z) (cc : UChar) (t : TState) : Action * TState :=
  if (cc =? "-"%uchar) then
    let t := bufferCharacter cc t in
    (HTML_ADVANCE_TO ScriptDataEscapedDashDashState, t)
  else
    (HTML_RECONSUME_IN ScriptDataState, t).

Definition ScriptDataEscapedState_block (consumed : Z) (cc : UChar) (t : TState) : Action * TState :=
  if (cc =? "-"%uchar) then
    let t := bufferCharacter cc t in
    (HTML_ADVANCE_TO ScriptDataEscapedDashState, t)
  else if (cc =? "<"%uchar) then
    (HTML_ADVANCE_TO ScriptDataEscapedLessThanSignState, t)
  else if (cc =? kEndOfFileMarker) then
    (HTML_RECONSUME_IN DataState, t)
  else
    let t := bufferCharacter cc t in
    (HTML_ADVANCE_TO ScriptDataEscapedState, t).

Definition ScriptDataEscapedDashState_block (consumed : Z) (cc : UChar) (t : TState) : Action * TState :=
  if (cc =? "-"%uchar) then
    let t := bufferCharacter cc t in
    (HTML_ADVANCE_TO ScriptDataEscapedDashDashState, t)
  else if (cc =? "<"%uchar) then
    (HTML_ADVANCE_TO ScriptDataEscapedLessThanSignState, t)
  else if (cc =? kEndOfFileMarker) then
    (HTML_RECONSUME_IN DataState, t)
  else
    let t := bufferCharacter cc t in
    (HTML_ADVANCE_TO ScriptDataEscapedState, t).

Definition ScriptDataEscapedDashDashState_block (consumed : Z) (cc : UChar) (t : TState) : Action * TState :=
  if (cc =? "-"%uchar) then
    let t := bufferCharacter cc t in
    (HTML_ADVANCE_TO ScriptDataEscapedDashDashState, t)
  else if (cc =? "<"%uchar) then
    (HTML_ADVANCE_TO ScriptDataEscapedLessThanSignState, t)
  else if (cc =? ">"%uchar) then
    let t := bufferCharacter cc t in
    (HTML_ADVANCE_TO ScriptDataState, t)
  else if (cc =? kEndOfFileMarker) then
    (HTML_RECONSUME_IN DataState, t)
  else
    let t := bufferCharacter cc t in
    (HTML_ADVANCE_TO ScriptDataEscapedState, t).

Definition ScriptDataEscapedLessThanSignState_block (consumed : Z) (cc : UChar) (t : TState) : Action * TState :=
  if (cc =? "/"%uchar) then
    let t := clearTemporaryBuffer t in
    let t := assertNoBufferedEndTagName t in
    (HTML_ADVANCE_TO ScriptDataEscapedEndTagOpenState, t)
  else if isASCIIUpper cc then
    let t := bufferCharacter "<"%uchar t in
    let t := bufferCharacter cc t in
    let t := clearTemporaryBuffer t in
    let t := appendToTemporaryBuffer (toLowerCase cc) t in
    (HTML_ADVANCE_TO ScriptDataDoubleEscapeStartState, t)
  else if isASCIILower cc then
    let t := bufferCharacter "<"%uchar t in
    let t := bufferCharacter cc t in
    let t := clearTemporaryBuffer t in
    let t := appendToTemporaryBuffer (toLChar cc) t in
    (HTML_ADVANCE_TO ScriptDataDoubleEscapeStartState, t)
  else
    let t := bufferCharacter "<"%uchar t in
    (HTML_RECONSUME_IN ScriptDataEscapedState, t).

Definition ScriptDataEscapedEndTagOpenState_block (consumed : Z) (cc : UChar) (t : TState) : Action * TState :=
  if isASCIIUpper cc then
    let t := appendToTemporaryBuffer (toLChar cc) t in
    let t := addToPossibleEndTag (toLChar (toLowerCase cc)) t in
    (HTML_ADVANCE_TO ScriptDataEscapedEndTagNameState, t)
  else if isASCIILower cc then
    let t := appendToTemporaryBuffer (toLChar cc) t in
    let t := addToPossibleEndTag (toLChar cc) t in
    (HTML_ADVANCE_TO ScriptDataEscapedEndTagNameState, t)
  else
    let t := bufferCharacter "<"%uchar t in
    let t := bufferCharacter "/"%uchar t in
    (HTML_RECONSUME_IN ScriptDataEscapedState, t).

Definition ScriptDataEscapedEndTagNameState_block (consumed : Z) (cc : UChar) (t : TState) : Action * TState :=
  if isASCIIUpper cc then
    let t := appendToTemporaryBuffer (toLChar cc) t in
    let t := addToPossibleEndTag (toLChar (toLowerCase cc)) t in
    (HTML_ADVANCE_TO ScriptDataEscapedEndTagNameState, t)
  else if isASCIILower cc then
    let t := appendToTemporaryBuffer (toLChar cc) t in
    let t := addToPossibleEndTag (toLChar cc) t in
    (HTML_ADVANCE_TO ScriptDataEscapedEndTagNameState, t)
  else
    let fallThrough t :=
      let t := bufferCharacter "<"%uchar t in
      let t := bufferCharacter "/"%uchar t in
      let t := onToken (appendVectorToCharacter (m_temporaryBuffer (tk t))) t in
      let t := clearBufferedEndTagName t in
      let t := clearTemporaryBuffer t in
      (HTML_RECONSUME_IN ScriptDataEscapedState, t) in
    if isTokenizerWhitespace cc then
      if isAppropriateEndTag t then
        let t := appendToTemporaryBuffer (toLChar cc) t in
        (FLUSH_AND_ADVANCE_TO BeforeAttributeNameState, t)
      else
        fallThrough t
    else if (cc =? "/"%uchar) then
      if isAppropriateEndTag t then
        let t := appendToTemporaryBuffer (toLChar cc) t in
        (FLUSH_AND_ADVANCE_TO SelfClosingStartTagState, t)
      else
        fallThrough t
    else if (cc =? ">"%uchar) then
      if isAppropriateEndTag t then
        let t := appendToTemporaryBuffer (toLChar cc) t in
        (FLUSH_EMIT_AND_RESUME_IN DataState, t)
      else
        fallThrough t
    else
      fallThrough t.

Definition ScriptDataDoubleEscapeStartState_block (consumed : Z) (cc : UChar) (t : TState) : Action * TState :=
  if isTokenizerWhitespace cc || (cc =? "/"%uchar) || (cc =? ">"%uchar) then
    let t := bufferCharacter cc t in
    if temporaryBufferIs scriptTag t then
      (HTML_ADVANCE_TO ScriptDataDoubleEscapedState, t)
    else
      (HTML_ADVANCE_TO ScriptDataEscapedState, t)
  else if isASCIIUpper cc then
    let t := bufferCharacter cc t in
    let t := appendToTemporaryBuffer (toLowerCase cc) t in
    (HTML_ADVANCE_TO ScriptDataDoubleEscapeStartState, t)
  else if isASCIILower cc then
    let t := bufferCharacter cc t in
    let t := appendToTemporaryBuffer (toLChar cc) t in
    (HTML_ADVANCE_TO ScriptDataDoubleEscapeStartState, t)
  else
    (HTML_RECONSUME_IN ScriptDataEscapedState, t).

Definition ScriptDataDoubleEscapedState_block (consumed : Z) (cc : UChar) (t : TState) : Action * TState :=
  if (cc =? "-"%uchar) then
    let t := bufferCharacter cc t in
    (HTML_ADVANCE_TO ScriptDataDoubleEscapedDashState, t)
  else if (cc =? "<"%uchar) then
    let t := bufferCharacter cc t in
    (HTML_ADVANCE_TO ScriptDataDoubleEscapedLessThanSignState, t)
  else if (cc =? kEndOfFileMarker) then
    (HTML_RECONSUME_IN DataState, t)
  else
    let t := bufferCharacter cc t in
    (HTML_ADVANCE_TO ScriptDataDoubleEscapedState, t).

Definition ScriptDataDoubleEscapedDashState_block (consumed : Z) (cc : UChar) (t : TState) : Action * TState :=
  if (cc =? "-"%uchar) then
    let t := bufferCharacter cc t in
    (HTML_ADVANCE_TO ScriptDataDoubleEscapedDashDashState, t)
  else if (cc =? "<"%uchar) then
    let t := bufferCharacter cc t in
    (HTML_ADVANCE_TO ScriptDataDoubleEscapedLessThanSignState, t)
  else if (cc =? kEndOfFileMarker) then
    (HTML_RECONSUME_IN DataState, t)
  else
    let t := bufferCharacter cc t in
    (HTML_ADVANCE_TO ScriptDataDoubleEscapedState, t).

Definition ScriptDataDoubleEscapedDashDashState_block (consumed : Z) (cc : UChar) (t : TState) : Action * TState :=
  if (cc =? "-"%uchar) then
    let t := bufferCharacter cc t in
    (HTML_ADVANCE_TO ScriptDataDoubleEscapedDashDashState, t)
  else if (cc =? "<"%uchar) then
    let t := bufferCharacter cc t in
    (HTML_ADVANCE_TO ScriptDataDoubleEscapedLessThanSignState, t)
  else if (cc =? ">"%uchar) then
    let t := bufferCharacter cc t in
    (HTML_ADVANCE_TO ScriptDataState, t)
  else if (cc =? kEndOfFileMarker) then
    (HTML_RECONSUME_IN DataState, t)
  else
    let t := bufferCharacter cc t in
    (HTML_ADVANCE_TO ScriptDataDoubleEscapedState, t).

Definition ScriptDataDoubleEscapedLessThanSignState_block (consumed : Z) (cc : UChar) (t : TState) : Action * TState :=
  if (cc =? "/"%uchar) then
    let t := bufferCharacter cc t in
    let t := clearTemporaryBuffer t in
    (HTML_ADVANCE_TO ScriptDataDoubleEscapeEndState, t)
  else
    (HTML_RECONSUME_IN ScriptDataDoubleEscapedState, t).

Definition ScriptDataDoubleEscapeEndState_block (consumed : Z) (cc : UChar) (t : TState) : Action * TState :=
  if isTokenizerWhitespace cc || (cc =? "/"%uchar) || (cc =? ">"%uchar) then
    let t := bufferCharacter cc t in
    if temporaryBufferIs scriptTag t then
      (HTML_ADVANCE_TO ScriptDataEscapedState, t)
    else
      (HTML_ADVANCE_TO ScriptDataDoubleEscapedState, t)
  else if isASCIIUpper cc then
    let t := bufferCharacter cc t in
    let t := appendToTemporaryBuffer (toLowerCase cc) t in
    (HTML_ADVANCE_TO ScriptDataDoubleEscapeEndState, t)
  else if isASCIILower cc then
    let t := bufferCharacter cc t in
    let t := appendToTemporaryBuffer (toLChar cc) t in
    (HTML_ADVANCE_TO ScriptDataDoubleEscapeEndState, t)
  else
    (HTML_RECONSUME_IN ScriptDataDoubleEscapedState, t).

Definition BeforeAttributeNameState_block (consumed : Z) (cc : UChar) (t : TState) : Action * TState :=
  if isTokenizerWhitespace cc then
    (HTML_ADVANCE_TO BeforeAttributeNameState, t)
  else if (cc =? "/"%uchar) then
    (HTML_ADVANCE_TO SelfClosingStartTagState, t)
  else if (cc =? ">"%uchar) then
    (EMIT_AND_RESUME_IN DataState, t)
  else if usePreHTML5ParserQuirks (m_options (tk t)) && (cc =? "<"%uchar) then
    (EMIT_AND_RECONSUME_IN DataState, t)
  else if isASCIIUpper cc then
    let t := onToken addNewAttribute t in
    let t := onToken (beginAttributeName consumed) t in
    let t := onToken (appendToAttributeName (toLowerCase cc)) t in
    (HTML_ADVANCE_TO AttributeNameState, t)
  else if (cc =? kEndOfFileMarker) then
    (HTML_RECONSUME_IN DataState, t)
  else
    let t := onToken addNewAttribute t in
    let t := onToken (beginAttributeName consumed) t in
    let t := onToken (appendToAttributeName cc) t in
    (HTML_ADVANCE_TO AttributeNameState, t).

Definition AttributeNameState_block (consumed : Z) (cc : UChar) (t : TState) : Action * TState :=
  if isTokenizerWhitespace cc then
    let t := onToken (endAttributeName consumed) t in
    (HTML_ADVANCE_TO AfterAttributeNameState, t)
  else if (cc =? "/"%uchar) then
    let t := onToken (endAttributeName consumed) t in
    (HTML_ADVANCE_TO SelfClosingStartTagState, t)
  else if (cc =? "="%uchar) then
    let t := onToken (endAttributeName consumed) t in
    (HTML_ADVANCE_TO BeforeAttributeValueState, t)
  else if (cc =? ">"%uchar) then
    let t := onToken (endAttributeName consumed) t in
    (EMIT_AND_RESUME_IN DataState, t)
  else if usePreHTML5ParserQuirks (m_options (tk t)) && (cc =? "<"%uchar) then
    let t := onToken (endAttributeName consumed) t in
    (EMIT_AND_RECONSUME_IN DataState, t)
  else if isASCIIUpper cc then
    let t := onToken (appendToAttributeName (toLowerCase cc)) t in
    (HTML_ADVANCE_TO AttributeNameState, t)
  else if (cc =? kEndOfFileMarker) then
    let t := onToken (endAttributeName consumed) t in
    (HTML_RECONSUME_IN DataState, t)
  else
    let t := onToken (appendToAttributeName cc) t in
    (HTML_ADVANCE_TO AttributeNameState, t).

Definition AfterAttributeNameState_block (consumed : Z) (cc : UChar) (t : TState) : Action * TState :=
  if isTokenizerWhitespace cc then
    (HTML_ADVANCE_TO AfterAttributeNameState, t)
  else if (cc =? "/"%uchar) then
    (HTML_ADVANCE_TO SelfClosingStartTagState, t)
  else if (cc =? "="%uchar) then
    (HTML_ADVANCE_TO BeforeAttributeValueState, t)
  else if (cc =? ">"%uchar) then
    (EMIT_AND_RESUME_IN DataState, t)
  else if usePreHTML5ParserQuirks (m_options (tk t)) && (cc =? "<"%uchar) then
    (EMIT_AND_RECONSUME_IN DataState, t)
  else if isASCIIUpper cc then
    let t := onToken addNewAttribute t in
    let t := onToken (beginAttributeName consumed) t in
    let t := onToken (appendToAttributeName (toLowerCase cc)) t in
    (HTML_ADVANCE_TO AttributeNameState, t)
  else if (cc =? kEndOfFileMarker) then
    (HTML_RECONSUME_IN DataState, t)
  else
    let t := onToken addNewAttribute t in
    let t := onToken (beginAttributeName consumed) t in
    let t := onToken (appendToAttributeName cc) t in
    (HTML_ADVANCE_TO AttributeNameState, t).

Definition BeforeAttributeValueState_block (consumed : Z) (cc : UChar) (t : TState) : Action * TState :=
  if isTokenizerWhitespace cc then
    (HTML_ADVANCE_TO BeforeAttributeValueState, t)
  else if (cc =? cQUOT) then
    let t := onToken (beginAttributeValue (consumed + 1)) t in
    (HTML_ADVANCE_TO AttributeValueDoubleQuotedState, t)
  else if (cc =? "&"%uchar) then
    let t := onToken (beginAttributeValue consumed) t in
    (HTML_RECONSUME_IN AttributeValueUnquotedState, t)
  else if (cc =? "'"%uchar) then
    let t := onToken (beginAttributeValue (consumed + 1)) t in
    (HTML_ADVANCE_TO AttributeValueSingleQuotedState, t)
  else if (cc =? ">"%uchar) then
    (EMIT_AND_RESUME_IN DataState, t)
  else if (cc =? kEndOfFileMarker) then
    (HTML_RECONSUME_IN DataState, t)
  else
    let t := onToken (beginAttributeValue consumed) t in
    let t := onToken (appendToAttributeValue cc) t in
    (HTML_ADVANCE_TO AttributeValueUnquotedState, t).

Definition AttributeValueDoubleQuotedState_block (consumed : Z) (cc : UChar) (t : TState) : Action * TState :=
  if (cc =? cQUOT) then
    let t := onToken (endAttributeValue consumed) t in
    (HTML_ADVANCE_TO AfterAttributeValueQuotedState, t)
  else if (cc =? "&"%uchar) then
    let t := setAdditionalAllowedCharacter cQUOT t in
    (HTML_ADVANCE_TO CharacterReferenceInAttributeValueState, t)
  else if (cc =? kEndOfFileMarker) then
    let t := onToken (endAttributeValue consumed) t in
    (HTML_RECONSUME_IN DataState, t)
  else
    let t := onToken (appendToAttributeValue cc) t in
    (HTML_ADVANCE_TO AttributeValueDoubleQuotedState, t).

Definition AttributeValueSingleQuotedState_block (consumed : Z) (cc : UChar) (t : TState) : Action * TState :=
  if (cc =? "'"%uchar) then
    let t := onToken (endAttributeValue consumed) t in
    (HTML_ADVANCE_TO AfterAttributeValueQuotedState, t)
  else if (cc =? "&"%uchar) then
    let t := setAdditionalAllowedCharacter "'"%uchar t in
    (HTML_ADVANCE_TO CharacterReferenceInAttributeValueState, t)
  else if (cc =? kEndOfFileMarker) then
    let t := onToken (endAttributeValue consumed) t in
    (HTML_RECONSUME_IN DataState, t)
  else
    let t := onToken (appendToAttributeValue cc) t in
    (HTML_ADVANCE_TO AttributeValueSingleQuotedState, t).

Definition AttributeValueUnquotedState_block (consumed : Z) (cc : UChar) (t : TState) : Action * TState :=
  if isTokenizerWhitespace cc then
    let t := onToken (endAttributeValue consumed) t in
    (HTML_ADVANCE_TO BeforeAttributeNameState, t)
  else if (cc =? "&"%uchar) then
    let t := setAdditionalAllowedCharacter ">"%uchar t in
    (HTML_ADVANCE_TO CharacterReferenceInAttributeValueState, t)
  else if (cc =? ">"%uchar) then
    let t := onToken (endAttributeValue consumed) t in
    (EMIT_AND_RESUME_IN DataState, t)
  else if (cc =? kEndOfFileMarker) then
    let t := onToken (endAttributeValue consumed) t in
    (HTML_RECONSUME_IN DataState, t)
  else
    let t := onToken (appendToAttributeValue cc) t in
    (HTML_ADVANCE_TO AttributeValueUnquotedState, t).

Definition AfterAttributeValueQuotedState_block (consumed : Z) (cc : UChar) (t : TState) : Action * TState :=
  if isTokenizerWhitespace cc then
    (HTML_ADVANCE_TO BeforeAttributeNameState, t)
  else if (cc =? "/"%uchar) then
    (HTML_ADVANCE_TO SelfClosingStartTagState, t)
  else if (cc =? ">"%uchar) then
    (EMIT_AND_RESUME_IN DataState, t)
  else if usePreHTML5ParserQuirks (m_options (tk t)) && (cc =? "<"%uchar) then
    (EMIT_AND_RECONSUME_IN DataState, t)
  else if (cc =? kEndOfFileMarker) then
    (HTML_RECONSUME_IN DataState, t)
  else
    (HTML_RECONSUME_IN BeforeAttributeNameState, t).

Definition SelfClosingStartTagState_block (consumed : Z) (cc : UChar) (t : TState) : Action * TState :=
  if (cc =? ">"%uchar) then
    let t := onToken setSelfClosing t in
    (EMIT_AND_RESUME_IN DataState, t)
  else if (cc =? kEndOfFileMarker) then
    (HTML_RECONSUME_IN DataState, t)
  else
    (HTML_RECONSUME_IN BeforeAttributeNameState, t).

Definition BogusCommentState_block (consumed : Z) (cc : UChar) (t : TState) : Action * TState :=
  let t := onToken beginComment t in
  (HTML_RECONSUME_IN ContinueBogusCommentState, t).

Definition ContinueBogusCommentState_block (consumed : Z) (cc : UChar) (t : TState) : Action * TState :=
  if (cc =? ">"%uchar) then
    (EMIT_AND_RESUME_IN DataState, t)
  else if (cc =? kEndOfFileMarker) then
    (EMIT_AND_RECONSUME_IN DataState, t)
  else
    let t := onToken (appendToComment cc) t in
    (HTML_ADVANCE_TO ContinueBogusCommentState, t).

Definition CommentStartState_block (consumed : Z) (cc : UChar) (t : TState) : Action * TState :=
  if (cc =? "-"%uchar) then
    (HTML_ADVANCE_TO CommentStartDashState, t)
  else if (cc =? ">"%uchar) then
    (EMIT_AND_RESUME_IN DataState, t)
  else if (cc =? kEndOfFileMarker) then
    (EMIT_AND_RECONSUME_IN DataState, t)
  else
    let t := onToken (appendToComment cc) t in
    (HTML_ADVANCE_TO CommentState, t).

Definition CommentStartDashState_block (consumed : Z) (cc : UChar) (t : TState) : Action * TState :=
  if (cc =? "-"%uchar) then
    (HTML_ADVANCE_TO CommentEndState, t)
  else if (cc =? ">"%uchar) then
    (EMIT_AND_RESUME_IN DataState, t)
  else if (cc =? kEndOfFileMarker) then
    (EMIT_AND_RECONSUME_IN DataState, t)
  else
    let t := onToken (appendToComment "-"%uchar) t in
    let t := onToken (appendToComment cc) t in
    (HTML_ADVANCE_TO CommentState, t).

Definition CommentState_block (consumed : Z) (cc : UChar) (t : TState) : Action * TState :=
  if (cc =? "-"%uchar) then
    (HTML_ADVANCE_TO CommentEndDashState, t)
  else if (cc =? kEndOfFileMarker) then
    (EMIT_AND_RECONSUME_IN DataState, t)
  else
    let t := onToken (appendToComment cc) t in
    (HTML_ADVANCE_TO CommentState, t).

Definition CommentEndDashState_block (consumed : Z) (cc : UChar) (t : TState) : Action * TState :=
  if (cc =? "-"%uchar) then
    (HTML_ADVANCE_TO CommentEndState, t)
  else if (cc =? kEndOfFileMarker) then
    (EMIT_AND_RECONSUME_IN DataState, t)
  else
    let t := onToken (appendToComment "-"%uchar) t in
    let t := onToken (appendToComment cc) t in
    (HTML_ADVANCE_TO CommentState, t).

Definition CommentEndState_block (consumed : Z) (cc : UChar) (t : TState) : Action * TState :=
  if (cc =? ">"%uchar) then
    (EMIT_AND_RESUME_IN DataState, t)
  else if (cc =? "!"%uchar) then
    (HTML_ADVANCE_TO CommentEndBangState, t)
  else if (cc =? "-"%uchar) then
    let t := onToken (appendToComment "-"%uchar) t in
    (HTML_ADVANCE_TO CommentEndState, t)
  else if (cc =? kEndOfFileMarker) then
    (EMIT_AND_RECONSUME_IN DataState, t)
  else
    let t := onToken (appendToComment "-"%uchar) t in
    let t := onToken (appendToComment "-"%uchar) t in
    let t := onToken (appendToComment cc) t in
    (HTML_ADVANCE_TO CommentState, t).

Definition CommentEndBangState_block (consumed : Z) (cc : UChar) (t : TState) : Action * TState :=
  if (cc =? "-"%uchar) then
    let t := onToken (appendToComment "-"%uchar) t in
    let t := onToken (appendToComment "-"%uchar) t in
    let t := onToken (appendToComment "!"%uchar) t in
    (HTML_ADVANCE_TO CommentEndDashState, t)
  else if (cc =? ">"%uchar) then
    (EMIT_AND_RESUME_IN DataState, t)
  else if (cc =? kEndOfFileMarker) then
    (EMIT_AND_RECONSUME_IN DataState, t)
  else
    let t := onToken (appendToComment "-"%uchar) t in
    let t := onToken (appendToComment "-"%uchar) t in
    let t := onToken (appendToComment "!"%uchar) t in
    let t := onToken (appendToComment cc) t in
    (HTML_ADVANCE_TO CommentState, t).

Definition DOCTYPEState_block (consumed : Z) (cc : UChar) (t : TState) : Action * TState :=
  if isTokenizerWhitespace cc then
    (HTML_ADVANCE_TO BeforeDOCTYPENameState, t)
  else if (cc =? kEndOfFileMarker) then
    let t := onToken beginDOCTYPE t in
    let t := onToken setForceQuirks t in
    (EMIT_AND_RECONSUME_IN DataState, t)
  else
    (HTML_RECONSUME_IN BeforeDOCTYPENameState, t).

Definition BeforeDOCTYPENameState_block (consumed : Z) (cc : UChar) (t : TState) : Action * TState :=
  if isTokenizerWhitespace cc then
    (HTML_ADVANCE_TO BeforeDOCTYPENameState, t)
  else if isASCIIUpper cc then
    let t := onToken (beginDOCTYPEWith (toLowerCase cc)) t in
    (HTML_ADVANCE_TO DOCTYPENameState, t)
  else if (cc =? ">"%uchar) then
    let t := onToken beginDOCTYPE t in
    let t := onToken setForceQuirks t in
    (EMIT_AND_RESUME_IN DataState, t)
  else if (cc =? kEndOfFileMarker) then
    let t := onToken beginDOCTYPE t in
    let t := onToken setForceQuirks t in
    (EMIT_AND_RECONSUME_IN DataState, t)
  else
    let t := onToken (beginDOCTYPEWith cc) t in
    (HTML_ADVANCE_TO DOCTYPENameState, t).

Definition DOCTYPENameState_block (consumed : Z) (cc : UChar) (t : TState) : Action * TState :=
  if isTokenizerWhitespace cc then
    (HTML_ADVANCE_TO AfterDOCTYPENameState, t)
  else if (cc =? ">"%uchar) then
    (EMIT_AND_RESUME_IN DataState, t)
  else if isASCIIUpper cc then
    let t := onToken (appendToName (toLowerCase cc)) t in
    (HTML_ADVANCE_TO DOCTYPENameState, t)
  else if (cc =? kEndOfFileMarker) then
    let t := onToken setForceQuirks t in
    (EMIT_AND_RECONSUME_IN DataState, t)
  else
    let t := onToken (appendToName cc) t in
    (HTML_ADVANCE_TO DOCTYPENameState, t).

Definition AfterDOCTYPEPublicKeywordState_block (consumed : Z) (cc : UChar) (t : TState) : Action * TState :=
  if isTokenizerWhitespace cc then
    (HTML_ADVANCE_TO BeforeDOCTYPEPublicIdentifierState, t)
  else if (cc =? cQUOT) then
    let t := onToken setPublicIdentifierToEmptyString t in
    (HTML_ADVANCE_TO DOCTYPEPublicIdentifierDoubleQuotedState, t)
  else if (cc =? "'"%uchar) then
    let t := onToken setPublicIdentifierToEmptyString t in
    (HTML_ADVANCE_TO DOCTYPEPublicIdentifierSingleQuotedState, t)
  else if (cc =? ">"%uchar) then
    let t := onToken setForceQuirks t in
    (EMIT_AND_RESUME_IN DataState, t)
  else if (cc =? kEndOfFileMarker) then
    let t := onToken setForceQuirks t in
    (EMIT_AND_RECONSUME_IN DataState, t)
  else
    let t := onToken setForceQuirks t in
    (HTML_ADVANCE_TO BogusDOCTYPEState, t).

Definition BeforeDOCTYPEPublicIdentifierState_block (consumed : Z) (cc : UChar) (t : TState) : Action * TState :=
  if isTokenizerWhitespace cc then
    (HTML_ADVANCE_TO BeforeDOCTYPEPublicIdentifierState, t)
  else if (cc =? cQUOT) then
    let t := onToken setPublicIdentifierToEmptyString t in
    (HTML_ADVANCE_TO DOCTYPEPublicIdentifierDoubleQuotedState, t)
  else if (cc =? "'"%uchar) then
    let t := onToken setPublicIdentifierToEmptyString t in
    (HTML_ADVANCE_TO DOCTYPEPublicIdentifierSingleQuotedState, t)
  else if (cc =? ">"%uchar) then
    let t := onToken setForceQuirks t in
    (EMIT_AND_RESUME_IN DataState, t)
  else if (cc =? kEndOfFileMarker) then
    let t := onToken setForceQuirks t in
    (EMIT_AND_RECONSUME_IN DataState, t)
  else
    let t := onToken setForceQuirks t in
    (HTML_ADVANCE_TO BogusDOCTYPEState, t).

Definition DOCTYPEPublicIdentifierDoubleQuotedState_block (consumed : Z) (cc : UChar) (t : TState) : Action * TState :=
  if (cc =? cQUOT) then
    (HTML_ADVANCE_TO AfterDOCTYPEPublicIdentifierState, t)
  else if (cc =? ">"%uchar) then
    let t := onToken setForceQuirks t in
    (EMIT_AND_RESUME_IN DataState, t)
  else if (cc =? kEndOfFileMarker) then
    let t := onToken setForceQuirks t in
    (EMIT_AND_RECONSUME_IN DataState, t)
  else
    let t := onToken (appendToPublicIdentifier cc) t in
    (HTML_ADVANCE_TO DOCTYPEPublicIdentifierDoubleQuotedState, t).

Definition DOCTYPEPublicIdentifierSingleQuotedState_block (consumed : Z) (cc : UChar) (t : TState) : Action * TState :=
  if (cc =? "'"%uchar) then
    (HTML_ADVANCE_TO AfterDOCTYPEPublicIdentifierState, t)
  else if (cc =? ">"%uchar) then
    let t := onToken setForceQuirks t in
    (EMIT_AND_RESUME_IN DataState, t)
  else if (cc =? kEndOfFileMarker) then
    let t := onToken setForceQuirks t in
    (EMIT_AND_RECONSUME_IN DataState, t)
  else
    let t := onToken (appendToPublicIdentifier cc) t in
    (HTML_ADVANCE_TO DOCTYPEPublicIdentifierSingleQuotedState, t).

Definition AfterDOCTYPEPublicIdentifierState_block (consumed : Z) (cc : UChar) (t : TState) : Action * TState :=
  if isTokenizerWhitespace cc then
    (HTML_ADVANCE_TO BetweenDOCTYPEPublicAndSystemIdentifiersState, t)
  else if (cc =? ">"%uchar) then
    (EMIT_AND_RESUME_IN DataState, t)
  else if (cc =? cQUOT) then
    let t := onToken setSystemIdentifierToEmptyString t in
    (HTML_ADVANCE_TO DOCTYPESystemIdentifierDoubleQuotedState, t)
  else if (cc =? "'"%uchar) then
    let t := onToken setSystemIdentifierToEmptyString t in
    (HTML_ADVANCE_TO DOCTYPESystemIdentifierSingleQuotedState, t)
  else if (cc =? kEndOfFileMarker) then
    let t := onToken setForceQuirks t in
    (EMIT_AND_RECONSUME_IN DataState, t)
  else
    let t := onToken setForceQuirks t in
    (HTML_ADVANCE_TO BogusDOCTYPEState, t).

Definition BetweenDOCTYPEPublicAndSystemIdentifiersState_block (consumed : Z) (cc : UChar) (t : TState) : Action * TState :=
  if isTokenizerWhitespace cc then
    (HTML_ADVANCE_TO BetweenDOCTYPEPublicAndSystemIdentifiersState, t)
  else if (cc =? ">"%uchar) then
    (EMIT_AND_RESUME_IN DataState, t)
  else if (cc =? cQUOT) then
    let t := onToken setSystemIdentifierToEmptyString t in
    (HTML_ADVANCE_TO DOCTYPESystemIdentifierDoubleQuotedState, t)
  else if (cc =? "'"%uchar) then
    let t := onToken setSystemIdentifierToEmptyString t in
    (HTML_ADVANCE_TO DOCTYPESystemIdentifierSingleQuotedState, t)
  else if (cc =? kEndOfFileMarker) then
    let t := onToken setForceQuirks t in
    (EMIT_AND_RECONSUME_IN DataState, t)
  else
    let t := onToken setForceQuirks t in
    (HTML_ADVANCE_TO BogusDOCTYPEState, t).

Definition AfterDOCTYPESystemKeywordState_block (consumed : Z) (cc : UChar) (t : TState) : Action * TState :=
  if isTokenizerWhitespace cc then
    (HTML_ADVANCE_TO BeforeDOCTYPESystemIdentifierState, t)
  else if (cc =? cQUOT) then
    let t := onToken setSystemIdentifierToEmptyString t in
    (HTML_ADVANCE_TO DOCTYPESystemIdentifierDoubleQuotedState, t)
  else if (cc =? "'"%uchar) then
    let t := onToken setSystemIdentifierToEmptyString t in
    (HTML_ADVANCE_TO DOCTYPESystemIdentifierSingleQuotedState, t)
  else if (cc =? ">"%uchar) then
    let t := onToken setForceQuirks t in
    (EMIT_AND_RESUME_IN DataState, t)
  else if (cc =? kEndOfFileMarker) then
    let t := onToken setForceQuirks t in
    (EMIT_AND_RECONSUME_IN DataState, t)
  else
    let t := onToken setForceQuirks t in
    (HTML_ADVANCE_TO BogusDOCTYPEState, t).

Definition BeforeDOCTYPESystemIdentifierState_block (consumed : Z) (cc : UChar) (t : TState) : Action * TState :=
  if isTokenizerWhitespace cc then
    (HTML_ADVANCE_TO BeforeDOCTYPESystemIdentifierState, t)
  else if (cc =? cQUOT) then
    let t := onToken setSystemIdentifierToEmptyString t in
    (HTML_ADVANCE_TO DOCTYPESystemIdentifierDoubleQuotedState, t)
  else if (cc =? "'"%uchar) then
    let t := onToken setSystemIdentifierToEmptyString t in
    (HTML_ADVANCE_TO DOCTYPESystemIdentifierSingleQuotedState, t)
  else if (cc =? ">"%uchar) then
    let t := onToken setForceQuirks t in
    (EMIT_AND_RESUME_IN DataState, t)
  else if (cc =? kEndOfFileMarker) then
    let t := onToken setForceQuirks t in
    (EMIT_AND_RECONSUME_IN DataState, t)
  else
    let t := onToken setForceQuirks t in
    (HTML_ADVANCE_TO BogusDOCTYPEState, t).

Definition DOCTYPESystemIdentifierDoubleQuotedState_block (consumed : Z) (cc : UChar) (t : TState) : Action * TState :=
  if (cc =? cQUOT) then
    (HTML_ADVANCE_TO AfterDOCTYPESystemIdentifierState, t)
  else if (cc =? ">"%uchar) then
    let t := onToken setForceQuirks t in
    (EMIT_AND_RESUME_IN DataState, t)
  else if (cc =? kEndOfFileMarker) then
    let t := onToken setForceQuirks t in
    (EMIT_AND_RECONSUME_IN DataState, t)
  else
    let t := onToken (appendToSystemIdentifier cc) t in
    (HTML_ADVANCE_TO DOCTYPESystemIdentifierDoubleQuotedState, t).

Definition DOCTYPESystemIdentifierSingleQuotedState_block (consumed : Z) (cc : UChar) (t : TState) : Action * TState :=
  if (cc =? "'"%uchar) then
    (HTML_ADVANCE_TO AfterDOCTYPESystemIdentifierState, t)
  else if (cc =? ">"%uchar) then
    let t := onToken setForceQuirks t in
    (EMIT_AND_RESUME_IN DataState, t)
  else if (cc =? kEndOfFileMarker) then
    let t := onToken setForceQuirks t in
    (EMIT_AND_RECONSUME_IN DataState, t)
  else
    let t := onToken (appendToSystemIdentifier cc) t in
    (HTML_ADVANCE_TO DOCTYPESystemIdentifierSingleQuotedState, t).

Definition AfterDOCTYPESystemIdentifierState_block (consumed : Z) (cc : UChar) (t : TState) : Action * TState :=
  if isTokenizerWhitespace cc then
    (HTML_ADVANCE_TO AfterDOCTYPESystemIdentifierState, t)
  else if (cc =? ">"%uchar) then
    (EMIT_AND_RESUME_IN DataState, t)
  else if (cc =? kEndOfFileMarker) then
    let t := onToken setForceQuirks t in
    (EMIT_AND_RECONSUME_IN DataState, t)
  else
    (HTML_ADVANCE_TO BogusDOCTYPEState, t).

Definition BogusDOCTYPEState_block (consumed : Z) (cc : UChar) (t : TState) : Action * TState :=
  if (cc =? ">"%uchar) then
    (EMIT_AND_RESUME_IN DataState, t)
  else if (cc =? kEndOfFileMarker) then
    (EMIT_AND_RECONSUME_IN DataState, t)
  else
    (HTML_ADVANCE_TO BogusDOCTYPEState, t).

Definition CDATASectionState_block (consumed : Z) (cc : UChar) (t : TState) : Action * TState :=
  if (cc =? "]"%uchar) then
    (HTML_ADVANCE_TO CDATASectionRightSquareBracketState, t)
  else if (cc =? kEndOfFileMarker) then
    (HTML_RECONSUME_IN DataState, t)
  else
    let t := bufferCharacter cc t in
    (HTML_ADVANCE_TO CDATASectionState, t).

Definition CDATASectionRightSquareBracketState_block (consumed : Z) (cc : UChar) (t : TState) : Action * TState :=
  if (cc =? "]"%uchar) then
    (HTML_ADVANCE_TO CDATASectionDoubleRightSquareBracketState, t)
  else
    let t := bufferCharacter "]"%uchar t in
    (HTML_RECONSUME_IN CDATASectionState, t).

Definition CDATASectionDoubleRightSquareBracketState_block (consumed : Z) (cc : UChar) (t : TState) : Action * TState :=
  if (cc =? ">"%uchar) then
    (HTML_ADVANCE_TO DataState, t)
  else
    let t := bufferCharacter "]"%uchar t in
    let t := bufferCharacter "]"%uchar t in
    (HTML_RECONSUME_IN CDATASectionState, t).

(** ** The state blocks that use the source *)

Section SourceBlocks.
Context {S : Type} `{CharacterSource S} `{HTMLEntityTable}.

(** The [bool] it returns tells whether there were enough characters. *)
Definition processEntity (t : TState) (source : S) : bool * TState * S :=
  let r := consumeHTMLEntity 0 source in
  if er_notEnoughCharacters r then (false, t, er_source r)
  else if negb (er_success r) then
    (true, bufferCharacter "&"%uchar (assertT (bool_decide (er_decoded r = [])) t), er_source r)
  else (true, fold_left (fun t c => bufferCharacter c t) (er_decoded r) t, er_source r).

Definition CharacterReferenceInDataState_block (cc : UChar) (t : TState) (source : S)
    : Action * TState * S :=
  let '(enough, t, source) := processEntity t source in
  if negb enough then (RETURN_HAVE_BUFFERED_CHARACTER_TOKEN, t, source)
  else (HTML_SWITCH_TO DataState, t, source).

Definition CharacterReferenceInRCDATAState_block (cc : UChar) (t : TState) (source : S)
    : Action * TState * S :=
  let '(enough, t, source) := processEntity t source in
  if negb enough then (RETURN_HAVE_BUFFERED_CHARACTER_TOKEN, t, source)
  else (HTML_SWITCH_TO RCDATAState, t, source).

(** The last case is an [ASSERT_NOT_REACHED]; control then leaves the
    [switch] and the function returns [false]. *)
Definition CharacterReferenceInAttributeValueState_block (cc : UChar) (t : TState) (source : S)
    : Action * TState * S :=
  let r := consumeHTMLEntity (m_additionalAllowedCharacter (tk t)) source in
  if er_notEnoughCharacters r
  then (RETURN_HAVE_BUFFERED_CHARACTER_TOKEN, t, er_source r)
  else
    let t :=
      if negb (er_success r)
      then onToken (appendToAttributeValue "&"%uchar) (assertT (bool_decide (er_decoded r = [])) t)
      else fold_left (fun t c => onToken (appendToAttributeValue c) t) (er_decoded r) t in
    let a := m_additionalAllowedCharacter (tk t) in
    if a =? cQUOT then (HTML_SWITCH_TO AttributeValueDoubleQuotedState, t, er_source r)
    else if a =? "'"%uchar then (HTML_SWITCH_TO AttributeValueSingleQuotedState, t, er_source r)
    else if a =? ">"%uchar then (HTML_SWITCH_TO AttributeValueUnquotedState, t, er_source r)
    else (RETURN_FALSE, assertT false t, er_source r).

(** [advanceStringAndASSERT]: every character is asserted to be the current
    one before it is skipped. *)
Fixpoint advanceStringAndASSERT (cs : list UChar) (t : TState) (source : S) : TState * S :=
  match cs with
  | [] => (t, source)
  | c :: cs => advanceStringAndASSERT cs (assertT (currentChar source =? c) t) (advance source)
  end.

Context `{CaseFolding}.

Fixpoint advanceStringAndASSERTIgnoringCase (cs : list UChar) (t : TState) (source : S) : TState * S :=
  match cs with
  | [] => (t, source)
  | c :: cs =>
      advanceStringAndASSERTIgnoringCase cs
        (assertT (u_foldCase (currentChar source) =? u_foldCase c) t) (advance source)
  end.

Definition dashDashString : list UChar := Eval cbv in str "--".
Definition doctypeString : list UChar := Eval cbv in str "doctype".
Definition cdataString : list UChar := Eval cbv in str "[CDATA[".
Definition publicString : list UChar := Eval cbv in str "public".
Definition systemString : list UChar := Eval cbv in str "system".

Definition MarkupDeclarationOpenState_block (cc : UChar) (t : TState) (source : S)
    : Action * TState * S :=
  let bogus source := (HTML_RECONSUME_IN BogusCommentState, t, source) in
  if cc =? "-"%uchar then
    let '(result, source) := lookAheadInline dashDashString true source in
    match result with
    | DidMatch =>
        let '(t, source) := advanceStringAndASSERT dashDashString t source in
        (HTML_SWITCH_TO CommentStartState, onToken beginComment t, source)
    | NotEnoughCharacters => (RETURN_HAVE_BUFFERED_CHARACTER_TOKEN, t, source)
    | DidNotMatch => bogus source
    end
  else if (cc =? "D"%uchar) || (cc =? "d"%uchar) then
    let '(result, source) := lookAheadInline doctypeString false source in
    match result with
    | DidMatch =>
        let '(t, source) := advanceStringAndASSERTIgnoringCase doctypeString t source in
        (HTML_SWITCH_TO DOCTYPEState, t, source)
    | NotEnoughCharacters => (RETURN_HAVE_BUFFERED_CHARACTER_TOKEN, t, source)
    | DidNotMatch => bogus source
    end
  else if (cc =? "["%uchar) && m_shouldAllowCDATA (tk t) then
    let '(result, source) := lookAheadInline cdataString true source in
    match result with
    | DidMatch =>
        let '(t, source) := advanceStringAndASSERT cdataString t source in
        (HTML_SWITCH_TO CDATASectionState, t, source)
    | NotEnoughCharacters => (RETURN_HAVE_BUFFERED_CHARACTER_TOKEN, t, source)
    | DidNotMatch => bogus source
    end
  else bogus source.

Definition AfterDOCTYPENameState_block (cc : UChar) (t : TState) (source : S)
    : Action * TState * S :=
  let bogus source := (HTML_ADVANCE_TO BogusDOCTYPEState, onToken setForceQuirks t, source) in
  if isTokenizerWhitespace cc then (HTML_ADVANCE_TO AfterDOCTYPENameState, t, source)
  else if cc =? ">"%uchar then (EMIT_AND_RESUME_IN DataState, t, source)
  else if cc =? kEndOfFileMarker then
    (EMIT_AND_RECONSUME_IN DataState, onToken setForceQuirks t, source)
  else if (cc =? "P"%uchar) || (cc =? "p"%uchar) then
    let '(result, source) := lookAheadInline publicString false source in
    match result with
    | DidMatch =>
        let '(t, source) := advanceStringAndASSERTIgnoringCase publicString t source in
        (HTML_SWITCH_TO AfterDOCTYPEPublicKeywordState, t, source)
    | NotEnoughCharacters => (RETURN_HAVE_BUFFERED_CHARACTER_TOKEN, t, source)
    | DidNotMatch => bogus source
    end
  else if (cc =? "S"%uchar) || (cc =? "s"%uchar) then
    let '(result, source) := lookAheadInline systemString false source in
    match result with
    | DidMatch =>
        let '(t, source) := advanceStringAndASSERTIgnoringCase systemString t source in
        (HTML_SWITCH_TO AfterDOCTYPESystemKeywordState, t, source)
    | NotEnoughCharacters => (RETURN_HAVE_BUFFERED_CHARACTER_TOKEN, t, source)
    | DidNotMatch => bogus source
    end
  else bogus source.
End SourceBlocks.
