(* ===== verification/HTMLTokenizer.v ===== *)
(** * [HTMLTokenizer]

    The macros of [xml/parser/MarkupTokenizerInlines.h] and the member
    functions of [html/parser/HTMLTokenizer.{h,cpp}] around the state blocks of
    [TokenizerStates.v]: [nextToken] with its prologue and its loop, the emit
    functions, the checkpoints and the queries of the script runner.

    The model is generic in the character source.  [m_token] is the token the
    caller passes in, kept next to the tokenizer in [TState]; the assertion on
    the identity of that pointer has no counterpart here. *)

From S2P Require Import Prelude CharacterSource InputStreamPreprocessor HTMLEntitySearch.
From S2P Require Import CharacterReference HTMLToken TokenizerStates.
Open Scope Z_scope.

(** ** Construction and queries *)

Definition tokenizer_reset (k : HTMLTokenizer) : HTMLTokenizer :=
  k <| m_state := DataState |> <| m_forceNullCharacterReplacement := false |>
    <| m_shouldAllowCDATA := false |> <| m_additionalAllowedCharacter := 0 |>.

(** The constructor; the members it does not name are empty vectors, and
    [reset] overwrites the ones of plain type. *)
Definition newHTMLTokenizer (options : HTMLParserOptions) : HTMLTokenizer :=
  tokenizer_reset (mkTokenizer DataState false false 0 (pp_reset false) [] [] [] options).

Definition numberOfBufferedCharacters (k : HTMLTokenizer) : Z :=
  if (length (m_temporaryBuffer k) =? 0)%nat then 0
  else Z.of_nat (length (m_temporaryBuffer k)) + 2.

Definition bufferedCharacters (k : HTMLTokenizer) : list UChar :=
  ["<"%uchar; "/"%uchar] ++ m_temporaryBuffer k.

(** The tag names of [HTMLNames] used by [updateStateFor]. *)
Definition updateStateFor (tagName : list UChar) (k : HTMLTokenizer) : HTMLTokenizer :=
  let tagIs name := bool_decide (tagName = str name) in
  if tagIs "textarea"%string || tagIs "title"%string then k <| m_state := RCDATAState |>
  else if tagIs "plaintext"%string then k <| m_state := PLAINTEXTState |>
  else if bool_decide (tagName = scriptTag) then k <| m_state := ScriptDataState |>
  else if tagIs "style"%string || tagIs "iframe"%string || tagIs "xmp"%string
      || (tagIs "noembed"%string && pluginsEnabled (m_options k))
      || tagIs "noframes"%string
      || (tagIs "noscript"%string && scriptEnabled (m_options k))
  then k <| m_state := RAWTEXTState |>
  else k.

Definition shouldSkipNullCharacters (k : HTMLTokenizer) : bool :=
  negb (m_forceNullCharacterReplacement k)
  && match m_state k with
     | DataState | RCDATAState | RAWTEXTState => true
     | _ => false
     end.

(** ** Checkpoints *)

Record Checkpoint := mkCheckpoint {
  cp_options : HTMLParserOptions;
  cp_state : State;
  cp_additionalAllowedCharacter : UChar;
  cp_skipNextNewLine : bool;
  cp_forceNullCharacterReplacement : bool;
  cp_shouldAllowCDATA : bool
}.

Definition newHTMLParserOptions : HTMLParserOptions := mkOptions false false false false 512.

Definition newCheckpoint : Checkpoint :=
  mkCheckpoint newHTMLParserOptions DataState 0 false false false.

Definition canCreateCheckpoint (k : HTMLTokenizer) : bool :=
  if negb (bool_decide (m_appropriateEndTagName k = [])) then false
  else if negb (bool_decide (m_temporaryBuffer k = [])) then false
  else if negb (bool_decide (m_bufferedEndTagName k = [])) then false
  else true.

Definition createCheckpoint (k : HTMLTokenizer) (result : Checkpoint) : Checkpoint :=
  mkCheckpoint (m_options k) (m_state k) (m_additionalAllowedCharacter k)
    (m_skipNextNewLine (m_inputStreamPreprocessor k))
    (cp_forceNullCharacterReplacement result) (m_shouldAllowCDATA k).

Definition restoreFromCheckpoint (c : Checkpoint) (k : HTMLTokenizer) : HTMLTokenizer :=
  k <| m_options := cp_options c |> <| m_state := cp_state c |>
    <| m_additionalAllowedCharacter := cp_additionalAllowedCharacter c |>
    <| m_inputStreamPreprocessor := pp_reset (cp_skipNextNewLine c) |>
    <| m_shouldAllowCDATA := cp_shouldAllowCDATA c |>.

(** ** [nextToken] *)

Definition saveEndTagNameIfNeeded (t : TState) : TState :=
  let t := assertT (negb (typeIs Uninitialized (token t))) t in
  if typeIs StartTag (token t)
  then onTokenizer (fun k => k <| m_appropriateEndTagName := m_tokenData (token t) |>) t
  else t.

(** What [flushBufferedEndTag] and the prologue of [nextToken] do with the
    buffered name. *)
Definition beginBufferedEndTag (t : TState) : TState :=
  clearTemporaryBuffer (clearAppropriateEndTagName (clearBufferedEndTagName
    (onToken (beginEndTag (m_bufferedEndTagName (tk t))) t))).

Section NextToken.
Context {S : Type} `{CaseFolding} `{!CharacterSource S} `{HTMLEntityTable}.

(** Where control is after a macro: at the block of [m_state] with a current
    character, or back at the caller. *)
Inductive Outcome :=
| Goto (cc : UChar) (t : TState) (source : S)
| Return (result : bool) (t : TState) (source : S).

Definition returnHaveBuffered (t : TState) (source : S) : Outcome :=
  Return (haveBufferedCharacterToken t) t source.

(** The result of a [peek] or an [advance] of the preprocessor. *)
Definition gotoNext (t : TState) (r : bool * Preprocessor * S) : Outcome :=
  let '(ok, pp, source) := r in
  let t := onTokenizer (fun k => k <| m_inputStreamPreprocessor := pp |>) t in
  if (ok : bool) then Goto (m_nextInputCharacter pp) t source
  else returnHaveBuffered t source.

Definition advancePreprocessor (t : TState) (source : S) : Outcome :=
  gotoNext t (pp_advance (shouldSkipNullCharacters (tk t)) (m_inputStreamPreprocessor (tk t)) source).

(** [source.isEmpty() || !m_inputStreamPreprocessor.peek(source)] *)
Definition peekPreprocessor (t : TState) (source : S) : Outcome :=
  if isEmpty source then returnHaveBuffered t source
  else gotoNext t
         (pp_peek (shouldSkipNullCharacters (tk t)) (m_inputStreamPreprocessor (tk t)) source).

(** [true] when a character token has to be emitted first. *)
Definition flushBufferedEndTag (t : TState) (source : S) : bool * TState * S :=
  let t := assertT (typeIs Character (token t) || typeIs Uninitialized (token t)) t in
  let source := advanceAndUpdateLineNumber source in
  if typeIs Character (token t) then (true, t, source)
  else (false, beginBufferedEndTag t, source).

Definition flushEmitAndResumeIn (st : State) (t : TState) (source : S) : Outcome :=
  let '(_, t, source) := flushBufferedEndTag (setState st t) source in
  Return true t source.

Definition emitAndResumeIn (st : State) (t : TState) (source : S) : Outcome :=
  Return true (setState st (saveEndTagNameIfNeeded t)) (advanceAndUpdateLineNumber source).

Definition emitAndReconsumeIn (st : State) (t : TState) (source : S) : Outcome :=
  Return true (setState st (saveEndTagNameIfNeeded t)) source.

Definition emitEndOfFile (t : TState) (source : S) : Outcome :=
  if haveBufferedCharacterToken t then Return true t source
  else Return true (onToken makeEndOfFile (onToken token_clear (setState DataState t)))
         (advanceAndUpdateLineNumber source).

Definition perform (a : Action) (cc : UChar) (t : TState) (source : S) : Outcome :=
  match a with
  | HTML_ADVANCE_TO st => advancePreprocessor (setState st t) source
  | HTML_RECONSUME_IN st => Goto cc (setState st t) source
  | HTML_SWITCH_TO st => peekPreprocessor (setState st t) source
  | FLUSH_AND_ADVANCE_TO st =>
      let '(emit, t, source) := flushBufferedEndTag (setState st t) source in
      if (emit : bool) then Return true t source else peekPreprocessor t source
  | EMIT_AND_RESUME_IN st => emitAndResumeIn st t source
  | EMIT_AND_RECONSUME_IN st => emitAndReconsumeIn st t source
  | FLUSH_EMIT_AND_RESUME_IN st => flushEmitAndResumeIn st t source
  | EMIT_END_OF_FILE => emitEndOfFile t source
  | RETURN_TRUE => Return true t source
  | RETURN_FALSE => Return false t source
  | RETURN_HAVE_BUFFERED_CHARACTER_TOKEN => returnHaveBuffered t source
  end.

(** The [switch] of [nextToken]. *)
Definition block (st : State) (cc : UChar) (t : TState) (source : S) : Action * TState * S :=
  let pure (f : Z -> UChar -> TState -> Action * TState) :=
    (f (numberOfCharactersConsumed source) cc t, source) in
  match st with
  | DataState => pure DataState_block
  | CharacterReferenceInDataState => CharacterReferenceInDataState_block cc t source
  | RCDATAState => pure RCDATAState_block
  | CharacterReferenceInRCDATAState => CharacterReferenceInRCDATAState_block cc t source
  | RAWTEXTState => pure RAWTEXTState_block
  | ScriptDataState => pure ScriptDataState_block
  | PLAINTEXTState => pure PLAINTEXTState_block
  | TagOpenState => pure TagOpenState_block
  | EndTagOpenState => pure EndTagOpenState_block
  | TagNameState => pure TagNameState_block
  | RCDATALessThanSignState => pure RCDATALessThanSignState_block
  | RCDATAEndTagOpenState => pure RCDATAEndTagOpenState_block
  | RCDATAEndTagNameState => pure RCDATAEndTagNameState_block
  | RAWTEXTLessThanSignState => pure RAWTEXTLessThanSignState_block
  | RAWTEXTEndTagOpenState => pure RAWTEXTEndTagOpenState_block
  | RAWTEXTEndTagNameState => pure RAWTEXTEndTagNameState_block
  | ScriptDataLessThanSignState => pure ScriptDataLessThanSignState_block
  | ScriptDataEndTagOpenState => pure ScriptDataEndTagOpenState_block
  | ScriptDataEndTagNameState => pure ScriptDataEndTagNameState_block
  | ScriptDataEscapeStartState => pure ScriptDataEscapeStartState_block
  | ScriptDataEscapeStartDashState => pure ScriptDataEscapeStartDashState_block
  | ScriptDataEscapedState => pure ScriptDataEscapedState_block
  | ScriptDataEscapedDashState => pure ScriptDataEscapedDashState_block
  | ScriptDataEscapedDashDashState => pure ScriptDataEscapedDashDashState_block
  | ScriptDataEscapedLessThanSignState => pure ScriptDataEscapedLessThanSignState_block
  | ScriptDataEscapedEndTagOpenState => pure ScriptDataEscapedEndTagOpenState_block
  | ScriptDataEscapedEndTagNameState => pure ScriptDataEscapedEndTagNameState_block
  | ScriptDataDoubleEscapeStartState => pure ScriptDataDoubleEscapeStartState_block
  | ScriptDataDoubleEscapedState => pure ScriptDataDoubleEscapedState_block
  | ScriptDataDoubleEscapedDashState => pure ScriptDataDoubleEscapedDashState_block
  | ScriptDataDoubleEscapedDashDashState => pure ScriptDataDoubleEscapedDashDashState_block
  | ScriptDataDoubleEscapedLessThanSignState => pure ScriptDataDoubleEscapedLessThanSignState_block
  | ScriptDataDoubleEscapeEndState => pure ScriptDataDoubleEscapeEndState_block
  | BeforeAttributeNameState => pure BeforeAttributeNameState_block
  | AttributeNameState => pure AttributeNameState_block
  | AfterAttributeNameState => pure AfterAttributeNameState_block
  | BeforeAttributeValueState => pure BeforeAttributeValueState_block
  | AttributeValueDoubleQuotedState => pure AttributeValueDoubleQuotedState_block
  | AttributeValueSingleQuotedState => pure AttributeValueSingleQuotedState_block
  | AttributeValueUnquotedState => pure AttributeValueUnquotedState_block
  | CharacterReferenceInAttributeValueState => CharacterReferenceInAttributeValueState_block cc t source
  | AfterAttributeValueQuotedState => pure AfterAttributeValueQuotedState_block
  | SelfClosingStartTagState => pure SelfClosingStartTagState_block
  | BogusCommentState => pure BogusCommentState_block
  | ContinueBogusCommentState => pure ContinueBogusCommentState_block
  | MarkupDeclarationOpenState => MarkupDeclarationOpenState_block cc t source
  | CommentStartState => pure CommentStartState_block
  | CommentStartDashState => pure CommentStartDashState_block
  | CommentState => pure CommentState_block
  | CommentEndDashState => pure CommentEndDashState_block
  | CommentEndState => pure CommentEndState_block
  | CommentEndBangState => pure CommentEndBangState_block
  | DOCTYPEState => pure DOCTYPEState_block
  | BeforeDOCTYPENameState => pure BeforeDOCTYPENameState_block
  | DOCTYPENameState => pure DOCTYPENameState_block
  | AfterDOCTYPENameState => AfterDOCTYPENameState_block cc t source
  | AfterDOCTYPEPublicKeywordState => pure AfterDOCTYPEPublicKeywordState_block
  | BeforeDOCTYPEPublicIdentifierState => pure BeforeDOCTYPEPublicIdentifierState_block
  | DOCTYPEPublicIdentifierDoubleQuotedState => pure DOCTYPEPublicIdentifierDoubleQuotedState_block
  | DOCTYPEPublicIdentifierSingleQuotedState => pure DOCTYPEPublicIdentifierSingleQuotedState_block
  | AfterDOCTYPEPublicIdentifierState => pure AfterDOCTYPEPublicIdentifierState_block
  | BetweenDOCTYPEPublicAndSystemIdentifiersState => pure BetweenDOCTYPEPublicAndSystemIdentifiersState_block
  | AfterDOCTYPESystemKeywordState => pure AfterDOCTYPESystemKeywordState_block
  | BeforeDOCTYPESystemIdentifierState => pure BeforeDOCTYPESystemIdentifierState_block
  | DOCTYPESystemIdentifierDoubleQuotedState => pure DOCTYPESystemIdentifierDoubleQuotedState_block
  | DOCTYPESystemIdentifierSingleQuotedState => pure DOCTYPESystemIdentifierSingleQuotedState_block
  | AfterDOCTYPESystemIdentifierState => pure AfterDOCTYPESystemIdentifierState_block
  | BogusDOCTYPEState => pure BogusDOCTYPEState_block
  | CDATASectionState => pure CDATASectionState_block
  | CDATASectionRightSquareBracketState => pure CDATASectionRightSquareBracketState_block
  | CDATASectionDoubleRightSquareBracketState => pure CDATASectionDoubleRightSquareBracketState_block
  end.

Definition step (cc : UChar) (t : TState) (source : S) : Outcome :=
  let '(a, t, source) := block (m_state (tk t)) cc t source in
  perform a cc t source.

(** [None] is a loop that has not returned within [fuel] blocks. *)
Fixpoint run (fuel : nat) (o : Outcome) : option (bool * TState * S) :=
  match o with
  | Return b t source => Some (b, t, source)
  | Goto cc t source =>
      match fuel with
      | O => None
      | Datatypes.S fuel => run fuel (step cc t source)
      end
  end.

Definition enter (t : TState) (source : S) : Outcome :=
  if negb (bool_decide (m_bufferedEndTagName (tk t) = []))
     && negb (isEndTagBufferingState (m_state (tk t)))
  then
    let t := beginBufferedEndTag t in
    if bool_decide (m_state (tk t) = DataState) then Return true t source
    else peekPreprocessor t source
  else peekPreprocessor t source.

(** Between two characters that are consumed a block is entered at most four
    times (see [nextToken_ok] of [TokenizerSafety.v]). *)
Definition nextToken (t : TState) (source : S) : option (bool * TState * S) :=
  run (4 * charactersAhead source + 4) (enter t source).
End NextToken.
Arguments Outcome : clear implicits.
