(* ===== verification/TokenizerConsumption.v ===== *)
(** * What the tokenizer consumes

    Characters are pushed back only after they have been read: no block of the
    tokenizer, and so no call of [nextToken], leaves its source with fewer
    characters consumed than it found.  This is what keeps the counts of a
    source within its size, whatever the state of the tokenizer. *)

From S2P Require Import Prelude CharacterSource SegmentedString InputStreamPreprocessor.
From S2P Require Import HTMLEntitySearch CharacterReference HTMLToken TokenizerStates HTMLTokenizer.
Open Scope Z_scope.

Section Consumption.
Context `{CaseFolding} `{HTMLEntityTableOk}.
Implicit Types (l : ListSource) (pp : Preprocessor) (t : TState) (base : Z).

Lemma consumed_advance l : isEmpty l = false -> ls_consumed (advance l) = ls_consumed l + 1.
Proof. intros HE. apply ls_consumed_advance, chars_ahead, ls_isEmpty_false, HE. Qed.

(** ** The preprocessor *)

Lemma processAgain_consumed skip fuel pp l base :
  base <= ls_consumed l -> base <= ls_consumed (snd (processAgain skip fuel pp l)).
Proof.
  revert pp l. induction fuel as [|fuel IH]; intros pp l HB; [done|]. rewrite processAgain_unfold.
  assert (HR : forall pp l, base <= ls_consumed l -> base <= ls_consumed (snd (processRest skip fuel pp l))).
  { clear pp l HB. intros pp l HB. unfold processRest. pose proof (ls_consumed_le_advance l).
    destruct (_ =? cCR); [done|]. cbv zeta. destruct (_ && negb _); [|done]. destruct skip; [|done].
    destruct (ls_isEmpty _); [cbn [snd]; lia|]. apply IH. lia. }
  pose proof (ls_consumed_le_advance l).
  destruct (_ && m_skipNextNewLine pp); [|by apply HR]. cbv zeta.
  destruct (ls_isEmpty _); [cbn [snd]; lia|]. apply HR. lia.
Qed.

Lemma pp_peek_consumed skip pp l base :
  base <= ls_consumed l -> base <= ls_consumed (snd (pp_peek skip pp l)).
Proof. intros HB. unfold pp_peek. destruct (negb _); [done|]. by apply processAgain_consumed. Qed.

Lemma pp_advance_consumed skip pp l base :
  base <= ls_consumed l -> base <= ls_consumed (snd (pp_advance skip pp l)).
Proof.
  intros HB. unfold pp_advance. cbn [advanceAndUpdateLineNumber ListSource_source].
  pose proof (ls_consumed_le_advance l). destruct (isEmpty _); [cbn [snd]; lia|]. apply pp_peek_consumed. lia.
Qed.

(** ** Character references *)

Lemma push_consumed c l : ls_consumed l - 1 <= ls_consumed (push c l).
Proof. cbn. unfold ls_push. destruct (ls_pushed l) as [|? [|? ?]]; cbn; lia. Qed.

(** What is put back was consumed before. *)
Lemma unconsume_consumed l w base :
  base + Z.of_nat (length w) <= ls_consumed l -> base <= ls_consumed (unconsumeCharacters l w).
Proof.
  intros HB. unfold unconsumeCharacters.
  destruct w as [|c1 [|c2 [|c3 w]]]; cbn [prependString ListSource_source ls_prepend ls_consumed length] in *; try lia.
  - pose proof (push_consumed c1 l). lia.
  - pose proof (push_consumed c1 l). pose proof (push_consumed c2 (push c1 l)). lia.
Qed.

Lemma unconsumed_length l w : (length w <= length (ls_ahead (unconsumeCharacters l w)))%nat.
Proof.
  unfold unconsumeCharacters, ls_ahead.
  destruct w as [|c1 [|c2 [|c3 w]]]; cbn; [lia| | |rewrite !length_app; cbn; rewrite !length_app; lia].
  - unfold ls_push. destruct (ls_pushed l) as [|? [|? ?]]; cbn; lia.
  - unfold ls_push. destruct (ls_pushed l) as [|? [|? ?]]; cbn; lia.
Qed.

Lemma namedEntityLoop_consumed fuel cc search consumed l base :
  base + Z.of_nat (length consumed) <= ls_consumed l ->
  let '(_, _, consumed', l') := namedEntityLoop fuel cc search consumed l in
  base + Z.of_nat (length consumed') <= ls_consumed l'.
Proof.
  revert cc search consumed l. induction fuel as [|fuel IH]; intros cc search consumed l HB; cbn [namedEntityLoop]; [done|].
  destruct (isEmpty l) eqn:EE; [done|]. cbv zeta. destruct (negb _); [done|].
  apply IH. rewrite consumed_advance by done. rewrite length_app. cbn [length]. lia.
Qed.

Lemma consumeCount_consumed n l :
  (n <= length (ls_ahead l))%nat ->
  length (fst (consumeCount n l)) = n /\ ls_consumed (snd (consumeCount n l)) = ls_consumed l + Z.of_nat n.
Proof.
  revert l. induction n as [|n IH]; intros l Hn; cbn [consumeCount]; [cbn; lia|].
  assert (HA : ls_ahead l <> []) by (destruct (ls_ahead l); cbn in Hn; [lia|done]).
  destruct (IH (advance l)) as [I1 I2].
  { pose proof (advanced_length _ _ _ (advanced_advance l HA)) as E. cbn [advance ListSource_source]. lia. }
  change (ls_consumed (advance l)) with (ls_consumed (ls_advance l)) in I2. rewrite ls_consumed_advance in I2 by done.
  destruct (consumeCount n (advance l)) as [cs l']. cbn [fst snd length] in *. lia.
Qed.

Lemma consumeNamedEntity_consumed l a cc base :
  base <= ls_consumed l -> base <= ls_consumed (er_source (consumeNamedEntity l a cc)).
Proof.
  intros HB. unfold consumeNamedEntity.
  pose proof (namedEntityLoop_consumed (charactersAhead l) cc newEntitySearch [] l base) as HL.
  pose proof (namedEntityLoop_search (charactersAhead l) cc newEntitySearch [] l new_search_ok eq_refl) as HS.
  destruct (namedEntityLoop _ cc newEntitySearch [] l) as [[[cc1 search] consumed] l1].
  specialize (HL ltac:(cbn [length]; lia)).
  destruct (isEmpty l1); [by apply unconsume_consumed|].
  destruct (m_mostRecentMatch search) as [i|]; [|by apply unconsume_consumed].
  destruct HS as (_ & HS%prefix_length & _).
  destruct (negb _).
  - pose proof (unconsumed_length l1 consumed) as HA. pose proof (unconsume_consumed l1 consumed base HL) as HU.
    destruct (consumeCount_consumed (entry_length (entryAt i)) (unconsumeCharacters l1 consumed)) as [C1 C2]; [unfold entry_length in *; lia|].
    destruct (consumeCount _ _) as [cs l2]. cbn [fst snd] in *.
    destruct (_ || _); cbn [er_source]; [lia|]. apply unconsume_consumed. lia.
  - destruct (_ || _); cbn [er_source]; [lia|]. by apply unconsume_consumed.
Qed.

(** The number of characters read before a state of the reference. *)
Definition readBefore (st : EntityState) : Z :=
  match st with
  | ESNumber => 1
  | ESMaybeHexLowerCaseX | ESMaybeHexUpperCaseX => 2
  | _ => 0
  end.

Lemma consumeLoop_consumed a fuel st result consumed l base :
  base + Z.of_nat (length consumed) <= ls_consumed l -> readBefore st <= Z.of_nat (length consumed) ->
  base <= ls_consumed (er_source (consumeLoop a fuel st result consumed l)).
Proof.
  revert st result consumed l. induction fuel as [|fuel IH]; intros st result consumed l HB HR; cbn [consumeLoop].
  { by apply unconsume_consumed. }
  destruct (isEmpty l) eqn:EE; [by apply unconsume_consumed|].
  pose proof (consumed_advance l EE) as HA. cbv zeta.
  assert (HP : forall c c', ls_consumed l - 2 <= ls_consumed (push c (push c' l))).
  { intros c c'. pose proof (push_consumed c' l). pose proof (push_consumed c (push c' l)). lia. }
  assert (HP1 : forall c, ls_consumed l - 1 <= ls_consumed (push c l)) by (intros c; apply push_consumed).
  destruct st; cbn [readBefore] in HR;
    repeat match goal with
    | |- context [if ?b then _ else _] =>
        lazymatch b with
        | acceptMalformed => change acceptMalformed with true; cbv iota
        | _ => destruct b; cbv iota
        end
    end;
    try (cbn [er_source]; first [lia | pose proof (HP "x"%uchar "#"%uchar); lia
      | pose proof (HP "X"%uchar "#"%uchar); lia | pose proof (HP1 "#"%uchar); lia]);
    try (apply IH; [rewrite ?HA, ?length_app; cbn [length]; lia | rewrite ?length_app; cbn [readBefore length]; lia]).
  apply consumeNamedEntity_consumed. lia.
Qed.

Lemma consumeHTMLEntity_consumed a l base :
  base <= ls_consumed l -> base <= ls_consumed (er_source (consumeHTMLEntity a l)).
Proof. intros HB. apply consumeLoop_consumed; cbn; lia. Qed.

(** ** The blocks *)

Definition outcomeSource (o : Outcome ListSource) : ListSource :=
  match o with
  | Goto _ _ l => l
  | Return _ _ l => l
  end.

Lemma gotoNext_consumed t r base : base <= ls_consumed (snd r) -> base <= ls_consumed (outcomeSource (gotoNext t r)).
Proof. destruct r as [[[|] pp] l]; done. Qed.

Lemma peekPreprocessor_consumed t l base :
  base <= ls_consumed l -> base <= ls_consumed (outcomeSource (peekPreprocessor t l)).
Proof.
  intros HB. unfold peekPreprocessor. destruct (isEmpty l); [done|]. by apply gotoNext_consumed, pp_peek_consumed.
Qed.

Lemma perform_consumed a cc t l base :
  base <= ls_consumed l -> base <= ls_consumed (outcomeSource (perform a cc t l)).
Proof.
  intros HB. pose proof (ls_consumed_le_advance l) as HA.
  destruct a; cbn [perform]; try done.
  - by apply gotoNext_consumed, pp_advance_consumed.
  - by apply peekPreprocessor_consumed.
  - unfold flushBufferedEndTag. cbn [advanceAndUpdateLineNumber ListSource_source].
    destruct (typeIs Character _); [cbn [outcomeSource]; lia|]. apply peekPreprocessor_consumed. lia.
  - cbn. lia.
  - unfold flushEmitAndResumeIn, flushBufferedEndTag. destruct (typeIs Character _); cbn; lia.
  - unfold emitEndOfFile. destruct (haveBufferedCharacterToken t); cbn; lia.
Qed.

Lemma advanceString_consumed cs t l base :
  base <= ls_consumed l -> base <= ls_consumed (snd (advanceStringAndASSERT cs t l)).
Proof.
  revert t l. induction cs as [|c cs IH]; intros t l HB; cbn [advanceStringAndASSERT]; [done|].
  apply IH. cbn [advance ListSource_source]. pose proof (ls_consumed_le_advance l). lia.
Qed.

Lemma advanceStringIgnoringCase_consumed cs t l base :
  base <= ls_consumed l -> base <= ls_consumed (snd (advanceStringAndASSERTIgnoringCase cs t l)).
Proof.
  revert t l. induction cs as [|c cs IH]; intros t l HB; cbn [advanceStringAndASSERTIgnoringCase]; [done|].
  apply IH. cbn [advance ListSource_source]. pose proof (ls_consumed_le_advance l). lia.
Qed.

(** A block that looks ahead for a keyword. *)
Lemma lookAhead_consumed w cs l base (found : ListSource -> Action * TState * ListSource) (missing other : Action * TState) :
  base <= ls_consumed l ->
  (forall l, base <= ls_consumed l -> base <= ls_consumed (snd (found l))) ->
  base <= ls_consumed (snd
    (let '(result, source) := lookAheadInline w cs l in
     match result with
     | DidMatch => found source
     | NotEnoughCharacters => (missing, source)
     | DidNotMatch => (other, source)
     end)).
Proof.
  intros HB HF. cbn [lookAheadInline ListSource_source]. unfold ls_lookAhead. destruct (_ <? _); [done|].
  destruct (startsWith _ _ _); [by apply HF|done].
Qed.

Lemma after_consumed {A} (f : TState -> A) (x : TState * ListSource) base :
  base <= ls_consumed (snd x) -> base <= ls_consumed (snd (let '(t, l) := x in (f t, l))).
Proof. by destruct x. Qed.

Lemma block_consumed st cc t l base : base <= ls_consumed l -> base <= ls_consumed (snd (block st cc t l)).
Proof.
  intros HB. destruct st; cbn [block snd]; try done.
  - unfold CharacterReferenceInDataState_block, processEntity.
    pose proof (consumeHTMLEntity_consumed 0 l base HB). repeat case_match; simplify_eq/=; done.
  - unfold CharacterReferenceInRCDATAState_block, processEntity.
    pose proof (consumeHTMLEntity_consumed 0 l base HB). repeat case_match; simplify_eq/=; done.
  - unfold CharacterReferenceInAttributeValueState_block.
    pose proof (consumeHTMLEntity_consumed (m_additionalAllowedCharacter (tk t)) l base HB).
    repeat case_match; simplify_eq/=; done.
  - unfold MarkupDeclarationOpenState_block.
    repeat (case_match; [apply lookAhead_consumed; [done|]; intros l' HB'|]); try done;
      apply after_consumed; auto using advanceString_consumed, advanceStringIgnoringCase_consumed.
  - unfold AfterDOCTYPENameState_block. do 3 (case_match; [done|]).
    repeat (case_match; [apply lookAhead_consumed; [done|]; intros l' HB'|]); try done;
      apply after_consumed; auto using advanceStringIgnoringCase_consumed.
Qed.

Lemma step_consumed cc t l base : base <= ls_consumed l -> base <= ls_consumed (outcomeSource (step cc t l)).
Proof.
  intros HB. unfold step. pose proof (block_consumed (m_state (tk t)) cc t l base HB).
  destruct (block _ cc t l) as [[a t'] l']. by apply perform_consumed.
Qed.

Lemma enter_consumed t l base : base <= ls_consumed l -> base <= ls_consumed (outcomeSource (enter t l)).
Proof.
  intros HB. unfold enter. destruct (_ && _); [|by apply peekPreprocessor_consumed].
  destruct (bool_decide _); [done|]. by apply peekPreprocessor_consumed.
Qed.

Lemma run_consumed fuel o base b t l :
  base <= ls_consumed (outcomeSource o) -> run fuel o = Some (b, t, l) -> base <= ls_consumed l.
Proof.
  revert o. induction fuel as [|fuel IH]; intros [cc t0 l0 | b0 t0 l0] HB; cbn [run]; intros E; simplify_eq; try done.
  eapply IH; [|exact E]. by apply step_consumed.
Qed.

Lemma nextToken_consumed t l base b t' l' :
  base <= ls_consumed l -> nextToken t l = Some (b, t', l') -> base <= ls_consumed l'.
Proof. intros HB. unfold nextToken. by apply run_consumed, enter_consumed. Qed.
End Consumption.
