(* ===== verification/TokenizerRefinement.v ===== *)
(** * The tokenizer over related sources

    [nextToken] only reads its source through the [CharacterSource] interface,
    so runs over sources related by a refinement stay related: every theorem
    about the tokenizer over [ListSource] holds over [SegmentedString].  Of a
    source no more is pushed back than was read ([TokenizerConsumption.v]),
    which the look-ahead relies on. *)

From S2P Require Import Prelude CharacterSource SegmentedString InputStreamPreprocessor.
From S2P Require Import HTMLEntitySearch CharacterReference HTMLToken TokenizerStates HTMLTokenizer TokenizerConsumption.
Open Scope Z_scope.

Section Transport.
Context {S : Type} `{CaseFolding} `{!CharacterSource S} (R : S -> ListSource -> Prop)
  `{!CharacterSourceRefines S R} `{HTMLEntityTableOk}.

Inductive out_related : Outcome S -> Outcome ListSource -> Prop :=
| Goto_related cc t s l : R s l -> out_related (Goto cc t s) (Goto cc t l)
| Return_related b t s l : R s l -> out_related (Return b t s) (Return b t l).
Hint Constructors out_related : core.

(** The results of a state block, and of [nextToken]. *)
Definition block_related {A} (x : A * S) (y : A * ListSource) : Prop :=
  fst x = fst y /\ R (snd x) (snd y).

Lemma block_related_intro {A} (a : A) s l : R s l -> block_related (a, s) (a, l).
Proof. done. Qed.

Lemma gotoNext_related t x y : pp_related R x y -> out_related (gotoNext t x) (gotoNext t y).
Proof.
  destruct x as [[ok pp] s], y as [[ok' pp'] l]. intros [E HR]. simpl in *.
  injection E as <- <-. unfold gotoNext, returnHaveBuffered. destruct ok; auto.
Qed.

Lemma peekPreprocessor_related t s l :
  R s l -> out_related (peekPreprocessor t s) (peekPreprocessor t l).
Proof.
  intros HR. unfold peekPreprocessor, returnHaveBuffered. rewrite (ref_isEmpty _ _ HR).
  destruct (isEmpty l); auto. by apply gotoNext_related, pp_peek_refines.
Qed.

Lemma perform_related a cc t s l :
  R s l -> out_related (perform a cc t s) (perform a cc t l).
Proof.
  intros HR. pose proof (ref_advanceAndUpdateLineNumber _ _ HR) as HA.
  destruct a; cbn [perform]; unfold returnHaveBuffered; auto.
  - by apply gotoNext_related, pp_advance_refines.
  - by apply peekPreprocessor_related.
  - unfold flushBufferedEndTag. destruct (typeIs Character _); auto using peekPreprocessor_related.
  - constructor. done.
  - constructor. done.
  - unfold flushEmitAndResumeIn, flushBufferedEndTag. destruct (typeIs Character _); auto.
  - unfold emitEndOfFile. destruct (haveBufferedCharacterToken t); auto.
Qed.

Lemma processEntity_related t s l :
  R s l -> block_related (processEntity t s) (processEntity t l).
Proof.
  intros HR. unfold processEntity.
  destruct (consumeHTMLEntity_refines R 0 s l HR) as (-> & -> & -> & HR').
  repeat case_match; by apply block_related_intro.
Qed.

Lemma advanceString_related cs t s l :
  R s l -> block_related (advanceStringAndASSERT cs t s) (advanceStringAndASSERT cs t l).
Proof.
  revert t s l. induction cs as [|c cs IH]; intros t s l HR; cbn [advanceStringAndASSERT]; [done|].
  rewrite (ref_currentChar _ _ HR). by apply IH, ref_advance.
Qed.

Lemma advanceStringIgnoringCase_related cs t s l :
  R s l -> block_related (advanceStringAndASSERTIgnoringCase cs t s)
             (advanceStringAndASSERTIgnoringCase cs t l).
Proof.
  revert t s l. induction cs as [|c cs IH]; intros t s l HR;
    cbn [advanceStringAndASSERTIgnoringCase]; [done|].
  rewrite (ref_currentChar _ _ HR). by apply IH, ref_advance.
Qed.

(** A block that looks ahead for a keyword. *)
Lemma lookAhead_related {A} w cs s l
    (match1 : S -> A * S) (match2 : ListSource -> A * ListSource) (missing other : A) :
  R s l -> (2 <= length w)%nat -> 0 <= ls_consumed l ->
  (forall s' l', R s' l' -> block_related (match1 s') (match2 l')) ->
  block_related
    (let '(result, source) := lookAheadInline w cs s in
     match result with
     | DidMatch => match1 source
     | NotEnoughCharacters => (missing, source)
     | DidNotMatch => (other, source)
     end)
    (let '(result, source) := lookAheadInline w cs l in
     match result with
     | DidMatch => match2 source
     | NotEnoughCharacters => (missing, source)
     | DidNotMatch => (other, source)
     end).
Proof.
  intros HR HW HC HM. destruct (ref_lookAhead _ _ w cs HR HW HC) as [E HR'].
  destruct (lookAheadInline w cs s) as [r1 s1], (lookAheadInline w cs l) as [r2 l1].
  simpl in *. subst r2. destruct r1; [by apply block_related_intro | auto | by apply block_related_intro].
Qed.

Lemma after_match {A} (f : TState -> A) (x : TState * S) (y : TState * ListSource) :
  block_related x y ->
  block_related (let '(t, s) := x in (f t, s)) (let '(t, s) := y in (f t, s)).
Proof. destruct x, y. intros [E HR]. simpl in *. by subst. Qed.

Lemma MarkupDeclarationOpenState_related cc t s l : R s l -> 0 <= ls_consumed l ->
  block_related (MarkupDeclarationOpenState_block cc t s) (MarkupDeclarationOpenState_block cc t l).
Proof.
  intros HR HC. unfold MarkupDeclarationOpenState_block.
  repeat (case_match; [apply lookAhead_related; [done | simpl; lia | done |]; intros s' l' HR'|]); try done.
  - by apply (after_match (fun t => (HTML_SWITCH_TO CommentStartState, onToken beginComment t))),
      advanceString_related.
  - by apply (after_match (fun t => (HTML_SWITCH_TO DOCTYPEState, t))),
      advanceStringIgnoringCase_related.
  - by apply (after_match (fun t => (HTML_SWITCH_TO CDATASectionState, t))), advanceString_related.
Qed.

Lemma AfterDOCTYPENameState_related cc t s l : R s l -> 0 <= ls_consumed l ->
  block_related (AfterDOCTYPENameState_block cc t s) (AfterDOCTYPENameState_block cc t l).
Proof.
  intros HR HC. unfold AfterDOCTYPENameState_block. do 3 (case_match; [done|]).
  repeat (case_match; [apply lookAhead_related; [done | simpl; lia | done |]; intros s' l' HR'|]); try done.
  - by apply (after_match (fun t => (HTML_SWITCH_TO AfterDOCTYPEPublicKeywordState, t))),
      advanceStringIgnoringCase_related.
  - by apply (after_match (fun t => (HTML_SWITCH_TO AfterDOCTYPESystemKeywordState, t))),
      advanceStringIgnoringCase_related.
Qed.

Lemma CharacterReferenceInAttributeValueState_related cc t s l : R s l ->
  block_related (CharacterReferenceInAttributeValueState_block cc t s)
    (CharacterReferenceInAttributeValueState_block cc t l).
Proof.
  intros HR. unfold CharacterReferenceInAttributeValueState_block.
  destruct (consumeHTMLEntity_refines R (m_additionalAllowedCharacter (tk t)) s l HR)
    as (-> & -> & -> & HR').
  repeat case_match; by apply block_related_intro.
Qed.

Lemma block_refines st cc t s l : R s l -> 0 <= ls_consumed l -> block_related (block st cc t s) (block st cc t l).
Proof.
  intros HR HC. unfold block. rewrite (ref_consumed _ _ HR).
  destruct st; try (by apply block_related_intro);
    auto using MarkupDeclarationOpenState_related, AfterDOCTYPENameState_related,
      CharacterReferenceInAttributeValueState_related.
  all: unfold CharacterReferenceInDataState_block, CharacterReferenceInRCDATAState_block;
    destruct (processEntity_related t s l HR) as [E HR'];
    destruct (processEntity t s) as [[b t'] s'], (processEntity t l) as [[b' t''] l'];
    simpl in *; injection E as <- <-; destruct (negb b); by apply block_related_intro.
Qed.

Lemma step_related cc t s l : R s l -> 0 <= ls_consumed l -> out_related (step cc t s) (step cc t l).
Proof.
  intros HR HC. unfold step. destruct (block_refines (m_state (tk t)) cc t s l HR HC) as [E HR'].
  destruct (block _ cc t s) as [[a t'] s'], (block _ cc t l) as [[a' t''] l'].
  simpl in *. injection E as <- <-. by apply perform_related.
Qed.

Lemma enter_related t s l : R s l -> out_related (enter t s) (enter t l).
Proof.
  intros HR. unfold enter. destruct (_ && _); [|by apply peekPreprocessor_related].
  destruct (bool_decide _); [auto|by apply peekPreprocessor_related].
Qed.

(** Results of [nextToken] over related sources. *)
Definition result_related (x : option (bool * TState * S)) (y : option (bool * TState * ListSource))
    : Prop :=
  match x, y with
  | Some x, Some y => block_related x y
  | None, None => True
  | _, _ => False
  end.

Lemma run_related fuel o o' :
  out_related o o' -> 0 <= ls_consumed (outcomeSource o') -> result_related (run fuel o) (run fuel o').
Proof.
  revert o o'. induction fuel as [|fuel IH]; intros o o' [cc t s l HR | b t s l HR] HC; simpl; try done.
  apply IH; [by apply step_related|by apply step_consumed].
Qed.

(** [nextToken] makes the same token, moves to the same state and leaves
    related sources. *)
Lemma nextToken_related t s l : R s l -> 0 <= ls_consumed l -> result_related (nextToken t s) (nextToken t l).
Proof.
  intros HR HC. unfold nextToken. rewrite (ref_charactersAhead _ _ HR).
  apply run_related; [by apply enter_related|by apply enter_consumed].
Qed.
End Transport.
