(* ===== verification/TokenizerInvariant.v ===== *)
(** * The invariant of the tokenizer

    What holds of the tokenizer, its token and its source whenever control is
    at a state block or back at the caller.  From it follow that [nextToken]
    returns, that none of its assertions fails, and that it leaves a state
    from which it can be called again. *)

From S2P Require Import Prelude CharacterSource InputStreamPreprocessor HTMLEntitySearch.
From S2P Require Import CharacterReference CharacterReferenceSpec HTMLToken TokenizerStates.
From S2P Require Import HTMLTokenizer.
Open Scope Z_scope.

(** ** Shapes of a token *)

(** What a state expects of the token. *)
Inductive Shape :=
| SText | SCharacter | SNone | STag | SAttr | SValue | SComment
| SDoctype (hasPublic hasSystem : bool).

Definition attribute_ok (k : HTMLToken) : Prop :=
  exists i, m_currentAttribute k = Some i /\ (i < length (m_attributes k))%nat.

Definition doctype_ok (pub sys : bool) (k : HTMLToken) : Prop :=
  exists d, m_doctypeData k = Some d /\ (pub = true -> m_hasPublicIdentifier d = true) /\
    (sys = true -> m_hasSystemIdentifier d = true).

Definition shape_type (sh : Shape) (n : Z) (k : HTMLToken) : Prop :=
  match sh with
  | SText => m_type k = Uninitialized \/ m_type k = Character
  | SCharacter => m_type k = Character
  | SNone => m_type k = Uninitialized
  | STag => m_type k = StartTag \/ m_type k = EndTag
  | SAttr => (m_type k = StartTag \/ m_type k = EndTag) /\ attribute_ok k /\ m_baseOffset k < n
  | SValue => (m_type k = StartTag \/ m_type k = EndTag) /\ attribute_ok k /\ currentValueStart k <> 0
  | SComment => m_type k = Comment
  | SDoctype pub sys => m_type k = DOCTYPE /\ doctype_ok pub sys k
  end.

(** [n] is the number of characters consumed. *)
Definition tok_ok (sh : Shape) (n : Z) (k : HTMLToken) : Prop :=
  m_asserts k = true /\ m_baseOffset k <= n /\ shape_type sh n k.

Lemma typeIs_true ty k : m_type k = ty -> typeIs ty k = true.
Proof. intros E. by apply bool_decide_eq_true. Qed.

Lemma isTag_true k : m_type k = StartTag \/ m_type k = EndTag -> isTag k = true.
Proof. intros [E|E]; unfold isTag; rewrite (typeIs_true _ _ E); [done|apply orb_true_r]. Qed.

Lemma tok_ok_mono sh n n' k : tok_ok sh n k -> n <= n' -> tok_ok sh n' k.
Proof.
  intros (HA & HB & HT) Hn. split_and!; [done|lia|]. destruct sh; try done.
  destruct HT as (? & ? & ?). split_and!; [done..|lia].
Qed.

Lemma tok_ok_text n k : tok_ok SCharacter n k -> tok_ok SText n k.
Proof. intros (? & ? & ?). split_and!; [done..|by right]. Qed.

Lemma tok_ok_none n k : tok_ok SNone n k -> tok_ok SText n k.
Proof. intros (? & ? & ?). split_and!; [done..|by left]. Qed.

Lemma tok_ok_attr n k : tok_ok SAttr n k -> tok_ok STag n k.
Proof. intros (? & ? & ? & _). by split_and!. Qed.

Lemma tok_ok_value n k : tok_ok SValue n k -> tok_ok STag n k.
Proof. intros (? & ? & ? & _). by split_and!. Qed.

Lemma tok_ok_doctype pub sys n k : tok_ok (SDoctype pub sys) n k -> tok_ok (SDoctype false false) n k.
Proof. intros (? & ? & ? & d & ? & _). split_and!; try done. split; [done|by exists d]. Qed.

(** ** The member functions of the token *)

Lemma ASSERT_ok b sh n k : b = true -> tok_ok sh n k -> tok_ok sh n (ASSERT b k).
Proof.
  intros -> (HA & HB & HT). split_and!; [by simpl; rewrite HA|done|].
  by destruct sh.
Qed.

Lemma ASSERT_nonzero c sh n k : c <> 0 -> tok_ok sh n k -> tok_ok sh n (ASSERT (negb (c =? 0)) k).
Proof. intros HC. apply ASSERT_ok. by apply Z.eqb_neq in HC as ->. Qed.

Lemma ensure_ok n k : tok_ok SText n k -> tok_ok SCharacter n (ensureIsCharacterToken k).
Proof.
  intros (HA & HB & HT). split_and!; [|done|done]. simpl. rewrite HA. simpl.
  destruct HT as [E|E]; rewrite (typeIs_true _ _ E); [done|apply orb_true_r].
Qed.

Lemma appendToCharacter_ok n c k : tok_ok SCharacter n k -> tok_ok SCharacter n (appendToCharacter c k).
Proof.
  intros (HA & HB & HT). split_and!; [|done|done]. simpl. by rewrite HA, (typeIs_true _ _ HT).
Qed.

Lemma appendVector_ok n cs k : tok_ok SCharacter n k -> tok_ok SCharacter n (appendVectorToCharacter cs k).
Proof.
  intros (HA & HB & HT). split_and!; [|done|done]. simpl. by rewrite HA, (typeIs_true _ _ HT).
Qed.

Lemma beginStartTag_ok n c k : c <> 0 -> tok_ok SNone n k -> tok_ok STag n (beginStartTag c k).
Proof.
  intros HC (HA & HB & HT). split_and!; [|done|by left]. simpl.
  apply Z.eqb_neq in HC. by rewrite HA, HC, (typeIs_true _ _ HT).
Qed.

Lemma beginEndTag_ok n cs k : tok_ok SNone n k -> tok_ok STag n (beginEndTag cs k).
Proof.
  intros (HA & HB & HT). split_and!; [|done|by right]. simpl. by rewrite HA, (typeIs_true _ _ HT).
Qed.

Lemma appendToName_tag n c k : c <> 0 -> tok_ok STag n k -> tok_ok STag n (appendToName c k).
Proof.
  intros HC (HA & HB & HT). split_and!; [|done|done]. simpl. apply Z.eqb_neq in HC.
  by rewrite HA, HC, (isTag_true _ HT).
Qed.

Lemma appendToName_doctype n c pub sys k :
  c <> 0 -> tok_ok (SDoctype pub sys) n k -> tok_ok (SDoctype pub sys) n (appendToName c k).
Proof.
  intros HC (HA & HB & HT & HD). split_and!; [|done|done]. simpl. apply Z.eqb_neq in HC.
  rewrite HA, HC, (typeIs_true _ _ HT). by rewrite orb_true_r.
Qed.

Lemma setSelfClosing_ok n k : tok_ok STag n k -> tok_ok STag n (setSelfClosing k).
Proof.
  intros (HA & HB & HT). split_and!; [|done|done]. simpl. by rewrite HA, (isTag_true _ HT).
Qed.

Lemma addNewAttribute_ok n k :
  tok_ok STag n k -> tok_ok STag n (addNewAttribute k) /\ attribute_ok (addNewAttribute k).
Proof.
  intros (HA & HB & HT). split; [split_and!; [|done|done]; simpl; by rewrite HA, (isTag_true _ HT)|].
  eexists. split; [done|]. simpl. rewrite length_app. simpl. lia.
Qed.

(** Accesses through the current attribute. *)
Lemma onAttribute_ok f sh n k :
  attribute_ok k -> sh = STag \/ (sh = SAttr) -> tok_ok sh n k ->
  tok_ok sh n (onAttribute f k) /\ attribute_ok (onAttribute f k).
Proof.
  intros (i & HI & HL) HS (HA & HB & HT). unfold onAttribute. rewrite HI.
  assert (HO : attribute_ok (k <| m_attributes := alter f i (m_attributes k) |>)).
  { exists i. split; [done|]. simpl. by rewrite length_alter. }
  split; [|done]. split_and!; [done|done|]. destruct HS as [-> | ->]; [done|].
  destruct HT as (? & _ & ?). by split_and!.
Qed.

Lemma beginAttributeName_ok c o n k :
  c <> 0 -> tok_ok STag n k ->
  let k' := appendToAttributeName c (beginAttributeName o (addNewAttribute k)) in
  tok_ok SAttr (n + 1) k'.
Proof.
  intros HC HK. cbv zeta. destruct (addNewAttribute_ok n k HK) as [K1 A1].
  destruct (onAttribute_ok (fun a => a <| nameRange_start := o - m_baseOffset (addNewAttribute k) |>)
    STag n _ A1 (or_introl eq_refl) K1) as [K2 A2].
  fold (beginAttributeName o (addNewAttribute k)) in K2, A2.
  destruct K2 as (HA & HB & HT). set (k2 := beginAttributeName o (addNewAttribute k)) in *. clearbody k2.
  assert (K3 : tok_ok SAttr (n + 1) k2) by (split_and!; [done|lia|]; split_and!; [done..|lia]).
  apply onAttribute_ok; [done|by right|].
  apply ASSERT_ok; [by apply isTag_true|]. by apply ASSERT_nonzero.
Qed.

Lemma appendToAttributeName_ok c n k :
  c <> 0 -> tok_ok SAttr n k -> tok_ok SAttr n (appendToAttributeName c k).
Proof.
  intros HC HK. pose proof HK as (_ & _ & HT & HO & _). apply onAttribute_ok; [done|by right|].
  apply ASSERT_ok; [by apply isTag_true|]. by apply ASSERT_nonzero.
Qed.

Lemma endAttributeName_ok o n k : tok_ok SAttr n k -> tok_ok SAttr n (endAttributeName o k).
Proof. intros HK. pose proof HK as (_ & _ & HT & HO & _). apply onAttribute_ok; auto. Qed.

Lemma currentValueStart_onAttribute f k :
  attribute_ok k -> currentValueStart (onAttribute f k) =
  match m_currentAttribute k with
  | Some i => match m_attributes k !! i with Some a => valueRange_start (f a) | None => 0 end
  | None => 0
  end.
Proof.
  intros (i & HI & HL). unfold currentValueStart, onAttribute. rewrite HI. simpl. rewrite HI.
  rewrite list_lookup_alter_eq. by destruct (m_attributes k !! i).
Qed.

Lemma beginAttributeValue_ok o n k :
  tok_ok SAttr n k -> n <= o -> tok_ok SValue n (beginAttributeValue o k).
Proof.
  intros HK Ho. pose proof HK as (HA & HB & HT & HO & HL).
  destruct (onAttribute_ok (fun a => a <| valueRange_start := o - m_baseOffset k |>
    <| valueRange_end := 0 |>) SAttr n k HO (or_intror eq_refl) HK) as [(K1 & K2 & K3 & _) A].
  split_and!; [done|done|]. split_and!; [done|done|].
  unfold beginAttributeValue. rewrite currentValueStart_onAttribute by done.
  destruct HO as (i & HI & HLi). rewrite HI.
  destruct (lookup_lt_is_Some_2 _ _ HLi) as [a ->]. simpl. lia.
Qed.

(** Writes that keep the start of the value. *)
Lemma onAttribute_value f n k :
  (forall a, valueRange_start (f a) = valueRange_start a) ->
  tok_ok SValue n k -> tok_ok SValue n (onAttribute f k).
Proof.
  intros HF (HA & HB & HT & HO & HV).
  destruct (onAttribute_ok f STag n k HO (or_introl eq_refl) (conj HA (conj HB HT)))
    as [(K1 & K2 & K3) A].
  split_and!; [done|done|]. split_and!; [done|done|].
  rewrite currentValueStart_onAttribute by done. unfold currentValueStart in HV.
  destruct HO as (i & HI & HLi). rewrite HI in *.
  destruct (lookup_lt_is_Some_2 _ _ HLi) as [a E]. rewrite E in *. by rewrite HF.
Qed.

Lemma appendToAttributeValue_ok c n k :
  c <> 0 -> tok_ok SValue n k -> tok_ok SValue n (appendToAttributeValue c k).
Proof.
  intros HC HK. pose proof HK as (_ & _ & HT & _ & HV). apply onAttribute_value; [done|].
  apply ASSERT_nonzero; [done|].
  apply ASSERT_ok; [by apply isTag_true|]. by apply ASSERT_nonzero.
Qed.

Lemma endAttributeValue_ok o n k : tok_ok SValue n k -> tok_ok SValue n (endAttributeValue o k).
Proof. intros HK. by apply onAttribute_value. Qed.

Lemma beginComment_ok n k : tok_ok SNone n k -> tok_ok SComment n (beginComment k).
Proof.
  intros (HA & HB & HT). split_and!; [|done|done]. simpl. by rewrite HA, (typeIs_true _ _ HT).
Qed.

Lemma appendToComment_ok n c k : c <> 0 -> tok_ok SComment n k -> tok_ok SComment n (appendToComment c k).
Proof.
  intros HC (HA & HB & HT). split_and!; [|done|done]. simpl. apply Z.eqb_neq in HC.
  by rewrite HA, HC, (typeIs_true _ _ HT).
Qed.

Lemma beginDOCTYPE_ok n k : tok_ok SNone n k -> tok_ok (SDoctype false false) n (beginDOCTYPE k).
Proof.
  intros (HA & HB & HT). split_and!; [|done|].
  - simpl. by rewrite HA, (typeIs_true _ _ HT).
  - split; [done|]. by exists newDoctypeData.
Qed.

Lemma beginDOCTYPEWith_ok n c k :
  c <> 0 -> tok_ok SNone n k -> tok_ok (SDoctype false false) n (beginDOCTYPEWith c k).
Proof.
  intros HC HK. apply (beginDOCTYPE_ok n (ASSERT (negb (c =? 0)) k)).
  by apply ASSERT_nonzero.
Qed.

Lemma onDoctype_ok f pub sys pub' sys' n k :
  (forall d, (pub = true -> m_hasPublicIdentifier d = true) -> pub' = true -> m_hasPublicIdentifier (f d) = true) ->
  (forall d, (sys = true -> m_hasSystemIdentifier d = true) -> sys' = true -> m_hasSystemIdentifier (f d) = true) ->
  tok_ok (SDoctype pub sys) n k -> tok_ok (SDoctype pub' sys') n (onDoctype f k).
Proof.
  intros HP HS (HA & HB & HT & d & HD & HP' & HS'). unfold onDoctype. rewrite HD.
  split_and!; [done|done|]. split; [done|]. eexists. split; [done|]. auto.
Qed.

Lemma ASSERT_doctype pub sys n k :
  tok_ok (SDoctype pub sys) n k -> tok_ok (SDoctype pub sys) n (ASSERT (typeIs DOCTYPE k) k).
Proof. intros HK. pose proof HK as (_ & _ & HT & _). by apply ASSERT_ok; [apply typeIs_true|]. Qed.

Lemma setForceQuirks_ok pub sys n k :
  tok_ok (SDoctype pub sys) n k -> tok_ok (SDoctype pub sys) n (setForceQuirks k).
Proof. intros HK. apply (onDoctype_ok _ pub sys); [simpl; auto..|by apply ASSERT_doctype]. Qed.

Lemma setPublic_ok sys n k :
  tok_ok (SDoctype false sys) n k -> tok_ok (SDoctype true sys) n (setPublicIdentifierToEmptyString k).
Proof. intros HK. apply (onDoctype_ok _ false sys); [simpl; auto..|by apply ASSERT_doctype]. Qed.

Lemma setSystem_ok pub n k :
  tok_ok (SDoctype pub false) n k -> tok_ok (SDoctype pub true) n (setSystemIdentifierToEmptyString k).
Proof. intros HK. apply (onDoctype_ok _ pub false); [simpl; auto..|by apply ASSERT_doctype]. Qed.

Lemma appendToPublic_ok c sys n k :
  c <> 0 -> tok_ok (SDoctype true sys) n k -> tok_ok (SDoctype true sys) n (appendToPublicIdentifier c k).
Proof.
  intros HC HK. pose proof HK as (_ & _ & HT & d & HD & HP & _). apply (onDoctype_ok _ true sys); [simpl; auto..|].
  apply ASSERT_ok; [unfold doctypeFlag; rewrite HD; auto|].
  apply ASSERT_ok; [by apply typeIs_true|]. by apply ASSERT_nonzero.
Qed.

Lemma appendToSystem_ok c pub n k :
  c <> 0 -> tok_ok (SDoctype pub true) n k -> tok_ok (SDoctype pub true) n (appendToSystemIdentifier c k).
Proof.
  intros HC HK. pose proof HK as (_ & _ & HT & d & HD & _ & HP). apply (onDoctype_ok _ pub true); [simpl; auto..|].
  apply ASSERT_ok; [unfold doctypeFlag; rewrite HD; auto|].
  apply ASSERT_ok; [by apply typeIs_true|]. by apply ASSERT_nonzero.
Qed.

(** ** What a state expects *)

Definition shape (st : State) : Shape :=
  match st with
  | TagOpenState | EndTagOpenState | MarkupDeclarationOpenState | BogusCommentState
  | DOCTYPEState | BeforeDOCTYPENameState => SNone
  | TagNameState | BeforeAttributeNameState | AfterAttributeValueQuotedState
  | SelfClosingStartTagState => STag
  | AttributeNameState | AfterAttributeNameState | BeforeAttributeValueState => SAttr
  | AttributeValueDoubleQuotedState | AttributeValueSingleQuotedState | AttributeValueUnquotedState
  | CharacterReferenceInAttributeValueState => SValue
  | ContinueBogusCommentState | CommentStartState | CommentStartDashState | CommentState
  | CommentEndDashState | CommentEndState | CommentEndBangState => SComment
  | DOCTYPEPublicIdentifierDoubleQuotedState | DOCTYPEPublicIdentifierSingleQuotedState =>
      SDoctype true false
  | DOCTYPESystemIdentifierDoubleQuotedState | DOCTYPESystemIdentifierSingleQuotedState =>
      SDoctype false true
  | DOCTYPENameState | AfterDOCTYPENameState | AfterDOCTYPEPublicKeywordState
  | BeforeDOCTYPEPublicIdentifierState | AfterDOCTYPEPublicIdentifierState
  | BetweenDOCTYPEPublicAndSystemIdentifiersState | AfterDOCTYPESystemKeywordState
  | BeforeDOCTYPESystemIdentifierState | AfterDOCTYPESystemIdentifierState
  | BogusDOCTYPEState => SDoctype false false
  | _ => SText
  end.

(** The states that collect the name of a possible end tag. *)
Definition isEndTagNameState (st : State) : bool :=
  match st with
  | RCDATAEndTagNameState | RAWTEXTEndTagNameState | ScriptDataEndTagNameState
  | ScriptDataEscapedEndTagNameState => true
  | _ => false
  end.

Definition buffered_ok (st : State) (k : HTMLTokenizer) : Prop :=
  if isEndTagNameState st then m_bufferedEndTagName k <> [] else m_bufferedEndTagName k = [].

(** The characters [m_additionalAllowedCharacter] is set to. *)
Definition quoteCharacter (a : UChar) : Prop := a = cQUOT \/ a = "'"%uchar \/ a = ">"%uchar.

Definition allowed_ok (st : State) (k : HTMLTokenizer) : Prop :=
  match st with
  | CharacterReferenceInAttributeValueState => quoteCharacter (m_additionalAllowedCharacter k)
  | _ => True
  end.

(** The block of [st] may run after [n] characters. *)
Definition ready (st : State) (n : Z) (t : TState) : Prop :=
  tok_ok (shape st) n (token t) /\ buffered_ok st (tk t) /\ allowed_ok st (tk t).

(** At the end of the file the data state takes any token. *)
Definition finishing (n : Z) (t : TState) : Prop :=
  (m_asserts (token t) = true /\ m_baseOffset (token t) <= n) /\ m_bufferedEndTagName (tk t) = [].

(** The states in which pushed-back characters can be ahead as plain text. *)
Definition isReferenceText (st : State) : bool :=
  match st with
  | DataState | RCDATAState | AttributeValueDoubleQuotedState | AttributeValueSingleQuotedState
  | AttributeValueUnquotedState => true
  | _ => false
  end.

(** How often a character can be reconsumed from a state on. *)
Definition rank (st : State) : nat :=
  match st with
  | DataState | RCDATAState | RAWTEXTState | ScriptDataState | PLAINTEXTState => 0
  | TagOpenState | EndTagOpenState | MarkupDeclarationOpenState
  | ScriptDataEscapedEndTagOpenState | ScriptDataEscapedEndTagNameState => 3
  | BogusCommentState | AfterAttributeValueQuotedState | SelfClosingStartTagState
  | BeforeAttributeValueState | CharacterReferenceInAttributeValueState
  | ScriptDataEscapedLessThanSignState | ScriptDataDoubleEscapeStartState
  | ScriptDataDoubleEscapedLessThanSignState | ScriptDataDoubleEscapeEndState
  | CDATASectionRightSquareBracketState | CDATASectionDoubleRightSquareBracketState
  | DOCTYPEState => 2
  | _ => 1
  end.

(** The states [FLUSH_AND_ADVANCE_TO] and [FLUSH_EMIT_AND_RESUME_IN] leave the
    tokenizer in while the end tag waits behind a character token. *)
Definition isPendingState (st : State) : bool :=
  match st with
  | DataState | BeforeAttributeNameState | SelfClosingStartTagState => true
  | _ => false
  end.

(** A character that stays in the text of a state. *)
Definition isPlain (c : UChar) : bool := isReferenceLetter c || (c =? "#"%uchar).

(** What a block guarantees of the macro it ends in. *)
Definition action_ok (st : State) (cc : UChar) (n : Z) (r : Action * TState) : Prop :=
  let '(a, t) := r in
  match a with
  | HTML_ADVANCE_TO st' =>
      ready st' (n + 1) t /\ (isReferenceText st = true -> isPlain cc = true -> st' = st) /\ cc <> 0
  | HTML_RECONSUME_IN st' =>
      (ready st' n t \/ (cc = 0 /\ st' = DataState /\ finishing n t)) /\
      (rank st' < rank st)%nat /\ (isReferenceText st = true -> st' = DataState)
  | HTML_SWITCH_TO _ | RETURN_FALSE | RETURN_HAVE_BUFFERED_CHARACTER_TOKEN => False
  | FLUSH_AND_ADVANCE_TO st' =>
      (isPendingState st' = true /\ shape st' = STag /\ isReferenceText st = false /\ cc <> 0) /\ tok_ok SText n (token t) /\
      m_bufferedEndTagName (tk t) <> []
  | FLUSH_EMIT_AND_RESUME_IN st' =>
      (isPendingState st' = true /\ st' = DataState /\ isReferenceText st = false /\ cc <> 0) /\ tok_ok SText n (token t) /\
      m_bufferedEndTagName (tk t) <> []
  | EMIT_AND_RESUME_IN st' =>
      ((0 < rank st)%nat /\ cc <> 0) /\ st' = DataState /\ finishing n t /\
      m_type (token t) <> Uninitialized /\ m_type (token t) <> Character
  | EMIT_AND_RECONSUME_IN st' =>
      (0 < rank st)%nat /\ st' = DataState /\ finishing n t /\
      m_type (token t) <> Uninitialized /\ m_type (token t) <> Character
  | EMIT_END_OF_FILE => cc = 0 /\ finishing n t /\ rank st = 0%nat
  | RETURN_TRUE => st = DataState /\ tok_ok SCharacter n (token t) /\ m_bufferedEndTagName (tk t) = []
  end.

(** ** The blocks that do not touch the source *)

Lemma tok_ok_next sh n k : tok_ok sh n k -> tok_ok sh (n + 1) k.
Proof. intros HK. apply (tok_ok_mono _ n); [done|lia]. Qed.

(** [bufferCharacter] on the token. *)
Lemma bufferToken_ok c n k :
  c <> 0 -> tok_ok SText n k ->
  tok_ok SCharacter n (appendToCharacter c (ensureIsCharacterToken (ASSERT (negb (c =? kEndOfFileMarker)) k))).
Proof. intros HC HK. by apply appendToCharacter_ok, ensure_ok, ASSERT_nonzero. Qed.

Lemma endAttributeName_tag o n k : tok_ok SAttr n k -> tok_ok STag n (endAttributeName o k).
Proof. intros HK. by apply tok_ok_attr, endAttributeName_ok. Qed.

Lemma endAttributeValue_tag o n k : tok_ok SValue n k -> tok_ok STag n (endAttributeValue o k).
Proof. intros HK. by apply tok_ok_value, endAttributeValue_ok. Qed.

Lemma tok_ok_finishing sh n k : tok_ok sh n k -> m_asserts k = true /\ m_baseOffset k <= n.
Proof. intros (? & ? & _). done. Qed.

(** The current character is not the end-of-file marker. *)
Ltac nonzero :=
  unfold isTokenizerWhitespace, isASCIIUpper, isASCIILower, kEndOfFileMarker, toLowerCase in *; lia.

(** A block's effect on the token and on the tokenizer, separately. *)
Ltac expose :=
  cbn [onToken onTokenizer assertT bufferCharacter clearTemporaryBuffer clearBufferedEndTagName
       clearAppropriateEndTagName appendToTemporaryBuffer setAdditionalAllowedCharacter
       addToPossibleEndTag assertNoBufferedEndTagName
       token tk set_field set_tk set_token set_m_temporaryBuffer set_m_bufferedEndTagName
       set_m_appropriateEndTagName set_m_additionalAllowedCharacter
       m_state m_bufferedEndTagName m_additionalAllowedCharacter m_inputStreamPreprocessor
       m_temporaryBuffer m_appropriateEndTagName] in *.

Ltac branch :=
  repeat match goal with
  | |- context [if ?b then _ else _] =>
      lazymatch b with
      | context [if _ then _ else _] => fail
      | _ => let E := fresh "E" in destruct b eqn:E
      end
  end.

Definition usesSource (st : State) : bool :=
  match st with
  | CharacterReferenceInDataState | CharacterReferenceInRCDATAState
  | CharacterReferenceInAttributeValueState | MarkupDeclarationOpenState | AfterDOCTYPENameState => true
  | _ => false
  end.

Lemma ASSERT_empty {A} (l : list A) sh n k :
  l = [] -> tok_ok sh n k -> tok_ok sh n (ASSERT (bool_decide (l = [])) k).
Proof. intros HL. by apply ASSERT_ok, bool_decide_eq_true. Qed.

Lemma ASSERT_state st st' sh n k :
  st = st' -> isEndTagBufferingState st' = true -> tok_ok sh n k ->
  tok_ok sh n (ASSERT (isEndTagBufferingState st) k).
Proof. intros -> HS. by apply ASSERT_ok. Qed.

Ltac solve_buffered := first [done | solve [intros HN; by apply app_eq_nil in HN as [_ ?]]].

Lemma finishing_intro sh n t :
  tok_ok sh n (token t) -> m_bufferedEndTagName (tk t) = [] -> finishing n t.
Proof. intros (? & ? & _) ?. by repeat split. Qed.

(** An emitted token. *)
Lemma emit_intro sh n t :
  tok_ok sh n (token t) -> m_bufferedEndTagName (tk t) = [] ->
  sh = STag \/ sh = SComment \/ sh = SDoctype false false ->
  DataState = DataState /\ finishing n t /\ m_type (token t) <> Uninitialized /\
  m_type (token t) <> Character.
Proof.
  intros HK HB HS. split; [done|]. split; [by eapply finishing_intro|]. destruct HK as (_ & _ & HT).
  destruct HS as [->|[->| ->]]; simpl in HT; [destruct HT as [HT|HT] | | destruct HT as [HT _]];
    by rewrite HT.
Qed.

(** *** Automation: the effect of a block, read off its member function calls *)

Ltac nz := first [assumption | discriminate | nonzero].

Ltac tok_step :=
  lazymatch goal with
  | |- tok_ok SText _ (appendToCharacter _ _) => apply tok_ok_text
  | |- tok_ok SText _ (appendVectorToCharacter _ _) => apply tok_ok_text
  | |- tok_ok SCharacter _ (appendToCharacter _ _) => apply bufferToken_ok; [nz|]
  | |- tok_ok SCharacter _ (appendVectorToCharacter _ _) => apply appendVector_ok
  | |- tok_ok _ _ (beginStartTag _ _) => apply beginStartTag_ok; [nz|]
  | |- tok_ok _ _ (beginEndTag _ _) => apply beginEndTag_ok
  | |- tok_ok STag _ (appendToName _ _) => apply appendToName_tag; [nz|]
  | |- tok_ok _ _ (appendToName _ _) => apply appendToName_doctype; [nz|]
  | |- tok_ok _ _ (setSelfClosing _) => apply setSelfClosing_ok
  | |- tok_ok _ _ (appendToAttributeName _ (beginAttributeName _ _)) => apply beginAttributeName_ok; [nz|]
  | |- tok_ok _ _ (appendToAttributeName _ _) => apply appendToAttributeName_ok; [nz|]
  | |- tok_ok STag _ (endAttributeName _ _) => apply endAttributeName_tag
  | |- tok_ok _ _ (endAttributeName _ _) => apply endAttributeName_ok
  | |- tok_ok _ _ (beginAttributeValue _ _) => apply beginAttributeValue_ok; [|lia]
  | |- tok_ok _ _ (appendToAttributeValue _ _) => apply appendToAttributeValue_ok; [nz|]
  | |- tok_ok STag _ (endAttributeValue _ _) => apply endAttributeValue_tag
  | |- tok_ok _ _ (endAttributeValue _ _) => apply endAttributeValue_ok
  | |- tok_ok _ _ (beginComment _) => apply beginComment_ok
  | |- tok_ok _ _ (appendToComment _ _) => apply appendToComment_ok; [nz|]
  | |- tok_ok _ _ (beginDOCTYPE _) => apply beginDOCTYPE_ok
  | |- tok_ok _ _ (beginDOCTYPEWith _ _) => apply beginDOCTYPEWith_ok; [nz|]
  | |- tok_ok _ _ (setForceQuirks _) => apply setForceQuirks_ok
  | |- tok_ok _ _ (setPublicIdentifierToEmptyString _) => apply setPublic_ok
  | |- tok_ok _ _ (setSystemIdentifierToEmptyString _) => apply setSystem_ok
  | |- tok_ok _ _ (appendToPublicIdentifier _ _) => apply appendToPublic_ok; [nz|]
  | |- tok_ok _ _ (appendToSystemIdentifier _ _) => apply appendToSystem_ok; [nz|]
  | |- tok_ok _ _ (ASSERT (bool_decide _) _) => apply ASSERT_empty; [assumption|]
  | HM : m_state _ = _ |- tok_ok _ _ (ASSERT (isEndTagBufferingState _) _) =>
      apply (ASSERT_state _ _ _ _ _ HM); [reflexivity|]
  end.

Ltac tok_base :=
  first [assumption | apply tok_ok_none; assumption | apply tok_ok_attr; assumption
        | apply tok_ok_value; assumption | eapply tok_ok_doctype; eassumption].

Ltac solve_tok :=
  lazymatch goal with
  | |- tok_ok _ (_ + 1) (appendToAttributeName _ (beginAttributeName _ _)) => idtac
  | |- tok_ok _ (_ + 1) _ => apply tok_ok_next
  | _ => idtac
  end; repeat tok_step; tok_base.

(** Settles whether the current character is the end-of-file marker. *)
Ltac known cc :=
  first [assert (HZ : cc <> 0) by nonzero | assert (HZ : cc = 0) by nonzero | idtac].

Ltac solve_finishing :=
  first [apply (finishing_intro SText); expose; [solve [solve_tok]|assumption]
        | apply (finishing_intro STag); expose; [solve [solve_tok]|assumption]].

Ltac solve_emit :=
  first [apply (emit_intro STag); expose; [solve [solve_tok]|assumption|auto]
        | apply (emit_intro SComment); expose; [solve [solve_tok]|assumption|auto]
        | apply (emit_intro (SDoctype false false)); expose; [solve [solve_tok]|assumption|auto]].

Ltac solve_ready :=
  unfold ready, buffered_ok, allowed_ok, quoteCharacter; expose; cbn [shape isEndTagNameState];
  split; [solve_tok|]; split; [solve_buffered|tauto].

Ltac solve_action :=
  cbn [action_ok];
  lazymatch goal with
  | |- ready _ _ _ /\ _ =>
      split; [solve_ready|]; split; [first [done | unfold isPlain, isReferenceLetter; intros; nonzero] | nz]
  | |- (ready _ _ _ \/ _) /\ _ =>
      split; [first [solve [left; solve_ready] | right; split; [assumption|]; split; [done|]; solve_finishing]|];
      split; [simpl; lia|done]
  | |- (_ /\ _) /\ _ = DataState /\ _ => split; [split; [simpl; lia|nz]|solve_emit]
  | |- (0 < _)%nat /\ _ => split; [simpl; lia|solve_emit]
  | |- _ = 0 /\ _ => split; [assumption|]; split; [solve_finishing|done]
  | |- (isPendingState _ = true /\ _) /\ _ =>
      split; [done|]; expose; split; [solve_tok|solve_buffered]
  end.

Section Blocks.
Context `{CaseFolding} `{HTMLEntityTable}.

(** The two macros that hand the token back leave it alone. *)
Definition hands_back (r : Action * TState) (t : TState) : Prop :=
  fst r = RETURN_TRUE \/ fst r = EMIT_END_OF_FILE -> snd r = t.

Lemma DataState_ok cc n t :
  m_state (tk t) = DataState -> ready DataState n t ->
  action_ok DataState cc n (DataState_block n cc t) /\
  m_state (tk (snd (DataState_block n cc t))) = DataState /\ hands_back (DataState_block n cc t) t.
Proof.
  intros HM (HK & HB & HL). destruct t as [k tok]. unfold buffered_ok in HB. cbn in HM, HK, HB.
  unfold DataState_block. cbn [token]. destruct (typeIs Character tok) eqn:ET; branch; known cc;
    (split; [|split; [done|by intros [?|?]]]); try solve_action.
  - apply bool_decide_eq_true in ET. destruct HK as (HA & HB' & _). by repeat split.
  - apply bool_decide_eq_false in ET. split; [|split; [intros _ HP; unfold isPlain, isReferenceLetter in HP|]; nonzero].
    split_and!; try done. destruct HK as (HA & HB' & [HT|HT]); [|done]. simpl in *; split_and!; [done|simpl; lia|done].
Qed.

(** Every block that does not touch the source is sound. *)
Lemma plain_block_ok st cc t (l : ListSource) :
  usesSource st = false -> m_state (tk t) = st -> ready st (ls_consumed l) t ->
  exists r, block st cc t l = (r, l) /\ action_ok st cc (ls_consumed l) r /\
    m_state (tk (snd r)) = st /\ hands_back r t.
Proof.
  intros HU HM HR. unfold block.
  change (numberOfCharactersConsumed l) with (ls_consumed l) in *. set (n := ls_consumed l) in *. clearbody n.
  destruct (decide (st = DataState)) as [->|HD]; [eexists; split; [done|]; by apply DataState_ok|].
  destruct HR as (HK & HB & HL). destruct t as [k tok]. simpl in HM, HK, HB, HL.
  destruct st; try done; (eexists; split; [reflexivity|]); unfold buffered_ok in HB;
    cbn [isEndTagNameState shape] in *; clear HL HU HD;
    match goal with |- action_ok _ _ _ (?f _ _ _) /\ _ => unfold f end; branch; known cc;
    (split; [solve_action | split; [exact HM | by intros [?|?]]]).
Qed.
End Blocks.
