(* ===== verification/TokenizerSafety.v ===== *)
(** * [nextToken] returns, and no assertion fails

    The invariant of [TokenizerInvariant.v] is preserved by the state blocks
    that use the source, by the macros and by the prologue of [nextToken].  A
    measure (characters ahead, then [rank] of the state) decreases with every
    block, which bounds the loop. *)

From S2P Require Import Prelude CharacterSource SegmentedString InputStreamPreprocessor.
From S2P Require Import HTMLEntitySearch CharacterReference CharacterReferenceSpec HTMLToken.
From S2P Require Import TokenizerStates HTMLTokenizer TokenizerRefinement TokenizerInvariant.
Open Scope Z_scope.

(** ** The text ahead *)

(** Every numeric reference in the text fits the 32 bit accumulator. *)
Definition references_in_range (cs : list UChar) : Prop :=
  forall k rest, drop k cs = "#"%uchar :: rest ->
    numeral 10 decDigit (fst (span isASCIIDigit rest)) < 2 ^ 31 /\
    forall x rest', rest = x :: rest' -> x = "x"%uchar \/ x = "X"%uchar ->
      numeral 16 hexDigit (fst (span isHexDigit rest')) < 2 ^ 31.

Lemma references_in_range_drop k cs : references_in_range cs -> references_in_range (drop k cs).
Proof. intros HR j rest. rewrite drop_drop. apply HR. Qed.

Lemma span_all {A} (p : A -> bool) l : Forall (fun x => p x = true) (fst (span p l)).
Proof.
  induction l as [|x l IH]; simpl; [done|]. destruct (p x) eqn:E; [|done].
  destruct (span p l). by constructor.
Qed.

Lemma numeral_nonneg base (digit : UChar -> Z) ds r :
  0 <= base -> Forall (fun c => 0 <= digit c) ds -> 0 <= r ->
  0 <= fold_left (fun r c => r * base + digit c) ds r.
Proof.
  intros HB HD. revert r. induction HD as [|d ds Hd _ IH]; intros r Hr; simpl; [done|].
  apply IH. nia.
Qed.

Lemma appendUChar32_nonzero v : 0 < v <= 1114111 -> Forall (fun c => c <> 0) (appendUChar32 v).
Proof.
  intros Hv. unfold appendUChar32, U_IS_BMP, uint32. rewrite Z.mod_small by lia.
  destruct (Z.leb_spec v 65535).
  - constructor; [rewrite Z.mod_small; lia|done].
  - constructor; [|constructor; [|done]].
    + unfold U16_LEAD. rewrite Z.shiftr_div_pow2 by lia.
      assert (64 <= v / 2 ^ 10 <= 1087)
        by (split; [apply Z.div_le_lower_bound; lia | apply Z.lt_succ_r, Z.div_lt_upper_bound; lia]).
      rewrite Z.mod_small; lia.
    + unfold U16_TRAIL. intros E%Z.lor_eq_0_iff. lia.
Qed.

Lemma legalEntityFor_range v : 0 <= v < 2 ^ 31 -> 0 < legalEntityFor v <= 1114111.
Proof.
  intros Hv. unfold legalEntityFor.
  destruct ((v =? 0) || (v >? 1114111) || _) eqn:E; [lia|]. unfold U_IS_BMP, uint32.
  rewrite Z.mod_small by lia. destruct (Z.leb_spec v 65535); [|lia].
  unfold adjustEntity. destruct (negb _) eqn:EA; [rewrite Z.mod_small; lia|].
  assert (HW : Forall (fun u => 0 < u <= 1114111) windowsLatin1ExtensionArray)
    by (repeat constructor; lia).
  assert (HI : (Z.to_nat (v - 128) < 32)%nat).
  { apply negb_false_iff, Z.eqb_eq in EA. change (Z.lnot 31) with (Z.lnot (Z.ones 5)) in EA.
    rewrite <- Z.ldiff_land, Z.ldiff_ones_r in EA by lia.
    rewrite Z.shiftl_mul_pow2, Z.shiftr_div_pow2 in EA by lia.
    pose proof (Z.div_mod v (2 ^ 5) ltac:(lia)). pose proof (Z.mod_pos_bound v (2 ^ 5) ltac:(lia)). lia. }
  rewrite Forall_forall in HW. apply HW, list_elem_of_In, nth_In. done.
Qed.

Lemma numericReference_nonzero isDigit base digit skipped cs n d :
  0 <= base -> (forall c, isDigit c = true -> 0 <= digit c) ->
  numeral base digit (fst (span isDigit cs)) < 2 ^ 31 ->
  numericReference isDigit base digit skipped cs = Decoded n d -> Forall (fun c => c <> 0) d.
Proof.
  intros HB HD HV. unfold numericReference. pose proof (span_all isDigit cs) as HS.
  destruct (span isDigit cs) as [ds rest]. cbn [fst] in *. destruct rest as [|c rest]; [done|].
  destruct ds as [|x ds]; [done|]. intros [= _ <-]. apply appendUChar32_nonzero, legalEntityFor_range.
  pose proof (digitsValue_wraps base digit 0 (x :: ds)) as HW. change (int32 0) with 0 in HW.
  assert (0 <= numeral base digit (x :: ds)).
  { apply numeral_nonneg; [done| |lia]. by eapply Forall_impl. }
  change (0 <= digitsValue base digit 0 (x :: ds) < 2 ^ 31). rewrite HW. fold (numeral base digit (x :: ds)). rewrite int32_id; lia.
Qed.

(** Decoded references contain no NUL. *)
Lemma reference_nonzero `{HTMLEntityTableOk} a cs n d :
  references_in_range cs -> reference a cs = Decoded n d -> Forall (fun c => c <> 0) d.
Proof.
  intros HR. unfold reference. destruct cs as [|c cs]; [done|].
  destruct (Z.eqb_spec c "#"%uchar) as [->|HC].
  - destruct (HR 0%nat cs eq_refl) as [H1 H2]. destruct cs as [|x cs]; [done|].
    destruct (_ || _) eqn:EX.
    + apply numericReference_nonzero; [lia| |apply (H2 x cs eq_refl); lia].
      intros u HU. unfold isHexDigit, hexDigit, isASCIIDigit, isASCIILower in *. case_tests; lia.
    + apply numericReference_nonzero; [lia| |done]. intros u HU. unfold isASCIIDigit, decDigit in *. lia.
  - destruct (isReferenceLetter c); [|done]. unfold namedReference.
    destruct (isPrefixOfEntity _); [done|]. pose proof (longestMatch_longest (c :: cs)) as HL.
    destruct (longestMatch _) as [e|]; [|done]. destruct (_ || _ || _); [|done]. intros [= _ <-].
    destruct HL as (HI & _). apply list_elem_of_In, (In_nth _ _ noEntry) in HI as (i & Hi & <-).
    destruct (table_values i Hi) as [V1 V2]. unfold entryAt in V1, V2. unfold entityValue.
    apply Forall_app. split; [apply appendUChar32_nonzero; lia|].
    destruct (Z.eqb_spec (secondValue (nth i entityTable noEntry)) 0); simpl; [done|].
    apply appendUChar32_nonzero; lia.
Qed.

(** ** The invariant *)

Section Safety.
Context `{CaseFolding} `{HTMLEntityTableOk}.
Implicit Types (t : TState) (l : ListSource).

Definition pushed_ok (st : State) (k : HTMLTokenizer) l : Prop :=
  (length (ls_pushed l) <= 2)%nat /\
  match st with
  | CharacterReferenceInDataState | CharacterReferenceInRCDATAState =>
      reference 0 (ls_pushed l) = NeedMore
  | CharacterReferenceInAttributeValueState =>
      reference (m_additionalAllowedCharacter k) (ls_pushed l) = NeedMore
  | _ =>
      if isReferenceText st
      then match ls_pushed l with c :: _ :: _ => isPlain c = true | _ => True end
      else ls_pushed l = []
  end.

Definition source_ok l : Prop := 0 <= ls_consumed l /\ references_in_range (ls_ahead l).

(** Control is at a state block. *)
Definition at_block (cc : UChar) t l : Prop :=
  ls_chars l <> [] /\ cc = normalized l /\ source_ok l /\ pushed_ok (m_state (tk t)) (tk t) l /\
  (ready (m_state (tk t)) (ls_consumed l) t \/
   (cc = 0 /\ m_state (tk t) = DataState /\ finishing (ls_consumed l) t)).

(** [nextToken] can be called. *)
Definition callable t l : Prop :=
  source_ok l /\ pushed_ok (m_state (tk t)) (tk t) l /\
  (ready (m_state (tk t)) (ls_consumed l) t \/
   (isPendingState (m_state (tk t)) = true /\ m_bufferedEndTagName (tk t) <> [] /\
    tok_ok SNone (ls_consumed l) (token t))).

(** [nextToken] has returned: a token that is complete and a tokenizer that
    can go on with a cleared one, or a token that is still in progress. *)
Definition returned (b : bool) t l : Prop :=
  m_asserts (token t) = true /\
  if b then m_type (token t) <> Uninitialized /\ callable (onToken token_clear t) l
  else m_type (token t) <> Character /\ callable t l.

Definition measure (st : State) l : nat := (4 * length (ls_ahead l) + rank st)%nat.

(** What a block may lead to when it starts with measure [m]. *)
Definition outcome_ok (m : nat) (o : Outcome ListSource) : Prop :=
  match o with
  | Goto cc t l => at_block cc t l /\ (measure (m_state (tk t)) l < m)%nat
  | Return b t l => returned b t l
  end.

(** [l'] is [l] after [k] characters; the push-back slots may differ. *)
Definition moved (k : nat) l l' : Prop :=
  ls_ahead l' = drop k (ls_ahead l) /\ (k <= length (ls_ahead l))%nat /\
  ls_consumed l' = ls_consumed l + Z.of_nat k.

Lemma moved_source_ok k l l' : moved k l l' -> source_ok l -> source_ok l'.
Proof.
  intros (M1 & M2 & M3) [S1 S2]. split; [lia|]. rewrite M1. by apply references_in_range_drop.
Qed.

Lemma advanced_moved k l l' : advanced k l l' -> moved k l l'.
Proof. intros [A B P C N]. done. Qed.

Lemma rank_bound st : (rank st <= 3)%nat.
Proof. destruct st; simpl; lia. Qed.

Lemma reference_live_plain a c w : reference a (c :: w) = NeedMore -> isPlain c = true.
Proof.
  unfold reference, isPlain. destruct (c =? "#"%uchar); [by rewrite orb_true_r|].
  by destruct (isReferenceLetter c).
Qed.

(** Pushed-back characters are not skipped by the preprocessor unless they may be. *)
Definition kept (st : State) l l' : Prop :=
  ls_pushed l' = ls_pushed l \/ ls_pushed l' = [] \/
  (isReferenceText st = true /\ (length (ls_pushed l') <= 1)%nat).

Lemma pushed_ok_kept st k l l' : pushed_ok st k l -> kept st l l' -> pushed_ok st k l'.
Proof.
  intros [P1 P2] [E|[E|[E1 E2]]]; unfold pushed_ok.
  - by rewrite E.
  - rewrite E. split; [simpl; lia|]. by destruct st.
  - split; [lia|]. destruct st; try done; simpl; destruct (ls_pushed l') as [|? [|? ?]]; done || (simpl in E2; lia).
Qed.

Lemma plain_not_special c : isPlain c = true -> negb (Z.land c (Z.lnot specialCharacterMask) =? 0) = true.
Proof.
  intros HP. apply negb_true_iff, Z.eqb_neq. change specialCharacterMask with 15.
  intros E. change (Z.lnot 15) with (Z.lnot (Z.ones 4)) in E.
  rewrite <- Z.ldiff_land, Z.ldiff_ones_r in E by lia.
  rewrite Z.shiftl_mul_pow2, Z.shiftr_div_pow2 in E by lia.
  pose proof (Z.div_mod c (2 ^ 4) ltac:(lia)). pose proof (Z.mod_pos_bound c (2 ^ 4) ltac:(lia)).
  unfold isPlain, isReferenceLetter in HP. lia.
Qed.

(** A peek keeps what is pushed back in order. *)
Lemma peek_kept st k skip pp l ok pp' l' :
  pushed_ok st k l -> ls_chars l <> [] -> pp_peek skip pp l = (ok, pp', l') -> kept st l l'.
Proof.
  intros [P1 P2] HC HP. pose proof (pp_peek_peeked skip pp l HC) as HQ. rewrite HP in HQ.
  destruct HQ as (j & HA & _). pose proof (adv_pushed _ _ _ HA) as HD.
  destruct (ls_pushed l) as [|c w] eqn:EP; [right; left; by rewrite HD, drop_nil|].
  destruct (isPlain c) eqn:EC.
  - left. unfold pp_peek in HP. cbn [m_nextInputCharacter set_field set_m_nextInputCharacter] in HP.
    assert (EH : currentChar l = c) by (simpl; unfold ls_ahead; by rewrite EP).
    rewrite EH, (plain_not_special _ EC) in HP. by injection HP as _ _ <-.
  - assert (isReferenceText st = true /\ w = []) as [HS ->].
    { destruct st; simpl in P2; try done; try (apply reference_live_plain in P2; congruence);
        (split; [done|]; destruct w; [done|congruence]). }
    right. right. split; [done|]. rewrite HD. destruct j; simpl; [lia|]. rewrite drop_nil. simpl. lia.
Qed.

(** *** The macros *)

Lemma tok_ok_clear n k : m_asserts k = true -> 0 <= n -> tok_ok SNone n (token_clear k).
Proof. done. Qed.

Lemma callable_clear t l :
  m_asserts (token t) = true -> source_ok l -> pushed_ok (m_state (tk t)) (tk t) l ->
  (shape (m_state (tk t)) = SText /\ buffered_ok (m_state (tk t)) (tk t)) \/
  (isPendingState (m_state (tk t)) = true /\ m_bufferedEndTagName (tk t) <> []) ->
  callable (onToken token_clear t) l.
Proof.
  intros HA HS HP HK. assert (HC : tok_ok SNone (ls_consumed l) (token_clear (token t)))
    by (apply tok_ok_clear; [done|apply HS]).
  split; [done|]. split; [done|]. destruct HK as [[HK1 HK2]|[HK1 HK2]]; [left|right; done].
  split_and!; simpl.
  - rewrite HK1. by apply tok_ok_none.
  - done.
  - by destruct (m_state (tk t)).
Qed.

Lemma returnHaveBuffered_ok m t l :
  source_ok l -> pushed_ok (m_state (tk t)) (tk t) l -> ready (m_state (tk t)) (ls_consumed l) t ->
  outcome_ok m (returnHaveBuffered t l).
Proof.
  intros HS HP HR. pose proof HR as ((HA & HB & HT) & HF & HL). split; [done|].
  unfold haveBufferedCharacterToken, typeIs. case_bool_decide as EC; [|split; [done|]; by repeat (split; auto)].
  split; [by rewrite EC|]. apply callable_clear; [done..|]. left. split; [|done].
  assert (HC : shape (m_state (tk t)) <> SCharacter) by (by destruct (m_state (tk t))).
  destruct (shape (m_state (tk t))); simpl in HT; try done; decompose [and or] HT; congruence.
Qed.

Lemma peek_outcome_ok m t l r :
  source_ok l -> pushed_ok (m_state (tk t)) (tk t) l -> ready (m_state (tk t)) (ls_consumed l) t ->
  (measure (m_state (tk t)) l < m)%nat -> ls_chars l <> [] ->
  r = pp_peek (shouldSkipNullCharacters (tk t)) (m_inputStreamPreprocessor (tk t)) l ->
  outcome_ok m (gotoNext t r).
Proof.
  intros HS HP HR HM HC ER. pose proof (pp_peek_peeked (shouldSkipNullCharacters (tk t))
    (m_inputStreamPreprocessor (tk t)) l HC) as HQ. rewrite <- ER in HQ.
  destruct r as [[ok pp] l']. destruct HQ as (j & HA & HQ).
  pose proof (pushed_ok_kept _ _ _ _ HP (peek_kept _ _ _ _ _ _ _ _ HP HC (eq_sym ER))) as HP'.
  pose proof (moved_source_ok _ _ _ (advanced_moved _ _ _ HA) HS) as HS'.
  assert (HR' : ready (m_state (tk t)) (ls_consumed l') t).
  { destruct HR as (R1 & R2 & R3). split_and!; try done. apply (tok_ok_mono _ (ls_consumed l)); [done|].
    rewrite (adv_consumed _ _ _ HA). lia. }
  unfold gotoNext. destruct ok.
  - destruct HQ as (Q1 & Q2 & _). split; [split_and!; try done; by left|].
    unfold measure in *. simpl. rewrite (advanced_length _ _ _ HA). lia.
  - by apply returnHaveBuffered_ok.
Qed.

Lemma peekPreprocessor_ok m t l :
  source_ok l -> pushed_ok (m_state (tk t)) (tk t) l -> ready (m_state (tk t)) (ls_consumed l) t ->
  (measure (m_state (tk t)) l < m)%nat -> outcome_ok m (peekPreprocessor t l).
Proof.
  intros HS HP HR HM. unfold peekPreprocessor. cbn [isEmpty ListSource_source].
  destruct (ls_isEmpty l) eqn:EE; [by apply returnHaveBuffered_ok|].
  apply ls_isEmpty_false in EE. by eapply peek_outcome_ok.
Qed.

Lemma advancePreprocessor_ok m t l :
  ls_ahead l <> [] -> source_ok l -> pushed_ok (m_state (tk t)) (tk t) (ls_advance l) ->
  ready (m_state (tk t)) (ls_consumed l + 1) t -> (4 * length (ls_ahead l) <= m)%nat ->
  outcome_ok m (advancePreprocessor t l).
Proof.
  intros HN HS HP HR HM. pose proof (advanced_advance l HN) as HA.
  pose proof (moved_source_ok _ _ _ (advanced_moved _ _ _ HA) HS) as HS'.
  replace (ls_consumed l + 1) with (ls_consumed (ls_advance l)) in HR
    by (rewrite (adv_consumed _ _ _ HA); lia).
  unfold advancePreprocessor.
  pose proof (pp_advance_peeked (shouldSkipNullCharacters (tk t)) (m_inputStreamPreprocessor (tk t)) l HN) as HQ.
  destruct (ls_isEmpty (ls_advance l)) eqn:EE.
  - rewrite HQ. by apply returnHaveBuffered_ok.
  - destruct HQ as [HQ _]. apply ls_isEmpty_false in EE. eapply peek_outcome_ok; [done..| |done|done].
    unfold measure. rewrite (advanced_length _ _ _ HA). pose proof (adv_bound _ _ _ HA).
    pose proof (rank_bound (m_state (tk t))). lia.
Qed.

(** The states whose push-back slots only hold plain text. *)
Definition plain_pushed (st : State) l : Prop :=
  (length (ls_pushed l) <= 2)%nat /\
  if isReferenceText st then match ls_pushed l with c :: _ :: _ => isPlain c = true | _ => True end
  else ls_pushed l = [].

Lemma pushed_ok_plain st k l :
  (usesSource st = false \/ st = MarkupDeclarationOpenState \/ st = AfterDOCTYPENameState) ->
  pushed_ok st k l -> plain_pushed st l.
Proof. intros HU [HP HQ]. split; [done|]. destruct st; try done; destruct HU as [?|[?|?]]; discriminate. Qed.

Lemma pushed_ok_empty st k l : ls_pushed l = [] -> pushed_ok st k l.
Proof. intros HP. unfold pushed_ok. rewrite HP. split; [simpl; lia|]. by destruct st. Qed.

Lemma pushed_ok_single st k l :
  isReferenceText st = true -> (length (ls_pushed l) <= 1)%nat -> pushed_ok st k l.
Proof.
  intros HS HP. split; [lia|]. destruct st; try done; simpl;
    destruct (ls_pushed l) as [|? [|? ?]]; simpl in HP; done || lia.
Qed.

Lemma pushed_after_advance st st' k' cc l :
  plain_pushed st l -> cc = normalized l ->
  (isReferenceText st = true -> isPlain cc = true -> st' = st) -> pushed_ok st' k' (ls_advance l).
Proof.
  intros [P1 P2] -> HS. pose proof (ls_pushed_advance l) as EP.
  destruct (ls_pushed l) as [|c1 [|c2 w]] eqn:EW; [by apply pushed_ok_empty..|].
  destruct (isReferenceText st) eqn:ER; [|done].
  assert (EC : currentChar l = c1) by (simpl; unfold ls_ahead; by rewrite EW).
  pose proof (plain_not_special _ P2) as HN. apply negb_true_iff in HN.
  destruct (mask_special _ HN) as (N1 & N2 & _).
  assert (EN : normalized l = c1).
  { unfold normalized. rewrite EC. apply Z.eqb_neq in N1, N2. by rewrite N1, N2. }
  rewrite HS by (done || by rewrite EN). apply pushed_ok_single; [done|].
  rewrite EP. simpl in *. lia.
Qed.

Lemma flush_ok st' m t l :
  isPendingState st' = true -> tok_ok SText (ls_consumed l) (token t) ->
  m_bufferedEndTagName (tk t) <> [] -> ls_ahead l <> [] -> source_ok l -> ls_pushed (ls_advance l) = [] ->
  (4 * length (ls_ahead l) <= m)%nat ->
  let '(emit, t', l') := flushBufferedEndTag (setState st' t) l in
  if (emit : bool) then returned true t' l'
  else l' = ls_advance l /\ tok_ok STag (ls_consumed l') (token t') /\
       m_type (token t') <> Uninitialized /\ m_bufferedEndTagName (tk t') = [] /\ m_state (tk t') = st'.
Proof.
  intros HP HK HB HN HS HE HM. pose proof HK as (HA & HB' & HT).
  pose proof (advanced_advance l HN) as HV.
  pose proof (moved_source_ok _ _ _ (advanced_moved _ _ _ HV) HS) as HS'.
  unfold flushBufferedEndTag. cbn [token setState onTokenizer set_field set_tk assertT onToken].
  assert (HK' : tok_ok SText (ls_consumed l)
    (ASSERT (typeIs Character (token t) || typeIs Uninitialized (token t)) (token t))).
  { apply ASSERT_ok; [|done]. destruct HT as [E|E]; rewrite (typeIs_true _ _ E); [apply orb_true_r|done]. }
  set (k := ASSERT _ (token t)) in *. change (m_type (token t)) with (m_type k) in HT.
  match goal with |- context [typeIs Character (token (assertT ?b ?x))] =>
    change (typeIs Character (token (assertT b x))) with (typeIs Character k) end.
  destruct (typeIs Character k) eqn:EC.
  - apply bool_decide_eq_true in EC. split; [apply HK'|].
    split; [change (m_type k <> Uninitialized); by rewrite EC|].
    apply callable_clear; [apply HK'|done|by apply pushed_ok_empty|]. right. done.
  - apply bool_decide_eq_false in EC. destruct HT as [HT|HT]; [|done].
    split; [done|]. split; [|by split_and!]. change (tok_ok STag (ls_consumed (ls_advance l))
      (beginEndTag (m_bufferedEndTagName (tk t)) k)).
    apply beginEndTag_ok. destruct HK' as (K1 & K2 & _). split_and!; [done| |done].
    rewrite (adv_consumed _ _ _ HV). lia.
Qed.

(** A complete token is emitted and the tokenizer goes on in the data state. *)
Lemma emit_ok t l :
  source_ok l -> pushed_ok DataState (tk t) l -> m_asserts (token t) = true ->
  m_bufferedEndTagName (tk t) = [] -> m_type (token t) <> Uninitialized ->
  returned true (setState DataState (saveEndTagNameIfNeeded t)) l.
Proof.
  intros HS HP HA HB HT. unfold saveEndTagNameIfNeeded.
  assert (HU : typeIs Uninitialized (token t) = false) by (by apply bool_decide_eq_false).
  rewrite HU. simpl negb.
  assert (HA' : m_asserts (token (assertT true t)) = true) by (simpl; by rewrite HA).
  destruct (typeIs StartTag (token (assertT true t))).
  all: split; [exact HA'|]; split; [exact HT|]; apply callable_clear; [exact HA'|done|exact HP|].
  all: left; done.
Qed.

Lemma plain_pushed_empty st l :
  plain_pushed st l -> isReferenceText st = false -> ls_pushed (ls_advance l) = [].
Proof. intros [P1 P2] HR. rewrite HR in P2. by rewrite ls_pushed_advance, P2. Qed.

Lemma plain_pushed_data st k l : plain_pushed st l -> pushed_ok DataState k l.
Proof.
  intros [P1 P2]. split; [done|]. simpl. destruct (isReferenceText st); [done|]. by rewrite P2.
Qed.

Lemma perform_ok st a cc t l :
  plain_pushed st l -> ls_chars l <> [] -> cc = normalized l -> source_ok l ->
  action_ok st cc (ls_consumed l) (a, t) -> m_state (tk t) = st ->
  outcome_ok (measure st l) (perform a cc t l).
Proof.
  intros HP HC HN HS HA HM. pose proof (chars_ahead l HC) as HH.
  pose proof (advanced_advance l HH) as HV.
  pose proof (moved_source_ok _ _ _ (advanced_moved _ _ _ HV) HS) as HS'.
  assert (H4 : (4 * length (ls_ahead l) <= measure st l)%nat) by (unfold measure; lia).
  assert (HD : forall k, pushed_ok DataState k (ls_advance l)).
  { intros k. apply pushed_ok_single; [done|]. rewrite ls_pushed_advance.
    destruct HP as [HP _]. destruct (ls_pushed l); simpl in *; lia. }
  destruct a as [st'|st'|st'|st'|st'|st'|st'| | | |]; cbn [action_ok perform] in *; try done.
  - destruct HA as (HA & HI & _). apply advancePreprocessor_ok; [done|done| |exact HA|done].
    by eapply pushed_after_advance.
  - destruct HA as (HA & HR & HI). split; [|unfold measure; simpl; lia].
    split_and!; [done..| |exact HA]. simpl. destruct HP as [P1 P2].
    destruct (isReferenceText st) eqn:ER; [by rewrite HI|by apply pushed_ok_empty].
  - destruct HA as ((HA1 & HA2 & HA3 & _) & HK & HB).
    assert (HE : ls_pushed (ls_advance l) = []) by (by apply (plain_pushed_empty st)).
    pose proof (flush_ok st' (measure st l) t l HA1 HK HB HH HS HE H4) as HF.
    destruct (flushBufferedEndTag (setState st' t) l) as [[emit t'] l'].
    destruct emit; [done|]. destruct HF as (-> & F1 & F2 & F3 & F4).
    apply peekPreprocessor_ok; [done|by apply pushed_ok_empty| |].
    + rewrite F4. split_and!; [by rewrite HA2| |by destruct st']. unfold buffered_ok.
      by destruct st'.
    + unfold measure. rewrite (advanced_length _ _ _ HV). pose proof (rank_bound (m_state (tk t'))).
      pose proof (adv_bound _ _ _ HV). lia.
  - destruct HA as (_ & -> & ((F1 & F2) & F3) & HT & _). by apply emit_ok.
  - destruct HA as (_ & -> & ((F1 & F2) & F3) & HT & _). apply emit_ok; try done.
    by apply (plain_pushed_data st).
  - destruct HA as ((HA1 & -> & HA3 & _) & HK & HB). unfold flushEmitAndResumeIn.
    assert (HE : ls_pushed (ls_advance l) = []) by (by apply (plain_pushed_empty st)).
    pose proof (flush_ok DataState (measure st l) t l HA1 HK HB HH HS HE H4) as HF.
    destruct (flushBufferedEndTag (setState DataState t) l) as [[emit t'] l'].
    destruct emit; [done|]. destruct HF as (-> & F1 & F2 & F3 & F4).
    split; [apply F1|]. split; [done|]. apply callable_clear; [apply F1|done|by apply pushed_ok_empty|].
    left. rewrite F4. done.
  - destruct HA as (-> & ((F1 & F2) & F3) & HR). unfold emitEndOfFile, haveBufferedCharacterToken, typeIs.
    case_bool_decide as EC.
    + split; [done|]. split; [by rewrite EC|]. apply callable_clear; [done|done| |].
      * rewrite HM. destruct HP as [P1 P2]. split; [done|]. by destruct st.
      * left. rewrite HM. unfold buffered_ok. by destruct st.
    + split; [simpl; by rewrite F1|]. split; [done|].
      apply callable_clear; [simpl; by rewrite F1|done|done|]. by left.
  - destruct HA as (-> & (K1 & K2 & K3) & HB). split; [done|]. split; [by rewrite K3|].
    apply callable_clear; [done|done| |].
    + rewrite HM. by apply (plain_pushed_data DataState).
    + left. by rewrite HM.
Qed.

(** *** Character references *)

Lemma bufferCharacters_ok d n t :
  Forall (fun c => c <> 0) d -> tok_ok SText n (token t) ->
  let t' := fold_left (fun t c => bufferCharacter c t) d t in tok_ok SText n (token t') /\ tk t' = tk t.
Proof.
  intros HD. revert t. induction HD as [|c d HC _ IH]; intros t HK; [done|].
  cbn [fold_left]. destruct (IH (bufferCharacter c t)) as [I1 I2]; [|by rewrite I2].
  by apply tok_ok_text, bufferToken_ok.
Qed.

Lemma appendToAttributeValues_ok d n t :
  Forall (fun c => c <> 0) d -> tok_ok SValue n (token t) ->
  let t' := fold_left (fun t c => onToken (appendToAttributeValue c) t) d t in
  tok_ok SValue n (token t') /\ tk t' = tk t.
Proof.
  intros HD. revert t. induction HD as [|c d HC _ IH]; intros t HK; [done|].
  cbn [fold_left]. destruct (IH (onToken (appendToAttributeValue c) t)) as [I1 I2]; [|by rewrite I2].
  by apply appendToAttributeValue_ok.
Qed.

(** The source after [consumeHTMLEntity]: [st] is the state of the reference,
    [st'] the one of the text around it. *)
Definition after_reference (a : UChar) l (r : EntityResult ListSource) : Prop :=
  source_ok (er_source r) /\ ls_consumed l <= ls_consumed (er_source r) /\
  (length (ls_ahead (er_source r)) <= length (ls_ahead l))%nat /\
  Forall (fun c => c <> 0) (er_decoded r) /\ (length (ls_pushed (er_source r)) <= 2)%nat /\
  (er_success r = false -> er_decoded r = []) /\
  if er_notEnoughCharacters r
  then reference a (ls_pushed (er_source r)) = NeedMore
  else match ls_pushed (er_source r) with c :: _ :: _ => isPlain c = true | _ => True end.

Lemma put_back_moved l l' : put_back l l' -> moved 0 l l'.
Proof. intros (P1 & P2 & P3 & _). split_and!; [done|lia|lia]. Qed.

Lemma consumeHTMLEntity_ok a l :
  allowedCharacter a -> (length (ls_pushed l) <= 2)%nat -> reference a (ls_pushed l) = NeedMore ->
  ls_chars l <> [] -> source_ok l -> after_reference a l (consumeHTMLEntity a l).
Proof.
  intros HA HP HR HC HS.
  assert (HX : reference_result l (reference a (ls_ahead l)) (consumeHTMLEntity a l)).
  { destruct l as [w [|c cs] cl n]; [done|]. simpl in *. rewrite consumeHTMLEntity_pushed by done.
    exact (consumeHTMLEntity_flat a (w ++ c :: cs) cl n HA). }
  destruct (reference a (ls_ahead l)) as [| |n d] eqn:ER; unfold reference_result in HX.
  - destruct HX as (l' & -> & PB & HE). pose proof PB as (B1 & _ & B3 & B4 & _). unfold after_reference.
    cbn [er_source er_decoded er_success er_notEnoughCharacters].
    split_and!; [by eapply moved_source_ok; [apply put_back_moved|]|lia|by rewrite B1|done|done|done|].
    destruct HE as [-> |HE]; [done|]. unfold ls_ahead in B1 at 1. rewrite HE, app_nil_r in B1.
    by rewrite B1.
  - destruct HX as (l' & -> & PB & HE). pose proof PB as (B1 & _ & B3 & B4 & B5). unfold after_reference.
    cbn [er_source er_decoded er_success er_notEnoughCharacters].
    split_and!; [by eapply moved_source_ok; [apply put_back_moved|]|lia|by rewrite B1|done|done|done|].
    destruct B5 as [-> |(c & B5 & B6)]; [done|]. rewrite <- B1 in B5. unfold ls_ahead in B5.
    destruct (ls_pushed l') as [|c1 [|c2 w]]; try done. injection B5 as ->. done.
  - destruct HX as (HN & ->). unfold after_reference.
    cbn [er_source er_decoded er_success er_notEnoughCharacters ls_pushed ls_consumed].
    unfold ls_ahead at 2. cbn [ls_pushed ls_chars app].
    split_and!; [|lia|rewrite length_drop; lia|by eapply reference_nonzero; [apply HS|]|simpl; lia|done|done].
    eapply (moved_source_ok n l); [|done]. split_and!; [done|lia|done].
Qed.

Lemma processEntity_ok t l :
  tok_ok SText (ls_consumed l) (token t) -> (length (ls_pushed l) <= 2)%nat ->
  reference 0 (ls_pushed l) = NeedMore -> ls_chars l <> [] -> source_ok l ->
  let '(enough, t', l') := processEntity t l in
  tk t' = tk t /\ tok_ok SText (ls_consumed l') (token t') /\ source_ok l' /\
  (length (ls_ahead l') <= length (ls_ahead l))%nat /\ (length (ls_pushed l') <= 2)%nat /\
  if (enough : bool)
  then match ls_pushed l' with c :: _ :: _ => isPlain c = true | _ => True end
  else reference 0 (ls_pushed l') = NeedMore.
Proof.
  intros HK HP HR HC HS.
  destruct (consumeHTMLEntity_ok 0 l (or_introl eq_refl) HP HR HC HS)
    as (A1 & A2 & A3 & A4 & A5 & A6 & A7).
  pose proof (tok_ok_mono _ _ _ _ HK A2) as HK'. unfold processEntity.
  destruct (er_notEnoughCharacters _) eqn:EN; [by split_and!|].
  destruct (er_success _) eqn:ES; simpl negb; cbv iota.
  - destruct (bufferCharacters_ok _ _ _ A4 HK') as [B1 B2]. by split_and!.
  - rewrite (A6 eq_refl). split_and!; try done.
    apply tok_ok_text, bufferToken_ok; [done|]. by apply ASSERT_empty.
Qed.

Lemma CharacterReferenceInText_ok st st' cc t l :
  (st = CharacterReferenceInDataState /\ st' = DataState) \/
  (st = CharacterReferenceInRCDATAState /\ st' = RCDATAState) ->
  m_state (tk t) = st -> ready st (ls_consumed l) t -> pushed_ok st (tk t) l -> ls_chars l <> [] ->
  source_ok l ->
  outcome_ok (measure st l)
    (let '(enough, t, source) := processEntity t l in
     let '(a, t, source) :=
       if negb enough then (RETURN_HAVE_BUFFERED_CHARACTER_TOKEN, t, source)
       else (HTML_SWITCH_TO st', t, source) in
     perform a cc t source).
Proof.
  intros HST HM HR HP HC HS.
  assert (HX : tok_ok SText (ls_consumed l) (token t) /\ m_bufferedEndTagName (tk t) = [] /\
    reference 0 (ls_pushed l) = NeedMore /\ shape st' = SText /\ (rank st' < rank st)%nat /\
    isReferenceText st' = true /\ isEndTagNameState st' = false).
  { destruct HR as (R1 & R2 & _), HP as [_ HP].
    destruct HST as [[-> ->]|[-> ->]]; split_and!; try done; simpl; lia. }
  destruct HX as (X1 & X2 & X3 & X4 & X5 & X6 & X7).
  pose proof (processEntity_ok t l X1 (proj1 HP) X3 HC HS) as HE.
  destruct (processEntity t l) as [[enough t'] l']. destruct HE as (E1 & E2 & E3 & E4 & E5 & E6).
  destruct enough; simpl negb; cbv iota; cbn [perform].
  - apply peekPreprocessor_ok; [done| | |].
    + simpl. rewrite E1. split; [done|]. destruct HST as [[-> ->]|[-> ->]]; done.
    + simpl. split_and!; [by rewrite X4|unfold buffered_ok; simpl; by rewrite X7, E1|].
      destruct HST as [[-> ->]|[-> ->]]; done.
    + unfold measure. simpl. lia.
  - apply returnHaveBuffered_ok; [done| |].
    + rewrite E1, HM. split; [done|]. destruct HST as [[-> ->]|[-> ->]]; done.
    + rewrite E1, HM. destruct HR as (R1 & R2 & R3).
      split_and!; rewrite ?E1; [|done|done]. destruct HST as [[-> ->]|[-> ->]]; done.
Qed.

Lemma CharacterReferenceInAttributeValue_ok cc t l :
  m_state (tk t) = CharacterReferenceInAttributeValueState ->
  ready CharacterReferenceInAttributeValueState (ls_consumed l) t ->
  pushed_ok CharacterReferenceInAttributeValueState (tk t) l -> ls_chars l <> [] -> source_ok l ->
  outcome_ok (measure CharacterReferenceInAttributeValueState l)
    (let '(a, t, source) := CharacterReferenceInAttributeValueState_block cc t l in perform a cc t source).
Proof.
  intros HM (HK & HB & HL) [HP HR] HC HS. simpl in HL.
  set (a := m_additionalAllowedCharacter (tk t)) in *.
  destruct (consumeHTMLEntity_ok a l (or_intror HL) HP HR HC HS) as (A1 & A2 & A3 & A4 & A5 & A6 & A7).
  pose proof (tok_ok_mono _ _ _ _ HK A2) as HK'.
  unfold CharacterReferenceInAttributeValueState_block. fold a.
  destruct (er_notEnoughCharacters _) eqn:EN.
  { apply returnHaveBuffered_ok; [done| |]; rewrite HM; by split_and!. }
  set (t' := if negb (er_success _) then _ else _).
  assert (HT : tok_ok SValue (ls_consumed (er_source (consumeHTMLEntity a l))) (token t') /\ tk t' = tk t).
  { unfold t'. destruct (er_success _) eqn:ES; simpl negb; cbv iota.
    - by apply appendToAttributeValues_ok.
    - rewrite (A6 eq_refl). split; [|done]. apply appendToAttributeValue_ok; [done|]. by apply ASSERT_empty. }
  destruct HT as [T1 T2]. clearbody t'. cbv zeta. rewrite T2. fold a.
  set (l' := er_source (consumeHTMLEntity a l)) in *. clearbody l'.
  assert (HX : forall st', shape st' = SValue -> isReferenceText st' = true -> rank st' = 1%nat ->
    outcome_ok (measure CharacterReferenceInAttributeValueState l)
      (perform (HTML_SWITCH_TO st') cc t' l')).
  { intros st' S1 S2 S3. apply peekPreprocessor_ok; [done| | |].
    - split; [done|]. simpl. destruct st'; done.
    - simpl. split_and!; [by rewrite S1|unfold buffered_ok; simpl; rewrite T2; by destruct st'|by destruct st'].
    - unfold measure. simpl. lia. }
  destruct HL as [HL|[HL|HL]]; rewrite HL; by apply HX.
Qed.

(** *** Keywords *)

Lemma lookAhead_flat w cs l :
  ls_pushed l = [] ->
  exists r, lookAheadInline w cs l = (r, l) /\ (r = DidMatch -> startsWith cs (ls_ahead l) w = true).
Proof.
  intros HP. cbn [lookAheadInline ListSource_source]. unfold ls_lookAhead.
  assert (EL : mkListSource [] (ls_ahead l) (ls_closed l) (ls_consumed l) = l)
    by (unfold ls_ahead; destruct l; simpl in *; by subst).
  rewrite EL. destruct (_ <? _); [by exists NotEnoughCharacters|].
  destruct (startsWith cs (ls_ahead l) w) eqn:ES; by eexists.
Qed.

(** The matched keyword is consumed and its assertions hold. *)
Definition consumed_string (k : nat) t l (r : TState * ListSource) : Prop :=
  advanced k l (snd r) /\ tk (fst r) = tk t /\
  forall sh n, tok_ok sh n (token t) -> tok_ok sh n (token (fst r)).

Lemma consumed_string_step k t l b r :
  ls_ahead l <> [] -> b = true -> consumed_string k (assertT b t) (ls_advance l) r ->
  consumed_string (Datatypes.S k) t l r.
Proof.
  intros HN -> (C1 & C2 & C3). split_and!; [|done|].
  - by apply (advanced_trans 1 k l (ls_advance l)), C1; apply advanced_advance.
  - intros sh n HK. by apply C3, ASSERT_ok.
Qed.

Lemma advanceString_consumes w t l :
  startsWith true (ls_ahead l) w = true ->
  consumed_string (length w) t l (advanceStringAndASSERT w t l).
Proof.
  revert t l. induction w as [|c w IH]; intros t l HS; cbn [advanceStringAndASSERT length].
  - split_and!; [apply advanced_refl|done|done].
  - destruct (ls_ahead l) as [|d ds] eqn:EA; [done|]. simpl in HS. apply andb_true_iff in HS as [HS1 HS2].
    eapply consumed_string_step; [by rewrite EA| |apply IH].
    + simpl. by rewrite EA.
    + cbn [advance ListSource_source]. by rewrite ls_ahead_advance, EA.
Qed.

Lemma advanceStringIgnoringCase_consumes w t l :
  startsWith false (ls_ahead l) w = true ->
  consumed_string (length w) t l (advanceStringAndASSERTIgnoringCase w t l).
Proof.
  revert t l. induction w as [|c w IH]; intros t l HS; cbn [advanceStringAndASSERTIgnoringCase length].
  - split_and!; [apply advanced_refl|done|done].
  - destruct (ls_ahead l) as [|d ds] eqn:EA; [done|]. simpl in HS. apply andb_true_iff in HS as [HS1 HS2].
    eapply consumed_string_step; [by rewrite EA| |apply IH].
    + simpl. by rewrite EA.
    + cbn [advance ListSource_source]. by rewrite ls_ahead_advance, EA.
Qed.

(** A keyword block: the text of [w] leads to [st'] with the token changed by
    [f], the end of the input returns, anything else is [other]. *)
Lemma keyword_ok st st' w cs f (g : TState -> TState) other cc t l (adv : TState -> ListSource -> TState * ListSource) :
  (forall t l, startsWith cs (ls_ahead l) w = true -> consumed_string (length w) t l (adv t l)) ->
  (2 <= length w)%nat -> ls_pushed l = [] -> source_ok l -> m_state (tk t) = st ->
  ready st (ls_consumed l) t ->
  (forall n k, tok_ok (shape st) n k -> tok_ok (shape st') n (f k)) ->
  (forall t, tk (g t) = tk t /\ token (g t) = f (token t)) ->
  isEndTagNameState st = false /\ isEndTagNameState st' = false /\ allowed_ok st' (tk t) ->
  outcome_ok (measure st l) (let '(a, t) := other in perform a cc t l) ->
  outcome_ok (measure st l)
    (let '(a, t, source) :=
       (let '(result, source) := lookAheadInline w cs l in
        match result with
        | DidMatch => let '(t, source) := adv t source in (HTML_SWITCH_TO st', g t, source)
        | NotEnoughCharacters => (RETURN_HAVE_BUFFERED_CHARACTER_TOKEN, t, source)
        | DidNotMatch => (other, source)
        end) in
     perform a cc t source).
Proof.
  intros HW HL HP HS HM HR HF HG (N1 & N2 & N3) HO.
  destruct (lookAhead_flat w cs l HP) as (r & -> & HX).
  destruct r; cbv iota beta.
  - by destruct other.
  - destruct (HW t l (HX eq_refl)) as (C1 & C2 & C3). destruct (adv t l) as [t1 l1]. simpl in *.
    pose proof (adv_pushed _ _ _ C1) as EP. rewrite HP, drop_nil in EP.
    destruct HR as (R1 & R2 & R3). unfold buffered_ok in R2. rewrite N1 in R2.
    destruct (HG t1) as [G1 G2]. apply peekPreprocessor_ok.
    + by eapply moved_source_ok; [apply advanced_moved|].
    + by apply pushed_ok_empty.
    + simpl. split_and!; [|unfold buffered_ok; simpl; by rewrite N2, G1, C2
        |simpl; rewrite G1, C2; by destruct st'].
      simpl. rewrite G2. apply HF, C3. apply (tok_ok_mono _ (ls_consumed l)); [done|]. rewrite (adv_consumed _ _ _ C1). lia.
    + unfold measure. simpl. rewrite (advanced_length _ _ _ C1).
      pose proof (adv_bound _ _ _ C1). pose proof (rank_bound st'). lia.
  - apply returnHaveBuffered_ok; [done|by apply pushed_ok_empty|by rewrite HM].
Qed.

Lemma MarkupDeclarationOpen_ok cc t l :
  m_state (tk t) = MarkupDeclarationOpenState -> ready MarkupDeclarationOpenState (ls_consumed l) t ->
  pushed_ok MarkupDeclarationOpenState (tk t) l -> ls_chars l <> [] -> cc = normalized l -> source_ok l ->
  outcome_ok (measure MarkupDeclarationOpenState l)
    (let '(a, t, source) := MarkupDeclarationOpenState_block cc t l in perform a cc t source).
Proof.
  intros HM HR HP HC HN HS. pose proof (proj2 HP) as HE. simpl in HE.
  assert (HO : outcome_ok (measure MarkupDeclarationOpenState l)
    (let '(a, t) := (HTML_RECONSUME_IN BogusCommentState, t) in perform a cc t l)).
  { apply perform_ok; [apply (pushed_ok_plain _ (tk t)); auto|done..| |done].
    cbn [action_ok]. split; [left; by destruct HR as (? & ? & ?)|]. split; [simpl; lia|done]. }
  unfold MarkupDeclarationOpenState_block. branch.
  - apply (keyword_ok _ _ _ _ beginComment (onToken beginComment)); try done;
      [apply advanceString_consumes|apply beginComment_ok].
  - apply (keyword_ok _ _ _ _ (fun k => k) (fun t => t)); try done;
      [apply advanceStringIgnoringCase_consumes|simpl; lia].
  - apply (keyword_ok _ _ _ _ (fun k => k) (fun t => t)); try done;
      [apply advanceString_consumes|simpl; lia|intros n k; apply tok_ok_none].
  - exact HO.
Qed.

Lemma AfterDOCTYPEName_ok cc t l :
  m_state (tk t) = AfterDOCTYPENameState -> ready AfterDOCTYPENameState (ls_consumed l) t ->
  pushed_ok AfterDOCTYPENameState (tk t) l -> ls_chars l <> [] -> cc = normalized l -> source_ok l ->
  outcome_ok (measure AfterDOCTYPENameState l)
    (let '(a, t, source) := AfterDOCTYPENameState_block cc t l in perform a cc t source).
Proof.
  intros HM HR HP HC HN HS. pose proof (proj2 HP) as HE. simpl in HE.
  assert (HA : forall a t', m_state (tk t') = AfterDOCTYPENameState ->
    action_ok AfterDOCTYPENameState cc (ls_consumed l) (a, t') ->
    outcome_ok (measure AfterDOCTYPENameState l) (perform a cc t' l)).
  { intros a t' HM' HK. apply perform_ok; [apply (pushed_ok_plain _ (tk t)); auto|done..]. }
  assert (HO : cc <> 0 -> outcome_ok (measure AfterDOCTYPENameState l)
    (let '(a, t) := (HTML_ADVANCE_TO BogusDOCTYPEState, onToken setForceQuirks t) in perform a cc t l)).
  { intros HZ. apply HA; [done|]. destruct t as [k tok], HR as (HK & HB & _). unfold buffered_ok in HB.
    cbn [shape isEndTagNameState tk token] in *. solve_action. }
  unfold AfterDOCTYPENameState_block. branch; known cc.
  1-3: apply HA; [done|]; destruct t as [k tok], HR as (HK & HB & _); unfold buffered_ok in HB;
    cbn [shape isEndTagNameState tk token] in *; solve_action.
  1-2: apply (keyword_ok _ _ _ _ (fun k => k) (fun t => t)); try done;
      [apply advanceStringIgnoringCase_consumes|simpl; lia|by apply HO].
  by apply HO.
Qed.

(** *** Steps *)

Lemma step_ok cc t l : at_block cc t l -> outcome_ok (measure (m_state (tk t)) l) (step cc t l).
Proof.
  intros (HC & HN & HS & HP & HR). destruct HR as [HR|(HZ & HM & HF)].
  - unfold step. destruct (usesSource (m_state (tk t))) eqn:EU.
    + destruct (m_state (tk t)) eqn:EM; try done; cbn [block].
      * unfold CharacterReferenceInDataState_block.
        pose proof (CharacterReferenceInText_ok _ _ cc t l (or_introl (conj eq_refl eq_refl)) EM HR HP HC HS) as HX.
        destruct (processEntity t l) as [[[] ?] ?]; exact HX.
      * unfold CharacterReferenceInRCDATAState_block.
        pose proof (CharacterReferenceInText_ok _ _ cc t l (or_intror (conj eq_refl eq_refl)) EM HR HP HC HS) as HX.
        destruct (processEntity t l) as [[[] ?] ?]; exact HX.
      * by apply CharacterReferenceInAttributeValue_ok.
      * by apply MarkupDeclarationOpen_ok.
      * by apply AfterDOCTYPEName_ok.
    + destruct (plain_block_ok _ cc t l EU eq_refl HR) as ([a t'] & -> & HA & HM & _).
      apply perform_ok; try done. apply (pushed_ok_plain _ (tk t)); auto.
  - unfold step. rewrite HM in *. cbn [block].
    replace (DataState_block (numberOfCharactersConsumed l) cc t) with (EMIT_END_OF_FILE, t)
      by (rewrite HZ; done).
    by apply perform_ok.
Qed.

Lemma run_ok fuel m o :
  outcome_ok m o -> (m <= fuel)%nat ->
  exists b t l, run fuel o = Some (b, t, l) /\ returned b t l.
Proof.
  revert m o. induction fuel as [|fuel IH]; intros m [cc t l|b t l] HO HM; simpl in HO.
  - lia.
  - by exists b, t, l.
  - destruct HO as [HB HL]. cbn [run]. apply (IH (measure (m_state (tk t)) l)); [by apply step_ok|lia].
  - by exists b, t, l.
Qed.

Lemma enter_ok t l : callable t l -> outcome_ok (4 * length (ls_ahead l) + 4) (enter t l).
Proof.
  intros (HS & HP & HR). pose proof (rank_bound (m_state (tk t))) as HB.
  assert (HM : (measure (m_state (tk t)) l < 4 * length (ls_ahead l) + 4)%nat) by (unfold measure; lia).
  unfold enter. destruct HR as [HR|(H2 & H3 & H4)].
  - replace (negb _ && negb _) with false; [by apply peekPreprocessor_ok|]. symmetry.
    destruct HR as (_ & HF & _). unfold buffered_ok in HF.
    destruct (isEndTagNameState (m_state (tk t))) eqn:EE.
    + apply andb_false_iff. right. by destruct (m_state (tk t)).
    + by rewrite HF.
  - replace (negb _ && negb _) with true.
    2: { symmetry. rewrite bool_decide_eq_false_2 by done. by destruct (m_state (tk t)). }
    assert (HT : tok_ok STag (ls_consumed l) (token (beginBufferedEndTag t)))
      by (by apply beginEndTag_ok).
    cbv zeta. change (m_state (tk (beginBufferedEndTag t))) with (m_state (tk t)).
    case_bool_decide as ED.
    + split; [apply HT|]. split; [done|]. apply callable_clear; [apply HT|done|exact HP|].
      left. change (m_state (tk (beginBufferedEndTag t))) with (m_state (tk t)). by rewrite ED.
    + apply peekPreprocessor_ok; [done|exact HP| |exact HM].
      change (m_state (tk (beginBufferedEndTag t))) with (m_state (tk t)).
      unfold ready, buffered_ok. by destruct (m_state (tk t)).
Qed.

Lemma nextToken_ok t l :
  callable t l -> exists b t' l', nextToken t l = Some (b, t', l') /\ returned b t' l'.
Proof.
  intros HC. unfold nextToken. apply (run_ok _ (4 * length (ls_ahead l) + 4)); [by apply enter_ok|].
  simpl. lia.
Qed.

(** Input that arrives later keeps the tokenizer callable. *)
Lemma callable_append t l s :
  callable t l -> references_in_range (ls_ahead l ++ s) -> callable t (ls_append s l).
Proof.
  intros ([S1 S2] & HP & HR) HX. split_and!; [split; [done|]|done|done].
  unfold ls_ahead, ls_append in *. simpl. by rewrite app_assoc.
Qed.

Lemma callable_close t l : callable t l -> callable t (ls_close l).
Proof. done. Qed.

(** A tokenizer between two tokens, in one of the content states. *)
Lemma callable_content t l :
  rank (m_state (tk t)) = 0%nat -> m_bufferedEndTagName (tk t) = [] ->
  tok_ok SNone (ls_consumed l) (token t) -> source_ok l -> ls_pushed l = [] -> callable t l.
Proof.
  intros HR HB HT HL HP. split; [done|]. split; [by apply pushed_ok_empty|]. left.
  apply tok_ok_none in HT. unfold ready, buffered_ok. by destruct (m_state (tk t)).
Qed.
End Safety.
