(* ===== verification/TokenizerLiveness.v ===== *)
(** * The end of the input

    [HTMLInputStream::markEndOfFile] appends a NUL and closes the source.  On
    such a source [nextToken] emits a token with every call, up to the
    end-of-file token, unless it stops in front of a keyword that the end of
    the input cuts off. *)

From S2P Require Import Prelude CharacterSource InputStreamPreprocessor HTMLEntitySearch.
From S2P Require Import CharacterReference CharacterReferenceSpec HTMLToken TokenizerStates.
From S2P Require Import HTMLTokenizer TokenizerInvariant TokenizerSafety.
Open Scope Z_scope.

Section Liveness.
Context `{CaseFolding} `{HTMLEntityTableOk}.
Implicit Types (t : TState) (l : ListSource).

(** The source is closed and ends with the end-of-file marker. *)
Definition marked l : Prop := ls_closed l = true /\ exists cs, ls_chars l = cs ++ [0].

Lemma marked_chars l : marked l -> ls_chars l <> [].
Proof. intros (_ & cs & ->). by destruct cs. Qed.

Lemma marked_ahead l : marked l -> exists cs, ls_ahead l = cs ++ [0].
Proof. intros (_ & cs & E). exists (ls_pushed l ++ cs). unfold ls_ahead. by rewrite E, app_assoc. Qed.

Lemma marked_advance l : marked l -> (2 <= length (ls_ahead l))%nat -> marked (ls_advance l).
Proof.
  intros (HC & cs & E) HL. split; [by rewrite ls_closed_advance|]. unfold ls_ahead in HL.
  destruct l as [[|p ps] ch cl n]; simpl in *; subst ch; [|by exists cs].
  destruct cs as [|c cs]; simpl in *; [lia|]. by exists cs.
Qed.

Lemma marked_last l :
  marked l -> (length (ls_ahead l) < 2)%nat ->
  currentChar l = 0 /\ shouldTreatNullAsEndOfFileMarker l = true.
Proof.
  intros (HC & cs & E) HL. unfold shouldTreatNullAsEndOfFileMarker.
  cbn [currentChar isClosed sourceLength ListSource_source]. unfold ls_length, ls_ahead in *.
  rewrite HC, E in *. rewrite !length_app in HL. simpl in HL.
  by destruct (ls_pushed l), cs; simpl in *; try lia.
Qed.

(** The character in front of a block is the marker only at the very end. *)
Lemma marked_more l : marked l -> normalized l <> 0 -> (2 <= length (ls_ahead l))%nat.
Proof.
  intros HM HN. destruct (decide (2 <= length (ls_ahead l))%nat) as [?|HL]; [done|].
  destruct (marked_last l HM ltac:(lia)) as [E1 E2]. exfalso. apply HN. unfold normalized.
  by rewrite E1, E2.
Qed.

Lemma marked_advanced l cc : marked l -> cc = normalized l -> cc <> 0 -> marked (ls_advance l).
Proof. intros HM -> HN. apply marked_advance; [done|]. by apply marked_more. Qed.

(** The keyword a state looks ahead for at a character. *)
Definition keywordAt (st : State) (c : UChar) : option (list UChar) :=
  match st with
  | MarkupDeclarationOpenState =>
      if c =? "-"%uchar then Some dashDashString
      else if (c =? "D"%uchar) || (c =? "d"%uchar) then Some doctypeString
      else if c =? "["%uchar then Some cdataString else None
  | AfterDOCTYPENameState =>
      if (c =? "P"%uchar) || (c =? "p"%uchar) then Some publicString
      else if (c =? "S"%uchar) || (c =? "s"%uchar) then Some systemString else None
  | _ => None
  end.

(** Peeking finds a character. *)
Definition found (r : bool * Preprocessor * ListSource) : Prop :=
  fst (fst r) = true /\ marked (snd r).

Lemma processRest_found skip fuel pp l :
  (forall pp' l', (length (ls_ahead l') < length (ls_ahead l))%nat -> marked l' ->
     m_nextInputCharacter pp' = currentChar l' -> found (processAgain skip fuel pp' l')) ->
  marked l -> m_nextInputCharacter pp = currentChar l -> found (processRest skip fuel pp l).
Proof.
  intros IH HM HN. unfold processRest. destruct (_ =? cCR); [done|]. cbv zeta.
  destruct (_ && negb _) eqn:EN; [|done]. destruct skip; [|done].
  assert (HL : (2 <= length (ls_ahead l))%nat).
  { destruct (decide (2 <= length (ls_ahead l))%nat) as [?|HL]; [done|].
    destruct (marked_last l HM ltac:(lia)) as [_ E]. rewrite E in EN. by rewrite andb_false_r in EN. }
  pose proof (marked_advance l HM HL) as HM'.
  pose proof (advanced_length _ _ _ (advanced_advance l (chars_ahead l (marked_chars l HM)))) as HA.
  rewrite (proj2 (ls_isEmpty_false _) (marked_chars _ HM')).
  apply IH; [lia|done|done].
Qed.

Lemma processAgain_found skip fuel pp l :
  (length (ls_ahead l) < fuel)%nat -> marked l -> m_nextInputCharacter pp = currentChar l ->
  found (processAgain skip fuel pp l).
Proof.
  revert pp l. induction fuel as [|fuel IH]; intros pp l HF HM HN; [lia|].
  rewrite processAgain_unfold. destruct (_ && m_skipNextNewLine pp) eqn:EN.
  - assert (HL : (2 <= length (ls_ahead l))%nat).
    { destruct (decide (2 <= length (ls_ahead l))%nat) as [?|HL]; [done|].
      destruct (marked_last l HM ltac:(lia)) as [E _]. rewrite HN, E in EN. done. }
    pose proof (marked_advance l HM HL) as HM'.
    pose proof (advanced_length _ _ _ (advanced_advance l (chars_ahead l (marked_chars l HM)))) as HA.
    cbv zeta. rewrite (proj2 (ls_isEmpty_false _) (marked_chars _ HM')).
    apply processRest_found; [|done|done]. intros pp' l' HL' HM1 HN'. apply IH; [lia|done|done].
  - apply processRest_found; [|done|done]. intros pp' l' HL' HM1 HN'. apply IH; [lia|done|done].
Qed.

Lemma pp_peek_found skip pp l : marked l -> found (pp_peek skip pp l).
Proof.
  intros HM. unfold pp_peek. destruct (negb _); [done|].
  apply processAgain_found; [|done|done]. simpl. lia.
Qed.

(** What may happen on a marked source: a step to another block over a marked
    source, a token, or a stop in front of the first character of a keyword,
    with fewer characters ahead than the keyword has. *)
Definition stalled t l : Prop :=
  exists w, keywordAt (m_state (tk t)) (currentChar l) = Some w /\ (length (ls_ahead l) < length w)%nat.

Definition outcome_live (o : Outcome ListSource) : Prop :=
  match o with
  | Goto _ _ l => marked l
  | Return true t l => m_type (token t) = EndOfFile \/ marked l
  | Return false t l => stalled t l /\ marked l
  end.

Lemma gotoNext_live t r : found r -> outcome_live (gotoNext t r).
Proof. destruct r as [[ok pp] l]. intros [HF HM]. simpl in HF. by subst. Qed.

Lemma peekPreprocessor_live t l : marked l -> outcome_live (peekPreprocessor t l).
Proof.
  intros HM. unfold peekPreprocessor. cbn [isEmpty ListSource_source].
  rewrite (proj2 (ls_isEmpty_false _) (marked_chars _ HM)). by apply gotoNext_live, pp_peek_found.
Qed.

Lemma advancePreprocessor_live t l : marked (ls_advance l) -> outcome_live (advancePreprocessor t l).
Proof.
  intros HM. unfold advancePreprocessor. apply gotoNext_live. unfold pp_advance.
  cbn [isEmpty advanceAndUpdateLineNumber ListSource_source].
  rewrite (proj2 (ls_isEmpty_false _) (marked_chars _ HM)). by apply pp_peek_found.
Qed.

(** *** Character references end in front of the marker *)

Lemma span_marked (p : UChar -> bool) cs :
  p 0 = false -> exists ds rest, span p (cs ++ [0]) = (ds, rest ++ [0]) /\ cs = ds ++ rest.
Proof.
  intros HP. induction cs as [|c cs (ds & rest & IH1 & IH2)]; simpl.
  - rewrite HP. by exists [], [].
  - destruct (p c); [|by exists [], (c :: cs)]. rewrite IH1. exists (c :: ds), rest. by rewrite IH2.
Qed.

Lemma numericReference_marked isDigit base digit skipped cs :
  isDigit 0 = false ->
  match numericReference isDigit base digit skipped (cs ++ [0]) with
  | NeedMore => False
  | NoReference => True
  | Decoded n _ => (n <= skipped + length cs)%nat
  end.
Proof.
  intros HD. unfold numericReference.
  destruct (span_marked isDigit cs HD) as (ds & rest & -> & ->).
  destruct rest as [|c rest]; simpl; (destruct ds as [|d ds]; [done|]).
  - rewrite app_nil_r. simpl. lia.
  - rewrite length_app. simpl. destruct (c =? _); lia.
Qed.

Lemma reference_marked a cs :
  match reference a (cs ++ [0]) with
  | NeedMore => False
  | NoReference => True
  | Decoded n _ => (n <= length cs)%nat
  end.
Proof.
  destruct cs as [|c cs]; [done|]. change ((c :: cs) ++ [0]) with (c :: cs ++ [0]).
  cbv beta iota delta [reference]. destruct (c =? "#"%uchar).
  - destruct cs as [|x cs]; [done|]. change ((x :: cs) ++ [0]) with (x :: cs ++ [0]). cbv iota.
    destruct (_ || _).
    + apply (numericReference_marked isHexDigit 16 hexDigit 2). done.
    + apply (numericReference_marked isASCIIDigit 10 decDigit 1 (x :: cs)). done.
  - destruct (isReferenceLetter c); [|done]. unfold namedReference.
    assert (HN : forall i, inTable i -> ~ In 0 (entity (entryAt i))).
    { intros i Hi HI. pose proof (table_no_nul i Hi) as HF. rewrite Forall_forall in HF.
      apply (HF 0); [by apply list_elem_of_In|done]. }
    destruct (isPrefixOfEntity (c :: cs ++ [0])) eqn:EP.
    + apply isPrefixOfEntity_spec in EP as (i & Hi & [k Hk]). apply (HN i Hi). rewrite Hk.
      apply in_or_app. left. right. apply in_or_app. right. by left.
    + pose proof (longestMatch_longest (c :: cs ++ [0])) as HL.
      destruct (longestMatch _) as [e|]; [|done]. destruct (_ || _ || _); [|done].
      destruct HL as (L1 & [k L2] & _). apply list_elem_of_In, (In_nth _ _ noEntry) in L1 as (i & Hi & <-).
      fold (entryAt i) in *. specialize (HN i Hi). unfold entry_length.
      apply (f_equal length) in L2 as L3. rewrite app_comm_cons, !length_app in L3. simpl in L3 |- *.
      destruct k as [|x k]; [|simpl in L3; lia]. exfalso. apply HN. rewrite app_nil_r in L2. rewrite <- L2.
      right. apply in_or_app. right. by left.
Qed.

Lemma ahead_marked l l' cs :
  ls_closed l' = true -> ls_ahead l' = cs ++ [0] -> ls_chars l' <> [] -> marked l'.
Proof.
  intros HC HA HN. split; [done|]. unfold ls_ahead in HA.
  destruct (ls_chars l') as [|x ch _] using rev_ind; [done|].
  rewrite app_assoc in HA. apply app_inj_tail in HA as [_ ->]. by exists ch.
Qed.

Lemma consumeHTMLEntity_live a l :
  allowedCharacter a -> (length (ls_pushed l) <= 2)%nat -> reference a (ls_pushed l) = NeedMore ->
  marked l ->
  er_notEnoughCharacters (consumeHTMLEntity a l) = false /\ marked (er_source (consumeHTMLEntity a l)).
Proof.
  intros HA HP HR HM. destruct (marked_ahead l HM) as [cs HC].
  assert (HX : reference_result l (reference a (ls_ahead l)) (consumeHTMLEntity a l)).
  { pose proof (marked_chars l HM). destruct l as [w [|c ch] cl n]; [done|]. simpl in *.
    rewrite consumeHTMLEntity_pushed by done. exact (consumeHTMLEntity_flat a (w ++ c :: ch) cl n HA). }
  pose proof (reference_marked a cs) as HQ. rewrite <- HC in HQ. rewrite HC in HX.
  rewrite HC in HQ. destruct (reference a (cs ++ [0])) as [| |n d]; [done| |]; unfold reference_result in HX.
  - destruct HX as (l' & -> & PB & HN). destruct PB as (B1 & B2 & _). simpl. split; [done|].
    apply (ahead_marked l l' cs); [by rewrite B2; apply HM|by rewrite B1|done].
  - destruct HX as [_ ->]. simpl. split; [done|]. split; [apply HM|]. rewrite HC. simpl.
    exists (drop n cs). by rewrite drop_app_le by lia.
Qed.

(** *** Steps *)

Lemma perform_live st a cc t l n :
  marked l -> cc = normalized l -> action_ok st cc n (a, t) -> outcome_live (perform a cc t l).
Proof.
  intros HM HN HA. destruct a as [st'|st'|st'|st'|st'|st'|st'| | | |]; cbn [action_ok perform] in *; try done.
  - destruct HA as (_ & _ & HZ). apply advancePreprocessor_live. by eapply marked_advanced.
  - destruct HA as ((_ & _ & _ & HZ) & _). pose proof (marked_advanced l cc HM HN HZ) as HM'.
    unfold flushBufferedEndTag. destruct (typeIs Character _); [by right|]. by apply peekPreprocessor_live.
  - right. destruct HA as ((_ & HZ) & _). by eapply marked_advanced.
  - by right.
  - destruct HA as ((_ & _ & _ & HZ) & _). pose proof (marked_advanced l cc HM HN HZ) as HM'.
    unfold flushEmitAndResumeIn, flushBufferedEndTag. destruct (typeIs Character _); by right.
  - unfold emitEndOfFile. destruct (haveBufferedCharacterToken t); [by right|by left].
  - by right.
Qed.

Context `{!CaseFoldingASCII}.

Lemma fold_letter c : 1 <= c < 128 -> u_foldCase 0 <> u_foldCase c.
Proof.
  intros HC. rewrite !u_foldCase_ascii by lia. unfold toASCIILower.
  change (Z.lor 0 _) with 0. intros E. symmetry in E. apply Z.lor_eq_0_iff in E. lia.
Qed.

(** A keyword does not reach the marker. *)
Lemma startsWith_marked cs ds w :
  Forall (fun c => 1 <= c < 128) w -> startsWith cs (ds ++ [0]) w = true -> (length w <= length ds)%nat.
Proof.
  intros HW. revert ds. induction HW as [|c w HC _ IH]; intros ds HS; [simpl; lia|].
  destruct ds as [|d ds]; cbn [startsWith app] in HS; apply andb_true_iff in HS as [HS1 HS2].
  - exfalso. destruct cs; [apply Z.eqb_eq in HS1; lia|].
    apply Z.eqb_eq in HS1. by apply (fold_letter c HC).
  - apply IH in HS2. simpl. lia.
Qed.

Lemma advanced_marked k l l' ds :
  marked l -> ls_pushed l = [] -> advanced k l l' -> ls_ahead l = ds ++ [0] -> (k <= length ds)%nat ->
  marked l'.
Proof.
  intros [HM _] HP HA HD HK. pose proof (adv_pushed _ _ _ HA) as HP'. rewrite HP, drop_nil in HP'.
  apply (ahead_marked l l' (drop k ds)); [by rewrite (adv_closed _ _ _ HA)| |].
  - by rewrite (adv_ahead _ _ _ HA), HD, drop_app_le.
  - pose proof (adv_ahead _ _ _ HA) as E. unfold ls_ahead at 1 in E. rewrite HP', HD, drop_app_le in E by lia.
    simpl in E. rewrite E. by destruct (drop k ds).
Qed.

(** The characters of keywords are not changed by the preprocessor. *)
Lemma normalized_keyword l c : normalized l = c -> c <> cLF -> c <> replacementCharacter -> currentChar l = c.
Proof. unfold normalized. intros <-. destruct (_ =? cCR); [done|]. by destruct (_ && _). Qed.

Lemma keyword_of st cc l w :
  cc = normalized l -> keywordAt st cc = Some w -> keywordAt st (currentChar l) = Some w.
Proof.
  intros HN HK. rewrite (normalized_keyword l cc); [done|by symmetry|..]; intros ->; by destruct st.
Qed.

Lemma keyword_live w cs other cc t l g (adv : TState -> ListSource -> TState * ListSource) st' :
  (forall t l, startsWith cs (ls_ahead l) w = true -> consumed_string (length w) t l (adv t l)) ->
  keywordAt (m_state (tk t)) (currentChar l) = Some w ->
  Forall (fun c => 1 <= c < 128) w -> ls_pushed l = [] -> marked l ->
  outcome_live (let '(a, t) := other in perform a cc t l) ->
  outcome_live
    (let '(a, t, source) :=
       (let '(result, source) := lookAheadInline w cs l in
        match result with
        | DidMatch => let '(t, source) := adv t source in (HTML_SWITCH_TO st', g t, source)
        | NotEnoughCharacters => (RETURN_HAVE_BUFFERED_CHARACTER_TOKEN, t, source)
        | DidNotMatch => (other, source)
        end) in
     perform a cc t source).
Proof.
  intros HA HK HW HP HM HO. destruct (marked_ahead l HM) as [ds HD].
  cbn [lookAheadInline ListSource_source]. unfold ls_lookAhead.
  assert (EL : mkListSource [] (ls_ahead l) (ls_closed l) (ls_consumed l) = l)
    by (unfold ls_ahead; destruct l; simpl in *; by subst).
  rewrite EL. destruct (Z.ltb_spec (Z.of_nat (length (ls_ahead l))) (Z.of_nat (length w))) as [HN|HN].
  - cbn [perform]. unfold returnHaveBuffered. destruct (haveBufferedCharacterToken t); [by right|].
    split; [exists w; split; [done|lia]|done].
  - destruct (startsWith cs (ls_ahead l) w) eqn:ES; [|by destruct other].
    destruct (HA t l ES) as (C1 & _ & _). destruct (adv t l) as [t1 l1]. simpl in C1.
    apply peekPreprocessor_live. eapply advanced_marked; [done..|]. rewrite HD in ES.
    by eapply startsWith_marked.
Qed.

Ltac keyword_case :=
  cbn [keywordAt];
  repeat match goal with
  | E : (_ && _) = true |- _ => apply andb_true_iff in E as [E _]
  | E : (_ =? _) = _ |- _ => rewrite E; clear E
  | E : (_ || _) = _ |- _ => rewrite E; clear E
  end; done.

Lemma step_live cc t l : at_block cc t l -> marked l -> outcome_live (step cc t l).
Proof.
  intros (HC & HN & HS & HP & HR) HM. unfold step. destruct HR as [HR|(HZ & HM' & HF)].
  2: { rewrite HM'. cbn [block].
       replace (DataState_block (numberOfCharactersConsumed l) cc t) with (EMIT_END_OF_FILE, t)
         by (rewrite HZ; done).
       cbn [perform]. unfold emitEndOfFile. destruct (haveBufferedCharacterToken t); [by right|by left]. }
  destruct (usesSource (m_state (tk t))) eqn:EU.
  2: { destruct (plain_block_ok _ cc t l EU eq_refl HR) as ([a t'] & -> & HA & _). by eapply perform_live. }
  destruct (m_state (tk t)) eqn:EM; try done; cbn [block]; destruct HP as [HP HP'].
  - destruct (consumeHTMLEntity_live 0 l (or_introl eq_refl) HP HP' HM) as [E1 E2].
    unfold CharacterReferenceInDataState_block, processEntity. rewrite E1.
    destruct (negb (er_success _)); by apply peekPreprocessor_live.
  - destruct (consumeHTMLEntity_live 0 l (or_introl eq_refl) HP HP' HM) as [E1 E2].
    unfold CharacterReferenceInRCDATAState_block, processEntity. rewrite E1.
    destruct (negb (er_success _)); by apply peekPreprocessor_live.
  - destruct HR as (_ & _ & HL). simpl in HL.
    destruct (consumeHTMLEntity_live _ l (or_intror HL) HP HP' HM) as [E1 E2].
    unfold CharacterReferenceInAttributeValueState_block. rewrite E1.
    set (t' := if negb (er_success _) then _ else _).
    assert (ET : m_additionalAllowedCharacter (tk t') = m_additionalAllowedCharacter (tk t)).
    { unfold t'. destruct (negb _); [done|]. clear. generalize (er_decoded (consumeHTMLEntity (m_additionalAllowedCharacter (tk t)) l)).
      intros d. clear. revert t. induction d as [|c d IH]; intros t; [done|]. simpl. by rewrite IH. }
    cbv zeta. rewrite ET. clearbody t'. set (l' := er_source _) in *. clearbody l'.
    destruct HL as [-> |[-> | ->]]; by apply peekPreprocessor_live.
  - simpl in HP'. unfold MarkupDeclarationOpenState_block. branch; [..|done].
    all: apply (keyword_live _ _ (HTML_RECONSUME_IN BogusCommentState, t)); auto;
      first [rewrite EM; apply (keyword_of _ cc); [done|]; solve [keyword_case]
            | apply advanceString_consumes | apply advanceStringIgnoringCase_consumes | simpl; lia
            | repeat constructor; lia | done].
  - simpl in HP'. unfold AfterDOCTYPENameState_block. branch; known cc.
    1: apply advancePreprocessor_live; by eapply marked_advanced.
    1: right; by eapply marked_advanced.
    1: by right.
    3: apply advancePreprocessor_live; by eapply marked_advanced.
    all: apply (keyword_live _ _ (HTML_ADVANCE_TO BogusDOCTYPEState, onToken setForceQuirks t)); auto;
      first [rewrite EM; apply (keyword_of _ cc); [done|]; solve [keyword_case]
            | apply advanceStringIgnoringCase_consumes | simpl; lia | repeat constructor; lia
            | apply advancePreprocessor_live; by eapply marked_advanced].
Qed.

Lemma run_live fuel m o :
  outcome_ok m o -> (m <= fuel)%nat -> outcome_live o ->
  exists b t l, run fuel o = Some (b, t, l) /\ returned b t l /\ outcome_live (Return b t l).
Proof.
  revert m o. induction fuel as [|fuel IH]; intros m [cc t l|b t l] HO HM HL; simpl in HO.
  - lia.
  - by exists b, t, l.
  - destruct HO as [HB HL']. cbn [run].
    apply (IH (measure (m_state (tk t)) l)); [by apply step_ok|lia|by apply step_live].
  - by exists b, t, l.
Qed.

Lemma nextToken_live t l :
  callable t l -> marked l ->
  exists b t' l', nextToken t l = Some (b, t', l') /\ returned b t' l' /\ outcome_live (Return b t' l').
Proof.
  intros HC HM. unfold nextToken.
  apply (run_live _ (4 * length (ls_ahead l) + 4)); [by apply enter_ok|simpl; lia|].
  unfold enter. destruct (_ && _); [|by apply peekPreprocessor_live].
  destruct (bool_decide _); [by right|by apply peekPreprocessor_live].
Qed.

(** *** Progress between calls *)

(** A reported token is the end of the file, or the measure has dropped. *)
Definition advances (m : nat) (o : Outcome ListSource) : Prop :=
  match o with
  | Return true t' l' => m_type (token t') = EndOfFile \/ (measure (m_state (tk t')) l' < m)%nat
  | _ => True
  end.

Lemma gotoNext_advances m t r : found r -> advances m (gotoNext t r).
Proof. destruct r as [[ok pp] l]. intros [HF _]. simpl in HF. by subst. Qed.

Lemma peekPreprocessor_advances m t l : marked l -> advances m (peekPreprocessor t l).
Proof.
  intros HM. unfold peekPreprocessor. cbn [isEmpty ListSource_source].
  rewrite (proj2 (ls_isEmpty_false _) (marked_chars _ HM)). by apply gotoNext_advances, pp_peek_found.
Qed.

Lemma advancePreprocessor_advances m t l :
  marked (ls_advance l) -> advances m (advancePreprocessor t l).
Proof.
  intros HM. unfold advancePreprocessor. apply gotoNext_advances. unfold pp_advance.
  cbn [isEmpty advanceAndUpdateLineNumber ListSource_source].
  rewrite (proj2 (ls_isEmpty_false _) (marked_chars _ HM)). by apply pp_peek_found.
Qed.

Lemma measure_advance st st' l : ls_ahead l <> [] -> (measure st' (ls_advance l) < measure st l)%nat.
Proof.
  intros HN. unfold measure. rewrite (advanced_length _ _ _ (advanced_advance l HN)).
  pose proof (rank_bound st'). destruct (ls_ahead l); [done|]. simpl. lia.
Qed.

Lemma saveEndTagName_state st t : m_state (tk (setState st (saveEndTagNameIfNeeded t))) = st.
Proof. done. Qed.

Lemma perform_advances st a cc t l n :
  marked l -> cc = normalized l -> action_ok st cc n (a, t) ->
  advances (measure st l) (perform a cc t l) \/
  ((a = RETURN_TRUE \/ a = EMIT_END_OF_FILE) /\ m_type (token t) = Character /\
   perform a cc t l = Return true t l).
Proof.
  intros HM HN HA. pose proof (chars_ahead l (marked_chars l HM)) as HH.
  destruct a as [st'|st'|st'|st'|st'|st'|st'| | | |]; cbn [action_ok perform] in *; try done.
  - left. destruct HA as (_ & _ & HZ). apply advancePreprocessor_advances. by eapply marked_advanced.
  - by left.
  - left. destruct HA as ((_ & _ & _ & HZ) & _). pose proof (marked_advanced l cc HM HN HZ) as HM'.
    unfold flushBufferedEndTag. destruct (typeIs Character _); [|by apply peekPreprocessor_advances].
    right. by apply measure_advance.
  - left. right. rewrite saveEndTagName_state. by apply measure_advance.
  - left. destruct HA as (HR & -> & _). right. rewrite saveEndTagName_state. unfold measure. simpl. lia.
  - left. unfold flushEmitAndResumeIn, flushBufferedEndTag.
    destruct (typeIs Character _); right; by apply measure_advance.
  - unfold emitEndOfFile. destruct (haveBufferedCharacterToken t) eqn:EC; [right|by left; left].
    apply bool_decide_eq_true in EC. auto.
  - right. destruct HA as (_ & (_ & _ & HT) & _). auto.
Qed.

Lemma keyword_advances m w cs other cc t l g (adv : TState -> ListSource -> TState * ListSource) st' :
  (forall t l, startsWith cs (ls_ahead l) w = true -> consumed_string (length w) t l (adv t l)) ->
  Forall (fun c => 1 <= c < 128) w -> ls_pushed l = [] -> marked l ->
  haveBufferedCharacterToken t = false ->
  advances m (let '(a, t) := other in perform a cc t l) ->
  advances m
    (let '(a, t, source) :=
       (let '(result, source) := lookAheadInline w cs l in
        match result with
        | DidMatch => let '(t, source) := adv t source in (HTML_SWITCH_TO st', g t, source)
        | NotEnoughCharacters => (RETURN_HAVE_BUFFERED_CHARACTER_TOKEN, t, source)
        | DidNotMatch => (other, source)
        end) in
     perform a cc t source).
Proof.
  intros HA HW HP HM HS HO. destruct (marked_ahead l HM) as [ds HD].
  destruct (lookAhead_flat w cs l HP) as (r & -> & HX). destruct r; [by destruct other| |].
  - specialize (HX eq_refl). destruct (HA t l HX) as (C1 & _ & _). destruct (adv t l) as [t1 l1].
    simpl in C1. apply peekPreprocessor_advances. eapply advanced_marked; [done..|]. rewrite HD in HX.
    by eapply startsWith_marked.
  - cbn [perform]. unfold returnHaveBuffered. by rewrite HS.
Qed.

Lemma have_buffered_shape t n sh :
  tok_ok sh n (token t) -> sh = SNone \/ sh = SDoctype false false -> haveBufferedCharacterToken t = false.
Proof.
  intros (_ & _ & HT) HS. apply bool_decide_eq_false.
  destruct HS as [-> | ->]; simpl in HT; [|destruct HT as [HT _]]; by rewrite HT.
Qed.

Lemma step_advances cc t l :
  at_block cc t l -> marked l ->
  advances (measure (m_state (tk t)) l) (step cc t l) \/
  (m_type (token t) = Character /\ step cc t l = Return true t l).
Proof.
  intros (HC & HN & HS & HP & HR) HM. unfold step. destruct HR as [HR|(HZ & HM' & HF)].
  2: { rewrite HM'. cbn [block].
       replace (DataState_block (numberOfCharactersConsumed l) cc t) with (EMIT_END_OF_FILE, t)
         by (rewrite HZ; done).
       cbn [perform]. unfold emitEndOfFile. destruct (haveBufferedCharacterToken t) eqn:EC; [right|by left; left].
       by apply bool_decide_eq_true in EC. }
  destruct (usesSource (m_state (tk t))) eqn:EU.
  2: { destruct (plain_block_ok _ cc t l EU eq_refl HR) as ([a t'] & -> & HA & _ & HH).
       destruct (perform_advances _ a cc t' l _ HM HN HA) as [HQ|(HQ & HT & HE)]; [by left|right].
       unfold hands_back in HH. simpl in HH. rewrite (HH HQ) in HT, HE |- *. done. }
  left. destruct HP as [HP HP']. destruct HR as (HK & HB & HL).
  destruct (m_state (tk t)) eqn:EM; try done; cbn [block].
  - destruct (consumeHTMLEntity_live 0 l (or_introl eq_refl) HP HP' HM) as [E1 E2].
    unfold CharacterReferenceInDataState_block, processEntity. rewrite E1.
    destruct (negb (er_success _)); by apply peekPreprocessor_advances.
  - destruct (consumeHTMLEntity_live 0 l (or_introl eq_refl) HP HP' HM) as [E1 E2].
    unfold CharacterReferenceInRCDATAState_block, processEntity. rewrite E1.
    destruct (negb (er_success _)); by apply peekPreprocessor_advances.
  - destruct (consumeHTMLEntity_live _ l (or_intror HL) HP HP' HM) as [E1 E2].
    unfold CharacterReferenceInAttributeValueState_block. rewrite E1. cbv zeta.
    branch; first [by apply peekPreprocessor_advances | done].
  - simpl in HP'. pose proof (have_buffered_shape t _ _ HK (or_introl eq_refl)) as HF.
    unfold MarkupDeclarationOpenState_block. branch; [..|done].
    all: apply (keyword_advances _ _ _ (HTML_RECONSUME_IN BogusCommentState, t)); auto;
      first [apply advanceString_consumes | apply advanceStringIgnoringCase_consumes
            | repeat constructor; lia | done].
  - simpl in HP'. pose proof (have_buffered_shape t _ _ HK (or_intror eq_refl)) as HF.
    pose proof (chars_ahead l (marked_chars l HM)) as HH.
    unfold AfterDOCTYPENameState_block. branch; known cc.
    1: apply advancePreprocessor_advances; by eapply marked_advanced.
    1: right; rewrite saveEndTagName_state; by apply measure_advance.
    1: right; rewrite saveEndTagName_state; unfold measure; simpl; lia.
    3: apply advancePreprocessor_advances; by eapply marked_advanced.
    all: apply (keyword_advances _ _ _ (HTML_ADVANCE_TO BogusDOCTYPEState, onToken setForceQuirks t)); auto;
      first [apply advanceStringIgnoringCase_consumes | repeat constructor; lia
            | apply advancePreprocessor_advances; by eapply marked_advanced].
Qed.

(** Along a run that starts at a block of measure [m], a reported token leaves
    at most [m], and less when the run did not start with a character token. *)
Lemma run_advances fuel cc t l :
  at_block cc t l -> marked l -> (measure (m_state (tk t)) l <= fuel)%nat ->
  match run fuel (Goto cc t l) with
  | Some (true, t', l') =>
      m_type (token t') = EndOfFile \/
      (measure (m_state (tk t')) l' <= measure (m_state (tk t)) l)%nat /\
      (m_type (token t) <> Character -> measure (m_state (tk t')) l' < measure (m_state (tk t)) l)%nat
  | _ => True
  end.
Proof.
  revert cc t l. induction fuel as [|fuel IH]; intros cc t l HB HM HF; [done|]. cbn [run].
  pose proof (step_ok cc t l HB) as HO. pose proof (step_live cc t l HB HM) as HL.
  pose proof (step_advances cc t l HB HM) as HA.
  destruct (step cc t l) as [cc1 t1 l1|b t1 l1].
  - destruct HO as [HB1 HM1]. specialize (IH cc1 t1 l1 HB1 HL ltac:(lia)).
    destruct (run fuel (Goto cc1 t1 l1)) as [[[[] t2] l2]|]; [|done|done].
    destruct IH as [?|[I1 _]]; [by left|right]. split; [lia|]. intros _. lia.
  - assert (HR : run fuel (Return b t1 l1) = Some (b, t1, l1)) by (by destruct fuel).
    rewrite HR. destruct b; [|done]. destruct HA as [[?|HA]|[HA [= -> ->]]]; [by left|right|right].
    + split; [lia|]. by intros _.
    + split; [done|]. congruence.
Qed.

Definition pending (k : HTMLTokenizer) : bool := negb (bool_decide (m_bufferedEndTagName k = [])).

(** The measure of successive calls. *)
Definition call_measure t l : nat :=
  (2 * measure (m_state (tk t)) l + (if pending (tk t) then 1 else 0))%nat.

Lemma peek_run_advances t l fuel :
  source_ok l -> pushed_ok (m_state (tk t)) (tk t) l -> ready (m_state (tk t)) (ls_consumed l) t ->
  marked l -> m_type (token t) <> Character -> (measure (m_state (tk t)) l < fuel)%nat ->
  match run fuel (peekPreprocessor t l) with
  | Some (true, t', l') =>
      m_type (token t') = EndOfFile \/ (measure (m_state (tk t')) l' < measure (m_state (tk t)) l)%nat
  | _ => True
  end.
Proof.
  intros HS HP HR HM HT HF.
  pose proof (peekPreprocessor_ok (Datatypes.S (measure (m_state (tk t)) l)) t l HS HP HR ltac:(lia)) as HO.
  pose proof (peekPreprocessor_live t l HM) as HL.
  unfold peekPreprocessor in *. cbn [isEmpty ListSource_source] in *.
  rewrite (proj2 (ls_isEmpty_false _) (marked_chars _ HM)) in *. unfold gotoNext in *.
  pose proof (pp_peek_found (shouldSkipNullCharacters (tk t)) (m_inputStreamPreprocessor (tk t)) l HM) as [HF' _].
  destruct (pp_peek _ _ l) as [[ok pp] l1]. simpl in HF'. subst ok. destruct HO as [HB HM1].
  pose proof (run_advances fuel _ _ _ HB HL ltac:(simpl in *; lia)) as HX.
  destruct (run fuel _) as [[[[] t2] l2]|]; [|done|done].
  destruct HX as [?|[_ HX]]; [by left|right]. specialize (HX HT). simpl in *. lia.
Qed.

Lemma nextToken_advances t l :
  callable t l -> marked l -> m_type (token t) = Uninitialized ->
  match nextToken t l with
  | Some (true, t', l') => m_type (token t') = EndOfFile \/ (call_measure t' l' < call_measure t l)%nat
  | _ => True
  end.
Proof.
  intros (HS & HP & HR) HM HT. unfold nextToken, enter.
  set (fuel := (4 * charactersAhead l + 4)%nat).
  assert (HF : (measure (m_state (tk t)) l < fuel)%nat).
  { unfold fuel, measure. pose proof (rank_bound (m_state (tk t))). simpl. lia. }
  unfold call_measure. fold (pending (tk t)). destruct HR as [HR|(HB & HN & HK)].
  - replace (pending (tk t) && _) with false.
    2: { symmetry. destruct HR as (_ & HR & _). unfold buffered_ok, pending in *.
         destruct (isEndTagNameState (m_state (tk t))) eqn:EE; [|by rewrite HR].
         apply andb_false_iff. right. by destruct (m_state (tk t)). }
    pose proof (peek_run_advances t l fuel HS HP HR HM ltac:(congruence) HF) as HX.
    destruct (run fuel _) as [[[[] t2] l2]|]; [|done|done]. destruct HX as [?|HX]; [by left|right].
    destruct (pending (tk t2)), (pending (tk t)); lia.
  - assert (HPd : pending (tk t) = true) by (unfold pending; by rewrite bool_decide_eq_false_2).
    replace (pending (tk t) && _) with true.
    2: { rewrite HPd. by destruct (m_state (tk t)). }
    rewrite HPd. change (m_state (tk (beginBufferedEndTag t))) with (m_state (tk t)).
    case_bool_decide as ED.
    + assert (HR' : run fuel (Return true (beginBufferedEndTag t) l) = Some (true, beginBufferedEndTag t, l))
        by (by destruct fuel).
      rewrite HR'. right. simpl. lia.
    + assert (HTg : tok_ok STag (ls_consumed l) (token (beginBufferedEndTag t)))
        by (by apply beginEndTag_ok).
      pose proof (peek_run_advances (beginBufferedEndTag t) l fuel HS HP) as HX.
      destruct (run fuel _) as [[[[] t2] l2]|]; [|done|done].
      destruct HX as [?|HX]; [..|by left|right]; [|done|done|done|].
      * change (m_state (tk (beginBufferedEndTag t))) with (m_state (tk t)) in *.
        unfold ready, buffered_ok. by destruct (m_state (tk t)).
      * change (m_state (tk (beginBufferedEndTag t))) with (m_state (tk t)) in *.
        destruct (pending (tk t2)); lia.
Qed.
End Liveness.
