(* ===== verification/HTMLInputStream.v ===== *)
(** * The input stream of the parser

    [html/parser/HTMLInputStream.h]: the text the tokenizer reads, split at the
    insertion points of the scripts that are running.  The network appends at
    the end, [document.write] at the current insertion point.  The records of
    the running scripts live on the C++ stack; the model keeps them in a list,
    the outermost one first, and the pointer [m_last] as the address it holds:
    [m_first] or the [m_next] of one of the records. *)

From S2P Require Import Prelude CharacterSource SegmentedString InputStreamPreprocessor.
Open Scope Z_scope.

Record InsertionPointRecord := mkInsertionPoint {
  ir_next : SegmentedString;
  ir_line : Z;
  ir_column : Z
}.

Record HTMLInputStream := mkInputStream {
  is_first : SegmentedString;
  is_records : list InsertionPointRecord;
  is_last : option nat
}.

Definition newHTMLInputStream : HTMLInputStream := mkInputStream SegmentedString_default [] None.

Definition onFirst (f : SegmentedString -> SegmentedString) (st : HTMLInputStream) : HTMLInputStream :=
  mkInputStream (f (is_first st)) (is_records st) (is_last st).

Definition onNext (f : SegmentedString -> SegmentedString) (r : InsertionPointRecord) : InsertionPointRecord :=
  mkInsertionPoint (f (ir_next r)) (ir_line r) (ir_column r).

(** The string [m_last] points to. *)
Definition onLast (f : SegmentedString -> SegmentedString) (st : HTMLInputStream) : HTMLInputStream :=
  match is_last st with
  | None => onFirst f st
  | Some i => mkInputStream (is_first st) (alter (onNext f) i (is_records st)) (is_last st)
  end.

Definition lastString (st : HTMLInputStream) : SegmentedString :=
  match is_last st with
  | None => is_first st
  | Some i => default SegmentedString_default (ir_next <$> is_records st !! i)
  end.

Definition stream_appendToEnd (string : SegmentedString) (st : HTMLInputStream) : HTMLInputStream :=
  onLast (seg_append string) st.

Definition insertAtCurrentInsertionPoint (string : SegmentedString) (st : HTMLInputStream) : HTMLInputStream :=
  onFirst (seg_append string) st.

Definition hasInsertionPoint (st : HTMLInputStream) : bool := bool_decide (is_last st <> None).

Definition stream_markEndOfFile (st : HTMLInputStream) : HTMLInputStream :=
  onLast seg_close (onLast (seg_append (SegmentedString_fromString (mkString true [kEndOfFileMarker]))) st).

Definition closeWithoutMarkingEndOfFile (st : HTMLInputStream) : HTMLInputStream := onLast seg_close st.

Definition haveSeenEndOfFile (st : HTMLInputStream) : bool := m_closed (lastString st).

(** [splitInto(next)], where [next] is the member of the record that is pushed
    with it. *)
Definition splitInto (line column : Z) (st : HTMLInputStream) : HTMLInputStream :=
  mkInputStream (seg_assign SegmentedString_default (is_first st))
    (is_records st ++ [mkInsertionPoint (seg_assign (is_first st) SegmentedString_default) line column])
    (if bool_decide (is_last st = None) then Some (length (is_records st)) else is_last st).

(** [mergeFrom(next)], where [next] is the member of the innermost record. *)
Definition mergeFrom (next : SegmentedString) (st : HTMLInputStream) : HTMLInputStream :=
  let st := onFirst (seg_append next) st in
  let st := mkInputStream (is_first st) (is_records st)
    (if bool_decide (is_last st = Some (length (is_records st) - 1)%nat) then None else is_last st) in
  if m_closed next then onFirst seg_close st else st.

(** The constructor of [InsertionPointRecord]. *)
Definition openInsertionPoint (st : HTMLInputStream) : HTMLInputStream :=
  let line := m_currentLine (is_first st) in
  let column := seg_currentColumn (is_first st) in
  onFirst (seg_setCurrentPosition line column 0) (splitInto line column st).

(** The destructor of the innermost [InsertionPointRecord]. *)
Definition closeInsertionPoint (st : HTMLInputStream) : HTMLInputStream :=
  match last (is_records st) with
  | None => st
  | Some r =>
      let unparsedRemainderLength := int32 (seg_length (is_first st)) in
      let st := mergeFrom (ir_next r) st in
      let st := onFirst (seg_setCurrentPosition (ir_line r) (ir_column r) unparsedRemainderLength) st in
      mkInputStream (is_first st) (removelast (is_records st)) (is_last st)
  end.

(** ** Strings that were read from *)

(** The string without the count of the characters that were read. *)
Definition seg_text (s : SegmentedString) : list UChar := seg_pushed s ++ seg_chars s.

Lemma view_text s s' : seg_view s = seg_view s' ->
  seg_pushed s = seg_pushed s' /\ seg_chars s = seg_chars s' /\ m_closed s = m_closed s'.
Proof. unfold seg_view. by intros [= -> -> -> _]. Qed.

(** Appending a substring something was read from. *)
Lemma appendSubstring_text b s :
  wfx s -> sub_wf b ->
  wfx (seg_appendSubstring b s) /\ seg_pushed (seg_appendSubstring b s) = seg_pushed s /\
  seg_chars (seg_appendSubstring b s) = seg_chars s ++ sub_rest b /\
  m_closed (seg_appendSubstring b s) = m_closed s.
Proof.
  intros [[W1 W2 W3 W4 W5] F] WB. unfold seg_appendSubstring. destruct (Z.eqb_spec (m_length b) 0) as [E|E].
  { rewrite (sub_rest_nil _ WB E), app_nil_r. split; [by split; [constructor|]|done]. }
  pose proof (proj1 WB). destruct (Z.eqb_spec (m_length (m_currentString s)) 0) as [E2|E2]; cbv zeta.
  - rewrite set_empty_update.
    match goal with |- wfx (updateAdvanceFunctionPointers ?s0) /\ _ =>
      destruct (install_wfx s0) as [WI EV] end.
    + destruct s as [p1 p2 b0 ch np nl ln subs cl em fl f g]; simpl in *. constructor; simpl; try done; try lia; by rewrite W3.
    + split; [exact WI|]. destruct (view_text _ _ EV) as (-> & -> & ->). clear WI EV.
      unfold seg_chars, seg_pushed. destruct s as [p1 p2 b0 ch np nl ln subs cl em fl f g]; simpl in *.
      by rewrite (sub_rest_nil _ W1 E2), (W3 E2), app_nil_r.
  - unfold seg_chars, seg_pushed. destruct s as [p1 p2 b0 ch np nl ln subs cl em fl f g]; simpl in *.
    split; [split; [constructor; simpl|]|]; try done; try lia.
    + apply Forall_app. split; [done|]. constructor; [|done]. split; done || lia.
    + split_and!; [done| |done]. rewrite map_app, concat_app. simpl. by rewrite app_nil_r, <- app_assoc.
Qed.

Lemma append_fold_text bs s :
  wfx s -> Forall sub_wf bs ->
  let s' := fold_left (fun s b => seg_appendSubstring b s) bs s in
  wfx s' /\ seg_pushed s' = seg_pushed s /\ seg_chars s' = seg_chars s ++ concat (map sub_rest bs) /\
  m_closed s' = m_closed s.
Proof.
  intros W F. revert s W. induction F as [|b bs Fb F IH]; intros s W; simpl; [by rewrite app_nil_r|].
  destruct (appendSubstring_text b s W Fb) as (W' & P & C & L). destruct (IH _ W') as (W'' & P' & C' & L').
  split_and!; [done|congruence| |congruence]. by rewrite C', C, <- app_assoc.
Qed.

Lemma seg_append_text t s : wf s -> wf_contents t ->
  wf (seg_append t s) /\ seg_pushed (seg_append t s) = seg_pushed s /\
  seg_chars (seg_append t s) = seg_chars s ++ seg_chars t /\ m_closed (seg_append t s) = m_closed s.
Proof.
  intros W [T1 T2 _ _ _]. unfold seg_append.
  destruct (appendSubstring_text _ s (conj (wf_cont _ W) (wf_funcs _ W)) T1) as (W' & P' & C' & L').
  destruct (append_fold_text (m_substrings t) _ W') as (W'' & P'' & C'' & L'').
  { eapply Forall_impl; [exact T2|]. by intros b [? _]. }
  assert (forall u, (if isComposite t then fold_left (fun s b => seg_appendSubstring b s) (m_substrings t) u else u)
          = fold_left (fun s b => seg_appendSubstring b s) (m_substrings t) u) as ->.
  { intros u. unfold isComposite. by destruct (m_substrings t). }
  destruct (refresh_refines _ W'') as [WR VR]. destruct (view_text _ _ VR) as (EP & EC & EL). split; [exact WR|].
  rewrite EP, EC, EL, P'', C'', C', L'', L', P'. split_and!; [done| |done]. unfold seg_chars. by rewrite <- app_assoc.
Qed.

Lemma seg_assign_copy t s : wf t -> m_pushedChar2 t = 0 -> seg_assign t s = t.
Proof.
  intros W H2. unfold seg_assign. rewrite H2. simpl.
  assert (E : (if negb (m_pushedChar1 t =? 0) then m_pushedChar1 t else currentStringChar t) = m_currentChar t).
  { rewrite (wf_currentChar _ W). unfold seg_pushed. destruct (m_pushedChar1 t =? 0); simpl; [|done].
    by rewrite hd_seg_chars by apply W. }
  rewrite E, <- H2. by destruct t.
Qed.

Lemma set_position_wf line column n s : wf s ->
  let s' := seg_setCurrentPosition line column n s in
  wf s' /\ seg_view s' = seg_view s /\ m_currentLine s' = line /\ seg_currentColumn s' = column - n.
Proof.
  intros W. destruct (set_lines_refines line (seg_numberOfCharactersConsumed s + n - column) s (seg_view s)) as [W' V'].
  { by split. }
  assert (E : seg_setCurrentPosition line column n s = set_lines line (seg_numberOfCharactersConsumed s + n - column) s).
  { by destruct s. }
  cbv zeta. rewrite E. split_and!; [done|done|by destruct s|].
  destruct s. unfold seg_currentColumn, set_lines, seg_numberOfCharactersConsumed. simpl. lia.
Qed.

(** ** The specification: pieces of text, the current one first *)

(** What a stream promises: the pieces of text between the insertion points,
    from the one being read to the one the network appends to. *)
Record StreamText := mkStreamText { st_pieces : list (list UChar); st_closed : bool }.

Inductive StreamOp :=
| AppendToEnd (str : WTFString)
| InsertAtCurrentInsertionPoint (str : WTFString)
| MarkEndOfFile
| CloseWithoutMarkingEndOfFile
| OpenInsertionPoint
| CloseInsertionPoint
| ReadCharacter.

Definition stream_op (op : StreamOp) (st : HTMLInputStream) : HTMLInputStream :=
  match op with
  | AppendToEnd str => stream_appendToEnd (SegmentedString_fromString str) st
  | InsertAtCurrentInsertionPoint str => insertAtCurrentInsertionPoint (SegmentedString_fromString str) st
  | MarkEndOfFile => stream_markEndOfFile st
  | CloseWithoutMarkingEndOfFile => closeWithoutMarkingEndOfFile st
  | OpenInsertionPoint => openInsertionPoint st
  | CloseInsertionPoint => closeInsertionPoint st
  | ReadCharacter => onFirst seg_advanceAndUpdateLineNumber st
  end.

Definition onFirstPiece (f : list UChar -> list UChar) (ps : list (list UChar)) : list (list UChar) :=
  match ps with p :: rest => f p :: rest | [] => [] end.

Fixpoint onLastPiece (f : list UChar -> list UChar) (ps : list (list UChar)) : list (list UChar) :=
  match ps with
  | [] => []
  | [p] => [f p]
  | p :: rest => p :: onLastPiece f rest
  end.

Definition text_op (op : StreamOp) (x : StreamText) : StreamText :=
  match op with
  | AppendToEnd str => mkStreamText (onLastPiece (fun p => p ++ string_characters str) (st_pieces x)) (st_closed x)
  | InsertAtCurrentInsertionPoint str =>
      mkStreamText (onFirstPiece (fun p => p ++ string_characters str) (st_pieces x)) (st_closed x)
  | MarkEndOfFile => mkStreamText (onLastPiece (fun p => p ++ [kEndOfFileMarker]) (st_pieces x)) true
  | CloseWithoutMarkingEndOfFile => mkStreamText (st_pieces x) true
  | OpenInsertionPoint => mkStreamText ([] :: st_pieces x) (st_closed x)
  | CloseInsertionPoint =>
      match st_pieces x with
      | p :: q :: rest => mkStreamText ((p ++ q) :: rest) (st_closed x)
      | _ => x
      end
  | ReadCharacter => mkStreamText (onFirstPiece tail (st_pieces x)) (st_closed x)
  end.

(** ** The invariant *)

Definition unread (s : SegmentedString) : Prop := wf s /\ seg_pushed s = [].

Lemma unread_pushed s : unread s -> m_pushedChar1 s = 0 /\ m_pushedChar2 s = 0.
Proof.
  intros [W P]. unfold seg_pushed in P. destruct (Z.eqb_spec (m_pushedChar1 s) 0) as [E|]; [|done].
  split; [done|]. by apply (wf_pushed _ W).
Qed.

(** The pieces of the records, from the innermost one to the outermost one;
    only the outermost one can be closed. *)
Record stream_ok (st : HTMLInputStream) (x : StreamText) : Prop := {
  so_first : unread (is_first st);
  so_records : Forall (fun r => unread (ir_next r)) (is_records st);
  so_pieces : st_pieces x = seg_chars (is_first st) :: rev (map (fun r => seg_chars (ir_next r)) (is_records st));
  so_last : is_last st = if bool_decide (is_records st = []) then None else Some 0%nat;
  so_closed : map m_closed (map ir_next (is_records st) ++ [is_first st]) =
              st_closed x :: map (fun _ => false) (is_records st)
}.

Lemma seg_append_unread t s : unread s -> unread t ->
  unread (seg_append t s) /\ seg_chars (seg_append t s) = seg_chars s ++ seg_chars t /\
  m_closed (seg_append t s) = m_closed s.
Proof.
  intros [W P] [W' _]. destruct (seg_append_text t s W W') as (W'' & P' & C & L).
  split_and!; [|done..]. split; [done|congruence].
Qed.

Lemma fromString_unread str : unread (SegmentedString_fromString str) /\
  seg_chars (SegmentedString_fromString str) = string_characters str.
Proof.
  destruct (fromString_refines str) as [W V]. destruct (fromString_fresh str) as (_ & _ & P).
  split; [split; [done|by apply seg_pushed_nil]|apply seg_chars_fromString].
Qed.

Lemma seg_close_unread s : unread s -> unread (seg_close s) /\ seg_chars (seg_close s) = seg_chars s /\
  m_closed (seg_close s) = true.
Proof.
  intros [[[W1 W2 W3 W4 W5] WCh WF] P]. destruct s; split; [split; [|done]|done].
  split; [by constructor|done|done].
Qed.

Lemma onLastPiece_snoc f ps p : onLastPiece f (ps ++ [p]) = ps ++ [f p].
Proof. induction ps as [|q ps IH]; [done|]. simpl. rewrite IH. by destruct (ps ++ [p]) eqn:E; [destruct ps|]. Qed.

Lemma onLastPiece_id ps : onLastPiece (fun p => p) ps = ps.
Proof. induction ps as [|p [|q ps] IH]; [done|done|]. cbn [onLastPiece] in *. by rewrite IH. Qed.

Lemma on_last_ok f g h st x :
  (forall s, unread s -> unread (f s) /\ seg_chars (f s) = g (seg_chars s) /\ m_closed (f s) = h (m_closed s)) ->
  stream_ok st x ->
  stream_ok (onLast f st) (mkStreamText (onLastPiece g (st_pieces x)) (h (st_closed x))).
Proof.
  intros Hf [O1 O2 O3 O4 O5]. destruct st as [fs rs lst]. cbn [is_first is_records is_last] in *.
  destruct (Hf fs O1) as (F1 & F2 & F3). destruct rs as [|r rs].
  - rewrite bool_decide_true in O4 by done. subst lst. cbn in O3, O5 |- *. injection O5 as O5.
    split; cbn; [done|done| |done|]; [by rewrite O3, F2|by rewrite F3, O5].
  - rewrite bool_decide_false in O4 by done. subst lst. cbn in O3, O5 |- *. apply Forall_cons in O2 as [O2 O2'].
    injection O5 as O5 O5'. destruct (Hf _ O2) as (R1 & R2 & R3).
    split; cbn; [done|by constructor| |done|].
    + rewrite O3, app_comm_cons, onLastPiece_snoc. by rewrite R2.
    + by rewrite R3, O5, O5'.
Qed.

Lemma on_first_ok f g st x :
  (forall s, unread s -> unread (f s) /\ seg_chars (f s) = g (seg_chars s) /\ m_closed (f s) = m_closed s) ->
  stream_ok st x -> stream_ok (onFirst f st) (mkStreamText (onFirstPiece g (st_pieces x)) (st_closed x)).
Proof.
  intros Hf [O1 O2 O3 O4 O5]. destruct st as [fs rs lst]. cbn [is_first is_records is_last] in *.
  destruct (Hf fs O1) as (F1 & F2 & F3).
  split; cbn; [done|done|by rewrite O3; cbn; rewrite F2|done|].
  rewrite map_app in *. cbn in *. by rewrite F3.
Qed.

Lemma read_unread s : unread s ->
  unread (seg_advanceAndUpdateLineNumber s) /\
  seg_chars (seg_advanceAndUpdateLineNumber s) = tail (seg_chars s) /\
  m_closed (seg_advanceAndUpdateLineNumber s) = m_closed s.
Proof.
  intros [W P]. destruct (seg_advanceAndUpdateLineNumber_refines s (seg_view s)) as [W' V']; [by split|].
  pose proof (f_equal ls_pushed V') as E1. pose proof (f_equal ls_chars V') as E2. pose proof (f_equal ls_closed V') as E3.
  unfold ls_advance in E1, E2, E3. cbn [seg_view ls_pushed ls_chars ls_closed] in E1, E2, E3. rewrite P in E1, E2, E3.
  unfold unread. rewrite E1, E2, E3. destruct (seg_chars s) eqn:E; cbn; rewrite ?P, ?E; split_and!; done.
Qed.

Lemma open_ok st x : stream_ok st x -> stream_ok (openInsertionPoint st) (text_op OpenInsertionPoint x).
Proof.
  intros [O1 O2 O3 O4 O5]. destruct st as [fs rs lst]. cbn [is_first is_records is_last] in *.
  unfold openInsertionPoint, splitInto, onFirst. cbn [is_first is_records is_last].
  rewrite (seg_assign_copy fs _ (proj1 O1) (proj2 (unread_pushed _ O1))).
  rewrite (seg_assign_copy _ _ (proj1 default_refines) eq_refl).
  destruct (set_position_wf (m_currentLine fs) (seg_currentColumn fs) 0 SegmentedString_default) as (W & V & _);
    [exact (proj1 default_refines)|]. destruct (view_text _ _ V) as (VP & VC & VL).
  split; cbn [is_first is_records is_last text_op st_pieces st_closed].
  - by split.
  - apply Forall_app. split; [done|]. by constructor.
  - rewrite VC, map_app, rev_app_distr. cbn. by rewrite O3.
  - rewrite O4. destruct rs; done.
  - rewrite !map_app in *. cbn [map ir_next] in *. rewrite O5, VL. done.
Qed.

(** The innermost record and the others. *)
Lemma records_snoc fs rs r lst x : stream_ok (mkInputStream fs (rs ++ [r]) lst) x ->
  unread fs /\ unread (ir_next r) /\ Forall (fun r => unread (ir_next r)) rs /\ lst = Some 0%nat /\ m_closed fs = false /\
  st_pieces x = seg_chars fs :: seg_chars (ir_next r) :: rev (map (fun r => seg_chars (ir_next r)) rs) /\
  map m_closed (map ir_next rs) ++ [m_closed (ir_next r)] = st_closed x :: map (fun _ => false) rs.
Proof.
  intros [O1 O2 O3 O4 O5]. cbn [is_first is_records is_last] in *. apply Forall_app in O2 as [O2 O2'].
  apply Forall_cons in O2' as [O2' _]. rewrite map_app, rev_app_distr in O3. cbn in O3.
  rewrite bool_decide_false in O4 by (by destruct rs).
  rewrite !map_app in O5. cbn [map app] in O5. rewrite app_comm_cons in O5. apply app_inj_tail in O5 as [O5 O5'].
  by split_and!.
Qed.

Lemma closed_merge next s : unread s -> m_closed s = false ->
  let s' := if m_closed next then seg_close s else s in
  unread s' /\ seg_chars s' = seg_chars s /\ m_closed s' = m_closed next.
Proof.
  intros U C. cbv zeta. destruct (m_closed next); [by apply seg_close_unread|done].
Qed.

Lemma close_spec fs rs r lst x : stream_ok (mkInputStream fs (rs ++ [r]) lst) x ->
  let st' := closeInsertionPoint (mkInputStream fs (rs ++ [r]) lst) in
  stream_ok st' (text_op CloseInsertionPoint x) /\
  m_currentLine (is_first st') = ir_line r /\
  (Z.of_nat (length (seg_chars fs)) < 2 ^ 31 ->
   seg_currentColumn (is_first st') = ir_column r - Z.of_nat (length (seg_chars fs))).
Proof.
  intros H. destruct (records_snoc _ _ _ _ _ H) as (U & UN & O2 & -> & C & P & L). cbv zeta. clear H.
  unfold closeInsertionPoint. cbn [is_records is_first]. rewrite last_snoc.
  destruct (seg_append_unread _ _ U UN) as (U1 & C1 & L1). rewrite C in L1.
  destruct (closed_merge (ir_next r) _ U1 L1) as (U2 & C2 & L2).
  assert (E : mergeFrom (ir_next r) (mkInputStream fs (rs ++ [r]) (Some 0%nat)) =
    mkInputStream (if m_closed (ir_next r) then seg_close (seg_append (ir_next r) fs) else seg_append (ir_next r) fs)
      (rs ++ [r]) (if bool_decide (rs = []) then None else Some 0%nat)).
  { unfold mergeFrom, onFirst. cbn [is_first is_records is_last]. rewrite length_app, Nat.add_sub.
    replace (bool_decide (Some 0%nat = Some (length rs))) with (bool_decide (rs = [])); [by destruct (m_closed (ir_next r))|].
    apply bool_decide_ext. destruct rs; simpl; split; congruence. }
  rewrite E. unfold onFirst. cbn [is_first is_records is_last]. rewrite removelast_last.
  pose proof (set_position_wf (ir_line r) (ir_column r) (int32 (seg_length fs)) _ (proj1 U2)) as (W3 & V3 & EL & EC).
  destruct (view_text _ _ V3) as (VP & VC & VL).
  assert (Hlen : Z.of_nat (length (seg_chars fs)) < 2 ^ 31 ->
    int32 (seg_length fs) = Z.of_nat (length (seg_chars fs))).
  { intros HB. rewrite (seg_length_refines fs (seg_view fs)) by (split; [apply U|done]). unfold ls_length, ls_ahead.
    cbn [seg_view ls_pushed ls_chars]. rewrite (proj2 U). cbn [app]. unfold int32, uint32.
    rewrite (Z.mod_small (Z.of_nat _)) by lia. rewrite Z.mod_small by lia. lia. }
  split; [|split; [done|intros HB; by rewrite <- Hlen]]. cbn [text_op]. rewrite P. split; cbn [is_first is_records is_last st_pieces st_closed].
  - split; [done|]. rewrite VP. apply U2.
  - done.
  - by rewrite VC, C2, C1.
  - done.
  - rewrite map_app. cbn [map]. by rewrite VL, L2.
Qed.

(** The operations a client may perform: nothing is appended to a string that
    was closed, and a record is destroyed that was constructed. *)
Definition stream_allowed (op : StreamOp) (x : StreamText) : Prop :=
  match op with
  | AppendToEnd _ | MarkEndOfFile | CloseWithoutMarkingEndOfFile => st_closed x = false
  | InsertAtCurrentInsertionPoint _ => (1 < length (st_pieces x))%nat \/ st_closed x = false
  | CloseInsertionPoint => (1 < length (st_pieces x))%nat
  | OpenInsertionPoint | ReadCharacter => True
  end.

Lemma close_ok st x : stream_ok st x -> (1 < length (st_pieces x))%nat ->
  stream_ok (closeInsertionPoint st) (text_op CloseInsertionPoint x).
Proof.
  intros H Hl. destruct st as [fs rs lst]. destruct rs as [|r rs _] using rev_ind; [|by apply close_spec].
  rewrite (so_pieces _ _ H) in Hl. simpl in Hl. lia.
Qed.

Lemma stream_op_ok op st x : stream_ok st x -> stream_allowed op x -> stream_ok (stream_op op st) (text_op op x).
Proof.
  intros H Ha. destruct op as [str|str| | | | |]; cbn [stream_op text_op stream_allowed] in *.
  - apply (on_last_ok _ _ (fun b => b)); [|done]. intros s U. destruct (fromString_unread str) as [US E].
    rewrite <- E. by apply seg_append_unread.
  - apply on_first_ok; [|done]. intros s U. destruct (fromString_unread str) as [US E].
    rewrite <- E. by apply seg_append_unread.
  - set (str := mkString true [kEndOfFileMarker]). destruct (fromString_unread str) as [US E].
    pose proof (on_last_ok (seg_append (SegmentedString_fromString str)) (fun p => p ++ [kEndOfFileMarker]) (fun b => b) st x) as H1.
    apply (on_last_ok seg_close (fun p => p) (fun _ => true)) in H1; [|intros s U; by apply seg_close_unread| |done].
    + unfold stream_markEndOfFile. cbn [st_pieces st_closed] in H1. by rewrite onLastPiece_id in H1.
    + intros s U. change [kEndOfFileMarker] with (string_characters str). rewrite <- E. by apply seg_append_unread.
  - rewrite <- (onLastPiece_id (st_pieces x)). apply (on_last_ok seg_close (fun p => p) (fun _ => true)); [|done].
    intros s U. by apply seg_close_unread.
  - by apply open_ok.
  - by apply close_ok.
  - apply on_first_ok; [|done]. apply read_unread.
Qed.

Fixpoint streamAllowed (ops : list StreamOp) (x : StreamText) : Prop :=
  match ops with
  | [] => True
  | op :: ops => stream_allowed op x /\ streamAllowed ops (text_op op x)
  end.

Definition stream_run (ops : list StreamOp) (st : HTMLInputStream) : HTMLInputStream :=
  fold_left (fun st op => stream_op op st) ops st.
Definition text_run (ops : list StreamOp) (x : StreamText) : StreamText :=
  fold_left (fun x op => text_op op x) ops x.

Definition noText : StreamText := mkStreamText [[]] false.

Lemma new_stream_ok : stream_ok newHTMLInputStream noText.
Proof. split; try done. Qed.

Lemma stream_run_ok ops st x : stream_ok st x -> streamAllowed ops x -> stream_ok (stream_run ops st) (text_run ops x).
Proof.
  revert st x. induction ops as [|op ops IH]; intros st x H Ha; [done|]. destruct Ha as [Ha1 Ha2].
  apply IH; [by apply stream_op_ok|done].
Qed.

(** The text ahead of the tokenizer and, behind the insertion points, of the
    records. *)
Definition stream_pieces (st : HTMLInputStream) : list (list UChar) :=
  seg_toString (is_first st) :: rev (map (fun r => seg_toString (ir_next r)) (is_records st)).

Lemma unread_toString s : unread s -> seg_toString s = seg_chars s.
Proof.
  intros [W P]. rewrite (seg_toString_refines s (seg_view s)) by done. unfold ls_ahead.
  cbn [seg_view ls_pushed ls_chars]. by rewrite P.
Qed.

Lemma stream_pieces_ok st x : stream_ok st x -> stream_pieces st = st_pieces x.
Proof.
  intros [O1 O2 O3 O4 O5]. unfold stream_pieces. rewrite O3, (unread_toString _ O1). do 2 f_equal.
  apply map_ext_Forall. eapply Forall_impl; [exact O2|]. intros r. apply unread_toString.
Qed.

Lemma lastString_closed st x : stream_ok st x -> m_closed (lastString st) = st_closed x.
Proof.
  intros [O1 O2 O3 O4 O5]. unfold lastString. rewrite O4. destruct (is_records st) as [|r rs]; cbn in *; congruence.
Qed.

(** C16: the input stream keeps the text in order.  For every sequence of network
    data, [document.write] calls, nested insertion points and reads, the
    pieces of text the stream holds are those of the specification: the
    network appends behind the outermost insertion point, [document.write] in
    front of the innermost one, closing an insertion point joins the text on
    both sides of it, and no operation drops or reorders a character;
    [hasInsertionPoint] and [haveSeenEndOfFile] report what they are named
    after. *)
Theorem input_stream_keeps_text_in_order (ops : list StreamOp) :
  streamAllowed ops noText ->
  let st := stream_run ops newHTMLInputStream in
  let x := text_run ops noText in
  stream_pieces st = st_pieces x /\ haveSeenEndOfFile st = st_closed x /\
  hasInsertionPoint st = (1 <? length (st_pieces x))%nat.
Proof.
  intros Ha. cbv zeta. pose proof (stream_run_ok ops _ _ new_stream_ok Ha) as H. split_and!.
  - by apply stream_pieces_ok.
  - by apply lastString_closed.
  - unfold hasInsertionPoint. rewrite (so_last _ _ H), (so_pieces _ _ H). simpl. rewrite length_rev, length_map.
    by destruct (is_records _).
Qed.

Lemma input_stream_keeps_text_in_order_witness :
  let ops := [AppendToEnd (mkString true (str "ab")); ReadCharacter; OpenInsertionPoint;
              InsertAtCurrentInsertionPoint (mkString true (str "XY")); AppendToEnd (mkString false (str "c"));
              ReadCharacter; MarkEndOfFile; CloseInsertionPoint] in
  stream_pieces (stream_run ops newHTMLInputStream) = [str "Ybc" ++ [0]] /\
  haveSeenEndOfFile (stream_run ops newHTMLInputStream) = true.
Proof.
  intros ops. destruct (input_stream_keeps_text_in_order ops) as (E & C & _).
  { vm_compute. repeat split; auto. }
  rewrite E, C. split; reflexivity.
Defined.

(** Closing an insertion point restores the position: the line is the one
    of the character behind the insertion point, and the column such that it
    is right when the text the script left unread, fewer than 2^31 characters,
    has been read. *)
Theorem insertion_point_restores_position (st : HTMLInputStream) (x : StreamText) (r : InsertionPointRecord) :
  stream_ok st x -> last (is_records st) = Some r ->
  Z.of_nat (length (seg_toString (is_first st))) < 2 ^ 31 ->
  let st' := closeInsertionPoint st in
  m_currentLine (is_first st') = ir_line r /\
  seg_currentColumn (is_first st') = ir_column r - Z.of_nat (length (seg_toString (is_first st))).
Proof.
  intros H HL HB. destruct st as [fs rs lst]. destruct rs as [|r' rs _] using rev_ind; [done|].
  cbn [is_records] in HL. rewrite last_snoc in HL. injection HL as ->.
  cbn [is_first] in *. rewrite (unread_toString fs (so_first _ _ H)) in *.
  destruct (close_spec fs rs r lst x H) as (_ & E1 & E2). split; [exact E1|exact (E2 HB)].
Qed.

Lemma insertion_point_restores_position_witness :
  let before := [AppendToEnd (mkString true [97; cLF; 98; 99; 100]); ReadCharacter; ReadCharacter; ReadCharacter] in
  let st := stream_run before newHTMLInputStream in
  let ops := before ++ [OpenInsertionPoint; InsertAtCurrentInsertionPoint (mkString true [cLF; cLF; 60]); ReadCharacter; ReadCharacter] in
  m_currentLine (is_first st) = 1 /\ seg_currentColumn (is_first st) = 1 /\
  m_currentLine (is_first (closeInsertionPoint (stream_run ops newHTMLInputStream))) = 1 /\
  seg_currentColumn (is_first (closeInsertionPoint (stream_run ops newHTMLInputStream))) = 1 - 1.
Proof.
  intros before st ops. split; [reflexivity|]. split; [reflexivity|].
  apply (insertion_point_restores_position (stream_run ops newHTMLInputStream) (text_run ops noText)
    (mkInsertionPoint (is_first st) 1 1)); [|reflexivity|reflexivity].
  apply stream_run_ok; [exact new_stream_ok|]. vm_compute. repeat split; auto.
Defined.
