(* ===== verification/BackgroundHTMLInputStream.v ===== *)
(** * The input of the background parser

    [html/parser/BackgroundHTMLInputStream.{h,cpp}]: the text of the parser
    that runs ahead of the main thread.  Checkpoints remember the string at
    the end of a chunk of tokens; when a script has written to the document
    the stream is rewound to one of them, with the text the main thread has
    not parsed in front of it.

    A specification with plain texts is refined by the stream for every
    sequence of operations. *)

From stdpp Require Import sorting.
From S2P Require Import Prelude CharacterSource SegmentedString HTMLInputStream.
Open Scope Z_scope.

(** ** The class *)

Record InputCheckpoint := mkInputCheckpoint {
  cp_input : SegmentedString;
  cp_segmentsAppended : nat
}.

(** A null [String] of [m_segments] is [None]; [bs_asserts] becomes [false]
    when an assertion fails. *)
Record BackgroundHTMLInputStream := mkBackground {
  bs_current : SegmentedString;
  bs_segments : list (option WTFString);
  bs_checkpoints : list InputCheckpoint;
  bs_firstValidCheckpoint : nat;
  bs_firstValidSegment : nat;
  bs_asserts : bool
}.

Definition newBackground : BackgroundHTMLInputStream := mkBackground SegmentedString_default [] [] 0 0 true.

Definition bs_assert (b : bool) (s : BackgroundHTMLInputStream) : BackgroundHTMLInputStream :=
  mkBackground (bs_current s) (bs_segments s) (bs_checkpoints s) (bs_firstValidCheckpoint s) (bs_firstValidSegment s)
    (bs_asserts s && b).

Definition onCurrent (f : SegmentedString -> SegmentedString) (s : BackgroundHTMLInputStream) : BackgroundHTMLInputStream :=
  mkBackground (f (bs_current s)) (bs_segments s) (bs_checkpoints s) (bs_firstValidCheckpoint s) (bs_firstValidSegment s)
    (bs_asserts s).

(** [m_current.append] and [m_current.close] with the assertion of the callee
    that the string is open. *)
Definition appendCurrent (str : WTFString) (s : BackgroundHTMLInputStream) : BackgroundHTMLInputStream :=
  onCurrent (seg_append (SegmentedString_fromString str)) (bs_assert (negb (m_closed (bs_current s))) s).

Definition closeCurrent (s : BackgroundHTMLInputStream) : BackgroundHTMLInputStream :=
  onCurrent seg_close (bs_assert (negb (m_closed (bs_current s))) s).

Definition bg_append (input : WTFString) (s : BackgroundHTMLInputStream) : BackgroundHTMLInputStream :=
  let s := appendCurrent input s in
  mkBackground (bs_current s) (bs_segments s ++ [Some input]) (bs_checkpoints s) (bs_firstValidCheckpoint s)
    (bs_firstValidSegment s) (bs_asserts s).

Definition bg_close (s : BackgroundHTMLInputStream) : BackgroundHTMLInputStream := closeCurrent s.

Definition bg_createCheckpoint (s : BackgroundHTMLInputStream) : nat * BackgroundHTMLInputStream :=
  (length (bs_checkpoints s),
   mkBackground (bs_current s) (bs_segments s)
     (bs_checkpoints s ++ [mkInputCheckpoint (SegmentedString_copy (bs_current s)) (length (bs_segments s))])
     (bs_firstValidCheckpoint s) (bs_firstValidSegment s) (bs_asserts s)).

Definition cp_isNull (c : InputCheckpoint) : bool := m_empty (cp_input c) && (cp_segmentsAppended c =? 0)%nat.

Definition cp_clear (c : InputCheckpoint) : InputCheckpoint := mkInputCheckpoint (seg_clear (cp_input c)) 0.

(** [for (size_t i = a; i < b; ++i) v[i] = f(v[i])] *)
Definition forRange {A} (f : A -> A) (a b : nat) (v : list A) : list A :=
  fold_left (fun v i => alter f i v) (seq a (b - a)) v.

Definition noCheckpoint : InputCheckpoint := mkInputCheckpoint SegmentedString_default 0.

Definition invalidateCheckpointsBefore (newFirst : nat) (s : BackgroundHTMLInputStream) : BackgroundHTMLInputStream :=
  let s := bs_assert (newFirst <? length (bs_checkpoints s))%nat s in
  if (bs_firstValidCheckpoint s =? newFirst)%nat then s else
  let s := bs_assert (bs_firstValidCheckpoint s <? newFirst)%nat s in
  let lastInvalid := default noCheckpoint (bs_checkpoints s !! (newFirst - 1)%nat) in
  let s := bs_assert (bs_firstValidSegment s <=? cp_segmentsAppended lastInvalid)%nat s in
  mkBackground (bs_current s)
    (forRange (fun _ => None) (bs_firstValidSegment s) (cp_segmentsAppended lastInvalid) (bs_segments s))
    (forRange cp_clear (bs_firstValidCheckpoint s) newFirst (bs_checkpoints s))
    newFirst (cp_segmentsAppended lastInvalid) (bs_asserts s).

(** One round of the loop of [rewindTo]; a null string appends nothing. *)
Definition appendSegment (s : BackgroundHTMLInputStream) (segment : option WTFString) : BackgroundHTMLInputStream :=
  appendCurrent (default (mkString true []) segment) (bs_assert (bool_decide (segment <> None)) s).

Definition rewindTo (checkpointIndex : nat) (unparsedInput : WTFString) (s : BackgroundHTMLInputStream) : BackgroundHTMLInputStream :=
  let s := bs_assert (checkpointIndex <? length (bs_checkpoints s))%nat s in
  let checkpoint := default noCheckpoint (bs_checkpoints s !! checkpointIndex) in
  let s := bs_assert (negb (cp_isNull checkpoint)) s in
  let isClosed := m_closed (bs_current s) in
  let s := onCurrent (seg_assign (cp_input checkpoint)) s in
  let s := fold_left appendSegment (drop (cp_segmentsAppended checkpoint) (bs_segments s)) s in
  let s :=
    if negb (bool_decide (string_characters unparsedInput = []))
    then onCurrent (seg_prepend (SegmentedString_fromString unparsedInput)) s else s in
  let s := if isClosed && negb (m_closed (bs_current s)) then closeCurrent s else s in
  let s := bs_assert (Bool.eqb (m_closed (bs_current s)) isClosed) s in
  mkBackground (bs_current s) [] [] 0 0 (bs_asserts s).

Definition outstandingCheckpointCount (s : BackgroundHTMLInputStream) : Z :=
  Z.of_nat (length (bs_checkpoints s)) - Z.of_nat (bs_firstValidCheckpoint s).

(** ** Specification *)

(** A checkpoint stands for the text that was ahead when it was made and what
    has been appended since. *)
Record TextCheckpoint := mkTextCheckpoint {
  tc_start : list UChar;
  tc_since : list UChar;
  tc_segments : nat
}.

Record BackgroundText := mkBackgroundText {
  bt_text : list UChar;
  bt_closed : bool;
  bt_segments : nat;
  bt_first : nat;
  bt_valid : list TextCheckpoint
}.

Inductive BackgroundOp :=
| BgAppend (input : WTFString)
| BgClose
| BgAdvance
| BgCheckpoint
| BgInvalidateBefore (index : nat)
| BgRewind (index : nat) (unparsedInput : WTFString).

Definition bg_op (op : BackgroundOp) (s : BackgroundHTMLInputStream) : BackgroundHTMLInputStream :=
  match op with
  | BgAppend input => bg_append input s
  | BgClose => bg_close s
  | BgAdvance => onCurrent seg_advanceAndUpdateLineNumber s
  | BgCheckpoint => snd (bg_createCheckpoint s)
  | BgInvalidateBefore index => invalidateCheckpointsBefore index s
  | BgRewind index unparsedInput => rewindTo index unparsedInput s
  end.

Definition bt_checkpoint (index : nat) (x : BackgroundText) : option TextCheckpoint :=
  if (bt_first x <=? index)%nat then bt_valid x !! (index - bt_first x)%nat else None.

Definition tc_append (cs : list UChar) (c : TextCheckpoint) : TextCheckpoint :=
  mkTextCheckpoint (tc_start c) (tc_since c ++ cs) (tc_segments c).

Definition bt_op (op : BackgroundOp) (x : BackgroundText) : BackgroundText :=
  match op with
  | BgAppend input =>
      mkBackgroundText (bt_text x ++ string_characters input) (bt_closed x) (S (bt_segments x)) (bt_first x)
        (map (tc_append (string_characters input)) (bt_valid x))
  | BgClose => mkBackgroundText (bt_text x) true (bt_segments x) (bt_first x) (bt_valid x)
  | BgAdvance => mkBackgroundText (tail (bt_text x)) (bt_closed x) (bt_segments x) (bt_first x) (bt_valid x)
  | BgCheckpoint =>
      mkBackgroundText (bt_text x) (bt_closed x) (bt_segments x) (bt_first x)
        (bt_valid x ++ [mkTextCheckpoint (bt_text x) [] (bt_segments x)])
  | BgInvalidateBefore index =>
      mkBackgroundText (bt_text x) (bt_closed x) (bt_segments x) index (drop (index - bt_first x) (bt_valid x))
  | BgRewind index unparsedInput =>
      match bt_checkpoint index x with
      | Some c =>
          mkBackgroundText (string_characters unparsedInput ++ tc_start c ++ tc_since c) (bt_closed x) 0 0 []
      | None => x
      end
  end.

(** Nothing is appended to a closed stream; only valid checkpoints are used,
    and one that is rewound to is not null. *)
Definition bt_allowed (op : BackgroundOp) (x : BackgroundText) : Prop :=
  match op with
  | BgAppend _ | BgClose => bt_closed x = false
  | BgAdvance | BgCheckpoint => True
  | BgInvalidateBefore index => bt_checkpoint index x <> None
  | BgRewind index _ =>
      exists c, bt_checkpoint index x = Some c /\ (tc_start c <> [] \/ tc_segments c <> 0%nat)
  end.

(** ** Refinement *)

(** What the checkpoint [c] of the stream keeps of [k]. *)
Record cp_ok (segments : list (option WTFString)) (firstSegment : nat) (closed : bool)
    (c : InputCheckpoint) (k : TextCheckpoint) : Prop := {
  co_unread : unread (cp_input c);
  co_start : seg_chars (cp_input c) = tc_start k;
  co_segments : cp_segmentsAppended c = tc_segments k;
  co_range : (firstSegment <= cp_segmentsAppended c <= length segments)%nat;
  co_since : exists strs, drop (cp_segmentsAppended c) segments = map Some strs /\
    concat (map string_characters strs) = tc_since k;
  co_closed : m_closed (cp_input c) = true -> closed = true /\ drop (cp_segmentsAppended c) segments = []
}.

Record bg_ok (s : BackgroundHTMLInputStream) (x : BackgroundText) : Prop := {
  bo_current : unread (bs_current s);
  bo_text : seg_chars (bs_current s) = bt_text x;
  bo_closed : m_closed (bs_current s) = bt_closed x;
  bo_segments : length (bs_segments s) = bt_segments x;
  bo_first : bs_firstValidCheckpoint s = bt_first x;
  bo_checkpoints : exists old valid, bs_checkpoints s = old ++ valid /\ length old = bt_first x /\
    Forall2 (cp_ok (bs_segments s) (bs_firstValidSegment s) (bt_closed x)) valid (bt_valid x) /\
    StronglySorted le (map cp_segmentsAppended valid);
  bo_range : (bs_firstValidSegment s <= length (bs_segments s))%nat;
  bo_asserts : bs_asserts s = true
}.

Lemma length_forRange {A} (f : A -> A) a b v : length (forRange f a b v) = length v.
Proof.
  unfold forRange. generalize (seq a (b - a)). intros ns. revert v.
  induction ns as [|i ns IH]; intros v; [done|]. cbn [fold_left]. by rewrite IH, length_alter.
Qed.

(** The loop changes nothing from its bound on. *)
Lemma drop_forRange {A} (f : A -> A) a b k v : (b <= k)%nat -> drop k (forRange f a b v) = drop k v.
Proof.
  intros Hk. unfold forRange. assert (HF : Forall (fun i => i < k)%nat (seq a (b - a))).
  { apply Forall_seq. intros j Hj. lia. }
  revert v. induction HF as [|i ns Hi HF IH]; intros v; [done|]. cbn [fold_left]. rewrite IH.
  by apply drop_alter_lt.
Qed.

Lemma forRange_app {A} (f : A -> A) a b (v w : list A) : b = length v ->
  exists v', forRange f a b (v ++ w) = v' ++ w /\ length v' = b.
Proof.
  intros ->. exists (take (length v) (forRange f a (length v) (v ++ w))). split.
  - rewrite <- (take_drop (length v) (forRange f a (length v) (v ++ w))) at 1. f_equal.
    by rewrite drop_forRange, drop_app_length by lia.
  - rewrite length_take, length_forRange, length_app. lia.
Qed.

Lemma cp_ok_append segments first c k input :
  cp_ok segments first false c k -> cp_ok (segments ++ [Some input]) first false c (tc_append (string_characters input) k).
Proof.
  intros [H1 H2 H3 H4 (strs & H5 & H6) H7]. split; try done.
  - rewrite length_app. simpl. lia.
  - exists (strs ++ [input]). rewrite drop_app_le by lia. rewrite H5, !map_app, concat_app, H6. simpl. by rewrite app_nil_r.
  - intros HC. by destruct (H7 HC).
Qed.

Lemma cp_ok_close segments first c k : cp_ok segments first false c k -> cp_ok segments first true c k.
Proof. intros [H1 H2 H3 H4 H5 H6]. split; try done. intros HC. by destruct (H6 HC). Qed.

Lemma bs_assert_true s : bs_assert true s = s.
Proof. destruct s. unfold bs_assert. cbn. by rewrite andb_true_r. Qed.

(** Appending to the current string. *)
Lemma appendCurrent_spec input s :
  unread (bs_current s) -> m_closed (bs_current s) = false ->
  unread (bs_current (appendCurrent input s)) /\
  seg_chars (bs_current (appendCurrent input s)) = seg_chars (bs_current s) ++ string_characters input /\
  m_closed (bs_current (appendCurrent input s)) = false /\ bs_asserts (appendCurrent input s) = bs_asserts s.
Proof.
  intros HU HC. destruct (fromString_unread input) as [FU FC].
  destruct (seg_append_unread (SegmentedString_fromString input) (bs_current s) HU FU) as (A1 & A2 & A3).
  unfold appendCurrent. rewrite HC. cbn [negb]. rewrite bs_assert_true. rewrite FC in A2. by rewrite HC in A3.
Qed.

Lemma append_segments strs s :
  unread (bs_current s) -> (strs <> [] -> m_closed (bs_current s) = false) ->
  let s' := fold_left appendSegment (map Some strs) s in
  unread (bs_current s') /\ seg_chars (bs_current s') = seg_chars (bs_current s) ++ concat (map string_characters strs) /\
  m_closed (bs_current s') = m_closed (bs_current s) /\ bs_asserts s' = bs_asserts s.
Proof.
  revert s. induction strs as [|str strs IH]; intros s HU HC; cbn [map fold_left concat]; [by rewrite app_nil_r|].
  specialize (HC ltac:(done)).
  destruct (appendCurrent_spec str s HU HC) as (A1 & A2 & A3 & A4).
  assert (ES : appendSegment s (Some str) = appendCurrent str s) by (unfold appendSegment; by rewrite bool_decide_eq_true_2, bs_assert_true).
  rewrite ES. destruct (IH (appendCurrent str s) A1 (fun _ => A3)) as (B1 & B2 & B3 & B4). cbv zeta in *.
  split_and!; [done|by rewrite B2, A2, app_assoc|congruence|congruence].
Qed.

Ltac bg_fields :=
  cbn [bg_op bt_op bg_append bg_createCheckpoint snd onCurrent bs_assert bs_current bs_segments bs_checkpoints
    bs_firstValidCheckpoint bs_firstValidSegment bs_asserts bt_text bt_closed bt_segments bt_first bt_valid].

Lemma bg_append_ok input s x : bg_ok s x -> bt_closed x = false -> bg_ok (bg_append input s) (bt_op (BgAppend input) x).
Proof.
  intros [H1 H2 H3 H4 H5 (old & valid & E & L & F & SS) H7 H8] HC. rewrite HC in H3, F.
  destruct (appendCurrent_spec input s H1 H3) as (A1 & A2 & A3 & A4).
  split; bg_fields; try done.
  - by rewrite A2, H2.
  - by rewrite A3, HC.
  - rewrite length_app. cbn. rewrite H4. lia.
  - exists old, valid. split_and!; [done|done| |done]. rewrite HC. apply Forall2_fmap_r. eapply Forall2_impl; [exact F|].
    intros c k. apply cp_ok_append.
  - rewrite length_app. simpl in *. lia.
  - by rewrite A4.
Qed.

Lemma bg_close_ok s x : bg_ok s x -> bt_closed x = false -> bg_ok (bg_close s) (bt_op BgClose x).
Proof.
  intros [H1 H2 H3 H4 H5 (old & valid & E & L & F & SS) H7 H8] HC. rewrite HC in H3, F.
  destruct (seg_close_unread _ H1) as (A1 & A2 & A3). unfold bg_close, closeCurrent. rewrite H3. cbn [negb].
  rewrite bs_assert_true. split; bg_fields; try done.
  exists old, valid. split_and!; [done..| |done]. eapply Forall2_impl; [exact F|]. intros c k. apply cp_ok_close.
Qed.

Lemma bg_advance_ok s x : bg_ok s x -> bg_ok (bg_op BgAdvance s) (bt_op BgAdvance x).
Proof.
  intros [H1 H2 H3 H4 H5 H6 H7 H8]. destruct (read_unread _ H1) as (A1 & A2 & A3). split; bg_fields; congruence || done.
Qed.

Lemma unread_copy s : unread s -> SegmentedString_copy s = s.
Proof.
  intros HU. destruct (unread_pushed s HU) as [_ P2]. transitivity (seg_assign s s); [by destruct s|].
  by apply seg_assign_copy; [apply HU|].
Qed.

Lemma bg_checkpoint_ok s x : bg_ok s x -> bg_ok (bg_op BgCheckpoint s) (bt_op BgCheckpoint x).
Proof.
  intros [H1 H2 H3 H4 H5 (old & valid & E & L & F & SS) H7 H8]. split; bg_fields; try done.
  rewrite (unread_copy _ H1). exists old, (valid ++ [mkInputCheckpoint (bs_current s) (length (bs_segments s))]).
  rewrite E, <- app_assoc. split_and!; [done|done| |].
  - apply Forall2_app; [done|]. constructor; [|done]. rewrite <- H2, <- H4, <- H3.
    split; cbn; rewrite ?drop_all; try done. by exists [].
  - rewrite map_app. apply StronglySorted_app. split_and!; [|done|by repeat constructor].
    intros n m Hn Hm. apply list_elem_of_singleton in Hm as ->. apply list_elem_of_fmap in Hn as (c & -> & Hc).
    apply list_elem_of_lookup in Hc as (i & Hi). destruct (Forall2_lookup_l _ _ _ _ _ F Hi) as (k & _ & HK). apply HK.
Qed.

Lemma bt_checkpoint_inv index x k :
  bt_checkpoint index x = Some k -> (bt_first x <= index)%nat /\ bt_valid x !! (index - bt_first x)%nat = Some k.
Proof. unfold bt_checkpoint. destruct (Nat.leb_spec (bt_first x) index); [done|done]. Qed.

(** The checkpoint of the stream at a valid index. *)
Lemma checkpoint_lookup s x index k :
  bg_ok s x -> bt_checkpoint index x = Some k ->
  exists c, bs_checkpoints s !! index = Some c /\ (index <? length (bs_checkpoints s))%nat = true /\
    cp_ok (bs_segments s) (bs_firstValidSegment s) (bt_closed x) c k.
Proof.
  intros HO HK. apply bt_checkpoint_inv in HK as [HL HK]. destruct (bo_checkpoints _ _ HO) as (old & valid & E & L & F & _).
  destruct (Forall2_lookup_r _ _ _ _ _ F HK) as (c & Hc & HC). exists c. rewrite E.
  split_and!; [rewrite lookup_app_r by lia; by rewrite L| |done].
  apply Nat.ltb_lt. rewrite length_app. apply lookup_lt_Some in Hc. lia.
Qed.

(** Dropping what lies in front of a later checkpoint. *)
Lemma cp_ok_forget segments first closed c k n :
  cp_ok segments first closed c k -> (n <= cp_segmentsAppended c)%nat ->
  cp_ok (forRange (fun _ => None) first n segments) n closed c k.
Proof.
  intros [H1 H2 H3 H4 H5 H6] Hn. split; rewrite ?length_forRange, ?drop_forRange by lia; done || lia.
Qed.

Lemma bg_invalidate_ok index s x : bg_ok s x -> bt_allowed (BgInvalidateBefore index) x ->
  bg_ok (invalidateCheckpointsBefore index s) (bt_op (BgInvalidateBefore index) x).
Proof.
  intros HO HA. cbn in HA. destruct (bt_checkpoint index x) as [k|] eqn:EK; [clear HA|done].
  destruct (checkpoint_lookup s x index k HO EK) as (c & Hc & HB & _). apply bt_checkpoint_inv in EK as [HL HK].
  unfold invalidateCheckpointsBefore. rewrite HB, bs_assert_true.
  destruct HO as [H1 H2 H3 H4 H5 (old & valid & E & L & F & SS) H7 H8]. rewrite H5.
  destruct (Nat.eqb_spec (bt_first x) index) as [<-|HNE].
  { split; bg_fields; try done. exists old, valid. rewrite Nat.sub_diag. done. }
  rewrite (proj2 (Nat.ltb_lt _ _)), bs_assert_true by lia.
  destruct (lookup_lt_is_Some_2 (bt_valid x) (index - bt_first x - 1)%nat) as [k' HK'];
    [apply lookup_lt_Some in HK; lia|].
  destruct (Forall2_lookup_r _ _ _ _ _ F HK') as (c' & Hc' & HC').
  assert (EC : bs_checkpoints s !! (index - 1)%nat = Some c')
    by (rewrite E, lookup_app_r by lia; rewrite <- Hc'; f_equal; lia).
  rewrite EC. change (default noCheckpoint (Some c')) with c'.
  rewrite (proj2 (Nat.leb_le _ _)) by apply HC'. rewrite bs_assert_true.
  assert (ES : valid = take (index - bt_first x) valid ++ drop (index - bt_first x) valid) by (by rewrite take_drop).
  split; bg_fields; try done.
  - by rewrite length_forRange.
  - assert (HLE : (index - bt_first x <= length valid)%nat)
      by (apply lookup_lt_Some in HK; rewrite (Forall2_length _ _ _ F); lia).
    destruct (forRange_app cp_clear (bt_first x) index (old ++ take (index - bt_first x) valid) (drop (index - bt_first x) valid))
      as (old' & EO & LO); [rewrite length_app, length_take; lia|].
    exists old', (drop (index - bt_first x) valid). rewrite <- app_assoc, <- ES in EO. rewrite E, H5, EO.
    rewrite ES, map_app in SS. apply StronglySorted_app in SS as (S1 & _ & S3). split_and!; [done|done| |done].
    apply (Forall2_drop _ _ _ (index - bt_first x)) in F. apply Forall2_same_length_lookup in F as [F1 F2].
    apply Forall2_same_length_lookup. split; [done|]. intros i c0 k0 Hi Hk. apply cp_ok_forget; [by eapply F2|].
    apply S1; apply list_elem_of_fmap; [exists c'|exists c0]; (split; [done|]); apply list_elem_of_lookup; [|by exists i].
    exists (index - bt_first x - 1)%nat. rewrite lookup_take_lt by lia. done.
  - rewrite length_forRange. apply HC'.
Qed.

Lemma unread_refines s : unread s -> seg_refines s (seg_view s) /\ ls_pushed (seg_view s) = [].
Proof. intros [W P]. by split; [split|]. Qed.

Lemma seg_prepend_unread str s :
  unread s ->
  unread (seg_prepend (SegmentedString_fromString str) s) /\
  seg_chars (seg_prepend (SegmentedString_fromString str) s) = string_characters str ++ seg_chars s /\
  m_closed (seg_prepend (SegmentedString_fromString str) s) = m_closed s.
Proof.
  intros [W P]. destruct (seg_prepend_refines (SegmentedString_fromString str) s (seg_view s)) as [W' V'];
    [by split|apply fromString_fresh|]. rewrite seg_chars_fromString in V'.
  pose proof (f_equal ls_pushed V') as E1. pose proof (f_equal ls_chars V') as E2. pose proof (f_equal ls_closed V') as E3.
  cbn in E1, E2, E3. split; [split; [done|congruence]|done].
Qed.

(** The end of [rewindTo], where the stream is closed again. *)
Lemma rewind_close (closed : bool) s :
  unread (bs_current s) -> (m_closed (bs_current s) = true -> closed = true) ->
  let s' := if closed && negb (m_closed (bs_current s)) then closeCurrent s else s in
  unread (bs_current s') /\ seg_chars (bs_current s') = seg_chars (bs_current s) /\
  m_closed (bs_current s') = closed /\ bs_asserts s' = bs_asserts s.
Proof.
  intros HU HC. destruct closed; cbn [andb]; [|by destruct (m_closed (bs_current s)); [specialize (HC eq_refl)|]].
  destruct (m_closed (bs_current s)) eqn:EC; cbn [negb]; [done|].
  destruct (seg_close_unread _ HU) as (L1 & L2 & L3). unfold closeCurrent. rewrite EC. cbn [negb]. by rewrite bs_assert_true.
Qed.

(** The current string of [rewindTo] before it is closed. *)
Lemma rewind_text segments first closed c k unparsedInput s :
  cp_ok segments first closed c k -> bs_asserts s = true ->
  let s := onCurrent (seg_assign (cp_input c)) s in
  let s := fold_left appendSegment (drop (cp_segmentsAppended c) segments) s in
  let s := if negb (bool_decide (string_characters unparsedInput = []))
    then onCurrent (seg_prepend (SegmentedString_fromString unparsedInput)) s else s in
  unread (bs_current s) /\ seg_chars (bs_current s) = string_characters unparsedInput ++ tc_start k ++ tc_since k /\
  m_closed (bs_current s) = m_closed (cp_input c) /\ bs_asserts s = true.
Proof.
  intros [C1 C2 C3 C4 (strs & C5 & C6) C7] HA. cbv zeta. rewrite C5. set (s1 := onCurrent _ s).
  assert (E1 : bs_current s1 = cp_input c) by (apply seg_assign_copy; [apply C1|by apply unread_pushed]).
  destruct (append_segments strs s1) as (A1 & A2 & A3 & A4).
  { by rewrite E1. }
  { rewrite E1. intros HS. destruct (m_closed (cp_input c)) eqn:EC; [|done]. destruct (C7 eq_refl) as [_ ED].
    rewrite C5 in ED. by destruct strs. }
  cbv zeta in *. set (s2 := fold_left appendSegment (map Some strs) s1) in *. rewrite E1, C2, C6 in A2. rewrite E1 in A3.
  assert (A4' : bs_asserts s2 = true) by (by rewrite A4).
  destruct (bool_decide_reflect (string_characters unparsedInput = [])) as [-> |_]; cbn [negb]; [by rewrite A2, A3|].
  destruct (seg_prepend_unread unparsedInput _ A1) as (P1 & P2 & P3). bg_fields. by rewrite P2, P3, A2, A3.
Qed.

Lemma bg_rewind_ok index unparsedInput s x : bg_ok s x -> bt_allowed (BgRewind index unparsedInput) x ->
  bg_ok (rewindTo index unparsedInput s) (bt_op (BgRewind index unparsedInput) x).
Proof.
  intros HO (k & HK & HN). destruct (checkpoint_lookup s x index k HO HK) as (c & Hc & HB & HC).
  cbn [bt_op]. rewrite HK. unfold rewindTo. rewrite HB, bs_assert_true, Hc. change (default noCheckpoint (Some c)) with c.
  assert (HNull : cp_isNull c = false).
  { unfold cp_isNull. destruct (unread_refines _ (co_unread _ _ _ _ _ HC)) as [CR _].
    rewrite (seg_isEmpty_refines _ _ CR), (co_segments _ _ _ _ _ HC). unfold ls_isEmpty. cbn [ls_chars seg_view].
    rewrite (co_start _ _ _ _ _ HC). destruct HN as [HN|HN]; [by destruct (tc_start k)|].
    rewrite (proj2 (Nat.eqb_neq _ _)) by done. apply andb_false_r. }
  rewrite HNull. cbn [negb]. rewrite bs_assert_true. destruct HO as [H1 H2 H3 H4 H5 _ H7 H8]. rewrite H3.
  destruct (rewind_text _ _ _ _ _ unparsedInput s HC H8) as (T1 & T2 & T3 & T4). cbv zeta in *. bg_fields.
  set (s3 := if negb _ then _ else _) in *. clearbody s3.
  destruct (rewind_close (bt_closed x) s3 T1) as (L1 & L2 & L3 & L4).
  { rewrite T3. intros HM. by destruct (co_closed _ _ _ _ _ HC HM). }
  cbv zeta in *. set (s4 := if bt_closed x && _ then _ else _) in *. clearbody s4.
  rewrite L3, L4, T4, Bool.eqb_reflx. split; bg_fields; try done; [congruence|]. exists [], []. split_and!; [done..|constructor|constructor].
Qed.

Lemma bg_op_ok op s x : bg_ok s x -> bt_allowed op x -> bg_ok (bg_op op s) (bt_op op x).
Proof.
  intros HO HA. destruct op; [by apply bg_append_ok|by apply bg_close_ok|by apply bg_advance_ok|by apply bg_checkpoint_ok
    |by apply bg_invalidate_ok|by apply bg_rewind_ok].
Qed.

(** ** Theorems *)

Fixpoint bt_all_allowed (ops : list BackgroundOp) (x : BackgroundText) : Prop :=
  match ops with
  | [] => True
  | op :: ops => bt_allowed op x /\ bt_all_allowed ops (bt_op op x)
  end.

Definition bg_run (ops : list BackgroundOp) (s : BackgroundHTMLInputStream) : BackgroundHTMLInputStream :=
  fold_left (fun s op => bg_op op s) ops s.

Definition bt_run (ops : list BackgroundOp) (x : BackgroundText) : BackgroundText :=
  fold_left (fun x op => bt_op op x) ops x.

Definition noBackgroundText : BackgroundText := mkBackgroundText [] false 0 0 [].

Lemma newBackground_ok : bg_ok newBackground noBackgroundText.
Proof.
  destruct default_refines as [W V]. split; try done. exists [], []. split_and!; [done..|constructor|constructor].
Qed.

Lemma bg_run_ok ops s x : bg_ok s x -> bt_all_allowed ops x -> bg_ok (bg_run ops s) (bt_run ops x).
Proof.
  revert s x. induction ops as [|op ops IH]; intros s x HO HA; [done|]. destruct HA as [HA HAs].
  apply (IH (bg_op op s) (bt_op op x)); [by apply bg_op_ok|done].
Qed.

(** C15: checkpoints and rewinding of the background parser's input.  After any
    sequence of appended input, reading, checkpoints, invalidations and
    rewinds to valid checkpoints that are not null (as [rewindTo] asserts; see
    [null_checkpoint_assertion_fails]), the unread text is the one of the specification, where rewinding
    gives the text the main thread has not parsed, then what was ahead at the
    checkpoint, then everything appended since; the stream is closed exactly
    when it should be, the outstanding checkpoints are counted right and no
    assertion fails. *)
Theorem background_stream_rewinds (ops : list BackgroundOp) :
  bt_all_allowed ops noBackgroundText ->
  let s := bg_run ops newBackground in
  let x := bt_run ops noBackgroundText in
  seg_toString (bs_current s) = bt_text x /\ m_closed (bs_current s) = bt_closed x /\
  outstandingCheckpointCount s = Z.of_nat (length (bt_valid x)) /\ bs_asserts s = true.
Proof.
  intros HA. cbv zeta. destruct (bg_run_ok ops _ _ newBackground_ok HA) as [H1 H2 H3 H4 H5 (old & valid & E & L & F & _) H7 H8].
  split_and!; [by rewrite unread_toString|done| |done].
  unfold outstandingCheckpointCount. rewrite H5, E, length_app, <- (Forall2_length _ _ _ F). lia.
Qed.

Definition sampleOps : list BackgroundOp :=
  [BgAppend (mkString true (str "ab")); BgAdvance; BgCheckpoint; BgAppend (mkString false (str "cd")); BgAdvance;
   BgCheckpoint; BgAppend (mkString true (str "e")); BgInvalidateBefore 1; BgClose; BgAdvance;
   BgRewind 1 (mkString true (str "xy"))].

Lemma background_stream_rewinds_witness :
  seg_toString (bs_current (bg_run sampleOps newBackground)) = str "xycde" /\
  m_closed (bs_current (bg_run sampleOps newBackground)) = true.
Proof.
  destruct (background_stream_rewinds sampleOps) as (T & C & _).
  - repeat split; try discriminate. exists (mkTextCheckpoint (str "cd") (str "e") 2).
    split; [reflexivity|right; discriminate].
  - split; [exact T | exact C].
Defined.

(** The assertion of [rewindTo] that a checkpoint is not null can fail on a
    valid one.  [rewindTo] forgets the segments, so a checkpoint made when the
    rewound text has been read has an empty string and no segments, as if it
    had been cleared. *)
Theorem null_checkpoint_assertion_fails :
  let s := bg_run [BgAppend (mkString true (str "a")); BgAdvance; BgCheckpoint; BgRewind 0 (mkString true (str "b"));
    BgAdvance; BgCheckpoint] newBackground in
  bs_asserts s = true /\ outstandingCheckpointCount s = 1 /\ bs_asserts (rewindTo 0 (mkString true []) s) = false.
Proof. vm_compute. split_and!; reflexivity. Qed.
