(* ===== verification/TokenizerSession.v ===== *)
(** * Tokenizing a document

    The tokenizer over the segmented string it really reads: sessions of
    input, end of file and calls of [nextToken] in any order, and the tokens
    of a whole document. *)

From stdpp Require Import relations.
From S2P Require Import Prelude CharacterSource SegmentedString InputStreamPreprocessor.
From S2P Require Import HTMLInputStream HTMLEntitySearch CharacterReference CharacterReferenceSpec.
From S2P Require Import HTMLToken TokenizerStates HTMLTokenizer TokenizerConsumption TokenizerRefinement.
From S2P Require Import TokenizerInvariant TokenizerSafety TokenizerLiveness.
Open Scope Z_scope.

(** The stream of a document without running scripts, which the network
    appends to. *)
Definition streamOf (s : SegmentedString) : HTMLInputStream := mkInputStream s [] None.

Definition appendToEnd (str : WTFString) (s : SegmentedString) : SegmentedString :=
  is_first (stream_appendToEnd (SegmentedString_fromString str) (streamOf s)).

Definition markEndOfFile (s : SegmentedString) : SegmentedString := is_first (stream_markEndOfFile (streamOf s)).

Lemma seg_close_refines s l : seg_refines s l -> seg_refines (seg_close s) (ls_close l).
Proof.
  intros [[[W1 W2 W3 W4 W5] WCh WF] <-].
  destruct s; split; [split; [by constructor|done|done]|done].
Qed.

Lemma ls_total_append w l : ls_total (ls_append w l) = ls_total l + Z.of_nat (length w).
Proof. unfold ls_total, ls_ahead, ls_append. simpl. rewrite !length_app. lia. Qed.

Lemma appendToEnd_refines str s l :
  seg_refines s l -> ls_total l + Z.of_nat (length (string_characters str)) < 2 ^ 31 ->
  seg_reads (appendToEnd str s) (ls_append (string_characters str) l).
Proof.
  intros HR HB. split; [|by rewrite ls_total_append].
  rewrite <- seg_chars_fromString. apply seg_append_refines; [done|apply fromString_fresh].
Qed.

Lemma markEndOfFile_refines s l :
  seg_refines s l -> ls_total l + 1 < 2 ^ 31 -> seg_reads (markEndOfFile s) (ls_close (ls_append [0] l)).
Proof.
  intros HR HB. destruct (appendToEnd_refines (mkString true [0]) s l HR HB) as [HR' HB'].
  split; [|exact HB']. by apply seg_close_refines.
Qed.

(** A text of a document: with the marker of its end it is shorter than 2^31
    characters, so that the counts of a source do not overflow. *)
Definition countableText (text : list UChar) : Prop := Z.of_nat (length text) + 1 < 2 ^ 31.

Lemma document_reads strs :
  countableText (concat (map string_characters strs)) ->
  seg_reads (markEndOfFile (input_of strs))
    (ls_close (ls_append [0] (mkListSource [] (concat (map string_characters strs)) false 0))).
Proof. intros HB. apply markEndOfFile_refines; [apply input_of_spec|exact HB]. Qed.

(** ** The tokens of a document *)

(** How a run over a closed input ends: with the end-of-file token, or with a
    call that reports no token, which leaves a state, a current character and
    a number of characters ahead. *)
Inductive Ending :=
| EndReached
| Stopped (t : TState) (current : UChar) (ahead : nat)
| CallsExhausted.

Section Tokenize.
Context {S : Type} `{CaseFolding} `{!CharacterSource S} `{HTMLEntityTable}.

(** The loop of [HTMLDocumentParser::pumpTokenizer]: at most [n] calls of
    [nextToken], up to the end-of-file token or the first call that reports no
    token; the tree builder clears the token. *)
Fixpoint tokenize (n : nat) (t : TState) (source : S) : list HTMLToken * Ending :=
  match n with
  | O => ([], CallsExhausted)
  | Datatypes.S n =>
      match nextToken t source with
      | Some (true, t', source') =>
          if typeIs EndOfFile (token t') then ([token t'], EndReached)
          else let '(ts, e) := tokenize n (onToken token_clear t') source' in (token t' :: ts, e)
      | Some (false, t', source') => ([], Stopped t' (currentChar source') (charactersAhead source'))
      | None => ([], CallsExhausted)
      end
  end.
End Tokenize.

Section Documents.
Context `{CaseFolding} `{HTMLEntityTableOk}.

Lemma tokenize_related n t s l : seg_reads s l -> 0 <= ls_consumed l -> tokenize n t s = tokenize n t l.
Proof.
  revert t s l. induction n as [|n IH]; intros t s l HR HC; [done|]. cbn [tokenize].
  pose proof (nextToken_related seg_reads t s l HR HC) as HX.
  pose proof (nextToken_consumed t l 0) as HC'.
  destruct (nextToken t s) as [[[b t'] s']|], (nextToken t l) as [[[b' t''] l']|]; try done.
  specialize (HC' _ _ _ HC eq_refl).
  destruct HX as [E HR']. simpl in E. injection E as -> ->. destruct b'.
  - destruct (typeIs EndOfFile (token t'')); [done|]. by rewrite (IH _ _ _ HR' HC').
  - by rewrite (ref_currentChar _ _ HR'), (ref_charactersAhead _ _ HR').
Qed.

(** C4: the tokens do not depend on how the text is stored.  Two documents with
    the same text, cut into any segments of 8 or 16 bit characters, give the
    same tokens and the same ending, from any state of the tokenizer.  The text
    is shorter than 2^31 - 1 characters, what the 32 bit counts of the source
    can count. *)
Theorem tokens_independent_of_segments (n : nat) (t : TState) (strs strs' : list WTFString) :
  concat (map string_characters strs) = concat (map string_characters strs') ->
  countableText (concat (map string_characters strs)) ->
  tokenize n t (markEndOfFile (input_of strs)) = tokenize n t (markEndOfFile (input_of strs')).
Proof.
  intros HE HB. rewrite (tokenize_related n t _ _ (document_reads strs HB)) by done.
  rewrite HE in HB |- *. by rewrite (tokenize_related n t _ _ (document_reads strs' HB)).
Qed.

Context `{!CaseFoldingASCII}.

Lemma tokenize_ends n t l :
  callable t l -> marked l -> m_type (token t) = Uninitialized -> (call_measure t l < n)%nat ->
  match tokenize n t l with
  | (ts, EndReached) => exists ts' k, ts = ts' ++ [k] /\ m_type k = EndOfFile
  | (_, Stopped t' c k) => exists w, keywordAt (m_state (tk t')) c = Some w /\ (k < length w)%nat
  | (_, CallsExhausted) => False
  end.
Proof.
  revert t l. induction n as [|n IH]; intros t l HC HM HT HN; [lia|]. cbn [tokenize].
  destruct (nextToken_live t l HC HM) as (b & t' & l' & E & HR & HL).
  pose proof (nextToken_advances t l HC HM HT) as HA. rewrite E in HA |- *.
  destruct b; [|exact (proj1 HL)].
  destruct (typeIs EndOfFile (token t')) eqn:EE.
  { apply bool_decide_eq_true in EE. by exists [], (token t'). }
  apply bool_decide_eq_false in EE. destruct HA as [?|HA]; [done|].
  destruct HR as (_ & _ & HR). destruct HL as [?|HL]; [done|].
  specialize (IH (onToken token_clear t') l' HR HL eq_refl).
  change (call_measure (onToken token_clear t') l') with (call_measure t' l') in IH.
  specialize (IH ltac:(lia)). destruct (tokenize n (onToken token_clear t') l') as [ts [| |]]; [|done|done].
  destruct IH as (ts' & k & -> & HK). by exists (token t' :: ts'), k.
Qed.

(** C3: the whole of a document is tokenized.  After the end of the file has
    been marked, eight calls per character are enough for [nextToken] to
    report the end-of-file token as the last one; the only other ending is a
    call that reports no token in front of the first character of a keyword of
    a markup declaration or of a DOCTYPE, with fewer characters ahead, the end
    marker among them, than the keyword has.  The text is shorter than 2^31 - 1
    characters and its numeric references fit a 32 bit integer, as do those
    that any suffix of it could start with. *)
Theorem document_tokenized (options : HTMLParserOptions) (strs : list WTFString) (n : nat) :
  let text := concat (map string_characters strs) in
  countableText text -> references_in_range (text ++ [kEndOfFileMarker]) -> (8 * length text + 8 < n)%nat ->
  match tokenize n (mkTState (newHTMLTokenizer options) newHTMLToken) (markEndOfFile (input_of strs)) with
  | (ts, EndReached) => exists ts' k, ts = ts' ++ [k] /\ m_type k = EndOfFile
  | (_, Stopped t' c k) => exists w, keywordAt (m_state (tk t')) c = Some w /\ (k < length w)%nat
  | (_, CallsExhausted) => False
  end.
Proof.
  cbv zeta. intros HB HX HN. rewrite (tokenize_related n _ _ _ (document_reads strs HB)) by done.
  set (text := concat _) in *. set (l := ls_close _).
  assert (HA : ls_ahead l = text ++ [0]) by done.
  apply tokenize_ends; [|split; [done|by exists text]|done|].
  - by apply callable_content.
  - unfold call_measure, measure. rewrite HA, length_app. simpl. lia.
Qed.
End Documents.

Section Checkpoints.
Context {S : Type} `{CaseFolding} `{!CharacterSource S} `{HTMLEntityTable}.

Lemma canCreateCheckpoint_empty k : canCreateCheckpoint k = true ->
  m_appropriateEndTagName k = [] /\ m_temporaryBuffer k = [] /\ m_bufferedEndTagName k = [].
Proof. unfold canCreateCheckpoint. intros HC. by repeat (case_bool_decide; cbn [negb] in HC; [|done]). Qed.

(** Checkpoints of the tokenizer.  A tokenizer with empty buffers that is
    restored from the checkpoint of another one gives the same next token, the
    same tokenizer state and the same rest of the input as that one, for any
    input, and the same tokens from there on; the flag that forces the replacement of NUL characters has to be
    the same on both, because checkpoints do not carry it. *)
Theorem checkpoint_restores_tokenizer (k k' : HTMLTokenizer) (result : Checkpoint) (tok : HTMLToken) (source : S) :
  canCreateCheckpoint k = true -> canCreateCheckpoint k' = true ->
  m_forceNullCharacterReplacement k' = m_forceNullCharacterReplacement k -> isEmpty source = false ->
  let t := mkTState (restoreFromCheckpoint (createCheckpoint k result) k') tok in
  nextToken t source = nextToken (mkTState k tok) source /\
  forall n, tokenize n t source = tokenize n (mkTState k tok) source.
Proof.
  intros HK HK' HF HE t. apply canCreateCheckpoint_empty in HK as (K1 & K2 & K3), HK' as (K1' & K2' & K3').
  assert (E : nextToken t source = nextToken (mkTState k tok) source).
  { unfold t, nextToken. f_equal. unfold enter, peekPreprocessor. rewrite HE.
    destruct k as [st fo cd ad [pc sk] ap te bu op], k' as [st' fo' cd' ad' [pc' sk'] ap' te' bu' op']. cbn in *. by subst. }
  split; [done|]. intros [|n]; [done|]. cbn [tokenize]. by rewrite E.
Qed.
End Checkpoints.

Section Session.
Context `{CaseFolding} `{HTMLEntityTableOk}.

(** ** Sessions *)

Record Session := mkSession { ss_state : TState; ss_input : SegmentedString }.

Definition newSession (options : HTMLParserOptions) : Session :=
  mkSession (mkTState (newHTMLTokenizer options) newHTMLToken) SegmentedString_default.

(** The text that has not been tokenized. *)
Definition ss_ahead (ss : Session) : list UChar := ls_ahead (seg_view (ss_input ss)).

(** The size of the text that was put into the session, tokenized or not. *)
Definition ss_total (ss : Session) : Z := ls_total (seg_view (ss_input ss)).

(** What can happen to a tokenizer: input arrives, the end of file is marked,
    a token is asked for (and cleared when it was complete, kept when it was
    not), the tree builder switches the content state between two tokens.  The
    input that arrives has its numeric references in range and does not make
    the text longer than the counts of a source can count. *)
Inductive session_step : Session -> Session -> Prop :=
| Session_input t s str :
    references_in_range (ss_ahead (mkSession t s) ++ string_characters str) ->
    ss_total (mkSession t s) + Z.of_nat (length (string_characters str)) < 2 ^ 31 ->
    session_step (mkSession t s) (mkSession t (appendToEnd str s))
| Session_end t s :
    references_in_range (ss_ahead (mkSession t s) ++ [kEndOfFileMarker]) ->
    ss_total (mkSession t s) + 1 < 2 ^ 31 ->
    session_step (mkSession t s) (mkSession t (markEndOfFile s))
| Session_token t s t' s' :
    nextToken t s = Some (true, t', s') ->
    session_step (mkSession t s) (mkSession (onToken token_clear t') s')
| Session_more t s t' s' :
    nextToken t s = Some (false, t', s') -> session_step (mkSession t s) (mkSession t' s')
| Session_switch t s st :
    m_state (tk t) = DataState -> m_bufferedEndTagName (tk t) = [] ->
    m_type (token t) = Uninitialized -> ls_pushed (seg_view s) = [] -> rank st = 0%nat ->
    session_step (mkSession t s) (mkSession (setState st t) s).

Definition session_ok (ss : Session) : Prop :=
  exists l, seg_reads (ss_input ss) l /\ callable (ss_state ss) l.

Lemma newSession_ok options : session_ok (newSession options).
Proof.
  eexists. split; [split; [exact default_refines|done]|]. apply callable_content; try done.
  split; [simpl; lia|]. intros k rest E. unfold ls_ahead in E. simpl in E. by rewrite drop_nil in E.
Qed.

(** One call of [nextToken] over the segmented string. *)
Lemma session_next t s l :
  seg_reads s l -> callable t l ->
  exists b t' s' l', nextToken t s = Some (b, t', s') /\ nextToken t l = Some (b, t', l') /\
    seg_reads s' l' /\ returned b t' l'.
Proof.
  intros HR HC. destruct (nextToken_ok t l HC) as (b & t' & l' & E & HB).
  pose proof (nextToken_related seg_reads t s l HR (proj1 (proj1 HC))) as HX. rewrite E in HX.
  destruct (nextToken t s) as [[[b' t''] s']|]; [|done]. destruct HX as [E' HR'].
  simpl in *. injection E' as -> ->. by exists b, t', s', l'.
Qed.

Lemma session_step_ok ss ss' : session_ok ss -> session_step ss ss' -> session_ok ss'.
Proof.
  intros (l & HR & HC) HS. destruct HS as [t s str HX HB|t s HX HB|t s t' s' HX|t s t' s' HX|t s st S1 S2 S3 S4 S5];
    cbn [ss_input ss_state] in *.
  - exists (ls_append (string_characters str) l). unfold ss_ahead, ss_total in *. simpl in HX, HB.
    rewrite (proj2 (proj1 HR)) in HX, HB. split; [apply appendToEnd_refines; [apply HR|done]|].
    by apply callable_append.
  - exists (ls_close (ls_append [0] l)). unfold ss_ahead, ss_total in *. simpl in HX, HB.
    rewrite (proj2 (proj1 HR)) in HX, HB. split; [apply markEndOfFile_refines; [apply HR|done]|].
    by apply callable_close, callable_append.
  - destruct (session_next t s l HR HC) as (b & t1 & s1 & l' & E & _ & HR' & HB).
    rewrite HX in E. injection E as <- <- <-. exists l'. split; [done|]. apply HB.
  - destruct (session_next t s l HR HC) as (b & t1 & s1 & l' & E & _ & HR' & HB).
    rewrite HX in E. injection E as <- <- <-. exists l'. split; [done|]. apply HB.
  - exists l. split; [done|]. rewrite (proj2 (proj1 HR)) in S4. destruct HC as (HS & _ & HC).
    apply callable_content; try done. destruct HC as [(HK & _)|(_ & HN & _)]; [|done].
    destruct HK as (K1 & K2 & _). by split_and!.
Qed.

(** C1: safety of the tokenizer in every session.  However input arrives, in
    whatever segments, and however calls of [nextToken] are interleaved with
    it, the next call returns; none of the assertions of the tokenizer and of
    its token has failed; a token it reports is initialized.  The steps of a
    session assume that the numeric references of the text fit a 32 bit
    integer (without it the assertion on NUL characters can fail, see
    [overflowing_reference_breaks_assertion]) and that the text of the whole
    session is shorter than 2^31 characters, what a source can count. *)
Theorem tokenizer_session_safe (options : HTMLParserOptions) (ss : Session) :
  rtc session_step (newSession options) ss ->
  exists b t' s', nextToken (ss_state ss) (ss_input ss) = Some (b, t', s') /\
    m_asserts (token t') = true /\ (b = true -> m_type (token t') <> Uninitialized) /\
    (b = false -> m_type (token t') <> Character).
Proof.
  intros HS. assert (HO : session_ok ss).
  { generalize (newSession_ok options). induction HS as [x|x y z HXY HYZ IH]; [done|].
    intros HO. by eapply IH, session_step_ok. }
  destruct ss as [t s], HO as (l & HR & HC). simpl in *.
  destruct (session_next t s l HR HC) as (b & t' & s' & l' & E & _ & _ & HB).
  exists b, t', s'. destruct HB as [HA HB]. split_and!; try done; intros ->; apply HB.
Qed.
End Session.

(** ** Witnesses and counterexamples *)

#[local] Instance sampleFolding : CaseFolding := toASCIILower.
#[local] Instance sampleFolding_ascii : CaseFoldingASCII.
Proof. done. Qed.

Definition sampleTokenizer : TState := mkTState (newHTMLTokenizer newHTMLParserOptions) newHTMLToken.

(** Decides [references_in_range] for a text without number sign. *)
Lemma references_in_range_no_hash cs : Forall (fun c => c <> "#"%uchar) cs -> references_in_range cs.
Proof.
  intros HF k rest E. exfalso. apply (Forall_drop _ k) in HF. rewrite E in HF.
  by inversion HF.
Qed.

Lemma tokenizer_session_safe_witness :
  exists b t' s', nextToken sampleTokenizer (appendToEnd (mkString true (str "a<p x=1>")) SegmentedString_default)
    = Some (b, t', s') /\ m_asserts (token t') = true.
Proof.
  destruct (tokenizer_session_safe newHTMLParserOptions
    (mkSession sampleTokenizer (appendToEnd (mkString true (str "a<p x=1>")) SegmentedString_default)))
    as (b & t' & s' & E & A & _).
  { eapply rtc_l; [|apply rtc_refl]. apply Session_input. apply references_in_range_no_hash.
    vm_compute. repeat constructor; discriminate. reflexivity. }
  exists b, t', s'. split; [exact E | exact A].
Defined.

Lemma tokens_independent_of_segments_witness :
  tokenize 20 sampleTokenizer (markEndOfFile (input_of [mkString true (str "a<"); mkString false (str "p>b")])) =
  tokenize 20 sampleTokenizer (markEndOfFile (input_of [mkString false (str "a<p>b")])).
Proof.
  apply (tokens_independent_of_segments 20 sampleTokenizer
    [mkString true (str "a<"); mkString false (str "p>b")] [mkString false (str "a<p>b")]).
  - reflexivity.
  - reflexivity.
Defined.

Lemma document_tokenized_witness :
  match tokenize 50 sampleTokenizer (markEndOfFile (input_of [mkString true (str "<p>")])) with
  | (ts, EndReached) => exists ts' k, ts = ts' ++ [k] /\ m_type k = EndOfFile
  | (_, Stopped t' c k) => exists w, keywordAt (m_state (tk t')) c = Some w /\ (k < length w)%nat
  | (_, CallsExhausted) => False
  end.
Proof.
  apply (document_tokenized newHTMLParserOptions [mkString true (str "<p>")] 50); [reflexivity| |simpl; lia].
  apply references_in_range_no_hash. repeat constructor; discriminate.
Defined.

Lemma checkpoint_restores_tokenizer_witness :
  nextToken (mkTState (restoreFromCheckpoint
      (createCheckpoint (setState RCDATAState sampleTokenizer).(tk) newCheckpoint) (newHTMLTokenizer newHTMLParserOptions)) newHTMLToken)
    (input_of [mkString true (str "a<b>")]) =
  nextToken (setState RCDATAState sampleTokenizer) (input_of [mkString true (str "a<b>")]).
Proof.
  apply (checkpoint_restores_tokenizer (setState RCDATAState sampleTokenizer).(tk) (newHTMLTokenizer newHTMLParserOptions)
    newCheckpoint newHTMLToken (input_of [mkString true (str "a<b>")])); reflexivity.
Defined.

(** The tokenizer in foreign content, where NUL characters are replaced. *)
Definition replacingTokenizer : HTMLTokenizer :=
  newHTMLTokenizer newHTMLParserOptions <| m_forceNullCharacterReplacement := true |>.

(** Checkpoints lose the flag that forces the replacement of NUL
    characters, although they have a member for it: a tokenizer in foreign
    content reads a NUL as U+FFFD, the one restored from its checkpoint skips
    it. *)
Theorem checkpoint_loses_null_replacement :
  let source := markEndOfFile (input_of [mkString true [97; 0; 98]]) in
  let restored := restoreFromCheckpoint (createCheckpoint replacingTokenizer newCheckpoint) (newHTMLTokenizer newHTMLParserOptions) in
  exists t s t' s',
    nextToken (mkTState replacingTokenizer newHTMLToken) source = Some (true, t, s) /\
    m_tokenData (token t) = [97; 65533; 98] /\
    nextToken (mkTState restored newHTMLToken) source = Some (true, t', s') /\
    m_tokenData (token t') = [97; 98].
Proof. do 4 eexists. split; [vm_compute; reflexivity|]. split; [reflexivity|]. split; [vm_compute; reflexivity|]. reflexivity. Qed.

(** [MarkupDeclarationOpenState] waits for the seven characters of
    "doctype" even when the input is closed: a document that ends in "<!d"
    never gets its end-of-file token, [nextToken] reports no token forever. *)
Theorem truncated_declaration_stops (n : nat) :
  exists t', m_state (tk t') = MarkupDeclarationOpenState /\ m_type (token t') = Uninitialized /\
    tokenize (S n) sampleTokenizer (markEndOfFile (input_of [mkString true (str "<!d")])) = ([], Stopped t' "d"%uchar 2).
Proof.
  assert (E : exists t' s',
    nextToken sampleTokenizer (markEndOfFile (input_of [mkString true (str "<!d")])) = Some (false, t', s') /\
    m_state (tk t') = MarkupDeclarationOpenState /\ m_type (token t') = Uninitialized /\
    currentChar s' = "d"%uchar /\ charactersAhead s' = 2%nat)
    by (do 2 eexists; split; [vm_compute; reflexivity|split_and!; reflexivity]).
  destruct E as (t' & s' & E & HS & HT & EC & EA). exists t'. cbn [tokenize]. by rewrite E, EC, EA.
Qed.

(** The assertion that no NUL is buffered fails on a numeric reference
    that overflows: "&#4238409728;" decodes to the two code units 0 and
    0xDC00. *)
Theorem overflowing_reference_breaks_assertion :
  exists t' s', nextToken sampleTokenizer (markEndOfFile (input_of [mkString true (str "&#4238409728;")])) =
    Some (true, t', s') /\ m_tokenData (token t') = [0; 56320] /\ m_asserts (token t') = false.
Proof. do 2 eexists. split; [vm_compute; reflexivity|]. split; reflexivity. Qed.
