(* ===== verification/TokenizerRoundtrip.v ===== *)
(** * Printing and tokenizing

    The tokens of documents in a canonical form: text, start and end tags with
    quoted attributes and comments are printed, and [HTMLTokenizer::nextToken]
    gives the same items back. *)

From S2P Require Import Prelude CharacterSource SegmentedString InputStreamPreprocessor.
From S2P Require Import HTMLInputStream HTMLEntitySearch CharacterReference CharacterReferenceSpec.
From S2P Require Import HTMLToken TokenizerStates HTMLTokenizer TokenizerRefinement.
From S2P Require Import TokenizerInvariant TokenizerSafety TokenizerLiveness TokenizerSession.
Open Scope Z_scope.

(** ** Following the state machine *)

Section Following.
Context `{CF : CaseFolding} `{HT : HTMLEntityTable}.
Implicit Types (t : TState) (l : ListSource) (P Q : HTMLToken -> Prop).

(** [o] reaches [o'] in [n] blocks. *)
Definition leads (n : nat) (o o' : Outcome ListSource) : Prop := forall fuel, run (n + fuel) o = run fuel o'.

Lemma leads_refl o : leads 0 o o.
Proof. done. Qed.

Lemma leads_trans n m o1 o2 o3 : leads n o1 o2 -> leads m o2 o3 -> leads (n + m) o1 o3.
Proof. intros H1 H2 fuel. by rewrite <- Nat.add_assoc, H1, H2. Qed.

Lemma leads_step cc t l : leads 1 (Goto cc t l) (step cc t l).
Proof. done. Qed.

(** A character the preprocessor hands on as it is. *)
Definition readable (c : UChar) : bool := (0 <? c) && negb (c =? cCR).

(** Nothing is pending in the tokenizer. *)
Definition idle (k : HTMLTokenizer) : Prop :=
  m_bufferedEndTagName k = [] /\ m_skipNextNewLine (m_inputStreamPreprocessor k) = false.

(** The text [cs] is ahead, nothing of it pushed back; the end of the file is
    only at its end. *)
Definition ahead (cs : list UChar) l : Prop := ls_pushed l = [] /\ ls_chars l = cs.

(** What the preprocessor can read without changing it. *)
Definition nextChar (cs : list UChar) (closed : bool) : Prop :=
  match cs with
  | [] => False
  | c :: rest => readable c = true \/ (c = 0 /\ rest = [] /\ closed = true)
  end.

Lemma pp_peek_plain skip pp l c cs :
  ahead (c :: cs) l -> nextChar (c :: cs) (ls_closed l) -> m_skipNextNewLine pp = false ->
  pp_peek skip pp l = (true, mkPreprocessor c false, l).
Proof.
  intros [HP HC] HN HS. destruct pp as [c0 s0]. cbn in HS. subst s0. unfold pp_peek.
  assert (E : currentChar l = c) by (cbn [currentChar ListSource_source]; unfold ls_ahead; by rewrite HP, HC).
  rewrite E. change (mkPreprocessor c0 false <| m_nextInputCharacter := c |>) with (mkPreprocessor c false).
  cbn [m_nextInputCharacter].
  destruct (_ =? 0); cbn [negb]; [|done].
  unfold processNextInputCharacter. cbn [processAgain m_nextInputCharacter m_skipNextNewLine]. rewrite andb_false_r.
  cbn [m_nextInputCharacter]. destruct HN as [HR|(-> & -> & HE)].
  - unfold readable in HR. apply andb_true_iff in HR as [H0 H13]. apply negb_true_iff in H13. rewrite H13.
    change (mkPreprocessor c false <| m_skipNextNewLine := false |>) with (mkPreprocessor c false).
    cbn [m_nextInputCharacter]. apply Z.ltb_lt in H0. by rewrite (proj2 (Z.eqb_neq c 0)) by lia.
  - change (mkPreprocessor 0 false <| m_skipNextNewLine := false |>) with (mkPreprocessor 0 false).
    cbn [m_nextInputCharacter Z.eqb]. unfold shouldTreatNullAsEndOfFileMarker. cbn [isClosed sourceLength ListSource_source].
    unfold ls_length, ls_ahead. rewrite HP, HC, HE. done.
Qed.

(** The tokenizer is at the block of [st] with the text [cs] ahead. *)
Definition at_text (closed : bool) (st : State) (cs : list UChar) P (o : Outcome ListSource) : Prop :=
  exists c rest t l, cs = c :: rest /\ o = Goto c t l /\ m_state (tk t) = st /\ idle (tk t) /\
    ahead cs l /\ ls_closed l = closed /\ P (token t).

Lemma ahead_advance c cs l : ahead (c :: cs) l -> ahead cs (ls_advance l) /\ ls_closed (ls_advance l) = ls_closed l.
Proof. intros [HP HC]. unfold ls_advance, ahead. by rewrite HP, HC. Qed.

Lemma ahead_isEmpty c cs l : ahead (c :: cs) l -> ls_isEmpty l = false.
Proof. intros [_ HC]. unfold ls_isEmpty. by rewrite HC. Qed.

Lemma gotoNext_plain closed st t l c cs skip P :
  ahead (c :: cs) l -> nextChar (c :: cs) closed -> ls_closed l = closed -> m_state (tk t) = st -> idle (tk t) -> P (token t) ->
  at_text closed st (c :: cs) P (gotoNext t (pp_peek skip (m_inputStreamPreprocessor (tk t)) l)).
Proof.
  intros HA HN HL HS [HB HI] HP. rewrite (pp_peek_plain skip _ l c cs HA) by (rewrite ?HL; done).
  eexists c, cs, _, l. split; [done|]. split; [reflexivity|]. by destruct t as [[] ?].
Qed.

(** A block that advances to another state. *)
Lemma advance_to closed st' t l c c' cs P :
  ahead (c :: c' :: cs) l -> nextChar (c' :: cs) closed -> ls_closed l = closed -> idle (tk t) -> P (token t) ->
  at_text closed st' (c' :: cs) P (advancePreprocessor (setState st' t) l).
Proof.
  intros HA HN HL HI HP. destruct (ahead_advance _ _ _ HA) as [HA' HL']. unfold advancePreprocessor, pp_advance.
  cbn [advanceAndUpdateLineNumber isEmpty ListSource_source]. rewrite (ahead_isEmpty _ _ _ HA').
  apply gotoNext_plain; try done; congruence.
Qed.

(** From [st] with [cs] ahead the machine gets to [st'] with [cs'] ahead, in
    at most as many blocks as characters it consumes. *)
Definition follows (closed : bool) (st : State) (cs : list UChar) P (st' : State) (cs' : list UChar) Q : Prop :=
  forall o, at_text closed st cs P o ->
  exists n o', (n + length cs' <= length cs)%nat /\ leads n o o' /\ at_text closed st' cs' Q o'.

Lemma follows_refl closed st cs P : follows closed st cs P st cs P.
Proof. intros o HO. exists 0%nat, o. split; [lia|]. split; [apply leads_refl|done]. Qed.

Lemma follows_trans closed st1 cs1 P1 st2 cs2 P2 st3 cs3 P3 :
  follows closed st1 cs1 P1 st2 cs2 P2 -> follows closed st2 cs2 P2 st3 cs3 P3 ->
  follows closed st1 cs1 P1 st3 cs3 P3.
Proof.
  intros H1 H2 o HO. destruct (H1 o HO) as (n & o1 & Hn & L1 & HO1). destruct (H2 o1 HO1) as (m & o2 & Hm & L2 & HO2).
  exists (n + m)%nat, o2. split; [lia|]. split; [by eapply leads_trans|done].
Qed.

(** One block of the machine that advances, as a transformer of what is known
    of the token. *)
Lemma follows_block closed st st' c cs P Q :
  nextChar cs closed ->
  (forall t l, m_state (tk t) = st -> idle (tk t) -> P (token t) -> ahead (c :: cs) l ->
     exists t', block st c t l = (HTML_ADVANCE_TO st', t', l) /\ idle (tk t') /\ Q (token t')) ->
  follows closed st (c :: cs) P st' cs Q.
Proof.
  intros HN HB o (c0 & r0 & t & l & E & -> & HS & HI & HA & HL & HP). injection E as <- <-.
  destruct (HB t l HS HI HP HA) as (t' & EB & HI' & HQ). destruct cs as [|c' cs]; [done|].
  exists 1%nat. eexists. split; [simpl; lia|]. split; [apply leads_step|].
  unfold step. rewrite HS, EB. cbn [perform]. by eapply advance_to.
Qed.

(** A state that consumes the characters [cs] one by one. *)
Lemma follows_loop closed st (ok : UChar -> bool) (Q : list UChar -> HTMLToken -> Prop) cs acc rest :
  (forall acc c t l, ok c = true -> m_state (tk t) = st -> idle (tk t) -> Q acc (token t) ->
     exists t', block st c t l = (HTML_ADVANCE_TO st, t', l) /\ idle (tk t') /\ Q (acc ++ [c]) (token t')) ->
  (forall c, ok c = true -> readable c = true) ->
  Forall (fun c => ok c = true) cs -> nextChar rest closed ->
  follows closed st (cs ++ rest) (Q acc) st rest (Q (acc ++ cs)).
Proof.
  intros HB Hok HF HN. revert acc. induction HF as [|c cs Hc HF IH]; intros acc.
  { rewrite app_nil_r. apply follows_refl. }
  eapply follows_trans with (P2 := Q (acc ++ [c])); [apply follows_block|].
  - destruct cs as [|c' cs']; [done|]. left. apply Hok. by inversion HF.
  - intros t l HS HI HQ _. by apply HB.
  - specialize (IH (acc ++ [c])). by rewrite <- app_assoc in IH.
Qed.
End Following.

(** ** Items of a document *)

Definition nameChar (c : UChar) : bool :=
  readable c && negb (isTokenizerWhitespace c) && negb (c =? "/"%uchar) && negb (c =? ">"%uchar)
  && negb (c =? "<"%uchar) && negb (isASCIIUpper c).
Definition attributeChar (c : UChar) : bool := nameChar c && negb (c =? "="%uchar).
Definition valueChar (c : UChar) : bool := readable c && negb (c =? cQUOT) && negb (c =? "&"%uchar).
Definition textChar (c : UChar) : bool := readable c && negb (c =? "&"%uchar) && negb (c =? "<"%uchar).
Definition commentChar (c : UChar) : bool := readable c && negb (c =? "-"%uchar).

Inductive Item :=
| TextItem (cs : list UChar)
| StartTagItem (name : list UChar) (attributes : list (list UChar * list UChar)) (selfClosing : bool)
| EndTagItem (name : list UChar)
| CommentItem (cs : list UChar).

Definition printAttribute (a : list UChar * list UChar) : list UChar :=
  " "%uchar :: fst a ++ "="%uchar :: cQUOT :: snd a ++ [cQUOT].

Definition printItem (i : Item) : list UChar :=
  match i with
  | TextItem cs => cs
  | StartTagItem name attributes selfClosing =>
      "<"%uchar :: name ++ concat (map printAttribute attributes)
      ++ (if selfClosing then ["/"%uchar; ">"%uchar] else [">"%uchar])
  | EndTagItem name => "<"%uchar :: "/"%uchar :: name ++ [">"%uchar]
  | CommentItem cs => str "<!--" ++ cs ++ str "-->"
  end.

Definition okName (name : list UChar) : Prop :=
  match name with
  | c :: cs => isASCIILower c = true /\ Forall (fun c => nameChar c = true) cs
  | [] => False
  end.

Definition okAttribute (a : list UChar * list UChar) : Prop :=
  fst a <> [] /\ Forall (fun c => attributeChar c = true) (fst a) /\ Forall (fun c => valueChar c = true) (snd a).

Definition okItem (i : Item) : Prop :=
  match i with
  | TextItem cs => cs <> [] /\ Forall (fun c => textChar c = true) cs
  | StartTagItem name attributes _ => okName name /\ Forall okAttribute attributes
  | EndTagItem name => okName name
  | CommentItem cs => Forall (fun c => commentChar c = true) cs /\ head cs <> Some ">"%uchar
  end.

(** The token of an item. *)
Definition denotes (i : Item) (tok : HTMLToken) : Prop :=
  match i with
  | TextItem cs => m_type tok = Character /\ m_tokenData tok = cs
  | StartTagItem name attributes selfClosing =>
      m_type tok = StartTag /\ m_tokenData tok = name /\ m_selfClosing tok = selfClosing /\
      map (fun a => (attr_name a, attr_value a)) (m_attributes tok) = attributes
  | EndTagItem name => m_type tok = EndTag /\ m_tokenData tok = name /\ m_attributes tok = []
  | CommentItem cs => m_type tok = Comment /\ m_tokenData tok = cs
  end.

(** ** Tags *)

Definition tagToken (ty : TokenType) (name : list UChar) (attributes : list (list UChar * list UChar)) (selfClosing : bool)
    (tok : HTMLToken) : Prop :=
  m_type tok = ty /\ m_tokenData tok = name /\ m_selfClosing tok = selfClosing /\
  map (fun a => (attr_name a, attr_value a)) (m_attributes tok) = attributes /\
  (attributes <> [] -> m_currentAttribute tok = Some (length attributes - 1)%nat).

(** A token no character has been added to. *)
Definition emptyToken (tok : HTMLToken) : Prop := m_type tok = Uninitialized /\ m_tokenData tok = [].

Section TagTokens.
Variables (ty : TokenType) (name : list UChar) (pre : list (list UChar * list UChar)).
Implicit Types tok : HTMLToken.

Lemma tagToken_newAttribute tok :
  tagToken ty name pre false tok -> tagToken ty name (pre ++ [([], [])]) false (addNewAttribute tok).
Proof.
  intros (H1 & H2 & H3 & H4 & H5). unfold tagToken, addNewAttribute. destruct tok; cbn in *.
  split_and!; [done..| |]; [by rewrite map_app, H4|]. intros _. by rewrite <- H4, !length_app, length_map.
Qed.

(** A change of the current attribute. *)
Lemma tagToken_onAttribute (f : Attribute -> Attribute) n v n' v' tok :
  (forall a, attr_name a = n -> attr_value a = v -> attr_name (f a) = n' /\ attr_value (f a) = v') ->
  tagToken ty name (pre ++ [(n, v)]) false tok ->
  tagToken ty name (pre ++ [(n', v')]) false (onAttribute f tok).
Proof.
  intros Hf (H1 & H2 & H3 & H4 & H5). unfold tagToken, onAttribute. rewrite H5 by (by destruct pre).
  destruct tok as [? ? ? ? ? ? ? attrs ? ? ?]; cbn in *. rewrite !length_app in *. cbn in *.
  split_and!; [done..| |]; [|intros _; by apply H5; destruct pre].
  destruct attrs as [|a attrs _] using rev_ind; [by destruct pre|].
  rewrite map_app in H4. cbn in H4. apply app_inj_tail in H4 as [H4 E]. injection E as En Ev.
  replace (length pre + 1 - 1)%nat with (length attrs) by (rewrite <- H4, length_map; lia).
  rewrite alter_app_r_alt, Nat.sub_diag by lia. cbn. rewrite map_app, H4. cbn.
  by destruct (Hf a En Ev) as [-> ->].
Qed.

Lemma tagToken_assert b attrs sc tok : tagToken ty name attrs sc tok -> tagToken ty name attrs sc (ASSERT b tok).
Proof. by destruct tok. Qed.
End TagTokens.

Lemma tagToken_beginStartTag c tok : emptyToken tok -> tagToken StartTag [c] [] false (beginStartTag c tok).
Proof. intros [H1 H2]. destruct tok; cbn in *. subst. by split_and!. Qed.

Lemma tagToken_beginEndTag c tok : emptyToken tok -> tagToken EndTag [c] [] false (beginEndTag [c] tok).
Proof. intros [H1 H2]. destruct tok; cbn in *. subst. by split_and!. Qed.

Lemma tagToken_appendToName ty name c tok :
  tagToken ty name [] false tok -> tagToken ty (name ++ [c]) [] false (appendToName c tok).
Proof. intros (H1 & H2 & H3 & H4 & H5). destruct tok; cbn in *. subst. by split_and!. Qed.

Lemma tagToken_setSelfClosing ty name attrs tok :
  tagToken ty name attrs false tok -> tagToken ty name attrs true (setSelfClosing tok).
Proof. intros (H1 & H2 & H3 & H4 & H5). destruct tok; cbn in *. subst. by split_and!. Qed.

(** The tests of the blocks on a character of a class. *)
Ltac char_class H :=
  unfold attributeChar, nameChar, valueChar, textChar, commentChar, readable in H; bool_hyps.

(** Follows the tests of a block whose outcome is known. *)
Ltac follow_block f :=
  cbn [block]; unfold f, kEndOfFileMarker; repeat case_match; try (exfalso; bool_hyps; congruence); try done;
  eexists; split; [reflexivity|]; split; [done|].

Section Tags.
Context `{CF : CaseFolding} `{HT : HTMLEntityTable}.
Variables (closed : bool) (ty : TokenType).

Lemma tagName_loop cs rest c :
  Forall (fun c => nameChar c = true) cs -> nextChar rest closed ->
  follows closed TagNameState (cs ++ rest) (tagToken ty [c] [] false) TagNameState rest (tagToken ty (c :: cs) [] false).
Proof.
  intros HF HN. apply (follows_loop closed TagNameState nameChar (fun acc => tagToken ty (c :: acc) [] false)); try done.
  - intros acc c' t l Hc _ HI HQ. assert (H0 : c' <> 0) by (char_class Hc; lia). unfold nameChar in Hc. bool_hyps.
    follow_block TagNameState_block. by apply (tagToken_appendToName ty (c :: acc)).
  - intros c' Hc. unfold nameChar in Hc. by bool_hyps.
Qed.

(** The end of the tag name and of a quoted value, where the tag goes on. *)
Definition betweenAttributes (st : State) : Prop := st = TagNameState \/ st = AfterAttributeValueQuotedState.

Lemma attributeName_loop name pre c cs rest :
  Forall (fun c => attributeChar c = true) cs -> nextChar rest closed ->
  follows closed AttributeNameState (cs ++ rest) (tagToken ty name (pre ++ [([c], [])]) false)
    AttributeNameState rest (tagToken ty name (pre ++ [(c :: cs, [])]) false).
Proof.
  intros HF HN.
  apply (follows_loop closed AttributeNameState attributeChar (fun acc => tagToken ty name (pre ++ [(c :: acc, [])]) false)); try done.
  - intros acc c' t l Hc _ HI HQ. assert (H0 : c' <> 0) by (char_class Hc; lia). unfold attributeChar, nameChar in Hc. bool_hyps.
    follow_block AttributeNameState_block.
    apply (tagToken_onAttribute ty name pre _ (c :: acc) []); [intros [] En Ev; cbn in *; by rewrite En, Ev|].
    by do 2 apply tagToken_assert.
  - intros c' Hc. unfold attributeChar, nameChar in Hc. by bool_hyps.
Qed.

Lemma value_loop name pre n cs rest :
  Forall (fun c => valueChar c = true) cs -> nextChar rest closed ->
  follows closed AttributeValueDoubleQuotedState (cs ++ rest) (tagToken ty name (pre ++ [(n, [])]) false)
    AttributeValueDoubleQuotedState rest (tagToken ty name (pre ++ [(n, cs)]) false).
Proof.
  intros HF HN.
  apply (follows_loop closed AttributeValueDoubleQuotedState valueChar (fun acc => tagToken ty name (pre ++ [(n, acc)]) false)); try done.
  - intros acc c' t l Hc _ HI HQ. assert (H0 : c' <> 0) by (char_class Hc; lia). unfold valueChar in Hc. bool_hyps.
    follow_block AttributeValueDoubleQuotedState_block.
    apply (tagToken_onAttribute ty name pre _ n acc); [intros [] En Ev; cbn in *; by rewrite En, Ev|].
    by do 3 apply tagToken_assert.
  - intros c' Hc. unfold valueChar in Hc. by bool_hyps.
Qed.

(** One attribute, from the space in front of it to its closing quote. *)
Lemma attribute_follows st name pre a rest :
  betweenAttributes st -> okAttribute a -> nextChar rest closed ->
  follows closed st (printAttribute a ++ rest) (tagToken ty name pre false)
    AfterAttributeValueQuotedState rest (tagToken ty name (pre ++ [a]) false).
Proof.
  intros Hst (Hne & HFn & HFv) HN. destruct a as [[|c n] v]; [done|]. cbn [fst snd] in *. clear Hne.
  apply Forall_cons in HFn as [Hc HFn]. unfold printAttribute. cbn [fst snd app].
  assert (Hv : forall cs, Forall (fun c => valueChar c = true) cs -> nextChar (cs ++ cQUOT :: rest) closed).
  { intros cs HF. destruct HF as [|c' cs Hc' _]; [by left|left]. unfold valueChar in Hc'. by bool_hyps. }
  assert (Hn : forall cs cs', Forall (fun c => attributeChar c = true) cs -> nextChar (cs ++ "="%uchar :: cs') closed).
  { intros cs cs' HF. destruct HF as [|c' cs Hc' _]; [by left|left]. unfold attributeChar, nameChar in Hc'. by bool_hyps. }
  rewrite <- !app_assoc. cbn [app]. rewrite <- app_assoc. cbn [app].
  eapply follows_trans with (st2 := BeforeAttributeNameState) (P2 := tagToken ty name pre false).
  { apply follows_block; [left; unfold attributeChar, nameChar in Hc; by bool_hyps|].
    intros t l _ HI HP _. destruct Hst as [-> | ->]; by eexists. }
  eapply follows_trans with (st2 := AttributeNameState) (P2 := tagToken ty name (pre ++ [([c], [])]) false).
  { apply follows_block; [by apply Hn|]. intros t l _ HI HP _.
    assert (H0 : c <> 0) by (char_class Hc; lia). unfold attributeChar, nameChar in Hc. bool_hyps.
    follow_block BeforeAttributeNameState_block.
    apply (tagToken_onAttribute ty name pre _ [] []); [intros [] En Ev; cbn in *; by rewrite En, Ev|].
    do 2 apply tagToken_assert. apply (tagToken_onAttribute ty name pre _ [] []); [done|]. by apply tagToken_newAttribute. }
  eapply follows_trans; [apply attributeName_loop; [done|by left]|].
  eapply follows_trans with (st2 := BeforeAttributeValueState) (P2 := tagToken ty name (pre ++ [(c :: n, [])]) false).
  { apply follows_block; [by left|]. intros t l _ HI HP _. follow_block AttributeNameState_block.
    by apply (tagToken_onAttribute ty name pre _ (c :: n) []). }
  eapply follows_trans with (st2 := AttributeValueDoubleQuotedState) (P2 := tagToken ty name (pre ++ [(c :: n, [])]) false).
  { apply follows_block; [by apply Hv|]. intros t l _ HI HP _. follow_block BeforeAttributeValueState_block.
    by apply (tagToken_onAttribute ty name pre _ (c :: n) []). }
  eapply follows_trans; [apply value_loop; [done|by left]|].
  apply follows_block; [done|]. intros t l _ HI HP _. follow_block AttributeValueDoubleQuotedState_block.
  by apply (tagToken_onAttribute ty name pre _ (c :: n) v).
Qed.
End Tags.

(** ** Emitting a token *)

Section Delivering.
Context `{CF : CaseFolding} `{HT : HTMLEntityTable}.
Implicit Types (t : TState) (l : ListSource) (P Q : HTMLToken -> Prop).

(** The tokenizer is between two tokens, with the text [cs] ahead. *)
Definition resting (closed : bool) (cs : list UChar) t l : Prop :=
  m_state (tk t) = DataState /\ idle (tk t) /\ ahead cs l /\ ls_closed l = closed.

(** From [st] with [cs] ahead [nextToken] returns a token with [cs'] ahead. *)
Definition delivers (closed : bool) (st : State) (cs : list UChar) P (cs' : list UChar) Q : Prop :=
  forall o, at_text closed st cs P o ->
  exists n t l, (n <= length cs)%nat /\ leads n o (Return true t l) /\ resting closed cs' t l /\ Q (token t).

Lemma follows_delivers closed st1 cs1 P1 st2 cs2 P2 cs3 Q :
  follows closed st1 cs1 P1 st2 cs2 P2 -> delivers closed st2 cs2 P2 cs3 Q -> delivers closed st1 cs1 P1 cs3 Q.
Proof.
  intros H1 H2 o HO. destruct (H1 o HO) as (n & o1 & Hn & L1 & HO1). destruct (H2 o1 HO1) as (m & t & l & Hm & L2 & HX).
  exists (n + m)%nat, t, l. split; [lia|]. split; [by eapply leads_trans|done].
Qed.

(** A block that returns from [nextToken]. *)
Lemma delivers_block closed st c cs P cs' Q :
  (forall t l, m_state (tk t) = st -> idle (tk t) -> P (token t) -> ahead (c :: cs) l -> ls_closed l = closed ->
     exists t' l', step c t l = Return true t' l' /\ resting closed cs' t' l' /\ Q (token t')) ->
  delivers closed st (c :: cs) P cs' Q.
Proof.
  intros HB o (c0 & r0 & t & l & E & -> & HS & HI & HA & HL & HP). injection E as <- <-.
  destruct (HB t l HS HI HP HA HL) as (t' & l' & ES & HX). exists 1%nat, t', l'.
  split; [simpl; lia|]. split; [|done]. rewrite <- ES. apply leads_step.
Qed.

(** A block that emits the token. *)
Lemma delivers_emit closed st c cs P Q :
  (forall b tok, Q tok -> Q (ASSERT b tok)) ->
  (forall t l, P (token t) -> exists t', block st c t l = (EMIT_AND_RESUME_IN DataState, t', l) /\
     tk t' = tk t /\ Q (token t')) ->
  delivers closed st (c :: cs) P cs Q.
Proof.
  intros HQ HB. apply delivers_block. intros t l HS HI HP HA HL. destruct (HB t l HP) as (t' & EB & EK & HT').
  unfold step. rewrite HS, EB. cbn [perform]. do 2 eexists. split; [reflexivity|].
  destruct (ahead_advance _ _ _ HA) as [HA' HL']. destruct t' as [k' tok']. cbn [tk token] in *. subst k'.
  unfold saveEndTagNameIfNeeded. destruct HI as [HI1 HI2]. destruct t as [[] tok]. cbn in HI1, HI2.
  rewrite <- HL, <- HL'. split; [|case_match; by apply HQ]. unfold resting. case_match; by split_and!.
Qed.
End Delivering.

Section TagItems.
Context `{CF : CaseFolding} `{HT : HTMLEntityTable}.
Variables (closed : bool).

Lemma attributes_follow ty name attrs pre st rest :
  betweenAttributes st -> Forall okAttribute attrs -> nextChar rest closed ->
  exists st', betweenAttributes st' /\
    follows closed st (concat (map printAttribute attrs) ++ rest) (tagToken ty name pre false)
      st' rest (tagToken ty name (pre ++ attrs) false).
Proof.
  intros Hst HF HN. revert st pre Hst. induction HF as [|a attrs Ha HF IH]; intros st pre Hst.
  { exists st. split; [done|]. rewrite app_nil_r. apply follows_refl. }
  destruct (IH AfterAttributeValueQuotedState (pre ++ [a]) (or_intror eq_refl)) as (st' & Hst' & HX).
  exists st'. split; [done|]. rewrite <- app_assoc in HX. cbn [map concat]. rewrite <- app_assoc.
  eapply follows_trans; [|exact HX]. apply attribute_follows; [done|done|].
  destruct HF as [|a' attrs]; [done|by left].
Qed.

(** The end of a tag. *)
Lemma tag_end ty name attrs st rest :
  betweenAttributes st -> delivers closed st (">"%uchar :: rest) (tagToken ty name attrs false) rest (tagToken ty name attrs false).
Proof.
  intros Hst. apply delivers_emit; [intros; by apply tagToken_assert|]. intros t l HP.
  destruct Hst as [-> | ->]; by exists t.
Qed.

Lemma tag_end_selfClosing ty name attrs st rest :
  betweenAttributes st ->
  delivers closed st ("/"%uchar :: ">"%uchar :: rest) (tagToken ty name attrs false) rest (tagToken ty name attrs true).
Proof.
  intros Hst. eapply follows_delivers with (st2 := SelfClosingStartTagState) (P2 := tagToken ty name attrs false).
  - apply follows_block; [by left|]. intros t l _ HI HP _. destruct Hst as [-> | ->]; by eexists.
  - apply delivers_emit; [intros; by apply tagToken_assert|]. intros t l HP.
    eexists. split; [reflexivity|]. split; [done|]. by apply tagToken_setSelfClosing.
Qed.

(** From "<" to the first letter. *)
Lemma lessThan_follows cs : nextChar cs closed -> follows closed DataState ("<"%uchar :: cs) emptyToken TagOpenState cs emptyToken.
Proof.
  intros HN. apply follows_block; [done|]. intros t l _ HI HP _. cbn [block]. unfold DataState_block. cbn [Z.eqb].
  unfold typeIs. rewrite (proj1 HP). by eexists.
Qed.

Lemma lower_readable c : isASCIILower c = true -> readable c = true /\ isASCIIUpper c = false /\ toLChar c = c /\ 97 <= c <= 122.
Proof.
  unfold isASCIILower, readable, isASCIIUpper, toLChar. intros Hc. rewrite !Z.geb_leb in *. bool_hyps. cbn in *.
  split_and!; [|lia_tests; done|by rewrite Z.mod_small by lia|lia..].
  rewrite (proj2 (Z.eqb_neq c 13)) by lia. by lia_tests.
Qed.
Lemma startTag_delivers name attrs sc rest :
  okItem (StartTagItem name attrs sc) -> nextChar rest closed ->
  delivers closed DataState (printItem (StartTagItem name attrs sc) ++ rest) emptyToken rest (tagToken StartTag name attrs sc).
Proof.
  intros [Hn Ha] HN. destruct name as [|c name]; [done|]. destruct Hn as [Hc Hn].
  destruct (lower_readable c Hc) as (Hr & Hu & _ & Hb).
  set (ends := (if sc then ["/"%uchar; ">"%uchar] else [">"%uchar]) ++ rest).
  assert (He : nextChar ends closed) by (by destruct sc; left).
  assert (Hattrs : nextChar (concat (map printAttribute attrs) ++ ends) closed) by (destruct Ha; [done|by left]).
  replace (printItem (StartTagItem (c :: name) attrs sc) ++ rest)
    with ("<"%uchar :: c :: name ++ concat (map printAttribute attrs) ++ ends)
    by (cbn [printItem app]; by rewrite <- !app_assoc).
  eapply follows_delivers; [apply lessThan_follows; by left|].
  eapply follows_delivers with (st2 := TagNameState) (P2 := tagToken StartTag [c] [] false).
  { apply follows_block; [destruct Hn as [|c' n' Hc' _]; [done|left; unfold nameChar in Hc'; by bool_hyps]|].
    intros t l _ HI HP _. cbn [block]. unfold TagOpenState_block. rewrite Hu, Hc.
    rewrite (proj2 (Z.eqb_neq c "!"%uchar)), (proj2 (Z.eqb_neq c "/"%uchar)) by (cbn; lia).
    eexists. split; [reflexivity|]. split; [done|]. by apply tagToken_beginStartTag. }
  eapply follows_delivers; [by apply tagName_loop|].
  destruct (attributes_follow StartTag (c :: name) attrs [] TagNameState ends (or_introl eq_refl) Ha He) as (st & Hst & HX).
  eapply follows_delivers; [exact HX|]. destruct sc; [by apply tag_end_selfClosing|by apply tag_end].
Qed.

Lemma endTag_delivers name rest :
  okName name -> nextChar rest closed ->
  delivers closed DataState (printItem (EndTagItem name) ++ rest) emptyToken rest (tagToken EndTag name [] false).
Proof.
  intros Hn HN. destruct name as [|c name]; [done|]. destruct Hn as [Hc Hn].
  destruct (lower_readable c Hc) as (Hr & Hu & HL & Hb).
  replace (printItem (EndTagItem (c :: name)) ++ rest) with ("<"%uchar :: "/"%uchar :: c :: name ++ ">"%uchar :: rest)
    by (cbn [printItem app]; by rewrite <- !app_assoc).
  eapply follows_delivers; [apply lessThan_follows; by left|].
  eapply follows_delivers with (st2 := EndTagOpenState) (P2 := emptyToken).
  { apply follows_block; [by left|]. intros t l _ HI HP _. by eexists. }
  eapply follows_delivers with (st2 := TagNameState) (P2 := tagToken EndTag [c] [] false).
  { apply follows_block; [destruct Hn as [|c' n' Hc' _]; [by left|left; unfold nameChar in Hc'; by bool_hyps]|].
    intros t l _ HI HP _. cbn [block]. unfold EndTagOpenState_block. rewrite Hu, Hc, HL.
    eexists. split; [reflexivity|]. split; [done|]. by apply tagToken_beginEndTag. }
  eapply follows_delivers; [apply tagName_loop; [done|by left]|]. apply tag_end. by left.
Qed.
End TagItems.

(** ** Text and comments *)

Definition textToken (cs : list UChar) (tok : HTMLToken) : Prop :=
  m_type tok = match cs with [] => Uninitialized | _ => Character end /\ m_tokenData tok = cs.

Definition commentToken (cs : list UChar) (tok : HTMLToken) : Prop := m_type tok = Comment /\ m_tokenData tok = cs.

Lemma textToken_buffer cs c t : textToken cs (token t) -> textToken (cs ++ [c]) (token (bufferCharacter c t)).
Proof.
  destruct t as [k []]. intros [H1 H2]. cbn in *. subst. unfold textToken.
  destruct cs as [|c0 cs]; cbn; by split_and!.
Qed.

Lemma commentToken_assert b cs tok : commentToken cs tok -> commentToken cs (ASSERT b tok).
Proof. by destruct tok. Qed.

Lemma commentToken_append cs c tok : commentToken cs tok -> commentToken (cs ++ [c]) (appendToComment c tok).
Proof. destruct tok. intros [H1 H2]. cbn in *. by subst. Qed.

(** What comes behind a text. *)
Definition textEnd (rest : list UChar) (closed : bool) : Prop :=
  head rest = Some "<"%uchar \/ (rest = [kEndOfFileMarker] /\ closed = true).

Section TextItems.
Context `{CF : CaseFolding} `{HT : HTMLEntityTable}.
Variables (closed : bool).

Lemma textEnd_next rest : textEnd rest closed -> nextChar rest closed.
Proof. destruct rest as [|c rest]; intros [H|[H ->]]; try done; [left|right]; by inversion H. Qed.

Lemma text_delivers cs rest :
  okItem (TextItem cs) -> textEnd rest closed ->
  delivers closed DataState (cs ++ rest) emptyToken rest (textToken cs).
Proof.
  intros [Hne HF] HE. eapply follows_delivers.
  { apply (follows_loop closed DataState textChar textToken cs [] rest); [|intros c Hc; unfold textChar in Hc; by bool_hyps|done|by apply textEnd_next].
    intros acc c t l Hc _ HI HQ. assert (H0 : c <> 0) by (char_class Hc; lia). unfold textChar in Hc. bool_hyps.
    follow_block DataState_block. by apply textToken_buffer. }
  cbn [app]. assert (HC : forall tok, textToken cs tok -> typeIs Character tok = true).
  { intros tok [HT' _]. unfold typeIs. apply bool_decide_eq_true. by destruct cs. }
  destruct rest as [|c rest]; [by destruct HE as [?|[? _]]|]. apply delivers_block.
  intros t l HS HI HP HA HL. unfold step. rewrite HS. cbn [block]. unfold DataState_block. unfold textEnd, kEndOfFileMarker in *.
  destruct HE as [HE|[HE HE']]; injection HE as ->; [|subst rest]; cbn [Z.eqb Pos.eqb].
  - rewrite (HC _ HP). by exists t, l.
  - cbn [perform]. unfold emitEndOfFile, haveBufferedCharacterToken. rewrite (HC _ HP). by exists t, l.
Qed.
(** The dashes that open a comment are looked up and skipped in one block. *)
Lemma commentOpen_block t cs n :
  block MarkupDeclarationOpenState "-"%uchar t (mkListSource [] ("-"%uchar :: "-"%uchar :: cs) closed n) =
  (HTML_SWITCH_TO CommentStartState, onToken beginComment (assertT true (assertT true t)), mkListSource [] cs closed (n + 1 + 1)).
Proof.
  cbn [block]. unfold MarkupDeclarationOpenState_block. cbn [Z.eqb Pos.eqb lookAheadInline ListSource_source].
  unfold ls_lookAhead. rewrite (proj2 (Z.ltb_ge _ _)) by (unfold ls_ahead; simpl; lia).
  by destruct cs.
Qed.

Lemma commentOpen_follows cs :
  nextChar cs closed ->
  follows closed MarkupDeclarationOpenState ("-"%uchar :: "-"%uchar :: cs) emptyToken CommentStartState cs (commentToken []).
Proof.
  intros HN o (c & r & t & l & E & -> & HS & HI & HA & HL & HP). injection E as <- <-.
  destruct cs as [|c cs]; [done|]. exists 1%nat. eexists. split; [simpl; lia|]. split; [apply leads_step|].
  destruct HA as [HA1 HA2]. destruct l as [p chs cl n]. cbn in HA1, HA2, HL. subst p chs cl.
  unfold step. rewrite HS, commentOpen_block. cbn [perform]. unfold peekPreprocessor. cbn [isEmpty ListSource_source ls_isEmpty ls_chars].
  apply gotoNext_plain; try done. destruct t as [k []], HP as [H1 H2]. cbn in *. by subst.
Qed.

Lemma comment_end cs rest :
  delivers closed CommentEndDashState (str "->" ++ rest) (commentToken cs) rest (commentToken cs).
Proof.
  eapply follows_delivers with (st2 := CommentEndState) (P2 := commentToken cs).
  - apply follows_block; [by left|]. intros t l _ HI HP _. by eexists.
  - apply delivers_emit; [intros; by apply commentToken_assert|]. intros t l HP. by eexists.
Qed.

Lemma comment_delivers cs rest :
  okItem (CommentItem cs) -> nextChar rest closed ->
  delivers closed DataState (printItem (CommentItem cs) ++ rest) emptyToken rest (commentToken cs).
Proof.
  intros [HF Hg] HN.
  assert (Hcs : forall cs, Forall (fun c => commentChar c = true) cs -> nextChar (cs ++ str "-->" ++ rest) closed).
  { intros cs' HF'. destruct HF' as [|c' cs' Hc _]; [by left|left]. unfold commentChar in Hc. by bool_hyps. }
  replace (printItem (CommentItem cs) ++ rest) with ("<"%uchar :: "!"%uchar :: "-"%uchar :: "-"%uchar :: cs ++ str "-->" ++ rest)
    by (cbn [printItem app str]; by rewrite <- !app_assoc).
  eapply follows_delivers; [apply lessThan_follows; by left|].
  eapply follows_delivers with (st2 := MarkupDeclarationOpenState) (P2 := emptyToken).
  { apply follows_block; [by left|]. intros t l _ HI HP _. by eexists. }
  eapply follows_delivers; [apply commentOpen_follows; by apply Hcs|].
  destruct HF as [|c cs Hc HF].
  - eapply follows_delivers with (st2 := CommentStartDashState) (P2 := commentToken []).
    { apply follows_block; [by left|]. intros t l _ HI HP _. by eexists. }
    eapply follows_delivers with (st2 := CommentEndState) (P2 := commentToken []).
    { apply follows_block; [by left|]. intros t l _ HI HP _. by eexists. }
    apply delivers_emit; [intros; by apply commentToken_assert|]. intros t l HP. by eexists.
  - eapply follows_delivers with (st2 := CommentState) (P2 := commentToken [c]).
    { apply follows_block; [by apply Hcs|]. intros t l _ HI HP _. assert (H0 : c <> 0) by (char_class Hc; lia).
      assert (H1 : c <> ">"%uchar) by (intros ->; by apply Hg). unfold commentChar in Hc. bool_hyps.
      follow_block CommentStartState_block. by apply (commentToken_append []). }
    eapply follows_delivers.
    { apply (follows_loop closed CommentState commentChar (fun acc => commentToken (c :: acc)) cs [] (str "-->" ++ rest));
        [|intros c' Hc'; unfold commentChar in Hc'; by bool_hyps|done|by left].
      intros acc c' t l Hc' _ HI HQ. assert (H0 : c' <> 0) by (char_class Hc'; lia). unfold commentChar in Hc'. bool_hyps.
      follow_block CommentState_block. by apply (commentToken_append (c :: acc)). }
    eapply follows_delivers; [|apply comment_end].
    apply follows_block; [by left|]. intros t l _ HI HP _. by eexists.
Qed.
End TextItems.

(** ** Documents *)

Definition printDocument (items : list Item) : list UChar := concat (map printItem items).

(** Two texts next to each other would be one. *)
Fixpoint separated (items : list Item) : Prop :=
  match items with
  | [] => True
  | i :: rest =>
      match i, rest with
      | TextItem _, TextItem _ :: _ => False
      | _, _ => separated rest
      end
  end.

Section Items.
Context `{CF : CaseFolding} `{HT : HTMLEntityTable}.
Implicit Types (t : TState) (l : ListSource).

(** The entry of [nextToken]. *)
Lemma enter_resting closed c cs t l P :
  resting closed (c :: cs) t l -> nextChar (c :: cs) closed -> P (token t) ->
  at_text closed DataState (c :: cs) P (enter t l).
Proof.
  intros (HS & HI & HA & HL) HN HP. unfold enter. rewrite (bool_decide_eq_true_2 _ (proj1 HI)). cbn [negb andb].
  unfold peekPreprocessor. cbn [isEmpty ListSource_source]. rewrite (ahead_isEmpty _ _ _ HA). by apply gotoNext_plain.
Qed.

Lemma nextToken_delivers closed cs cs' P Q t l :
  delivers closed DataState cs P cs' Q -> resting closed cs t l -> nextChar cs closed -> P (token t) ->
  exists t' l', nextToken t l = Some (true, t', l') /\ resting closed cs' t' l' /\ Q (token t').
Proof.
  intros HD HR HN HP. destruct cs as [|c cs]; [done|].
  destruct (HD _ (enter_resting closed c cs t l P HR HN HP)) as (n & t' & l' & Hn & HX & HQ).
  exists t', l'. split; [|done]. unfold nextToken. destruct HR as (_ & _ & (HA1 & HA2) & _).
  replace (4 * charactersAhead l + 4)%nat with (n + (4 * charactersAhead l + 4 - n))%nat.
  - rewrite HX. by destruct (4 * charactersAhead l + 4 - n)%nat.
  - cbn [charactersAhead ListSource_source]. unfold ls_ahead. rewrite HA1, HA2. cbn [app length] in *. lia.
Qed.

(** One item. *)
Lemma nextToken_item closed i rest t l :
  okItem i -> nextChar rest closed -> (forall cs, i = TextItem cs -> textEnd rest closed) ->
  resting closed (printItem i ++ rest) t l -> emptyToken (token t) ->
  exists t' l', nextToken t l = Some (true, t', l') /\ resting closed rest t' l' /\ denotes i (token t').
Proof.
  intros Hok HN HE HR HT'. destruct i as [cs|name attrs sc|name|cs].
  - destruct (nextToken_delivers closed _ _ _ _ t l (text_delivers closed cs rest Hok (HE cs eq_refl)) HR) as (t' & l' & E & R & D);
      [|done|]; [|exists t', l'; split_and!; try done; destruct Hok; by destruct cs, D].
    destruct Hok as [Hne [|c cs' Hc _]]; [done|left]. unfold textChar in Hc. by bool_hyps.
  - destruct (nextToken_delivers closed _ _ _ _ t l (startTag_delivers closed name attrs sc rest Hok HN) HR (or_introl eq_refl) HT')
      as (t' & l' & E & R & D1 & D2 & D3 & D4 & _). by exists t', l'.
  - destruct (nextToken_delivers closed _ _ _ _ t l (endTag_delivers closed name rest Hok HN) HR (or_introl eq_refl) HT')
      as (t' & l' & E & R & D1 & D2 & D3 & D4 & _). apply map_eq_nil in D4. by exists t', l'.
  - destruct (nextToken_delivers closed _ _ _ _ t l (comment_delivers closed cs rest Hok HN) HR (or_introl eq_refl) HT')
      as (t' & l' & E & R & D). by exists t', l'.
Qed.

Lemma nextToken_eof t l :
  resting true [kEndOfFileMarker] t l -> emptyToken (token t) ->
  exists t' l', nextToken t l = Some (true, t', l') /\ m_type (token t') = EndOfFile.
Proof.
  intros HR HT'. eapply (nextToken_delivers true _ [] emptyToken (fun tok => m_type tok = EndOfFile)) in HR as (t' & l' & E & _ & D).
  - by exists t', l'.
  - apply delivers_block. intros t0 l0 HS HI HP HA HL. unfold step. rewrite HS. cbn [block].
    unfold DataState_block, kEndOfFileMarker. cbn [Z.eqb perform]. unfold emitEndOfFile, haveBufferedCharacterToken, typeIs.
    rewrite (proj1 HP). cbn [bool_decide decide]. do 2 eexists. split; [reflexivity|]. split; [|done].
    destruct (ahead_advance _ _ _ HA) as [HA' HL']. rewrite <- HL, <- HL'. destruct t0 as [[] ?]. by split_and!.
  - by right.
  - exact HT'.
Qed.

Lemma printDocument_next items :
  Forall okItem items -> nextChar (printDocument items ++ [kEndOfFileMarker]) true.
Proof.
  intros HF. destruct HF as [|i items Hi _]; [by right|]. unfold printDocument. cbn [map concat].
  destruct i as [[|c cs]|? ? ?|?|?]; try (by left); [by destruct Hi|].
  destruct Hi as [_ Hc]. apply Forall_cons in Hc as [Hc _]. left. unfold textChar in Hc. by bool_hyps.
Qed.

Lemma separated_textEnd cs items : separated (TextItem cs :: items) -> textEnd (printDocument items ++ [kEndOfFileMarker]) true.
Proof. destruct items as [|[] items]; intros HS; [by right|done|by left..]. Qed.

Lemma tokenize_document items t l n :
  Forall okItem items -> separated items -> resting true (printDocument items ++ [kEndOfFileMarker]) t l ->
  emptyToken (token t) -> (length items < n)%nat ->
  exists ts eof, tokenize n t l = (ts ++ [eof], EndReached) /\ Forall2 denotes items ts /\ m_type eof = EndOfFile.
Proof.
  intros HF. revert t l n. induction HF as [|i items Hi HF IH]; intros t l n HS HR HT' Hn; (destruct n as [|n]; [simpl in Hn; lia|]); cbn [tokenize].
  { destruct (nextToken_eof t l HR HT') as (t' & l' & E & HE). rewrite E. unfold typeIs. rewrite (bool_decide_eq_true_2 _ HE).
    exists [], (token t'). by split_and!. }
  unfold printDocument in HR. cbn [map concat] in HR. rewrite <- app_assoc in HR.
  destruct (nextToken_item true i _ t l Hi (printDocument_next items HF)) as (t' & l' & E & HR' & HD); [|done..|].
  { intros cs ->. by eapply separated_textEnd. }
  rewrite E. assert (HE : typeIs EndOfFile (token t') = false)
    by (apply bool_decide_eq_false; destruct i; destruct HD as [-> _]; done).
  rewrite HE. destruct (IH (onToken token_clear t') l' n) as (ts & eof & ET & HFd & HEof); try done.
  - destruct i, items as [|[] items]; done.
  - simpl in Hn. lia.
  - rewrite ET. exists (token t' :: ts), eof. split_and!; [done|by constructor|done].
Qed.

Context `{!HTMLEntityTableOk}.

(** C2: printing and tokenizing.  A document of texts, start tags with
    double-quoted attributes, end tags and comments, printed and cut into
    segments in any way, is tokenized into one token per item, with the type,
    name, attributes in order, self-closing flag and text of the item, and
    then the end-of-file token.  The text is shorter than 2^31 - 1 characters. *)
Theorem tokenize_printed_document (options : HTMLParserOptions) (items : list Item) (strs : list WTFString) (n : nat) :
  Forall okItem items -> separated items ->
  concat (map string_characters strs) = printDocument items -> countableText (printDocument items) ->
  (length items < n)%nat ->
  exists ts eof,
    tokenize n (mkTState (newHTMLTokenizer options) newHTMLToken) (markEndOfFile (input_of strs)) = (ts ++ [eof], EndReached) /\
    Forall2 denotes items ts /\ m_type eof = EndOfFile.
Proof.
  intros HF HS HE HB Hn. rewrite <- HE in HB. rewrite (tokenize_related n _ _ _ (document_reads strs HB)) by done.
  rewrite HE. by apply tokenize_document.
Qed.
End Items.

#[local] Instance plainFolding : CaseFolding := toASCIILower.

Definition sampleItems : list Item :=
  [TextItem (str "Hi "); StartTagItem (str "a") [(str "href", str "x<y"); (str "id", [])] true; CommentItem (str "c");
   EndTagItem (str "b1")].

Lemma tokenize_printed_document_witness :
  exists ts eof, tokenize 9 sampleTokenizer
      (markEndOfFile (input_of [mkString true (take 9 (printDocument sampleItems)); mkString false (drop 9 (printDocument sampleItems))]))
    = (ts ++ [eof], EndReached) /\ Forall2 denotes sampleItems ts.
Proof.
  destruct (tokenize_printed_document newHTMLParserOptions sampleItems
    [mkString true (take 9 (printDocument sampleItems)); mkString false (drop 9 (printDocument sampleItems))] 9)
    as (ts & eof & E & D & _).
  - unfold sampleItems. repeat constructor; discriminate.
  - exact I.
  - reflexivity.
  - reflexivity.
  - simpl. lia.
  - exists ts, eof. split; [exact E | exact D].
Defined.
