(* ===== verification/Region.v ===== *)
(** * Regions

    [platform/graphics/Region.{h,cpp}] and the members of [IntRect] it uses: a
    region of the plane as spans of rows, each with the sorted boundaries of
    its segments, and the set operations that merge two of them scanline by
    scanline.

    Coordinates are 32 bit integers; sums and differences are reduced with
    [int32].  An iterator over the spans is modelled by what it has left: the
    list of the vertical positions with the range between [segments_begin] and
    [segments_end]; an iterator over segments by the list of the boundaries
    that are left. *)

From S2P Require Import Prelude.
Open Scope Z_scope.

(** ** [IntRect] *)

Record IntRect := mkIntRect { rect_x : Z; rect_y : Z; rect_width : Z; rect_height : Z }.

#[global] Instance IntRect_eq_dec : EqDecision IntRect.
Proof. solve_decision. Defined.

Definition emptyRect : IntRect := mkIntRect 0 0 0 0.

Definition maxX (r : IntRect) : Z := int32 (rect_x r + rect_width r).
Definition maxY (r : IntRect) : Z := int32 (rect_y r + rect_height r).

(** [IntSize::isEmpty] *)
Definition rect_isEmpty (r : IntRect) : bool := (rect_width r <=? 0) || (rect_height r <=? 0).

Definition rect_move (dx dy : Z) (r : IntRect) : IntRect :=
  mkIntRect (int32 (rect_x r + dx)) (int32 (rect_y r + dy)) (rect_width r) (rect_height r).

Definition rect_intersects (r other : IntRect) : bool :=
  negb (rect_isEmpty r) && negb (rect_isEmpty other)
  && (rect_x r <? maxX other) && (rect_x other <? maxX r)
  && (rect_y r <? maxY other) && (rect_y other <? maxY r).

Definition rect_contains (r other : IntRect) : bool :=
  (rect_x r <=? rect_x other) && (maxX r >=? maxX other)
  && (rect_y r <=? rect_y other) && (maxY r >=? maxY other).

Definition rect_containsPoint (r : IntRect) (px py : Z) : bool :=
  (px >=? rect_x r) && (px <? maxX r) && (py >=? rect_y r) && (py <? maxY r).

Definition rect_unite (other r : IntRect) : IntRect :=
  if rect_isEmpty other then r
  else if rect_isEmpty r then other
  else
    let l := Z.min (rect_x r) (rect_x other) in
    let t := Z.min (rect_y r) (rect_y other) in
    let r' := Z.max (maxX r) (maxX other) in
    let b := Z.max (maxY r) (maxY other) in
    mkIntRect l t (int32 (r' - l)) (int32 (b - t)).

(** ** [Region::Shape] *)

Record Span := mkSpan { span_y : Z; segmentIndex : nat }.

#[global] Instance Span_eq_dec : EqDecision Span.
Proof. solve_decision. Defined.

Record Shape := mkShape { m_segments : list Z; m_spans : list Span }.

#[global] Instance Shape_eq_dec : EqDecision Shape.
Proof. solve_decision. Defined.

Definition emptyShape : Shape := mkShape [] [].

Definition shape_isEmpty (s : Shape) : bool := bool_decide (m_spans s = []).
Definition shape_isRect (s : Shape) : bool :=
  (length (m_spans s) <=? 2)%nat && (length (m_segments s) <=? 2)%nat.

(** The segments between [segments_begin] and [segments_end] of the first of
    the spans [its].  A span that has segments is followed by another one; the
    source asserts it. *)
Definition segments (s : Shape) (its : list Span) : list Z :=
  match its with
  | [] => []
  | it :: rest =>
      if (segmentIndex it =? length (m_segments s))%nat then []
      else
        let from := drop (segmentIndex it) (m_segments s) in
        match rest with
        | next :: _ => take (segmentIndex next - segmentIndex it) from
        | [] => from
        end
  end.

(** What the iterator [its] over the spans of [s] visits. *)
Fixpoint spansFrom (s : Shape) (its : list Span) : list (Z * list Z) :=
  match its with
  | [] => []
  | it :: rest => (span_y it, segments s its) :: spansFrom s rest
  end.

Definition spans (s : Shape) : list (Z * list Z) := spansFrom s (m_spans s).

Definition appendSegment (x : Z) (s : Shape) : Shape := mkShape (m_segments s ++ [x]) (m_spans s).

Definition appendSpan (y : Z) (s : Shape) : Shape :=
  mkShape (m_segments s) (m_spans s ++ [mkSpan y (length (m_segments s))]).

Definition shapeOfRect (r : IntRect) : Shape :=
  appendSpan (maxY r) (appendSegment (maxX r) (appendSegment (rect_x r) (appendSpan (rect_y r) emptyShape))).

(** The last span must have exactly these segments. *)
Definition canCoalesce (segs : list Z) (s : Shape) : bool :=
  match last (m_spans s) with
  | None => false
  | Some lastSpan =>
      let lastSegs := drop (segmentIndex lastSpan) (m_segments s) in
      if negb (length lastSegs =? length segs)%nat then false
      else bool_decide (segs = lastSegs)
  end.

Definition appendSpanWith (y : Z) (segs : list Z) (s : Shape) : Shape :=
  if canCoalesce segs s then s
  else let s := appendSpan y s in mkShape (m_segments s ++ segs) (m_spans s).

Definition appendSpans (its : list (Z * list Z)) (s : Shape) : Shape :=
  fold_left (fun s '(y, segs) => appendSpanWith y segs s) its s.

Definition shape_translate (w h : Z) (s : Shape) : Shape :=
  mkShape (map (fun x => int32 (x + w)) (m_segments s))
    (map (fun sp => mkSpan (int32 (span_y sp + h)) (segmentIndex sp)) (m_spans s)).

(** [std::numeric_limits<int>] *)
Definition INT_MAX : Z := 2 ^ 31 - 1.
Definition INT_MIN : Z := - 2 ^ 31.

(** The loop of [Shape::bounds] over all spans but the last one.  The only
    spans it leaves out are those with a null [segments_begin]; of a span
    without segments in the middle of the shape it reads [*firstSegment], the
    first boundary of the next span, and [*lastSegment], the last boundary of
    the previous one. *)
Fixpoint boundsLoop (s : Shape) (its : list Span) (minX maxX : Z) : Z * Z :=
  match its with
  | it :: ((next :: _) as rest) =>
      if (segmentIndex it =? length (m_segments s))%nat then boundsLoop s rest minX maxX
      else
        let firstSegment := nth (segmentIndex it) (m_segments s) 0 in
        let lastSegment := nth (segmentIndex next - 1) (m_segments s) 0 in
        boundsLoop s rest (if firstSegment <? minX then firstSegment else minX)
          (if lastSegment >? maxX then lastSegment else maxX)
  | _ => (minX, maxX)
  end.

Definition shape_bounds (s : Shape) : IntRect :=
  if shape_isEmpty s then emptyRect
  else
    let minY := match m_spans s with sp :: _ => span_y sp | [] => 0 end in
    let maxY := match last (m_spans s) with Some sp => span_y sp | None => 0 end in
    let '(minX, maxX) := boundsLoop s (m_spans s) INT_MAX INT_MIN in
    mkIntRect minX minY (int32 (maxX - minX)) (int32 (maxY - minY)).

(** ** [Shape::shapeOperation] *)

(** The static members of [UnionOperation], [IntersectOperation] and
    [SubtractOperation]. *)
Record Operation := mkOperation {
  opCode : Z;
  shouldAddRemainingSegmentsFromSpan1 : bool;
  shouldAddRemainingSegmentsFromSpan2 : bool;
  shouldAddRemainingSpansFromShape1 : bool;
  shouldAddRemainingSpansFromShape2 : bool;
  trySimpleOperation : Shape -> Shape -> option Shape
}.

Definition UnionOperation : Operation :=
  mkOperation 0 true true true true (fun s1 s2 => if shape_isEmpty s1 then Some s2 else None).
Definition IntersectOperation : Operation :=
  mkOperation 3 false false false false (fun _ _ => None).
Definition SubtractOperation : Operation :=
  mkOperation 1 true false true false (fun _ _ => None).

Section ShapeOperation.
Variable op : Operation.

(** The loop over the segments of two spans; every iteration drops a boundary
    from one of them, so [fuel] is the number of boundaries. *)
Fixpoint mergeSegments (fuel : nat) (s1 s2 : list Z) (oldFlag : Z) (acc : list Z) : list Z :=
  match fuel, s1, s2 with
  | S fuel, x1 :: r1, x2 :: r2 =>
      let test := int32 (x1 - x2) in
      let '(x, flag, s1) := if test <=? 0 then (x1, Z.lxor oldFlag 1, r1) else (0, oldFlag, s1) in
      let '(x, flag, s2) := if test >=? 0 then (x2, Z.lxor flag 2, r2) else (x, flag, s2) in
      let acc := if (flag =? opCode op) || (oldFlag =? opCode op) then acc ++ [x] else acc in
      mergeSegments fuel s1 s2 flag acc
  | _, _, _ =>
      if shouldAddRemainingSegmentsFromSpan1 op && negb (bool_decide (s1 = [])) then acc ++ s1
      else if shouldAddRemainingSegmentsFromSpan2 op && negb (bool_decide (s2 = [])) then acc ++ s2
      else acc
  end.

Definition combineSegments (s1 s2 : list Z) : list Z :=
  mergeSegments (length s1 + length s2) s1 s2 0 [].

(** The loop over the spans of two shapes, with the segments of the spans that
    were entered last. *)
Fixpoint mergeSpans (fuel : nat) (spans1 spans2 : list (Z * list Z)) (segments1 segments2 : list Z)
    (result : Shape) : Shape :=
  match fuel, spans1, spans2 with
  | S fuel, (y1, g1) :: r1, (y2, g2) :: r2 =>
      let test := int32 (y1 - y2) in
      let '(y, segments1, spans1) :=
        if test <=? 0 then (y1, g1, r1) else (0, segments1, spans1) in
      let '(y, segments2, spans2) :=
        if test >=? 0 then (y2, g2, r2) else (y, segments2, spans2) in
      let segs := combineSegments segments1 segments2 in
      let result :=
        if negb (bool_decide (segs = [])) || negb (shape_isEmpty result)
        then appendSpanWith y segs result else result in
      mergeSpans fuel spans1 spans2 segments1 segments2 result
  | _, _, _ =>
      if shouldAddRemainingSpansFromShape1 op && negb (bool_decide (spans1 = []))
      then appendSpans spans1 result
      else if shouldAddRemainingSpansFromShape2 op && negb (bool_decide (spans2 = []))
      then appendSpans spans2 result
      else result
  end.

Definition shapeOperation (shape1 shape2 : Shape) : Shape :=
  match trySimpleOperation op shape1 shape2 with
  | Some result => result
  | None =>
      mergeSpans (length (m_spans shape1) + length (m_spans shape2))
        (spans shape1) (spans shape2) [] [] emptyShape
  end.
End ShapeOperation.

Definition unionShapes : Shape -> Shape -> Shape := shapeOperation UnionOperation.
Definition intersectShapes : Shape -> Shape -> Shape := shapeOperation IntersectOperation.
Definition subtractShapes : Shape -> Shape -> Shape := shapeOperation SubtractOperation.

(** ** [Shape::compareShapes] *)

(** The operations return [Some] of the result to stop with. *)
Record CompareOperation := mkCompareOperation {
  defaultResult : bool;
  aOutsideB : option bool;
  bOutsideA : option bool;
  aOverlapsB : option bool
}.

Definition CompareContainsOperation : CompareOperation := mkCompareOperation true None (Some false) None.
Definition CompareIntersectsOperation : CompareOperation := mkCompareOperation false None None (Some true).

Section CompareShapes.
Variable op : CompareOperation.

(** [if (condition && operation(result)) return result;] *)
Definition stopIf (b : bool) (o : option bool) (k : option bool) : option bool :=
  match o with Some r => if b then Some r else k | None => k end.

(** The loop over the segments of overlapping spans. *)
Fixpoint compareSegments (fuel : nat) (a b : list Z) : option bool :=
  match fuel, a, b with
  | S fuel, aX :: aMaxX :: ra, bX :: bMaxX :: rb =>
      stopIf ((bMaxX >? aX) && (bX <? aMaxX)) (aOverlapsB op)
      (stopIf (aX <? bX) (aOutsideB op)
      (stopIf (bX <? aX) (bOutsideA op)
      (if aMaxX <? bMaxX then compareSegments fuel ra b
       else if bMaxX <? aMaxX then compareSegments fuel a rb
       else compareSegments fuel ra rb)))
  | _, _, _ =>
      stopIf (negb (bool_decide (a = []))) (aOutsideB op)
      (stopIf (negb (bool_decide (b = []))) (bOutsideA op) None)
  end.

Fixpoint compareSpans (fuel : nat) (a b : list (Z * list Z)) (aHad bHad : bool) : bool :=
  match fuel, a, b with
  | S fuel, (aY, aSegs) :: (((aMaxY, _) :: _) as ra), (bY, bSegs) :: (((bMaxY, _) :: _) as rb) =>
      let aHas := negb (bool_decide (aSegs = [])) in
      let bHas := negb (bool_decide (bSegs = [])) in
      let stop :=
        stopIf ((aY <? bY) && negb bHad && aHas) (aOutsideB op)
        (stopIf ((bY <? aY) && negb aHad && bHas) (bOutsideA op)
        (if (bMaxY >? aY) && (bY <? aMaxY)
         then compareSegments (length aSegs + length bSegs) aSegs bSegs else None)) in
      match stop with
      | Some result => result
      | None =>
          if aMaxY <? bMaxY then compareSpans fuel ra b aHas bHas
          else if bMaxY <? aMaxY then compareSpans fuel a rb aHas bHas
          else compareSpans fuel ra rb aHas bHas
      end
  | _, _, _ =>
      match stopIf (1 <? length a)%nat (aOutsideB op)
              (stopIf (1 <? length b)%nat (bOutsideA op) None) with
      | Some result => result
      | None => defaultResult op
      end
  end.

Definition compareShapes (aShape bShape : Shape) : bool :=
  compareSpans (length (m_spans aShape) + length (m_spans bShape)) (spans aShape) (spans bShape) false false.
End CompareShapes.

(** ** [Region] *)

Record Region := mkRegion { m_bounds : IntRect; m_shape : Shape }.

#[global] Instance Region_eq_dec : EqDecision Region.
Proof. solve_decision. Defined.

Definition emptyRegion : Region := mkRegion emptyRect emptyShape.
Definition regionOfRect (r : IntRect) : Region := mkRegion r (shapeOfRect r).

Definition region_isEmpty (r : Region) : bool := rect_isEmpty (m_bounds r).
Definition region_isRect (r : Region) : bool := shape_isRect (m_shape r).

(** The pairs of boundaries of a span. *)
Fixpoint segmentRects (y height : Z) (segs : list Z) : list IntRect :=
  match segs with
  | x :: mx :: rest => mkIntRect x y (int32 (mx - x)) height :: segmentRects y height rest
  | _ => []
  end.

Fixpoint rectsLoop (its : list (Z * list Z)) : list IntRect :=
  match its with
  | (y, segs) :: (((y', _) :: _) as rest) => segmentRects y (int32 (y' - y)) segs ++ rectsLoop rest
  | _ => []
  end.

Definition rects (r : Region) : list IntRect := rectsLoop (spans (m_shape r)).

Definition totalArea (r : Region) : Z :=
  fold_left (fun total rect => uint32 (total + int32 (rect_width rect * rect_height rect))) (rects r) 0.

Definition region_contains (r region : Region) : bool :=
  if negb (rect_contains (m_bounds r) (m_bounds region)) then false
  else compareShapes CompareContainsOperation (m_shape r) (m_shape region).

Definition region_intersects (r region : Region) : bool :=
  if negb (rect_intersects (m_bounds r) (m_bounds region)) then false
  else compareShapes CompareIntersectsOperation (m_shape r) (m_shape region).

Fixpoint segmentsContain (px : Z) (segs : list Z) : bool :=
  match segs with
  | x :: mx :: rest => if x >? px then false else if mx >? px then true else segmentsContain px rest
  | _ => false
  end.

Fixpoint spansContain (px py : Z) (its : list (Z * list Z)) : bool :=
  match its with
  | (y, segs) :: (((my, _) :: _) as rest) =>
      if y >? py then false
      else if my <=? py then spansContain px py rest
      else if segmentsContain px segs then true
      else spansContain px py rest
  | _ => false
  end.

Definition region_containsPoint (r : Region) (px py : Z) : bool :=
  if negb (rect_containsPoint (m_bounds r) px py) then false
  else spansContain px py (spans (m_shape r)).

Definition region_intersect (region r : Region) : Region :=
  if rect_isEmpty (m_bounds r) then r
  else if negb (rect_intersects (m_bounds r) (m_bounds region)) then emptyRegion
  else
    let shape := intersectShapes (m_shape r) (m_shape region) in
    mkRegion (shape_bounds shape) shape.

Definition region_unite (region r : Region) : Region :=
  if region_isEmpty region then r
  else if region_isRect r && rect_contains (m_bounds r) (m_bounds region) then r
  else if region_isRect region && rect_contains (m_bounds region) (m_bounds r) then region
  else if negb (region_isRect r) && region_contains r region then r
  else mkRegion (rect_unite (m_bounds region) (m_bounds r)) (unionShapes (m_shape r) (m_shape region)).

Definition region_subtract (region r : Region) : Region :=
  if rect_isEmpty (m_bounds r) then r
  else if region_isEmpty region then r
  else if negb (rect_intersects (m_bounds r) (m_bounds region)) then r
  else
    let shape := subtractShapes (m_shape r) (m_shape region) in
    mkRegion (shape_bounds shape) shape.

Definition region_translate (w h : Z) (r : Region) : Region :=
  mkRegion (rect_move w h (m_bounds r)) (shape_translate w h (m_shape r)).
