(* ===== verification/RegionRows.v ===== *)
(** * Sorted boundaries and rows

    The mathematics under [Region.v]: a span is a sorted list of boundaries and
    denotes a set of columns, a shape is a sorted list of rows and denotes a set
    of points.  The layout of the two vectors of a [Shape] is related to the
    list of rows it stands for, and the loops over segments and spans are
    proved to compute the pointwise operations on these sets. *)

From S2P Require Import Prelude Region.
Open Scope Z_scope.

(** Coordinates whose differences fit in an [int]. *)
Definition coord (z : Z) : Prop := - 2 ^ 30 <= z < 2 ^ 30.

Create HintDb region.

(** ** Boundaries *)

(** The side of the boundaries [l] the column [x] is on, when the columns
    before the first one are on the side [b]. *)
Fixpoint sideFrom (b : bool) (l : list Z) (x : Z) : bool :=
  match l with
  | [] => b
  | x0 :: rest => if x <? x0 then b else sideFrom (negb b) rest x
  end.

(** The columns between the first and second, third and fourth, ... boundary. *)
Abbreviation inSegs := (sideFrom false).

Fixpoint boundaries (m : Z) (l : list Z) : Prop :=
  match l with
  | [] => True
  | x :: rest => m < x /\ coord x /\ boundaries x rest
  end.

(** Strictly increasing boundaries that end what they begin. *)
Definition okSegs (l : list Z) : Prop :=
  boundaries (- 2 ^ 31) l /\ Nat.even (length l) = true.

Lemma boundaries_le m m' l : m' <= m -> boundaries m l -> boundaries m' l.
Proof. destruct l; simpl; intuition lia. Qed.

Lemma side_before b m l x : boundaries m l -> x <= m -> sideFrom b l x = b.
Proof. destruct l as [|x0 l]; simpl; intros H Hx; [done|]. by rewrite (proj2 (Z.ltb_lt x x0)) by lia. Qed.

Lemma side_neg b l x : sideFrom (negb b) l x = negb (sideFrom b l x).
Proof. revert b. induction l as [|x0 l IH]; intros b; simpl; [done|]. rewrite IH. by destruct (x <? x0). Qed.

(** Far to the right the side is given by the number of boundaries. *)
Lemma side_after b m l : boundaries m l -> sideFrom b l (2 ^ 31) = xorb b (Nat.odd (length l)).
Proof.
  revert b m. induction l as [|x l IH]; intros b m; cbn [sideFrom boundaries length].
  { by rewrite xorb_false_r. }
  intros (_ & Hx & Hl). rewrite (proj2 (Z.ltb_ge _ x)) by (unfold coord in Hx; lia).
  rewrite (IH _ x Hl), Nat.odd_succ, <- Nat.negb_odd. by destruct b, (Nat.odd _).
Qed.

Lemma even_iff_outside m l : boundaries m l -> Nat.even (length l) = negb (inSegs l (2 ^ 31)).
Proof. intros H. rewrite (side_after false m l H), <- Nat.negb_odd. by destruct (Nat.odd _). Qed.

(** Boundaries are determined by the set they delimit. *)
Lemma boundaries_canonical m b l l' :
  boundaries m l -> boundaries m l' -> (forall x, sideFrom b l x = sideFrom b l' x) -> l = l'.
Proof.
  revert m b l'. induction l as [|x l IH]; intros m b [|x' l']; cbn [boundaries]; intros Hl Hl' E.
  - done.
  - exfalso. destruct Hl' as (_ & _ & Hl'). specialize (E x'). cbn in E.
    rewrite Z.ltb_irrefl, (side_before _ x') in E by (done || lia). by destruct b.
  - exfalso. destruct Hl as (_ & _ & Hl). specialize (E x). cbn in E.
    rewrite Z.ltb_irrefl, (side_before _ x) in E by (done || lia). by destruct b.
  - destruct Hl as (Hm & _ & Hl), Hl' as (Hm' & _ & Hl').
    assert (x = x') as <-.
    { destruct (Z.lt_trichotomy x x') as [Hlt|[?|Hlt]]; [exfalso|done|exfalso].
      - specialize (E x). cbn in E. rewrite Z.ltb_irrefl, (side_before _ x), (proj2 (Z.ltb_lt x x')) in E
          by (done || lia). by destruct b.
      - specialize (E x'). cbn in E. rewrite Z.ltb_irrefl, (side_before _ x' l'), (proj2 (Z.ltb_lt x' x)) in E
          by (done || lia). by destruct b. }
    f_equal. apply (IH x (negb b)); [done|done|]. intros z. specialize (E z). cbn in E.
    destruct (z <? x) eqn:Ez; [|done]. bool_hyps.
    by rewrite !(side_before _ x) by (done || lia).
Qed.

Lemma okSegs_canonical l l' : okSegs l -> okSegs l' -> (forall x, inSegs l x = inSegs l' x) -> l = l'.
Proof. intros [H _] [H' _]. by eapply boundaries_canonical. Qed.

Lemma okSegs_nil : okSegs [].
Proof. by split. Qed.

(** The first pair of boundaries and the others. *)
Lemma inSegs_pair m x mx l p :
  boundaries m (x :: mx :: l) -> inSegs (x :: mx :: l) p = (x <=? p) && (p <? mx) || inSegs l p.
Proof.
  cbn [boundaries]. intros (_ & _ & Hx & _ & Hl). cbn [sideFrom negb].
  destruct (p <? x) eqn:E1, (x <=? p) eqn:E2, (p <? mx) eqn:E3; bool_hyps; try lia; simpl; try done;
    try (by rewrite (side_before _ mx) by (done || lia)).
Qed.

Lemma okSegs_pair x l : okSegs (x :: l) -> exists mx rest,
  l = mx :: rest /\ boundaries (- 2 ^ 31) (x :: mx :: rest) /\ x < mx /\ okSegs rest /\ boundaries mx rest.
Proof.
  intros [Hb He]. destruct l as [|mx rest]; [done|]. exists mx, rest.
  pose proof Hb as (_ & Hcx & Hx & Hc & Hr). split_and!; [done|done|done| |done].
  split; [|exact He]. eapply boundaries_le; [|exact Hr]. unfold coord in *. lia.
Qed.

(** A span with boundaries has a column. *)
Lemma okSegs_witness x l : okSegs (x :: l) -> inSegs (x :: l) x = true.
Proof.
  intros (mx & rest & -> & Hb & Hx & _)%okSegs_pair. rewrite (inSegs_pair _ _ _ _ _ Hb).
  rewrite (proj2 (Z.leb_le x x)), (proj2 (Z.ltb_lt x mx)) by lia. done.
Qed.

(** Crossing a boundary. *)
Lemma side_step b x l z : x <= z -> sideFrom b (x :: l) z = sideFrom (negb b) l z.
Proof. intros H. cbn [sideFrom]. by rewrite (proj2 (Z.ltb_ge z x)). Qed.

#[export] Hint Resolve side_step : region.

(** ** Merging boundaries *)

(** The flag of the loop: which of the two spans the current column is in. *)
Definition flagOf (b1 b2 : bool) : Z := Z.b2z b1 + 2 * Z.b2z b2.

Lemma flag_flip1 b1 b2 : Z.lxor (flagOf b1 b2) 1 = flagOf (negb b1) b2.
Proof. by destruct b1, b2. Qed.
Lemma flag_flip2 b1 b2 : Z.lxor (flagOf b1 b2) 2 = flagOf b1 (negb b2).
Proof. by destruct b1, b2. Qed.
Lemma flag_inj a1 a2 b1 b2 : flagOf a1 a2 = flagOf b1 b2 -> a1 = b1 /\ a2 = b2.
Proof. by destruct a1, a2, b1, b2. Qed.

Section Merge.
Variable op : Operation.

(** The operation on memberships [op] stands for: the columns whose flag
    compares with the operation code as the flag of the outside does not. *)
Definition opFun (b1 b2 : bool) : bool := xorb (flagOf b1 b2 =? opCode op) (0 =? opCode op).

(** What is left of one span when the other has ended. *)
Record OperationOk : Prop := {
  rest_segments1 b : opFun b false = shouldAddRemainingSegmentsFromSpan1 op && b;
  rest_segments2 b : opFun false b = shouldAddRemainingSegmentsFromSpan2 op && b;
  rest_spans1 b : opFun b false = shouldAddRemainingSpansFromShape1 op && b;
  rest_spans2 b : opFun false b = shouldAddRemainingSpansFromShape2 op && b
}.

Hypothesis Hop : OperationOk.

Lemma mergeSegments_acc fuel s1 s2 flag acc :
  mergeSegments op fuel s1 s2 flag acc = acc ++ mergeSegments op fuel s1 s2 flag [].
Proof.
  revert s1 s2 flag acc.
  assert (Hend : forall (s1 s2 acc : list Z) (a1 a2 : bool),
    (if a1 && negb (bool_decide (s1 = [])) then acc ++ s1
     else if a2 && negb (bool_decide (s2 = [])) then acc ++ s2 else acc)
    = acc ++ (if a1 && negb (bool_decide (s1 = [])) then [] ++ s1
              else if a2 && negb (bool_decide (s2 = [])) then [] ++ s2 else [])).
  { intros s1 s2 acc a1 a2. repeat case_match; simpl; by rewrite ?app_nil_r. }
  induction fuel as [|fuel IH]; intros s1 s2 flag acc; [apply Hend|].
  destruct s1 as [|x1 r1], s2 as [|x2 r2]; try apply Hend.
  cbn [mergeSegments]. repeat case_match; rewrite IH; try done; rewrite (IH _ _ _ ([] ++ _)); by rewrite <- app_assoc.
Qed.

(** The columns [merge] yields, and that its boundaries are sorted. *)
Definition mergedOk m (b1 b2 : bool) (s1 s2 r : list Z) : Prop :=
  boundaries m r /\
  forall x, sideFrom (opFun b1 b2) r x = opFun (sideFrom b1 s1 x) (sideFrom b2 s2 x).

(** One iteration that emits the boundary [x] if it is one of the result. *)
Lemma merged_step m b1 b2 b1' b2' s1 s2 s1' s2' r x :
  m < x -> coord x -> (b1, b2) <> (b1', b2') ->
  boundaries (x - 1) s1 -> boundaries (x - 1) s2 -> 
  (forall z, x <= z -> sideFrom b1 s1 z = sideFrom b1' s1' z) ->
  (forall z, x <= z -> sideFrom b2 s2 z = sideFrom b2' s2' z) ->
  mergedOk x b1' b2' s1' s2' r ->
  mergedOk m b1 b2 s1 s2
    ((if (flagOf b1' b2' =? opCode op) || (flagOf b1 b2 =? opCode op) then [x] else []) ++ r).
Proof.
  intros Hm Hc Hne Hs1 Hs2 E1 E2 [Hb Hr].
  destruct (flagOf b1' b2' =? opCode op) eqn:F', (flagOf b1 b2 =? opCode op) eqn:F; simpl.
  1: { exfalso. bool_hyps. rewrite <- F' in F. apply flag_inj in F as [-> ->]. done. }
  3: { split; [eapply boundaries_le; [|exact Hb]; lia|]. intros z.
       destruct (Z.le_gt_cases x z) as [Hz|Hz].
       - rewrite E1, E2, <- Hr by done. unfold opFun. by rewrite F, F'.
       - rewrite (side_before _ x r), (side_before _ _ _ _ Hs1), (side_before _ _ _ _ Hs2) by (done || lia). done. }
  all: split; [by split_and!|]; intros z; cbn [sideFrom]; destruct (Z.ltb_spec z x).
  1, 3: by rewrite (side_before _ _ _ _ Hs1), (side_before _ _ _ _ Hs2) by lia.
  all: rewrite E1, E2, <- Hr by done; unfold opFun; rewrite F, F'; by destruct (0 =? opCode op).
Qed.

Lemma merged_rest1 m b1 s1 :
  boundaries m s1 ->
  mergedOk m b1 false s1 [] (if shouldAddRemainingSegmentsFromSpan1 op then s1 else []).
Proof.
  intros H. split; [by case_match|]. intros x. cbn [sideFrom].
  rewrite !(rest_segments1 Hop). by case_match.
Qed.

Lemma merged_rest2 m b2 s2 :
  boundaries m s2 ->
  mergedOk m false b2 [] s2 (if shouldAddRemainingSegmentsFromSpan2 op then s2 else []).
Proof.
  intros H. split; [by case_match|]. intros x. cbn [sideFrom].
  rewrite !(rest_segments2 Hop). by case_match.
Qed.

Lemma mergeSegments_nil1 fuel s2 flag :
  mergeSegments op fuel [] s2 flag [] = if shouldAddRemainingSegmentsFromSpan2 op then s2 else [].
Proof.
  destruct fuel; cbn [mergeSegments]; rewrite bool_decide_true, andb_false_r by done; simpl; destruct s2;
    repeat case_match; bool_hyps; try done; by rewrite ?andb_false_r in *.
Qed.

Lemma mergeSegments_nil2 fuel s1 flag :
  mergeSegments op fuel s1 [] flag [] = if shouldAddRemainingSegmentsFromSpan1 op then s1 else [].
Proof.
  destruct fuel, s1; cbn [mergeSegments]; rewrite ?(bool_decide_true ([] = [])), ?andb_false_r by done; simpl;
    repeat case_match; bool_hyps; try done; by rewrite ?andb_true_r in *.
Qed.

Lemma mergeSegments_ok fuel m s1 s2 b1 b2 :
  (length s1 + length s2 <= fuel)%nat -> boundaries m s1 -> boundaries m s2 ->
  sideFrom b1 s1 (2 ^ 31) = false -> sideFrom b2 s2 (2 ^ 31) = false ->
  mergedOk m b1 b2 s1 s2 (mergeSegments op fuel s1 s2 (flagOf b1 b2) []).
Proof.
  revert m s1 s2 b1 b2. induction fuel as [|fuel IH]; intros m [|x1 r1] [|x2 r2] b1 b2 Hf H1 H2 T1 T2;
    cbn [sideFrom length] in *; try lia; subst;
    try (rewrite mergeSegments_nil1; by apply merged_rest2);
    try (rewrite mergeSegments_nil2; by apply merged_rest1).
  cbn [boundaries] in H1, H2. destruct H1 as (Hm1 & Hc1 & H1), H2 as (Hm2 & Hc2 & H2).
  cbn [mergeSegments]. rewrite int32_id by (unfold coord in *; lia).
  rewrite (proj2 (Z.ltb_ge _ x1)) in T1 by (unfold coord in *; lia).
  rewrite (proj2 (Z.ltb_ge _ x2)) in T2 by (unfold coord in *; lia).
  assert (Hle : forall z w r, z <= w -> coord w -> boundaries w r -> boundaries (z - 1) (w :: r)).
  { intros z w r ???. split_and!; [lia|done|done]. }
  destruct (Z.leb_spec (x1 - x2) 0), (Z.geb_spec (x1 - x2) 0); try lia; simpl;
    rewrite ?flag_flip1, ?flag_flip2, mergeSegments_acc.
  - assert (x1 = x2) as <- by lia.
    apply (merged_step m b1 b2 (negb b1) (negb b2) _ _ r1 r2); auto with region lia. by destruct b1.
  - apply (merged_step m b1 b2 (negb b1) b2 _ _ r1 (x2 :: r2)); auto with region lia; [by destruct b1|].
    apply IH; simpl; try (done || lia); [split_and!; (done || lia)|].
    by rewrite (proj2 (Z.ltb_ge _ x2)) by (unfold coord in *; lia).
  - apply (merged_step m b1 b2 b1 (negb b2) _ _ (x1 :: r1) r2); auto with region lia; [by destruct b2|].
    apply IH; simpl; try (done || lia); [split_and!; (done || lia)|].
    by rewrite (proj2 (Z.ltb_ge _ x1)) by (unfold coord in *; lia).
Qed.

(** Combining two spans. *)
Lemma combineSegments_ok s1 s2 :
  okSegs s1 -> okSegs s2 -> okSegs (combineSegments op s1 s2) /\
  forall x, inSegs (combineSegments op s1 s2) x = opFun (inSegs s1 x) (inSegs s2 x).
Proof.
  intros [H1 E1] [H2 E2].
  pose proof (even_iff_outside _ _ H1) as O1. pose proof (even_iff_outside _ _ H2) as O2.
  rewrite E1 in O1. rewrite E2 in O2. symmetry in O1, O2. bool_hyps.
  assert (F : opFun false false = false) by (rewrite (rest_segments1 Hop); apply andb_false_r).
  destruct (mergeSegments_ok (length s1 + length s2) (- 2 ^ 31) s1 s2 false false) as [Hb Hx]; [lia|done..|].
  rewrite F in Hx. unfold combineSegments. change 0 with (flagOf false false).
  split; [|exact Hx]. split; [exact Hb|]. by rewrite (even_iff_outside _ _ Hb), Hx, O1, O2, F.
Qed.

Lemma combineSegments_nil1 s2 :
  combineSegments op [] s2 = if shouldAddRemainingSegmentsFromSpan2 op then s2 else [].
Proof. apply mergeSegments_nil1. Qed.

Lemma combineSegments_nil2 s1 :
  combineSegments op s1 [] = if shouldAddRemainingSegmentsFromSpan1 op then s1 else [].
Proof. apply mergeSegments_nil2. Qed.
End Merge.

Lemma UnionOperation_ok : OperationOk UnionOperation.
Proof. by split; intros []. Qed.
Lemma IntersectOperation_ok : OperationOk IntersectOperation.
Proof. by split; intros []. Qed.
Lemma SubtractOperation_ok : OperationOk SubtractOperation.
Proof. by split; intros []. Qed.

(** ** Rows *)

Abbreviation Rows := (list (Z * list Z)).

(** The segments of the row [y], when those of the rows before the first one
    are [cur]. *)
Fixpoint rowFrom (cur : list Z) (l : Rows) (y : Z) : list Z :=
  match l with
  | [] => cur
  | (y0, g) :: rest => if y <? y0 then cur else rowFrom g rest y
  end.

Definition inRows (l : Rows) (x y : Z) : bool := inSegs (rowFrom [] l y) x.

(** Rows strictly below [m], each different from the one above, the last one
    without segments. *)
Fixpoint rowsFrom (m : Z) (cur : list Z) (l : Rows) : Prop :=
  match l with
  | [] => cur = []
  | (y, g) :: rest => m < y /\ coord y /\ okSegs g /\ g <> cur /\ rowsFrom y g rest
  end.

Definition okRows (l : Rows) : Prop := rowsFrom (- 2 ^ 31) [] l.

Lemma rowsFrom_le m m' cur l : m' <= m -> rowsFrom m cur l -> rowsFrom m' cur l.
Proof. destruct l as [|[y g] l]; simpl; intuition lia. Qed.

Lemma row_before m cur l y : rowsFrom m cur l -> y <= m -> rowFrom cur l y = cur.
Proof. destruct l as [|[y0 g] l]; simpl; intros H Hy; [done|]. by rewrite (proj2 (Z.ltb_lt y y0)) by lia. Qed.

Lemma rowFrom_ok m cur l y : okSegs cur -> rowsFrom m cur l -> okSegs (rowFrom cur l y).
Proof.
  revert m cur. induction l as [|[y0 g] l IH]; simpl; intros m cur Hc; [done|].
  intros (_ & _ & Hg & _ & Hl). case_match; [done|]. eauto.
Qed.

Lemma row_first cur y g l z : z < y -> rowFrom cur ((y, g) :: l) z = cur.
Proof. intros H. cbn [rowFrom]. by rewrite (proj2 (Z.ltb_lt z y)). Qed.

Lemma row_step cur y g l z : y <= z -> rowFrom cur ((y, g) :: l) z = rowFrom g l z.
Proof. intros H. cbn [rowFrom]. by rewrite (proj2 (Z.ltb_ge z y)). Qed.

#[export] Hint Resolve row_first row_step : region.

(** Rows are determined by the set of points they denote. *)
Lemma rows_canonical m cur l l' :
  okSegs cur -> rowsFrom m cur l -> rowsFrom m cur l' ->
  (forall x y, inSegs (rowFrom cur l y) x = inSegs (rowFrom cur l' y) x) -> l = l'.
Proof.
  intros Hc Hl Hl' E.
  assert (E' : forall y, rowFrom cur l y = rowFrom cur l' y).
  { intros y. apply okSegs_canonical; [by eapply rowFrom_ok..|]. intros x. apply E. }
  clear E. revert m cur l' Hc Hl Hl' E'.
  induction l as [|[y g] l IH]; intros m cur [|[y' g'] l'] Hc Hl Hl' E; cbn [rowsFrom] in Hl, Hl'.
  - done.
  - exfalso. destruct Hl' as (_ & _ & _ & Hne & Hl'). specialize (E y'). cbn in E.
    by rewrite Z.ltb_irrefl, (row_before _ _ _ _ Hl') in E by lia.
  - exfalso. destruct Hl as (_ & _ & _ & Hne & Hl). specialize (E y). cbn in E.
    by rewrite Z.ltb_irrefl, (row_before _ _ _ _ Hl) in E by lia.
  - destruct Hl as (_ & _ & Hg & Hne & Hl), Hl' as (_ & _ & _ & Hne' & Hl').
    pose proof (E y) as E1. pose proof (E y') as E2. cbn in E1, E2.
    rewrite Z.ltb_irrefl, (row_before _ _ _ _ Hl) in E1 by lia.
    rewrite Z.ltb_irrefl, (row_before _ _ _ _ Hl') in E2 by lia.
    destruct (Z.ltb_spec y y'); [done|]. destruct (Z.ltb_spec y' y); [done|].
    assert (y = y') as <- by lia. rewrite (row_before _ _ _ _ Hl') in E1 by lia. subst g'.
    f_equal. apply (IH y g); [done..|]. intros z. specialize (E z). cbn in E.
    destruct (Z.ltb_spec z y); [|done].
    by rewrite (row_before _ _ _ _ Hl), (row_before _ _ _ _ Hl') by lia.
Qed.

(** ** The layout of a shape *)

Fixpoint layoutFrom (n : nat) (l : Rows) : list Span :=
  match l with
  | [] => []
  | (y, g) :: rest => mkSpan y n :: layoutFrom (n + length g) rest
  end.

Definition rowSegments (l : Rows) : list Z := concat (map snd l).

(** The shape that stores the rows [l]. *)
Definition shapeFrom (l : Rows) : Shape := mkShape (rowSegments l) (layoutFrom 0 l).

(** The segments of the last row, none if there is no row. *)
Definition lastRow (l : Rows) : list Z := default [] (snd <$> last l).

Lemma rowSegments_app l l' : rowSegments (l ++ l') = rowSegments l ++ rowSegments l'.
Proof. unfold rowSegments. by rewrite map_app, concat_app. Qed.

Lemma rowSegments_snoc l y g : rowSegments (l ++ [(y, g)]) = rowSegments l ++ g.
Proof. rewrite rowSegments_app. unfold rowSegments at 2. cbn. by rewrite app_nil_r. Qed.

Lemma layoutFrom_app n l l' :
  layoutFrom n (l ++ l') = layoutFrom n l ++ layoutFrom (n + length (rowSegments l)) l'.
Proof.
  revert n. induction l as [|[y g] l IH]; intros n; simpl; [by rewrite Nat.add_0_r|].
  rewrite IH. change (rowSegments ((y, g) :: l)) with (g ++ rowSegments l).
  rewrite length_app. do 3 f_equal. lia.
Qed.

Lemma layoutFrom_length n l : length (layoutFrom n l) = length l.
Proof. revert n. induction l as [|[y g] l IH]; intros n; simpl; auto. Qed.

Lemma layoutFrom_nil n l : layoutFrom n l = [] <-> l = [].
Proof. destruct l as [|[y g] l]; simpl; split; congruence. Qed.

Lemma spansFrom_layout pre l sp :
  spansFrom (mkShape (pre ++ rowSegments l) sp) (layoutFrom (length pre) l) = l.
Proof.
  revert pre. induction l as [|[y g] l IH]; intros pre; [done|].
  cbn [layoutFrom spansFrom span_y]. change (rowSegments ((y, g) :: l)) with (g ++ rowSegments l).
  rewrite (app_assoc pre), <- length_app, IH. f_equal. f_equal.
  cbn [segments segmentIndex m_segments]. rewrite <- app_assoc, drop_app_length.
  destruct (Nat.eqb_spec (length pre) (length (pre ++ g ++ rowSegments l))) as [E|E].
  - rewrite !length_app in E. destruct g; [done|simpl in E; lia].
  - destruct l as [|[y' g'] l]; cbn [layoutFrom segmentIndex].
    + by rewrite app_nil_r.
    + rewrite length_app. replace (length pre + length g - length pre)%nat with (length g) by lia.
      by rewrite take_app_length.
Qed.

(** Iterating over a shape visits its rows. *)
Lemma spans_shapeFrom l : spans (shapeFrom l) = l.
Proof. apply (spansFrom_layout []). Qed.

Lemma last_layout l : last (layoutFrom 0 l) =
  (fun '(y, g) => mkSpan y (length (rowSegments l) - length g)) <$> last l.
Proof.
  destruct l as [|[y g] l _] using rev_ind; [done|].
  rewrite layoutFrom_app, !last_snoc. cbn [layoutFrom]. rewrite rowSegments_snoc, length_app.
  cbn. by rewrite last_snoc, Nat.add_sub.
Qed.

Lemma canCoalesce_iff g l : canCoalesce g (shapeFrom l) = true <-> snd <$> last l = Some g.
Proof.
  unfold canCoalesce. cbn [shapeFrom m_spans m_segments]. rewrite last_layout.
  destruct l as [|[y g'] l _] using rev_ind; [done|].
  rewrite last_snoc, rowSegments_snoc, length_app. simpl.
  replace (length (rowSegments l) + length g' - length g')%nat with (length (rowSegments l)) by lia.
  rewrite drop_app_length. destruct (Nat.eqb_spec (length g') (length g)) as [E|E]; simpl.
  - rewrite bool_decide_eq_true. split; congruence.
  - split; [done|]. intros [= ->]. done.
Qed.

(** Appending a span adds a row unless it continues the last one. *)
Lemma appendSpanWith_shapeFrom y g l :
  appendSpanWith y g (shapeFrom l) =
  shapeFrom (if bool_decide (snd <$> last l = Some g) then l else l ++ [(y, g)]).
Proof.
  unfold appendSpanWith. case_bool_decide as E.
  - by rewrite (proj2 (canCoalesce_iff g l) E).
  - destruct (canCoalesce g (shapeFrom l)) eqn:C; [by apply canCoalesce_iff in C|].
    unfold shapeFrom, appendSpan. cbn [m_segments m_spans].
    by rewrite rowSegments_snoc, layoutFrom_app.
Qed.

(** The rows that follow [l] are appended as they are. *)
Lemma appendSpans_shapeFrom m l l' :
  rowsFrom m (lastRow l) l' -> appendSpans l' (shapeFrom l) = shapeFrom (l ++ l').
Proof.
  revert m l. induction l' as [|[y g] l' IH]; intros m l H; cbn [appendSpans fold_left].
  { by rewrite app_nil_r. }
  destruct H as (_ & _ & _ & Hne & H). rewrite appendSpanWith_shapeFrom, bool_decide_false.
  - change (fold_left _ l' ?s) with (appendSpans l' s). rewrite (IH y (l ++ [(y, g)])).
    + by rewrite <- app_assoc.
    + unfold lastRow. by rewrite last_snoc.
  - intros E. apply Hne. unfold lastRow. by rewrite E.
Qed.

(** ** Merging rows *)

(** Adding a row to a result that may still be empty. *)
Lemma push_row y g r :
  (if negb (bool_decide (g = [])) || negb (shape_isEmpty (shapeFrom r))
   then appendSpanWith y g (shapeFrom r) else shapeFrom r)
  = shapeFrom (if bool_decide (g = lastRow r) then r else r ++ [(y, g)]).
Proof.
  unfold shape_isEmpty. cbn [shapeFrom m_spans]. rewrite appendSpanWith_shapeFrom.
  rewrite (bool_decide_ext (layoutFrom 0 r = []) (r = [])) by apply layoutFrom_nil.
  destruct r as [|[y0 g0] r _] using rev_ind; unfold lastRow.
  - rewrite (bool_decide_true ([] = [])) by done. cbn. repeat case_bool_decide; simpl; congruence.
  - rewrite last_snoc, (bool_decide_false (r ++ [(y0, g0)] = [])) by (by destruct r).
    rewrite orb_true_r. simpl. f_equal.
    by rewrite (bool_decide_ext (Some g0 = Some g) (g = g0)) by (split; congruence).
Qed.

Section MergeSpans.
Variable op : Operation.
Hypothesis Hop : OperationOk op.

Abbreviation F := (opFun op).
Abbreviation combine := (combineSegments op).

(** [t] are the rows of the combination of [l1] below [c1] and [l2] below [c2]. *)
Definition combined m (c1 c2 : list Z) (l1 l2 t : Rows) : Prop :=
  rowsFrom m (combine c1 c2) t /\
  forall x y, inSegs (rowFrom (combine c1 c2) t y) x = F (inSegs (rowFrom c1 l1 y) x) (inSegs (rowFrom c2 l2 y) x).

(** One iteration: the row [y], where the spans become [d1] and [d2]. *)
Lemma combined_step m c1 c2 d1 d2 l1 l2 l1' l2' y t :
  m < y -> coord y -> okSegs c1 -> okSegs c2 -> okSegs d1 -> okSegs d2 ->
  (forall z, z < y -> rowFrom c1 l1 z = c1) -> (forall z, y <= z -> rowFrom c1 l1 z = rowFrom d1 l1' z) ->
  (forall z, z < y -> rowFrom c2 l2 z = c2) -> (forall z, y <= z -> rowFrom c2 l2 z = rowFrom d2 l2' z) ->
  combined y d1 d2 l1' l2' t ->
  combined m c1 c2 l1 l2 ((if bool_decide (combine d1 d2 = combine c1 c2) then [] else [(y, combine d1 d2)]) ++ t).
Proof.
  intros Hm Hc Hc1 Hc2 Hd1 Hd2 A1 B1 A2 B2 [Ht Hp].
  destruct (combineSegments_ok op Hop c1 c2 Hc1 Hc2) as [Ok Pt].
  destruct (combineSegments_ok op Hop d1 d2 Hd1 Hd2) as [Ok' _].
  case_bool_decide as E; simpl.
  - rewrite E in Ht, Hp. split; [eapply rowsFrom_le; [|exact Ht]; lia|]. intros x z.
    destruct (Z.lt_ge_cases z y); [|rewrite B1, B2 by done; apply Hp].
    rewrite A1, A2, (row_before _ _ _ _ Ht) by (done || lia). apply Pt.
  - split; [by split_and!|]. intros x z. cbn [rowFrom].
    destruct (Z.ltb_spec z y); [rewrite A1, A2 by done; apply Pt|rewrite B1, B2 by done; apply Hp].
Qed.

Lemma combined_rest1 m c1 l1 :
  okSegs c1 -> rowsFrom m c1 l1 -> combined m c1 [] l1 [] (if shouldAddRemainingSpansFromShape1 op then l1 else []).
Proof.
  intros Hc H. unfold combined. rewrite combineSegments_nil2.
  pose proof (rest_segments1 _ Hop true) as R1. pose proof (rest_spans1 _ Hop true) as R2.
  rewrite R1 in R2. rewrite !andb_true_r in R2. rewrite R2.
  split; [by case_match|]. intros x y. cbn [rowFrom sideFrom]. rewrite (rest_spans1 _ Hop). by case_match.
Qed.

Lemma combined_rest2 m c2 l2 :
  okSegs c2 -> rowsFrom m c2 l2 -> combined m [] c2 [] l2 (if shouldAddRemainingSpansFromShape2 op then l2 else []).
Proof.
  intros Hc H. unfold combined. rewrite combineSegments_nil1.
  pose proof (rest_segments2 _ Hop true) as R1. pose proof (rest_spans2 _ Hop true) as R2.
  rewrite R1 in R2. rewrite !andb_true_r in R2. rewrite R2.
  split; [by case_match|]. intros x y. cbn [rowFrom sideFrom]. rewrite (rest_spans2 _ Hop). by case_match.
Qed.

Lemma mergeSpans_nil fuel l1 l2 c1 c2 r :
  l1 = [] \/ l2 = [] ->
  mergeSpans op fuel l1 l2 c1 c2 r =
  if shouldAddRemainingSpansFromShape1 op && negb (bool_decide (l1 = [])) then appendSpans l1 r
  else if shouldAddRemainingSpansFromShape2 op && negb (bool_decide (l2 = [])) then appendSpans l2 r
  else r.
Proof. intros [-> | ->]; destruct fuel; [done..|]. by destruct l1 as [|[y g] l1]. Qed.

(** Appending the rows that remain, when [t] are those the operation keeps. *)
Lemma appendSpans_kept m c (b : bool) l r :
  rowsFrom m c (if b then l else []) -> lastRow r = c ->
  (if b && negb (bool_decide (l = [])) then appendSpans l (shapeFrom r) else shapeFrom r)
  = shapeFrom (r ++ (if b then l else [])).
Proof.
  intros H E. destruct b; simpl; [|by rewrite app_nil_r].
  case_bool_decide as El; simpl; [by rewrite El, app_nil_r|].
  apply (appendSpans_shapeFrom m). by rewrite E.
Qed.

(** One iteration of the loop, given what the others do. *)
Lemma mergeSpans_row fuel m c1 c2 d1 d2 l1 l2 l1' l2' y r :
  m < y -> coord y -> okSegs c1 -> okSegs c2 -> okSegs d1 -> okSegs d2 ->
  (forall z, z < y -> rowFrom c1 l1 z = c1) -> (forall z, y <= z -> rowFrom c1 l1 z = rowFrom d1 l1' z) ->
  (forall z, z < y -> rowFrom c2 l2 z = c2) -> (forall z, y <= z -> rowFrom c2 l2 z = rowFrom d2 l2' z) ->
  lastRow r = combine c1 c2 ->
  (forall r', lastRow r' = combine d1 d2 -> exists t,
     mergeSpans op fuel l1' l2' d1 d2 (shapeFrom r') = shapeFrom (r' ++ t) /\ combined y d1 d2 l1' l2' t) ->
  exists t, mergeSpans op fuel l1' l2' d1 d2
      (if negb (bool_decide (combine d1 d2 = [])) || negb (shape_isEmpty (shapeFrom r))
       then appendSpanWith y (combine d1 d2) (shapeFrom r) else shapeFrom r) = shapeFrom (r ++ t)
    /\ combined m c1 c2 l1 l2 t.
Proof.
  intros Hm Hy Hc1 Hc2 Hd1 Hd2 A1 B1 A2 B2 Hr IH. rewrite push_row, Hr.
  pose (push := if bool_decide (combine d1 d2 = combine c1 c2) then [] else [(y, combine d1 d2)]).
  destruct (IH (r ++ push)) as (t & Et & Ht).
  { unfold push. case_bool_decide as E; [by rewrite app_nil_r, Hr|]. unfold lastRow. by rewrite last_snoc. }
  exists (push ++ t). split.
  - rewrite app_assoc, <- Et. unfold push. case_bool_decide; by rewrite ?app_nil_r.
  - by apply (combined_step m c1 c2 d1 d2 _ _ l1' l2').
Qed.

Lemma mergeSpans_ok fuel m l1 l2 c1 c2 r :
  (length l1 + length l2 <= fuel)%nat -> okSegs c1 -> okSegs c2 ->
  rowsFrom m c1 l1 -> rowsFrom m c2 l2 -> lastRow r = combine c1 c2 ->
  exists t, mergeSpans op fuel l1 l2 c1 c2 (shapeFrom r) = shapeFrom (r ++ t) /\ combined m c1 c2 l1 l2 t.
Proof.
  revert m l1 l2 c1 c2 r. induction fuel as [|fuel IH]; intros m l1 l2 c1 c2 r Hf Hc1 Hc2 H1 H2 Hr;
    destruct l1 as [|[y1 g1] r1]; try (simpl in Hf; lia).
  1, 2: assert (c1 = []) as -> by exact H1; pose proof (combined_rest2 m c2 l2 Hc2 H2) as Hk;
    rewrite mergeSpans_nil by auto; rewrite bool_decide_true, andb_false_r by done;
    eexists; split; [|exact Hk]; apply (appendSpans_kept m (combine [] c2)); [apply Hk|exact Hr].
  destruct l2 as [|[y2 g2] r2].
  { assert (c2 = []) as -> by exact H2. pose proof (combined_rest1 m c1 _ Hc1 H1) as Hk.
    rewrite mergeSpans_nil by auto.
    rewrite (bool_decide_true (@nil (Z * list Z) = [])) by done. cbn [negb].
    rewrite (andb_false_r (shouldAddRemainingSpansFromShape2 op)).
    eexists; split; [|exact Hk]. apply (appendSpans_kept m (combine c1 [])); [apply Hk|exact Hr]. }
  cbn [rowsFrom] in H1, H2. pose proof H1 as (Hm1 & Hy1 & Hg1 & Hn1 & K1). pose proof H2 as (Hm2 & Hy2 & Hg2 & Hn2 & K2).
  cbn [mergeSpans]. rewrite int32_id by (unfold coord in *; lia). cbn [length] in Hf.
  destruct (Z.leb_spec (y1 - y2) 0), (Z.geb_spec (y1 - y2) 0); try lia; cbn beta iota zeta.
  - assert (y1 = y2) as <- by lia. apply (mergeSpans_row fuel m c1 c2 g1 g2); auto with region.
    intros r' Hr'. apply IH; auto; lia.
  - apply (mergeSpans_row fuel m c1 c2 g1 c2); auto with region lia.
    intros r' Hr'. apply IH; auto; [cbn [length]; lia|]. cbn [rowsFrom]. split_and!; (done || lia).
  - apply (mergeSpans_row fuel m c1 c2 c1 g2); auto with region lia.
    intros r' Hr'. apply IH; auto; [cbn [length]; lia|]. cbn [rowsFrom]. split_and!; (done || lia).
Qed.

(** The general step of [shapeOperation]. *)
Lemma shapeOperation_ok l1 l2 :
  trySimpleOperation op (shapeFrom l1) (shapeFrom l2) = None -> okRows l1 -> okRows l2 ->
  exists t, shapeOperation op (shapeFrom l1) (shapeFrom l2) = shapeFrom t /\ okRows t /\
    forall x y, inRows t x y = F (inRows l1 x y) (inRows l2 x y).
Proof.
  intros E H1 H2. unfold shapeOperation. rewrite E, !spans_shapeFrom. cbn [shapeFrom m_spans].
  rewrite !layoutFrom_length.
  assert (C : combine [] [] = []) by (rewrite combineSegments_nil1; by case_match).
  destruct (mergeSpans_ok (length l1 + length l2) (- 2 ^ 31) l1 l2 [] [] []) as (t & Et & Ht & Hp);
    rewrite ?C; try done; try apply okSegs_nil.
  rewrite C in Ht, Hp. exists t. split_and!; [exact Et|exact Ht|exact Hp].
Qed.
End MergeSpans.
