(* ===== verification/RegionBounds.v ===== *)
(** * Bounds and queries of a region

    [Shape::bounds] yields the smallest rectangle around the points of the
    shape, and the loops behind [Region::contains], [Region::intersects] and
    [Region::rects] answer for the set of points. *)

From S2P Require Import Prelude Region RegionRows.
Open Scope Z_scope.

(** ** Points of rows *)

Lemma row_member cur l y : rowFrom cur l y = cur \/ exists y', (y', rowFrom cur l y) ∈ l.
Proof.
  revert cur. induction l as [|[y0 g] l IH]; intros cur; cbn [rowFrom]; [by left|].
  case_match; [by left|]. right. destruct (IH g) as [-> | [y' H']]; eexists; [left|right; exact H'].
Qed.

Lemma row_at m cur l y g : rowsFrom m cur l -> (y, g) ∈ l -> m < y /\ coord y /\ okSegs g /\ rowFrom cur l y = g.
Proof.
  revert m cur. induction l as [|[y0 g0] l IH]; intros m cur H Hin; [by apply elem_of_nil in Hin|].
  cbn [rowsFrom] in H. destruct H as (Hm & Hc & Hg & _ & H). apply elem_of_cons in Hin as [[= -> ->]|Hin].
  - split_and!; [done..|]. rewrite row_step by lia. by apply (row_before y0).
  - destruct (IH _ _ H Hin) as (Hy & ? & ? & E). split_and!; [lia|done..|]. by rewrite row_step by lia.
Qed.

Lemma okRows_row l y : okRows l -> okSegs (rowFrom [] l y).
Proof. intros H. eapply rowFrom_ok; [apply okSegs_nil|exact H]. Qed.

(** The last boundary of a span. *)
Lemma okSegs_last x l : okSegs (x :: l) -> inSegs (x :: l) (List.last (x :: l) 0 - 1) = true.
Proof.
  remember (length l) as n eqn:En. revert x l En. induction n as [n IH] using lt_wf_ind. intros x l -> H.
  destruct (okSegs_pair _ _ H) as (mx & rest & -> & Hb & Hx & Hr & Hbr). rewrite (inSegs_pair _ _ _ _ _ Hb).
  destruct rest as [|x' rest].
  - cbn [List.last]. by rewrite (proj2 (Z.leb_le _ _)), (proj2 (Z.ltb_lt _ _)) by lia.
  - change (List.last (x :: mx :: x' :: rest) 0) with (List.last (x' :: rest) 0).
    rewrite (IH (length rest)) by (done || cbn [length]; lia). apply orb_true_r.
Qed.

Lemma boundaries_bounds m l x : boundaries m l -> x ∈ l -> m < x /\ coord x /\ List.hd 0 l <= x <= List.last l 0.
Proof.
  revert m x. induction l as [|x0 l IH]; intros m x H Hin; [by apply elem_of_nil in Hin|].
  cbn [boundaries] in H. destruct H as (Hm & Hc & H). apply elem_of_cons in Hin as [->|Hin].
  - split_and!; [done..|cbn; lia|]. destruct l as [|x1 l]; [cbn; lia|].
    change (List.last (x0 :: x1 :: l) 0) with (List.last (x1 :: l) 0).
    destruct (IH x0 x1 H) as (? & _ & ?); [left|lia].
  - destruct (IH x0 x H Hin) as (? & ? & ?). destruct l as [|x1 l]; [by apply elem_of_nil in Hin|].
    change (List.last (x0 :: x1 :: l) 0) with (List.last (x1 :: l) 0). cbn [List.hd] in *. split_and!; (done || lia).
Qed.

(** The columns of a span lie between its first and its last boundary. *)
Lemma inSegs_bounds m l x : boundaries m l -> Nat.even (length l) = true -> inSegs l x = true ->
  List.hd 0 l <= x < List.last l 0.
Proof.
  intros Hb He Hx. destruct l as [|x0 l]; [done|]. split.
  - cbn in *. destruct (Z.ltb_spec x x0); [done|lia].
  - destruct (Z.lt_ge_cases x (List.last (x0 :: l) 0)) as [?|Hge]; [done|exfalso].
    rewrite (even_iff_outside _ _ Hb) in He. bool_hyps.
    assert (E : forall b l m, boundaries m l -> (forall z, z ∈ l -> z <= x) -> sideFrom b l x = sideFrom b l (2 ^ 31)).
    { clear. intros b l. revert b. induction l as [|z l IH]; intros b m; [done|]. cbn [boundaries].
      intros (_ & Hc & Hl) Hle. rewrite !side_step; [|unfold coord in Hc; lia|apply Hle; left].
      eapply IH; [exact Hl|]. intros z' Hz'. apply Hle. by right. }
    rewrite (E _ _ _ Hb) in Hx.
    + congruence.
    + intros z Hz. destruct (boundaries_bounds _ _ _ Hb Hz) as (_ & _ & ?). lia.
Qed.

(** ** [Shape::bounds] *)

(** The smallest rectangle [x0, x1) x [y0, y1) around a set of points. *)
Record Tight (x0 y0 x1 y1 : Z) (P : Z -> Z -> bool) : Prop := {
  tight_inside x y : P x y = true -> x0 <= x < x1 /\ y0 <= y < y1;
  tight_left : exists y, P x0 y = true;
  tight_right : exists y, P (x1 - 1) y = true;
  tight_top : exists x, P x y0 = true;
  tight_bottom : exists x, P x (y1 - 1) = true
}.

Lemma nth_elem_of (l : list Z) n : (n < length l)%nat -> nth n l 0 ∈ l.
Proof. intros H. rewrite list_elem_of_In. by apply nth_In. Qed.

Lemma nth_last_segment (pre g t : list Z) :
  g <> [] -> nth (length pre + length g - 1) (pre ++ g ++ t) 0 = List.last g 0.
Proof.
  intros H. destruct (exists_last H) as (g0 & x & ->). rewrite List.last_last.
  rewrite length_app, app_nth2, <- app_assoc by (simpl; lia).
  rewrite app_nth2 by (simpl; lia). simpl length.
  by replace (length pre + (length g0 + 1) - 1 - length pre - length g0)%nat with 0%nat by lia.
Qed.

Section BoundsLoop.
Context (segs : list Z) (sp : list Span).
Abbreviation s := (mkShape segs sp).

(** What the loop reads of the rows [l], whose segments follow [pre]. *)
Lemma boundsLoop_ok pre l mn mx a b :
  segs = pre ++ rowSegments l -> boundsLoop s (layoutFrom (length pre) l) mn mx = (a, b) ->
  a <= mn /\ mx <= b /\ (a = mn \/ a ∈ segs) /\ (b = mx \/ b ∈ segs) /\
  (lastRow l = [] -> forall y g, (y, g) ∈ l -> g <> [] -> a <= List.hd 0 g /\ List.last g 0 <= b).
Proof.
  revert pre mn mx. induction l as [|[y g] l IH]; intros pre mn mx Es; cbn [layoutFrom boundsLoop].
  { intros [= -> ->]. split_and!; [lia|lia|by left|by left|]. intros _ y g Hin. by apply elem_of_nil in Hin. }
  destruct l as [|[y' g'] l]; cbn [layoutFrom].
  { intros [= -> ->]. split_and!; [lia|lia|by left|by left|]. cbn. intros -> y' g' Hin.
    apply list_elem_of_singleton in Hin as [= -> ->]. done. }
  specialize (IH (pre ++ g)). rewrite length_app in IH. cbn [layoutFrom segmentIndex m_segments] in *.
  change (rowSegments ((y, g) :: (y', g') :: l)) with (g ++ rowSegments ((y', g') :: l)) in Es.
  assert (Es' : segs = (pre ++ g) ++ rowSegments ((y', g') :: l)) by (by rewrite <- app_assoc).
  destruct (Nat.eqb_spec (length pre) (length segs)) as [El|El].
  - assert (g = []) as -> by (rewrite Es, length_app, length_app in El; apply length_zero_iff_nil; lia).
    intros E. destruct (IH mn mx Es' E) as (Ha & Hb & Ia & Ib & Hl). split_and!; [done..|].
    intros HL z h [[= -> ->]|Hin]%elem_of_cons Hne; [done|]. by apply (Hl HL z h).
  - intros E. apply IH in E as (Ha & Hb & Ia & Ib & Hl); [|done].
    assert (Hlen : (length pre + length g <= length segs)%nat) by (rewrite Es, !length_app; lia).
    pose proof (nth_elem_of segs (length pre) ltac:(lia)) as Mf.
    pose proof (nth_elem_of segs (length pre + length g - 1) ltac:(lia)) as Ml.
    assert (Vg : g <> [] -> nth (length pre) segs 0 = List.hd 0 g /\
                            nth (length pre + length g - 1) segs 0 = List.last g 0).
    { intros Hne. rewrite Es. split; [|by apply nth_last_segment]. rewrite app_nth2, Nat.sub_diag by lia. by destruct g. }
    clear Es Es'. rewrite Z.gtb_ltb in Hb, Ib.
    revert Ha Hb Ia Ib. destruct (Z.ltb_spec (nth (length pre) segs 0) mn), (Z.ltb_spec mx (nth (length pre + length g - 1) segs 0));
      intros Ha Hb Ia Ib; (split_and!; [lia|lia|destruct Ia as [->|?]; auto|destruct Ib as [->|?]; auto|]);
      intros HL z h [[= -> ->]|Hin]%elem_of_cons Hne; eauto; destruct (Vg Hne); lia.
Qed.
End BoundsLoop.

Lemma rows_last m cur l : rowsFrom m cur l -> l <> [] ->
  exists y1, last l = Some (y1, []) /\ m < y1 /\ coord y1 /\
    rowFrom cur l (y1 - 1) <> [] /\ forall z, y1 <= z -> rowFrom cur l z = [].
Proof.
  revert m cur. induction l as [|[y g] l IH]; intros m cur H Hne; [done|].
  cbn [rowsFrom] in H. destruct H as (Hm & Hc & Hg & Hn & H). destruct l as [|p l].
  - cbn in H. subst g. exists y. split_and!; [done..| |].
    + rewrite row_first by lia. congruence.
    + intros z Hz. by rewrite row_step.
  - destruct (IH y g H) as (y1 & E & Hy & Hc1 & Hr & Hz); [done|].
    exists y1. rewrite last_cons_cons. split_and!; [done|lia|done|by rewrite row_step by lia|].
    intros z Hz'. rewrite row_step by lia. auto.
Qed.

Lemma lastRow_okRows l : okRows l -> lastRow l = [].
Proof.
  intros H. destruct l as [|p l]; [done|]. destruct (rows_last _ _ _ H) as (y1 & E & _); [done|].
  unfold lastRow. by rewrite E.
Qed.

Lemma elem_of_rowSegments x l : x ∈ rowSegments l <-> exists y g, (y, g) ∈ l /\ x ∈ g.
Proof.
  unfold rowSegments. induction l as [|[y0 g0] l IH]; cbn.
  - split; [by intros ?%elem_of_nil|]. by intros (y & g & ?%elem_of_nil & _).
  - rewrite elem_of_app, IH. setoid_rewrite elem_of_cons. split.
    + intros [Hx|(y & g & Hin & Hx)]; eauto.
    + intros (y & g & [[= -> ->]|Hin] & Hx); eauto.
Qed.

(** A point of the rows lies in one of the spans. *)
Lemma inRows_span l x y : inRows l x y = true -> exists y0, (y0, rowFrom [] l y) ∈ l /\ rowFrom [] l y <> [].
Proof.
  unfold inRows. intros H. destruct (row_member [] l y) as [E|[y0 Hin]]; [by rewrite E in H|].
  exists y0. split; [done|]. intros E. by rewrite E in H.
Qed.

(** The horizontal range the loop finds. *)
Lemma boundsLoop_range l a b :
  okRows l -> l <> [] -> boundsLoop (shapeFrom l) (layoutFrom 0 l) INT_MAX INT_MIN = (a, b) ->
  a ∈ rowSegments l /\ b ∈ rowSegments l /\
  forall y g, (y, g) ∈ l -> g <> [] -> a <= List.hd 0 g /\ List.last g 0 <= b.
Proof.
  intros H Hne E.
  destruct (boundsLoop_ok (rowSegments l) (layoutFrom 0 l) [] l _ _ a b eq_refl E) as (_ & _ & Ia & Ib & Hl).
  specialize (Hl (lastRow_okRows l H)). destruct l as [|[y0 g0] l]; [done|].
  assert (Hin : (y0, g0) ∈ (y0, g0) :: l) by left.
  destruct H as (_ & _ & Hg & Hn & _). destruct (Hl y0 g0 Hin Hn) as [H1 H2].
  destruct g0 as [|x0 g0]; [done|]. destruct Hg as [Hg _].
  destruct (boundaries_bounds _ _ x0 Hg) as (_ & Hc & Hr); [left|]. unfold coord, INT_MAX, INT_MIN in *. cbn [List.hd] in *.
  split_and!; [destruct Ia; [lia|done]|destruct Ib; [lia|done]|done].
Qed.

Lemma shape_bounds_tight l : okRows l -> l <> [] ->
  exists x0 y0 x1 y1, coord x0 /\ coord y0 /\ coord x1 /\ coord y1 /\ Tight x0 y0 x1 y1 (inRows l) /\
    shape_bounds (shapeFrom l) = mkIntRect x0 y0 (x1 - x0) (y1 - y0).
Proof.
  intros H Hne. destruct (boundsLoop (shapeFrom l) (layoutFrom 0 l) INT_MAX INT_MIN) as [a b] eqn:E.
  destruct (boundsLoop_range l a b H Hne E) as (Ia & Ib & Hr).
  apply elem_of_rowSegments in Ia as (ya & ga & Ina & Ia), Ib as (yb & gb & Inb & Ib).
  destruct (row_at _ _ _ _ _ H Ina) as (_ & Cya & Oa & Ea), (row_at _ _ _ _ _ H Inb) as (_ & Cyb & Ob & Eb).
  destruct (boundaries_bounds _ _ _ (proj1 Oa) Ia) as (_ & Ca & Ba), (boundaries_bounds _ _ _ (proj1 Ob) Ib) as (_ & Cb & Bb).
  destruct (Hr _ _ Ina) as [Ra _]; [by destruct ga; [apply elem_of_nil in Ia|]|].
  destruct (Hr _ _ Inb) as [_ Rb]; [by destruct gb; [apply elem_of_nil in Ib|]|].
  destruct (rows_last _ _ _ H Hne) as (y1 & El & _ & Cy1 & Nb & Zb).
  destruct l as [|[y0 g0] l]; [done|]. pose proof H as (_ & Cy0 & O0 & N0 & _).
  exists a, y0, b, y1. split_and!; [done..| |].
  - split.
    + intros x y Hp. destruct (inRows_span _ _ _ Hp) as (y' & Hin & Hn). destruct (Hr _ _ Hin Hn) as [R1 R2].
      destruct (okRows_row _ y H) as [Hb He]. pose proof (inSegs_bounds _ _ _ Hb He Hp). split; [lia|].
      unfold inRows in Hp. destruct (Z.lt_ge_cases y y0) as [Hlt|]; [by rewrite row_first in Hp|].
      destruct (Z.lt_ge_cases y y1) as [|Hge]; [lia|]. by rewrite Zb in Hp.
    + exists ya. unfold inRows. rewrite Ea. destruct ga as [|x ga]; [by apply elem_of_nil in Ia|].
      cbn [List.hd] in *. replace a with x by lia. by apply okSegs_witness.
    + exists yb. unfold inRows. rewrite Eb. destruct gb as [|x gb]; [by apply elem_of_nil in Ib|].
      replace b with (List.last (x :: gb) 0) by lia. by apply okSegs_last.
    + unfold inRows. rewrite (proj2 (proj2 (proj2 (row_at _ _ _ y0 g0 H ltac:(left))))).
      destruct g0 as [|x g0]; [done|]. exists x. by apply okSegs_witness.
    + unfold inRows. pose proof (okRows_row _ (y1 - 1) H) as Ok. destruct (rowFrom _ _ (y1 - 1)) as [|x g]; [done|].
      exists x. by apply okSegs_witness.
  - unfold shape_bounds, shape_isEmpty.
    change (m_spans (shapeFrom ((y0, g0) :: l))) with (layoutFrom 0 ((y0, g0) :: l)).
    rewrite bool_decide_false, last_layout, El, E by done. cbn [fmap option_fmap option_map layoutFrom span_y].
    unfold coord in *. by rewrite !int32_id by lia.
Qed.

(** ** Points and rectangles *)

Lemma segmentsContain_ok l x : okSegs l -> segmentsContain x l = inSegs l x.
Proof.
  remember (length l) as n eqn:En. revert l En. induction n as [n IH] using lt_wf_ind. intros [|x0 l] -> H; [done|].
  destruct (okSegs_pair _ _ H) as (mx & rest & -> & Hb & Hx & Hr & Hbr).
  rewrite (inSegs_pair _ _ _ _ _ Hb). cbn [segmentsContain]. rewrite !Z.gtb_ltb.
  rewrite (IH (length rest)) by (done || cbn [length]; lia).
  destruct (Z.ltb_spec x x0), (Z.leb_spec x0 x), (Z.ltb_spec x mx); try lia; simpl; try done.
  symmetry. apply (side_before _ mx); [done|lia].
Qed.

Lemma spansContain_rows m cur l x y :
  rowsFrom m cur l -> spansContain x y l = inSegs (rowFrom [] l y) x.
Proof.
  revert m cur. induction l as [|[y0 g] l IH]; intros m cur H; [done|].
  cbn [rowsFrom] in H. destruct H as (Hm & Hc & Hg & _ & H). destruct l as [|[y1 g1] l].
  { cbn in *. subst g. by case_match. }
  pose proof H as (Hy & _). specialize (IH _ _ H). cbn [spansContain] in *. rewrite Z.gtb_ltb.
  cbn [rowFrom]. destruct (Z.ltb_spec y y0); [done|]. destruct (Z.leb_spec y1 y).
  - rewrite IH. cbn [rowFrom]. by rewrite (proj2 (Z.ltb_ge y y1)).
  - rewrite (proj2 (Z.ltb_lt y y1)), segmentsContain_ok by (done || lia). destruct (inSegs g x); [done|].
    rewrite IH. cbn [rowFrom]. by rewrite (proj2 (Z.ltb_lt y y1)).
Qed.

(** How many of the rectangles [rs] a point lies in. *)
Definition covering (rs : list IntRect) (x y : Z) : nat :=
  length (List.filter (fun r => rect_containsPoint r x y) rs).

Lemma covering_app rs rs' x y : covering (rs ++ rs') x y = (covering rs x y + covering rs' x y)%nat.
Proof. unfold covering. by rewrite List.filter_app, length_app. Qed.

Lemma covering_segmentRects y0 y1 l x y :
  okSegs l -> coord y0 -> coord y1 ->
  covering (segmentRects y0 (int32 (y1 - y0)) l) x y = Nat.b2n ((y0 <=? y) && (y <? y1) && inSegs l x).
Proof.
  intros H C0 C1. remember (length l) as n eqn:En. revert l En H.
  induction n as [n IH] using lt_wf_ind. intros [|x0 l] -> H; [by rewrite andb_false_r|].
  destruct (okSegs_pair _ _ H) as (mx & rest & -> & Hb & Hx & Hr & Hbr).
  rewrite (inSegs_pair _ _ _ _ _ Hb). cbn [segmentRects].
  change (?r :: segmentRects ?a ?b ?c) with ([r] ++ segmentRects a b c).
  rewrite covering_app, (IH (length rest)) by (done || cbn [length]; lia).
  pose proof Hb as (_ & Cx & _ & Cm & _). unfold covering, rect_containsPoint, maxX, maxY. cbn [List.filter rect_x rect_y rect_width rect_height].
  unfold coord in *. rewrite (int32_id (mx - x0)), (int32_id (y1 - y0)), !int32_id by lia.
  replace (x0 + (mx - x0)) with mx by lia. replace (y0 + (y1 - y0)) with y1 by lia. rewrite !Z.geb_leb.
  destruct (Z.leb_spec x0 x), (Z.ltb_spec x mx), (y0 <=? y), (y <? y1); simpl; try done; try lia.
  by rewrite (side_before _ mx) by (done || lia).
Qed.

Lemma covering_rectsLoop m cur l x y :
  rowsFrom m cur l -> covering (rectsLoop l) x y = Nat.b2n (inSegs (rowFrom [] l y) x).
Proof.
  revert m cur. induction l as [|[y0 g] l IH]; intros m cur H; [done|].
  cbn [rowsFrom] in H. destruct H as (Hm & Hc & Hg & _ & H). destruct l as [|[y1 g1] l].
  { cbn in *. subst g. by case_match. }
  pose proof H as (Hy & Hc1 & _). specialize (IH _ _ H). cbn [rectsLoop] in *.
  rewrite covering_app, covering_segmentRects, IH by done. cbn [rowFrom].
  destruct (Z.ltb_spec y y0), (Z.leb_spec y0 y), (Z.ltb_spec y y1); try lia; simpl; try done.
Qed.

(** ** [Shape::compareShapes] *)

Lemma inSegs_head_in x mx l p :
  okSegs (x :: mx :: l) -> x <= p < mx -> inSegs (x :: mx :: l) p = true.
Proof.
  intros [H _] Hp. rewrite (inSegs_pair _ _ _ _ _ H), (proj2 (Z.leb_le x p)), (proj2 (Z.ltb_lt p mx)) by lia. done.
Qed.

(** Before the first boundary, and from the end of the first segment on. *)
Lemma inSegs_lt x l p : p < x -> inSegs (x :: l) p = false.
Proof. intros H. cbn. by rewrite (proj2 (Z.ltb_lt p x)). Qed.

Lemma inSegs_rest x mx l p : okSegs (x :: mx :: l) -> mx <= p -> inSegs (x :: mx :: l) p = inSegs l p.
Proof. intros ((_ & _ & Hx & _) & _) H. by rewrite !side_step by lia. Qed.

Lemma inSegs_gap mx l p : boundaries mx l -> p <= mx -> inSegs l p = false.
Proof. apply side_before. Qed.

Definition subsetSegs (b a : list Z) : Prop := forall x, inSegs b x = true -> inSegs a x = true.
Definition meetSegs (a b : list Z) : Prop := exists x, inSegs a x = true /\ inSegs b x = true.

(** The outcome of a comparison that stops with [r] if [P] holds and goes on
    if it does not. *)
Definition stops (o : option bool) (r : bool) (P : Prop) : Prop := (o = None /\ ~ P) \/ (o = Some r /\ P).

Lemma stops_iff o r P Q : (P <-> Q) -> stops o r P -> stops o r Q.
Proof. unfold stops. tauto. Qed.

Lemma stop_None (b : bool) k : stopIf b None k = k.
Proof. done. Qed.

Section ContainsSegments.
Variables aX aMax bX bMax : Z.
Variables ra rb : list Z.
Hypothesis Ha : okSegs (aX :: aMax :: ra).
Hypothesis Hb : okSegs (bX :: bMax :: rb).

Lemma not_subset_left : bX < aX -> ~ subsetSegs (bX :: bMax :: rb) (aX :: aMax :: ra).
Proof. intros H S. specialize (S bX (okSegs_witness _ _ Hb)). by rewrite inSegs_lt in S. Qed.

Lemma subset_next_a : aX <= bX -> aMax < bMax ->
  (subsetSegs (bX :: bMax :: rb) ra <-> subsetSegs (bX :: bMax :: rb) (aX :: aMax :: ra)).
Proof.
  intros H1 H2. destruct (okSegs_pair _ _ Ha) as (? & ? & [= <- <-] & _ & Hx & _ & Hr). split; intros S x Hx'.
  - specialize (S x Hx'). destruct (Z.le_gt_cases aMax x); [by rewrite inSegs_rest|].
    rewrite inSegs_gap with (mx := aMax) in S by (done || lia). done.
  - specialize (S x Hx') as S'. destruct (Z.le_gt_cases aMax x); [by rewrite inSegs_rest in S'|exfalso].
    destruct (Z.lt_ge_cases x bX); [by rewrite inSegs_lt in Hx'|].
    specialize (S aMax). rewrite (inSegs_head_in bX), (inSegs_rest aX), (inSegs_gap aMax ra) in S by (done || lia).
    by specialize (S eq_refl).
Qed.

Lemma subset_next_b : aX <= bX -> bMax <= aMax ->
  (subsetSegs rb (aX :: aMax :: ra) <-> subsetSegs (bX :: bMax :: rb) (aX :: aMax :: ra)).
Proof.
  intros H1 H2. destruct (okSegs_pair _ _ Hb) as (? & ? & [= <- <-] & _ & Hx & _ & Hr). split; intros S x Hx'.
  - destruct (Z.le_gt_cases bMax x); [rewrite inSegs_rest in Hx' by done; by apply S|].
    destruct (Z.lt_ge_cases x bX); [by rewrite inSegs_lt in Hx'|]. apply inSegs_head_in; [done|lia].
  - apply S. destruct (Z.le_gt_cases bMax x); [by rewrite inSegs_rest|].
    rewrite inSegs_gap with (mx := bMax) in Hx' by (done || lia). done.
Qed.

Lemma subset_next_both : aX <= bX -> bMax = aMax ->
  (subsetSegs rb ra <-> subsetSegs (bX :: bMax :: rb) (aX :: aMax :: ra)).
Proof.
  intros H1 H2. rewrite <- subset_next_b by lia.
  destruct (okSegs_pair _ _ Hb) as (? & ? & [= <- <-] & _ & _ & _ & Hr).
  assert (E : forall x, inSegs rb x = true -> inSegs (aX :: aMax :: ra) x = inSegs ra x).
  { intros x Hx. apply inSegs_rest; [done|]. destruct (Z.le_gt_cases aMax x); [done|].
    rewrite inSegs_gap with (mx := bMax) in Hx by (done || lia). done. }
  split; intros S x Hx; specialize (S x Hx); [by rewrite E|by rewrite E in S].
Qed.
End ContainsSegments.

Lemma compareSegments_contains fuel a b :
  (length a + length b <= fuel)%nat -> okSegs a -> okSegs b ->
  (compareSegments CompareContainsOperation fuel a b = None /\ subsetSegs b a) \/
  (compareSegments CompareContainsOperation fuel a b = Some false /\ ~ subsetSegs b a).
Proof.
  revert a b. induction fuel as [|fuel IH]; intros a b Hf Ha Hb.
  { destruct a, b; simpl in Hf; try lia. by left. }
  destruct b as [|bX b].
  { left. split; [by destruct a as [|? [|? ?]]|done]. }
  destruct (okSegs_pair _ _ Hb) as (bMax & rb & -> & _ & Hxb & Hrb & _).
  destruct a as [|aX a].
  { right. split; [done|]. intros S. by specialize (S bX (okSegs_witness _ _ Hb)). }
  destruct (okSegs_pair _ _ Ha) as (aMax & ra & -> & _ & Hxa & Hra & _).
  cbn [compareSegments CompareContainsOperation aOverlapsB aOutsideB bOutsideA]. rewrite !stop_None. cbn [stopIf].
  cbn [length] in Hf. destruct (Z.ltb_spec bX aX); [right; split; [done|by apply not_subset_left]|].
  destruct (Z.ltb_spec aMax bMax); [|destruct (Z.ltb_spec bMax aMax)].
  - rewrite <- (subset_next_a aX aMax bX bMax) by (done || lia). apply IH; [simpl; lia|done..].
  - rewrite <- (subset_next_b aX aMax bX bMax) by (done || lia). apply IH; [simpl; lia|done..].
  - rewrite <- (subset_next_both aX aMax bX bMax) by (done || lia). apply IH; [simpl; lia|done..].
Qed.

Lemma meetSegs_comm a b : meetSegs a b <-> meetSegs b a.
Proof. unfold meetSegs. split; intros (x & ? & ?); eauto. Qed.

(** A segment that ends before the other span begins can be dropped. *)
Lemma meet_next x mx l bX b : okSegs (x :: mx :: l) -> mx <= bX ->
  (meetSegs l (bX :: b) <-> meetSegs (x :: mx :: l) (bX :: b)).
Proof.
  intros Ha H. unfold meetSegs. apply exist_proper. intros p.
  destruct (Z.lt_ge_cases p bX) as [Hp|Hp]; [rewrite (inSegs_lt bX) by done; intuition congruence|].
  by rewrite (inSegs_rest x) by (done || lia).
Qed.

Lemma compareSegments_intersects fuel a b :
  (length a + length b <= fuel)%nat -> okSegs a -> okSegs b ->
  stops (compareSegments CompareIntersectsOperation fuel a b) true (meetSegs a b).
Proof.
  revert a b. induction fuel as [|fuel IH]; intros a b Hf Ha Hb.
  { destruct a, b; simpl in Hf; try lia. left. split; [done|]. by intros (x & ? & ?). }
  destruct a as [|aX a]; [left; split; [by destruct b|]; by intros (x & ? & ?)|].
  destruct b as [|bX b]; [left; split; [by destruct a|]; by intros (x & ? & ?)|].
  destruct (okSegs_pair _ _ Ha) as (aMax & ra & -> & _ & Hxa & Hra & _).
  destruct (okSegs_pair _ _ Hb) as (bMax & rb & -> & _ & Hxb & Hrb & _).
  cbn [compareSegments CompareIntersectsOperation aOverlapsB aOutsideB bOutsideA]. rewrite !stop_None. cbn [stopIf].
  cbn [length] in Hf. rewrite Z.gtb_ltb.
  destruct (Z.ltb_spec aX bMax), (Z.ltb_spec bX aMax); simpl.
  1: { right. split; [done|]. exists (Z.max aX bX).
       split; apply inSegs_head_in; (done || lia). }
  all: destruct (Z.ltb_spec aMax bMax), (Z.ltb_spec bMax aMax); try lia.
  - eapply stops_iff; [by rewrite <- meet_next by (done || lia)|]. apply IH; [simpl; lia|done..].
  - eapply stops_iff; [by rewrite meetSegs_comm, <- meet_next, meetSegs_comm by (done || lia)|]. apply IH; [simpl; lia|done..].
Qed.

(** ** Rows of two shapes *)

Definition subsetRows (from : Z) (b a : Rows) : Prop :=
  forall x y, from <= y -> inRows b x y = true -> inRows a x y = true.
Definition meetRows (a b : Rows) : Prop := exists x y, inRows a x y = true /\ inRows b x y = true.

(** The current span of an iterator that is not at its last one. *)
Lemma inRows_first m cur y g y' g' l x z :
  rowsFrom m cur ((y, g) :: (y', g') :: l) ->
  inRows ((y, g) :: (y', g') :: l) x z =
  if z <? y then false else if z <? y' then inSegs g x else inRows ((y', g') :: l) x z.
Proof.
  intros (_ & _ & _ & _ & Hy & _). unfold inRows. cbn [rowFrom].
  destruct (Z.ltb_spec z y), (Z.ltb_spec z y'); (done || lia).
Qed.

Lemma inRows_before y g l x z : z < y -> inRows ((y, g) :: l) x z = false.
Proof. intros H. unfold inRows. by rewrite row_first. Qed.

Lemma inRows_single m cur y g x z : rowsFrom m cur [(y, g)] -> inRows [(y, g)] x z = false.
Proof. intros (_ & _ & _ & _ & E). cbn in E. subst g. unfold inRows. cbn. by case_match. Qed.

(** Rows that go on have a point. *)
Lemma rows_witness m cur y g y' g' l from :
  rowsFrom m cur ((y, g) :: (y', g') :: l) -> from < y' ->
  exists x z, from <= z /\ inRows ((y, g) :: (y', g') :: l) x z = true.
Proof.
  intros H Hf. pose proof H as (_ & _ & Hg & _ & Hy & _ & Hg' & Hn & H').
  destruct g as [|x g].
  - destruct g' as [|x' g']; [done|]. exists x', y'. split; [lia|].
    rewrite (inRows_first _ _ _ _ _ _ _ _ _ H), (proj2 (Z.ltb_ge _ _)), Z.ltb_irrefl by lia.
    unfold inRows. cbn [rowFrom]. rewrite Z.ltb_irrefl, (row_before _ _ _ _ H') by lia. by apply okSegs_witness.
  - exists x, (Z.max from y). split; [lia|].
    rewrite (inRows_first _ _ _ _ _ _ _ _ _ H), (proj2 (Z.ltb_ge _ _)), (proj2 (Z.ltb_lt _ _)) by lia.
    by apply okSegs_witness.
Qed.

Lemma compareSpans_contains_end fuel a b h h' :
  (length a <= 1)%nat \/ (length b <= 1)%nat ->
  compareSpans CompareContainsOperation fuel a b h h' = negb (1 <? length b)%nat.
Proof.
  intros H. destruct fuel, a as [|[? ?] [|[? ?] ?]], b as [|[? ?] [|[? ?] ?]]; simpl in *; (done || lia).
Qed.

Lemma compareSpans_intersects_end fuel a b h h' :
  (length a <= 1)%nat \/ (length b <= 1)%nat ->
  compareSpans CompareIntersectsOperation fuel a b h h' = false.
Proof.
  intros H. destruct fuel, a as [|[? ?] [|[? ?] ?]], b as [|[? ?] [|[? ?] ?]]; simpl in *; (done || lia).
Qed.

Lemma rows_end m cur l x z : rowsFrom m cur l -> (length l <= 1)%nat -> inRows l x z = false.
Proof.
  intros H Hl. destruct l as [|[y g] [|p l]]; simpl in Hl; [done| |lia]. by eapply inRows_single.
Qed.

(** The position of the two iterators: either [b] has not begun above the
    current row of [a], or its span was compared with what is above. *)
Definition position (aY : Z) (aHad : bool) (b : Rows) : Prop :=
  match b with
  | (bY, bS) :: (bMaxY, _) :: _ => aY <= bY \/ (aY < bMaxY /\ (aHad = false -> bS = []))
  | _ => True
  end.

(** A comparison that answers whether [P] holds. *)
Definition answers (r : bool) (P : Prop) : Prop := if r then P else ~ P.

Lemma answers_iff r P Q : (P <-> Q) -> answers r P -> answers r Q.
Proof. unfold answers. destruct r; tauto. Qed.

Section ContainsSpans.
Variables (m1 m2 : Z) (c1 c2 : list Z).
Variables (aY aMaxY bY bMaxY : Z) (aS aS' bS bS' : list Z) (ra rb : Rows).
Abbreviation a' := ((aMaxY, aS') :: ra).
Abbreviation b' := ((bMaxY, bS') :: rb).
Abbreviation a := ((aY, aS) :: a').
Abbreviation b := ((bY, bS) :: b').
Hypothesis Ha : rowsFrom m1 c1 a.
Hypothesis Hb : rowsFrom m2 c2 b.

Lemma subset_rows_overlap : bMaxY > aY -> bY < aMaxY -> subsetRows aY b a -> subsetSegs bS aS.
Proof.
  intros H1 H2 S x Hx. pose proof Ha as (_ & _ & _ & _ & Hya & _). pose proof Hb as (_ & _ & _ & _ & Hyb & _).
  specialize (S x (Z.max aY bY) ltac:(lia)).
  rewrite (inRows_first _ _ _ _ _ _ _ _ _ Ha), (inRows_first _ _ _ _ _ _ _ _ _ Hb) in S.
  lia_tests. auto.
Qed.

Lemma subset_rows_next_a : aMaxY <= bMaxY -> aMaxY <= bY \/ subsetSegs bS aS ->
  (subsetRows aMaxY b a' <-> subsetRows aY b a).
Proof.
  intros H1 H2. pose proof Ha as (_ & _ & _ & _ & Hya & _). split; intros S x y Hy Hin.
  - rewrite (inRows_first _ _ _ _ _ _ _ _ _ Ha). lia_tests.
    destruct (Z.ltb_spec y aMaxY); [|auto]. rewrite (inRows_first _ _ _ _ _ _ _ _ _ Hb) in Hin.
    destruct (Z.ltb_spec y bY); [done|]. lia_tests.
    destruct H2 as [?|H2]; [lia|auto].
  - specialize (S x y ltac:(lia) Hin). rewrite (inRows_first _ _ _ _ _ _ _ _ _ Ha) in S.
    by lia_tests.
Qed.

Lemma subset_rows_next_b : bMaxY <= aMaxY -> subsetSegs bS aS -> 
  (subsetRows aY b' a <-> subsetRows aY b a).
Proof.
  intros H1 H2. pose proof Hb as (_ & _ & _ & _ & Hyb & _). split; intros S x y Hy Hin.
  - rewrite (inRows_first _ _ _ _ _ _ _ _ _ Hb) in Hin. destruct (Z.ltb_spec y bY); [done|].
    destruct (Z.ltb_spec y bMaxY); [|by apply S]. rewrite (inRows_first _ _ _ _ _ _ _ _ _ Ha).
    lia_tests. auto.
  - apply S; [done|]. rewrite (inRows_first _ _ _ _ _ _ _ _ _ Hb).
    destruct (Z.lt_ge_cases y bMaxY); [by rewrite inRows_before in Hin|].
    by lia_tests.
Qed.

Lemma subset_rows_next_both : aMaxY = bMaxY -> subsetSegs bS aS ->
  (subsetRows aMaxY b' a' <-> subsetRows aY b a).
Proof.
  intros H1 H2. rewrite <- subset_rows_next_a by (auto; lia). pose proof Hb as (_ & _ & _ & _ & Hyb & _).
  unfold subsetRows. apply forall_proper. intros x. apply forall_proper. intros y.
  rewrite (inRows_first _ _ _ _ _ _ _ _ _ Hb).
  destruct (Z.lt_ge_cases y aMaxY); [split; lia|]. by lia_tests.
Qed.
End ContainsSpans.

Lemma compareSpans_contains fuel m1 c1 m2 c2 aY aS a b aHad bHad :
  (S (length a) + length b <= fuel)%nat ->
  rowsFrom m1 c1 ((aY, aS) :: a) -> rowsFrom m2 c2 b -> position aY aHad b ->
  answers (compareSpans CompareContainsOperation fuel ((aY, aS) :: a) b aHad bHad)
    (subsetRows aY b ((aY, aS) :: a)).
Proof.
  revert m1 c1 m2 c2 aY aS a b aHad bHad.
  induction fuel as [|fuel IH]; intros m1 c1 m2 c2 aY aS a b aHad bHad Hf Ha Hb Hp; [simpl in Hf; lia|].
  destruct (Nat.le_gt_cases (length b) 1) as [Lb|Lb].
  { rewrite compareSpans_contains_end by auto. rewrite (proj2 (Nat.ltb_ge 1 _)) by lia.
    intros x y _ Hin. by rewrite (rows_end _ _ _ _ _ Hb) in Hin. }
  destruct b as [|[bY bS] [|[bMaxY bS'] b]]; try (simpl in Lb; lia).
  pose proof Hb as (_ & _ & Ob & _ & Kb). pose proof (proj1 Kb) as Hyb. cbn [position] in Hp.
  destruct a as [|[aMaxY aS'] a].
  { rewrite compareSpans_contains_end by auto. intros S.
    destruct (rows_witness _ _ _ _ _ _ _ aY Hb) as (x & z & Hz & Hin); [destruct Hp as [?|[? _]]; lia|].
    specialize (S x z Hz Hin). by rewrite (rows_end _ _ _ _ _ Ha) in S by (simpl; lia). }
  pose proof Ha as (_ & _ & Oa & _ & Ka). pose proof (proj1 Ka) as Hya.
  cbn [compareSpans CompareContainsOperation aOverlapsB aOutsideB bOutsideA]. rewrite !stop_None. cbn [stopIf].
  rewrite Z.gtb_ltb. cbn [length] in Hf.
  destruct ((bY <? aY) && negb aHad && negb (bool_decide (bS = []))) eqn:Hout.
  { exfalso. apply andb_true_iff in Hout as [[?%Z.ltb_lt ?%negb_true_iff]%andb_true_iff Hs].
    apply negb_true_iff, bool_decide_eq_false in Hs. destruct Hp as [?|[_ Hp]]; [lia|auto]. }
  destruct ((aY <? bMaxY) && (bY <? aMaxY)) eqn:Ov.
  - apply andb_true_iff in Ov as [?%Z.ltb_lt ?%Z.ltb_lt].
    destruct (compareSegments_contains (length aS + length bS) aS bS) as [[E S]|[E N]]; [lia|done..| |]; rewrite E;
      [|intros S; apply N; eapply subset_rows_overlap; (done || lia)].
    destruct (Z.ltb_spec aMaxY bMaxY); [|destruct (Z.ltb_spec bMaxY aMaxY)].
    + eapply answers_iff; [eapply subset_rows_next_a; eauto; lia|]. eapply IH; [simpl; lia|done..|].
      right. split; [done|]. intros Hs. apply negb_false_iff, bool_decide_eq_true in Hs. subst aS.
      destruct bS as [|x bS]; [done|]. by specialize (S x (okSegs_witness _ _ Ob)).
    + eapply answers_iff; [eapply subset_rows_next_b; eauto; lia|]. eapply IH; [simpl; lia|done..|].
      destruct b as [|[? ?] ?]; [done|]. left. lia.
    + eapply answers_iff; [eapply subset_rows_next_both; eauto; lia|]. eapply IH; [simpl; lia|done..|].
      destruct b as [|[? ?] ?]; [done|]. left. lia.
  - assert (aMaxY <= bY) by (apply andb_false_iff in Ov as [?%Z.ltb_ge|?%Z.ltb_ge]; destruct Hp as [?|[? _]]; lia).
    rewrite (proj2 (Z.ltb_lt aMaxY bMaxY)) by lia.
    eapply answers_iff; [eapply subset_rows_next_a; eauto; lia|]. eapply IH; [simpl; lia|done..|]. by left.
Qed.

(** [CompareContainsOperation] answers whether the second set is a subset of
    the first one. *)
Lemma compareShapes_contains a b : okRows a -> okRows b ->
  answers (compareShapes CompareContainsOperation (shapeFrom a) (shapeFrom b))
    (forall x y, inRows b x y = true -> inRows a x y = true).
Proof.
  intros Ha Hb. unfold compareShapes. rewrite !spans_shapeFrom. cbn [shapeFrom m_spans]. rewrite !layoutFrom_length.
  destruct (Nat.le_gt_cases (length b) 1) as [Lb|Lb].
  { rewrite compareSpans_contains_end by auto. rewrite (proj2 (Nat.ltb_ge 1 _)) by lia.
    intros x y Hin. by rewrite (rows_end _ _ _ _ _ Hb) in Hin. }
  destruct b as [|[bY bS] [|[bMaxY bS'] b]]; try (simpl in Lb; lia).
  pose proof Hb as (_ & _ & Ob & Nb & Hyb & _). destruct bS as [|x bS]; [done|].
  assert (Hin : inRows ((bY, x :: bS) :: (bMaxY, bS') :: b) x bY = true).
  { rewrite (inRows_first _ _ _ _ _ _ _ _ _ Hb). lia_tests. by apply okSegs_witness. }
  destruct a as [|[aY aS] a].
  { rewrite compareSpans_contains_end by (simpl; lia). intros S. by specialize (S _ _ Hin). }
  destruct (Z.lt_ge_cases bY aY) as [Hlt|Hge].
  - assert (N : ~ forall x0 y, inRows ((bY, x :: bS) :: (bMaxY, bS') :: b) x0 y = true -> inRows ((aY, aS) :: a) x0 y = true).
    { intros S. specialize (S _ _ Hin). by rewrite inRows_before in S. }
    destruct a as [|[aMaxY aS'] a]; [by rewrite compareSpans_contains_end by (simpl; lia)|].
    cbn [length Nat.add compareSpans CompareContainsOperation bOutsideA stopIf aOutsideB aOverlapsB].
    rewrite bool_decide_false by done. by lia_tests.
  - eapply answers_iff; [|eapply compareSpans_contains; [simpl; lia|exact Ha|exact Hb|by left]].
    unfold subsetRows. split; intros S z y; [|auto]. intros Hz. apply S; [|done].
    destruct (Z.lt_ge_cases y bY); [by rewrite inRows_before in Hz|lia].
Qed.

Lemma meetRows_comm a b : meetRows a b <-> meetRows b a.
Proof. unfold meetRows. split; intros (x & y & ? & ?); eauto. Qed.

Section IntersectsSpans.
Variables (m1 m2 : Z) (c1 c2 : list Z).
Variables (aY aMaxY bY bMaxY : Z) (aS aS' bS bS' : list Z) (ra rb : Rows).
Abbreviation a' := ((aMaxY, aS') :: ra).
Abbreviation b' := ((bMaxY, bS') :: rb).
Abbreviation a := ((aY, aS) :: a').
Abbreviation b := ((bY, bS) :: b').
Hypothesis Ha : rowsFrom m1 c1 a.
Hypothesis Hb : rowsFrom m2 c2 b.

Lemma meet_rows_overlap : bMaxY > aY -> bY < aMaxY -> meetSegs aS bS -> meetRows a b.
Proof.
  intros H1 H2 (x & Hx1 & Hx2). pose proof Ha as (_ & _ & _ & _ & Hya & _). pose proof Hb as (_ & _ & _ & _ & Hyb & _).
  exists x, (Z.max aY bY). rewrite (inRows_first _ _ _ _ _ _ _ _ _ Ha), (inRows_first _ _ _ _ _ _ _ _ _ Hb).
  by lia_tests.
Qed.

(** The current span of [a] can be dropped if it ends first. *)
Lemma meet_rows_next : aMaxY <= bMaxY -> aMaxY <= bY \/ ~ meetSegs aS bS ->
  (meetRows a' b <-> meetRows a b).
Proof.
  intros H1 H2. pose proof Ha as (_ & _ & _ & _ & Hya & _). unfold meetRows.
  apply exist_proper. intros x. apply exist_proper. intros y.
  rewrite (inRows_first _ _ _ _ _ _ _ _ _ Ha). destruct (Z.ltb_spec y aMaxY).
  - rewrite (inRows_before aMaxY), (inRows_first _ _ _ _ _ _ _ _ _ Hb) by done. split; [by intros [? ?]|].
    intros [Hi Hj]. exfalso. destruct (Z.ltb_spec y aY); [done|]. destruct (Z.ltb_spec y bY); [done|]. lia_tests.
    destruct H2 as [?|H2]; [lia|]. apply H2. by exists x.
  - by lia_tests.
Qed.

Lemma meet_rows_next_both : aMaxY = bMaxY -> ~ meetSegs aS bS -> (meetRows a' b' <-> meetRows a b).
Proof.
  intros H1 H2. rewrite <- meet_rows_next by (auto; lia). pose proof Hb as (_ & _ & _ & _ & Hyb & _).
  unfold meetRows. apply exist_proper. intros x. apply exist_proper. intros y.
  destruct (Z.lt_ge_cases y aMaxY); [rewrite (inRows_before aMaxY) by done; intuition congruence|].
  rewrite (inRows_first _ _ _ _ _ _ _ _ _ Hb). by lia_tests.
Qed.
End IntersectsSpans.

Lemma compareSpans_intersects fuel m1 c1 m2 c2 a b aHad bHad :
  (length a + length b <= fuel)%nat -> rowsFrom m1 c1 a -> rowsFrom m2 c2 b ->
  answers (compareSpans CompareIntersectsOperation fuel a b aHad bHad) (meetRows a b).
Proof.
  revert m1 c1 m2 c2 a b aHad bHad.
  induction fuel as [|fuel IH]; intros m1 c1 m2 c2 a b aHad bHad Hf Ha Hb.
  { destruct a, b; simpl in Hf; try lia. by intros (x & y & ? & ?). }
  destruct (Nat.le_gt_cases (length a) 1) as [La|La].
  { rewrite compareSpans_intersects_end by auto. intros (x & y & Hi & _). by rewrite (rows_end _ _ _ _ _ Ha) in Hi. }
  destruct (Nat.le_gt_cases (length b) 1) as [Lb|Lb].
  { rewrite compareSpans_intersects_end by auto. intros (x & y & _ & Hi). by rewrite (rows_end _ _ _ _ _ Hb) in Hi. }
  destruct a as [|[aY aS] [|[aMaxY aS'] a]]; try (simpl in La; lia).
  destruct b as [|[bY bS] [|[bMaxY bS'] b]]; try (simpl in Lb; lia).
  pose proof Ha as (_ & _ & Oa & _ & Ka). pose proof (proj1 Ka) as Hya.
  pose proof Hb as (_ & _ & Ob & _ & Kb). pose proof (proj1 Kb) as Hyb.
  cbn [compareSpans CompareIntersectsOperation aOverlapsB aOutsideB bOutsideA]. rewrite !stop_None.
  rewrite Z.gtb_ltb. cbn [length] in Hf.
  destruct (if (aY <? bMaxY) && (bY <? aMaxY) then _ else _) as [r|] eqn:E.
  { destruct (andb _ _) eqn:Ov; [|done]. apply andb_true_iff in Ov as [?%Z.ltb_lt ?%Z.ltb_lt].
    destruct (compareSegments_intersects (length aS + length bS) aS bS) as [[E' _]|[E' M]]; [lia|done..|congruence|].
    rewrite E' in E. injection E as <-. eapply meet_rows_overlap; (done || lia). }
  assert (D : aMaxY <= bY \/ bMaxY <= aY \/ ~ meetSegs aS bS).
  { destruct (andb _ _) eqn:Ov; [|apply andb_false_iff in Ov as [?%Z.ltb_ge|?%Z.ltb_ge]; auto].
    destruct (compareSegments_intersects (length aS + length bS) aS bS) as [[_ M]|[E' _]]; [lia|done..|auto|congruence]. }
  clear E. destruct (Z.ltb_spec aMaxY bMaxY); [|destruct (Z.ltb_spec bMaxY aMaxY)].
  - eapply answers_iff; [eapply meet_rows_next; eauto; [lia|]|eapply IH; eauto; simpl; lia].
    destruct D as [?|[?|?]]; auto; lia.
  - apply (answers_iff _ (meetRows ((aY, aS) :: (aMaxY, aS') :: a) ((bMaxY, bS') :: b)));
      [|eapply IH; eauto; simpl; lia].
    rewrite !(meetRows_comm ((aY, aS) :: _)). eapply meet_rows_next; [done|done|lia|].
    rewrite meetSegs_comm. destruct D as [?|[?|?]]; auto; lia.
  - eapply answers_iff; [eapply meet_rows_next_both; eauto; [lia|]|eapply IH; eauto; simpl; lia].
    destruct D as [?|[?|?]]; auto; lia.
Qed.

(** [CompareIntersectsOperation] answers whether the two sets have a common
    point. *)
Lemma compareShapes_intersects a b : okRows a -> okRows b ->
  answers (compareShapes CompareIntersectsOperation (shapeFrom a) (shapeFrom b)) (meetRows a b).
Proof.
  intros Ha Hb. unfold compareShapes. rewrite !spans_shapeFrom. cbn [shapeFrom m_spans]. rewrite !layoutFrom_length.
  by eapply compareSpans_intersects.
Qed.
