(* ===== verification/RegionAlgebra.v ===== *)
(** * The algebra of regions

    The operations of [Region] compute the operations on sets of points they
    are named after, as long as the coordinates are far enough from the ends
    of [int] for their differences not to overflow; regions are equal exactly
    if they are the same set. *)

From S2P Require Import Prelude Region RegionRows RegionBounds.
Open Scope Z_scope.

(** ** The invariant of a region *)

Record boundsOf (b : IntRect) (l : Rows) : Prop := {
  bounds_tight : Tight (rect_x b) (rect_y b) (maxX b) (maxY b) (inRows l);
  bounds_x : coord (rect_x b);
  bounds_y : coord (rect_y b);
  bounds_maxX : coord (maxX b);
  bounds_maxY : coord (maxY b);
  bounds_width : maxX b = rect_x b + rect_width b;
  bounds_height : maxY b = rect_y b + rect_height b
}.

Definition boundsOk (b : IntRect) (l : Rows) : Prop := (l = [] /\ b = emptyRect) \/ boundsOf b l.

(** The region stores the rows [l]. *)
Definition regionRows (r : Region) (l : Rows) : Prop :=
  m_shape r = shapeFrom l /\ okRows l /\ boundsOk (m_bounds r) l.

Definition regionOk (r : Region) : Prop := exists l, regionRows r l.

(** A rectangle with a point, away from the ends of [int]. *)
Definition okRect (r : IntRect) : Prop :=
  coord (rect_x r) /\ coord (rect_y r) /\ 0 < rect_width r /\ 0 < rect_height r /\
  coord (rect_x r + rect_width r) /\ coord (rect_y r + rect_height r).

Lemma boundsOf_size b l : boundsOf b l -> 0 < rect_width b /\ 0 < rect_height b /\ rect_isEmpty b = false.
Proof.
  intros [T _ _ _ _ W H]. destruct (tight_left _ _ _ _ _ T) as [y Hy]. apply (tight_inside _ _ _ _ _ T) in Hy.
  unfold rect_isEmpty. lia_tests. split_and!; (done || lia).
Qed.

Lemma boundsOk_isEmpty b l : boundsOk b l -> rect_isEmpty b = bool_decide (l = []).
Proof.
  intros [[-> ->]|B]; [done|]. rewrite bool_decide_false; [by eapply boundsOf_size|].
  intros ->. by destruct (tight_left _ _ _ _ _ (bounds_tight _ _ B)).
Qed.

Lemma shape_bounds_ok l : okRows l -> boundsOk (shape_bounds (shapeFrom l)) l.
Proof.
  intros H. destruct (decide (l = [])) as [->|Hne]; [by left|right].
  destruct (shape_bounds_tight l H Hne) as (x0 & y0 & x1 & y1 & ? & ? & ? & ? & T & ->).
  assert (E : forall u v, coord u -> coord v -> int32 (u + (v - u)) = v).
  { intros u v Hu Hv. unfold coord in *. rewrite int32_id by lia. lia. }
  split; unfold maxX, maxY; cbn; rewrite ?E by done; (done || lia).
Qed.

Lemma region_point r l x y : regionRows r l -> region_containsPoint r x y = inRows l x y.
Proof.
  intros (Es & Hl & Hb). unfold region_containsPoint. rewrite Es, spans_shapeFrom, (spansContain_rows _ _ _ _ _ Hl).
  fold (inRows l x y). destruct (inRows l x y) eqn:Hp; [|by case_match].
  destruct Hb as [[-> _]|B]; [done|]. pose proof (tight_inside _ _ _ _ _ (bounds_tight _ _ B) _ _ Hp).
  unfold rect_containsPoint. rewrite !Z.geb_leb. by lia_tests.
Qed.

(** A region that is a rectangle covers its bounds. *)
Lemma isRect_full r l x y : regionRows r l -> l <> [] -> region_isRect r = true ->
  rect_x (m_bounds r) <= x < maxX (m_bounds r) -> rect_y (m_bounds r) <= y < maxY (m_bounds r) ->
  inRows l x y = true.
Proof.
  intros (Es & Hl & Hb) Hne Hr. destruct Hb as [[? _]|B]; [done|].
  unfold region_isRect, shape_isRect in Hr. rewrite Es in Hr. cbn [shapeFrom m_spans m_segments] in Hr.
  rewrite layoutFrom_length in Hr. apply andb_true_iff in Hr as [L1%Nat.leb_le L2%Nat.leb_le].
  destruct l as [|[y0 g] [|[y1 g1] [|p l]]]; try (simpl in L1; lia); [done| |].
  { destruct Hl as (_ & _ & _ & N & E). cbn in E. done. }
  pose proof Hl as (_ & _ & Hg & N & Hy & _ & _ & _ & E1). cbn in E1. subst g1.
  destruct g as [|a g]; [done|]. destruct (okSegs_pair _ _ Hg) as (b & rest & -> & Hbd & Hab & _ & _).
  destruct rest; [|unfold rowSegments in L2; simpl in L2; lia].
  assert (E : forall u v, inRows [(y0, [a; b]); (y1, [])] u v = (y0 <=? v) && (v <? y1) && ((a <=? u) && (u <? b))).
  { intros u v. rewrite (inRows_first _ _ y0 [a; b] y1 [] [] u v Hl), (inSegs_pair _ _ _ _ _ Hbd). cbn [sideFrom].
    rewrite (inRows_single _ _ _ _ _ _ (proj2 (proj2 (proj2 (proj2 Hl))))), orb_false_r.
    destruct (Z.ltb_spec v y0), (Z.leb_spec y0 v), (v <? y1); (done || lia). }
  destruct (bounds_tight _ _ B) as [_ [p Hp] [q Hq] [s Hs] [t Ht]]. rewrite E in *. bool_hyps.
  intros ? ?. by lia_tests.
Qed.

(** ** Building blocks of the operations *)

Lemma emptyRegion_rows : regionRows emptyRegion [].
Proof. split_and!; [done|done|by left]. Qed.

Lemma regionOfRect_rows rc : okRect rc ->
  regionRows (regionOfRect rc)
    [(rect_y rc, [rect_x rc; rect_x rc + rect_width rc]); (rect_y rc + rect_height rc, [])].
Proof.
  destruct rc as [x y w h]. intros (Cx & Cy & Hw & Hh & Cmx & Cmy). cbn [rect_x rect_y rect_width rect_height] in *.
  assert (Ex : int32 (x + w) = x + w) by (apply int32_id; unfold coord in *; lia).
  assert (Ey : int32 (y + h) = y + h) by (apply int32_id; unfold coord in *; lia).
  assert (Hok : okRows [(y, [x; x + w]); (y + h, [])]).
  { unfold okRows, okSegs. cbn [rowsFrom boundaries length Nat.even]. unfold okSegs, coord in *. cbn [boundaries].
    unfold coord. split_and!; (done || lia). }
  split_and!; [|exact Hok|].
  - unfold regionOfRect, shapeOfRect, maxX, maxY. cbn. by rewrite Ex, Ey.
  - right. assert (E : forall u v, inRows [(y, [x; x + w]); (y + h, [])] u v = (y <=? v) && (v <? y + h) && ((x <=? u) && (u <? x + w))).
    { intros u v. unfold inRows. cbn [rowFrom].
      destruct (Z.ltb_spec v y), (Z.leb_spec y v), (Z.ltb_spec v (y + h)); try lia; simpl; try done.
      destruct (Z.ltb_spec u x), (Z.leb_spec x u), (Z.ltb_spec u (x + w)); (done || lia). }
    split; unfold maxX, maxY; cbn; rewrite ?Ex, ?Ey; try done.
    split; [intros u v Hp; rewrite E in Hp; bool_hyps; lia|exists y|exists y|exists x|exists x];
      rewrite E; by lia_tests.
Qed.

Lemma region_contains_rows r s l l' : regionRows r l -> regionRows s l' -> l' <> [] ->
  answers (region_contains r s) (forall x y, inRows l' x y = true -> inRows l x y = true).
Proof.
  intros (Er & Hl & Hb) (Es & Hl' & Hb') Hne. unfold region_contains. rewrite Er, Es.
  destruct (rect_contains _ _) eqn:C; [by apply compareShapes_contains|]. intros S.
  destruct Hb' as [[? _]|B']; [done|]. pose proof (bounds_tight _ _ B') as [_ [p Hp] [q Hq] [u Hu] [t Ht]].
  apply S in Hp, Hq, Hu, Ht. destruct Hb as [[-> _]|B]; [done|].
  pose proof (tight_inside _ _ _ _ _ (bounds_tight _ _ B)) as I. apply I in Hp, Hq, Hu, Ht.
  unfold rect_contains in C. rewrite !Z.geb_leb in C. apply not_true_iff_false in C. apply C. by lia_tests.
Qed.

Lemma rect_intersects_point b b' l l' x y :
  boundsOk b l -> boundsOk b' l' -> inRows l x y = true -> inRows l' x y = true -> rect_intersects b b' = true.
Proof.
  intros [[-> _]|B] [[-> _]|B'] Hp Hp'; try done.
  apply (tight_inside _ _ _ _ _ (bounds_tight _ _ B)) in Hp. apply (tight_inside _ _ _ _ _ (bounds_tight _ _ B')) in Hp'.
  unfold rect_intersects. rewrite (proj2 (proj2 (boundsOf_size _ _ B))), (proj2 (proj2 (boundsOf_size _ _ B'))). simpl.
  by lia_tests.
Qed.

Lemma tight_union x0 y0 x1 y1 x0' y0' x1' y1' (P P' Q : Z -> Z -> bool) :
  (forall x y, Q x y = P x y || P' x y) -> Tight x0 y0 x1 y1 P -> Tight x0' y0' x1' y1' P' ->
  Tight (Z.min x0 x0') (Z.min y0 y0') (Z.max x1 x1') (Z.max y1 y1') Q.
Proof.
  intros E [I [a Ha] [b Hb] [c Hc] [d Hd]] [I' [a' Ha'] [b' Hb'] [c' Hc'] [d' Hd']].
  assert (L : forall x y, P x y = true -> Q x y = true) by (intros x y H; by rewrite E, H).
  assert (R : forall x y, P' x y = true -> Q x y = true) by (intros x y H; by rewrite E, H, orb_true_r).
  split.
  - intros x y H. rewrite E in H. apply orb_true_iff in H as [H|H]; [apply I in H|apply I' in H]; lia.
  - destruct (Z.min_spec x0 x0') as [[_ ->]|[_ ->]]; eauto.
  - destruct (Z.max_spec x1 x1') as [[_ ->]|[_ ->]]; eauto.
  - destruct (Z.min_spec y0 y0') as [[_ ->]|[_ ->]]; eauto.
  - destruct (Z.max_spec y1 y1') as [[_ ->]|[_ ->]]; eauto.
Qed.

(** [IntRect::unite] of the bounds of two regions are the bounds of their union. *)
Lemma rect_unite_bounds b b' l l' t :
  boundsOf b l -> boundsOf b' l' -> (forall x y, inRows t x y = inRows l x y || inRows l' x y) ->
  boundsOf (rect_unite b' b) t.
Proof.
  intros B B' E. pose proof (tight_union _ _ _ _ _ _ _ _ _ _ _ E (bounds_tight _ _ B) (bounds_tight _ _ B')) as T.
  unfold rect_unite. rewrite (proj2 (proj2 (boundsOf_size _ _ B))), (proj2 (proj2 (boundsOf_size _ _ B'))).
  destruct B, B', (tight_left _ _ _ _ _ T) as [y Hy]. unfold coord in *.
  apply (tight_inside _ _ _ _ _ T) in Hy as [Hx _].
  assert (EX : maxX (mkIntRect (Z.min (rect_x b) (rect_x b')) (Z.min (rect_y b) (rect_y b'))
    (int32 (Z.max (maxX b) (maxX b') - Z.min (rect_x b) (rect_x b')))
    (int32 (Z.max (maxY b) (maxY b') - Z.min (rect_y b) (rect_y b')))) = Z.max (maxX b) (maxX b')).
  { unfold maxX at 1. cbn [rect_x rect_width]. rewrite !int32_id; rewrite ?int32_id; lia. }
  assert (EY : maxY (mkIntRect (Z.min (rect_x b) (rect_x b')) (Z.min (rect_y b) (rect_y b'))
    (int32 (Z.max (maxX b) (maxX b') - Z.min (rect_x b) (rect_x b')))
    (int32 (Z.max (maxY b) (maxY b') - Z.min (rect_y b) (rect_y b')))) = Z.max (maxY b) (maxY b')).
  { unfold maxY at 1. cbn [rect_y rect_height]. rewrite !int32_id; rewrite ?int32_id; lia. }
  split; rewrite ?EX, ?EY; cbn [rect_x rect_y rect_width rect_height]; unfold coord;
    try (rewrite int32_id by lia); (exact T || lia).
Qed.

Lemma intersect_rows r s l l' : regionRows r l -> regionRows s l' ->
  exists t, regionRows (region_intersect s r) t /\ forall x y, inRows t x y = inRows l x y && inRows l' x y.
Proof.
  intros Hr Hs. pose proof Hr as (Er & Hl & Hb). pose proof Hs as (Es & Hl' & Hb'). unfold region_intersect.
  rewrite (boundsOk_isEmpty _ _ Hb). case_bool_decide as E0; [subst l; by exists []|].
  destruct (rect_intersects _ _) eqn:EI; simpl.
  - rewrite Er, Es. destruct (shapeOperation_ok _ IntersectOperation_ok l l') as (t & Et & Ht & P); [done..|].
    exists t. unfold intersectShapes. rewrite Et. split; [split_and!; [done..|by apply shape_bounds_ok]|].
    intros x y. rewrite P. by destruct (inRows l x y), (inRows l' x y).
  - exists []. split; [apply emptyRegion_rows|]. intros x y.
    destruct (inRows l x y) eqn:E1, (inRows l' x y) eqn:E2; try done.
    by rewrite (rect_intersects_point _ _ _ _ _ _ Hb Hb' E1 E2) in EI.
Qed.

Lemma subtract_rows r s l l' : regionRows r l -> regionRows s l' ->
  exists t, regionRows (region_subtract s r) t /\ forall x y, inRows t x y = inRows l x y && negb (inRows l' x y).
Proof.
  intros Hr Hs. pose proof Hr as (Er & Hl & Hb). pose proof Hs as (Es & Hl' & Hb'). unfold region_subtract, region_isEmpty.
  rewrite (boundsOk_isEmpty _ _ Hb), (boundsOk_isEmpty _ _ Hb'). case_bool_decide as E0; [subst l; by exists []|].
  case_bool_decide as E1; [subst l'; exists l; split; [done|]; intros x y; by rewrite andb_true_r|].
  destruct (rect_intersects _ _) eqn:EI; simpl.
  - rewrite Er, Es. destruct (shapeOperation_ok _ SubtractOperation_ok l l') as (t & Et & Ht & P); [done..|].
    exists t. unfold subtractShapes. rewrite Et. split; [split_and!; [done..|by apply shape_bounds_ok]|].
    intros x y. rewrite P. by destruct (inRows l x y), (inRows l' x y).
  - exists l. split; [done|]. intros x y. destruct (inRows l x y) eqn:E2, (inRows l' x y) eqn:E3; try done.
    by rewrite (rect_intersects_point _ _ _ _ _ _ Hb Hb' E2 E3) in EI.
Qed.

(** A rectangle whose bounds contain those of another region contains it. *)
Lemma isRect_contains r s l l' x y : regionRows r l -> regionRows s l' -> region_isRect r = true ->
  rect_contains (m_bounds r) (m_bounds s) = true -> inRows l' x y = true -> inRows l x y = true.
Proof.
  intros Hr (_ & _ & Hb') Rr C Hp. destruct Hb' as [[-> _]|B']; [done|].
  pose proof (boundsOf_size _ _ B') as (W & H & _). destruct B' as [T _ _ _ _ EW EH].
  apply (tight_inside _ _ _ _ _ T) in Hp. unfold rect_contains in C. rewrite !Z.geb_leb in C. bool_hyps.
  eapply isRect_full; [exact Hr| |exact Rr|lia|lia]. intros ->. destruct Hr as (_ & _ & [[_ Eb]|B]).
  - rewrite Eb in *. change (maxX emptyRect) with 0 in *. change (rect_x emptyRect) with 0 in *. lia.
  - by destruct (tight_left _ _ _ _ _ (bounds_tight _ _ B)).
Qed.

Lemma unite_rows r s l l' : regionRows r l -> regionRows s l' ->
  exists t, regionRows (region_unite s r) t /\ forall x y, inRows t x y = inRows l x y || inRows l' x y.
Proof.
  intros Hr Hs. pose proof Hr as (Er & Hl & Hb). pose proof Hs as (Es & Hl' & Hb').
  assert (Hkeep : forall t (P P' : Z -> Z -> bool), (forall x y, P' x y = true -> P x y = true) ->
    (forall x y, inRows t x y = P x y) -> forall x y, inRows t x y = P x y || P' x y).
  { intros t P P' HS E x y. rewrite E. destruct (P' x y) eqn:E'; [by rewrite HS|by rewrite orb_false_r]. }
  unfold region_unite, region_isEmpty. rewrite (boundsOk_isEmpty _ _ Hb'). case_bool_decide as E0.
  { subst l'. exists l. split; [done|]. intros x y. by rewrite orb_false_r. }
  destruct (region_isRect r && _) eqn:C1; [exists l; split; [done|]; apply andb_true_iff in C1 as [? ?];
    apply Hkeep; [intros x y; by apply (isRect_contains r s)|done]|].
  destruct (region_isRect s && _) eqn:C2; [exists l'; split; [done|]; apply andb_true_iff in C2 as [? ?];
    intros x y; rewrite orb_comm; apply Hkeep; [intros u v; by apply (isRect_contains s r)|done]|].
  destruct (negb (region_isRect r) && _) eqn:C3.
  { exists l. split; [done|]. apply andb_true_iff in C3 as [_ C3]. pose proof (region_contains_rows _ _ _ _ Hr Hs E0) as A.
    rewrite C3 in A. by apply Hkeep. }
  assert (Hu : exists t, unionShapes (shapeFrom l) (shapeFrom l') = shapeFrom t /\ okRows t /\
    forall x y, inRows t x y = inRows l x y || inRows l' x y).
  { destruct (decide (l = [])) as [->|Hne]; [by exists l'|].
    destruct (shapeOperation_ok _ UnionOperation_ok l l') as (t & Et & Ht & P); [|done..|].
    - cbn. unfold shape_isEmpty. rewrite bool_decide_false; [done|]. cbn. by rewrite layoutFrom_nil.
    - exists t. split_and!; [done..|]. intros x y. rewrite P. by destruct (inRows l x y), (inRows l' x y). }
  destruct Hu as (t & Et & Ht & P). exists t. split; [|done]. split_and!; [by rewrite <- Et, <- Er, <- Es|done|right].
  cbn [m_bounds]. destruct Hb' as [[? _]|B']; [done|]. destruct Hb as [[-> Eb]|B]; [|by eapply rect_unite_bounds].
  rewrite Eb. unfold rect_unite. rewrite (proj2 (proj2 (boundsOf_size _ _ B'))).
  assert (t = l') as ->; [|done]. apply (rows_canonical (- 2 ^ 31) []); [apply okSegs_nil|done..|]. intros x y. apply P.
Qed.

(** Regions that store the same rows are equal. *)
Lemma regionRows_unique r s l : regionRows r l -> regionRows s l -> r = s.
Proof.
  intros (Er & Hl & Hb) (Es & _ & Hb'). destruct r as [br sr], s as [bs ss]. cbn in *. subst sr ss. f_equal.
  destruct Hb as [[-> ->]|B], Hb' as [[Hn ->]|B']; [done| |subst l|].
  1: by destruct (tight_left _ _ _ _ _ (bounds_tight _ _ B')).
  1: by destruct (tight_left _ _ _ _ _ (bounds_tight _ _ B)).
  destruct B as [[I [a Ha] [b Hb] [c Hc] [d Hd]] _ _ _ _ W H], B' as [[I' [a' Ha'] [b' Hb'] [c' Hc'] [d' Hd']] _ _ _ _ W' H'].
  apply I' in Ha, Hb, Hc, Hd. apply I in Ha', Hb', Hc', Hd'.
  destruct br, bs. cbn in *. f_equal; lia.
Qed.

(** ** Translation *)

Definition shiftRows (f g : Z -> Z) (l : Rows) : Rows := map (fun '(y, segs) => (g y, map f segs)) l.

Lemma layoutFrom_shift f g n l :
  map (fun sp => mkSpan (g (span_y sp)) (segmentIndex sp)) (layoutFrom n l) = layoutFrom n (shiftRows f g l).
Proof.
  revert n. induction l as [|[y segs] l IH]; intros n; [done|]. cbn. rewrite IH. by rewrite length_map.
Qed.

Lemma shape_translate_shapeFrom w h l :
  shape_translate w h (shapeFrom l) = shapeFrom (shiftRows (fun x => int32 (x + w)) (fun y => int32 (y + h)) l).
Proof.
  unfold shape_translate, shapeFrom. cbn [m_segments m_spans]. f_equal.
  - unfold rowSegments. induction l as [|[y segs] l IH]; [done|]. cbn. by rewrite map_app, IH.
  - by rewrite <- (layoutFrom_shift (fun x => int32 (x + w)) (fun y => int32 (y + h))).
Qed.

Section Shift.
Variables w h : Z.
Abbreviation shift := (shiftRows (fun x => int32 (x + w)) (fun y => int32 (y + h))).
Abbreviation shiftX := (map (fun x => int32 (x + w))).

Definition shiftable (k z : Z) : Prop := coord (z + k).

Lemma shift_coord k z : shiftable k z -> int32 (z + k) = z + k.
Proof. unfold shiftable, coord. intros H. apply int32_id. lia. Qed.

Lemma boundaries_shift m l : boundaries m l -> Forall (shiftable w) l -> boundaries (m + w) (shiftX l).
Proof.
  revert m. induction l as [|x l IH]; intros m; [done|]. cbn [boundaries map]. intros (Hm & _ & Hl) [Hx Hs]%Forall_cons.
  rewrite (shift_coord _ _ Hx). split_and!; [lia|exact Hx|]. auto.
Qed.

Lemma boundaries_rebase m m' l : boundaries m l -> m' < - 2 ^ 30 -> boundaries m' l.
Proof. destruct l; cbn [boundaries]; [done|]. unfold coord. intros (? & ? & ?) ?. split_and!; (done || lia). Qed.

Lemma okSegs_shift l : okSegs l -> Forall (shiftable w) l -> okSegs (shiftX l).
Proof.
  intros [H E] F. split; [|by rewrite length_map]. eapply boundaries_rebase; [by eapply boundaries_shift|lia].
Qed.

Lemma side_shift b l x : Forall (shiftable w) l -> sideFrom b (shiftX l) (x + w) = sideFrom b l x.
Proof.
  revert b. induction l as [|x0 l IH]; intros b; [done|]. cbn [map sideFrom]. intros [Hx Hs]%Forall_cons.
  rewrite (shift_coord _ _ Hx), IH by done. by destruct (Z.ltb_spec (x + w) (x0 + w)), (Z.ltb_spec x x0); try lia.
Qed.

Lemma shiftX_inj l l' : Forall (shiftable w) l -> Forall (shiftable w) l' -> shiftX l = shiftX l' -> l = l'.
Proof.
  revert l'. induction l as [|x l IH]; intros [|x' l'] H H'; [done..|]. cbn.
  apply Forall_cons in H as [Hx H], H' as [Hx' H']. rewrite !shift_coord by done. intros [= E ?]. f_equal; [lia|auto].
Qed.

Definition rowShiftable (p : Z * list Z) : Prop := shiftable h p.1 /\ Forall (shiftable w) p.2.

Lemma rowsFrom_shift m cur l : rowsFrom m cur l -> Forall (shiftable w) cur -> Forall rowShiftable l ->
  rowsFrom (m + h) (shiftX cur) (shift l).
Proof.
  revert m cur. induction l as [|[y g] l IH]; intros m cur; [by intros ->|]. cbn [rowsFrom shiftRows map].
  intros (Hm & _ & Hg & Hn & Hl) Hc [[Hy Hs] Hr]%Forall_cons. cbn in Hy, Hs. rewrite (shift_coord _ _ Hy).
  split_and!; [lia|exact Hy|by apply okSegs_shift| |by apply IH]. intros E. by apply Hn, shiftX_inj.
Qed.

Lemma row_shift cur l y : Forall rowShiftable l -> rowFrom (shiftX cur) (shift l) (y + h) = shiftX (rowFrom cur l y).
Proof.
  revert cur. induction l as [|[y0 g] l IH]; intros cur; [done|]. cbn [rowFrom shiftRows map].
  intros [[Hy _] Hr]%Forall_cons. cbn in Hy. rewrite (shift_coord _ _ Hy).
  destruct (Z.ltb_spec (y + h) (y0 + h)), (Z.ltb_spec y y0); try lia; [done|by apply IH].
Qed.

Lemma okRows_shift l : okRows l -> Forall rowShiftable l ->
  okRows (shift l) /\ forall x y, inRows (shift l) (x + w) (y + h) = inRows l x y.
Proof.
  intros H F. split.
  - pose proof (rowsFrom_shift _ _ _ H (Forall_nil_2 _) F) as S. unfold okRows. destruct (shift l) as [|[y g] t]; [done|].
    cbn [rowsFrom map] in *. unfold coord in *. destruct S as (? & ? & ? & ? & ?). split_and!; (done || lia).
  - intros x y. unfold inRows. change (@nil Z) with (shiftX []) at 1. rewrite row_shift by done. apply side_shift.
    destruct (row_member [] l y) as [-> | [y0 Hin]]; [done|]. rewrite Forall_forall in F. by destruct (F _ Hin).
Qed.
End Shift.

Lemma row_changes m cur l y g : rowsFrom m cur l -> (y, g) ∈ l -> rowFrom cur l (y - 1) <> g.
Proof.
  revert m cur. induction l as [|[y0 g0] l IH]; intros m cur H Hin; [by apply elem_of_nil in Hin|].
  cbn [rowsFrom] in H. destruct H as (_ & _ & _ & Hn & H). apply elem_of_cons in Hin as [[= -> ->]|Hin].
  - rewrite row_first by lia. congruence.
  - pose proof (row_at _ _ _ _ _ H Hin) as (? & _). rewrite row_step by lia. by eapply IH.
Qed.

(** All coordinates of a region lie within its bounds. *)
Lemma rows_within b l y g : boundsOf b l -> okRows l -> (y, g) ∈ l ->
  rect_y b <= y <= maxY b /\ forall x, x ∈ g -> rect_x b <= x <= maxX b.
Proof.
  intros B H Hin. pose proof (tight_inside _ _ _ _ _ (bounds_tight _ _ B)) as I.
  destruct (row_at _ _ _ _ _ H Hin) as (_ & _ & Hg & E). destruct g as [|x0 g].
  - pose proof (row_changes _ _ _ _ _ H Hin) as Hn. pose proof (okRows_row _ (y - 1) H) as Ho.
    split; [|by intros x ?%elem_of_nil]. destruct (rowFrom [] l (y - 1)) as [|x0 g] eqn:E'; [done|].
    assert (P : inRows l x0 (y - 1) = true) by (unfold inRows; rewrite E'; by apply okSegs_witness).
    apply I in P. lia.
  - assert (P : inRows l x0 y = true) by (unfold inRows; rewrite E; by apply okSegs_witness).
    assert (Q : inRows l (List.last (x0 :: g) 0 - 1) y = true) by (unfold inRows; rewrite E; by apply okSegs_last).
    apply I in P, Q. split; [lia|]. intros x Hx. destruct Hg as [Hg _].
    destruct (boundaries_bounds _ _ _ Hg Hx) as (_ & _ & ?). cbn [List.hd] in *. lia.
Qed.

Lemma translate_rows w h r l :
  regionRows r l -> l <> [] ->
  coord (rect_x (m_bounds r) + w) -> coord (maxX (m_bounds r) + w) ->
  coord (rect_y (m_bounds r) + h) -> coord (maxY (m_bounds r) + h) ->
  exists t, regionRows (region_translate w h r) t /\ forall x y, inRows t (x + w) (y + h) = inRows l x y.
Proof.
  intros (Er & Hl & Hb) Hne C1 C2 C3 C4. destruct Hb as [[? _]|B]; [done|].
  assert (F : Forall (rowShiftable w h) l).
  { apply Forall_forall. intros [y g] Hin. destruct (rows_within _ _ _ _ B Hl Hin) as [Hy Hx].
    unfold rowShiftable, shiftable, coord in *. split; cbn; [lia|]. apply Forall_forall. intros x Hin'. specialize (Hx x Hin'). lia. }
  destruct (okRows_shift w h l Hl F) as [Hok P]. eexists. split; [|exact P].
  split_and!; [cbn; by rewrite Er, shape_translate_shapeFrom|exact Hok|right].
  destruct B as [[I [a Ha] [b Hbb] [c Hc] [d Hd]] ? ? ? ? W H]. destruct r as [[x0 y0 w0 h0] s0]. cbn [m_bounds region_translate] in *.
  assert (EX : maxX (rect_move w h (mkIntRect x0 y0 w0 h0)) = maxX (mkIntRect x0 y0 w0 h0) + w).
  { rewrite W in *. unfold rect_move, maxX, coord in *. cbn in *. rewrite !int32_id; rewrite ?int32_id; lia. }
  assert (EY : maxY (rect_move w h (mkIntRect x0 y0 w0 h0)) = maxY (mkIntRect x0 y0 w0 h0) + h).
  { rewrite H in *. unfold rect_move, maxY, coord in *. cbn in *. rewrite !int32_id; rewrite ?int32_id; lia. }
  assert (E0 : rect_x (rect_move w h (mkIntRect x0 y0 w0 h0)) = x0 + w) by (cbn in *; unfold coord in *; by rewrite int32_id by lia).
  assert (E1 : rect_y (rect_move w h (mkIntRect x0 y0 w0 h0)) = y0 + h) by (cbn in *; unfold coord in *; by rewrite int32_id by lia).
  split; rewrite ?EX, ?EY, ?E0, ?E1; cbn [rect_x rect_y] in *; try done; try (cbn in *; lia).
  split; [|exists (a + h)|exists (b + h)|exists (c + w)|exists (d + w)];
    rewrite ?Z.add_sub_swap, ?P; try done.
  intros x y Hp. specialize (P (x - w) (y - h)). replace (x - w + w) with x in P by lia. replace (y - h + h) with y in P by lia.
  rewrite P in Hp. apply I in Hp. lia.
Qed.

(** ** Regions as sets of points *)

(** The ways a client builds a region from rectangles. *)
Inductive RegionExpr :=
  | NoRegion
  | RectRegion (rect : IntRect)
  | UniteRegions (e1 e2 : RegionExpr)
  | IntersectRegions (e1 e2 : RegionExpr)
  | SubtractRegions (e1 e2 : RegionExpr).

Fixpoint evalRegion (e : RegionExpr) : Region :=
  match e with
  | NoRegion => emptyRegion
  | RectRegion rc => regionOfRect rc
  | UniteRegions e1 e2 => region_unite (evalRegion e2) (evalRegion e1)
  | IntersectRegions e1 e2 => region_intersect (evalRegion e2) (evalRegion e1)
  | SubtractRegions e1 e2 => region_subtract (evalRegion e2) (evalRegion e1)
  end.

Fixpoint denoteRegion (e : RegionExpr) (x y : Z) : bool :=
  match e with
  | NoRegion => false
  | RectRegion rc => (rect_x rc <=? x) && (x <? rect_x rc + rect_width rc)
                     && (rect_y rc <=? y) && (y <? rect_y rc + rect_height rc)
  | UniteRegions e1 e2 => denoteRegion e1 x y || denoteRegion e2 x y
  | IntersectRegions e1 e2 => denoteRegion e1 x y && denoteRegion e2 x y
  | SubtractRegions e1 e2 => denoteRegion e1 x y && negb (denoteRegion e2 x y)
  end.

Fixpoint okExpr (e : RegionExpr) : Prop :=
  match e with
  | NoRegion => True
  | RectRegion rc => okRect rc
  | UniteRegions e1 e2 | IntersectRegions e1 e2 | SubtractRegions e1 e2 => okExpr e1 /\ okExpr e2
  end.

Lemma evalRegion_rows e : okExpr e ->
  exists l, regionRows (evalRegion e) l /\ forall x y, inRows l x y = denoteRegion e x y.
Proof.
  induction e as [|rc|e1 IH1 e2 IH2|e1 IH1 e2 IH2|e1 IH1 e2 IH2]; cbn [okExpr evalRegion denoteRegion].
  - intros _. exists []. split; [apply emptyRegion_rows|done].
  - intros H. eexists. split; [by apply regionOfRect_rows|]. destruct H as (_ & _ & Hw & Hh & _). intros x y.
    unfold inRows. cbn [rowFrom].
    destruct (Z.ltb_spec y (rect_y rc)), (Z.leb_spec (rect_y rc) y), (Z.ltb_spec y (rect_y rc + rect_height rc));
      try lia; cbn; rewrite ?andb_true_r, ?andb_false_r; try done.
    destruct (Z.ltb_spec x (rect_x rc)), (Z.leb_spec (rect_x rc) x), (Z.ltb_spec x (rect_x rc + rect_width rc)); (done || lia).
  - intros [H1 H2]. destruct (IH1 H1) as (l1 & R1 & P1), (IH2 H2) as (l2 & R2 & P2).
    destruct (unite_rows _ _ _ _ R1 R2) as (t & R & P). exists t. split; [done|]. intros x y. by rewrite P, P1, P2.
  - intros [H1 H2]. destruct (IH1 H1) as (l1 & R1 & P1), (IH2 H2) as (l2 & R2 & P2).
    destruct (intersect_rows _ _ _ _ R1 R2) as (t & R & P). exists t. split; [done|]. intros x y. by rewrite P, P1, P2.
  - intros [H1 H2]. destruct (IH1 H1) as (l1 & R1 & P1), (IH2 H2) as (l2 & R2 & P2).
    destruct (subtract_rows _ _ _ _ R1 R2) as (t & R & P). exists t. split; [done|]. intros x y. by rewrite P, P1, P2.
Qed.

Lemma evalRegion_ok e : okExpr e -> regionOk (evalRegion e).
Proof. intros H. destruct (evalRegion_rows e H) as (l & R & _). by exists l. Qed.

(** C9: A region built from non-empty rectangles by [unite], [intersect] and
    [subtract], in any order, satisfies the invariant of [Region] and contains
    exactly the points of the union, intersection and difference of the
    rectangles, as long as the coordinates lie in [-2^30, 2^30). *)
Theorem region_operations_denote_sets e :
  okExpr e -> regionOk (evalRegion e) /\
  forall x y, region_containsPoint (evalRegion e) x y = denoteRegion e x y.
Proof.
  intros H. destruct (evalRegion_rows e H) as (l & R & P). split; [by exists l|].
  intros x y. by rewrite (region_point _ _ _ _ R).
Qed.

Lemma region_operations_denote_sets_witness :
  let e := SubtractRegions
             (UniteRegions (RectRegion (mkIntRect 0 0 10 10)) (RectRegion (mkIntRect 5 (-3) 20 6)))
             (RectRegion (mkIntRect 2 2 4 4)) in
  okExpr e /\ region_containsPoint (evalRegion e) 24 2 = true /\ region_containsPoint (evalRegion e) 3 3 = false.
Proof.
  intros e. assert (H : okExpr e) by (cbn; unfold okRect, coord; cbn; split_and!; lia).
  destruct (region_operations_denote_sets e H) as [_ P]. split; [exact H|]. rewrite !P. split; reflexivity.
Defined.

(** [operator==] decides equality of the sets of points: two regions built
    by the operations have equal bounds and shapes exactly if they contain the
    same points, however they were built. *)
Theorem region_equality_decides_set_equality r s :
  regionOk r -> regionOk s ->
  (r = s <-> forall x y, region_containsPoint r x y = region_containsPoint s x y).
Proof.
  intros [l R] [l' R']. split; [by intros ->|]. intros E. assert (l = l') as <-; [|by eapply regionRows_unique].
  pose proof R as (_ & H & _). pose proof R' as (_ & H' & _).
  apply (rows_canonical (- 2 ^ 31) []); [apply okSegs_nil|done|done|]. intros x y. specialize (E x y).
  by rewrite (region_point _ _ _ _ R), (region_point _ _ _ _ R') in E.
Qed.

Definition sampleLeft : IntRect := mkIntRect 0 0 10 10.
Definition sampleRight : IntRect := mkIntRect 10 0 7 10.

Lemma sample_okRects : okRect sampleLeft /\ okRect sampleRight.
Proof. unfold okRect, coord; cbn; split_and!; lia. Qed.

Lemma regionOfRect_ok rc : okRect rc -> regionOk (regionOfRect rc).
Proof. intros H. eexists. by apply regionOfRect_rows. Qed.

Lemma region_equality_decides_set_equality_witness :
  let r := region_unite (regionOfRect sampleRight) (regionOfRect sampleLeft) in
  let s := regionOfRect (mkIntRect 0 0 17 10) in
  r = s /\ forall x y, region_containsPoint r x y = region_containsPoint s x y.
Proof.
  intros r s. assert (E : r = s) by (vm_compute; reflexivity). split; [exact E|].
  assert (Hs : regionOk s) by (apply regionOfRect_ok; unfold okRect, coord; cbn; split_and!; lia).
  apply (region_equality_decides_set_equality r s); [rewrite E; exact Hs|exact Hs|exact E].
Defined.

(** [Region::contains] of a region that is not empty decides the subset
    relation. *)
Theorem region_contains_decides_subset r s :
  regionOk r -> regionOk s -> region_isEmpty s = false ->
  (region_contains r s = true <->
   forall x y, region_containsPoint s x y = true -> region_containsPoint r x y = true).
Proof.
  intros [l R] [l' R'] Hne. pose proof R' as (_ & _ & Hb). unfold region_isEmpty in Hne.
  rewrite (boundsOk_isEmpty _ _ Hb), bool_decide_eq_false in Hne.
  pose proof (region_contains_rows _ _ _ _ R R' Hne) as A. unfold answers in A.
  setoid_rewrite (region_point _ _ _ _ R). setoid_rewrite (region_point _ _ _ _ R'). by destruct (region_contains r s).
Qed.

Lemma region_contains_decides_subset_witness :
  let r := region_unite (regionOfRect sampleRight) (regionOfRect sampleLeft) in
  let s := regionOfRect (mkIntRect 8 3 5 5) in
  region_contains r s = true /\
  forall x y, region_containsPoint s x y = true -> region_containsPoint r x y = true.
Proof.
  intros r s. assert (E : region_contains r s = true) by (vm_compute; reflexivity). split; [exact E|].
  apply (region_contains_decides_subset r s); [| |reflexivity|exact E].
  - apply (evalRegion_ok (UniteRegions (RectRegion sampleLeft) (RectRegion sampleRight))), sample_okRects.
  - apply regionOfRect_ok; unfold okRect, coord; cbn; split_and!; lia.
Defined.

(** [Region::intersects] decides whether two regions have a common point. *)
Theorem region_intersects_decides_overlap r s :
  regionOk r -> regionOk s ->
  (region_intersects r s = true <->
   exists x y, region_containsPoint r x y = true /\ region_containsPoint s x y = true).
Proof.
  intros [l R] [l' R']. setoid_rewrite (region_point _ _ _ _ R). setoid_rewrite (region_point _ _ _ _ R').
  destruct R as (Er & Hl & Hb), R' as (Es & Hl' & Hb'). unfold region_intersects. rewrite Er, Es.
  destruct (rect_intersects _ _) eqn:EI; cbn [negb].
  - pose proof (compareShapes_intersects l l' Hl Hl') as A. unfold answers, meetRows in A. by destruct (compareShapes _ _ _).
  - split; [done|]. intros (x & y & P & P'). by rewrite (rect_intersects_point _ _ _ _ _ _ Hb Hb' P P') in EI.
Qed.

Lemma region_intersects_decides_overlap_witness :
  let r := regionOfRect sampleLeft in
  let s := regionOfRect sampleRight in
  region_intersects r s = false /\
  ~ exists x y, region_containsPoint r x y = true /\ region_containsPoint s x y = true.
Proof.
  intros r s. split; [vm_compute; reflexivity|]. intros H.
  apply (region_intersects_decides_overlap r s) in H; [discriminate H|exact (regionOfRect_ok _ (proj1 sample_okRects))|].
  exact (regionOfRect_ok _ (proj2 sample_okRects)).
Defined.

Lemma segmentRects_nonempty y0 y1 l rc : okSegs l -> coord y0 -> coord y1 -> y0 < y1 ->
  rc ∈ segmentRects y0 (int32 (y1 - y0)) l -> rect_isEmpty rc = false.
Proof.
  intros H C0 C1 Hy. remember (length l) as n eqn:En. revert l En H.
  induction n as [n IH] using lt_wf_ind. intros [|x0 l] -> H; [by intros ?%elem_of_nil|].
  destruct (okSegs_pair _ _ H) as (mx & rest & -> & Hb & Hx & Hr & _). cbn [segmentRects].
  intros [->|Hin]%elem_of_cons; [|eapply (IH (length rest)); [cbn [length]; lia|done..]].
  pose proof Hb as (_ & Cx & _ & Cm & _). unfold rect_isEmpty, coord in *. cbn. rewrite !int32_id by lia. by lia_tests.
Qed.

Lemma rectsLoop_nonempty m cur l rc : rowsFrom m cur l -> rc ∈ rectsLoop l -> rect_isEmpty rc = false.
Proof.
  revert m cur. induction l as [|[y0 g] l IH]; intros m cur H; [by intros ?%elem_of_nil|].
  cbn [rowsFrom] in H. destruct H as (Hm & Hc & Hg & _ & H). destruct l as [|[y1 g1] l]; [by intros ?%elem_of_nil|].
  pose proof H as (Hy & Hc1 & _). specialize (IH _ _ H). cbn [rectsLoop] in *.
  intros [Hin|Hin]%elem_of_app; [by apply (segmentRects_nonempty y0 y1 g)|auto].
Qed.

(** [Region::rects] partitions the region: none of the rectangles is empty,
    a point of the region lies in exactly one of them, and a point outside in
    none. *)
Theorem rects_partition_region r :
  regionOk r -> (forall rc, rc ∈ rects r -> rect_isEmpty rc = false) /\
  forall x y, covering (rects r) x y = Nat.b2n (region_containsPoint r x y).
Proof.
  intros [l R]. pose proof R as (Er & Hl & _). unfold rects. rewrite Er, spans_shapeFrom. split.
  - intros rc. by apply (rectsLoop_nonempty (- 2 ^ 31) []).
  - intros x y. rewrite (region_point _ _ _ _ R). by eapply covering_rectsLoop.
Qed.

Lemma rects_partition_region_witness :
  let e := UniteRegions (RectRegion (mkIntRect 0 0 10 10)) (RectRegion (mkIntRect 5 5 10 10)) in
  rects (evalRegion e) = [mkIntRect 0 0 10 5; mkIntRect 0 5 15 5; mkIntRect 5 10 10 5] /\
  forall x y, covering (rects (evalRegion e)) x y = Nat.b2n (region_containsPoint (evalRegion e) x y).
Proof.
  intros e. split; [vm_compute; reflexivity|]. apply (rects_partition_region (evalRegion e)).
  apply evalRegion_ok. cbn. unfold okRect, coord. cbn. split_and!; lia.
Defined.

(** The bounds a region keeps are those of its points: the smallest
    rectangle around them, and the empty rectangle if there are none. *)
Theorem region_bounds_tight r :
  regionOk r ->
  if region_isEmpty r then m_bounds r = emptyRect /\ forall x y, region_containsPoint r x y = false
  else Tight (rect_x (m_bounds r)) (rect_y (m_bounds r)) (maxX (m_bounds r)) (maxY (m_bounds r)) (region_containsPoint r).
Proof.
  intros [l R]. pose proof R as (_ & _ & Hb). unfold region_isEmpty.
  destruct Hb as [[-> Eb]|B].
  - rewrite Eb. split; [done|]. intros x y. by rewrite (region_point _ _ _ _ R).
  - rewrite (proj2 (proj2 (boundsOf_size _ _ B))). destruct (bounds_tight _ _ B) as [I [a Ha] [b Hb'] [c Hc] [d Hd]].
    split; [|exists a|exists b|exists c|exists d]; try (by rewrite (region_point _ _ _ _ R)).
    intros x y. rewrite (region_point _ _ _ _ R). apply I.
Qed.

Lemma region_bounds_tight_witness :
  let e := SubtractRegions (RectRegion (mkIntRect 0 0 10 10)) (RectRegion (mkIntRect 0 0 20 4)) in
  m_bounds (evalRegion e) = mkIntRect 0 4 10 6 /\ Tight 0 4 10 10 (region_containsPoint (evalRegion e)).
Proof.
  intros e. split; [vm_compute; reflexivity|]. apply (region_bounds_tight (evalRegion e)).
  apply evalRegion_ok. cbn. unfold okRect, coord. cbn. split_and!; lia.
Defined.

(** [Region::translate] of a region that is not empty moves its points, as
    long as its bounds stay in the range of coordinates. *)
Theorem region_translate_moves_points w h r :
  regionOk r -> region_isEmpty r = false ->
  coord (rect_x (m_bounds r) + w) -> coord (maxX (m_bounds r) + w) ->
  coord (rect_y (m_bounds r) + h) -> coord (maxY (m_bounds r) + h) ->
  regionOk (region_translate w h r) /\
  forall x y, region_containsPoint (region_translate w h r) (x + w) (y + h) = region_containsPoint r x y.
Proof.
  intros [l R] Hne C1 C2 C3 C4. pose proof R as (_ & _ & Hb). unfold region_isEmpty in Hne.
  rewrite (boundsOk_isEmpty _ _ Hb), bool_decide_eq_false in Hne.
  destruct (translate_rows w h r l R Hne C1 C2 C3 C4) as (t & R' & P). split; [by exists t|].
  intros x y. by rewrite (region_point _ _ _ _ R), (region_point _ _ _ _ R').
Qed.

Lemma region_translate_moves_points_witness :
  let r := regionOfRect sampleLeft in
  region_containsPoint (region_translate (-3) 100 r) 6 109 = true.
Proof.
  intros r. change 6 with (9 + -3). change 109 with (9 + 100).
  assert (C : forall z, -3 <= z <= 110 -> coord z) by (unfold coord; lia).
  destruct (region_translate_moves_points (-3) 100 r (regionOfRect_ok _ (proj1 sample_okRects)) eq_refl) as [_ P];
    [apply C; vm_compute; split; intros E; discriminate E..|].
  rewrite P. reflexivity.
Defined.

(** ** Where the code and its comments part *)

(** The header says [contains] returns true if the query region is a subset
    of the region; the empty region is a subset of every region, but its bounds
    are at the origin and the test of the bounds rejects it when the origin is
    outside. *)
Theorem empty_region_not_contained :
  regionOk emptyRegion /\ region_contains (regionOfRect (mkIntRect 5 5 10 10)) emptyRegion = false /\
  region_contains (regionOfRect (mkIntRect (-5) (-5) 10 10)) emptyRegion = true.
Proof. split_and!; [exists []; apply emptyRegion_rows|reflexivity|reflexivity]. Qed.

(** A region of an empty rectangle keeps its boundaries: [isEmpty] holds,
    but [rects] returns an empty rectangle and the region differs from the
    empty one, also after it was united with another region. *)
Theorem empty_rect_leaves_degenerate_span :
  let r := regionOfRect (mkIntRect 100 100 0 0) in
  let s := regionOfRect sampleLeft in
  region_isEmpty r = true /\ rects r = [mkIntRect 100 100 0 0] /\ r <> emptyRegion /\
  rects (region_unite s r) = [sampleLeft; mkIntRect 100 100 0 0] /\ region_unite s r <> s.
Proof. split_and!; vm_compute; congruence. Qed.

(** The loops compare coordinates by the sign of their difference, which
    overflows for coordinates that are further than [INT_MAX] apart: the union
    of two rectangles then loses points of both. *)
Theorem distant_rectangles_overflow :
  let e := UniteRegions (RectRegion (mkIntRect (-2000000000) 0 10 10)) (RectRegion (mkIntRect 2000000000 0 10 10)) in
  denoteRegion e (-1999999995) 5 = true /\ region_containsPoint (evalRegion e) (-1999999995) 5 = false.
Proof. split; vm_compute; reflexivity. Qed.
