(* ===== verification/Blob.v ===== *)
(** * Blobs: registering, slicing and loading them

    [platform/network/BlobData.{h,cpp}], [BlobRegistryImpl.cpp],
    [BlobResourceHandle.cpp], [platform/FileStream.cpp],
    [fileapi/AsyncFileStream.cpp] and [Blob::slice] of [fileapi/Blob.cpp].

    A handle is a record that its functions take and return; the calls of its
    client are a list of events.  [None] is the end of the program: memory that
    is read or written beyond a buffer, or a crash on purpose.  The operating
    system is the class [FileSystem]. *)

From S2P Require Import Prelude CharacterSource IntegerParsing HTTPParsers.
From stdpp Require Import gmap.
Open Scope Z_scope.

(** [long long] *)
Definition int64 (z : Z) : Z := (z + 2 ^ 63) mod 2 ^ 64 - 2 ^ 63.
Definition maxLength : Z := 2 ^ 31 - 1.

(** ** [BlobDataItem] and [BlobData] *)

Inductive BlobItemType := DataItem | FileItem | BlobItem.

(** A time is its whole seconds, [None] if it is not valid. *)
Record BlobDataItem := mkBlobDataItem {
  item_type : BlobItemType;
  item_data : list Z;
  item_path : list UChar;
  item_url : list UChar;
  item_offset : Z;
  item_length : Z;
  item_time : option Z
}.

Definition toEndOfFile : Z := -1.
Definition dataItem (data : list Z) (offset length : Z) : BlobDataItem := mkBlobDataItem DataItem data [] [] offset length None.
Definition fileItem (path : list UChar) (offset length : Z) (expectedModificationTime : option Z) : BlobDataItem :=
  mkBlobDataItem FileItem [] path [] offset length expectedModificationTime.
Definition blobItem (url : list UChar) (offset length : Z) : BlobDataItem := mkBlobDataItem BlobItem [] [] url offset length None.

Record BlobData := mkBlobData { blob_contentType : list UChar; blob_contentDisposition : list UChar; blob_items : list BlobDataItem }.

(** [appendData], [appendFile] and [appendBlob] *)
Definition appendItem (item : BlobDataItem) (blob : BlobData) : BlobData :=
  mkBlobData (blob_contentType blob) (blob_contentDisposition blob) (blob_items blob ++ [item]).

(** ** [Blob::slice] *)

(** The start and the length of the slice, of a blob or file of a size. *)
Definition sliceBounds (size start fin : Z) : Z * Z :=
  let start := if start <? 0 then int64 (start + size) else start in
  let fin := if fin <? 0 then int64 (fin + size) else fin in
  let start := if start <? 0 then 0 else start in
  let fin := if fin <? 0 then 0 else fin in
  let '(start, fin) :=
    if start >=? size then (0, 0)
    else if fin <? start then (start, start)
    else if fin >? size then (start, size)
    else (start, fin) in
  (start, int64 (fin - start)).

(** Types are printable ASCII; [lower] of such a string lowers ASCII letters. *)
Definition isTypeCharacter (c : UChar) : bool := negb ((c <? 0x20) || (c >? 0x7e)).
Definition isValidContentType (contentType : list UChar) : bool := forallb isTypeCharacter contentType.
Definition normalizedContentType (contentType : list UChar) : list UChar := if isValidContentType contentType then map toASCIILower contentType else [].
Definition isNormalizedContentType (contentType : list UChar) : bool := forallb (fun c => isTypeCharacter c && negb ((c >=? "A"%uchar) && (c <=? "Z"%uchar))) contentType.

(** The data of the slice of a blob that is no file, by its internal URL. *)
Definition sliceBlob (url : list UChar) (size start fin : Z) (contentType : list UChar) : BlobData * Z :=
  let '(start, len) := sliceBounds size start fin in (appendItem (blobItem url start len) (mkBlobData (normalizedContentType contentType) [] []), len).
(** Of a file, with the size and the time of the snapshot. *)
Definition sliceFile (path : list UChar) (size modificationTime start fin : Z) (contentType : list UChar) : BlobData * Z :=
  let '(start, len) := sliceBounds size start fin in
  (appendItem (fileItem path start len (Some modificationTime)) (mkBlobData (normalizedContentType contentType) [] []), len).

(** ** [BlobRegistryImpl] *)

Definition BlobRegistry : Type := gmap (list UChar) BlobData.

(** The items a slice starts behind are skipped. *)
Fixpoint skipItems (items : list BlobDataItem) (offset : Z) : list BlobDataItem * Z :=
  match items with
  | [] => ([], offset)
  | item :: rest => if offset >=? item_length item then skipItems rest (int64 (offset - item_length item)) else (items, offset)
  end.
Fixpoint appendSlices (items : list BlobDataItem) (offset len : Z) (blob : BlobData) : BlobData :=
  match items with
  | [] => blob
  | item :: rest =>
      if len >? 0 then
        let currentLength := int64 (item_length item - offset) in
        let newLength := if currentLength >? len then len else currentLength in
        let slice :=
          match item_type item with
          | DataItem => dataItem (item_data item) (int64 (item_offset item + offset)) newLength
          | _ => fileItem (item_path item) (int64 (item_offset item + offset)) newLength (item_time item)
          end in
        appendSlices rest 0 (int64 (len - newLength)) (appendItem slice blob)
      else blob
  end.
Definition appendStorageItems (blob : BlobData) (items : list BlobDataItem) (offset len : Z) : BlobData :=
  let '(items, offset) := if offset =? 0 then (items, offset) else skipItems items offset in appendSlices items offset len blob.

(** The items of a blob that is registered, with other blobs expanded. *)
Definition storeItem (m_blobs : BlobRegistry) (blob : BlobData) (item : BlobDataItem) : BlobData :=
  match item_type item with
  | DataItem => appendItem (dataItem (item_data item) 0 (Z.of_nat (length (item_data item)))) blob
  | FileItem => appendItem (fileItem (item_path item) (item_offset item) (item_length item) (item_time item)) blob
  | BlobItem =>
      match m_blobs !! item_url item with
      | Some other => appendStorageItems blob (blob_items other) (item_offset item) (item_length item)
      | None => blob
      end
  end.
Definition registerBlobURL (url : list UChar) (blobData : BlobData) (m_blobs : BlobRegistry) : BlobRegistry :=
  let stored := fold_left (storeItem m_blobs) (blob_items blobData) (mkBlobData (blob_contentType blobData) (blob_contentDisposition blobData) []) in
  <[url := stored]> m_blobs.
Definition registerBlobURLFrom (url srcURL : list UChar) (m_blobs : BlobRegistry) : BlobRegistry :=
  match m_blobs !! srcURL with
  | Some src => <[url := src]> m_blobs
  | None => m_blobs
  end.
Definition unregisterBlobURL (url : list UChar) (m_blobs : BlobRegistry) : BlobRegistry := delete url m_blobs.
Definition getBlobDataFromURL (url : list UChar) (m_blobs : BlobRegistry) : option BlobData := m_blobs !! url.

(** ** [FileStream] *)

(** What the stream asks of the system: the time and the size of a file, to open
    it, to go to a position, and to read some bytes at a position; [None]
    and [false] are failures. *)
Class FileSystem := {
  getFileModificationTime : list UChar -> option Z;
  getFileSize : list UChar -> option Z;
  openFile : list UChar -> bool;
  seekFile : list UChar -> Z -> bool;
  readFromFile : list UChar -> Z -> Z -> option (list Z)
}.

(** The handle of an open file is its path and the position in it. *)
Record FileStream := mkFileStream { m_handle : option (list UChar * Z); m_bytesProcessed : Z; m_totalBytesToRead : Z }.
Definition newFileStream : FileStream := mkFileStream None 0 0.

Section Streams.
Context `{FileSystem}.

Definition stream_getSize (path : list UChar) (expectedModificationTime : option Z) : Z :=
  match getFileModificationTime path with
  | None => -1
  | Some modificationTime =>
      let changed := match expectedModificationTime with Some time => negb (time =? modificationTime) | None => false end in
      if changed then -1 else match getFileSize path with Some len => len | None => -1 end
  end.

Definition stream_openForRead (path : list UChar) (offset len : Z) (st : FileStream) : bool * FileStream :=
  match m_handle st with
  | Some _ => (true, st)
  | None =>
      if negb (openFile path) then (false, st)
      else if (offset >? 0) && negb (seekFile path offset) then (false, mkFileStream (Some (path, 0)) (m_bytesProcessed st) (m_totalBytesToRead st))
      else (true, mkFileStream (Some (path, if offset >? 0 then offset else 0)) 0 len)
  end.

Definition stream_close (st : FileStream) : FileStream := mkFileStream None (m_bytesProcessed st) (m_totalBytesToRead st).

(** The bytes that were read, [None] for -1. *)
Definition stream_read (size : Z) (st : FileStream) : option (list Z) * FileStream :=
  match m_handle st with
  | None => (None, st)
  | Some (path, position) =>
      let remaining := int64 (m_totalBytesToRead st - m_bytesProcessed st) in
      let bytesToRead := if remaining <? size then int32 remaining else size in
      if bytesToRead >? 0 then
        match readFromFile path position bytesToRead with
        | None => (None, st)
        | Some bytes =>
            let n := Z.of_nat (length bytes) in
            (Some bytes, mkFileStream (Some (path, position + n)) (int64 (m_bytesProcessed st + n)) (m_totalBytesToRead st))
        end
      else (Some [], st)
  end.
End Streams.
