(* ===== verification/BlobSpec.v ===== *)
(** * The bytes of blobs

    What items stand for, with the contents of files given; slices of blobs and
    the expansion of blobs that are registered are slices and concatenations of
    bytes. *)

From S2P Require Import Prelude CharacterSource IntegerParsing WebSocketHandshake HTTPParsers Blob.
From stdpp Require Import gmap.
Open Scope Z_scope.

(** The bytes from a position on, at most so many. *)
Definition sliceOf (offset len : Z) (bytes : list Z) : list Z := take (Z.to_nat len) (drop (Z.to_nat offset) bytes).
Definition sizeOf (bytes : list Z) : Z := Z.of_nat (length bytes).

Lemma int64_id z : - 2 ^ 63 <= z < 2 ^ 63 -> int64 z = z.
Proof. intros HZ. unfold int64. rewrite Z.mod_small; lia. Qed.

(** What is known of the system: the contents of files, and that those that can
    be read are opened and read: some bytes of those that are left, and none only
    at the end. *)
Class FileContents `{FileSystem} := {
  contents : list UChar -> list Z;
  readable : list UChar -> Prop;
  readable_open path : readable path -> openFile path = true;
  readable_seek path offset : readable path -> 0 <= offset -> seekFile path offset = true;
  readable_read path position n : readable path -> 0 <= position -> 0 < n ->
    exists bytes, readFromFile path position n = Some bytes /\ bytes `prefix_of` sliceOf position n (contents path) /\
      (bytes = [] -> drop (Z.to_nat position) (contents path) = [])
}.

Section Bytes.
Context `{FileContents}.

Definition itemBytes (item : BlobDataItem) : list Z :=
  match item_type item with
  | DataItem => sliceOf (item_offset item) (item_length item) (item_data item)
  | FileItem => if item_length item =? toEndOfFile then contents (item_path item) else sliceOf (item_offset item) (item_length item) (contents (item_path item))
  | BlobItem => []
  end.
Definition itemsBytes (items : list BlobDataItem) : list Z := concat (map itemBytes items).

(** Items that are stored: a part of their data, a part of a file that has not
    changed, or a whole file. *)
Definition withinBytes (offset len : Z) (bytes : list Z) : Prop := 0 <= offset /\ 0 <= len /\ offset + len <= sizeOf bytes /\ sizeOf bytes < 2 ^ 62.
Definition fileOk (item : BlobDataItem) : Prop :=
  readable (item_path item) /\ stream_getSize (item_path item) (item_time item) = sizeOf (contents (item_path item)).
Definition itemOk (item : BlobDataItem) : Prop :=
  match item_type item with
  | DataItem => withinBytes (item_offset item) (item_length item) (item_data item)
  | FileItem => fileOk item /\ sizeOf (contents (item_path item)) < 2 ^ 62 /\
      ((item_length item = toEndOfFile /\ item_offset item = 0) \/ withinBytes (item_offset item) (item_length item) (contents (item_path item)))
  | BlobItem => False
  end.
(** Items whose lengths are given, which is so of everything that is sliced. *)
Definition itemSized (item : BlobDataItem) : Prop := itemOk item /\ 0 <= item_length item.

Lemma sliceOf_size offset len bytes : withinBytes offset len bytes -> sizeOf (sliceOf offset len bytes) = len.
Proof. intros (HO & HL & HB & _). unfold sizeOf, sliceOf in *. rewrite length_take, length_drop. lia. Qed.
Lemma sliceOf_sliceOf a m b n bytes : withinBytes a m bytes -> 0 <= b -> 0 <= n -> b + n <= m -> sliceOf b n (sliceOf a m bytes) = sliceOf (a + b) n bytes.
Proof.
  intros (HO & HL & HB & _) Hb Hn HM. unfold sliceOf.
  replace (Z.to_nat (a + b)) with (Z.to_nat a + Z.to_nat b)%nat by lia. rewrite <- drop_drop, skipn_firstn_comm, take_take. f_equal. lia.
Qed.

Lemma itemSized_size item : itemSized item -> sizeOf (itemBytes item) = item_length item.
Proof.
  intros [HO HL]. unfold itemOk, itemBytes in *. destruct (item_type item); [by apply sliceOf_size| |done].
  destruct HO as (_ & _ & [[E _]|HW]); [unfold toEndOfFile in E; lia|]. rewrite (proj2 (Z.eqb_neq _ _)) by (unfold toEndOfFile; lia). by apply sliceOf_size.
Qed.

Lemma itemsBytes_app xs ys : itemsBytes (xs ++ ys) = itemsBytes xs ++ itemsBytes ys.
Proof. unfold itemsBytes. by rewrite map_app, concat_app. Qed.

(** ** Slicing what is stored *)

(** The slice of an item that is appended. *)
Definition sliceItem (item : BlobDataItem) (offset len : Z) : BlobDataItem :=
  match item_type item with
  | DataItem => dataItem (item_data item) (int64 (item_offset item + offset)) len
  | _ => fileItem (item_path item) (int64 (item_offset item + offset)) len (item_time item)
  end.
Lemma sliceItem_ok item offset len : itemSized item -> 0 <= offset -> 0 <= len -> offset + len <= item_length item ->
  itemSized (sliceItem item offset len) /\ itemBytes (sliceItem item offset len) = sliceOf offset len (itemBytes item).
Proof.
  intros [HO HL] H1 H2 H3. unfold sliceItem, itemSized, itemOk, itemBytes in *. destruct (item_type item); [| |done]; cbn [item_type item_offset item_length item_data item_path item_time dataItem fileItem].
  - pose proof HO as (Ha & Hb & Hc & Hd). rewrite int64_id by lia. split; [split; [unfold withinBytes; split_and!; lia|lia]|]. symmetry. apply sliceOf_sliceOf; done || lia.
  - destruct HO as (HF & HS & [[E _]|HW]); [unfold toEndOfFile in E; lia|]. pose proof HW as (Ha & Hb & Hc & Hd).
    rewrite int64_id, !(proj2 (Z.eqb_neq _ _)) by (unfold toEndOfFile; lia). split.
    + split; [split_and!; [exact HF|exact HS|right; unfold withinBytes; split_and!; lia]|lia].
    + symmetry. apply sliceOf_sliceOf; done || lia.
Qed.

Lemma sliceOf_app_within offset len xs ys : 0 <= offset -> 0 <= len -> offset + len <= sizeOf xs -> sliceOf offset len (xs ++ ys) = sliceOf offset len xs.
Proof.
  intros H1 H2 H3. unfold sliceOf, sizeOf in *. rewrite drop_app_le, take_app_le; [done|rewrite length_drop; lia|lia].
Qed.
Lemma sliceOf_app_beyond offset len xs ys : sizeOf xs <= offset -> sliceOf offset len (xs ++ ys) = sliceOf (offset - sizeOf xs) len ys.
Proof. intros HO. unfold sliceOf, sizeOf in *. rewrite drop_app_ge by lia. do 2 f_equal. lia. Qed.
Lemma sliceOf_app_across offset len xs ys : 0 <= offset <= sizeOf xs -> sizeOf xs - offset <= len ->
  sliceOf offset len (xs ++ ys) = sliceOf offset (sizeOf xs - offset) xs ++ sliceOf 0 (len - (sizeOf xs - offset)) ys.
Proof.
  intros HO HL. unfold sliceOf, sizeOf in *. rewrite drop_app_le by lia. rewrite take_app, length_drop, drop_0.
  rewrite !(take_ge (drop _ xs)) by (rewrite length_drop; lia). do 2 f_equal. lia.
Qed.
Lemma sliceOf_nil offset len : sliceOf offset len [] = [].
Proof. unfold sliceOf. by rewrite drop_nil, take_nil. Qed.
Lemma sliceOf_zero offset len bytes : len <= 0 -> sliceOf offset len bytes = [].
Proof. intros HL. unfold sliceOf. by replace (Z.to_nat len) with 0%nat by lia. Qed.

Lemma appendSlices_item item rest offset len blob : 0 < len -> let currentLength := int64 (item_length item - offset) in
  let newLength := if currentLength >? len then len else currentLength in
  appendSlices (item :: rest) offset len blob = appendSlices rest 0 (int64 (len - newLength)) (appendItem (sliceItem item offset newLength) blob).
Proof. intros HL. cbn [appendSlices]. rewrite (proj2 (Z.gtb_lt _ _)) by lia. done. Qed.

(** What the loop over the items appends. *)
Definition appends (blob : BlobData) (bytes : list Z) (blob' : BlobData) : Prop :=
  exists new, blob' = mkBlobData (blob_contentType blob) (blob_contentDisposition blob) (blob_items blob ++ new) /\ Forall itemSized new /\ itemsBytes new = bytes.

Lemma appends_nil blob : appends blob [] blob.
Proof. exists []. split_and!; [destruct blob; cbn; by rewrite app_nil_r|constructor|done]. Qed.
Lemma appends_item blob item bytes blob' : itemSized item -> appends (appendItem item blob) bytes blob' -> appends blob (itemBytes item ++ bytes) blob'.
Proof.
  intros HI (new & -> & HN & <-). exists (item :: new). split_and!; [cbn; by rewrite <- app_assoc|by constructor|done].
Qed.

Lemma appendSlices_bytes items : forall offset len blob, Forall itemSized items -> 0 <= offset -> 0 <= len < 2 ^ 62 ->
  match items with item :: _ => offset <= item_length item | [] => True end ->
  appends blob (sliceOf offset len (itemsBytes items)) (appendSlices items offset len blob).
Proof.
  induction items as [|item items IH]; intros offset len blob HF HO HL HI; [rewrite sliceOf_nil; apply appends_nil|].
  apply Forall_cons in HF as [HS HF]. destruct (decide (len = 0)) as [->|HN]; [rewrite sliceOf_zero by done; apply appends_nil|].
  rewrite appendSlices_item by lia. cbv zeta. pose proof (itemSized_size item HS) as HZ.
  assert (HB : item_length item < 2 ^ 62). { destruct HS as [HO' _]. unfold itemOk in HO'. destruct (item_type item); [destruct HO' as (?&?&?&?); lia| |done].
    destruct HO' as (_ & _ & [[E _]|(?&?&?&?)]); [rewrite E; unfold toEndOfFile|]; lia. }
  rewrite (int64_id (item_length item - offset)) by lia. change (itemsBytes (item :: items)) with (itemBytes item ++ itemsBytes items).
  destruct (Z.gtb_spec (item_length item - offset) len) as [HC|HC].
  - destruct (sliceItem_ok item offset len HS) as [HS' EB]; [lia..|]. rewrite Z.sub_diag, int64_id, sliceOf_app_within by lia.
    rewrite <- EB, <- (app_nil_r (itemBytes _)). apply appends_item; [done|]. replace (@nil Z) with (sliceOf 0 0 (itemsBytes items)) by by apply sliceOf_zero.
    apply IH; try (done || lia). destruct items as [|x items']; [done|]. apply Forall_cons in HF as [[_ HX] _]. lia.
  - destruct (sliceItem_ok item offset (item_length item - offset) HS) as [HS' EB]; [lia..|]. rewrite int64_id, sliceOf_app_across, HZ, <- EB by lia.
    apply appends_item; [done|]. apply IH; try (done || lia). destruct items as [|x items']; [done|]. apply Forall_cons in HF as [[_ HX] _]. lia.
Qed.

Lemma skipItems_bytes items : forall offset, Forall itemSized items -> 0 <= offset < 2 ^ 62 -> let '(items', offset') := skipItems items offset in
  Forall itemSized items' /\ 0 <= offset' /\ match items' with item :: _ => offset' <= item_length item | [] => True end /\
  forall len, sliceOf offset' len (itemsBytes items') = sliceOf offset len (itemsBytes items).
Proof.
  induction items as [|item items IH]; intros offset HF HO; cbn [skipItems]; [split_and!; [constructor|lia|done|done]|].
  apply Forall_cons in HF as [HS HF]. pose proof (itemSized_size item HS) as HZ. assert (HL : 0 <= item_length item) by by destruct HS.
  destruct (Z.geb_spec offset (item_length item)) as [HG|HG].
  - rewrite int64_id by lia. specialize (IH (offset - item_length item) HF ltac:(lia)). destruct (skipItems items _) as [items' offset'].
    destruct IH as (H1 & H2 & H3 & H4). split_and!; try done. intros len. rewrite H4. change (itemsBytes (item :: items)) with (itemBytes item ++ itemsBytes items).
    rewrite sliceOf_app_beyond by lia. by rewrite HZ.
  - split_and!; [by constructor|lia|lia|done].
Qed.

(** A slice of what is stored is a slice of its bytes. *)
Lemma appendStorageItems_bytes blob items offset len : Forall itemSized items -> 0 <= offset < 2 ^ 62 -> 0 <= len < 2 ^ 62 ->
  appends blob (sliceOf offset len (itemsBytes items)) (appendStorageItems blob items offset len).
Proof.
  intros HF HO HL. unfold appendStorageItems. destruct (Z.eqb_spec offset 0) as [->|_].
  - apply appendSlices_bytes; try done. destruct items as [|x items]; [done|]. apply Forall_cons in HF as [[_ HX] _]. done.
  - pose proof (skipItems_bytes items offset HF HO) as HK. destruct (skipItems items offset) as [items' offset']. destruct HK as (H1 & H2 & H3 & H4).
    rewrite <- H4. by apply appendSlices_bytes.
Qed.

(** ** Registering *)

(** The bytes an item stands for when it is registered: all of its data, its
    part of a file, or its slice of another blob. *)
Definition registeredBytes (m_blobs : BlobRegistry) (item : BlobDataItem) : list Z :=
  match item_type item with
  | DataItem => item_data item
  | FileItem => itemBytes item
  | BlobItem => match m_blobs !! item_url item with Some other => sliceOf (item_offset item) (item_length item) (itemsBytes (blob_items other)) | None => [] end
  end.
(** Items that can be registered; of other blobs only slices of known lengths. *)
Definition storable (m_blobs : BlobRegistry) (item : BlobDataItem) : Prop :=
  match item_type item with
  | DataItem => sizeOf (item_data item) < 2 ^ 62
  | FileItem => itemOk item
  | BlobItem => 0 <= item_offset item < 2 ^ 62 /\ 0 <= item_length item < 2 ^ 62 /\
      forall other, m_blobs !! item_url item = Some other -> Forall itemSized (blob_items other)
  end.

Lemma itemSized_ok items : Forall itemSized items -> Forall itemOk items.
Proof. intros HF. eapply Forall_impl; [exact HF|]. by intros item []. Qed.

Lemma storeItem_bytes m_blobs blob item : storable m_blobs item -> exists new,
  storeItem m_blobs blob item = mkBlobData (blob_contentType blob) (blob_contentDisposition blob) (blob_items blob ++ new) /\
  Forall itemOk new /\ itemsBytes new = registeredBytes m_blobs item.
Proof.
  unfold storable, storeItem, registeredBytes. destruct (item_type item) eqn:ET.
  - intros HD. eexists [_]. split_and!; [done| |].
    + apply Forall_singleton. unfold itemOk, withinBytes. cbn. unfold sizeOf in *. lia.
    + unfold itemsBytes, itemBytes. cbn. rewrite app_nil_r. unfold sliceOf. rewrite Nat2Z.id, drop_0. by apply take_ge.
  - intros HO. eexists [_]. split_and!; [done| |].
    + apply Forall_singleton. unfold itemOk in *. rewrite ET in HO. exact HO.
    + unfold itemsBytes, itemBytes. cbn. rewrite app_nil_r, ET. done.
  - intros (H1 & H2 & H3). destruct (m_blobs !! item_url item) as [other|]; [|exists []; destruct blob; cbn; rewrite app_nil_r; by repeat constructor].
    destruct (appendStorageItems_bytes blob (blob_items other) (item_offset item) (item_length item) (H3 other eq_refl) H1 H2) as (new & E & HN & HB).
    exists new. split_and!; [done|by apply itemSized_ok|done].
Qed.

Lemma storeItems_bytes m_blobs items : forall blob, Forall (storable m_blobs) items -> exists new,
  fold_left (storeItem m_blobs) items blob = mkBlobData (blob_contentType blob) (blob_contentDisposition blob) (blob_items blob ++ new) /\
  Forall itemOk new /\ itemsBytes new = concat (map (registeredBytes m_blobs) items).
Proof.
  induction items as [|item items IH]; intros blob HF; [exists []; destruct blob; cbn; rewrite app_nil_r; by repeat constructor|].
  apply Forall_cons in HF as [HI HF]. destruct (storeItem_bytes m_blobs blob item HI) as (new & E & HN & HB). cbn [fold_left]. rewrite E.
  destruct (IH (mkBlobData (blob_contentType blob) (blob_contentDisposition blob) (blob_items blob ++ new)) HF) as (new' & E' & HN' & HB').
  exists (new ++ new'). split_and!; [rewrite E'; cbn; by rewrite <- app_assoc|by apply Forall_app_2|]. rewrite itemsBytes_app, HB, HB'. done.
Qed.

(** A blob that is registered is stored as parts of data and of files that stand
    for the bytes of its items, one after the other, and the others stay. *)
Theorem registered_blob_bytes (url : list UChar) (blobData : BlobData) (m_blobs : BlobRegistry) : Forall (storable m_blobs) (blob_items blobData) ->
  (exists stored, registerBlobURL url blobData m_blobs !! url = Some stored /\ blob_contentType stored = blob_contentType blobData /\
    Forall itemOk (blob_items stored) /\ itemsBytes (blob_items stored) = concat (map (registeredBytes m_blobs) (blob_items blobData))) /\
  forall url', url' <> url -> registerBlobURL url blobData m_blobs !! url' = m_blobs !! url'.
Proof.
  intros HF. unfold registerBlobURL. cbv zeta. split; [|intros url' HN; by apply lookup_insert_ne].
  destruct (storeItems_bytes m_blobs (blob_items blobData) (mkBlobData (blob_contentType blobData) (blob_contentDisposition blobData) []) HF) as (new & -> & HN & HB).
  eexists. split; [apply lookup_insert_eq|]. by split_and!.
Qed.

(** ** [Blob.slice] *)

(** What a slice is created with as its type is normalized, as [BlobData] asserts. *)
Lemma normalizedContentType_normalized contentType : isNormalizedContentType (normalizedContentType contentType) = true.
Proof.
  unfold normalizedContentType, isValidContentType. destruct (forallb isTypeCharacter contentType) eqn:E; [|done]. unfold isNormalizedContentType. set (normal := fun c : UChar => _).
  assert (HA : Forall (fun c => normal (toASCIILower c) = true) (seqZ 0x20 95)) by (apply (bool_decide_unpack _); vm_compute; done).
  rewrite forallb_forall in E |- *. intros c HC. apply in_map_iff in HC as (d & <- & HD). specialize (E d HD). unfold isTypeCharacter in E. bool_hyps.
  rewrite Forall_forall in HA. apply HA, elem_of_seqZ. lia.
Qed.

(** The slice of the File API: positions from the end if they are negative, and
    all of them clamped to the size. *)
Definition clampPosition (size position : Z) : Z := if position <? 0 then Z.max (size + position) 0 else Z.min position size.
Definition apiSlice (start fin : Z) (bytes : list Z) : list Z :=
  let relativeStart := clampPosition (sizeOf bytes) start in
  let relativeEnd := clampPosition (sizeOf bytes) fin in
  sliceOf relativeStart (Z.max (relativeEnd - relativeStart) 0) bytes.

Lemma sliceBounds_spec bytes start fin : sizeOf bytes < 2 ^ 62 -> - 2 ^ 63 <= start < 2 ^ 63 -> - 2 ^ 63 <= fin < 2 ^ 63 ->
  let '(offset, len) := sliceBounds (sizeOf bytes) start fin in
  0 <= offset <= sizeOf bytes /\ 0 <= len /\ offset + len <= sizeOf bytes /\ sliceOf offset len bytes = apiSlice start fin bytes.
Proof.
  intros HS H1 H2. assert (HZ : 0 <= sizeOf bytes) by (unfold sizeOf; lia). unfold sliceBounds, apiSlice, clampPosition.
  set (size := sizeOf bytes) in *. clearbody size.
  set (s1 := if start <? 0 then int64 (start + size) else start). set (f1 := if fin <? 0 then int64 (fin + size) else fin).
  assert (E1 : s1 = if start <? 0 then start + size else start) by (unfold s1; destruct (Z.ltb_spec start 0); [apply int64_id; lia|done]).
  assert (E2 : f1 = if fin <? 0 then fin + size else fin) by (unfold f1; destruct (Z.ltb_spec fin 0); [apply int64_id; lia|done]).
  clearbody s1 f1. subst s1 f1. rewrite !Z.geb_leb, !Z.gtb_ltb.
  destruct (Z.ltb_spec start 0), (Z.ltb_spec fin 0);
    repeat match goal with |- context [if ?u <? 0 then 0 else ?u] => destruct (Z.ltb_spec u 0) end;
    repeat match goal with |- context [?u <? ?v] => destruct (Z.ltb_spec u v) | |- context [?u <=? ?v] => destruct (Z.leb_spec u v) end; try lia;
    rewrite int64_id by lia; split_and!; try lia; (by f_equal; lia) || (rewrite !sliceOf_zero by lia; done).
Qed.

(** The slice of a registered blob as it is stored. *)
Lemma slice_stored (m_blobs : BlobRegistry) (url url' contentType : list UChar) (blob : BlobData) (start fin : Z) :
  m_blobs !! url = Some blob -> Forall itemSized (blob_items blob) -> sizeOf (itemsBytes (blob_items blob)) < 2 ^ 62 ->
  - 2 ^ 63 <= start < 2 ^ 63 -> - 2 ^ 63 <= fin < 2 ^ 63 ->
  let bytes := apiSlice start fin (itemsBytes (blob_items blob)) in
  let '(blobData, size) := sliceBlob url (sizeOf (itemsBytes (blob_items blob))) start fin contentType in
  size = sizeOf bytes /\
  exists stored, registerBlobURL url' blobData m_blobs !! url' = Some stored /\ Forall itemSized (blob_items stored) /\ itemsBytes (blob_items stored) = bytes.
Proof.
  intros HB HI HS H1 H2. cbv zeta. unfold sliceBlob. pose proof (sliceBounds_spec (itemsBytes (blob_items blob)) start fin HS H1 H2) as HP.
  destruct (sliceBounds _ start fin) as [offset len]. destruct HP as (HO & HL & HE & <-). split; [symmetry; apply sliceOf_size; unfold withinBytes; lia|].
  destruct (appendStorageItems_bytes (mkBlobData (normalizedContentType contentType) [] []) (blob_items blob) offset len HI) as (new & EN & HN & HBy); [lia..|].
  eexists. unfold registerBlobURL, storeItem. cbn [fold_left blob_items appendItem app item_type blobItem item_url item_offset item_length blob_contentType blob_contentDisposition].
  rewrite HB, EN. split; [apply lookup_insert_eq|]. by split.
Qed.
End Bytes.

(** ** A file to read *)

Module BlobSamples.
(** Every file has ten bytes and was changed at a time; the system reads at
    most three of them at a time. *)
Definition digits : list Z := str "0123456789".
#[export] Instance sampleFileSystem : FileSystem := {|
  getFileModificationTime _ := Some 7;
  getFileSize _ := Some 10;
  openFile _ := true;
  seekFile _ _ := true;
  readFromFile _ position n := Some (sliceOf position (Z.min n 3) digits)
|}.

Lemma sample_read (path : list UChar) position n : True -> 0 <= position -> 0 < n ->
  exists bytes, readFromFile path position n = Some bytes /\ bytes `prefix_of` sliceOf position n digits /\ (bytes = [] -> drop (Z.to_nat position) digits = []).
Proof.
  intros _ HP HN. exists (sliceOf position (Z.min n 3) digits). unfold sliceOf. split_and!; [done| |].
  - exists (drop (Z.to_nat (Z.min n 3)) (take (Z.to_nat n) (drop (Z.to_nat position) digits))).
    rewrite <- (take_drop (Z.to_nat (Z.min n 3)) (take (Z.to_nat n) (drop (Z.to_nat position) digits))) at 1. by rewrite take_take, Nat.min_l by lia.
  - intros E. apply (f_equal length) in E. rewrite length_take in E. apply nil_length_inv. cbn [length] in E. lia.
Qed.
#[export] Instance sampleFileContents : FileContents := {|
  contents _ := digits;
  readable _ := True;
  readable_open _ _ := eq_refl;
  readable_seek _ _ _ _ := eq_refl;
  readable_read := sample_read
|}.

(** Data, the bytes 2 to 7 of a file, and more data. *)
Definition sampleBlob : BlobData := mkBlobData [] [] [dataItem (str "hello") 0 5; fileItem [] 2 6 (Some 7); dataItem (str "xworldx") 1 5].
Lemma sampleBlobItems : Forall itemSized (blob_items sampleBlob).
Proof.
  repeat (apply Forall_cons_2; [split; [|done]|]); [|split_and!; [split; done|done|right]| |by apply Forall_nil_2]; split_and!; vm_compute; done.
Qed.
Lemma sampleItemsOk : Forall itemOk (blob_items sampleBlob).
Proof. eapply Forall_impl; [apply sampleBlobItems|]. by intros item [HI _]. Qed.
(** Of a system for tests: letters are ASCII, and memory is full of question
    marks. *)
#[export] Instance sampleFolding : CaseFolding := toASCIILower.
#[export] Instance sampleDirection : CharDirection := fun _ => false.
Definition sampleMemory (n : nat) : list Z := repeat 63 n.
Lemma sampleMemory_length n : length (sampleMemory n) = n.
Proof. apply repeat_length. Qed.

Definition sampleRegistry : BlobRegistry := <[str "blob:1" := sampleBlob]> ∅.
Lemma sampleRegistered : getBlobDataFromURL (str "blob:1") sampleRegistry = Some sampleBlob.
Proof. apply lookup_insert_eq. Qed.
End BlobSamples.
