(* ===== verification/BlobResourceHandle.v ===== *)
(** * Loading blobs

    [platform/network/BlobResourceHandle.cpp]: a handle finds the sizes of the
    items of its blob, goes to the range that is asked for, and reads the items
    one after the other, at once or with an [AsyncFileStream] that does the work
    on files in another thread. *)

From S2P Require Import Prelude CharacterSource IntegerParsing WebSocketHandshake HTTPParsers Blob.
Open Scope Z_scope.

Definition bufferSize : Z := 512 * 1024.
Definition positionNotSpecified : Z := -1.
Definition httpOK : Z := 200.
Definition httpPartialContent : Z := 206.
Definition httpNotAllowed : Z := 403.
Definition httpNotFound : Z := 404.
Definition httpRequestedRangeNotSatisfiable : Z := 416.
Definition httpInternalError : Z := 500.
Definition notFoundError : Z := 1.
Definition securityError : Z := 2.
Definition rangeError : Z := 3.
Definition notReadableError : Z := 4.
Definition methodNotAllowed : Z := 5.

(** The calls of the client. *)
Inductive BlobEvent :=
  | DidReceiveResponse (status expectedContentLength : Z)
  | DidReceiveData (data : list Z)
  | DidFail (errorCode : Z)
  | DidFinishLoading.

(** The tasks of the file thread and of the main thread that are posted. *)
Inductive FileTask :=
  | GetSizeTask (path : list UChar) (expectedModificationTime : option Z)
  | OpenTask (path : list UChar) (offset len : Z)
  | ReadTask (size : Z)
  | CloseTask.
Inductive MainTask := StartTask | FinishTask.

(** [BlobResourceSynchronousLoader] *)
Record Loader := mkLoader { l_error : option Z; l_response : option (Z * Z); l_data : list Z }.

(** [m_stream] is the stream of the handle or of its [AsyncFileStream]. *)
Record BlobHandle := mkBlobHandle {
  m_blobData : option BlobData;
  m_range : list UChar;
  m_async : bool;
  m_stream : FileStream;
  m_itemLengthList : list Z;
  m_errorCode : Z;
  m_aborted : bool;
  m_rangeOffset : Z;
  m_rangeEnd : Z;
  m_rangeSuffixLength : Z;
  m_totalRemainingSize : Z;
  m_currentItemReadSize : Z;
  m_sizeItemCount : nat;
  m_readItemCount : nat;
  m_fileOpened : bool;
  m_fileTasks : list FileTask;
  m_mainTasks : list MainTask;
  m_events : list BlobEvent;
  m_loader : Loader
}.

#[global] Instance set_blob_blobData : Setter m_blobData := fun v r =>
  mkBlobHandle v (m_range r) (m_async r) (m_stream r) (m_itemLengthList r) (m_errorCode r) (m_aborted r) (m_rangeOffset r) (m_rangeEnd r) (m_rangeSuffixLength r) (m_totalRemainingSize r) (m_currentItemReadSize r) (m_sizeItemCount r) (m_readItemCount r) (m_fileOpened r) (m_fileTasks r) (m_mainTasks r) (m_events r) (m_loader r).
#[global] Instance set_blob_stream : Setter m_stream := fun v r =>
  mkBlobHandle (m_blobData r) (m_range r) (m_async r) v (m_itemLengthList r) (m_errorCode r) (m_aborted r) (m_rangeOffset r) (m_rangeEnd r) (m_rangeSuffixLength r) (m_totalRemainingSize r) (m_currentItemReadSize r) (m_sizeItemCount r) (m_readItemCount r) (m_fileOpened r) (m_fileTasks r) (m_mainTasks r) (m_events r) (m_loader r).
#[global] Instance set_blob_itemLengthList : Setter m_itemLengthList := fun v r =>
  mkBlobHandle (m_blobData r) (m_range r) (m_async r) (m_stream r) v (m_errorCode r) (m_aborted r) (m_rangeOffset r) (m_rangeEnd r) (m_rangeSuffixLength r) (m_totalRemainingSize r) (m_currentItemReadSize r) (m_sizeItemCount r) (m_readItemCount r) (m_fileOpened r) (m_fileTasks r) (m_mainTasks r) (m_events r) (m_loader r).
#[global] Instance set_blob_errorCode : Setter m_errorCode := fun v r =>
  mkBlobHandle (m_blobData r) (m_range r) (m_async r) (m_stream r) (m_itemLengthList r) v (m_aborted r) (m_rangeOffset r) (m_rangeEnd r) (m_rangeSuffixLength r) (m_totalRemainingSize r) (m_currentItemReadSize r) (m_sizeItemCount r) (m_readItemCount r) (m_fileOpened r) (m_fileTasks r) (m_mainTasks r) (m_events r) (m_loader r).
#[global] Instance set_blob_aborted : Setter m_aborted := fun v r =>
  mkBlobHandle (m_blobData r) (m_range r) (m_async r) (m_stream r) (m_itemLengthList r) (m_errorCode r) v (m_rangeOffset r) (m_rangeEnd r) (m_rangeSuffixLength r) (m_totalRemainingSize r) (m_currentItemReadSize r) (m_sizeItemCount r) (m_readItemCount r) (m_fileOpened r) (m_fileTasks r) (m_mainTasks r) (m_events r) (m_loader r).
#[global] Instance set_blob_rangeOffset : Setter m_rangeOffset := fun v r =>
  mkBlobHandle (m_blobData r) (m_range r) (m_async r) (m_stream r) (m_itemLengthList r) (m_errorCode r) (m_aborted r) v (m_rangeEnd r) (m_rangeSuffixLength r) (m_totalRemainingSize r) (m_currentItemReadSize r) (m_sizeItemCount r) (m_readItemCount r) (m_fileOpened r) (m_fileTasks r) (m_mainTasks r) (m_events r) (m_loader r).
#[global] Instance set_blob_rangeEnd : Setter m_rangeEnd := fun v r =>
  mkBlobHandle (m_blobData r) (m_range r) (m_async r) (m_stream r) (m_itemLengthList r) (m_errorCode r) (m_aborted r) (m_rangeOffset r) v (m_rangeSuffixLength r) (m_totalRemainingSize r) (m_currentItemReadSize r) (m_sizeItemCount r) (m_readItemCount r) (m_fileOpened r) (m_fileTasks r) (m_mainTasks r) (m_events r) (m_loader r).
#[global] Instance set_blob_rangeSuffixLength : Setter m_rangeSuffixLength := fun v r =>
  mkBlobHandle (m_blobData r) (m_range r) (m_async r) (m_stream r) (m_itemLengthList r) (m_errorCode r) (m_aborted r) (m_rangeOffset r) (m_rangeEnd r) v (m_totalRemainingSize r) (m_currentItemReadSize r) (m_sizeItemCount r) (m_readItemCount r) (m_fileOpened r) (m_fileTasks r) (m_mainTasks r) (m_events r) (m_loader r).
#[global] Instance set_blob_totalRemainingSize : Setter m_totalRemainingSize := fun v r =>
  mkBlobHandle (m_blobData r) (m_range r) (m_async r) (m_stream r) (m_itemLengthList r) (m_errorCode r) (m_aborted r) (m_rangeOffset r) (m_rangeEnd r) (m_rangeSuffixLength r) v (m_currentItemReadSize r) (m_sizeItemCount r) (m_readItemCount r) (m_fileOpened r) (m_fileTasks r) (m_mainTasks r) (m_events r) (m_loader r).
#[global] Instance set_blob_currentItemReadSize : Setter m_currentItemReadSize := fun v r =>
  mkBlobHandle (m_blobData r) (m_range r) (m_async r) (m_stream r) (m_itemLengthList r) (m_errorCode r) (m_aborted r) (m_rangeOffset r) (m_rangeEnd r) (m_rangeSuffixLength r) (m_totalRemainingSize r) v (m_sizeItemCount r) (m_readItemCount r) (m_fileOpened r) (m_fileTasks r) (m_mainTasks r) (m_events r) (m_loader r).
#[global] Instance set_blob_sizeItemCount : Setter m_sizeItemCount := fun v r =>
  mkBlobHandle (m_blobData r) (m_range r) (m_async r) (m_stream r) (m_itemLengthList r) (m_errorCode r) (m_aborted r) (m_rangeOffset r) (m_rangeEnd r) (m_rangeSuffixLength r) (m_totalRemainingSize r) (m_currentItemReadSize r) v (m_readItemCount r) (m_fileOpened r) (m_fileTasks r) (m_mainTasks r) (m_events r) (m_loader r).
#[global] Instance set_blob_readItemCount : Setter m_readItemCount := fun v r =>
  mkBlobHandle (m_blobData r) (m_range r) (m_async r) (m_stream r) (m_itemLengthList r) (m_errorCode r) (m_aborted r) (m_rangeOffset r) (m_rangeEnd r) (m_rangeSuffixLength r) (m_totalRemainingSize r) (m_currentItemReadSize r) (m_sizeItemCount r) v (m_fileOpened r) (m_fileTasks r) (m_mainTasks r) (m_events r) (m_loader r).
#[global] Instance set_blob_fileOpened : Setter m_fileOpened := fun v r =>
  mkBlobHandle (m_blobData r) (m_range r) (m_async r) (m_stream r) (m_itemLengthList r) (m_errorCode r) (m_aborted r) (m_rangeOffset r) (m_rangeEnd r) (m_rangeSuffixLength r) (m_totalRemainingSize r) (m_currentItemReadSize r) (m_sizeItemCount r) (m_readItemCount r) v (m_fileTasks r) (m_mainTasks r) (m_events r) (m_loader r).
#[global] Instance set_blob_fileTasks : Setter m_fileTasks := fun v r =>
  mkBlobHandle (m_blobData r) (m_range r) (m_async r) (m_stream r) (m_itemLengthList r) (m_errorCode r) (m_aborted r) (m_rangeOffset r) (m_rangeEnd r) (m_rangeSuffixLength r) (m_totalRemainingSize r) (m_currentItemReadSize r) (m_sizeItemCount r) (m_readItemCount r) (m_fileOpened r) v (m_mainTasks r) (m_events r) (m_loader r).
#[global] Instance set_blob_mainTasks : Setter m_mainTasks := fun v r =>
  mkBlobHandle (m_blobData r) (m_range r) (m_async r) (m_stream r) (m_itemLengthList r) (m_errorCode r) (m_aborted r) (m_rangeOffset r) (m_rangeEnd r) (m_rangeSuffixLength r) (m_totalRemainingSize r) (m_currentItemReadSize r) (m_sizeItemCount r) (m_readItemCount r) (m_fileOpened r) (m_fileTasks r) v (m_events r) (m_loader r).
#[global] Instance set_blob_events : Setter m_events := fun v r =>
  mkBlobHandle (m_blobData r) (m_range r) (m_async r) (m_stream r) (m_itemLengthList r) (m_errorCode r) (m_aborted r) (m_rangeOffset r) (m_rangeEnd r) (m_rangeSuffixLength r) (m_totalRemainingSize r) (m_currentItemReadSize r) (m_sizeItemCount r) (m_readItemCount r) (m_fileOpened r) (m_fileTasks r) (m_mainTasks r) v (m_loader r).
#[global] Instance set_blob_loader : Setter m_loader := fun v r =>
  mkBlobHandle (m_blobData r) (m_range r) (m_async r) (m_stream r) (m_itemLengthList r) (m_errorCode r) (m_aborted r) (m_rangeOffset r) (m_rangeEnd r) (m_rangeSuffixLength r) (m_totalRemainingSize r) (m_currentItemReadSize r) (m_sizeItemCount r) (m_readItemCount r) (m_fileOpened r) (m_fileTasks r) (m_mainTasks r) (m_events r) v.

(** The constructor; [range] is the header of the request. *)
Definition newBlobHandle (blobData : option BlobData) (range : list UChar) (async : bool) : BlobHandle :=
  mkBlobHandle blobData range async newFileStream [] 0 false positionNotSpecified positionNotSpecified positionNotSpecified 0 0 0 0 false [] [] []
    (mkLoader None None []).

Definition handleItems (h : BlobHandle) : list BlobDataItem := match m_blobData h with Some blob => blob_items blob | None => [] end.
Definition stopped (h : BlobHandle) : bool := m_aborted h || negb (m_errorCode h =? 0).
Definition emit (e : BlobEvent) (h : BlobHandle) : BlobHandle := h <| m_events := m_events h ++ [e] |>.

(** Bytes of a buffer; [None] if they are not all in it. *)
Definition bytesAt (data : list Z) (from count : Z) : option (list Z) :=
  if (0 <=? from) && (0 <=? count) && (from + count <=? Z.of_nat (length data)) then Some (take (Z.to_nat count) (drop (Z.to_nat from) data)) else None.

Section Handles.
Context `{CaseFolding} `{CharDirection} `{FileSystem}.
(** What memory holds that was not written. *)
Variable freshMemory : nat -> list Z.

(** ** Going to the range *)

Fixpoint seekLoop (itemLengths : list Z) (count : nat) (offset : Z) : nat * Z :=
  match itemLengths with
  | [] => (count, offset)
  | len :: rest => if offset >=? len then seekLoop rest (S count) (int64 (offset - len)) else (count, offset)
  end.

Definition seek (h : BlobHandle) : BlobHandle :=
  let h :=
    if negb (m_rangeSuffixLength h =? positionNotSpecified) then
      let rangeOffset := int64 (m_totalRemainingSize h - m_rangeSuffixLength h) in
      h <| m_rangeOffset := rangeOffset |> <| m_rangeEnd := int64 (rangeOffset + m_rangeSuffixLength h - 1) |>
    else h in
  if m_rangeOffset h =? positionNotSpecified then h
  else
    let '(count, offset) := seekLoop (m_itemLengthList h) 0 (m_rangeOffset h) in
    let h := h <| m_readItemCount := count |> <| m_currentItemReadSize := offset |> in
    if negb (m_rangeEnd h =? positionNotSpecified) then
      let rangeSize := int64 (m_rangeEnd h - m_rangeOffset h + 1) in
      if m_totalRemainingSize h >? rangeSize then h <| m_totalRemainingSize := rangeSize |> else h
    else h <| m_totalRemainingSize := int64 (m_totalRemainingSize h - m_rangeOffset h) |>.

(** ** Notifying the client *)

Definition notifyFinish (h : BlobHandle) : BlobHandle :=
  if m_async h then h <| m_mainTasks := m_mainTasks h ++ [FinishTask] |>
  else if m_aborted h then h else emit DidFinishLoading h.
Definition notifyReceiveData (data : list Z) (h : BlobHandle) : BlobHandle := emit (DidReceiveData data) h.
Definition notifyFail (errorCode : Z) (h : BlobHandle) : BlobHandle := emit (DidFail errorCode) h.

(** ** Reading at once *)

(** The functions that read return the bytes they have written to the buffer. *)
Definition readDataSync (item : BlobDataItem) (len : Z) (h : BlobHandle) : option (list Z * BlobHandle) :=
  let remaining := int64 (item_length item - m_currentItemReadSize h) in
  let bytesToRead := if len >? remaining then int32 remaining else len in
  let bytesToRead := if bytesToRead >? m_totalRemainingSize h then int32 (m_totalRemainingSize h) else bytesToRead in
  bytes ← bytesAt (item_data item) (item_offset item + m_currentItemReadSize h) bytesToRead;
  let h := h <| m_totalRemainingSize := int64 (m_totalRemainingSize h - bytesToRead) |>
             <| m_currentItemReadSize := int64 (m_currentItemReadSize h + bytesToRead) |> in
  Some (bytes,
    if m_currentItemReadSize h =? item_length item then h <| m_readItemCount := S (m_readItemCount h) |> <| m_currentItemReadSize := 0 |> else h).

(** The file is opened at the place that is asked for. *)
Definition openFileSync (item : BlobDataItem) (h : BlobHandle) : option (bool * BlobHandle) :=
  if m_fileOpened h then Some (true, h)
  else
    itemLength ← m_itemLengthList h !! m_readItemCount h;
    let bytesToRead := int64 (itemLength - m_currentItemReadSize h) in
    let bytesToRead := if bytesToRead >? m_totalRemainingSize h then m_totalRemainingSize h else bytesToRead in
    let '(success, stream) := stream_openForRead (item_path item) (int64 (item_offset item + m_currentItemReadSize h)) bytesToRead (m_stream h) in
    let h := h <| m_stream := stream |> <| m_currentItemReadSize := 0 |> in
    Some (if success then (true, h <| m_fileOpened := true |>) else (false, h <| m_errorCode := notReadableError |>)).
Definition readFileSync (item : BlobDataItem) (len : Z) (h : BlobHandle) : option (list Z * BlobHandle) :=
  '(success, h) ← openFileSync item h;
  Some
    (if negb success then ([], h)
     else
       let '(result, stream) := stream_read len (m_stream h) in
       let h := h <| m_stream := stream |> in
       match result with
       | None => ([], h <| m_errorCode := notReadableError |>)
       | Some [] => ([], h <| m_stream := stream_close stream |> <| m_fileOpened := false |> <| m_readItemCount := S (m_readItemCount h) |>)
       | Some bytes => (bytes, h <| m_totalRemainingSize := int64 (m_totalRemainingSize h - Z.of_nat (length bytes)) |>)
       end).

(** The loop of [readSync]: what was written, and what is left of the buffer. *)
Fixpoint readSyncLoop (fuel : nat) (remaining : Z) (h : BlobHandle) : option (list Z * BlobHandle) :=
  match fuel with
  | O => None
  | S fuel =>
      if remaining =? 0 then Some ([], h)
      else if stopped h then Some ([], h)
      else if m_totalRemainingSize h =? 0 then Some ([], h)
      else
        match handleItems h !! m_readItemCount h with
        | None => Some ([], h)
        | Some item =>
            '(bytes, h) ← match item_type item with
                          | DataItem => readDataSync item remaining h
                          | FileItem => readFileSync item remaining h
                          | BlobItem => Some ([], h)
                          end;
            '(rest, h) ← readSyncLoop fuel (remaining - Z.of_nat (length bytes)) h;
            Some (bytes ++ rest, h)
        end
  end.

(** The bytes that were written, and -1 or their number. *)
Definition readSync (len : Z) (h : BlobHandle) : option (list Z * Z * BlobHandle) :=
  '(bytes, h) ← readSyncLoop (S (Z.to_nat len + 2 * length (handleItems h))) len h;
  let result := if stopped h then -1 else Z.of_nat (length bytes) in
  let h := if result >? 0 then notifyReceiveData bytes h else h in
  Some (bytes, result, if result =? 0 then notifyFinish h else h).

(** [BlobResourceSynchronousLoader::didReceiveResponse]: the buffer is as long
    as the response says, and not initialized. *)
Definition loaderDidReceiveResponse (status expectedContentLength : Z) (h : BlobHandle) : option BlobHandle :=
  let loader := m_loader h in
  if expectedContentLength >? maxLength then Some (h <| m_loader := mkLoader (Some notReadableError) (l_response loader) (l_data loader) |>)
  else if expectedContentLength <? 0 then None
  else
    '(bytes, _, h) ← readSync expectedContentLength h;
    let buffer := bytes ++ drop (length bytes) (freshMemory (Z.to_nat expectedContentLength)) in
    Some (h <| m_loader := mkLoader (l_error loader) (Some (status, expectedContentLength)) buffer |>).

(** ** Responses *)

(** The client of a handle that is not asynchronous is the loader. *)
Definition didReceiveResponse (status expectedContentLength : Z) (h : BlobHandle) : option BlobHandle :=
  let h := emit (DidReceiveResponse status expectedContentLength) h in
  if m_async h then Some h else loaderDidReceiveResponse status expectedContentLength h.

Definition notifyResponseOnSuccess (h : BlobHandle) : option BlobHandle :=
  let isRangeRequest := negb (m_rangeOffset h =? positionNotSpecified) in
  didReceiveResponse (if isRangeRequest then httpPartialContent else httpOK) (m_totalRemainingSize h) h.
Definition errorStatus (errorCode : Z) : Z :=
  if errorCode =? rangeError then httpRequestedRangeNotSatisfiable
  else if errorCode =? notFoundError then httpNotFound
  else if errorCode =? securityError then httpNotAllowed
  else httpInternalError.
Definition notifyResponseOnError (h : BlobHandle) : option BlobHandle := didReceiveResponse (errorStatus (m_errorCode h)) 0 h.
Definition notifyResponse (h : BlobHandle) : option BlobHandle :=
  if negb (m_errorCode h =? 0) then notifyFinish <$> notifyResponseOnError h else notifyResponseOnSuccess h.

(** ** Reading in the background *)

Definition postFileTask (task : FileTask) (h : BlobHandle) : BlobHandle := h <| m_fileTasks := m_fileTasks h ++ [task] |>.

Definition readFileAsync (item : BlobDataItem) (h : BlobHandle) : option BlobHandle :=
  if m_fileOpened h then Some (postFileTask (ReadTask bufferSize) h)
  else
    itemLength ← m_itemLengthList h !! m_readItemCount h;
    let bytesToRead := int64 (itemLength - m_currentItemReadSize h) in
    let bytesToRead := if bytesToRead >? m_totalRemainingSize h then int32 (m_totalRemainingSize h) else bytesToRead in
    let h := postFileTask (OpenTask (item_path item) (int64 (item_offset item + m_currentItemReadSize h)) bytesToRead) h in
    Some (h <| m_fileOpened := true |> <| m_currentItemReadSize := 0 |>).

(** [consumeData]; [next] is [readAsync]. *)
Definition consumeData (next : BlobHandle -> option BlobHandle) (data : list Z) (h : BlobHandle) : option BlobHandle :=
  let bytesRead := Z.of_nat (length data) in
  let h := h <| m_totalRemainingSize := int64 (m_totalRemainingSize h - bytesRead) |> in
  let h := if bytesRead =? 0 then h else notifyReceiveData data h in
  let h :=
    if m_fileOpened h then
      if bytesRead =? 0 then postFileTask CloseTask (h <| m_fileOpened := false |>) <| m_readItemCount := S (m_readItemCount h) |> else h
    else h <| m_readItemCount := S (m_readItemCount h) |> in
  next h.

(** The position in the item is reset when the reading of what follows has
    returned. *)
Definition readDataAsync (next : BlobHandle -> option BlobHandle) (item : BlobDataItem) (h : BlobHandle) : option BlobHandle :=
  let bytesToRead := int64 (item_length item - m_currentItemReadSize h) in
  let bytesToRead := if bytesToRead >? m_totalRemainingSize h then m_totalRemainingSize h else bytesToRead in
  data ← bytesAt (item_data item) (item_offset item + m_currentItemReadSize h) (int32 bytesToRead);
  h ← consumeData next data h;
  Some (h <| m_currentItemReadSize := 0 |>).

Fixpoint readAsyncLoop (fuel : nat) (h : BlobHandle) : option BlobHandle :=
  match fuel with
  | O => None
  | S fuel =>
      if stopped h then Some h
      else if m_totalRemainingSize h =? 0 then Some (notifyFinish h)
      else
        match handleItems h !! m_readItemCount h with
        | None => Some (notifyFinish h)
        | Some item =>
            match item_type item with
            | DataItem => readDataAsync (readAsyncLoop fuel) item h
            | FileItem => readFileAsync item h
            | BlobItem => Some h
            end
        end
  end.
Definition readAsync (h : BlobHandle) : option BlobHandle := readAsyncLoop (S (length (handleItems h))) h.

Definition failed (errorCode : Z) (h : BlobHandle) : BlobHandle :=
  let h := notifyFail errorCode h in
  if m_fileOpened h then postFileTask CloseTask (h <| m_fileOpened := false |>) else h.
Definition didOpen (success : bool) (h : BlobHandle) : option BlobHandle := if success then readAsync h else Some (failed notReadableError h).
Definition didRead (result : option (list Z)) (h : BlobHandle) : option BlobHandle :=
  match result with
  | None => Some (failed notReadableError h)
  | Some bytes => consumeData readAsync bytes h
  end.

(** ** Sizes *)

(** [didGetSize]; [next] is [getSizeForNext]. *)
Definition didGetSizeThen (next : BlobHandle -> option BlobHandle) (size : Z) (h : BlobHandle) : option BlobHandle :=
  if stopped h then Some h
  else if size =? -1 then notifyResponse (h <| m_errorCode := notFoundError |>)
  else
    item ← handleItems h !! m_sizeItemCount h;
    let size :=
      match item_type item with
      | FileItem => if item_length item =? toEndOfFile then size else item_length item
      | _ => size
      end in
    next (h <| m_itemLengthList := m_itemLengthList h ++ [size] |> <| m_totalRemainingSize := int64 (m_totalRemainingSize h + size) |>
            <| m_sizeItemCount := S (m_sizeItemCount h) |>).

Fixpoint getSizeLoop (fuel : nat) (h : BlobHandle) : option BlobHandle :=
  match fuel with
  | O => None
  | S fuel =>
      match handleItems h !! m_sizeItemCount h with
      | None =>
          let h := seek h in
          if m_async h then h ← notifyResponse h; readAsync h else Some h
      | Some item =>
          match item_type item with
          | DataItem => didGetSizeThen (getSizeLoop fuel) (item_length item) h
          | FileItem =>
              if m_async h then Some (postFileTask (GetSizeTask (item_path item) (item_time item)) h)
              else didGetSizeThen (getSizeLoop fuel) (stream_getSize (item_path item) (item_time item)) h
          | BlobItem => Some h
          end
      end
  end.
Definition getSizeForNext (h : BlobHandle) : option BlobHandle := getSizeLoop (S (length (handleItems h))) h.
Definition didGetSize (size : Z) (h : BlobHandle) : option BlobHandle := didGetSizeThen getSizeForNext size h.

(** ** Starting and cancelling *)

(** The loop of a handle that is not asynchronous: a round for every item. *)
Fixpoint sizesLoop (rounds : nat) (h : BlobHandle) : option BlobHandle :=
  match rounds with
  | O => Some h
  | S rounds => if stopped h then Some h else h ← getSizeForNext h; sizesLoop rounds h
  end.

Definition doStart (h : BlobHandle) : option BlobHandle :=
  if stopped h then Some h
  else
    match m_blobData h with
    | None => notifyResponse (h <| m_errorCode := notFoundError |>)
    | Some blob =>
        let '(found, h) :=
          match m_range h with
          | [] => (true, h)
          | range =>
              let '(found, r) := parseRange range in
              (found, h <| m_rangeOffset := rangeOffset r |> <| m_rangeEnd := rangeEnd r |> <| m_rangeSuffixLength := rangeSuffixLength r |>)
          end in
        if negb found then notifyResponse (h <| m_errorCode := rangeError |>)
        else if m_async h then getSizeForNext h
        else h ← sizesLoop (length (blob_items blob)) h; notifyResponse h
    end.

Definition start (h : BlobHandle) : option BlobHandle :=
  if m_async h then Some (h <| m_mainTasks := m_mainTasks h ++ [StartTask] |>) else doStart h.

(** The stream no longer calls the handle. *)
Definition cancel (h : BlobHandle) : BlobHandle :=
  (if m_async h then h <| m_fileTasks := [] |> <| m_stream := stream_close (m_stream h) |> else h) <| m_aborted := true |>.

(** The handle that is created, if there is one. *)
Definition createAsync (httpMethod : list UChar) (blobData : option BlobData) (range : list UChar) : option BlobHandle :=
  if negb (equalIgnoringCase httpMethod (str "GET")) then None else Some (newBlobHandle blobData range true).
(** [BlobResourceHandle::loadResourceSynchronously]: what the loader has then. *)
Definition loadResourceSynchronously (httpMethod : list UChar) (blobData : option BlobData) (range : list UChar) : option Loader :=
  if negb (equalIgnoringCase httpMethod (str "GET")) then Some (mkLoader (Some methodNotAllowed) None [])
  else m_loader <$> start (newBlobHandle blobData range false).

(** By the URL of a blob that is registered: [BlobRegistryImpl::createResourceHandle]
    starts the handle that it returns. *)
Definition createResourceHandle (httpMethod url range : list UChar) (m_blobs : BlobRegistry) : option BlobHandle :=
  handle ← createAsync httpMethod (getBlobDataFromURL url m_blobs) range; start handle.
Definition loadBlobSynchronously (httpMethod url range : list UChar) (m_blobs : BlobRegistry) : option Loader :=
  loadResourceSynchronously httpMethod (getBlobDataFromURL url m_blobs) range.

(** ** The threads *)

(** A task of the file thread with the call of the handle that follows it. *)
Definition runFileTask (task : FileTask) (h : BlobHandle) : option BlobHandle :=
  match task with
  | GetSizeTask path time => didGetSize (stream_getSize path time) h
  | OpenTask path offset len => let '(success, stream) := stream_openForRead path offset len (m_stream h) in didOpen success (h <| m_stream := stream |>)
  | ReadTask size => let '(result, stream) := stream_read size (m_stream h) in didRead result (h <| m_stream := stream |>)
  | CloseTask => Some (h <| m_stream := stream_close (m_stream h) |>)
  end.
Definition runMainTask (task : MainTask) (h : BlobHandle) : option BlobHandle :=
  match task with
  | StartTask => doStart h
  | FinishTask => Some (if m_aborted h then h else emit DidFinishLoading h)
  end.

(** Tasks are run until none is left, those of a thread in the order they were
    posted.  A task of the main thread waits for those of the file thread: there
    are tasks of both only when a load ends and the last file is to be closed, of
    which the client is not told. *)
Fixpoint runTasks (fuel : nat) (h : BlobHandle) : option BlobHandle :=
  match m_fileTasks h, m_mainTasks h with
  | [], [] => Some h
  | task :: tasks, _ =>
      match fuel with
      | O => None
      | S fuel => h ← runFileTask task (h <| m_fileTasks := tasks |>); runTasks fuel h
      end
  | [], task :: tasks =>
      match fuel with
      | O => None
      | S fuel => h ← runMainTask task (h <| m_mainTasks := tasks |>); runTasks fuel h
      end
  end.
End Handles.
