(* ===== verification/BlobReading.v ===== *)
(** * Reading blobs at once

    What is ahead of a handle that reads, how a turn of the loop takes bytes from
    it, and that a load delivers the bytes of the range. *)

From S2P Require Import Prelude CharacterSource IntegerParsing HTTPParsers Blob BlobSpec BlobResourceHandle.
Open Scope Z_scope.

Lemma int32_small z : 0 <= z < 2 ^ 31 -> int32 z = z.
Proof. intros HZ. apply int32_id. lia. Qed.

Lemma option_bind_some {A B} (f : A -> option B) m x : m = Some x -> m ≫= f = f x.
Proof. by intros ->. Qed.

Lemma take_after {A} (t : nat) (bytes rest : list A) : (length bytes <= t)%nat -> take t (bytes ++ rest) = bytes ++ take (t - length bytes) rest.
Proof. intros HL. rewrite take_app. by rewrite take_ge. Qed.

Section Reading.
Context `{FileContents}.

Definition itemSize (item : BlobDataItem) : Z := sizeOf (itemBytes item).

(** What is left in an open stream. *)
Definition streamLeft (st : FileStream) : list Z :=
  match m_handle st with
  | Some (path, position) => sliceOf position (m_totalBytesToRead st - m_bytesProcessed st) (contents path)
  | None => []
  end.

(** The part of the state that reading changes: the stream, how much is still
    asked for, the position in the item, the item and whether its file is open. *)
Record Position := mkPosition { pos_stream : FileStream; pos_total : Z; pos_current : Z; pos_item : nat; pos_opened : bool }.
Definition positionOf (h : BlobHandle) : Position :=
  mkPosition (m_stream h) (m_totalRemainingSize h) (m_currentItemReadSize h) (m_readItemCount h) (m_fileOpened h).
Definition moveTo (p : Position) (h : BlobHandle) : BlobHandle :=
  mkBlobHandle (m_blobData h) (m_range h) (m_async h) (pos_stream p) (m_itemLengthList h) (m_errorCode h) (m_aborted h) (m_rangeOffset h) (m_rangeEnd h)
    (m_rangeSuffixLength h) (pos_total p) (pos_current p) (m_sizeItemCount h) (pos_item p) (pos_opened p) (m_fileTasks h) (m_mainTasks h) (m_events h) (m_loader h).

(** The bytes ahead of a position, of which [pos_total] are asked for. *)
Definition ahead (items : list BlobDataItem) (p : Position) : list Z :=
  if pos_opened p then streamLeft (pos_stream p) ++ itemsBytes (drop (S (pos_item p)) items)
  else drop (Z.to_nat (pos_current p)) (itemsBytes (drop (pos_item p) items)).
Definition wanted (items : list BlobDataItem) (p : Position) : list Z := take (Z.to_nat (pos_total p)) (ahead items p).

Definition streamOpen (item : BlobDataItem) (st : FileStream) : Prop :=
  exists position, m_handle st = Some (item_path item, position) /\ 0 <= m_bytesProcessed st /\ 0 <= m_totalBytesToRead st < 2 ^ 31 /\
    withinBytes position (m_totalBytesToRead st - m_bytesProcessed st) (contents (item_path item)).

(** Where reading can be. *)
Record goodPosition (items : list BlobDataItem) (p : Position) : Prop := {
  good_items : Forall itemOk items;
  good_small : sizeOf (itemsBytes items) < 2 ^ 31;
  good_total : 0 <= pos_total p <= sizeOf (ahead items p);
  good_place :
    if pos_opened p then pos_current p = 0 /\ sizeOf (streamLeft (pos_stream p)) <= pos_total p /\ exists item, items !! pos_item p = Some item /\ item_type item = FileItem /\ streamOpen item (pos_stream p)
    else m_handle (pos_stream p) = None /\ 0 <= pos_current p /\
      forall item, items !! pos_item p = Some item -> pos_current p <= itemSize item
}.

(** ** Items *)

Lemma itemsBytes_drop items k item : items !! k = Some item -> itemsBytes (drop k items) = itemBytes item ++ itemsBytes (drop (S k) items).
Proof. intros HK. by rewrite (drop_S _ _ _ HK). Qed.
Lemma itemsBytes_size_drop items k : sizeOf (itemsBytes (drop k items)) <= sizeOf (itemsBytes items).
Proof. rewrite <- (take_drop k items) at 2. rewrite itemsBytes_app. unfold sizeOf. rewrite length_app. lia. Qed.
Lemma itemSize_small items k item : sizeOf (itemsBytes items) < 2 ^ 31 -> items !! k = Some item -> 0 <= itemSize item < 2 ^ 31.
Proof.
  intros HS HK. pose proof (itemsBytes_size_drop items k) as HD. rewrite (itemsBytes_drop _ _ _ HK) in HD. unfold itemSize, sizeOf in *. rewrite length_app in HD. lia.
Qed.
Lemma dataItem_size item : itemOk item -> item_type item = DataItem -> itemSize item = item_length item.
Proof. intros HO ET. apply itemSized_size. split; [done|]. unfold itemOk in HO. rewrite ET in HO. by destruct HO as (_ & HL & _). Qed.

(** Bytes of the data of an item. *)
Lemma bytesAt_data item from n : itemOk item -> item_type item = DataItem -> 0 <= from -> 0 <= n -> from + n <= itemSize item ->
  bytesAt (item_data item) (item_offset item + from) n = Some (sliceOf from n (itemBytes item)).
Proof.
  intros HO ET H1 H2 H3. rewrite (dataItem_size item HO ET) in H3. unfold itemOk in HO. rewrite ET in HO. pose proof HO as (Ha & Hb & Hc & _).
  unfold itemBytes. rewrite ET, sliceOf_sliceOf by (done || lia). unfold bytesAt, sizeOf in *.
  rewrite !(proj2 (Z.leb_le _ _)) by lia. done.
Qed.

Lemma ahead_closed items p item : pos_opened p = false -> items !! pos_item p = Some item -> 0 <= pos_current p <= itemSize item ->
  ahead items p = drop (Z.to_nat (pos_current p)) (itemBytes item) ++ itemsBytes (drop (S (pos_item p)) items).
Proof.
  intros HO HK HC. unfold ahead. rewrite HO, (itemsBytes_drop _ _ _ HK). apply drop_app_le. unfold itemSize, sizeOf in HC. lia.
Qed.

(** Bytes that are taken from what is ahead. *)
Lemma wanted_step items p p' bytes : ahead items p = bytes ++ ahead items p' -> pos_total p' = pos_total p - sizeOf bytes -> 0 <= pos_total p' ->
  wanted items p = bytes ++ wanted items p'.
Proof.
  intros EA ET HT. unfold wanted. rewrite EA, take_after by (unfold sizeOf in *; lia). rewrite ET. do 2 f_equal. unfold sizeOf. lia.
Qed.

(** ** Data *)

(** The position behind [n] bytes of an item of data. *)
Definition behindData (n : Z) (item : BlobDataItem) (p : Position) : Position :=
  let current := pos_current p + n in
  if current =? item_length item then mkPosition (pos_stream p) (pos_total p - n) 0 (S (pos_item p)) false
  else mkPosition (pos_stream p) (pos_total p - n) current (pos_item p) false.

Lemma drop_slice {A} (l : list A) (c n : nat) : drop c l = take n (drop c l) ++ drop (c + n) l.
Proof. by rewrite <- drop_drop, take_drop. Qed.

Lemma behindData_good items item p n : goodPosition items p -> pos_opened p = false -> items !! pos_item p = Some item -> item_type item = DataItem ->
  0 <= n <= pos_total p -> n <= itemSize item - pos_current p ->
  goodPosition items (behindData n item p) /\ wanted items p = sliceOf (pos_current p) n (itemBytes item) ++ wanted items (behindData n item p).
Proof.
  intros HG HO HK ET HN HC. destruct HG as [HI HS HT HP]. rewrite HO in HP. destruct HP as (HH & H0' & HPos). specialize (HPos item HK).
  pose proof (Forall_lookup_1 _ _ _ _ HI HK) as HOk. pose proof (dataItem_size item HOk ET) as HZ.
  assert (EA : ahead items p = sliceOf (pos_current p) n (itemBytes item) ++ ahead items (behindData n item p)).
  { rewrite (ahead_closed items p item) by done. unfold behindData, sliceOf. destruct (Z.eqb_spec (pos_current p + n) (item_length item)) as [E|E].
    - unfold ahead. cbn [pos_opened pos_current pos_item]. rewrite drop_0, take_ge; [done|]. rewrite length_drop. unfold itemSize, sizeOf in *. lia.
    - rewrite (ahead_closed items _ item) by (cbn; done || lia). cbn [pos_current pos_item]. rewrite app_assoc. f_equal.
      rewrite (drop_slice _ _ (Z.to_nat n)) at 1. do 2 f_equal. lia. }
  assert (ESz : sizeOf (sliceOf (pos_current p) n (itemBytes item)) = n) by (unfold sizeOf, sliceOf, itemSize in *; rewrite length_take, length_drop; unfold sizeOf in *; lia).
  assert (ETo : pos_total (behindData n item p) = pos_total p - n) by (unfold behindData; by destruct (_ =? _)).
  split; [|apply wanted_step; [done|rewrite ESz; done|lia]].
  split; [done|done| |].
  - rewrite ETo. rewrite EA in HT. unfold sizeOf in HT at 1. rewrite length_app in HT. unfold sizeOf in *. lia.
  - unfold behindData. destruct (Z.eqb_spec (pos_current p + n) (item_length item)) as [E|E]; cbn [pos_opened pos_stream pos_current pos_item]; split_and!; try (done || lia).
    + intros item' HK'. pose proof (itemSize_small items _ item' HS HK'). lia.
    + intros item' HK'. rewrite HK in HK'. injection HK' as <-. lia.
Qed.

(** ** Files *)

Lemma fileItem_bytes item : itemOk item -> item_type item = FileItem -> readable (item_path item) /\
  withinBytes (item_offset item) (itemSize item) (contents (item_path item)) /\ itemBytes item = sliceOf (item_offset item) (itemSize item) (contents (item_path item)).
Proof.
  intros HO ET. unfold itemOk in HO. rewrite ET in HO. destruct HO as ((HR & _) & HS & HW). split; [done|]. unfold itemSize, itemBytes. rewrite ET.
  destruct HW as [[-> ->]|HW].
  - rewrite Z.eqb_refl. split; [unfold withinBytes, sizeOf in *; lia|]. unfold sliceOf, sizeOf. rewrite Nat2Z.id, drop_0. by rewrite take_ge.
  - destruct (Z.eqb_spec (item_length item) toEndOfFile) as [E|_]; [destruct HW as (_ & HL & _); rewrite E in HL; unfold toEndOfFile in HL; lia|].
    rewrite sliceOf_size by done. by split.
Qed.

(** The position when the file of an item has been opened. *)
Definition fileBytesToRead (item : BlobDataItem) (p : Position) : Z := Z.min (itemSize item - pos_current p) (pos_total p).
Definition openedFile (item : BlobDataItem) (p : Position) : Position :=
  mkPosition (mkFileStream (Some (item_path item, item_offset item + pos_current p)) 0 (fileBytesToRead item p)) (pos_total p) 0 (pos_item p) true.

Lemma openedFile_good items item p : goodPosition items p -> pos_opened p = false -> items !! pos_item p = Some item -> item_type item = FileItem ->
  goodPosition items (openedFile item p) /\ wanted items (openedFile item p) = wanted items p.
Proof.
  intros HG HO HK ET. destruct HG as [HI HS HT HP]. rewrite HO in HP. destruct HP as (HH & H0' & HPos). specialize (HPos item HK).
  pose proof (Forall_lookup_1 _ _ _ _ HI HK) as HOk. destruct (fileItem_bytes item HOk ET) as (HR & HW & EB). pose proof (itemSize_small items _ item HS HK) as HZ.
  set (n := fileBytesToRead item p). assert (HN : 0 <= n <= itemSize item - pos_current p) by (unfold n, fileBytesToRead; lia).
  assert (EL : streamLeft (pos_stream (openedFile item p)) = take (Z.to_nat n) (drop (Z.to_nat (pos_current p)) (itemBytes item))).
  { unfold streamLeft, openedFile. cbn [pos_stream m_handle m_totalBytesToRead m_bytesProcessed]. fold n. rewrite Z.sub_0_r, <- (sliceOf_sliceOf _ (itemSize item)), <- EB by (done || lia). done. }
  rewrite (ahead_closed items p item) in HT by done. unfold wanted. rewrite (ahead_closed items p item) by done. unfold ahead. cbn [pos_opened openedFile pos_total pos_item]. fold (openedFile item p). rewrite EL.
  set (x := drop (Z.to_nat (pos_current p)) (itemBytes item)) in *. assert (HX : sizeOf x = itemSize item - pos_current p) by (unfold x, sizeOf, itemSize in *; rewrite length_drop; unfold sizeOf in *; lia).
  split.
  - split; [done|done| |].
    + unfold ahead. cbn [pos_opened openedFile pos_total pos_item]. fold (openedFile item p). rewrite EL. unfold sizeOf in *. rewrite length_app in *. rewrite length_take. unfold n, fileBytesToRead in *. lia.
    + split; [done|]. split; [rewrite EL; cbn [pos_total openedFile]; unfold sizeOf, n, fileBytesToRead in *; rewrite length_take; lia|]. exists item. split_and!; try done.
      eexists. cbn [openedFile pos_stream m_handle m_bytesProcessed m_totalBytesToRead].
      fold n. split_and!; try (done || lia). unfold withinBytes in *. lia.
  - destruct (decide (itemSize item - pos_current p <= pos_total p)) as [HC|HC].
    + rewrite (take_ge x) by (unfold sizeOf, n, fileBytesToRead in *; lia). done.
    + replace n with (pos_total p) by (unfold n, fileBytesToRead; lia). rewrite !take_app_le by (rewrite ?length_take; unfold sizeOf in *; lia). by rewrite take_take, Nat.min_id.
Qed.

Lemma stream_read_spec item st size : readable (item_path item) -> streamOpen item st -> 0 < size < 2 ^ 31 ->
  (streamLeft st = [] /\ stream_read size st = (Some [], st)) \/
  (exists bytes st', bytes <> [] /\ stream_read size st = (Some bytes, st') /\ streamOpen item st' /\ streamLeft st = bytes ++ streamLeft st' /\ sizeOf bytes <= size).
Proof.
  intros HR (position & HH & HP & HT & HW) HS. pose proof HW as (H1 & H2 & H3 & H4). unfold stream_read, streamLeft. rewrite HH.
  set (left := m_totalBytesToRead st - m_bytesProcessed st) in *. assert (HLeft : left < 2 ^ 31 /\ left + m_bytesProcessed st = m_totalBytesToRead st) by (unfold left; lia).
  rewrite int64_id by lia. cbv zeta. rewrite int32_small by lia.
  destruct (decide (left = 0)) as [E|HN]; [left; rewrite E, sliceOf_zero by done; by rewrite (proj2 (Z.ltb_lt 0 size)) by lia|]. right.
  set (n := if left <? size then left else size). assert (Hn : 0 < n <= left /\ n <= size) by (unfold n; destruct (Z.ltb_spec left size); lia).
  rewrite (proj2 (Z.gtb_lt n 0)) by lia. destruct (readable_read (item_path item) position n HR H1) as (bytes & -> & [rest HPre] & HE); [lia|].
  assert (HB : sizeOf bytes <= n). { pose proof (f_equal length HPre) as HL. unfold sliceOf in HL. rewrite length_app, length_take in HL. unfold sizeOf. lia. }
  assert (HNe : bytes <> []). { intros E. specialize (HE E). pose proof (f_equal length HE) as HL. rewrite length_drop in HL. unfold sizeOf in H3. cbn in HL. lia. }
  assert (HB0 : 0 <= sizeOf bytes) by (unfold sizeOf; lia). exists bytes. eexists. split_and!; [done|reflexivity| | |lia].
  - eexists. cbn [m_handle m_bytesProcessed m_totalBytesToRead]. fold (sizeOf bytes). rewrite int64_id by lia. split_and!; [done|unfold sizeOf; lia|lia|lia|].
    unfold withinBytes, sizeOf in *. lia.
  - cbn [m_handle m_bytesProcessed m_totalBytesToRead]. fold (sizeOf bytes). rewrite int64_id by lia.
    replace (m_totalBytesToRead st - (m_bytesProcessed st + sizeOf bytes)) with (left - sizeOf bytes) by lia.
    assert (EB : bytes = sliceOf position (sizeOf bytes) (contents (item_path item))).
    { unfold sliceOf in HPre |- *. unfold sizeOf in *. rewrite Nat2Z.id. pose proof (f_equal (take (length bytes)) HPre) as HTk. rewrite take_app_length, take_take in HTk. rewrite <- HTk at 1. f_equal. lia. }
    rewrite EB at 1. unfold sliceOf. replace (Z.to_nat (position + sizeOf bytes)) with (Z.to_nat position + length bytes)%nat by (unfold sizeOf; lia).
    rewrite <- drop_drop. set (l := drop (Z.to_nat position) (contents (item_path item))). unfold sizeOf in *. rewrite Nat2Z.id.
    rewrite <- (take_drop (length bytes) (take (Z.to_nat left) l)), take_take, skipn_firstn_comm. f_equal; f_equal; lia.
Qed.

(** The position behind bytes of a file, and behind a file. *)
Definition behindFile (st : FileStream) (n : Z) (p : Position) : Position := mkPosition st (pos_total p - n) 0 (pos_item p) true.
Definition closedFile (p : Position) : Position := mkPosition (stream_close (pos_stream p)) (pos_total p) 0 (S (pos_item p)) false.

Lemma behindFile_good items item p st bytes : goodPosition items p -> pos_opened p = true -> items !! pos_item p = Some item -> item_type item = FileItem ->
  streamOpen item st -> streamLeft (pos_stream p) = bytes ++ streamLeft st ->
  goodPosition items (behindFile st (sizeOf bytes) p) /\ wanted items p = bytes ++ wanted items (behindFile st (sizeOf bytes) p).
Proof.
  intros [HI HS HT HP] HO HK ET HSt EL.
  assert (HB : sizeOf bytes <= pos_total p) by (rewrite HO in HP; destruct HP as (_ & HSz & _); rewrite EL in HSz; unfold sizeOf in *; rewrite length_app in HSz; lia).
  assert (EA : ahead items p = bytes ++ ahead items (behindFile st (sizeOf bytes) p)) by (unfold ahead; rewrite HO; cbn [behindFile pos_opened pos_stream pos_item]; by rewrite EL, app_assoc).
  split; [|apply wanted_step; [done|done|cbn; lia]]. split; [done|done| |split; [done|]; split; [|by exists item]].
  2:{ rewrite HO in HP. destruct HP as (_ & HSz & _). rewrite EL in HSz. cbn [pos_total behindFile pos_stream]. unfold sizeOf in *. rewrite length_app in HSz. lia. }
  cbn [pos_total behindFile]. fold (behindFile st (sizeOf bytes) p). rewrite EA in HT. unfold sizeOf in *. rewrite length_app in HT. lia.
Qed.
Lemma closedFile_good items p : goodPosition items p -> pos_opened p = true -> streamLeft (pos_stream p) = [] ->
  goodPosition items (closedFile p) /\ wanted items (closedFile p) = wanted items p.
Proof.
  intros [HI HS HT HP] HO EL. assert (EA : ahead items (closedFile p) = ahead items p) by (unfold ahead; rewrite HO, EL; cbn [closedFile pos_opened pos_current pos_item]; by rewrite drop_0).
  split; [|unfold wanted; by rewrite EA]. split; [done|done|by rewrite EA|]. cbn. split_and!; try done. intros item HK. apply (itemSize_small items _ item HS HK).
Qed.

(** ** A turn of the loop *)

Lemma positionOf_moveTo p h : positionOf (moveTo p h) = p.
Proof. by destruct p. Qed.
Lemma wanted_size items p : goodPosition items p -> sizeOf (wanted items p) = pos_total p.
Proof. intros [_ _ HT _]. unfold wanted, sizeOf in *. rewrite length_take. lia. Qed.

(** What holds of a handle that reads. *)
Record readingHandle (h : BlobHandle) : Prop := {
  reading_good : goodPosition (handleItems h) (positionOf h);
  reading_lengths : m_itemLengthList h = map itemSize (handleItems h);
  reading_running : stopped h = false
}.
Lemma reading_moveTo h p : readingHandle h -> goodPosition (handleItems h) p -> readingHandle (moveTo p h).
Proof. intros [_ HL HR] HG. split; [by rewrite positionOf_moveTo|done|done]. Qed.

(** The position after a turn that has read some bytes. *)
Definition turnTo (items : list BlobDataItem) (p : Position) (bytes : list Z) (p' : Position) : Prop :=
  goodPosition items p' /\ wanted items p = bytes ++ wanted items p' /\ pos_total p' = pos_total p - sizeOf bytes /\
  ((bytes <> [] /\ pos_item p' = pos_item p) \/ pos_item p' = S (pos_item p)).

Lemma readDataSync_spec item h len : readingHandle h -> handleItems h !! m_readItemCount h = Some item -> item_type item = DataItem ->
  0 < len < 2 ^ 31 -> 0 < m_totalRemainingSize h ->
  exists bytes p, readDataSync item len h = Some (bytes, moveTo p h) /\ turnTo (handleItems h) (positionOf h) bytes p /\ sizeOf bytes <= len.
Proof.
  intros [HG HLs HR] HK ET HL HT. pose proof HG as [HI HS HTo HP]. pose proof (Forall_lookup_1 _ _ _ _ HI HK) as HOk. pose proof (dataItem_size item HOk ET) as HZ.
  pose proof (itemSize_small _ _ item HS HK) as HSm. cbn [positionOf pos_total pos_opened pos_current pos_item pos_stream] in *.
  destruct (m_fileOpened h) eqn:EO; [destruct HP as (_ & _ & item' & HK' & ET' & _); congruence|]. destruct HP as (HH & HC & HPos). specialize (HPos item HK).
  assert (HB : m_totalRemainingSize h < 2 ^ 31). { pose proof (itemsBytes_size_drop (handleItems h) (m_readItemCount h)) as HD. unfold ahead in HTo. cbn [positionOf pos_opened pos_current pos_item] in HTo.
    rewrite EO in HTo. unfold sizeOf in *. rewrite length_drop in HTo. lia. }
  set (n := Z.min (Z.min len (itemSize item - m_currentItemReadSize h)) (m_totalRemainingSize h)).
  assert (Hn : 0 <= n <= m_totalRemainingSize h /\ n <= itemSize item - m_currentItemReadSize h /\ n <= len) by (unfold n; lia).
  destruct (behindData_good (handleItems h) item (positionOf h) n HG) as [HG' EW]; [done|done|done|cbn; lia|cbn; lia|].
  exists (sliceOf (m_currentItemReadSize h) n (itemBytes item)), (behindData n item (positionOf h)).
  assert (ESz : sizeOf (sliceOf (m_currentItemReadSize h) n (itemBytes item)) = n) by (unfold sizeOf, sliceOf, itemSize in *; rewrite length_take, length_drop; unfold sizeOf in *; lia).
  split_and!.
  - unfold readDataSync. rewrite <- HZ. rewrite (int64_id (itemSize item - m_currentItemReadSize h)) by lia. rewrite (int32_small (itemSize item - _)) by lia. cbv zeta.
    replace (if _ >? m_totalRemainingSize h then _ else _) with n.
    2:{ rewrite int32_small by lia. unfold n. rewrite !Z.gtb_ltb. destruct (Z.ltb_spec (itemSize item - m_currentItemReadSize h) len);
        match goal with |- context [?u <? ?v] => destruct (Z.ltb_spec u v) end; lia. }
    rewrite bytesAt_data by (done || lia). cbn [mbind option_bind]. unfold behindData. rewrite !int64_id by (cbn; lia). cbn [positionOf pos_current pos_total pos_stream pos_item].
    rewrite HZ. cbn [m_currentItemReadSize set_field set_blob_totalRemainingSize set_blob_currentItemReadSize]. destruct h. cbn in EO |- *. subst. by destruct (_ =? _).
  - split_and!; [done|done| |].
    + rewrite ESz. unfold behindData. by destruct (_ =? _).
    + unfold behindData. destruct (Z.eqb_spec (pos_current (positionOf h) + n) (item_length item)) as [E|E]; [by right|]. left. split; [|done].
      intros E'. rewrite E' in ESz. change (sizeOf []) with 0 in ESz. cbn in E. unfold n in *. lia.
  - lia.
Qed.

Lemma total_small h : readingHandle h -> m_fileOpened h = false -> 0 <= m_totalRemainingSize h < 2 ^ 31.
Proof.
  intros [[_ HS HT _] _ _] EO. pose proof (itemsBytes_size_drop (handleItems h) (m_readItemCount h)) as HD. unfold ahead in HT. cbn [positionOf pos_opened pos_current pos_item pos_total] in HT.
  rewrite EO in HT. unfold sizeOf in *. rewrite length_drop in HT. lia.
Qed.

(** The position a file item has behind it when it is open. *)
Lemma openFileSync_spec item h : readingHandle h -> handleItems h !! m_readItemCount h = Some item -> item_type item = FileItem ->
  exists p, openFileSync item h = Some (true, moveTo p h) /\ goodPosition (handleItems h) p /\ wanted (handleItems h) p = wanted (handleItems h) (positionOf h) /\
    pos_opened p = true /\ pos_total p = m_totalRemainingSize h /\ pos_item p = m_readItemCount h.
Proof.
  intros HRd HK ET. pose proof HRd as [HG HLs HR]. unfold openFileSync. destruct (m_fileOpened h) eqn:EO.
  { exists (positionOf h). split_and!; try done. by destruct h. }
  pose proof (total_small h HRd EO) as HB. destruct (openedFile_good (handleItems h) item (positionOf h) HG EO HK ET) as [HG' HW].
  destruct HG as [HI HS HT HP]. cbn [positionOf pos_opened pos_current pos_item pos_total pos_stream] in HP. rewrite EO in HP. destruct HP as (HH & HC & HPos). specialize (HPos item HK).
  pose proof (Forall_lookup_1 _ _ _ _ HI HK) as HOk. destruct (fileItem_bytes item HOk ET) as (HRe & (Ha & Hb & Hc & Hd) & _). pose proof (itemSize_small _ _ item HS HK) as HSm.
  exists (openedFile item (positionOf h)). split_and!; try done. rewrite HLs, list_lookup_fmap, HK. cbn [fmap option_fmap option_map mbind option_bind].
  rewrite (int64_id (itemSize item - _)), (int64_id (item_offset item + _)) by lia. cbv zeta. unfold stream_openForRead. rewrite HH, readable_open by done. cbn [negb].
  set (o := item_offset item + m_currentItemReadSize h). rewrite (readable_seek (item_path item) o) by (done || (unfold o; lia)). rewrite andb_false_r.
  replace (if o >? 0 then o else 0) with o by (rewrite Z.gtb_ltb; destruct (Z.ltb_spec 0 o); [done|unfold o in *; lia]).
  replace (if itemSize item - m_currentItemReadSize h >? m_totalRemainingSize h then m_totalRemainingSize h else itemSize item - m_currentItemReadSize h)
    with (fileBytesToRead item (positionOf h)) by (unfold fileBytesToRead; cbn; rewrite Z.gtb_ltb; destruct (Z.ltb_spec (m_totalRemainingSize h) (itemSize item - m_currentItemReadSize h)); lia).
  by destruct h.
Qed.

Lemma opened_small items p : goodPosition items p -> pos_total p < 2 ^ 32.
Proof.
  intros [_ HS HT HP]. unfold ahead in HT. pose proof (itemsBytes_size_drop items (pos_item p)) as HD. pose proof (itemsBytes_size_drop items (S (pos_item p))) as HD'.
  destruct (pos_opened p); unfold sizeOf in *; [|rewrite length_drop in HT; lia]. rewrite length_app in HT.
  destruct HP as (_ & _ & item & _ & _ & position & HH & H1 & H2 & _). assert (HL : (length (streamLeft (pos_stream p)) <= Z.to_nat (m_totalBytesToRead (pos_stream p)))%nat).
  { unfold streamLeft. rewrite HH. unfold sliceOf. rewrite length_take. lia. }
  lia.
Qed.

Lemma readFileSync_spec item h len : readingHandle h -> handleItems h !! m_readItemCount h = Some item -> item_type item = FileItem -> 0 < len < 2 ^ 31 ->
  exists bytes p, readFileSync item len h = Some (bytes, moveTo p h) /\ turnTo (handleItems h) (positionOf h) bytes p /\ sizeOf bytes <= len.
Proof.
  intros HRd HK ET HL. pose proof HRd as [HG HLs HR]. unfold readFileSync.
  destruct (openFileSync_spec item h HRd HK ET) as (p & -> & HGp & HWp & HOp & HTp & HIp). cbn [mbind option_bind negb].
  pose proof (Forall_lookup_1 _ _ _ _ (good_items _ _ HG) HK) as HOk. destruct (fileItem_bytes item HOk ET) as (HRe & _ & _).
  pose proof (good_place _ _ HGp) as HP. rewrite HOp, HIp in HP. destruct HP as (HC & HSz & item' & HK' & _ & HSt). rewrite HK in HK'. injection HK' as <-.
  change (m_stream (moveTo p h)) with (pos_stream p). destruct (stream_read_spec item (pos_stream p) len HRe HSt HL) as [[EL ->]|(bytes & st & HN & -> & HSt' & EL & HB)].
  - exists [], (closedFile p). destruct (closedFile_good _ p HGp HOp EL) as [HG' HW']. split_and!; [destruct h, p; cbn in HC |- *; by subst| |change (sizeOf []) with 0; lia].
    split_and!; [done|by rewrite HW'|cbn; rewrite HTp; change (sizeOf []) with 0; lia|right; cbn; by rewrite HIp].
  - exists bytes, (behindFile st (sizeOf bytes) p). split_and!; [| |done].
    + destruct bytes as [|b bytes]; [done|]. rewrite int64_id; [destruct p; cbn in HC, HOp; by subst|]. change (m_totalRemainingSize _) with (pos_total p).
      pose proof (opened_small _ _ HGp) as HT. pose proof (good_total _ _ HGp) as HT'. rewrite EL in HSz. unfold sizeOf in *. rewrite length_app in HSz. lia.
    + assert (HKp : handleItems h !! pos_item p = Some item) by by rewrite HIp.
      destruct (behindFile_good (handleItems h) item p st bytes HGp HOp HKp ET HSt' EL) as [HG' HW'].
      split_and!; [done|by rewrite <- HWp|cbn; by rewrite HTp|left; split; [done|cbn; by rewrite HIp]].
Qed.

(** ** The whole loop *)

Lemma readSync_turn item h len : readingHandle h -> handleItems h !! m_readItemCount h = Some item -> 0 < len < 2 ^ 31 -> 0 < m_totalRemainingSize h ->
  exists bytes p, match item_type item with
                  | DataItem => readDataSync item len h
                  | FileItem => readFileSync item len h
                  | BlobItem => Some ([], h)
                  end = Some (bytes, moveTo p h) /\ turnTo (handleItems h) (positionOf h) bytes p.
Proof.
  intros HRd HK HL HT. pose proof (Forall_lookup_1 _ _ _ _ (good_items _ _ (reading_good _ HRd)) HK) as HOk. unfold itemOk in HOk. destruct (item_type item) eqn:ET; [| |done].
  - destruct (readDataSync_spec item h len HRd HK ET HL HT) as (bytes & p & E & HTu & _). eauto.
  - destruct (readFileSync_spec item h len HRd HK ET HL) as (bytes & p & E & HTu & _). eauto.
Qed.

(** An item is left as long as bytes are asked for. *)
Lemma item_left h : readingHandle h -> 0 < m_totalRemainingSize h -> exists item, handleItems h !! m_readItemCount h = Some item.
Proof.
  intros [HG _ _] HT. destruct (handleItems h !! m_readItemCount h) as [item|] eqn:HK; [eauto|]. destruct HG as [_ _ HTo HP]. unfold ahead in HTo.
  cbn [positionOf pos_opened pos_item pos_total pos_current] in HTo, HP. destruct (m_fileOpened h); [destruct HP as (_ & _ & item & HK' & _); congruence|].
  apply lookup_ge_None in HK. rewrite (drop_ge (handleItems h)) in HTo by done. unfold sizeOf, itemsBytes in HTo. cbn in HTo. rewrite drop_nil in HTo. cbn in HTo. lia.
Qed.

Lemma readSyncLoop_spec fuel : forall h, readingHandle h -> m_totalRemainingSize h < 2 ^ 31 ->
  (Z.to_nat (m_totalRemainingSize h) + (length (handleItems h) - m_readItemCount h) < fuel)%nat ->
  exists p, readSyncLoop fuel (m_totalRemainingSize h) h = Some (wanted (handleItems h) (positionOf h), moveTo p h) /\ goodPosition (handleItems h) p /\ pos_total p = 0.
Proof.
  induction fuel as [|fuel IH]; intros h HRd HB HF; [lia|]. cbn [readSyncLoop]. pose proof (good_total _ _ (reading_good _ HRd)) as HT. cbn [positionOf pos_total] in HT.
  destruct (Z.eqb_spec (m_totalRemainingSize h) 0) as [E|HN].
  - exists (positionOf h). split_and!; [|by apply HRd|exact E]. unfold wanted. cbn [positionOf pos_total]. rewrite E. by destruct h.
  - rewrite (reading_running _ HRd). destruct (item_left h HRd) as (item & HK); [lia|]. rewrite HK.
    destruct (readSync_turn item h (m_totalRemainingSize h) HRd HK) as (bytes & p & -> & HG & EW & ET & HI); [lia|lia|]. cbn [mbind option_bind].
    assert (HBy : 0 < sizeOf bytes \/ sizeOf bytes = 0) by (unfold sizeOf; lia). pose proof (good_total _ _ HG) as HTp.
    pose proof (lookup_lt_Some _ _ _ HK) as HLt. cbn [positionOf pos_total pos_item] in ET, HI.
    assert (HNe : bytes <> [] -> 0 < sizeOf bytes) by (destruct bytes; [done|unfold sizeOf; cbn; lia]).
    destruct (IH (moveTo p h)) as (p' & E & HG' & HT'); [by apply reading_moveTo|cbn; lia|cbn [m_totalRemainingSize m_readItemCount moveTo];
      change (handleItems (moveTo p h)) with (handleItems h); destruct HI as [[HNe' HI]|HI]; [specialize (HNe HNe')|]; lia|].
    change (m_totalRemainingSize (moveTo p h)) with (pos_total p) in E. rewrite ET in E. fold (sizeOf bytes). rewrite E. cbn [mbind option_bind].
    exists p'. rewrite positionOf_moveTo, EW. split_and!; done.
Qed.

(** [readSync] into a buffer of the size that is asked for. *)
Lemma readSync_spec h : readingHandle h -> m_fileOpened h = false -> m_async h = false -> let bytes := wanted (handleItems h) (positionOf h) in
  exists p, readSync (m_totalRemainingSize h) h =
    Some (bytes, sizeOf bytes, emit (if m_totalRemainingSize h =? 0 then DidFinishLoading else DidReceiveData bytes) (moveTo p h)) /\ goodPosition (handleItems h) p.
Proof.
  intros HRd HO HA. cbv zeta. set (bytes := wanted _ _). pose proof (total_small h HRd HO) as HB. pose proof (wanted_size _ _ (reading_good _ HRd)) as HW. cbn [positionOf pos_total] in HW. fold bytes in HW.
  unfold readSync. set (fuel := S _). assert (HF : (Z.to_nat (m_totalRemainingSize h) + (length (handleItems h) - m_readItemCount h) < fuel)%nat) by (unfold fuel; lia). clearbody fuel.
  destruct (readSyncLoop_spec fuel h HRd) as (p & E & HG & HT); [lia|exact HF|]. rewrite (option_bind_some _ _ _ E). pose proof (reading_running _ HRd) as HR. assert (HR' : stopped (moveTo p h) = false) by exact HR. rewrite HR'. fold bytes (sizeOf bytes).
  exists p. split; [|done]. cbv zeta. rewrite HW. rewrite Z.gtb_ltb. destruct (Z.eqb_spec (m_totalRemainingSize h) 0) as [E0|HN].
  - rewrite E0. change (0 <? 0) with false. unfold notifyFinish. unfold stopped in HR. apply orb_false_iff in HR as [HR _].
    assert (EA : m_async (moveTo p h) = false) by exact HA. assert (EB : m_aborted (moveTo p h) = false) by exact HR. rewrite EA, EB. reflexivity.
  - rewrite (proj2 (Z.ltb_lt _ _)) by lia. reflexivity.
Qed.

(** ** The loader *)

Lemma loader_reads (freshMemory : nat -> list Z) status h : (forall n, length (freshMemory n) = n) -> readingHandle h -> m_fileOpened h = false -> m_async h = false ->
  exists h', loaderDidReceiveResponse freshMemory status (m_totalRemainingSize h) h = Some h' /\
    m_loader h' = mkLoader (l_error (m_loader h)) (Some (status, m_totalRemainingSize h)) (wanted (handleItems h) (positionOf h)) /\ m_errorCode h' = m_errorCode h.
Proof.
  intros HM HRd HO HA. pose proof (total_small h HRd HO) as HB. unfold loaderDidReceiveResponse, maxLength. rewrite Z.gtb_ltb, (proj2 (Z.ltb_ge _ _)), (proj2 (Z.ltb_ge _ 0)) by lia.
  destruct (readSync_spec h HRd HO HA) as (p & -> & HG). cbn [mbind option_bind]. eexists. split; [reflexivity|]. split; [|done]. cbn [m_loader set_field set_blob_loader].
  f_equal. pose proof (wanted_size _ _ (reading_good _ HRd)) as HW. cbn [positionOf pos_total] in HW. rewrite drop_ge, app_nil_r; [done|]. rewrite HM, <- HW. unfold sizeOf. lia.
Qed.
End Reading.
