(* ===== verification/BlobSeek.v ===== *)
(** * Sizes and ranges of blobs

    The sizes of the items are found one after the other; going to a range that
    lies within the blob makes the bytes of the range the ones that are wanted;
    and a load that is done at once delivers them. *)

From S2P Require Import Prelude CharacterSource IntegerParsing WebSocketHandshake HTTPParsers Blob BlobSpec BlobResourceHandle BlobReading.
Open Scope Z_scope.

(** ** Ranges *)

(** What can be asked for: everything, from a byte on, from a byte to a byte, or
    so many bytes at the end. *)
Inductive RangeOf := WholeBlob | FromByte (first : Z) | FromTo (first last : Z) | LastBytes (n : Z).

(** How a handle is told. *)
Definition rangeFields (r : RangeOf) : ByteRange :=
  match r with
  | WholeBlob => noRange
  | FromByte first => mkByteRange first (-1) (-1)
  | FromTo first last => mkByteRange first last (-1)
  | LastBytes n => mkByteRange (-1) (-1) n
  end.
(** A range within a blob of a size, with its first byte and its length. *)
Definition rangeWithin (size : Z) (r : RangeOf) : Prop :=
  match r with
  | WholeBlob => True
  | FromByte first => 0 <= first <= size
  | FromTo first last => 0 <= first <= last /\ last < size
  | LastBytes n => 0 <= n <= size
  end.
Definition rangeStart (size : Z) (r : RangeOf) : Z := match r with WholeBlob => 0 | FromByte first | FromTo first _ => first | LastBytes n => size - n end.
Definition rangeSize (size : Z) (r : RangeOf) : Z :=
  match r with
  | WholeBlob => size
  | FromByte first => size - first
  | FromTo first last => last - first + 1
  | LastBytes n => n
  end.
Definition rangeBytes (r : RangeOf) (bytes : list Z) : list Z := sliceOf (rangeStart (sizeOf bytes) r) (rangeSize (sizeOf bytes) r) bytes.
Definition rangeStatus (r : RangeOf) : Z := match r with WholeBlob => httpOK | _ => httpPartialContent end.

Section Seeking.
Context `{FileContents}.

(** A handle whose sizes are known and that has not read anything. *)
Record sizedHandle (r : RangeOf) (h : BlobHandle) : Prop := {
  sized_items : Forall itemOk (handleItems h);
  sized_small : sizeOf (itemsBytes (handleItems h)) < 2 ^ 31;
  sized_lengths : m_itemLengthList h = map itemSize (handleItems h);
  sized_running : stopped h = false;
  sized_range : mkByteRange (m_rangeOffset h) (m_rangeEnd h) (m_rangeSuffixLength h) = rangeFields r;
  sized_position : positionOf h = mkPosition newFileStream (sizeOf (itemsBytes (handleItems h))) 0 0 false
}.

Lemma seekLoop_spec items : forall count offset, sizeOf (itemsBytes items) < 2 ^ 31 -> 0 <= offset <= sizeOf (itemsBytes items) ->
  exists j c, seekLoop (map itemSize items) count offset = ((count + j)%nat, c) /\ 0 <= c /\
    drop (Z.to_nat c) (itemsBytes (drop j items)) = drop (Z.to_nat offset) (itemsBytes items) /\ (forall item, items !! j = Some item -> c < itemSize item).
Proof.
  induction items as [|item items IH]; intros count offset HS HO; cbn [map seekLoop].
  - exists 0%nat, offset. rewrite Nat.add_0_r. split_and!; [done|lia|done|done].
  - change (itemsBytes (item :: items)) with (itemBytes item ++ itemsBytes items) in *. unfold sizeOf in HS, HO. rewrite length_app in HS, HO. rewrite Z.geb_leb. destruct (Z.leb_spec (itemSize item) offset) as [HL|HL].
    + unfold itemSize, sizeOf in HL. rewrite int64_id by (unfold itemSize, sizeOf; lia). destruct (IH (S count) (offset - itemSize item)) as (j & c & E & HC & ED & HI); [unfold sizeOf; lia|unfold itemSize, sizeOf in *; lia|].
      exists (S j), c. rewrite E, <- Nat.add_succ_comm. split_and!; try done. cbn [drop]. rewrite ED, drop_app_ge by lia. f_equal. unfold itemSize, sizeOf. lia.
    + exists 0%nat, offset. rewrite Nat.add_0_r. split_and!; [done|lia|done|]. intros item' [= <-]. done.
Qed.

(** Where a handle is after going to [n] bytes from [start] on. *)
Record soughtPosition (items : list BlobDataItem) (start n : Z) (p : Position) : Prop := {
  sought_good : goodPosition items p;
  sought_closed : pos_opened p = false;
  sought_stream : pos_stream p = newFileStream;
  sought_ahead : ahead items p = drop (Z.to_nat start) (itemsBytes items);
  sought_total : pos_total p = n;
  sought_inside : pos_current p = 0 \/ forall item, items !! pos_item p = Some item -> pos_current p < itemSize item
}.
Lemma sought_wanted items start n p : soughtPosition items start n p -> wanted items p = sliceOf start n (itemsBytes items).
Proof. intros [_ _ _ EA ET _]. unfold wanted. by rewrite EA, ET. Qed.

Lemma seek_position items (start n : Z) : Forall itemOk items -> sizeOf (itemsBytes items) < 2 ^ 31 -> 0 <= start -> 0 <= n -> start + n <= sizeOf (itemsBytes items) ->
  let '(j, c) := seekLoop (map itemSize items) 0 start in soughtPosition items start n (mkPosition newFileStream n c j false).
Proof.
  intros HI HS H1 H2 H3. destruct (seekLoop_spec items 0 start HS) as (j & c & E & HC & ED & HL); [lia|]. rewrite E. cbn [Nat.add].
  split; try done; [|by right]. split; [done|done| |].
  - unfold ahead. cbn [pos_opened pos_total pos_current pos_item]. rewrite ED. unfold sizeOf in *. rewrite length_drop. lia.
  - cbn [pos_opened pos_stream pos_current pos_item newFileStream m_handle]. split_and!; [done|done|]. intros item HK. specialize (HL item HK). lia.
Qed.

(** What going to a range changes. *)
Definition movedTo (offset fin : Z) (p : Position) (h : BlobHandle) : BlobHandle :=
  mkBlobHandle (m_blobData h) (m_range h) (m_async h) (pos_stream p) (m_itemLengthList h) (m_errorCode h) (m_aborted h) offset fin
    (m_rangeSuffixLength h) (pos_total p) (pos_current p) (m_sizeItemCount h) (pos_item p) (pos_opened p) (m_fileTasks h) (m_mainTasks h) (m_events h) (m_loader h).

Lemma movedTo_movedTo offset fin p offset' fin' p' h : movedTo offset fin p (movedTo offset' fin' p' h) = movedTo offset fin p h.
Proof. destruct h. reflexivity. Qed.

(** The range a handle goes to. *)
Definition soughtRange (h : BlobHandle) : Z * Z :=
  if m_rangeSuffixLength h =? -1 then (m_rangeOffset h, m_rangeEnd h)
  else let offset := int64 (m_totalRemainingSize h - m_rangeSuffixLength h) in (offset, int64 (offset + m_rangeSuffixLength h - 1)).
Lemma range_eta h : h <| m_rangeOffset := m_rangeOffset h |> <| m_rangeEnd := m_rangeEnd h |> = h.
Proof. by destruct h. Qed.

Lemma seek_range h offset fin : soughtRange h = (offset, fin) -> offset <> -1 -> seek h =
    let '(j, c) := seekLoop (m_itemLengthList h) 0 offset in
    let total := if fin =? -1 then int64 (m_totalRemainingSize h - offset) else Z.min (m_totalRemainingSize h) (int64 (fin - offset + 1)) in
    movedTo offset fin (mkPosition (m_stream h) total c j (m_fileOpened h)) h.
Proof.
  intros ER HN. unfold seek. unfold positionNotSpecified.
  assert (EH : (if negb (m_rangeSuffixLength h =? -1) then
      let rangeOffset := int64 (m_totalRemainingSize h - m_rangeSuffixLength h) in
      h <| m_rangeOffset := rangeOffset |> <| m_rangeEnd := int64 (rangeOffset + m_rangeSuffixLength h - 1) |>
    else h) = h <| m_rangeOffset := offset |> <| m_rangeEnd := fin |>).
  { unfold soughtRange in ER. destruct (m_rangeSuffixLength h =? -1); cbn [negb]; injection ER as <- <-; [by rewrite range_eta|done]. }
  cbv zeta in EH |- *. rewrite EH. cbn [m_rangeOffset m_itemLengthList m_rangeEnd set_field set_blob_rangeOffset set_blob_rangeEnd]. rewrite (proj2 (Z.eqb_neq offset (-1))) by done.
  destruct (seekLoop (m_itemLengthList h) 0 offset) as [j c]. cbn. destruct (Z.eqb_spec fin (-1)) as [E|E]; cbn [negb]; [reflexivity|].
  rewrite Z.gtb_ltb. destruct (Z.ltb_spec (int64 (fin - offset + 1)) (m_totalRemainingSize h)); [rewrite Z.min_r by lia|rewrite Z.min_l by lia]; reflexivity.
Qed.

(** The common part of the ranges that are given. *)
Lemma seek_within h offset fin n : Forall itemOk (handleItems h) -> sizeOf (itemsBytes (handleItems h)) < 2 ^ 31 -> m_itemLengthList h = map itemSize (handleItems h) ->
  m_stream h = newFileStream -> m_fileOpened h = false -> soughtRange h = (offset, fin) -> 0 <= offset -> 0 <= n -> offset + n <= sizeOf (itemsBytes (handleItems h)) ->
  n = (if fin =? -1 then int64 (m_totalRemainingSize h - offset) else Z.min (m_totalRemainingSize h) (int64 (fin - offset + 1))) ->
  exists p, seek h = movedTo offset fin p h /\ soughtPosition (handleItems h) offset n p.
Proof.
  intros HI HS HL ES EO ER H1 H2 H3 EN. rewrite (seek_range h offset fin ER), HL by lia. pose proof (seek_position (handleItems h) offset n HI HS H1 H2 H3) as HP.
  destruct (seekLoop (map itemSize (handleItems h)) 0 offset) as [j c]. cbv zeta in *. rewrite <- EN, ES, EO. by eexists.
Qed.

(** Going to a range within the blob: the bytes of the range are wanted. *)
Lemma seek_spec r h : sizedHandle r h -> rangeWithin (sizeOf (itemsBytes (handleItems h))) r ->
  exists offset fin p, seek h = movedTo offset fin p h /\ (if negb (offset =? -1) then httpPartialContent else httpOK) = rangeStatus r /\
    let size := sizeOf (itemsBytes (handleItems h)) in soughtPosition (handleItems h) (rangeStart size r) (rangeSize size r) p.
Proof.
  intros [HI HS HL HR HF HP] HW. set (items := handleItems h) in *. set (size := sizeOf (itemsBytes items)) in *. assert (H0' : 0 <= size) by (unfold size, sizeOf; lia).
  assert (EP : m_stream h = newFileStream /\ m_totalRemainingSize h = size /\ m_currentItemReadSize h = 0 /\ m_readItemCount h = 0%nat /\ m_fileOpened h = false) by (injection HP as -> -> -> -> ->; done).
  destruct EP as (ES & ET & EC & EK & EO). fold size. destruct r as [|first|first last|n]; cbn [rangeFields rangeWithin rangeStart rangeSize rangeStatus] in *; injection HF as EOf EF ESu.
  - exists (-1), (-1), (positionOf h). rewrite HP. 
    assert (HG : goodPosition items (mkPosition newFileStream size 0 0 false)).
    { split; [done|done|unfold ahead; cbn [pos_opened pos_total pos_current pos_item]; rewrite !drop_0; fold size; lia|]. split_and!; [done|done|]. intros item HK. apply (itemSize_small items _ item HS HK). }
    split_and!; [|done|split; try done; by left]. unfold seek, positionNotSpecified. rewrite ESu. cbn [Z.eqb Pos.eqb negb]. rewrite EOf. cbn [Z.eqb Pos.eqb].
    rewrite <- HP. destruct h. cbn in EOf, EF. by subst.
  - destruct (seek_within h first (-1) (size - first)) as (p & E & HQ); try done; [unfold soughtRange; rewrite ESu, EOf, EF; done|lia|lia|fold items size; lia|rewrite ET; cbn; rewrite int64_id by lia; done|].
    exists first, (-1), p. split_and!; [done| |exact HQ]. rewrite (proj2 (Z.eqb_neq first (-1))) by lia. done.
  - destruct (seek_within h first last (last - first + 1)) as (p & E & HQ); try done; [unfold soughtRange; rewrite ESu, EOf, EF; done|lia|lia|fold items size; lia| |].
    { rewrite ET, (proj2 (Z.eqb_neq last (-1))), int64_id by lia. lia. }
    exists first, last, p. split_and!; [done| |exact HQ]. rewrite (proj2 (Z.eqb_neq first (-1))) by lia. done.
  - destruct (seek_within h (size - n) (size - 1) n) as (p & E & HQ); try done; [|lia|lia|fold items size; lia| |].
    { unfold soughtRange. rewrite ESu, ET, (proj2 (Z.eqb_neq n (-1))) by lia. cbv zeta. rewrite !int64_id by lia. f_equal. lia. }
    { rewrite ET. destruct (Z.eqb_spec (size - 1) (-1)); rewrite int64_id by lia; lia. }
    exists (size - n), (size - 1), p. split_and!; [done| |exact HQ]. rewrite (proj2 (Z.eqb_neq (size - n) (-1))) by lia. done.
Qed.

(** ** Sizes *)

Lemma fileItem_size item : itemOk item -> item_type item = FileItem -> let size := stream_getSize (item_path item) (item_time item) in
  size <> -1 /\ (if item_length item =? toEndOfFile then size else item_length item) = itemSize item.
Proof.
  intros HO ET. unfold itemOk in HO. rewrite ET in HO. destruct HO as ((_ & ->) & _ & HW). split; [unfold sizeOf; lia|]. unfold itemSize, itemBytes. rewrite ET.
  destruct (Z.eqb_spec (item_length item) toEndOfFile); [done|]. destruct HW as [[? _]|HW]; [done|]. by rewrite sliceOf_size.
Qed.

(** A handle that has found the sizes of some items. *)
Record sizingHandle (h : BlobHandle) : Prop := {
  sizing_items : Forall itemOk (handleItems h);
  sizing_small : sizeOf (itemsBytes (handleItems h)) < 2 ^ 31;
  sizing_running : stopped h = false;
  sizing_count : (m_sizeItemCount h <= length (handleItems h))%nat;
  sizing_lengths : m_itemLengthList h = map itemSize (take (m_sizeItemCount h) (handleItems h));
  sizing_total : m_totalRemainingSize h = sizeOf (itemsBytes (take (m_sizeItemCount h) (handleItems h)))
}.
(** The next size, and all of them. *)
Definition withSize (item : BlobDataItem) (h : BlobHandle) : BlobHandle :=
  h <| m_itemLengthList := m_itemLengthList h ++ [itemSize item] |> <| m_totalRemainingSize := m_totalRemainingSize h + itemSize item |>
    <| m_sizeItemCount := S (m_sizeItemCount h) |>.
Definition withSizes (h : BlobHandle) : BlobHandle :=
  h <| m_itemLengthList := map itemSize (handleItems h) |> <| m_totalRemainingSize := sizeOf (itemsBytes (handleItems h)) |> <| m_sizeItemCount := length (handleItems h) |>.

Lemma sizing_next h item : sizingHandle h -> handleItems h !! m_sizeItemCount h = Some item -> sizingHandle (withSize item h) /\ 0 <= m_totalRemainingSize h + itemSize item < 2 ^ 31.
Proof.
  intros [HI HS HR HC HL HT] HK. pose proof (itemSize_small _ _ item HS HK) as HZ.
  assert (ET : take (S (m_sizeItemCount h)) (handleItems h) = take (m_sizeItemCount h) (handleItems h) ++ [item]) by by apply take_S_r.
  assert (EB : sizeOf (itemsBytes (take (S (m_sizeItemCount h)) (handleItems h))) = m_totalRemainingSize h + itemSize item).
  { rewrite ET, itemsBytes_app, HT. unfold itemsBytes at 2. cbn. rewrite app_nil_r. unfold itemSize, sizeOf. rewrite length_app. lia. }
  split.
  - split; [done|done|done|by apply lookup_lt_Some in HK| |].
    + change (m_itemLengthList (withSize item h)) with (m_itemLengthList h ++ [itemSize item]). change (take _ _) with (take (S (m_sizeItemCount h)) (handleItems h)). by rewrite ET, map_app, <- HL.
    + symmetry. exact EB.
  - rewrite <- EB. pose proof (take_drop (S (m_sizeItemCount h)) (handleItems h)) as HD. rewrite <- HD, itemsBytes_app in HS. unfold sizeOf in *. rewrite length_app in HS. lia.
Qed.

Lemma didGetSize_spec (freshMemory : nat -> list Z) next item size h : sizingHandle h -> handleItems h !! m_sizeItemCount h = Some item ->
  (item_type item = DataItem -> size = item_length item) -> (item_type item = FileItem -> size = stream_getSize (item_path item) (item_time item)) ->
  didGetSizeThen freshMemory next size h = next (withSize item h).
Proof.
  intros HSz HK HD HF. pose proof HSz as [HI HS HR HC HL HT]. pose proof (Forall_lookup_1 _ _ _ _ HI HK) as HOk. destruct (sizing_next h item HSz HK) as [_ HB]. unfold didGetSizeThen.
  rewrite HR, HK. cbn [mbind option_bind]. unfold withSize. destruct (item_type item) eqn:ET; [| |unfold itemOk in HOk; by rewrite ET in HOk].
  - rewrite HD by done. pose proof (dataItem_size item HOk ET) as HZ. pose proof (itemSize_small _ _ item HS HK). rewrite (proj2 (Z.eqb_neq _ (-1))), <- HZ, int64_id by lia. done.
  - rewrite HF by done. destruct (fileItem_size item HOk ET) as [HN ->]. rewrite (proj2 (Z.eqb_neq _ _)), int64_id by (done || lia). done.
Qed.
End Seeking.

Section Loads.
Context `{CaseFolding} `{CharDirection} `{FileContents}.
Variable freshMemory : nat -> list Z.

Lemma withSizes_last h : sizingHandle h -> m_sizeItemCount h = length (handleItems h) -> withSizes h = h.
Proof. intros [_ _ _ _ HL HT] HC. rewrite HC, take_ge in HL, HT by done. unfold withSizes. rewrite <- HL, <- HT, <- HC. by destruct h. Qed.
Lemma withSizes_next item h : withSizes (withSize item h) = withSizes h.
Proof. done. Qed.

(** What going to a range does not change. *)
Lemma seek_keeps h : m_async (seek h) = m_async h /\ handleItems (seek h) = handleItems h /\ m_sizeItemCount (seek h) = m_sizeItemCount h /\ stopped (seek h) = stopped h.
Proof. unfold seek. repeat case_match; done. Qed.

Lemma getSizeLoop_sync fuel : forall h, sizingHandle h -> m_async h = false -> (length (handleItems h) < fuel + m_sizeItemCount h)%nat ->
  getSizeLoop freshMemory fuel h = Some (seek (withSizes h)).
Proof.
  induction fuel as [|fuel IH]; intros h HSz HA HF; [pose proof (sizing_count _ HSz); lia|]. cbn [getSizeLoop].
  destruct (handleItems h !! m_sizeItemCount h) as [item|] eqn:HK.
  - destruct (sizing_next h item HSz HK) as [HSz' _].
    assert (HN : getSizeLoop freshMemory fuel (withSize item h) = Some (seek (withSizes h))).
    { rewrite (IH (withSize item h) HSz' HA), withSizes_next; [done|]. change (handleItems (withSize item h)) with (handleItems h). change (m_sizeItemCount (withSize item h)) with (S (m_sizeItemCount h)). lia. }
    pose proof (Forall_lookup_1 _ _ _ _ (sizing_items _ HSz) HK) as HOk. rewrite HA. unfold itemOk in HOk.
    destruct (item_type item) eqn:ET; [| |done]; rewrite (didGetSize_spec freshMemory _ item) by (done || congruence); exact HN.
  - apply lookup_ge_None in HK. pose proof (sizing_count _ HSz) as HC. rewrite (withSizes_last h HSz) by lia. cbv zeta. destruct (seek_keeps h) as (-> & _). by rewrite HA.
Qed.

(** Once the sizes are known, every further round goes to the range again. *)
Lemma sizesLoop_again rounds : forall h, m_async h = false -> stopped h = false -> (length (handleItems h) <= m_sizeItemCount h)%nat ->
  sizesLoop freshMemory rounds h = Some (Nat.iter rounds seek h).
Proof.
  induction rounds as [|rounds IH]; intros h HA HS HC; [done|]. cbn [sizesLoop]. rewrite HS. unfold getSizeForNext. cbn [getSizeLoop].
  rewrite (proj2 (lookup_ge_None _ _)) by done. destruct (seek_keeps h) as (EA & EI & EC & ES). cbv zeta. rewrite EA, HA. cbn [mbind option_bind].
  rewrite IH by congruence. by rewrite Nat.iter_swap.
Qed.
Lemma sizesLoop_spec rounds h : sizingHandle h -> m_async h = false -> sizesLoop freshMemory (S rounds) h = Some (Nat.iter (S rounds) seek (withSizes h)).
Proof.
  intros HSz HA. cbn [sizesLoop]. rewrite (sizing_running _ HSz). unfold getSizeForNext. rewrite getSizeLoop_sync by (done || lia). cbn [mbind option_bind].
  destruct (seek_keeps (withSizes h)) as (EA & EI & EC & ES). rewrite sizesLoop_again; [by rewrite Nat.iter_swap|by rewrite EA|by rewrite ES; apply HSz|by rewrite EI, EC].
Qed.

(** Going to a closed range, or to none, twice is going once. *)
Definition seeksOnce (r : RangeOf) : bool := match r with WholeBlob | FromTo _ _ => true | _ => false end.
Lemma seek_twice r h : sizedHandle r h -> rangeWithin (sizeOf (itemsBytes (handleItems h))) r -> seeksOnce r = true -> seek (seek h) = seek h.
Proof.
  intros HSz HW HO. pose proof HSz as [HI HS HL HR HF HP]. destruct r as [|first|first last|n]; try done; cbn [rangeFields rangeWithin] in *; injection HF as EOf EF ESu.
  - assert (EH : seek h = h) by (unfold seek, positionNotSpecified; rewrite ESu; cbn [Z.eqb Pos.eqb negb]; by rewrite EOf). by rewrite !EH.
  - assert (ET : m_totalRemainingSize h = sizeOf (itemsBytes (handleItems h))) by (injection HP as _ -> _ _ _; done).
    assert (ER : soughtRange h = (first, last)) by (unfold soughtRange; rewrite ESu, EOf, EF; done). assert (HN : first <> -1) by lia.
    rewrite (seek_range h first last ER HN). destruct (seekLoop (m_itemLengthList h) 0 first) as [j c] eqn:EL. cbv zeta. set (total := if last =? -1 then _ else _).
    rewrite (seek_range _ first last); [|unfold soughtRange; cbn; rewrite ESu; done|done].
    change (m_itemLengthList (movedTo _ _ _ h)) with (m_itemLengthList h). rewrite EL. cbv zeta. change (m_totalRemainingSize (movedTo _ _ _ h)) with total.
    assert (ETo : total = last - first + 1) by (unfold total; rewrite (proj2 (Z.eqb_neq last (-1))), ET, int64_id by lia; lia).
    clearbody total. rewrite (proj2 (Z.eqb_neq last (-1))), int64_id by lia. rewrite Z.min_l by lia. apply movedTo_movedTo.
Qed.
Lemma seek_iter r h n : sizedHandle r h -> rangeWithin (sizeOf (itemsBytes (handleItems h))) r -> seeksOnce r = true \/ n = 0%nat -> Nat.iter (S n) seek h = seek h.
Proof.
  intros HSz HW [HO| ->]; [|done]. induction n as [|n IH]; [done|]. change (Nat.iter (S (S n)) seek h) with (seek (Nat.iter (S n) seek h)). rewrite IH. by eapply seek_twice.
Qed.

(** ** Loading at once *)

(** What a request asks for, by its header. *)
Definition asksFor (range : list UChar) (r : RangeOf) : Prop := match range with [] => r = WholeBlob | _ => parseRange range = (true, rangeFields r) end.

(** The handle when its range has been read. *)
Definition startedHandle (blob : BlobData) (range : list UChar) (async : bool) (r : RangeOf) : BlobHandle :=
  newBlobHandle (Some blob) range async <| m_rangeOffset := rangeOffset (rangeFields r) |> <| m_rangeEnd := rangeEnd (rangeFields r) |>
    <| m_rangeSuffixLength := rangeSuffixLength (rangeFields r) |>.
Lemma doStart_range blob range async r : asksFor range r -> doStart freshMemory (newBlobHandle (Some blob) range async) =
  if async then getSizeForNext freshMemory (startedHandle blob range async r)
  else h ← sizesLoop freshMemory (length (blob_items blob)) (startedHandle blob range async r); notifyResponse freshMemory h.
Proof.
  intros HA. unfold doStart, startedHandle. change (stopped (newBlobHandle (Some blob) range async)) with false. cbn [m_blobData newBlobHandle m_range].
  unfold asksFor in HA. destruct range as [|c range]; [subst r; reflexivity|]. rewrite HA. reflexivity.
Qed.

Lemma started_sizing blob range async r : Forall itemOk (blob_items blob) -> sizeOf (itemsBytes (blob_items blob)) < 2 ^ 31 -> sizingHandle (startedHandle blob range async r).
Proof. intros HI HS. split; try done. cbn. lia. Qed.
Lemma started_sized blob range async r : Forall itemOk (blob_items blob) -> sizeOf (itemsBytes (blob_items blob)) < 2 ^ 31 -> sizedHandle r (withSizes (startedHandle blob range async r)).
Proof. intros HI HS. split; try done. by destruct r. Qed.

(** A handle that has gone to its range reads. *)
Lemma sought_reads r h offset fin p : sizedHandle r h -> goodPosition (handleItems h) p -> readingHandle (movedTo offset fin p h).
Proof.
  intros [_ _ HL HR _ _] HG. split; [|exact HL|exact HR]. replace (positionOf (movedTo offset fin p h)) with p by (by destruct p). exact HG.
Qed.

Lemma respond_and_read r h offset fin p : (forall n, length (freshMemory n) = n) -> sizedHandle r h -> goodPosition (handleItems h) p -> pos_opened p = false ->
  m_async h = false -> m_loader h = mkLoader None None [] -> (if negb (offset =? -1) then httpPartialContent else httpOK) = rangeStatus r ->
  m_loader <$> notifyResponse freshMemory (movedTo offset fin p h) = Some (mkLoader None (Some (rangeStatus r, pos_total p)) (wanted (handleItems h) p)).
Proof.
  intros HM HSz HG HO HA HLo HSt. pose proof (sought_reads r h offset fin p HSz HG) as HRd. set (h' := movedTo offset fin p h) in *.
  assert (EE : (m_errorCode h' =? 0) = true). { pose proof (reading_running _ HRd) as HR. unfold stopped in HR. apply orb_false_iff in HR as [_ HR]. by apply negb_false_iff in HR. }
  unfold notifyResponse. rewrite EE. cbn [negb]. unfold notifyResponseOnSuccess, positionNotSpecified. change (m_rangeOffset h') with offset. rewrite HSt. unfold didReceiveResponse.
  set (h1 := emit _ h'). assert (EA : m_async h1 = false) by exact HA. rewrite EA. change (m_totalRemainingSize h') with (m_totalRemainingSize h1).
  assert (HRd1 : readingHandle h1) by (destruct HRd as [HG' HL HR]; split; [exact HG'|exact HL|exact HR]).
  destruct (loader_reads freshMemory (rangeStatus r) h1 HM HRd1 HO HA) as (h2 & -> & EL & _). cbn [fmap option_fmap option_map]. rewrite EL. f_equal.
  assert (ELo : m_loader h1 = mkLoader None None []) by exact HLo. rewrite ELo. assert (EP : positionOf h1 = p) by (destruct p; reflexivity). rewrite EP. reflexivity.
Qed.

(** A handle for a blob whose parts are there. *)
Lemma handle_loads_at_once (httpMethod : list UChar) (blob : BlobData) (range : list UChar) (r : RangeOf) :
  equalIgnoringCase httpMethod (str "GET") = true -> (forall n, length (freshMemory n) = n) -> Forall itemOk (blob_items blob) -> sizeOf (itemsBytes (blob_items blob)) < 2 ^ 31 ->
  asksFor range r -> rangeWithin (sizeOf (itemsBytes (blob_items blob))) r -> seeksOnce r = true \/ length (blob_items blob) = 1%nat ->
  loadResourceSynchronously freshMemory httpMethod (Some blob) range =
    Some (mkLoader None (Some (rangeStatus r, rangeSize (sizeOf (itemsBytes (blob_items blob))) r)) (rangeBytes r (itemsBytes (blob_items blob)))).
Proof.
  intros HG HM HI HS HA HW HO. unfold loadResourceSynchronously, start. rewrite HG. cbn [negb]. clear HG. cbn [m_async newBlobHandle]. rewrite (doStart_range blob range false r HA).
  pose proof (started_sizing blob range false r HI HS) as HSz. pose proof (started_sized blob range false r HI HS) as HSd. set (h := startedHandle blob range false r) in *.
  assert (EI : handleItems h = blob_items blob) by reflexivity. destruct (seek_spec r (withSizes h) HSd HW) as (offset & fin & p & ESk & HSt & HSo).
  cbv zeta in HSo. change (handleItems (withSizes h)) with (blob_items blob) in HSo. pose proof (sought_wanted _ _ _ _ HSo) as HWa. pose proof HSo as [HG HOp _ _ HTo _]. assert (EL : sizesLoop freshMemory (length (blob_items blob)) h = Some (seek (withSizes h))).
  { destruct (length (blob_items blob)) as [|n] eqn:EN.
    - apply nil_length_inv in EN. destruct HO as [HO|]; [|done]. rewrite EN in HW. destruct r as [|?|first last|?]; try done; [|change (sizeOf (itemsBytes [])) with 0 in HW; unfold rangeWithin in HW; lia].
      cbn [sizesLoop]. f_equal. rewrite (withSizes_last h HSz) by by rewrite EI, EN. reflexivity.
    - rewrite sizesLoop_spec by done. f_equal. apply (seek_iter r); [done|done|]. destruct HO as [HO|HO]; [by left|right; lia]. }
  rewrite (option_bind_some _ _ _ EL), ESk. unfold rangeBytes. rewrite <- HWa, <- HTo. by apply (respond_and_read r).
Qed.
End Loads.
