(* ===== verification/BlobAsync.v ===== *)
(** * Loading blobs in the background

    A handle whose tasks are run one after the other, on the file thread and on
    the main thread, tells its client the response, the bytes and the end. *)

From S2P Require Import Prelude CharacterSource IntegerParsing WebSocketHandshake HTTPParsers Blob BlobSpec BlobResourceHandle BlobReading BlobSeek.
Open Scope Z_scope.

Section Async.
Context `{CaseFolding} `{CharDirection} `{FileContents}.
Variable freshMemory : nat -> list Z.

(** ** States of a handle that reads in the background *)

(** The position of a handle, and whether a file that was read is still to be
    closed. *)
Record asyncState (h : BlobHandle) (p : Position) : Prop := {
  async_good : goodPosition (handleItems h) p;
  async_lengths : m_itemLengthList h = map itemSize (handleItems h);
  async_running : stopped h = false;
  async_async : m_async h = true;
  async_main : m_mainTasks h = [];
  async_place : pos_total p = m_totalRemainingSize h /\ pos_current p = m_currentItemReadSize h /\ pos_item p = m_readItemCount h /\ pos_opened p = m_fileOpened h;
  async_tasks : (m_fileTasks h = [] /\ pos_stream p = m_stream h) \/
    (m_fileTasks h = [CloseTask] /\ pos_opened p = false /\ pos_stream p = stream_close (m_stream h))
}.

(** The position in an item is not forgotten before the next item is read: it
    has to be none, or that of a file, or all that is asked for is in the item. *)
Definition startsWell (items : list BlobDataItem) (p : Position) : Prop :=
  pos_opened p = true \/ pos_current p = 0 \/ forall item, items !! pos_item p = Some item -> item_type item = FileItem \/ pos_total p <= itemSize item - pos_current p.

(** A handle that has told its client of some chunks. *)
Definition delivered (chunks : list (list Z)) (p : Position) (h : BlobHandle) : BlobHandle :=
  mkBlobHandle (m_blobData h) (m_range h) (m_async h) (pos_stream p) (m_itemLengthList h) (m_errorCode h) (m_aborted h) (m_rangeOffset h) (m_rangeEnd h)
    (m_rangeSuffixLength h) (pos_total p) (pos_current p) (m_sizeItemCount h) (pos_item p) (pos_opened p) (m_fileTasks h) (m_mainTasks h)
    (m_events h ++ map DidReceiveData chunks) (m_loader h).
Definition openTask (item : BlobDataItem) (q : Position) : FileTask := OpenTask (item_path item) (item_offset item + pos_current q) (fileBytesToRead item q).
Definition openingHandle (chunks : list (list Z)) (item : BlobDataItem) (q : Position) (h : BlobHandle) : BlobHandle :=
  mkBlobHandle (m_blobData h) (m_range h) (m_async h) (m_stream h) (m_itemLengthList h) (m_errorCode h) (m_aborted h) (m_rangeOffset h) (m_rangeEnd h)
    (m_rangeSuffixLength h) (pos_total q) 0 (m_sizeItemCount h) (pos_item q) true (m_fileTasks h ++ [openTask item q]) (m_mainTasks h)
    (m_events h ++ map DidReceiveData chunks) (m_loader h).

Lemma openingHandle_current chunks item q h : openingHandle chunks item q h <| m_currentItemReadSize := 0 |> = openingHandle chunks item q h.
Proof. by destruct h. Qed.
Lemma openingHandle_delivered chunks chunks' p item q h : pos_stream p = m_stream h -> openingHandle chunks' item q (delivered chunks p h) = openingHandle (chunks ++ chunks') item q h.
Proof.
  intros E. unfold openingHandle, delivered. cbn. by rewrite E, map_app, app_assoc.
Qed.

(** What [readAsync] leads to: the end, or a file that is to be opened. *)
Definition finishes (chunks : list (list Z)) (h h' : BlobHandle) : Prop :=
  m_mainTasks h' = [FinishTask] /\ m_fileTasks h' = m_fileTasks h /\ m_events h' = m_events h ++ map DidReceiveData chunks /\ m_aborted h' = false.
Definition reaches (chunks : list (list Z)) (p : Position) (h h' : BlobHandle) : Prop :=
  (finishes chunks h h' /\ wanted (handleItems h) p = concat chunks) \/
  (exists item q, handleItems h !! pos_item q = Some item /\ item_type item = FileItem /\ goodPosition (handleItems h) q /\ pos_opened q = false /\ pos_stream q = pos_stream p /\
    wanted (handleItems h) p = concat chunks ++ wanted (handleItems h) q /\ 0 < pos_total q <= pos_total p /\ (pos_item p <= pos_item q)%nat /\ h' = openingHandle chunks item q h).

Lemma reaches_current chunks p h h' : reaches chunks p h h' -> reaches chunks p h (h' <| m_currentItemReadSize := 0 |>).
Proof.
  intros [[HF HW]|(item & q & HK & HT & HG & HO & HS & HW & HP & HI & ->)]; [left; by destruct HF as (?&?&?&?)|].
  right. exists item, q. rewrite openingHandle_current. split_and!; try done; lia.
Qed.
Lemma reaches_delivered chunks chunks' p p' h h' : pos_stream p' = pos_stream p -> wanted (handleItems h) p = concat chunks ++ wanted (handleItems h) p' ->
  pos_total p' <= pos_total p -> (pos_item p <= pos_item p')%nat -> forall p0, pos_stream p0 = m_stream h -> reaches chunks' p' (delivered chunks p0 h) h' -> reaches (chunks ++ chunks') p h h'.
Proof.
  intros ES EW HT HI p0 E0 [[HF HW]|(item & q & HK & HTy & HG & HO & HS & HW & HP & HIq & ->)]; change (handleItems (delivered chunks p0 h)) with (handleItems h) in *.
  - left. destruct HF as (? & ? & EV & ?). split; [|by rewrite concat_app, EW, HW]. split_and!; try done. rewrite EV. cbn. by rewrite map_app, app_assoc.
  - right. exists item, q. split_and!; try done; [by rewrite HS|by rewrite concat_app, <- app_assoc, EW, HW|lia..|by apply openingHandle_delivered].
Qed.

(** ** Reading without waiting *)

Lemma consumeData_item next n p h data : m_fileOpened h = false -> 0 <= n -> sizeOf data = n -> 0 <= m_totalRemainingSize h - n < 2 ^ 32 ->
  p = mkPosition (m_stream h) (m_totalRemainingSize h - n) (m_currentItemReadSize h) (S (m_readItemCount h)) false ->
  consumeData next data h = next (delivered (if n =? 0 then [] else [data]) p h).
Proof.
  intros HO HN HD HT ->. unfold consumeData. fold (sizeOf data). rewrite HD. cbv zeta. rewrite int64_id by lia. f_equal.
  destruct (n =? 0); unfold delivered; cbn [map]; rewrite ?app_nil_r; destruct h; cbn in HO; subst; reflexivity.
Qed.

Lemma readAsyncLoop_step fuel h p : asyncState h p -> pos_opened p = false -> readAsyncLoop (S fuel) h =
  if m_totalRemainingSize h =? 0 then Some (notifyFinish h)
  else match handleItems h !! m_readItemCount h with
       | None => Some (notifyFinish h)
       | Some item => match item_type item with DataItem => readDataAsync (readAsyncLoop fuel) item h | FileItem => readFileAsync item h | BlobItem => Some h end
       end.
Proof. intros HA HO. cbn [readAsyncLoop]. by rewrite (async_running _ _ HA). Qed.

Lemma finish_reaches h p : asyncState h p -> wanted (handleItems h) p = [] -> reaches [] p h (notifyFinish h).
Proof.
  intros HA HW. left. split; [|done]. unfold notifyFinish. rewrite (async_async _ _ HA). split_and!; [by cbn; rewrite (async_main _ _ HA)|done|cbn; by rewrite app_nil_r|].
  pose proof (async_running _ _ HA) as HR. unfold stopped in HR. apply orb_false_iff in HR as [HR _]. exact HR.
Qed.

(** A file is opened at the position. *)
Lemma readFileAsync_spec h p item : asyncState h p -> pos_opened p = false -> handleItems h !! m_readItemCount h = Some item -> item_type item = FileItem -> 0 < m_totalRemainingSize h ->
  exists h', readFileAsync item h = Some h' /\ reaches [] p h h'.
Proof.
  intros HA HO HK ET HT. pose proof HA as [HG HL HR HAs HM (E1 & E2 & E3 & E4) HTs]. pose proof HG as [HI HS HTo HP]. rewrite HO in HP. destruct HP as (_ & HC & HPos). rewrite E3 in HPos. specialize (HPos item HK).
  pose proof (itemSize_small _ _ item HS HK) as HZ. pose proof (Forall_lookup_1 _ _ _ _ HI HK) as HOk. destruct (fileItem_bytes item HOk ET) as (_ & (Ha & Hb & Hc & Hd) & _).
  assert (HB : pos_total p < 2 ^ 31). { unfold ahead in HTo. rewrite HO in HTo. pose proof (itemsBytes_size_drop (handleItems h) (pos_item p)). unfold sizeOf in *. rewrite length_drop in HTo. lia. }
  eexists. split.
  - unfold readFileAsync. rewrite <- E4, HO, HL, list_lookup_fmap, HK. cbn [fmap option_fmap option_map mbind option_bind]. reflexivity.
  - right. exists item, p. rewrite E3. split_and!; try done; try lia. rewrite <- E1, <- E2, int32_small, !int64_id by lia. cbv zeta.
    replace (if itemSize item - pos_current p >? pos_total p then pos_total p else itemSize item - pos_current p) with (fileBytesToRead item p)
      by (unfold fileBytesToRead; rewrite Z.gtb_ltb; destruct (Z.ltb_spec (pos_total p) (itemSize item - pos_current p)); lia).
    fold (openTask item p). unfold openingHandle. cbn [map]. rewrite app_nil_r, E1, E3. by destruct h.
Qed.

Lemma async_small h p : asyncState h p -> pos_opened p = false -> 0 <= pos_total p < 2 ^ 31.
Proof.
  intros HA HO. destruct (async_good _ _ HA) as [_ HS HT _]. unfold ahead in HT. rewrite HO in HT. pose proof (itemsBytes_size_drop (handleItems h) (pos_item p)). unfold sizeOf in *. rewrite length_drop in HT. lia.
Qed.

(** What [readDataAsync] does with an item of data. *)
Lemma readDataAsync_spec next h p item : asyncState h p -> pos_opened p = false -> handleItems h !! m_readItemCount h = Some item -> item_type item = DataItem ->
  let n := Z.min (itemSize item - pos_current p) (pos_total p) in
  let data := sliceOf (pos_current p) n (itemBytes item) in
  sizeOf data = n /\ 0 <= n /\ readDataAsync next item h =
    h' ← next (delivered (if n =? 0 then [] else [data]) (mkPosition (m_stream h) (pos_total p - n) (pos_current p) (S (pos_item p)) false) h); Some (h' <| m_currentItemReadSize := 0 |>).
Proof.
  intros HA HO HK ET. cbv zeta. pose proof (async_small h p HA HO) as HB. pose proof HA as [HG _ _ _ _ (E1 & E2 & E3 & E4) _]. pose proof HG as [HI HS _ HP]. rewrite HO, E3 in HP. destruct HP as (_ & HC & HPos).
  specialize (HPos item HK). pose proof (itemSize_small _ _ item HS HK) as HZ. pose proof (Forall_lookup_1 _ _ _ _ HI HK) as HOk. pose proof (dataItem_size item HOk ET) as HD.
  set (n := Z.min _ _). assert (Hn : 0 <= n /\ n <= itemSize item - pos_current p /\ n <= pos_total p) by (unfold n; lia).
  assert (ESz : sizeOf (sliceOf (pos_current p) n (itemBytes item)) = n) by (unfold sizeOf, sliceOf, itemSize in *; rewrite length_take, length_drop; unfold sizeOf in *; lia).
  split_and!; [done|lia|]. unfold readDataAsync. rewrite <- E2, <- E1, <- HD, int64_id by lia. cbv zeta.
  replace (if itemSize item - pos_current p >? pos_total p then pos_total p else itemSize item - pos_current p) with n
    by (unfold n; rewrite Z.gtb_ltb; destruct (Z.ltb_spec (pos_total p) (itemSize item - pos_current p)); lia).
  rewrite int32_small, bytesAt_data by (done || lia). cbn [mbind option_bind].
  rewrite (consumeData_item next n (mkPosition (m_stream h) (pos_total p - n) (pos_current p) (S (pos_item p)) false)); [done|congruence|lia|done|rewrite <- E1; lia|by rewrite E1, E2, E3].
Qed.

Lemma concat_chunk (n : Z) (data : list Z) : sizeOf data = n -> concat (if n =? 0 then [] else [data]) = data.
Proof. intros <-. destruct data as [|c data]; [done|]. destruct (Z.eqb_spec (sizeOf (c :: data)) 0) as [E|_]; [unfold sizeOf in E; cbn in E; lia|]. apply app_nil_r. Qed.

Lemma readAsyncLoop_spec fuel : forall h p, asyncState h p -> startsWell (handleItems h) p -> pos_opened p = false -> (length (handleItems h) < fuel + pos_item p)%nat -> (0 < fuel)%nat ->
  exists chunks h', readAsyncLoop fuel h = Some h' /\ reaches chunks p h h'.
Proof.
  induction fuel as [|fuel IH]; intros h p HA HW HO HF HF0; [lia|]. rewrite (readAsyncLoop_step fuel h p HA HO). pose proof (async_small h p HA HO) as HB.
  pose proof HA as [HG HL HR HAs HM (E1 & E2 & E3 & E4) HTs]. destruct (Z.eqb_spec (m_totalRemainingSize h) 0) as [E0|HN0].
  { exists [], (notifyFinish h). split; [done|]. apply finish_reaches; [done|]. unfold wanted. by rewrite E1, E0. }
  destruct (handleItems h !! m_readItemCount h) as [item|] eqn:HK.
  2:{ exists [], (notifyFinish h). split; [done|]. apply finish_reaches; [done|]. unfold wanted, ahead. rewrite HO, E3, (drop_ge (handleItems h)) by by apply lookup_ge_None. cbn. by rewrite drop_nil, take_nil. }
  pose proof (Forall_lookup_1 _ _ _ _ (good_items _ _ HG) HK) as HOk. unfold itemOk in HOk. destruct (item_type item) eqn:ET; [|exists []; apply readFileAsync_spec; done || lia|done]. fold (itemOk item) in HOk.
  assert (HOk' : itemOk item) by by apply (Forall_lookup_1 _ _ _ _ (good_items _ _ HG) HK).
  destruct (readDataAsync_spec (readAsyncLoop fuel) h p item HA HO HK ET) as (ESz & Hn & ->). set (n := Z.min _ _) in *. set (data := sliceOf _ n _) in *. set (chunk := if n =? 0 then [] else [data]).
  pose proof (good_place _ _ HG) as HP. rewrite HO, E3 in HP. destruct HP as (HH & HC & HPos). specialize (HPos item HK). pose proof (dataItem_size item HOk' ET) as HD.
  assert (HKp : handleItems h !! pos_item p = Some item) by by rewrite E3. pose proof (lookup_lt_Some _ _ _ HKp) as HLt.
  destruct (behindData_good (handleItems h) item p n HG HO HKp ET) as [HG2 EW]; [lia|lia|]. fold data in EW.
  set (p0 := mkPosition (m_stream h) (pos_total p - n) (pos_current p) (S (pos_item p)) false). set (h2 := delivered chunk p0 h).
  destruct (decide (pos_total p - n = 0)) as [Et|Et].
  - exists chunk, (notifyFinish h2 <| m_currentItemReadSize := 0 |>).
    assert (EN : readAsyncLoop fuel h2 = Some (notifyFinish h2)).
    { destruct fuel as [|fuel]; [lia|]. cbn [readAsyncLoop]. change (stopped h2) with (stopped h). rewrite HR. change (m_totalRemainingSize h2) with (pos_total p - n). by rewrite Et. }
    rewrite (option_bind_some _ _ _ EN). split; [done|]. apply reaches_current. left. split.
    + unfold notifyFinish. change (m_async h2) with (m_async h). rewrite HAs. unfold stopped in HR. apply orb_false_iff in HR as [HR _]. split_and!; [cbn; by rewrite HM|done|done|exact HR].
    + unfold chunk. rewrite concat_chunk, EW by done. unfold wanted at 1. replace (pos_total (behindData n item p)) with 0 by (unfold behindData; destruct (_ =? item_length item); symmetry; exact Et). by rewrite app_nil_r.
  - assert (EC : pos_current p = 0). { destruct HW as [HW|[HW|HW]]; [congruence|done|]. destruct (HW item HKp) as [HW'|HW']; [congruence|unfold n in Et; lia]. }
    set (p2 := mkPosition (pos_stream p) (pos_total p - n) 0 (S (pos_item p)) false).
    assert (EB : behindData n item p = p2) by (unfold behindData; rewrite (proj2 (Z.eqb_eq _ _)) by (unfold n in *; lia); done). rewrite EB in *.
    assert (HA2 : asyncState h2 p2). { split; try done. destruct HTs as [HTs|(HT1 & _ & HT2)]; [by left|by right]. }
    destruct (IH h2 p2 HA2) as (chunks & h3 & EN & HRe); [right; by left|done|cbn; change (handleItems h2) with (handleItems h); lia|cbn in *; lia|].
    rewrite (option_bind_some _ _ _ EN). exists (chunk ++ chunks), (h3 <| m_currentItemReadSize := 0 |>). split; [done|]. apply reaches_current.
    apply (reaches_delivered chunk chunks p p2 h h3) with (p0 := p0); try done; [unfold chunk; by rewrite concat_chunk|cbn; lia|cbn; lia].
Qed.

(** ** Running the tasks *)

Lemma runTasks_file n h task tasks : m_fileTasks h = task :: tasks ->
  runTasks freshMemory (S n) h = h' ← runFileTask freshMemory task (h <| m_fileTasks := tasks |>); runTasks freshMemory n h'.
Proof. intros E. cbn [runTasks]. by rewrite E. Qed.
Lemma runTasks_main n h task tasks : m_fileTasks h = [] -> m_mainTasks h = task :: tasks ->
  runTasks freshMemory (S n) h = h' ← runMainTask freshMemory task (h <| m_mainTasks := tasks |>); runTasks freshMemory n h'.
Proof. intros E1 E2. cbn [runTasks]. by rewrite E1, E2. Qed.
Lemma runTasks_none n h : m_fileTasks h = [] -> m_mainTasks h = [] -> runTasks freshMemory n h = Some h.
Proof. intros E1 E2. destruct n; cbn [runTasks]; by rewrite E1, E2. Qed.

Lemma run_finish h : m_fileTasks h = [] -> m_mainTasks h = [FinishTask] -> m_aborted h = false ->
  exists h', runTasks freshMemory 1 h = Some h' /\ m_events h' = m_events h ++ [DidFinishLoading].
Proof.
  intros E1 E2 E3. rewrite (runTasks_main 0 h FinishTask []) by done. cbn [runMainTask mbind option_bind]. change (m_aborted (h <| m_mainTasks := [] |>)) with (m_aborted h). rewrite E3.
  eexists. split; [apply runTasks_none; done|done].
Qed.
Lemma run_close_finish h : m_fileTasks h = [] \/ m_fileTasks h = [CloseTask] -> m_mainTasks h = [FinishTask] -> m_aborted h = false ->
  exists n h', runTasks freshMemory n h = Some h' /\ m_events h' = m_events h ++ [DidFinishLoading].
Proof.
  intros [E1|E1] E2 E3; [exists 1%nat; by apply run_finish|]. exists 2%nat. rewrite (runTasks_file 1 h CloseTask []) by done. cbn [runFileTask mbind option_bind].
  destruct (run_finish (h <| m_fileTasks := [] |> <| m_stream := stream_close (m_stream (h <| m_fileTasks := [] |>)) |>)) as (h' & E & EV); [done|exact E2|exact E3|].
  exists h'. split; [exact E|exact EV].
Qed.

(** What the client is told if the handle reads on and its tasks are run. *)
Definition readOn (n : nat) (h : BlobHandle) : option BlobHandle := h1 ← readAsync h; runTasks freshMemory n h1.
Definition tells (result : option BlobHandle) (events : list BlobEvent) (bytes : list Z) : Prop :=
  exists h' chunks, result = Some h' /\ m_events h' = events ++ map DidReceiveData chunks ++ [DidFinishLoading] /\ concat chunks = bytes.
Lemma tells_more result events chunks bytes rest : tells result (events ++ map DidReceiveData chunks) rest -> bytes = concat chunks ++ rest -> tells result events bytes.
Proof.
  intros (h' & chunks' & E & EV & EC) EB. exists h', (chunks ++ chunks'). split_and!; [done|by rewrite EV, map_app, <- !app_assoc|by rewrite EB, concat_app, EC].
Qed.

Definition readMeasure (items : list BlobDataItem) (p : Position) : nat :=
  (Z.to_nat (pos_total p) + 2 * (length items - pos_item p) + (if pos_opened p then 0 else 1))%nat.

(** The file thread opens the file. *)
Lemma run_open h item q n : handleItems h !! pos_item q = Some item -> item_type item = FileItem -> goodPosition (handleItems h) q -> pos_opened q = false ->
  m_fileTasks h = [openTask item q] -> m_stream h = pos_stream q -> runTasks freshMemory (S n) h = readOn n (h <| m_fileTasks := [] |> <| m_stream := pos_stream (openedFile item q) |>).
Proof.
  intros HK ET [HI HS HT HP] HO EF ES. rewrite (runTasks_file n h _ [] EF). unfold openTask. cbn [runFileTask]. rewrite HO in HP. destruct HP as (HH & HC & HPos). specialize (HPos item HK).
  pose proof (Forall_lookup_1 _ _ _ _ HI HK) as HOk. destruct (fileItem_bytes item HOk ET) as (HRe & (Ha & Hb & Hc & Hd) & _).
  change (m_stream (h <| m_fileTasks := [] |>)) with (m_stream h). rewrite ES. unfold stream_openForRead. rewrite HH, readable_open by done. cbn [negb]. rewrite readable_seek by (done || lia). rewrite andb_false_r.
  replace (if item_offset item + pos_current q >? 0 then item_offset item + pos_current q else 0) with (item_offset item + pos_current q)
    by (rewrite Z.gtb_ltb; destruct (Z.ltb_spec 0 (item_offset item + pos_current q)); lia). reflexivity.
Qed.

Lemma readAsync_closed m h p : asyncState h p -> startsWell (handleItems h) p -> pos_opened p = false -> (readMeasure (handleItems h) p <= S m)%nat ->
  (forall h p, asyncState h p -> startsWell (handleItems h) p -> (readMeasure (handleItems h) p <= m)%nat -> exists n, tells (readOn n h) (m_events h) (wanted (handleItems h) p)) ->
  exists n, tells (readOn n h) (m_events h) (wanted (handleItems h) p).
Proof.
  intros HA HW HO HM IH. unfold readOn, readAsync. destruct (readAsyncLoop_spec (S (length (handleItems h))) h p HA HW HO) as (chunks & h1 & E & HR); [lia|lia|].
  pose proof (async_tasks _ _ HA) as HTs. destruct HR as [[(E1 & E2 & E3 & E4) EW]|(item & q & HK & ET & HG & HOq & HSq & EW & HT & HI & Eh)].
  - destruct (run_close_finish h1) as (n & h' & ER & EV); [rewrite E2; destruct HTs as [[-> _]|[-> _]]; auto|done|done|]. exists n, h', chunks.
    split_and!; [by rewrite (option_bind_some _ _ _ E)|by rewrite EV, E3, <- app_assoc|by rewrite EW].
  - pose proof (openedFile_good (handleItems h) item q HG HOq HK ET) as [HGo HWo]. pose proof (lookup_lt_Some _ _ _ HK) as HLt.
    (* the handle when the file that was read is closed *)
    set (h2 := openingHandle chunks item q h <| m_fileTasks := [openTask item q] |> <| m_stream := pos_stream p |>).
    assert (HRun : exists k, forall n, runTasks freshMemory (k + n) h1 = runTasks freshMemory n h2).
    { rewrite Eh. destruct HTs as [[EF ES]|(EF & _ & ES)].
      - exists 0%nat. intros n. cbn [Nat.add]. f_equal. unfold h2, openingHandle. by rewrite EF, ES.
      - exists 1%nat. intros n. cbn [Nat.add]. rewrite (runTasks_file n _ CloseTask [openTask item q]) by (unfold openingHandle; by rewrite EF). unfold h2. by rewrite ES. }
    destruct (IH (h2 <| m_fileTasks := [] |> <| m_stream := pos_stream (openedFile item q) |>) (openedFile item q)) as (n & HTe).
    { destruct HA as [_ HL HR HAs HMt _ _]. split; [exact HGo|exact HL|exact HR|exact HAs|exact HMt|by split_and!|by left]. }
    { by left. }
    { unfold readMeasure in *. rewrite HO in HM. cbn [pos_total pos_item pos_opened openedFile]. change (handleItems _) with (handleItems h). lia. }
    destruct HRun as (k & HRun). exists (k + S n)%nat. rewrite (option_bind_some _ _ _ E), HRun, (run_open h2 item q n) by (done || by rewrite HSq).
    eapply tells_more; [exact HTe|]. change (handleItems _) with (handleItems h). by rewrite EW, HWo.
Qed.

(** The file thread has read some bytes, or none at the end. *)
Lemma consume_bytes h p st bytes : asyncState h p -> pos_opened p = true -> bytes <> [] -> sizeOf bytes <= pos_total p ->
  consumeData readAsync bytes (h <| m_stream := st |>) = readAsync (delivered [bytes] (behindFile st (sizeOf bytes) p) h).
Proof.
  intros HA HO HN HB. pose proof (opened_small _ _ (async_good _ _ HA)) as HS. destruct (async_place _ _ HA) as (E1 & E2 & E3 & E4). pose proof (good_place _ _ (async_good _ _ HA)) as HP. rewrite HO in HP. destruct HP as (EC & _).
  unfold consumeData. fold (sizeOf bytes). cbv zeta. assert (HZ : 0 < sizeOf bytes) by (destruct bytes; [done|unfold sizeOf; cbn; lia]).
  rewrite (proj2 (Z.eqb_neq (sizeOf bytes) 0)) by lia. change (m_totalRemainingSize (h <| m_stream := st |>)) with (m_totalRemainingSize h). rewrite <- E1, int64_id by lia.
  f_equal. unfold delivered, behindFile. cbn [map]. rewrite E3. rewrite EC in E2. rewrite HO in E4. clear - E2 E4. destruct h. cbn in E2, E4. subst. reflexivity.
Qed.
Lemma consume_end h p : asyncState h p -> pos_opened p = true ->
  consumeData readAsync [] h = readAsync (delivered [] (mkPosition (m_stream h) (pos_total p) 0 (S (pos_item p)) false) h <| m_fileTasks := m_fileTasks h ++ [CloseTask] |>).
Proof.
  intros HA HO. pose proof (opened_small _ _ (async_good _ _ HA)) as HS. pose proof (good_total _ _ (async_good _ _ HA)) as HT. destruct (async_place _ _ HA) as (E1 & E2 & E3 & E4).
  pose proof (good_place _ _ (async_good _ _ HA)) as HP. rewrite HO in HP. destruct HP as (EC & _). unfold consumeData. change (Z.of_nat (length [])) with 0. cbv zeta.
  rewrite Z.sub_0_r, <- E1, int64_id by lia. cbn [Z.eqb]. f_equal. unfold delivered. cbn [map]. rewrite app_nil_r, E3. rewrite EC in E2. rewrite HO in E4. clear - E2 E4. destruct h. cbn in E2, E4. subst. reflexivity.
Qed.

Lemma readAsync_opened m h p : asyncState h p -> pos_opened p = true -> (readMeasure (handleItems h) p <= S m)%nat ->
  (forall h p, asyncState h p -> startsWell (handleItems h) p -> (readMeasure (handleItems h) p <= m)%nat -> exists n, tells (readOn n h) (m_events h) (wanted (handleItems h) p)) ->
  exists n, tells (readOn n h) (m_events h) (wanted (handleItems h) p).
Proof.
  intros HA HO HM IH. pose proof HA as [HG HL HR HAs HMt (E1 & E2 & E3 & E4) HTs]. pose proof (good_place _ _ HG) as HP. rewrite HO in HP. destruct HP as (EC & HSz & item & HK & ET & HSt).
  destruct HTs as [[EF ES]|(_ & EO & _)]; [|congruence]. unfold readOn, readAsync. cbn [readAsyncLoop]. rewrite HR. destruct (Z.eqb_spec (m_totalRemainingSize h) 0) as [E0|HN].
  { destruct (run_close_finish (notifyFinish h)) as (n & h' & ER & EV).
    - left. unfold notifyFinish. by rewrite HAs.
    - unfold notifyFinish. rewrite HAs. cbn. by rewrite HMt.
    - unfold notifyFinish. rewrite HAs. unfold stopped in HR. by apply orb_false_iff in HR as [HR _].
    - exists n, h', []. cbn [mbind option_bind map concat app]. split_and!; [done|rewrite EV; unfold notifyFinish; by rewrite HAs|]. unfold wanted. by rewrite E1, E0. }
  pose proof (lookup_lt_Some _ _ _ HK) as HLt. rewrite <- E3, HK, ET. unfold readFileAsync. rewrite <- E4, HO. cbn [mbind option_bind].
  pose proof (Forall_lookup_1 _ _ _ _ (good_items _ _ HG) HK) as HOk. destruct (fileItem_bytes item HOk ET) as (HRe & _ & _).
  assert (ER : forall n, runTasks freshMemory (S n) (postFileTask (ReadTask bufferSize) h) =
    h' ← (let '(result, stream) := stream_read bufferSize (m_stream h) in didRead result (h <| m_stream := stream |>)); runTasks freshMemory n h').
  { intros n. rewrite (runTasks_file n _ (ReadTask bufferSize) []) by (cbn; by rewrite EF). cbn [runFileTask].
    replace (postFileTask (ReadTask bufferSize) h <| m_fileTasks := [] |>) with h by (destruct h; cbn in EF; by subst). done. }
  rewrite <- ES in ER. destruct (stream_read_spec item (pos_stream p) bufferSize HRe HSt) as [[EL EN]|(bytes & st & HB & EN & HSt' & EL & HBs)]; [by vm_compute| |]; rewrite EN in ER; cbn [didRead] in ER.
  - replace (h <| m_stream := pos_stream p |>) with h in ER by (rewrite ES; by destruct h). destruct (closedFile_good _ p HG HO EL) as [HGc HWc].
    set (h3 := delivered [] (mkPosition (m_stream h) (pos_total p) 0 (S (pos_item p)) false) h <| m_fileTasks := m_fileTasks h ++ [CloseTask] |>).
    destruct (IH h3 (closedFile p)) as (n & HTe).
    + split; [exact HGc|exact HL|exact HR|exact HAs|exact HMt|by split_and!|]. right. unfold h3. cbn. rewrite EF, ES. by split_and!.
    + right; by left.
    + unfold readMeasure in *. rewrite HO in HM. cbn [pos_total pos_item pos_opened closedFile]. change (handleItems h3) with (handleItems h). lia.
    + exists (S n). rewrite ER, (consume_end h p HA HO). apply (tells_more _ _ [] _ (wanted (handleItems h) p)); [|done]. rewrite <- HWc. exact HTe.
  - destruct (behindFile_good (handleItems h) item p st bytes HG HO HK ET HSt' EL) as [HGb HWb].
    assert (HBt : sizeOf bytes <= pos_total p) by (rewrite EL in HSz; unfold sizeOf in *; rewrite length_app in HSz; lia).
    set (h3 := delivered [bytes] (behindFile st (sizeOf bytes) p) h). destruct (IH h3 (behindFile st (sizeOf bytes) p)) as (n & HTe).
    + split; [exact HGb|exact HL|exact HR|exact HAs|exact HMt|by split_and!|left; by split].
    + by left.
    + unfold readMeasure in *. rewrite HO in HM. cbn [pos_total pos_item pos_opened behindFile]. change (handleItems h3) with (handleItems h). assert (HZ : 0 < sizeOf bytes) by (destruct bytes; [done|unfold sizeOf; cbn; lia]). lia.
    + exists (S n). rewrite ER, (consume_bytes h p st bytes HA HO HB HBt). apply (tells_more _ _ [bytes] _ (wanted (handleItems h) (behindFile st (sizeOf bytes) p))); [exact HTe|]. cbn. by rewrite app_nil_r, HWb.
Qed.

Lemma readAsync_tells m : forall h p, asyncState h p -> startsWell (handleItems h) p -> (readMeasure (handleItems h) p <= m)%nat ->
  exists n, tells (readOn n h) (m_events h) (wanted (handleItems h) p).
Proof.
  induction m as [|m IH]; intros h p HA HW HM; destruct (pos_opened p) eqn:EO.
  - exfalso. pose proof (good_place _ _ (async_good _ _ HA)) as HP. rewrite EO in HP. destruct HP as (_ & _ & item & HK & _). apply lookup_lt_Some in HK. unfold readMeasure in HM. lia.
  - unfold readMeasure in HM. rewrite EO in HM. lia.
  - by eapply readAsync_opened.
  - by eapply readAsync_closed.
Qed.

(** More fuel changes nothing. *)
Lemma runTasks_more fuel : forall more h h', runTasks freshMemory fuel h = Some h' -> runTasks freshMemory (fuel + more) h = Some h'.
Proof.
  induction fuel as [|fuel IH]; intros more h h' E; cbn [runTasks Nat.add] in *.
  - destruct (m_fileTasks h) as [|? ?] eqn:E1, (m_mainTasks h) as [|? ?] eqn:E2; try done. injection E as <-. by apply runTasks_none.
  - destruct (m_fileTasks h) as [|? ?], (m_mainTasks h) as [|? ?]; try done; apply bind_Some in E as (h1 & E1 & E); rewrite (option_bind_some _ _ _ E1); by apply IH.
Qed.

(** ** The sizes of the items *)

(** A handle that waits for nothing. *)
Definition idle (h : BlobHandle) : Prop := m_async h = true /\ m_fileTasks h = [] /\ m_mainTasks h = [].

(** When the sizes are known, the handle goes to its range, tells its client and
    reads. *)
Definition respondAndRead (h : BlobHandle) : option BlobHandle := h1 ← notifyResponse freshMemory (seek (withSizes h)); readAsync h1.

Lemma getSizeLoop_async fuel : forall h, sizingHandle h -> idle h -> (length (handleItems h) < fuel + m_sizeItemCount h)%nat ->
  getSizeLoop freshMemory fuel h = respondAndRead h \/
  exists item h', getSizeLoop freshMemory fuel h = Some (postFileTask (GetSizeTask (item_path item) (item_time item)) h') /\ sizingHandle h' /\ idle h' /\
    withSizes h' = withSizes h /\ handleItems h' = handleItems h /\ handleItems h' !! m_sizeItemCount h' = Some item /\ item_type item = FileItem /\ (m_sizeItemCount h <= m_sizeItemCount h')%nat.
Proof.
  induction fuel as [|fuel IH]; intros h HSz HId HF; [pose proof (sizing_count _ HSz); lia|]. cbn [getSizeLoop]. pose proof HId as [HA _].
  destruct (handleItems h !! m_sizeItemCount h) as [item|] eqn:HK.
  2:{ left. apply lookup_ge_None in HK. pose proof (sizing_count _ HSz) as HC. unfold respondAndRead. rewrite (withSizes_last h HSz) by lia. cbv zeta. destruct (seek_keeps h) as (-> & _). by rewrite HA. }
  pose proof (Forall_lookup_1 _ _ _ _ (sizing_items _ HSz) HK) as HOk. unfold itemOk in HOk. destruct (item_type item) eqn:ET; [| |done].
  - rewrite (didGetSize_spec freshMemory _ item) by (done || congruence). destruct (sizing_next h item HSz HK) as [HSz' _].
    destruct (IH (withSize item h) HSz' HId) as [E|(item' & h' & E & H1' & H2' & H3' & H4' & H5' & H6' & H7')].
    { change (handleItems (withSize item h)) with (handleItems h). change (m_sizeItemCount (withSize item h)) with (S (m_sizeItemCount h)). lia. }
    + left. exact E.
    + right. exists item', h'. change (m_sizeItemCount (withSize item h)) with (S (m_sizeItemCount h)) in H7'. split_and!; try done. lia.
  - right. exists item, h. rewrite HA. by split_and!.
Qed.

(** The file thread finds the sizes of the files. *)
Lemma run_sizes m : forall h, sizingHandle h -> idle h -> (length (handleItems h) - m_sizeItemCount h <= m)%nat ->
  exists k, forall n, (h1 ← getSizeForNext freshMemory h; runTasks freshMemory (k + n) h1) = h1 ← respondAndRead h; runTasks freshMemory n h1.
Proof.
  induction m as [|m IH]; intros h HSz HId HM; unfold getSizeForNext;
    (destruct (getSizeLoop_async (S (length (handleItems h))) h HSz HId ltac:(lia)) as [->|(item & h' & -> & HSz' & HId' & EW & EI & HK & ET & HC)]; [by exists 0%nat|]).
  - apply lookup_lt_Some in HK. rewrite EI in HK. lia.
  - pose proof (lookup_lt_Some _ _ _ HK) as HLt. destruct (sizing_next h' item HSz' HK) as [HSz2 _]. destruct (IH (withSize item h') HSz2 HId') as (k & Hk).
    { change (handleItems (withSize item h')) with (handleItems h'). change (m_sizeItemCount (withSize item h')) with (S (m_sizeItemCount h')). rewrite EI in *. lia. }
    exists (S k). intros n. cbn [mbind option_bind Nat.add]. destruct HId' as (_ & EF & _). rewrite (runTasks_file _ _ (GetSizeTask (item_path item) (item_time item)) []) by (cbn; by rewrite EF).
    replace (postFileTask _ h' <| m_fileTasks := [] |>) with h' by (clear - EF; destruct h'; cbn in EF; by subst). cbn [runFileTask]. unfold didGetSize.
    rewrite (didGetSize_spec freshMemory _ item) by (done || congruence). rewrite Hk. unfold respondAndRead. rewrite withSizes_next, EW. done.
Qed.

(** ** Loading in the background *)

(** A range that starts inside an item of data ends in it. *)
Definition rangeStartsWell (items : list BlobDataItem) (start n : Z) : Prop :=
  forall j item, items !! j = Some item -> item_type item = DataItem -> let before := sizeOf (itemsBytes (take j items)) in
    before < start < before + itemSize item -> start + n <= before + itemSize item.

Lemma rangeStartsWell_startsWell items p start n : soughtPosition items start n p -> 0 <= start <= sizeOf (itemsBytes items) -> rangeStartsWell items start n -> startsWell items p.
Proof.
  intros [HG HO _ EA <- HIn] HS HW. pose proof (good_place _ _ HG) as HP. rewrite HO in HP. destruct HP as (_ & HC & _). destruct (decide (pos_current p = 0)) as [E|HN]; [right; by left|].
  do 2 right. intros item HK. destruct HIn as [HIn|HIn]; [done|]. specialize (HIn item HK). pose proof (Forall_lookup_1 _ _ _ _ (good_items _ _ HG) HK) as HOk. unfold itemOk in HOk. destruct (item_type item) eqn:ET; [|by left|done]. right.
  assert (EL : sizeOf (itemsBytes items) = sizeOf (itemsBytes (take (pos_item p) items)) + sizeOf (itemsBytes (drop (pos_item p) items))).
  { rewrite <- (take_drop (pos_item p) items) at 1. rewrite itemsBytes_app. unfold sizeOf. rewrite length_app. lia. }
  assert (EI : itemSize item <= sizeOf (itemsBytes (drop (pos_item p) items))).
  { rewrite (drop_S items item) by done. change (itemsBytes (item :: ?l)) with (itemBytes item ++ itemsBytes l). unfold itemSize, sizeOf. rewrite length_app. lia. }
  assert (ES : start = sizeOf (itemsBytes (take (pos_item p) items)) + pos_current p).
  { apply (f_equal length) in EA. unfold ahead in EA. rewrite HO, !length_drop in EA. unfold sizeOf in *. lia. }
  specialize (HW _ _ HK ET). cbv zeta in HW. lia.
Qed.

(** The handle that has told its client of the response reads. *)
Lemma sought_async r h start n offset fin p event : sizedHandle r h -> idle h -> soughtPosition (handleItems h) start n p -> asyncState (emit event (movedTo offset fin p h)) p.
Proof.
  intros HSz (HA & HF & HM) [HG HO HS _ _ _]. destruct (sought_reads r h offset fin p HSz HG) as [_ HL HR]. split; [exact HG|exact HL|exact HR|exact HA|exact HM|done|left; by split].
Qed.

Lemma rangeStart_within size r : 0 <= size -> rangeWithin size r -> 0 <= rangeStart size r <= size.
Proof. intros HS. destruct r; cbn; lia. Qed.

Lemma notify_async h : m_async h = true -> stopped h = false -> notifyResponse freshMemory h =
  Some (emit (DidReceiveResponse (if negb (m_rangeOffset h =? -1) then httpPartialContent else httpOK) (m_totalRemainingSize h)) h).
Proof.
  intros HA HR. apply orb_false_iff in HR as [_ HR]. apply negb_false_iff in HR. unfold notifyResponse. rewrite HR. cbn [negb]. unfold notifyResponseOnSuccess, didReceiveResponse.
  set (event := DidReceiveResponse _ _). assert (EA : m_async (emit event h) = true) by exact HA. by rewrite EA.
Qed.

Lemma sized_tells r h : sizedHandle r h -> idle h -> let bytes := itemsBytes (handleItems h) in
  rangeWithin (sizeOf bytes) r -> rangeStartsWell (handleItems h) (rangeStart (sizeOf bytes) r) (rangeSize (sizeOf bytes) r) ->
  exists n, tells (h1 ← notifyResponse freshMemory (seek h); readOn n h1) (m_events h ++ [DidReceiveResponse (rangeStatus r) (rangeSize (sizeOf bytes) r)]) (rangeBytes r bytes).
Proof.
  intros HSz HId. cbv zeta. intros HW HSW. destruct (seek_spec r h HSz HW) as (offset & fin & p & ESk & HSt & HSo). cbv zeta in HSo.
  pose proof (sought_reads r _ offset fin p HSz (sought_good _ _ _ _ HSo)) as HRd. rewrite ESk, notify_async by first [apply HId | apply HRd]. set (event := DidReceiveResponse _ _).
  assert (EE : event = DidReceiveResponse (rangeStatus r) (rangeSize (sizeOf (itemsBytes (handleItems h))) r)) by (unfold event; rewrite <- HSt, <- (sought_total _ _ _ _ HSo); done).
  rewrite <- EE. clearbody event. pose proof (sought_async r h _ _ offset fin p event HSz HId HSo) as HA.
  destruct (readAsync_tells _ _ p HA (rangeStartsWell_startsWell _ _ _ _ HSo ltac:(apply rangeStart_within; [unfold sizeOf; lia|done]) HSW) ltac:(done)) as (n & HTe).
  exists n. cbn [mbind option_bind]. unfold rangeBytes. rewrite <- (sought_wanted _ _ _ _ HSo). exact HTe.
Qed.

(** C10: a blob that is loaded in the background.  For a blob of fewer than 2^31 bytes
    (beyond them [large_range_cut]), of parts of data and of files that have not changed, and a range within it that does not begin
    inside a part of data and go on behind it, the tasks that the handle and its
    stream post to each other end.  Whatever number of bytes the system reads at a
    time, the client is told of the response with the status and the length, then
    of chunks that are, one after the other, the bytes of the range, and last that
    the load is finished. *)
Theorem blob_loaded_in_background (m_blobs : BlobRegistry) (httpMethod url range : list UChar) (blob : BlobData) (r : RangeOf) :
  let bytes := itemsBytes (blob_items blob) in
  equalIgnoringCase httpMethod (str "GET") = true -> getBlobDataFromURL url m_blobs = Some blob -> Forall itemOk (blob_items blob) -> sizeOf bytes < 2 ^ 31 -> asksFor range r -> rangeWithin (sizeOf bytes) r ->
  rangeStartsWell (blob_items blob) (rangeStart (sizeOf bytes) r) (rangeSize (sizeOf bytes) r) ->
  exists steps h chunks, (forall fuel, (steps <= fuel)%nat -> (h0 ← createResourceHandle freshMemory httpMethod url range m_blobs; runTasks freshMemory fuel h0) = Some h) /\
    m_events h = DidReceiveResponse (rangeStatus r) (rangeSize (sizeOf bytes) r) :: map DidReceiveData chunks ++ [DidFinishLoading] /\ concat chunks = rangeBytes r bytes.
Proof.
  cbv zeta. intros HGet HB HI HS HA HW HSW. unfold createResourceHandle, createAsync. rewrite HGet, HB. cbn [negb]. clear HGet HB. pose proof (started_sizing blob range true r HI HS) as HSz. pose proof (started_sized blob range true r HI HS) as HSd. set (h := startedHandle blob range true r) in *.
  assert (HId : idle h) by done. destruct (run_sizes _ h HSz HId ltac:(done)) as (k & Hk). destruct (sized_tells r (withSizes h) HSd HId HW HSW) as (n & h' & chunks & ER & EV & EC).
  exists (S (k + n)), h', chunks. split_and!; [|exact EV|exact EC]. intros fuel HF. replace fuel with (S (k + n) + (fuel - S (k + n)))%nat by lia. unfold start. cbn [m_async newBlobHandle mbind option_bind].
  apply runTasks_more. rewrite (runTasks_main (k + n) _ StartTask []) by done. cbn [runMainTask].
  replace (newBlobHandle (Some blob) range true <| m_mainTasks := [StartTask] |> <| m_mainTasks := [] |>) with (newBlobHandle (Some blob) range true) by done.
  cbn [m_mainTasks newBlobHandle app] in *. rewrite (doStart_range freshMemory blob range true r HA). fold h. rewrite Hk. unfold respondAndRead. apply bind_Some in ER as (h1 & E1 & ER). by rewrite (option_bind_some _ _ _ E1).
Qed.
End Async.

Import BlobSamples.

Lemma blob_loaded_in_background_witness :
  exists steps h chunks, (forall fuel, (steps <= fuel)%nat -> (h0 ← createResourceHandle sampleMemory (str "GET") (str "blob:1") (str "bytes=5-12") sampleRegistry; runTasks sampleMemory fuel h0) = Some h) /\
    m_events h = DidReceiveResponse 206 8 :: map DidReceiveData chunks ++ [DidFinishLoading] /\ concat chunks = str "234567wo".
Proof.
  assert (EA : asksFor (str "bytes=5-12") (FromTo 5 12)) by (vm_compute; reflexivity).
  assert (HS : rangeStartsWell (blob_items sampleBlob) 5 8).
  { intros j item HK ET. cbv zeta. destruct j as [|[|[|j]]]; cbn in HK; [injection HK as <-; vm_compute; intuition congruence..|done]. }
  exact (blob_loaded_in_background sampleMemory sampleRegistry (str "GET") (str "blob:1") (str "bytes=5-12") sampleBlob (FromTo 5 12) eq_refl sampleRegistered sampleItemsOk ltac:(vm_compute; reflexivity) EA ltac:(vm_compute; split_and!; done) HS).
Defined.
