(* ===== verification/BlobErrors.v ===== *)
(** * Blobs that cannot be loaded

    The answers to a request for a blob that is not there, for a range that
    cannot be read, and for a blob with a file that was moved or changed. *)

From S2P Require Import Prelude CharacterSource IntegerParsing WebSocketHandshake HTTPParsers Blob BlobSpec BlobResourceHandle BlobReading BlobSeek BlobAsync.
From stdpp Require Import gmap.
Open Scope Z_scope.

Section Errors.
Context `{CaseFolding} `{CharDirection} `{FileSystem}.
Variable freshMemory : nat -> list Z.

(** ** Telling of an error *)

Lemma finish_keeps h : m_async h = false -> m_loader (notifyFinish h) = m_loader h /\ m_errorCode (notifyFinish h) = m_errorCode h /\ m_async (notifyFinish h) = false.
Proof. intros HA. unfold notifyFinish. rewrite HA. by destruct (m_aborted h). Qed.

(** At once: the loader has the status and no bytes. *)
Lemma error_at_once h : (forall n, length (freshMemory n) = n) -> m_async h = false -> m_errorCode h <> 0 -> exists h', notifyResponse freshMemory h = Some h' /\
  m_loader h' = mkLoader (l_error (m_loader h)) (Some (errorStatus (m_errorCode h), 0)) [] /\ m_errorCode h' = m_errorCode h /\ m_async h' = false.
Proof.
  intros HM HA HE. unfold notifyResponse. rewrite (proj2 (Z.eqb_neq _ _) HE). cbn [negb]. unfold notifyResponseOnError, didReceiveResponse. set (h1 := emit _ h).
  assert (EA : m_async h1 = false) by exact HA. assert (ES : stopped h1 = true) by (unfold stopped; apply orb_true_intro; right; apply negb_true_iff, Z.eqb_neq; exact HE).
  rewrite EA. unfold loaderDidReceiveResponse, maxLength, readSync. change (0 >? 2 ^ 31 - 1) with false. change (0 <? 0) with false. cbn [readSyncLoop]. change (0 =? 0) with true. cbn [mbind option_bind].
  rewrite ES. cbn [fmap option_fmap option_map]. eexists. split; [reflexivity|]. rewrite (nil_length_inv _ (HM (Z.to_nat 0))).
  match goal with |- m_loader (notifyFinish ?h2) = _ /\ _ => destruct (finish_keeps h2 EA) as (-> & -> & ->) end. by split_and!.
Qed.

(** In the background: the client is told of the status and of the end. *)
Lemma error_in_background h : idle h -> m_aborted h = false -> m_errorCode h <> 0 -> exists h', notifyResponse freshMemory h = Some h' /\
  exists h'', runTasks freshMemory 1 h' = Some h'' /\ m_events h'' = m_events h ++ [DidReceiveResponse (errorStatus (m_errorCode h)) 0; DidFinishLoading].
Proof.
  intros (HA & HF & HM) HAb HE. unfold notifyResponse. rewrite (proj2 (Z.eqb_neq _ _) HE). cbn [negb]. unfold notifyResponseOnError, didReceiveResponse. set (h1 := emit _ h).
  assert (EA : m_async h1 = true) by exact HA. rewrite EA. cbn [fmap option_fmap option_map]. eexists. split; [reflexivity|]. unfold notifyFinish. rewrite EA.
  destruct (run_finish freshMemory (h1 <| m_mainTasks := m_mainTasks h1 ++ [FinishTask] |>)) as (h2 & E2 & EV); [exact HF|cbn; by rewrite HM|exact HAb|].
  exists h2. split; [done|]. rewrite EV. cbn. by rewrite <- app_assoc.
Qed.

(** ** A file that is not found *)

(** The size of an item is found. *)
Definition sizeFound (item : BlobDataItem) : bool :=
  match item_type item with
  | DataItem => negb (item_length item =? -1)
  | FileItem => negb (stream_getSize (item_path item) (item_time item) =? -1)
  | BlobItem => false
  end.

Section FileNotFound.
Variable items : list BlobDataItem.
Variable j : nat.
Variable item : BlobDataItem.
Hypothesis lost_item : items !! j = Some item.
Hypothesis lost_file : item_type item = FileItem.
Hypothesis lost : stream_getSize (item_path item) (item_time item) = -1.
Hypothesis found : forall i other, (i < j)%nat -> items !! i = Some other -> sizeFound other = true.

(** A handle that finds sizes, and has told its client nothing. *)
Record probing (async : bool) (h : BlobHandle) : Prop := {
  probing_items : handleItems h = items;
  probing_count : (m_sizeItemCount h <= j)%nat;
  probing_running : m_aborted h = false /\ m_errorCode h = 0;
  probing_async : m_async h = async /\ m_fileTasks h = [] /\ m_mainTasks h = [];
  probing_events : m_events h = [] /\ m_loader h = mkLoader None None []
}.

(** The size of the next item: the handle goes on, or the load fails. *)
Definition sizeNext (other : BlobDataItem) : Z := match item_type other with DataItem => item_length other | _ => stream_getSize (item_path other) (item_time other) end.
Lemma probe_next async next h other : probing async h -> items !! m_sizeItemCount h = Some other ->
  (m_sizeItemCount h = j /\ didGetSizeThen freshMemory next (sizeNext other) h = notifyResponse freshMemory (h <| m_errorCode := notFoundError |>)) \/
  (exists h', didGetSizeThen freshMemory next (sizeNext other) h = next h' /\ probing async h' /\ m_sizeItemCount h' = S (m_sizeItemCount h)).
Proof.
  intros [EI HC [HAb HE] HA HEv] HK. unfold didGetSizeThen, stopped. rewrite HAb, HE. cbn [orb negb Z.eqb]. destruct (decide (m_sizeItemCount h = j)) as [Ej|Ej].
  - left. split; [done|]. rewrite Ej, lost_item in HK. injection HK as <-. unfold sizeNext. by rewrite lost_file, lost.
  - right. pose proof (found (m_sizeItemCount h) other ltac:(lia) HK) as HF. unfold sizeFound in HF.
    assert (EN : (sizeNext other =? -1) = false) by (unfold sizeNext; destruct (item_type other); [by apply negb_true_iff in HF..|done]).
    rewrite EN, EI, HK. cbn [mbind option_bind]. eexists. split; [reflexivity|]. split; [split; try done|done]. cbn. lia.
Qed.
Lemma probe_item async h : probing async h -> exists other, items !! m_sizeItemCount h = Some other /\ item_type other <> BlobItem.
Proof.
  intros HP. pose proof (lookup_lt_Some _ _ _ lost_item) as HLt. pose proof (probing_count _ _ HP) as HC. destruct (lookup_lt_is_Some_2 items (m_sizeItemCount h)) as (other & HK); [lia|].
  exists other. split; [done|]. destruct (decide (m_sizeItemCount h = j)) as [E|E]; [rewrite E in HK; congruence|]. pose proof (found (m_sizeItemCount h) other ltac:(lia) HK) as HF. unfold sizeFound in HF. by intros ET; rewrite ET in HF.
Qed.

Lemma getSizeLoop_lost fuel : forall h, probing false h -> (j < fuel + m_sizeItemCount h)%nat ->
  exists h', getSizeLoop freshMemory fuel h = notifyResponse freshMemory (h' <| m_errorCode := notFoundError |>) /\ probing false h'.
Proof.
  induction fuel as [|fuel IH]; intros h HP HF; [pose proof (probing_count _ _ HP); lia|]. cbn [getSizeLoop]. rewrite (probing_items _ _ HP). destruct (probe_item _ h HP) as (other & HK & HB). rewrite HK.
  destruct (probing_async _ _ HP) as [HA _]. rewrite HA.
  assert (E : match item_type other with DataItem => didGetSizeThen freshMemory (getSizeLoop freshMemory fuel) (item_length other) h
              | FileItem => didGetSizeThen freshMemory (getSizeLoop freshMemory fuel) (stream_getSize (item_path other) (item_time other)) h | BlobItem => Some h end
            = didGetSizeThen freshMemory (getSizeLoop freshMemory fuel) (sizeNext other) h) by (unfold sizeNext; by destruct (item_type other)).
  rewrite E. destruct (probe_next false (getSizeLoop freshMemory fuel) h other HP HK) as [[_ ->]|(h' & -> & HP' & EC)]; [by exists h|]. apply IH; [done|lia].
Qed.

(** The tasks for the sizes. *)
Lemma getSizeLoop_asks fuel : forall h, probing true h -> (j < fuel + m_sizeItemCount h)%nat ->
  exists other h', getSizeLoop freshMemory fuel h = Some (postFileTask (GetSizeTask (item_path other) (item_time other)) h') /\ probing true h' /\
    items !! m_sizeItemCount h' = Some other /\ item_type other = FileItem /\ (m_sizeItemCount h <= m_sizeItemCount h')%nat.
Proof.
  induction fuel as [|fuel IH]; intros h HP HF; [pose proof (probing_count _ _ HP); lia|]. cbn [getSizeLoop]. rewrite (probing_items _ _ HP). destruct (probe_item _ h HP) as (other & HK & HB). rewrite HK.
  destruct (probing_async _ _ HP) as [HA _]. rewrite HA. destruct (item_type other) eqn:ET; [|by exists other, h|done].
  assert (EN : item_length other = sizeNext other) by (unfold sizeNext; by rewrite ET). rewrite EN.
  destruct (probe_next true (getSizeLoop freshMemory fuel) h other HP HK) as [[Ej _]|(h' & -> & HP' & EC)]; [rewrite Ej in HK; congruence|].
  destruct (IH h' HP' ltac:(lia)) as (other' & h2 & E & HP2 & HK2 & ET2 & HC2). exists other', h2. split_and!; try done. lia.
Qed.
Lemma run_probe n h other : probing true h -> item_type other = FileItem -> runTasks freshMemory (S n) (postFileTask (GetSizeTask (item_path other) (item_time other)) h) =
  h' ← didGetSizeThen freshMemory (getSizeForNext freshMemory) (sizeNext other) h; runTasks freshMemory n h'.
Proof.
  intros HP ET. destruct (probing_async _ _ HP) as (_ & EF & _). rewrite (runTasks_file _ n _ (GetSizeTask (item_path other) (item_time other)) []) by (cbn; by rewrite EF).
  replace (postFileTask _ h <| m_fileTasks := [] |>) with h by (clear - EF; destruct h; cbn in EF; by subst). unfold sizeNext. by rewrite ET.
Qed.
Lemma run_sizes_lost m : forall h, probing true h -> (j - m_sizeItemCount h < m)%nat ->
  exists steps h', (h1 ← getSizeForNext freshMemory h; runTasks freshMemory steps h1) = Some h' /\ m_events h' = [DidReceiveResponse httpNotFound 0; DidFinishLoading].
Proof.
  induction m as [|m IH]; intros h HP HM; [lia|]. unfold getSizeForNext. pose proof (lookup_lt_Some _ _ _ lost_item) as HLt. rewrite (probing_items _ _ HP).
  destruct (getSizeLoop_asks (S (length items)) h HP ltac:(lia)) as (other & h1 & -> & HP1 & HK & ET & HC). cbn [mbind option_bind]. pose proof (fun n => run_probe n h1 other HP1 ET) as ER.
  destruct (probe_next true (getSizeForNext freshMemory) h1 other HP1 HK) as [[Ej EN]|(h2 & EN & HP2 & EC)]; rewrite EN in ER.
  - destruct HP1 as [_ _ [HAb _] HA [HEv _]]. destruct (error_in_background (h1 <| m_errorCode := notFoundError |>)) as (h3 & E3 & h4 & E4 & EV); [exact HA|exact HAb|done|].
    exists 2%nat, h4. rewrite ER, (option_bind_some _ _ _ E3). split; [done|]. rewrite EV. cbn. by rewrite HEv.
  - pose proof (probing_count _ _ HP2) as HC2. destruct (IH h2 HP2 ltac:(lia)) as (steps & h' & E' & EV). exists (S steps), h'. by rewrite ER.
Qed.
End FileNotFound.

(** ** Cancelling *)

(** Whatever a handle has posted before it is cancelled, its client is told of
    nothing more, and the tasks end. *)
Lemma aborted_is_silent n : forall h, m_aborted h = true -> m_fileTasks h = [] -> (length (m_mainTasks h) <= n)%nat ->
  exists h', runTasks freshMemory n h = Some h' /\ m_events h' = m_events h.
Proof.
  induction n as [|n IH]; intros h HA HF HL; destruct (m_mainTasks h) as [|task tasks] eqn:EM; try (cbn in HL; lia); try (exists h; split; [by apply runTasks_none|done]).
  rewrite (runTasks_main freshMemory n h task tasks) by done. assert (ET : runMainTask freshMemory task (h <| m_mainTasks := tasks |>) = Some (h <| m_mainTasks := tasks |>)).
  { destruct task; cbn [runMainTask]; [unfold doStart, stopped|]; change (m_aborted (h <| m_mainTasks := tasks |>)) with (m_aborted h); by rewrite HA. }
  rewrite ET. destruct (IH (h <| m_mainTasks := tasks |>)) as (h' & E & EV); [exact HA|exact HF|cbn in *; lia|]. exists h'. split; [exact E|exact EV].
Qed.
Lemma cancelled_is_silent h : m_async h = true -> exists h', runTasks freshMemory (length (m_mainTasks h)) (BlobResourceHandle.cancel h) = Some h' /\ m_events h' = m_events h.
Proof.
  intros HA. unfold BlobResourceHandle.cancel. rewrite HA. set (h0 := _ <| m_aborted := true |>).
  destruct (aborted_is_silent (length (m_mainTasks h)) h0) as (h' & E & EV); [done..|]. exists h'. split; [exact E|exact EV].
Qed.

(** ** Requests that are refused *)

(** What is refused, with the status of the answer. *)
Inductive refused : option BlobData -> list UChar -> Z -> Prop :=
  | BlobNotFound range : refused None range httpNotFound
  | RangeNotRead blob range : range <> [] -> (parseRange range).1 = false -> refused (Some blob) range httpRequestedRangeNotSatisfiable
  | FileNotFound blob range r j item : asksFor range r -> blob_items blob !! j = Some item -> item_type item = FileItem -> stream_getSize (item_path item) (item_time item) = -1 ->
      (forall i other, (i < j)%nat -> blob_items blob !! i = Some other -> sizeFound other = true) -> refused (Some blob) range httpNotFound.

(** What [doStart] does then. *)
Definition tellsError (status : Z) (async : bool) (result : option BlobHandle) : Prop :=
  if async then exists steps h, (h1 ← result; runTasks freshMemory steps h1) = Some h /\ m_events h = [DidReceiveResponse status 0; DidFinishLoading]
  else exists h, result = Some h /\ m_loader h = mkLoader None (Some (status, 0)) [].

Lemma tellsError_now status async h : status = errorStatus (m_errorCode h) -> (forall n, length (freshMemory n) = n) -> m_async h = async -> m_fileTasks h = [] -> m_mainTasks h = [] -> m_aborted h = false -> m_errorCode h <> 0 ->
  m_events h = [] -> m_loader h = mkLoader None None [] -> tellsError status async (notifyResponse freshMemory h).
Proof.
  intros -> HM HA HF HMt HAb HE HEv HL. destruct async; cbn [tellsError].
  - destruct (error_in_background h) as (h1 & E1 & h2 & E2 & EV); [done|done|done|]. exists 1%nat, h2. rewrite (option_bind_some _ _ _ E1), EV, HEv. done.
  - destruct (error_at_once h HM HA HE) as (h1 & E1 & EL & _). exists h1. split; [done|]. rewrite EL, HL. done.
Qed.

Lemma started_probing blob range async r j : probing (blob_items blob) j async (startedHandle blob range async r).
Proof. split; try done. cbn. lia. Qed.

(** The size is asked for once more in a load that is done at once: the answer
    is the same. *)
Lemma sizesLoop_lost blob range r j item : (forall n, length (freshMemory n) = n) -> blob_items blob !! j = Some item -> item_type item = FileItem -> stream_getSize (item_path item) (item_time item) = -1 ->
  (forall i other, (i < j)%nat -> blob_items blob !! i = Some other -> sizeFound other = true) ->
  tellsError httpNotFound false (h ← sizesLoop freshMemory (length (blob_items blob)) (startedHandle blob range false r); notifyResponse freshMemory h).
Proof.
  intros HM HK ET HLo HFo. pose proof (lookup_lt_Some _ _ _ HK) as HLt. pose proof (started_probing blob range false r j) as HP. set (h := startedHandle blob range false r) in *.
  assert (ER : exists rounds, length (blob_items blob) = S rounds) by (exists (length (blob_items blob) - 1)%nat; lia). destruct ER as (rounds & ER).
  destruct (getSizeLoop_lost (blob_items blob) j item HK ET HLo HFo (S (length (handleItems h))) h HP) as (h1 & E1 & HP1); [change (handleItems h) with (blob_items blob); lia|].
  destruct (error_at_once (h1 <| m_errorCode := notFoundError |>) HM) as (h2 & E2 & EL2 & EE2 & EA2); [apply HP1|done|].
  destruct (error_at_once h2 HM EA2) as (h3 & E3 & EL3 & _); [by rewrite EE2|].
  assert (ES : sizesLoop freshMemory (length (blob_items blob)) h = Some h2).
  { rewrite ER. cbn [sizesLoop]. change (stopped h) with false. unfold getSizeForNext. rewrite E1, E2. cbn [mbind option_bind]. destruct rounds; [done|]. cbn [sizesLoop].
    unfold stopped. rewrite EE2. by destruct (m_aborted h2). }
  rewrite (option_bind_some _ _ _ ES). exists h3. split; [done|]. rewrite EL3, EE2, EL2. destruct (probing_events _ _ _ _ HP1) as [_ EL1].
  change (m_loader (h1 <| m_errorCode := notFoundError |>)) with (m_loader h1). by rewrite EL1.
Qed.

Lemma doStart_refused blobData range status async : (forall n, length (freshMemory n) = n) -> refused blobData range status ->
  tellsError status async (doStart freshMemory (newBlobHandle blobData range async)).
Proof.
  intros HM [range'|blob range' HN HR|blob range' r j item HA HK ET HLo HFo].
  - unfold doStart. cbn [m_blobData newBlobHandle]. change (stopped _) with false. cbn [orb]. by apply tellsError_now.
  - unfold doStart. change (stopped _) with false. cbn [m_blobData newBlobHandle m_range]. destruct range' as [|c range']; [done|]. destruct (parseRange (c :: range')) as [ok r]. cbn in HR. subst ok. cbn [negb].
    by apply tellsError_now.
  - rewrite (doStart_range freshMemory blob range' async r HA). destruct async; [|by eapply sizesLoop_lost].
    apply (run_sizes_lost (blob_items blob) j item HK ET HLo HFo (S j) _ (started_probing blob range' true r j)). lia.
Qed.

(** C13: requests that are refused.  If there is no blob, if the range cannot be
    read, or if the size of a file is not found, because it was moved or changed, a
    load at once has the status 404 or 416 and no bytes, and a load in the
    background ends, and tells the client of that status and of the end, of no
    bytes and of nothing else. *)
Theorem blob_load_refused (m_blobs : BlobRegistry) (httpMethod url range : list UChar) (status : Z) :
  equalIgnoringCase httpMethod (str "GET") = true -> (forall n, length (freshMemory n) = n) -> refused (getBlobDataFromURL url m_blobs) range status ->
  loadBlobSynchronously freshMemory httpMethod url range m_blobs = Some (mkLoader None (Some (status, 0)) []) /\
  exists steps h, (forall fuel, (steps <= fuel)%nat -> (h0 ← createResourceHandle freshMemory httpMethod url range m_blobs; runTasks freshMemory fuel h0) = Some h) /\
    m_events h = [DidReceiveResponse status 0; DidFinishLoading].
Proof.
  intros HG HM HR. unfold loadBlobSynchronously, createResourceHandle, loadResourceSynchronously, createAsync. rewrite HG. cbn [negb]. set (blobData := getBlobDataFromURL url m_blobs) in *. split.
  - destruct (doStart_refused blobData range status false HM HR) as (h & E & EL). unfold start. change (m_async (newBlobHandle blobData range false)) with false. rewrite E. cbn [fmap option_fmap option_map]. by rewrite EL.
  - destruct (doStart_refused blobData range status true HM HR) as (steps & h & E & EV). exists (S steps), h. split; [|done]. intros fuel HF. replace fuel with (S steps + (fuel - S steps))%nat by lia.
    cbn [mbind option_bind]. unfold start. change (m_async (newBlobHandle blobData range true)) with true. cbn [mbind option_bind]. apply runTasks_more. rewrite (runTasks_main freshMemory steps _ StartTask []) by done. exact E.
Qed.
End Errors.

Import BlobSamples.

(** A blob with a file that was changed. *)
Definition changedBlob : BlobData := mkBlobData [] [] [dataItem (str "hello") 0 5; fileItem [] 2 6 (Some 8)].
Definition changedRegistry : BlobRegistry := <[str "blob:1" := changedBlob]> ∅.
Lemma blob_load_refused_witness :
  loadBlobSynchronously sampleMemory (str "GET") (str "blob:1") (str "bytes=0-1") changedRegistry = Some (mkLoader None (Some (404, 0)) []) /\
  exists steps h, (forall fuel, (steps <= fuel)%nat -> (h0 ← createResourceHandle sampleMemory (str "GET") (str "blob:1") (str "bytes=0-1") changedRegistry; runTasks sampleMemory fuel h0) = Some h) /\
    m_events h = [DidReceiveResponse 404 0; DidFinishLoading].
Proof.
  assert (HR : refused (getBlobDataFromURL (str "blob:1") changedRegistry) (str "bytes=0-1") httpNotFound).
  { rewrite (lookup_insert_eq _ _ _ : getBlobDataFromURL (str "blob:1") changedRegistry = Some changedBlob). apply (FileNotFound changedBlob (str "bytes=0-1") (FromTo 0 1) 1 (fileItem [] 2 6 (Some 8))); try (vm_compute; reflexivity). intros [|i] other HI HK; [injection HK as <-; reflexivity|lia]. }
  exact (blob_load_refused sampleMemory changedRegistry (str "GET") (str "blob:1") (str "bytes=0-1") httpNotFound eq_refl sampleMemory_length HR).
Defined.

(** ** Ranges that are not read as they are asked for *)

Definition helloWorld : BlobData := mkBlobData [] [] [dataItem (str "hello") 0 5; dataItem (str "world") 0 5].
Definition hello : BlobData := mkBlobData [] [] [dataItem (str "hello") 0 5].
Definition loadedAtOnce (blob : BlobData) (range : list UChar) : option Loader := loadResourceSynchronously sampleMemory (str "GET") (Some blob) range.
Definition toldInBackground (blob : BlobData) (range : list UChar) : option (list BlobEvent) :=
  m_events <$> (h0 ← createAsync (str "GET") (Some blob) range; h1 ← start sampleMemory h0; runTasks sampleMemory 20 h1).

(** In the background, the position in the first item is reset only when the
    items behind it have been read: it is skipped in each of them too. *)
Lemma position_kept_in_next_item : toldInBackground helloWorld (str "bytes=1-") =
  Some [DidReceiveResponse 206 9; DidReceiveData (str "ello"); DidReceiveData (str "orld"); DidFinishLoading].
Proof. vm_compute. reflexivity. Qed.
(** At once, the handle goes to its range once for every item: a range without an
    end and a suffix are taken off the size again each time. *)
Lemma range_sought_again :
  loadedAtOnce helloWorld (str "bytes=1-") = Some (mkLoader None (Some (206, 8)) (str "elloworl")) /\
  loadedAtOnce helloWorld (str "bytes=-3") = Some (mkLoader None (Some (206, 3)) (str "hel")).
Proof. by vm_compute. Qed.
(** A suffix that is longer than the blob: memory before the data is read, or,
    with one byte more, the whole blob is the answer to no range. *)
Lemma long_suffix_before_data :
  loadedAtOnce hello (str "bytes=-9") = None /\ toldInBackground hello (str "bytes=-9") = None /\
  loadedAtOnce hello (str "bytes=-6") = Some (mkLoader None (Some (200, 5)) (str "hello")).
Proof. by vm_compute. Qed.
(** A range behind the end: a length that is negative, or memory that was never
    written is delivered as part of the blob. *)
Lemma range_behind_end :
  loadedAtOnce hello (str "bytes=9-") = None /\
  loadedAtOnce hello (str "bytes=9-20") = Some (mkLoader None (Some (206, 5)) (str "?????")) /\
  loadedAtOnce hello (str "bytes=2-9") = Some (mkLoader None (Some (206, 5)) (str "llo??")).
Proof. by vm_compute. Qed.
(** The length of a range up to the largest number overflows: the length of the
    response is negative, and there are no bytes. *)
Lemma range_length_overflows : toldInBackground hello (str "bytes=0-9223372036854775807") = Some [DidReceiveResponse 206 (- 2 ^ 63); DidFinishLoading].
Proof. vm_compute. reflexivity. Qed.
(** The client of a load at once is told twice of a file that is not found. *)
Lemma error_told_twice : m_events <$> start sampleMemory (newBlobHandle (Some changedBlob) [] false) =
  Some [DidReceiveResponse 404 0; DidFinishLoading; DidReceiveResponse 404 0; DidFinishLoading].
Proof. vm_compute. reflexivity. Qed.
(** A file of more than two gigabytes that is read to a position: the number of
    bytes to read is cut to 32 bits in the background. *)
Lemma large_range_cut :
  m_fileTasks <$> readFileAsync (fileItem [] 0 (2 ^ 33) (Some 7)) (newBlobHandle (Some hello) [] true <| m_itemLengthList := [2 ^ 33] |> <| m_totalRemainingSize := 2 ^ 32 + 5 |>) =
  Some [OpenTask [] 0 5].
Proof. vm_compute. reflexivity. Qed.
