(* ===== verification/BlobRegistrySpec.v ===== *)
(** * Slicing and loading blobs that are registered

    What a script sees of a blob: its slices have the bytes that the File API
    says, and a load by its URL delivers the bytes of the range that is asked
    for. *)

From S2P Require Import Prelude CharacterSource IntegerParsing WebSocketHandshake HTTPParsers Blob BlobSpec BlobResourceHandle BlobReading BlobSeek.
From stdpp Require Import gmap.
Open Scope Z_scope.

Section Registered.
Context `{CaseFolding} `{CharDirection} `{FileContents}.
Variable freshMemory : nat -> list Z.

(** C11: a blob that is loaded at once.  For a registered blob of fewer than 2^31 bytes
    (the code refuses more), of parts of data and of files that have not changed, whatever number of bytes the system reads at a
    time, the loader has the response with the status and the length, and the bytes
    of the range that was asked for, all of them and nothing else: everything, or
    from a byte to a byte, or, if the blob is a single item, from a byte on or
    so many bytes at the end.  No access is beyond a buffer. *)
Theorem blob_loaded_at_once (m_blobs : BlobRegistry) (httpMethod url range : list UChar) (blob : BlobData) (r : RangeOf) :
  let bytes := itemsBytes (blob_items blob) in
  equalIgnoringCase httpMethod (str "GET") = true -> (forall n, length (freshMemory n) = n) -> getBlobDataFromURL url m_blobs = Some blob ->
  Forall itemOk (blob_items blob) -> sizeOf bytes < 2 ^ 31 -> asksFor range r -> rangeWithin (sizeOf bytes) r -> seeksOnce r = true \/ length (blob_items blob) = 1%nat ->
  loadBlobSynchronously freshMemory httpMethod url range m_blobs = Some (mkLoader None (Some (rangeStatus r, rangeSize (sizeOf bytes) r)) (rangeBytes r bytes)).
Proof. cbv zeta. intros HG HM HB. unfold loadBlobSynchronously. rewrite HB. by apply handle_loads_at_once. Qed.

End Registered.

Import BlobSamples.

Lemma blob_loaded_at_once_witness :
  loadBlobSynchronously sampleMemory (str "get") (str "blob:1") (str "bytes=3-11") sampleRegistry = Some (mkLoader None (Some (206, 9)) (str "lo234567w")).
Proof.
  assert (EA : asksFor (str "bytes=3-11") (FromTo 3 11)) by (vm_compute; reflexivity).
  exact (blob_loaded_at_once sampleMemory sampleRegistry (str "get") (str "blob:1") (str "bytes=3-11") sampleBlob (FromTo 3 11) eq_refl sampleMemory_length sampleRegistered sampleItemsOk
    ltac:(vm_compute; reflexivity) EA ltac:(vm_compute; split_and!; done) (or_introl eq_refl)).
Defined.

